(* ===== verification/_CoqProject ===== *)
-Q . S2P
Prelude.v
GoLib.v
GoFloat.v
GoText.v
GoDuration.v
Errors.v
Redact.v
Machine.v
FileStore.v
Retention.v
Authz.v
Approval.v
KeyLedger.v
OpRecord.v
Plans.v
Sessions.v
Sweeps.v
ProxyRouting.v
ProxyControl.v
ProxyControlSafety.v
MatrixPlan.v
MatrixPlanSafety.v
MatrixExec.v
MatrixExecSafety.v
MatrixRun.v
MatrixHistory.v
MatrixSession.v
MatrixRunSafety.v
Supervisor.v
HealthTiers.v
HealthConfig.v
HealthDaemon.v
HealthSafety.v
Workspace.v
Update.v
DeployState.v
Versions.v
VersionHistory.v
EnvStore.v
SecretStore.v
SecretSafety.v
SecretPins.v
WebhookLedger.v
WebhookJobs.v
WebhookServer.v
WebhookRebuild.v
Engine.v
Traffic.v
Lifecycle.v
Rolling.v
SecretTxn.v
RollingSafety.v
BlueGreen.v
BlueGreenPhases.v
BlueGreenSafety.v
BlueGreenAtomic.v
Rollback.v
RollbackPlan.v
RollbackSafety.v
RollbackChecks.v
Rollout.v
RolloutVerify.v
RolloutSafety.v
