(* ===== verification/Prelude.v ===== *)
(** * Phelix: a verification development

    Phelix (src/) is a deployment tool for one host: a CLI and an agent that
    build an application, run it, replace it without downtime behind a local
    reverse proxy, keep versions to roll back to, restart workers that crash,
    and let automated actors do all this through plans, approvals, sessions and
    idempotency keys.  This library models its decision-making core as
    executable functions, one file per component, and proves what makes each
    component correct.

    ** How the program is cut

    - _Foundations._  This file: fallible code ([result]), 64-bit integers
      ([wrap64]), the tactics [bool_prop] and friends.  [GoLib], [GoFloat],
      [GoText], [GoDuration]: what the code uses of Go's standard library -
      strings, strconv, sorting, regular expressions, float64, runes, durations.  [Errors]
      (internal/errors): codes, wrapping, retryability.  [Machine]
      (internal/machine): the JSON envelopes.  [FileStore]: the file-system
      calls of every store as small programs over a map of files, with a fault
      for any call and the states a crash can leave; all stores share its
      atomic-replace and create-only lemmas.  [Retention]: the sweep that every
      store of records shares, against the class [StoredRecord].
    - _Control plane._  [Authz] and [Approval] (internal/authz): requests,
      policy, gate, approvals, the log of decisions.  [KeyLedger], [OpRecord]
      (internal/ops): idempotency keys and operation records.  [Plans]
      (internal/plans), [Sessions] (internal/session).  [Sweeps]
      (cmd/retention.go) composes their sweeps with what protects a record.
    - _Data plane._  [ProxyRouting] (internal/proxy): target sets, smooth
      weighted round robin, liveness fallback, counters.  [ProxyControl]
      (control.go, accesslog.go): the daemon's requests and answers, its state
      file and restoration, the client; verified in [ProxyControlSafety].
      [Supervisor]
      (internal/supervisor): one reconcile pass over workers, and many over the
      record in the file, whose write may fail.  [Workspace]
      (internal/workspace): dependency levels and ports.  [Update]
      (internal/update): versions and self-update.
    - _Deployment._  [DeployState]: deploy.json, its store, strategies and the
      liveness of instances (state.go, instance.go, docker_identity.go).
      [Versions], [VersionHistory]: versions.json and the current pointer
      (version.go).  [Engine]: a run as a function over a [world] - journal,
      version store, proxy route, a trace of what traffic sees - in a state and
      error monad, with an oracle [env] that answers the n-th external call, so
      that a statement for all [env] covers every interleaving of failures; it
      also holds the triples ([wp]) the strategies are verified with.
      [Traffic]: the triples both strategies share.  [Lifecycle]
      (lifecycle.go): reconcile, teardown, restart, orphans.  [Rolling] and
      [BlueGreen] (rolling.go, bluegreen.go): the two strategies, with every
      compensation.  [BlueGreenPhases] verifies the steps before the commit
      once, for any client of its class [Phases]; [BlueGreenSafety] and
      [BlueGreenAtomic] are two clients.  [Rollout] (rollout.go): canary and
      progressive rollouts, verified in [RolloutSafety]; [RolloutVerify]
      (rollout_verify.go): the observation whose verdict a step acts on.
      [HealthTiers] (internal/health/tiered.go): what healthy means to a
      deployment.  [Rollback] (rollback.go and its neighbours): a rollback as
      steps over the world of a deployment, the secret store, the masked values,
      the log and the history, with the automatic recovery; [RollbackPlan]: its
      dry run; [RollbackSafety] and [RollbackChecks] verify them.
    - _Build matrix_ (internal/matrix, cmd/matrix_*.go).  [MatrixPlan]: rules,
      profiles and the expansion.  [MatrixExec]: retries, and the worker pool as
      a step relation over its statements.  [MatrixRun]: the record of a run,
      its counters and selections.  [MatrixHistory]: runs, the append-only
      journal at the grain a write can be cut at, manifests.  [MatrixSession]:
      the lock, sessions, resume and retry.  [MatrixPlanSafety],
      [MatrixExecSafety] and [MatrixRunSafety] verify them.
    - _Health_ (internal/health).  [HealthConfig]: the configuration on disk and
      its locked edits.  [HealthDaemon]: the checkers, the state of an endpoint
      with its automatic restarts, the worker that carries them out and the lock
      they share, as a step relation; verified in [HealthSafety].
    - _Webhooks_ (internal/webhook).  [WebhookLedger]: the bounded ledger of
      deliveries.  [WebhookJobs]: job records and recovery.  [WebhookServer]:
      signatures, payloads, the handler, the queues, and the interleavings of
      requests, workers, crashes and restarts as a step relation.
      [WebhookRebuild]: from a job to runs of the rebuild command.
    - _Secrets._  [Redact] (internal/errors/redact*.go).  [EnvStore]
      (internal/env): sealed values, the master key, variables.  [SecretStore]
      (internal/secrets/store.go): versioned secrets, bindings and the pending
      transaction of a deployment; [SecretSafety] runs both stores on one host.
      [SecretPins] (pinned.go, overlay.go, security.go): from the store to the
      variables of a process.  [SecretTxn] (internal/deploy/secrets_txn.go,
      secret_orphans.go): the transaction that ties the bindings of a deployment
      to what the journal accepted.

    Definitions keep the names of the source and carry the file (and, where a
    function is cut in pieces, the lines) they translate.

    ** What is shown

    - _Deployments._  No instance is stopped while the proxy routes to it and
      only healthy instances are ever routed to, whatever call fails, for
      blue-green ([BlueGreenSafety]), rolling ([RollingSafety]) and rollouts
      ([RolloutSafety]), which end on one version.  These assume what each
      file's [lawful] and [agrees] or [consistent] say: a proxy call that
      reports an error was not carried out, a launched process gets a port not
      in use, the record agrees with the proxy when the run begins; rolling
      deployments and rollbacks also that the application has no secrets.  The
      examples beside the theorems run what happens without.  A canary is
      verified only by a whole window of healthy sweeps ([RolloutVerify]); a
      blue-green run in which at most one file-system, version-store or proxy
      call fails commits in journal, route and version store or in none of
      them, and one without failure completes ([BlueGreenAtomic]).
      Reconcile, restart and teardown do what they record ([Lifecycle]);
      promotion, pruning and lookup of versions are sound ([Versions],
      [VersionHistory]).  A rollback does not cut traffic either, its history
      tells how the deployment it ran ended, a recovery deploys a good version
      or touches nothing, the dry run of a native application agrees with the
      rollback's own checks, and the observation ends ([RollbackSafety],
      [RollbackChecks]).
    - _Control plane._  Authorisation refines the policy and fails closed; an
      approval authorises only its plan; a running idempotency key is never
      executed twice and its file stays valid under faults; plans are
      immutable; sessions are append-only, well formed, and updated only at the
      expected revision; sweeps drop only what nothing refers to.
    - _Data plane._  The round robin is exact over a cycle; an acknowledged
      change of the routes survives a restart of the daemon, a refused one
      leaves no trace and a restored route answers; restarts stay within their
      budget while their records are written, and every action of the
      supervisor is justified; dependency levels exist exactly for acyclic
      manifests; after an update the target holds what the result says.
    - _Build matrix._  The expansion is exact; the pool starts no attempt twice
      and ends; retries follow the policy; the counters of a run agree with its
      entries; the journal refines a map of entries across crashes, and a
      resume builds exactly what has no journaled result.
    - _Health._  The checkers that run are the configured ones, automatic
      restarts are limited and spaced while the state of the endpoint is kept,
      an edited configuration keeps identities and is read back.
    - _Webhooks._  Only authentic pushes are admitted, a delivery is built at
      most once, an acknowledged job is on disk, job records only move forward
      and a restart that can read them closes what was interrupted, a rebuild
      with a working store closes its job.
    - _Secrets._  A registered value without the characters of the masks never
      survives [Redact], nor does a credential marker in ASCII text.  Whatever fails or is lost, one key opens everything
      that is stored and a lost key is never replaced over stored values; a
      secret set is resolved back; pinned values stay masked until closed; the
      bindings in force are those of the deployment the journal accepted.

    Each theorem with hypotheses has a witness that applies it to a concrete
    input; the [Example]s beside them are runs on which the code does not do
    what it means to.

    ** Bounds and fuel

    Recursion that is not structural runs on fuel, and a lemma shows it
    suffices: making room in the ledger ([2 * n + 1] turns, each removes or
    closes an entry), dependency levels (one more than the number of names),
    the reported cycle (names + 2 steps), the search for a free port
    ([65536 - c] candidates), the star of a regular expression and the runes
    of a text (the length of the string), the window of a canary and of a
    rollback (its duration over the interval, plus two), the wait for a healthy
    instance (its retries and its timeout bound the probes).  A rebuild runs at most three times, and its
    wait for the deploy lock, which has no bound in the code, takes a number of
    probes: it is out of them only when every probe found the lock held.  The
    start of the proxy daemon polls 350 times, the code's deadline over its
    pause.  An execution of the matrix makes at most
    [(retries + 3) * combinations + workers + 1] steps.  Integers are [Z]; where the code can overflow the wrap-around
    is written out ([wrap64]).  Time is an integer the caller observes.

    ** Not modelled

    Process launch, Docker, HTTP, gRPC and terminal output are calls whose
    answers are parameters ([os_view], [env], observations of the supervisor).
    Telemetry and log lines only observe and are left out.  So are the builders
    that run toolchains, the decoding of phelix.yaml outside of the sections
    named above, the writing and rotation of logs, the streams of the gRPC
    agent, and the front ends (server, mcp, most of cmd), which wire the
    components together.
*)

From Stdlib Require Export ZArith Lia Ascii.
From stdpp Require Export base numbers strings gmap sorting pretty option list.
From stdpp Require Export prelude.

#[export] Set Warnings "-clear-no-such-hyp".
#[global] Open Scope string_scope.
#[global] Open Scope Z_scope.
#[global] Open Scope list_scope.

Declare Scope phelix_scope.
Delimit Scope phelix_scope with phelix.
#[global] Open Scope phelix_scope.

(** ** Fallible code

    A Go function that returns [(T, error)] is a function into [result E T];
    the sentinel [nil] error is [Ok].  [E] is instantiated once the error type
    of [internal/errors] is defined (file Errors). *)

Inductive result (E A : Type) : Type :=
| Ok (a : A)
| Err (e : E).
Arguments Ok {E A} a.
Arguments Err {E A} e.

#[export] Instance result_ret E : MRet (result E) := λ A a, Ok a.
#[export] Instance result_bind E : MBind (result E) := λ A B f m,
  match m with Ok a => f a | Err e => Err e end.
#[export] Instance result_fmap E : FMap (result E) := λ A B f m,
  match m with Ok a => Ok (f a) | Err e => Err e end.

(** [if cond { return err }]. *)
Definition fail_if {E} (b : bool) (e : E) : result E unit :=
  if b then Err e else Ok tt.

(** [if err == nil] as a boolean. *)
Definition is_ok {E A} (r : result E A) : bool :=
  match r with Ok _ => true | Err _ => false end.

(** The error of a fallible call, Go's second result ([None] is [nil]). *)
Definition err_of {E A} (r : result E A) : option E :=
  match r with Ok _ => None | Err e => Some e end.

(** [for _, x := range l { if err := f(x); err != nil { return err } }]. *)
Fixpoint for_each {E A} (f : A → result E unit) (l : list A) : result E unit :=
  match l with
  | [] => Ok tt
  | x :: l' => f x ≫= λ _, for_each f l'
  end.

(** The same loop with the 0-based index of [for i, x := range l]. *)
Fixpoint for_each_idx {E A} (f : Z → A → result E unit) (i : Z) (l : list A)
  : result E unit :=
  match l with
  | [] => Ok tt
  | x :: l' => f i x ≫= λ _, for_each_idx f (i + 1) l'
  end.

Lemma bind_Ok {E A B} (m : result E A) (f : A → result E B) b :
  (m ≫= f) = Ok b ↔ ∃ a, m = Ok a ∧ f a = Ok b.
Proof.
  destruct m as [a|e]; simpl; split; eauto; [|done|].
  - by intros (a' & [= ->] & ?).
  - by intros (? & ? & ?).
Qed.

Lemma bind_Err {E A B} (m : result E A) (f : A → result E B) e :
  (m ≫= f) = Err e ↔ m = Err e ∨ ∃ a, m = Ok a ∧ f a = Err e.
Proof.
  destruct m as [a|e']; simpl; split; eauto.
  - by intros [?|(a' & [= ->] & ?)].
  - intros [= ->]. by left.
  - by intros [[= ->]|(? & ? & ?)].
Qed.

Lemma fail_if_Ok {E} b (e : E) u : fail_if b e = Ok u ↔ b = false.
Proof. by destruct b, u. Qed.

Lemma fail_if_Err {E} b (e e' : E) : fail_if b e = Err e' ↔ b = true ∧ e = e'.
Proof. destruct b; simpl; split; [by intros [= ->]|by intros [_ ->]|done|by intros []]. Qed.

Lemma is_ok_true {E A} (r : result E A) : is_ok r = true ↔ ∃ a, r = Ok a.
Proof. destruct r; simpl; split; eauto; [done|by intros []]. Qed.

Lemma for_each_Ok {E A} (f : A → result E unit) l :
  for_each f l = Ok tt ↔ Forall (λ x, f x = Ok tt) l.
Proof.
  induction l as [|x l IH]; simpl; [split; auto|].
  rewrite Forall_cons, <- IH, bind_Ok. split.
  - intros ([] & ? & ?). done.
  - intros [? ?]. by exists tt.
Qed.

Lemma for_each_idx_Ok {E A} (f : Z → A → result E unit) i l :
  for_each_idx f i l = Ok tt →
  ∀ (n : nat) x, l !! n = Some x → f (i + Z.of_nat n) x = Ok tt.
Proof.
  revert i. induction l as [|y l IH]; intros i Hok n x Hn; [done|].
  simpl in Hok. apply bind_Ok in Hok as ([] & Hy & Hl).
  destruct n as [|n]; simplify_eq/=; [by rewrite Z.add_0_r|].
  replace (i + Z.of_nat (S n)) with ((i + 1) + Z.of_nat n) by lia. eauto.
Qed.

(** ** Booleans and decisions *)

Notation "x =s y" := (String.eqb x y) (at level 70) : phelix_scope.
Notation "x <>s y" := (negb (String.eqb x y)) (at level 70) : phelix_scope.

#[global] Arguments String.eqb : simpl never.

(** [switch s { case a, b, ...: ... }] over strings. *)
Definition one_of (s : string) (l : list string) : bool := existsb (String.eqb s) l.

Lemma one_of_true s l : one_of s l = true ↔ s ∈ l.
Proof.
  unfold one_of. rewrite existsb_exists. split.
  - intros (x & Hx & ->%String.eqb_eq). by apply list_elem_of_In.
  - intros Hs. exists s. split; [by apply list_elem_of_In | apply String.eqb_refl].
Qed.

Lemma one_of_false s l : one_of s l = false ↔ s ∉ l.
Proof. rewrite <- one_of_true. by destruct (one_of s l); naive_solver. Qed.

(** ** Machine integers

    Go's [int], [int64] and [time.Duration] are two's complement words of 64
    bits on the platforms Phelix targets. *)

Definition wrap64 (x : Z) : Z := (x + 2 ^ 63) mod 2 ^ 64 - 2 ^ 63.

Definition in_int64 (x : Z) : Prop := - 2 ^ 63 ≤ x < 2 ^ 63.

Lemma wrap64_id x : in_int64 x → wrap64 x = x.
Proof. unfold in_int64, wrap64. intros ?. rewrite Z.mod_small; lia. Qed.

Lemma wrap64_range x : in_int64 (wrap64 x).
Proof.
  unfold in_int64, wrap64.
  pose proof (Z.mod_pos_bound (x + 2 ^ 63) (2 ^ 64)). lia.
Qed.

(** ** Transition sequences

    The reflexive transitive closure of a labelled step relation, with the
    labels (the operations of a history) from the oldest to the newest. *)

Inductive steps {S L : Type} (step : S → L → S → Prop) : S → list L → S → Prop :=
| steps_nil s : steps step s [] s
| steps_cons s l s' ls s'' :
    step s l s' → steps step s' ls s'' → steps step s (l :: ls) s''.

Section Steps.
Context {S L : Type} (step : S → L → S → Prop).

Lemma steps_app s ls s' ls' s'' :
  steps step s ls s' → steps step s' ls' s'' → steps step s (ls ++ ls') s''.
Proof. induction 1; simpl; eauto using @steps. Qed.

Lemma steps_invariant (I : S → Prop) :
  (∀ s l s', step s l s' → I s → I s') →
  ∀ s ls s', steps step s ls s' → I s → I s'.
Proof. intros Hstep. induction 1; eauto. Qed.
End Steps.

(** ** Lists *)

Section ListLemmas.
Context {A : Type}.

Lemma find_split (f : A → bool) l x :
  List.find f l = Some x ↔
  ∃ l1 l2, l = l1 ++ x :: l2 ∧ f x = true ∧ Forall (λ y, f y = false) l1.
Proof.
  induction l as [|y l IH]; simpl.
  - split; [done|]. intros (l1 & l2 & Heq & _). by destruct l1.
  - destruct (f y) eqn:Hy; split.
    + intros [= ->]. exists [], l. auto.
    + intros (l1 & l2 & Heq & Hx & Hl1).
      destruct l1 as [|z l1]; simplify_eq/=; [done|].
      apply Forall_cons in Hl1 as [? _]. congruence.
    + rewrite IH. intros (l1 & l2 & -> & ? & ?). exists (y :: l1), l2. auto.
    + intros (l1 & l2 & Heq & Hx & Hl1). rewrite IH.
      destruct l1 as [|z l1]; simplify_eq/=; [congruence|].
      apply Forall_cons in Hl1 as [? ?]. eauto.
Qed.

Lemma filter_delete_middle (l1 l2 : list A) (P : A → Prop) `{!∀ x, Decision (P x)} x :
  ¬ P x → filter P (l1 ++ x :: l2) = filter P (l1 ++ l2).
Proof. intros. rewrite !filter_app, filter_cons. by rewrite decide_False. Qed.

Lemma NoDup_List_filter (f : A → bool) l : NoDup l → NoDup (List.filter f l).
Proof. rewrite !NoDup_ListNoDup. apply List.NoDup_filter. Qed.

Lemma NoDup_omap_inj {B} (f : A → option B) l :
  NoDup l → (∀ x y z, f x = Some z → f y = Some z → x = y) → NoDup (omap f l).
Proof.
  intros Hl Hinj. induction Hl as [|x l Hx Hl IH]; simpl; [constructor|].
  destruct (f x) as [z|] eqn:E; [|done]. constructor; [|done].
  intros (y & Hy & Hz)%list_elem_of_omap. apply Hx. by rewrite (Hinj x y z).
Qed.
End ListLemmas.

Lemma List_last_irrel {A} (x : A) l d d' : List.last (x :: l) d = List.last (x :: l) d'.
Proof. revert x. induction l as [|y l IH]; intros x; [done|]. apply (IH y). Qed.

Lemma List_filter_fmap {A B} (f : B → bool) (g : A → B) l :
  List.filter f (g <$> l) = g <$> List.filter (λ x, f (g x)) l.
Proof.
  induction l as [|x l IH]; [done|]. rewrite fmap_cons. simpl. rewrite IH.
  by destruct (f (g x)).
Qed.

Lemma sublist_fmap {A B} (f : A → B) l1 l2 :
  l1 `sublist_of` l2 → f <$> l1 `sublist_of` f <$> l2.
Proof. induction 1; simpl; by constructor. Qed.

(** ** Automation *)

Create HintDb phelix discriminated.
Create Rewrite HintDb phelix.
#[export] Hint Constructors steps : phelix.
#[export] Hint Resolve wrap64_range : phelix.

(** Invert every monadic equation in the context. *)
Ltac inv_result :=
  repeat match goal with
  | H : Ok _ = Ok _ |- _ => injection H as H; subst
  | H : Err _ = Err _ |- _ => injection H as H; subst
  | H : Ok _ = Err _ |- _ => discriminate H
  | H : Err _ = Ok _ |- _ => discriminate H
  | H : (_ ≫= _) = Ok _ |- _ =>
      let a := fresh "a" in let Ha := fresh "Ha" in
      apply bind_Ok in H as (a & Ha & H)
  | H : fail_if _ _ = Ok _ |- _ => apply fail_if_Ok in H
  | u : unit |- _ => destruct u
  end.

(** Split every [if] and [match] of the hypothesis [H] on its scrutinee. *)
Ltac split_match_in H :=
  repeat match type of H with
  | context [if ?b then _ else _] => let E := fresh "E" in destruct b eqn:E
  | context [match ?x with _ => _ end] => let E := fresh "E" in destruct x eqn:E
  end.

(** The same on the goal. *)
Ltac split_match :=
  repeat match goal with
  | |- context [if ?b then _ else _] => let E := fresh "E" in destruct b eqn:E
  | |- context [match ?x with _ => _ end] => let E := fresh "E" in destruct x eqn:E
  end.

(** Turn boolean tests into propositions. *)
Ltac bool_prop :=
  repeat match goal with
  | H : String.eqb _ _ = true |- _ => apply String.eqb_eq in H
  | H : String.eqb _ _ = false |- _ => apply String.eqb_neq in H
  | H : negb _ = true |- _ => apply negb_true_iff in H
  | H : negb _ = false |- _ => apply negb_false_iff in H
  | H : (_ && _)%bool = true |- _ => apply andb_true_iff in H as [? ?]
  | H : (_ || _)%bool = false |- _ => apply orb_false_iff in H as [? ?]
  | H : Z.eqb _ _ = true |- _ => apply Z.eqb_eq in H
  | H : Z.eqb _ _ = false |- _ => apply Z.eqb_neq in H
  | H : Z.ltb _ _ = true |- _ => apply Z.ltb_lt in H
  | H : Z.ltb _ _ = false |- _ => apply Z.ltb_ge in H
  | H : Z.leb _ _ = true |- _ => apply Z.leb_le in H
  | H : Z.leb _ _ = false |- _ => apply Z.leb_gt in H
  | H : one_of _ _ = true |- _ => apply one_of_true in H
  | H : one_of _ _ = false |- _ => apply one_of_false in H
  end.
