(* ===== verification/GoLib.v ===== *)
(** * GoLib: the parts of Go's standard library the modelled code uses

    [strings], [strconv], [sort] and [regexp] as executable functions.  Text is
    a byte string ([String.string]), as in Go.  Two things are simplified and
    only matter for bytes outside ASCII: [TrimSpace] strips the ASCII white
    space, and [Quote] (the [%q] verb) leaves bytes above 127 as they are. *)

From S2P Require Import Prelude.
From Stdlib Require Import Ascii DecimalString DecimalN.

(** ** strings *)

Definition HasPrefix (s p : string) : bool := String.prefix p s.

(** [s[n:]], with [n] at most [len(s)]. *)
Definition drop_str (n : nat) (s : string) : string :=
  String.substring n (String.length s - n) s.

Definition take_str (n : nat) (s : string) : string := String.substring 0 n s.

Definition HasSuffix (s p : string) : bool :=
  (Nat.leb (String.length p) (String.length s) &&
   (drop_str (String.length s - String.length p) s =s p))%bool.

Definition TrimPrefix (s p : string) : string :=
  if HasPrefix s p then drop_str (String.length p) s else s.

Definition is_space (c : ascii) : bool :=
  match nat_of_ascii c with
  | 9 | 10 | 11 | 12 | 13 | 32 => true
  | _ => false
  end%nat.

Fixpoint trim_left (s : string) : string :=
  match s with
  | String c s' => if is_space c then trim_left s' else s
  | EmptyString => s
  end.

Fixpoint trim_right (s : string) : string :=
  match s with
  | EmptyString => EmptyString
  | String c s' =>
      match trim_right s' with
      | EmptyString => if is_space c then EmptyString else String c EmptyString
      | r => String c r
      end
  end.

Definition TrimSpace (s : string) : string := trim_right (trim_left s).

(** [strings.Split(s, sep)] for a one-byte separator: never empty. *)
Fixpoint split_on (sep : ascii) (s : string) : list string :=
  match s with
  | EmptyString => [EmptyString]
  | String c s' =>
      if Ascii.eqb c sep then EmptyString :: split_on sep s'
      else match split_on sep s' with
           | [] => [String c EmptyString]
           | w :: ws => String c w :: ws
           end
  end.

Definition Join (l : list string) (sep : string) : string :=
  String.concat sep l.

(** [len(s)] as an [int]. *)
Definition len_str (s : string) : Z := Z.of_nat (String.length s).
Definition len {A} (l : list A) : Z := Z.of_nat (length l).

(** ** strconv *)

Definition Itoa (z : Z) : string := pretty z.

(** [ParseUint(s, 10, 64)]: an error on the empty string, on a byte that is
    not a digit and on a value that needs more than 64 bits. *)
Definition ParseUint (s : string) : option N :=
  match s with
  | EmptyString => None
  | _ => match NilEmpty.uint_of_string s with
         | Some d => let n := N.of_uint d in
                     if (n <? 2 ^ 64)%N then Some n else None
         | None => None
         end
  end.

(** [Atoi(s)]: an optional sign, then digits, in the range of [int]. *)
Definition Atoi (s : string) : option Z :=
  let digits s neg :=
    match s with
    | EmptyString => None
    | _ => match NilEmpty.uint_of_string s with
           | Some d => let z := (if neg : bool then -1 else 1) * Z.of_N (N.of_uint d) in
                       if (- 2 ^ 63 <=? z) && (z <? 2 ^ 63) then Some z else None
           | None => None
           end
    end%bool in
  match s with
  | String "-" s' => digits s' true
  | String "+" s' => digits s' false
  | _ => digits s false
  end.

Definition hex_digit (n : nat) : ascii :=
  ascii_of_nat (if Nat.ltb n 10 then 48 + n else 87 + n).

Definition quote_char (c : ascii) : string :=
  match nat_of_ascii c with
  | 7 => "\a" | 8 => "\b" | 9 => "\t" | 10 => "\n" | 11 => "\v" | 12 => "\f"
  | 13 => "\r"
  | 34 => String (ascii_of_nat 92) (String c EmptyString)
  | 92 => "\\"
  | n => if (Nat.ltb n 32 || Nat.eqb n 127)%bool
         then "\x" +:+ String (hex_digit (n / 16)) (String (hex_digit (n mod 16)) EmptyString)
         else String c EmptyString
  end%nat.

Fixpoint quote_body (s : string) : string :=
  match s with
  | EmptyString => EmptyString
  | String c s' => quote_char c +:+ quote_body s'
  end.

Definition dquote : string := String (ascii_of_nat 34) EmptyString.

(** The [%q] verb. *)
Definition Quote (s : string) : string := dquote +:+ quote_body s +:+ dquote.

(** ** sort *)

(** [sort.Strings]: bytewise lexicographic order. *)
Definition sort_strings (l : list string) : list string := merge_sort String.le l.

(** [x] may come before [y] in a list sorted by [less]. *)
Definition not_after {A} (less : A → A → bool) (x y : A) : Prop := less y x = false.

#[export] Instance not_after_dec {A} (less : A → A → bool) : RelDecision (not_after less).
Proof. intros x y. unfold not_after. apply _. Defined.

(** [sort.Slice(l, less)] for a [less] that is a strict total order on the
    elements: the order is determined by [less]. *)
Definition sort_by {A} (less : A → A → bool) (l : list A) : list A :=
  merge_sort (not_after less) l.

(** [sort.SliceStable(l, less)]: [x] goes before the first element that is not
    strictly less than it, so equal elements keep their order. *)
Fixpoint insert_by {A} (less : A → A → bool) (x : A) (l : list A) : list A :=
  match l with
  | [] => [x]
  | y :: l' => if less y x then y :: insert_by less x l' else x :: l
  end.

Definition stable_sort_by {A} (less : A → A → bool) (l : list A) : list A :=
  foldr (insert_by less) [] l.

(** ** regexp

    A backtracking matcher for the anchored patterns of the code.  [run r s]
    lists every way [r] can consume a prefix of [s], as the remaining text and
    the captured groups, in the order Go's leftmost-first semantics prefers:
    greedy repetition and option first, then left alternatives. *)

Inductive re :=
| RClass (p : ascii → bool)
| REps
| RSeq (r1 r2 : re)
| RAlt (r1 r2 : re)
| ROpt (r : re)
| RStar (r : re)
| RGroup (n : nat) (r : re).

Definition outcome : Type := string * list (nat * string).

Section Star.
Variable f : string → list outcome.

Fixpoint star_run (fuel : nat) (s : string) : list outcome :=
  match fuel with
  | O => [(s, [])]
  | S fuel =>
      ('(s1, c1) ← f s;
       if Nat.ltb (String.length s1) (String.length s) then
         '(s2, c2) ← star_run fuel s1; [(s2, c2 ++ c1)]
       else []) ++ [(s, [])]
  end.
End Star.

Fixpoint run (r : re) (s : string) : list outcome :=
  match r with
  | RClass p =>
      match s with
      | String c s' => if p c then [(s', [])] else []
      | EmptyString => []
      end
  | REps => [(s, [])]
  | RSeq r1 r2 => '(s1, c1) ← run r1 s; '(s2, c2) ← run r2 s1; [(s2, c2 ++ c1)]
  | RAlt r1 r2 => run r1 s ++ run r2 s
  | ROpt r => run r s ++ [(s, [])]
  | RStar r => star_run (run r) (String.length s) s
  | RGroup n r =>
      '(s1, c1) ← run r s;
      [(s1, (n, take_str (String.length s - String.length s1) s) :: c1)]
  end.

(** [^r$] against [s]: the captures of the preferred match. *)
Definition find_submatch (r : re) (s : string) : option (list (nat * string)) :=
  snd <$> List.find (λ o : outcome, fst o =s "") (run r s).

Definition match_string (r : re) (s : string) : bool :=
  match find_submatch r s with Some _ => true | None => false end.

(** [m[n]]: the text of group [n], empty when the group did not take part. *)
Definition group (n : nat) (c : list (nat * string)) : string :=
  match List.find (λ p : nat * string, Nat.eqb (fst p) n) c with
  | Some (_, t) => t
  | None => ""
  end.

Definition RPlus (r : re) : re := RSeq r (RStar r).

Fixpoint RRepeat (n : nat) (r : re) : re :=
  match n with O => REps | S n => RSeq r (RRepeat n r) end.

Fixpoint RLit (s : string) : re :=
  match s with
  | EmptyString => REps
  | String c s' => RSeq (RClass (Ascii.eqb c)) (RLit s')
  end.

Definition in_range (lo hi c : ascii) : bool :=
  ((N_of_ascii lo <=? N_of_ascii c)%N && (N_of_ascii c <=? N_of_ascii hi)%N)%bool.

Definition cls_digit : ascii → bool := in_range "0" "9".
Definition cls_hex (c : ascii) : bool := (in_range "0" "9" c || in_range "a" "f" c)%bool.
Definition cls_alnum (c : ascii) : bool :=
  (in_range "0" "9" c || in_range "A" "Z" c || in_range "a" "z" c)%bool.
Definition cls_alnum_dash (c : ascii) : bool := (cls_alnum c || Ascii.eqb c "-")%bool.

(** [^<prefix>[0-9a-f]{16}$], the shape of every identifier Phelix mints. *)
Definition id_pattern (prefix : string) : re :=
  RSeq (RLit prefix) (RRepeat 16 (RClass cls_hex)).

(** [len(buf)] bytes in lower-case hexadecimal ([hex.EncodeToString]). *)
Fixpoint hex_encode (bs : list Byte.byte) : string :=
  match bs with
  | [] => ""
  | b :: bs =>
      let n := N.to_nat (Byte.to_N b) in
      String (hex_digit (n / 16)) (String (hex_digit (n mod 16)) (hex_encode bs))
  end.

(** The bytes of [z] from the most significant: [%016x] prints eight. *)
Fixpoint bytes_be (n : nat) (z : Z) : list Byte.byte :=
  match n with
  | O => []
  | S n => default Byte.x00 (Byte.of_N (Z.to_N (Z.shiftr z (8 * Z.of_nat n) mod 256))) :: bytes_be n z
  end.

(** The same for the bytes of a string. *)
Fixpoint hex_of (s : string) : string :=
  match s with
  | EmptyString => ""
  | String c s => let n := nat_of_ascii c in
                  String (hex_digit (n / 16)) (String (hex_digit (n mod 16)) (hex_of s))
  end.

Definition hex_value (c : ascii) : option nat :=
  let n := nat_of_ascii c in
  if in_range "0" "9" c then Some (n - 48)%nat
  else if in_range "a" "f" c then Some (n - 87)%nat
  else if in_range "A" "F" c then Some (n - 55)%nat
  else None.

(** [hex.DecodeString]. *)
Fixpoint hex_decode (s : string) : option string :=
  match s with
  | EmptyString => Some ""
  | String a (String b s) =>
      x ← hex_value a; y ← hex_value b; rest ← hex_decode s;
      Some (String (ascii_of_nat (16 * x + y)) rest)
  | _ => None
  end.

(** ** Facts about text *)

Lemma sapp_cons c s t : String c s +:+ t = String c (s +:+ t).
Proof. reflexivity. Qed.

Lemma length_sapp s t : String.length (s +:+ t) = (String.length s + String.length t)%nat.
Proof. induction s as [|c s IH]; [done|]. rewrite sapp_cons. simpl. by rewrite IH. Qed.

Lemma sapp_nil_r s : s +:+ "" = s.
Proof. induction s as [|c s IH]; [done|]. by rewrite sapp_cons, IH. Qed.

Lemma sapp_assoc s t u : s +:+ (t +:+ u) = (s +:+ t) +:+ u.
Proof. induction s as [|c s IH]; [done|]. by rewrite !sapp_cons, IH. Qed.

Lemma sapp_inj_l h v1 v2 : h +:+ v1 = h +:+ v2 → v1 = v2.
Proof. induction h as [|a h IH]; [done|]. rewrite !sapp_cons. intros [= H]. by apply IH. Qed.

Lemma sapp_inj_r s t u : s +:+ u = t +:+ u → s = t.
Proof.
  revert t. induction s as [|c s IH]; intros [|d t] Heq; [done|..].
  - apply (f_equal String.length) in Heq. rewrite !length_sapp in Heq. simpl in Heq. lia.
  - apply (f_equal String.length) in Heq. rewrite !length_sapp in Heq. simpl in Heq. lia.
  - rewrite !sapp_cons in Heq. injection Heq as -> ?. f_equal. eauto.
Qed.

Lemma substring_all s : String.substring 0 (String.length s) s = s.
Proof. induction s as [|c s IH]; simpl; by f_equal. Qed.

Lemma drop_str_app s p : drop_str (String.length s) (s +:+ p) = p.
Proof.
  unfold drop_str. rewrite length_sapp.
  replace (String.length s + String.length p - String.length s)%nat with (String.length p) by lia.
  induction s as [|c s IH]; [apply substring_all|by rewrite sapp_cons].
Qed.

Lemma HasSuffix_app s p : HasSuffix (s +:+ p) p = true.
Proof.
  unfold HasSuffix. rewrite length_sapp. apply andb_true_iff. split.
  - apply Nat.leb_le. lia.
  - replace (String.length s + String.length p - String.length p)%nat with (String.length s) by lia.
    rewrite drop_str_app. apply String.eqb_refl.
Qed.

(** A suffix is compared to the last character first. *)
Lemma sapp_last s c t d : s +:+ String c "" = t +:+ String d "" → c = d.
Proof.
  revert t. induction s as [|x s IH]; intros [|y t]; simpl; rewrite ?sapp_cons.
  - by intros [= ->].
  - intros [= _ H]. apply (f_equal String.length) in H. rewrite length_sapp in H. simpl in H. lia.
  - intros [= _ H]. apply (f_equal String.length) in H. rewrite length_sapp in H. simpl in H. lia.
  - intros [= _ H]. by apply IH in H.
Qed.

Lemma substring_suffix s n :
  (n ≤ String.length s)%nat → ∃ t, s = t +:+ String.substring n (String.length s - n) s.
Proof.
  revert n. induction s as [|c s IH]; intros [|n] Hn; simpl in *; [by exists ""|lia| |].
  - exists "". simpl. by rewrite substring_all.
  - destruct (IH n ltac:(lia)) as [t Ht]. exists (String c t). rewrite sapp_cons. by f_equal.
Qed.

Lemma HasSuffix_inv s p : HasSuffix s p = true → ∃ t, s = t +:+ p.
Proof.
  unfold HasSuffix, drop_str. intros [Hl%Nat.leb_le Hd%String.eqb_eq]%andb_true_iff.
  destruct (substring_suffix s (String.length s - String.length p) ltac:(lia)) as [t Ht].
  exists t. by rewrite <- Hd at 1.
Qed.

Lemma HasSuffix_last s p c d :
  c ≠ d → HasSuffix (s +:+ String c "") (p +:+ String d "") = false.
Proof.
  intros Hne. apply not_true_iff_false. intros [t Ht]%HasSuffix_inv.
  rewrite sapp_assoc in Ht. by apply sapp_last in Ht.
Qed.

(** A decimal number ends in a digit. *)
Lemma pretty_N_go_suffix x s : ∃ t, pretty_N_go x s = t +:+ s.
Proof.
  revert s. induction (N.lt_wf_0 x) as [x _ IH]; intros s.
  destruct (decide (0 < x)%N) as [Hx|Hx].
  - rewrite pretty_N_go_step by done.
    destruct (IH _ (N.div_lt x 10 Hx eq_refl) (String (pretty_N_char (x `mod` 10)) s)) as [t ->].
    exists (t +:+ String (pretty_N_char (x `mod` 10)) ""). by rewrite <- sapp_assoc.
  - exists "". by replace x with 0%N by lia.
Qed.

Lemma cls_digit_pretty x : cls_digit (pretty_N_char x) = true.
Proof. unfold pretty_N_char. repeat case_match; reflexivity. Qed.

Lemma pretty_N_last (x : N) : ∃ s c, pretty x = s +:+ String c "" ∧ cls_digit c = true.
Proof.
  unfold pretty, pretty_N. case_decide as Hx; [by exists "", "0"%char|].
  rewrite pretty_N_go_step by lia.
  destruct (pretty_N_go_suffix (x `div` 10) (String (pretty_N_char (x `mod` 10)) "")) as [t ->].
  exists t, (pretty_N_char (x `mod` 10)). split; [done|apply cls_digit_pretty].
Qed.

Lemma Itoa_last z : ∃ s c, Itoa z = s +:+ String c "" ∧ cls_digit c = true.
Proof.
  unfold Itoa, pretty, pretty_Z. destruct z as [|p|p].
  - by exists "", "0"%char.
  - apply pretty_N_last.
  - destruct (pretty_N_last (Npos p)) as (s & c & Hs & Hc).
    exists ("-" +:+ s), c. split; [|done]. rewrite <- sapp_assoc. by f_equal.
Qed.

Lemma len_nonneg {A} (l : list A) : 0 ≤ len l.
Proof. unfold len. lia. Qed.

Lemma len_nil {A} : len (@nil A) = 0.
Proof. done. Qed.

Lemma len_app {A} (l1 l2 : list A) : len (l1 ++ l2) = len l1 + len l2.
Proof. unfold len. rewrite length_app. lia. Qed.

Lemma len_cons {A} (x : A) l : len (x :: l) = 1 + len l.
Proof. unfold len. simpl. lia. Qed.
Lemma len_fmap {A B} (f : A → B) l : len (f <$> l) = len l.
Proof. unfold len. by rewrite length_fmap. Qed.
#[export] Hint Rewrite @len_nil @len_app @len_cons : phelix.
#[export] Hint Resolve len_nonneg : phelix.

(** ** Sorting *)

Lemma sort_strings_Permutation l : sort_strings l ≡ₚ l.
Proof. apply merge_sort_Permutation. Qed.

Lemma sort_strings_Sorted l : StronglySorted String.le (sort_strings l).
Proof. apply StronglySorted_merge_sort; apply _. Qed.

Lemma elem_of_sort_strings x l : x ∈ sort_strings l ↔ x ∈ l.
Proof. by rewrite sort_strings_Permutation. Qed.

(** Sorting forgets the order of its input. *)
#[export] Instance sort_strings_proper : Proper ((≡ₚ) ==> eq) sort_strings.
Proof.
  intros l1 l2 Hl. apply (StronglySorted_unique String.le);
    [apply sort_strings_Sorted..|].
  by rewrite !sort_strings_Permutation.
Qed.

(** The comparators of the code are strict weak orders, built from integer and
    string keys by lexicographic composition. *)
Definition strict_weak {A} (less : A → A → bool) : Prop :=
  (∀ x y, less x y = true → less y x = false) ∧
  (∀ x y z, less y x = false → less z y = false → less z x = false).

Lemma ltb_leb s t : String.ltb s t = negb (String.leb t s).
Proof.
  unfold String.ltb, String.leb. rewrite String.compare_antisym.
  by destruct (String.compare t s).
Qed.

Lemma eqb_ltb s t : (s =s t) = true ↔ String.ltb s t = false ∧ String.ltb t s = false.
Proof.
  rewrite !ltb_leb, !negb_false_iff, String.eqb_eq. split.
  - intros ->. by destruct (String.leb_total t t).
  - intros [H1 H2]. by apply String.leb_antisym.
Qed.

Lemma eqb_neq_ltb s t :
  (s =s t) = false → String.ltb s t = false → String.ltb t s = false → False.
Proof. intros Hne H1 H2. apply not_true_iff_false in Hne. apply Hne, eqb_ltb. done. Qed.

Lemma strict_weak_string {A} (f : A → string) : strict_weak (λ x y, String.ltb (f x) (f y)).
Proof.
  split; intros x y; rewrite !ltb_leb.
  - intros ?%negb_true_iff. apply negb_false_iff. by destruct (String.leb_total (f x) (f y)); congruence.
  - intros z. rewrite !ltb_leb, !negb_false_iff. intros H1 H2.
    apply Is_true_true, (transitivity (R := String.le) (y := f y)); by apply Is_true_true.
Qed.

Lemma strict_weak_Z {A} (f : A → Z) : strict_weak (λ x y, f x <? f y).
Proof. split; intros; bool_prop; apply Z.ltb_ge; lia. Qed.

Lemma strict_weak_flip {A} (less : A → A → bool) :
  strict_weak less → strict_weak (λ x y, less y x).
Proof. intros [Ha Ht]. split; intros; eauto. Qed.

Lemma strict_weak_lex {A} (eqv less1 less2 : A → A → bool) :
  strict_weak less1 → strict_weak less2 →
  (∀ x y, eqv x y = true ↔ less1 x y = false ∧ less1 y x = false) →
  strict_weak (λ x y, if negb (eqv x y) then less1 x y else less2 x y).
Proof.
  intros [Ha1 Ht1] [Ha2 Ht2] He.
  assert (∀ x y, eqv x y = eqv y x) as Hsym.
  { intros x y. apply eq_true_iff_eq. rewrite !He. tauto. }
  assert (∀ x y z, eqv x y = true → eqv y z = true → eqv x z = true) as Htr.
  { intros x y z. rewrite !He. intros [? ?] [? ?]. split; eauto. }
  split.
  - intros x y. rewrite (Hsym y x). destruct (eqv x y); simpl; auto.
  - intros x y z H1 H2.
    destruct (eqv z x) eqn:Ezx; simpl.
    + destruct (eqv y x) eqn:Eyx, (eqv z y) eqn:Ezy; simpl in *; eauto.
      * rewrite (Htr z x y) in Ezy; [done|done|by rewrite Hsym].
      * rewrite (Htr y z x) in Eyx; [done|by rewrite Hsym|done].
      * assert (eqv x y = true) as Exy; [|by rewrite Hsym, Exy in Eyx].
        apply He in Ezx as [? ?]. apply He. eauto.
    + destruct (eqv y x) eqn:Eyx, (eqv z y) eqn:Ezy; simpl in *.
      * by rewrite (Htr z y x) in Ezx.
      * apply He in Eyx as [? ?]. eauto.
      * apply He in Ezy as [? ?]. eauto.
      * eauto.
Qed.

Section SortBy.
Context {A : Type} (less : A → A → bool).

Lemma sort_by_Permutation l : sort_by less l ≡ₚ l.
Proof. apply merge_sort_Permutation. Qed.

(** A strict weak order gives a sorted result. *)
Lemma sort_by_Sorted l :
  (∀ x y, less x y = true → less y x = false) →
  (∀ x y z, less y x = false → less z y = false → less z x = false) →
  StronglySorted (not_after less) (sort_by less l).
Proof.
  intros Hasym Htrans.
  assert (Transitive (not_after less)) by (intros x y z; apply Htrans).
  assert (Total (not_after less)).
  { intros x y. unfold not_after. destruct (less x y) eqn:E; eauto. }
  apply StronglySorted_merge_sort; apply _.
Qed.

Lemma sort_by_sorted l :
  strict_weak less → StronglySorted (not_after less) (sort_by less l).
Proof. intros [Ha Ht]. by apply sort_by_Sorted. Qed.
End SortBy.

Section StableSort.
Context {A : Type} (less : A → A → bool).

Lemma insert_by_Permutation x l : insert_by less x l ≡ₚ x :: l.
Proof.
  induction l as [|y l IH]; [done|]. simpl. destruct (less y x); [|done].
  rewrite IH. apply Permutation_swap.
Qed.

Lemma stable_sort_by_Permutation l : stable_sort_by less l ≡ₚ l.
Proof. induction l as [|x l IH]; [done|]. simpl. by rewrite insert_by_Permutation, IH. Qed.

Lemma elem_of_stable_sort x l : x ∈ stable_sort_by less l ↔ x ∈ l.
Proof. by rewrite stable_sort_by_Permutation. Qed.

Context (Hless : strict_weak less).

Lemma insert_by_sorted x l :
  StronglySorted (not_after less) l → StronglySorted (not_after less) (insert_by less x l).
Proof.
  destruct Hless as [Ha Ht]. induction 1 as [|y l Hl IH Hy]; simpl; [by repeat constructor|].
  destruct (less y x) eqn:E.
  - constructor; [done|]. rewrite insert_by_Permutation. constructor; [|done].
    by apply Ha.
  - constructor; [by constructor|]. constructor; [done|].
    eapply Forall_impl; [exact Hy|]. intros z Hz. by apply (Ht x y z).
Qed.

Lemma stable_sort_by_sorted l : StronglySorted (not_after less) (stable_sort_by less l).
Proof. induction l as [|x l IH]; simpl; [constructor|]. by apply insert_by_sorted. Qed.

(** A total order forgets the order of the input. *)
Lemma stable_sort_by_unique l1 l2 :
  (∀ x y, less x y = false → less y x = false → x = y) → l1 ≡ₚ l2 →
  stable_sort_by less l1 = stable_sort_by less l2.
Proof.
  intros Hanti Hp.
  assert (AntiSymm (=) (not_after less)) by (intros x y ? ?; by apply Hanti).
  apply (StronglySorted_unique (not_after less)); [apply stable_sort_by_sorted..|].
  by rewrite !stable_sort_by_Permutation.
Qed.
End StableSort.

(** ** Identifiers *)

Fixpoint all_chars (p : ascii → bool) (s : string) : bool :=
  match s with
  | EmptyString => true
  | String c s' => (p c && all_chars p s')%bool
  end.

Lemma run_RLit p s : run (RLit p) (p +:+ s) = [(s, [])].
Proof.
  induction p as [|c p IH]; [done|]. rewrite sapp_cons. simpl.
  rewrite Ascii.eqb_refl. simpl. by rewrite IH.
Qed.

Lemma run_RRepeat_class p n s :
  String.length s = n → all_chars p s = true → run (RRepeat n (RClass p)) s = [("", [])].
Proof.
  revert s. induction n as [|n IH]; intros [|c s] Hlen Hp; try done.
  simpl in *. injection Hlen as Hlen. apply andb_true_iff in Hp as [-> Hp].
  simpl. by rewrite IH.
Qed.

Lemma match_id_pattern prefix s :
  String.length s = 16%nat → all_chars cls_hex s = true →
  match_string (id_pattern prefix) (prefix +:+ s) = true.
Proof.
  intros Hlen Hp. unfold match_string, find_submatch, id_pattern.
  cbn [run]. rewrite run_RLit. cbn [mbind list_bind].
  by rewrite (run_RRepeat_class cls_hex 16).
Qed.

Lemma cls_hex_digit n : (n < 16)%nat → cls_hex (hex_digit n) = true.
Proof. intros Hn. do 16 (destruct n as [|n]; [reflexivity|]). lia. Qed.

Lemma hex_encode_chars bs : all_chars cls_hex (hex_encode bs) = true.
Proof.
  induction bs as [|b bs IH]; [done|]. cbn [hex_encode all_chars].
  pose proof (Byte.to_N_bounded b) as Hb.
  rewrite !cls_hex_digit, IH; [done| |].
  - apply Nat.mod_upper_bound. lia.
  - apply Nat.Div0.div_lt_upper_bound. lia.
Qed.

Lemma length_hex_encode bs : String.length (hex_encode bs) = (2 * length bs)%nat.
Proof. induction bs as [|b bs IH]; cbn [hex_encode String.length length]; lia. Qed.

(** An identifier minted from 8 random bytes is well formed. *)
Lemma match_minted_id prefix bs :
  length bs = 8%nat → match_string (id_pattern prefix) (prefix +:+ hex_encode bs) = true.
Proof.
  intros Hbs. apply match_id_pattern; [|apply hex_encode_chars].
  rewrite length_hex_encode. lia.
Qed.
#[export] Hint Resolve match_minted_id : phelix.

(** ** Decimal numbers *)

Lemma of_uint_acc_spec l (acc : positive) :
  N.pos (Pos.of_uint_acc l acc) = (N.pos acc * 10 ^ N.of_nat (Decimal.nb_digits l) + Pos.of_uint l)%N.
Proof.
  revert acc. induction l; intros acc; cbn [Decimal.nb_digits Pos.of_uint_acc Pos.of_uint];
    rewrite ?Nat2N.inj_succ, ?N.pow_succ_r', ?IHl.
  all: try change (Pos.of_uint_acc l 1) with (Pos.of_uint_acc l 1).
  all: simpl N.of_nat; try lia.
Qed.

Lemma of_uint_char_value (x : N) l :
  (x < 10)%N → ∃ d, DecimalString.uint_of_char (pretty_N_char x) (Some l) = Some d ∧
    Decimal.nb_digits d = S (Decimal.nb_digits l) ∧
    Pos.of_uint d = (x * 10 ^ N.of_nat (Decimal.nb_digits l) + Pos.of_uint l)%N.
Proof.
  intros Hx. assert (x ∈ [0;1;2;3;4;5;6;7;8;9]%N) as Hin.
  { rewrite !elem_of_cons. lia. }
  repeat (apply elem_of_cons in Hin as [->|Hin]; [eexists; split; [reflexivity|];
    (split; [done|]); cbn [Pos.of_uint]; rewrite ?of_uint_acc_spec; lia|]).
  by apply elem_of_nil in Hin.
Qed.

Lemma pretty_N_go_value (x : N) s d :
  NilEmpty.uint_of_string s = Some d → Decimal.nb_digits d = String.length s →
  ∃ d', NilEmpty.uint_of_string (pretty_N_go x s) = Some d' ∧
    Pos.of_uint d' = (x * 10 ^ N.of_nat (Decimal.nb_digits d) + Pos.of_uint d)%N.
Proof.
  revert s d. induction (N.lt_wf_0 x) as [x _ IH]; intros s d Hd Hlen.
  destruct (decide (x = 0%N)) as [->|Hx].
  { rewrite pretty_N_go_0. exists d. split; [done|]. lia. }
  rewrite pretty_N_go_step by lia.
  assert (x mod 10 < 10)%N as Hm by (apply N.mod_lt; lia).
  destruct (of_uint_char_value (x mod 10) d Hm) as (d1 & Hd1 & Hn1 & Hv1).
  destruct (IH (x / 10)%N ltac:(apply N.div_lt; lia) (String (pretty_N_char (x mod 10)) s) d1)
    as (d' & Hd' & Hv').
  - cbn [NilEmpty.uint_of_string]. by rewrite Hd.
  - rewrite Hn1, Hlen. done.
  - exists d'. split; [done|]. rewrite Hv', Hv1, Hn1, Nat2N.inj_succ, N.pow_succ_r'.
    pose proof (N.div_mod x 10 ltac:(lia)) as Hdm. rewrite Hdm at 3. lia.
Qed.

Lemma ParseUint_pretty (n : N) : (n < 2 ^ 64)%N → ParseUint (pretty n) = Some n.
Proof.
  intros Hn. unfold ParseUint. change (pretty n) with (pretty_N n). unfold pretty_N.
  destruct (decide (n = 0%N)) as [->|H0]; [done|].
  destruct (pretty_N_go_value n "" Decimal.Nil eq_refl eq_refl) as (d & Hd & Hv).
  destruct (pretty_N_go n "") as [|c s] eqn:Eq.
  { exfalso. injection Hd as <-. simpl in Hv. lia. }
  rewrite Hd. unfold N.of_uint. simpl in Hv. replace (Pos.of_uint d) with n by lia.
  replace (n <? 2 ^ 64)%N with true; [done|]. symmetry. by apply N.ltb_lt.
Qed.

Lemma all_chars_app p s t : all_chars p (s +:+ t) = (all_chars p s && all_chars p t)%bool.
Proof. induction s as [|c s IH]; [done|]. rewrite sapp_cons. simpl. by rewrite IH, andb_assoc. Qed.

Lemma all_chars_impl (p q : ascii → bool) s :
  (∀ c, p c = true → q c = true) → all_chars p s = true → all_chars q s = true.
Proof.
  intros H. induction s as [|c s IH]; [done|]. simpl. intros [Hc Hs]%andb_prop.
  by rewrite (H c Hc), IH.
Qed.

Lemma pretty_N_go_digits (x : N) s :
  all_chars cls_digit s = true → all_chars cls_digit (pretty_N_go x s) = true.
Proof.
  revert s. induction (N.lt_wf_0 x) as [x _ IH]; intros s Hs.
  destruct (decide (x = 0%N)) as [->|Hx]; [by rewrite pretty_N_go_0|].
  rewrite pretty_N_go_step by lia. apply IH; [apply N.div_lt; lia|]. simpl.
  by rewrite cls_digit_pretty.
Qed.

Lemma pretty_digits (n : N) : all_chars cls_digit (pretty n) = true.
Proof.
  change (pretty n) with (pretty_N n). unfold pretty_N.
  destruct (decide (n = 0%N)); [done|]. by apply pretty_N_go_digits.
Qed.

Lemma pretty_nonempty (n : N) : (n < 2 ^ 64)%N → pretty n ≠ "".
Proof. intros Hn He. pose proof (ParseUint_pretty n Hn) as H. by rewrite He in H. Qed.

Definition printable (c : ascii) : bool := negb (is_space c).

Lemma trim_right_id s : all_chars printable s = true → trim_right s = s.
Proof.
  induction s as [|c s IH]; [done|]. simpl. intros [Hc Hs]%andb_prop. rewrite (IH Hs).
  unfold printable in Hc. apply negb_true_iff in Hc. rewrite Hc. by destruct s.
Qed.

Lemma TrimSpace_id s : all_chars printable s = true → TrimSpace s = s.
Proof.
  intros Hs. unfold TrimSpace. replace (trim_left s) with s; [by apply trim_right_id|].
  destruct s as [|c s]; [done|]. simpl in *. apply andb_prop in Hs as [Hc _].
  unfold printable in Hc. apply negb_true_iff in Hc. by rewrite Hc.
Qed.

Lemma digit_printable c : cls_digit c = true → printable c = true.
Proof. destruct c as [[] [] [] [] [] [] [] []]; by vm_compute. Qed.

Lemma uint_of_pretty (n : N) :
  ∃ d c s, pretty n = String c s ∧ cls_digit c = true ∧
    NilEmpty.uint_of_string (pretty n) = Some d ∧ N.of_uint d = n.
Proof.
  change (pretty n) with (pretty_N n). unfold pretty_N.
  destruct (decide (n = 0%N)) as [->|H0]; [by eexists _, _, _|].
  destruct (pretty_N_go_value n "" Decimal.Nil eq_refl eq_refl) as (d & Hd & Hv).
  pose proof (pretty_N_go_digits n "" eq_refl) as Hc.
  destruct (pretty_N_go n "") as [|c s] eqn:Eq.
  { exfalso. injection Hd as <-. simpl in Hv. lia. }
  exists d, c, s. split; [done|]. simpl in Hc. apply andb_true_iff in Hc as [Hc _].
  split; [done|]. split; [done|]. unfold N.of_uint. simpl in Hv. lia.
Qed.

(** [Atoi] reads back what [Itoa] prints. *)
Lemma Atoi_Itoa z : in_int64 z → Atoi (Itoa z) = Some z.
Proof.
  unfold in_int64. intros Hz.
  assert (∀ n : N, - 2 ^ 63 ≤ Z.of_N n < 2 ^ 63 → Atoi (pretty n) = Some (Z.of_N n)) as Hpos.
  { intros n Hn. destruct (uint_of_pretty n) as (d & c & s & Hs & Hc & Hd & Hv).
    assert (Atoi (pretty n) = match NilEmpty.uint_of_string (pretty n) with
      | Some d => let z := 1 * Z.of_N (N.of_uint d) in
                  if ((- 2 ^ 63 <=? z) && (z <? 2 ^ 63))%bool then Some z else None
      | None => None end) as ->.
    { rewrite Hs. unfold Atoi. destruct c as [[] [] [] [] [] [] [] []]; try done. }
    rewrite Hd, Hv. cbv zeta. rewrite Z.mul_1_l.
    by rewrite (proj2 (Z.leb_le _ _)), (proj2 (Z.ltb_lt _ _)) by lia. }
  destruct z as [|p|p]; [done|by apply (Hpos (Npos p))|].
  unfold Itoa. change (pretty (Z.neg p)) with (String "-" (pretty (Npos p))).
  destruct (uint_of_pretty (Npos p)) as (d & c & s & Hs & Hc & Hd & Hv).
  unfold Atoi. rewrite Hs. rewrite <- Hs, Hd, Hv. cbv zeta.
  replace (-1 * Z.of_N (N.pos p)) with (Z.neg p) by lia.
  by rewrite (proj2 (Z.leb_le _ _)), (proj2 (Z.ltb_lt _ _)) by lia.
Qed.

Lemma Itoa_digits z : 0 ≤ z → all_chars cls_digit (Itoa z) = true.
Proof. intros Hz. destruct z as [|p|p]; [done|apply (pretty_digits (Npos p))|lia]. Qed.

Lemma hex_value_digit n : (n < 16)%nat → hex_value (hex_digit n) = Some n.
Proof. intros Hn. do 16 (destruct n as [|n]; [reflexivity|]). lia. Qed.

Lemma nat_ascii_bound c : (nat_of_ascii c < 256)%nat.
Proof. destruct c as [[] [] [] [] [] [] [] []]; apply Nat.ltb_lt; reflexivity. Qed.

Lemma hex_decode_hex_of s : hex_decode (hex_of s) = Some s.
Proof.
  induction s as [|c s IH]; [done|]. cbn [hex_of hex_decode].
  pose proof (nat_ascii_bound c) as Hc.
  rewrite !hex_value_digit by (apply Nat.Div0.div_lt_upper_bound || apply Nat.mod_upper_bound; lia).
  cbn [mbind option_bind]. rewrite IH. cbn [mbind option_bind]. f_equal. f_equal.
  rewrite <- (ascii_nat_embedding c) at 3. f_equal. rewrite (Nat.div_mod_eq (nat_of_ascii c) 16) at 3. done.
Qed.

Lemma length_hex_of s : String.length (hex_of s) = (2 * String.length s)%nat.
Proof. induction s as [|c s IH]; [done|]. simpl. rewrite IH. lia. Qed.

Lemma hex_of_chars s : all_chars cls_hex (hex_of s) = true.
Proof.
  induction s as [|c s IH]; [done|]. cbn [hex_of all_chars]. pose proof (nat_ascii_bound c).
  by rewrite !cls_hex_digit, IH by (apply Nat.Div0.div_lt_upper_bound || apply Nat.mod_upper_bound; lia).
Qed.

Lemma substring_sapp s t : String.substring 0 (String.length s) (s +:+ t) = s.
Proof. induction s as [|c s IH]; [by destruct t|]. simpl. by rewrite IH. Qed.

Lemma substring_long n s : (String.length s ≤ n)%nat → String.substring 0 n s = s.
Proof.
  revert n. induction s as [|c s IH]; intros n Hn; [by destruct n|].
  destruct n as [|n]; simpl in *; [lia|]. rewrite IH; [done|lia].
Qed.

Lemma string_last s : s ≠ "" → ∃ t c, s = t +:+ String c "".
Proof.
  induction s as [|c s IH]; [done|]. intros _. destruct s as [|c' s]; [by exists "", c|].
  destruct IH as (t & d & Heq); [done|]. exists (String c t), d. by rewrite Heq.
Qed.

(** ** What a pattern can match *)

Fixpoint re_over (p : ascii → bool) (r : re) : Prop :=
  match r with
  | RClass q => ∀ c, q c = true → p c = true
  | REps => True
  | RSeq r1 r2 | RAlt r1 r2 => re_over p r1 ∧ re_over p r2
  | ROpt r | RStar r | RGroup _ r => re_over p r
  end.

Lemma star_run_over p (f : string → list outcome) :
  (∀ s s' c, (s', c) ∈ f s → ∃ u, s = u +:+ s' ∧ all_chars p u = true) →
  ∀ fuel s s' c, (s', c) ∈ star_run f fuel s → ∃ u, s = u +:+ s' ∧ all_chars p u = true.
Proof.
  intros Hf. induction fuel as [|fuel IH]; intros s s' c; cbn [star_run].
  { intros [= -> ->]%list_elem_of_singleton. by exists "". }
  rewrite elem_of_app, list_elem_of_bind. intros [([s1 c1] & Hin & Hs1)|[= -> ->]%list_elem_of_singleton]; [|by exists ""].
  destruct (Nat.ltb _ _); [|inversion Hin].
  apply list_elem_of_bind in Hin as ([s2 c2] & Hin & Hs2). apply list_elem_of_singleton in Hin as [= -> ->].
  apply Hf in Hs1 as (u1 & -> & Hu1). apply IH in Hs2 as (u2 & -> & Hu2).
  exists (u1 +:+ u2). rewrite all_chars_app, Hu1, Hu2. split; [apply sapp_assoc|done].
Qed.

Lemma run_over p r : re_over p r → ∀ s s' c, (s', c) ∈ run r s → ∃ u, s = u +:+ s' ∧ all_chars p u = true.
Proof.
  induction r as [q| |r1 IH1 r2 IH2|r1 IH1 r2 IH2|r IH|r IH|n r IH]; intros Hr s s' c; cbn [run re_over] in *.
  - destruct s as [|a s]; [inversion 1|]. destruct (q a) eqn:E; [|inversion 1].
    intros [= -> ->]%list_elem_of_singleton. exists (String a ""). split; [done|]. simpl. by rewrite (Hr a E).
  - intros [= -> ->]%list_elem_of_singleton. by exists "".
  - destruct Hr as [Hr1 Hr2]. intros ([s1 c1] & Hin & Hs1)%list_elem_of_bind.
    apply list_elem_of_bind in Hin as ([s2 c2] & Hin & Hs2). apply list_elem_of_singleton in Hin as [= -> ->].
    destruct (IH1 Hr1 _ _ _ Hs1) as (u1 & -> & Hu1). destruct (IH2 Hr2 _ _ _ Hs2) as (u2 & -> & Hu2).
    exists (u1 +:+ u2). rewrite all_chars_app, Hu1, Hu2. split; [apply sapp_assoc|done].
  - destruct Hr as [Hr1 Hr2]. intros [H|H]%elem_of_app; eauto.
  - intros [H|[= -> ->]%list_elem_of_singleton]%elem_of_app; [eauto|by exists ""].
  - apply star_run_over. by apply IH.
  - intros ([s1 c1] & Hin & Hs1)%list_elem_of_bind. apply list_elem_of_singleton in Hin as [= -> ->]. eauto.
Qed.

Lemma match_over p r s : re_over p r → match_string r s = true → all_chars p s = true.
Proof.
  intros Hr. unfold match_string, find_submatch. destruct (List.find _ _) as [[s' c]|] eqn:E; [|done]. intros _.
  apply List.find_some in E as [Hin He%String.eqb_eq]. apply list_elem_of_In in Hin. cbn in He. subst s'.
  destruct (run_over p r Hr _ _ _ Hin) as (u & -> & Hu). by rewrite all_chars_app, Hu.
Qed.
