(* ===== verification/GoFloat.v ===== *)
(** * GoFloat: float64 as the program uses it

    IEEE 754 binary64 numbers and the conversions of Go between float64 and
    int64, over the Standard Library's [SpecFloat]. *)

From Stdlib Require Export SpecFloat.
From S2P Require Import Prelude.

Definition f64_prec : Z := 53.
Definition f64_emax : Z := 1024.

(** [float64(z)], rounded to nearest even. *)
Definition f64_of_Z (z : Z) : spec_float := binary_normalize f64_prec f64_emax z 0 false.
Definition f64_mul : spec_float → spec_float → spec_float := SFmul f64_prec f64_emax.
Definition f64_add : spec_float → spec_float → spec_float := SFadd f64_prec f64_emax.
Definition f64_sub : spec_float → spec_float → spec_float := SFsub f64_prec f64_emax.
Definition f64_lt (x y : spec_float) : bool := SFltb x y.

(** The constant [n / d] as a float64. *)
Definition f64_const (n d : Z) : spec_float := SFdiv f64_prec f64_emax (f64_of_Z n) (f64_of_Z d).

(** The integer part, toward zero; [None] for infinities and NaN. *)
Definition f64_trunc (x : spec_float) : option Z :=
  match x with
  | S754_zero _ => Some 0
  | S754_finite s m e =>
      let v := if 0 <=? e then Z.pos m * 2 ^ e else Z.pos m / 2 ^ (- e) in
      Some (if s then - v else v)
  | _ => None
  end.

(** [int64(x)].  Outside the range of int64 the result depends on the
    implementation: it is [other x]. *)
Definition f64_to_int64 (other : spec_float → Z) (x : spec_float) : Z :=
  match f64_trunc x with
  | Some z => if ((- 2 ^ 63 <=? z) && (z <? 2 ^ 63))%bool then z else other x
  | None => other x
  end.

Example f64_of_Z_exact : f64_to_int64 (λ _, 0) (f64_of_Z 60000000000) = 60000000000.
Proof. by vm_compute. Qed.

Example f64_of_Z_rounds : f64_to_int64 (λ _, 0) (f64_of_Z (2 ^ 53 + 1)) = 2 ^ 53.
Proof. by vm_compute. Qed.

Example f64_fifth : f64_const 1 5 = S754_finite false 7205759403792794 (-55).
Proof. by vm_compute. Qed.
