(* ===== verification/GoText.v ===== *)
(** * GoText: texts of runes, durations and floats

    What the code uses of unicode/utf8, time.Duration and the verb [%.2f] of
    fmt. *)

From S2P Require Import Prelude GoLib GoFloat.

(** ** UTF-8

    The runes of a text: a byte that starts no valid encoding is one
    rune, U+FFFD. *)

Definition byte_of (c : ascii) : Z := Z.of_nat (nat_of_ascii c).
Definition byte_in (lo hi : Z) (c : ascii) : bool := ((lo <=? byte_of c) && (byte_of c <=? hi))%bool.

Definition replacement_rune : string :=
  String (ascii_of_nat 239) (String (ascii_of_nat 191) (String (ascii_of_nat 189) "")).

(** The encoding of the first rune of [String c s], and the rest. *)
Definition first_rune (c : ascii) (s : string) : string * string :=
  let b := byte_of c in
  let invalid := (replacement_rune, s) in
  if b <? 128 then (String c "", s)
  else
    match s with
    | EmptyString => invalid
    | String d s =>
        let lo := if b =? 224 then 160 else if b =? 240 then 144 else 128 in
        let hi := if b =? 237 then 159 else if b =? 244 then 143 else 191 in
        if negb (byte_in lo hi d) then invalid
        else if ((194 <=? b) && (b <=? 223))%bool then (String c (String d ""), s)
        else match s with
        | EmptyString => invalid
        | String e s =>
            if negb (byte_in 128 191 e) then invalid
            else if ((224 <=? b) && (b <=? 239))%bool then (String c (String d (String e "")), s)
            else match s with
            | EmptyString => invalid
            | String f s =>
                if (byte_in 128 191 f && (240 <=? b) && (b <=? 244))%bool
                then (String c (String d (String e (String f ""))), s) else invalid
            end
        end
    end.

(** A rune takes at least one byte, so the length of the text is enough. *)
Fixpoint runes_fuel (fuel : nat) (s : string) : list string :=
  match fuel, s with
  | S fuel', String c s' => let '(r, rest) := first_rune c s' in r :: runes_fuel fuel' rest
  | _, _ => []
  end.
Definition runes (s : string) : list string := runes_fuel (String.length s) s.

Lemma first_rune_shorter c s : (String.length (first_rune c s).2 ≤ String.length s)%nat.
Proof.
  unfold first_rune. destruct (byte_of c <? 128); [done|]. destruct s as [|d s]; [done|].
  destruct (negb _); [done|]. destruct (_ && _)%bool; [simpl; lia|]. destruct s as [|e s]; [done|].
  destruct (negb _); [done|]. destruct (_ && _)%bool; [simpl; lia|]. destruct s as [|f s]; [done|].
  destruct (_ && _)%bool; simpl; lia.
Qed.

(** More fuel finds no more runes. *)
Lemma runes_fuel_enough n s : (String.length s ≤ n)%nat → runes_fuel n s = runes s.
Proof.
  unfold runes. remember (String.length s) as k eqn:Ek. revert n s Ek.
  induction k as [k IH] using lt_wf_ind. intros n s -> Hn.
  destruct s as [|c s]; [by destruct n|]. destruct n as [|n]; [simpl in Hn; lia|]. simpl in *.
  pose proof (first_rune_shorter c s). destruct (first_rune c s) as [r rest]. simpl in *. f_equal.
  rewrite (IH (String.length rest)) by lia. symmetry. by apply IH; lia.
Qed.

Example runes_ascii : runes "abc" = ["a"; "b"; "c"].
Proof. done. Qed.
Example runes_invalid :
  runes (String (ascii_of_nat 195) (String (ascii_of_nat 169) (String (ascii_of_nat 169) "x"))) =
  [String (ascii_of_nat 195) (String (ascii_of_nat 169) ""); replacement_rune; "x"].
Proof. done. Qed.

(** ** Decimal digits *)

(** [z] with at least [n] digits. *)
Fixpoint zeros (n : nat) : string :=
  match n with O => "" | S n' => String "0" (zeros n') end.
Definition pad_digits (n : nat) (z : Z) : string :=
  zeros (n - String.length (Itoa z)) +:+ Itoa z.

Fixpoint strip_zeros (s : string) : string :=
  match s with
  | EmptyString => EmptyString
  | String c s' => match strip_zeros s' with
                   | EmptyString => if Ascii.eqb c "0" then EmptyString else String c EmptyString
                   | t => String c t
                   end
  end.

(** ** time.Duration *)

Definition Microsecond : Z := 1000.
Definition Millisecond : Z := 1000 * Microsecond.
Definition Second : Z := 1000 * Millisecond.
Definition Minute : Z := 60 * Second.
Definition Hour : Z := 60 * Minute.

(** [u / 10 ^ prec] in decimal, without trailing zeros. *)
Definition fixed_point (prec : nat) (u : Z) : string :=
  let unit := 10 ^ Z.of_nat prec in
  let frac := strip_zeros (pad_digits prec (u mod unit)) in
  Itoa (u / unit) +:+ (if u mod unit =? 0 then "" else "." +:+ frac).

Definition micro : string := String (ascii_of_nat 194) (String (ascii_of_nat 181) "s").

(** [d.String()]. *)
Definition duration_string (d : Z) : string :=
  let u := Z.abs d in
  let sign := if d <? 0 then "-" else "" in
  sign +:+
  (if u =? 0 then "0s"
   else if u <? Microsecond then Itoa u +:+ "ns"
   else if u <? Millisecond then fixed_point 3 u +:+ micro
   else if u <? Second then fixed_point 6 u +:+ "ms"
   else
     let secs := u / Second in
     (if secs <? 60 then "" else
       (if secs <? 3600 then "" else Itoa (secs / 3600) +:+ "h") +:+ Itoa (secs / 60 mod 60) +:+ "m") +:+
     fixed_point 9 (u mod Minute) +:+ "s").

(** [d.Round(m)]: to the nearest multiple, halves away from zero; saturates. *)
Definition duration_round (d m : Z) : Z :=
  if m <=? 0 then d
  else
    let r := Z.abs (Z.rem d m) in
    if d <? 0 then
      if r + r <? m then d + r
      else let d1 := wrap64 (d - m + r) in if d1 <? d then d1 else - 2 ^ 63
    else
      if r + r <? m then d - r
      else let d1 := wrap64 (d + m - r) in if d <? d1 then d1 else 2 ^ 63 - 1.

Example durations :
  duration_string <$> [0; 1; 1500; 1500000; 30 * Second; 90 * Second + 500 * Millisecond; - Hour] =
  ["0s"; "1ns"; "1.5" +:+ micro; "1.5ms"; "30s"; "1m30.5s"; "-1h0m0s"].
Proof. vm_compute. reflexivity. Qed.

Lemma duration_round_near d m :
  in_int64 d → 0 < m → in_int64 (d + m) → in_int64 (d - m) →
  (m | duration_round d m) ∧ 2 * Z.abs (duration_round d m - d) ≤ m.
Proof.
  unfold in_int64. intros Hd Hm Hup Hdown. unfold duration_round.
  rewrite (proj2 (Z.leb_gt _ _) Hm). pose proof (Z.quot_rem' d m) as Hq.
  pose proof (Z.rem_bound_abs d m ltac:(lia)) as Hb.
  destruct (d <? 0) eqn:Ed; [apply Z.ltb_lt in Ed|apply Z.ltb_ge in Ed].
  - pose proof (Z.rem_nonpos d m ltac:(lia)) as Hs. rewrite Z.abs_neq by lia.
    destruct (_ <? m) eqn:E; [apply Z.ltb_lt in E|apply Z.ltb_ge in E].
    + split; [exists (d ÷ m); lia|lia].
    + rewrite wrap64_id by (unfold in_int64; lia). destruct (_ <? d) eqn:E'.
      * split; [exists (d ÷ m - 1); lia|lia].
      * apply Z.ltb_ge in E'. lia.
  - pose proof (Z.rem_nonneg d m ltac:(lia)) as Hs. rewrite Z.abs_eq by lia.
    destruct (_ <? m) eqn:E; [apply Z.ltb_lt in E|apply Z.ltb_ge in E].
    + split; [exists (d ÷ m); lia|lia].
    + rewrite wrap64_id by (unfold in_int64; lia). destruct (d <? _) eqn:E'.
      * split; [exists (d ÷ m + 1); lia|lia].
      * apply Z.ltb_ge in E'. lia.
Qed.

(** ** The verb [%.2f] *)

(** [n / d], for [d > 0], to the nearest integer, halves to even. *)
Definition round_even (n d : Z) : Z :=
  let q := n / d in
  let r := 2 * (n mod d) in
  if (d <? r) || ((r =? d) && Z.odd q) then q + 1 else q.

(** Exactly the decimal value of the float, rounded to [digits] places. *)
Definition format_fixed (digits : nat) (x : spec_float) : string :=
  match x with
  | S754_nan => "NaN"
  | S754_infinity s => if s then "-Inf" else "+Inf"
  | S754_zero s => (if s then "-" else "") +:+ "0" +:+
                   (if Nat.eqb digits 0 then "" else "." +:+ zeros digits)
  | S754_finite s m e =>
      let unit := 10 ^ Z.of_nat digits in
      let v := if 0 <=? e then Z.pos m * 2 ^ e * unit else round_even (Z.pos m * unit) (2 ^ (- e)) in
      (if s then "-" else "") +:+ Itoa (v / unit) +:+
      (if Nat.eqb digits 0 then "" else "." +:+ pad_digits digits (v mod unit))
  end.

Example fixed_texts :
  format_fixed 2 <$> [f64_const 1 3; f64_of_Z 5; f64_const 1 8; f64_const (-25) 10; f64_const 999 1000] =
  ["0.33"; "5.00"; "0.12"; "-2.50"; "1.00"].
Proof. vm_compute. reflexivity. Qed.
