(* ===== verification/GoDuration.v ===== *)
(** * GoDuration: time.ParseDuration

    The parser of durations of Go's package time, with its overflow checks and
    the float64 arithmetic of its fractions. *)

From S2P Require Import Prelude GoLib GoFloat GoText.

Definition digit_of (c : ascii) : Z := Z.of_nat (nat_of_ascii c) - 48.

(** The digits at the front of [s] as a number; [None] when it exceeds 2^63. *)
Fixpoint leading_int (x : Z) (s : string) : option (Z * string) :=
  match s with
  | String c s' =>
      if cls_digit c then
        if 2 ^ 63 / 10 <? x then None
        else let x := x * 10 + digit_of c in
             if 2 ^ 63 <? x then None else leading_int x s'
      else Some (x, s)
  | EmptyString => Some (x, s)
  end.

(** The digits of a fraction, and the power of ten they are over; digits that no
    longer fit are dropped. *)
Fixpoint leading_fraction (x : Z) (scale : spec_float) (overflow : bool) (s : string) : Z * spec_float * string :=
  match s with
  | String c s' =>
      if cls_digit c then
        if overflow then leading_fraction x scale true s'
        else if (2 ^ 63 - 1) / 10 <? x then leading_fraction x scale true s'
        else let y := x * 10 + digit_of c in
             if 2 ^ 63 <? y then leading_fraction x scale true s'
             else leading_fraction y (f64_mul scale (f64_of_Z 10)) false s'
      else (x, scale, s)
  | EmptyString => (x, scale, s)
  end.

(** The letters of a unit. *)
Fixpoint leading_unit (s : string) : string * string :=
  match s with
  | String c s' =>
      if (cls_digit c || Ascii.eqb c ".")%bool then ("", s)
      else let '(u, rest) := leading_unit s' in (String c u, rest)
  | EmptyString => ("", s)
  end.

(** [u] is the micro sign or the letter mu, in UTF-8. *)
Definition unit_of (u : string) : option Z :=
  let mu b d := String (ascii_of_nat b) (String (ascii_of_nat d) "s") in
  if u =s "ns" then Some 1
  else if ((u =s "us") || (u =s mu 194 181) || (u =s mu 206 188))%nat%bool then Some Microsecond
  else if u =s "ms" then Some Millisecond
  else if u =s "s" then Some Second
  else if u =s "m" then Some Minute
  else if u =s "h" then Some Hour
  else None.

(** [uint64(x)] for a float that is not negative. *)
Definition f64_to_uint64 (x : spec_float) : Z := Z.abs (default 0 (f64_trunc x)).

(** One number with its unit. *)
Definition duration_part (s : string) : option (Z * string) :=
  match s with
  | EmptyString => None
  | String c _ =>
      if negb (cls_digit c || Ascii.eqb c ".") then None
      else
        '(v, s1) ← leading_int 0 s;
        let pre := negb (Nat.eqb (String.length s) (String.length s1)) in
        let '(f, scale, s2, post) :=
          match s1 with
          | String d s' => if Ascii.eqb d "." then
                             let '(f, scale, s2) := leading_fraction 0 (f64_of_Z 1) false s' in
                             (f, scale, s2, negb (Nat.eqb (String.length s') (String.length s2)))
                           else (0, f64_of_Z 1, s1, false)
          | EmptyString => (0, f64_of_Z 1, s1, false)
          end in
        if negb (pre || post) then None
        else
          let '(u, s3) := leading_unit s2 in
          if u =s "" then None
          else
            unit ← unit_of u;
            if 2 ^ 63 / unit <? v then None
            else
              let v := v * unit in
              let v := if 0 <? f then
                         v + f64_to_uint64 (f64_mul (f64_of_Z f) (SFdiv f64_prec f64_emax (f64_of_Z unit) scale))
                       else v in
              if 2 ^ 63 <? v then None else Some (v, s3)
  end.

(** Every part has a character at least. *)
Fixpoint duration_parts (fuel : nat) (d : Z) (s : string) : option Z :=
  match s, fuel with
  | EmptyString, _ => Some d
  | _, O => None
  | _, S fuel =>
      '(v, s) ← duration_part s;
      if 2 ^ 63 <? d + v then None else duration_parts fuel (d + v) s
  end.

Definition ParseDuration (s : string) : option Z :=
  let '(neg, s) := match s with
                   | String c s' => if (Ascii.eqb c "-" || Ascii.eqb c "+")%bool then (Ascii.eqb c "-", s') else (false, s)
                   | EmptyString => (false, s)
                   end in
  if s =s "0" then Some 0
  else if s =s "" then None
  else
    d ← duration_parts (String.length s) 0 s;
    if neg : bool then Some (- d) else if 2 ^ 63 - 1 <? d then None else Some d.

Example parsed_durations :
  ParseDuration <$> ["1.5h"; "100ms"; "1h30m"; "-2s"; "+.5s"; "0"; ""; "5"; "1.2.3s"; "9223372036854775808ns"; "3 s"] =
  [Some (90 * Minute); Some (100 * Millisecond); Some (90 * Minute); Some (- (2 * Second));
   Some (500 * Millisecond); Some 0; None; None; None; None; None].
Proof. vm_compute. reflexivity. Qed.

Lemma nat_ascii_N c : Z.of_nat (nat_of_ascii c) = Z.of_N (N_of_ascii c).
Proof. unfold nat_of_ascii. lia. Qed.

Lemma leading_int_bound s : ∀ x y t, 0 ≤ x ≤ 2 ^ 63 → leading_int x s = Some (y, t) → 0 ≤ y ≤ 2 ^ 63.
Proof.
  induction s as [|c s IH]; intros x y t Hx; cbn [leading_int]; [by intros [= <- _]|].
  destruct (cls_digit c) eqn:Ec; [|by intros [= <- _]].
  destruct (2 ^ 63 / 10 <? x); [done|]. destruct (2 ^ 63 <? x * 10 + digit_of c) eqn:E; [done|].
  apply IH. apply Z.ltb_ge in E. split; [|done]. unfold cls_digit, in_range in Ec.
  apply andb_true_iff in Ec as [Ec _]. unfold digit_of. apply N.leb_le in Ec. rewrite nat_ascii_N. change (N_of_ascii "0") with 48%N in Ec. lia.
Qed.

Lemma unit_of_pos u n : unit_of u = Some n → 0 < n.
Proof.
  unfold unit_of. repeat match goal with |- context [if ?b then _ else _] => destruct b end; by intros [= <-].
Qed.

(** A parsed duration is an int64. *)
Lemma ParseDuration_int64 s d : ParseDuration s = Some d → in_int64 d.
Proof.
  unfold ParseDuration. destruct (match s with String _ _ => _ | _ => _ end) as [neg s'].
  destruct (s' =s "0"); [intros [= <-]; unfold in_int64; lia|]. destruct (s' =s ""); [done|].
  assert (∀ fuel v t w, 0 ≤ v ≤ 2 ^ 63 → duration_parts fuel v t = Some w → v ≤ w ≤ 2 ^ 63) as Hparts.
  { induction fuel as [|fuel IH]; intros v t w Hv; destruct t as [|c t]; cbn [duration_parts];
      [intros [= <-]; lia | done | intros [= <-]; lia|].
    intros ([p t'] & Hp & Hw)%bind_Some. destruct (2 ^ 63 <? v + p) eqn:E; [done|]. apply Z.ltb_ge in E.
    assert (0 ≤ p).
    { unfold duration_part in Hp. destruct (negb _); [done|]. apply bind_Some in Hp as ([y s1] & Hy & Hp).
      apply leading_int_bound in Hy; [|lia].
      destruct (match s1 with String _ _ => _ | _ => _ end) as [[[f scale] s2] post].
      destruct (negb _); [done|]. destruct (leading_unit s2) as [u s3]. destruct (u =s ""); [done|].
      apply bind_Some in Hp as (un & Hu & Hp). destruct (_ <? y); [done|].
      destruct (2 ^ 63 <? _) eqn:E2; [done|]. injection Hp as <- _.
      apply unit_of_pos in Hu.
      destruct (0 <? f); [|nia]. unfold f64_to_uint64. nia. }
    apply IH in Hw; lia. }
  destruct (duration_parts _ 0 s') as [w|] eqn:Hw; [|done]. apply Hparts in Hw; [|lia]. simpl.
  destruct neg; [intros [= <-]; unfold in_int64; lia|].
  destruct (2 ^ 63 - 1 <? w) eqn:E; [done|]. intros [= <-]. apply Z.ltb_ge in E. unfold in_int64. lia.
Qed.
