(* ===== verification/Errors.v ===== *)
(** * Errors: structured errors (src/internal/errors)

    The stable error codes, the structured error with its cause chain, the
    wrapping rules and the retryability classification.  An [error] value is
    either a Phelix [*Error] ([PErr]) or an error of another package
    ([Foreign], with the error it wraps, if any); the [nil] error is [None] of
    [option error] or the [Ok] branch of [result]. *)

From S2P Require Import Prelude GoLib.

(* src: internal/errors/codes.go:1-150 Code *)
Inductive Code :=
| CodeOK | CodeUnknown | CodeInvalidArgument | CodeNotFound | CodeAlreadyExists
| CodePermissionDenied | CodeUnauthenticated | CodeUnauthorized
| CodeInvalidCredentials | CodeSessionExpired | CodeRateLimited | CodeConfiguration
| CodeValidation | CodeIdempotencyConflict | CodePlanInvalid | CodePlanCorrupt
| CodePlanHashMismatch | CodePlanStale | CodePlanCapabilityMissing | CodeAuthzDenied
| CodeAuthzUnavailable | CodeAuthzInvalid | CodeApprovalRequired | CodeApprovalStale
| CodeApprovalInvalid | CodeSessionInvalid | CodeSessionCorrupt
| CodeSessionInvalidTransition | CodeSessionConflict | CodeBuildFailed
| CodeToolchainNotFound | CodeBuildTimeout | CodeUnsupportedProject | CodeGitSyncFailed
| CodeDeployFailed | CodeInstanceStartFailed | CodeHealthCheckFailed | CodeDeployLocked
| CodeVersionNotFound | CodeSecretNotFound | CodeCanaryRegression | CodeWorkspaceLocked
| CodeRollbackFailed | CodeRollbackTargetNotFound | CodeRollbackVerifyFailed
| CodeAutoRollbackFailed | CodeProcessFailed | CodeFilesystem | CodeResourceOOM
| CodeDocker | CodeDockerDaemonUnavailable | CodeNetwork | CodeConnection | CodeTimeout
| CodeUpdateFailed | CodeProxy | CodePortUnavailable | CodeGRPC | CodeServer
| CodeEncryption | CodeUnimplemented | CodeUnavailable.

#[export] Instance Code_eq_dec : EqDecision Code.
Proof. solve_decision. Defined.

(** The constant strings of the declaration, and [Code.String]. *)
(* src: internal/errors/codes.go:151-195 Code.String *)
Definition Code_String (c : Code) : string :=
  match c with
  | CodeOK => "OK" | CodeUnknown => "UNKNOWN"
  | CodeInvalidArgument => "INVALID_ARGUMENT" | CodeNotFound => "NOT_FOUND"
  | CodeAlreadyExists => "ALREADY_EXISTS" | CodePermissionDenied => "PERMISSION_DENIED"
  | CodeUnauthenticated => "UNAUTHENTICATED" | CodeUnauthorized => "UNAUTHORIZED"
  | CodeInvalidCredentials => "INVALID_CREDENTIALS"
  | CodeSessionExpired => "SESSION_EXPIRED" | CodeRateLimited => "RATE_LIMITED"
  | CodeConfiguration => "CONFIGURATION_ERROR" | CodeValidation => "VALIDATION_ERROR"
  | CodeIdempotencyConflict => "IDEMPOTENCY_CONFLICT"
  | CodePlanInvalid => "PLAN_INVALID" | CodePlanCorrupt => "PLAN_CORRUPT"
  | CodePlanHashMismatch => "PLAN_HASH_MISMATCH" | CodePlanStale => "PLAN_STALE"
  | CodePlanCapabilityMissing => "PLAN_CAPABILITY_MISSING"
  | CodeAuthzDenied => "AUTHZ_DENIED" | CodeAuthzUnavailable => "AUTHZ_UNAVAILABLE"
  | CodeAuthzInvalid => "AUTHZ_INVALID" | CodeApprovalRequired => "APPROVAL_REQUIRED"
  | CodeApprovalStale => "APPROVAL_STALE" | CodeApprovalInvalid => "APPROVAL_INVALID"
  | CodeSessionInvalid => "SESSION_INVALID" | CodeSessionCorrupt => "SESSION_CORRUPT"
  | CodeSessionInvalidTransition => "SESSION_INVALID_TRANSITION"
  | CodeSessionConflict => "SESSION_CONFLICT" | CodeBuildFailed => "BUILD_FAILED"
  | CodeToolchainNotFound => "TOOLCHAIN_NOT_FOUND"
  | CodeBuildTimeout => "BUILD_TIMEOUT"
  | CodeUnsupportedProject => "UNSUPPORTED_PROJECT"
  | CodeGitSyncFailed => "GIT_SYNC_FAILED" | CodeDeployFailed => "DEPLOY_FAILED"
  | CodeInstanceStartFailed => "INSTANCE_START_FAILED"
  | CodeHealthCheckFailed => "HEALTH_CHECK_FAILED"
  | CodeDeployLocked => "DEPLOY_LOCKED" | CodeVersionNotFound => "VERSION_NOT_FOUND"
  | CodeSecretNotFound => "SECRET_NOT_FOUND"
  | CodeCanaryRegression => "CANARY_REGRESSION"
  | CodeWorkspaceLocked => "WORKSPACE_LOCKED" | CodeRollbackFailed => "ROLLBACK_FAILED"
  | CodeRollbackTargetNotFound => "ROLLBACK_TARGET_NOT_FOUND"
  | CodeRollbackVerifyFailed => "ROLLBACK_VERIFY_FAILED"
  | CodeAutoRollbackFailed => "AUTO_ROLLBACK_FAILED"
  | CodeProcessFailed => "PROCESS_FAILED" | CodeFilesystem => "FILESYSTEM_ERROR"
  | CodeResourceOOM => "RESOURCE_OOM" | CodeDocker => "DOCKER_ERROR"
  | CodeDockerDaemonUnavailable => "DOCKER_DAEMON_UNAVAILABLE"
  | CodeNetwork => "NETWORK_ERROR" | CodeConnection => "CONNECTION_ERROR"
  | CodeTimeout => "TIMEOUT" | CodeUpdateFailed => "UPDATE_FAILED"
  | CodeProxy => "PROXY_ERROR" | CodePortUnavailable => "PORT_UNAVAILABLE"
  | CodeGRPC => "GRPC_ERROR" | CodeServer => "SERVER_ERROR"
  | CodeEncryption => "ENCRYPTION_ERROR" | CodeUnimplemented => "UNIMPLEMENTED"
  | CodeUnavailable => "UNAVAILABLE"
  end.

(** Every code, for the conversion [phelixerr.Code(s)] of a string. *)
Definition all_codes : list Code :=
  [ CodeOK; CodeUnknown; CodeInvalidArgument; CodeNotFound; CodeAlreadyExists;
    CodePermissionDenied; CodeUnauthenticated; CodeUnauthorized;
    CodeInvalidCredentials; CodeSessionExpired; CodeRateLimited; CodeConfiguration;
    CodeValidation; CodeIdempotencyConflict; CodePlanInvalid; CodePlanCorrupt;
    CodePlanHashMismatch; CodePlanStale; CodePlanCapabilityMissing; CodeAuthzDenied;
    CodeAuthzUnavailable; CodeAuthzInvalid; CodeApprovalRequired; CodeApprovalStale;
    CodeApprovalInvalid; CodeSessionInvalid; CodeSessionCorrupt;
    CodeSessionInvalidTransition; CodeSessionConflict; CodeBuildFailed;
    CodeToolchainNotFound; CodeBuildTimeout; CodeUnsupportedProject; CodeGitSyncFailed;
    CodeDeployFailed; CodeInstanceStartFailed; CodeHealthCheckFailed; CodeDeployLocked;
    CodeVersionNotFound; CodeSecretNotFound; CodeCanaryRegression; CodeWorkspaceLocked;
    CodeRollbackFailed; CodeRollbackTargetNotFound; CodeRollbackVerifyFailed;
    CodeAutoRollbackFailed; CodeProcessFailed; CodeFilesystem; CodeResourceOOM;
    CodeDocker; CodeDockerDaemonUnavailable; CodeNetwork; CodeConnection; CodeTimeout;
    CodeUpdateFailed; CodeProxy; CodePortUnavailable; CodeGRPC; CodeServer;
    CodeEncryption; CodeUnimplemented; CodeUnavailable ].

(* src: internal/errors/errors.go Error *)
#[warnings="-register-all"]
Inductive error :=
| PErr (code : Code) (message : string) (cause : option error)
| Foreign (text : string) (inner : option error).

(** A fallible Go call. *)
Abbreviation res := (result error).

(** [err.Error()]: the message alone, for a structured error. *)
(* src: internal/errors/errors.go Error.Error *)
Definition Error (e : error) : string :=
  match e with PErr _ m _ => m | Foreign t _ => t end.

(* src: internal/errors/errors.go Error.Unwrap *)
Definition Unwrap (e : error) : option error :=
  match e with PErr _ _ c => c | Foreign _ i => i end.

(** [New] and [Newf]; the formatted message is built by the caller. *)
(* src: internal/errors/errors.go New *)
Definition New (code : Code) (message : string) : error := PErr code message None.

(** [errors.As(err, &e)] with [e] a [*Error]: the first structured error of the
    chain. *)
(* src: internal/errors/errors.go AsError *)
Fixpoint AsError (e : error) : option (Code * string) :=
  match e with
  | PErr c m _ => Some (c, m)
  | Foreign _ (Some i) => AsError i
  | Foreign _ None => None
  end.

(* src: internal/errors/errors.go CodeOf *)
Definition CodeOf (err : option error) : Code :=
  match err with
  | None => CodeUnknown
  | Some e => match AsError e with Some (c, _) => c | None => CodeUnknown end
  end.

(** [Wrap] (and [Wrapf], which formats the message first). *)
(* src: internal/errors/errors.go Wrap *)
Definition Wrap (code : Code) (message : string) (err : option error) : option error :=
  match err with
  | None => None
  | Some e =>
      let inner := CodeOf (Some e) in
      let code := if decide (inner = CodeSecretNotFound ∨ inner = CodeEncryption)
                  then inner else code in
      Some (PErr code message (Some e))
  end.

(** [Wrap] of an error that is not [nil]. *)
(* src: internal/errors/errors.go Wrap *)
Definition wrap (code : Code) (message : string) (e : error) : error :=
  default e (Wrap code message (Some e)).

(* src: internal/errors/errors.go IsCode *)
Definition IsCode (err : option error) (code : Code) : bool :=
  bool_decide (CodeOf err = code).

(** The deepest error of the chain. *)
(* src: internal/errors/errors.go Cause *)
Fixpoint Cause (e : error) : error :=
  match e with
  | PErr _ _ (Some i) | Foreign _ (Some i) => Cause i
  | _ => e
  end.

(* src: internal/errors/retryable.go retryableCodes *)
Definition retryableCodes : list Code :=
  [ CodeHealthCheckFailed; CodeInstanceStartFailed; CodeProxy; CodeConnection;
    CodeTimeout; CodePortUnavailable; CodeDeployLocked; CodeNetwork;
    CodeProcessFailed; CodeRateLimited; CodeUnavailable; CodeAuthzUnavailable;
    CodeSessionConflict ].

(* src: internal/errors/retryable.go Retryable *)
Definition Retryable (code : Code) : bool := bool_decide (code ∈ retryableCodes).

(** The status codes of google.golang.org/grpc/codes. *)
Inductive grpc_code :=
| G_OK | G_Canceled | G_Unknown | G_InvalidArgument | G_DeadlineExceeded | G_NotFound
| G_AlreadyExists | G_PermissionDenied | G_ResourceExhausted | G_FailedPrecondition
| G_Aborted | G_OutOfRange | G_Unimplemented | G_Internal | G_Unavailable | G_DataLoss
| G_Unauthenticated.

(* src: internal/errors/grpc.go grpcToCode *)
Definition grpcToCode (g : grpc_code) : Code :=
  match g with
  | G_InvalidArgument => CodeInvalidArgument
  | G_NotFound => CodeNotFound
  | G_AlreadyExists => CodeAlreadyExists
  | G_Unauthenticated => CodeUnauthenticated
  | G_PermissionDenied => CodePermissionDenied
  | G_DeadlineExceeded => CodeTimeout
  | G_Unavailable | G_Canceled => CodeConnection
  | G_ResourceExhausted => CodeServer
  | G_Internal => CodeServer
  | G_Unimplemented => CodeUnknown
  | _ => CodeGRPC
  end.

Section FromGRPC.
(** [errors.Is(err, context.DeadlineExceeded)] and [status.FromError] belong
    to the standard library and to the gRPC module. *)
Variable is_deadline_exceeded : error → bool.
Variable status_FromError : error → option (grpc_code * string).

(* src: internal/errors/grpc.go FromGRPC *)
Definition FromGRPC (err : option error) : option error :=
  match err with
  | None => None
  | Some e =>
      if is_deadline_exceeded e then Some (PErr CodeTimeout "operation timed out" (Some e))
      else match AsError e with
           | Some _ => Some e
           | None =>
               match status_FromError e with
               | None => Some e
               | Some (g, m) =>
                   let code := grpcToCode g in
                   let msg := if m =s "" then "remote operation failed" else m in
                   Some (PErr code (msg +:+ ": " +:+ Code_String code) (Some e))
               end
           end
  end.
End FromGRPC.

(** ** Facts shared by the components *)

Lemma CodeOf_New c m : CodeOf (Some (New c m)) = c.
Proof. done. Qed.

Lemma CodeOf_wrap c m e :
  CodeOf (Some (wrap c m e)) =
  if decide (CodeOf (Some e) = CodeSecretNotFound ∨ CodeOf (Some e) = CodeEncryption)
  then CodeOf (Some e) else c.
Proof. done. Qed.

(** An error of another package, as the file operations return them, takes the
    code it is wrapped with. *)
Lemma CodeOf_wrap_foreign c m t : CodeOf (Some (wrap c m (Foreign t None))) = c.
Proof. done. Qed.
#[export] Hint Rewrite CodeOf_New CodeOf_wrap_foreign : phelix.

Lemma elem_of_all_codes c : c ∈ all_codes.
Proof. destruct c; apply (bool_decide_unpack _); vm_compute; exact I. Qed.

(** ** Codes through wrapping *)

(** Wrap an error at every level of a call chain, innermost first. *)
Definition wrap_all (levels : list (Code * string)) (e : error) : error :=
  foldl (λ e '(c, m), wrap c m e) e levels.

Definition sticky (c : Code) : bool := bool_decide (c ∈ [CodeSecretNotFound; CodeEncryption]).

Lemma CodeOf_wrap_sticky c m e :
  CodeOf (Some (wrap c m e)) = if sticky (CodeOf (Some e)) then CodeOf (Some e) else c.
Proof.
  rewrite CodeOf_wrap. unfold sticky.
  destruct (decide (_ ∨ _)) as [Hd|Hd]; [rewrite bool_decide_true|rewrite bool_decide_false];
    rewrite ?elem_of_cons; set_solver.
Qed.

(** The code a caller sees is the one of the outermost wrap, except that a
    missing secret or an encryption failure keeps its code through any number
    of wraps; the cause stays reachable. *)
Theorem wrapped_code levels e :
  CodeOf (Some (wrap_all levels e)) =
    (match List.find sticky (CodeOf (Some e) :: levels.*1) with
     | Some c => c
     | None => List.last levels.*1 (CodeOf (Some e))
     end) ∧
  Cause (wrap_all levels e) = Cause e.
Proof.
  unfold wrap_all. revert e. induction levels as [|[c m] levels IH]; intros e.
  { simpl. split; [|done]. by destruct (sticky _). }
  cbn [foldl fmap list_fmap]. destruct (IH (wrap c m e)) as [IH1 IH2]. rewrite IH1, IH2. split; [|done].
  rewrite CodeOf_wrap_sticky. cbn [List.find fst]. destruct (sticky (CodeOf (Some e))) eqn:Hs.
  { by rewrite Hs. }
  destruct (sticky c); [done|]. change (list_fmap _ _ fst levels) with (levels.*1).
  destruct (List.find sticky levels.*1); [done|]. cbn [List.last].
  destruct (levels.*1) as [|x l]; [done|apply List_last_irrel].
Qed.

(** The wire names of the codes are distinct, so a code is never confused
    with another by a consumer that switches on the name. *)
Theorem code_names_are_distinct c1 c2 : Code_String c1 = Code_String c2 → c1 = c2.
Proof.
  assert (forallb (λ a, forallb (λ b, implb (Code_String a =s Code_String b)
    (bool_decide (a = b))) all_codes) all_codes = true) as Hall by by vm_compute.
  rewrite forallb_forall in Hall. intros Heq.
  specialize (Hall c1 (proj1 (list_elem_of_In _ _) (elem_of_all_codes c1))).
  rewrite forallb_forall in Hall.
  specialize (Hall c2 (proj1 (list_elem_of_In _ _) (elem_of_all_codes c2))).
  rewrite Heq, String.eqb_refl in Hall. by apply bool_decide_eq_true in Hall.
Qed.

Lemma code_names_are_distinct_witness : CodeEncryption = CodeEncryption.
Proof. exact (code_names_are_distinct CodeEncryption CodeEncryption eq_refl). Defined.
