(* ===== verification/Machine.v ===== *)
(** * Machine: the machine-readable contract (src/internal/machine)

    The lifecycle vocabulary, the actor block, the response envelope and the
    mappings of internal states into the external vocabulary.  Serialisation
    and the redirection of the standard streams are not modelled; the command
    result inside an envelope ([any]) is opaque text. *)

From S2P Require Import Prelude GoLib Errors.

(* src: internal/machine/machine.go:23-23 SchemaVersion *)
Definition EnvelopeSchemaVersion := "1".

(* src: internal/machine/machine.go StatusPending *)
Definition StatusPending := "pending".
(* src: internal/machine/machine.go StatusRunning *)
Definition StatusRunning := "running".
(* src: internal/machine/machine.go StatusSucceeded *)
Definition StatusSucceeded := "succeeded".
(* src: internal/machine/machine.go StatusFailed *)
Definition StatusFailed := "failed".
(* src: internal/machine/machine.go StatusCancelled *)
Definition StatusCancelled := "cancelled".

Definition lifecycle : list string :=
  [StatusPending; StatusRunning; StatusSucceeded; StatusFailed; StatusCancelled].

(* src: internal/machine/machine.go Actor *)
Record Actor := mkActor {
  Actor_Type : string;
  Actor_ID : option string;
  Actor_Authenticated : bool
}.

#[export] Instance Actor_eq_dec : EqDecision Actor.
Proof. solve_decision. Defined.

(* src: internal/machine/machine.go CLIActor *)
Definition CLIActor : Actor := mkActor "cli" None false.

(* src: internal/machine/machine.go ErrorBody *)
Record ErrorBody := mkErrorBody {
  EB_Code : string;
  EB_Message : string;
  EB_ExitCode : Z;
  EB_Retryable : option bool;
  EB_OperationID : string
}.

(* src: internal/machine/machine.go Envelope *)
Record Envelope := mkEnvelope {
  Env_SchemaVersion : string;
  Env_OperationID : string;
  Env_Status : string;
  Env_Result : option string;
  Env_Error : option ErrorBody
}.

(* src: internal/machine/machine.go Success *)
Definition Success (operationID : string) (result : option string) : Envelope :=
  {| Env_SchemaVersion := EnvelopeSchemaVersion; Env_OperationID := operationID;
     Env_Status := StatusSucceeded; Env_Result := result; Env_Error := None |}.

Section Failures.
Variable Redact : string → string.

(* src: internal/machine/machine.go ErrorBodyFor *)
Definition ErrorBodyFor (err : option error) (exitCode : Z) (operationID : string) : ErrorBody :=
  let code := match err with Some _ => CodeOf err | None => CodeUnknown end in
  let msg := match err with Some e => Redact (Error e) | None => "" end in
  let msg := if msg =s "" then "operation failed" else msg in
  {| EB_Code := Code_String code; EB_Message := msg; EB_ExitCode := exitCode;
     EB_Retryable := if decide (code = CodeUnknown) then None else Some (Retryable code);
     EB_OperationID := operationID |}.

(** [active] is the operation registered for the executing command. *)
(* src: internal/machine/machine.go Failure *)
Definition Failure (active : string) (err : option error) (exitCode : Z) (operationID : string)
  : Envelope :=
  let operationID := if operationID =s "" then active else operationID in
  {| Env_SchemaVersion := EnvelopeSchemaVersion; Env_OperationID := operationID;
     Env_Status := StatusFailed; Env_Result := None;
     Env_Error := Some (ErrorBodyFor err exitCode operationID) |}.
End Failures.

(* src: internal/machine/machine.go MapWebhookJobStatus *)
Definition MapWebhookJobStatus (status : string) : string :=
  if one_of status ["accepted"; "queued"; "syncing"; "building"; "deploying"; "health_checking"]
  then StatusRunning
  else if status =s "succeeded" then StatusSucceeded
  else if one_of status ["failed"; "rolled_back"] then StatusFailed
  else if status =s "cancelled" then StatusCancelled
  else StatusFailed.

(* src: internal/machine/machine.go MapMatrixRunStatus *)
Definition MapMatrixRunStatus (status : string) : string :=
  if one_of status ["running"; "pending"] then StatusRunning
  else if status =s "succeeded" then StatusSucceeded
  else if one_of status ["failed"; "partial"; "interrupted"] then StatusFailed
  else StatusFailed.

(* src: internal/machine/machine.go MapDeployStatus *)
Definition MapDeployStatus (status : string) : string :=
  if status =s "idle" then StatusPending
  else if status =s "in_progress" then StatusRunning
  else if status =s "succeeded" then StatusSucceeded
  else if status =s "failed" then StatusFailed
  else if status =s "cancelled" then StatusCancelled
  else StatusFailed.

(* src: internal/machine/machine.go MapRollbackStatus *)
Definition MapRollbackStatus (status : string) : string :=
  if status =s "success" then StatusSucceeded
  else if status =s "failed" then StatusFailed
  else StatusFailed.
