(* ===== verification/FileStore.v ===== *)
(** * FileStore: the durable-write discipline shared by the stores

    The operation records, the request-key ledger, the sessions, the plans and
    the approvals are JSON files written with one discipline: an exclusive
    temporary file, write, sync, close, then [rename] (replace) or [link]
    (create only), then a sync of the directory.  This file models the file
    system those stores see, the discipline as a sequence of system calls that
    may each fail, and the states a crash between two calls can leave behind.

    A file holds either the encoding of a value ([Data]) or bytes that decode
    to nothing ([Garbage]): [encoding/json] is modelled by the value itself. *)

From stdpp Require Import stringmap.
From S2P Require Import Prelude GoLib Errors.

Inductive content (C : Type) :=
| Garbage
| Data (c : C).
Arguments Garbage {C}.
Arguments Data {C} c.

(** System calls, for the fault oracle of one run. *)
Inductive fs_op :=
| op_mkdir | op_stat | op_create | op_write | op_sync | op_close | op_link
| op_rename | op_remove | op_open_dir | op_sync_dir | op_read | op_read_dir
| op_open_lock | op_flock | op_chmod.

#[export] Instance fs_op_eq_dec : EqDecision fs_op.
Proof. solve_decision. Defined.

(** [faults o = Some t]: call [o] fails in this run with the error text [t]. *)
Definition faults : Type := fs_op → option string.
Definition no_faults : faults := λ _, None.
Definition fault_at (o : fs_op) : faults :=
  λ o', if decide (o = o') then Some "input/output error" else None.

Inductive os_error :=
| ErrExist
| ErrNotExist
| ErrIO (text : string).

(** The [error] value of a failed call, as the wrapping code sees it. *)
Definition os_err (e : os_error) : error :=
  match e with
  | ErrExist => Foreign "file exists" None
  | ErrNotExist => Foreign "file does not exist" None
  | ErrIO t => Foreign t None
  end.

Section FileStore.
Context {C : Type}.
Abbreviation fs := (gmap string (content C)).

(** One system call of the discipline. *)
Inductive syscall :=
| SMkdir
| SStatFree (path : string)     (* [Lstat], which must report no such file *)
| SCreate (tmp : string)        (* [O_CREATE|O_EXCL] *)
| SWrite (tmp : string) (c : C)
| SSync
| SClose
| SRename (tmp path : string)
| SLink (tmp path : string)
| SRemove (path : string)
| SOpenDir
| SSyncDir
| SChmod.

Definition op_of (s : syscall) : fs_op :=
  match s with
  | SMkdir => op_mkdir | SStatFree _ => op_stat | SCreate _ => op_create
  | SWrite _ _ => op_write | SSync => op_sync | SClose => op_close
  | SRename _ _ => op_rename | SLink _ _ => op_link | SRemove _ => op_remove
  | SOpenDir => op_open_dir | SSyncDir => op_sync_dir | SChmod => op_chmod
  end.

(** The effect of a call that is not made to fail. *)
Definition syscall_effect (s : syscall) (f : fs) : result os_error fs :=
  match s with
  | SMkdir | SSync | SClose | SOpenDir | SSyncDir | SChmod => Ok f
  | SStatFree p => match f !! p with Some _ => Err ErrExist | None => Ok f end
  | SCreate t => match f !! t with
                 | Some _ => Err ErrExist
                 | None => Ok (<[t := Garbage]> f)
                 end
  | SWrite t c => Ok (<[t := Data c]> f)
  | SRename t p => match f !! t with
                   | Some x => Ok (<[p := x]> (delete t f))
                   | None => Err ErrNotExist
                   end
  | SLink t p => match f !! p, f !! t with
                 | Some _, _ => Err ErrExist
                 | None, Some x => Ok (<[p := x]> f)
                 | None, None => Err ErrNotExist
                 end
  | SRemove p => match f !! p with
                 | Some _ => Ok (delete p f)
                 | None => Err ErrNotExist
                 end
  end.

Definition do_syscall (fl : faults) (s : syscall) (f : fs) : result os_error fs :=
  match fl (op_of s) with
  | Some t => Err (ErrIO t)
  | None => syscall_effect s f
  end.

(** [_ = f.Close(); _ = os.Remove(tmp)]: errors are ignored. *)
Definition do_ignored (fl : faults) (f : fs) (s : syscall) : fs :=
  match do_syscall fl s f with Ok f' => f' | Err _ => f end.

(** A call with its error branch: what is cleaned up, what is returned.  With
    [fatal = false] a failure is ignored. *)
Record guarded := Guarded {
  call : syscall;
  fatal : bool;
  on_err : os_error → error;
  cleanup : list syscall
}.

(** Run the calls in order.  The list holds every state between two calls,
    newest last: the states a crash can leave behind. *)
Fixpoint exec (fl : faults) (prog : list guarded) (f : fs)
  : list fs * res unit * fs :=
  match prog with
  | [] => ([], Ok tt, f)
  | g :: prog' =>
      match do_syscall fl (call g) f with
      | Ok f' => let '(tr, r, f'') := exec fl prog' f' in (f' :: tr, r, f'')
      | Err e =>
          if fatal g then
            let f' := foldl (do_ignored fl) f (cleanup g) in
            ([f'], Err (on_err g e), f')
          else exec fl prog' f
      end
  end.

(** [if err := call(); err != nil { return Wrap(code, msg, err) }]. *)
Definition must (s : syscall) (code : Code) (msg : string) (cl : list syscall) : guarded :=
  {| call := s; fatal := true; on_err := λ e, wrap code msg (os_err e); cleanup := cl |}.

(** [_ = call()]. *)
Definition ignore_err (s : syscall) : guarded :=
  {| call := s; fatal := false; on_err := λ e, os_err e; cleanup := [] |}.

(** Temporary file, write, sync, close. *)
Definition write_tmp (code : Code) (noun tmp : string) (c : C) : list guarded :=
  [ must (SCreate tmp) code ("create " +:+ noun +:+ " temp file") [];
    must (SWrite tmp c) code ("write " +:+ noun) [SClose; SRemove tmp];
    must SSync code ("sync " +:+ noun) [SClose; SRemove tmp];
    must SClose code ("close " +:+ noun) [SRemove tmp] ].

Definition sync_dir (code : Code) (dnoun : string) : list guarded :=
  [ must SOpenDir code ("open " +:+ dnoun +:+ " directory") [];
    must SSyncDir code ("sync " +:+ dnoun +:+ " directory") [] ].

(** Replace [path] atomically. *)
Definition replace_prog (code : Code) (noun dnoun tmp path : string) (c : C)
  : list guarded :=
  write_tmp code noun tmp c ++
  must (SRename tmp path) code ("replace " +:+ noun) [SRemove tmp] ::
  sync_dir code dnoun.

(** The same without a sync of the directory, with the messages of the store. *)
Definition replace_unsynced_prog (code : Code) (m_create m_write m_sync m_close m_replace tmp path : string)
    (c : C) : list guarded :=
  [ must (SCreate tmp) code m_create [];
    must (SWrite tmp c) code m_write [SClose; SRemove tmp];
    must SSync code m_sync [SClose; SRemove tmp];
    must SClose code m_close [SRemove tmp];
    must (SRename tmp path) code m_replace [SRemove tmp] ].

(** The link step of a create-only write: losing the race is reported as an
    already existing artifact. *)
Definition link_step (code : Code) (msg : string) (exists_err : error)
    (tmp path : string) : guarded :=
  {| call := SLink tmp path; fatal := true;
     on_err := λ e, match e with ErrExist => exists_err | _ => wrap code msg (os_err e) end;
     cleanup := [SRemove tmp] |}.

Definition stat_step (code : Code) (msg : string) (exists_err : error)
    (path : string) : guarded :=
  {| call := SStatFree path; fatal := true;
     on_err := λ e, match e with ErrExist => exists_err | _ => wrap code msg (os_err e) end;
     cleanup := [] |}.

(** Create [path] exactly once. *)
Definition create_only_prog (code : Code) (noun dnoun : string) (exists_err : error)
    (tmp path : string) (c : C) : list guarded :=
  stat_step code ("stat " +:+ noun) exists_err path ::
  write_tmp code noun tmp c ++
  link_step code ("persist " +:+ noun) exists_err tmp path ::
  ignore_err (SRemove tmp) ::
  sync_dir code dnoun.

(** The result and the final state of a run. *)
Definition run_prog (fl : faults) (prog : list guarded) (f : fs) : res unit * fs :=
  let '(_, r, f') := exec fl prog f in (r, f').

Definition crash_states (fl : faults) (prog : list guarded) (f : fs) : list fs :=
  f :: (exec fl prog f).1.1.
End FileStore.
Arguments syscall C : clear implicits.
Arguments guarded C : clear implicits.

(** [path.tmp-<pid>]. *)
Definition tmp_path (path : string) (pid : Z) : string := path +:+ ".tmp-" +:+ Itoa pid.

Lemma tmp_path_ne path pid : tmp_path path pid ≠ path.
Proof.
  unfold tmp_path. intros Heq. apply (f_equal String.length) in Heq.
  rewrite !length_sapp in Heq. simpl in Heq. lia.
Qed.
#[export] Hint Resolve tmp_path_ne : phelix.

(** ** Properties of the discipline *)

(** Run a program: one case per call that may fail. *)
Ltac run_syscalls fl f tmp :=
  unfold do_syscall, syscall_effect;
  repeat match goal with
  | |- context [fl ?o] => let E := fresh "Hfl" in destruct (fl o) eqn:E; simpl
  | |- context [?m !! tmp] => let E := fresh "Htmp" in destruct (m !! tmp) eqn:E; simpl
  end.

(** The name of [os.CreateTemp] starts with its pattern. *)
Lemma fresh_string_digits {A} (m : stringmap.stringmap A) s :
  ∃ t, fresh_string s m = s +:+ t ∧ all_chars cls_digit t = true.
Proof.
  unfold fresh_string. destruct (m !! s) as [a|] eqn:Hs.
  - clear a Hs. generalize 0%N (wf_guard 32 (stringmap.fresh_string_R_wf s m) 0%N). revert m.
    fix FIX 3. intros m n [?]. simpl. unfold stringmap.fresh_string_go at 1. simpl.
    destruct (Some_dec (m !! _)) as [[??]|?]; [apply FIX|]. exists (pretty n). split; [done|apply pretty_digits].
  - exists "". split; [symmetry; apply sapp_nil_r|done].
Qed.

Lemma fresh_string_prefix {A} (m : stringmap.stringmap A) s : ∃ t, fresh_string s m = s +:+ t.
Proof. destruct (fresh_string_digits m s) as (t & -> & _). by exists t. Qed.

Section Discipline.
Context {C : Type}.
Abbreviation fs := (gmap string (content C)).
Implicit Types (f : fs) (fl : faults).

(** What a store promises about one of its files, whatever fails and wherever
    it stops: the old content or the complete new one, nothing else touched. *)
Definition atomic_at (f : fs) (tmp path : string) (c : C) (st : fs) : Prop :=
  (st !! path = f !! path ∨ st !! path = Some (Data c)) ∧
  (∀ p, p ≠ path → p ≠ tmp → st !! p = f !! p).

Lemma replace_atomic fl f code noun dnoun tmp path c :
  tmp ≠ path →
  Forall (atomic_at f tmp path c)
    (crash_states fl (replace_prog code noun dnoun tmp path c) f).
Proof.
  intros Hne. unfold crash_states, replace_prog, write_tmp, sync_dir, atomic_at.
  simpl. unfold do_ignored. run_syscalls fl f tmp;
  repeat (apply Forall_cons; split); try apply Forall_nil; simpl; auto;
    (split; [|intros p Hp1 Hp2]); simplify_map_eq; auto.
Qed.

(** How a replacement can end: done; failed with the target untouched; or
    failed after the rename, with the new content in place. *)
Inductive replace_outcome (f : fs) (code : Code) (tmp path : string) (c : C)
  : res unit → fs → Prop :=
| replaced : f !! tmp = None →
    replace_outcome f code tmp path c (Ok tt) (<[path := Data c]> f)
| not_replaced e f' :
    CodeOf (Some e) = code → (∀ p, p ≠ tmp → f' !! p = f !! p) →
    replace_outcome f code tmp path c (Err e) f'
| replaced_not_synced e :
    CodeOf (Some e) = code → f !! tmp = None →
    replace_outcome f code tmp path c (Err e) (<[path := Data c]> f).

Lemma replace_outcomes fl f code noun dnoun tmp path c :
  tmp ≠ path →
  let '(r, f') := run_prog fl (replace_prog code noun dnoun tmp path c) f in
  replace_outcome f code tmp path c r f'.
Proof.
  intros Hne. unfold run_prog, replace_prog, write_tmp, sync_dir. simpl.
  unfold do_ignored. run_syscalls fl f tmp; simplify_map_eq; simpl;
  rewrite ?insert_insert_eq, ?delete_insert_eq, ?delete_id by done;
  solve [ by constructor
        | apply not_replaced; [done|]; intros p Hp; by simplify_map_eq
        | by apply replaced_not_synced ].
Qed.

Lemma replace_no_faults f code noun dnoun tmp path c :
  f !! tmp = None →
  run_prog no_faults (replace_prog code noun dnoun tmp path c) f =
    (Ok tt, <[path := Data c]> f).
Proof.
  intros Htmp. unfold run_prog, replace_prog. simpl.
  unfold do_syscall, syscall_effect, no_faults. rewrite Htmp. simpl.
  simplify_map_eq. by rewrite insert_insert_eq, delete_insert_eq, delete_id.
Qed.

(** Without the sync of the directory the rename is last: an error means that
    nothing was replaced. *)
Lemma replace_unsynced_outcomes fl f code m1 m2 m3 m4 m5 tmp path c :
  tmp ≠ path →
  match run_prog fl (replace_unsynced_prog code m1 m2 m3 m4 m5 tmp path c) f with
  | (Ok _, f') => f !! tmp = None ∧ f' = <[path := Data c]> f
  | (Err e, f') => CodeOf (Some e) = code ∧ ∀ p, p ≠ tmp → f' !! p = f !! p
  end.
Proof.
  intros Hne. unfold run_prog, replace_unsynced_prog. simpl.
  unfold do_ignored. run_syscalls fl f tmp; simplify_map_eq; simpl;
  rewrite ?insert_insert_eq, ?delete_insert_eq, ?delete_id by done;
  (split; [done|]); try done; intros p Hp; by simplify_map_eq.
Qed.

Lemma replace_unsynced_atomic fl f code m1 m2 m3 m4 m5 tmp path c :
  tmp ≠ path →
  Forall (atomic_at f tmp path c)
    (crash_states fl (replace_unsynced_prog code m1 m2 m3 m4 m5 tmp path c) f).
Proof.
  intros Hne. unfold crash_states, replace_unsynced_prog, atomic_at.
  simpl. unfold do_ignored. run_syscalls fl f tmp;
  repeat (apply Forall_cons; split); try apply Forall_nil; simpl; auto;
    (split; [|intros p Hp1 Hp2]); simplify_map_eq; auto.
Qed.

(** A create-only write never touches an existing file. *)
Lemma create_only_exists fl f code noun dnoun ex tmp path c :
  is_Some (f !! path) → fl op_stat = None →
  run_prog fl (create_only_prog code noun dnoun ex tmp path c) f = (Err ex, f).
Proof.
  intros [x Hx] Hfl. unfold run_prog, create_only_prog. simpl.
  unfold do_syscall. simpl. by rewrite Hfl, Hx.
Qed.

Lemma create_only_Ok fl f code noun dnoun ex tmp path c f' :
  tmp ≠ path →
  run_prog fl (create_only_prog code noun dnoun ex tmp path c) f = (Ok tt, f') →
  f !! path = None ∧ f' !! path = Some (Data c) ∧
  ∀ p, p ≠ path → p ≠ tmp → f' !! p = f !! p.
Proof.
  intros Hne. unfold run_prog, create_only_prog, write_tmp, sync_dir. simpl.
  unfold do_ignored. destruct (f !! path) as [y|] eqn:Hpath;
  unfold do_syscall, syscall_effect; rewrite ?Hpath;
  run_syscalls fl f tmp; simplify_map_eq; intros [=]; subst;
  split_and!; auto; intros; by simplify_map_eq.
Qed.

(** Whatever fails, a create-only write changes nothing that exists. *)
Lemma create_only_preserves fl f code noun dnoun ex tmp path c q x :
  q ≠ tmp → f !! q = Some x →
  (run_prog fl (create_only_prog code noun dnoun ex tmp path c) f).2 !! q = Some x.
Proof.
  intros Hq Hx. unfold run_prog, create_only_prog, write_tmp, sync_dir. simpl.
  unfold do_ignored. destruct (f !! path) as [y|] eqn:Hpath;
  unfold do_syscall, syscall_effect; rewrite ?Hpath;
  run_syscalls fl f tmp; simplify_map_eq; try done;
  (destruct (decide (q = path)) as [->|]; simplify_map_eq;
   try done; destruct (decide (path = tmp)) as [->|]; by simplify_map_eq).
Qed.

(** And what it adds is the new content at [path], or leftovers at [tmp]. *)
Lemma create_only_adds fl f code noun dnoun ex tmp path c q :
  tmp ≠ path → q ≠ tmp →
  let f' := (run_prog fl (create_only_prog code noun dnoun ex tmp path c) f).2 in
  f' !! q = f !! q ∨ (q = path ∧ f !! q = None ∧ f' !! q = Some (Data c)).
Proof.
  intros Hne Hq. simpl. destruct (f !! q) as [x|] eqn:Hx.
  { left. by apply create_only_preserves. }
  revert Hx. unfold run_prog, create_only_prog, write_tmp, sync_dir. simpl.
  unfold do_ignored. destruct (f !! path) as [y|] eqn:Hpath;
  unfold do_syscall, syscall_effect; rewrite ?Hpath;
  run_syscalls fl f tmp; intros Hx; simplify_map_eq; try (by left);
  (destruct (decide (q = path)) as [->|]; [right; by simplify_map_eq|left; by simplify_map_eq]).
Qed.

Lemma create_only_no_faults f code noun dnoun ex tmp path c :
  tmp ≠ path → f !! path = None → f !! tmp = None →
  run_prog no_faults (create_only_prog code noun dnoun ex tmp path c) f =
    (Ok tt, <[path := Data c]> f).
Proof.
  intros Hne Hpath Htmp. unfold run_prog, create_only_prog. simpl.
  unfold do_syscall, syscall_effect, no_faults. rewrite Hpath. simpl.
  rewrite Htmp. simpl. simplify_map_eq.
  rewrite insert_insert_eq, delete_insert_ne, delete_insert_eq by done.
  by rewrite delete_id.
Qed.
End Discipline.
