(* ===== verification/Retention.v ===== *)
(** * Retention: listing and pruning a directory of JSON records

    The operation, plan and session stores list a directory the same way (skip
    what does not decode, sort newest first, cut at a limit) and prune it the
    same way (walk the list newest first, keep the first [max] records that
    may be removed).  This file models the two loops over any record type. *)

From S2P Require Import Prelude GoLib Errors FileStore.

(** [os.ReadDir]: the names of a directory, sorted. *)
Definition dir_names {C} (s : gmap string (content C)) : list string :=
  sort_strings (map_to_list s).*1.

(** [filepath.Ext(name) == ".json"]. *)
Definition is_json (name : string) : bool := HasSuffix name ".json".

(** [strings.Contains(name, sub)]. *)
Fixpoint contains (sub s : string) : bool :=
  (String.prefix sub s ||
   match s with EmptyString => false | String _ s' => contains sub s' end)%bool.

Definition json_file (id : string) : string := id +:+ ".json".

Section Scan.
Context {C A : Type}.
(** Which names are read, which reads fail, how a file decodes and which
    decoded records are selected. *)
Variable accept : string → bool.
Variable unreadable : string → bool.
Variable decode : content C → res A.
Variable select : A → bool.

(** The directory loop: the selected records in directory order and the
    number of files that could not be read or decoded. *)
Fixpoint scan (s : gmap string (content C)) (names : list string) : list A * Z :=
  match names with
  | [] => ([], 0)
  | name :: names' =>
      let '(found, skipped) := scan s names' in
      match s !! name with
      | None => (found, skipped)
      | Some data =>
          if negb (accept name) then (found, skipped)
          else if unreadable name then (found, skipped + 1)
          else match decode data with
               | Err _ => (found, skipped + 1)
               | Ok x => if select x then (x :: found, skipped) else (found, skipped)
               end
      end
  end.

(** The record a file contributes, if any. *)
Definition read_entry (s : gmap string (content C)) (name : string) : option A :=
  data ← s !! name;
  if (accept name && negb (unreadable name))%bool
  then match decode data with
       | Ok x => if select x then Some x else None
       | Err _ => None
       end
  else None.

Lemma scan_found s names : (scan s names).1 = omap (read_entry s) names.
Proof.
  induction names as [|name names IH]; [done|]. cbn [scan omap list_omap].
  rewrite <- IH. destruct (scan s names) as [found skipped]. unfold read_entry.
  destruct (s !! name) as [data|]; [|done]. simpl.
  destruct (accept name), (unreadable name); simpl; try done.
  destruct (decode data) as [x|]; [|done]. by destruct (select x).
Qed.

(** With no damaged file the scan skips nothing. *)
Lemma scan_skipped s names :
  0 ≤ (scan s names).2 ∧
  ((scan s names).2 = 0 ↔
   Forall (λ name, match s !! name with
                   | Some data => accept name = true →
                                  unreadable name = false ∧ is_ok (decode data) = true
                   | None => True
                   end) names).
Proof.
  induction names as [|name names [IH0 IH]]; [by rewrite Forall_nil|]. cbn [scan].
  rewrite Forall_cons, <- IH. destruct (scan s names) as [found skipped]. simpl in *.
  destruct (s !! name) as [data|]; [|split; [done|]; by intuition].
  destruct (accept name), (unreadable name); simpl;
    [|destruct (decode data) as [x|]; simpl; [destruct (select x); simpl|]|..];
    (split; [lia|]); split; try lia; try (intros ?; split; [by intros|]; tauto);
    try (intros [Hx ?]; destruct (Hx eq_refl); done); by intros [_ ?].
Qed.

Lemma elem_of_dir_names (s : gmap string (content C)) name :
  name ∈ dir_names s ↔ is_Some (s !! name).
Proof.
  unfold dir_names. rewrite elem_of_sort_strings, list_elem_of_fmap. split.
  - intros ([n x] & -> & Hin%elem_of_map_to_list). by exists x.
  - intros [x Hx]. exists (name, x). split; [done|]. by apply elem_of_map_to_list.
Qed.

Lemma NoDup_dir_names (s : gmap string (content C)) : NoDup (dir_names s).
Proof. unfold dir_names. rewrite sort_strings_Permutation. apply NoDup_fst_map_to_list. Qed.

(** What a listing contains. *)
Lemma elem_of_scan s x :
  x ∈ (scan s (dir_names s)).1 ↔
  ∃ name data, s !! name = Some data ∧ accept name = true ∧ unreadable name = false ∧
               decode data = Ok x ∧ select x = true.
Proof.
  rewrite scan_found, list_elem_of_omap. split.
  - intros (name & _ & Hx). unfold read_entry in Hx.
    destruct (s !! name) as [data|] eqn:Hs; [|done]. simpl in Hx.
    destruct (accept name) eqn:Ha, (unreadable name) eqn:Hu; simpl in Hx; try done.
    destruct (decode data) as [y|] eqn:Hd; [|done]. destruct (select y) eqn:Hsel; simplify_eq.
    by exists name, data.
  - intros (name & data & Hs & Ha & Hu & Hd & Hsel). exists name.
    rewrite elem_of_dir_names, Hs. split; [by eexists|].
    unfold read_entry. by rewrite Hs; simpl; rewrite Ha, Hu; simpl; rewrite Hd, Hsel.
Qed.
End Scan.

(** [if limit > 0 && len(found) > limit { found = found[:limit] }]. *)
Definition cut {A} (limit : Z) (found : list A) : list A :=
  if ((0 <? limit) && (limit <? len found))%bool then take (Z.to_nat limit) found else found.

Lemma cut_take {A} limit (found : list A) :
  0 < limit → cut limit found = take (Z.to_nat limit) found.
Proof.
  intros Hl. unfold cut. replace (0 <? limit) with true by (symmetry; by apply Z.ltb_lt).
  simpl. destruct (limit <? len found) eqn:E; [done|]. bool_prop.
  rewrite take_ge; [done|]. unfold len in E. lia.
Qed.

Lemma cut_all {A} limit (found : list A) : limit ≤ 0 → cut limit found = found.
Proof. intros Hl. unfold cut. by replace (0 <? limit) with false by (symmetry; apply Z.ltb_ge; lia). Qed.

Section Retain.
Context {A : Type} (always : A → bool).

(** The pruning loop: the records it removes, in the order of the list. *)
Fixpoint retain (max kept : Z) (l : list A) : list A :=
  match l with
  | [] => []
  | x :: l' =>
      if always x then retain max kept l'
      else if kept <? max then retain max (kept + 1) l'
      else x :: retain max kept l'
  end.

Definition removable (l : list A) : list A := List.filter (λ x, negb (always x)) l.

(** The loop removes all the removable records but the first [max - kept]. *)
Lemma retain_spec max kept l :
  0 ≤ kept → retain max kept l = drop (Z.to_nat (max - kept)) (removable l).
Proof.
  revert kept. induction l as [|x l IH]; intros kept Hk; simpl; [by rewrite drop_nil|].
  destruct (always x); simpl; [by apply IH|].
  destruct (kept <? max) eqn:E; bool_prop.
  - rewrite IH by lia. replace (Z.to_nat (max - kept)) with (S (Z.to_nat (max - (kept + 1)))) by lia.
    done.
  - rewrite IH by lia. replace (Z.to_nat (max - kept)) with 0%nat by lia.
    by rewrite !drop_0.
Qed.

Lemma elem_of_removable x l : x ∈ removable l ↔ x ∈ l ∧ always x = false.
Proof.
  unfold removable. rewrite !list_elem_of_In, filter_In, negb_true_iff. done.
Qed.

Lemma retain_removable max l x : x ∈ retain max 0 l → x ∈ l ∧ always x = false.
Proof.
  rewrite retain_spec by lia. intros Hx. apply elem_of_removable. by eapply subseteq_drop.
Qed.

(** In a list sorted newest first, what is removed is not newer than any
    removable record that is kept. *)
Lemma retain_oldest R max l x y :
  StronglySorted R l → x ∈ take (Z.to_nat max) (removable l) → y ∈ retain max 0 l → R x y.
Proof.
  intros Hs Hx. rewrite retain_spec, Z.sub_0_r by lia. intros Hy.
  assert (StronglySorted R (removable l)) as Hs'.
  { clear Hx Hy. induction Hs as [|z l Hs IH Hz]; simpl; [constructor|].
    destruct (always z); simpl; [done|]. constructor; [done|].
    rewrite Forall_forall in *. intros w [? _]%elem_of_removable. auto. }
  rewrite <- (take_drop (Z.to_nat max) (removable l)) in Hs'.
  by eapply StronglySorted_app_1_elem_of.
Qed.
End Retain.

Section Remove.
Context {C : Type} (fails : string → bool).

(** Remove the records [ids] one by one; a failed removal is ignored. *)
Fixpoint remove_records (ids : list string) (s : gmap string (content C))
  : Z * gmap string (content C) :=
  match ids with
  | [] => (0, s)
  | id :: ids' =>
      let '(n, s') := remove_records ids' (if fails id then s else delete (json_file id) s) in
      (if fails id then n else n + 1, s')
  end.

Lemma remove_records_lookup ids s name :
  (remove_records ids s).2 !! name =
    if decide (Exists (λ id, fails id = false ∧ name = json_file id) ids)
    then None else s !! name.
Proof.
  revert s. induction ids as [|id ids IH]; intros s; cbn [remove_records].
  { rewrite decide_False; [done|]. by intros ?%Exists_nil. }
  specialize (IH (if fails id then s else delete (json_file id) s)).
  destruct (remove_records ids _) as [n s']. simpl in *. rewrite IH.
  destruct (decide (Exists _ ids)) as [Hd|Hd].
  { rewrite decide_True; [done|]. by apply Exists_cons_tl. }
  destruct (fails id) eqn:Hf.
  - rewrite decide_False; [done|]. rewrite Exists_cons. intros [[? _]|?]; congruence.
  - destruct (decide (name = json_file id)) as [->|Hne].
    + rewrite lookup_delete_eq, decide_True; [done|]. by apply Exists_cons_hd.
    + rewrite lookup_delete_ne by done. rewrite decide_False; [done|].
      rewrite Exists_cons. intros [[_ ?]|?]; congruence.
Qed.

Lemma remove_records_count ids s :
  (remove_records ids s).1 = len (List.filter (λ id, negb (fails id)) ids).
Proof.
  revert s. induction ids as [|id ids IH]; intros s; cbn [remove_records]; [done|].
  specialize (IH (if fails id then s else delete (json_file id) s)).
  destruct (remove_records ids _) as [n s']. simpl in *. rewrite IH.
  destruct (fails id); simpl; [done|]. rewrite len_cons. lia.
Qed.
End Remove.

Lemma json_file_inj id1 id2 : json_file id1 = json_file id2 → id1 = id2.
Proof. apply sapp_inj_r. Qed.

Lemma is_json_file id : is_json (json_file id) = true.
Proof. apply HasSuffix_app. Qed.

(** A temporary file is not listed. *)
Lemma is_json_tmp path pid : is_json (tmp_path path pid) = false.
Proof.
  destruct (Itoa_last pid) as (s & c & Hs & Hc). unfold is_json, tmp_path. rewrite Hs.
  rewrite !sapp_assoc. apply (HasSuffix_last _ ".jso" c "n"). by intros ->.
Qed.

Lemma json_file_ne_tmp id path pid : json_file id ≠ tmp_path path pid.
Proof.
  intros Heq. pose proof (is_json_file id) as Hj. by rewrite Heq, is_json_tmp in Hj.
Qed.
#[export] Hint Resolve is_json_file is_json_tmp json_file_ne_tmp : phelix.

(** ** The interface of a record store

    What the operation, plan and session records promise to the sweeps: an id
    (the file is named after it), a creation time, and a listing order that is
    a strict weak order refining "created later". *)

Class StoredRecord (A : Type) := {
  record_id : A → string;
  record_created : A → Z;
  record_newer : A → A → bool;
  record_newer_order : strict_weak record_newer;
  record_newer_created x y :
    record_newer x y = false → record_created x ≤ record_created y
}.

Section Sweep.
Context {C A : Type} `{!StoredRecord A} (always : A → bool).

(** The contract of a sweep from [s] to [s'] over the listing [recs]. *)
Record swept (max : Z) (recs : list A) (s s' : gmap string C) : Prop := {
  swept_only name :
    s' !! name = s !! name ∨
    s' !! name = None ∧ ∃ v, v ∈ drop (Z.to_nat max) (removable always recs) ∧
                             name = json_file (record_id v);
  swept_older x v :
    x ∈ take (Z.to_nat max) (removable always recs) →
    v ∈ drop (Z.to_nat max) (removable always recs) →
    record_newer v x = false ∧ record_created v ≤ record_created x
}.

(** A sweep that touches only files of records the loop gave up fulfils it. *)
Lemma sweep_correct max recs (s s' : gmap string C) :
  StronglySorted (not_after record_newer) recs →
  (∀ name, s' !! name = s !! name ∨
     s' !! name = None ∧ ∃ v, v ∈ retain always max 0 recs ∧ name = json_file (record_id v)) →
  swept max recs s s'.
Proof.
  intros Hs Honly.
  pose proof (retain_spec always max 0 recs ltac:(lia)) as Hv. rewrite Z.sub_0_r in Hv.
  split; [by rewrite <- Hv|]. intros x v Hx. rewrite <- Hv. intros Hin.
  assert (record_newer v x = false) as Hn by by eapply (retain_oldest always (not_after record_newer)).
  split; [done|]. by apply record_newer_created.
Qed.

(** What it leaves alone, where an id belongs to one record only. *)
Lemma swept_keeps max recs (s s' : gmap string C) x :
  swept max recs s s' →
  (∀ v, v ∈ recs → record_id v = record_id x → v = x) →
  always x = true ∨ NoDup recs ∧ x ∈ take (Z.to_nat max) (removable always recs) →
  s' !! json_file (record_id x) = s !! json_file (record_id x).
Proof.
  intros [Honly _] Hid Hx. destruct (Honly (json_file (record_id x))) as [|(_ & v & Hv & Heq)]; [done|].
  exfalso. apply json_file_inj in Heq.
  assert (v ∈ removable always recs) as [Hin Ha]%elem_of_removable by by eapply subseteq_drop.
  apply Hid in Hin; [|done]. subst v. destruct Hx as [Hx|[Hnd Hx]]; [congruence|].
  assert (NoDup (removable always recs)) as Hnd' by by apply NoDup_List_filter.
  rewrite <- (take_drop (Z.to_nat max) (removable always recs)) in Hnd'.
  apply NoDup_app in Hnd' as (_ & Hdisj & _). by eapply Hdisj.
Qed.
End Sweep.

(** The sweeps that remove the files of [ids] fulfil the premise. *)
Lemma remove_records_only {C} fails ids (s : gmap string (content C)) name :
  let s' := (remove_records fails ids s).2 in
  s' !! name = s !! name ∨ s' !! name = None ∧ ∃ id, id ∈ ids ∧ name = json_file id.
Proof.
  cbv zeta. rewrite remove_records_lookup. case_decide as Hd; [right|by left]. split; [done|].
  apply Exists_exists in Hd as (id & ? & _ & ->). eauto.
Qed.
