(* ===== verification/Authz.v ===== *)
(** * Authz: the execution authorization boundary (src/internal/authz)

    Actors (actor.go), requests and decisions (authz.go), the host policy and
    the authorizer over it (policy.go), and the gate every protected mutation
    calls (boundary.go).  [Authorize] is a pure function of the policy and the
    request, as in the source.  The theorems compare it with the declarative
    reading of the policy ([permits]). *)

From S2P Require Import Prelude GoLib Errors.

(** ** Actors *)

(* src: internal/authz/actor.go CallerCLI *)
Definition CallerCLI := "cli".
(* src: internal/authz/actor.go CallerAPI *)
Definition CallerAPI := "api".
(* src: internal/authz/actor.go CallerAgent *)
Definition CallerAgent := "agent".
(* src: internal/authz/actor.go CallerMCP *)
Definition CallerMCP := "mcp".
(* src: internal/authz/actor.go CallerService *)
Definition CallerService := "service".

Definition caller_types : list string :=
  [CallerCLI; CallerAPI; CallerAgent; CallerMCP; CallerService].

(* src: internal/authz/actor.go Actor *)
Record Actor := mkActor {
  Actor_Type : string;
  Actor_ID : string;
  Actor_Authenticated : bool
}.

(** [invalidf]: an AUTHZ_INVALID error. *)
(* src: internal/authz/authz.go invalidf *)
Definition invalidf (message : string) : error := New CodeAuthzInvalid message.

(* src: internal/authz/actor.go Actor.Validate *)
Definition Actor_Validate (a : Actor) : res unit :=
  if one_of (Actor_Type a) caller_types then
    if ((Actor_ID a <>s "") && negb (Actor_Authenticated a))%bool then
      Err (invalidf ("caller type " +:+ Quote (Actor_Type a) +:+
             " presented an identity without authentication"))
    else Ok tt
  else Err (invalidf ("unknown caller type " +:+ Quote (Actor_Type a))).

(* src: internal/authz/actor.go Actor.String *)
Definition Actor_String (a : Actor) : string :=
  if negb (Actor_Authenticated a) then Actor_Type a +:+ ":unauthenticated"
  else if Actor_ID a =s "" then Actor_Type a +:+ ":authenticated"
  else Actor_Type a +:+ ":" +:+ Actor_ID a.

(** The actor block of the machine contract: [machine.Actor], with its
    optional identity. *)
Record MachineActor := mkMachineActor {
  Machine_Type : string;
  Machine_ID : option string;
  Machine_Authenticated : bool
}.

(* src: internal/authz/actor.go Actor.Machine *)
Definition Actor_Machine (a : Actor) : MachineActor :=
  {| Machine_Type := Actor_Type a;
     Machine_ID := if Actor_ID a <>s "" then Some (Actor_ID a) else None;
     Machine_Authenticated := Actor_Authenticated a |}.

(* src: internal/authz/actor.go LocalCLIAuthenticator.Authenticate *)
Definition LocalCLI_Authenticate : res Actor :=
  Ok {| Actor_Type := CallerCLI; Actor_ID := ""; Actor_Authenticated := false |}.

(* src: internal/authz/actor.go LocalMCPAuthenticator.Authenticate *)
Definition LocalMCP_Authenticate : res Actor :=
  Ok {| Actor_Type := CallerMCP; Actor_ID := ""; Actor_Authenticated := false |}.

(** ** Requests and decisions *)

(* src: internal/authz/authz.go SchemaVersion *)
Definition SchemaVersion := "1".
(* src: internal/authz/authz.go ActionRebuild *)
Definition ActionRebuild := "rebuild".
(* src: internal/authz/authz.go ActionRollback *)
Definition ActionRollback := "rollback".
(* src: internal/authz/authz.go ActionMatrix *)
Definition ActionMatrix := "matrix".
(* src: internal/authz/authz.go EffectAllow *)
Definition EffectAllow := "allow".
(* src: internal/authz/authz.go EffectDeny *)
Definition EffectDeny := "deny".
(* src: internal/authz/authz.go EffectApprovalRequired *)
Definition EffectApprovalRequired := "approval_required".

Definition actions : list string := [ActionRebuild; ActionRollback; ActionMatrix].

(* src: internal/authz/authz.go PlanRef *)
Record PlanRef := mkPlanRef { PlanRef_ID : string; PlanRef_Hash : string }.

(* src: internal/authz/authz.go Target *)
Record Target := mkTarget { Target_App : string; Target_AppID : string }.

(* src: internal/authz/authz.go ApprovalBinding *)
Record ApprovalBinding := mkBinding {
  Binding_PlanID : string;
  Binding_PlanHash : string;
  Binding_Action : string;
  Binding_Target : string
}.

(* src: internal/authz/authz.go ApprovalState *)
Record ApprovalState := mkApprovalState {
  AS_Present : bool;
  AS_ApprovalID : string;
  AS_Err : option error;
  AS_Binding : ApprovalBinding
}.

(* src: internal/authz/authz.go Request *)
Record Request := mkRequest {
  Req_Actor : Actor;
  Req_Action : string;
  Req_Target : Target;
  Req_Plan : option PlanRef;
  Req_Approval : option ApprovalState
}.

(* src: internal/authz/authz.go Decision *)
Record Decision := mkDecision {
  Effect : string;
  DCode : string;
  Reason : string;
  Mode : string;
  RuleIndex : Z;
  ApprovalID : string
}.

(* src: internal/authz/authz.go Decision.Allowed *)
Definition Allowed (d : Decision) : bool := Effect d =s EffectAllow.

(** The codes a refusal may carry into the error contract. *)
(* src: internal/authz/authz.go:150-152 Decision.Err *)
Definition decision_codes : list Code :=
  [ CodeAuthzDenied; CodeAuthzUnavailable; CodeAuthzInvalid;
    CodeApprovalRequired; CodeApprovalStale; CodeApprovalInvalid ].

(* src: internal/authz/authz.go Decision.Err *)
Definition Decision_Err (d : Decision) : option error :=
  if Allowed d then None
  else
    let code := match List.find (λ c, Code_String c =s DCode d) decision_codes with
                | Some c => c
                | None => CodeAuthzDenied
                end in
    Some (New code (Reason d)).

(* src: internal/authz/authz.go Request.Validate *)
Definition Request_Validate (r : Request) : res unit :=
  Actor_Validate (Req_Actor r) ≫= λ _,
  fail_if (negb (one_of (Req_Action r) actions))
    (invalidf ("unknown authorizable action " +:+ Quote (Req_Action r))) ≫= λ _,
  fail_if (Target_App (Req_Target r) =s "")
    (invalidf "authorization request has no target application") ≫= λ _,
  match Req_Plan r with
  | Some p =>
      fail_if ((PlanRef_ID p =s "") || (PlanRef_Hash p =s ""))%bool
        (invalidf "plan-bound authorization requires both a plan id and a plan hash")
  | None => Ok tt
  end.

(** ** The policy *)

(* src: internal/authz/policy.go ModeLegacyLocal *)
Definition ModeLegacyLocal := "legacy_local".
(* src: internal/authz/policy.go ModeEnforced *)
Definition ModeEnforced := "enforced".
(* src: internal/authz/policy.go ruleEffectAllow *)
Definition ruleEffectAllow := "allow".
(* src: internal/authz/policy.go ruleEffectDeny *)
Definition ruleEffectDeny := "deny".
(* src: internal/authz/policy.go maxPolicyBytes *)
Definition maxPolicyBytes : Z := 64 * 1024.
(* src: internal/authz/policy.go maxRules *)
Definition maxRules : Z := 128.

(* src: internal/authz/policy.go ActorMatch *)
Record ActorMatch := mkActorMatch {
  AM_Type : string;
  AM_ID : string;
  AM_Authenticated : option bool      (* *bool *)
}.

(* src: internal/authz/policy.go Rule *)
Record Rule := mkRule {
  Rule_Actor : ActorMatch;
  Rule_Action : string;
  Rule_Target : string;
  Rule_Effect : string;
  Rule_RequireApproval : bool;
  Rule_Description : string
}.

(* src: internal/authz/policy.go Policy *)
Record Policy := mkPolicy {
  Policy_SchemaVersion : string;
  Policy_Mode : string;
  Policy_Rules : list Rule;
  Policy_source : string
}.

(* src: internal/authz/policy.go legacyPolicy *)
Definition legacyPolicy : Policy :=
  {| Policy_SchemaVersion := SchemaVersion; Policy_Mode := ModeLegacyLocal;
     Policy_Rules := []; Policy_source := "" |}.

(* src: internal/authz/policy.go Rule.validate *)
Definition Rule_validate (idx : Z) (r : Rule) : res unit :=
  let rule := "rule " +:+ Itoa idx in
  fail_if (negb (one_of (Rule_Effect r) [ruleEffectAllow; ruleEffectDeny]))
    (invalidf (rule +:+ " has unknown effect " +:+ Quote (Rule_Effect r) +:+
       " (want " +:+ Quote ruleEffectAllow +:+ " or " +:+ Quote ruleEffectDeny +:+ ")")) ≫= λ _,
  fail_if (negb (one_of (Rule_Action r) [ActionRebuild; ActionRollback; ActionMatrix; "*"]))
    (invalidf (rule +:+ " has unknown action " +:+ Quote (Rule_Action r) +:+
       " (want " +:+ Quote ActionRebuild +:+ ", " +:+ Quote ActionRollback +:+ ", " +:+
       Quote ActionMatrix +:+ " or " +:+ Quote "*" +:+ ")")) ≫= λ _,
  fail_if (Rule_Target r =s "")
    (invalidf (rule +:+ " has no target (use an application name or " +:+
       Quote "*" +:+ ")")) ≫= λ _,
  fail_if (negb (one_of (AM_Type (Rule_Actor r)) (caller_types ++ ["*"])))
    (invalidf (rule +:+ " has unknown actor type " +:+ Quote (AM_Type (Rule_Actor r)))) ≫= λ _,
  match AM_Authenticated (Rule_Actor r) with
  | None =>
      Err (invalidf (rule +:+ " must state actor.authenticated explicitly — " +:+
        "a rule that does not say whether it accepts unauthenticated callers is never applied"))
  | Some auth =>
      fail_if ((AM_ID (Rule_Actor r) <>s "") && negb auth)%bool
        (invalidf (rule +:+ " names an actor id but accepts unauthenticated callers; " +:+
           "an unauthenticated caller has no identity to match")) ≫= λ _,
      fail_if ((Rule_Effect r =s ruleEffectDeny) && Rule_RequireApproval r)%bool
        (invalidf (rule +:+ " is a deny rule and cannot require approval"))
  end.

(* src: internal/authz/policy.go Policy.validate *)
Definition Policy_validate (p : Policy) : res unit :=
  fail_if (Policy_SchemaVersion p <>s SchemaVersion)
    (invalidf ("authorization policy schema_version " +:+ Quote (Policy_SchemaVersion p) +:+
       ", want " +:+ Quote SchemaVersion)) ≫= λ _,
  fail_if (negb (one_of (Policy_Mode p) [ModeLegacyLocal; ModeEnforced]))
    (invalidf ("unknown authorization mode " +:+ Quote (Policy_Mode p) +:+ " (want " +:+
       Quote ModeLegacyLocal +:+ " or " +:+ Quote ModeEnforced +:+ ")")) ≫= λ _,
  fail_if (maxRules <? len (Policy_Rules p))
    (invalidf ("authorization policy has " +:+ Itoa (len (Policy_Rules p)) +:+
       " rules; the maximum is " +:+ Itoa maxRules)) ≫= λ _,
  for_each_idx Rule_validate 0 (Policy_Rules p).

(** The policy file as the loader meets it.  [parsed] is what the strict JSON
    decoder makes of the bytes: the document, or its error. *)
Inductive policy_file :=
| PolicyAbsent
| PolicyStatError (e : error)
| PolicyFile (regular : bool) (size : Z) (contents : res (res Policy)).

(* src: internal/authz/policy.go DecodePolicy *)
Definition DecodePolicy (parsed : res Policy) : res Policy :=
  match parsed with
  | Err e => Err (wrap CodeAuthzInvalid
      "authorization policy is not a parseable policy document" e)
  | Ok p => Policy_validate p ≫= λ _, Ok p
  end.

(* src: internal/authz/policy.go LoadPolicy *)
Definition LoadPolicy (path : string) (f : policy_file) : res Policy :=
  match f with
  | PolicyAbsent => Ok legacyPolicy
  | PolicyStatError e => Err (wrap CodeAuthzUnavailable "stat authorization policy" e)
  | PolicyFile regular size contents =>
      fail_if (negb regular) (New CodeAuthzInvalid
        ("authorization policy at " +:+ path +:+ " is not a regular file")) ≫= λ _,
      fail_if (maxPolicyBytes <? size) (New CodeAuthzInvalid
        ("authorization policy is " +:+ Itoa size +:+ " bytes; the maximum is " +:+
         Itoa maxPolicyBytes)) ≫= λ _,
      match contents with
      | Err e => Err (wrap CodeAuthzUnavailable "read authorization policy" e)
      | Ok data =>
          DecodePolicy data ≫= λ p,
          Ok {| Policy_SchemaVersion := Policy_SchemaVersion p; Policy_Mode := Policy_Mode p;
                Policy_Rules := Policy_Rules p; Policy_source := path |}
      end
  end.

(* src: internal/authz/policy.go Rule.matches *)
Definition Rule_matches (r : Rule) (req : Request) : bool :=
  let am := Rule_Actor r in
  let actor := Req_Actor req in
  if ((AM_Type am <>s "*") && (AM_Type am <>s Actor_Type actor))%bool then false
  else if match AM_Authenticated am with
          | None => true
          | Some b => negb (Bool.eqb b (Actor_Authenticated actor))
          end then false
  else if ((AM_ID am <>s "") && (AM_ID am <>s "*") &&
           (negb (Actor_Authenticated actor) || (Actor_ID actor <>s AM_ID am)))%bool then false
  else if ((Rule_Action r <>s "*") && (Rule_Action r <>s Req_Action req))%bool then false
  else if ((Rule_Target r <>s "*") && (Rule_Target r <>s Target_App (Req_Target req)))%bool
       then false
  else true.

(** ** The authorizer *)

(* src: internal/authz/policy.go codeAllowed *)
Definition codeAllowed := "AUTHZ_ALLOWED".

(* src: internal/authz/policy.go denied *)
Definition denied (code reason mode : string) (ruleIdx : Z) : Decision :=
  {| Effect := EffectDeny; DCode := code; Reason := reason; Mode := mode;
     RuleIndex := ruleIdx; ApprovalID := "" |}.

(* src: internal/authz/policy.go staleApproval *)
Definition staleApproval (mode : string) (ruleIdx : Z) (approvalID why : string) : Decision :=
  {| Effect := EffectDeny; DCode := Code_String CodeApprovalStale;
     Reason := why +:+ "; approvals are never reusable across plans — approve the plan you are applying";
     Mode := mode; RuleIndex := ruleIdx; ApprovalID := approvalID |}.

(** The dereference [req.Plan.ID]: the caller has checked the plan. *)
Definition plan_ref (req : Request) : PlanRef := default (mkPlanRef "" "") (Req_Plan req).

(* src: internal/authz/policy.go PolicyAuthorizer.decideWithApproval *)
Definition decideWithApproval (req : Request) (mode : string) (ruleIdx : Z) : Decision :=
  let missing :=
    {| Effect := EffectApprovalRequired; DCode := Code_String CodeApprovalRequired;
       Reason := "this execution requires an approval bound to this exact plan; " +:+
                 "approve it with 'phelix authz approve <plan-id>'";
       Mode := mode; RuleIndex := ruleIdx; ApprovalID := "" |} in
  match Req_Approval req with
  | None => missing
  | Some st =>
      if negb (AS_Present st) then missing
      else match AS_Err st with
      | Some e =>
          {| Effect := EffectDeny; DCode := Code_String (CodeOf (Some e)); Reason := Error e;
             Mode := mode; RuleIndex := ruleIdx; ApprovalID := "" |}
      | None =>
          let b := AS_Binding st in
          if Binding_PlanID b <>s PlanRef_ID (plan_ref req) then
            staleApproval mode ruleIdx (AS_ApprovalID st)
              "the approval is bound to a different plan"
          else if Binding_PlanHash b <>s PlanRef_Hash (plan_ref req) then
            staleApproval mode ruleIdx (AS_ApprovalID st)
              "the plan's content hash no longer matches the hash that was approved"
          else if ((Binding_Action b <>s Req_Action req) ||
                   (Binding_Target b <>s Target_App (Req_Target req)))%bool then
            staleApproval mode ruleIdx (AS_ApprovalID st)
              "the approval's action/target scope does not match this execution"
          else
            {| Effect := EffectAllow; DCode := codeAllowed;
               Reason := "an allow rule permits this caller, and a valid approval is bound to this exact plan";
               Mode := mode; RuleIndex := ruleIdx; ApprovalID := AS_ApprovalID st |}
      end
  end.

(** [for i := range rules { if p(rules[i]) ... }]: the first index. *)
Fixpoint first_rule (p : Rule → bool) (i : Z) (rules : list Rule) : option (Z * Rule) :=
  match rules with
  | [] => None
  | r :: rules' => if p r then Some (i, r) else first_rule p (i + 1) rules'
  end.

Definition deny_match (req : Request) (r : Rule) : bool :=
  ((Rule_Effect r =s ruleEffectDeny) && Rule_matches r req)%bool.

Definition allow_match (req : Request) (r : Rule) : bool :=
  ((Rule_Effect r =s ruleEffectAllow) && Rule_matches r req)%bool.

(** [a.Policy] is [None] when no policy is loaded. *)
(* src: internal/authz/policy.go:266-346 PolicyAuthorizer.Authorize *)
Definition Authorize (policy : option Policy) (req : Request) : Decision :=
  match policy with
  | None => denied (Code_String CodeAuthzUnavailable)
              "no authorization policy is loaded; refusing to execute" "" (-1)
  | Some p =>
      let mode := Policy_Mode p in
      match Request_Validate req with
      | Err e =>
          {| Effect := EffectDeny; DCode := Code_String (CodeOf (Some e)); Reason := Error e;
             Mode := mode; RuleIndex := -1; ApprovalID := "" |}
      | Ok _ =>
          if mode =s ModeLegacyLocal then
            if Actor_Type (Req_Actor req) =s CallerCLI then
              {| Effect := EffectAllow; DCode := codeAllowed;
                 Reason := "authorization is not enforced on this host (legacy local mode); local CLI execution is permitted";
                 Mode := mode; RuleIndex := -1; ApprovalID := "" |}
            else denied (Code_String CodeAuthzDenied)
                   ("authorization is not enforced on this host, which permits local CLI execution only; " +:+
                    "configure an authorization policy to allow non-CLI callers") mode (-1)
          else match Req_Plan req with
          | None =>
              denied (Code_String CodeAuthzDenied)
                ("authorization is enforced on this host: protected execution must be bound to an immutable plan — " +:+
                 "create one with 'phelix plan create' and execute it with 'phelix plan apply'") mode (-1)
          | Some _ =>
              match first_rule (deny_match req) 0 (Policy_Rules p) with
              | Some (i, _) =>
                  denied (Code_String CodeAuthzDenied)
                    "an explicit deny rule forbids this caller from executing this action on this target" mode i
              | None =>
                  match first_rule (allow_match req) 0 (Policy_Rules p) with
                  | Some (i, r) =>
                      if negb (Rule_RequireApproval r) then
                        {| Effect := EffectAllow; DCode := codeAllowed;
                           Reason := "an allow rule permits this caller to execute this plan";
                           Mode := mode; RuleIndex := i; ApprovalID := "" |}
                      else decideWithApproval req mode i
                  | None =>
                      denied (Code_String CodeAuthzDenied)
                        "no authorization rule permits this caller to execute this action on this target" mode (-1)
                  end
              end
          end
      end
  end.

(** ** The gate *)

(* src: internal/authz/boundary.go ExecutionRequest *)
Record ExecutionRequest := mkExecutionRequest {
  Exec_Action : string;
  Exec_Target : Target;
  Exec_Plan : option PlanRef
}.

(* src: internal/authz/boundary.go Outcome *)
Record Outcome := mkOutcome {
  Out_Decision : Decision;
  Out_DecisionID : string;
  Out_Actor : Actor;
  Out_PolicySource : string
}.

(* src: internal/authz/boundary.go Outcome.Err *)
Definition Outcome_Err (o : Outcome) : option error := Decision_Err (Out_Decision o).

(** The collaborators of the gate; an unset one is [None]. *)
(* src: internal/authz/boundary.go Gate *)
Record Gate := mkGate {
  Gate_Authenticator : option (res Actor);
  Gate_LoadPolicy : option (res Policy);
  Gate_ResolveApproval : option (string → ApprovalState);
  Gate_Record : option (Request → Decision → Z → string * option error);
  Gate_OnRecordError : bool
}.

(* src: internal/authz/boundary.go DefaultGate *)
Definition DefaultGate : Gate := mkGate None None None None false.

Section Boundary.
(** The host: what the default collaborators read and write. *)
Variable host_policy : res Policy.                       (* LoadPolicy *)
Variable host_approval : string → ApprovalState.         (* ResolveApproval *)
Variable host_record : Request → Decision → Z → string * option error. (* RecordDecision *)

(* src: internal/authz/boundary.go Gate.authenticator *)
Definition authenticator (g : Gate) : res Actor :=
  default LocalCLI_Authenticate (Gate_Authenticator g).

(* src: internal/authz/boundary.go Gate.loadPolicy *)
Definition loadPolicy (g : Gate) : res Policy := default host_policy (Gate_LoadPolicy g).

(* src: internal/authz/boundary.go Gate.resolveApproval *)
Definition resolveApproval (g : Gate) : string → ApprovalState :=
  default host_approval (Gate_ResolveApproval g).

(* src: internal/authz/boundary.go Gate.record *)
Definition record (g : Gate) : Request → Decision → Z → string * option error :=
  default host_record (Gate_Record g).

(* src: internal/authz/boundary.go Gate.decide *)
Definition decide_gate (g : Gate) (inp : ExecutionRequest)
  : res (Request * Decision * string) :=
  match authenticator g with
  | Err e => Err (wrap CodeAuthzUnavailable "could not establish the caller's identity" e)
  | Ok actor =>
      let req0 := {| Req_Actor := actor; Req_Action := Exec_Action inp;
                     Req_Target := Exec_Target inp; Req_Plan := Exec_Plan inp;
                     Req_Approval := None |} in
      match loadPolicy g with
      | Err policyErr =>
          Ok (req0,
              {| Effect := EffectDeny; DCode := Code_String (CodeOf (Some policyErr));
                 Reason := Error policyErr; Mode := "unknown"; RuleIndex := -1;
                 ApprovalID := "" |}, "")
      | Ok policy =>
          let req := match Exec_Plan inp with
                     | Some plan =>
                         if Policy_Mode policy =s ModeEnforced then
                           {| Req_Actor := actor; Req_Action := Exec_Action inp;
                              Req_Target := Exec_Target inp; Req_Plan := Exec_Plan inp;
                              Req_Approval := Some (resolveApproval g (PlanRef_ID plan)) |}
                         else req0
                     | None => req0
                     end in
          Ok (req, Authorize (Some policy) req, Policy_source policy)
      end
  end.

(* src: internal/authz/boundary.go Gate.Evaluate *)
Definition Gate_Evaluate (g : Gate) (inp : ExecutionRequest) : res Outcome :=
  '(req, d, source) ← decide_gate g inp;
  Ok {| Out_Decision := d; Out_DecisionID := ""; Out_Actor := Req_Actor req;
        Out_PolicySource := source |}.

(** [finish] also yields the audit-write error handed to [OnRecordError]. *)
(* src: internal/authz/boundary.go Gate.finish *)
Definition finish (g : Gate) (now : Z) (req : Request) (d : Decision) (source : string)
  : Outcome * option error :=
  let '(id, err) := record g req d now in
  ({| Out_Decision := d; Out_DecisionID := id; Out_Actor := Req_Actor req;
      Out_PolicySource := source |},
   if Gate_OnRecordError g then err else None).

(** The execution gate: the outcome, the error its caller must honour, and the
    audit error reported on the side. *)
(* src: internal/authz/boundary.go Gate.Authorize *)
Definition Gate_Authorize (g : Gate) (now : Z) (inp : ExecutionRequest)
  : option Outcome * option error * option error :=
  match decide_gate g inp with
  | Err e => (None, Some e, None)
  | Ok (req, d, source) =>
      let '(out, audit_err) := finish g now req d source in
      (Some out, Outcome_Err out, audit_err)
  end.
End Boundary.

(** ** Lemmas *)

Lemma first_rule_Some p i rules j r :
  first_rule p i rules = Some (j, r) ↔
  ∃ l1 l2, rules = l1 ++ r :: l2 ∧ p r = true ∧
           Forall (λ x, p x = false) l1 ∧ j = i + len l1.
Proof.
  revert i. induction rules as [|x rules IH]; intros i; simpl.
  - split; [done|]. intros (l1 & l2 & Heq & _). by destruct l1.
  - destruct (p x) eqn:Hx; split.
    + intros [= -> ->]. exists [], rules. rewrite len_nil. split_and!; auto. lia.
    + intros (l1 & l2 & Heq & Hr & Hl1 & ->).
      destruct l1 as [|y l1]; simplify_eq/=; [by rewrite len_nil, Z.add_0_r|].
      apply Forall_cons in Hl1 as [? _]. congruence.
    + rewrite IH. intros (l1 & l2 & -> & ? & ? & ->). exists (x :: l1), l2.
      rewrite len_cons. split_and!; auto. lia.
    + rewrite IH. intros (l1 & l2 & Heq & Hr & Hl1 & ->).
      destruct l1 as [|y l1]; simplify_eq/=; [congruence|].
      apply Forall_cons in Hl1 as [? ?]. exists l1, l2.
      rewrite len_cons. split_and!; auto. lia.
Qed.

Lemma first_rule_None p i rules :
  first_rule p i rules = None ↔ Forall (λ x, p x = false) rules.
Proof.
  revert i. induction rules as [|x rules IH]; intros i; simpl; [by split|].
  rewrite Forall_cons. destruct (p x) eqn:Hx; [naive_solver|]. rewrite IH. naive_solver.
Qed.

(** The approval state authorizes exactly this plan, action and target. *)
Definition approval_bound (req : Request) (plan : PlanRef) : Prop :=
  ∃ st, Req_Approval req = Some st ∧ AS_Present st = true ∧ AS_Err st = None ∧
        AS_Binding st = {| Binding_PlanID := PlanRef_ID plan;
                           Binding_PlanHash := PlanRef_Hash plan;
                           Binding_Action := Req_Action req;
                           Binding_Target := Target_App (Req_Target req) |}.

Lemma decideWithApproval_allowed req mode i plan :
  Req_Plan req = Some plan →
  Allowed (decideWithApproval req mode i) = true ↔ approval_bound req plan.
Proof.
  intros Hplan. unfold decideWithApproval, approval_bound, plan_ref. rewrite Hplan. simpl.
  destruct (Req_Approval req) as [st|]; [|naive_solver].
  destruct st as [[] id [e|] [bid bhash bact btgt]]; simpl; [naive_solver| |naive_solver..].
  split_match; bool_prop; unfold Allowed; simpl; split; intros Hs; try done.
  all: try (destruct Hs as (st & [= <-] & _ & _ & [= -> -> -> ->])).
  all: rewrite ?String.eqb_refl in *; try done.
  subst. by eexists.
Qed.

(** The reading of a policy: who may execute, without evaluation order. *)
Inductive permits (p : Policy) (req : Request) : Prop :=
| permits_legacy :
    Policy_Mode p = ModeLegacyLocal → Actor_Type (Req_Actor req) = CallerCLI →
    permits p req
| permits_rule plan l1 r l2 :
    Policy_Mode p ≠ ModeLegacyLocal →
    Req_Plan req = Some plan →
    Forall (λ x, deny_match req x = false) (Policy_Rules p) →
    Policy_Rules p = l1 ++ r :: l2 →
    Forall (λ x, allow_match req x = false) l1 →
    allow_match req r = true →
    (Rule_RequireApproval r = true → approval_bound req plan) →
    permits p req.

Lemma Authorize_allowed p req :
  Allowed (Authorize (Some p) req) = true ↔
  Request_Validate req = Ok tt ∧ permits p req.
Proof.
  unfold Authorize. destruct (Request_Validate req) as [[]|e] eqn:Hv; [|naive_solver].
  destruct (Policy_Mode p =s ModeLegacyLocal) eqn:Hm; bool_prop.
  { destruct (_ =s CallerCLI) eqn:Ha; bool_prop; split; intros H; try done.
    - split; [done|]. by apply permits_legacy.
    - destruct H as [_ []]; congruence. }
  destruct (Req_Plan req) as [plan|] eqn:Hplan.
  2: { split; [done|]. intros [_ []]; congruence. }
  destruct (first_rule (deny_match req) 0 (Policy_Rules p)) as [[i d]|] eqn:Hd.
  { split; [done|]. intros [_ [|? l1 r l2 _ _ Hnd]]; [congruence|].
    rewrite <- (first_rule_None _ 0) in Hnd. congruence. }
  pose proof Hd as Hnd. apply first_rule_None in Hnd.
  destruct (first_rule (allow_match req) 0 (Policy_Rules p)) as [[i r]|] eqn:Hr.
  2: { split; [done|]. intros [_ [|? l1 r l2 _ _ _ Heq _ Hr' _]]; [congruence|].
       apply first_rule_None in Hr. rewrite Heq in Hr.
       apply Forall_app in Hr as [_ [? _]%Forall_cons]. congruence. }
  pose proof Hr as (l1 & l2 & Heq & Hallow & Hl1 & _)%first_rule_Some.
  transitivity (Rule_RequireApproval r = true → approval_bound req plan).
  - destruct (Rule_RequireApproval r); simpl; [|naive_solver].
    rewrite decideWithApproval_allowed by done. naive_solver.
  - split; [intros; split; [done|]; by eapply permits_rule|].
    intros [_ [|? l1' r' l2' _ ? _ Heq' Hl1' Hallow' Happ]]; [congruence|].
    assert (first_rule (allow_match req) 0 (Policy_Rules p) = Some (0 + len l1', r'))
      as Hr' by (apply first_rule_Some; eauto 10).
    by simplify_eq.
Qed.

Lemma first_rule_find p i rules : snd <$> first_rule p i rules = List.find p rules.
Proof.
  revert i. induction rules as [|x rules IH]; intros i; simpl; [done|].
  destruct (p x); [done|]. apply IH.
Qed.

Lemma find_skip {A} (p : A → bool) l1 d l2 :
  p d = false → List.find p (l1 ++ d :: l2) = List.find p (l1 ++ l2).
Proof.
  intros Hd. induction l1 as [|x l1 IH]; simpl; [by rewrite Hd|]. by rewrite IH.
Qed.

Lemma permits_find p req :
  permits p req ↔
  (Policy_Mode p = ModeLegacyLocal ∧ Actor_Type (Req_Actor req) = CallerCLI) ∨
  (Policy_Mode p ≠ ModeLegacyLocal ∧
   ∃ plan r, Req_Plan req = Some plan ∧
     Forall (λ x, deny_match req x = false) (Policy_Rules p) ∧
     List.find (allow_match req) (Policy_Rules p) = Some r ∧
     (Rule_RequireApproval r = true → approval_bound req plan)).
Proof.
  split.
  - intros [|plan l1 r l2]; [by left|]. right. split; [done|]. exists plan, r.
    split_and!; auto. apply find_split. eauto.
  - intros [[? ?]|(? & plan & r & ? & ? & (l1 & l2 & ? & ? & ?)%find_split & ?)];
      [by apply permits_legacy|by eapply permits_rule].
Qed.

Definition with_rules (p : Policy) (rules : list Rule) : Policy :=
  {| Policy_SchemaVersion := Policy_SchemaVersion p; Policy_Mode := Policy_Mode p;
     Policy_Rules := rules; Policy_source := Policy_source p |}.

Lemma permits_remove_deny p req l1 d l2 :
  Rule_Effect d = ruleEffectDeny →
  permits (with_rules p (l1 ++ d :: l2)) req → permits (with_rules p (l1 ++ l2)) req.
Proof.
  intros Hd. rewrite !permits_find. simpl.
  intros [?|(Hm & plan & r & Hplan & Hnd & Hf & Happ)]; [by left|right].
  split; [done|]. exists plan, r. apply Forall_app in Hnd as [? [_ ?]%Forall_cons].
  split_and!; auto; [by apply Forall_app|].
  rewrite find_skip in Hf; [done|]. unfold allow_match. by rewrite Hd.
Qed.

(** What a successful pass of the gate means. *)
Lemma decide_gate_Ok hp ha g inp req d src :
  decide_gate hp ha g inp = Ok (req, d, src) → Allowed d = true →
  ∃ policy, authenticator g = Ok (Req_Actor req) ∧ loadPolicy hp g = Ok policy ∧
    d = Authorize (Some policy) req ∧ Req_Action req = Exec_Action inp ∧
    Req_Target req = Exec_Target inp ∧ Req_Plan req = Exec_Plan inp.
Proof.
  unfold decide_gate. intros Hd Hall.
  destruct (authenticator g) as [actor|e] eqn:Ha; [|done].
  destruct (loadPolicy hp g) as [policy|e] eqn:Hp; [|by simplify_eq].
  exists policy. destruct (Exec_Plan inp) as [plan|] eqn:Hplan; simplify_eq/=.
  - destruct (Policy_Mode policy =s ModeEnforced); simplify_eq/=; auto 10.
  - auto 10.
Qed.

Lemma Decision_Err_None d : Decision_Err d = None ↔ Allowed d = true.
Proof. unfold Decision_Err. by destruct (Allowed d). Qed.

Lemma Decision_Err_code d e : Decision_Err d = Some e → CodeOf (Some e) ∈ decision_codes.
Proof.
  unfold Decision_Err. destruct (Allowed d); [done|].
  destruct (List.find _ decision_codes) as [c|] eqn:Hc; intros [= <-].
  - apply List.find_some in Hc as [Hin%list_elem_of_In _]. exact Hin.
  - apply list_elem_of_here.
Qed.

Lemma Rule_validate_id idx r :
  Rule_validate idx r = Ok tt → AM_ID (Rule_Actor r) ≠ "" →
  AM_Authenticated (Rule_Actor r) = Some true.
Proof.
  unfold Rule_validate. intros Hv Hid%String.eqb_neq. rewrite Hid in Hv.
  inv_result. by destruct (AM_Authenticated (Rule_Actor r)) as [[]|].
Qed.

Lemma Rule_matches_auth r req :
  Rule_matches r req = true →
  AM_Authenticated (Rule_Actor r) = Some (Actor_Authenticated (Req_Actor req)) ∧
  (AM_ID (Rule_Actor r) ≠ "" → AM_ID (Rule_Actor r) ≠ "*" →
   AM_ID (Rule_Actor r) = Actor_ID (Req_Actor req)).
Proof.
  unfold Rule_matches. intros Hm.
  destruct (AM_Authenticated (Rule_Actor r)) as [b|]; [|by split_match_in Hm].
  destruct (negb (eqb b _)) eqn:Hb; [by split_match_in Hm|].
  apply negb_false_iff, eqb_prop in Hb as ->. split; [done|].
  intros Hid%String.eqb_neq Hstar%String.eqb_neq. rewrite Hid, Hstar in Hm. simpl in Hm.
  destruct (Actor_ID _ =s AM_ID _) eqn:Heq; bool_prop; [done|].
  rewrite orb_true_r in Hm. by split_match_in Hm.
Qed.

Lemma LoadPolicy_Ok path f p :
  LoadPolicy path f = Ok p →
  (f = PolicyAbsent ∧ p = legacyPolicy) ∨
  ∃ size doc, f = PolicyFile true size (Ok (Ok doc)) ∧ size ≤ maxPolicyBytes ∧
    Policy_validate doc = Ok tt ∧ p = {| Policy_SchemaVersion := Policy_SchemaVersion doc;
      Policy_Mode := Policy_Mode doc; Policy_Rules := Policy_Rules doc; Policy_source := path |}.
Proof.
  destruct f as [|e|reg size contents]; simpl; intros H; inv_result; [by left|].
  right. destruct contents as [[doc|e]|e]; unfold DecodePolicy in *; inv_result.
  bool_prop. subst. eexists _, _. split_and!; eauto.
Qed.

(** ** Properties *)

(** C8: The authorizer implements the policy: a request is allowed exactly when
    it is well formed and the policy permits it.  Under [legacy_local] that is
    the local CLI; otherwise the request is bound to a plan, no deny rule
    matches, and the first matching allow rule is unconditional or there is a
    sound approval bound to this plan id, plan hash, action and target. *)
Theorem authorize_refines_policy p req :
  Allowed (Authorize (Some p) req) = true ↔
  Request_Validate req = Ok tt ∧ permits p req.
Proof. apply Authorize_allowed. Qed.

(** Adding a deny rule anywhere in the rule list never turns a refusal into
    a permission. *)
Theorem deny_rule_only_restricts p req l1 d l2 :
  Rule_Effect d = ruleEffectDeny →
  Allowed (Authorize (Some (with_rules p (l1 ++ d :: l2))) req) = true →
  Allowed (Authorize (Some (with_rules p (l1 ++ l2))) req) = true.
Proof.
  rewrite !Authorize_allowed. intros Hd [? Hp]. split; [done|].
  by eapply permits_remove_deny.
Qed.

(** C30: The gate fails closed.  When [Gate.Authorize] reports no error, the
    authenticator established an identity (which may be the unauthenticated
    local one), the host policy was loaded, the request made of that actor,
    action, target and plan is well formed and the policy permits it; the audit
    write plays no part in it.  Any refusal carries one of the six
    authorization codes or the wrapped authentication failure. *)
Theorem gate_fails_closed hp ha hr g now inp :
  (∀ out audit, Gate_Authorize hp ha hr g now inp = (out, None, audit) →
     ∃ req policy, authenticator g = Ok (Req_Actor req) ∧ loadPolicy hp g = Ok policy ∧
       Req_Action req = Exec_Action inp ∧ Req_Target req = Exec_Target inp ∧
       Req_Plan req = Exec_Plan inp ∧ Request_Validate req = Ok tt ∧ permits policy req) ∧
  (∀ out e audit, Gate_Authorize hp ha hr g now inp = (out, Some e, audit) →
     CodeOf (Some e) ∈ decision_codes ∨
     ∃ e', authenticator g = Err e' ∧
       e = wrap CodeAuthzUnavailable "could not establish the caller's identity" e').
Proof.
  unfold Gate_Authorize. destruct (decide_gate hp ha g inp) as [[[req d] src]|e] eqn:Hd.
  - unfold finish. destruct (record hr g req d now) as [id aerr]. split.
    + intros out audit [= <- Hall%Decision_Err_None <-].
      destruct (decide_gate_Ok _ _ _ _ _ _ _ Hd Hall)
        as (policy & ? & ? & -> & ? & ? & ?).
      apply Authorize_allowed in Hall as [??]. eauto 15.
    + intros out e audit [= <- He <-]. left. by eapply Decision_Err_code.
  - split; [done|]. intros out e' audit [= <- <- <-]. right.
    unfold decide_gate in Hd. destruct (authenticator g); [|naive_solver].
    by destruct (loadPolicy hp g).
Qed.

(** A rule that passed validation and names an actor id is never applied to
    an unauthenticated caller, and unless the id is the wildcard it applies to
    that very identity only. *)
Theorem identity_rules_need_authentication idx r req :
  Rule_validate idx r = Ok tt → AM_ID (Rule_Actor r) ≠ "" →
  Rule_matches r req = true →
  Actor_Authenticated (Req_Actor req) = true ∧
  (AM_ID (Rule_Actor r) ≠ "*" → Actor_ID (Req_Actor req) = AM_ID (Rule_Actor r)).
Proof.
  intros Hv Hid [Ha Heq]%Rule_matches_auth.
  rewrite (Rule_validate_id _ _ Hv Hid) in Ha. split; [congruence|].
  intros Hstar. symmetry. auto.
Qed.

(** A broken policy never degrades to a permissive one: loading yields the
    legacy policy only when the file is absent, and otherwise a document of a
    regular file of bounded size that parsed and whose version, mode and every
    rule were validated; an unreadable file is AUTHZ_UNAVAILABLE and an invalid
    one AUTHZ_INVALID. *)
Theorem load_policy_never_degrades path f :
  match LoadPolicy path f with
  | Ok p =>
      (f = PolicyAbsent ∧ p = legacyPolicy) ∨
      ∃ size doc, f = PolicyFile true size (Ok (Ok doc)) ∧ size ≤ maxPolicyBytes ∧
        Policy_Mode p ∈ [ModeLegacyLocal; ModeEnforced] ∧
        len (Policy_Rules p) ≤ maxRules ∧ Policy_Rules p = Policy_Rules doc ∧
        ∀ (i : nat) r, Policy_Rules p !! i = Some r → Rule_validate (Z.of_nat i) r = Ok tt
  | Err e =>
      f ≠ PolicyAbsent ∧
      ∀ t, (f = PolicyStatError (Foreign t None) ∨
            ∃ size, f = PolicyFile true size (Err (Foreign t None)) ∧ size ≤ maxPolicyBytes) →
        CodeOf (Some e) = CodeAuthzUnavailable
  end.
Proof.
  destruct (LoadPolicy path f) as [p|e] eqn:Hl.
  - apply LoadPolicy_Ok in Hl as [?|(size & doc & -> & Hsize & Hv & ->)]; [by left|right].
    exists size, doc. unfold Policy_validate in Hv. inv_result. bool_prop. simpl.
    split_and!; try done. intros i r Hi. by apply (for_each_idx_Ok _ _ _ Hv i r).
  - split; [by intros ->|]. intros t [->|(size & -> & Hs)]; [by simplify_eq/=|].
    simpl in Hl. apply Z.ltb_ge in Hs. rewrite Hs in Hl. by simplify_eq/=.
Qed.

(** ** Witnesses *)

Module Samples.
Definition agent : Actor :=
  {| Actor_Type := CallerAgent; Actor_ID := "deployer"; Actor_Authenticated := true |}.
Definition agent_rule : Rule :=
  {| Rule_Actor := {| AM_Type := CallerAgent; AM_ID := "deployer";
                      AM_Authenticated := Some true |};
     Rule_Action := ActionRebuild; Rule_Target := "shop"; Rule_Effect := ruleEffectAllow;
     Rule_RequireApproval := false; Rule_Description := "" |}.
Definition deny_rollback : Rule :=
  {| Rule_Actor := {| AM_Type := "*"; AM_ID := ""; AM_Authenticated := Some true |};
     Rule_Action := ActionRollback; Rule_Target := "*"; Rule_Effect := ruleEffectDeny;
     Rule_RequireApproval := false; Rule_Description := "" |}.
Definition policy : Policy :=
  {| Policy_SchemaVersion := SchemaVersion; Policy_Mode := ModeEnforced;
     Policy_Rules := []; Policy_source := "" |}.
Definition request : Request :=
  {| Req_Actor := agent; Req_Action := ActionRebuild;
     Req_Target := mkTarget "shop" "id-1";
     Req_Plan := Some (mkPlanRef "pln_0" "sha256:0"); Req_Approval := None |}.
End Samples.

Lemma deny_rule_only_restricts_witness :
  Allowed (Authorize (Some (with_rules Samples.policy [Samples.agent_rule])) Samples.request)
    = true.
Proof.
  apply (deny_rule_only_restricts Samples.policy Samples.request
           [] Samples.deny_rollback [Samples.agent_rule]); vm_compute; reflexivity.
Defined.

Lemma identity_rules_need_authentication_witness :
  Actor_Authenticated (Req_Actor Samples.request) = true ∧
  ("deployer" ≠ "*" → "deployer" = "deployer").
Proof.
  apply (identity_rules_need_authentication 0 Samples.agent_rule Samples.request);
    [vm_compute; reflexivity | discriminate | vm_compute; reflexivity].
Defined.
