(* ===== verification/Approval.v ===== *)
(** * Approval: approval artifacts and the decision log (src/internal/authz)

    approval.go: the durable artifact that binds an approval to one plan, its
    create-only store and its resolution into the state the authorizer reads.
    audit.go: the bounded append-only log of decisions.

    SHA-256 over the JSON of the hash input is a parameter, as are the length
    of a JSON document, the redactor and the host's login name; nothing is
    assumed of them except where a theorem says so. *)

From S2P Require Import Prelude GoLib Errors FileStore Authz.

(* src: internal/authz/approval.go Approval *)
Record Approval := mkApproval {
  Ap_SchemaVersion : string;
  Ap_ApprovalID : string;
  Ap_ApprovalHash : string;
  Ap_PlanID : string;
  Ap_PlanHash : string;
  Ap_Action : string;
  Ap_Target : string;
  Ap_Decision : string;
  Ap_ApproverType : string;
  Ap_ApproverID : string;
  Ap_ApproverAuthenticated : bool;
  Ap_ApproverSource : string;
  Ap_ApproverProvenance : string;
  Ap_ApprovedAtMs : Z
}.

(* src: internal/authz/approval.go DecisionApproved *)
Definition DecisionApproved := "approved".
(* src: internal/authz/approval.go ApproverSourceLocalHost *)
Definition ApproverSourceLocalHost := "local_host".
(* src: internal/authz/approval.go approvalIDPrefix *)
Definition approvalIDPrefix := "apr_".
(* src: internal/authz/approval.go maxApprovalBytes *)
Definition maxApprovalBytes : Z := 8 * 1024.
(* src: internal/authz/approval.go approvalIDPattern *)
Definition approvalIDPattern : re := id_pattern "apr_".
(* src: internal/authz/approval.go planIDPattern *)
Definition planIDPattern : re := id_pattern "pln_".

(** The canonical preimage: the binding and approver fields. *)
(* src: internal/authz/approval.go approvalHashInput *)
Record approvalHashInput := mkHashInput {
  HI_SchemaVersion : string;
  HI_PlanID : string;
  HI_PlanHash : string;
  HI_Action : string;
  HI_Target : string;
  HI_Decision : string;
  HI_ApproverType : string;
  HI_ApproverID : string;
  HI_ApproverAuthenticated : bool;
  HI_ApproverSource : string
}.

Definition hash_input (a : Approval) : approvalHashInput :=
  {| HI_SchemaVersion := Ap_SchemaVersion a; HI_PlanID := Ap_PlanID a;
     HI_PlanHash := Ap_PlanHash a; HI_Action := Ap_Action a; HI_Target := Ap_Target a;
     HI_Decision := Ap_Decision a; HI_ApproverType := Ap_ApproverType a;
     HI_ApproverID := Ap_ApproverID a;
     HI_ApproverAuthenticated := Ap_ApproverAuthenticated a;
     HI_ApproverSource := Ap_ApproverSource a |}.

(** [filepath.Join] of the store directory and a file name. *)
Definition join_path (dir name : string) : string := dir +:+ "/" +:+ name.

Section Approvals.
(** [sha256] of the canonical JSON, in hexadecimal. *)
Variable sha256_hex : approvalHashInput → string.
(** Length of the indented JSON of an approval, and of a stored file. *)
Variable json_len : Approval → Z.
Variable file_len : content Approval → Z.
Variable Redact : string → string.
(** [ApprovalsDir()] and the process id. *)
Variable dir : string.
Variable pid : Z.

Abbreviation store := (gmap string (content Approval)).

(* src: internal/authz/approval.go Approval.Hash *)
Definition Approval_Hash (a : Approval) : string :=
  "sha256:" +:+ sha256_hex (hash_input a).

(* src: internal/authz/approval.go Approval.VerifyHash *)
Definition VerifyHash (a : Approval) : res unit :=
  fail_if (Approval_Hash a <>s Ap_ApprovalHash a)
    (New CodeApprovalInvalid
       "approval content changed after creation (hash mismatch); approvals are immutable — revoke it and approve again").

(* src: internal/authz/approval.go approvalPath *)
Definition approvalPath (planID : string) : res string :=
  fail_if (negb (match_string planIDPattern planID))
    (invalidf ("invalid plan id " +:+ Quote planID)) ≫= λ _,
  Ok (join_path dir (planID +:+ ".json")).

(** [rnd] is what [rand.Read] filled the 8-byte buffer with, or its error. *)
(* src: internal/authz/approval.go newApprovalID *)
Definition newApprovalID (rnd : res (list Byte.byte)) : res string :=
  match rnd with
  | Err e => Err (wrap CodeFilesystem "generate approval id" e)
  | Ok buf => Ok (approvalIDPrefix +:+ hex_encode buf)
  end.

(* src: internal/authz/approval.go NewApproval *)
Definition NewApproval (rnd : res (list Byte.byte)) (now : Z) (approver : Actor)
    (plan : PlanRef) (action target provenance : string) : res Approval :=
  fail_if ((PlanRef_ID plan =s "") || (PlanRef_Hash plan =s ""))%bool
    (invalidf "an approval requires both a plan id and a plan hash") ≫= λ _,
  fail_if (negb (one_of action actions))
    (invalidf ("unknown approvable action " +:+ Quote action)) ≫= λ _,
  fail_if (target =s "") (invalidf "an approval requires a target application") ≫= λ _,
  Actor_Validate approver ≫= λ _,
  newApprovalID rnd ≫= λ id,
  let a0 hash :=
    {| Ap_SchemaVersion := SchemaVersion; Ap_ApprovalID := id; Ap_ApprovalHash := hash;
       Ap_PlanID := PlanRef_ID plan; Ap_PlanHash := PlanRef_Hash plan;
       Ap_Action := action; Ap_Target := target; Ap_Decision := DecisionApproved;
       Ap_ApproverType := Actor_Type approver; Ap_ApproverID := Actor_ID approver;
       Ap_ApproverAuthenticated := Actor_Authenticated approver;
       Ap_ApproverSource := ApproverSourceLocalHost;
       Ap_ApproverProvenance := Redact provenance; Ap_ApprovedAtMs := now |} in
  Ok (a0 (Approval_Hash (a0 ""))).

Definition already_approved (planID : string) : error :=
  New CodeAlreadyExists
    ("plan " +:+ planID +:+ " is already approved — approvals are immutable; " +:+
     "revoke it first with 'phelix authz revoke'").

(** The store is written only after every check passed. *)
(* src: internal/authz/approval.go SaveApproval *)
Definition SaveApproval (fl : faults) (a : Approval) (s : store) : res unit * store :=
  match VerifyHash a with
  | Err e => (Err e, s)
  | Ok _ =>
      if maxApprovalBytes <? json_len a then
        (Err (invalidf ("approval is " +:+ Itoa (json_len a) +:+ " bytes; the maximum is " +:+
                        Itoa maxApprovalBytes)), s)
      else match fl op_mkdir with
      | Some t => (Err (wrap CodeFilesystem "create approval store directory"
                          (os_err (ErrIO t))), s)
      | None =>
          match approvalPath (Ap_PlanID a) with
          | Err e => (Err e, s)
          | Ok final =>
              run_prog fl
                (create_only_prog CodeFilesystem "approval" "approval store"
                   (already_approved (Ap_PlanID a)) (tmp_path final pid) final a) s
          end
      end
  end.

(* src: internal/authz/approval.go DecodeApproval *)
Definition DecodeApproval (data : content Approval) : res Approval :=
  match data with
  | Garbage => Err (wrap CodeApprovalInvalid "approval is not a parseable approval"
                      (Foreign "invalid JSON" None))
  | Data a =>
      fail_if (Ap_SchemaVersion a <>s SchemaVersion) (New CodeApprovalInvalid
        ("approval schema_version " +:+ Quote (Ap_SchemaVersion a) +:+ ", want " +:+
         Quote SchemaVersion)) ≫= λ _,
      fail_if (negb (match_string approvalIDPattern (Ap_ApprovalID a)))
        (New CodeApprovalInvalid
           ("approval has malformed id " +:+ Quote (Ap_ApprovalID a))) ≫= λ _,
      fail_if (Ap_Decision a <>s DecisionApproved) (New CodeApprovalInvalid
        ("approval has unknown decision " +:+ Quote (Ap_Decision a))) ≫= λ _,
      VerifyHash a ≫= λ _, Ok a
  end.

(** A missing approval is [Ok None]. *)
(* src: internal/authz/approval.go LoadApproval *)
Definition LoadApproval (fl : faults) (s : store) (planID : string) : res (option Approval) :=
  approvalPath planID ≫= λ path,
  match s !! path with
  | None => Ok None
  | Some data =>
      match fl op_read with
      | Some t => Err (wrap CodeAuthzUnavailable "read approval" (os_err (ErrIO t)))
      | None =>
          fail_if (maxApprovalBytes <? file_len data) (New CodeApprovalInvalid
            ("approval for plan " +:+ planID +:+ " is oversized")) ≫= λ _,
          DecodeApproval data ≫= λ a,
          fail_if (Ap_PlanID a <>s planID) (New CodeApprovalInvalid
            ("approval filed for plan " +:+ planID +:+ " is bound to plan " +:+ Ap_PlanID a)) ≫= λ _,
          Ok (Some a)
      end
  end.

(* src: internal/authz/approval.go RevokeApproval *)
Definition RevokeApproval (fl : faults) (planID : string) (s : store) : res bool * store :=
  match approvalPath planID with
  | Err e => (Err e, s)
  | Ok path =>
      match do_syscall fl (SRemove path) s with
      | Ok s' => (Ok true, s')
      | Err ErrNotExist => (Ok false, s)
      | Err e => (Err (wrap CodeFilesystem "revoke approval" (os_err e)), s)
      end
  end.

Definition no_binding : ApprovalBinding := mkBinding "" "" "" "".

(* src: internal/authz/approval.go ResolveApproval *)
Definition ResolveApproval (fl : faults) (s : store) (planID : string) : ApprovalState :=
  match LoadApproval fl s planID with
  | Err e => {| AS_Present := true; AS_ApprovalID := ""; AS_Err := Some e;
                AS_Binding := no_binding |}
  | Ok None => {| AS_Present := false; AS_ApprovalID := ""; AS_Err := None;
                  AS_Binding := no_binding |}
  | Ok (Some a) =>
      {| AS_Present := true; AS_ApprovalID := Ap_ApprovalID a; AS_Err := None;
         AS_Binding := {| Binding_PlanID := Ap_PlanID a; Binding_PlanHash := Ap_PlanHash a;
                          Binding_Action := Ap_Action a; Binding_Target := Ap_Target a |} |}
  end.
End Approvals.

(** ** The decision log *)

(* src: internal/authz/audit.go maxDecisionRecords *)
Definition maxDecisionRecords : Z := 512.
(* src: internal/authz/audit.go maxDecisionLineBytes *)
Definition maxDecisionLineBytes : Z := 8 * 1024.
(* src: internal/authz/audit.go decisionIDPrefix *)
Definition decisionIDPrefix := "azd_".

(* src: internal/authz/audit.go DecisionRecord *)
Record DecisionRecord := mkDecisionRecord {
  DR_SchemaVersion : string;
  DR_DecisionID : string;
  DR_DecidedAtMs : Z;
  DR_ActorType : string;
  DR_ActorID : string;
  DR_ActorAuthenticated : bool;
  DR_ActorProvenance : string;
  DR_Action : string;
  DR_Target : string;
  DR_PlanID : string;
  DR_PlanHash : string;
  DR_Decision : string;
  DR_Code : string;
  DR_Reason : string;
  DR_Mode : string;
  DR_RuleIndex : Z;
  DR_ApprovalID : string;
  DR_OperationID : string
}.

(** One line of the log: the JSON of a record, or other text. *)
Inductive log_line :=
| RecLine (r : DecisionRecord)
| TextLine (t : string).

Section DecisionLog.
Variable Redact : string → string.
Variable provenance : string.               (* LocalProvenance() *)
(** Length in bytes of the JSON of a record. *)
Variable rec_len : DecisionRecord → Z.

(** The log file, [None] when it does not exist. *)
Abbreviation log := (option (list log_line)).

Definition line_len (l : log_line) : Z :=
  match l with RecLine r => rec_len r | TextLine t => len_str t end.

(** A line that does not fit the scanner's buffer. *)
Definition too_long (l : log_line) : bool := maxDecisionLineBytes <=? line_len l.

Definition blank (l : log_line) : bool :=
  match l with TextLine t => t =s "" | RecLine _ => false end.

(* src: internal/authz/audit.go newDecisionID *)
Definition newDecisionID (rnd : res (list Byte.byte)) : res string :=
  match rnd with
  | Err e => Err (wrap CodeFilesystem "generate decision id" e)
  | Ok buf => Ok (decisionIDPrefix +:+ hex_encode buf)
  end.

(** The scanner stops with an error at a line that is too long. *)
(* src: internal/authz/audit.go readDecisionLines *)
Definition readDecisionLines (fl : faults) (f : log) : res (list log_line) :=
  match f with
  | None => Ok []
  | Some ls =>
      match fl op_read with
      | Some t => Err (wrap CodeAuthzUnavailable "read authorization decision log"
                         (os_err (ErrIO t)))
      | None =>
          if existsb too_long ls then
            Err (wrap CodeAuthzUnavailable "scan authorization decision log"
                   (Foreign "bufio.Scanner: token too long" None))
          else Ok (List.filter (λ l, negb (blank l)) ls)
      end
  end.

(** Rewrite the log with the newest records.  A fault before the rename leaves
    the log as it was. *)
(* src: internal/authz/audit.go trimDecisions *)
Definition trimDecisions (fl : faults) (f : log) : res unit * log :=
  match readDecisionLines fl f with
  | Err e => (Err e, f)
  | Ok records =>
      if len records <=? maxDecisionRecords then (Ok tt, f)
      else
        let keep := drop (length records - Z.to_nat maxDecisionRecords) records in
        let fail msg t := (Err (wrap CodeFilesystem msg (os_err (ErrIO t))), f) in
        match fl op_create, fl op_write, fl op_sync, fl op_close, fl op_rename with
        | Some t, _, _, _, _ => fail "create authorization decision log temp file" t
        | _, Some t, _, _, _ => fail "write authorization decision log" t
        | _, _, Some t, _, _ => fail "sync authorization decision log" t
        | _, _, _, Some t, _ => fail "close authorization decision log" t
        | _, _, _, _, Some t => fail "replace authorization decision log" t
        | None, None, None, None, None => (Ok tt, Some keep)
        end
  end.

(** [fa] are the faults of the append, [ft] those of the trimming. *)
(* src: internal/authz/audit.go appendDecision *)
Definition appendDecision (fa ft : faults) (rec : DecisionRecord) (f : log)
  : res unit * log :=
  let fail msg t f := (Err (wrap CodeFilesystem msg (os_err (ErrIO t))), f) in
  match fa op_mkdir with
  | Some t => fail "create authorization state directory" t f
  | None =>
  match fa op_create with
  | Some t => fail "open authorization decision log" t f
  | None =>
  match fa op_write with
  | Some t => fail "append authorization decision" t (Some (default [] f))
  | None =>
      let f' := Some (default [] f ++ [RecLine rec]) in
      match fa op_sync, fa op_close with
      | Some t, _ => fail "sync authorization decision log" t f'
      | _, Some t => fail "close authorization decision log" t f'
      | None, None => trimDecisions ft f'
      end
  end end end.

(** The record of one decision. *)
(* src: internal/authz/audit.go:103-129 RecordDecision *)
Definition decision_record (id : string) (req : Request) (d : Decision) (at_ms : Z)
  : DecisionRecord :=
  {| DR_SchemaVersion := SchemaVersion; DR_DecisionID := id; DR_DecidedAtMs := at_ms;
     DR_ActorType := Actor_Type (Req_Actor req);
     DR_ActorID := Actor_ID (Req_Actor req);
     DR_ActorAuthenticated := Actor_Authenticated (Req_Actor req);
     DR_ActorProvenance := Redact provenance;
     DR_Action := Req_Action req; DR_Target := Target_App (Req_Target req);
     DR_PlanID := match Req_Plan req with Some p => PlanRef_ID p | None => "" end;
     DR_PlanHash := match Req_Plan req with Some p => PlanRef_Hash p | None => "" end;
     DR_Decision := Effect d; DR_Code := DCode d; DR_Reason := Redact (Reason d);
     DR_Mode := Mode d; DR_RuleIndex := RuleIndex d; DR_ApprovalID := ApprovalID d;
     DR_OperationID := "" |}.

(* src: internal/authz/audit.go RecordDecision *)
Definition RecordDecision (rnd : res (list Byte.byte)) (fa ft : faults)
    (req : Request) (d : Decision) (at_ms : Z) (f : log) : string * option error * log :=
  match newDecisionID rnd with
  | Err e => ("", Some e, f)
  | Ok id =>
      let '(r, f') := appendDecision fa ft (decision_record id req d at_ms) f in
      (id, err_of r, f')
  end.

(** The loop of [ListDecisions] over the lines, newest first. *)
Fixpoint list_loop (planID : string) (limit : Z) (ls : list log_line)
    (out : list DecisionRecord) (skipped : Z) : list DecisionRecord * Z :=
  match ls with
  | [] => (out, skipped)
  | TextLine _ :: ls' => list_loop planID limit ls' out (skipped + 1)
  | RecLine rec :: ls' =>
      if DR_DecisionID rec =s "" then list_loop planID limit ls' out (skipped + 1)
      else if ((planID <>s "") && (DR_PlanID rec <>s planID))%bool
      then list_loop planID limit ls' out skipped
      else let out := out ++ [rec] in
           if ((0 <? limit) && (limit <=? len out))%bool then (out, skipped)
           else list_loop planID limit ls' out skipped
  end.

(* src: internal/authz/audit.go ListDecisions *)
Definition ListDecisions (fl : faults) (planID : string) (limit : Z) (f : log)
  : res (list DecisionRecord * Z) :=
  readDecisionLines fl f ≫= λ lines, Ok (list_loop planID limit (reverse lines) [] 0).
End DecisionLog.

(** ** Lemmas *)

Section ApprovalFacts.
Context (sha256_hex : approvalHashInput → string).
Context (json_len : Approval → Z) (file_len : content Approval → Z).
Context (Redact : string → string) (dir : string) (pid : Z).
Abbreviation store := (gmap string (content Approval)).

Lemma VerifyHash_Ok a :
  VerifyHash sha256_hex a = Ok tt ↔ Approval_Hash sha256_hex a = Ap_ApprovalHash a.
Proof. unfold VerifyHash. rewrite fail_if_Ok, negb_false_iff. apply String.eqb_eq. Qed.

Lemma NewApproval_Ok rnd now approver plan action target prov a :
  NewApproval sha256_hex Redact rnd now approver plan action target prov = Ok a →
  (∃ buf, rnd = Ok buf ∧ Ap_ApprovalID a = approvalIDPrefix +:+ hex_encode buf) ∧
  Ap_SchemaVersion a = SchemaVersion ∧ Ap_Decision a = DecisionApproved ∧
  Ap_PlanID a = PlanRef_ID plan ∧ Ap_PlanHash a = PlanRef_Hash plan ∧
  Ap_Action a = action ∧ Ap_Target a = target ∧ VerifyHash sha256_hex a = Ok tt.
Proof.
  unfold NewApproval. intros H. inv_result. simpl.
  destruct rnd as [buf|e]; simpl in *; inv_result.
  split_and!; eauto. by apply VerifyHash_Ok.
Qed.

Lemma approvalPath_Ok planID path :
  approvalPath dir planID = Ok path ↔
  match_string planIDPattern planID = true ∧ path = join_path dir (planID +:+ ".json").
Proof.
  unfold approvalPath. rewrite bind_Ok. split.
  - intros (? & H%fail_if_Ok & [= <-]). by apply negb_false_iff in H.
  - intros [-> ->]. by exists tt.
Qed.

Lemma approvalPath_inj p1 p2 path :
  approvalPath dir p1 = Ok path → approvalPath dir p2 = Ok path → p1 = p2.
Proof.
  rewrite !approvalPath_Ok. intros [_ ->] [_ Heq]. unfold join_path in Heq.
  apply (inj (String.app _)), (inj (String.app _)) in Heq. by apply sapp_inj_r in Heq.
Qed.

Lemma LoadApproval_Some fl s planID a :
  LoadApproval sha256_hex file_len dir fl s planID = Ok (Some a) →
  Ap_PlanID a = planID ∧ VerifyHash sha256_hex a = Ok tt ∧
  ∃ path, approvalPath dir planID = Ok path ∧ s !! path = Some (Data a).
Proof.
  unfold LoadApproval. intros H. apply bind_Ok in H as (path & Hpath & H).
  destruct (s !! path) as [[|a']|] eqn:Hs; [| |done]; destruct (fl op_read); try done.
  - unfold DecodeApproval in H. inv_result.
  - unfold DecodeApproval in H. inv_result. bool_prop. eauto.
Qed.

(** A well-formed artifact filed under its plan loads as itself. *)
Lemma LoadApproval_stored s a path :
  approvalPath dir (Ap_PlanID a) = Ok path → s !! path = Some (Data a) →
  file_len (Data a) ≤ maxApprovalBytes →
  Ap_SchemaVersion a = SchemaVersion → Ap_Decision a = DecisionApproved →
  match_string approvalIDPattern (Ap_ApprovalID a) = true →
  VerifyHash sha256_hex a = Ok tt →
  LoadApproval sha256_hex file_len dir no_faults s (Ap_PlanID a) = Ok (Some a).
Proof.
  intros Hpath Hs Hlen%Z.ltb_ge Hv Hd Hid Hver. unfold LoadApproval. rewrite Hpath. simpl.
  rewrite Hs, Hlen. unfold DecodeApproval. rewrite Hv, Hd, Hid, Hver. simpl.
  by rewrite !String.eqb_refl.
Qed.
End ApprovalFacts.

Section LogFacts.
Context (Redact : string → string) (provenance : string) (rec_len : DecisionRecord → Z).

Lemma trimDecisions_ok ls :
  existsb (too_long rec_len) ls = false →
  ∃ ls', trimDecisions rec_len no_faults (Some ls) = (Ok tt, Some ls') ∧
    (ls' = ls ∨ ls' = drop (length (List.filter (λ l, negb (blank l)) ls) - 512)
                           (List.filter (λ l, negb (blank l)) ls)) ∧
    len (List.filter (λ l, negb (blank l)) ls') ≤ maxDecisionRecords.
Proof.
  intros Hl. unfold trimDecisions, readDecisionLines. rewrite Hl. simpl.
  set (rs := List.filter _ ls). destruct (len rs <=? maxDecisionRecords) eqn:Hle.
  - exists ls. apply Z.leb_le in Hle. auto.
  - eexists. split; [done|]. split; [by right|].
    change (Z.to_nat maxDecisionRecords) with 512%nat.
    assert (length (List.filter (λ l, negb (blank l)) (drop (length rs - 512) rs))
      ≤ 512)%nat as Hlen.
    { etransitivity; [apply List.filter_length_le|]. rewrite length_drop. lia. }
    unfold len, maxDecisionRecords. lia.
Qed.

(** The record a line contributes to a listing. *)
Definition keep_line (planID : string) (l : log_line) : option DecisionRecord :=
  match l with
  | TextLine _ => None
  | RecLine r =>
      if DR_DecisionID r =s "" then None
      else if ((planID <>s "") && (DR_PlanID r <>s planID))%bool then None
      else Some r
  end.

Lemma list_loop_cons planID limit l ls out k :
  ∃ k', list_loop planID limit (l :: ls) out k =
    match keep_line planID l with
    | None => list_loop planID limit ls out k'
    | Some r => if ((0 <? limit) && (limit <=? len (out ++ [r])))%bool
                then (out ++ [r], k) else list_loop planID limit ls (out ++ [r]) k'
    end.
Proof.
  destruct l as [r|t]; simpl; [|by eexists].
  destruct (_ =s ""); [by eexists|]. destruct (_ && _)%bool; by eexists.
Qed.

Lemma list_loop_spec planID limit ls out k :
  (0 < limit → len out < limit) →
  (list_loop planID limit ls out k).1 =
  out ++ (if 0 <? limit then take (Z.to_nat limit - length out) (omap (keep_line planID) ls)
          else omap (keep_line planID) ls).
Proof.
  revert out k. induction ls as [|l ls IH]; intros out k Hlim.
  { simpl. destruct (0 <? limit); by rewrite ?take_nil, app_nil_r. }
  destruct (list_loop_cons planID limit l ls out k) as [k' ->].
  change (omap (keep_line planID) (l :: ls)) with
    (match keep_line planID l with
     | Some r => r :: omap (keep_line planID) ls
     | None => omap (keep_line planID) ls
     end).
  destruct (keep_line planID l) as [r|]; [|by apply IH].
  rewrite len_app. unfold len in *. simpl length. destruct (0 <? limit) eqn:Hl; simpl.
  - apply Z.ltb_lt in Hl. specialize (Hlim Hl).
    destruct (_ <=? _) eqn:Hstop; bool_prop; simpl.
    + replace (Z.to_nat limit - length out)%nat with 1%nat by lia. done.
    + rewrite IH by (rewrite length_app; simpl; lia). rewrite length_app, <- app_assoc.
      f_equal. simpl.
      replace (Z.to_nat limit - length out)%nat
        with (S (Z.to_nat limit - (length out + 1)))%nat by lia. done.
  - rewrite IH, <- app_assoc by (intros; bool_prop; lia). done.
Qed.
End LogFacts.

(** ** Properties *)

Section ApprovalProperties.
Context (sha256_hex : approvalHashInput → string).
Context (json_len : Approval → Z) (file_len : content Approval → Z).
Context (Redact : string → string) (dir : string) (pid : Z).

(** Approving and resolving round-trips.  A new approval saved in a store
    where its plan has none is then resolved for that plan id, and it lets an
    approval-requiring rule allow exactly the executions of the approved plan
    hash, action and target; a second approval of the same plan is refused and
    leaves the store unchanged. *)
Theorem approval_roundtrip buf now approver plan action target prov a path s :
  NewApproval sha256_hex Redact (Ok buf) now approver plan action target prov = Ok a →
  length buf = 8%nat →
  approvalPath dir (PlanRef_ID plan) = Ok path →
  json_len a ≤ maxApprovalBytes → file_len (Data a) ≤ maxApprovalBytes →
  s !! path = None → s !! tmp_path path pid = None →
  ∃ s', SaveApproval sha256_hex json_len dir pid no_faults a s = (Ok tt, s') ∧
    SaveApproval sha256_hex json_len dir pid no_faults a s' =
      (Err (already_approved (PlanRef_ID plan)), s') ∧
    ∀ req p mode i, Req_Plan req = Some p → PlanRef_ID p = PlanRef_ID plan →
      Req_Approval req =
        Some (ResolveApproval sha256_hex file_len dir no_faults s' (PlanRef_ID p)) →
      Allowed (decideWithApproval req mode i) = true ↔
        PlanRef_Hash p = PlanRef_Hash plan ∧ Req_Action req = action ∧
        Target_App (Req_Target req) = target.
Proof.
  intros Hnew Hbuf Hpath Hj Hf Hfree Htmp.
  destruct (NewApproval_Ok _ _ _ _ _ _ _ _ _ _ Hnew)
    as ((b & Hb & Hid) & Hsv & Hdec & Hpid & Hph & Hact & Htgt & Hver).
  injection Hb as <-.
  apply Z.ltb_ge in Hj. exists (<[path := Data a]> s).
  unfold SaveApproval. rewrite Hver, Hj, Hpid, Hpath. simpl. split_and!.
  - apply create_only_no_faults; auto using tmp_path_ne.
  - apply create_only_exists; [by simplify_map_eq|done].
  - intros req p mode i Hp HID Happ. rewrite (decideWithApproval_allowed _ _ _ p Hp).
    unfold approval_bound. rewrite Happ. unfold ResolveApproval.
    rewrite HID, <- Hpid, LoadApproval_stored with (a := a) (path := path); auto.
    + rewrite Hpid, Hph, Hact, Htgt. simpl. split.
      * by intros (st & [= <-] & _ & _ & [= -> -> ->]).
      * intros (<- & <- & <-). by eexists.
    + by rewrite Hpid.
    + by simplify_map_eq.
    + rewrite Hid. by apply match_minted_id.
Qed.

(** Only a stored, untampered artifact of this very plan authorizes.  If an
    approval-requiring rule is satisfied by what the store resolves for the
    request's plan, the store holds under that plan's path an approval whose
    content hash verifies and whose plan id, plan hash, action and target are
    those of the request. *)
Theorem approval_authorizes_only_its_plan fl s req p mode i :
  Req_Plan req = Some p →
  Req_Approval req = Some (ResolveApproval sha256_hex file_len dir fl s (PlanRef_ID p)) →
  Allowed (decideWithApproval req mode i) = true →
  ∃ a path, approvalPath dir (PlanRef_ID p) = Ok path ∧ s !! path = Some (Data a) ∧
    Approval_Hash sha256_hex a = Ap_ApprovalHash a ∧
    Ap_PlanID a = PlanRef_ID p ∧ Ap_PlanHash a = PlanRef_Hash p ∧
    Ap_Action a = Req_Action req ∧ Ap_Target a = Target_App (Req_Target req).
Proof.
  intros Hp Happ. rewrite (decideWithApproval_allowed _ _ _ p Hp).
  unfold approval_bound. rewrite Happ. unfold ResolveApproval.
  destruct (LoadApproval _ _ _ _ _ _) as [[a|]|e] eqn:Hl;
    [|by intros (st & [= <-] & ? & ? & ?)..].
  intros (st & [= <-] & _ & _ & [= ? ? ? ?]).
  apply LoadApproval_Some in Hl as (? & Hver & path & ? & ?).
  apply VerifyHash_Ok in Hver. eauto 15.
Qed.
End ApprovalProperties.

Section LogProperties.
Context (Redact : string → string) (provenance : string) (rec_len : DecisionRecord → Z).

(** The decision log is bounded and complete while its lines are short:
    recording a decision without faults succeeds, leaves at most 512 records
    and keeps the decision as the newest one, which a listing returns first.
    But one line of 8 KiB or more disables the bound for good: every later
    record is appended, reported as failed and never trimmed, and the log can
    no longer be listed. *)
Theorem decision_log_bounded buf req d at_ms f :
  let id := decisionIDPrefix +:+ hex_encode buf in
  let rec := decision_record Redact provenance id req d at_ms in
  let ls0 := default [] f ++ [RecLine rec] in
  let run := RecordDecision Redact provenance rec_len (Ok buf) no_faults no_faults req d at_ms f in
  (existsb (too_long rec_len) ls0 = false →
   ∃ ls, run = (id, None, Some ls) ∧
     len (List.filter (λ l, negb (blank l)) ls) ≤ maxDecisionRecords ∧
     last ls = Some (RecLine rec)) ∧
  (existsb (too_long rec_len) (default [] f) = true →
   (∃ e, run = (id, Some e, Some ls0)) ∧
   ∀ planID limit, is_ok (ListDecisions rec_len no_faults planID limit (Some ls0)) = false).
Proof.
  intros id rec ls0 run. subst run. unfold RecordDecision, newDecisionID.
  fold id rec. unfold appendDecision. simpl. fold ls0. split.
  - intros Hshort. destruct (trimDecisions_ok rec_len ls0 Hshort) as (ls & -> & Hls & Hlen).
    exists ls. split_and!; auto. subst ls0. rewrite List.filter_app in Hls. simpl in Hls.
    destruct Hls as [->|Heq]; [by rewrite last_snoc|].
    set (l0 := List.filter _ (default [] f)) in Heq.
    rewrite Heq, drop_app_le, last_snoc; [done|]. rewrite length_app. simpl. lia.
  - intros Hlong. unfold trimDecisions, ListDecisions, readDecisionLines. simpl.
    subst ls0. rewrite existsb_app, Hlong. simpl. split; [by eexists|done].
Qed.
End LogProperties.

(** ** Witnesses *)

Module Approvals.
Definition sha (h : approvalHashInput) : string := HI_PlanID h +:+ HI_PlanHash h.
Definition plan : PlanRef := mkPlanRef "pln_0123456789abcdef" "sha256:1".
Definition buf : list Byte.byte := replicate 8 Byte.x2a.
Definition approval : Approval :=
  match NewApproval sha id (Ok buf) 7 (mkActor CallerCLI "" false) plan
          ActionRebuild "shop" "root" with
  | Ok a => a
  | Err _ => mkApproval "" "" "" "" "" "" "" "" "" "" false "" "" 0
  end.
Definition path : string := "/a/pln_0123456789abcdef.json".
Definition request (s : gmap string (content Approval)) : Request :=
  {| Req_Actor := mkActor CallerCLI "" false; Req_Action := ActionRebuild;
     Req_Target := mkTarget "shop" "id-1"; Req_Plan := Some plan;
     Req_Approval := Some (ResolveApproval sha (λ _, 100) "/a" no_faults s (PlanRef_ID plan)) |}.
End Approvals.

Lemma approval_roundtrip_witness :
  ∃ s', SaveApproval Approvals.sha (λ _, 100) "/a" 1 no_faults Approvals.approval ∅
          = (Ok tt, s') ∧
    Allowed (decideWithApproval (Approvals.request s') ModeEnforced 0) = true.
Proof.
  destruct (approval_roundtrip Approvals.sha (λ _, 100) (λ _, 100) id "/a" 1
              Approvals.buf 7 (mkActor CallerCLI "" false) Approvals.plan ActionRebuild
              "shop" "root" Approvals.approval Approvals.path ∅
              ltac:(vm_compute; reflexivity) eq_refl ltac:(vm_compute; reflexivity)
              ltac:(vm_compute; discriminate) ltac:(vm_compute; discriminate)
              eq_refl eq_refl) as (s' & H1 & _ & H2).
  exists s'. split; [exact H1|].
  by apply (H2 (Approvals.request s') Approvals.plan ModeEnforced 0 eq_refl eq_refl eq_refl).
Defined.

Lemma approval_authorizes_only_its_plan_witness :
  ∃ a path, approvalPath "/a" (PlanRef_ID Approvals.plan) = Ok path ∧
    ({[Approvals.path := Data Approvals.approval]} : gmap string (content Approval)) !! path
      = Some (Data a) ∧ Ap_Target a = "shop".
Proof.
  set (s := {[Approvals.path := Data Approvals.approval]} : gmap string (content Approval)).
  destruct (approval_authorizes_only_its_plan Approvals.sha (λ _, 100) "/a" no_faults s
              (Approvals.request s) Approvals.plan ModeEnforced 0 eq_refl eq_refl
              ltac:(vm_compute; reflexivity))
    as (a & path & H1 & H2 & _ & _ & _ & _ & H3).
  exists a, path. split; [exact H1|]. split; [exact H2|exact H3].
Defined.
