(* ===== verification/KeyLedger.v ===== *)
(** * KeyLedger: the request-key idempotency ledger (src/internal/ops/ledger.go)

    The durable ledger that makes deploy, rebuild and rollback requests
    idempotent: [begin] decides whether a keyed request executes, replays or is
    refused, [complete] records its terminal envelope.  Every call runs under
    the cross-process file lock, re-reads the file and works on a fresh
    in-memory view, so processes are modelled as [Ledger] values over one
    shared file store.  One call reads one clock value. *)

From S2P Require Import Prelude GoLib Errors FileStore Machine.

(* src: internal/ops/ledger.go ledgerVersion *)
Definition ledgerVersion : Z := 2.
(* src: internal/ops/ledger.go ledgerCapacity *)
Definition ledgerCapacity : Z := 512.
(* src: internal/ops/ledger.go ledgerFile *)
Definition ledgerFile := "request-key-ledger.json".
(* src: internal/ops/ledger.go entryStateInProgress *)
Definition entryStateInProgress := "in_progress".
(* src: internal/ops/ledger.go entryStateComplete *)
Definition entryStateComplete := "complete".
(** One hour, in milliseconds. *)
(* src: internal/ops/ledger.go abandonedInProgressAge *)
Definition abandonedInProgressAge : Z := 3600 * 1000.

(** [Result] holds the envelope bytes; the base64 encoding of [b64Bytes] makes
    them opaque to the JSON encoder, so they are stored as they are. *)
(* src: internal/ops/ledger.go KeyEntry *)
Record KeyEntry := mkKeyEntry {
  KE_Key : string;
  KE_Fingerprint : string;
  KE_Kind : string;
  KE_App : string;
  KE_OperationID : string;
  KE_State : string;
  KE_Result : string;
  KE_PID : Z;
  KE_CreatedAt : Z;
  KE_UpdatedAt : Z
}.

#[export] Instance KeyEntry_eq_dec : EqDecision KeyEntry.
Proof. solve_decision. Defined.

(** The document on disk; an element of [entries] may be JSON [null]. *)
(* src: internal/ops/ledger.go ledgerFileData *)
Record ledgerFileData := mkLedgerFileData {
  LF_Version : Z;
  LF_Entries : list (option KeyEntry)
}.

(* src: internal/ops/ledger.go BeginExecute..BeginReplay *)
Inductive BeginOutcome := BeginExecute | BeginReplay.

(* src: internal/ops/ledger.go Ledger *)
Record Ledger := mkLedger {
  L_dir : string;
  L_path : string;
  L_lockPath : string;
  L_max : Z;
  L_entries : gmap string KeyEntry;
  L_order : list string;
  L_loaded : bool;
  L_corrupt : option error
}.

(** A [Ledger] with a new view, loaded flag or poison. *)
Definition with_view (l : Ledger) (m : gmap string KeyEntry) (o : list string) : Ledger :=
  {| L_dir := L_dir l; L_path := L_path l; L_lockPath := L_lockPath l; L_max := L_max l;
     L_entries := m; L_order := o; L_loaded := L_loaded l; L_corrupt := L_corrupt l |}.
Definition with_loaded (l : Ledger) : Ledger :=
  {| L_dir := L_dir l; L_path := L_path l; L_lockPath := L_lockPath l; L_max := L_max l;
     L_entries := L_entries l; L_order := L_order l; L_loaded := true;
     L_corrupt := L_corrupt l |}.
Definition with_corrupt (l : Ledger) (e : error) : Ledger :=
  {| L_dir := L_dir l; L_path := L_path l; L_lockPath := L_lockPath l; L_max := L_max l;
     L_entries := L_entries l; L_order := L_order l; L_loaded := L_loaded l;
     L_corrupt := Some e |}.

(** The CLI-wide ledger before its first use. *)
(* src: internal/ops/ledger.go keyLedger *)
Definition keyLedger : Ledger :=
  {| L_dir := ""; L_path := ""; L_lockPath := ""; L_max := ledgerCapacity;
     L_entries := ∅; L_order := []; L_loaded := false; L_corrupt := None |}.

(** What one call sees of the host: the clock, the process, the processes that
    are alive, the data directory and the faults of each stage. *)
Record env := mkEnv {
  now : Z;
  pid : Z;
  alive : Z → bool;
  data_dir : string;
  lock_faults : faults;
  load_faults : faults;
  close_faults : faults;
  persist_faults : faults
}.

Definition jstr (s : string) : string := dquote +:+ s +:+ dquote.
Definition jfield (k v : string) : string := jstr k +:+ ":" +:+ v.

(* src: internal/ops/ledger.go kindOr *)
Definition kindOr (kind : string) : string := if kind =s "" then "operation" else kind.
(* src: internal/ops/ledger.go appOr *)
Definition appOr (app : string) : string := if app =s "" then "an unknown app" else app.
(* src: internal/ops/ledger.go operationRef *)
Definition operationRef (e : KeyEntry) : string :=
  if KE_OperationID e =s "" then "operation id not yet recorded" else KE_OperationID e.

(* src: internal/ops/ledger.go pidAlive *)
Definition pidAlive (ev : env) (p : Z) : bool := if p <=? 0 then false else alive ev p.

Section LedgerOps.
(** [machine.MarshalEnvelope]: the bytes of an envelope, if it encodes. *)
Variable MarshalEnvelope : Envelope → option string.

Abbreviation store := (gmap string (content ledgerFileData)).

(* src: internal/ops/ledger.go indeterminateResult *)
Definition indeterminateResult (e : KeyEntry) : string :=
  let envl :=
    {| Env_SchemaVersion := EnvelopeSchemaVersion;
       Env_OperationID := KE_OperationID e; Env_Status := StatusFailed; Env_Result := None;
       Env_Error := Some {|
       EB_Code := Code_String CodeUnavailable;
       EB_Message :=
         "process restarted while this request key was in progress; the outcome is indeterminate and the operation was not re-executed — " +:+
         "inspect the operation state, then retry under a fresh request key (or, if this was a plan apply, create and apply a new plan)";
       EB_ExitCode := 1; EB_Retryable := None; EB_OperationID := "" |} |} in
  match MarshalEnvelope envl with
  | Some data => data
  | None =>
      "{" +:+ jfield "schema_version" (jstr "1") +:+ "," +:+ jfield "status" (jstr "failed") +:+
      "," +:+ jfield "error" ("{" +:+ jfield "code" (jstr "UNAVAILABLE") +:+ "," +:+
        jfield "message" (jstr "outcome indeterminate") +:+ "," +:+
        jfield "exit_code" "1" +:+ "}") +:+ "}"
  end.

(** Close an interrupted entry: completed with the indeterminate result. *)
(* src: internal/ops/ledger.go:375-377 closeOneAbandonedLocked *)
Definition close_entry (t : Z) (e : KeyEntry) : KeyEntry :=
  {| KE_Key := KE_Key e; KE_Fingerprint := KE_Fingerprint e; KE_Kind := KE_Kind e;
     KE_App := KE_App e; KE_OperationID := KE_OperationID e;
     KE_State := entryStateComplete; KE_Result := indeterminateResult e;
     KE_PID := KE_PID e; KE_CreatedAt := KE_CreatedAt e; KE_UpdatedAt := t |}.

(* src: internal/ops/ledger.go Ledger.anchorLocked *)
Definition anchorLocked (ev : env) (l : Ledger) : Ledger :=
  let l := if data_dir ev <>s L_dir l then
             {| L_dir := data_dir ev; L_path := L_path l; L_lockPath := L_lockPath l;
                L_max := L_max l; L_entries := ∅; L_order := []; L_loaded := false;
                L_corrupt := None |}
           else l in
  {| L_dir := L_dir l; L_path := L_dir l +:+ "/ops/" +:+ ledgerFile;
     L_lockPath := L_dir l +:+ "/ops/request-key-ledger.lock"; L_max := L_max l;
     L_entries := L_entries l; L_order := L_order l; L_loaded := L_loaded l;
     L_corrupt := L_corrupt l |}.

(* src: internal/ops/ledger.go Ledger.acquireFileLockLocked *)
Definition acquireFileLockLocked (ev : env) : res unit :=
  let step o msg :=
    match lock_faults ev o with
    | Some t => Err (wrap CodeUnavailable msg (os_err (ErrIO t)))
    | None => Ok tt
    end in
  step op_mkdir "create request-key ledger directory" ≫= λ _,
  step op_open_lock "open request-key ledger lock" ≫= λ _,
  step op_flock "acquire request-key ledger lock".

(* src: internal/ops/ledger.go Ledger.poison *)
Definition poison {A} (l : Ledger) (e : error) : res A * Ledger := (Err e, with_corrupt l e).

(** The validation loop of [loadLocked]. *)
(* src: internal/ops/ledger.go:535-547 Ledger.loadLocked *)
Fixpoint load_entries (es : list (option KeyEntry)) (l : Ledger) : res unit * Ledger :=
  match es with
  | [] => (Ok tt, l)
  | oe :: es' =>
      let invalid := poison l (New CodeUnavailable "request-key ledger contains an invalid entry") in
      match oe with
      | None => invalid
      | Some e =>
          if ((KE_Key e =s "") || (KE_Fingerprint e =s "") ||
              ((KE_State e <>s entryStateInProgress) && (KE_State e <>s entryStateComplete)))%bool
          then invalid
          else if ((KE_State e =s entryStateComplete) && (KE_Result e =s ""))%bool then
            poison l (New CodeUnavailable "request-key ledger completed entry has no result")
          else match L_entries l !! KE_Key e with
               | Some _ => poison l (New CodeUnavailable "request-key ledger contains duplicate key")
               | None => load_entries es'
                   (with_view l (<[KE_Key e := e]> (L_entries l)) (L_order l ++ [KE_Key e]))
               end
      end
  end.

(* src: internal/ops/ledger.go Ledger.loadLocked *)
Definition loadLocked (ev : env) (l : Ledger) (s : store) : res unit * Ledger :=
  let l := with_view l ∅ [] in
  match s !! L_path l with
  | None =>
      match load_faults ev op_mkdir with
      | Some t => (Err (wrap CodeUnavailable "create request-key ledger directory"
                          (os_err (ErrIO t))), l)
      | None => (Ok tt, l)
      end
  | Some data =>
      match load_faults ev op_read with
      | Some t => (Err (wrap CodeUnavailable "read request-key ledger" (os_err (ErrIO t))), l)
      | None =>
          match data with
          | Garbage => poison l (wrap CodeUnavailable "decode request-key ledger"
                                   (Foreign "invalid JSON" None))
          | Data disk =>
              if negb (LF_Version disk =? ledgerVersion) then
                poison l (New CodeUnavailable ("unsupported request-key ledger version " +:+
                                                Itoa (LF_Version disk)))
              else
                let entries := LF_Entries disk in
                let entries := if L_max l <? len entries
                               then drop (length entries - Z.to_nat (L_max l)) entries
                               else entries in
                load_entries entries l
          end
      end
  end.

(* src: internal/ops/ledger.go Ledger.persistLocked *)
Definition persistLocked (ev : env) (fl : faults) (l : Ledger) (s : store) : res unit * store :=
  match fl op_mkdir with
  | Some t => (Err (wrap CodeUnavailable "create request-key ledger directory"
                      (os_err (ErrIO t))), s)
  | None =>
      let disk := {| LF_Version := ledgerVersion;
                     LF_Entries := (λ key, L_entries l !! key) <$> L_order l |} in
      run_prog fl (replace_prog CodeUnavailable "request-key ledger" "request-key ledger"
                     (tmp_path (L_path l) (pid ev)) (L_path l) disk) s
  end.

(** The loop of [closeOrphanedInProgressLocked]: the new entries and whether
    anything changed. *)
Fixpoint close_orphans (ev : env) (order : list string) (m : gmap string KeyEntry)
  : gmap string KeyEntry * bool :=
  match order with
  | [] => (m, false)
  | key :: order' =>
      match m !! key with
      | Some e =>
          if ((KE_State e <>s entryStateInProgress) || pidAlive ev (KE_PID e))%bool
          then close_orphans ev order' m
          else (fst (close_orphans ev order' (<[key := close_entry (now ev) e]> m)), true)
      | None => close_orphans ev order' m
      end
  end.

(* src: internal/ops/ledger.go Ledger.closeOrphanedInProgressLocked *)
Definition closeOrphanedInProgressLocked (ev : env) (l : Ledger) (s : store)
  : res unit * Ledger * store :=
  let '(m, changed) := close_orphans ev (L_order l) (L_entries l) in
  let l := with_view l m (L_order l) in
  if changed then
    let '(r, s') := persistLocked ev (close_faults ev) l s in (r, l, s')
  else (Ok tt, l, s).

(* src: internal/ops/ledger.go Ledger.initializeLocked *)
Definition initializeLocked (ev : env) (l : Ledger) (s : store) : res unit * Ledger * store :=
  let l := anchorLocked ev l in
  match L_corrupt l with
  | Some e => (Err e, l, s)
  | None =>
      let firstInit := negb (L_loaded l) in
      match loadLocked ev l s with
      | (Err e, l) => (Err e, l, s)
      | (Ok _, l) =>
          if firstInit then
            match closeOrphanedInProgressLocked ev l s with
            | (Err e, l, s) => (Err e, l, s)
            | (Ok _, l, s) => (Ok tt, with_loaded l, s)
            end
          else (Ok tt, l, s)
      end
  end.

(** The first key of [order] whose entry satisfies [p], with what precedes and
    follows it. *)
Fixpoint find_key (p : KeyEntry → bool) (m : gmap string KeyEntry) (order : list string)
  : option (list string * string * KeyEntry * list string) :=
  match order with
  | [] => None
  | key :: order' =>
      match m !! key with
      | Some e => if p e then Some ([], key, e, order')
                  else '(a, k, e', b) ← find_key p m order'; Some (key :: a, k, e', b)
      | None => '(a, k, e', b) ← find_key p m order'; Some (key :: a, k, e', b)
      end
  end.

Definition is_complete (e : KeyEntry) : bool := KE_State e =s entryStateComplete.
Definition is_abandoned (t : Z) (e : KeyEntry) : bool :=
  ((KE_State e =s entryStateInProgress) &&
   negb (t - abandonedInProgressAge <? KE_UpdatedAt e))%bool.

(** [Some]: one entry was evicted. *)
(* src: internal/ops/ledger.go Ledger.evictOneCompletedLocked *)
Definition evictOneCompletedLocked (l : Ledger) : option Ledger :=
  match find_key is_complete (L_entries l) (L_order l) with
  | Some (before, key, _, after) =>
      Some (with_view l (delete key (L_entries l)) (before ++ after))
  | None => None
  end.

(** [Some]: one entry was closed. *)
(* src: internal/ops/ledger.go Ledger.closeOneAbandonedLocked *)
Definition closeOneAbandonedLocked (ev : env) (l : Ledger) : option Ledger :=
  match find_key (is_abandoned (now ev)) (L_entries l) (L_order l) with
  | Some (_, key, e, _) =>
      Some (with_view l (<[key := close_entry (now ev) e]> (L_entries l)) (L_order l))
  | None => None
  end.

(** The loop of [makeRoomLocked]; [None] when the fuel runs out. *)
Fixpoint make_room (fuel : nat) (ev : env) (l : Ledger) : option (bool * Ledger) :=
  match fuel with
  | O => None
  | S fuel =>
      if Z.of_nat (size (L_entries l)) <? L_max l then Some (true, l)
      else match evictOneCompletedLocked l with
           | Some l' => make_room fuel ev l'
           | None => match closeOneAbandonedLocked ev l with
                     | Some l' => make_room fuel ev l'
                     | None => Some (false, l)
                     end
           end
  end.

(** Each turn evicts an entry or closes one that the next turn evicts, so two
    turns per entry and a last one are enough ([make_room_fuel]). *)
(* src: internal/ops/ledger.go Ledger.makeRoomLocked *)
Definition makeRoomLocked (ev : env) (l : Ledger) : bool * Ledger :=
  default (false, l) (make_room (2 * size (L_entries l) + 1) ev l).

Definition begin_result : Type := res (BeginOutcome * KeyEntry).

(* src: internal/ops/ledger.go Ledger.beginLocked *)
Definition beginLocked (ev : env) (key fingerprint kind app : string) (l : Ledger) (s : store)
  : begin_result * Ledger * store :=
  match initializeLocked ev l s with
  | (Err e, l, s) => (Err e, l, s)
  | (Ok _, l, s) =>
      match L_entries l !! key with
      | Some existing =>
          if KE_Fingerprint existing <>s fingerprint then
            (Err (New CodeIdempotencyConflict
               ("request key " +:+ Quote key +:+ " was already used for a " +:+
                kindOr (KE_Kind existing) +:+ " operation on " +:+ Quote (appOr (KE_App existing)) +:+
                " (" +:+ operationRef existing +:+
                "); supply a new request key for a different operation")), l, s)
          else if KE_State existing =s entryStateInProgress then
            (Err (New CodeUnavailable
               ("request key " +:+ Quote key +:+ " is already in progress (operation " +:+
                operationRef existing +:+ "); query it instead of re-executing")), l, s)
          else (Ok (BeginReplay, existing), l, s)
      | None =>
          let '(room, l) := makeRoomLocked ev l in
          if negb room then
            (Err (New CodeUnavailable
               "request-key ledger is full of in-progress operations; retry shortly"), l, s)
          else
            let entry :=
              {| KE_Key := key; KE_Fingerprint := fingerprint; KE_Kind := kind; KE_App := app;
                 KE_OperationID := ""; KE_State := entryStateInProgress; KE_Result := "";
                 KE_PID := pid ev; KE_CreatedAt := now ev; KE_UpdatedAt := now ev |} in
            let l' := with_view l (<[key := entry]> (L_entries l)) (L_order l ++ [key]) in
            match persistLocked ev (persist_faults ev) l' s with
            | (Err e, s) =>
                (Err e, with_view l' (delete key (L_entries l'))
                          (take (length (L_order l') - 1) (L_order l')), s)
            | (Ok _, s) => (Ok (BeginExecute, entry), l', s)
            end
      end
  end.

(* src: internal/ops/ledger.go Ledger.begin *)
Definition begin_key (ev : env) (key fingerprint kind app : string) (l : Ledger) (s : store)
  : begin_result * Ledger * store :=
  if key =s "" then (Err (New CodeInvalidArgument "empty request key"), l, s)
  else
    let l := anchorLocked ev l in
    match acquireFileLockLocked ev with
    | Err e => (Err e, l, s)
    | Ok _ => beginLocked ev key fingerprint kind app l s
    end.

(* src: internal/ops/ledger.go Ledger.completeLocked *)
Definition completeLocked (ev : env) (key operationID data : string) (l : Ledger) (s : store)
  : res unit * Ledger * store :=
  match initializeLocked ev l s with
  | (Err e, l, s) => (Err e, l, s)
  | (Ok _, l, s) =>
      let refuse := (Err (New CodeUnavailable
        "request-key ledger has no in-progress entry for this key"), l, s) in
      match L_entries l !! key with
      | None => refuse
      | Some e =>
          if KE_State e <>s entryStateInProgress then refuse
          else
            let e' := {| KE_Key := KE_Key e; KE_Fingerprint := KE_Fingerprint e;
                         KE_Kind := KE_Kind e; KE_App := KE_App e;
                         KE_OperationID := operationID; KE_State := entryStateComplete;
                         KE_Result := data; KE_PID := KE_PID e;
                         KE_CreatedAt := KE_CreatedAt e; KE_UpdatedAt := now ev |} in
            let l' := with_view l (<[key := e']> (L_entries l)) (L_order l) in
            let '(r, s) := persistLocked ev (persist_faults ev) l' s in (r, l', s)
      end
  end.

(* src: internal/ops/ledger.go Ledger.complete *)
Definition complete (ev : env) (key operationID data : string) (l : Ledger) (s : store)
  : res unit * Ledger * store :=
  let l := anchorLocked ev l in
  match acquireFileLockLocked ev with
  | Err e => (Err e, l, s)
  | Ok _ => completeLocked ev key operationID data l s
  end.

(* src: internal/ops/ledger.go CompleteKeyData *)
Definition CompleteKeyData (ev : env) (key operationID data : string) (l : Ledger) (s : store)
  : res unit * Ledger * store :=
  if ((key =s "") || (data =s ""))%bool then (Ok tt, l, s)
  else complete ev key operationID data l s.
End LedgerOps.

Section FingerprintOf.
(** SHA-256, in hexadecimal, of the JSON of a string map. *)
Variable sha256_map : gmap string string → string.

(* src: internal/ops/ledger.go Fingerprint *)
Definition Fingerprint (kind app : string) (material : gmap string string) : string :=
  sha256_map (<["app" := app]> (<["kind" := kind]> material)).
End FingerprintOf.

(** ** The list view

    Between two calls the ledger is the list of entries in the file, oldest
    first.  A loaded [Ledger] represents such a list: its order is the list of
    keys and its map sends each key to its entry. *)

Definition entry_ok (e : KeyEntry) : Prop :=
  KE_Key e ≠ "" ∧ KE_Fingerprint e ≠ "" ∧
  (KE_State e = entryStateInProgress ∨ (KE_State e = entryStateComplete ∧ KE_Result e ≠ "")).

Definition entries_ok (max : Z) (es : list KeyEntry) : Prop :=
  NoDup (KE_Key <$> es) ∧ Forall entry_ok es ∧ len es ≤ max.

Definition to_disk (es : list KeyEntry) : content ledgerFileData :=
  Data {| LF_Version := ledgerVersion; LF_Entries := Some <$> es |}.

(** The file at [path] holds the entries [es]; no file is the empty ledger. *)
Definition file_view (s : gmap string (content ledgerFileData)) (path : string)
    (es : list KeyEntry) : Prop :=
  (s !! path = None ∧ es = []) ∨ s !! path = Some (to_disk es).

Definition entry_map (es : list KeyEntry) : gmap string KeyEntry :=
  list_to_map ((λ e, (KE_Key e, e)) <$> es).

Definition repr (l : Ledger) (es : list KeyEntry) : Prop :=
  L_order l = KE_Key <$> es ∧ L_entries l = entry_map es.

Lemma fst_entry_pairs es : ((λ e, (KE_Key e, e)) <$> es).*1 = KE_Key <$> es.
Proof. by rewrite <- list_fmap_compose. Qed.

Lemma entry_map_lookup es k e :
  NoDup (KE_Key <$> es) → entry_map es !! k = Some e ↔ e ∈ es ∧ KE_Key e = k.
Proof.
  intros Hnd. unfold entry_map. rewrite <- elem_of_list_to_map by (by rewrite fst_entry_pairs).
  rewrite list_elem_of_fmap. split.
  - by intros (e' & [= -> ->] & ?).
  - intros [? <-]. by exists e.
Qed.

Lemma entry_map_None es k : entry_map es !! k = None ↔ k ∉ KE_Key <$> es.
Proof. unfold entry_map. by rewrite <- not_elem_of_list_to_map, fst_entry_pairs. Qed.

Lemma entry_map_cons e es : entry_map (e :: es) = <[KE_Key e := e]> (entry_map es).
Proof. done. Qed.

Lemma entry_map_app es1 es2 :
  entry_map (es1 ++ es2) = entry_map es1 ∪ entry_map es2.
Proof. unfold entry_map. by rewrite fmap_app, list_to_map_app. Qed.

Lemma entry_map_Permutation es1 es2 :
  NoDup (KE_Key <$> es1) → es1 ≡ₚ es2 → entry_map es1 = entry_map es2.
Proof.
  intros Hnd Hp. unfold entry_map. apply list_to_map_proper.
  - by rewrite fst_entry_pairs.
  - by rewrite Hp.
Qed.

Lemma entry_map_delete a e b :
  NoDup (KE_Key <$> (a ++ e :: b)) →
  delete (KE_Key e) (entry_map (a ++ e :: b)) = entry_map (a ++ b).
Proof.
  intros Hnd. rewrite (entry_map_Permutation _ (e :: (a ++ b))); [|done|].
  - rewrite entry_map_cons. apply delete_insert_id. apply entry_map_None.
    rewrite (Permutation_middle a b e) in Hnd || rewrite <- (Permutation_middle a b e) in Hnd.
    by apply NoDup_cons in Hnd as [? _].
  - by rewrite Permutation_middle.
Qed.

Lemma entry_map_update a e e' b :
  NoDup (KE_Key <$> (a ++ e :: b)) → KE_Key e' = KE_Key e →
  <[KE_Key e := e']> (entry_map (a ++ e :: b)) = entry_map (a ++ e' :: b).
Proof.
  intros Hnd Hk.
  rewrite (entry_map_Permutation (a ++ e :: b) (e :: a ++ b)); [|done|by rewrite Permutation_middle].
  rewrite (entry_map_Permutation (a ++ e' :: b) (e' :: a ++ b)).
  - rewrite !entry_map_cons, Hk. by rewrite insert_insert_eq.
  - rewrite fmap_app, fmap_cons, Hk, <- fmap_cons, <- fmap_app. done.
  - by rewrite Permutation_middle.
Qed.

Lemma size_entry_map es : NoDup (KE_Key <$> es) → size (entry_map es) = length es.
Proof.
  intros Hnd. induction es as [|e es IH]; [apply map_size_empty|].
  rewrite fmap_cons in Hnd. apply NoDup_cons in Hnd as [? ?].
  rewrite entry_map_cons, map_size_insert_None by (by apply entry_map_None).
  by rewrite IH.
Qed.

(** The first element that satisfies [p]. *)
Fixpoint split_first {A} (p : A → bool) (l : list A) : option (list A * A * list A) :=
  match l with
  | [] => None
  | x :: l' => if p x then Some ([], x, l')
               else '(a, y, b) ← split_first p l'; Some (x :: a, y, b)
  end.

Lemma split_first_Some {A} (p : A → bool) l a x b :
  split_first p l = Some (a, x, b) →
  l = a ++ x :: b ∧ p x = true ∧ Forall (λ y, p y = false) a.
Proof.
  revert a. induction l as [|y l IH]; intros a H; [done|]. simpl in H.
  destruct (p y) eqn:Hy; [by simplify_eq|].
  destruct (split_first p l) as [[[a' z] b']|] eqn:Hs; simplify_eq/=.
  destruct (IH _ eq_refl) as (-> & ? & ?). auto.
Qed.

Lemma split_first_None {A} (p : A → bool) l :
  split_first p l = None ↔ Forall (λ y, p y = false) l.
Proof.
  induction l as [|y l IH]; simpl; [by split|]. rewrite Forall_cons, <- IH.
  destruct (p y); [naive_solver|]. destruct (split_first p l) as [[[??]?]|]; naive_solver.
Qed.

(** The keys of a split list, as [find_key] reports them. *)
Definition key_parts (x : list KeyEntry * KeyEntry * list KeyEntry)
  : list string * string * KeyEntry * list string :=
  let '(a, e, b) := x in (KE_Key <$> a, KE_Key e, e, KE_Key <$> b).

Lemma find_key_spec p m (es : list KeyEntry) :
  (∀ e, e ∈ es → m !! KE_Key e = Some e) →
  find_key p m (KE_Key <$> es) = key_parts <$> split_first p es.
Proof.
  induction es as [|e es IH]; intros Hm; [done|]. cbn [fmap list_fmap find_key split_first].
  rewrite Hm by (by left). destruct (p e); [done|].
  change (list_fmap _ _ KE_Key es) with (KE_Key <$> es).
  rewrite IH by (intros; apply Hm; by right).
  by destruct (split_first p es) as [[[??]?]|].
Qed.

Lemma repr_find_key p l es :
  NoDup (KE_Key <$> es) → repr l es →
  find_key p (L_entries l) (L_order l) = key_parts <$> split_first p es.
Proof.
  intros Hnd [-> ->]. apply find_key_spec. intros e He. by apply entry_map_lookup.
Qed.

(** ** Refinement of the operations to the list view *)

Definition set_view (l : Ledger) (es : list KeyEntry) : Ledger :=
  with_view l (entry_map es) (KE_Key <$> es).

Lemma set_view_repr l es : repr (set_view l es) es.
Proof. done. Qed.
#[export] Hint Resolve set_view_repr : phelix.

Lemma repr_set_view l es : repr l es → l = set_view l es.
Proof. destruct l. intros [??]. simpl in *. by subst. Qed.

Lemma keys_update a (e e' : KeyEntry) b :
  KE_Key e' = KE_Key e → KE_Key <$> (a ++ e' :: b) = KE_Key <$> (a ++ e :: b).
Proof. intros Hk. by rewrite !fmap_app, !fmap_cons, Hk. Qed.

Lemma NoDup_keys_remove a (e : KeyEntry) b :
  NoDup (KE_Key <$> (a ++ e :: b)) → NoDup (KE_Key <$> (a ++ b)).
Proof.
  rewrite !fmap_app, fmap_cons. intros (?&?&?)%NoDup_app. apply NoDup_app.
  apply NoDup_cons in H1 as [??]. split_and!; auto. set_solver.
Qed.

Section LoadRefinement.
Lemma load_entries_view es0 es l :
  repr l es0 → NoDup (KE_Key <$> (es0 ++ es)) → Forall entry_ok es →
  load_entries (Some <$> es) l = (Ok tt, set_view l (es0 ++ es)).
Proof.
  revert es0 l. induction es as [|e es IH]; intros es0 l Hr Hnd Hok.
  { rewrite app_nil_r. simpl. by rewrite (repr_set_view _ _ Hr) at 1. }
  apply Forall_cons in Hok as [(Hk & Hf & Hst) Hok]. simpl.
  apply String.eqb_neq in Hk as ->. apply String.eqb_neq in Hf as ->. simpl.
  assert (L_entries l !! KE_Key e = None) as ->.
  { destruct Hr as [_ ->]. apply entry_map_None. intros Hin. revert Hnd.
    rewrite fmap_app, fmap_cons, NoDup_app. intros (_ & Hdisj & _).
    apply (Hdisj _ Hin). left. }
  replace (negb _ && negb _)%bool with false; [|by destruct Hst as [->|[-> _]]].
  replace (_ && _)%bool with false;
    [|by destruct Hst as [->|[-> ->%String.eqb_neq]]].
  rewrite (IH (es0 ++ [e])); auto.
  - by rewrite <- app_assoc.
  - destruct Hr as [-> ->]. split; simpl; [by rewrite fmap_app|].
    rewrite <- entry_map_cons. apply entry_map_Permutation.
    + revert Hnd. rewrite fmap_cons, fmap_app, fmap_cons, NoDup_cons, NoDup_app, NoDup_cons.
      set_solver.
    + by rewrite Permutation_cons_append.
  - by rewrite <- app_assoc.
Qed.

Lemma loadLocked_view ev l s es :
  file_view s (L_path l) es → entries_ok (L_max l) es →
  load_faults ev op_mkdir = None → load_faults ev op_read = None →
  loadLocked ev l s = (Ok tt, set_view l es).
Proof.
  intros Hv (Hnd & Hok & Hlen) Hmk Hrd. unfold loadLocked. simpl.
  destruct Hv as [[-> ->]| ->]; [by rewrite Hmk|]. rewrite Hrd. simpl.
  replace (L_max l <? _) with false.
  - rewrite (load_entries_view [] es); auto. by split.
  - symmetry. apply Z.ltb_ge. unfold len in *. by rewrite length_fmap.
Qed.
End LoadRefinement.

Section RoomRefinement.
Context (MarshalEnvelope : Envelope → option string).
Local Abbreviation close_entry := (close_entry MarshalEnvelope).

Lemma evict_view l es :
  NoDup (KE_Key <$> es) → repr l es →
  evictOneCompletedLocked l =
    (λ '(a, _, b), set_view l (a ++ b)) <$> split_first is_complete es.
Proof.
  intros Hnd Hr. unfold evictOneCompletedLocked. rewrite (repr_find_key _ _ _ Hnd Hr).
  destruct (split_first is_complete es) as [[[a e] b]|] eqn:Hs; [|done]. simpl.
  apply split_first_Some in Hs as (-> & _ & _). destruct Hr as [_ ->].
  by rewrite entry_map_delete, <- fmap_app.
Qed.

Lemma close_view ev l es :
  NoDup (KE_Key <$> es) → repr l es →
  closeOneAbandonedLocked MarshalEnvelope ev l =
    (λ '(a, e, b), set_view l (a ++ close_entry (now ev) e :: b)) <$>
      split_first (is_abandoned (now ev)) es.
Proof.
  intros Hnd Hr. unfold closeOneAbandonedLocked. rewrite (repr_find_key _ _ _ Hnd Hr).
  destruct (split_first _ es) as [[[a e] b]|] eqn:Hs; [|done]. simpl.
  apply split_first_Some in Hs as (-> & _ & _). destruct Hr as [-> ->].
  rewrite (entry_map_update _ _ (close_entry (now ev) e)) by done.
  unfold set_view. by rewrite (keys_update a e (close_entry (now ev) e) b).
Qed.

(** The loop of [makeRoomLocked] on the list. *)
Fixpoint room (fuel : nat) (max t : Z) (es : list KeyEntry) : option (bool * list KeyEntry) :=
  match fuel with
  | O => None
  | S fuel =>
      if len es <? max then Some (true, es)
      else match split_first is_complete es with
           | Some (a, _, b) => room fuel max t (a ++ b)
           | None => match split_first (is_abandoned t) es with
                     | Some (a, e, b) => room fuel max t (a ++ close_entry t e :: b)
                     | None => Some (false, es)
                     end
           end
  end.

Lemma make_room_view fuel ev l es :
  NoDup (KE_Key <$> es) → repr l es →
  make_room MarshalEnvelope fuel ev l =
    (λ '(b, es'), (b, set_view l es')) <$> room fuel (L_max l) (now ev) es.
Proof.
  revert l es. induction fuel as [|fuel IH]; intros l es Hnd Hr; [done|]. simpl.
  rewrite (evict_view _ _ Hnd Hr), (close_view _ _ _ Hnd Hr).
  pose proof Hr as [_ Hm]. rewrite Hm, size_entry_map by done. unfold len.
  destruct (_ <? _); [simpl; do 2 f_equal; by apply repr_set_view|].
  destruct (split_first is_complete es) as [[[a e] b]|] eqn:Hs; simpl.
  { apply split_first_Some in Hs as (-> & _ & _).
    rewrite (IH _ (a ++ b)); auto with phelix. by eapply NoDup_keys_remove. }
  destruct (split_first (is_abandoned (now ev)) es) as [[[a e] b]|] eqn:Hs'; simpl;
    [|do 2 f_equal; by apply repr_set_view].
  apply split_first_Some in Hs' as (-> & _ & _).
  rewrite (IH _ (a ++ close_entry (now ev) e :: b)); auto with phelix.
  by rewrite (keys_update a e).
Qed.

Definition in_progress (e : KeyEntry) : bool := KE_State e =s entryStateInProgress.

Definition pending_count (es : list KeyEntry) : nat := length (List.filter in_progress es).

Lemma pending_count_app es1 es2 :
  pending_count (es1 ++ es2) = (pending_count es1 + pending_count es2)%nat.
Proof. unfold pending_count. by rewrite List.filter_app, length_app. Qed.

Lemma is_abandoned_in_progress t e : is_abandoned t e = true → in_progress e = true.
Proof. unfold is_abandoned, in_progress. by destruct (_ =s _). Qed.

(** Fuel above the number of entries plus those in progress is enough. *)
Lemma room_fuel fuel max t es :
  (length es + pending_count es < fuel)%nat → is_Some (room fuel max t es).
Proof.
  revert es. induction fuel as [|fuel IH]; intros es Hf; [lia|]. simpl.
  destruct (len es <? max); [by eexists|].
  destruct (split_first is_complete es) as [[[a e] b]|] eqn:Hs.
  { apply split_first_Some in Hs as (-> & _ & _). apply IH.
    rewrite !length_app, !pending_count_app in *. unfold pending_count in *.
    simpl in *. destruct (in_progress e); simpl in *; lia. }
  destruct (split_first (is_abandoned t) es) as [[[a e] b]|] eqn:Hs'; [|by eexists].
  apply split_first_Some in Hs' as (-> & He%is_abandoned_in_progress & _). apply IH.
  rewrite !length_app, !pending_count_app in *. unfold pending_count in *.
  simpl in *. rewrite He in Hf. simpl in *. lia.
Qed.

Lemma pending_count_le es : (pending_count es ≤ length es)%nat.
Proof. apply List.filter_length_le. Qed.

(** An entry closed by the loop is the next one it evicts: the entries it
    leaves are entries it found, in their order, and it only drops completed
    and abandoned ones. *)
Lemma room_spec fuel max t es b es' :
  room fuel max t es = Some (b, es') →
  es' `sublist_of` es ∧
  (∀ e, e ∈ es → is_complete e = false → is_abandoned t e = false → e ∈ es') ∧
  (if b then len es' < max
   else max ≤ len es' ∧ Forall (λ e, is_complete e = false ∧ is_abandoned t e = false) es').
Proof.
  revert es. induction fuel as [fuel IH] using lt_wf_ind; intros es.
  destruct fuel as [|fuel]; [done|]. simpl.
  destruct (len es <? max) eqn:Hlen.
  { intros [= <- <-]. bool_prop. auto. }
  destruct (split_first is_complete es) as [[[a e] c]|] eqn:Hs.
  { apply split_first_Some in Hs as (-> & He & _).
    intros (Hsub & Hkeep & Hb)%IH; [|lia]. split_and!; [| |done].
    - etrans; [done|]. by apply sublist_app, sublist_cons.
    - intros e' He' Hc Ha. apply Hkeep; auto.
      apply elem_of_app in He' as [?|[->|?]%elem_of_cons]; [set_solver|congruence|set_solver]. }
  apply split_first_None in Hs.
  destruct (split_first (is_abandoned t) es) as [[[a e] c]|] eqn:Hs'.
  2: { intros [= <- <-]. apply split_first_None in Hs'. bool_prop. split_and!; auto.
       rewrite Forall_forall in *. auto. }
  apply split_first_Some in Hs' as (-> & He & _).
  destruct fuel as [|fuel]; [done|]. simpl.
  assert (len (a ++ close_entry t e :: c) = len (a ++ e :: c)) as ->
    by (by rewrite !len_app, !len_cons).
  rewrite Hlen.
  replace (split_first is_complete (a ++ close_entry t e :: c))
    with (Some (a, close_entry t e, c)).
  2: { apply Forall_app in Hs as [Hs _]. clear -Hs.
       induction Hs as [|x a Hx Hs IH]; simpl; [done|]. by rewrite Hx, <- IH. }
  intros (Hsub & Hkeep & Hb)%IH; [|lia]. split_and!; [| |done].
  - etrans; [done|]. by apply sublist_app, sublist_cons.
  - intros e' He' Hc Ha. apply Hkeep; auto.
    apply elem_of_app in He' as [?|[->|?]%elem_of_cons]; [set_solver|congruence|set_solver].
Qed.

Lemma makeRoomLocked_view ev l es :
  NoDup (KE_Key <$> es) → repr l es →
  ∃ b es', makeRoomLocked MarshalEnvelope ev l = (b, set_view l es') ∧
    room (2 * length es + 1) (L_max l) (now ev) es = Some (b, es').
Proof.
  intros Hnd Hr. unfold makeRoomLocked. rewrite (make_room_view _ _ _ _ Hnd Hr).
  pose proof Hr as [_ ->]. rewrite size_entry_map by done.
  destruct (room_fuel (2 * length es + 1) (L_max l) (now ev) es) as [[b es'] Hes'].
  { pose proof (pending_count_le es). lia. }
  exists b, es'. by rewrite Hes'.
Qed.
End RoomRefinement.


(** ** The abstract ledger

    What the ledger promises, over the list of entries on disk: a call first
    reloads (the first one of a process also closes the entries of dead
    owners), then decides on the reloaded list and appends, completes or leaves
    it.  A call that fails may or may not have reached the disk. *)

Definition ledger_path (dir : string) : string := dir +:+ "/ops/" +:+ ledgerFile.

Definition new_entry (ev : env) (key fingerprint kind app : string) : KeyEntry :=
  {| KE_Key := key; KE_Fingerprint := fingerprint; KE_Kind := kind; KE_App := app;
     KE_OperationID := ""; KE_State := entryStateInProgress; KE_Result := "";
     KE_PID := pid ev; KE_CreatedAt := now ev; KE_UpdatedAt := now ev |}.

Definition completed (ev : env) (operationID data : string) (e : KeyEntry) : KeyEntry :=
  {| KE_Key := KE_Key e; KE_Fingerprint := KE_Fingerprint e; KE_Kind := KE_Kind e;
     KE_App := KE_App e; KE_OperationID := operationID; KE_State := entryStateComplete;
     KE_Result := data; KE_PID := KE_PID e; KE_CreatedAt := KE_CreatedAt e;
     KE_UpdatedAt := now ev |}.

Section Abstract.
Context (MarshalEnvelope : Envelope → option string).

Definition orphaned (ev : env) (e : KeyEntry) : bool :=
  (in_progress e && negb (pidAlive ev (KE_PID e)))%bool.

Definition close_list (ev : env) (es : list KeyEntry) : list KeyEntry :=
  (λ e, if orphaned ev e then close_entry MarshalEnvelope (now ev) e else e) <$> es.

Definition reloaded (ev : env) (es es1 : list KeyEntry) : Prop :=
  es1 = es ∨ es1 = close_list ev es.

Definition room_in (max : Z) (ev : env) (es : list KeyEntry) (b : bool) (es2 : list KeyEntry) :=
  room MarshalEnvelope (2 * length es + 1) max (now ev) es = Some (b, es2).

Inductive abs_begin (max : Z) (ev : env) (key fp kind app : string) (es : list KeyEntry)
  : begin_result → list KeyEntry → Prop :=
| ab_fault e es1 :
    reloaded ev es es1 → CodeOf (Some e) = CodeUnavailable →
    abs_begin max ev key fp kind app es (Err e) es1
| ab_conflict e old es1 :
    reloaded ev es es1 → old ∈ es1 → KE_Key old = key → KE_Fingerprint old ≠ fp →
    CodeOf (Some e) = CodeIdempotencyConflict →
    abs_begin max ev key fp kind app es (Err e) es1
| ab_replay old es1 :
    reloaded ev es es1 → old ∈ es1 → KE_Key old = key → KE_Fingerprint old = fp →
    KE_State old = entryStateComplete →
    abs_begin max ev key fp kind app es (Ok (BeginReplay, old)) es1
| ab_execute es1 es2 :
    reloaded ev es es1 → key ∉ KE_Key <$> es1 → room_in max ev es1 true es2 →
    abs_begin max ev key fp kind app es
      (Ok (BeginExecute, new_entry ev key fp kind app)) (es2 ++ [new_entry ev key fp kind app])
| ab_unsynced e es1 es2 :
    reloaded ev es es1 → key ∉ KE_Key <$> es1 → room_in max ev es1 true es2 →
    CodeOf (Some e) = CodeUnavailable →
    abs_begin max ev key fp kind app es (Err e) (es2 ++ [new_entry ev key fp kind app]).

Inductive abs_complete (ev : env) (key op data : string) (es : list KeyEntry)
  : res unit → list KeyEntry → Prop :=
| ac_refused e es1 :
    reloaded ev es es1 → CodeOf (Some e) = CodeUnavailable →
    abs_complete ev key op data es (Err e) es1
| ac_done r a e b :
    reloaded ev es (a ++ e :: b) → KE_Key e = key → in_progress e = true →
    (r = Ok tt ∨ ∃ x, r = Err x ∧ CodeOf (Some x) = CodeUnavailable) →
    abs_complete ev key op data es r (a ++ completed ev op data e :: b).

Lemma close_list_keys ev es : KE_Key <$> close_list ev es = KE_Key <$> es.
Proof.
  unfold close_list. rewrite <- list_fmap_compose. apply list_fmap_ext. intros i e _. simpl.
  by destruct (orphaned ev e).
Qed.

Lemma len_close_list ev es : len (close_list ev es) = len es.
Proof. unfold len, close_list. by rewrite length_fmap. Qed.

Hypothesis marshal_nonempty : ∀ x s, MarshalEnvelope x = Some s → s ≠ "".

Lemma indeterminate_nonempty e : indeterminateResult MarshalEnvelope e ≠ "".
Proof.
  unfold indeterminateResult. case_match; [by eapply marshal_nonempty|done].
Qed.

Lemma close_entry_ok t e : entry_ok e → entry_ok (close_entry MarshalEnvelope t e).
Proof.
  intros (? & ? & _). split_and!; simpl; auto. right. split; [done|].
  apply indeterminate_nonempty.
Qed.

Lemma close_list_ok max ev es : entries_ok max es → entries_ok max (close_list ev es).
Proof.
  intros (? & Hok & ?). split_and!; [by rewrite close_list_keys| |by rewrite len_close_list].
  unfold close_list. apply Forall_fmap. eapply Forall_impl; [done|]. simpl. intros e He.
  destruct (orphaned ev e); auto using close_entry_ok.
Qed.

Lemma reloaded_ok max ev es es1 : reloaded ev es es1 → entries_ok max es → entries_ok max es1.
Proof. intros [->| ->]; auto using close_list_ok. Qed.

Lemma sublist_ok max es es' : es' `sublist_of` es → entries_ok max es → entries_ok max es'.
Proof.
  intros Hs (Hnd & Hok & Hlen). split_and!.
  - eapply sublist_NoDup; [done|by apply sublist_fmap].
  - apply Forall_forall. intros e He. rewrite Forall_forall in Hok. apply Hok.
    by eapply elem_of_sublist.
  - apply sublist_length in Hs. unfold len in *. lia.
Qed.

Lemma append_ok max es e :
  entries_ok max es → entry_ok e → KE_Key e ∉ KE_Key <$> es → len es < max →
  entries_ok max (es ++ [e]).
Proof.
  intros (Hnd & Hok & Hlen) He Hk Hl. split_and!.
  - rewrite fmap_app. apply NoDup_app. split_and!; [done| |apply NoDup_singleton].
    intros x Hx ->%list_elem_of_singleton. done.
  - by apply Forall_app_2; [|apply Forall_singleton].
  - rewrite len_app. unfold len in *. simpl. lia.
Qed.

Lemma update_ok max a e e' b :
  entries_ok max (a ++ e :: b) → entry_ok e' → KE_Key e' = KE_Key e →
  entries_ok max (a ++ e' :: b).
Proof.
  intros (Hnd & Hok & Hlen) He Hk. split_and!.
  - by rewrite (keys_update a e).
  - apply Forall_app in Hok as [? Hok]. apply Forall_cons in Hok as [_ ?].
    by apply Forall_app_2; [|apply Forall_cons].
  - by rewrite len_app, len_cons in *.
Qed.

Lemma abs_begin_ok max ev key fp kind app es r es' :
  key ≠ "" → fp ≠ "" → entries_ok max es →
  abs_begin max ev key fp kind app es r es' → entries_ok max es'.
Proof.
  intros Hkey Hfp Hok Hstep.
  assert (∀ es1 es2, reloaded ev es es1 → key ∉ KE_Key <$> es1 → room_in max ev es1 true es2 →
    entries_ok max (es2 ++ [new_entry ev key fp kind app])) as Hnew.
  { intros es1 es2 Hr Hk (Hsub & _ & Hlen)%room_spec. eapply (reloaded_ok max) in Hr; [|done].
    apply append_ok; auto.
    - by eapply sublist_ok.
    - split_and!; simpl; auto.
    - simpl. intros Hin. apply Hk. eapply elem_of_sublist; [done|]. by apply sublist_fmap. }
  destruct Hstep; eauto using reloaded_ok.
Qed.

Lemma abs_complete_ok max ev key op data es r es' :
  data ≠ "" → entries_ok max es → abs_complete ev key op data es r es' → entries_ok max es'.
Proof.
  intros Hdata Hok Hstep. destruct Hstep as [|r a e b Hr Hk Hp Hres];
    [by eauto using reloaded_ok|]. eapply (reloaded_ok max) in Hr; [|done].
  eapply update_ok; [done| |done].
  destruct Hr as (_ & Hall & _). rewrite Forall_forall in Hall.
  destruct (Hall e) as (? & ? & _); [set_solver|]. split_and!; auto.
Qed.
End Abstract.

(** ** The code refines the abstract ledger *)

(** A process whose ledger is usable in the data directory [dir]. *)
Definition ready (ev : env) (dir : string) (max : Z) (l : Ledger) : Prop :=
  data_dir ev = dir ∧ L_max l = max ∧ (L_dir l = dir → L_corrupt l = None).

(** The ledger after [anchorLocked]. *)
Definition anchored (dir : string) (max : Z) (l : Ledger) : Prop :=
  L_dir l = dir ∧ L_path l = ledger_path dir ∧ L_max l = max ∧ L_corrupt l = None.

Lemma anchor_ready ev dir max l : ready ev dir max l → anchored dir max (anchorLocked ev l).
Proof.
  intros (Hd & Hm & Hc). unfold anchorLocked, anchored. rewrite Hd.
  destruct (dir =s L_dir l) eqn:E; simpl; bool_prop; subst; split_and!; auto; try congruence.
  by rewrite <- E.
Qed.

Lemma anchor_again ev dir max l :
  data_dir ev = dir → anchored dir max l → ∃ lock, anchorLocked ev l =
    {| L_dir := dir; L_path := ledger_path dir; L_lockPath := lock; L_max := max;
       L_entries := L_entries l; L_order := L_order l; L_loaded := L_loaded l;
       L_corrupt := None |}.
Proof.
  intros Hd (Hdir & Hp & Hm & Hc). unfold anchorLocked. rewrite Hd, Hdir, String.eqb_refl.
  simpl. rewrite Hdir, Hm, Hc. by eexists.
Qed.

Section Refinement.
Context (MarshalEnvelope : Envelope → option string).
Hypothesis marshal_nonempty : ∀ x s, MarshalEnvelope x = Some s → s ≠ "".
Local Abbreviation store := (gmap string (content ledgerFileData)).
Local Abbreviation close_list := (close_list MarshalEnvelope).
Local Abbreviation reloaded := (reloaded MarshalEnvelope).

Lemma view_of_map es :
  NoDup (KE_Key <$> es) →
  (λ key, entry_map es !! key) <$> (KE_Key <$> es) = Some <$> es.
Proof.
  intros Hnd. rewrite <- list_fmap_compose. apply list_fmap_ext. intros i e Hi. simpl.
  apply entry_map_lookup; [done|]. split; [by eapply list_elem_of_lookup_2|done].
Qed.

Lemma persist_view ev fl l s es r s' :
  NoDup (KE_Key <$> es) → repr l es → persistLocked ev fl l s = (r, s') →
  (r = Ok tt ∧ file_view s' (L_path l) es) ∨
  (∃ e, r = Err e ∧ CodeOf (Some e) = CodeUnavailable ∧
     (s' !! L_path l = s !! L_path l ∨ file_view s' (L_path l) es)).
Proof.
  intros Hnd [Ho Hm]. unfold persistLocked. destruct (fl op_mkdir).
  { intros [= <- <-]. right. eexists. split; [done|]. rewrite CodeOf_wrap_foreign. auto. }
  rewrite Ho, Hm, view_of_map by done. intros Hrun.
  pose proof (replace_outcomes fl s CodeUnavailable "request-key ledger" "request-key ledger"
    (tmp_path (L_path l) (pid ev)) (L_path l)
    {| LF_Version := ledgerVersion; LF_Entries := Some <$> es |} (tmp_path_ne _ _)) as Hout.
  rewrite Hrun in Hout. destruct Hout as [_|e f' Hc Hf|e Hc _].
  - left. split; [done|]. right. by simplify_map_eq.
  - right. exists e. split_and!; auto. left. apply Hf. intros Heq. by apply (tmp_path_ne (L_path l) (pid ev)).
  - right. exists e. split_and!; auto. right. right. by simplify_map_eq.
Qed.

Lemma persist_no_faults ev l s es :
  NoDup (KE_Key <$> es) → repr l es → s !! tmp_path (L_path l) (pid ev) = None →
  ∃ s', persistLocked ev no_faults l s = (Ok tt, s') ∧ file_view s' (L_path l) es.
Proof.
  intros Hnd [Ho Hm] Htmp. unfold persistLocked. simpl.
  rewrite Ho, Hm, view_of_map, replace_no_faults by done.
  eexists. split; [done|]. right. by simplify_map_eq.
Qed.

Lemma file_view_same (s s' : store) path es :
  s' !! path = s !! path → file_view s path es → file_view s' path es.
Proof. unfold file_view. by intros ->. Qed.

Lemma close_orphans_prefix ev a b m :
  NoDup (KE_Key <$> (a ++ b)) → m = entry_map (a ++ b) →
  close_orphans MarshalEnvelope ev (KE_Key <$> b) m =
    (entry_map (a ++ close_list ev b), existsb (orphaned ev) b).
Proof.
  revert a m. induction b as [|e b IH]; intros a m Hnd Hm; [by subst|].
  assert (m !! KE_Key e = Some e) as Hl.
  { subst. apply entry_map_lookup; [done|]. split; [set_solver|done]. }
  cbn [fmap list_fmap close_orphans]. rewrite Hl.
  change (list_fmap _ _ KE_Key b) with (KE_Key <$> b).
  change (close_list ev (e :: b)) with
    ((if orphaned ev e then close_entry MarshalEnvelope (now ev) e else e) :: close_list ev b).
  assert (∀ e', KE_Key e' = KE_Key e → entry_map (a ++ e' :: b) = entry_map ((a ++ [e']) ++ b) ∧
    NoDup (KE_Key <$> ((a ++ [e']) ++ b))) as Hshift.
  { intros e' He'. rewrite <- app_assoc. split; [done|]. simpl. by rewrite (keys_update a e). }
  simpl existsb. unfold orphaned at 1 2, in_progress.
  destruct (KE_State e =s entryStateInProgress) eqn:Hst; simpl;
    [destruct (pidAlive ev (KE_PID e)) eqn:Hp; simpl|].
  - destruct (Hshift e eq_refl) as [Heq Hnd']. rewrite (IH (a ++ [e])), <- app_assoc by (done || congruence). done.
  - destruct (Hshift (close_entry MarshalEnvelope (now ev) e) eq_refl) as [Heq Hnd'].
    rewrite (IH (a ++ [close_entry MarshalEnvelope (now ev) e])); [by rewrite <- app_assoc|done|].
    rewrite <- Heq, <- (entry_map_update a e) by done. by subst.
  - destruct (Hshift e eq_refl) as [Heq Hnd']. rewrite (IH (a ++ [e])), <- app_assoc by (done || congruence). done.
Qed.

Lemma no_orphans ev es : existsb (orphaned ev) es = false → close_list ev es = es.
Proof.
  induction es as [|e es IH]; [done|]. cbn [existsb]. intros [H1 H2]%orb_false_iff.
  unfold KeyLedger.close_list in *. by rewrite fmap_cons, H1, IH.
Qed.

Lemma closeOrphaned_view ev l s es r l' s' :
  NoDup (KE_Key <$> es) → repr l es → file_view s (L_path l) es →
  closeOrphanedInProgressLocked MarshalEnvelope ev l s = (r, l', s') →
  l' = set_view l (close_list ev es) ∧
  ∃ es', file_view s' (L_path l) es' ∧ reloaded ev es es' ∧
    ((r = Ok tt ∧ es' = close_list ev es) ∨
     ∃ e, r = Err e ∧ CodeOf (Some e) = CodeUnavailable).
Proof.
  intros Hnd [Ho Hm] Hv. unfold closeOrphanedInProgressLocked.
  rewrite Ho, Hm, (close_orphans_prefix ev [] es) by done. simpl.
  assert (with_view l (entry_map (close_list ev es)) (KE_Key <$> es) =
          set_view l (close_list ev es)) as ->.
  { unfold set_view. by rewrite close_list_keys. }
  destruct (existsb (orphaned ev) es) eqn:Hex.
  - destruct (persistLocked ev (close_faults ev) (set_view l (close_list ev es)) s)
      as [r0 s0] eqn:Hp.
    intros [= <- <- <-]. split; [done|].
    apply (persist_view _ _ _ _ (close_list ev es)) in Hp as [[-> Hv']|(e & -> & Hc & Hv')];
      [| |by rewrite close_list_keys|done]; simpl in *.
    + exists (close_list ev es). split_and!; [done|by right|by left].
    + destruct Hv' as [Hsame|Hv'].
      * exists es. split_and!; [by eapply file_view_same|by left|eauto].
      * exists (close_list ev es). split_and!; [done|by right|eauto].
  - intros [= <- <- <-]. split; [done|]. exists es.
    rewrite no_orphans by done. split_and!; [done|by left|by left].
Qed.

Lemma load_view ev l s es :
  file_view s (L_path l) es → entries_ok (L_max l) es →
  loadLocked ev l s = (Ok tt, set_view l es) ∨
  (∃ e, loadLocked ev l s = (Err e, with_view l ∅ []) ∧ CodeOf (Some e) = CodeUnavailable).
Proof.
  intros Hv Hok. destruct (load_faults ev op_mkdir) as [t|] eqn:Hmk;
    destruct (load_faults ev op_read) as [t'|] eqn:Hrd;
    [| | |left; by apply loadLocked_view].
  all: destruct Hv as [[Hs ->]|Hs]; unfold loadLocked; simpl; rewrite Hs, ?Hmk, ?Hrd;
    try (right; eexists; by split).
  all: left.
  - assert (∀ ev', load_faults ev' op_mkdir = None → load_faults ev' op_read = None →
      loadLocked ev' l s = (Ok tt, set_view l es)) as Hload
      by (intros; apply loadLocked_view; auto; by right).
    specialize (Hload {| now := now ev; pid := pid ev; alive := alive ev;
      data_dir := data_dir ev; lock_faults := no_faults; load_faults := no_faults;
      close_faults := no_faults; persist_faults := no_faults |} eq_refl eq_refl).
    unfold loadLocked in Hload. simpl in Hload. by rewrite Hs in Hload.
  - done.
Qed.

Lemma initialize_view ev dir max l s es r l' s' :
  data_dir ev = dir → anchored dir max l →
  file_view s (ledger_path dir) es → entries_ok max es →
  initializeLocked MarshalEnvelope ev l s = (r, l', s') →
  ∃ es', file_view s' (ledger_path dir) es' ∧ reloaded ev es es' ∧ anchored dir max l' ∧
    ((r = Ok tt ∧ repr l' es') ∨ ∃ e, r = Err e ∧ CodeOf (Some e) = CodeUnavailable).
Proof.
  intros Hd Ha Hv Hok. unfold initializeLocked.
  destruct (anchor_again ev dir max l Hd Ha) as [lock ->].
  set (l1 := {| L_dir := dir; L_path := ledger_path dir |}). cbn [L_corrupt l1].
  destruct (load_view ev l1 s es Hv Hok) as [->|(e & -> & He)].
  2: { intros [= <- <- <-]. exists es. split_and!; [done|by left|done|eauto]. }
  destruct (negb (L_loaded l1)).
  2: { intros [= <- <- <-]. exists es. split_and!; [done|by left|done|by left]. }
  destruct (closeOrphanedInProgressLocked MarshalEnvelope ev (set_view l1 es) s)
    as [[r1 l2] s2] eqn:Hc.
  apply (closeOrphaned_view ev (set_view l1 es) s es) in Hc
    as (-> & es' & Hv' & Hr & Hres); [|by destruct Hok|done|done].
  destruct Hres as [[-> ->]|(e & -> & He)]; intros [= <- <- <-].
  - exists (close_list ev es). split_and!; [done|done|done|by left].
  - exists es'. split_and!; [done|done|done|eauto].
Qed.

Lemma lookup_view l es key :
  NoDup (KE_Key <$> es) → repr l es →
  match L_entries l !! key with
  | Some e => e ∈ es ∧ KE_Key e = key
  | None => key ∉ KE_Key <$> es
  end.
Proof.
  intros Hnd [_ ->]. destruct (entry_map es !! key) eqn:E.
  - by apply entry_map_lookup.
  - by apply entry_map_None.
Qed.

Lemma repr_append l es e :
  KE_Key e ∉ KE_Key <$> es → NoDup (KE_Key <$> es) → repr l es →
  repr (with_view l (<[KE_Key e := e]> (L_entries l)) (L_order l ++ [KE_Key e])) (es ++ [e]).
Proof.
  intros Hk Hnd [-> ->]. split; simpl; [by rewrite fmap_app|].
  rewrite <- entry_map_cons. apply entry_map_Permutation.
  - rewrite fmap_cons. by apply NoDup_cons.
  - by rewrite Permutation_cons_append.
Qed.

Lemma repr_update l a e e' b :
  NoDup (KE_Key <$> (a ++ e :: b)) → KE_Key e' = KE_Key e → repr l (a ++ e :: b) →
  repr (with_view l (<[KE_Key e := e']> (L_entries l)) (L_order l)) (a ++ e' :: b).
Proof.
  intros Hnd Hk [-> ->]. split; simpl; [by rewrite (keys_update a e e')|].
  by apply entry_map_update.
Qed.

Lemma begin_refines ev dir max key fp kind app l s es r l' s' :
  key ≠ "" → fp ≠ "" → ready ev dir max l →
  file_view s (ledger_path dir) es → entries_ok max es →
  begin_key MarshalEnvelope ev key fp kind app l s = (r, l', s') →
  ∃ es', file_view s' (ledger_path dir) es' ∧ anchored dir max l' ∧
    abs_begin MarshalEnvelope max ev key fp kind app es r es'.
Proof.
  intros Hkey Hfp Hready Hv Hok. unfold begin_key.
  apply String.eqb_neq in Hkey as ->. pose proof (anchor_ready _ _ _ _ Hready) as Ha.
  destruct Hready as (Hd & _ & _).
  destruct (acquireFileLockLocked ev) as [[]|e] eqn:Hlock.
  2: { intros [= <- <- <-]. exists es. split_and!; [done..|].
       apply ab_fault; [by left|].
       unfold acquireFileLockLocked in Hlock. repeat case_match; simplify_eq/=; done. }
  unfold beginLocked.
  destruct (initializeLocked MarshalEnvelope ev (anchorLocked ev l) s) as [[r1 l1] s1] eqn:Hi.
  eapply initialize_view in Hi as (es1 & Hv1 & Hr1 & Ha1 & Hres); [|done..].
  destruct Hres as [[-> Hrep]|(e & -> & He)].
  2: { intros [= <- <- <-]. exists es1. split_and!; [done..|]. by apply ab_fault. }
  pose proof (reloaded_ok _ marshal_nonempty _ _ _ _ Hr1 Hok) as (Hnd & Hok1 & Hlen1).
  pose proof (lookup_view l1 es1 key Hnd Hrep) as Hlook.
  destruct (L_entries l1 !! key) as [old|] eqn:Hk.
  { destruct Hlook as [Hin Hkey']. destruct (KE_Fingerprint old =s fp) eqn:Hf; simpl.
    2: { intros [= <- <- <-]. exists es1. split_and!; [done..|]. bool_prop.
         by eapply ab_conflict. }
    destruct (KE_State old =s entryStateInProgress) eqn:Hst; intros [= <- <- <-];
      exists es1; (split_and!; [done..|]); bool_prop.
    - by apply ab_fault.
    - apply ab_replay; auto. rewrite Forall_forall in Hok1.
      destruct (Hok1 old Hin) as (_ & _ & [?|[? _]]); done. }
  destruct (makeRoomLocked_view MarshalEnvelope ev l1 es1 Hnd Hrep) as (b & es2 & -> & Hroom).
  assert (L_max l1 = max) as Hmax by (by destruct Ha1 as (_ & _ & ? & _)).
  rewrite Hmax in Hroom.
  destruct b; simpl.
  2: { intros [= <- <- <-]. exists es1. split_and!; [done| |by apply ab_fault].
       destruct Ha1 as (?&?&?&?). done. }
  pose proof (room_spec _ _ _ _ _ _ _ Hroom) as (Hsub & _ & Hlen2).
  assert (NoDup (KE_Key <$> es2)) as Hnd2
    by (eapply sublist_NoDup; [exact Hnd|by apply sublist_fmap]).
  assert (key ∉ KE_Key <$> es2) as Hk2.
  { intros Hin. apply Hlook. eapply elem_of_sublist; [done|]. by apply sublist_fmap. }
  pose proof (repr_append _ es2 (new_entry ev key fp kind app) Hk2 Hnd2 (set_view_repr l1 es2)) as Hrep3.
  assert (NoDup (KE_Key <$> (es2 ++ [new_entry ev key fp kind app]))) as Hnd3.
  { rewrite fmap_app. apply NoDup_app. split_and!; [done| |apply NoDup_singleton].
    by intros x Hx ->%list_elem_of_singleton. }
  destruct (persistLocked _ _ _ _) as [r2 s2] eqn:Hp.
  eapply persist_view in Hp; [|exact Hnd3|exact Hrep3].
  assert (L_path l1 = ledger_path dir) as Hpath by (by destruct Ha1 as (_ & ? & _)).
  simpl in Hp. rewrite Hpath in Hp.
  destruct Hp as [[-> Hv2]|(e & -> & He & [Hsame|Hv2])]; intros [= <- <- <-].
  - eexists. split_and!; [done| |by eapply ab_execute].
    destruct Ha1 as (?&?&?&?). done.
  - exists es1. split_and!; [by eapply file_view_same| |by apply ab_fault].
    destruct Ha1 as (?&?&?&?). done.
  - eexists. split_and!; [done| |by eapply ab_unsynced].
    destruct Ha1 as (?&?&?&?). done.
Qed.

Lemma complete_refines ev dir max key op data l s es r l' s' :
  key ≠ "" → data ≠ "" → ready ev dir max l →
  file_view s (ledger_path dir) es → entries_ok max es →
  CompleteKeyData MarshalEnvelope ev key op data l s = (r, l', s') →
  ∃ es', file_view s' (ledger_path dir) es' ∧ anchored dir max l' ∧
    abs_complete MarshalEnvelope ev key op data es r es'.
Proof.
  intros Hkey Hdata Hready Hv Hok. unfold CompleteKeyData, complete.
  apply String.eqb_neq in Hkey as ->. apply String.eqb_neq in Hdata as ->. simpl.
  pose proof (anchor_ready _ _ _ _ Hready) as Ha. destruct Hready as (Hd & _ & _).
  destruct (acquireFileLockLocked ev) as [[]|e] eqn:Hlock.
  2: { intros [= <- <- <-]. exists es. split_and!; [done..|].
       apply ac_refused; [by left|].
       unfold acquireFileLockLocked in Hlock. repeat case_match; simplify_eq/=; done. }
  unfold completeLocked.
  destruct (initializeLocked MarshalEnvelope ev (anchorLocked ev l) s) as [[r1 l1] s1] eqn:Hi.
  eapply initialize_view in Hi as (es1 & Hv1 & Hr1 & Ha1 & Hres); [|done..].
  destruct Hres as [[-> Hrep]|(e & -> & He)].
  2: { intros [= <- <- <-]. exists es1. split_and!; [done..|]. by apply ac_refused. }
  pose proof (reloaded_ok _ marshal_nonempty _ _ _ _ Hr1 Hok) as (Hnd & Hok1 & Hlen1).
  pose proof (lookup_view l1 es1 key Hnd Hrep) as Hlook.
  destruct (L_entries l1 !! key) as [old|] eqn:Hk.
  2: { intros [= <- <- <-]. exists es1. split_and!; [done..|]. by apply ac_refused. }
  destruct (KE_State old =s entryStateInProgress) eqn:Hst; simpl.
  2: { intros [= <- <- <-]. exists es1. split_and!; [done..|]. by apply ac_refused. }
  destruct Hlook as [(a & b & ->)%list_elem_of_split Hkey'].
  pose proof (repr_update l1 a old (completed ev op data old) b Hnd eq_refl Hrep) as Hrep2.
  rewrite Hkey' in Hrep2.
  change ({| KE_Key := KE_Key old |}) with (completed ev op data old).
  destruct (persistLocked _ _ _ _) as [r2 s2] eqn:Hp.
  apply (persist_view _ _ _ _ (a ++ completed ev op data old :: b)) in Hp;
    [|by rewrite (keys_update a old)|exact Hrep2].
  assert (L_path l1 = ledger_path dir) as Hpath by (by destruct Ha1 as (_ & ? & _)).
  simpl in Hp. rewrite Hpath in Hp.
  assert (anchored dir max (with_view l1 (<[key:=completed ev op data old]> (L_entries l1))
    (L_order l1))) as Ha2 by (by destruct Ha1 as (?&?&?&?)).
  destruct Hp as [[-> Hv2]|(e & -> & He & [Hsame|Hv2])]; intros [= <- <- <-].
  - eexists. split_and!; [done|done|eapply ac_done; eauto].
  - eexists. split_and!; [by eapply file_view_same|done|by apply ac_refused].
  - eexists. split_and!; [done|done|eapply ac_done; eauto].
Qed.
End Refinement.

(** ** Histories of calls

    Any number of processes call [begin] and [CompleteKeyData] on one data
    directory, each with its own in-memory ledger, clock, pid and faults; the
    cross-process lock makes each call one step on the shared store. *)

Inductive ledger_call :=
| CallBegin (ev : env) (key fingerprint : string) (r : begin_result)
| CallComplete (ev : env) (key : string) (r : res unit).

Definition call_env (c : ledger_call) : env :=
  match c with CallBegin ev _ _ _ => ev | CallComplete ev _ _ => ev end.

(** The file in [dir] is a well-formed ledger of at most [max] entries. *)
Definition valid_ledger (dir : string) (max : Z) (s : gmap string (content ledgerFileData)) : Prop :=
  ∃ es, file_view s (ledger_path dir) es ∧ entries_ok max es.

Section Histories.
Context (MarshalEnvelope : Envelope → option string).
Local Abbreviation store := (gmap string (content ledgerFileData)).

Inductive ledger_step (dir : string) (max : Z) : store → ledger_call → store → Prop :=
| step_begin ev key fp kind app l s r l' s' :
    key ≠ "" → fp ≠ "" → ready ev dir max l →
    begin_key MarshalEnvelope ev key fp kind app l s = (r, l', s') →
    ledger_step dir max s (CallBegin ev key fp r) s'
| step_complete ev key op data l s r l' s' :
    key ≠ "" → data ≠ "" → ready ev dir max l →
    CompleteKeyData MarshalEnvelope ev key op data l s = (r, l', s') →
    ledger_step dir max s (CallComplete ev key r) s'.

Hypothesis marshal_nonempty : ∀ x s, MarshalEnvelope x = Some s → s ≠ "".

Lemma ledger_step_valid dir max s c s' :
  ledger_step dir max s c s' → valid_ledger dir max s → valid_ledger dir max s'.
Proof.
  intros [?????????? Hk Hf Hr Hb|????????? Hk Hd Hr Hb] (es & Hv & Hok).
  - eapply begin_refines in Hb as (es' & ? & _ & ?); [|eauto..].
    exists es'. eauto using abs_begin_ok.
  - eapply complete_refines in Hb as (es' & ? & _ & ?); [|eauto..].
    exists es'. eauto using abs_complete_ok.
Qed.

(** An entry that no call of a history may touch: its owner is alive and it
    is younger than the abandonment age. *)
Definition protected_in (ev : env) (e : KeyEntry) : Prop :=
  in_progress e = true ∧ pidAlive ev (KE_PID e) = true ∧
  now ev - abandonedInProgressAge < KE_UpdatedAt e.

Lemma in_progress_not_complete e : in_progress e = true → is_complete e = false.
Proof. unfold in_progress, is_complete. by intros ->%String.eqb_eq. Qed.

Lemma reloaded_keeps ev e es es1 :
  protected_in ev e → reloaded MarshalEnvelope ev es es1 → e ∈ es → e ∈ es1.
Proof.
  intros (Hp & Ha & _) [->| ->] Hin; [done|]. unfold close_list.
  apply list_elem_of_fmap. exists e. split; [|done]. unfold orphaned. by rewrite Hp, Ha.
Qed.

Lemma room_keeps ev max e b es es' :
  protected_in ev e → room_in MarshalEnvelope max ev es b es' → e ∈ es → e ∈ es'.
Proof.
  intros (Hp & _ & Hage) (_ & Hkeep & _)%room_spec Hin. apply Hkeep; [done| |].
  - by apply in_progress_not_complete.
  - unfold is_abandoned. apply andb_false_iff. right. apply negb_false_iff. by apply Z.ltb_lt.
Qed.

Lemma same_key_eq max es e e' :
  entries_ok max es → e ∈ es → e' ∈ es → KE_Key e = KE_Key e' → e = e'.
Proof.
  intros (Hnd & _) He He' Hk.
  assert (entry_map es !! KE_Key e = Some e) as H1 by (by apply entry_map_lookup).
  assert (entry_map es !! KE_Key e = Some e') as H2 by (by apply entry_map_lookup).
  congruence.
Qed.

Lemma abs_begin_keeps max ev key fp kind app es r es' e :
  entries_ok max es → protected_in ev e → e ∈ es →
  abs_begin MarshalEnvelope max ev key fp kind app es r es' →
  e ∈ es' ∧ (key = KE_Key e → is_ok r = false).
Proof.
  intros Hok Hp Hin Hstep.
  assert (∀ es1, reloaded MarshalEnvelope ev es es1 → e ∈ es1) as Hr
    by eauto using reloaded_keeps.
  assert (∀ es1, reloaded MarshalEnvelope ev es es1 → key ∉ KE_Key <$> es1 → key = KE_Key e → False)
    as Hnk by (intros es1 Hr1 Hk ->; apply Hk, list_elem_of_fmap_2; auto).
  destruct Hstep as [| |old es1 Hr1 Hold Hk Hf Hst|es1 es2 Hr1 Hk Hroom|x es1 es2 Hr1 Hk Hroom Hx];
    simpl; auto.
  - split; [auto|]. intros ->. exfalso. pose proof Hp as (Hpr & _).
    rewrite (same_key_eq max es1 e old) in Hpr; eauto using reloaded_ok.
    apply in_progress_not_complete in Hpr. unfold is_complete in Hpr. by rewrite Hst in Hpr.
  - split; [apply elem_of_app; left; eauto using room_keeps|]. intros ?. exfalso. eauto.
  - split; [apply elem_of_app; left; eauto using room_keeps|]. done.
Qed.

Lemma abs_complete_keeps ev key op data es r es' e :
  protected_in ev e → e ∈ es → key ≠ KE_Key e →
  abs_complete MarshalEnvelope ev key op data es r es' → e ∈ es'.
Proof.
  intros Hp Hin Hk Hstep. destruct Hstep as [x es1 Hr _|r a e0 b Hr Hk0 Hp0 _];
    pose proof (reloaded_keeps _ _ _ _ Hp Hr Hin) as Hin'; [done|].
  apply elem_of_app in Hin' as [?|[->|?]%elem_of_cons]; [set_solver|congruence|set_solver].
Qed.

(** What the environment grants a running execution of [e] during a call. *)
Definition undisturbed (e : KeyEntry) (c : ledger_call) : Prop :=
  protected_in (call_env c) e ∧
  match c with CallComplete _ key _ => key ≠ KE_Key e | _ => True end.

Definition refused (key : string) (c : ledger_call) : Prop :=
  match c with CallBegin _ key' _ r => key' = key → is_ok r = false | _ => True end.

Lemma ledger_step_keeps dir max s c s' es e :
  file_view s (ledger_path dir) es → entries_ok max es → e ∈ es → undisturbed e c →
  ledger_step dir max s c s' →
  refused (KE_Key e) c ∧
  ∃ es', file_view s' (ledger_path dir) es' ∧ entries_ok max es' ∧ e ∈ es'.
Proof.
  intros Hv Hok Hin Hun Hstep. revert Hv Hun.
  destruct Hstep as [?????????? Hk Hf Hr Hb|????????? Hk Hd Hr Hb];
    intros Hv [Hp Hother]; simpl in *.
  - eapply begin_refines in Hb as (es' & ? & _ & Habs); [|eauto..].
    destruct (abs_begin_keeps _ _ _ _ _ _ _ _ _ e Hok Hp Hin Habs) as [??].
    split; [done|]. exists es'. eauto using abs_begin_ok.
  - eapply complete_refines in Hb as (es' & ? & _ & Habs); [|eauto..].
    split; [done|]. exists es'. split_and!; eauto using abs_complete_ok, abs_complete_keeps.
Qed.

Lemma ledger_history_keeps dir max e s ls s' :
  steps (ledger_step dir max) s ls s' → Forall (undisturbed e) ls →
  ∀ es, file_view s (ledger_path dir) es → entries_ok max es → e ∈ es →
  Forall (refused (KE_Key e)) ls ∧
  ∃ es', file_view s' (ledger_path dir) es' ∧ entries_ok max es' ∧ e ∈ es'.
Proof.
  induction 1 as [s|s c s1 ls s2 Hstep _ IH]; intros Hun es Hv Hok Hin.
  { split; [done|]. by exists es. }
  apply Forall_cons in Hun as [Hc Hun].
  destruct (ledger_step_keeps _ _ _ _ _ _ _ Hv Hok Hin Hc Hstep) as (Hr & es' & Hv' & Hok' & Hin').
  destruct (IH Hun es' Hv' Hok' Hin') as (? & ?). split; [by apply Forall_cons|done].
Qed.
End Histories.

(** ** Theorems *)

(** A host that does not fail. *)
Definition quiet (ev : env) (dir : string) : Prop :=
  data_dir ev = dir ∧ lock_faults ev = no_faults ∧ load_faults ev = no_faults ∧
  close_faults ev = no_faults ∧ persist_faults ev = no_faults.

Section Theorems.
Context (MarshalEnvelope : Envelope → option string).
Hypothesis marshal_nonempty : ∀ x s, MarshalEnvelope x = Some s → s ≠ "".
Local Abbreviation store := (gmap string (content ledgerFileData)).

Lemma initialize_quiet ev dir max l s es :
  quiet ev dir → anchored dir max l →
  file_view s (ledger_path dir) es → entries_ok max es →
  s !! tmp_path (ledger_path dir) (pid ev) = None →
  ∃ l' s' es', initializeLocked MarshalEnvelope ev l s = (Ok tt, l', s') ∧
    reloaded MarshalEnvelope ev es es' ∧ repr l' es'.
Proof.
  intros (Hd & _ & Hload & Hclose & _) Ha Hv Hok Htmp. unfold initializeLocked.
  destruct (anchor_again ev dir max l Hd Ha) as [lock ->].
  set (l1 := {| L_dir := dir; L_path := ledger_path dir |}). cbn [L_corrupt l1].
  rewrite (loadLocked_view ev l1 s es) by (done || by rewrite Hload).
  destruct (negb (L_loaded l1)).
  2: { do 3 eexists. split_and!; [done|by left|done]. }
  unfold closeOrphanedInProgressLocked. simpl.
  rewrite (close_orphans_prefix _ marshal_nonempty ev [] es) by (done || by destruct Hok).
  simpl. assert (∀ l0, with_view l0 (entry_map (close_list MarshalEnvelope ev es)) (KE_Key <$> es) =
    set_view l0 (close_list MarshalEnvelope ev es)) as Heq
    by (intros l0; unfold set_view; by rewrite close_list_keys).
  rewrite Heq. destruct (existsb (orphaned ev) es) eqn:Hex.
  - rewrite Hclose.
    destruct (persist_no_faults ev (set_view (set_view l1 es) (close_list MarshalEnvelope ev es)) s
      (close_list MarshalEnvelope ev es)) as (s' & Hp & Hv');
      [rewrite close_list_keys; by destruct Hok|done|done|].
    rewrite Hp. do 3 eexists. split_and!; [done|by right|done].
  - do 3 eexists. split_and!; [done|by right|done].
Qed.

(** Whatever fails and however calls of different processes interleave,
    the ledger file always decodes to a well-formed ledger within capacity:
    unique keys, no half-written entry, no completed entry without a result. *)
Theorem ledger_file_stays_valid dir max s ls s' :
  steps (ledger_step MarshalEnvelope dir max) s ls s' →
  valid_ledger dir max s → valid_ledger dir max s'.
Proof.
  apply (steps_invariant (ledger_step MarshalEnvelope dir max) (valid_ledger dir max)).
  intros s1 c s2 Hstep. by eapply ledger_step_valid.
Qed.

(** C9: at most once.  Once [begin] has answered [BeginExecute] for a key, no
    call of any process answers anything but an error for that key while the
    owner is alive, the entry is younger than the abandonment age and the
    owner has not completed it; and the entry is still there to be completed. *)
Theorem running_key_is_not_begun_again dir max ev key fp kind app l s e l' s1 ls s2 :
  valid_ledger dir max s → ready ev dir max l → key ≠ "" → fp ≠ "" →
  begin_key MarshalEnvelope ev key fp kind app l s = (Ok (BeginExecute, e), l', s1) →
  steps (ledger_step MarshalEnvelope dir max) s1 ls s2 →
  Forall (undisturbed e) ls →
  KE_Key e = key ∧ Forall (refused key) ls ∧
  ∃ es, file_view s2 (ledger_path dir) es ∧ entries_ok max es ∧ e ∈ es.
Proof.
  intros (es & Hv & Hok) Hready Hk Hf Hb Hls Hun.
  eapply begin_refines in Hb as (es1 & Hv1 & _ & Habs); [|eauto..].
  pose proof (abs_begin_ok _ marshal_nonempty _ _ _ _ _ _ _ _ _ Hk Hf Hok Habs) as Hok1.
  inversion Habs; subst. split; [done|].
  apply (ledger_history_keeps MarshalEnvelope marshal_nonempty dir max (new_entry ev key fp kind app)
    s1 ls s2) with (es := es2 ++ [new_entry ev key fp kind app]); auto. set_solver.
Qed.

(** Once a key is completed, a request with the same fingerprint is
    answered with the exact recorded bytes, and one with another fingerprint
    is refused as a conflict. *)
Theorem completed_key_replays dir max ev key op data l s es e l1 s1 ev2 l2 fp kind app :
  file_view s (ledger_path dir) es → entries_ok max es → e ∈ es → KE_Key e = key →
  data ≠ "" → ready ev dir max l →
  CompleteKeyData MarshalEnvelope ev key op data l s = (Ok tt, l1, s1) →
  quiet ev2 dir → ready ev2 dir max l2 →
  s1 !! tmp_path (ledger_path dir) (pid ev2) = None →
  let '(r, _, _) := begin_key MarshalEnvelope ev2 key fp kind app l2 s1 in
  if fp =s KE_Fingerprint e
  then ∃ old, r = Ok (BeginReplay, old) ∧ KE_Result old = data ∧ KE_OperationID old = op
  else ∃ x, r = Err x ∧ CodeOf (Some x) = CodeIdempotencyConflict.
Proof.
  intros Hv Hok Hin Hkey Hdata Hready Hc Hq Hready2 Htmp.
  assert (key ≠ "") as Hk.
  { subst key. destruct Hok as (_ & Hall & _). rewrite Forall_forall in Hall. by apply Hall. }
  eapply complete_refines in Hc as (es1 & Hv1 & _ & Habs); [|eauto..].
  pose proof (abs_complete_ok _ marshal_nonempty _ _ _ _ _ _ _ _ Hdata Hok Habs) as Hok1.
  inversion Habs as [|r0 a e0 b Hr Hk0 Hp0 Hres]; subst r0 es1.
  assert (KE_Fingerprint e0 = KE_Fingerprint e) as Hfp.
  { pose proof (reloaded_ok _ marshal_nonempty _ _ _ _ Hr Hok) as Hok2.
    destruct Hr as [Heq|Heq].
    - f_equal. eapply same_key_eq; [exact Hok|rewrite <- Heq; set_solver|done|congruence].
    - assert (∃ e', e' ∈ a ++ e0 :: b ∧ KE_Key e' = KE_Key e ∧ KE_Fingerprint e' = KE_Fingerprint e)
        as (e' & Hin' & Hk' & <-).
      { rewrite Heq. eexists. split; [by apply list_elem_of_fmap_2|]. simpl.
        by destruct (orphaned ev e). }
      f_equal. eapply same_key_eq; [exact Hok2|set_solver|done|congruence]. }
  unfold begin_key. apply String.eqb_neq in Hk as ->.
  pose proof (anchor_ready _ _ _ _ Hready2) as Ha.
  assert (acquireFileLockLocked ev2 = Ok tt) as ->.
  { unfold acquireFileLockLocked. by destruct Hq as (_ & -> & _). }
  unfold beginLocked.
  destruct (initialize_quiet ev2 dir max (anchorLocked ev2 l2) s1 _ Hq Ha Hv1 Hok1 Htmp)
    as (l3 & s3 & es3 & -> & Hr3 & Hrep3).
  assert (completed ev op data e0 ∈ es3) as Hin3.
  { destruct Hr3 as [->| ->]; [set_solver|]. apply list_elem_of_fmap.
    eexists. split; [|apply elem_of_app; right; left]. done. }
  pose proof (reloaded_ok _ marshal_nonempty _ _ _ _ Hr3 Hok1) as (Hnd3 & _).
  destruct Hrep3 as [_ ->].
  rewrite (proj2 (entry_map_lookup es3 key (completed ev op data e0) Hnd3)) by done.
  simpl. rewrite Hfp. rewrite String.eqb_sym. destruct (fp =s KE_Fingerprint e); simpl.
  - eexists. split_and!; [done|done|done].
  - eexists. by split.
Qed.

(** Making room drops only completed entries and in-progress entries past
    the abandonment age, keeps the others in order, and stops: either a slot
    is free, or every entry is a fresh operation in progress. *)
Theorem make_room_keeps_live_operations ev l es :
  NoDup (KE_Key <$> es) → repr l es → Forall entry_ok es →
  ∃ b es', makeRoomLocked MarshalEnvelope ev l = (b, set_view l es') ∧
    es' `sublist_of` es ∧
    (∀ e, e ∈ es → in_progress e = true →
      now ev - abandonedInProgressAge < KE_UpdatedAt e → e ∈ es') ∧
    (b = true → len es' < L_max l) ∧
    (b = false → L_max l ≤ len es' ∧
       Forall (λ e, in_progress e = true ∧
                    now ev - abandonedInProgressAge < KE_UpdatedAt e) es').
Proof.
  intros Hnd Hr Hok.
  destruct (makeRoomLocked_view MarshalEnvelope ev l es Hnd Hr) as (b & es' & Heq & Hroom).
  exists b, es'. pose proof Hroom as (Hsub & Hkeep & Hb)%room_spec. split_and!; auto.
  - intros e He Hp Hage. apply Hkeep; [done|by apply in_progress_not_complete|].
    unfold is_abandoned. apply andb_false_iff. right. apply negb_false_iff. by apply Z.ltb_lt.
  - by intros ->.
  - intros ->. destruct Hb as [Hlen Hall]. split; [done|].
    rewrite Forall_forall in Hall |- *. rewrite Forall_forall in Hok.
    intros e He. destruct (Hall e He) as [Hc Ha].
    destruct (Hok e) as (_ & _ & Hst); [by eapply elem_of_sublist|].
    unfold is_complete, is_abandoned, in_progress in *. bool_prop.
    destruct Hst as [Hst|[Hst _]]; [|done]. rewrite Hst in *. split; [done|].
    simpl in Ha. bool_prop. done.
Qed.
End Theorems.

(** A document that is not a well-formed ledger, once trimmed to capacity. *)
Definition malformed (max : Z) (c : content ledgerFileData) : Prop :=
  match c with
  | Garbage => True
  | Data d =>
      LF_Version d ≠ ledgerVersion ∨
      ¬ ∃ es, drop (length (LF_Entries d) - Z.to_nat max) (LF_Entries d) = Some <$> es ∧
              NoDup (KE_Key <$> es) ∧ Forall entry_ok es
  end.

Section FailClosed.
Context (MarshalEnvelope : Envelope → option string).
Local Abbreviation store := (gmap string (content ledgerFileData)).

(** The validation loop accepts only well-formed lists, and poisons the rest. *)
Lemma load_entries_Ok es l l' :
  load_entries es l = (Ok tt, l') →
  ∃ es', es = Some <$> es' ∧ Forall entry_ok es' ∧ NoDup (KE_Key <$> es') ∧
         ∀ e, e ∈ es' → L_entries l !! KE_Key e = None.
Proof.
  revert l. induction es as [|[e|] es IH]; intros l; simpl; [| |done].
  - intros _. exists []. split_and!; auto using NoDup_nil_2. intros ? Hin. inversion Hin.
  - destruct (_ || _ || _)%bool eqn:Hinv; [done|].
    destruct ((KE_State e =s entryStateComplete) && _)%bool eqn:Hres; [done|].
    destruct (L_entries l !! KE_Key e) eqn:Hlk; [done|].
    intros (es' & -> & Hall & Hnd & Hnew)%IH. simpl in Hnew.
    exists (e :: es'). split_and!; [done| | |].
    + apply Forall_cons. split; [|done]. apply orb_false_iff in Hinv as [Hkf Hst].
      apply andb_false_iff in Hst, Hres. bool_prop. split_and!; auto.
      destruct Hst; bool_prop; [by left|right]. split; [done|].
      destruct Hres; bool_prop; congruence.
    + rewrite fmap_cons. apply NoDup_cons. split; [|done].
      intros (e' & Heq & He')%list_elem_of_fmap. specialize (Hnew _ He').
      rewrite <- Heq in Hnew. by simplify_map_eq.
    + intros e' [->|He']%elem_of_cons; [done|]. specialize (Hnew _ He').
      by apply lookup_insert_None in Hnew as [? _].
Qed.

Lemma load_entries_Err es l e l' :
  load_entries es l = (Err e, l') → L_corrupt l' = Some e ∧ L_dir l' = L_dir l.
Proof.
  revert l. induction es as [|[x|] es IH]; intros l; simpl; [done|split_match|];
    try (intros [= <- <-]; done).
  intros Hl. by apply IH in Hl.
Qed.

(** A poisoned ledger refuses every call and never touches the file. *)
Lemma poisoned_refuses ev l s e :
  L_corrupt l = Some e → data_dir ev = L_dir l →
  (∀ key fp kind app, key ≠ "" → ∃ x l',
     begin_key MarshalEnvelope ev key fp kind app l s = (Err x, l', s) ∧
     L_corrupt l' = Some e ∧ L_dir l' = L_dir l) ∧
  (∀ key op data, key ≠ "" → data ≠ "" → ∃ x l',
     CompleteKeyData MarshalEnvelope ev key op data l s = (Err x, l', s) ∧
     L_corrupt l' = Some e ∧ L_dir l' = L_dir l).
Proof.
  intros Hc Hd.
  unfold begin_key, CompleteKeyData, complete, beginLocked, completeLocked, initializeLocked,
    anchorLocked. rewrite Hd, String.eqb_refl. simpl. rewrite String.eqb_refl. simpl. rewrite Hc.
  split; intros ???.
  - intros ? ->%String.eqb_neq. destruct (acquireFileLockLocked ev); by do 2 eexists.
  - intros ->%String.eqb_neq ->%String.eqb_neq. simpl.
    destruct (acquireFileLockLocked ev); by do 2 eexists.
Qed.

(** A structurally corrupt ledger fails closed: [begin] refuses without
    executing and without touching the file, and from then on this process
    refuses every keyed call on that directory, whatever the file holds. *)
Theorem corrupt_ledger_fails_closed ev dir max l s c key fp kind app :
  0 ≤ max → key ≠ "" → ready ev dir max l → lock_faults ev = no_faults →
  load_faults ev = no_faults →
  s !! ledger_path dir = Some c → malformed max c →
  ∃ e l', begin_key MarshalEnvelope ev key fp kind app l s = (Err e, l', s) ∧
    ∀ ev2 s2 key2, data_dir ev2 = dir → key2 ≠ "" →
      (∀ fp2 kind2 app2, ∃ x l'',
         begin_key MarshalEnvelope ev2 key2 fp2 kind2 app2 l' s2 = (Err x, l'', s2)) ∧
      (∀ op data, data ≠ "" → ∃ x l'',
         CompleteKeyData MarshalEnvelope ev2 key2 op data l' s2 = (Err x, l'', s2)).
Proof.
  intros Hmax Hk Hready Hlock Hload Hs Hbad.
  assert (∀ e l', initializeLocked MarshalEnvelope ev (anchorLocked ev l) s = (Err e, l', s) →
    L_corrupt l' = Some e → L_dir l' = dir →
    ∃ e l', begin_key MarshalEnvelope ev key fp kind app l s = (Err e, l', s) ∧
      ∀ ev2 s2 key2, data_dir ev2 = dir → key2 ≠ "" →
        (∀ fp2 kind2 app2, ∃ x l'',
           begin_key MarshalEnvelope ev2 key2 fp2 kind2 app2 l' s2 = (Err x, l'', s2)) ∧
        (∀ op data, data ≠ "" → ∃ x l'',
           CompleteKeyData MarshalEnvelope ev2 key2 op data l' s2 = (Err x, l'', s2))) as Hgo.
  { intros e l' Hi Hc Hdir. exists e, l'. unfold begin_key at 1.
    apply String.eqb_neq in Hk as ->.
    unfold acquireFileLockLocked, beginLocked. rewrite Hlock. simpl. rewrite Hi.
    split; [done|]. intros ev2 s2 key2 Hd2 Hk2. rewrite <- Hdir in Hd2.
    destruct (poisoned_refuses ev2 l' s2 e Hc Hd2) as [Hb Hcm]. split.
    - intros fp2 kind2 app2. destruct (Hb key2 fp2 kind2 app2 Hk2) as (x & l'' & ? & _). eauto.
    - intros op data Hdata. destruct (Hcm key2 op data Hk2 Hdata) as (x & l'' & ? & _). eauto. }
  pose proof (anchor_ready _ _ _ _ Hready) as Ha. destruct Hready as (Hd & _ & _).
  unfold initializeLocked in Hgo.
  destruct (anchor_again ev dir max _ Hd Ha) as [lock Heq]. rewrite Heq in Hgo.
  unfold loadLocked in Hgo. simpl in Hgo. rewrite Hs, Hload in Hgo. simpl in Hgo.
  destruct c as [|d]; simpl in Hbad; [by eapply Hgo|].
  destruct (LF_Version d =? ledgerVersion) eqn:Hver; simpl in Hgo; [|by eapply Hgo].
  bool_prop. destruct Hbad as [?|Hbad]; [done|].
  assert ((if max <? len (LF_Entries d)
           then drop (length (LF_Entries d) - Z.to_nat max) (LF_Entries d)
           else LF_Entries d) =
          drop (length (LF_Entries d) - Z.to_nat max) (LF_Entries d)) as Hdrop.
  { destruct (max <? _) eqn:E; [done|]. bool_prop. unfold len in E.
    by replace (length _ - _)%nat with 0%nat by lia. }
  rewrite Hdrop in Hgo.
  destruct (load_entries _ _) as [[[]|e] l'] eqn:Hle.
  - destruct Hbad. apply load_entries_Ok in Hle as (es & -> & ? & ? & _). eauto.
  - apply load_entries_Err in Hle as [Hc Hdir]. by eapply Hgo.
Qed.
End FailClosed.

(** ** Sample runs *)

Module Ledgers.
Definition marshal (e : Envelope) : option string := Some (Env_Status e +:+ ":" +:+ Env_OperationID e).

Definition host (t p : Z) (live : list Z) : env :=
  {| now := t; pid := p; alive := λ q, existsb (Z.eqb q) live; data_dir := "/data";
     lock_faults := no_faults; load_faults := no_faults; close_faults := no_faults;
     persist_faults := no_faults |}.

(** A host on which the directory sync of the last write fails. *)
Definition unsynced (t p : Z) : env :=
  {| now := t; pid := p; alive := λ _, true; data_dir := "/data";
     lock_faults := no_faults; load_faults := no_faults; close_faults := no_faults;
     persist_faults := fault_at op_sync_dir |}.

Definition small (n : Z) : Ledger :=
  {| L_dir := ""; L_path := ""; L_lockPath := ""; L_max := n; L_entries := ∅; L_order := [];
     L_loaded := false; L_corrupt := None |}.

Definition entry (t p : Z) (k fp : string) : KeyEntry := new_entry (host t p []) k fp "deploy" "api".

Definition disk1 : gmap string (content ledgerFileData) :=
  {[ ledger_path "/data" := to_disk [entry 1000 7 "k1" "f1"] ]}.

Lemma marshal_nonempty x s : marshal x = Some s → s ≠ "".
Proof. unfold marshal. intros [= <-]. by destruct (Env_Status x). Qed.

Definition result_of {A B C} (x : A * B * C) : A := x.1.1.
Definition ledger_of {A B C} (x : A * B * C) : B := x.1.2.
Definition store_of {A B C} (x : A * B * C) : C := x.2.

Lemma split_call {A B C} (x : A * B * C) r :
  result_of x = r → x = (r, ledger_of x, store_of x).
Proof. destruct x as [[??]?]. by intros <-. Qed.

Definition begin1 := begin_key marshal (host 1000 7 [7]) "k1" "f1" "deploy" "api" (small 2) ∅.
Definition begin_again s := begin_key marshal (host 2000 8 [7; 8]) "k1" "f1" "deploy" "api" (small 2) s.
Definition complete1 :=
  CompleteKeyData marshal (host 3000 7 [7]) "k1" "op-1" "done" (small 2) disk1.

Lemma ready_small t p live n : ready (host t p live) "/data" n (small n).
Proof. done. Qed.

Example a_second_begin_is_refused :
  is_ok (result_of begin1) = true ∧ is_ok (result_of (begin_again (store_of begin1))) = false.
Proof. by vm_compute. Qed.

(** The directory sync fails after the rename: [begin] reports an error and
    rolls its memory back, but the entry is on disk, and every retry of the
    same key is told that it is in progress. *)
Example unsynced_begin_leaves_its_entry :
  let x := begin_key marshal (unsynced 1000 7) "k1" "f1" "deploy" "api" (small 2) ∅ in
  is_ok (result_of x) = false ∧ L_order (ledger_of x) = [] ∧
  store_of x !! ledger_path "/data" = Some (to_disk [entry 1000 7 "k1" "f1"]) ∧
  is_ok (result_of (begin_again (store_of x))) = false.
Proof. by vm_compute. Qed.

Definition late := 2 * abandonedInProgressAge.

(** A full ledger reclaims an abandoned entry and evicts it in the same loop:
    the indeterminate result never reaches the disk, and the abandoned key
    executes again. *)
Example reclaimed_key_executes_again :
  let x := begin_key marshal (host late 8 [7; 8]) "k2" "f2" "deploy" "api" (small 1) disk1 in
  let y := CompleteKeyData marshal (host late 8 [7; 8]) "k2" "op-2" "done" (ledger_of x) (store_of x) in
  let z := begin_key marshal (host late 9 [7; 8; 9]) "k1" "f1" "deploy" "api" (small 1) (store_of y) in
  (prod_map id KE_Key) <$> result_of z = Ok (BeginExecute, "k1").
Proof. by vm_compute. Qed.
End Ledgers.

Lemma ledger_file_stays_valid_witness :
  valid_ledger "/data" 2 (Ledgers.store_of Ledgers.begin1).
Proof.
  refine (ledger_file_stays_valid Ledgers.marshal Ledgers.marshal_nonempty "/data" 2 ∅
    [CallBegin (Ledgers.host 1000 7 [7]) "k1" "f1" (Ledgers.result_of Ledgers.begin1)] _ _ _).
  - eapply steps_cons; [|apply steps_nil].
    eapply (step_begin _ _ _ _ _ _ "deploy" "api" (Ledgers.small 2));
      [done|done|apply Ledgers.ready_small|by apply Ledgers.split_call].
  - exists []. split; [by left|]. split_and!; [apply NoDup_nil_2|done|done].
Defined.

Lemma running_key_is_not_begun_again_witness :
  Forall (refused "k1")
    [CallBegin (Ledgers.host 2000 8 [7; 8]) "k1" "f1"
       (Ledgers.result_of (Ledgers.begin_again (Ledgers.store_of Ledgers.begin1)))].
Proof.
  refine (proj1 (proj2 (running_key_is_not_begun_again Ledgers.marshal Ledgers.marshal_nonempty
    "/data" 2 (Ledgers.host 1000 7 [7]) "k1" "f1" "deploy" "api" (Ledgers.small 2) ∅
    (Ledgers.entry 1000 7 "k1" "f1") (Ledgers.ledger_of Ledgers.begin1)
    (Ledgers.store_of Ledgers.begin1) _
    (Ledgers.store_of (Ledgers.begin_again (Ledgers.store_of Ledgers.begin1)))
    _ (Ledgers.ready_small _ _ _ _) _ _ _ _ _))).
  - exists []. split; [by left|]. split_and!; [apply NoDup_nil_2|done|done].
  - done.
  - done.
  - apply Ledgers.split_call. by vm_compute.
  - eapply steps_cons; [|apply steps_nil].
    eapply (step_begin _ _ _ _ _ _ "deploy" "api" (Ledgers.small 2));
      [done|done|apply Ledgers.ready_small|by apply Ledgers.split_call].
  - apply Forall_singleton. by split_and!.
Defined.

Lemma completed_key_replays_witness :
  let '(r, _, _) := begin_key Ledgers.marshal (Ledgers.host 4000 9 [7; 9]) "k1" "f1" "deploy" "api"
    (Ledgers.small 2) (Ledgers.store_of Ledgers.complete1) in
  ∃ old, r = Ok (BeginReplay, old) ∧ KE_Result old = "done" ∧ KE_OperationID old = "op-1".
Proof.
  refine (completed_key_replays Ledgers.marshal Ledgers.marshal_nonempty "/data" 2
    (Ledgers.host 3000 7 [7]) "k1" "op-1" "done" (Ledgers.small 2) Ledgers.disk1
    [Ledgers.entry 1000 7 "k1" "f1"] (Ledgers.entry 1000 7 "k1" "f1")
    (Ledgers.ledger_of Ledgers.complete1) (Ledgers.store_of Ledgers.complete1)
    (Ledgers.host 4000 9 [7; 9]) (Ledgers.small 2) "f1" "deploy" "api" _ _ _ _ _
    (Ledgers.ready_small _ _ _ _) _ _ (Ledgers.ready_small _ _ _ _) _).
  - by right.
  - split_and!; [apply NoDup_singleton| |done]. apply Forall_singleton. split_and!; auto; by left.
  - by left.
  - done.
  - done.
  - apply Ledgers.split_call. by vm_compute.
  - done.
  - by vm_compute.
Defined.

Lemma make_room_keeps_live_operations_witness :
  ∃ b es', makeRoomLocked Ledgers.marshal (Ledgers.host 2000 8 [])
             (set_view (Ledgers.small 1) [Ledgers.entry 1000 7 "k1" "f1"]) =
           (b, set_view (set_view (Ledgers.small 1) [Ledgers.entry 1000 7 "k1" "f1"]) es') ∧
    es' `sublist_of` [Ledgers.entry 1000 7 "k1" "f1"].
Proof.
  destruct (make_room_keeps_live_operations Ledgers.marshal (Ledgers.host 2000 8 [])
    (set_view (Ledgers.small 1) [Ledgers.entry 1000 7 "k1" "f1"])
    [Ledgers.entry 1000 7 "k1" "f1"]) as (b & es' & Heq & Hsub & _).
  - apply NoDup_singleton.
  - done.
  - apply Forall_singleton. split_and!; [done|done|by left].
  - exists b, es'. by split.
Defined.

Lemma corrupt_ledger_fails_closed_witness :
  ∃ e l', begin_key Ledgers.marshal (Ledgers.host 1000 7 []) "k1" "f1" "deploy" "api"
    (Ledgers.small 2) {[ ledger_path "/data" := Garbage ]} =
    (Err e, l', {[ ledger_path "/data" := Garbage ]}).
Proof.
  destruct (corrupt_ledger_fails_closed Ledgers.marshal (Ledgers.host 1000 7 []) "/data" 2
    (Ledgers.small 2) {[ ledger_path "/data" := Garbage ]} Garbage "k1" "f1" "deploy" "api")
    as (e & l' & Heq & _); [done..|].
  exists e, l'. exact Heq.
Defined.
