(* ===== verification/OpRecord.v ===== *)
(** * OpRecord: durable operation records (src/internal/ops/record.go)

    One record per mutation: its lifecycle, its store (atomic replacement), the
    newest-first listing and the retention sweep.  The store is the directory
    [ops/], keyed by file name; the request-key ledger lives in the same
    directory and, read as a record, has no id. *)

From S2P Require Import Prelude GoLib Errors Machine FileStore Retention.

(* src: internal/ops/record.go SchemaVersion *)
Definition SchemaVersion := "1".
(* src: internal/ops/record.go KindRebuild *)
Definition KindRebuild := "rebuild".
(* src: internal/ops/record.go KindRollback *)
Definition KindRollback := "rollback".
(* src: internal/ops/record.go KindBuild *)
Definition KindBuild := "build".
(* src: internal/ops/record.go KindScale *)
Definition KindScale := "scale".
(* src: internal/ops/record.go IDPrefix *)
Definition IDPrefix := "op_".
(* src: internal/ops/record.go idPattern *)
Definition idPattern : re := id_pattern "op_".
(* src: internal/ops/record.go DefaultOpRetention *)
Definition DefaultOpRetention : Z := 200.

(* src: internal/ops/record.go Result *)
Record Result := mkResult {
  Res_Version : Z;
  Res_Port : Z;
  Res_Strategy : string;
  Res_FromVersion : Z;
  Res_Verification : string
}.

(* src: internal/ops/record.go RecordError *)
Record RecordError := mkRecordError {
  RE_Code : string;
  RE_Message : string
}.

(* src: internal/ops/record.go Record *)
Record OpRecord := mkOpRecord {
  R_SchemaVersion : string;
  R_ID : string;
  R_Kind : string;
  R_App : string;
  R_Status : string;
  R_RequestKey : string;
  R_Actor : option Actor;
  R_DeploymentID : string;
  R_PlanID : string;
  R_PlanHash : string;
  R_AuthzDecisionID : string;
  R_ApprovalID : string;
  R_PID : Z;
  R_CreatedAt : Z;
  R_UpdatedAt : Z;
  R_FinishedAt : Z;
  R_Result : option Result;
  R_Error : option RecordError
}.

(** The decoding of a JSON object that has no field of a record. *)
Definition zero_record : OpRecord :=
  {| R_SchemaVersion := ""; R_ID := ""; R_Kind := ""; R_App := ""; R_Status := "";
     R_RequestKey := ""; R_Actor := None; R_DeploymentID := ""; R_PlanID := "";
     R_PlanHash := ""; R_AuthzDecisionID := ""; R_ApprovalID := ""; R_PID := 0;
     R_CreatedAt := 0; R_UpdatedAt := 0; R_FinishedAt := 0; R_Result := None;
     R_Error := None |}.

(** [op_store]: the files of [Dir()]. *)
Abbreviation op_store := (gmap string (content OpRecord)).

(* src: internal/ops/record.go NewID *)
Definition NewID (rnd : res (list Byte.byte)) : res string :=
  match rnd with
  | Err e => Err (wrap CodeFilesystem "generate operation id" e)
  | Ok buf => Ok (IDPrefix +:+ hex_encode buf)
  end.

Definition set_schema (r : OpRecord) : OpRecord :=
  {| R_SchemaVersion := SchemaVersion; R_ID := R_ID r; R_Kind := R_Kind r; R_App := R_App r;
     R_Status := R_Status r; R_RequestKey := R_RequestKey r; R_Actor := R_Actor r;
     R_DeploymentID := R_DeploymentID r; R_PlanID := R_PlanID r; R_PlanHash := R_PlanHash r;
     R_AuthzDecisionID := R_AuthzDecisionID r; R_ApprovalID := R_ApprovalID r;
     R_PID := R_PID r; R_CreatedAt := R_CreatedAt r; R_UpdatedAt := R_UpdatedAt r;
     R_FinishedAt := R_FinishedAt r; R_Result := R_Result r; R_Error := R_Error r |}.

(** The saved record carries the current schema version. *)
(* src: internal/ops/record.go Save *)
Definition Save (fl : faults) (pid : Z) (r : OpRecord) (s : op_store) : res unit * op_store :=
  let r := set_schema r in
  match fl op_mkdir with
  | Some t => (Err (wrap CodeFilesystem "create operation record directory" (os_err (ErrIO t))), s)
  | None =>
      let path := json_file (R_ID r) in
      run_prog fl (replace_prog CodeFilesystem "operation record" "operation record"
                     (tmp_path path pid) path r) s
  end.

(* src: internal/ops/record.go Begin *)
Definition Begin (fl : faults) (rnd : res (list Byte.byte)) (now pid : Z)
    (kind app requestKey : string) (s : op_store) : res OpRecord * op_store :=
  match NewID rnd with
  | Err e => (Err e, s)
  | Ok id =>
      let rec :=
        {| R_SchemaVersion := SchemaVersion; R_ID := id; R_Kind := kind; R_App := app;
           R_Status := StatusPending; R_RequestKey := requestKey; R_Actor := Some CLIActor;
           R_DeploymentID := ""; R_PlanID := ""; R_PlanHash := ""; R_AuthzDecisionID := "";
           R_ApprovalID := ""; R_PID := pid; R_CreatedAt := now; R_UpdatedAt := now;
           R_FinishedAt := 0; R_Result := None; R_Error := None |} in
      match Save fl pid rec s with
      | (Ok _, s') => (Ok rec, s')
      | (Err e, s') => (Err e, s')
      end
  end.

Definition is_terminal (status : string) : bool :=
  one_of status [StatusSucceeded; StatusFailed; StatusCancelled].

(** The record after a transition at time [now], whether or not it was saved. *)
(* src: internal/ops/record.go:173-179 Record.transition *)
Definition transitioned (now : Z) (status : string) (res : option Result)
    (re : option RecordError) (r : OpRecord) : OpRecord :=
  {| R_SchemaVersion := R_SchemaVersion r; R_ID := R_ID r; R_Kind := R_Kind r;
     R_App := R_App r; R_Status := status; R_RequestKey := R_RequestKey r;
     R_Actor := R_Actor r; R_DeploymentID := R_DeploymentID r; R_PlanID := R_PlanID r;
     R_PlanHash := R_PlanHash r; R_AuthzDecisionID := R_AuthzDecisionID r;
     R_ApprovalID := R_ApprovalID r; R_PID := R_PID r; R_CreatedAt := R_CreatedAt r;
     R_UpdatedAt := now;
     R_FinishedAt := if is_terminal status then now else R_FinishedAt r;
     R_Result := res; R_Error := re |}.

(* src: internal/ops/record.go Record.transition *)
Definition transition (fl : faults) (now pid : Z) (status : string) (res : option Result)
    (re : option RecordError) (r : OpRecord) (s : op_store) : Errors.res unit * OpRecord * op_store :=
  let r' := transitioned now status res re r in
  let '(e, s') := Save fl pid r' s in
  (e, set_schema r', s').

(* src: internal/ops/record.go Record.MarkRunning *)
Definition MarkRunning (fl : faults) (now pid : Z) (r : OpRecord) (s : op_store) :=
  transition fl now pid StatusRunning None None r s.

(* src: internal/ops/record.go Record.MarkSucceeded *)
Definition MarkSucceeded (fl : faults) (now pid : Z) (res : option Result) (r : OpRecord)
    (s : op_store) :=
  transition fl now pid StatusSucceeded res None r s.

Section Redacted.
Variable Redact : string → string.

(* src: internal/ops/record.go Record.MarkFailed *)
Definition MarkFailed (fl : faults) (now pid : Z) (err : option error) (r : OpRecord)
    (s : op_store) : res unit * OpRecord * op_store :=
  match err with
  | None => (Ok tt, r, s)
  | Some e =>
      let re := {| RE_Code := Code_String (CodeOf err); RE_Message := Redact (Error e) |} in
      transition fl now pid StatusFailed None (Some re) r s
  end.
End Redacted.

(* src: internal/ops/record.go Load *)
Definition Load (fl : faults) (s : op_store) (id : string) : res OpRecord :=
  fail_if (negb (match_string idPattern id)) (New CodeInvalidArgument
    ("invalid operation id " +:+ Quote id +:+ ": expected " +:+ IDPrefix +:+ "<16 hex chars>")) ≫= λ _,
  match s !! json_file id with
  | None => Err (New CodeNotFound ("no operation record " +:+ id))
  | Some data =>
      match fl op_read with
      | Some t => Err (wrap CodeFilesystem "read operation record" (os_err (ErrIO t)))
      | None =>
          match data with
          | Garbage => Err (wrap CodeFilesystem "decode operation record"
                              (Foreign "invalid JSON" None))
          | Data r => Ok r
          end
      end
  end.

(** The decoding of one file of a listing. *)
Definition decode_listed (data : content OpRecord) : res OpRecord :=
  match data with
  | Garbage => Err (Foreign "invalid JSON" None)
  | Data r => if R_ID r =s "" then Err (Foreign "record without id" None) else Ok r
  end.

(** Newest first; the id breaks ties. *)
Definition newer (x y : OpRecord) : bool :=
  if negb (R_CreatedAt x =? R_CreatedAt y) then R_CreatedAt y <? R_CreatedAt x
  else String.ltb (R_ID y) (R_ID x).

Section Listing.
(** Reads that fail during a listing. *)
Variable unreadable : string → bool.

(* src: internal/ops/record.go List *)
Definition List (fl : faults) (s : op_store) (app : string) (limit : Z) : res (list OpRecord * Z) :=
  match fl op_read_dir with
  | Some t => Err (wrap CodeFilesystem "read operation record directory" (os_err (ErrIO t)))
  | None =>
      let select r := ((app =s "") || (R_App r =s app))%bool in
      let '(recs, skipped) := scan is_json unreadable decode_listed select s (dir_names s) in
      Ok (cut limit (sort_by newer recs), skipped)
  end.

Definition in_flight (r : OpRecord) : bool := one_of (R_Status r) [StatusPending; StatusRunning].

(** [rm_fails id]: the removal of that record fails. *)
(* src: internal/ops/record.go Prune *)
Definition Prune (fl : faults) (rm_fails : string → bool) (max : Z) (protected : string → bool)
    (s : op_store) : res Z * op_store :=
  let max := if max <=? 0 then DefaultOpRetention else max in
  match List fl s "" 0 with
  | Err e => (Err e, s)
  | Ok (recs, _) =>
      let always r := (in_flight r || protected (R_ID r))%bool in
      let '(pruned, s') := remove_records rm_fails (R_ID <$> retain always max 0 recs) s in
      (Ok pruned, s')
  end.

(* src: internal/ops/record.go FindByDeploymentID *)
Definition FindByDeploymentID (fl : faults) (s : op_store) (deploymentID : string) : res OpRecord :=
  fail_if (deploymentID =s "") (New CodeInvalidArgument "empty deployment id") ≫= λ _,
  List fl s "" 0 ≫= λ '(recs, _),
  match List.find (λ r, R_DeploymentID r =s deploymentID) recs with
  | Some r => Ok r
  | None => Err (New CodeNotFound
      ("no operation record correlates with deployment " +:+ deploymentID))
  end.
End Listing.

(** ** Theorems *)

Lemma op_newer_strict_weak : strict_weak newer.
Proof.
  apply (strict_weak_lex (λ x y, R_CreatedAt x =? R_CreatedAt y)
           (λ x y, R_CreatedAt y <? R_CreatedAt x) (λ x y, String.ltb (R_ID y) (R_ID x))).
  - apply (strict_weak_flip (λ x y, R_CreatedAt x <? R_CreatedAt y)), strict_weak_Z.
  - apply (strict_weak_flip (λ x y, String.ltb (R_ID x) (R_ID y))), strict_weak_string.
  - intros x y. rewrite Z.eqb_eq, !Z.ltb_ge. lia.
Qed.

#[export] Program Instance op_stored : StoredRecord _ := {|
  record_id := R_ID; record_created := R_CreatedAt; record_newer := newer;
  record_newer_order := op_newer_strict_weak |}.
Next Obligation. intros x y H. unfold newer in H. destruct (R_CreatedAt x =? R_CreatedAt y) eqn:E; simpl in H; bool_prop; lia. Qed.


(** Every readable file holds the record it is named after, or one without id. *)
Definition well_named (s : op_store) : Prop :=
  ∀ name r, s !! name = Some (Data r) → is_json name = true → R_ID r ≠ "" → name = json_file (R_ID r).

Section ListTheorems.
Context (unreadable : string → bool).

(** What a listing returns: the records of the app, newest first. *)
Lemma op_List_spec s app recs skipped :
  List unreadable no_faults s app 0 = Ok (recs, skipped) →
  StronglySorted (not_after newer) recs ∧
  ∀ r, r ∈ recs ↔ ∃ name, s !! name = Some (Data r) ∧ is_json name = true ∧
    unreadable name = false ∧ R_ID r ≠ "" ∧ (app = "" ∨ R_App r = app).
Proof.
  unfold List. simpl. set (select := λ r, _).
  pose proof (elem_of_scan is_json unreadable decode_listed select s) as Hscan.
  destruct (scan _ _ _ _ _ _) as [found sk]. simpl in Hscan.
  rewrite cut_all by done. intros [= <- <-].
  split; [apply sort_by_sorted, op_newer_strict_weak|]. intros r.
  rewrite sort_by_Permutation, Hscan. split.
  - intros (name & data & Hs & Hj & Hu & Hd & Hsel). exists name.
    destruct data as [|r']; [done|]. simpl in Hd. destruct (R_ID r' =s "") eqn:Hid; simplify_eq.
    bool_prop. split_and!; auto. unfold select in Hsel.
    apply orb_true_iff in Hsel as [?|?]; bool_prop; auto.
  - intros (name & Hs & Hj & Hu & Hid & Happ). exists name, (Data r). split_and!; auto.
    + simpl. by apply String.eqb_neq in Hid as ->.
    + unfold select. apply orb_true_iff. rewrite !String.eqb_eq. done.
Qed.

Lemma List_NoDup_ids s app recs skipped r1 r2 :
  well_named s → List unreadable no_faults s app 0 = Ok (recs, skipped) →
  r1 ∈ recs → r2 ∈ recs → R_ID r1 = R_ID r2 → r1 = r2.
Proof.
  intros Hw [_ Hl]%op_List_spec (n1 & Hs1 & Hj1 & _ & Hi1 & _)%Hl (n2 & Hs2 & Hj2 & _ & Hi2 & _)%Hl Heq.
  rewrite (Hw _ _ Hs1 Hj1 Hi1) in Hs1. rewrite (Hw _ _ Hs2 Hj2 Hi2), <- Heq in Hs2.
  congruence.
Qed.

Lemma List_NoDup s app recs skipped :
  well_named s → List unreadable no_faults s app 0 = Ok (recs, skipped) → NoDup recs.
Proof.
  intros Hw. unfold List. simpl. set (select := λ r, _).
  pose proof (scan_found is_json unreadable decode_listed select s (dir_names s)) as Hf.
  destruct (scan _ _ _ _ _ _) as [found sk]. simpl in Hf.
  rewrite cut_all by done. intros [= <- <-]. rewrite sort_by_Permutation, Hf.
  apply NoDup_omap_inj; [apply NoDup_dir_names|].
  assert (∀ name r, read_entry is_json unreadable decode_listed select s name = Some r →
    name = json_file (R_ID r)) as Hread.
  { intros name r. unfold read_entry. destruct (s !! name) as [[|r']|] eqn:Hs; simpl; try done.
    - by destruct (_ && _)%bool.
    - destruct (is_json name) eqn:Hj; simpl; [|done]. destruct (negb _); [|done].
      destruct (R_ID r' =s "") eqn:Hid; [done|]. destruct (select r'); [|done]. intros [= <-].
      apply Hw; [done|done|]. by bool_prop. }
  intros x y z Hx Hy. by rewrite (Hread _ _ Hx), (Hread _ _ Hy).
Qed.
End ListTheorems.

(** A transition is atomic under every fault: afterwards the record loads
    either as the new one or as it loaded before, success means the new one,
    and no other record is affected. *)
Theorem op_transition_is_atomic fl now pid status result re r s :
  match_string idPattern (R_ID r) = true →
  let '(e, r', s') := transition fl now pid status result re r s in
  (e = Ok tt → Load no_faults s' (R_ID r) = Ok r') ∧
  (Load no_faults s' (R_ID r) = Ok r' ∨
   Load no_faults s' (R_ID r) = Load no_faults s (R_ID r)) ∧
  R_Status r' = status ∧ (is_terminal status = true → R_FinishedAt r' = R_UpdatedAt r') ∧
  (∀ id, id ≠ R_ID r → Load no_faults s' id = Load no_faults s id).
Proof.
  intros Hid. unfold transition. set (r1 := transitioned now status result re r).
  assert (∀ e s', Save fl pid r1 s = (e, s') →
    (e = Ok tt → s' !! json_file (R_ID r) = Some (Data (set_schema r1))) ∧
    (s' !! json_file (R_ID r) = Some (Data (set_schema r1)) ∨
     s' !! json_file (R_ID r) = s !! json_file (R_ID r)) ∧
    (∀ id, id ≠ R_ID r → s' !! json_file id = s !! json_file id)) as Hsave.
  { intros e s'. unfold Save. simpl. destruct (fl op_mkdir); [intros [= <- <-]; split_and!; [done|by right|done]|].
    intros Hrun.
    assert (∀ id, json_file id ≠ tmp_path (json_file (R_ID r)) pid) as Htmp.
    { intros id. apply json_file_ne_tmp. }
    pose proof (replace_outcomes fl s CodeFilesystem "operation record" "operation record"
      (tmp_path (json_file (R_ID r)) pid) (json_file (R_ID r)) (set_schema r1)
      (not_eq_sym (Htmp _))) as Hout.
    rewrite Hrun in Hout. destruct Hout as [_|e f' _ Hf|e _ _]; split_and!; try done.
    - intros _. by simplify_map_eq.
    - left. by simplify_map_eq.
    - intros id Hne. rewrite lookup_insert_ne; [done|]. by intros ?%json_file_inj.
    - right. by apply Hf.
    - intros id Hne. by apply Hf.
    - left. by simplify_map_eq.
    - intros id Hne. rewrite lookup_insert_ne; [done|]. by intros ?%json_file_inj. }
  destruct (Save fl pid r1 s) as [e s'] eqn:Hs. destruct (Hsave _ _ eq_refl) as (H1 & H2 & H3).
  unfold Load. rewrite Hid. cbn [negb fail_if mbind result_bind].
  split_and!; [|destruct H2 as [-> | ->]; by auto|done|by intros Ht; unfold r1, transitioned; cbn -[is_terminal]; rewrite Ht|].
  - intros ->. by rewrite H1.
  - intros id Hne. by rewrite H3.
Qed.

(** An operation that begins on a healthy host is found again under its id,
    pending and owned by the process that began it. *)
Theorem begun_operation_loads buf now pid kind app key s :
  length buf = 8%nat →
  (∀ name, is_json name = false → s !! name = None) →
  ∃ rec s', Begin no_faults (Ok buf) now pid kind app key s = (Ok rec, s') ∧
    Load no_faults s' (R_ID rec) = Ok rec ∧
    R_Status rec = StatusPending ∧ R_PID rec = pid ∧ R_FinishedAt rec = 0 ∧
    (∀ unreadable recs skipped,
       List unreadable no_faults s' app 0 = Ok (recs, skipped) →
       unreadable (json_file (R_ID rec)) = false → rec ∈ recs).
Proof.
  intros Hbuf Hclean. unfold Begin, NewID, Save. simpl.
  rewrite replace_no_faults by (apply Hclean, is_json_tmp).
  do 2 eexists. split_and!; try done.
  - unfold Load. cbn [R_ID]. rewrite (match_minted_id "op_") by done. simpl. by simplify_map_eq.
  - intros unreadable recs skipped [_ Hl]%op_List_spec Hu. apply Hl. simpl in *.
    eexists. split_and!; [by rewrite lookup_insert_eq|apply is_json_file|done|done|by right].
Qed.

(** The retention sweep removes exactly the removable records beyond the
    newest [max]: every pending or running record, every protected one and the
    newest [max] of the others keep their files, and nothing kept among the
    others is older than what was removed. *)
Theorem op_prune_keeps_live_and_newest unreadable rm_fails max protected s recs skipped :
  0 < max → well_named s →
  List unreadable no_faults s "" 0 = Ok (recs, skipped) →
  let '(r, s') := Prune unreadable no_faults rm_fails max protected s in
  let others := removable (λ r, in_flight r || protected (R_ID r))%bool recs in
  let victims := drop (Z.to_nat max) others in
  r = Ok (len (List.filter (λ r, negb (rm_fails (R_ID r))) victims)) ∧
  (∀ name, s' !! name = s !! name ∨
     (s' !! name = None ∧ ∃ v, v ∈ victims ∧ name = json_file (R_ID v))) ∧
  (∀ rec, rec ∈ recs → (in_flight rec || protected (R_ID rec))%bool = true →
     s' !! json_file (R_ID rec) = s !! json_file (R_ID rec)) ∧
  (∀ rec, rec ∈ take (Z.to_nat max) others →
     s' !! json_file (R_ID rec) = s !! json_file (R_ID rec)) ∧
  (∀ x y, x ∈ take (Z.to_nat max) others → y ∈ victims → newer y x = false).
Proof.
  intros Hmax Hw Hl. unfold Prune. rewrite Hl.
  replace (max <=? 0) with false by (symmetry; apply Z.leb_gt; lia).
  set (always := λ r, (in_flight r || protected (R_ID r))%bool).
  pose proof (remove_records_count rm_fails (R_ID <$> retain always max 0 recs) s) as Hcount.
  pose proof (remove_records_only rm_fails (R_ID <$> retain always max 0 recs) s) as Honly.
  destruct (remove_records _ _ _) as [n s']. simpl in Hcount, Honly.
  pose proof (op_List_spec _ _ _ _ _ Hl) as [Hsorted _].
  assert (swept always max recs s s') as Hswept.
  { apply sweep_correct; [done|]. intros name. specialize (Honly name).
    setoid_rewrite list_elem_of_fmap in Honly. naive_solver. }
  assert (∀ rec, rec ∈ recs → ∀ v, v ∈ recs → record_id v = record_id rec → v = rec) as Hid.
  { intros rec Hin v Hv Heq. by apply (List_NoDup_ids _ _ _ _ _ v rec Hw Hl). }
  pose proof (retain_spec always max 0 recs ltac:(lia)) as Hv. rewrite Z.sub_0_r in Hv.
  split_and!.
  - f_equal. by rewrite Hcount, List_filter_fmap, len_fmap, Hv.
  - apply Hswept.
  - intros rec Hin Ha. by apply (swept_keeps always max recs s s' rec Hswept (Hid _ Hin)); left.
  - intros rec Hin. assert (rec ∈ recs) by by (apply (elem_of_removable always); eapply subseteq_take).
    apply (swept_keeps always max recs s s' rec Hswept); [by apply Hid|]. right. split; [|done].
    by eapply List_NoDup.
  - intros x y Hx Hy. by eapply (swept_older always _ _ _ _ Hswept).
Qed.

(** The record found by deployment id correlates with it and is the newest
    that does. *)
Theorem found_operation_is_newest unreadable s dep r recs skipped :
  List unreadable no_faults s "" 0 = Ok (recs, skipped) →
  FindByDeploymentID unreadable no_faults s dep = Ok r →
  r ∈ recs ∧ R_DeploymentID r = dep ∧
  ∀ r', r' ∈ recs → R_DeploymentID r' = dep → newer r' r = false.
Proof.
  intros Hl. unfold FindByDeploymentID. rewrite Hl. intros Hf. inv_result. simpl in Hf.
  destruct (List.find _ recs) as [r0|] eqn:Hfind; [|done]. injection Hf as <-.
  pose proof (op_List_spec _ _ _ _ _ Hl) as [Hs _].
  apply find_split in Hfind as (l1 & l2 & -> & Hr%String.eqb_eq & Hl1).
  split_and!; [set_solver|done|]. intros r' Hin Hdep.
  apply elem_of_app in Hin as [Hin|[->|Hin]%elem_of_cons].
  - rewrite Forall_forall in Hl1. apply Hl1, String.eqb_neq in Hin. congruence.
  - destruct op_newer_strict_weak as [Hasym _]. destruct (newer r0 r0) eqn:E; [|done].
    by rewrite (Hasym _ _ E) in E.
  - apply StronglySorted_app_1_r in Hs. apply StronglySorted_inv in Hs as [_ Hs].
    rewrite Forall_forall in Hs. by apply Hs.
Qed.

(** ** Samples *)

Module Records.
Definition bytes : list Byte.byte := repeat Byte.x2a 8.
Definition begun : res OpRecord * op_store :=
  Begin no_faults (Ok bytes) 1000 7 KindRebuild "api" "" ∅.
Definition rec0 : OpRecord := default zero_record (match begun.1 with Ok r => Some r | Err _ => None end).

Definition record (id status : string) (t : Z) : OpRecord :=
  {| R_SchemaVersion := SchemaVersion; R_ID := id; R_Kind := KindRebuild; R_App := "api";
     R_Status := status; R_RequestKey := ""; R_Actor := None; R_DeploymentID := "dep-1";
     R_PlanID := ""; R_PlanHash := ""; R_AuthzDecisionID := ""; R_ApprovalID := "";
     R_PID := 7; R_CreatedAt := t; R_UpdatedAt := t; R_FinishedAt := t; R_Result := None;
     R_Error := None |}.

Definition store3 : op_store :=
  {[ json_file "a" := Data (record "a" StatusSucceeded 1);
     json_file "b" := Data (record "b" StatusFailed 2);
     json_file "c" := Data (record "c" StatusRunning 0) ]}.

Definition listed := List (λ _, false) no_faults store3 "" 0.

Lemma store3_well_named : well_named store3.
Proof.
  intros name r Hs _ _. unfold store3 in Hs.
  repeat (apply lookup_insert_Some in Hs as [[<- [= <-]]|[_ Hs]]; [done|]).
  by apply lookup_singleton_Some in Hs as [<- [= <-]].
Qed.

(** The ledger shares the directory: every listing counts it as damaged. *)
Example ledger_counts_as_damaged :
  List (λ _, false) no_faults
    (<["request-key-ledger.json" := Data zero_record]> store3) "" 0 =
  Ok (default [] (match listed with Ok (l, _) => Some l | Err _ => None end), 1).
Proof. by vm_compute. Qed.
End Records.

Lemma op_transition_is_atomic_witness :
  let '(_, r', s') := transition (fault_at op_sync_dir) 2000 7 StatusSucceeded None None
                        Records.rec0 Records.begun.2 in
  Load no_faults s' (R_ID Records.rec0) = Ok r' ∨
  Load no_faults s' (R_ID Records.rec0) = Load no_faults Records.begun.2 (R_ID Records.rec0).
Proof.
  pose proof (op_transition_is_atomic (fault_at op_sync_dir) 2000 7 StatusSucceeded None None
    Records.rec0 Records.begun.2 ltac:(vm_compute; reflexivity)) as H.
  destruct (transition _ _ _ _ _ _ _ _) as [[e r'] s']. destruct H as (_ & H & _). exact H.
Defined.

Lemma begun_operation_loads_witness :
  ∃ rec s', Begin no_faults (Ok Records.bytes) 1000 7 KindRebuild "api" "" ∅ = (Ok rec, s') ∧
    Load no_faults s' (R_ID rec) = Ok rec.
Proof.
  destruct (begun_operation_loads Records.bytes 1000 7 KindRebuild "api" "" ∅)
    as (rec & s' & Hb & Hl & _); [done|done|]. by exists rec, s'.
Defined.

Lemma op_prune_keeps_live_and_newest_witness :
  (Prune (λ _, false) no_faults (λ _, false) 1 (λ _, false) Records.store3).2 !! json_file "c" =
Records.store3 !! json_file "c".
Proof.
pose proof (op_prune_keeps_live_and_newest (λ _, false) (λ _, false) 1 (λ _, false) Records.store3
  [Records.record "b" StatusFailed 2; Records.record "a" StatusSucceeded 1;
   Records.record "c" StatusRunning 0] 0 eq_refl Records.store3_well_named
  ltac:(vm_compute; reflexivity)) as H.
destruct (Prune _ _ _ _ _ _) as [r s']. destruct H as (_ & _ & H & _).
apply (H (Records.record "c" StatusRunning 0)); [|done]. right. right. left.
Defined.

Lemma found_operation_is_newest_witness :
  newer (Records.record "a" StatusSucceeded 1) (Records.record "b" StatusFailed 2) = false.
Proof.
  destruct (found_operation_is_newest (λ _, false) Records.store3 "dep-1"
    (Records.record "b" StatusFailed 2)
    [Records.record "b" StatusFailed 2; Records.record "a" StatusSucceeded 1;
     Records.record "c" StatusRunning 0] 0 ltac:(vm_compute; reflexivity)
    ltac:(vm_compute; reflexivity)) as (_ & _ & H).
  apply H; [right; left|done].
Defined.
