(* ===== verification/Plans.v ===== *)
(** * Plans: immutable execution plans (src/internal/plans)

    plan.go: the plan, its canonical form and hash.  store.go: the create-only
    store, verified loads, status transitions, listing and retention.
    evaluate.go: the re-evaluation of preconditions and capabilities.

    SHA-256 over the JSON of the hash input and the length of a JSON document
    are parameters.  The state that preconditions are checked against (the app
    registry, deployments, versions, git, toolchains) is the record
    [current_state]. *)

From S2P Require Import Prelude GoLib Errors FileStore Retention.

(* src: internal/plans/plan.go SchemaVersion *)
Definition SchemaVersion := "1".
(* src: internal/plans/plan.go IDPrefix *)
Definition IDPrefix := "pln_".
(* src: internal/plans/plan.go idPattern *)
Definition idPattern : re := id_pattern "pln_".
(* src: internal/plans/plan.go StatusCreated *)
Definition StatusCreated := "created".
(* src: internal/plans/plan.go StatusApplied *)
Definition StatusApplied := "applied".
(* src: internal/plans/plan.go StatusFailed *)
Definition StatusFailed := "failed".
(* src: internal/plans/plan.go ActionRebuild *)
Definition ActionRebuild := "rebuild".
(* src: internal/plans/plan.go ActionRollback *)
Definition ActionRollback := "rollback".
(* src: internal/plans/store.go maxPlanBytes *)
Definition maxPlanBytes : Z := 64 * 1024.
(* src: internal/plans/store.go DefaultPlanRetention *)
Definition DefaultPlanRetention : Z := 100.

(* src: internal/plans/plan.go Action *)
Record Action := mkAction { Act_Type : string; Act_Application : string }.

(* src: internal/plans/plan.go Target *)
Record Target := mkTarget { Tgt_AppID : string; Tgt_AppName : string; Tgt_Language : string }.

(* src: internal/plans/plan.go Inputs *)
Record Inputs := mkInputs {
  In_SourceDir : string; In_Port : Z; In_Tag : string; In_BuildArgs : list string;
  In_AutoRollback : bool; In_SourceCommit : string; In_StrategyOverride : string;
  In_FlagBlueGreen : bool; In_FlagReplicas : Z; In_FlagCanary : Z; In_PortExplicit : bool;
  In_ConfigFingerprint : string; In_TargetVersion : Z; In_TargetTag : string;
  In_VerifyMs : Z; In_Reason : string
}.

(* src: internal/plans/plan.go Execution *)
Record Execution := mkExecution {
  Ex_Strategy : string; Ex_Replicas : Z; Ex_CanaryPercent : Z; Ex_Runtime : string;
  Ex_Network : string; Ex_PublicPort : Z; Ex_Downtime : bool; Ex_CurrentSlot : string;
  Ex_TargetSlot : string; Ex_FromVersion : Z; Ex_ToVersion : Z;
  Ex_EnvSnapshotAvailable : bool; Ex_Steps : list string
}.

(* src: internal/plans/plan.go Precondition *)
Record Precondition := mkPrecondition {
  Pre_Type : string; Pre_Expected : string; Pre_Source : string
}.

(* src: internal/plans/plan.go Correlation *)
Record Correlation := mkCorrelation {
  Cor_OperationID : string; Cor_DeploymentID : string; Cor_AppliedAtMs : Z
}.

(* src: internal/plans/plan.go Plan *)
Record Plan := mkPlan {
  P_SchemaVersion : string;
  P_PlanID : string;
  P_PlanHash : string;
  P_CreatedAt : Z;
  P_Status : string;
  P_Action : Action;
  P_Target : Target;
  P_Inputs : Inputs;
  P_Execution : Execution;
  P_Preconditions : list Precondition;
  P_Capabilities : list string;
  P_Correlation : option Correlation
}.

(** The canonical preimage: the execution-relevant fields. *)
(* src: internal/plans/plan.go hashInput *)
Record hashInput := mkHashInput {
  HI_SchemaVersion : string;
  HI_Action : Action;
  HI_Target : Target;
  HI_Inputs : Inputs;
  HI_Execution : Execution;
  HI_Preconditions : list Precondition;
  HI_Capabilities : list string
}.

Definition hash_input (p : Plan) : hashInput :=
  {| HI_SchemaVersion := P_SchemaVersion p; HI_Action := P_Action p; HI_Target := P_Target p;
     HI_Inputs := P_Inputs p; HI_Execution := P_Execution p;
     HI_Preconditions := P_Preconditions p; HI_Capabilities := P_Capabilities p |}.

(* src: internal/plans/plan.go NewID *)
Definition NewID (rnd : res (list Byte.byte)) : res string :=
  match rnd with
  | Err e => Err (wrap CodeFilesystem "generate plan id" e)
  | Ok buf => Ok (IDPrefix +:+ hex_encode buf)
  end.

(* src: internal/plans/plan.go ValidateID *)
Definition ValidateID (id : string) : bool := match_string idPattern id.

(** The comparator of the preconditions. *)
(* src: internal/plans/plan.go:231-239 Plan.Canonicalize *)
Definition pre_less (x y : Precondition) : bool :=
  if Pre_Type x <>s Pre_Type y then String.ltb (Pre_Type x) (Pre_Type y)
  else if Pre_Expected x <>s Pre_Expected y then String.ltb (Pre_Expected x) (Pre_Expected y)
  else String.ltb (Pre_Source x) (Pre_Source y).

Definition with_build_args (i : Inputs) (args : list string) : Inputs :=
  {| In_SourceDir := In_SourceDir i; In_Port := In_Port i; In_Tag := In_Tag i;
     In_BuildArgs := args; In_AutoRollback := In_AutoRollback i;
     In_SourceCommit := In_SourceCommit i; In_StrategyOverride := In_StrategyOverride i;
     In_FlagBlueGreen := In_FlagBlueGreen i; In_FlagReplicas := In_FlagReplicas i;
     In_FlagCanary := In_FlagCanary i; In_PortExplicit := In_PortExplicit i;
     In_ConfigFingerprint := In_ConfigFingerprint i; In_TargetVersion := In_TargetVersion i;
     In_TargetTag := In_TargetTag i; In_VerifyMs := In_VerifyMs i; In_Reason := In_Reason i |}.

(* src: internal/plans/plan.go Plan.Canonicalize *)
Definition Canonicalize (p : Plan) : Plan :=
  {| P_SchemaVersion := P_SchemaVersion p; P_PlanID := P_PlanID p; P_PlanHash := P_PlanHash p;
     P_CreatedAt := P_CreatedAt p; P_Status := P_Status p; P_Action := P_Action p;
     P_Target := P_Target p;
     P_Inputs := with_build_args (P_Inputs p) (sort_strings (In_BuildArgs (P_Inputs p)));
     P_Execution := P_Execution p;
     P_Preconditions := stable_sort_by pre_less (P_Preconditions p);
     P_Capabilities := sort_strings (P_Capabilities p);
     P_Correlation := P_Correlation p |}.

(** The plan with its identity fields, and with another status. *)
Definition with_identity (p : Plan) (id hash : string) (created : Z) : Plan :=
  {| P_SchemaVersion := SchemaVersion; P_PlanID := id; P_PlanHash := hash;
     P_CreatedAt := created; P_Status := P_Status p; P_Action := P_Action p;
     P_Target := P_Target p; P_Inputs := P_Inputs p; P_Execution := P_Execution p;
     P_Preconditions := P_Preconditions p; P_Capabilities := P_Capabilities p;
     P_Correlation := P_Correlation p |}.

Definition with_status (p : Plan) (status : string) (c : option Correlation) : Plan :=
  {| P_SchemaVersion := P_SchemaVersion p; P_PlanID := P_PlanID p; P_PlanHash := P_PlanHash p;
     P_CreatedAt := P_CreatedAt p; P_Status := status; P_Action := P_Action p;
     P_Target := P_Target p; P_Inputs := P_Inputs p; P_Execution := P_Execution p;
     P_Preconditions := P_Preconditions p; P_Capabilities := P_Capabilities p;
     P_Correlation := c |}.

Abbreviation plan_store := (gmap string (content Plan)).

Definition newer (x y : Plan) : bool := P_CreatedAt y <? P_CreatedAt x.

Section Plans.
(** [sha256] of the canonical JSON in hexadecimal, and JSON lengths. *)
Variable sha256_hex : hashInput → string.
Variable json_len : Plan → Z.

(* src: internal/plans/plan.go Plan.Hash *)
Definition Hash (p : Plan) : string := "sha256:" +:+ sha256_hex (hash_input p).

(* src: internal/plans/plan.go Plan.Finalize *)
Definition Finalize (rnd : res (list Byte.byte)) (now : Z) (p : Plan) : res Plan :=
  fail_if ((Act_Type (P_Action p) =s "") || (Act_Application (P_Action p) =s ""))%bool
    (New CodeInvalidArgument "plan requires an action type and application") ≫= λ _,
  fail_if (negb (one_of (Act_Type (P_Action p)) [ActionRebuild; ActionRollback]))
    (New CodeInvalidArgument ("unsupported plan action " +:+ Quote (Act_Type (P_Action p)))) ≫= λ _,
  let p := Canonicalize p in
  (if P_PlanID p =s "" then NewID rnd else Ok (P_PlanID p)) ≫= λ id,
  let created := if P_CreatedAt p =? 0 then now else P_CreatedAt p in
  let p := with_identity p id (P_PlanHash p) created in
  Ok (with_identity p id (Hash p) created).

(* src: internal/plans/plan.go Plan.CorrelationOperationID *)
Definition CorrelationOperationID (p : option Plan) : string :=
  match p with
  | Some p => match P_Correlation p with Some c => Cor_OperationID c | None => "" end
  | None => ""
  end.

(* src: internal/plans/plan.go Plan.VerifyHash *)
Definition VerifyHash (p : Plan) : res unit :=
  fail_if (Hash p <>s P_PlanHash p) (New CodePlanHashMismatch
    ("plan hash mismatch: stored " +:+ P_PlanHash p +:+ ", computed " +:+ Hash p +:+
     " — the plan content changed after creation")).

(* src: internal/plans/store.go planPath *)
Definition planPath (id : string) : res string :=
  fail_if (negb (ValidateID id)) (New CodeInvalidArgument
    ("invalid plan id " +:+ Quote id +:+ ": expected " +:+ IDPrefix +:+ "<16 hex chars>")) ≫= λ _,
  Ok (json_file id).

Definition already_exists (id : string) : error :=
  New CodeAlreadyExists ("plan " +:+ id +:+
    " already exists — plans are immutable; create a new plan instead").

(* src: internal/plans/store.go Save *)
Definition Save (fl : faults) (pid : Z) (p : Plan) (s : plan_store) : res unit * plan_store :=
  if P_Status p =s "" then (Err (New CodePlanInvalid "plan has no status"), s)
  else match VerifyHash p with
  | Err e => (Err e, s)
  | Ok _ =>
      if maxPlanBytes <? json_len p then
        (Err (New CodeInvalidArgument
           ("plan " +:+ P_PlanID p +:+ " is " +:+ Itoa (json_len p) +:+ " bytes; the maximum is " +:+
            Itoa maxPlanBytes +:+ " — plans describe execution, not system state")), s)
      else match fl op_mkdir with
      | Some t => (Err (wrap CodeFilesystem "create plan store directory" (os_err (ErrIO t))), s)
      | None =>
          match planPath (P_PlanID p) with
          | Err e => (Err e, s)
          | Ok final =>
              run_prog fl (create_only_prog CodeFilesystem "plan" "plan store"
                (already_exists (P_PlanID p)) (tmp_path final pid) final p) s
          end
      end
  end.

(* src: internal/plans/store.go Decode *)
Definition Decode (data : content Plan) : res Plan :=
  match data with
  | Garbage => Err (wrap CodePlanCorrupt "plan content is not a parseable plan"
                      (Foreign "invalid JSON" None))
  | Data p =>
      fail_if (P_SchemaVersion p <>s SchemaVersion) (New CodePlanInvalid
        ("plan schema_version " +:+ Quote (P_SchemaVersion p) +:+ ", want " +:+
         Quote SchemaVersion +:+ " — recreate the plan")) ≫= λ _,
      fail_if (negb (ValidateID (P_PlanID p)))
        (New CodePlanInvalid ("plan has malformed id " +:+ Quote (P_PlanID p))) ≫= λ _,
      fail_if (negb (one_of (P_Status p) [StatusCreated; StatusApplied; StatusFailed]))
        (New CodePlanInvalid ("plan has unknown status " +:+ Quote (P_Status p))) ≫= λ _,
      VerifyHash p ≫= λ _, Ok p
  end.

(* src: internal/plans/store.go Load *)
Definition Load (fl : faults) (s : plan_store) (id : string) : res Plan :=
  planPath id ≫= λ path,
  match s !! path with
  | None => Err (New CodeNotFound ("no plan " +:+ id))
  | Some data =>
      match fl op_read with
      | Some t => Err (wrap CodeFilesystem "read plan" (os_err (ErrIO t)))
      | None => Decode data
      end
  end.

(* src: internal/plans/store.go atomicReplace *)
Definition atomicReplace (fl : faults) (pid : Z) (path : string) (p : Plan) (s : plan_store)
  : res unit * plan_store :=
  run_prog fl (replace_prog CodeFilesystem "plan" "plan store" (tmp_path path pid) path p) s.

(** [mutate] gives the new correlation; [None] leaves the plan as it is. *)
(* src: internal/plans/store.go transition *)
Definition transition (fl : faults) (pid : Z) (id status : string)
    (mutate : option (Plan → Plan)) (s : plan_store) : res Plan * plan_store :=
  match Load fl s id with
  | Err e => (Err e, s)
  | Ok p =>
      let before := Hash p in
      let p := with_status p status (P_Correlation p) in
      let p := match mutate with Some f => f p | None => p end in
      let after := Hash p in
      if before <>s after then
        (Err (New CodePlanHashMismatch
           "plan transition would change semantic content — refusing"), s)
      else match planPath (P_PlanID p) with
      | Err e => (Err e, s)
      | Ok path =>
          match atomicReplace fl pid path p s with
          | (Ok _, s') => (Ok p, s')
          | (Err e, s') => (Err e, s')
          end
      end
  end.

(* src: internal/plans/store.go MarkApplied *)
Definition MarkApplied (fl : faults) (now pid : Z) (id operationID deploymentID : string)
    (s : plan_store) : res Plan * plan_store :=
  transition fl pid id StatusApplied
    (Some (λ p, with_status p (P_Status p)
       (Some {| Cor_OperationID := operationID; Cor_DeploymentID := deploymentID;
                Cor_AppliedAtMs := now |}))) s.

(* src: internal/plans/store.go MarkFailed *)
Definition MarkFailed (fl : faults) (pid : Z) (id : string) (s : plan_store) : res Plan * plan_store :=
  transition fl pid id StatusFailed None s.

Section Listing.
Variable unreadable : string → bool.

(* src: internal/plans/store.go List *)
Definition List (fl : faults) (s : plan_store) (app : string) (limit : Z) : res (list Plan * Z) :=
  match fl op_read_dir with
  | Some t => Err (wrap CodeFilesystem "read plan store directory" (os_err (ErrIO t)))
  | None =>
      let accept name := (is_json name && negb (contains ".tmp-" name))%bool in
      let select p := ((app =s "") || (Act_Application (P_Action p) =s app))%bool in
      let '(found, skipped) := scan accept unreadable Decode select s (dir_names s) in
      Ok (cut limit (stable_sort_by newer found), skipped)
  end.

(** A listed plan decoded, so its id is well formed and its path exists. *)
(* src: internal/plans/store.go Prune *)
Definition Prune (fl : faults) (rm_fails : string → bool) (max : Z) (protected : string → bool)
    (s : plan_store) : res Z * plan_store :=
  let max := if max <=? 0 then DefaultPlanRetention else max in
  match List fl s "" 0 with
  | Err e => (Err e, s)
  | Ok (list, _) =>
      let victims := retain (λ p, protected (P_PlanID p)) max 0 list in
      let '(pruned, s') := remove_records rm_fails
        (List.filter ValidateID (P_PlanID <$> victims)) s in
      (Ok pruned, s')
  end.
End Listing.
End Plans.

(** ** evaluate.go *)

(* src: internal/plans/evaluate.go PreconditionAppExists..PreconditionToolchain *)
Definition precondition_types : list string :=
  ["app_exists"; "current_version"; "version_exists"; "deploy_mode"; "config_fingerprint";
   "source_commit"; "toolchain_available"].

(* src: internal/plans/evaluate.go FailedPrecondition *)
Record FailedPrecondition := mkFailed {
  FP_Type : string; FP_Expected : string; FP_Actual : string
}.

(** What the other packages report when a precondition is evaluated. *)
Record current_state := mkCurrentState {
  cs_lookupApp : string → option (string * string);     (* id and name *)
  cs_CurrentVersion : string → option Z;                (* [None] on error *)
  cs_VersionPaths : string → Z → bool;                  (* no error *)
  cs_deploy_mode : string → option string;              (* [None] on error *)
  cs_fingerprint : string → string → option string;
  cs_DetectGitCommit : string → string;
  cs_IsInstalled : string → bool                        (* by language name *)
}.

(* src: internal/plans/evaluate.go versionLabel *)
Definition versionLabel (v : Z) : string := if v <=? 0 then "none" else "v" +:+ Itoa v.

(* src: internal/plans/evaluate.go evaluatePrecondition *)
Definition evaluatePrecondition (cs : current_state) (p : Plan) (pre : Precondition)
  : string * bool :=
  let appName := Act_Application (P_Action p) in
  let t := Pre_Type pre in
  if t =s "app_exists" then
    match cs_lookupApp cs appName with
    | None => ("missing", false)
    | Some (id, name) =>
        let current := id +:+ "/" +:+ name in
        let expected := Pre_Expected pre +:+ "/" +:+ appName in
        (current, current =s expected)
    end
  else if t =s "current_version" then
    match cs_CurrentVersion cs appName with
    | None => ("none", Pre_Expected pre =s "none")
    | Some cur => (versionLabel cur, versionLabel cur =s Pre_Expected pre)
    end
  else if t =s "version_exists" then
    if negb (cs_VersionPaths cs appName (In_TargetVersion (P_Inputs p))) then ("missing", false)
    else (versionLabel (In_TargetVersion (P_Inputs p)), true)
  else if t =s "deploy_mode" then
    let mode := default "" (cs_deploy_mode cs appName) in
    let mode := if mode =s "" then "classic" else mode in
    (mode, mode =s Pre_Expected pre)
  else if t =s "config_fingerprint" then
    match cs_fingerprint cs appName (In_SourceDir (P_Inputs p)) with
    | None => ("unreadable", false)
    | Some fp => (fp, fp =s Pre_Expected pre)
    end
  else if t =s "source_commit" then
    let commit := cs_DetectGitCommit cs (In_SourceDir (P_Inputs p)) in
    if commit =s "" then ("none", Pre_Expected pre =s "none")
    else (commit, commit =s Pre_Expected pre)
  else if t =s "toolchain_available" then
    if cs_IsInstalled cs (Tgt_Language (P_Target p)) then ("installed", true)
    else ("missing", false)
  else ("unchecked", false).

(* src: internal/plans/evaluate.go Plan.Evaluate *)
Definition Evaluate (cs : current_state) (p : Plan) : list FailedPrecondition :=
  omap (λ pre,
    let '(actual, ok) := evaluatePrecondition cs p pre in
    if ok then None
    else Some {| FP_Type := Pre_Type pre; FP_Expected := Pre_Expected pre; FP_Actual := actual |})
    (P_Preconditions p).

(* src: internal/plans/evaluate.go EvaluateCapabilities *)
Definition EvaluateCapabilities (p : Plan) (available : list string) : list string :=
  List.filter (λ c, negb (one_of c available)) (P_Capabilities p).

(** ** Lemmas *)

Lemma pre_less_strict_weak : strict_weak pre_less.
Proof.
  unfold pre_less.
  apply (strict_weak_lex (λ x y, Pre_Type x =s Pre_Type y)
    (λ x y, String.ltb (Pre_Type x) (Pre_Type y)));
    [apply strict_weak_string| |intros; apply eqb_ltb].
  apply (strict_weak_lex (λ x y, Pre_Expected x =s Pre_Expected y)
    (λ x y, String.ltb (Pre_Expected x) (Pre_Expected y)));
    [apply strict_weak_string|apply strict_weak_string|intros; apply eqb_ltb].
Qed.

Lemma pre_less_total x y : pre_less x y = false → pre_less y x = false → x = y.
Proof.
  unfold pre_less. destruct x as [t1 e1 s1], y as [t2 e2 s2]. simpl.
  rewrite (String.eqb_sym t2 t1), (String.eqb_sym e2 e1).
  destruct (t1 =s t2) eqn:Et; simpl; [|intros; exfalso; eapply eqb_neq_ltb; eauto].
  destruct (e1 =s e2) eqn:Ee; simpl; [|intros; exfalso; eapply eqb_neq_ltb; eauto].
  intros H1 H2. bool_prop. subst. f_equal. apply String.eqb_eq, eqb_ltb. by split.
Qed.

Section PlanLemmas.
Context (sha256_hex : hashInput → string) (json_len : Plan → Z).
Local Abbreviation Hash := (Hash sha256_hex).
Local Abbreviation Load := (Load sha256_hex).
Local Abbreviation Decode := (Decode sha256_hex).

Lemma Hash_with_status p st c : Hash (with_status p st c) = Hash p.
Proof. done. Qed.

(** The integrity of a plan that decodes. *)
Definition verified (p : Plan) : Prop :=
  P_SchemaVersion p = SchemaVersion ∧ ValidateID (P_PlanID p) = true ∧
  P_Status p ∈ [StatusCreated; StatusApplied; StatusFailed] ∧ P_PlanHash p = Hash p.

Lemma Decode_Ok data p : Decode data = Ok p ↔ data = Data p ∧ verified p.
Proof.
  unfold Plans.Decode, VerifyHash, verified.
  destruct data as [|q]; [split; [done|by intros [? _]]|]. split.
  - intros H. inv_result. bool_prop. by split_and!.
  - intros [[= ->] (Hs & Hi & Hst & Hh)].
    rewrite Hs, Hi, Hh, !String.eqb_refl. apply one_of_true in Hst as ->. done.
Qed.

Lemma Load_Ok s id p :
  Load no_faults s id = Ok p ↔
  ValidateID id = true ∧ s !! json_file id = Some (Data p) ∧ verified p.
Proof.
  unfold Plans.Load, planPath. split.
  - intros H. inv_result. bool_prop.
    destruct (s !! json_file id) as [data|] eqn:Hs; [|done]. simpl in H.
    apply Decode_Ok in H as [-> ?]. done.
  - intros (Hid & Hs & Hv). rewrite Hid. simpl. rewrite Hs. by apply (Decode_Ok (Data p) p).
Qed.
End PlanLemmas.

(** ** Theorems *)

(** Two assembled plans that differ only in volatile metadata and in the order
    their collections were built. *)
Definition same_semantics (p q : Plan) : Prop :=
  P_Action p = P_Action q ∧ P_Target p = P_Target q ∧ P_Execution p = P_Execution q ∧
  with_build_args (P_Inputs p) [] = with_build_args (P_Inputs q) [] ∧
  In_BuildArgs (P_Inputs p) ≡ₚ In_BuildArgs (P_Inputs q) ∧
  P_Preconditions p ≡ₚ P_Preconditions q ∧ P_Capabilities p ≡ₚ P_Capabilities q.

Lemma Canonicalize_same p q :
  same_semantics p q →
  P_Action (Canonicalize p) = P_Action (Canonicalize q) ∧
  P_Target (Canonicalize p) = P_Target (Canonicalize q) ∧
  P_Execution (Canonicalize p) = P_Execution (Canonicalize q) ∧
  P_Inputs (Canonicalize p) = P_Inputs (Canonicalize q) ∧
  P_Preconditions (Canonicalize p) = P_Preconditions (Canonicalize q) ∧
  P_Capabilities (Canonicalize p) = P_Capabilities (Canonicalize q).
Proof.
  intros (Ha & Ht & He & Hi & Hb & Hp & Hc). simpl. split_and!; auto.
  - rewrite Hb. revert Hi. unfold with_build_args. by intros [= -> -> -> -> -> -> -> -> -> -> -> -> -> -> ->].
  - apply stable_sort_by_unique; [apply pre_less_strict_weak|apply pre_less_total|done].
  - by rewrite Hc.
Qed.

Lemma Canonicalize_semantics p q :
  P_Action (Canonicalize p) = P_Action (Canonicalize q) →
  P_Target (Canonicalize p) = P_Target (Canonicalize q) →
  P_Execution (Canonicalize p) = P_Execution (Canonicalize q) →
  P_Inputs (Canonicalize p) = P_Inputs (Canonicalize q) →
  P_Preconditions (Canonicalize p) = P_Preconditions (Canonicalize q) →
  P_Capabilities (Canonicalize p) = P_Capabilities (Canonicalize q) → same_semantics p q.
Proof.
  cbn. intros Ha Ht He Hi Hp Hc. split_and!; [done..| | | |].
  - revert Hi. unfold with_build_args. intros [=]. by f_equal.
  - apply (f_equal In_BuildArgs) in Hi. cbn in Hi.
    by rewrite <- (sort_strings_Permutation (In_BuildArgs (P_Inputs p))), Hi, sort_strings_Permutation.
  - by rewrite <- (stable_sort_by_Permutation pre_less (P_Preconditions p)), Hp, stable_sort_by_Permutation.
  - by rewrite <- (sort_strings_Permutation (P_Capabilities p)), Hc, sort_strings_Permutation.
Qed.

(** C31: the canonical hash is the identity of a plan's semantics: two plans
    have the same hash once finalized exactly when they have the same action,
    target, execution and inputs and, up to their order, the same build
    arguments, preconditions and capabilities - whatever their identity,
    creation time, status and correlation.  From equal hashes this needs that
    SHA-256 does not collide on the two plans. *)
Theorem plan_hash_is_canonical sha256_hex rnd1 rnd2 now1 now2 p q p' q' :
  Finalize sha256_hex rnd1 now1 p = Ok p' → Finalize sha256_hex rnd2 now2 q = Ok q' →
  (sha256_hex (hash_input p') = sha256_hex (hash_input q') → hash_input p' = hash_input q') →
  P_PlanHash p' = P_PlanHash q' ↔ same_semantics p q.
Proof.
  unfold Finalize. intros H1 H2 Hsha. inv_result. unfold Hash, hash_input in *. simpl in *. split.
  - intros Hh%sapp_inj_l. specialize (Hsha Hh).
    apply Canonicalize_semantics; [exact (f_equal HI_Action Hsha)|exact (f_equal HI_Target Hsha)|
      exact (f_equal HI_Execution Hsha)|exact (f_equal HI_Inputs Hsha)|exact (f_equal HI_Preconditions Hsha)|
      exact (f_equal HI_Capabilities Hsha)].
  - intros (Ja & Jt & Je & Ji & Jp & Jc)%Canonicalize_same. simpl in *. by rewrite Ja, Jt, Je, Ji, Jp, Jc.
Qed.

(** A finalized plan that is saved loads back exactly, and its id can never
    be saved again, whatever the second plan is. *)
Theorem saved_plan_is_create_only sha256_hex json_len buf now p p' pid pid2 q fl s :
  length buf = 8%nat → P_PlanID p = "" → P_Status p = StatusCreated →
  Finalize sha256_hex (Ok buf) now p = Ok p' → json_len p' ≤ maxPlanBytes →
  s !! json_file (P_PlanID p') = None → s !! tmp_path (json_file (P_PlanID p')) pid = None →
  P_PlanID q = P_PlanID p' →
  ∃ s', Save sha256_hex json_len no_faults pid p' s = (Ok tt, s') ∧
    Load sha256_hex no_faults s' (P_PlanID p') = Ok p' ∧
    let '(r, s'') := Save sha256_hex json_len fl pid2 q s' in
    is_ok r = false ∧ Load sha256_hex no_faults s'' (P_PlanID p') = Ok p'.
Proof.
  intros Hbuf Hid Hst Hf Hlen Hfree Htmp Hq.
  assert (verified sha256_hex p' ∧ ValidateID (P_PlanID p') = true) as [Hver Hval].
  { unfold Finalize in Hf. simpl in Hf. rewrite Hid in Hf. simpl in Hf. inv_result. simpl.
    unfold verified. simpl. assert (ValidateID ("pln_" +:+ hex_encode buf) = true) as Hv
      by (by apply (match_minted_id "pln_")).
    unfold IDPrefix. rewrite Hst, Hv. split_and!; auto; left. }
  pose proof Hver as (_ & _ & Hs & Hh).
  assert ((P_Status p' <>s "") = true) as Hne.
  { apply negb_true_iff, String.eqb_neq. intros Heq. rewrite Heq in Hs.
    apply list_elem_of_In in Hs. simpl in Hs. intuition discriminate. }
  exists (<[json_file (P_PlanID p') := Data p']> s).
  assert (Load sha256_hex no_faults (<[json_file (P_PlanID p') := Data p']> s) (P_PlanID p') = Ok p') as Hload.
  { apply Load_Ok. split_and!; [done| |done]. by simplify_map_eq. }
  split_and!; [|done|].
  - unfold Save, VerifyHash. apply negb_true_iff in Hne as ->. rewrite Hh, String.eqb_refl. simpl.
    replace (maxPlanBytes <? json_len p') with false by (symmetry; by apply Z.ltb_ge).
    unfold planPath. rewrite Hval. simpl. by apply create_only_no_faults; [apply tmp_path_ne|..].
  - unfold Save, planPath. rewrite Hq, Hval. simpl.
    destruct (P_Status q =s ""); [done|]. destruct (VerifyHash sha256_hex q); [|done].
    destruct (maxPlanBytes <? json_len q); [done|]. destruct (fl op_mkdir); [done|].
    destruct (run_prog _ _ _) as [r s''] eqn:Hrun. split.
    + destruct r as [[]|]; [|done]. exfalso.
      apply create_only_Ok in Hrun as (Hnone & _); [|apply tmp_path_ne]. by simplify_map_eq.
    + apply Load_Ok. split_and!; [done| |done].
      change s'' with (r, s'').2. rewrite <- Hrun. apply create_only_preserves;
        [apply json_file_ne_tmp|by simplify_map_eq].
Qed.

(** ** Immutability over histories *)

Inductive plan_call :=
| CallSave (p : Plan)
| CallMarkApplied (id operationID deploymentID : string)
| CallMarkFailed (id : string).

Section Immutability.
Context (sha256_hex : hashInput → string) (json_len : Plan → Z).

(** One call of any process, with any faults. *)
Inductive plan_step : plan_store → plan_call → plan_store → Prop :=
| step_save fl pid p s :
    plan_step s (CallSave p) (Save sha256_hex json_len fl pid p s).2
| step_applied fl now pid id op dep s :
    plan_step s (CallMarkApplied id op dep) (MarkApplied sha256_hex fl now pid id op dep s).2
| step_failed fl pid id s :
    plan_step s (CallMarkFailed id) (MarkFailed sha256_hex fl pid id s).2.

(** Every plan is stored under its own id. *)
Definition well_named (s : plan_store) : Prop :=
  ∀ id p, s !! json_file id = Some (Data p) → P_PlanID p = id.

(** [s'] extends [s]: the plans of [s] are still there, up to status and
    correlation. *)
Definition preserves (s s' : plan_store) : Prop :=
  well_named s' ∧
  ∀ id p, s !! json_file id = Some (Data p) →
    ∃ st c, s' !! json_file id = Some (Data (with_status p st c)) ∧
      (verified sha256_hex p → verified sha256_hex (with_status p st c)).

Lemma with_status_self p : with_status p (P_Status p) (P_Correlation p) = p.
Proof. by destruct p. Qed.

Lemma preserves_same s : well_named s → preserves s s.
Proof.
  intros Hw. split; [done|]. intros id p Hp. exists (P_Status p), (P_Correlation p).
  by rewrite with_status_self.
Qed.

Lemma transition_preserves fl pid id st mutate s :
  st ∈ [StatusApplied; StatusFailed] →
  (∀ f p, mutate = Some f → ∃ c, f p = with_status p (P_Status p) c) →
  well_named s → preserves s (transition sha256_hex fl pid id st mutate s).2.
Proof.
  intros Hst Hmut Hw. unfold transition, Load, planPath.
  destruct (ValidateID id) eqn:Hid; simpl; [|by apply preserves_same].
  destruct (s !! json_file id) as [data|] eqn:Hs; simpl; [|by apply preserves_same].
  destruct (fl op_read); simpl; [by apply preserves_same|].
  destruct (Decode sha256_hex data) as [p|] eqn:Hd; simpl; [|by apply preserves_same].
  apply Decode_Ok in Hd as [-> Hver].
  assert (∃ c, match mutate with
    | Some f => f (with_status p st (P_Correlation p))
    | None => with_status p st (P_Correlation p) end = with_status p st c) as [c ->].
  { destruct mutate as [f|]; [|by eexists].
    destruct (Hmut f (with_status p st (P_Correlation p)) eq_refl) as [c ->]. by exists c. }
  rewrite Hash_with_status, String.eqb_refl. simpl. rewrite (Hw _ _ Hs), Hid. simpl.
  pose proof (replace_outcomes fl s CodeFilesystem "plan" "plan store"
    (tmp_path (json_file id) pid) (json_file id) (with_status p st c) (tmp_path_ne _ _)) as Hout.
  unfold atomicReplace. destruct (run_prog _ _ _) as [r s'].
  assert (verified sha256_hex (with_status p st c)) as Hver'.
  { destruct Hver as (? & ? & _ & ?). split_and!; auto. simpl. by right. }
  assert (preserves s (<[json_file id := Data (with_status p st c)]> s)) as Hnew.
  { split.
    - intros id' q. destruct (decide (id' = id)) as [->|Hne].
      + rewrite lookup_insert_eq. intros [= <-]. simpl. by apply Hw.
      + rewrite lookup_insert_ne by (by intros ?%json_file_inj). apply Hw.
    - intros id' q Hq. destruct (decide (id' = id)) as [->|Hne].
      + exists st, c. rewrite lookup_insert_eq. rewrite Hs in Hq. by injection Hq as <-.
      + exists (P_Status q), (P_Correlation q). rewrite with_status_self.
        by rewrite lookup_insert_ne by (by intros ?%json_file_inj). }
  destruct Hout as [_|e f' _ Hf|e _ _]; simpl; [done| |done].
  destruct (preserves_same s Hw) as [_ Hp]. split.
  - intros id' q. rewrite Hf by apply json_file_ne_tmp. apply Hw.
  - intros id' q Hq. rewrite Hf by apply json_file_ne_tmp. by apply Hp.
Qed.

Lemma save_preserves fl pid p s :
  well_named s → preserves s (Save sha256_hex json_len fl pid p s).2.
Proof.
  intros Hw. unfold Save, planPath.
  destruct (P_Status p =s ""); [by apply preserves_same|].
  destruct (VerifyHash sha256_hex p); [|by apply preserves_same].
  destruct (maxPlanBytes <? json_len p); [by apply preserves_same|].
  destruct (fl op_mkdir); [by apply preserves_same|].
  destruct (ValidateID (P_PlanID p)); simpl; [|by apply preserves_same].
  pose proof (λ id, create_only_adds fl s CodeFilesystem "plan" "plan store"
    (already_exists (P_PlanID p)) (tmp_path (json_file (P_PlanID p)) pid)
    (json_file (P_PlanID p)) p (json_file id) (tmp_path_ne _ _)
    (json_file_ne_tmp _ _ _)) as Hadds. simpl in Hadds.
  destruct (run_prog _ _ s) as [r s']. simpl in *. split.
  - intros id q Hq. destruct (Hadds id) as [Heq|(Heq & _ & Hnew)].
    + apply Hw. by rewrite <- Heq.
    + apply json_file_inj in Heq as ->. congruence.
  - intros id q Hq. destruct (Hadds id) as [Heq|(_ & Hnone & _)]; [|congruence].
    exists (P_Status q), (P_Correlation q). by rewrite with_status_self, Heq.
Qed.

Lemma step_preserves s c s' : plan_step s c s' → well_named s → preserves s s'.
Proof.
  destruct 1; [apply save_preserves|apply transition_preserves..].
  - left.
  - intros f p [= <-]. by eexists.
  - right. left.
  - done.
Qed.

Lemma history_preserves s ls s' : steps plan_step s ls s' → well_named s → preserves s s'.
Proof.
  induction 1 as [s|s c s1 ls s2 Hstep _ IH]; intros Hw; [by apply preserves_same|].
  destruct (step_preserves _ _ _ Hstep Hw) as [Hw1 H1]. destruct (IH Hw1) as [Hw2 H2].
  split; [done|]. intros id p Hp. destruct (H1 id p Hp) as (st1 & c1 & Hp1 & Hv1).
  destruct (H2 id _ Hp1) as (st2 & c2 & Hp2 & Hv2). exists st2, c2. auto.
Qed.

(** C22: plans are immutable.  Whatever plans are saved and whatever status
    transitions run, in any order, by any processes and with any faults, a
    plan that loaded still loads, with the same identity, creation time, hash
    and semantic content. *)
Theorem plan_content_is_immutable s ls s' id p :
  well_named s → Load sha256_hex no_faults s id = Ok p → steps plan_step s ls s' →
  ∃ p', Load sha256_hex no_faults s' id = Ok p' ∧
    hash_input p' = hash_input p ∧ P_PlanHash p' = P_PlanHash p ∧
    P_PlanID p' = id ∧ P_CreatedAt p' = P_CreatedAt p.
Proof.
  intros Hw (Hid & Hs & Hv)%Load_Ok Hsteps.
  destruct (history_preserves _ _ _ Hsteps Hw) as [_ Hpres].
  destruct (Hpres _ _ Hs) as (st & c & Hs' & Hv'). exists (with_status p st c).
  split_and!; [|done|done|simpl; by apply Hw|done]. apply Load_Ok. auto.
Qed.
End Immutability.

(** ** Applicability *)

(** When a precondition holds in the current state. *)
Inductive holds (cs : current_state) (p : Plan) (pre : Precondition) : Prop :=
| holds_app id name :
    Pre_Type pre = "app_exists" → cs_lookupApp cs (Act_Application (P_Action p)) = Some (id, name) →
    id +:+ "/" +:+ name = Pre_Expected pre +:+ "/" +:+ Act_Application (P_Action p) →
    holds cs p pre
| holds_version :
    Pre_Type pre = "current_version" →
    match cs_CurrentVersion cs (Act_Application (P_Action p)) with
    | Some v => if v <=? 0 then "none" else "v" +:+ Itoa v
    | None => "none"
    end = Pre_Expected pre → holds cs p pre
| holds_version_exists :
    Pre_Type pre = "version_exists" →
    cs_VersionPaths cs (Act_Application (P_Action p)) (In_TargetVersion (P_Inputs p)) = true →
    holds cs p pre
| holds_mode mode :
    Pre_Type pre = "deploy_mode" →
    cs_deploy_mode cs (Act_Application (P_Action p)) = Some mode → mode ≠ "" →
    mode = Pre_Expected pre → holds cs p pre
| holds_classic :
    Pre_Type pre = "deploy_mode" →
    cs_deploy_mode cs (Act_Application (P_Action p)) ∈ [None; Some ""] →
    Pre_Expected pre = "classic" → holds cs p pre
| holds_config :
    Pre_Type pre = "config_fingerprint" →
    cs_fingerprint cs (Act_Application (P_Action p)) (In_SourceDir (P_Inputs p)) =
      Some (Pre_Expected pre) → holds cs p pre
| holds_commit commit :
    Pre_Type pre = "source_commit" → cs_DetectGitCommit cs (In_SourceDir (P_Inputs p)) = commit →
    Pre_Expected pre = (if commit =s "" then "none" else commit) → holds cs p pre
| holds_toolchain :
    Pre_Type pre = "toolchain_available" → cs_IsInstalled cs (Tgt_Language (P_Target p)) = true →
    holds cs p pre.

Lemma evaluatePrecondition_holds cs p pre :
  (evaluatePrecondition cs p pre).2 = true ↔ holds cs p pre.
Proof.
  unfold evaluatePrecondition, versionLabel.
  destruct (Pre_Type pre =s "app_exists") eqn:T1; [|
  destruct (Pre_Type pre =s "current_version") eqn:T2; [|
  destruct (Pre_Type pre =s "version_exists") eqn:T3; [|
  destruct (Pre_Type pre =s "deploy_mode") eqn:T4; [|
  destruct (Pre_Type pre =s "config_fingerprint") eqn:T5; [|
  destruct (Pre_Type pre =s "source_commit") eqn:T6; [|
  destruct (Pre_Type pre =s "toolchain_available") eqn:T7]]]]]]; bool_prop; split.
  all: try match goal with |- holds _ _ _ → _ =>
    let Hh := fresh in intros Hh; inversion Hh; try congruence; clear Hh end.
  - destruct (cs_lookupApp cs _) as [[id name]|] eqn:E; [|done]. simpl. intros H. bool_prop.
    by eapply holds_app.
  - rewrite H1. simpl. by rewrite H2, String.eqb_refl.
  - intros H. apply holds_version; [done|].
    destruct (cs_CurrentVersion cs _) as [v|]; simpl in H; by bool_prop.
  - destruct (cs_CurrentVersion cs _) as [v|]; simpl; by rewrite <- H1, String.eqb_refl.
  - destruct (cs_VersionPaths cs _ _) eqn:E; [|done]. intros _. by apply holds_version_exists.
  - by rewrite H1.
  - destruct (cs_deploy_mode cs _) as [mode|] eqn:E; simpl.
    + destruct (mode =s "") eqn:Em; simpl; intros H; bool_prop.
      * apply holds_classic; [done| |done]. rewrite E. subst. right. left.
      * by eapply holds_mode.
    + intros H. bool_prop. apply holds_classic; [done| |done]. rewrite E. left.
  - rewrite H1. simpl. apply String.eqb_neq in H2 as ->. simpl. apply String.eqb_eq. congruence.
  - rewrite H2. apply elem_of_cons in H1 as [->|[->|[]%not_elem_of_nil]%elem_of_cons];
      simpl; by apply String.eqb_eq.
  - destruct (cs_fingerprint cs _ _) as [fp|] eqn:E; simpl; [|done]. intros H. bool_prop.
    apply holds_config; [done|]. by rewrite E, H.
  - rewrite H1. simpl. apply String.eqb_refl.
  - destruct (cs_DetectGitCommit cs _ =s "") eqn:E; simpl; intros H; bool_prop;
      (apply (holds_commit cs p pre _ T6 eq_refl)); [by rewrite E, String.eqb_refl|].
    apply String.eqb_neq in E as ->. done.
  - rewrite H1, H2. destruct (commit =s "") eqn:E; simpl; apply String.eqb_refl.
  - destruct (cs_IsInstalled cs _) eqn:E; [|done]. intros _. by apply holds_toolchain.
  - by rewrite H1.
  - done.
Qed.

(** A plan is applicable exactly when each of its preconditions holds in the
    current state; a precondition of an unknown type never holds. *)
Theorem applicable_iff_preconditions_hold cs p :
  (Evaluate cs p = [] ↔ Forall (holds cs p) (P_Preconditions p)) ∧
  (∀ pre, pre ∈ P_Preconditions p → Pre_Type pre ∉ precondition_types → Evaluate cs p ≠ []).
Proof.
  assert (Evaluate cs p = [] ↔ Forall (holds cs p) (P_Preconditions p)) as Hiff.
  { unfold Evaluate. generalize (P_Preconditions p) as l.
    induction l as [|pre l IH]; [done|]. rewrite Forall_cons, <- evaluatePrecondition_holds, <- IH.
    cbn [omap list_omap]. destruct (evaluatePrecondition cs p pre) as [actual [|]]; simpl;
      [tauto|]. split; [done|by intros [? _]]. }
  split; [done|]. intros pre Hin Hty Hev. apply Hiff in Hev.
  rewrite Forall_forall in Hev. apply Hty. unfold precondition_types.
  destruct (Hev pre Hin) as [|?|?|?|?|?|?|?]; apply one_of_true; match goal with H : Pre_Type pre = _ |- _ => by rewrite H end.
Qed.

(** Capabilities: exactly those the build does not offer are reported. *)
Theorem missing_capabilities_are_exact p available c :
  c ∈ EvaluateCapabilities p available ↔ c ∈ P_Capabilities p ∧ c ∉ available.
Proof.
  unfold EvaluateCapabilities. rewrite list_elem_of_In, filter_In, <- list_elem_of_In.
  by rewrite negb_true_iff, one_of_false.
Qed.

(** ** Retention *)

Section PlanRetention.
Context (sha256_hex : hashInput → string) (unreadable : string → bool).

Lemma plan_newer_strict_weak : strict_weak newer.
Proof. apply (strict_weak_flip (λ x y, P_CreatedAt x <? P_CreatedAt y)), strict_weak_Z. Qed.

#[export] Program Instance plan_stored : StoredRecord _ := {|
  record_id := P_PlanID; record_created := P_CreatedAt; record_newer := newer;
  record_newer_order := plan_newer_strict_weak |}.
Next Obligation. intros x y H. unfold newer in H. bool_prop. lia. Qed.


(** Every listed file is stored under the id of its plan. *)
Definition names_match (s : plan_store) : Prop :=
  ∀ name p, s !! name = Some (Data p) → is_json name = true → name = json_file (P_PlanID p).

Lemma plan_List_spec s app list skipped :
  List sha256_hex unreadable no_faults s app 0 = Ok (list, skipped) →
  StronglySorted (not_after newer) list ∧
  ∀ p, p ∈ list → verified sha256_hex p ∧ ∃ name, is_json name = true ∧ s !! name = Some (Data p).
Proof.
  unfold List. simpl. set (accept := λ name, _). set (select := λ r, _).
  pose proof (elem_of_scan accept unreadable (Decode sha256_hex) select s) as Hscan.
  destruct (scan _ _ _ _ _ _) as [found sk]. simpl in Hscan.
  rewrite cut_all by done. intros [= <- <-].
  split; [apply stable_sort_by_sorted, plan_newer_strict_weak|]. intros p.
  rewrite elem_of_stable_sort, Hscan.
  intros (name & data & Hs & [Hj _]%andb_true_iff & _ & [-> Hv]%Decode_Ok & _). eauto.
Qed.

(** The retention sweep never removes a protected plan, removes only plans
    beyond the newest [max] of the others, and only older ones. *)
Theorem plan_prune_keeps_protected rm_fails max protected s list skipped :
  0 < max → names_match s →
  List sha256_hex unreadable no_faults s "" 0 = Ok (list, skipped) →
  let '(r, s') := Prune sha256_hex unreadable no_faults rm_fails max protected s in
  let others := removable (λ p, protected (P_PlanID p)) list in
  is_ok r = true ∧
  (∀ p, p ∈ list → protected (P_PlanID p) = true →
     s' !! json_file (P_PlanID p) = s !! json_file (P_PlanID p)) ∧
  (∀ name, s' !! name ≠ s !! name → ∃ v, v ∈ drop (Z.to_nat max) others ∧
     name = json_file (P_PlanID v) ∧
     ∀ p, p ∈ take (Z.to_nat max) others → P_CreatedAt v ≤ P_CreatedAt p).
Proof.
  intros Hmax Hw Hl. unfold Prune. rewrite Hl.
  replace (max <=? 0) with false by (symmetry; apply Z.leb_gt; lia).
  set (always := λ p, protected (P_PlanID p)).
  pose proof (remove_records_only rm_fails
    (List.filter ValidateID (P_PlanID <$> retain always max 0 list)) s) as Honly.
  destruct (remove_records _ _ _) as [n s']. simpl in Honly.
  pose proof (plan_List_spec _ _ _ _ Hl) as [Hsorted Hstored].
  assert (swept always max list s s') as Hswept.
  { apply sweep_correct; [done|]. intros name.
    destruct (Honly name) as [|(Hn & id & Hin & ->)]; [by left|right].
    apply list_elem_of_In, filter_In in Hin as [Hin _].
    apply list_elem_of_In, list_elem_of_fmap in Hin as (v & -> & Hv'). eauto. }
  destruct Hswept as [Hchg Hold]. split_and!; [done| |].
  - intros p Hp Hprot. destruct (Hchg (json_file (P_PlanID p))) as [|(_ & v & Hv & Heq)]; [done|].
    apply subseteq_drop, elem_of_removable in Hv as [_ Ha]. apply json_file_inj in Heq.
    simpl in Heq. unfold always in Ha. congruence.
  - intros name Hne. destruct (Hchg name) as [|(_ & v & Hv & ->)]; [done|].
    exists v. split_and!; [done..|]. intros p Hp. by apply (Hold p v).
Qed.
End PlanRetention.

(** ** Samples *)

Module PlanSamples.
Definition sha (h : hashInput) : string :=
  Act_Type (HI_Action h) +:+ Join (Pre_Type <$> HI_Preconditions h) "," +:+
  Join (HI_Capabilities h) ",".
Definition jlen (p : Plan) : Z := 100.
Definition bytes : list Byte.byte := repeat Byte.x2a 8.

Definition inputs (args : list string) : Inputs :=
  {| In_SourceDir := "/src"; In_Port := 8080; In_Tag := ""; In_BuildArgs := args;
     In_AutoRollback := false; In_SourceCommit := ""; In_StrategyOverride := "";
     In_FlagBlueGreen := false; In_FlagReplicas := 0; In_FlagCanary := 0;
     In_PortExplicit := false; In_ConfigFingerprint := ""; In_TargetVersion := 0;
     In_TargetTag := ""; In_VerifyMs := 0; In_Reason := "" |}.

Definition execution : Execution :=
  {| Ex_Strategy := "classic"; Ex_Replicas := 0; Ex_CanaryPercent := 0; Ex_Runtime := "";
     Ex_Network := ""; Ex_PublicPort := 0; Ex_Downtime := true; Ex_CurrentSlot := "";
     Ex_TargetSlot := ""; Ex_FromVersion := 0; Ex_ToVersion := 0;
     Ex_EnvSnapshotAvailable := false; Ex_Steps := [] |}.

Definition draft (args caps : list string) (pres : list Precondition) : Plan :=
  {| P_SchemaVersion := ""; P_PlanID := ""; P_PlanHash := ""; P_CreatedAt := 0;
     P_Status := StatusCreated; P_Action := mkAction ActionRebuild "api";
     P_Target := mkTarget "id1" "api" "go"; P_Inputs := inputs args;
     P_Execution := execution; P_Preconditions := pres; P_Capabilities := caps;
     P_Correlation := None |}.

Definition pre1 := mkPrecondition "app_exists" "id1" "registry".
Definition pre2 := mkPrecondition "current_version" "v1" "versions.json".
Definition draft1 := draft ["-race"] ["deploy"; "build"] [pre1; pre2].
Definition draft2 := draft ["-race"] ["build"; "deploy"] [pre2; pre1].
Definition final (now : Z) (p : Plan) : Plan :=
  match Finalize sha (Ok bytes) now p with Ok q => q | Err _ => p end.
Definition plan1 := final 1000 draft1.
Definition store1 : plan_store := {[ json_file (P_PlanID plan1) := Data plan1 ]}.

(** The build arguments of a plan are sorted although their order matters to
    the build tool: a flag and its value are swapped. *)
Example canonicalize_reorders_build_args :
  In_BuildArgs (P_Inputs (final 1000 (draft ["-ldflags"; "-X main.version=1"] [] []))) =
  ["-X main.version=1"; "-ldflags"].
Proof. by vm_compute. Qed.

Lemma store1_named : well_named store1.
Proof.
  intros id p Hs. unfold store1 in Hs. apply lookup_singleton_Some in Hs as [Heq [= <-]].
  by apply json_file_inj in Heq.
Qed.

Lemma store1_names_match : names_match store1.
Proof.
  intros name p Hs _. unfold store1 in Hs. by apply lookup_singleton_Some in Hs as [<- [= <-]].
Qed.
End PlanSamples.

Lemma plan_hash_is_canonical_witness :
  P_PlanHash (PlanSamples.final 1000 PlanSamples.draft1) =
  P_PlanHash (PlanSamples.final 2000 PlanSamples.draft2).
Proof.
  apply (plan_hash_is_canonical PlanSamples.sha (Ok PlanSamples.bytes)
    (Ok PlanSamples.bytes) 1000 2000 PlanSamples.draft1 PlanSamples.draft2
    (PlanSamples.final 1000 PlanSamples.draft1) (PlanSamples.final 2000 PlanSamples.draft2)).
  - vm_compute. reflexivity.
  - vm_compute. reflexivity.
  - intros _. vm_compute. reflexivity.
  - split_and!; try done; [apply Permutation_swap|apply Permutation_swap].
Defined.

Lemma saved_plan_is_create_only_witness :
  ∃ s', Save PlanSamples.sha PlanSamples.jlen no_faults 7 PlanSamples.plan1 ∅ = (Ok tt, s').
Proof.
  destruct (saved_plan_is_create_only PlanSamples.sha PlanSamples.jlen PlanSamples.bytes 1000
    PlanSamples.draft1 PlanSamples.plan1 7 8 PlanSamples.plan1 no_faults ∅)
    as (s' & Hs & _); [done|done|done|vm_compute; reflexivity|done|done|done|done|].
  by exists s'.
Defined.

Lemma plan_content_is_immutable_witness :
  ∃ p', Load PlanSamples.sha no_faults
          (MarkApplied PlanSamples.sha (fault_at op_sync_dir) 2000 7 (P_PlanID PlanSamples.plan1)
             "op_1" "dep-1" PlanSamples.store1).2 (P_PlanID PlanSamples.plan1) = Ok p' ∧
        P_PlanHash p' = P_PlanHash PlanSamples.plan1.
Proof.
  destruct (plan_content_is_immutable PlanSamples.sha PlanSamples.jlen PlanSamples.store1
    [CallMarkApplied (P_PlanID PlanSamples.plan1) "op_1" "dep-1"]
    (MarkApplied PlanSamples.sha (fault_at op_sync_dir) 2000 7 (P_PlanID PlanSamples.plan1)
       "op_1" "dep-1" PlanSamples.store1).2
    (P_PlanID PlanSamples.plan1) PlanSamples.plan1 PlanSamples.store1_named)
    as (p' & Hl & _ & Hh & _).
  - vm_compute. reflexivity.
  - eapply steps_cons; [apply step_applied|apply steps_nil].
  - exists p'. split; [exact Hl|exact Hh].
Defined.

Lemma applicable_iff_preconditions_hold_witness :
  Evaluate (mkCurrentState (λ _, None) (λ _, None) (λ _ _, false) (λ _, None) (λ _ _, None)
              (λ _, "") (λ _, false))
    (PlanSamples.draft [] [] [mkPrecondition "phase_of_moon" "full" "sky"]) ≠ [].
Proof.
  refine (proj2 (applicable_iff_preconditions_hold _ _)
    (mkPrecondition "phase_of_moon" "full" "sky") _ _).
  - left.
  - by apply one_of_false.
Defined.

Lemma plan_prune_keeps_protected_witness :
  (Prune PlanSamples.sha (λ _, false) no_faults (λ _, false) 1 (λ _, true) PlanSamples.store1).2
    !! json_file (P_PlanID PlanSamples.plan1) =
  PlanSamples.store1 !! json_file (P_PlanID PlanSamples.plan1).
Proof.
  pose proof (plan_prune_keeps_protected PlanSamples.sha (λ _, false) (λ _, false) 1 (λ _, true)
    PlanSamples.store1 [PlanSamples.plan1] 0 eq_refl PlanSamples.store1_names_match
    ltac:(vm_compute; reflexivity)) as H.
  destruct (Prune _ _ _ _ _ _ _) as [r s']. destruct H as (_ & H & _).
  apply H; [left|done].
Defined.
