(* ===== verification/Sessions.v ===== *)
(** * Sessions: durable agent execution sessions (src/internal/session)

    session.go: the record, its lifecycle and bounds.  store.go: the locked
    read-modify-write, the create-only insert, listing and retention.
    service.go: the verbs (create, checkpoint, complete, fail, cancel) and the
    resolution of references through the plan and operation stores.

    The per-session lock makes each verb one step on the shared store; a verb
    reads the clock once.  Lock files hold no data and are not modelled. *)

From S2P Require Import Prelude GoLib Errors Machine FileStore Retention.
From S2P Require Import OpRecord.
From S2P Require Import Plans.

(* src: internal/session/session.go SchemaVersion *)
Definition SchemaVersion := "1".
(* src: internal/session/session.go IDPrefix *)
Definition IDPrefix := "ses_".
(* src: internal/session/session.go idPattern *)
Definition idPattern : re := id_pattern "ses_".
(* src: internal/session/session.go StatusActive *)
Definition StatusActive := "active".
(* src: internal/session/session.go StatusCompleted *)
Definition StatusCompleted := "completed".
(* src: internal/session/session.go StatusFailed *)
Definition StatusFailed := "failed".
(* src: internal/session/session.go StatusCancelled *)
Definition StatusCancelled := "cancelled".
(* src: internal/session/session.go EventCreated *)
Definition EventCreated := "created".
(* src: internal/session/session.go EventCheckpoint *)
Definition EventCheckpoint := "checkpoint".
(* src: internal/session/session.go EventCompleted *)
Definition EventCompleted := "completed".
(* src: internal/session/session.go EventFailed *)
Definition EventFailed := "failed".
(* src: internal/session/session.go EventCancelled *)
Definition EventCancelled := "cancelled".
(* src: internal/session/session.go MaxTitleLen *)
Definition MaxTitleLen : Z := 200.
(* src: internal/session/session.go MaxProjectLen *)
Definition MaxProjectLen : Z := 200.
(* src: internal/session/session.go MaxAppLen *)
Definition MaxAppLen : Z := 128.
(* src: internal/session/session.go MaxStepLen *)
Definition MaxStepLen : Z := 120.
(* src: internal/session/session.go MaxNoteLen *)
Definition MaxNoteLen : Z := 500.
(* src: internal/session/session.go MaxFinalResultLen *)
Definition MaxFinalResultLen : Z := 2000.
(* src: internal/session/session.go MaxRefsPerKind *)
Definition MaxRefsPerKind : Z := 50.
(* src: internal/session/session.go MaxEvents *)
Definition MaxEvents : Z := 200.
(* src: internal/session/session.go MaxSessionBytes *)
Definition MaxSessionBytes : Z := 256 * 1024.
(* src: internal/session/store.go DefaultSessionRetention *)
Definition DefaultSessionRetention : Z := 100.

(* src: internal/session/session.go CheckpointInfo *)
Record CheckpointInfo := mkCheckpoint {
  CP_Step : string; CP_Note : string; CP_AtMs : Z; CP_Seq : Z
}.

(* src: internal/session/session.go Event *)
Record Event := mkEvent {
  Ev_Seq : Z; Ev_Type : string; Ev_AtMs : Z; Ev_Detail : string
}.

(* src: internal/session/session.go Session *)
Record Session := mkSession {
  S_SchemaVersion : string;
  S_SessionID : string;
  S_Status : string;
  S_Title : string;
  S_Project : string;
  S_App : string;
  S_Actor : option Actor;
  S_Rev : Z;
  S_CreatedAt : Z;
  S_UpdatedAt : Z;
  S_PlanIDs : list string;
  S_OperationIDs : list string;
  S_DeploymentIDs : list string;
  S_Checkpoint : option CheckpointInfo;
  S_FinalResult : string;
  S_Events : list Event
}.

Abbreviation session_store := (gmap string (content Session)).

(* src: internal/session/session.go NewID *)
Definition NewID (rnd : res (list Byte.byte)) : res string :=
  match rnd with
  | Err e => Err (wrap CodeFilesystem "generate session id" e)
  | Ok buf => Ok (IDPrefix +:+ hex_encode buf)
  end.

(* src: internal/session/session.go ValidateID *)
Definition ValidateID (id : string) : bool := match_string idPattern id.

(* src: internal/session/session.go validStatus *)
Definition validStatus (s : string) : bool :=
  one_of s [StatusActive; StatusCompleted; StatusFailed; StatusCancelled].

(* src: internal/session/session.go IsTerminal *)
Definition IsTerminal (status : string) : bool :=
  ((status =s StatusCompleted) || (status =s StatusFailed) || (status =s StatusCancelled))%bool.

(* src: internal/session/session.go Session.ensureActive *)
Definition ensureActive (s : Session) (action : string) : res unit :=
  fail_if (S_Status s <>s StatusActive) (New CodeSessionInvalidTransition
    ("session " +:+ S_SessionID s +:+ " is " +:+ S_Status s +:+ "; " +:+ Quote action +:+
     " is only valid while the session is active")).

(** The fields a verb changes. *)
Definition with_events (s : Session) (evs : list Event) : Session :=
  {| S_SchemaVersion := S_SchemaVersion s; S_SessionID := S_SessionID s; S_Status := S_Status s;
     S_Title := S_Title s; S_Project := S_Project s; S_App := S_App s; S_Actor := S_Actor s;
     S_Rev := S_Rev s; S_CreatedAt := S_CreatedAt s; S_UpdatedAt := S_UpdatedAt s;
     S_PlanIDs := S_PlanIDs s; S_OperationIDs := S_OperationIDs s;
     S_DeploymentIDs := S_DeploymentIDs s; S_Checkpoint := S_Checkpoint s;
     S_FinalResult := S_FinalResult s; S_Events := evs |}.
Definition with_refs (s : Session) (plans ops deps : list string) : Session :=
  {| S_SchemaVersion := S_SchemaVersion s; S_SessionID := S_SessionID s; S_Status := S_Status s;
     S_Title := S_Title s; S_Project := S_Project s; S_App := S_App s; S_Actor := S_Actor s;
     S_Rev := S_Rev s; S_CreatedAt := S_CreatedAt s; S_UpdatedAt := S_UpdatedAt s;
     S_PlanIDs := plans; S_OperationIDs := ops; S_DeploymentIDs := deps;
     S_Checkpoint := S_Checkpoint s; S_FinalResult := S_FinalResult s; S_Events := S_Events s |}.
Definition with_checkpoint (s : Session) (c : CheckpointInfo) : Session :=
  {| S_SchemaVersion := S_SchemaVersion s; S_SessionID := S_SessionID s; S_Status := S_Status s;
     S_Title := S_Title s; S_Project := S_Project s; S_App := S_App s; S_Actor := S_Actor s;
     S_Rev := S_Rev s; S_CreatedAt := S_CreatedAt s; S_UpdatedAt := S_UpdatedAt s;
     S_PlanIDs := S_PlanIDs s; S_OperationIDs := S_OperationIDs s;
     S_DeploymentIDs := S_DeploymentIDs s; S_Checkpoint := Some c;
     S_FinalResult := S_FinalResult s; S_Events := S_Events s |}.
Definition with_outcome (s : Session) (status final : string) : Session :=
  {| S_SchemaVersion := S_SchemaVersion s; S_SessionID := S_SessionID s; S_Status := status;
     S_Title := S_Title s; S_Project := S_Project s; S_App := S_App s; S_Actor := S_Actor s;
     S_Rev := S_Rev s; S_CreatedAt := S_CreatedAt s; S_UpdatedAt := S_UpdatedAt s;
     S_PlanIDs := S_PlanIDs s; S_OperationIDs := S_OperationIDs s;
     S_DeploymentIDs := S_DeploymentIDs s; S_Checkpoint := S_Checkpoint s;
     S_FinalResult := final; S_Events := S_Events s |}.
Definition with_rev (s : Session) (rev updated : Z) : Session :=
  {| S_SchemaVersion := S_SchemaVersion s; S_SessionID := S_SessionID s; S_Status := S_Status s;
     S_Title := S_Title s; S_Project := S_Project s; S_App := S_App s; S_Actor := S_Actor s;
     S_Rev := rev; S_CreatedAt := S_CreatedAt s; S_UpdatedAt := updated;
     S_PlanIDs := S_PlanIDs s; S_OperationIDs := S_OperationIDs s;
     S_DeploymentIDs := S_DeploymentIDs s; S_Checkpoint := S_Checkpoint s;
     S_FinalResult := S_FinalResult s; S_Events := S_Events s |}.

(* src: internal/session/session.go Session.appendEvent *)
Definition appendEvent (now : Z) (typ detail : string) (s : Session) : Session :=
  with_events s (S_Events s ++
    [{| Ev_Seq := len (S_Events s); Ev_Type := typ; Ev_AtMs := now; Ev_Detail := detail |}]).

(** [Ok (refs, added)]. *)
(* src: internal/session/session.go addRef *)
Definition addRef (refs : list string) (id : string) : res (list string * bool) :=
  if one_of id refs then Ok (refs, false)
  else if MaxRefsPerKind <=? len refs then
    Err (New CodeInvalidArgument
      ("too many references of one kind (max " +:+ Itoa MaxRefsPerKind +:+ ")"))
  else Ok (refs ++ [id], true).

(* src: internal/session/service.go CreateOpts *)
Record CreateOpts := mkCreateOpts {
  CO_Title : string; CO_Project : string; CO_App : string; CO_Actor : option Actor
}.

(* src: internal/session/service.go Refs *)
Record Refs := mkRefs {
  Refs_Plans : list string; Refs_Operations : list string; Refs_Deployments : list string
}.

(* src: internal/session/service.go Refs.empty *)
Definition Refs_empty (r : Refs) : bool :=
  ((len (Refs_Plans r) =? 0) && (len (Refs_Operations r) =? 0) &&
   (len (Refs_Deployments r) =? 0))%bool.

(* src: internal/session/service.go CheckpointOpts *)
Record CheckpointOpts := mkCheckpointOpts {
  CPO_Step : string; CPO_Note : string; CPO_Refs : Refs; CPO_ExpectRev : Z
}.

(** The loop of [add] in [applyRefs]: the list and what was newly linked. *)
(* src: internal/session/service.go:239-251 applyRefs *)
Fixpoint add_refs (refs ids : list string) : res (list string * list string) :=
  match ids with
  | [] => Ok (refs, [])
  | id :: ids' =>
      addRef refs id ≫= λ '((next, added) : list string * bool),
      add_refs next ids' ≫= λ '(final, linked),
      Ok (final, if added then id :: linked else linked)
  end.

(* src: internal/session/service.go applyRefs *)
Definition applyRefs (s : Session) (refs : Refs) : res (Session * string) :=
  add_refs (S_PlanIDs s) (Refs_Plans refs) ≫= λ '(plans, l1),
  add_refs (S_OperationIDs s) (Refs_Operations refs) ≫= λ '(ops, l2),
  add_refs (S_DeploymentIDs s) (Refs_Deployments refs) ≫= λ '(deps, l3),
  let linked := l1 ++ l2 ++ l3 in
  Ok (with_refs s plans ops deps,
      if len linked =? 0 then "" else "linked " +:+ Join linked ", ").

(* src: internal/session/service.go nonEmpty *)
Definition nonEmpty (vals : list string) : list string := List.filter (λ v, v <>s "") vals.

(* src: internal/session/service.go checkpointDetail *)
Definition checkpointDetail (step note linked : string) : string :=
  Join ((if step <>s "" then ["step=" +:+ step] else []) ++
        (if note <>s "" then [note] else []) ++
        (if linked <>s "" then [linked] else [])) "; ".

Definition cls_hex_upto (n : nat) : re :=
  foldr (λ _ r, ROpt (RSeq (RClass cls_hex) r)) REps (seq 0 n).

(* src: internal/session/service.go deploymentIDPattern *)
Definition deploymentIDPattern : re :=
  RSeq (RLit "dep-") (RSeq (RClass cls_hex) (cls_hex_upto 63)).

(** What one call sees of the host. *)
Record host := mkHost {
  h_now : Z;
  h_pid : Z;
  h_lock : faults;       (* the per-session lock *)
  h_read : faults;       (* reading the session *)
  h_write : faults;      (* writing it back *)
  h_plans : faults;      (* reading plans *)
  h_ops : faults         (* reading operation records *)
}.

(** The stores a session call works with; only the sessions are written. *)
Record world := mkWorld {
  w_sessions : session_store;
  w_plans : plan_store;
  w_ops : op_store
}.

Definition set_sessions (w : world) (s : session_store) : world :=
  {| w_sessions := s; w_plans := w_plans w; w_ops := w_ops w |}.

Definition plan_link_error (id : string) (e : error) : error :=
  wrap CodeInvalidArgument ("cannot link plan " +:+ Quote id) e.
Definition op_link_error (id : string) (e : error) : error :=
  wrap CodeInvalidArgument ("cannot link operation " +:+ Quote id) e.

Section Sessions.
Variable Redact : string → string.
(** SHA-256 of a plan's canonical JSON, and the JSON length of a session. *)
Variable plan_sha : Plans.hashInput → string.
Variable json_len : Session → Z.

(* src: internal/session/session.go boundedText *)
Definition boundedText (field value : string) (max : Z) : res string :=
  fail_if (max <? len_str value) (New CodeInvalidArgument
    (field +:+ " is " +:+ Itoa (len_str value) +:+ " bytes; the maximum is " +:+ Itoa max)) ≫= λ _,
  Ok (Redact value).

(* src: internal/session/store.go sessionPath *)
Definition sessionPath (id : string) : res string :=
  fail_if (negb (ValidateID id)) (New CodeInvalidArgument
    ("invalid session id " +:+ Quote id +:+ ": expected " +:+ IDPrefix +:+ "<16 hex chars>")) ≫= λ _,
  Ok (json_file id).

(* src: internal/session/store.go lockSession *)
Definition lockSession (h : host) (id : string) : res unit :=
  let step o msg :=
    match h_lock h o with
    | Some t => Err (wrap CodeFilesystem msg (os_err (ErrIO t)))
    | None => Ok tt
    end in
  sessionPath id ≫= λ _,
  step op_mkdir "create session store directory" ≫= λ _,
  step op_open_lock "open session lock file" ≫= λ _,
  step op_flock "acquire session lock".

(* src: internal/session/store.go Decode *)
Definition Decode (data : content Session) : res Session :=
  match data with
  | Garbage => Err (wrap CodeSessionCorrupt "session content is not a parseable session"
                      (Foreign "invalid JSON" None))
  | Data s =>
      fail_if (S_SchemaVersion s <>s SchemaVersion) (New CodeSessionInvalid
        ("session schema_version " +:+ Quote (S_SchemaVersion s) +:+ ", want " +:+
         Quote SchemaVersion +:+ " — recreate the session")) ≫= λ _,
      fail_if (negb (ValidateID (S_SessionID s)))
        (New CodeSessionInvalid ("session has malformed id " +:+ Quote (S_SessionID s))) ≫= λ _,
      fail_if (negb (validStatus (S_Status s)))
        (New CodeSessionInvalid ("session has unknown status " +:+ Quote (S_Status s))) ≫= λ _,
      Ok s
  end.

(* src: internal/session/store.go Load *)
Definition Load (fl : faults) (st : session_store) (id : string) : res Session :=
  sessionPath id ≫= λ path,
  match st !! path with
  | None => Err (New CodeNotFound ("no session " +:+ id))
  | Some data =>
      match fl op_read with
      | Some t => Err (wrap CodeFilesystem "read session" (os_err (ErrIO t)))
      | None => Decode data
      end
  end.

(** The size check of the encoded record. *)
(* src: internal/session/store.go encodeSession *)
Definition encodeSession (s : Session) : res unit :=
  fail_if (MaxSessionBytes <? json_len s) (New CodeInvalidArgument
    ("session " +:+ S_SessionID s +:+ " is " +:+ Itoa (json_len s) +:+ " bytes; the maximum is " +:+
     Itoa MaxSessionBytes)).

Definition already_exists (id : string) : error :=
  New CodeAlreadyExists ("session " +:+ id +:+ " already exists").

(* src: internal/session/store.go insert *)
Definition insert_session (h : host) (s : Session) (st : session_store) : res unit * session_store :=
  match encodeSession s with
  | Err e => (Err e, st)
  | Ok _ =>
      match h_write h op_mkdir with
      | Some t => (Err (wrap CodeFilesystem "create session store directory" (os_err (ErrIO t))), st)
      | None =>
          match sessionPath (S_SessionID s) with
          | Err e => (Err e, st)
          | Ok final =>
              run_prog (h_write h) (create_only_prog CodeFilesystem "session" "session store"
                (already_exists (S_SessionID s)) (tmp_path final (h_pid h)) final s) st
          end
      end
  end.

(* src: internal/session/store.go atomicReplace *)
Definition atomicReplace (h : host) (path : string) (s : Session) (st : session_store)
  : res unit * session_store :=
  run_prog (h_write h) (replace_prog CodeFilesystem "session" "session store"
    (tmp_path path (h_pid h)) path s) st.

(* src: internal/session/store.go update *)
Definition update (h : host) (id : string) (expectedRev : Z) (mutate : Session → res Session)
    (st : session_store) : res Session * session_store :=
  match lockSession h id with
  | Err e => (Err e, st)
  | Ok _ =>
      match Load (h_read h) st id with
      | Err e => (Err e, st)
      | Ok s =>
          if ((0 <=? expectedRev) && negb (S_Rev s =? expectedRev))%bool then
            (Err (New CodeSessionConflict
               ("session " +:+ id +:+ " is at revision " +:+ Itoa (S_Rev s) +:+ ", not " +:+
                Itoa expectedRev +:+ "; re-read it and retry")), st)
          else match mutate s with
          | Err e => (Err e, st)
          | Ok s =>
              let s := with_rev s (S_Rev s + 1) (h_now h) in
              match encodeSession s with
              | Err e => (Err e, st)
              | Ok _ =>
                  match sessionPath id with
                  | Err e => (Err e, st)
                  | Ok path =>
                      match atomicReplace h path s st with
                      | (Ok _, st') => (Ok s, st')
                      | (Err e, st') => (Err e, st')
                      end
                  end
              end
          end
      end
  end.

(** ** The verbs *)

(* src: internal/session/service.go Create *)
Definition Create (h : host) (rnd : res (list Byte.byte)) (opts : CreateOpts) (w : world)
  : res Session * world :=
  match
    boundedText "title" (CO_Title opts) MaxTitleLen ≫= λ title,
    boundedText "project" (CO_Project opts) MaxProjectLen ≫= λ project,
    fail_if (MaxAppLen <? len_str (CO_App opts)) (New CodeInvalidArgument
      ("app is " +:+ Itoa (len_str (CO_App opts)) +:+ " bytes; the maximum is " +:+
       Itoa MaxAppLen)) ≫= λ _,
    NewID rnd ≫= λ id,
    Ok (appendEvent (h_now h) EventCreated "session created"
      {| S_SchemaVersion := SchemaVersion; S_SessionID := id; S_Status := StatusActive;
         S_Title := title; S_Project := project; S_App := CO_App opts; S_Actor := CO_Actor opts;
         S_Rev := 1; S_CreatedAt := h_now h; S_UpdatedAt := h_now h; S_PlanIDs := [];
         S_OperationIDs := []; S_DeploymentIDs := []; S_Checkpoint := None;
         S_FinalResult := ""; S_Events := [] |})
  with
  | Err e => (Err e, w)
  | Ok s =>
      let '(r, st) := insert_session h s (w_sessions w) in
      (r ≫= λ _, Ok s, set_sessions w st)
  end.

(* src: internal/session/service.go validateRefs *)
Definition validateRefs (h : host) (w : world) (refs : Refs) : res unit :=
  for_each (λ id, match Plans.Load plan_sha (h_plans h) (w_plans w) id with
                  | Ok _ => Ok tt
                  | Err e => Err (plan_link_error id e)
                  end) (Refs_Plans refs) ≫= λ _,
  for_each (λ id, match OpRecord.Load (h_ops h) (w_ops w) id with
                  | Ok _ => Ok tt
                  | Err e => Err (op_link_error id e)
                  end) (Refs_Operations refs) ≫= λ _,
  for_each (λ id, fail_if (negb (match_string deploymentIDPattern id)) (New CodeInvalidArgument
              ("cannot link deployment " +:+ Quote id +:+ ": expected dep- followed by hex characters")))
    (Refs_Deployments refs).

(** The closure of [Checkpoint]. *)
(* src: internal/session/service.go:140-155 Checkpoint *)
Definition checkpoint_mutation (now : Z) (step note : string) (refs : Refs) (s : Session)
  : res Session :=
  ensureActive s "checkpoint" ≫= λ _,
  fail_if (MaxEvents <=? len (S_Events s)) (New CodeInvalidArgument
    ("session event history is full (max " +:+ Itoa MaxEvents +:+
     "); create a new session to continue tracking")) ≫= λ _,
  applyRefs s refs ≫= λ '(s, linked),
  let s := with_checkpoint s {| CP_Step := step; CP_Note := note; CP_AtMs := now;
                                CP_Seq := len (S_Events s) |} in
  Ok (appendEvent now EventCheckpoint (checkpointDetail step note linked) s).

(* src: internal/session/service.go Checkpoint *)
Definition Checkpoint (h : host) (id : string) (opts : CheckpointOpts) (w : world)
  : res Session * world :=
  match
    fail_if ((CPO_Step opts =s "") && (CPO_Note opts =s "") && Refs_empty (CPO_Refs opts))%bool
      (New CodeInvalidArgument
        "nothing to checkpoint: supply a note, a step, or at least one reference") ≫= λ _,
    boundedText "step" (CPO_Step opts) MaxStepLen ≫= λ step,
    boundedText "note" (CPO_Note opts) MaxNoteLen ≫= λ note,
    validateRefs h w (CPO_Refs opts) ≫= λ _, Ok (step, note)
  with
  | Err e => (Err e, w)
  | Ok (step, note) =>
      let '(r, st) := update h id (CPO_ExpectRev opts)
        (checkpoint_mutation (h_now h) step note (CPO_Refs opts)) (w_sessions w) in
      (r, set_sessions w st)
  end.

(** The closure of [terminal]. *)
(* src: internal/session/service.go:185-203 terminal *)
Definition terminal_mutation (now : Z) (action status eventType final : string) (refs : Refs)
    (s : Session) : res Session :=
  ensureActive s action ≫= λ _,
  applyRefs s refs ≫= λ '(s, linked),
  let s := with_outcome s status (if final <>s "" then final else S_FinalResult s) in
  let detail := TrimSpace (Join (nonEmpty [final; linked]) "; ") in
  let detail := if detail =s "" then "session " +:+ status else detail in
  Ok (appendEvent now eventType detail s).

(* src: internal/session/service.go terminal *)
Definition terminal (h : host) (id action status eventType summary : string) (refs : Refs)
    (expectRev : Z) (w : world) : res Session * world :=
  match
    boundedText "summary" summary MaxFinalResultLen ≫= λ final,
    validateRefs h w refs ≫= λ _, Ok final
  with
  | Err e => (Err e, w)
  | Ok final =>
      let '(r, st) := update h id expectRev
        (terminal_mutation (h_now h) action status eventType final refs) (w_sessions w) in
      (r, set_sessions w st)
  end.

(* src: internal/session/service.go Complete *)
Definition Complete (h : host) (id result : string) (refs : Refs) (expectRev : Z) (w : world) :=
  terminal h id "complete" StatusCompleted EventCompleted result refs expectRev w.
(* src: internal/session/service.go Fail *)
Definition Fail_session (h : host) (id reason : string) (refs : Refs) (expectRev : Z) (w : world) :=
  terminal h id "fail" StatusFailed EventFailed reason refs expectRev w.
(* src: internal/session/service.go Cancel *)
Definition Cancel (h : host) (id reason : string) (expectRev : Z) (w : world) :=
  terminal h id "cancel" StatusCancelled EventCancelled reason (mkRefs [] [] []) expectRev w.
End Sessions.

(** ** Listing and retention *)

Definition newer (x y : Session) : bool :=
  if negb (S_CreatedAt x =? S_CreatedAt y) then S_CreatedAt y <? S_CreatedAt x
  else String.ltb (S_SessionID y) (S_SessionID x).

Section SessionListing.
Variable unreadable : string → bool.

(** [Ok (sessions, skipped, truncated)]. *)
(* src: internal/session/store.go List *)
Definition List (fl : faults) (st : session_store) (status app : string) (limit : Z)
  : res (list Session * Z * bool) :=
  match fl op_read_dir with
  | Some t => Err (wrap CodeFilesystem "read session store directory" (os_err (ErrIO t)))
  | None =>
      let accept name := (is_json name && negb (contains ".tmp-" name))%bool in
      let select s := (((status =s "") || (S_Status s =s status)) &&
                       ((app =s "") || (S_App s =s app)))%bool in
      let '(found, skipped) := scan accept unreadable Decode select st (dir_names st) in
      let found := stable_sort_by newer found in
      Ok (cut limit found, skipped, ((0 <? limit) && (limit <? len found))%bool)
  end.

(* src: internal/session/store.go removeSessionArtifacts *)
Definition removeSessionArtifacts (rm_fails : string → bool) (id : string) (st : session_store)
  : Z * session_store :=
  match sessionPath id with
  | Err _ => (0, st)
  | Ok path =>
      match st !! path with
      | Some _ => if rm_fails id then (0, st) else (1, delete path st)
      | None => (0, st)
      end
  end.

(* src: internal/session/store.go:289-296 PruneTerminal *)
Fixpoint remove_sessions (rm_fails : string → bool) (ids : list string) (st : session_store)
  : Z * session_store :=
  match ids with
  | [] => (0, st)
  | id :: ids' =>
      let '(n, st1) := removeSessionArtifacts rm_fails id st in
      let '(m, st2) := remove_sessions rm_fails ids' st1 in
      (n + m, st2)
  end.

(* src: internal/session/store.go PruneTerminal *)
Definition PruneTerminal (fl : faults) (rm_fails : string → bool) (max : Z) (st : session_store)
  : res Z * session_store :=
  let max := if max <=? 0 then DefaultSessionRetention else max in
  match List fl st "" "" 0 with
  | Err e => (Err e, st)
  | Ok (all, _, _) =>
      let victims := retain (λ s, negb (IsTerminal (S_Status s))) max 0 all in
      let '(pruned, st') := remove_sessions rm_fails (S_SessionID <$> victims) st in
      (Ok pruned, st')
  end.
End SessionListing.

(** ** Reference resolution *)

(* src: internal/session/view.go RefPresent *)
Definition RefPresent := "present".
(* src: internal/session/view.go RefMissing *)
Definition RefMissing := "missing".
(* src: internal/session/view.go RefUnavailable *)
Definition RefUnavailable := "unavailable".
(* src: internal/session/view.go RefUnknown *)
Definition RefUnknown := "unknown".

(* src: internal/session/view.go RefView *)
Record RefView := mkRefView {
  RV_ID : string; RV_Present : bool; RV_State : string; RV_Status : string;
  RV_Detail : string; RV_ErrorCode : string
}.

(* src: internal/session/view.go Resolved *)
Record Resolved := mkResolved {
  RR_Plans : list RefView; RR_Operations : list RefView; RR_Deployments : list RefView
}.

(* src: internal/session/view.go SessionResult *)
Record SessionResult := mkSessionResult {
  SR_Session : Session; SR_Resolved : option Resolved
}.

(* src: internal/session/service.go refErr *)
Definition refErr (id : string) (err : error) : RefView :=
  if decide (CodeOf (Some err) = CodeNotFound)
  then mkRefView id false RefMissing "" "" ""
  else mkRefView id false RefUnavailable "" "" (Code_String (CodeOf (Some err))).

(** The newest record of each deployment id, from a newest-first list. *)
(* src: internal/session/service.go:333-342 Resolve *)
Definition index_deployments (recs : list OpRecord) : gmap string OpRecord :=
  foldl (λ m rec, if R_DeploymentID rec <>s "" then
                    match m !! R_DeploymentID rec with
                    | Some _ => m
                    | None => <[R_DeploymentID rec := rec]> m
                    end
                  else m) ∅ recs.

Section Resolution.
Variable plan_sha : Plans.hashInput → string.
Variable unreadable : string → bool.

(* src: internal/session/service.go Resolve *)
Definition Resolve (h : host) (w : world) (s : Session) : Resolved :=
  let plans := (λ id,
    match Plans.Load plan_sha (h_plans h) (w_plans w) id with
    | Ok p => mkRefView id true RefPresent (P_Status p) (P_PlanHash p) ""
    | Err e => refErr id e
    end) <$> S_PlanIDs s in
  let operations := (λ id,
    match OpRecord.Load (h_ops h) (w_ops w) id with
    | Ok rec => mkRefView id true RefPresent (R_Status rec) (R_Kind rec) ""
    | Err e => refErr id e
    end) <$> S_OperationIDs s in
  let scan := if len (S_DeploymentIDs s) =? 0 then Ok ∅
              else OpRecord.List unreadable (h_ops h) (w_ops w) "" 0 ≫= λ '(recs, _),
                   Ok (index_deployments recs) in
  let deployments := (λ id,
    match scan with
    | Err e => refErr id e
    | Ok depByID =>
        match depByID !! id with
        | Some rec => mkRefView id true RefPresent (R_Status rec) ("operation " +:+ R_ID rec) ""
        | None => mkRefView id false RefUnknown "" "" ""
        end
    end) <$> S_DeploymentIDs s in
  mkResolved plans operations deployments.

(* src: internal/session/service.go Show *)
Definition Show_session (h : host) (w : world) (id : string) (resolve : bool) : res SessionResult :=
  Load (h_read h) (w_sessions w) id ≫= λ s,
  Ok (mkSessionResult s (if resolve then Some (Resolve h w s) else None)).
End Resolution.

(** ** Well-formed sessions *)

Definition terminal_statuses : list string := [StatusCompleted; StatusFailed; StatusCancelled].

(** The event types of a session in a given status: created, then checkpoints,
    then at most one closing event, named like the terminal status. *)
Inductive lifecycle_events : string → list string → Prop :=
| le_created : lifecycle_events StatusActive [EventCreated]
| le_checkpoint tys :
    lifecycle_events StatusActive tys → len tys < MaxEvents →
    lifecycle_events StatusActive (tys ++ [EventCheckpoint])
| le_close tys st :
    lifecycle_events StatusActive tys → st ∈ terminal_statuses →
    lifecycle_events st (tys ++ [st]).

Definition refs_ok (refs : list string) : Prop := NoDup refs ∧ len refs ≤ MaxRefsPerKind.

Definition session_wf (s : Session) : Prop :=
  S_SchemaVersion s = SchemaVersion ∧ ValidateID (S_SessionID s) = true ∧
  S_Rev s = len (S_Events s) ∧
  (∀ i ev, S_Events s !! i = Some ev → Ev_Seq ev = Z.of_nat i) ∧
  lifecycle_events (S_Status s) (Ev_Type <$> S_Events s) ∧
  refs_ok (S_PlanIDs s) ∧ refs_ok (S_OperationIDs s) ∧ refs_ok (S_DeploymentIDs s).

Lemma lifecycle_status st tys : lifecycle_events st tys → st = StatusActive ∨ st ∈ terminal_statuses.
Proof. destruct 1; auto. Qed.

Lemma lifecycle_len st tys :
  lifecycle_events st tys → len tys ≤ MaxEvents + 1 ∧ (st = StatusActive → len tys ≤ MaxEvents).
Proof.
  induction 1 as [|tys H [_ IH] Hl|tys st H [_ IH] Hst]; rewrite ?len_app; unfold len, MaxEvents in *;
    simpl in *; [lia|split; lia|].
  specialize (IH eq_refl). split; [lia|]. intros ->. exfalso.
  apply one_of_true in Hst. discriminate.
Qed.

Lemma terminal_status_iff st : st ∈ terminal_statuses ↔ IsTerminal st = true.
Proof.
  rewrite <- one_of_true. unfold one_of, IsTerminal. simpl. by rewrite orb_false_r, orb_assoc.
Qed.

Lemma valid_status st : st = StatusActive ∨ st ∈ terminal_statuses → validStatus st = true.
Proof. intros H. apply one_of_true. destruct H as [->|H]; [left|by right]. Qed.

(** ** What a mutation does *)

(** [s'] is [s] with one more event and possibly more references; what
    identifies the session is untouched. *)
Definition extends (s s' : Session) : Prop :=
  S_SchemaVersion s' = S_SchemaVersion s ∧ S_SessionID s' = S_SessionID s ∧
  S_Title s' = S_Title s ∧ S_Project s' = S_Project s ∧ S_App s' = S_App s ∧
  S_Actor s' = S_Actor s ∧ S_CreatedAt s' = S_CreatedAt s ∧
  S_PlanIDs s `prefix_of` S_PlanIDs s' ∧ S_OperationIDs s `prefix_of` S_OperationIDs s' ∧
  S_DeploymentIDs s `prefix_of` S_DeploymentIDs s' ∧
  S_Events s `prefix_of` S_Events s'.

Lemma addRef_ok refs id refs' b :
  addRef refs id = Ok (refs', b) → refs_ok refs → refs_ok refs' ∧ refs `prefix_of` refs' ∧ id ∈ refs'.
Proof.
  unfold addRef. destruct (one_of id refs) eqn:E; bool_prop; [by intros [= <- _]|].
  destruct (_ <=? _) eqn:El; [done|]. bool_prop. intros [= <- _] [Hnd Hl]. split_and!.
  - split; [|rewrite len_app; unfold len in *; simpl; lia].
    apply NoDup_app. split_and!; [done| |apply NoDup_singleton].
    by intros x Hx ->%list_elem_of_singleton.
  - by apply prefix_app_r.
  - set_solver.
Qed.

Lemma add_refs_ok ids refs refs' linked :
  add_refs refs ids = Ok (refs', linked) → refs_ok refs →
  refs_ok refs' ∧ refs `prefix_of` refs' ∧ ids ⊆ refs'.
Proof.
  revert refs linked. induction ids as [|id ids IH]; intros refs linked; simpl.
  { intros [= <- _] ?. split_and!; [done|done|]. intros x Hx. inversion Hx. }
  intros H Hok. inv_result. destruct a as [next added]. inv_result. destruct a as [fin l].
  inv_result. apply addRef_ok in Ha as (Hok' & Hp & Hin); [|done].
  apply IH in Ha0 as (Hok'' & Hp' & Hsub); [|done].
  simplify_eq. split_and!; [done|by etrans|]. intros x [->|Hx]%elem_of_cons; [|by apply Hsub].
  destruct Hp' as [k ->]. set_solver.
Qed.

Lemma applyRefs_ok s refs s' linked :
  applyRefs s refs = Ok (s', linked) →
  refs_ok (S_PlanIDs s) → refs_ok (S_OperationIDs s) → refs_ok (S_DeploymentIDs s) →
  ∃ p o d, s' = with_refs s p o d ∧ refs_ok p ∧ refs_ok o ∧ refs_ok d ∧
    S_PlanIDs s `prefix_of` p ∧ S_OperationIDs s `prefix_of` o ∧ S_DeploymentIDs s `prefix_of` d ∧
    Refs_Plans refs ⊆ p ∧ Refs_Operations refs ⊆ o ∧ Refs_Deployments refs ⊆ d.
Proof.
  unfold applyRefs. intros H Hp Ho Hd. inv_result. destruct a as [p l1]. inv_result.
  destruct a as [o l2]. inv_result. destruct a as [d l3]. inv_result.
  apply add_refs_ok in Ha as (? & ? & ?); [|done]. apply add_refs_ok in Ha0 as (? & ? & ?); [|done].
  apply add_refs_ok in Ha1 as (? & ? & ?); [|done]. exists p, o, d. simplify_eq. by split_and!.
Qed.

Section SessionLemmas.
Context (json_len : Session → Z).

(** One successful mutation, with the revision and time of [update]: exactly
    one event is appended to an active session. *)
Definition mutation_ok (mutate : Session → res Session) (types : list string) : Prop :=
  ∀ s s1, session_wf s → mutate s = Ok s1 →
    S_Status s = StatusActive ∧ extends s s1 ∧
    ∃ ty at_ms detail, ty ∈ types ∧
      S_Rev s1 = S_Rev s ∧
      S_Events s1 = S_Events s ++ [mkEvent (len (S_Events s)) ty at_ms detail] ∧
      S_Status s1 = (if ty =s EventCheckpoint then StatusActive else ty) ∧
      (ty = EventCheckpoint → len (S_Events s) < MaxEvents) ∧
      refs_ok (S_PlanIDs s1) ∧ refs_ok (S_OperationIDs s1) ∧ refs_ok (S_DeploymentIDs s1).

Local Ltac linked_refs s linked :=
  match goal with H : applyRefs _ _ = Ok ?x |- _ =>
    destruct x as [s linked]; rename H into Hrefs; inv_result end.

Lemma checkpoint_mutation_ok now step note refs :
  mutation_ok (checkpoint_mutation now step note refs) [EventCheckpoint].
Proof.
  intros s s1 (Hsc & Hid & Hrev & Hseq & Hl & Hp & Ho & Hd) H.
  unfold checkpoint_mutation, ensureActive in H. inv_result. linked_refs s2 linked.
  bool_prop. apply applyRefs_ok in Hrefs as (p & o & d & -> & ? & ? & ? & ? & ? & ? & _); [|done..].
  split; [done|]. split; [split_and!; simpl; auto; by apply prefix_app_r|].
  exists EventCheckpoint, now, (checkpointDetail step note linked). simpl. split_and!; auto. left.
Qed.

Lemma terminal_mutation_ok now action status final refs :
  status ∈ terminal_statuses →
  mutation_ok (terminal_mutation now action status status final refs) [status].
Proof.
  intros Hst s s1 (Hsc & Hid & Hrev & Hseq & Hl & Hp & Ho & Hd) H.
  unfold terminal_mutation, ensureActive in H. inv_result. linked_refs s2 linked.
  bool_prop. apply applyRefs_ok in Hrefs as (p & o & d & -> & ? & ? & ? & ? & ? & ? & _); [|done..].
  split; [done|]. split; [split_and!; simpl; auto; by apply prefix_app_r|].
  exists status, now. eexists. simpl. split_and!; auto; [left| |].
  - destruct (status =s EventCheckpoint) eqn:E; [|done]. bool_prop. subst.
    apply one_of_true in Hst. discriminate.
  - intros ->. apply one_of_true in Hst. discriminate.
Qed.

Lemma mutation_wf mutate types s s1 now :
  types ⊆ EventCheckpoint :: terminal_statuses →
  mutation_ok mutate types → session_wf s → mutate s = Ok s1 →
  session_wf (with_rev s1 (S_Rev s1 + 1) now).
Proof.
  intros Hty Hm Hwf Hs1. destruct (Hm s s1 Hwf Hs1) as (Hact & Hext & ty & t & dt & Hin & Hrev &
    Hev & Hst & Hlen & Hp & Ho & Hd).
  destruct Hwf as (Hsc & Hid & Hrev0 & Hseq & Hl & _).
  destruct Hext as (Hsc1 & Hid1 & _). unfold session_wf. simpl. rewrite Hsc1, Hid1, Hev.
  split_and!; auto.
  - rewrite len_app, Hrev, Hrev0. done.
  - intros i ev [Hi|[Hi Hi']]%lookup_app_Some; [by apply Hseq|].
    apply list_lookup_singleton_Some in Hi' as [Hi' <-]. simpl. unfold len. lia.
  - rewrite fmap_app. simpl. rewrite Hst. rewrite Hact in Hl.
    apply Hty in Hin as Hin'. destruct (ty =s EventCheckpoint) eqn:E; bool_prop.
    + subst. apply le_checkpoint; [done|]. rewrite len_fmap. auto.
    + apply le_close; [done|]. set_solver.
Qed.

(** The effect of an update that reaches the disk. *)
Definition written (h : host) (id : string) (rev : Z) (mutate : Session → res Session)
    (st : session_store) (s' : Session) (st' : session_store) : Prop :=
  ∃ s0 s1, st !! json_file id = Some (Data s0) ∧ (0 ≤ rev → S_Rev s0 = rev) ∧
    mutate s0 = Ok s1 ∧ s' = with_rev s1 (S_Rev s1 + 1) (h_now h) ∧
    ∀ id', st' !! json_file id' = if decide (id' = id) then Some (Data s') else st !! json_file id'.

Definition untouched (st st' : session_store) : Prop :=
  ∀ id, st' !! json_file id = st !! json_file id.

Lemma Decode_inv data s :
  Decode data = Ok s → data = Data s ∧ S_SchemaVersion s = SchemaVersion ∧
    ValidateID (S_SessionID s) = true ∧ validStatus (S_Status s) = true.
Proof.
  unfold Decode. destruct data as [|s0]; [done|]. intros H. inv_result. by bool_prop.
Qed.

Lemma Decode_wf s : session_wf s → Decode (Data s) = Ok s.
Proof.
  intros (Hsc & Hid & _ & _ & Hl & _). unfold Decode.
  rewrite Hsc, Hid, String.eqb_refl. simpl.
  apply lifecycle_status, valid_status in Hl as ->. done.
Qed.

Lemma Load_inv fl st id s :
  Load fl st id = Ok s → ValidateID id = true ∧ st !! json_file id = Some (Data s).
Proof.
  unfold Load, sessionPath. intros H. inv_result. bool_prop.
  destruct (st !! json_file id) as [data|]; [|done]. destruct (fl op_read); [done|].
  by apply Decode_inv in H as [-> _].
Qed.

Lemma Load_wf st id s :
  st !! json_file id = Some (Data s) → S_SessionID s = id → session_wf s →
  Load no_faults st id = Ok s.
Proof.
  intros Hs Hid Hwf. unfold Load, sessionPath. pose proof Hwf as (_ & Hv & _).
  rewrite Hid in Hv. rewrite Hv. simpl. rewrite Hs. by apply Decode_wf.
Qed.

(** How an update can end. *)
Lemma update_spec h id rev mutate st r st' :
  update json_len h id rev mutate st = (r, st') →
  match r with
  | Ok s' => written h id rev mutate st s' st'
  | Err _ => untouched st st' ∨ ∃ s', written h id rev mutate st s' st'
  end.
Proof.
  unfold update. destruct (lockSession h id); [|intros [= <- <-]; by left].
  destruct (Load (h_read h) st id) as [s0|] eqn:Hl; [|intros [= <- <-]; by left].
  apply Load_inv in Hl as [Hid Hs0].
  destruct (_ && _)%bool eqn:Hrev; [intros [= <- <-]; by left|].
  destruct (mutate s0) as [s1|] eqn:Hm; [|intros [= <- <-]; by left].
  destruct (encodeSession _ _); [|intros [= <- <-]; by left].
  unfold sessionPath. rewrite Hid. simpl.
  set (s' := with_rev s1 (S_Rev s1 + 1) (h_now h)).
  pose proof (replace_outcomes (h_write h) st CodeFilesystem "session" "session store"
    (tmp_path (json_file id) (h_pid h)) (json_file id) s' (tmp_path_ne _ _)) as Hout.
  unfold atomicReplace. destruct (run_prog _ _ st) as [r1 st1].
  assert (written h id rev mutate st s' (<[json_file id := Data s']> st)) as Hw.
  { exists s0, s1. split_and!; auto.
    - intros Hge. apply andb_false_iff in Hrev as [Hr|Hr]; bool_prop; [lia|done].
    - intros id'. case_decide as Hd; [by subst; rewrite lookup_insert_eq|].
      rewrite lookup_insert_ne; [done|]. by intros ?%json_file_inj. }
  destruct Hout as [_|e f' _ Hf|e _ _]; intros [= <- <-]; [done| |by right; exists s'].
  left. intros id'. apply Hf, json_file_ne_tmp.
Qed.

(** The invariant of the store. *)
Definition valid_sessions (st : session_store) : Prop :=
  ∀ id s, st !! json_file id = Some (Data s) → S_SessionID s = id ∧ session_wf s.

(** Every session of [st] is in [st'], with a history that extends its own. *)
Definition history_kept (st st' : session_store) : Prop :=
  ∀ id s, st !! json_file id = Some (Data s) →
    ∃ s', st' !! json_file id = Some (Data s') ∧ extends s s' ∧
      (s' = s ∨ (S_Status s = StatusActive ∧ S_Rev s < S_Rev s')).

Lemma extends_refl s : extends s s.
Proof. by split_and!. Qed.

Lemma extends_trans s1 s2 s3 : extends s1 s2 → extends s2 s3 → extends s1 s3.
Proof.
  intros (?&?&?&?&?&?&?&?&?&?&?) (?&?&?&?&?&?&?&?&?&?&?). split_and!; try congruence; by etrans.
Qed.

Lemma history_kept_untouched st st' : untouched st st' → history_kept st st'.
Proof. intros Hu id s Hs. exists s. rewrite Hu. split_and!; auto using extends_refl. Qed.

Lemma history_kept_trans st1 st2 st3 :
  history_kept st1 st2 → history_kept st2 st3 → history_kept st1 st3.
Proof.
  intros H12 H23 id s Hs. destruct (H12 id s Hs) as (s2 & Hs2 & He2 & Hc2).
  destruct (H23 id s2 Hs2) as (s3 & Hs3 & He3 & Hc3). exists s3.
  split_and!; [done|by eapply extends_trans|].
  destruct Hc2 as [->|[? ?]]; [done|]. right. split; [done|].
  destruct Hc3 as [->|[? ?]]; [done|]. lia.
Qed.

Lemma written_keeps h id rev mutate types st s' st' :
  types ⊆ EventCheckpoint :: terminal_statuses → mutation_ok mutate types →
  valid_sessions st → written h id rev mutate st s' st' →
  valid_sessions st' ∧ history_kept st st'.
Proof.
  intros Hty Hm Hv (s0 & s1 & Hs0 & _ & Hs1 & -> & Hst').
  destruct (Hv _ _ Hs0) as [Hid Hwf]. pose proof (Hm _ _ Hwf Hs1) as (Hact & Hext & ty & t & d & _ & Hrev & _).
  split.
  - intros id' s. rewrite Hst'. case_decide as Hd; [|by apply Hv]. intros [= <-]. subst id'.
    split; [destruct Hext as (_ & He & _); simpl; congruence|by eapply mutation_wf].
  - intros id' s Hs. rewrite Hst'. case_decide as Hd.
    + subst id'. rewrite Hs0 in Hs. injection Hs as <-. eexists. split_and!; [done| |].
      * destruct Hext as (?&?&?&?&?&?&?&?&?&?&?). by split_and!.
      * right. split; [done|]. simpl. lia.
    + exists s. split_and!; auto using extends_refl.
Qed.
End SessionLemmas.

(** ** Histories *)

Inductive session_call :=
| CallCreate (r : res Session)
| CallUpdate (id : string) (expectRev : Z) (r : res Session)
| CallOther.

Section SessionHistories.
Context (Redact : string → string) (plan_sha : Plans.hashInput → string)
  (json_len : Session → Z).

(** One call of any process with any faults; between calls other stores
    change freely. *)
Inductive session_step : world → session_call → world → Prop :=
| ss_create h buf opts w :
    length buf = 8%nat →
    session_step w (CallCreate (Create Redact json_len h (Ok buf) opts w).1)
      (Create Redact json_len h (Ok buf) opts w).2
| ss_checkpoint h id opts w :
    session_step w (CallUpdate id (CPO_ExpectRev opts)
                      (Checkpoint Redact plan_sha json_len h id opts w).1)
      (Checkpoint Redact plan_sha json_len h id opts w).2
| ss_complete h id result refs rev w :
    session_step w (CallUpdate id rev (Complete Redact plan_sha json_len h id result refs rev w).1)
      (Complete Redact plan_sha json_len h id result refs rev w).2
| ss_fail h id reason refs rev w :
    session_step w (CallUpdate id rev (Fail_session Redact plan_sha json_len h id reason refs rev w).1)
      (Fail_session Redact plan_sha json_len h id reason refs rev w).2
| ss_cancel h id reason rev w :
    session_step w (CallUpdate id rev (Cancel Redact plan_sha json_len h id reason rev w).1)
      (Cancel Redact plan_sha json_len h id reason rev w).2
| ss_other w plans ops :
    session_step w CallOther (mkWorld (w_sessions w) plans ops).

(** What an updating verb does, whatever fails. *)
Lemma verb_spec w id rev r w' :
  session_step w (CallUpdate id rev r) w' →
  (is_ok r = false ∧ untouched (w_sessions w) (w_sessions w')) ∨
  ∃ h mutate types s', types ⊆ EventCheckpoint :: terminal_statuses ∧
    mutation_ok mutate types ∧ written h id rev mutate (w_sessions w) s' (w_sessions w') ∧
    (r = Ok s' ∨ is_ok r = false).
Proof.
  assert (∀ h mutate types, types ⊆ EventCheckpoint :: terminal_statuses →
    mutation_ok mutate types →
    let x := update json_len h id rev mutate (w_sessions w) in
    r = x.1 → w' = set_sessions w x.2 →
    (is_ok r = false ∧ untouched (w_sessions w) (w_sessions w')) ∨
    ∃ h mutate types s', types ⊆ EventCheckpoint :: terminal_statuses ∧
      mutation_ok mutate types ∧ written h id rev mutate (w_sessions w) s' (w_sessions w') ∧
      (r = Ok s' ∨ is_ok r = false)) as Hupd.
  { intros h mutate types Hty Hm x -> ->. unfold x. clear x. simpl.
    destruct (update json_len h id rev mutate (w_sessions w)) as [r st'] eqn:Hu. simpl.
    apply update_spec in Hu. destruct r as [s'|e].
    - right. exists h, mutate, types, s'. by split_and!; auto.
    - destruct Hu as [Hu|[s' Hu]]; [by left|]. right. exists h, mutate, types, s'.
      by split_and!; auto. }
  assert (∀ x : string, x ∈ terminal_statuses → [x] ⊆ EventCheckpoint :: terminal_statuses) as Hone.
  { intros x Hx y ->%list_elem_of_singleton. by right. }
  intros Hstep. inversion Hstep; subst; clear Hstep.
  - unfold Checkpoint in *. destruct (fail_if _ _ ≫= _) as [[step note]|]; [|by left].
    destruct (update _ _ _ _ _ _) as [r st'] eqn:Hu. eapply (Hupd h _ [EventCheckpoint]).
    + intros y ->%list_elem_of_singleton. left.
    + apply checkpoint_mutation_ok.
    + by rewrite Hu.
    + by rewrite Hu.
  - unfold Complete, terminal in *. destruct (boundedText _ _ _ _ ≫= _) as [final|]; [|by left].
    destruct (update _ _ _ _ _ _) as [r st'] eqn:Hu. apply (Hupd h (terminal_mutation (h_now h) "complete" StatusCompleted EventCompleted final refs) [StatusCompleted]);
      [apply Hone; left|apply terminal_mutation_ok; left|by rewrite Hu..].
  - unfold Fail_session, terminal in *. destruct (boundedText _ _ _ _ ≫= _) as [final|]; [|by left].
    destruct (update _ _ _ _ _ _) as [r st'] eqn:Hu. apply (Hupd h (terminal_mutation (h_now h) "fail" StatusFailed EventFailed final refs) [StatusFailed]);
      [apply Hone; right; left|apply terminal_mutation_ok; right; left|by rewrite Hu..].
  - unfold Cancel, terminal in *. destruct (boundedText _ _ _ _ ≫= _) as [final|]; [|by left].
    destruct (update _ _ _ _ _ _) as [r st'] eqn:Hu. apply (Hupd h (terminal_mutation (h_now h) "cancel" StatusCancelled EventCancelled final (mkRefs [] [] [])) [StatusCancelled]);
      [apply Hone; right; right; left|apply terminal_mutation_ok; right; right; left|by rewrite Hu..].
Qed.

(** The session that [Create] assembles. *)
Lemma created_wf now id title project app actor :
  ValidateID id = true →
  session_wf (appendEvent now EventCreated "session created"
    {| S_SchemaVersion := SchemaVersion; S_SessionID := id; S_Status := StatusActive;
       S_Title := title; S_Project := project; S_App := app; S_Actor := actor;
       S_Rev := 1; S_CreatedAt := now; S_UpdatedAt := now; S_PlanIDs := [];
       S_OperationIDs := []; S_DeploymentIDs := []; S_Checkpoint := None;
       S_FinalResult := ""; S_Events := [] |}).
Proof.
  intros Hid. split_and!; simpl; auto; try by split; [apply NoDup_nil_2|].
  - intros i ev [Hi Hev]%list_lookup_singleton_Some. subst. simpl. done.
  - apply le_created.
Qed.

Local Ltac nothing_written :=
  split_and!; [by apply created_wf|done|done|by right|done|by left].

Lemma create_spec h buf opts w :
  length buf = 8%nat →
  let '(r, w') := Create Redact json_len h (Ok buf) opts w in
  ∃ s, session_wf s ∧ S_SessionID s = IDPrefix +:+ hex_encode buf ∧ S_Status s = StatusActive ∧
    (r = Ok s ∨ is_ok r = false) ∧
    (r = Ok s → w_sessions w' !! json_file (S_SessionID s) = Some (Data s)) ∧
    ∀ id, w_sessions w' !! json_file id = w_sessions w !! json_file id ∨
          (id = S_SessionID s ∧ w_sessions w !! json_file id = None ∧
           w_sessions w' !! json_file id = Some (Data s)).
Proof.
  intros Hbuf. unfold Create.
  assert (ValidateID (IDPrefix +:+ hex_encode buf) = true) as Hid
    by (by apply (match_minted_id "ses_")).
  destruct (boundedText Redact "title" (CO_Title opts) MaxTitleLen) as [title|]; simpl.
  2: { exists (appendEvent 0 EventCreated "session created" (mkSession SchemaVersion
         (IDPrefix +:+ hex_encode buf) StatusActive "" "" "" None 1 0 0 [] [] [] None "" [])).
       by nothing_written. }
  destruct (boundedText Redact "project" (CO_Project opts) MaxProjectLen) as [project|]; simpl.
  2: { exists (appendEvent 0 EventCreated "session created" (mkSession SchemaVersion
         (IDPrefix +:+ hex_encode buf) StatusActive "" "" "" None 1 0 0 [] [] [] None "" [])).
       by nothing_written. }
  destruct (MaxAppLen <? len_str (CO_App opts)); simpl.
  { exists (appendEvent 0 EventCreated "session created" (mkSession SchemaVersion
      (IDPrefix +:+ hex_encode buf) StatusActive "" "" "" None 1 0 0 [] [] [] None "" [])).
    by nothing_written. }
  set (s := appendEvent _ _ _ _).
  assert (session_wf s) as Hwf by (by apply created_wf).
  destruct (insert_session json_len h s (w_sessions w)) as [r st] eqn:Hins. exists s. revert Hins.
  unfold insert_session, sessionPath.
  destruct (encodeSession json_len s); simpl; [|intros [= <- <-]; by nothing_written].
  destruct (h_write h op_mkdir); simpl; [intros [= <- <-]; by nothing_written|].
  change (S_SessionID s) with (IDPrefix +:+ hex_encode buf). rewrite Hid. simpl.
  pose proof (λ id, create_only_adds (h_write h) (w_sessions w) CodeFilesystem "session"
    "session store" (already_exists (IDPrefix +:+ hex_encode buf))
    (tmp_path (json_file (IDPrefix +:+ hex_encode buf)) (h_pid h))
    (json_file (IDPrefix +:+ hex_encode buf)) s (json_file id) (tmp_path_ne _ _)
    (json_file_ne_tmp _ _ _)) as Hadds. simpl in Hadds.
  intros Hrun. rewrite Hrun in Hadds. simpl in *. split_and!; auto.
  - destruct r; [by left|by right].
  - destruct r as [[]|]; [|done]. intros _.
    apply create_only_Ok in Hrun as (_ & Hs & _); [done|apply tmp_path_ne].
  - intros id. destruct (Hadds id) as [?|(Heq & ? & ?)]; [by left|right].
    by apply json_file_inj in Heq.
Qed.

Lemma session_step_keeps w c w' :
  session_step w c w' → valid_sessions (w_sessions w) →
  valid_sessions (w_sessions w') ∧ history_kept (w_sessions w) (w_sessions w').
Proof.
  intros Hstep Hv. destruct c as [r|id rev r|].
  - inversion Hstep as [h buf opts w0 Hbuf| | | | |]; subst.
    pose proof (create_spec h buf opts w Hbuf) as Hc.
    destruct (Create _ _ _ _ _ _) as [r w'].
    destruct Hc as (s & Hwf & Hid & _ & _ & _ & Hst). simpl. split.
    + intros id s0 Hs0. destruct (Hst id) as [Heq|(-> & _ & Heq)]; [apply Hv; congruence|].
      rewrite Heq in Hs0. by injection Hs0 as <-.
    + intros id s0 Hs0. destruct (Hst id) as [Heq|(_ & Hnone & _)]; [|congruence].
      exists s0. rewrite Heq. split_and!; auto using extends_refl.
  - destruct (verb_spec _ _ _ _ _ Hstep) as [[_ Hu]|(h & m & types & s' & Hty & Hm & Hw & _)].
    + split; [|by apply history_kept_untouched]. intros id' s. rewrite Hu. apply Hv.
    + by eapply written_keeps.
  - inversion Hstep; subst. simpl. split; [done|]. by apply history_kept_untouched.
Qed.

Lemma session_history_keeps w ls w' :
  steps session_step w ls w' → valid_sessions (w_sessions w) →
  valid_sessions (w_sessions w') ∧ history_kept (w_sessions w) (w_sessions w').
Proof.
  induction 1 as [w|w c w1 ls w2 Hstep _ IH]; intros Hv.
  { split; [done|]. by apply history_kept_untouched. }
  destruct (session_step_keeps _ _ _ Hstep Hv) as [Hv1 Hk1]. destruct (IH Hv1) as [Hv2 Hk2].
  split; [done|]. by eapply history_kept_trans.
Qed.

(** History is append-only: over any calls, a session keeps its identity
    and every event and reference it had; a terminal session never changes
    again, byte for byte. *)
Theorem session_history_is_append_only w ls w' id s :
  steps session_step w ls w' → valid_sessions (w_sessions w) →
  Sessions.Load no_faults (w_sessions w) id = Ok s →
  ∃ s', Sessions.Load no_faults (w_sessions w') id = Ok s' ∧
    S_Events s `prefix_of` S_Events s' ∧
    S_PlanIDs s `prefix_of` S_PlanIDs s' ∧ S_OperationIDs s `prefix_of` S_OperationIDs s' ∧
    S_DeploymentIDs s `prefix_of` S_DeploymentIDs s' ∧
    S_CreatedAt s' = S_CreatedAt s ∧ S_Actor s' = S_Actor s ∧
    (IsTerminal (S_Status s) = true → s' = s).
Proof.
  intros Hsteps Hv Hl. destruct (session_history_keeps _ _ _ Hsteps Hv) as [Hv' Hk].
  apply Load_inv in Hl as [_ Hs]. destruct (Hk _ _ Hs) as (s' & Hs' & Hext & Hch).
  destruct (Hv' _ _ Hs') as [Hid' Hwf']. exists s'.
  destruct Hext as (?&?&?&?&?&?&?&?&?&?&?). split_and!; auto.
  - by apply Load_wf.
  - intros Ht. destruct Hch as [?|[Hact _]]; [done|]. by rewrite Hact in Ht.
Qed.

(** Optimistic concurrency loses no update: a verb that succeeds with an
    expected revision acted on exactly that revision, and added exactly one
    event to what it held; with a stale revision or a terminal session it
    fails and changes nothing. *)
Theorem successful_update_saw_expected_revision w id rev s' w' :
  valid_sessions (w_sessions w) → 0 ≤ rev →
  session_step w (CallUpdate id rev (Ok s')) w' →
  ∃ s ev, Sessions.Load no_faults (w_sessions w) id = Ok s ∧
    S_Rev s = rev ∧ S_Status s = StatusActive ∧
    S_Rev s' = rev + 1 ∧ S_Events s' = S_Events s ++ [ev] ∧
    Sessions.Load no_faults (w_sessions w') id = Ok s' ∧
    ∀ id', id' ≠ id →
      Sessions.Load no_faults (w_sessions w') id' = Sessions.Load no_faults (w_sessions w) id'.
Proof.
  intros Hv Hrev Hstep.
  pose proof (session_step_keeps _ _ _ Hstep Hv) as [Hv' _].
  destruct (verb_spec _ _ _ _ _ Hstep) as [[Hf _]|(h & m & types & s2 & Hty & Hm & Hw & Hr)]; [done|].
  destruct Hr as [[= <-]|?]; [|done].
  destruct Hw as (s0 & s1 & Hs0 & Hexp & Hs1 & Heq & Hst').
  destruct (Hv _ _ Hs0) as [Hid Hwf].
  destruct (Hm _ _ Hwf Hs1) as (Hact & Hext & ty & t & d & _ & Hrev1 & Hev & _).
  assert (w_sessions w' !! json_file id = Some (Data s')) as Hs'
    by (rewrite Hst'; by rewrite decide_True).
  destruct (Hv' _ _ Hs') as [Hid' Hwf'].
  exists s0. eexists. specialize (Hexp Hrev). split_and!.
  - by apply Load_wf.
  - done.
  - done.
  - rewrite Heq. simpl. lia.
  - rewrite Heq. simpl. by rewrite Hev.
  - by apply Load_wf.
  - intros id' Hne. unfold Load, sessionPath. destruct (negb (ValidateID id')); [done|]. simpl.
    rewrite Hst'. by rewrite decide_False.
Qed.
End SessionHistories.

Lemma for_each_load {A B} (load : A → res B) (f : A → error → error) ids u :
  for_each (λ id, match load id with Ok _ => Ok tt | Err e => Err (f id e) end) ids = Ok u →
  ∀ id, id ∈ ids → is_ok (load id) = true.
Proof.
  destruct u. intros Hall%for_each_Ok id Hid. rewrite Forall_forall in Hall.
  specialize (Hall id Hid). by destruct (load id).
Qed.

Lemma validateRefs_Ok plan_sha h w refs :
  validateRefs plan_sha h w refs = Ok tt →
  (∀ p, p ∈ Refs_Plans refs → is_ok (Plans.Load plan_sha (h_plans h) (w_plans w) p) = true) ∧
  (∀ o, o ∈ Refs_Operations refs → is_ok (OpRecord.Load (h_ops h) (w_ops w) o) = true) ∧
  (∀ d, d ∈ Refs_Deployments refs → match_string deploymentIDPattern d = true).
Proof.
  unfold validateRefs. intros H. inv_result.
  pose proof (for_each_load (Plans.Load plan_sha (h_plans h) (w_plans w)) plan_link_error _ _ Ha).
  pose proof (for_each_load (OpRecord.Load (h_ops h) (w_ops w)) op_link_error _ _ Ha0).
  split_and!; [done|done|]. apply for_each_Ok in H. intros d Hd. rewrite Forall_forall in H.
  specialize (H d Hd). apply fail_if_Ok in H. by apply negb_false_iff in H.
Qed.

(** A checkpoint that succeeds stored the redacted text within its bounds
    and linked only references that were verified: plans that load with a valid
    hash, operations that load, well-formed deployment ids. *)
Theorem checkpoint_records_validated_input Redact plan_sha json_len h id opts w s' w' :
  valid_sessions (w_sessions w) →
  Checkpoint Redact plan_sha json_len h id opts w = (Ok s', w') →
  len_str (CPO_Step opts) ≤ MaxStepLen ∧ len_str (CPO_Note opts) ≤ MaxNoteLen ∧
  (∃ seq, S_Checkpoint s' = Some (mkCheckpoint (Redact (CPO_Step opts)) (Redact (CPO_Note opts))
                                    (h_now h) seq) ∧ seq = len (S_Events s') - 1) ∧
  (∀ p, p ∈ Refs_Plans (CPO_Refs opts) →
     p ∈ S_PlanIDs s' ∧ is_ok (Plans.Load plan_sha (h_plans h) (w_plans w) p) = true) ∧
  (∀ o, o ∈ Refs_Operations (CPO_Refs opts) →
     o ∈ S_OperationIDs s' ∧ is_ok (OpRecord.Load (h_ops h) (w_ops w) o) = true) ∧
  (∀ d, d ∈ Refs_Deployments (CPO_Refs opts) →
     d ∈ S_DeploymentIDs s' ∧ match_string deploymentIDPattern d = true).
Proof.
  intros Hv. unfold Checkpoint.
  destruct (fail_if _ _ ≫= _) as [[step note]|] eqn:Hpre; [|done].
  unfold boundedText in Hpre. inv_result. bool_prop.
  destruct (update _ _ _ _ _ _) as [r st] eqn:Hu. intros [= -> <-].
  apply update_spec in Hu as (s0 & s1 & Hs0 & _ & Hs1 & -> & _). destruct (Hv _ _ Hs0) as [_ Hwf].
  destruct Hwf as (_ & _ & _ & _ & _ & Hp & Ho & Hd).
  unfold checkpoint_mutation in Hs1. inv_result.
  match goal with H : applyRefs _ _ = Ok ?x |- _ => destruct x as [s2 linked]; rename H into Hrefs end.
  inv_result. apply applyRefs_ok in Hrefs as (p & o & d & -> & _ & _ & _ & _ & _ & _ & Hsp & Hso & Hsd);
    [|done..].
  match goal with H : validateRefs _ _ _ _ = Ok _ |- _ => apply validateRefs_Ok in H as (H1 & H2 & H3) end.
  simpl. split_and!; auto.
  eexists. split; [done|]. rewrite len_app. unfold len. simpl. lia.
Qed.

(** Resolving a deployment reference finds the same operation record as the
    direct lookup by deployment id, with one scan for all references. *)
Theorem deployment_index_matches_lookup recs id :
  id ≠ "" →
  index_deployments recs !! id = List.find (λ r, R_DeploymentID r =s id) recs.
Proof.
  intros Hid. unfold index_deployments.
  set (step := λ (m : gmap string OpRecord) rec, _).
  assert (∀ m, foldl step m recs !! id =
    match m !! id with Some r => Some r | None => List.find (λ r, R_DeploymentID r =s id) recs end)
    as Hgen; [|rewrite Hgen; by rewrite lookup_empty].
  induction recs as [|rec recs IH]; intros m; simpl; [by destruct (m !! id)|].
  rewrite IH. unfold step at 1. destruct (R_DeploymentID rec =s id) eqn:E; bool_prop.
  - rewrite E. apply String.eqb_neq in Hid as ->. simpl.
    destruct (m !! id) eqn:Em; [by rewrite Em|]. by rewrite lookup_insert_eq.
  - destruct (R_DeploymentID rec =s ""); simpl; [done|].
    destruct (m !! R_DeploymentID rec); [done|]. by rewrite lookup_insert_ne.
Qed.

(** ** Retention *)

Section SessionRetention.
Context (unreadable : string → bool).

Lemma session_newer_strict_weak : strict_weak newer.
Proof.
  apply (strict_weak_lex (λ x y, S_CreatedAt x =? S_CreatedAt y)
           (λ x y, S_CreatedAt y <? S_CreatedAt x)
           (λ x y, String.ltb (S_SessionID y) (S_SessionID x))).
  - apply (strict_weak_flip (λ x y, S_CreatedAt x <? S_CreatedAt y)), strict_weak_Z.
  - apply (strict_weak_flip (λ x y, String.ltb (S_SessionID x) (S_SessionID y))),
      strict_weak_string.
  - intros x y. rewrite Z.eqb_eq, !Z.ltb_ge. lia.
Qed.

#[export] Program Instance session_stored : StoredRecord _ := {|
  record_id := S_SessionID; record_created := S_CreatedAt; record_newer := newer;
  record_newer_order := session_newer_strict_weak |}.
Next Obligation. intros x y H. unfold newer in H. destruct (S_CreatedAt x =? S_CreatedAt y) eqn:E; simpl in H; bool_prop; lia. Qed.


Lemma session_List_spec st status app all skipped trunc :
  List unreadable no_faults st status app 0 = Ok (all, skipped, trunc) →
  StronglySorted (not_after newer) all ∧
  ∀ s, s ∈ all → ValidateID (S_SessionID s) = true ∧
    ∃ name, is_json name = true ∧ st !! name = Some (Data s).
Proof.
  unfold List. simpl. set (accept := λ name, _). set (select := λ s, _).
  pose proof (elem_of_scan accept unreadable Decode select st) as Hscan.
  destruct (scan _ _ _ _ _ _) as [found sk]. simpl in Hscan.
  rewrite cut_all by done. intros [= <- <- <-].
  split; [apply stable_sort_by_sorted, session_newer_strict_weak|]. intros s.
  rewrite elem_of_stable_sort, Hscan.
  intros (name & data & Hs & [Hj _]%andb_true_iff & _ & (-> & _ & Hv & _)%Decode_inv & _). eauto.
Qed.

Lemma remove_sessions_only rm_fails ids st name :
  let st' := (remove_sessions rm_fails ids st).2 in
  st' !! name = st !! name ∨ st' !! name = None ∧ ∃ id, id ∈ ids ∧ name = json_file id.
Proof.
  cbv zeta. revert st. induction ids as [|id ids IH]; intros st; cbn [remove_sessions]; [by left|].
  unfold removeSessionArtifacts, sessionPath.
  assert (∀ n st1, (st1 = st ∨ st1 = delete (json_file id) st) →
    let st' := (let '(m, st2) := remove_sessions rm_fails ids st1 in (n + m, st2)).2 in
    st' !! name = st !! name ∨ st' !! name = None ∧
      ∃ id0, id0 ∈ id :: ids ∧ name = json_file id0) as Hgo.
  { intros n st1 Hst1. specialize (IH st1). destruct (remove_sessions rm_fails ids st1) as [m st2].
    simpl in *. destruct IH as [Heq|(Hn & id0 & Hin & ->)]; [|right; eauto using list_elem_of_further].
    destruct Hst1 as [->| ->]; [by left|]. destruct (decide (name = json_file id)) as [->|Hnn].
    - right. rewrite lookup_delete_eq in Heq. split; [done|]. exists id. split; [left|done].
    - left. by rewrite lookup_delete_ne in Heq. }
  destruct (ValidateID id); simpl; [|apply Hgo; by left].
  destruct (st !! json_file id); [destruct (rm_fails id)|]; apply Hgo; auto.
Qed.

(** The retention sweep removes only terminal sessions beyond the newest
    [max] terminal ones; an active session is never removed. *)
Theorem session_prune_keeps_active rm_fails max st all skipped trunc :
  0 < max → valid_sessions st →
  List unreadable no_faults st "" "" 0 = Ok (all, skipped, trunc) →
  let '(r, st') := PruneTerminal unreadable no_faults rm_fails max st in
  let ended := removable (λ s, negb (IsTerminal (S_Status s))) all in
  is_ok r = true ∧
  ∀ name, st' !! name ≠ st !! name → ∃ v, v ∈ drop (Z.to_nat max) ended ∧
    name = json_file (S_SessionID v) ∧ st !! name = Some (Data v) ∧
    IsTerminal (S_Status v) = true ∧
    ∀ s, s ∈ take (Z.to_nat max) ended → S_CreatedAt v ≤ S_CreatedAt s.
Proof.
  intros Hmax Hw Hl. unfold PruneTerminal. rewrite Hl.
  replace (max <=? 0) with false by (symmetry; apply Z.leb_gt; lia).
  set (always := λ s, negb (IsTerminal (S_Status s))).
  pose proof (remove_sessions_only rm_fails (S_SessionID <$> retain always max 0 all) st) as Honly.
  destruct (remove_sessions _ _ _) as [n st']. simpl in Honly.
  pose proof (session_List_spec _ _ _ _ _ _ Hl) as [Hsorted Hstored].
  assert (swept always max all st st') as [Hchg Hold].
  { apply sweep_correct; [done|]. intros name. specialize (Honly name).
    setoid_rewrite list_elem_of_fmap in Honly. naive_solver. }
  split; [done|]. intros name Hne. destruct (Hchg name) as [|(_ & v & Hv & ->)]; [done|].
  exists v. assert (v ∈ removable always all) as [Hin Ha]%elem_of_removable by by eapply subseteq_drop.
  split_and!; [done|done| | |].
  - destruct (Hstored v Hin) as (_ & name & [id ->]%HasSuffix_inv & Hs).
    by destruct (Hw id v Hs) as [<- _].
  - by apply negb_false_iff in Ha.
  - intros s Hs. by apply (Hold s v).
Qed.
End SessionRetention.

(** ** Calls and sweeps together *)

Section StoreHistories.
Context (Redact : string → string) (plan_sha : Plans.hashInput → string)
  (json_len : Session → Z).

(** A call, the removal of one record at any moment (a sweep that runs beside
    other calls, with the list it read earlier), or a sweep as a whole. *)
Inductive store_step : world → unit → world → Prop :=
| st_call c w w' : session_step Redact plan_sha json_len w c w' → store_step w tt w'
| st_remove rm_fails id w :
    store_step w tt (set_sessions w (removeSessionArtifacts rm_fails id (w_sessions w)).2)
| st_prune unreadable fl rm_fails max w :
    store_step w tt (set_sessions w (PruneTerminal unreadable fl rm_fails max (w_sessions w)).2).

Lemma valid_removed rm_fails ids st : valid_sessions st → valid_sessions (remove_sessions rm_fails ids st).2.
Proof.
  intros Hv id s Hs. destruct (remove_sessions_only rm_fails ids st (json_file id)) as [Heq|[Hnone _]].
  - apply Hv. by rewrite <- Heq.
  - by rewrite Hnone in Hs.
Qed.

Lemma store_step_valid w l w' :
  store_step w l w' → valid_sessions (w_sessions w) → valid_sessions (w_sessions w').
Proof.
  intros [c w1 w2 Hstep|rm_fails id w1|unreadable fl rm_fails max w1] Hv; cbn.
  - by destruct (session_step_keeps _ _ _ _ _ _ Hstep Hv).
  - pose proof (valid_removed rm_fails [id] _ Hv) as H. cbn in H.
    by destruct (removeSessionArtifacts rm_fails id (w_sessions w1)).
  - unfold PruneTerminal. destruct (List _ _ _ _ _ _) as [[[all sk] tr]|e]; [|done].
    pose proof (valid_removed rm_fails (S_SessionID <$> retain (λ s, negb (IsTerminal (S_Status s)))
      (if max <=? 0 then DefaultSessionRetention else max) 0 all) _ Hv) as H.
    by destruct (remove_sessions _ _ _).
Qed.

(** C10: every session on disk is well formed at all times, whatever calls fail
    and however calls, retention sweeps and single removals of different
    processes interleave: the revision counts the events, the events are
    numbered without gaps and follow the lifecycle, references are distinct and
    bounded. *)
Theorem sessions_stay_well_formed w ls w' id s :
  steps store_step w ls w' → valid_sessions (w_sessions w) →
  Sessions.Load no_faults (w_sessions w') id = Ok s →
  session_wf s ∧ S_Rev s = len (S_Events s) ∧ len (S_Events s) ≤ MaxEvents + 1.
Proof.
  intros Hsteps Hv Hl.
  assert (valid_sessions (w_sessions w')) as Hv'.
  { apply (steps_invariant store_step (λ w, valid_sessions (w_sessions w)) store_step_valid _ _ _ Hsteps Hv). }
  apply Load_inv in Hl as [_ Hs]. destruct (Hv' _ _ Hs) as [_ Hwf].
  pose proof Hwf as (_ & _ & Hrev & _ & Hl & _). split_and!; [done|done|].
  apply lifecycle_len in Hl as [Hl _]. by rewrite len_fmap in Hl.
Qed.
End StoreHistories.

(** ** Samples *)

Module SessionSamples.
Definition jlen (s : Session) : Z := 1000.
Definition sha (h : Plans.hashInput) : string := "h".
Definition bytes : list Byte.byte := repeat Byte.x2a 8.
Definition quiet (t : Z) : host := mkHost t 7 no_faults no_faults no_faults no_faults no_faults.
Definition opts := mkCreateOpts "upgrade" "proj" "api" (Some CLIActor).
Definition no_refs := mkRefs [] [] [].
Definition empty : world := mkWorld ∅ ∅ ∅.
Definition created := Create id jlen (quiet 1000) (Ok bytes) opts empty.
Definition sid := IDPrefix +:+ hex_encode bytes.
Definition cp := mkCheckpointOpts "build" "" (mkRefs [] [] ["dep-0a"]) 1.
Definition checked := Checkpoint id sha jlen (quiet 2000) sid cp created.2.
Definition completed := Complete id sha jlen (quiet 3000) sid "ok" no_refs 2 checked.2.

Definition the {A} (r : res A) (d : A) : A := match r with Ok x => x | Err _ => d end.
Definition dummy : Session :=
  mkSession "" "" "" "" "" "" None 0 0 0 [] [] [] None "" [].

Lemma empty_valid : valid_sessions (w_sessions empty).
Proof. intros id s Hs. simpl in Hs. by rewrite lookup_empty in Hs. Qed.

Lemma run_valid : valid_sessions (w_sessions created.2).
Proof.
  refine (proj1 (session_step_keeps id sha jlen empty _ created.2 _ empty_valid)).
  by apply (ss_create id sha jlen (quiet 1000) bytes opts empty).
Qed.

Definition history := steps (session_step id sha jlen) created.2
  [CallUpdate sid 1 checked.1; CallUpdate sid 2 completed.1] completed.2.

Lemma history_holds : history.
Proof.
  eapply steps_cons; [apply (ss_checkpoint id sha jlen (quiet 2000) sid cp)|].
  eapply steps_cons; [apply (ss_complete id sha jlen (quiet 3000) sid)|apply steps_nil].
Qed.

(** The same, and a sweep that has nothing to remove. *)
Definition swept : world :=
  set_sessions completed.2 (PruneTerminal (λ _, false) no_faults (λ _, false) 1 (w_sessions completed.2)).2.

Lemma history_with_sweep : steps (store_step id sha jlen) created.2 [tt; tt; tt] swept.
Proof.
  eapply steps_cons; [eapply st_call; apply (ss_checkpoint id sha jlen (quiet 2000) sid cp)|].
  eapply steps_cons; [eapply st_call; apply (ss_complete id sha jlen (quiet 3000) sid)|].
  eapply steps_cons; [apply (st_prune id sha jlen (λ _, false) no_faults (λ _, false) 1)|apply steps_nil].
Qed.

Example a_terminal_session_refuses :
  is_ok completed.1 = true ∧
  is_ok (Checkpoint id sha jlen (quiet 4000) sid
           (mkCheckpointOpts "more" "" no_refs (-1)) completed.2).1 = false.
Proof. by vm_compute. Qed.
End SessionSamples.

Lemma sessions_stay_well_formed_witness :
  session_wf (SessionSamples.the SessionSamples.completed.1 SessionSamples.dummy).
Proof.
  refine (proj1 (sessions_stay_well_formed id SessionSamples.sha SessionSamples.jlen
    SessionSamples.created.2 _ SessionSamples.swept SessionSamples.sid _
    SessionSamples.history_with_sweep SessionSamples.run_valid _)).
  vm_compute. reflexivity.
Defined.

Lemma session_history_is_append_only_witness :
  ∃ s', Sessions.Load no_faults (w_sessions SessionSamples.completed.2) SessionSamples.sid = Ok s' ∧
    S_Events (SessionSamples.the SessionSamples.created.1 SessionSamples.dummy)
      `prefix_of` S_Events s'.
Proof.
  destruct (session_history_is_append_only id SessionSamples.sha SessionSamples.jlen
    SessionSamples.created.2 _ SessionSamples.completed.2 SessionSamples.sid
    (SessionSamples.the SessionSamples.created.1 SessionSamples.dummy)
    SessionSamples.history_holds SessionSamples.run_valid) as (s' & Hl & Hev & _).
  - vm_compute. reflexivity.
  - exists s'. split; [exact Hl|exact Hev].
Defined.

Lemma successful_update_saw_expected_revision_witness :
  ∃ s ev, Sessions.Load no_faults (w_sessions SessionSamples.created.2) SessionSamples.sid = Ok s ∧
    S_Rev s = 1 ∧
    S_Events (SessionSamples.the SessionSamples.checked.1 SessionSamples.dummy) = S_Events s ++ [ev].
Proof.
  destruct (successful_update_saw_expected_revision id SessionSamples.sha SessionSamples.jlen
    SessionSamples.created.2 SessionSamples.sid 1
    (SessionSamples.the SessionSamples.checked.1 SessionSamples.dummy) SessionSamples.checked.2
    SessionSamples.run_valid) as (s & ev & Hl & Hr & _ & _ & Hev & _); [done| |].
  - exact (ss_checkpoint id SessionSamples.sha SessionSamples.jlen (SessionSamples.quiet 2000)
      SessionSamples.sid SessionSamples.cp SessionSamples.created.2).
  - exists s, ev. split; [exact Hl|]. split; [exact Hr|exact Hev].
Defined.

Lemma checkpoint_records_validated_input_witness :
  "dep-0a" ∈ S_DeploymentIDs (SessionSamples.the SessionSamples.checked.1 SessionSamples.dummy).
Proof.
  destruct (checkpoint_records_validated_input id SessionSamples.sha SessionSamples.jlen
    (SessionSamples.quiet 2000) SessionSamples.sid SessionSamples.cp SessionSamples.created.2
    (SessionSamples.the SessionSamples.checked.1 SessionSamples.dummy) SessionSamples.checked.2
    SessionSamples.run_valid) as (_ & _ & _ & _ & _ & H).
  - vm_compute. reflexivity.
  - apply (H "dep-0a"). left.
Defined.

Lemma deployment_index_matches_lookup_witness :
  index_deployments [OpRecord.Records.record "a" "succeeded" 2] !! "dep-1" =
  Some (OpRecord.Records.record "a" "succeeded" 2).
Proof.
  exact (deployment_index_matches_lookup [OpRecord.Records.record "a" "succeeded" 2] "dep-1"
    (ltac:(discriminate))).
Defined.

Lemma session_prune_keeps_active_witness :
  is_ok (PruneTerminal (λ _, false) no_faults (λ _, false) 1
           (w_sessions SessionSamples.created.2)).1 = true.
Proof.
  pose proof (session_prune_keeps_active (λ _, false) (λ _, false) 1
    (w_sessions SessionSamples.created.2)
    [SessionSamples.the SessionSamples.created.1 SessionSamples.dummy] 0 false eq_refl
    SessionSamples.run_valid ltac:(vm_compute; reflexivity)) as H.
  destruct (PruneTerminal _ _ _ _ _) as [r st']. destruct H as [H _]. exact H.
Defined.
