(* ===== verification/Sweeps.v ===== *)
(** * Retention sweeps across the stores

    cmd/retention.go runs after an operation record, a plan or a session was
    created.  It is the only place that sees the session, plan, operation and
    approval stores together: it collects the ids other stores refer to and
    passes them to the sweeps of the leaf packages as protected.  Here the
    three functions are composed from the stores' own definitions and shown to
    keep everything an active session refers to. *)

From S2P Require Import Prelude GoLib Errors Machine FileStore Retention Approval OpRecord Plans.
From S2P Require Import Sessions.

Section Sweeps.
Context (plan_sha : Plans.hashInput → string).
Context (approval_sha : approvalHashInput → string) (file_len : content Approval → Z)
        (approvals_dir : string).

(** The stores a sweep works with. *)
Record stores := mkStores {
  st_sessions : session_store;
  st_plans : plan_store;
  st_ops : op_store;
  st_approvals : gmap string (content Approval)
}.

(** What a sweep meets: faults of the directory listings, files that cannot be
    read, approvals that cannot be read and removals that fail. *)
Record sweep_env := mkSweepEnv {
  se_sessions : faults;
  se_plans : faults;
  se_ops : faults;
  se_approvals : faults;
  se_unreadable : string → bool;
  se_rm_fails : string → bool
}.

(** [session.List(session.StatusActive, "", 0)], empty when it fails. *)
(* src: cmd/retention.go:31-32 pruneOperationRecords *)
Definition active_sessions (h : sweep_env) (w : stores) : list Session :=
  match Sessions.List (se_unreadable h) (se_sessions h) (st_sessions w) StatusActive "" 0 with
  | Ok (active, _, _) => active
  | Err _ => []
  end.

(** [plans.List("", 0)], empty when it fails. *)
(* src: cmd/retention.go:38-39 pruneOperationRecords *)
Definition all_plans (h : sweep_env) (w : stores) : list Plan :=
  match Plans.List plan_sha (se_unreadable h) (se_plans h) (st_plans w) "" 0 with
  | Ok (list, _) => list
  | Err _ => []
  end.

(* src: cmd/retention.go:30-44 pruneOperationRecords *)
Definition protected_operations (h : sweep_env) (w : stores) : list string :=
  concat (S_OperationIDs <$> active_sessions h w) ++
  List.filter (λ id, id <>s "") ((λ p, CorrelationOperationID (Some p)) <$> all_plans h w).

(* src: cmd/retention.go pruneOperationRecords *)
Definition pruneOperationRecords (h : sweep_env) (w : stores) : stores :=
  let protected := protected_operations h w in
  {| st_sessions := st_sessions w; st_plans := st_plans w;
     st_ops := (OpRecord.Prune (se_unreadable h) (se_ops h) (se_rm_fails h) 0
                  (λ id, one_of id protected) (st_ops w)).2;
     st_approvals := st_approvals w |}.

(** [ap, _ := authz.LoadApproval(id); ap != nil]. *)
(* src: cmd/retention.go:65-67 prunePlans *)
Definition has_approval (h : sweep_env) (w : stores) (id : string) : bool :=
  match LoadApproval approval_sha file_len approvals_dir (se_approvals h) (st_approvals w) id with
  | Ok (Some _) => true
  | _ => false
  end.

(* src: cmd/retention.go:54-68 prunePlans *)
Definition protected_plans (h : sweep_env) (w : stores) : list string :=
  concat (S_PlanIDs <$> active_sessions h w) ++
  List.filter (has_approval h w) (P_PlanID <$> all_plans h w).

(* src: cmd/retention.go prunePlans *)
Definition prunePlans (h : sweep_env) (w : stores) : stores :=
  let protected := protected_plans h w in
  {| st_sessions := st_sessions w;
     st_plans := (Plans.Prune plan_sha (se_unreadable h) (se_plans h) (se_rm_fails h) 0
                    (λ id, one_of id protected) (st_plans w)).2;
     st_ops := st_ops w; st_approvals := st_approvals w |}.

(* src: cmd/retention.go pruneSessions *)
Definition pruneSessions (h : sweep_env) (w : stores) : stores :=
  {| st_sessions := (Sessions.PruneTerminal (se_unreadable h) (se_sessions h) (se_rm_fails h) 0
                       (st_sessions w)).2;
     st_plans := st_plans w; st_ops := st_ops w; st_approvals := st_approvals w |}.

(** The sweeps of any number of commands, in any order. *)
Inductive sweep := SweepOperations | SweepPlans | SweepSessions.

Definition run_sweep (w : stores) (c : sweep * sweep_env) : stores :=
  match c with
  | (SweepOperations, h) => pruneOperationRecords h w
  | (SweepPlans, h) => prunePlans h w
  | (SweepSessions, h) => pruneSessions h w
  end.

(** ** What the sweeps leave alone *)

Lemma op_sweep_only unreadable fl rm_fails max protected (s : op_store) (name : string) :
  let s' := (OpRecord.Prune unreadable fl rm_fails max protected s).2 in
  s' !! name = s !! name ∨
  s' !! name = None ∧ ∃ v, protected (R_ID v) = false ∧ in_flight v = false ∧
                           name = json_file (R_ID v).
Proof.
  cbv zeta. unfold OpRecord.Prune. destruct (OpRecord.List _ _ _ _ _) as [[recs sk]|e]; [|by left].
  set (max' := if max <=? 0 then _ else max).
  pose proof (remove_records_only rm_fails
    (R_ID <$> retain (λ r, (in_flight r || protected (R_ID r))%bool) max' 0 recs) s name) as Honly.
  destruct (remove_records _ _ _) as [n s']. simpl in *.
  destruct Honly as [|(Hn & id & (v & -> & [_ Hv]%retain_removable)%list_elem_of_fmap & ->)]; [by left|].
  right. bool_prop. eauto.
Qed.

Lemma plan_sweep_only unreadable fl rm_fails max protected (s : plan_store) (name : string) :
  let s' := (Plans.Prune plan_sha unreadable fl rm_fails max protected s).2 in
  s' !! name = s !! name ∨
  s' !! name = None ∧ ∃ v, protected (P_PlanID v) = false ∧ name = json_file (P_PlanID v).
Proof.
  cbv zeta. unfold Plans.Prune. destruct (Plans.List _ _ _ _ _ _) as [[l sk]|e]; [|by left].
  set (max' := if max <=? 0 then _ else max).
  pose proof (remove_records_only rm_fails (List.filter Plans.ValidateID
    (P_PlanID <$> retain (λ p, protected (P_PlanID p)) max' 0 l)) s name) as Honly.
  destruct (remove_records _ _ _) as [n s']. simpl in *.
  destruct Honly as [|(Hn & id & Hin & ->)]; [by left|]. right.
  apply list_elem_of_In, filter_In in Hin as [Hin _].
  apply list_elem_of_In, list_elem_of_fmap in Hin as (v & -> & [_ Hv]%retain_removable). eauto.
Qed.

Lemma session_List_healthy unreadable fl st status app limit r :
  Sessions.List unreadable fl st status app limit = Ok r →
  Sessions.List unreadable no_faults st status app limit = Ok r.
Proof. unfold Sessions.List. by destruct (fl op_read_dir). Qed.

(** An active session stays stored. *)
Lemma session_sweep_only unreadable fl rm_fails max (st : session_store) id s :
  valid_sessions st → st !! json_file id = Some (Data s) → IsTerminal (S_Status s) = false →
  (Sessions.PruneTerminal unreadable fl rm_fails max st).2 !! json_file id = Some (Data s).
Proof.
  intros Hw Hs Hact. unfold Sessions.PruneTerminal.
  destruct (Sessions.List _ _ _ _ _ _) as [[[all sk] tr]|e] eqn:Hl; [|done].
  apply session_List_healthy in Hl. set (max' := if max <=? 0 then _ else max).
  pose proof (remove_sessions_only rm_fails
    (S_SessionID <$> retain (λ s, negb (IsTerminal (S_Status s))) max' 0 all) st (json_file id)) as Ho.
  destruct (remove_sessions _ _ _) as [n st']. simpl in *.
  destruct Ho as [->|(_ & id' & (v & -> & [Hin Hv]%retain_removable)%list_elem_of_fmap & Heq)]; [done|].
  exfalso. apply json_file_inj in Heq. apply negb_false_iff in Hv.
  apply session_List_spec in Hl as [_ Hl]. destruct (Hl v Hin) as (_ & nm & [i ->]%HasSuffix_inv & Hst).
  destruct (Hw i v Hst) as [Hi _]. change (i +:+ ".json") with (json_file i) in Hst.
  rewrite <- Hi, <- Heq in Hst. congruence.
Qed.

(** ** What the protected sets contain *)

(** A directory listing that works and files that can be read; removals and
    the listing of the operation records may fail. *)
Definition healthy (h : sweep_env) : Prop :=
  se_sessions h op_read_dir = None ∧ se_plans h op_read_dir = None ∧
  se_approvals h op_read = None ∧ ∀ name, se_unreadable h name = false.

Lemma active_sessions_spec h w id s :
  healthy h → st_sessions w !! json_file id = Some (Data s) → contains ".tmp-" (json_file id) = false →
  session_wf s → S_Status s = StatusActive → s ∈ active_sessions h w.
Proof.
  intros (Hf & _ & _ & Hu) Hs Hc Hw Hact. unfold active_sessions, Sessions.List. rewrite Hf.
  set (accept := λ name, _). set (select := λ s, _).
  pose proof (elem_of_scan accept (se_unreadable h) Sessions.Decode select (st_sessions w) s) as Hscan.
  destruct (scan _ _ _ _ _ _) as [found sk]. simpl in *.
  rewrite cut_all, elem_of_stable_sort, Hscan by done. exists (json_file id), (Data s).
  split_and!; [done| |done|by apply Decode_wf|]; unfold accept, select.
  - by rewrite is_json_file, Hc.
  - rewrite Hact. by vm_compute.
Qed.

Lemma all_plans_spec h w id p :
  healthy h → st_plans w !! json_file id = Some (Data p) → contains ".tmp-" (json_file id) = false →
  Plans.Decode plan_sha (Data p) = Ok p → p ∈ all_plans h w.
Proof.
  intros (_ & Hf & _ & Hu) Hs Hc Hd. unfold all_plans, Plans.List. rewrite Hf.
  set (accept := λ name, _). set (select := λ p, _).
  pose proof (elem_of_scan accept (se_unreadable h) (Plans.Decode plan_sha) select (st_plans w) p) as Hscan.
  destruct (scan _ _ _ _ _ _) as [found sk]. simpl in *.
  rewrite cut_all, elem_of_stable_sort, Hscan by done. exists (json_file id), (Data p).
  split_and!; [done| |done|done|done]. unfold accept. by rewrite is_json_file, Hc.
Qed.

Lemma op_Load_ext (s s' : op_store) id : s' !! json_file id = s !! json_file id →
  OpRecord.Load no_faults s' id = OpRecord.Load no_faults s id.
Proof. unfold OpRecord.Load. by intros ->. Qed.

Lemma plan_Load_ext (s s' : plan_store) id : s' !! json_file id = s !! json_file id →
  Plans.Load plan_sha no_faults s' id = Plans.Load plan_sha no_faults s id.
Proof. unfold Plans.Load, planPath. destruct (Plans.ValidateID id); [|done]. by intros H; simpl; rewrite H. Qed.

(** What is held: an active session [s] under [id], or an approved plan [p]. *)
Definition held_session (w : stores) (id : string) (s : Session) : Prop :=
  valid_sessions (st_sessions w) ∧ st_sessions w !! json_file id = Some (Data s) ∧
  S_Status s = StatusActive ∧ contains ".tmp-" (json_file id) = false.

Definition held_plan (w : stores) (p : Plan) (a : Approval) : Prop :=
  st_plans w !! json_file (P_PlanID p) = Some (Data p) ∧
  contains ".tmp-" (json_file (P_PlanID p)) = false ∧
  Plans.Decode plan_sha (Data p) = Ok p ∧
  LoadApproval approval_sha file_len approvals_dir no_faults (st_approvals w) (P_PlanID p) = Ok (Some a).

Lemma held_session_active h w id s :
  healthy h → held_session w id s → s ∈ active_sessions h w.
Proof. intros Hh (Hv & Hs & Ha & Hc). eapply active_sessions_spec; try done. by apply (Hv id s). Qed.

Lemma protected_operations_session h w id s o :
  healthy h → held_session w id s → o ∈ S_OperationIDs s → o ∈ protected_operations h w.
Proof.
  intros Hh Hs Ho. apply elem_of_app. left. apply list_elem_of_In, in_concat.
  exists (S_OperationIDs s). rewrite <- !list_elem_of_In. split; [|done].
  apply list_elem_of_fmap. eauto using held_session_active.
Qed.

Lemma protected_plans_session h w id s p :
  healthy h → held_session w id s → p ∈ S_PlanIDs s → p ∈ protected_plans h w.
Proof.
  intros Hh Hs Hp. apply elem_of_app. left. apply list_elem_of_In, in_concat.
  exists (S_PlanIDs s). rewrite <- !list_elem_of_In. split; [|done].
  apply list_elem_of_fmap. eauto using held_session_active.
Qed.

Lemma held_plan_listed h w p a : healthy h → held_plan w p a → p ∈ all_plans h w.
Proof. intros Hh (Hs & Hc & Hd & _). by eapply all_plans_spec. Qed.

Lemma protected_operations_plan h w p a :
  healthy h → held_plan w p a → CorrelationOperationID (Some p) ≠ "" →
  CorrelationOperationID (Some p) ∈ protected_operations h w.
Proof.
  intros Hh Hp Hne. apply elem_of_app. right. apply list_elem_of_In, filter_In.
  split; [|by apply negb_true_iff, String.eqb_neq].
  apply list_elem_of_In, list_elem_of_fmap. eauto using held_plan_listed.
Qed.

Lemma LoadApproval_healthy fl s id :
  fl op_read = None →
  LoadApproval approval_sha file_len approvals_dir fl s id =
  LoadApproval approval_sha file_len approvals_dir no_faults s id.
Proof. intros Hf. unfold LoadApproval. destruct (approvalPath _ _) as [path|]; [|done]. simpl. by rewrite Hf. Qed.

Lemma protected_plans_approved h w p a :
  healthy h → held_plan w p a → P_PlanID p ∈ protected_plans h w.
Proof.
  intros Hh Hp. apply elem_of_app. right. apply list_elem_of_In, filter_In. split.
  - apply list_elem_of_In, list_elem_of_fmap. eauto using held_plan_listed.
  - destruct Hp as (_ & _ & _ & Hl), Hh as (_ & _ & Hf & _). unfold has_approval.
    by rewrite LoadApproval_healthy, Hl.
Qed.

(** ** One sweep *)

(** The ids whose records the sweep keeps. *)
Lemma run_sweep_operations w c o :
  o ∈ protected_operations c.2 w →
  st_ops (run_sweep w c) !! json_file o = st_ops w !! json_file o.
Proof.
  intros Ho. destruct c as [[] h]; simpl in *; [|done|done].
  destruct (op_sweep_only (se_unreadable h) (se_ops h) (se_rm_fails h) 0
    (λ id, one_of id (protected_operations h w)) (st_ops w) (json_file o))
    as [|(_ & v & Hv%one_of_false & _ & ->%json_file_inj)]; done.
Qed.

Lemma run_sweep_plans w c p :
  p ∈ protected_plans c.2 w →
  st_plans (run_sweep w c) !! json_file p = st_plans w !! json_file p.
Proof.
  intros Hp. destruct c as [[] h]; simpl in *; [done| |done].
  destruct (plan_sweep_only (se_unreadable h) (se_plans h) (se_rm_fails h) 0
    (λ id, one_of id (protected_plans h w)) (st_plans w) (json_file p))
    as [|(_ & v & Hv%one_of_false & ->%json_file_inj)]; done.
Qed.

Lemma run_sweep_session w c id s : held_session w id s → held_session (run_sweep w c) id s.
Proof.
  intros (Hv & Hs & Ha & Hc). destruct c as [[] h]; simpl; try done. split_and!; try done.
  - intros id' s'. simpl. intros Hs'. apply Hv. revert Hs'. unfold Sessions.PruneTerminal.
    destruct (Sessions.List _ _ _ _ _ _) as [[[all sk] tr]|e]; [|done].
    set (ids := S_SessionID <$> _).
    pose proof (remove_sessions_only (se_rm_fails h) ids (st_sessions w) (json_file id')) as Ho.
    destruct (remove_sessions _ _ _) as [n st']. simpl in *.
    destruct Ho as [->|[-> _]]; done.
  - simpl. apply session_sweep_only; [done|done|by rewrite Ha].
Qed.

Lemma run_sweep_plan w c p a : healthy c.2 → held_plan w p a → held_plan (run_sweep w c) p a.
Proof.
  intros Hh Hp. pose proof (run_sweep_plans w c _ (protected_plans_approved _ _ _ _ Hh Hp)) as Hsame.
  destruct Hp as (Hs & Hc & Hd & Hl). split_and!; [by rewrite Hsame|done|done|].
  by destruct c as [[] h].
Qed.

(** Retention never takes away what an active session or an approved plan
    refers to: after any number of sweeps of the three stores, in any order
    and with any failing removals, the session is still stored, every
    operation and plan it links loads as before, and so do the approved plan
    and the operation that applied it. *)
Theorem referenced_records_survive_sweeps cs w :
  Forall (λ c, healthy c.2) cs →
  let w' := foldl run_sweep w cs in
  (∀ id s, held_session w id s →
     st_sessions w' !! json_file id = Some (Data s) ∧
     (∀ o, o ∈ S_OperationIDs s →
        OpRecord.Load no_faults (st_ops w') o = OpRecord.Load no_faults (st_ops w) o) ∧
     (∀ p, p ∈ S_PlanIDs s →
        Plans.Load plan_sha no_faults (st_plans w') p = Plans.Load plan_sha no_faults (st_plans w) p)) ∧
  (∀ p a, held_plan w p a →
     Plans.Load plan_sha no_faults (st_plans w') (P_PlanID p) = Ok p ∧
     let o := CorrelationOperationID (Some p) in
     (o ≠ "" → OpRecord.Load no_faults (st_ops w') o = OpRecord.Load no_faults (st_ops w) o)).
Proof.
  intros Hcs. revert w. induction Hcs as [|c cs Hh Hcs IH]; intros w; cbn [foldl]; cbv zeta.
  { split; [by intros id s (_ & ? & _)|]. intros p a (Hs & _ & Hd & _). split; [|done].
    unfold Plans.Load, planPath. pose proof Hd as Hd'. unfold Plans.Decode in Hd'. inv_result.
    bool_prop. rewrite Ha0. cbn [negb fail_if mbind result_bind].
    change (P_PlanID p +:+ ".json") with (json_file (P_PlanID p)). rewrite Hs. by rewrite Hd. }
  destruct (IH (run_sweep w c)) as [IHs IHp]. split.
  - intros id s Hs. destruct (IHs id s) as (H1 & H2 & H3); [by apply run_sweep_session|].
    split_and!; [done| |].
    + intros o Ho. rewrite H2 by done. apply op_Load_ext, run_sweep_operations.
      by eapply protected_operations_session.
    + intros p Hp. rewrite H3 by done. apply plan_Load_ext, run_sweep_plans.
      by eapply protected_plans_session.
  - intros p a Hp. destruct (IHp p a) as [H1 H2]; [by apply run_sweep_plan|].
    split; [done|]. cbv zeta in *. intros Hne. rewrite H2 by done. apply op_Load_ext, run_sweep_operations.
    by eapply protected_operations_plan.
Qed.
End Sweeps.

(** ** Samples *)

Module SweepSamples.
Definition sha (h : Plans.hashInput) : string := "h".
Definition asha (h : approvalHashInput) : string := "a".
Definition flen (c : content Approval) : Z := 100.

Definition op (n : nat) : OpRecord :=
  Records.record ("op_0000000000000" +:+ Itoa (Z.of_nat (100 + n))) Machine.StatusSucceeded
    (Z.of_nat n).

(** 202 finished operations, two more than retention keeps. *)
Definition ops : op_store :=
  list_to_map ((λ n, (json_file (R_ID (op n)), Data (op n))) <$> seq 0 202).

(** An active session that links the oldest one. *)
Definition session : Session :=
  let s := SessionSamples.the SessionSamples.created.1 SessionSamples.dummy in
  mkSession (S_SchemaVersion s) (S_SessionID s) (S_Status s) (S_Title s) (S_Project s) (S_App s)
    (S_Actor s) (S_Rev s) (S_CreatedAt s) (S_UpdatedAt s) [] [R_ID (op 0)] []
    (S_Checkpoint s) (S_FinalResult s) (S_Events s).

Definition before : stores :=
  mkStores {[ json_file (S_SessionID session) := Data session ]} ∅ ops ∅.

Definition quiet : sweep_env :=
  mkSweepEnv no_faults no_faults no_faults no_faults (λ _, false) (λ _, false).
(** The session directory cannot be listed. *)
Definition sessions_unreadable : sweep_env :=
  mkSweepEnv (fault_at op_read_dir) no_faults no_faults
    no_faults (λ _, false) (λ _, false).

Definition linked (w : stores) : bool :=
  is_ok (OpRecord.Load no_faults (st_ops w) (R_ID (op 0))).

(** A session listing that fails is taken for "nothing is referenced", and the
    sweep goes on: the operation an active session links is removed. *)
Example unlistable_sessions_protect_nothing :
  linked before = true ∧ linked (pruneOperationRecords sha quiet before) = true ∧
  linked (pruneOperationRecords sha sessions_unreadable before) = false.
Proof. by vm_compute. Qed.

Lemma held : held_session before (S_SessionID session) session.
Proof.
  assert (session_wf (SessionSamples.the SessionSamples.created.1 SessionSamples.dummy)) as Hwf.
  { apply (SessionSamples.run_valid SessionSamples.sid). by vm_compute. }
  split_and!; [|by vm_compute..]. intros id s Hs. cbn [st_sessions before] in Hs.
  apply lookup_singleton_Some in Hs as [<-%json_file_inj [= <-]]. split; [done|].
  destruct Hwf as (H1 & H2 & H3 & H4 & H5 & _). split_and!; try assumption.
  - split; [apply NoDup_nil_2|by vm_compute].
  - split; [apply NoDup_singleton|by vm_compute].
  - split; [apply NoDup_nil_2|by vm_compute].
Qed.
End SweepSamples.

Lemma referenced_records_survive_sweeps_witness :
  let w' := foldl (run_sweep SweepSamples.sha SweepSamples.asha SweepSamples.flen "/approvals")
    SweepSamples.before [(SweepOperations, SweepSamples.quiet); (SweepSessions, SweepSamples.quiet)] in
  OpRecord.Load no_faults (st_ops w') (R_ID (SweepSamples.op 0)) = Ok (SweepSamples.op 0).
Proof.
  destruct (referenced_records_survive_sweeps SweepSamples.sha SweepSamples.asha SweepSamples.flen
    "/approvals" [(SweepOperations, SweepSamples.quiet); (SweepSessions, SweepSamples.quiet)]
    SweepSamples.before) as [H _]; [by repeat constructor|].
  destruct (H _ _ SweepSamples.held) as (_ & Hop & _). cbv zeta.
  rewrite Hop by (left). vm_compute. reflexivity.
Defined.
