(* ===== verification/ProxyRouting.v ===== *)
(** * ProxyRouting: target selection and statistics of the reverse proxy
      (src/internal/proxy/proxy.go, traffic.go)

    The routing table, its normalisation, the liveness cache, the smooth
    weighted round-robin schedule and the per-backend counters.  HTTP itself
    (the listener, the transport, header rewriting) and the floating-point
    estimates of traffic.go are not modelled.  A [nil] Go map is [None]: writing
    to it panics, which is [None] as the result of an operation. *)

From S2P Require Import Prelude GoLib.

(* src: internal/proxy/proxy.go Target *)
Record Target := mkTarget { T_Host : string; T_Label : string; T_Weight : Z }.

#[export] Instance Target_eq_dec : EqDecision Target.
Proof. solve_decision. Defined.

(** Durations are nanoseconds. *)
Definition ms : Z := 1000000.

(* src: internal/proxy/proxy.go LatencyBucketBounds *)
Definition LatencyBucketBounds : list Z :=
  [5 * ms; 10 * ms; 25 * ms; 50 * ms; 100 * ms; 250 * ms; 500 * ms; 1000 * ms; 2500 * ms;
   5000 * ms; 10000 * ms].

(* src: internal/proxy/proxy.go BackendStat *)
Record BackendStat := mkStat {
  BS_Label : string; BS_Host : string; BS_Requests : Z; BS_Errors : Z; BS_Buckets : list Z
}.

(* src: internal/proxy/proxy.go proxyState *)
Record proxyState := mkState { ps_primary : Target; ps_targets : list Target }.

(* src: internal/proxy/proxy.go backendCounters *)
Record backendCounters := mkCounters { bc_requests : Z; bc_errors : Z; bc_buckets : list Z }.

(* src: internal/proxy/proxy.go livenessResult *)
Record livenessResult := mkLive { lr_ok : bool; lr_at : Z }.

(** The fields of a proxy that routing reads and writes. *)
(* src: internal/proxy/proxy.go Proxy *)
Record Proxy := mkProxy {
  PublicPort : Z;
  AppName : string;
  AccessMode : string;
  state : proxyState;
  wrr : option (gmap string Z);
  backendStats : gmap string backendCounters;
  liveResults : gmap string livenessResult
}.

Definition with_state (p : Proxy) (st : proxyState) : Proxy :=
  {| PublicPort := PublicPort p; AppName := AppName p; AccessMode := AccessMode p; state := st;
     wrr := wrr p; backendStats := backendStats p; liveResults := liveResults p |}.
Definition with_wrr (p : Proxy) (m : option (gmap string Z)) : Proxy :=
  {| PublicPort := PublicPort p; AppName := AppName p; AccessMode := AccessMode p;
     state := state p; wrr := m; backendStats := backendStats p; liveResults := liveResults p |}.
Definition with_stats (p : Proxy) (m : gmap string backendCounters) : Proxy :=
  {| PublicPort := PublicPort p; AppName := AppName p; AccessMode := AccessMode p;
     state := state p; wrr := wrr p; backendStats := m; liveResults := liveResults p |}.
Definition with_live (p : Proxy) (m : gmap string livenessResult) : Proxy :=
  {| PublicPort := PublicPort p; AppName := AppName p; AccessMode := AccessMode p;
     state := state p; wrr := wrr p; backendStats := backendStats p; liveResults := m |}.

(* src: internal/proxy/proxy.go livePassTTL *)
Definition livePassTTL : Z := 500 * ms.
(* src: internal/proxy/proxy.go liveFailTTL *)
Definition liveFailTTL : Z := 200 * ms.

(* src: internal/proxy/proxy.go New *)
Definition New (appName : string) (publicPort : Z) (initial : Target) : Proxy :=
  {| PublicPort := publicPort; AppName := appName; AccessMode := "";
     state := mkState initial [initial]; wrr := None; backendStats := ∅; liveResults := ∅ |}.

(* src: internal/proxy/proxy.go effectiveWeight *)
Definition effectiveWeight (t : Target) : Z :=
  if T_Weight t <=? 0 then 1
  else if 100 <? T_Weight t then 100
  else T_Weight t.

(** A Go map read: a missing key is the zero value. *)
Definition counter (m : gmap string Z) (host : string) : Z := default 0 (m !! host).

Definition MinInt64 : Z := - 2 ^ 63.

(** The scoring loop: the map, the best host and its score so far. *)
(* src: internal/proxy/proxy.go:209-219 Proxy.pickWeighted *)
Fixpoint score_loop (healthy : list Target) (m : gmap string Z) (best : string) (bestScore : Z)
  : gmap string Z * string :=
  match healthy with
  | [] => (m, best)
  | t :: rest =>
      let score := wrap64 (counter m (T_Host t) + effectiveWeight t) in
      let m := <[T_Host t := score]> m in
      if bestScore <? score then score_loop rest m (T_Host t) score
      else score_loop rest m best bestScore
  end.

(** [None]: an assignment to an entry of a nil map. *)
(* src: internal/proxy/proxy.go Proxy.pickWeighted *)
Definition pickWeighted (healthy : list Target) (p : Proxy) : option (string * Proxy) :=
  m ← wrr p;
  let total := foldl (λ a t, a + effectiveWeight t) 0 healthy in
  let '(m, best) := score_loop healthy m "" MinInt64 in
  let m := <[best := wrap64 (counter m best - total)]> m in
  Some (best, with_wrr p (Some m)).

Section Liveness.
(** The clock during a request and the outcome of dialing a host. *)
Variable now : Z.
Variable dial_ok : string → bool.

(* src: internal/proxy/proxy.go Proxy.hostLive *)
Definition hostLive (host : string) (p : Proxy) : bool * Proxy :=
  let res := default (mkLive false 0) (liveResults p !! host) in
  let ttl := if lr_ok res then livePassTTL else liveFailTTL in
  if (bool_decide (is_Some (liveResults p !! host)) && (now - lr_at res <? ttl))%bool
  then (lr_ok res, p)
  else (dial_ok host, with_live p (<[host := mkLive (dial_ok host) now]> (liveResults p))).

(** The targets whose probe passes, in their order. *)
(* src: internal/proxy/proxy.go:168-173 Proxy.pickHealthyHost *)
Fixpoint healthy_targets (targets : list Target) (p : Proxy) : list Target * Proxy :=
  match targets with
  | [] => ([], p)
  | t :: rest =>
      let '(live, p) := hostLive (T_Host t) p in
      let '(found, p) := healthy_targets rest p in
      (if live then t :: found else found, p)
  end.

(* src: internal/proxy/proxy.go Proxy.pickHealthyHost *)
Definition pickHealthyHost (st : proxyState) (p : Proxy) : option (string * Proxy) :=
  if len (ps_targets st) =? 0 then Some (T_Host (ps_primary st), p)
  else
    let '(healthy, p) := healthy_targets (ps_targets st) p in
    match healthy with
    | [] => Some (T_Host (ps_primary st), p)
    | [t] => Some (T_Host t, p)
    | _ => pickWeighted healthy p
    end.

(** The backend the director chooses for a request that loaded [st]. *)
(* src: internal/proxy/proxy.go:352-355 New *)
Definition direct (st : proxyState) (p : Proxy) : option (string * Proxy) :=
  if 1 <? len (ps_targets st) then pickHealthyHost st p
  else Some (T_Host (ps_primary st), p).
End Liveness.

(** The normalised backend set: the primary first, each host once. *)
(* src: internal/proxy/proxy.go:429-438 Proxy.SetTarget *)
Fixpoint dedup_targets (seen : gset string) (addl : list Target) : list Target :=
  match addl with
  | [] => []
  | t :: rest =>
      if ((T_Host t =s "") || bool_decide (T_Host t ∈ seen))%bool then dedup_targets seen rest
      else t :: dedup_targets ({[T_Host t]} ∪ seen) rest
  end.

Definition normalised (primary : Target) (addl : list Target) : proxyState :=
  mkState primary (primary :: dedup_targets {[T_Host primary]} addl).

(** The two writes of [SetTarget]: the routing table, then the schedule. *)
Definition set_state (primary : Target) (addl : list Target) (p : Proxy) : Proxy :=
  with_state p (normalised primary addl).
Definition reset_wrr (p : Proxy) : Proxy := with_wrr p (Some ∅).

(* src: internal/proxy/proxy.go Proxy.SetTarget *)
Definition SetTarget (primary : Target) (addl : list Target) (p : Proxy) : Proxy :=
  reset_wrr (set_state primary addl p).

(* src: internal/proxy/proxy.go Proxy.CurrentTarget *)
Definition CurrentTarget (p : Proxy) : Target := ps_primary (state p).
(* src: internal/proxy/proxy.go Proxy.Targets *)
Definition Targets (p : Proxy) : list Target := ps_targets (state p).

Definition zero_counters : backendCounters :=
  mkCounters 0 0 (replicate (length LatencyBucketBounds) 0).

Definition count_latency (latency : Z) (buckets : list Z) : list Z :=
  zip_with (λ bound n, if latency <=? bound then n + 1 else n) LatencyBucketBounds buckets.

(** [failed]: the transport returned an error. *)
(* src: internal/proxy/proxy.go Proxy.recordBackendRequest *)
Definition recordBackendRequest (host : string) (status : Z) (failed : bool) (latency : Z)
    (p : Proxy) : Proxy :=
  if host =s "" then p
  else
    let c := default zero_counters (backendStats p !! host) in
    let c := {| bc_requests := bc_requests c + 1;
                bc_errors := if (failed || (500 <=? status))%bool then bc_errors c + 1
                             else bc_errors c;
                bc_buckets := count_latency latency (bc_buckets c) |} in
    with_stats p (<[host := c]> (backendStats p)).

(** The label of every enrolled host. *)
(* src: internal/proxy/proxy.go:272-280 Proxy.Stats *)
Definition host_labels (st : proxyState) : gmap string string :=
  let labels := foldl (λ m t, <[T_Host t := T_Label t]> m) ∅ (ps_targets st) in
  if ((default "" (labels !! T_Host (ps_primary st)) =s "") && (T_Label (ps_primary st) <>s ""))%bool
  then <[T_Host (ps_primary st) := T_Label (ps_primary st)]> labels else labels.

(* src: internal/proxy/proxy.go Proxy.Stats *)
Definition Stats (p : Proxy) : list BackendStat :=
  let labels := host_labels (state p) in
  sort_by (λ x y, String.ltb (BS_Host x) (BS_Host y))
    ((λ '(host, c), {| BS_Label := default "" (labels !! host); BS_Host := host;
                       BS_Requests := bc_requests c; BS_Errors := bc_errors c;
                       BS_Buckets := bc_buckets c |}) <$> map_to_list (backendStats p)).

(* src: internal/proxy/proxy.go singleJoiningSlash *)
Definition singleJoiningSlash (a b : string) : string :=
  let aslash := HasSuffix a "/" in
  let bslash := HasPrefix b "/" in
  if (aslash && bslash)%bool then a +:+ drop_str 1 b
  else if (negb aslash && negb bslash)%bool then a +:+ "/" +:+ b
  else a +:+ b.

(** ** traffic.go *)

(** The rollup; its latency estimate is read off [TS_Merged]. *)
(* src: internal/proxy/traffic.go TrafficSummary *)
Record TrafficSummary := mkSummary { TS_Requests : Z; TS_Errors : Z; TS_Merged : list Z }.

(** [for i := range merged { if i < len(b) { merged[i] += b[i] } }]. *)
Fixpoint add_buckets (merged b : list Z) : list Z :=
  match merged, b with
  | x :: merged', y :: b' => (x + y) :: add_buckets merged' b'
  | _, _ => merged
  end.

(* src: internal/proxy/traffic.go Summarize *)
Definition Summarize (stats : list BackendStat) : TrafficSummary :=
  foldl (λ sum s, {| TS_Requests := TS_Requests sum + BS_Requests s;
                     TS_Errors := TS_Errors sum + BS_Errors s;
                     TS_Merged := add_buckets (TS_Merged sum) (BS_Buckets s) |})
    (mkSummary 0 0 (replicate (length LatencyBucketBounds) 0)) stats.

(** ** The smooth weighted round-robin schedule *)

Definition hosts (l : list Target) : list string := T_Host <$> l.

(** [sum_over f l] adds [f] over the hosts of [l]. *)
Fixpoint sum_over (f : string → Z) (l : list Target) : Z :=
  match l with [] => 0 | t :: l' => f (T_Host t) + sum_over f l' end.

Definition weight_of (l : list Target) (h : string) : Z :=
  foldr (λ t a, (if T_Host t =s h then effectiveWeight t else 0) + a) 0 l.

Definition total_weight (l : list Target) : Z := foldl (λ a t, a + effectiveWeight t) 0 l.

Lemma effectiveWeight_range t : 1 ≤ effectiveWeight t ≤ 100.
Proof.
  unfold effectiveWeight. destruct (_ <=? 0) eqn:E1; [lia|].
  destruct (100 <? _) eqn:E2; bool_prop; lia.
Qed.

Lemma total_weight_cons t l : total_weight (t :: l) = effectiveWeight t + total_weight l.
Proof.
  unfold total_weight. cbn [foldl].
  assert (∀ a, foldl (λ a t, a + effectiveWeight t) a l =
               a + foldl (λ a t, a + effectiveWeight t) 0 l) as H; [|by rewrite H].
  induction l as [|t' l IH]; intros a; cbn [foldl]; [lia|]. rewrite (IH (a + _)), (IH (0 + _)). lia.
Qed.

Lemma total_weight_bounds l : len l ≤ total_weight l ≤ 100 * len l.
Proof.
  induction l as [|t l IH]; [done|]. rewrite total_weight_cons, len_cons.
  pose proof (effectiveWeight_range t). lia.
Qed.

Lemma weight_of_notin l h : h ∉ hosts l → weight_of l h = 0.
Proof.
  induction l as [|t l IH]; [done|]. unfold hosts. rewrite fmap_cons, not_elem_of_cons.
  intros [Hne Hin]. simpl. rewrite IH by done.
  destruct (T_Host t =s h) eqn:E; bool_prop; [congruence|done].
Qed.

Lemma weight_of_in l t : NoDup (hosts l) → t ∈ l → weight_of l (T_Host t) = effectiveWeight t.
Proof.
  unfold hosts. induction l as [|t' l IH]; intros Hnd Hin; [inversion Hin|].
  rewrite fmap_cons in Hnd. apply NoDup_cons in Hnd as [Hni Hnd]. simpl.
  apply elem_of_cons in Hin as [->|Hin].
  - rewrite String.eqb_refl. rewrite weight_of_notin by done. lia.
  - destruct (T_Host t' =s T_Host t) eqn:E; bool_prop.
    + exfalso. apply Hni. rewrite E. by apply list_elem_of_fmap_2.
    + by rewrite IH.
Qed.

Lemma sum_over_ext f g l : (∀ h, h ∈ hosts l → f h = g h) → sum_over f l = sum_over g l.
Proof.
  unfold hosts. induction l as [|t l IH]; intros H; [done|]. simpl.
  rewrite H by (by left). rewrite IH; [done|]. intros h Hh. apply H. by right.
Qed.

Lemma sum_over_add f g l : sum_over (λ h, f h + g h) l = sum_over f l + sum_over g l.
Proof. induction l as [|t l IH]; [done|]. simpl. rewrite IH. lia. Qed.

Lemma sum_over_weights l : NoDup (hosts l) → sum_over (weight_of l) l = total_weight l.
Proof.
  intros Hnd. assert (∀ l', l' ⊆ l → sum_over (weight_of l) l' = total_weight l') as H; [|by apply H].
  induction l' as [|t l' IH]; intros Hsub; [done|]. rewrite total_weight_cons. simpl.
  rewrite weight_of_in by (done || apply Hsub; left). rewrite IH; [done|].
  intros x Hx. apply Hsub. by right.
Qed.

Lemma sum_over_indicator l h (w : Z) :
  NoDup (hosts l) → h ∈ hosts l → sum_over (λ x, if x =s h then w else 0) l = w.
Proof.
  unfold hosts. induction l as [|t l IH]; intros Hnd Hin; [inversion Hin|].
  rewrite fmap_cons in Hnd, Hin. apply NoDup_cons in Hnd as [Hni Hnd]. simpl.
  apply elem_of_cons in Hin as [->|Hin].
  - rewrite String.eqb_refl. rewrite (sum_over_ext _ (λ _, 0)).
    + clear. induction l; simpl in *; lia.
    + intros x Hx. destruct (x =s T_Host t) eqn:E; bool_prop; [subst; done|done].
  - rewrite IH by done. destruct (T_Host t =s h) eqn:E; bool_prop; [subst; done|lia].
Qed.

(** If the values are above [lo] and sum to [s], each is below what the others
    leave. *)
Lemma sum_over_upper f l lo h :
  NoDup (hosts l) → (∀ x, x ∈ hosts l → lo ≤ f x) → h ∈ hosts l →
  f h ≤ sum_over f l - lo * (len l - 1).
Proof.
  unfold hosts. induction l as [|t l IH]; intros Hnd Hlo Hin; [inversion Hin|].
  rewrite fmap_cons in Hnd, Hlo, Hin. apply NoDup_cons in Hnd as [Hni Hnd]. simpl. rewrite len_cons.
  assert (∀ l', (∀ x, x ∈ hosts l' → lo ≤ f x) → lo * len l' ≤ sum_over f l') as Hsum.
  { clear. unfold hosts. induction l' as [|t l' IH]; intros H; [rewrite len_nil; simpl; lia|]. simpl. rewrite len_cons.
    rewrite fmap_cons in H. pose proof (H (T_Host t) ltac:(left)).
    assert (lo * len l' ≤ sum_over f l') by (apply IH; intros; apply H; by right). lia. }
  apply elem_of_cons in Hin as [->|Hin].
  - specialize (Hsum l). unfold hosts in Hsum. assert (lo * len l ≤ sum_over f l); [|lia].
    apply Hsum. intros x Hx. apply Hlo. by right.
  - pose proof (Hlo (T_Host t) ltac:(left)).
    assert (f h ≤ sum_over f l - lo * (len l - 1)); [|lia].
    apply IH; [done| |done]. intros x Hx. apply Hlo. by right.
Qed.

Lemma sum_over_positive f l : 0 < sum_over f l → ∃ t, t ∈ l ∧ 0 < f (T_Host t).
Proof.
  induction l as [|t l IH]; simpl; [lia|]. intros H.
  destruct (Z.lt_ge_cases 0 (f (T_Host t))); [exists t; split; [left|done]|].
  destruct IH as (t' & ? & ?); [lia|]. exists t'. split; [by right|done].
Qed.

(** One pass over the backends adds every weight and finds a highest score. *)
Lemma score_loop_spec healthy m b0 s0 :
  NoDup (hosts healthy) →
  (∀ t, t ∈ healthy → in_int64 (counter m (T_Host t) + effectiveWeight t)) →
  let '(m', best) := score_loop healthy m b0 s0 in
  (∀ h, counter m' h = counter m h + weight_of healthy h) ∧
  ((best = b0 ∧ ∀ t, t ∈ healthy → counter m (T_Host t) + effectiveWeight t ≤ s0) ∨
   (∃ t, t ∈ healthy ∧ best = T_Host t ∧ s0 < counter m (T_Host t) + effectiveWeight t ∧
      ∀ t', t' ∈ healthy →
        counter m (T_Host t') + effectiveWeight t' ≤ counter m (T_Host t) + effectiveWeight t)).
Proof.
  revert m b0 s0. induction healthy as [|t l IH]; intros m b0 s0 Hnd Hint.
  { simpl. split; [intros; lia|]. left. split; [done|]. intros t Ht. inversion Ht. }
  unfold hosts in Hnd. rewrite fmap_cons in Hnd. apply NoDup_cons in Hnd as [Hni Hnd].
  cbn [score_loop]. rewrite wrap64_id by (apply Hint; left).
  set (sc := counter m (T_Host t) + effectiveWeight t). set (m1 := <[T_Host t := sc]> m).
  assert (∀ h, h ≠ T_Host t → counter m1 h = counter m h) as Hm1
    by (intros h Hne; unfold counter, m1; by rewrite lookup_insert_ne).
  assert (∀ t', t' ∈ l → T_Host t' ≠ T_Host t) as Hdiff.
  { intros t' Ht' Heq. apply Hni. rewrite <- Heq. by apply list_elem_of_fmap_2. }
  assert (∀ t', t' ∈ l → in_int64 (counter m1 (T_Host t') + effectiveWeight t')) as Hint1.
  { intros t' Ht'. rewrite Hm1 by auto. apply Hint. by right. }
  assert (∀ m' : gmap string Z, (∀ h, counter m' h = counter m1 h + weight_of l h) →
    ∀ h, counter m' h = counter m h + weight_of (t :: l) h) as Hsum.
  { intros m' H h. rewrite H. simpl. destruct (T_Host t =s h) eqn:E; bool_prop.
    - subst h. rewrite (weight_of_notin l) by done. unfold counter at 1, m1.
      rewrite lookup_insert_eq. simpl. unfold sc. lia.
    - rewrite Hm1 by done. lia. }
  destruct (s0 <? sc) eqn:Hsc; bool_prop.
  - specialize (IH m1 (T_Host t) sc Hnd Hint1).
    destruct (score_loop l m1 (T_Host t) sc) as [m' best]. destruct IH as [H1 H2].
    split; [by apply Hsum|]. right. destruct H2 as [[-> Hle]|(t' & Hin & -> & Hlt & Hmax)].
    + exists t. split_and!; [left|done|done|]. intros t' [->|Hin]%elem_of_cons; [done|].
      specialize (Hle t' Hin). rewrite Hm1 in Hle by auto. done.
    + rewrite Hm1 in Hlt by auto. exists t'. split_and!; [by right|done|unfold sc in *; lia|].
      intros t'' [->|Hin'']%elem_of_cons; [unfold sc in *; lia|].
      specialize (Hmax t'' Hin''). rewrite !Hm1 in Hmax by auto. done.
  - specialize (IH m1 b0 s0 Hnd Hint1).
    destruct (score_loop l m1 b0 s0) as [m' best]. destruct IH as [H1 H2].
    split; [by apply Hsum|]. destruct H2 as [[-> Hle]|(t' & Hin & -> & Hlt & Hmax)].
    + left. split; [done|]. intros t' [->|Hin]%elem_of_cons; [unfold sc in *; lia|].
      specialize (Hle t' Hin). rewrite Hm1 in Hle by auto. done.
    + right. rewrite Hm1 in Hlt by auto. exists t'. split_and!; [by right|done|done|].
      intros t'' [->|Hin'']%elem_of_cons; [unfold sc in *; lia|].
      specialize (Hmax t'' Hin''). rewrite !Hm1 in Hmax by auto. done.
Qed.

(** Serve [k] requests over the same healthy backends. *)
Fixpoint serve (k : nat) (healthy : list Target) (p : Proxy) : option (list string * Proxy) :=
  match k with
  | O => Some ([], p)
  | S k => '(h, p) ← pickWeighted healthy p; '(hs, p) ← serve k healthy p; Some (h :: hs, p)
  end.

Definition occ (h : string) (picks : list string) : Z := len (List.filter (String.eqb h) picks).

Lemma occ_cons h x picks : occ h (x :: picks) = (if x =s h then 1 else 0) + occ h picks.
Proof.
  unfold occ. simpl. rewrite String.eqb_sym. destruct (x =s h); [rewrite len_cons; lia|lia].
Qed.

Section Schedule.
Context (healthy : list Target).
Hypothesis nonempty : healthy ≠ [].
Hypothesis distinct : NoDup (hosts healthy).
(** So that no counter leaves the 64-bit range. *)
Hypothesis few : len healthy ≤ 2 ^ 20.

Local Abbreviation W := (total_weight healthy).

Lemma some_backend : ∃ t, t ∈ healthy.
Proof. clear distinct few. destruct healthy as [|t l]; [done|]. exists t. left. Qed.

Lemma some_backends : 0 < len healthy.
Proof.
  clear distinct few. destruct healthy as [|t l]; [done|]. rewrite len_cons.
  pose proof (len_nonneg l). lia.
Qed.

(** The counters of a schedule: above [-W], and adding up to zero. *)
Definition balanced (m : gmap string Z) : Prop :=
  sum_over (counter m) healthy = 0 ∧ ∀ h, h ∈ hosts healthy → - W < counter m h.

Lemma balanced_range m t :
  balanced m → t ∈ healthy → in_int64 (counter m (T_Host t) + effectiveWeight t).
Proof.
  intros [Hsum Hlo] Ht. pose proof (total_weight_bounds healthy). pose proof (effectiveWeight_range t).
  assert (T_Host t ∈ hosts healthy) as Hin by (by apply list_elem_of_fmap_2).
  pose proof (sum_over_upper (counter m) healthy (- W) (T_Host t) distinct) as Hup.
  rewrite Hsum in Hup. pose proof (Hlo _ Hin).
  assert (counter m (T_Host t) ≤ 0 - - W * (len healthy - 1)) as Hb.
  { apply Hup; [|done]. intros x Hx. specialize (Hlo x Hx). lia. }
  pose proof some_backends.
  unfold in_int64. assert (W * (len healthy - 1) ≤ 100 * 2 ^ 20 * 2 ^ 20) by nia. lia.
Qed.

(** One request: the chosen backend pays the total weight, every backend earns
    its own. *)
Lemma pick_step p m :
  wrr p = Some m → balanced m →
  ∃ best m', pickWeighted healthy p = Some (best, with_wrr p (Some m')) ∧ best ∈ hosts healthy ∧
    balanced m' ∧
    ∀ h, counter m' h = counter m h + weight_of healthy h - (if best =s h then W else 0).
Proof.
  intros Hm Hbal. unfold pickWeighted. rewrite Hm. cbn [mbind option_bind].
  pose proof (score_loop_spec healthy m "" MinInt64 distinct
    (λ t Ht, balanced_range m t Hbal Ht)) as Hs.
  destruct (score_loop healthy m "" MinInt64) as [m1 best]. destruct Hs as [H1 H2].
  assert (∃ t, t ∈ healthy ∧ best = T_Host t ∧ ∀ t', t' ∈ healthy →
    counter m1 (T_Host t') ≤ counter m1 (T_Host t)) as (t & Ht & -> & Hmax).
  { assert (∀ t', t' ∈ healthy → counter m1 (T_Host t') = counter m (T_Host t') + effectiveWeight t')
      as Hc by (intros; by rewrite H1, weight_of_in).
    destruct H2 as [[_ Hle]|(t & Ht & -> & _ & Hmax)].
    - exfalso. destruct some_backend as [t Ht]. pose proof (Hle t Ht).
      pose proof (effectiveWeight_range t).
      destruct Hbal as [_ Hlo]. specialize (Hlo (T_Host t) ltac:(by apply list_elem_of_fmap_2)).
      pose proof (total_weight_bounds healthy). unfold MinInt64 in *. lia.
    - exists t. split_and!; [done|done|]. intros t' Ht'. rewrite !Hc by done. auto. }
  exists (T_Host t). set (x := counter m1 (T_Host t)).
  assert (sum_over (counter m1) healthy = W) as Hsum1.
  { rewrite (sum_over_ext _ (λ h, counter m h + weight_of healthy h)) by (intros; apply H1).
    rewrite sum_over_add, sum_over_weights by done. destruct Hbal as [-> _]. lia. }
  pose proof (total_weight_bounds healthy) as HW.
  pose proof some_backends as Hpos.
  assert (0 < x) as Hx.
  { destruct (sum_over_positive (counter m1) healthy) as (t' & Ht' & Hlt); [lia|].
    specialize (Hmax t' Ht'). unfold x. lia. }
  assert (in_int64 x) as Hxr.
  { unfold x. rewrite H1, weight_of_in by done. by apply balanced_range. }
  assert (wrap64 (x - W) = x - W) as Hwr by (apply wrap64_id; unfold in_int64 in *; lia).
  unfold total_weight in Hwr |- *. rewrite Hwr. fold W.
  assert (∀ h, counter (<[T_Host t := x - W]> m1) h =
    counter m h + weight_of healthy h - (if T_Host t =s h then W else 0)) as Hnew.
  { intros h. unfold counter at 1. destruct (T_Host t =s h) eqn:E; bool_prop.
    - subst h. rewrite lookup_insert_eq. simpl. unfold x. rewrite H1. lia.
    - rewrite lookup_insert_ne by done. fold (counter m1 h). rewrite H1. lia. }
  eexists. split_and!; [done|by apply list_elem_of_fmap_2| |exact Hnew]. split.
  - rewrite (sum_over_ext _ (λ h, (counter m h + weight_of healthy h) +
      (if h =s T_Host t then - W else 0))).
    + rewrite sum_over_add, sum_over_indicator; [|done|by apply list_elem_of_fmap_2].
      rewrite sum_over_add, sum_over_weights by done. destruct Hbal as [-> _]. lia.
    + intros h _. rewrite Hnew, String.eqb_sym. destruct (h =s T_Host t); lia.
  - intros h Hh. rewrite Hnew. apply list_elem_of_fmap in Hh as (t' & -> & Ht').
    rewrite weight_of_in by done. pose proof (effectiveWeight_range t').
    destruct Hbal as [_ Hlo]. specialize (Hlo (T_Host t') ltac:(by apply list_elem_of_fmap_2)).
    destruct (T_Host t =s T_Host t') eqn:E; bool_prop; [|lia].
    rewrite <- E in *. unfold x in Hx. rewrite H1 in Hx. rewrite weight_of_in in Hx by done.
    assert (effectiveWeight t' = effectiveWeight t); [|lia].
    rewrite <- (weight_of_in healthy t'), <- (weight_of_in healthy t) by done. by rewrite E.
Qed.

(** After [k] requests, a backend's counter is what it earned less what it paid. *)
Lemma serve_spec k p m :
  wrr p = Some m → balanced m →
  ∃ picks m', serve k healthy p = Some (picks, with_wrr p (Some m')) ∧ balanced m' ∧
    len picks = Z.of_nat k ∧ (∀ h, h ∈ picks → h ∈ hosts healthy) ∧
    ∀ h, counter m' h = counter m h + Z.of_nat k * weight_of healthy h - W * occ h picks.
Proof.
  revert p m. induction k as [|k IH]; intros p m Hm Hbal.
  { exists [], m. split_and!; try done.
    - simpl. by destruct p; simpl in *; subst.
    - intros h Hh. inversion Hh.
    - intros h. change (occ h []) with 0. lia. }
  destruct (pick_step p m Hm Hbal) as (best & m1 & Hp & Hbest & Hbal1 & Hc1).
  destruct (IH (with_wrr p (Some m1)) m1 eq_refl Hbal1) as (picks & m2 & Hs & Hbal2 & Hlen & Hin & Hc2).
  exists (best :: picks), m2. cbn [serve]. rewrite Hp. cbn [mbind option_bind]. rewrite Hs.
  split_and!; [done|done|rewrite len_cons; lia| |].
  - intros h [->|Hh]%elem_of_cons; auto.
  - intros h. rewrite Hc2, Hc1, occ_cons. destruct (best =s h); lia.
Qed.
End Schedule.

(** ** Theorems *)

Lemma above_minus_one W x : 0 < W → - W < W * x → 0 ≤ x.
Proof. intros HW Hx. assert (-1 < x) by nia. lia. Qed.

(** C11: the schedule is exact and smooth.  From fresh counters, over any number
    of requests no backend is ever a full request ahead of its proportional
    share, and over every cycle of total-weight requests each backend serves
    exactly its weight and the counters return to zero. *)
Theorem weighted_round_robin_is_exact healthy p m k :
  healthy ≠ [] → NoDup (hosts healthy) → len healthy ≤ 2 ^ 20 →
  wrr p = Some m → (∀ t, t ∈ healthy → counter m (T_Host t) = 0) →
  let W := total_weight healthy in
  ∃ picks m', serve k healthy p = Some (picks, with_wrr p (Some m')) ∧
    (∀ h, h ∈ picks → h ∈ hosts healthy) ∧
    (∀ t, t ∈ healthy →
       W * occ (T_Host t) picks < Z.of_nat k * effectiveWeight t + W) ∧
    (Z.of_nat k = W → ∀ t, t ∈ healthy →
       occ (T_Host t) picks = effectiveWeight t ∧ counter m' (T_Host t) = 0).
Proof.
  intros Hne Hnd Hfew Hm Hzero W.
  assert (balanced healthy m) as Hbal.
  { split.
    - rewrite (sum_over_ext _ (λ _, 0)); [clear; induction healthy; simpl in *; lia|].
      intros h (t & -> & Ht)%list_elem_of_fmap. auto.
    - intros h (t & -> & Ht)%list_elem_of_fmap. rewrite Hzero by done.
      pose proof (total_weight_bounds healthy). pose proof (some_backends healthy Hne). lia. }
  destruct (serve_spec healthy Hne Hnd Hfew k p m Hm Hbal)
    as (picks & m' & Hs & [Hsum Hlo] & Hlen & Hin & Hc).
  assert (∀ t, t ∈ healthy → counter m' (T_Host t) =
    Z.of_nat k * effectiveWeight t - W * occ (T_Host t) picks) as Hc'.
  { intros t Ht. by rewrite Hc, Hzero, weight_of_in. }
  exists picks, m'. split_and!; [done|done| |].
  - intros t Ht. specialize (Hlo (T_Host t) ltac:(by apply list_elem_of_fmap_2)).
    rewrite Hc' in Hlo by done. unfold W in *. lia.
  - intros Hk.
    pose proof (total_weight_bounds healthy). pose proof (some_backends healthy Hne).
    assert (0 < W) as HW by (unfold W; lia).
    assert (∀ t, t ∈ healthy → 0 ≤ counter m' (T_Host t)) as Hnn.
    { intros t Ht. specialize (Hlo (T_Host t) ltac:(by apply list_elem_of_fmap_2)).
      rewrite Hc', Hk in Hlo |- * by done. fold W in Hlo.
      rewrite <- Z.mul_sub_distr_l in Hlo |- *. apply Z.mul_nonneg_nonneg; [lia|].
      by apply (above_minus_one W). }
    intros t Ht.
    assert (counter m' (T_Host t) = 0) as Hz.
    { pose proof (sum_over_upper (counter m') healthy 0 (T_Host t) Hnd) as Hup.
      rewrite Hsum in Hup. specialize (Hnn t Ht) as Hnt.
      assert (counter m' (T_Host t) ≤ 0 - 0 * (len healthy - 1)); [|lia].
      apply Hup; [|by apply list_elem_of_fmap_2].
      intros x (t' & -> & Ht')%list_elem_of_fmap. by apply Hnn. }
    split; [|done]. rewrite Hc', Hk, <- Z.mul_sub_distr_l in Hz by done. fold W in Hz.
    apply Z.mul_eq_0 in Hz. lia.
Qed.

Lemma elem_of_dedup seen addl t :
  t ∈ dedup_targets seen addl → t ∈ addl ∧ (T_Host t ∉ seen) ∧ T_Host t ≠ "".
Proof.
  revert seen. induction addl as [|x addl IH]; intros seen; simpl; [by intros H; inversion H|].
  destruct (T_Host x =s "") eqn:E1; simpl.
  { intros (? & ? & ?)%IH. split_and!; auto. by right. }
  case_bool_decide as Hd.
  - intros (? & ? & ?)%IH. split_and!; auto. by right.
  - bool_prop. intros [->|(? & Hn & ?)%IH]%elem_of_cons; split_and!; auto; [left|by right|set_solver].
Qed.

Lemma dedup_distinct seen addl :
  NoDup (hosts (dedup_targets seen addl)) ∧ (dedup_targets seen addl `sublist_of` addl).
Proof.
  revert seen. induction addl as [|x addl IH]; intros seen; simpl; [by repeat constructor|].
  destruct (_ || _)%bool; [destruct (IH seen); split; [done|by apply sublist_cons]|].
  destruct (IH ({[T_Host x]} ∪ seen)) as [Hnd Hs]. split; [|by constructor].
  unfold hosts. rewrite fmap_cons. apply NoDup_cons. split; [|done].
  intros (t & Heq & (_ & Hn & _)%elem_of_dedup)%list_elem_of_fmap. set_solver.
Qed.

Lemma dedup_fixed seen addl :
  NoDup (hosts addl) → (∀ t, t ∈ addl → (T_Host t ∉ seen) ∧ T_Host t ≠ "") →
  dedup_targets seen addl = addl.
Proof.
  revert seen. induction addl as [|x addl IH]; intros seen Hnd Hok; [done|]. simpl.
  unfold hosts in Hnd. rewrite fmap_cons in Hnd. apply NoDup_cons in Hnd as [Hni Hnd].
  destruct (Hok x ltac:(left)) as [Hn He]. apply String.eqb_neq in He as ->. simpl.
  rewrite bool_decide_false by done. f_equal. apply IH; [done|].
  intros t Ht. destruct (Hok t ltac:(by right)) as [??]. split; [|done].
  intros [Heq%elem_of_singleton|?]%elem_of_union; [|done]. apply Hni. rewrite <- Heq.
  by apply list_elem_of_fmap_2.
Qed.

(** The routing table is normalised: the primary comes first, every backend
    once, in the order given and with its weight, and setting the resulting set
    again changes nothing. *)
Theorem set_target_normalises primary addl p :
  let p' := SetTarget primary addl p in
  CurrentTarget p' = primary ∧
  (∃ others, Targets p' = primary :: others ∧ (others `sublist_of` addl)) ∧
  NoDup (hosts (Targets p')) ∧
  (∀ t, t ∈ addl → T_Host t ≠ "" → T_Host t ∈ hosts (Targets p')) ∧
  state (SetTarget primary (Targets p') p') = state p'.
Proof.
  simpl. unfold Targets. simpl.
  destruct (dedup_distinct {[T_Host primary]} addl) as [Hnd Hs].
  assert (T_Host primary ∉ hosts (dedup_targets {[T_Host primary]} addl)) as Hp.
  { intros (t & Heq & (_ & Hn & _)%elem_of_dedup)%list_elem_of_fmap. set_solver. }
  split_and!; [done|by eexists| | |].
  - change (NoDup (T_Host primary :: hosts (dedup_targets {[T_Host primary]} addl))).
    by apply NoDup_cons.
  - change (∀ t, t ∈ addl → T_Host t ≠ "" →
      T_Host t ∈ T_Host primary :: hosts (dedup_targets {[T_Host primary]} addl)).
    clear Hnd Hs Hp. intros t Ht He.
    assert (∀ seen, T_Host t ∈ seen ∨ T_Host t ∈ hosts (dedup_targets seen addl)) as H.
    { induction addl as [|x addl IH]; intros seen; [inversion Ht|]. simpl.
      destruct (decide (T_Host t ∈ seen)) as [|Hns]; [by left|right].
      apply elem_of_cons in Ht as [<-|Ht].
      - apply String.eqb_neq in He as ->. rewrite bool_decide_false by done. simpl. left.
      - destruct (_ || _)%bool; [by destruct (IH Ht seen)|]. unfold hosts. rewrite fmap_cons.
        destruct (IH Ht ({[T_Host x]} ∪ seen)) as [[Hx%elem_of_singleton|]%elem_of_union|];
          [rewrite Hx; left|done|by right]. }
    destruct (H {[T_Host primary]}) as [->%elem_of_singleton|]; [left|by right].
  - unfold SetTarget, reset_wrr, set_state, normalised. simpl.
    rewrite bool_decide_true by set_solver. rewrite orb_true_r.
    rewrite dedup_fixed; [done|done|]. intros t Ht. by apply elem_of_dedup in Ht as (_ & ? & ?).
Qed.

(** ** Routing *)

(** The schedule exists whenever it can be consulted. *)
Definition schedule_ready (p : Proxy) : Prop :=
  len (ps_targets (state p)) ≤ 1 ∨ is_Some (wrr p).

Section Routing.
Context (now : Z) (dial_ok : string → bool).

Lemma hostLive_frame host p :
  state (hostLive now dial_ok host p).2 = state p ∧ wrr (hostLive now dial_ok host p).2 = wrr p ∧
  backendStats (hostLive now dial_ok host p).2 = backendStats p.
Proof. unfold hostLive. by destruct (_ && _)%bool. Qed.

Lemma healthy_targets_frame targets p :
  let '(found, p') := healthy_targets now dial_ok targets p in
  state p' = state p ∧ wrr p' = wrr p ∧ backendStats p' = backendStats p ∧
  (found `sublist_of` targets).
Proof.
  revert p. induction targets as [|t targets IH]; intros p; simpl; [by repeat constructor|].
  pose proof (hostLive_frame (T_Host t) p) as (Hs & Hw & Hb).
  destruct (hostLive now dial_ok (T_Host t) p) as [live p1]. simpl in *. specialize (IH p1).
  destruct (healthy_targets now dial_ok targets p1) as [found p2].
  destruct IH as (Hs2 & Hw2 & Hb2 & Hsub). split_and!; try congruence.
  destruct live; [by constructor|by apply sublist_cons].
Qed.

Lemma pickWeighted_Some healthy p :
  is_Some (wrr p) → ∃ best p', pickWeighted healthy p = Some (best, p') ∧
    state p' = state p ∧ is_Some (wrr p') ∧ backendStats p' = backendStats p.
Proof.
  intros [m Hm]. unfold pickWeighted. rewrite Hm. cbn [mbind option_bind].
  destruct (score_loop healthy m "" MinInt64) as [m1 best]. by do 2 eexists.
Qed.

(** The best host is a backend, or no score beat the initial one. *)
Lemma score_loop_best healthy m b0 s0 :
  (score_loop healthy m b0 s0).2 = b0 ∨ (score_loop healthy m b0 s0).2 ∈ hosts healthy.
Proof.
  revert m b0 s0. induction healthy as [|t l IH]; intros m b0 s0; [by left|]. cbn [score_loop].
  destruct (s0 <? _).
  - right. destruct (IH (<[T_Host t := wrap64 (counter m (T_Host t) + effectiveWeight t)]> m)
      (T_Host t) (wrap64 (counter m (T_Host t) + effectiveWeight t))) as [->|H]; [left|by right].
  - destruct (IH (<[T_Host t := wrap64 (counter m (T_Host t) + effectiveWeight t)]> m) b0 s0)
      as [->|H]; [by left|right; by right].
Qed.
End Routing.

(** Requests, records and target changes of one proxy, in any order. *)
Inductive proxy_call :=
| CallSetTarget (primary : Target) (addl : list Target)
| CallRequest (host : string)
| CallRecord (host : string) (status : Z) (failed : bool) (latency : Z).

Inductive proxy_step : Proxy → proxy_call → Proxy → Prop :=
| px_set primary addl p :
    proxy_step p (CallSetTarget primary addl) (SetTarget primary addl p)
| px_request now dial_ok host p p' :
    direct now dial_ok (state p) p = Some (host, p') → proxy_step p (CallRequest host) p'
| px_record host status failed latency p :
    proxy_step p (CallRecord host status failed latency)
      (recordBackendRequest host status failed latency p).

Lemma direct_ready now dial_ok p :
  schedule_ready p → ∃ host p', direct now dial_ok (state p) p = Some (host, p') ∧
    state p' = state p ∧ (is_Some (wrr p) → is_Some (wrr p')) ∧ backendStats p' = backendStats p.
Proof.
  intros Hr. unfold direct. destruct (1 <? len (ps_targets (state p))) eqn:E; [|by eauto 10].
  bool_prop. destruct Hr as [Hr|Hr]; [lia|]. unfold pickHealthyHost.
  destruct (len _ =? 0); [by eauto 10|].
  pose proof (healthy_targets_frame now dial_ok (ps_targets (state p)) p) as H.
  destruct (healthy_targets _ _ _ _) as [found p1]. destruct H as (Hs & Hw & Hb & _).
  assert (∀ h : string, ∃ host p', Some (h, p1) = Some (host, p') ∧ state p' = state p ∧
    (is_Some (wrr p) → is_Some (wrr p')) ∧ backendStats p' = backendStats p) as Hsame.
  { intros h. exists h, p1. split_and!; try done. by rewrite Hw. }
  destruct found as [|t1 [|t2 l]]; [apply Hsame|apply Hsame|].
  destruct (pickWeighted_Some (t1 :: t2 :: l) p1) as (best & p2 & Hp & Hs2 & Hw2 & Hb2);
    [by rewrite Hw|]. exists best, p2. split_and!; [done|congruence|done|congruence].
Qed.

Lemma proxy_step_ready p c p' : proxy_step p c p' → schedule_ready p → schedule_ready p'.
Proof.
  destruct 1 as [primary addl p|now dial_ok host p p' Hd|host status failed latency p]; intros Hr.
  - right. by eexists.
  - destruct (direct_ready now dial_ok p Hr) as (h & p2 & Hd2 & Hs & Hw & _).
    rewrite Hd in Hd2. injection Hd2 as <- <-. unfold schedule_ready. rewrite Hs.
    destruct Hr as [Hr|Hr]; [by left|right; auto].
  - unfold recordBackendRequest. destruct (host =s ""); exact Hr.
Qed.

(** A request is always routed.  In any sequence of target changes, requests
    and records since the proxy was created, choosing a backend never panics and
    never waits for another change. *)
Theorem routing_never_panics app port initial ls p now dial_ok :
  steps proxy_step (New app port initial) ls p →
  ∃ host p', direct now dial_ok (state p) p = Some (host, p').
Proof.
  intros Hsteps. assert (schedule_ready p) as Hr.
  { eapply (steps_invariant proxy_step schedule_ready proxy_step_ready); [exact Hsteps|].
    left. simpl. done. }
  destruct (direct_ready now dial_ok p Hr) as (host & p' & Hd & _). eauto.
Qed.

(** A request goes to the primary or to an enrolled backend, and if any
    backend answers its probe the chosen one answers. *)
Theorem routed_to_live_backend now dial_ok p host p' :
  (∀ h, liveResults p !! h = None) →
  NoDup (hosts (ps_targets (state p))) →
  (∀ m h, wrr p = Some m → - 2 ^ 62 ≤ counter m h ≤ 2 ^ 62) →
  1 < len (ps_targets (state p)) →
  direct now dial_ok (state p) p = Some (host, p') →
  (host = T_Host (ps_primary (state p)) ∧
     (∀ t, t ∈ ps_targets (state p) → dial_ok (T_Host t) = false)) ∨
  (host ∈ hosts (ps_targets (state p)) ∧ dial_ok host = true).
Proof.
  intros Hfresh Hnd Hrange Hlen. unfold direct.
  replace (1 <? _) with true by (symmetry; by apply Z.ltb_lt). unfold pickHealthyHost.
  destruct (len _ =? 0) eqn:E0; [bool_prop; lia|].
  assert (∀ targets q, NoDup (hosts targets) → (∀ t, t ∈ targets → liveResults q !! T_Host t = None) →
    (healthy_targets now dial_ok targets q).1 = List.filter (λ t, dial_ok (T_Host t)) targets) as Hh.
  { clear. induction targets as [|t targets IH]; intros q Hnd Hq; [done|]. simpl.
    unfold hosts in Hnd. rewrite fmap_cons in Hnd. apply NoDup_cons in Hnd as [Hni Hnd].
    unfold hostLive. rewrite (Hq t) by (by left). simpl.
    specialize (IH (with_live q (<[T_Host t:={| lr_ok := dial_ok (T_Host t); lr_at := now |}]>
      (liveResults q))) Hnd).
    destruct (healthy_targets now dial_ok targets _) as [found q']. simpl in *. rewrite <- IH.
    - by destruct (dial_ok (T_Host t)).
    - intros t' Ht'. rewrite lookup_insert_ne; [apply Hq; by right|].
      intros Heq. apply Hni. rewrite Heq. by apply list_elem_of_fmap_2. }
  specialize (Hh (ps_targets (state p)) p Hnd (λ t _, Hfresh (T_Host t))).
  pose proof (healthy_targets_frame now dial_ok (ps_targets (state p)) p) as Hframe.
  destruct (healthy_targets _ _ _ _) as [found p1]. simpl in Hh. destruct Hframe as (Hs & Hw & _ & Hsub).
  assert (∀ t, t ∈ found ↔ t ∈ ps_targets (state p) ∧ dial_ok (T_Host t) = true) as Hin.
  { intros t. rewrite Hh, list_elem_of_In, filter_In, <- list_elem_of_In. done. }
  assert (∀ t, t ∈ found → T_Host t ∈ hosts (ps_targets (state p)) ∧ dial_ok (T_Host t) = true) as Hlive.
  { intros t [Ht Hd]%Hin. split; [by apply list_elem_of_fmap_2|done]. }
  destruct found as [|t1 [|t2 l]] eqn:Ef.
  - intros [= <- <-]. left. split; [done|]. intros t Ht.
    destruct (dial_ok (T_Host t)) eqn:Ed; [|done].
    assert (t ∈ @nil Target) as Hn by (by apply Hin). inversion Hn.
  - intros [= <- <-]. right. apply Hlive. left.
  - rewrite <- Ef in *. intros Hp. right.
    unfold pickWeighted in Hp. destruct (wrr p1) as [m|] eqn:Hm; [|done]. cbn [mbind option_bind] in Hp.
    assert (NoDup (hosts found)) as Hndf.
    { unfold hosts. eapply sublist_NoDup; [exact Hnd|]. by apply sublist_fmap. }
    assert (∀ h, - 2 ^ 62 ≤ counter m h ≤ 2 ^ 62) as Hm' by (intros h; apply Hrange; by rewrite <- Hw).
    assert (∀ t, t ∈ found → in_int64 (counter m (T_Host t) + effectiveWeight t)) as Hint.
    { intros t _. specialize (Hm' (T_Host t)). pose proof (effectiveWeight_range t).
      unfold in_int64. lia. }
    pose proof (score_loop_spec found m "" MinInt64 Hndf Hint) as Hspec.
    destruct (score_loop found m "" MinInt64) as [m1 best]. injection Hp as <- _.
    destruct Hspec as [_ [[_ Hle]|(t & Ht & -> & _)]]; [|by apply Hlive].
    specialize (Hle t1 ltac:(rewrite Ef; left)). specialize (Hm' (T_Host t1)).
    pose proof (effectiveWeight_range t1). unfold MinInt64 in Hle. lia.
Qed.

(** ** The window inside [SetTarget] *)

(** The two writes of [SetTarget] are separate: a request between them sees the
    new table with the old schedule.  On a proxy that never had a schedule, the
    request panics. *)
Example request_between_the_writes_panics :
  let t h := mkTarget h h 0 in
  let p := set_state (t "127.0.0.1:9001") [t "127.0.0.1:9002"] (New "api" 8080 (t "127.0.0.1:9001")) in
  direct 0 (λ _, true) (state p) p = None ∧
  is_Some (direct 0 (λ _, true) (state p) (reset_wrr p)).
Proof. vm_compute. split; [done|by eexists]. Qed.

(** ** Statistics *)

Lemma count_latency_lookup latency buckets i b n :
  LatencyBucketBounds !! i = Some b → buckets !! i = Some n →
  count_latency latency buckets !! i = Some (if latency <=? b then n + 1 else n).
Proof. intros Hb Hn. unfold count_latency. by rewrite lookup_zip_with, Hb; simpl; rewrite Hn. Qed.

(** The records of one backend. *)
Definition records_of (host : string) (rs : list (string * Z * bool * Z)) : list (string * Z * bool * Z) :=
  List.filter (λ '(h, _, _, _), h =s host) rs.

Definition record_all (rs : list (string * Z * bool * Z)) (p : Proxy) : Proxy :=
  foldl (λ p '(h, st, f, l), recordBackendRequest h st f l p) p rs.

Definition counts_as_error (r : string * Z * bool * Z) : bool :=
  let '(_, status, failed, _) := r in (failed || (500 <=? status))%bool.

Definition within (bound : Z) (r : string * Z * bool * Z) : bool := let '(_, _, _, l) := r in l <=? bound.

(** The counters of a backend are exact: requests, errors and, for every
    bound, the requests answered within it; the histogram is cumulative.  A
    request slower than the last bound is in no bucket. *)
Theorem backend_counters_are_exact rs host app port initial :
  host ≠ "" → records_of host rs ≠ [] →
  ∃ c, backendStats (record_all rs (New app port initial)) !! host = Some c ∧
    bc_requests c = len (records_of host rs) ∧
    bc_errors c = len (List.filter counts_as_error (records_of host rs)) ∧
    length (bc_buckets c) = length LatencyBucketBounds ∧
    (∀ i b, LatencyBucketBounds !! i = Some b →
       bc_buckets c !! i = Some (len (List.filter (within b) (records_of host rs)))).
Proof.
  intros Hhost Hne.
  set (good := λ (rs : list (string * Z * bool * Z)) (c : backendCounters),
    bc_requests c = len rs ∧ bc_errors c = len (List.filter counts_as_error rs) ∧
    length (bc_buckets c) = length LatencyBucketBounds ∧
    ∀ i b, LatencyBucketBounds !! i = Some b →
      bc_buckets c !! i = Some (len (List.filter (within b) rs))).
  assert (∀ rs p done, good done (default zero_counters (backendStats p !! host)) →
    good (done ++ records_of host rs)
      (default zero_counters (backendStats (record_all rs p) !! host)) ∧
    (records_of host rs ≠ [] ∨ is_Some (backendStats p !! host) →
     is_Some (backendStats (record_all rs p) !! host))) as Hgen.
  { clear rs Hne. induction rs as [|[[[h st] f] l] rs IH]; intros p done Hg.
    { simpl. rewrite app_nil_r. split; [exact Hg|]. by intros [?|?]. }
    cbn [record_all foldl]. fold (record_all rs (recordBackendRequest h st f l p)).
    cbn [records_of List.filter]. fold (records_of host rs).
    unfold recordBackendRequest. destruct (h =s "") eqn:Eh; bool_prop.
    { subst h. destruct ("" =s host) eqn:E; bool_prop; [congruence|]. by apply IH. }
    destruct (h =s host) eqn:E; bool_prop.
    - subst h. set (p1 := with_stats p _).
      change (done ++ (host, st, f, l) :: records_of host rs)
        with (done ++ ([(host, st, f, l)] ++ records_of host rs)). rewrite app_assoc.
      destruct (IH p1 (done ++ [(host, st, f, l)])) as [IH1 IH2].
      + unfold p1. simpl. rewrite lookup_insert_eq. simpl.
        destruct Hg as (Hr & He & Hl & Hb). unfold good. simpl. split_and!.
        * rewrite len_app, Hr. done.
        * rewrite List.filter_app, len_app, He. simpl. destruct (f || _)%bool; unfold len; simpl; lia.
        * unfold count_latency. rewrite length_zip_with, Hl. apply Nat.min_id.
        * intros i b Hib. rewrite (count_latency_lookup _ _ _ _ _ Hib (Hb i b Hib)).
          rewrite List.filter_app, len_app. simpl. by destruct (l <=? b); f_equal; simpl; rewrite ?Z.add_0_r.
      + split; [exact IH1|]. intros _. apply IH2. right. unfold p1. simpl. by rewrite lookup_insert_eq.
    - set (p1 := with_stats p _).
      assert (backendStats p1 !! host = backendStats p !! host) as Hsame
        by (unfold p1; simpl; by rewrite lookup_insert_ne).
      destruct (IH p1 done) as [IH1 IH2]; [by rewrite Hsame|]. split; [exact IH1|].
      by rewrite Hsame in IH2. }
  destruct (Hgen rs (New app port initial) []) as [Hg Hsome].
  { unfold good. simpl. split_and!; [done|done|done|].
    intros i b Hib. apply lookup_replicate. split; [done|]. by apply lookup_lt_Some in Hib. }
  destruct (Hsome (or_introl Hne)) as [c Hc]. exists c. split; [done|].
  rewrite Hc in Hg. simpl in Hg. exact Hg.
Qed.

Lemma add_buckets_lookup merged b i x :
  merged !! i = Some x → add_buckets merged b !! i = Some (x + default 0 (b !! i)).
Proof.
  revert b i. induction merged as [|y merged IH]; intros b i Hx; [done|].
  destruct b as [|z b]; simpl.
  - rewrite Hx. f_equal. lia.
  - destruct i as [|i]; simplify_eq/=; [done|]. by apply IH.
Qed.

(** The rollup adds up: requests, errors and each bucket of the merged
    histogram are the sums over the backends. *)
Theorem summary_adds_up stats i b :
  LatencyBucketBounds !! i = Some b →
  TS_Requests (Summarize stats) = foldr (λ s a, BS_Requests s + a) 0 stats ∧
  TS_Errors (Summarize stats) = foldr (λ s a, BS_Errors s + a) 0 stats ∧
  TS_Merged (Summarize stats) !! i =
    Some (foldr (λ s a, default 0 (BS_Buckets s !! i) + a) 0 stats).
Proof.
  intros Hib. unfold Summarize.
  assert (∀ sum x, TS_Merged sum !! i = Some x →
    let r := foldl (λ sum s, {| TS_Requests := TS_Requests sum + BS_Requests s;
                     TS_Errors := TS_Errors sum + BS_Errors s;
                     TS_Merged := add_buckets (TS_Merged sum) (BS_Buckets s) |}) sum stats in
    TS_Requests r = TS_Requests sum + foldr (λ s a, BS_Requests s + a) 0 stats ∧
    TS_Errors r = TS_Errors sum + foldr (λ s a, BS_Errors s + a) 0 stats ∧
    TS_Merged r !! i = Some (x + foldr (λ s a, default 0 (BS_Buckets s !! i) + a) 0 stats)) as H.
  { induction stats as [|s stats IH]; intros sum x Hx; simpl.
    - rewrite Hx. split_and!; [lia|lia|f_equal; lia].
    - set (sum' := mkSummary (TS_Requests sum + BS_Requests s) (TS_Errors sum + BS_Errors s)
        (add_buckets (TS_Merged sum) (BS_Buckets s))).
      destruct (IH sum' (x + default 0 (BS_Buckets s !! i))) as (IH1 & IH2 & IH3);
        [by apply add_buckets_lookup|].
      subst sum'. simpl in IH1, IH2, IH3. split_and!; [rewrite IH1; lia|rewrite IH2; lia|rewrite IH3; f_equal; lia]. }
  apply (H (mkSummary 0 0 (replicate (length LatencyBucketBounds) 0)) 0).
  apply (lookup_replicate_2 (length LatencyBucketBounds)). by apply lookup_lt_Some in Hib.
Qed.

(** ** Samples *)

Module ProxySamples.
Definition stable := mkTarget "127.0.0.1:9001" "stable" 95.
Definition canary := mkTarget "127.0.0.1:9002" "canary" 5.
Definition backends := [stable; canary].
Definition proxy0 := New "api" 8080 stable.
Definition proxy1 := SetTarget stable [canary; stable] proxy0.

(** Five percent of a hundred requests, spread evenly. *)
Example canary_gets_its_share :
  (λ '(picks, _), occ (T_Host canary) picks) <$> serve 100 backends proxy1 = Some 5.
Proof. by vm_compute. Qed.

Example a_slow_request_is_in_no_bucket :
  bc_buckets <$> backendStats (recordBackendRequest "h" 200 false (11000 * ms) proxy0) !! "h" =
  Some (bc_buckets zero_counters).
Proof. by vm_compute. Qed.

Lemma backends_distinct : NoDup (hosts backends).
Proof. apply (bool_decide_unpack _). by vm_compute. Qed.
End ProxySamples.

Lemma weighted_round_robin_is_exact_witness :
  ∃ picks p', serve 100 ProxySamples.backends ProxySamples.proxy1 = Some (picks, p') ∧
    occ "127.0.0.1:9002" picks = 5.
Proof.
  destruct (weighted_round_robin_is_exact ProxySamples.backends ProxySamples.proxy1 ∅ 100)
    as (picks & m' & Hs & _ & _ & Hcycle).
  - done.
  - exact ProxySamples.backends_distinct.
  - done.
  - done.
  - done.
  - exists picks. eexists. split; [exact Hs|].
    destruct (Hcycle eq_refl ProxySamples.canary) as [Hocc _]; [right; left|exact Hocc].
Defined.

Lemma routing_never_panics_witness :
  ∃ host p', direct 0 (λ _, true) (state ProxySamples.proxy1) ProxySamples.proxy1 = Some (host, p').
Proof.
  apply (routing_never_panics "api" 8080 ProxySamples.stable
    [CallSetTarget ProxySamples.stable [ProxySamples.canary; ProxySamples.stable]]).
  eapply steps_cons; [apply px_set|apply steps_nil].
Defined.

Lemma routed_to_live_backend_witness :
  (λ x, x.1) <$> direct 0 (String.eqb "127.0.0.1:9002") (state ProxySamples.proxy1) ProxySamples.proxy1
    = Some "127.0.0.1:9002" ∧
  (λ h, h =s "127.0.0.1:9002") "127.0.0.1:9002" = true.
Proof.
  destruct (direct 0 (String.eqb "127.0.0.1:9002") (state ProxySamples.proxy1) ProxySamples.proxy1)
    as [[host p']|] eqn:Hd; [|vm_compute in Hd; discriminate].
  destruct (routed_to_live_backend 0 (String.eqb "127.0.0.1:9002") ProxySamples.proxy1 host p')
    as [[_ Hdead]|[_ Hlive]].
  - done.
  - exact ProxySamples.backends_distinct.
  - intros m h [= <-]. unfold counter. by rewrite lookup_empty.
  - done.
  - exact Hd.
  - exfalso. assert ((("127.0.0.1:9002" : string) =s "127.0.0.1:9002") = false) as Hf
      by (apply (Hdead ProxySamples.canary); right; left). discriminate Hf.
  - apply String.eqb_eq in Hlive. subst host. by split.
Defined.

Lemma backend_counters_are_exact_witness :
  ∃ c, backendStats (record_all [("h", 200, false, ms); ("h", 503, false, 20 * ms)]
         ProxySamples.proxy0) !! "h" = Some c ∧ bc_requests c = 2 ∧ bc_errors c = 1.
Proof.
  destruct (backend_counters_are_exact [("h", 200, false, ms); ("h", 503, false, 20 * ms)] "h"
    "api" 8080 ProxySamples.stable) as (c & Hc & Hr & He & _); [done|done|].
  exists c. split_and!; [exact Hc|exact Hr|exact He].
Defined.

Lemma summary_adds_up_witness :
  TS_Requests (Summarize [mkStat "" "a" 3 1 [1]; mkStat "" "b" 4 0 [2; 4]]) = 7.
Proof.
  exact (proj1 (summary_adds_up [mkStat "" "a" 3 1 [1]; mkStat "" "b" 4 0 [2; 4]] 0 (5 * ms) eq_refl)).
Defined.
