(* ===== verification/ProxyControl.v ===== *)
(** * ProxyControl: the control daemon of the reverse proxy
      (src/internal/proxy/control.go, accesslog.go)

    The daemon keeps one [Proxy] per enrolled application, holds its public
    port and writes the routing table to a file that a restart replays.  The
    control operations, the file, the restart, the client and the start of the
    daemon are modelled; sockets answer through [Env].  JSON is the identity on
    the records it carries. *)

From S2P Require Import Prelude GoLib ProxyRouting Errors.

(** ** Messages and the state file *)

(* src: internal/proxy/control.go:32-44 Op *)
Definition Op : Type := string.
Definition OpSwitch : Op := "switch".
Definition OpAdd : Op := "add".
Definition OpRemove : Op := "remove".
Definition OpStatus : Op := "status".
Definition OpStats : Op := "stats".
Definition OpPing : Op := "ping".
Definition OpVersion : Op := "version".
Definition OpShutdown : Op := "shutdown".

(* src: internal/proxy/control.go Request *)
Record Request := mkRequest {
  RQ_Op : Op; RQ_AppName : string; RQ_PublicPort : Z; RQ_Primary : option Target;
  RQ_Backends : list Target; RQ_AccessLog : string
}.

(* src: internal/proxy/control.go AppStatus *)
Record AppStatus := mkStatus {
  AS_AppName : string; AS_PublicPort : Z; AS_Primary : Target; AS_Backends : list Target; AS_InFlight : Z
}.

(* src: internal/proxy/control.go Response *)
Record Response := mkResponse {
  RS_OK : bool; RS_Error : string; RS_Status : list AppStatus; RS_Stats : list BackendStat; RS_Version : Z
}.
Definition okay : Response := mkResponse true "" [] [] 0.
Definition refused (message : string) : Response := mkResponse false message [] [] 0.

(* src: internal/proxy/control.go persistedApp *)
Record persistedApp := mkPersisted {
  PA_AppName : string; PA_PublicPort : Z; PA_Primary : Target; PA_Backends : list Target; PA_AccessLog : string
}.

#[export] Instance persistedApp_eq_dec : EqDecision persistedApp.
Proof. solve_decision. Defined.

(** [Saved l] is a file that decodes to the applications [l]. *)
(* src: internal/proxy/control.go proxyPersistFile *)
Inductive StateFile := Missing | Corrupt | Saved (apps : list persistedApp).

(* src: internal/proxy/control.go proxyProtoVersion *)
Definition proxyProtoVersion : Z := 3.

(** [dm_bound]: the public ports the process listens on.  [dm_file] outlives the
    process. *)
(* src: internal/proxy/control.go Daemon *)
Record Daemon := mkDaemon {
  dm_proxies : gmap string Proxy; dm_bound : gset Z; dm_file : StateFile; dm_stopping : bool
}.

Definition with_proxies (m : gmap string Proxy) (d : Daemon) : Daemon :=
  mkDaemon m (dm_bound d) (dm_file d) (dm_stopping d).
Definition with_bound (b : gset Z) (d : Daemon) : Daemon :=
  mkDaemon (dm_proxies d) b (dm_file d) (dm_stopping d).
Definition with_file (f : StateFile) (d : Daemon) : Daemon :=
  mkDaemon (dm_proxies d) (dm_bound d) f (dm_stopping d).

(* src: internal/proxy/control.go NewDaemon *)
Definition NewDaemon (file : StateFile) : Daemon := mkDaemon ∅ ∅ file false.

Definition with_access (mode : string) (p : Proxy) : Proxy :=
  {| PublicPort := PublicPort p; AppName := AppName p; AccessMode := mode; state := state p;
     wrr := wrr p; backendStats := backendStats p; liveResults := liveResults p |}.

(** What the machine answers during one operation: whether another process
    keeps a port, which backends accept a connection, whether the server of a
    port has started to serve and what closing its listener reports, and whether
    every call that writes the state file works. *)
Record Env := mkEnv {
  en_listen : Z → option error;
  en_dial : string → bool;
  en_serving : Z → bool;
  en_close : Z → option error;
  en_persist : bool
}.

Definition in_use : error := Foreign "bind: address already in use" None.
Definition bad_port : error := Foreign "invalid port" None.

(** [net.Listen("tcp", ":port")]. *)
Definition listen (e : Env) (port : Z) (d : Daemon) : option error :=
  if 65535 <? port then Some bad_port
  else if bool_decide (port ∈ dm_bound d) then Some in_use
  else en_listen e port.

Section Operations.
Variable e : Env.

(* src: internal/proxy/control.go Daemon.startAppProxy *)
Definition startAppProxy (p : Proxy) (d : Daemon) : result error Daemon :=
  match listen e (PublicPort p) d with
  | Some err => Err (wrap CodePortUnavailable ("proxy: bind public port " +:+ Itoa (PublicPort p)) err)
  | None => Ok (with_bound ({[PublicPort p]} ∪ dm_bound d) d)
  end.

(** The server's goroutine ends with an error other than [ErrServerClosed]; it
    removes its proxy if the map still holds it. *)
(* src: internal/proxy/control.go:208-219 Daemon.startAppProxy *)
Definition stopped_serving (name : string) (current : bool) (d : Daemon) : Daemon :=
  match dm_proxies d !! name with
  | Some p =>
      if current then with_bound (dm_bound d ∖ {[PublicPort p]}) (with_proxies (delete name (dm_proxies d)) d)
      else d
  | None => d
  end.

(** A server that has not started is left alone and keeps its listener. *)
(* src: internal/proxy/proxy.go Proxy.Shutdown *)
Definition Shutdown (p : Proxy) (d : Daemon) : option error * Daemon :=
  if en_serving e (PublicPort p)
  then (en_close e (PublicPort p), with_bound (dm_bound d ∖ {[PublicPort p]}) d)
  else (None, d).

(** ** The state file *)

Definition persisted (name : string) (p : Proxy) : persistedApp :=
  mkPersisted name (PublicPort p) (ps_primary (state p)) (ps_targets (state p)) (AccessMode p).

(* src: internal/proxy/control.go Daemon.snapshotPersist *)
Definition snapshotPersist (d : Daemon) : list persistedApp :=
  sort_by (λ x y, String.ltb (PA_AppName x) (PA_AppName y))
    ((λ '(name, p), persisted name p) <$> map_to_list (dm_proxies d)).

(** The write and the rename of a snapshot taken before. *)
(* src: internal/proxy/control.go:351-362 Daemon.persistState *)
Definition commit_state (snapshot : list persistedApp) (d : Daemon) : Daemon :=
  if en_persist e then with_file (Saved snapshot) d else d.

(* src: internal/proxy/control.go Daemon.persistState *)
Definition persistState (d : Daemon) : Daemon := commit_state (snapshotPersist d) d.

(** ** Enrolment *)

(** [p := New(...)], with the further backends if there are any. *)
(* src: internal/proxy/control.go:252-256 Daemon.EnrollApp *)
Definition new_proxy (name : string) (port : Z) (primary : Target) (backends : list Target) (mode : string) : Proxy :=
  let p := with_access mode (ProxyRouting.New name port primary) in
  if 0 <? len backends then SetTarget primary backends p else p.

(* src: internal/proxy/control.go Daemon.EnrollApp *)
Definition EnrollApp (name : string) (port : Z) (primary : Target) (backends : list Target) (mode : string)
    (d : Daemon) : option error * Daemon :=
  if name =s "" then (Some (New CodeInvalidArgument "proxy: appName is required"), d)
  else if port <=? 0 then (Some (New CodeInvalidArgument "proxy: valid public port required"), d)
  else if T_Host primary =s "" then (Some (New CodeInvalidArgument "proxy: primary target host is required"), d)
  else
    let fresh :=
      let p := new_proxy name port primary backends mode in
      match startAppProxy p d with
      | Err err => (Some err, d)
      | Ok d =>
          let old := dm_proxies d !! name in
          let d := with_proxies (<[name := p]> (dm_proxies d)) d in
          let d := match old with Some old => (Shutdown old d).2 | None => d end in
          (None, persistState d)
      end in
    match dm_proxies d !! name with
    | Some existing =>
        if PublicPort existing =? port then
          let p := SetTarget primary backends existing in
          let p := if mode <>s "" then with_access mode p else p in
          (None, persistState (with_proxies (<[name := p]> (dm_proxies d)) d))
        else fresh
    | None => fresh
    end.

Definition not_enrolled (name : string) : error :=
  New CodeInvalidArgument ("proxy: app " +:+ Quote name +:+ " is not enrolled with the proxy daemon").

(** The new table, before it is written to the file. *)
(* src: internal/proxy/control.go:278-290 Daemon.SwitchApp *)
Definition switch_table (name : string) (primary : Target) (backends : list Target) (d : Daemon) : result error Daemon :=
  match dm_proxies d !! name with
  | None => Err (not_enrolled name)
  | Some p => Ok (with_proxies (<[name := SetTarget primary backends p]> (dm_proxies d)) d)
  end.

(* src: internal/proxy/control.go Daemon.SwitchApp *)
Definition SwitchApp (name : string) (primary : Target) (backends : list Target) (d : Daemon) : option error * Daemon :=
  match switch_table name primary backends d with
  | Err err => (Some err, d)
  | Ok d => (None, persistState d)
  end.

(* src: internal/proxy/control.go Daemon.RemoveApp *)
Definition RemoveApp (name : string) (d : Daemon) : option error * Daemon :=
  match dm_proxies d !! name with
  | None => (None, d)
  | Some p =>
      let d := with_proxies (delete name (dm_proxies d)) d in
      match Shutdown p d with
      | (Some err, d) => (Some err, d)
      | (None, d) => (None, persistState d)
      end
  end.

(** ** Reports: Go's map order is the order of [map_to_list] *)

Definition selected (name app : string) : bool := ((name =s "") || (app =s name))%bool.

(** [inflight]: the requests being served for an application. *)
(* src: internal/proxy/control.go Daemon.Status *)
Definition Status (inflight : string → Z) (name : string) (d : Daemon) : list AppStatus :=
  (λ '(app, p), mkStatus app (PublicPort p) (CurrentTarget p) (Targets p) (inflight app))
    <$> filter (λ x, selected name x.1 = true) (map_to_list (dm_proxies d)).

(* src: internal/proxy/control.go Daemon.Stats *)
Definition DaemonStats (name : string) (d : Daemon) : list BackendStat :=
  filter (λ x, selected name x.1 = true) (map_to_list (dm_proxies d)) ≫= λ '(_, p), Stats p.

(** ** One control connection *)

(** What the daemon reads: nothing, a line that is not a request, a request. *)
Inductive Line := NoLine | BadLine (why : string) | Message (req : Request).

Definition reply (r : option error * Daemon) : option Response * Daemon :=
  (Some (match r.1 with Some err => refused (Error err) | None => okay end), r.2).

(* src: internal/proxy/control.go Daemon.handleConn *)
Definition handleConn (inflight : string → Z) (line : Line) (d : Daemon) : option Response * Daemon :=
  match line with
  | NoLine => (None, d)
  | BadLine why => (Some (refused ("invalid request: " +:+ why)), d)
  | Message req =>
      if RQ_Op req =s OpPing then (Some okay, d)
      else if RQ_Op req =s OpVersion then (Some (mkResponse true "" [] [] proxyProtoVersion), d)
      else if RQ_Op req =s OpAdd then
        match RQ_Primary req with
        | None => (Some (refused "primary is required for add"), d)
        | Some primary =>
            reply (EnrollApp (RQ_AppName req) (RQ_PublicPort req) primary (RQ_Backends req) (RQ_AccessLog req) d)
        end
      else if RQ_Op req =s OpSwitch then
        match RQ_Primary req with
        | None => (Some (refused "primary is required for switch"), d)
        | Some primary => reply (SwitchApp (RQ_AppName req) primary (RQ_Backends req) d)
        end
      else if RQ_Op req =s OpRemove then reply (RemoveApp (RQ_AppName req) d)
      else if RQ_Op req =s OpStatus then (Some (mkResponse true "" (Status inflight (RQ_AppName req) d) [] 0), d)
      else if RQ_Op req =s OpStats then (Some (mkResponse true "" [] (DaemonStats (RQ_AppName req) d) 0), d)
      else if RQ_Op req =s OpShutdown then
        (Some okay, mkDaemon (dm_proxies d) (dm_bound d) (dm_file d) true)
      else (Some (refused ("unknown op: " +:+ RQ_Op req)), d)
  end.

(** ** Restart *)

(** The answer of a backend does not change during one pass. *)
(* src: internal/proxy/control.go:377-387 reconcileBackends *)
Definition dialable (host : string) : bool := if host =s "" then false else en_dial e host.

(* src: internal/proxy/control.go reconcileBackends *)
Definition reconcileBackends (primary : Target) (backends : list Target) : Target * list Target :=
  if len backends =? 0 then (primary, backends)
  else
    let live := List.filter (λ b, dialable (T_Host b)) backends in
    match live with
    | [] => (primary, backends)
    | first :: _ =>
        if len live =? len backends then (primary, backends)
        else (if dialable (T_Host primary) then primary else first, live)
    end.

(** One entry of the file: the daemon after it and whether its port was lost. *)
(* src: internal/proxy/control.go:425-443 Daemon.restoreState *)
Definition restore_app (app : persistedApp) (d : Daemon) : Daemon * bool :=
  if ((PA_AppName app =s "") || (PA_PublicPort app <=? 0) || (T_Host (PA_Primary app) =s ""))%bool then (d, false)
  else
    let '(primary, backends) := reconcileBackends (PA_Primary app) (PA_Backends app) in
    let p := new_proxy (PA_AppName app) (PA_PublicPort app) primary backends (PA_AccessLog app) in
    match startAppProxy p d with
    | Err _ => (d, true)
    | Ok d => (with_proxies (<[PA_AppName app := p]> (dm_proxies d)) d, false)
    end.

Definition restore_apps (apps : list persistedApp) (d : Daemon) : Daemon * bool :=
  foldl (λ '(d, lost) app, let '(d, l) := restore_app app d in (d, (lost || l)%bool)) (d, false) apps.

(* src: internal/proxy/control.go Daemon.restoreState *)
Definition restoreState (d : Daemon) : Daemon :=
  match dm_file d with
  | Saved apps => let '(d, lost) := restore_apps apps d in if lost then persistState d else d
  | Missing | Corrupt => d
  end.

(** A new process: the ports of the old one are free, its file is there. *)
(* src: internal/proxy/control.go Daemon.Run *)
Definition Run (file : StateFile) : Daemon := restoreState (NewDaemon file).
End Operations.

(** ** The client *)

(** What the connection does with a request: it is not made, the request reaches
    the daemon and the answer does not come back, or both pass. *)
Inductive Link := LinkDown (cause : error) | LinkLost (cause : error) | LinkUp.

Definition dial_failed (cause : error) : error :=
  wrap CodeConnection "proxy: dial control socket (is 'phelix proxy' running?)" cause.
Definition read_failed (cause : error) : error := wrap CodeConnection "proxy: read control socket" cause.
Definition end_of_file : error := Foreign "EOF" None.

Section Client.
Variables (e : Env) (inflight : string → Z) (link : Link).

(* src: internal/proxy/control.go Client.Do *)
Definition Do (req : Request) (d : Daemon) : result error Response * Daemon :=
  match link with
  | LinkDown cause => (Err (dial_failed cause), d)
  | LinkLost cause => (Err (read_failed cause), (handleConn e inflight (Message req) d).2)
  | LinkUp =>
      match handleConn e inflight (Message req) d with
      | (Some resp, d) => (Ok resp, d)
      | (None, d) => (Err (read_failed end_of_file), d)
      end
  end.

Definition demand (what : string) (r : result error Response * Daemon) : result error Response * Daemon :=
  match r with
  | (Ok resp, d) =>
      if RS_OK resp then (Ok resp, d)
      else (Err (New CodeProxy ("proxy: " +:+ what +:+ " failed: " +:+ RS_Error resp)), d)
  | r => r
  end.

(* src: internal/proxy/control.go Client.Ping *)
Definition Client_Ping (d : Daemon) := demand "ping" (Do (mkRequest OpPing "" 0 None [] "") d).

(** [resolver] is the lookup the application package injects. *)
(* src: internal/proxy/accesslog.go resolveAccessMode *)
Definition resolveAccessMode (resolver : option (string → string)) (appName explicit : string) : string :=
  if explicit <>s "" then explicit
  else match resolver with None => "" | Some f => f appName end.

(* src: internal/proxy/control.go Client.Add *)
Definition Client_Add (resolver : option (string → string)) (name : string) (port : Z) (primary : Target)
    (backends : list Target) (d : Daemon) :=
  demand "add" (Do (mkRequest OpAdd name port (Some primary) backends (resolveAccessMode resolver name "")) d).

(* src: internal/proxy/control.go Client.Switch *)
Definition Client_Switch (name : string) (primary : Target) (backends : list Target) (d : Daemon) :=
  demand "switch" (Do (mkRequest OpSwitch name 0 (Some primary) backends "") d).

(* src: internal/proxy/control.go Client.Remove *)
Definition Client_Remove (name : string) (d : Daemon) :=
  demand "remove" (Do (mkRequest OpRemove name 0 None [] "") d).

(* src: internal/proxy/control.go Client.Status *)
Definition Client_Status (name : string) (d : Daemon) : result error (list AppStatus) * Daemon :=
  let '(r, d) := demand "status" (Do (mkRequest OpStatus name 0 None [] "") d) in (RS_Status <$> r, d).

(* src: internal/proxy/control.go Client.Stats *)
Definition Client_Stats (name : string) (d : Daemon) : result error (list BackendStat) * Daemon :=
  let '(r, d) := demand "stats" (Do (mkRequest OpStats name 0 None [] "") d) in (RS_Stats <$> r, d).

(** A daemon older than the handshake answers with an error. *)
(* src: internal/proxy/control.go daemonVersionOf *)
Definition daemonVersionOf (answer : result error Response) : Z :=
  match answer with
  | Ok resp => if RS_OK resp then RS_Version resp else 1
  | Err _ => 1
  end.
End Client.

(** ** The start of the daemon by a command *)

Section Ensure.
(** [up n] is the answer of the [n]-th probe of the socket, [now n] the clock
    just before it and [cancelled n] the state of the context then. *)
Variables (up : nat → bool) (now : nat → Z) (cancelled : nat → option error).

(** [for client.IsRunning() && time.Now().Before(deadline)]: the next probe.
    [None]: out of fuel. *)
(* src: internal/proxy/control.go:788-791 EnsureDaemon *)
Fixpoint await_exit (fuel : nat) (deadline : Z) (n : nat) : option nat :=
  match fuel with
  | O => None
  | S fuel => if (up n && (now n <? deadline))%bool then await_exit fuel deadline (S n) else Some (S n)
  end.

(* src: internal/proxy/control.go:825-837 EnsureDaemon *)
Fixpoint await_start (fuel : nat) (timeout : error) (deadline : Z) (n : nat) : option (result error nat) :=
  match fuel with
  | O => None
  | S fuel =>
      if now n <? deadline then
        match cancelled n with
        | Some err => Some (Err err)
        | None => if up n then Some (Ok n) else await_start fuel timeout deadline (S n)
        end
      else Some (Err timeout)
  end.

Definition cannot_locate : error := New CodeProxy "proxy: cannot locate phelix executable to start daemon".
Definition cannot_start (cause : error) : error := wrap CodeProxy "proxy: failed to start daemon" cause.
Definition unreachable : error := New CodeTimeout "proxy: daemon did not become reachable".

(** [located]: the executable exists; [started]: the error of starting it.  The
    result is the probe that answered. *)
(* src: internal/proxy/control.go EnsureDaemon *)
Definition EnsureDaemon (fuel : nat) (version : result error Response) (located : bool) (started : option error)
    (wait : Z) : option (result error nat) :=
  let launch n :=
    if negb located then Some (Err cannot_locate)
    else match started with
         | Some err => Some (Err (cannot_start err))
         | None =>
             let wait := if wait <=? 0 then 5000 * ms else wait in
             await_start fuel unreachable (now n + wait) n
         end in
  if up 0%nat then
    if proxyProtoVersion <=? daemonVersionOf version then Some (Ok 0%nat)
    else match await_exit fuel (now 1%nat + 35000 * ms) 1 with None => None | Some n => launch n end
  else launch 1%nat.
End Ensure.

(** ** The access log *)

Definition AccessLogAll : string := "all".
Definition AccessLogOff : string := "off".

(* src: internal/proxy/accesslog.go sampledAccess *)
Definition sampledAccess (mode : string) (status latency p95 : Z) : bool :=
  if mode =s AccessLogAll then true
  else if mode =s AccessLogOff then false
  else if 400 <=? status then true
  else ((0 <? p95) && (p95 <? latency))%bool.

(* src: internal/proxy/accesslog.go Proxy.backendLabel *)
Definition backendLabel (host : string) (p : Proxy) : string :=
  match List.find (λ t, T_Host t =s host) (ps_targets (state p)) with Some t => T_Label t | None => "" end.

(** A request as the log sees it; [chosen] is the backend the director noted. *)
Record Served := mkServed {
  SV_Method : string; SV_Path : string; SV_Status : Z; SV_Bytes : Z; SV_Latency : Z;
  SV_Chosen : option string; SV_Traceparent : string
}.

Record AccessRecord := mkAccess { AC_Level : string; AC_App : string; AC_Msg : string; AC_Fields : gmap string string }.

(** [p95] is the estimate of traffic.go. *)
(* src: internal/proxy/accesslog.go Proxy.recordAccess *)
Definition recordAccess (p95 : Z) (r : Served) (p : Proxy) : option AccessRecord :=
  if AccessMode p =s AccessLogOff then None
  else if negb (sampledAccess (AccessMode p) (SV_Status r) (SV_Latency r) p95) then None
  else
    let level := if 500 <=? SV_Status r then "error" else if 400 <=? SV_Status r then "warn" else "info" in
    let fields := <["duration_ms" := Itoa (SV_Latency r ÷ ms)]> (<["bytes" := Itoa (SV_Bytes r)]>
      (<["status" := Itoa (SV_Status r)]> (<["path" := SV_Path r]> (<["method" := SV_Method r]> ∅)))) in
    let fields := match SV_Chosen r with
      | Some host =>
          if host =s "" then fields
          else let fields := <["backend" := host]> fields in
               let label := backendLabel host p in
               if label <>s "" then <["backend_label" := label]> fields else fields
      | None => fields
      end in
    let fields := if SV_Traceparent r <>s "" then <["traceparent" := SV_Traceparent r]> fields else fields in
    Some (mkAccess level (AppName p) (SV_Method r +:+ " " +:+ SV_Path r +:+ " " +:+ Itoa (SV_Status r)) fields).
