(* ===== verification/ProxyControlSafety.v ===== *)
(** * ProxyControlSafety: what the control daemon of the proxy guarantees

    In every history of requests, failures and restarts the daemon holds the
    port of each application it routes, no two share one, and its tables are
    normalised; a refused change leaves no trace; an acknowledged one survives a
    restart; a restored route never leads to a backend that does not answer
    while another does. *)

From S2P Require Import Prelude GoLib ProxyRouting ProxyControl Errors.

#[local] Arguments snapshotPersist : simpl never.

(** ** The invariant of the routing map *)

Definition normal (p : Proxy) : Prop :=
  ∃ addl, state p = normalised (ps_primary (state p)) addl.

Record proxy_ok (d : Daemon) (name : string) (p : Proxy) : Prop := {
  po_name : AppName p = name;
  po_named : name ≠ "";
  po_port : 0 < PublicPort p ≤ 65535;
  po_held : PublicPort p ∈ dm_bound d;
  po_normal : normal p;
  po_ready : schedule_ready p
}.

Record control_ok (d : Daemon) : Prop := {
  co_proxies name p : dm_proxies d !! name = Some p → proxy_ok d name p;
  co_distinct n1 n2 p1 p2 : dm_proxies d !! n1 = Some p1 → dm_proxies d !! n2 = Some p2 →
    PublicPort p1 = PublicPort p2 → n1 = n2
}.

(** The parts of a proxy that a restart is to bring back. *)
Definition routing (p : Proxy) : Z * string * proxyState := (PublicPort p, AccessMode p, state p).

Lemma normal_SetTarget primary addl p : normal (SetTarget primary addl p).
Proof. by exists addl. Qed.

Lemma new_proxy_state name port primary backends mode :
  state (new_proxy name port primary backends mode) = normalised primary backends.
Proof.
  unfold new_proxy. destruct (0 <? len backends) eqn:E; [done|]. bool_prop.
  destruct backends; [done|]. rewrite len_cons in E. pose proof (len_nonneg backends). lia.
Qed.

Lemma new_proxy_facts name port primary backends mode :
  let p := new_proxy name port primary backends mode in
  AppName p = name ∧ PublicPort p = port ∧ AccessMode p = mode ∧ normal p ∧ schedule_ready p.
Proof.
  intros p. split_and!; try (unfold p, new_proxy; by destruct (0 <? len backends)).
  - exists backends. unfold p. by rewrite new_proxy_state.
  - unfold schedule_ready, p, new_proxy. destruct (0 <? len backends); [right; by eexists|by left].
Qed.


(** Changes of one application's proxy that keep its port. *)
Lemma control_ok_insert d name p :
  control_ok d → proxy_ok d name p →
  (∀ n' p', n' ≠ name → dm_proxies d !! n' = Some p' → PublicPort p' ≠ PublicPort p) →
  control_ok (with_proxies (<[name := p]> (dm_proxies d)) d).
Proof.
  intros [Hp Hd] Hok Hne. split.
  - intros n q. cbn [dm_proxies with_proxies]. intros [[<- <-]|[_ Hq]]%lookup_insert_Some.
    + by destruct Hok; split.
    + by destruct (Hp n q Hq); split.
  - intros n1 n2 p1 p2. cbn [dm_proxies with_proxies].
    intros [[<- <-]|[Hn1 H1]]%lookup_insert_Some [[<- <-]|[Hn2 H2]]%lookup_insert_Some He; try done.
    + by destruct (Hne n2 p2).
    + by destruct (Hne n1 p1).
    + by eapply Hd.
Qed.

Lemma control_ok_delete d name : control_ok d → control_ok (with_proxies (delete name (dm_proxies d)) d).
Proof.
  intros [Hp Hd]. split; cbn [dm_proxies with_proxies].
  - intros n q [_ Hq]%lookup_delete_Some. by destruct (Hp n q Hq); split.
  - intros n1 n2 p1 p2 [_ H1]%lookup_delete_Some [_ H2]%lookup_delete_Some. by eapply Hd.
Qed.

(** Growing the set of held ports, or giving up one that no application uses. *)
Lemma control_ok_bound d b :
  control_ok d → (∀ name p, dm_proxies d !! name = Some p → PublicPort p ∈ b) → control_ok (with_bound b d).
Proof.
  intros [Hp Hd] Hb. split; [|exact Hd]. intros n q Hq. destruct (Hp n q Hq). split; try done. by eapply Hb.
Qed.

Lemma control_ok_file d f : control_ok d → control_ok (with_file f d).
Proof. intros [Hp Hd]. split; [|done]. intros n q Hq. by destruct (Hp n q Hq); split. Qed.

Lemma persistState_ok e d : control_ok d → control_ok (persistState e d).
Proof. unfold persistState, commit_state. destruct (en_persist e); [apply control_ok_file|done]. Qed.

Lemma Shutdown_ok e p d :
  control_ok d → (∀ n q, dm_proxies d !! n = Some q → PublicPort q ≠ PublicPort p) → control_ok (Shutdown e p d).2.
Proof.
  intros Hok Hne. unfold Shutdown. destruct (en_serving e _); [|done]. apply control_ok_bound; [done|].
  intros n q Hq. pose proof (po_held _ _ _ (co_proxies _ Hok n q Hq)). specialize (Hne n q Hq). set_solver.
Qed.

Lemma listen_free e port d : listen e port d = None → port ≤ 65535 ∧ (port ∉ dm_bound d) ∧ en_listen e port = None.
Proof.
  unfold listen. destruct (65535 <? port) eqn:E; [done|]. bool_prop. case_bool_decide; [done|]. done.
Qed.

Lemma startAppProxy_inv e p d d' :
  startAppProxy e p d = Ok d' →
  PublicPort p ≤ 65535 ∧ (PublicPort p ∉ dm_bound d) ∧ d' = with_bound ({[PublicPort p]} ∪ dm_bound d) d.
Proof.
  unfold startAppProxy. destruct (listen e _ d) eqn:E; [done|]. intros [= <-].
  apply listen_free in E as (? & ? & _). done.
Qed.

Lemma bind_insert_ok d name p :
  control_ok d → AppName p = name → name ≠ "" → 0 < PublicPort p ≤ 65535 → PublicPort p ∉ dm_bound d →
  normal p → schedule_ready p →
  control_ok (with_proxies (<[name := p]> (dm_proxies d)) (with_bound ({[PublicPort p]} ∪ dm_bound d) d)).
Proof.
  intros Hok Hn Hne Hport Hfree Hnorm Hr.
  assert (∀ n' q, dm_proxies d !! n' = Some q → PublicPort q ≠ PublicPort p) as Hother.
  { intros n' q Hq He. apply Hfree. rewrite <- He. by eapply po_held, co_proxies. }
  apply (control_ok_insert (with_bound _ d)).
  - apply control_ok_bound; [done|]. intros n' q Hq. pose proof (po_held _ _ _ (co_proxies _ Hok n' q Hq)).
    set_solver.
  - split; try done. cbn [dm_bound with_bound]. set_solver.
  - intros n' q _. apply Hother.
Qed.

Lemma EnrollApp_ok e name port primary backends mode d :
  control_ok d → control_ok (EnrollApp e name port primary backends mode d).2.
Proof.
  intros Hok. unfold EnrollApp. destruct (name =s "") eqn:En; [done|]. destruct (port <=? 0) eqn:Ep; [done|].
  destruct (T_Host primary =s "") eqn:Eh; [done|]. bool_prop.
  set (p := new_proxy name port primary backends mode).
  destruct (new_proxy_facts name port primary backends mode) as (Hname & Hport & _ & Hnorm & Hready).
  fold p in Hname, Hport, Hnorm, Hready.
  assert (∀ r, r = match startAppProxy e p d with
      | Err err => (Some err, d)
      | Ok d1 =>
          let old := dm_proxies d1 !! name in
          let d1 := with_proxies (<[name := p]> (dm_proxies d1)) d1 in
          let d1 := match old with Some old => (Shutdown e old d1).2 | None => d1 end in
          (None, persistState e d1)
      end → (∀ q, dm_proxies d !! name = Some q → PublicPort q ≠ port) → control_ok r.2) as Hfresh.
  { intros r -> Hdiff. destruct (startAppProxy e p d) as [d1|err] eqn:Es; [|done].
    apply startAppProxy_inv in Es as (Hle & Hfree & ->). cbn [snd]. apply persistState_ok.
    assert (control_ok (with_proxies (<[name := p]> (dm_proxies d)) (with_bound ({[PublicPort p]} ∪ dm_bound d) d)))
      as Hok1 by (apply bind_insert_ok; try done; lia).
    cbn [dm_proxies with_bound]. destruct (dm_proxies d !! name) as [q|] eqn:Eq; [|done].
    apply Shutdown_ok; [done|]. cbn [dm_proxies with_proxies].
    intros n' q' [[_ <-]|[Hn Hq']]%lookup_insert_Some; [rewrite Hport; intros He; by apply (Hdiff q)|].
    intros He. apply Hn. symmetry. by eapply (co_distinct _ Hok n' name). }
  destruct (dm_proxies d !! name) as [ex|] eqn:Ex; [|by apply Hfresh].
  destruct (PublicPort ex =? port) eqn:Epp; bool_prop.
  - cbn [snd]. apply persistState_ok. pose proof (co_proxies _ Hok _ _ Ex) as [].
    assert (proxy_ok d name (SetTarget primary backends ex)) as Hnew.
    { split; try done; [by eexists|right; by eexists]. }
    apply control_ok_insert; [done| |].
    + destruct (mode <>s ""); [|done]. by destruct Hnew; split.
    + intros n' q' Hn Hq' He. apply Hn. eapply (co_distinct _ Hok n' name); [done..|]. rewrite He.
      by destruct (mode <>s "").
  - apply Hfresh; [done|]. intros q [= <-]. done.
Qed.

Lemma SwitchApp_ok e name primary backends d : control_ok d → control_ok (SwitchApp e name primary backends d).2.
Proof.
  intros Hok. unfold SwitchApp, switch_table. destruct (dm_proxies d !! name) as [p|] eqn:Ep; [|done].
  cbn [snd]. apply persistState_ok. pose proof (co_proxies _ Hok _ _ Ep) as [].
  apply control_ok_insert; [done| |].
  - split; try done; [by eexists|right; by eexists].
  - intros n' q' Hn Hq' He. apply Hn. by eapply (co_distinct _ Hok n' name).
Qed.

Lemma RemoveApp_ok e name d : control_ok d → control_ok (RemoveApp e name d).2.
Proof.
  intros Hok. unfold RemoveApp. destruct (dm_proxies d !! name) as [p|] eqn:Ep; [|done].
  pose proof (Shutdown_ok e p (with_proxies (delete name (dm_proxies d)) d) (control_ok_delete _ _ Hok)) as Hs.
  destruct (Shutdown e p _) as [[err|] d1]; cbn [snd dm_proxies with_proxies] in *; [|apply persistState_ok]; apply Hs;
    intros n q [Hn Hq]%lookup_delete_Some He; apply Hn; symmetry; by eapply (co_distinct _ Hok).
Qed.

Lemma handleConn_ok e inflight line d : control_ok d → control_ok (handleConn e inflight line d).2.
Proof.
  intros Hok. unfold handleConn. destruct line as [|why|req]; [done..|].
  repeat match goal with |- context [if ?b then _ else _] => destruct b end; try done.
  - destruct (RQ_Primary req); [apply EnrollApp_ok|]; done.
  - destruct (RQ_Primary req); [apply SwitchApp_ok|]; done.
  - by apply RemoveApp_ok.
  - destruct Hok as [Hp Hd]. split; [|done]. intros n p Hq. by destruct (Hp n p Hq); split.
Qed.

Lemma restore_app_ok e app d : control_ok d → control_ok (restore_app e app d).1.
Proof.
  intros Hok. unfold restore_app. destruct (_ || _)%bool eqn:Ev; [done|]. bool_prop.
  destruct (reconcileBackends e _ _) as [primary backends].
  destruct (startAppProxy e _ d) as [d1|err] eqn:Es; [|done].
  apply startAppProxy_inv in Es as (Hle & Hfree & ->). cbn [fst].
  destruct (new_proxy_facts (PA_AppName app) (PA_PublicPort app) primary backends (PA_AccessLog app))
    as (Hname & Hport & _ & Hnorm & Hready).
  apply (bind_insert_ok d); try done. lia.
Qed.

Lemma restore_apps_cons e app apps d b :
  foldl (λ '(d, lost) app, let '(d, l) := restore_app e app d in (d, (lost || l)%bool)) (d, b) (app :: apps) =
  foldl (λ '(d, lost) app, let '(d, l) := restore_app e app d in (d, (lost || l)%bool))
    ((restore_app e app d).1, (b || (restore_app e app d).2)%bool) apps.
Proof. cbn [foldl]. by destruct (restore_app e app d). Qed.

Lemma restoreState_ok e d : control_ok d → control_ok (restoreState e d).
Proof.
  intros Hok. unfold restoreState. destruct (dm_file d) as [| |apps]; [done..|]. unfold restore_apps.
  assert (∀ apps d b, control_ok d → control_ok
    (foldl (λ '(d, lost) app, let '(d, l) := restore_app e app d in (d, (lost || l)%bool)) (d, b) apps).1) as H.
  { clear. induction apps as [|app apps IH]; intros d b Hok; [done|]. rewrite restore_apps_cons.
    by apply IH, restore_app_ok. }
  specialize (H apps d false Hok). destruct (foldl _ _ _) as [d1 lost]. cbn [fst] in H.
  destruct lost; [by apply persistState_ok|done].
Qed.

Lemma NewDaemon_ok file : control_ok (NewDaemon file).
Proof. split; cbn [dm_proxies NewDaemon]; intros *; rewrite lookup_empty; done. Qed.

Lemma Run_ok e file : control_ok (Run e file).
Proof. apply restoreState_ok, NewDaemon_ok. Qed.

(** ** Histories *)

(** What happens to the daemon: a connection, a request or a record of the
    traffic of an application, a server that dies, a restart. *)
Inductive devent :=
| EvConnection (line : Line)
| EvTraffic (name : string)
| EvStopped (name : string) (current : bool)
| EvRestart.

Definition is_traffic (c : proxy_call) : bool :=
  match c with CallSetTarget _ _ => false | CallRequest _ | CallRecord _ _ _ _ => true end.

Inductive dstep : Daemon → devent → Daemon → Prop :=
| ds_connection e inflight line d : dstep d (EvConnection line) (handleConn e inflight line d).2
| ds_traffic name p c p' d :
    dm_proxies d !! name = Some p → is_traffic c = true → proxy_step p c p' →
    dstep d (EvTraffic name) (with_proxies (<[name := p']> (dm_proxies d)) d)
| ds_stopped name current d : dstep d (EvStopped name current) (stopped_serving name current d)
| ds_restart e d : dstep d EvRestart (Run e (dm_file d)).

Lemma hostLive_identity now dial host p :
  AppName (hostLive now dial host p).2 = AppName p ∧ routing (hostLive now dial host p).2 = routing p.
Proof. unfold hostLive. by destruct (_ && _)%bool. Qed.

Lemma healthy_targets_identity now dial targets p :
  AppName (healthy_targets now dial targets p).2 = AppName p ∧
  routing (healthy_targets now dial targets p).2 = routing p.
Proof.
  revert p. induction targets as [|t targets IH]; intros p; [done|]. cbn [healthy_targets].
  destruct (hostLive_identity now dial (T_Host t) p) as [Ha Hr].
  destruct (hostLive now dial (T_Host t) p) as [live p1]. cbn [snd] in *.
  destruct (IH p1) as [Ha2 Hr2]. destruct (healthy_targets now dial targets p1) as [found p2]. cbn [snd] in *.
  split; congruence.
Qed.

Lemma direct_identity now dial st p host p' :
  direct now dial st p = Some (host, p') → AppName p' = AppName p ∧ routing p' = routing p.
Proof.
  unfold direct, pickHealthyHost. destruct (1 <? _); [|by intros [= _ <-]].
  destruct (len _ =? 0); [by intros [= _ <-]|].
  destruct (healthy_targets_identity now dial (ps_targets st) p) as [Ha Hr].
  destruct (healthy_targets now dial (ps_targets st) p) as [found p1]. cbn [snd] in *.
  destruct found as [|t1 [|t2 l]]; [by intros [= _ <-]..|]. unfold pickWeighted.
  destruct (wrr p1) as [m|]; [|done]. cbn [mbind option_bind]. destruct (score_loop _ _ _ _). by intros [= _ <-].
Qed.

(** Traffic leaves the identity and the table of a proxy alone. *)
Lemma traffic_frame p c p' :
  proxy_step p c p' → is_traffic c = true →
  AppName p' = AppName p ∧ routing p' = routing p ∧ (schedule_ready p → schedule_ready p').
Proof.
  intros Hstep Hc. split_and!; [| |by eapply proxy_step_ready].
  - destruct Hstep as [|now dial host p p' Hd|host st f l p]; [done| |].
    + by apply direct_identity in Hd as (? & _).
    + unfold recordBackendRequest. by destruct (host =s "").
  - destruct Hstep as [|now dial host p p' Hd|host st f l p]; [done| |].
    + by apply direct_identity in Hd as (_ & ?).
    + unfold recordBackendRequest. by destruct (host =s "").
Qed.

Lemma dstep_ok d ev d' : dstep d ev d' → control_ok d → control_ok d'.
Proof.
  destruct 1 as [e inflight line d|name p c p' d Hp Ht Hstep|name current d|e d]; intros Hok.
  - by apply handleConn_ok.
  - destruct (traffic_frame p c p' Hstep Ht) as (Ha & Hr & Hready).
    unfold routing in Hr. injection Hr as Hport Hmode Hst.
    destruct (co_proxies _ Hok name p Hp) as [].
    apply control_ok_insert; [done| |].
    + split; rewrite ?Hport; try done; [congruence| |by auto].
      destruct po_normal0 as [addl Hn]. exists addl. by rewrite Hst.
    + intros n' q Hn Hq He. apply Hn. eapply (co_distinct _ Hok n' name); [done..|congruence].
  - unfold stopped_serving. destruct (dm_proxies d !! name) as [p|] eqn:Ep; [|done]. destruct current; [|done].
    apply control_ok_bound; [by apply control_ok_delete|]. cbn [dm_proxies with_proxies].
    intros n q [Hn Hq]%lookup_delete_Some. pose proof (po_held _ _ _ (co_proxies _ Hok n q Hq)).
    assert (PublicPort q ≠ PublicPort p); [|set_solver]. intros He. apply Hn. symmetry.
    by eapply (co_distinct _ Hok).
  - apply Run_ok.
Qed.

Lemma reachable_ok file ls d : steps dstep (NewDaemon file) ls d → control_ok d.
Proof. intros H. eapply (steps_invariant dstep control_ok dstep_ok); [done|]. apply NewDaemon_ok. Qed.

(** Whatever requests, failures, traffic and restarts the daemon saw, it
    listens on the public port of every application it routes, two applications
    never share a port, and every table is normalised: the primary first, then
    each further backend once. *)
Theorem the_daemon_holds_what_it_routes file ls d :
  steps dstep (NewDaemon file) ls d →
  (∀ name p, dm_proxies d !! name = Some p →
     AppName p = name ∧ 0 < PublicPort p ≤ 65535 ∧ PublicPort p ∈ dm_bound d ∧
     ∃ others, ps_targets (state p) = ps_primary (state p) :: others ∧ NoDup (hosts (ps_targets (state p)))) ∧
  (∀ n1 n2 p1 p2, dm_proxies d !! n1 = Some p1 → dm_proxies d !! n2 = Some p2 →
     PublicPort p1 = PublicPort p2 → n1 = n2).
Proof.
  intros Hok%reachable_ok. split; [|apply (co_distinct _ Hok)]. intros name p Hp.
  destruct (co_proxies _ Hok name p Hp) as [? ? ? ? [addl Hn] _]. split_and!; [done..|lia|lia|done|].
  destruct (dedup_distinct {[T_Host (ps_primary (state p))]} addl) as [Hnd _].
  pose proof (f_equal ps_targets Hn) as Ht. cbn [ps_targets normalised] in Ht.
  rewrite Ht. eexists; split; [reflexivity|].
  unfold hosts in *. rewrite fmap_cons. apply NoDup_cons. split; [|done].
  intros (t & Heq & (_ & Hni & _)%elem_of_dedup)%list_elem_of_fmap. set_solver.
Qed.

(** ** Answers *)

(** C35: A request the daemon refuses leaves no trace: routes, ports and file
    are as before.  Only a refused removal differs: the application is not
    routed any more, and the file still holds it. *)
Theorem a_refused_request_leaves_no_trace e inflight line d resp d' :
  handleConn e inflight line d = (Some resp, d') → RS_OK resp = false →
  d' = d ∨
  ∃ req, line = Message req ∧ RQ_Op req = OpRemove ∧ is_Some (dm_proxies d !! RQ_AppName req) ∧
    dm_proxies d' = delete (RQ_AppName req) (dm_proxies d) ∧ dm_file d' = dm_file d.
Proof.
  unfold handleConn. destruct line as [|why|req]; [done|by intros [= <- <-]; left|].
  destruct (RQ_Op req =s OpPing); [by intros [= <- <-]|].
  destruct (RQ_Op req =s OpVersion); [by intros [= <- <-]|].
  destruct (RQ_Op req =s OpAdd).
  { destruct (RQ_Primary req) as [primary|]; [|by intros [= <- <-]; left]. unfold reply, EnrollApp.
    repeat match goal with
    | |- context [if ?b then _ else _] => destruct b
    | |- context [match dm_proxies d !! ?n with _ => _ end] => destruct (dm_proxies d !! n)
    | |- context [startAppProxy ?x ?p d] => destruct (startAppProxy x p d)
    end; intros [= <- <-] ?; by left. }
  destruct (RQ_Op req =s OpSwitch).
  { destruct (RQ_Primary req) as [primary|]; [|by intros [= <- <-]; left]. unfold reply, SwitchApp, switch_table.
    destruct (dm_proxies d !! _); intros [= <- <-] ?; by left. }
  destruct (RQ_Op req =s OpRemove) eqn:Er.
  { bool_prop. unfold reply, RemoveApp. destruct (dm_proxies d !! RQ_AppName req) as [p|] eqn:Ep; [|by intros [= <- <-]].
    unfold Shutdown. destruct (en_serving e _); [|by intros [= <- <-]].
    destruct (en_close e _); intros [= <- <-] ?; [|done]. right. exists req. by rewrite Ep. }
  repeat match goal with |- context [if ?b then _ else _] => destruct b end; intros [= <- <-] ?; by left.
Qed.

Lemma persistState_fields e d :
  dm_proxies (persistState e d) = dm_proxies d ∧ dm_bound (persistState e d) = dm_bound d ∧
  (en_persist e = true → dm_file (persistState e d) = Saved (snapshotPersist d)).
Proof. unfold persistState, commit_state. by destruct (en_persist e). Qed.



(** An acknowledged enrolment takes effect: the application is reached on the
    requested port, its table is exactly the requested one with every backend
    once, and no other application is touched.  On its old port it keeps its
    access mode unless one is given. *)
Theorem an_acknowledged_enrolment_routes e name port primary backends mode d d' :
  EnrollApp e name port primary backends mode d = (None, d') →
  (∃ p, dm_proxies d' !! name = Some p ∧ PublicPort p = port ∧ state p = normalised primary backends ∧
     AccessMode p = match dm_proxies d !! name with
                    | Some old => if ((PublicPort old =? port) && (mode =s ""))%bool then AccessMode old else mode
                    | None => mode
                    end) ∧
  (∀ n, n ≠ name → dm_proxies d' !! n = dm_proxies d !! n) ∧
  0 < port ∧ name ≠ "" ∧ T_Host primary ≠ "".
Proof.
  unfold EnrollApp. destruct (name =s "") eqn:En; [done|]. destruct (port <=? 0) eqn:Ep; [done|].
  destruct (T_Host primary =s "") eqn:Eh; [done|]. bool_prop. intros H.
  assert (∀ f : Daemon → Daemon, (∀ x, dm_proxies (f x) = dm_proxies x) → ∀ p, 
    startAppProxy e (new_proxy name port primary backends mode) d = Ok p →
    dm_proxies (persistState e (f (with_proxies (<[name := new_proxy name port primary backends mode]> (dm_proxies p)) p))) =
    <[name := new_proxy name port primary backends mode]> (dm_proxies d)) as Hmap.
  { intros f Hf p Hs. destruct (persistState_fields e (f (with_proxies
      (<[name := new_proxy name port primary backends mode]> (dm_proxies p)) p))) as (-> & _).
    rewrite Hf. apply startAppProxy_inv in Hs as (_ & _ & ->). done. }
  assert (∀ old x, dm_proxies (Shutdown e old x).2 = dm_proxies x) as Hsd
    by (intros old x; unfold Shutdown; by destruct (en_serving e _)).
  destruct (new_proxy_facts name port primary backends mode) as (_ & Hport & Hmode & _).
  destruct (dm_proxies d !! name) as [ex|] eqn:Ex; [destruct (PublicPort ex =? port) eqn:Epp|].
  - injection H as <-. bool_prop.
    destruct (persistState_fields e (with_proxies (<[name := if mode <>s "" then with_access mode
      (SetTarget primary backends ex) else SetTarget primary backends ex]> (dm_proxies d)) d)) as (-> & _).
    cbn [dm_proxies with_proxies]. split_and!; try done; [|by intros; rewrite lookup_insert_ne].
    rewrite lookup_insert_eq. eexists; split; [done|]. by destruct (mode =s "") eqn:Em; bool_prop; subst.
  - destruct (startAppProxy e _ d) as [d1|] eqn:Es; [|done].
    assert (dm_proxies d1 = dm_proxies d) as H1 by (by apply startAppProxy_inv in Es as (_ & _ & ->)).
    rewrite H1, Ex in H. rewrite <- H1 in H. injection H as <-.
    rewrite (Hmap (λ x, (Shutdown e ex x).2) (Hsd ex) d1) by done.
    split_and!; try done; [|by intros; rewrite lookup_insert_ne].
    rewrite lookup_insert_eq. eexists; split; [done|]. by rewrite new_proxy_state.
  - destruct (startAppProxy e _ d) as [d1|] eqn:Es; [|done].
    assert (dm_proxies d1 = dm_proxies d) as H1 by (by apply startAppProxy_inv in Es as (_ & _ & ->)).
    rewrite H1, Ex in H. rewrite <- H1 in H. injection H as <-.
    pose proof (Hmap (λ x, x) (λ _, eq_refl) d1 eq_refl) as Hm. cbn beta in Hm. rewrite Hm.
    split_and!; try done; [|by intros; rewrite lookup_insert_ne].
    rewrite lookup_insert_eq. eexists; split; [done|]. by rewrite new_proxy_state.
Qed.

(** ** What a restart brings back *)




Section Restore.
Variable e : Env.

Definition valid_entry (a : persistedApp) : bool :=
  negb ((PA_AppName a =s "") || (PA_PublicPort a <=? 0) || (T_Host (PA_Primary a) =s ""))%bool.

Definition restored (a : persistedApp) : Proxy :=
  let '(primary, backends) := reconcileBackends e (PA_Primary a) (PA_Backends a) in
  new_proxy (PA_AppName a) (PA_PublicPort a) primary backends (PA_AccessLog a).



Lemma restored_port a : PublicPort (restored a) = PA_PublicPort a ∧ AccessMode (restored a) = PA_AccessLog a.
Proof.
  unfold restored. destruct (reconcileBackends e _ _) as [primary backends].
  by destruct (new_proxy_facts (PA_AppName a) (PA_PublicPort a) primary backends (PA_AccessLog a)) as (_ & ? & ? & _).
Qed.





(** Every application that comes back, comes back from an entry of the file. *)
Lemma restored_from_file apps d b name p :
  dm_proxies (foldl (λ '(d, lost) app, let '(d, l) := restore_app e app d in (d, (lost || l)%bool))
                (d, b) apps).1 !! name = Some p →
  dm_proxies d !! name = Some p ∨ ∃ a, a ∈ apps ∧ PA_AppName a = name ∧ valid_entry a = true ∧ p = restored a.
Proof.
  revert d b. induction apps as [|a apps IH]; intros d b; [by left|]. rewrite restore_apps_cons.
  intros [Hd|(a' & ? & ?)]%IH; [|right; exists a'; split; [by right|done]].
  unfold restore_app in Hd. destruct (_ || _)%bool eqn:Ev; [by left|].
  assert (restored a = let '(primary, backends) := reconcileBackends e (PA_Primary a) (PA_Backends a) in
    new_proxy (PA_AppName a) (PA_PublicPort a) primary backends (PA_AccessLog a)) as Hr by done.
  destruct (reconcileBackends e _ _) as [primary backends]. rewrite <- Hr in Hd.
  destruct (startAppProxy e _ d) as [d1|] eqn:Es; [|by left]. apply startAppProxy_inv in Es as (_ & _ & ->).
  cbn [fst dm_proxies with_proxies with_bound] in Hd. apply lookup_insert_Some in Hd as [[<- <-]|[_ ?]]; [|by left].
  right. exists a. split_and!; [left|done| |done]. unfold valid_entry. by rewrite Ev.
Qed.
End Restore.

(** ** Reconciliation with the backends that answer *)

Definition answers (e : Env) (t : Target) : Prop := dialable e (T_Host t) = true.

Lemma list_filter_sublist {A} (f : A → bool) l : List.filter f l `sublist_of` l.
Proof. induction l as [|x l IH]; simpl; [constructor|]. destruct (f x); [by constructor|by apply sublist_cons]. Qed.

Lemma list_filter_full {A} (f : A → bool) l : length (List.filter f l) = length l → List.filter f l = l.
Proof. intros H. by apply List.forallb_filter_id, List.filter_length_forallb. Qed.

Lemma reconcile_spec e primary backends primary' backends' :
  reconcileBackends e primary backends = (primary', backends') →
  (backends' `sublist_of` backends) ∧
  (∀ b, b ∈ backends → answers e b → b ∈ backends') ∧
  (primary ∈ backends → primary' ∈ backends) ∧
  (primary ∈ backends → (∃ b, b ∈ backends ∧ answers e b) →
     ∀ b, b ∈ primary' :: backends' → answers e b).
Proof.
  unfold reconcileBackends. destruct (len backends =? 0) eqn:E0.
  { intros [= <- <-]. destruct backends; [|by rewrite len_cons in E0; bool_prop; pose proof (len_nonneg backends); lia].
    split_and!; auto. intros H. inversion H. }
  assert (∀ b, b ∈ List.filter (λ b, dialable e (T_Host b)) backends ↔ b ∈ backends ∧ answers e b) as Hin.
  { intros b. rewrite list_elem_of_In, filter_In, <- list_elem_of_In. done. }
  pose proof (list_filter_sublist (λ b, dialable e (T_Host b)) backends) as Hsub.
  pose proof (list_filter_full (λ b, dialable e (T_Host b)) backends) as Hfull.
  destruct (List.filter _ backends) as [|first l] eqn:Ef.
  { intros [= <- <-]. split_and!; [done|auto|auto|].
    intros _ (b & Hb & Ha). assert (b ∈ @nil Target) as Hn by (by apply Hin). inversion Hn. }
  destruct (len (first :: l) =? len backends) eqn:El; bool_prop.
  { intros [= <- <-]. rewrite Hfull in Hin by (unfold len in El; lia).
    split_and!; [done|auto|auto|]. intros Hp _ b [-> |Hb]%elem_of_cons; by apply Hin. }
  intros [= <- <-]. split_and!; [done|intros b Hb Ha; by apply Hin| |].
  - intros Hp. destruct (dialable e (T_Host primary)); [done|]. apply (Hin first). left.
  - intros _ _ b [-> |Hb]%elem_of_cons; [|by apply Hin].
    destruct (dialable e (T_Host primary)) eqn:Ed; [done|]. apply Hin. left.
Qed.

(** C36: A restart never restores a route to a dead backend while a live one is
    recorded: if any recorded backend of an application accepts a connection,
    the restored table holds recorded backends only and each of them, the
    primary included, accepts one. *)
Theorem a_restored_route_answers e apps name p :
  dm_proxies (Run e (Saved apps)) !! name = Some p →
  ∃ a, a ∈ apps ∧ PA_AppName a = name ∧ PublicPort p = PA_PublicPort a ∧
    (PA_Primary a ∈ PA_Backends a → (∃ b, b ∈ PA_Backends a ∧ answers e b) →
       ∀ t, t ∈ ps_targets (state p) → t ∈ PA_Backends a ∧ answers e t).
Proof.
  intros H. unfold Run, restoreState in H. cbn [dm_file NewDaemon] in H. unfold restore_apps in H.
  pose proof (restored_from_file e apps (NewDaemon (Saved apps)) false name p) as Hf.
  destruct (foldl _ _ _) as [d lost]. cbn [fst] in Hf.
  assert (dm_proxies (if lost then persistState e d else d) = dm_proxies d) as Heq.
  { destruct lost; [|done]. by destruct (persistState_fields e d). }
  rewrite Heq in H. apply Hf in H as [H|(a & Ha & Hn & _ & ->)]; [by cbn in H; rewrite lookup_empty in H|].
  exists a. split_and!; [done|done|apply restored_port|]. intros Hp Hlive t. unfold restored.
  destruct (reconcileBackends e _ _) as [primary backends] eqn:Er. rewrite new_proxy_state.
  apply reconcile_spec in Er as (Hsub & _ & Hpri & Hall). specialize (Hall Hp Hlive).
  cbn [ps_targets normalised]. intros [-> |(Ht & _)%elem_of_dedup]%elem_of_cons.
  - split; [by apply Hpri|apply Hall; left].
  - split; [by eapply elem_of_sublist|apply Hall; by right].
Qed.





(** ** Acknowledged changes *)






(** ** The start of the daemon *)

Section Ensured.
Context (up : nat → bool) (now : nat → Z) (cancelled : nat → option error).
(** Between two probes the code sleeps for a tenth of a second. *)
Hypothesis ticks : ∀ n, now n + 100 * ms ≤ now (S n).

Lemma await_exit_ends fuel : ∀ deadline n,
  deadline - now n ≤ 100 * ms * Z.of_nat fuel → is_Some (await_exit up now (S fuel) deadline n).
Proof using ticks.
  induction fuel as [|fuel IH]; intros deadline n H; cbn [await_exit];
    (destruct (up n && (now n <? deadline))%bool eqn:E; [|done]); bool_prop; [lia|].
  specialize (ticks n). apply (IH deadline (S n)). unfold ms in *. lia.
Qed.

Lemma await_start_ends fuel timeout : ∀ deadline n,
  deadline - now n ≤ 100 * ms * Z.of_nat fuel →
  ∃ r, await_start up now cancelled (S fuel) timeout deadline n = Some r ∧ (∀ m, r = Ok m → up m = true).
Proof using ticks.
  induction fuel as [|fuel IH]; intros deadline n H; cbn [await_start];
    (destruct (now n <? deadline) eqn:E; [|by eexists]); bool_prop; [lia|].
  destruct (cancelled n) as [err|]; [by eexists|].
  destruct (up n) eqn:Eu; [eexists; split; [done|]; by intros m [= <-]|]. specialize (ticks n).
  apply (IH deadline (S n)). unfold ms in *. lia.
Qed.

(** [EnsureDaemon] ends whatever the socket does: 350 rounds and a last
    look are enough for a stale daemon's 35 seconds, and one round for each tenth
    of a second of [wait].
    It succeeds only on a probe that was answered, and a first probe that is
    answered with the current version starts nothing. *)
Theorem EnsureDaemon_ends fuel version located started wait :
  (350 ≤ fuel)%nat → wait ≤ 100 * ms * Z.of_nat fuel →
  ∃ r, EnsureDaemon up now cancelled (S fuel) version located started wait = Some r ∧
    (∀ n, r = Ok n → up n = true) ∧
    (up 0%nat = true → proxyProtoVersion ≤ daemonVersionOf version → r = Ok 0%nat).
Proof using ticks.
  intros Hfuel Hwait. unfold EnsureDaemon.
  assert (∀ n, ∃ r, (if negb located then Some (Err cannot_locate) else
      match started with
      | Some err => Some (Err (cannot_start err))
      | None => let wait := if wait <=? 0 then 5000 * ms else wait in
          await_start up now cancelled (S fuel) unreachable (now n + wait) n
      end) = Some r ∧ (∀ m, r = Ok m → up m = true)) as Hl.
  { intros n. destruct (negb located); [by eexists|]. destruct started; [by eexists|]. cbn zeta.
    apply await_start_ends. destruct (wait <=? 0); unfold ms in *; lia. }
  destruct (up 0%nat) eqn:E0.
  - destruct (proxyProtoVersion <=? daemonVersionOf version) eqn:Ev; bool_prop.
    + eexists; split_and!; [done|by intros n [= <-]|done].
    + destruct (await_exit_ends fuel (now 1%nat + 35000 * ms) 1) as [n ->]; [unfold ms; lia|].
      destruct (Hl n) as (r & Hr & Hup). exists r. split_and!; [done..|lia].
  - destruct (Hl 1%nat) as (r & Hr & Hup). exists r. by split_and!.
Qed.
End Ensured.

(** ** The access log *)

(** Every failing request leaves a record, and every one slower than the
    application's p95, unless the log is off; with [all] every request does. *)
Theorem access_records_are_kept p95 r p :
  is_Some (recordAccess p95 r p) ↔
  AccessMode p ≠ AccessLogOff ∧
  (AccessMode p = AccessLogAll ∨ 400 ≤ SV_Status r ∨ 0 < p95 < SV_Latency r).
Proof.
  unfold recordAccess, sampledAccess. destruct (AccessMode p =s AccessLogOff) eqn:E1; bool_prop.
  - split; [by intros [? ?]|by intros [? _]].
  - destruct (AccessMode p =s AccessLogAll) eqn:E2; cbn [negb]; bool_prop.
    { split; [by auto|intros _; by eexists]. }
    destruct (400 <=? SV_Status r) eqn:E3; cbn [negb]; bool_prop.
    { split; [by auto|intros _; by eexists]. }
    destruct ((0 <? p95) && (p95 <? SV_Latency r))%bool eqn:E4; cbn [negb].
    + bool_prop. split; [by auto with lia|intros _; by eexists].
    + split; [by intros [? ?]|]. intros [_ [?|[?|[? ?]]]]; [done|lia|].
      apply andb_false_iff in E4. destruct E4; bool_prop; lia.
Qed.

(** ** Samples *)

Module ProxySamples.
Definition quiet : Env := mkEnv (λ _, None) (λ _, true) (λ _, true) (λ _, None) true.
Definition port_taken (port : Z) : Env :=
  mkEnv (λ q, if q =? port then Some in_use else None) (λ _, true) (λ _, true) (λ _, None) true.
Definition close_fails : Env :=
  mkEnv (λ _, None) (λ _, true) (λ _, true) (λ _, Some (Foreign "close" None)) true.
Definition not_yet_serving : Env := mkEnv (λ _, None) (λ _, true) (λ _, false) (λ _, None) true.
Definition only (host : string) : Env := mkEnv (λ _, None) (λ h, h =s host) (λ _, true) (λ _, None) true.

Definition at_port (host label : string) : Target := mkTarget host label 0.
Definition blue : Target := at_port "127.0.0.1:9001" "blue".
Definition green : Target := at_port "127.0.0.1:9002" "green".

Definition add (name : string) (port : Z) (primary : Target) (backends : list Target) : Request :=
  mkRequest OpAdd name port (Some primary) backends "".
Definition switch (name : string) (primary : Target) : Request := mkRequest OpSwitch name 0 (Some primary) [] "".
Definition remove (name : string) : Request := mkRequest OpRemove name 0 None [] "".
Definition ask (e : Env) (req : Request) (d : Daemon) : Daemon := (handleConn e (λ _, 0) (Message req) d).2.

(** [api] and [web] enrolled, nothing else happened. *)
Definition two_apps : Daemon :=
  ask quiet (add "web" 8081 blue []) (ask quiet (add "api" 8080 blue [green]) (NewDaemon Missing)).

(** The applications in order, with their port and the host of their primary. *)
Definition routes (d : Daemon) : list (string * Z * string) :=
  (λ a, (PA_AppName a, PA_PublicPort a, T_Host (PA_Primary a))) <$> snapshotPersist d.

Lemma two_apps_reached :
  steps dstep (NewDaemon Missing)
    [EvConnection (Message (add "api" 8080 blue [green])); EvConnection (Message (add "web" 8081 blue []))] two_apps.
Proof. repeat (eapply steps_cons; [apply (ds_connection quiet (λ _, 0))|]). apply steps_nil. Qed.

Lemma the_daemon_holds_what_it_routes_witness :
  steps dstep (NewDaemon Missing)
    [EvConnection (Message (add "api" 8080 blue [green])); EvConnection (Message (add "web" 8081 blue []))] two_apps ∧
  8080 ∈ dm_bound two_apps.
Proof.
  split; [apply two_apps_reached|].
  destruct (the_daemon_holds_what_it_routes _ _ two_apps two_apps_reached) as [H _].
  destruct (dm_proxies two_apps !! "api") as [p|] eqn:Ep; [|by vm_compute in Ep].
  destruct (H "api" p Ep) as (_ & _ & Hb & _). replace 8080 with (PublicPort p); [exact Hb|].
  vm_compute in Ep. by injection Ep as <-.
Defined.

Lemma a_refused_request_leaves_no_trace_witness :
  RS_OK (refused "unknown op: drain") = false ∧
  (two_apps = two_apps ∨ ∃ req, Message (mkRequest "drain" "api" 0 None [] "") = Message req ∧ RQ_Op req = OpRemove ∧
     is_Some (dm_proxies two_apps !! RQ_AppName req) ∧
     dm_proxies two_apps = delete (RQ_AppName req) (dm_proxies two_apps) ∧ dm_file two_apps = dm_file two_apps).
Proof.
  split; [done|].
  apply (a_refused_request_leaves_no_trace quiet (λ _, 0) (Message (mkRequest "drain" "api" 0 None [] "")) two_apps
    (refused "unknown op: drain")); reflexivity.
Defined.

Lemma an_acknowledged_enrolment_routes_witness :
  (EnrollApp quiet "web" 8090 green [] "" two_apps).1 = None ∧
  ∀ n, n ≠ "web" → dm_proxies (EnrollApp quiet "web" 8090 green [] "" two_apps).2 !! n = dm_proxies two_apps !! n.
Proof.
  assert ((EnrollApp quiet "web" 8090 green [] "" two_apps).1 = None) as H by (vm_compute; reflexivity).
  split; [exact H|].
  destruct (an_acknowledged_enrolment_routes quiet "web" 8090 green [] "" two_apps
    (EnrollApp quiet "web" 8090 green [] "" two_apps).2) as (_ & Ho & _); [|exact Ho].
  rewrite (surjective_pairing (EnrollApp quiet "web" 8090 green [] "" two_apps)). by rewrite H.
Defined.

(** The primary died while the daemon was down: [api] comes back on its other
    backend. *)
Lemma a_restored_route_answers_witness :
  routes (Run (only "127.0.0.1:9002") (dm_file (ask quiet (add "api" 8080 blue [green]) (NewDaemon Missing)))) =
    [("api", 8080, "127.0.0.1:9002")] ∧
  ∃ p a, dm_proxies (Run (only "127.0.0.1:9002") (Saved [mkPersisted "api" 8080 blue [blue; green] ""])) !! "api" = Some p ∧
    PublicPort p = PA_PublicPort a ∧ PA_AppName a = "api".
Proof.
  split; [vm_compute; reflexivity|].
  destruct (dm_proxies (Run (only "127.0.0.1:9002") (Saved [mkPersisted "api" 8080 blue [blue; green] ""])) !! "api")
    as [p|] eqn:Ep; [|by vm_compute in Ep].
  destruct (a_restored_route_answers _ _ _ _ Ep) as (a & _ & Hn & Hp & _). by exists p, a.
Defined.


Lemma EnsureDaemon_ends_witness :
  ∃ r, EnsureDaemon (λ n, Nat.leb 4 n) (λ n, 100 * ms * Z.of_nat n) (λ _, None) 351 (Err end_of_file) true None 0 = Some r.
Proof.
  destruct (EnsureDaemon_ends (λ n, Nat.leb 4 n) (λ n, 100 * ms * Z.of_nat n) (λ _, None) ltac:(intros n; unfold ms; lia)
    350 (Err end_of_file) true None 0 ltac:(lia) ltac:(unfold ms; lia)) as (r & H & _). by exists r.
Defined.

(** ** What the daemon does not promise *)

(** The snapshot is written without the lock: of two switches at once, the
    older snapshot may be committed last, and a restart sends [web] back to the
    instance it was switched away from. *)
Example an_older_snapshot_may_win :
  let d1 := ask quiet (switch "api" green) two_apps in
  let older := snapshotPersist d1 in
  let d2 := ask quiet (switch "web" green) d1 in
  routes d2 = [("api", 8080, "127.0.0.1:9002"); ("web", 8081, "127.0.0.1:9002")] ∧
  routes (Run quiet (dm_file (commit_state quiet older d2))) = [("api", 8080, "127.0.0.1:9002"); ("web", 8081, "127.0.0.1:9001")].
Proof. vm_compute. done. Qed.

(** An application whose port is taken while the daemon starts is forgotten for
    good: the file is written without it. *)
Example a_busy_port_forgets_the_app :
  routes (Run (port_taken 8080) (dm_file two_apps)) = [("web", 8081, "127.0.0.1:9001")] ∧
  routes (Run quiet (dm_file (Run (port_taken 8080) (dm_file two_apps)))) = [("web", 8081, "127.0.0.1:9001")].
Proof. vm_compute. done. Qed.

(** A removal that failed and was asked for again is acknowledged, but a restart
    brings the application back. *)
Example a_removed_app_comes_back :
  let d := ask quiet (remove "api") (ask close_fails (remove "api") two_apps) in
  (handleConn quiet (λ _, 0) (Message (remove "api")) (ask close_fails (remove "api") two_apps)).1 = Some okay ∧
  routes d = [("web", 8081, "127.0.0.1:9001")] ∧ routes (Run quiet (dm_file d)) = routes two_apps.
Proof. vm_compute. done. Qed.

(** A removal before the server goroutine started leaves the port held: it
    cannot be enrolled again until the daemon restarts. *)
Example an_early_removal_keeps_the_port :
  let d := ask not_yet_serving (remove "api") two_apps in
  routes d = [("web", 8081, "127.0.0.1:9001")] ∧
  (handleConn quiet (λ _, 0) (Message (add "api" 8080 blue [])) d).1 =
    Some (refused "proxy: bind public port 8080").
Proof. vm_compute. done. Qed.

(** A new public port loses the access mode the daemon had. *)
Example a_new_port_loses_the_access_mode :
  let d := (EnrollApp quiet "api" 8080 blue [] "all" (NewDaemon Missing)).2 in
  (AccessMode <$> dm_proxies (EnrollApp quiet "api" 8080 green [] "" d).2 !! "api") = Some "all" ∧
  (AccessMode <$> dm_proxies (EnrollApp quiet "api" 8090 green [] "" d).2 !! "api") = Some "".
Proof. vm_compute. done. Qed.

(** A switch may leave an application without a primary host, which an
    enrolment refuses and a restart skips. *)
Example an_empty_host_is_switched_to :
  let d := ask quiet (switch "api" (at_port "" "blue")) two_apps in
  routes d = [("api", 8080, ""); ("web", 8081, "127.0.0.1:9001")] ∧
  routes (Run quiet (dm_file d)) = [("web", 8081, "127.0.0.1:9001")].
Proof. vm_compute. done. Qed.

(** A stale daemon that is still there after 35 seconds is accepted. *)
Example a_stale_daemon_is_accepted :
  EnsureDaemon (λ _, true) (λ n, 100 * ms * Z.of_nat n) (λ _, None) 400 (Err end_of_file) true None 0 = Some (Ok 352%nat).
Proof. vm_compute. reflexivity. Qed.

(** The answer to a switch that was lost: an error, and the switch is done. *)
Example a_lost_answer_is_a_switch :
  let '(r, d) := Client_Switch quiet (λ _, 0) (LinkLost end_of_file) "web" green [] two_apps in
  r = Err (read_failed end_of_file) ∧ routes d = [("api", 8080, "127.0.0.1:9001"); ("web", 8081, "127.0.0.1:9002")].
Proof. vm_compute. done. Qed.
End ProxySamples.
