(* ===== verification/MatrixPlan.v ===== *)
(** * MatrixPlan: the build matrix and its configuration
      (src/internal/matrix: plan.go, dimensions.go, rules.go, profile.go;
       src/internal/project/matrix_schema.go)

    A profile (language, versions, platforms, rules) is resolved from the
    command line and phelix.yaml, checked, and expanded into combinations: the
    Cartesian product, then the include rules, then the exclude rules.  A Go map
    that is [nil] and one that is empty are both [∅]; loops over a map whose
    order Go does not fix go over [map_to_list].  Text is lowered on ASCII. *)

From S2P Require Import Prelude GoLib Errors.

(** ** Text *)

(** [strings.ToLower] on ASCII text. *)
Fixpoint to_lower (s : string) : string :=
  match s with
  | EmptyString => EmptyString
  | String c s => String (if in_range "A" "Z" c then ascii_of_nat (nat_of_ascii c + 32) else c) (to_lower s)
  end.

(** [strings.SplitN(s, "/", 3)]. *)
Definition SplitN3 (s : string) : list string :=
  match split_on "/" s with
  | a :: b :: c :: rest => [a; b; Join (c :: rest) "/"]
  | l => l
  end.

(** [strings.ReplaceAll(s, "..", "")]. *)
Fixpoint drop_traversals (s : string) : string :=
  match s with
  | String c1 (String c2 s' as s1) =>
      if (Ascii.eqb c1 "." && Ascii.eqb c2 ".")%bool then drop_traversals s' else String c1 (drop_traversals s1)
  | s => s
  end.

Fixpoint map_chars (f : ascii → ascii) (s : string) : string :=
  match s with EmptyString => EmptyString | String c s => String (f c) (map_chars f s) end.

(* src: internal/matrix/plan.go sanitizeNamePart *)
Definition sanitizeNamePart (s : string) : string :=
  drop_traversals (map_chars (λ c, if bool_decide (nat_of_ascii c ∈ [47; 92; 58; 32; 9; 10; 13]%nat) then "-"%char else c) s).

(* src: internal/matrix/plan.go dedup *)
Fixpoint dedup_from (seen : gset string) (ss : list string) : list string :=
  match ss with
  | [] => []
  | s :: rest => if bool_decide (s ∈ seen) then dedup_from seen rest else s :: dedup_from ({[s]} ∪ seen) rest
  end.
Definition dedup (ss : list string) : list string := dedup_from ∅ ss.

(** ** Languages and combinations *)

(** [builder.Language] is a string type. *)
Definition Go : string := "go".
Definition Rust : string := "rust".

(* src: internal/builder/types.go ParseLanguage *)
Definition ParseLanguage (s : string) : string :=
  let lang := to_lower (TrimSpace s) in
  if ((lang =s Go) || (lang =s Rust))%bool then lang else "unknown".

(* src: internal/matrix/plan.go Combination *)
Record Combination := mkCombination {
  C_Lang : string; C_Version : string; C_OS : string; C_Arch : string; C_Variant : string;
  C_Platform : string; C_Metadata : gmap string string
}.

#[export] Instance Combination_eq_dec : EqDecision Combination.
Proof. solve_decision. Defined.

Definition with_variant (sep s variant : string) : string := if variant <>s "" then s +:+ sep +:+ variant else s.

(* src: internal/matrix/plan.go Combination.ID *)
Definition ID (c : Combination) : string :=
  with_variant "-" (C_Lang c +:+ C_Version c +:+ "-" +:+ C_OS c +:+ "-" +:+ C_Arch c) (C_Variant c).

(* src: internal/matrix/plan.go Combination.BinaryName *)
Definition BinaryName (c : Combination) (appName : string) : string :=
  with_variant "_" (sanitizeNamePart appName +:+ "_" +:+ C_Arch c +:+ "_" +:+ C_Lang c +:+ "_" +:+ C_Version c) (C_Variant c).

(* src: internal/matrix/plan.go Combination.DockerTagSuffix *)
Definition DockerTagSuffix (c : Combination) : string :=
  with_variant "-" (C_Lang c +:+ C_Version c +:+ "-" +:+ C_Arch c) (C_Variant c).

(* src: internal/matrix/plan.go Combination.ImageTag *)
Definition ImageTag (c : Combination) (appName : string) : string := sanitizeNamePart appName +:+ ":" +:+ DockerTagSuffix c.

(** ** Dimensions *)

(* src: internal/matrix/dimensions.go:17-23 DimLang *)
Definition DimLang : string := "lang".
Definition DimVersion : string := "version".
Definition DimOS : string := "os".
Definition DimArch : string := "arch".
Definition DimVariant : string := "variant".

(* src: internal/matrix/dimensions.go isDimensionName *)
Definition isDimensionName (key : string) : bool :=
  bool_decide (key ∈ [DimLang; DimVersion; DimOS; DimArch; DimVariant]).

(* src: internal/matrix/dimensions.go Dimensions.SortedKeys *)
Definition SortedKeys (d : gmap string string) : list string := sort_strings (map_to_list d).*1.

(** A Go map read. *)
Definition get (d : gmap string string) (k : string) : string := default "" (d !! k).

(* src: internal/matrix/dimensions.go Dimensions.Canonical *)
Definition Canonical (d : gmap string string) : string :=
  Join ((λ k, k +:+ "=" +:+ get d k) <$> SortedKeys d) "/".

(* src: internal/matrix/dimensions.go Combination.Dimensions *)
Definition Dimensions (c : Combination) : gmap string string :=
  let d := <[DimArch := C_Arch c]> (<[DimOS := C_OS c]> (<[DimVersion := C_Version c]> {[DimLang := C_Lang c]})) in
  if C_Variant c <>s "" then <[DimVariant := C_Variant c]> d else d.

(* src: internal/matrix/dimensions.go Combination.Identity *)
Definition Identity (c : Combination) : string := Canonical (Dimensions c).

(* src: internal/matrix/rules.go Combination.MergeMetadata *)
Definition MergeMetadata (src : gmap string string) (c : Combination) : Combination :=
  mkCombination (C_Lang c) (C_Version c) (C_OS c) (C_Arch c) (C_Variant c) (C_Platform c) (src ∪ C_Metadata c).

(** ** Validation of versions and platforms *)

(* src: internal/matrix/plan.go versionPattern *)
Definition versionPattern : re :=
  RSeq (RPlus (RClass cls_digit)) (RSeq (RClass (Ascii.eqb "."))
    (RSeq (RPlus (RClass cls_digit)) (ROpt (RSeq (RClass (Ascii.eqb ".")) (RPlus (RClass cls_digit)))))).

(* src: internal/matrix/plan.go knownPlatforms *)
Definition knownPlatforms : list string :=
  ["linux/amd64"; "linux/arm64"; "linux/arm/v7"; "linux/arm/v6"; "darwin/amd64"; "darwin/arm64"; "windows/amd64"].

(* src: internal/matrix/plan.go KnownPlatforms *)
Definition KnownPlatforms : list string := sort_strings knownPlatforms.

(* src: internal/matrix/plan.go formatKnownPlatforms *)
Definition formatKnownPlatforms : string := Join KnownPlatforms ", ".

(** [TrimPrefix] of "go", "rust" and "v", one after the other. *)
Definition strip_prefixes (v : string) : string := TrimPrefix (TrimPrefix (TrimPrefix v "go") "rust") "v".

(* src: internal/matrix/rules.go normalizeVersionValue *)
Definition normalizeVersionValue (v : string) : string := strip_prefixes (TrimSpace v).

Definition invalid (message : string) : error := New CodeInvalidArgument ("matrix: " +:+ message).

(* src: internal/matrix/plan.go:274-288 ValidateVersions *)
Fixpoint clean_versions (lang : string) (versions : list string) : res (list string) :=
  match versions with
  | [] => Ok []
  | v :: rest =>
      let v := TrimSpace v in
      if v =s "" then clean_versions lang rest
      else
        let v := strip_prefixes v in
        if negb (match_string versionPattern v)
        then Err (invalid ("invalid " +:+ lang +:+ " version " +:+ Quote v +:+
               " (expected major.minor or major.minor.patch, e.g. 1.22 or 1.22.4)"))
        else l ← clean_versions lang rest; Ok (v :: l)
  end.

(* src: internal/matrix/plan.go ValidateVersions *)
Definition ValidateVersions (lang : string) (versions : list string) : res (list string) :=
  if len versions =? 0 then Err (invalid ("at least one " +:+ lang +:+ " version must be specified"))
  else
    clean ← clean_versions lang versions;
    if len clean =? 0 then Err (invalid ("at least one non-empty " +:+ lang +:+ " version must be specified"))
    else Ok (dedup clean).

(* src: internal/matrix/plan.go:303-313 ValidatePlatforms *)
Fixpoint clean_platforms (platforms : list string) : res (list string) :=
  match platforms with
  | [] => Ok []
  | p :: rest =>
      let p := to_lower (TrimSpace p) in
      if p =s "" then clean_platforms rest
      else if bool_decide (p ∉ knownPlatforms)
      then Err (invalid ("unknown platform " +:+ Quote p +:+ " — known: " +:+ formatKnownPlatforms))
      else l ← clean_platforms rest; Ok (p :: l)
  end.

(* src: internal/matrix/plan.go ValidatePlatforms *)
Definition ValidatePlatforms (platforms : list string) : res (list string) :=
  if len platforms =? 0 then Err (invalid "at least one platform must be specified")
  else
    clean ← clean_platforms platforms;
    if len clean =? 0 then Err (invalid "at least one non-empty platform must be specified")
    else Ok (dedup clean).

(** [parts := strings.SplitN(plat, "/", 3)] and the fields read off it. *)
Definition of_platform (lang version plat : string) : Combination :=
  let parts := SplitN3 plat in
  mkCombination lang version (nth 0 parts "") (nth 1 parts "") (if len parts =? 3 then nth 2 parts "" else "") plat ∅.

Definition unsupported (lang : string) : error :=
  invalid ("unsupported language " +:+ Quote lang +:+ " — supported: go, rust").

(* src: internal/matrix/dimensions.go NewCombination *)
Definition NewCombination (lang version platform : string) : res Combination :=
  if negb ((lang =s Go) || (lang =s Rust))%bool then Err (unsupported lang)
  else
    vs ← ValidateVersions lang [version];
    ps ← ValidatePlatforms [platform];
    Ok (of_platform lang (nth 0 vs "") (nth 0 ps "")).

(** ** Rules *)

(* src: internal/matrix/rules.go Rule *)
Record Rule := mkRule { R_Dimensions : gmap string string; R_Metadata : gmap string string }.

(* src: internal/matrix/rules.go RuleSet *)
Record RuleSet := mkRuleSet { RS_Include : list Rule; RS_Exclude : list Rule }.

(* src: internal/matrix/rules.go ruleDimensionFieldOrder *)
Definition ruleDimensionFieldOrder : list string :=
  [Go; Rust; DimLang; DimVersion; "platform"; DimOS; DimArch; DimVariant].

(* src: internal/matrix/rules.go isRuleField *)
Definition isRuleField (key : string) : bool := bool_decide (key ∈ ruleDimensionFieldOrder).

(** One field of the rule, in its turn. *)
(* src: internal/matrix/rules.go:85-113 RuleFromFields *)
Definition rule_field (fields : gmap string string) (dims : gmap string string) (k : string) : gmap string string :=
  match fields !! k with
  | None => dims
  | Some v =>
      if ((k =s Go) || (k =s Rust))%bool then <[DimVersion := normalizeVersionValue v]> (<[DimLang := k]> dims)
      else if k =s DimLang then <[DimLang := to_lower (TrimSpace v)]> dims
      else if k =s DimVersion then <[DimVersion := normalizeVersionValue v]> dims
      else if k =s "platform" then
        let p := to_lower (TrimSpace v) in
        let parts := SplitN3 p in
        if ((2 <=? len parts) && (nth 0 parts "" <>s "") && (nth 1 parts "" <>s ""))%bool then
          let dims := <[DimArch := nth 1 parts ""]> (<[DimOS := nth 0 parts ""]> dims) in
          if ((len parts =? 3) && (nth 2 parts "" <>s ""))%bool then <[DimVariant := nth 2 parts ""]> dims else dims
        else <["platform" := p]> dims
      else <[k := to_lower (TrimSpace v)]> dims
  end.

(* src: internal/matrix/rules.go RuleFromFields *)
Definition RuleFromFields (fields : gmap string string) : Rule :=
  mkRule (foldl (rule_field fields) ∅ ruleDimensionFieldOrder)
         (TrimSpace <$> filter (λ x, isRuleField x.1 = false) fields).

Definition rule_label (kind : string) : string := if kind =s "include" then "include" else "exclude".

Definition has (fields : gmap string string) (k : string) : bool := bool_decide (is_Some (fields !! k)).

(* src: internal/matrix/rules.go ValidateRuleFields *)
Definition ValidateRuleFields (kind : string) (fields : gmap string string) : res unit :=
  let label := rule_label kind in
  let both k := invalid (label +:+ " rule must not combine " +:+ Quote Go +:+ "/" +:+ Quote Rust +:+ " with " +:+
                         Quote k +:+ " — pick one spelling") in
  if (has fields Go && has fields Rust)%bool then
    Err (invalid (label +:+ " rule must not specify both " +:+ Quote Go +:+ " and " +:+ Quote Rust +:+ " — pick one ecosystem"))
  else if (has fields Go || has fields Rust)%bool then
    if has fields DimLang then Err (both DimLang)
    else if has fields DimVersion then Err (both DimVersion)
    else Ok tt
  else Ok tt.

(* src: internal/matrix/rules.go ValidateRule *)
Definition ValidateRule (kind : string) (rule : Rule) : res unit :=
  let label := rule_label kind in
  let d := R_Dimensions rule in
  if bool_decide (d = ∅) then
    Err (invalid (label +:+ " rule must constrain at least one dimension (got an empty rule)"))
  else if ((kind <>s "include") && bool_decide (R_Metadata rule ≠ ∅))%bool then
    Err (invalid (label +:+ " rule has unknown dimension(s) " +:+ Join (SortedKeys (R_Metadata rule)) ", " +:+
           " — supported: go/rust, lang, version, platform, os, arch, variant"))
  else match List.find (λ k, TrimSpace (get d k) =s "") (SortedKeys d) with
  | Some k => Err (invalid (label +:+ " rule has an empty value for dimension " +:+ Quote k))
  | None =>
      if (has d "platform" && bool_decide (get d "platform" ∉ knownPlatforms))%bool then
        Err (invalid (label +:+ " rule platform " +:+ Quote (get d "platform") +:+
               " is malformed — expected os/arch[/variant], e.g. linux/amd64"))
      else if (has d DimLang && (get d DimLang <>s Go) && (get d DimLang <>s Rust))%bool then
        Err (invalid (label +:+ " rule lang must be " +:+ Quote Go +:+ " or " +:+ Quote Rust +:+ ", got " +:+ Quote (get d DimLang)))
      else Ok tt
  end.

(* src: internal/matrix/rules.go Rule.Matches *)
Definition Matches (r : Rule) (c : Combination) : bool :=
  let dims := Dimensions c in
  forallb (λ '(k, v), get dims k =s v) (map_to_list (R_Dimensions r)).

(* src: internal/matrix/rules.go Rule.isFullRule *)
Definition isFullRule (r : Rule) : bool :=
  let d := R_Dimensions r in
  ((get d DimLang <>s "") && (get d DimVersion <>s "") && (get d DimOS <>s "") && (get d DimArch <>s ""))%bool.

(* src: internal/matrix/rules.go Rule.Describe *)
Definition Describe (r : Rule) : string :=
  let d := R_Dimensions r in
  let parts := (λ k, k +:+ "=" +:+ get d k) <$>
    List.filter (λ k, negb ((k =s DimLang) || (k =s DimVersion))%bool) (SortedKeys d) in
  let head := if get d DimLang <>s "" then get d DimLang +:+ "=" +:+ get d DimVersion
              else if get d DimVersion <>s "" then "version=" +:+ get d DimVersion else "" in
  Join (if head <>s "" then head :: parts else parts) " ".

(** ** Expansion *)

(* src: internal/matrix/plan.go MatrixPlan *)
Record MatrixPlan := mkPlan {
  MP_Lang : string; MP_Combinations : list Combination; MP_BaseCount : Z; MP_IncludedCount : Z; MP_ExcludedCount : Z
}.

(** The Cartesian product, versions first. *)
(* src: internal/matrix/plan.go:168-184 Expand *)
Definition base_product (lang : string) (versions platforms : list string) : list Combination :=
  versions ≫= λ v, (λ p, of_platform lang v p) <$> platforms.

(** The index of the first and only combination with an identity, as the map
    [byIdentity] holds it. *)
Definition index_of (combs : list Combination) : gmap string nat :=
  foldl (λ m '(i, c), <[Identity c := i]> m) ∅ (imap (λ i c, (i, c)) combs).

Definition rule_platform (r : Rule) : string :=
  let d := R_Dimensions r in
  let p := get d DimOS +:+ "/" +:+ get d DimArch in
  if has d DimVariant then p +:+ "/" +:+ get d DimVariant else p.

(* src: internal/matrix/plan.go:195-233 Expand *)
Fixpoint include_rules (rules : list Rule) (combs : list Combination) (byIdentity : gmap string nat) (included : Z)
    : res (list Combination * Z) :=
  match rules with
  | [] => Ok (combs, included)
  | rule :: rest =>
      if isFullRule rule then
        match NewCombination (get (R_Dimensions rule) DimLang) (get (R_Dimensions rule) DimVersion) (rule_platform rule) with
        | Err e => Err (wrap CodeInvalidArgument ("matrix: include rule [" +:+ Describe rule +:+ "] is invalid") e)
        | Ok comb =>
            match byIdentity !! Identity comb with
            | Some i => include_rules rest (alter (MergeMetadata (R_Metadata rule)) i combs) byIdentity included
            | None =>
                include_rules rest (combs ++ [MergeMetadata (R_Metadata rule) comb])
                  (<[Identity comb := length combs]> byIdentity) (included + 1)
            end
        end
      else if existsb (Matches rule) combs then
        include_rules rest ((λ c, if Matches rule c then MergeMetadata (R_Metadata rule) c else c) <$> combs) byIdentity included
      else Err (invalid ("include rule [" +:+ Describe rule +:+
        "] matches no combination — partial include rules can only add metadata to existing combinations"))
  end.

(* src: internal/matrix/plan.go:238-254 Expand *)
Fixpoint exclude_rules (rules : list Rule) (combs : list Combination) (excluded : Z) : res (list Combination * Z) :=
  match rules with
  | [] => Ok (combs, excluded)
  | rule :: rest =>
      let kept := List.filter (λ c, negb (Matches rule c)) combs in
      let removed := len combs - len kept in
      if removed =? 0 then
        Err (invalid ("exclude rule [" +:+ Describe rule +:+
          "] matches no combination (it may have been removed by an earlier rule)"))
      else exclude_rules rest kept (excluded + removed)
  end.

(* src: internal/matrix/plan.go Expand *)
Definition Expand (lang : string) (versions platforms : list string) (rules : RuleSet) : res MatrixPlan :=
  if negb ((lang =s Go) || (lang =s Rust))%bool then Err (unsupported lang)
  else if len versions =? 0 then Err (invalid ("at least one " +:+ lang +:+ " version must be specified"))
  else if len platforms =? 0 then Err (invalid "at least one platform must be specified")
  else
    cleanVersions ← ValidateVersions lang versions;
    cleanPlatforms ← ValidatePlatforms platforms;
    _ ← for_each (ValidateRule "include") (RS_Include rules);
    _ ← for_each (ValidateRule "exclude") (RS_Exclude rules);
    let base := base_product lang cleanVersions cleanPlatforms in
    '(combs, included) ← include_rules (RS_Include rules) base (index_of base) 0;
    '(combs, excluded) ← exclude_rules (RS_Exclude rules) combs 0;
    Ok (mkPlan lang combs (len base) included excluded).

(* src: internal/matrix/plan.go ParsePlan *)
Definition ParsePlan (lang : string) (versions platforms : list string) : res MatrixPlan :=
  Expand lang versions platforms (mkRuleSet [] []).

(** ** Profiles *)

Definition SourceCLI : string := "cli".
Definition SourceConfig : string := "phelix.yaml".
Definition SourceDefault : string := "default".
Definition SourceDetected : string := "detected".

(* src: internal/matrix/executor.go DefaultConcurrency *)
Definition DefaultConcurrency : Z := 3.

(* src: internal/matrix/profile.go ProfileSource *)
Record ProfileSource := mkSource {
  SRC_Lang : string; SRC_Versions : string; SRC_Platforms : string; SRC_Concurrency : string;
  SRC_Retries : string; SRC_Include : string; SRC_Exclude : string
}.
Definition no_source : ProfileSource := mkSource "" "" "" "" "" "" "".

(* src: internal/matrix/profile.go Profile *)
Record Profile := mkProfile {
  PF_Lang : string; PF_Versions : list string; PF_Platforms : list string; PF_Concurrency : Z;
  PF_Include : list Rule; PF_Exclude : list Rule; PF_Retries : Z; PF_Source : ProfileSource
}.

(* src: internal/matrix/profile.go CLIOptions *)
Record CLIOptions := mkCLI {
  CLI_GoVersions : list string; CLI_RustVersions : list string; CLI_Platforms : list string;
  CLI_Concurrency : Z; CLI_Retries : Z
}.

(* src: internal/matrix/profile.go ResolveInput *)
Record ResolveInput := mkInput {
  IN_DetectedLang : string; IN_MatrixFlag : bool; IN_MatrixFlagSet : bool; IN_CLI : CLIOptions;
  IN_YAML : option Profile; IN_YAMLEnabled : bool
}.

Definition given {A} (l : list A) : bool := 0 <? len l.

Definition dimension_flags (cli : CLIOptions) : bool :=
  (given (CLI_GoVersions cli) || given (CLI_RustVersions cli) || given (CLI_Platforms cli))%bool.

(* src: internal/matrix/profile.go IsActive *)
Definition IsActive (i : ResolveInput) : bool :=
  if (IN_MatrixFlagSet i && negb (IN_MatrixFlag i))%bool then false
  else (IN_MatrixFlag i || dimension_flags (IN_CLI i) || IN_YAMLEnabled i)%bool.

(** The versions a profile of phelix.yaml gives for a language. *)
Definition yaml_versions (i : ResolveInput) (lang : string) : list string :=
  match IN_YAML i with Some p => if PF_Lang p =s lang then PF_Versions p else [] | None => [] end.

(** CLI value, else phelix.yaml value, else the default, with its source. *)
Definition prefer_list {A} (cli yaml : list A) (default_source : string) : list A * string :=
  if given cli then (cli, SourceCLI) else if given yaml then (yaml, SourceConfig) else ([], default_source).

Definition from_yaml {A} (f : Profile → A) (d : A) (i : ResolveInput) : A := from_option f d (IN_YAML i).

(* src: internal/matrix/profile.go:123-134 Resolve *)
Definition version_source (i : ResolveInput) (cli : list string) (lang : string) : string :=
  if given cli then SourceCLI else if given (yaml_versions i lang) then SourceConfig else "".

(* src: internal/matrix/profile.go Resolve *)
Definition Resolve (i : ResolveInput) : res (option Profile) :=
  let cli := IN_CLI i in
  if negb (IsActive i) then
    if (IN_MatrixFlagSet i && negb (IN_MatrixFlag i) && dimension_flags cli)%bool then
      Err (invalid "--matrix=false cannot be combined with --go-versions/--rust-versions/--platforms — omit the dimension flags or drop --matrix=false")
    else Ok None
  else
    let goSrc := version_source i (CLI_GoVersions cli) Go in
    let rustSrc := version_source i (CLI_RustVersions cli) Rust in
    if ((goSrc <>s "") && (rustSrc <>s ""))%bool then
      Err (invalid "go and rust versions are mutually exclusive — specify only one ecosystem")
    else
      let '(lang, langSrc) := if goSrc <>s "" then (Go, goSrc) else if rustSrc <>s "" then (Rust, rustSrc)
                              else (IN_DetectedLang i, SourceDetected) in
      if (((goSrc <>s "") || (rustSrc <>s "")) && (lang <>s IN_DetectedLang i))%bool then
        Err (invalid (lang +:+ " versions configured but the detected project language is " +:+ IN_DetectedLang i))
      else
        let '(versions, versionsSrc) :=
          if lang =s Rust then prefer_list (CLI_RustVersions cli) (yaml_versions i Rust) SourceDefault
          else prefer_list (CLI_GoVersions cli) (yaml_versions i Go) SourceDefault in
        let '(platforms, platformsSrc) := prefer_list (CLI_Platforms cli) (from_yaml PF_Platforms [] i) SourceDefault in
        let '(concurrency, concurrencySrc) :=
          if 0 <? CLI_Concurrency cli then (CLI_Concurrency cli, SourceCLI)
          else if 0 <? from_yaml PF_Concurrency 0 i then (from_yaml PF_Concurrency 0 i, SourceConfig)
          else (DefaultConcurrency, SourceDefault) in
        let '(retries, retriesSrc) :=
          if 0 <? CLI_Retries cli then (CLI_Retries cli, SourceCLI)
          else if 0 <? from_yaml PF_Retries 0 i then (from_yaml PF_Retries 0 i, SourceConfig)
          else (0, "") in
        let include := from_yaml PF_Include [] i in
        let exclude := from_yaml PF_Exclude [] i in
        Ok (Some (mkProfile lang versions platforms concurrency include exclude retries
          (mkSource langSrc versionsSrc platformsSrc concurrencySrc retriesSrc
            (if given include then SourceConfig else "") (if given exclude then SourceConfig else "")))).

(* src: internal/matrix/profile.go Profile.Plan *)
Definition Plan (p : option Profile) : res MatrixPlan :=
  match p with
  | None => Err (invalid "no profile")
  | Some p =>
      if len (PF_Versions p) =? 0 then
        Err (invalid "no versions configured — pass --go-versions/--rust-versions or set matrix.go.versions/matrix.rust.versions in phelix.yaml")
      else if len (PF_Platforms p) =? 0 then
        Err (invalid "no platforms configured — pass --platforms or set matrix.platforms in phelix.yaml")
      else Expand (PF_Lang p) (PF_Versions p) (PF_Platforms p) (mkRuleSet (PF_Include p) (PF_Exclude p))
  end.

(** ** The matrix section of phelix.yaml *)

(** The values a YAML node that is not a scalar is stored as. *)
(* src: internal/project/matrix_schema.go InvalidMatrixRuleValue *)
Definition InvalidMatrixRuleValue : string := "<invalid>".
(* src: internal/project/matrix_schema.go InvalidMatrixVersion *)
Definition InvalidMatrixVersion : string := "<invalid>".

(** Rules are given by their fields; a toolchain that is not configured is
    [None]. *)
(* src: internal/project/matrix_schema.go MatrixConfig *)
Record MatrixConfig := mkConfig {
  MC_Enabled : bool; MC_Go : option (list string); MC_Rust : option (list string); MC_Platforms : list string;
  MC_Concurrency : Z; MC_Retries : Z; MC_Include : list (gmap string string); MC_Exclude : list (gmap string string)
}.

(* src: internal/project/matrix_schema.go MatrixConfig.versionStrings *)
Definition versionStrings (m : MatrixConfig) (lang : string) : list string :=
  default [] (if lang =s Go then MC_Go m else MC_Rust m).

Definition config_error (message : string) : error := New CodeConfiguration ("configuration error: matrix." +:+ message).

Definition config_wrap (where_ : string) (e : error) : error :=
  wrap CodeConfiguration ("configuration error: matrix." +:+ where_ +:+ ": " +:+ Error e) e.

Definition in_section (where_ : string) {A} (r : res A) : res unit :=
  match r with Err e => Err (config_wrap where_ e) | Ok _ => Ok tt end.

(* src: internal/project/matrix_schema.go:164-179 MatrixConfig.validate *)
Definition validate_rule (kind : string) (i : Z) (fields : gmap string string) : res unit :=
  let where_ := kind +:+ "[" +:+ Itoa i +:+ "]" in
  match List.find (λ x, x.2 =s InvalidMatrixRuleValue) (map_to_list fields) with
  | Some (k, _) => Err (config_error (where_ +:+ "." +:+ k +:+ " is not a plain scalar value"))
  | None =>
      _ ← in_section where_ (ValidateRuleFields kind fields);
      in_section where_ (ValidateRule kind (RuleFromFields fields))
  end.

(* src: internal/project/matrix_schema.go:205-226 MatrixConfig.validate *)
Definition validate_versions (lang : string) (versions : list string) : res unit :=
  _ ← for_each_idx (λ i v, fail_if (v =s InvalidMatrixVersion)
        (config_error (lang +:+ ".versions[" +:+ Itoa i +:+ "] is not a plain version string"))) 0 versions;
  if given versions then in_section (lang +:+ ".versions") (ValidateVersions lang versions) else Ok tt.

(* src: internal/project/matrix_schema.go MatrixConfig.validate *)
Definition validate (m : option MatrixConfig) : res unit :=
  match m with
  | None => Ok tt
  | Some m =>
      _ ← fail_if (MC_Concurrency m <? 0) (config_error ("concurrency must be >= 1, got " +:+ Itoa (MC_Concurrency m)));
      _ ← fail_if (MC_Retries m <? 0) (config_error ("retries must be >= 0, got " +:+ Itoa (MC_Retries m)));
      _ ← for_each_idx (validate_rule "include") 0 (MC_Include m);
      _ ← for_each_idx (validate_rule "exclude") 0 (MC_Exclude m);
      let goVersions := versionStrings m Go in
      let rustVersions := versionStrings m Rust in
      _ ← fail_if (given goVersions && given rustVersions)%bool
            (config_error "go.versions and matrix.rust.versions are mutually exclusive — pick one ecosystem");
      _ ← validate_versions Go goVersions;
      _ ← validate_versions Rust rustVersions;
      _ ← (if given (MC_Platforms m) then in_section "platforms" (ValidatePlatforms (MC_Platforms m)) else Ok tt);
      if negb (MC_Enabled m) then Ok tt
      else if (negb (given goVersions) && negb (given rustVersions))%bool then
        Err (config_error "go.versions (or matrix.rust.versions) must contain at least one version when matrix.enabled is true")
      else if negb (given (MC_Platforms m)) then
        Err (config_error "platforms must contain at least one platform when matrix.enabled is true")
      else Ok tt
  end.

(* src: internal/project/matrix_schema.go MatrixConfig.MatrixProfile *)
Definition MatrixProfile (m : option MatrixConfig) : option Profile :=
  match m with
  | None => None
  | Some m =>
      let '(lang, versions) := if given (versionStrings m Go) then (Go, versionStrings m Go)
                               else if given (versionStrings m Rust) then (Rust, versionStrings m Rust) else ("", []) in
      Some (mkProfile lang versions (MC_Platforms m) (MC_Concurrency m)
        (RuleFromFields <$> MC_Include m) (RuleFromFields <$> MC_Exclude m) (MC_Retries m) no_source)
  end.
