(* ===== verification/MatrixPlanSafety.v ===== *)
(** * MatrixPlanSafety: what the expansion of the build matrix guarantees

    A plan holds every requested combination once, no excluded one, and nothing
    else; its identifiers are distinct, so that two combinations never share an
    artifact directory; a configuration that was accepted plans, unless a rule
    of it matches nothing. *)

From S2P Require Import Prelude GoLib MatrixPlan Errors.

(** ** Version texts *)

Definition version_char (c : ascii) : bool := (cls_digit c || Ascii.eqb "." c)%bool.

Lemma version_chars v : match_string versionPattern v = true → all_chars version_char v = true.
Proof.
  apply match_over. unfold versionPattern, RPlus, version_char. cbn [re_over].
  split_and!; intros c Hc; rewrite ?Hc, ?orb_true_r; done.
Qed.

(** ** Well-formed combinations *)

Definition key : Type := string * string * string.
Definition key_of (c : Combination) : key := (C_Lang c, C_Version c, C_Platform c).
Definition at_key (k : key) : Combination := of_platform k.1.1 k.1.2 k.2.

Definition good_key (k : key) : Prop :=
  k.1.1 ∈ [Go; Rust] ∧ match_string versionPattern k.1.2 = true ∧ k.2 ∈ knownPlatforms.

(** A combination is its key and its metadata. *)
Definition good (c : Combination) : Prop :=
  good_key (key_of c) ∧ c = MergeMetadata (C_Metadata c) (at_key (key_of c)).

Lemma key_merge m c : key_of (MergeMetadata m c) = key_of c.
Proof. done. Qed.

Lemma good_merge m c : good c → good (MergeMetadata m c).
Proof.
  intros [Hk Hc]. split; [done|]. rewrite key_merge. unfold MergeMetadata. cbn [C_Metadata].
  rewrite Hc at 1 2 3 4 5 6. cbn. f_equal. by rewrite (right_id_L ∅ (∪)).
Qed.

Lemma good_at k : good_key k → good (at_key k).
Proof.
  destruct k as [[l v] p]. intros Hk. split; [done|]. unfold at_key, key_of, of_platform, MergeMetadata. cbn. f_equal.
Qed.

Lemma key_at k : key_of (at_key k) = k.
Proof. by destruct k as [[l v] p]. Qed.

(** Matching and identity do not look at the metadata. *)
Lemma Dimensions_key c : good c → Dimensions c = Dimensions (at_key (key_of c)).
Proof. intros [_ Hc]. rewrite Hc at 1. done. Qed.

Lemma Matches_key r c : good c → Matches r c = Matches r (at_key (key_of c)).
Proof. intros H. unfold Matches. by rewrite Dimensions_key. Qed.

Lemma ID_key c : good c → ID c = ID (at_key (key_of c)).
Proof. intros [_ Hc]. rewrite Hc at 1. done. Qed.

(** ** Identifiers *)

Lemma split_at_char (p : ascii → bool) c u1 u2 t1 t2 :
  p c = false → all_chars p u1 = true → all_chars p u2 = true →
  u1 +:+ String c t1 = u2 +:+ String c t2 → u1 = u2 ∧ t1 = t2.
Proof.
  intros Hc. revert u2. induction u1 as [|a u1 IH]; intros [|b u2] H1 H2 He; rewrite ?sapp_cons in He; simpl in *.
  - by injection He as ->.
  - injection He as -> _. by rewrite Hc in H2.
  - injection He as -> _. by rewrite Hc in H1.
  - injection He as -> He. apply andb_prop in H1 as [_ H1]. apply andb_prop in H2 as [_ H2].
    by destruct (IH u2 H1 H2 He) as [-> ->].
Qed.

(** What follows the version in an identifier, by platform. *)
Definition id_tail (p : string) : string :=
  let c := of_platform "" "" p in with_variant "-" (C_OS c +:+ "-" +:+ C_Arch c) (C_Variant c).

Lemma ID_at_key l v p : p ∈ knownPlatforms → ID (at_key (l, v, p)) = l +:+ v +:+ String "-" (id_tail p).
Proof.
  intros Hp. unfold knownPlatforms in Hp.
  repeat (apply elem_of_cons in Hp as [->|Hp]; [unfold ID, at_key, id_tail, with_variant; cbn;
    rewrite <- ?sapp_assoc; reflexivity|]).
  inversion Hp.
Qed.

Lemma id_tail_inj p q : p ∈ knownPlatforms → q ∈ knownPlatforms → id_tail p = id_tail q → p = q.
Proof.
  intros Hp Hq. unfold knownPlatforms in Hp, Hq.
  repeat (apply elem_of_cons in Hp as [->|Hp]; [
    repeat (apply elem_of_cons in Hq as [->|Hq]; [done|]); inversion Hq|]).
  inversion Hp.
Qed.

Lemma lang_version_inj l1 l2 t1 t2 :
  l1 ∈ [Go; Rust] → l2 ∈ [Go; Rust] → l1 +:+ t1 = l2 +:+ t2 → l1 = l2 ∧ t1 = t2.
Proof.
  rewrite !elem_of_cons, !elem_of_nil. intros [->|[->|[]]] [->|[->|[]]] H; unfold Go, Rust in *;
    rewrite ?sapp_cons in H; by simplify_eq/=.
Qed.

Lemma ID_key_inj k1 k2 : good_key k1 → good_key k2 → ID (at_key k1) = ID (at_key k2) → k1 = k2.
Proof.
  destruct k1 as [[l1 v1] p1], k2 as [[l2 v2] p2]. intros (Hl1 & Hv1 & Hp1) (Hl2 & Hv2 & Hp2). cbn in *.
  rewrite !ID_at_key by done. intros [-> H]%lang_version_inj; [|done..].
  apply (split_at_char version_char) in H as [-> H]; [|done|by apply version_chars..].
  by apply id_tail_inj in H as ->.
Qed.

(** Two well-formed combinations with one identifier are the same but for their
    metadata. *)
Lemma ID_inj c1 c2 : good c1 → good c2 → ID c1 = ID c2 → key_of c1 = key_of c2.
Proof.
  intros H1 H2. rewrite (ID_key c1), (ID_key c2) by done. apply ID_key_inj; [apply H1|apply H2].
Qed.

(** The identity ends in the version; what precedes it names the rest. *)
Definition identity_head (l p : string) : string :=
  let c := of_platform l "" p in
  "arch=" +:+ C_Arch c +:+ "/lang=" +:+ l +:+ "/os=" +:+ C_OS c +:+
  (if C_Variant c <>s "" then "/variant=" +:+ C_Variant c else "") +:+ "/version=".

Lemma Identity_at_key l v p :
  l ∈ [Go; Rust] → p ∈ knownPlatforms → Identity (at_key (l, v, p)) = identity_head l p +:+ v.
Proof.
  intros Hl Hp. unfold knownPlatforms in Hp. rewrite !elem_of_cons, elem_of_nil in Hl.
  destruct Hl as [->|[->|[]]];
  repeat (apply elem_of_cons in Hp as [->|Hp]; [vm_compute; reflexivity|]); inversion Hp.
Qed.

Lemma common_prefix h1 h2 v1 v2 :
  h1 +:+ v1 = h2 +:+ v2 → String.prefix h1 h2 = true ∨ String.prefix h2 h1 = true.
Proof.
  revert h2. induction h1 as [|a h1 IH]; intros [|b h2] H; [by left|by left|by right|].
  rewrite !sapp_cons in H. injection H as -> H. simpl. destruct (ascii_dec b b); [|done]. by apply IH.
Qed.

Definition heads : list (string * string * string) :=
  l ← [Go; Rust]; p ← knownPlatforms; [(identity_head l p, l, p)].

Lemma heads_apart : forallb (λ x, forallb (λ y,
  implb (String.prefix x.1.1 y.1.1) ((x.1.2 =s y.1.2) && (x.2 =s y.2))) heads) heads = true.
Proof. vm_compute. reflexivity. Qed.

Lemma elem_of_heads l p : l ∈ [Go; Rust] → p ∈ knownPlatforms → In (identity_head l p, l, p) heads.
Proof.
  intros Hl Hp. apply list_elem_of_In, list_elem_of_bind. exists l. split; [|done].
  apply list_elem_of_bind. exists p. split; [|done]. by apply list_elem_of_singleton.
Qed.

Lemma heads_same l1 p1 l2 p2 :
  l1 ∈ [Go; Rust] → p1 ∈ knownPlatforms → l2 ∈ [Go; Rust] → p2 ∈ knownPlatforms →
  String.prefix (identity_head l1 p1) (identity_head l2 p2) = true → l1 = l2 ∧ p1 = p2.
Proof.
  intros Hl1 Hp1 Hl2 Hp2 Hpre. pose proof heads_apart as H.
  rewrite forallb_forall in H. specialize (H _ (elem_of_heads l1 p1 Hl1 Hp1)).
  rewrite forallb_forall in H. specialize (H _ (elem_of_heads l2 p2 Hl2 Hp2)). cbn [fst snd] in H.
  rewrite Hpre in H. cbn [implb] in H. apply andb_prop in H as [H1%String.eqb_eq H2%String.eqb_eq]. done.
Qed.

Lemma Identity_inj c1 c2 : good c1 → good c2 → Identity c1 = Identity c2 → key_of c1 = key_of c2.
Proof.
  intros H1 H2. unfold Identity. rewrite (Dimensions_key c1), (Dimensions_key c2) by done.
  fold (Identity (at_key (key_of c1))) (Identity (at_key (key_of c2))).
  destruct H1 as [(Hl1 & Hv1 & Hp1) _], H2 as [(Hl2 & Hv2 & Hp2) _].
  destruct (key_of c1) as [[l1 v1] p1], (key_of c2) as [[l2 v2] p2]. cbn [fst snd] in *.
  rewrite !Identity_at_key by done. intros H.
  assert (l1 = l2 ∧ p1 = p2) as [-> ->].
  { destruct (common_prefix _ _ _ _ H) as [Hp|Hp]; [by apply heads_same|].
    by destruct (heads_same l2 p2 l1 p1) as [-> ->]. }
  by apply sapp_inj_l in H as ->.
Qed.

Lemma Identity_same c1 c2 : good c1 → good c2 → key_of c1 = key_of c2 → Identity c1 = Identity c2.
Proof. intros H1 H2 H. unfold Identity. by rewrite (Dimensions_key c1), (Dimensions_key c2), H. Qed.

(** ** Validated input *)

Lemma dedup_from_spec seen ss :
  NoDup (dedup_from seen ss) ∧ ∀ s, s ∈ dedup_from seen ss ↔ s ∈ ss ∧ s ∉ seen.
Proof.
  revert seen. induction ss as [|x ss IH]; intros seen; cbn [dedup_from].
  { split; [constructor|]. intros s. split; [intros H; inversion H|intros [H _]; inversion H]. }
  case_bool_decide as Hx.
  - destruct (IH seen) as [Hn Hs]. split; [done|]. intros s. rewrite Hs, elem_of_cons. naive_solver.
  - destruct (IH ({[x]} ∪ seen)) as [Hn Hs]. split.
    + constructor; [|done]. rewrite Hs. set_solver.
    + intros s. rewrite !elem_of_cons, Hs. destruct (decide (s = x)) as [->|]; set_solver.
Qed.

Lemma NoDup_dedup ss : NoDup (dedup ss).
Proof. apply dedup_from_spec. Qed.

Lemma elem_of_unique ss s : s ∈ dedup ss ↔ s ∈ ss.
Proof. unfold dedup. destruct (dedup_from_spec ∅ ss) as [_ ->]. set_solver. Qed.

Lemma clean_versions_ok lang vs l :
  clean_versions lang vs = Ok l → ∀ v, v ∈ l → match_string versionPattern v = true.
Proof.
  revert l. induction vs as [|x vs IH]; intros l; cbn [clean_versions]; [intros [= <-] v H; inversion H|].
  destruct (TrimSpace x =s ""); [apply IH|]. destruct (negb _) eqn:E; [done|]. apply negb_false_iff in E.
  destruct (clean_versions lang vs) as [l'|e]; [|done]. cbn. intros [= <-] v [->|H]%elem_of_cons; [done|].
  by eapply IH.
Qed.

Lemma clean_platforms_ok ps l : clean_platforms ps = Ok l → ∀ p, p ∈ l → p ∈ knownPlatforms.
Proof.
  revert l. induction ps as [|x ps IH]; intros l; cbn [clean_platforms]; [intros [= <-] p H; inversion H|].
  destruct (to_lower (TrimSpace x) =s ""); [apply IH|]. case_bool_decide as E; [done|].
  destruct (clean_platforms ps) as [l'|e]; [|done]. cbn. intros [= <-] p [->|H]%elem_of_cons; [|by eapply IH].
  destruct (decide (to_lower (TrimSpace x) ∈ knownPlatforms)); done.
Qed.

Lemma ValidateVersions_ok lang vs l :
  ValidateVersions lang vs = Ok l → l ≠ [] ∧ NoDup l ∧ ∀ v, v ∈ l → match_string versionPattern v = true.
Proof.
  unfold ValidateVersions. destruct (len vs =? 0); [done|].
  destruct (clean_versions lang vs) as [c|e] eqn:E; [|done]. cbn. destruct (len c =? 0) eqn:E0; [done|]. intros [= <-].
  split_and!.
  - destruct c as [|x c]; [done|]. intros H. assert (x ∈ @nil string) as Hx by (rewrite <- H; apply elem_of_unique; left).
    inversion Hx.
  - apply NoDup_dedup.
  - intros v. rewrite elem_of_unique. by eapply clean_versions_ok.
Qed.

Lemma ValidatePlatforms_ok ps l :
  ValidatePlatforms ps = Ok l → l ≠ [] ∧ NoDup l ∧ ∀ p, p ∈ l → p ∈ knownPlatforms.
Proof.
  unfold ValidatePlatforms. destruct (len ps =? 0); [done|].
  destruct (clean_platforms ps) as [c|e] eqn:E; [|done]. cbn. destruct (len c =? 0) eqn:E0; [done|]. intros [= <-].
  split_and!.
  - destruct c as [|x c]; [done|]. intros H. assert (x ∈ @nil string) as Hx by (rewrite <- H; apply elem_of_unique; left).
    inversion Hx.
  - apply NoDup_dedup.
  - intros p. rewrite elem_of_unique. by eapply clean_platforms_ok.
Qed.

Lemma nth0_elem {A} (l : list A) d : l ≠ [] → nth 0 l d ∈ l.
Proof. destruct l; [done|]. intros _. left. Qed.

Lemma NewCombination_good lang v p c : NewCombination lang v p = Ok c → good c ∧ C_Metadata c = ∅.
Proof.
  unfold NewCombination. destruct (negb _) eqn:El; [done|].
  destruct (ValidateVersions lang [v]) as [vs|e] eqn:Ev; [|done]. cbn.
  destruct (ValidatePlatforms [p]) as [ps|e] eqn:Ep; [|done]. cbn. intros [= <-].
  apply ValidateVersions_ok in Ev as (Hv0 & _ & Hv). apply ValidatePlatforms_ok in Ep as (Hp0 & _ & Hp).
  split; [|done]. apply (good_at (lang, nth 0 vs "", nth 0 ps "")). split_and!; cbn [fst snd].
  - apply negb_false_iff, orb_prop in El. rewrite !elem_of_cons. destruct El as [E|E]; bool_prop; auto.
  - by apply Hv, nth0_elem.
  - by apply Hp, nth0_elem.
Qed.

(** ** The index of the combinations *)

Definition keys (combs : list Combination) : list key := key_of <$> combs.

Definition indexed (combs : list Combination) (m : gmap string nat) : Prop :=
  ∀ c, good c →
    match m !! Identity c with
    | Some i => ∃ c', combs !! i = Some c' ∧ key_of c' = key_of c
    | None => key_of c ∉ keys combs
    end.

Lemma indexed_snoc pre m c :
  good c → key_of c ∉ keys pre → indexed pre m → indexed (pre ++ [c]) (<[Identity c := length pre]> m).
Proof.
  intros Hc Hn Hi c' Hc'. destruct (decide (Identity c = Identity c')) as [He|He].
  - rewrite He, lookup_insert_eq. exists c. split; [by rewrite lookup_app_r, Nat.sub_diag|].
    by apply Identity_inj.
  - rewrite lookup_insert_ne by done. specialize (Hi c' Hc'). destruct (m !! Identity c') as [i|].
    + destruct Hi as (x & Hx & Hk). exists x. split; [|done]. rewrite lookup_app_l; [done|]. by eapply lookup_lt_Some.
    + unfold keys. rewrite fmap_app, elem_of_app. intros [H|H%list_elem_of_singleton]; [done|].
      apply He. by apply Identity_same.
Qed.

Lemma indexed_keys l l' m : keys l' = keys l → indexed l m → indexed l' m.
Proof.
  intros Hk Hi c Hc. specialize (Hi c Hc). destruct (m !! Identity c) as [i|]; [|by rewrite Hk].
  destruct Hi as (x & Hx & He). assert (keys l' !! i = Some (key_of x)) as H.
  { rewrite Hk. unfold keys. by rewrite list_lookup_fmap, Hx. }
  unfold keys in H. rewrite list_lookup_fmap in H. destruct (l' !! i) as [y|]; [|done]. exists y. split; [done|].
  cbn in H. congruence.
Qed.

Lemma index_of_ok combs : Forall good combs → NoDup (keys combs) → indexed combs (index_of combs).
Proof.
  intros Hg Hn. unfold index_of.
  assert (∀ l pre m, Forall good l → NoDup (keys (pre ++ l)) → indexed pre m →
    indexed (pre ++ l) (foldl (λ m '(i, c), <[Identity c := i]> m) m (imap (λ i c, ((length pre + i)%nat, c)) l))) as H.
  { clear. induction l as [|c l IH]; intros pre m Hg Hn Hi; cbn [imap foldl]; [by rewrite app_nil_r|].
    apply Forall_cons in Hg as [Hc Hg]. replace (pre ++ c :: l) with ((pre ++ [c]) ++ l) in * by by rewrite <- app_assoc.
    rewrite Nat.add_0_r.
    replace (imap _ l) with (imap (λ i c, ((length (pre ++ [c]) + i)%nat, c)) l).
    2: { apply imap_ext. intros i x _. unfold compose. rewrite length_app. simpl. f_equal. lia. }
    rewrite (imap_ext _ (λ i x, ((length (pre ++ [c]) + i)%nat, x))) by (intros; by rewrite !length_app).
    apply IH; [done|done|]. apply indexed_snoc; [done| |done].
    unfold keys in Hn. rewrite !fmap_app in Hn. apply NoDup_app in Hn as (Hn & _).
    apply NoDup_app in Hn as (_ & Hn & _). intros H. apply (Hn _ H). by apply list_elem_of_singleton. }
  apply (H combs [] ∅ Hg Hn). intros c _. rewrite lookup_empty. unfold keys. inversion 1.
Qed.

Lemma keys_alter m i combs : keys (alter (MergeMetadata m) i combs) = keys combs.
Proof. unfold keys. apply list_eq. intros j. rewrite !list_lookup_fmap. destruct (decide (i = j)) as [->|].
  - rewrite list_lookup_alter_eq. by destruct (combs !! j).
  - by rewrite list_lookup_alter_ne.
Qed.

Lemma keys_merge_some r m combs : keys ((λ c, if Matches r c then MergeMetadata m c else c) <$> combs) = keys combs.
Proof.
  unfold keys. rewrite <- list_fmap_compose. apply list_fmap_ext. intros i c _. simpl. by destruct (Matches r c).
Qed.

Lemma good_alter m i combs : Forall good combs → Forall good (alter (MergeMetadata m) i combs).
Proof. intros H. apply Forall_alter; [done|]. intros c _. apply good_merge. Qed.

Lemma len_keys l l' : keys l = keys l' → len l = len l'.
Proof. intros H. apply (f_equal length) in H. unfold keys in H. rewrite !length_fmap in H. unfold len. lia. Qed.

(** The combination a full include rule names. *)
Definition names (r : Rule) (c : Combination) : Prop :=
  isFullRule r = true ∧
  NewCombination (get (R_Dimensions r) DimLang) (get (R_Dimensions r) DimVersion) (rule_platform r) = Ok c.

Lemma include_rules_spec rules : ∀ combs m inc combs' inc',
  include_rules rules combs m inc = Ok (combs', inc') →
  Forall good combs → NoDup (keys combs) → indexed combs m →
  Forall good combs' ∧ NoDup (keys combs') ∧ len combs' - len combs = inc' - inc ∧
  ∀ k, k ∈ keys combs' ↔ k ∈ keys combs ∨ ∃ r c, r ∈ rules ∧ names r c ∧ key_of c = k.
Proof.
  induction rules as [|r rules IH]; intros combs m inc combs' inc'; cbn [include_rules].
  { intros [= <- <-] Hg Hn _. split_and!; [done|done|lia|]. intros k. split; [by left|].
    intros [?|(r & c & Hr & _)]; [done|inversion Hr]. }
  assert (∀ combs1 m1 inc1, include_rules rules combs1 m1 inc1 = Ok (combs', inc') →
    Forall good combs1 → indexed combs1 m1 → NoDup (keys combs1) →
    len combs1 - len combs = inc1 - inc → 
    (∀ k, k ∈ keys combs1 ↔ k ∈ keys combs ∨ ∃ c, names r c ∧ key_of c = k) →
    Forall good combs' ∧ NoDup (keys combs') ∧ len combs' - len combs = inc' - inc ∧
    ∀ k, k ∈ keys combs' ↔ k ∈ keys combs ∨ ∃ r' c, r' ∈ r :: rules ∧ names r' c ∧ key_of c = k) as Hnext.
  { intros combs1 m1 inc1 H Hg Hi Hn Hl Hk. destruct (IH _ _ _ _ _ H Hg Hn Hi) as (Hg' & Hn' & Hl' & Hk').
    split_and!; [done|done|lia|]. intros k. rewrite Hk', Hk. setoid_rewrite elem_of_cons. naive_solver. }
  destruct (isFullRule r) eqn:Ef.
  - destruct (NewCombination _ _ _) as [c|e] eqn:En; [|done].
    destruct (NewCombination_good _ _ _ _ En) as [Hc _].
    assert (∀ c', names r c' ↔ c' = c) as Hnames.
    { intros c'. unfold names. rewrite En, Ef. split; [intros [_ [= ->]]; done|by intros ->]. }
    destruct (m !! Identity c) as [i|] eqn:Ei; intros H Hg Hn Hi; pose proof (Hi c Hc) as Hic; rewrite Ei in Hic.
    + destruct Hic as (x & Hx & Hkx). eapply Hnext; [exact H|by apply good_alter| | | |].
      * eapply indexed_keys; [apply keys_alter|done].
      * by rewrite keys_alter.
      * rewrite (len_keys _ combs) by apply keys_alter. lia.
      * intros k. rewrite keys_alter. split; [by left|]. intros [?|(c' & ->%Hnames & <-)]; [done|].
        rewrite <- Hkx. unfold keys. apply list_elem_of_fmap_2. by eapply list_elem_of_lookup_2.
    + set (c1 := MergeMetadata (R_Metadata r) c).
      assert (good c1 ∧ key_of c1 = key_of c ∧ Identity c1 = Identity c) as (Hg1 & Hk1 & Hid1).
      { split; [by apply good_merge|]. done. }
      eapply Hnext; [exact H| | | | |].
      * apply Forall_app. split; [done|]. by apply Forall_singleton.
      * rewrite <- Hid1. apply indexed_snoc; [done|by rewrite Hk1|done].
      * unfold keys. rewrite fmap_app. apply NoDup_app. split; [done|]. split; [|apply NoDup_singleton].
        intros k Hk Hs%list_elem_of_singleton. subst k. exact (Hic Hk).
      * rewrite len_app. unfold len. simpl. lia.
      * intros k. unfold keys. rewrite fmap_app, elem_of_app. cbn. rewrite list_elem_of_singleton.
        split; [intros [?| -> ]; [by left|right; exists c; by rewrite Hnames]|].
        intros [?|(c' & ->%Hnames & <-)]; [by left|right; done].
  - destruct (existsb (Matches r) combs); [|done]. intros H Hg Hn Hi.
    eapply Hnext; [exact H| | | | |].
    + apply Forall_fmap. eapply Forall_impl; [exact Hg|]. intros c Hc. cbn. destruct (Matches r c); [by apply good_merge|done].
    + eapply indexed_keys; [apply keys_merge_some|done].
    + by rewrite keys_merge_some.
    + rewrite (len_keys _ combs) by apply keys_merge_some. lia.
    + intros k. rewrite keys_merge_some. split; [by left|]. intros [?|(c & [Hf _] & _)]; [done|congruence].
Qed.

Lemma exclude_rules_spec rules : ∀ combs n combs' n',
  exclude_rules rules combs n = Ok (combs', n') →
  combs' = List.filter (λ c, negb (existsb (λ r, Matches r c) rules)) combs ∧ n' - n = len combs - len combs'.
Proof.
  induction rules as [|r rules IH]; intros combs n combs' n'; cbn [exclude_rules].
  { intros [= <- <-]. split; [|lia]. clear. induction combs as [|c l IH]; [done|]. cbn. by f_equal. }
  destruct (_ =? 0); [done|]. intros H. destruct (IH _ _ _ _ H) as [-> Hn]. split; [|lia].
  clear. induction combs as [|c l IH]; [done|]. cbn. destruct (Matches r c); cbn; [done|].
  destruct (existsb _ rules); cbn; [done|by f_equal].
Qed.

(** ** Expansion *)

Lemma elem_of_base lang vs ps k :
  k ∈ keys (base_product lang vs ps) ↔ ∃ v p, v ∈ vs ∧ p ∈ ps ∧ k = (lang, v, p).
Proof.
  unfold keys, base_product. rewrite list_elem_of_fmap. split.
  - intros (c & -> & (v & Hc & Hv)%list_elem_of_bind). apply list_elem_of_fmap in Hc as (p & -> & Hp). eauto.
  - intros (v & p & Hv & Hp & ->). exists (of_platform lang v p). split; [done|].
    apply list_elem_of_bind. exists v. split; [|done]. by apply list_elem_of_fmap_2.
Qed.

Lemma base_good lang vs ps :
  lang ∈ [Go; Rust] → (∀ v, v ∈ vs → match_string versionPattern v = true) → (∀ p, p ∈ ps → p ∈ knownPlatforms) →
  Forall good (base_product lang vs ps).
Proof.
  intros Hl Hv Hp. apply Forall_forall. intros c (v & Hc & Hin)%list_elem_of_bind.
  apply list_elem_of_fmap in Hc as (p & -> & Hpin). apply (good_at (lang, v, p)). split_and!; cbn; auto.
Qed.

Lemma base_keys_NoDup lang vs ps : NoDup vs → NoDup ps → NoDup (keys (base_product lang vs ps)).
Proof.
  intros Hv Hp. unfold base_product. induction Hv as [|v vs Hn Hv IH]; [constructor|].
  cbn [mbind list_bind]. unfold keys in *. rewrite fmap_app. apply NoDup_app. split_and!; [| |done].
  - rewrite <- list_fmap_compose. apply NoDup_fmap; [|done]. intros p1 p2. unfold compose, key_of. cbn. congruence.
  - intros k Hk Hin. apply elem_of_base in Hin as (v' & p' & Hv' & _ & ->).
    rewrite <- list_fmap_compose in Hk. apply list_elem_of_fmap in Hk as (p & [= -> _] & _). done.
Qed.

(** The keys the profile asks for, before the exclude rules. *)
Definition requested (lang : string) (vs ps : list string) (rules : RuleSet) (k : key) : Prop :=
  (∃ v p, v ∈ vs ∧ p ∈ ps ∧ k = (lang, v, p)) ∨ ∃ r c, r ∈ RS_Include rules ∧ names r c ∧ key_of c = k.

Definition excluded_by (rules : RuleSet) (k : key) : bool := existsb (λ r, Matches r (at_key k)) (RS_Exclude rules).

Lemma excluded_key c l :
  good c → existsb (λ r, Matches r c) l = existsb (λ r, Matches r (at_key (key_of c))) l.
Proof. intros Hc. induction l as [|r l IH]; [done|]. cbn. by rewrite (Matches_key r c Hc), IH. Qed.

(** C25: The expansion of a build matrix is exact.  The plan holds the product of
    the validated versions and platforms and the combinations the full include
    rules name, without those an exclude rule matches, and nothing else; each
    exactly once, whatever way it was asked for; no two share an identifier, so
    none overwrites the artifacts of another; and the counts of the plan add up. *)
Theorem expansion_is_exact lang versions platforms rules p :
  Expand lang versions platforms rules = Ok p →
  ∃ vs ps, ValidateVersions lang versions = Ok vs ∧ ValidatePlatforms platforms = Ok ps ∧
    (∀ k, k ∈ keys (MP_Combinations p) ↔ requested lang vs ps rules k ∧ excluded_by rules k = false) ∧
    NoDup (keys (MP_Combinations p)) ∧ NoDup (ID <$> MP_Combinations p) ∧
    (∀ c, c ∈ MP_Combinations p → good c) ∧
    MP_BaseCount p = len vs * len ps ∧
    len (MP_Combinations p) = MP_BaseCount p + MP_IncludedCount p - MP_ExcludedCount p.
Proof.
  unfold Expand. destruct (negb _) eqn:El; [done|]. destruct (len versions =? 0); [done|].
  destruct (len platforms =? 0); [done|].
  destruct (ValidateVersions lang versions) as [vs|e] eqn:Ev; [|done]. cbn [mbind result_bind].
  destruct (ValidatePlatforms platforms) as [ps|e] eqn:Ep; [|done]. cbn [mbind result_bind].
  destruct (for_each _ (RS_Include rules)) as [[]|e]; [|done]. cbn [mbind result_bind].
  destruct (for_each _ (RS_Exclude rules)) as [[]|e]; [|done]. cbn [mbind result_bind].
  destruct (include_rules _ _ _ _) as [[combs inc]|e] eqn:Ei; [|done]. cbn [mbind result_bind].
  destruct (exclude_rules _ _ _) as [[combs2 exc]|e] eqn:Ee; [|done]. cbn [mbind result_bind]. intros [= <-].
  destruct (ValidateVersions_ok _ _ _ Ev) as (_ & Hnv & Hv). destruct (ValidatePlatforms_ok _ _ Ep) as (_ & Hnp & Hp).
  assert (lang ∈ [Go; Rust]) as Hl.
  { apply negb_false_iff, orb_prop in El. rewrite !elem_of_cons. destruct El; bool_prop; auto. }
  pose proof (base_good lang vs ps Hl Hv Hp) as Hg. pose proof (base_keys_NoDup lang vs ps Hnv Hnp) as Hn.
  apply include_rules_spec in Ei as (Hg1 & Hn1 & Hl1 & Hk1); [|done|done|by apply index_of_ok].
  apply exclude_rules_spec in Ee as [-> He]. cbn [MP_Combinations MP_BaseCount MP_IncludedCount MP_ExcludedCount].
  set (keep := λ c, negb (existsb (λ r, Matches r c) (RS_Exclude rules))) in *.
  assert (∀ c, c ∈ List.filter keep combs ↔ c ∈ combs ∧ keep c = true) as Hin.
  { intros c. rewrite list_elem_of_In, filter_In, <- list_elem_of_In. done. }
  rewrite Forall_forall in Hg1.
  assert (∀ c, good c → keep c = negb (excluded_by rules (key_of c))) as Hkeep.
  { intros c Hc. unfold keep, excluded_by. by rewrite (excluded_key c (RS_Exclude rules) Hc). }
  assert (keys (List.filter keep combs) `sublist_of` keys combs) as Hsub.
  { apply sublist_fmap. clear. induction combs as [|c l IH]; cbn; [constructor|].
    destruct (keep c); [by constructor|by apply sublist_cons]. }
  exists vs, ps. split_and!; [done|done| | | | | |lia].
  - intros k. unfold requested. rewrite <- elem_of_base, <- Hk1. unfold keys. rewrite !list_elem_of_fmap. split.
    + intros (c & -> & [Hc Hkc]%Hin). split; [by exists c|]. rewrite Hkeep in Hkc by auto. by apply negb_true_iff.
    + intros [(c & -> & Hc) Hx]. exists c. split; [done|]. apply Hin. split; [done|]. rewrite Hkeep by auto. by rewrite Hx.
  - eapply sublist_NoDup; [exact Hn1|exact Hsub].
  - apply NoDup_fmap_2_strong; [|eapply NoDup_fmap_1, sublist_NoDup; [exact Hn1|exact Hsub]].
    intros c1 c2 H1 H2 Hid. pose proof H1 as H1'. pose proof H2 as H2'. apply Hin in H1 as [H1 _]. apply Hin in H2 as [H2 _].
    pose proof (ID_inj c1 c2 (Hg1 _ H1) (Hg1 _ H2) Hid) as Hk.
    apply list_elem_of_lookup in H1 as [i Hi]. apply list_elem_of_lookup in H2 as [j Hj].
    assert (i = j) as ->; [|congruence]. apply (NoDup_lookup (keys combs) i j (key_of c2) Hn1); unfold keys; rewrite list_lookup_fmap.
    + rewrite Hi. cbn. by rewrite Hk.
    + by rewrite Hj.
  - intros c H. apply Hin in H as [H _]. by apply Hg1.
  - unfold base_product, len. clear. induction vs as [|v vs IH]; [done|]. cbn [mbind list_bind].
    rewrite length_app, length_fmap. simpl length. lia.
Qed.

(** ** From the configuration to the plan *)

Lemma in_section_Ok {A} where_ (r : res A) : in_section where_ r = Ok tt → ∃ a, r = Ok a.
Proof. destruct r; [by eauto|done]. Qed.

Lemma validate_rule_Ok kind i fields :
  validate_rule kind i fields = Ok tt → ValidateRule kind (RuleFromFields fields) = Ok tt.
Proof.
  unfold validate_rule. destruct (List.find _ (map_to_list fields)) as [[k v]|]; [done|].
  destruct (in_section _ (ValidateRuleFields kind fields)) as [[]|e]; [|done]. cbn [mbind result_bind].
  by intros [[] ->]%in_section_Ok.
Qed.

Lemma validate_rules_Ok kind l : ∀ i,
  for_each_idx (validate_rule kind) i l = Ok tt → for_each (ValidateRule kind) (RuleFromFields <$> l) = Ok tt.
Proof.
  induction l as [|fields l IH]; intros i; [done|]. cbn [for_each_idx fmap list_fmap for_each].
  destruct (validate_rule kind i fields) as [[]|e] eqn:E; [|done]. apply validate_rule_Ok in E as ->.
  cbn [mbind result_bind]. apply IH.
Qed.

Lemma validate_versions_Ok lang vs :
  validate_versions lang vs = Ok tt → given vs = true → ∃ l, ValidateVersions lang vs = Ok l.
Proof.
  unfold validate_versions. destruct (for_each_idx _ _ _) as [[]|e]; [|done]. cbn [mbind result_bind].
  intros H Hg. rewrite Hg in H. by eapply in_section_Ok.
Qed.

Definition language_of (m : MatrixConfig) : string := if given (versionStrings m Go) then Go else Rust.

(** A build without matrix flags of a project in [lang]. *)
Definition configured (m : MatrixConfig) (lang : string) : ResolveInput :=
  mkInput lang false false (mkCLI [] [] [] 0 0) (MatrixProfile (Some m)) (MC_Enabled m).

Lemma resolve_configured m :
  MC_Enabled m = true → (given (versionStrings m Go) && given (versionStrings m Rust))%bool = false →
  given (versionStrings m (language_of m)) = true → given (MC_Platforms m) = true →
  ∃ p, Resolve (configured m (language_of m)) = Ok (Some p) ∧ 0 < PF_Concurrency p ∧ 0 ≤ PF_Retries p ∧
    PF_Lang p = language_of m ∧ PF_Versions p = versionStrings m (language_of m) ∧ PF_Platforms p = MC_Platforms m ∧
    PF_Include p = RuleFromFields <$> MC_Include m ∧ PF_Exclude p = RuleFromFields <$> MC_Exclude m.
Proof.
  intros He Hb Hv Hp. unfold Resolve, IsActive, configured, MatrixProfile, language_of, version_source, yaml_versions,
    from_yaml, prefer_list, dimension_flags in *.
  assert (given (@nil string) = false) as H0 by done.
  assert ((Go =s Go) = true ∧ (Rust =s Rust) = true ∧ (Go =s Rust) = false ∧ (Rust =s Go) = false) as (H1 & H2 & H3 & H4) by done.
  assert ((0 <? 0) = false) as H5 by done.
  assert ((SourceConfig =s "") = false ∧ ("" =s "") = true) as [H6 H7] by done.
  destruct (given (versionStrings m Go)) eqn:Eg; cbn in Hb; [|rewrite Hv];
    cbn -[given Z.ltb String.eqb]; rewrite He;
    repeat (rewrite ?H0, ?H1, ?H2, ?H3, ?H4, ?H5, ?H6, ?H7, ?Eg, ?Hv, ?Hp; cbn -[given Z.ltb String.eqb]);
    destruct (0 <? MC_Concurrency m) eqn:E1, (0 <? MC_Retries m) eqn:E2; bool_prop;
    (eexists; split; [reflexivity|]); cbn; unfold DefaultConcurrency; split_and!; try done; lia.
Qed.

(** What the schema accepts, the engine plans.  A matrix section that passed
    validation and is enabled resolves, without flags, to a profile with its own
    versions, platforms and rules; its expansion gets past every check of the
    engine, so that it can only fail on a rule that matches nothing or names an
    impossible combination. *)
Theorem a_validated_config_plans m :
  validate (Some m) = Ok tt → MC_Enabled m = true →
  ∃ p vs ps,
    Resolve (configured m (language_of m)) = Ok (Some p) ∧ 0 < PF_Concurrency p ∧ 0 ≤ PF_Retries p ∧
    ValidateVersions (language_of m) (versionStrings m (language_of m)) = Ok vs ∧
    ValidatePlatforms (MC_Platforms m) = Ok ps ∧
    Plan (Some p) =
      (let base := base_product (language_of m) vs ps in
       '(combs, included) ← include_rules (RuleFromFields <$> MC_Include m) base (index_of base) 0;
       '(combs, excluded) ← exclude_rules (RuleFromFields <$> MC_Exclude m) combs 0;
       Ok (mkPlan (language_of m) combs (len base) included excluded)).
Proof.
  intros H He. cbn [validate] in H.
  destruct (fail_if (MC_Concurrency m <? 0) _) as [[]|e] eqn:Ec; [|done]. cbn [mbind result_bind] in H.
  destruct (fail_if (MC_Retries m <? 0) _) as [[]|e] eqn:Er; [|done]. cbn [mbind result_bind] in H.
  destruct (for_each_idx (validate_rule "include") _ _) as [[]|e] eqn:Ei; [|done]. cbn [mbind result_bind] in H.
  destruct (for_each_idx (validate_rule "exclude") _ _) as [[]|e] eqn:Ex; [|done]. cbn [mbind result_bind] in H.
  destruct (given (versionStrings m Go) && given (versionStrings m Rust))%bool eqn:Eb; [done|].
  cbn [mbind result_bind fail_if] in H.
  destruct (validate_versions Go _) as [[]|e] eqn:Eg; [|done]. cbn [mbind result_bind] in H.
  destruct (validate_versions Rust _) as [[]|e] eqn:Eru; [|done]. cbn [mbind result_bind] in H.
  destruct (given (MC_Platforms m)) eqn:Egp; cycle 1.
  { cbn [mbind result_bind] in H. rewrite He in H. cbn [negb] in H.
    by destruct (negb (given (versionStrings m Go)) && negb (given (versionStrings m Rust)))%bool. }
  destruct (in_section _ (ValidatePlatforms _)) as [[]|e] eqn:Ep; [|done]. cbn [mbind result_bind] in H.
  rewrite He in H. cbn [negb] in H. apply in_section_Ok in Ep as [ps Hps].
  apply validate_rules_Ok in Ei. apply validate_rules_Ok in Ex.
  assert (given (versionStrings m (language_of m)) = true ∧
    ∃ vs, ValidateVersions (language_of m) (versionStrings m (language_of m)) = Ok vs) as (Hgv & vs & Hvs).
  { unfold language_of. destruct (given (versionStrings m Go)) eqn:E1; [split; [done|]; exact (validate_versions_Ok _ _ Eg E1)|].
    destruct (given (versionStrings m Rust)) eqn:E2; [|done]. split; [done|]. exact (validate_versions_Ok _ _ Eru E2). }
  destruct (resolve_configured m He Eb Hgv Egp) as (p & Hp & Hc & Hr & Hpl & Hpv & Hpp & Hpi & Hpe).
  exists p, vs, ps. split_and!; [done..|]. unfold Plan. rewrite Hpl, Hpv, Hpp, Hpi, Hpe. unfold Expand.
  assert (∀ (l : list string), given l = true → (len l =? 0) = false) as Hne.
  { intros l Hl. unfold given in Hl. bool_prop. apply Z.eqb_neq. lia. }
  rewrite !Hne by done. rewrite Hvs, Hps. cbn [mbind result_bind RS_Include RS_Exclude]. rewrite Ei, Ex.
  cbn [mbind result_bind]. unfold language_of. by destruct (given (versionStrings m Go)).
Qed.

(** ** Samples *)

Module PlanSamples.
Definition fields (l : list (string * string)) : gmap string string := list_to_map l.

Definition two_by_two : MatrixConfig :=
  mkConfig true (Some ["1.22"; "go1.22.4"]) None ["linux/amd64"; "Linux/arm/v7"] 0 2
    [fields [("go", "1.22"); ("platform", "darwin/arm64"); ("tag", "latest")]]
    [fields [("version", "1.22.4"); ("arch", "arm")]].

Definition ids (r : res MatrixPlan) : list string :=
  match r with Ok p => ID <$> MP_Combinations p | Err _ => [] end.

Definition plan_of (m : MatrixConfig) : res MatrixPlan :=
  p ← Resolve (configured m (language_of m)); Plan p.

Example two_by_two_plans :
  ids (plan_of two_by_two) = ["go1.22-linux-amd64"; "go1.22-linux-arm-v7"; "go1.22.4-linux-amd64"; "go1.22-darwin-arm64"].
Proof. vm_compute. reflexivity. Qed.

Definition excluded_twice : RuleSet :=
  mkRuleSet [] [RuleFromFields (fields [("os", "linux")])].

Lemma expansion_is_exact_witness :
  ∃ p, Expand Go ["1.22"; "1.21"] ["linux/amd64"; "darwin/arm64"] excluded_twice = Ok p ∧
    len (MP_Combinations p) = MP_BaseCount p + MP_IncludedCount p - MP_ExcludedCount p.
Proof.
  assert (is_ok (Expand Go ["1.22"; "1.21"] ["linux/amd64"; "darwin/arm64"] excluded_twice) = true) as H
    by (vm_compute; reflexivity).
  destruct (Expand Go ["1.22"; "1.21"] ["linux/amd64"; "darwin/arm64"] excluded_twice) as [p|e] eqn:E; [|discriminate H].
  exists p. split; [reflexivity|].
  destruct (expansion_is_exact _ _ _ _ _ E) as (vs & ps & _ & _ & _ & _ & _ & _ & _ & Hl). exact Hl.
Defined.

Lemma a_validated_config_plans_witness :
  validate (Some two_by_two) = Ok tt ∧ ∃ p, Resolve (configured two_by_two Go) = Ok (Some p) ∧ 0 < PF_Concurrency p.
Proof.
  assert (validate (Some two_by_two) = Ok tt) as H by (vm_compute; reflexivity). split; [exact H|].
  destruct (a_validated_config_plans two_by_two H eq_refl) as (p & _ & _ & Hp & Hc & _).
  assert (language_of two_by_two = Go) as Hl by (vm_compute; reflexivity). rewrite Hl in Hp.
  exists p. split; [exact Hp|exact Hc].
Defined.

(** Rules that exclude everything leave an empty plan, not an error. *)
Example everything_can_be_excluded :
  ids (Expand Go ["1.22"] ["linux/amd64"] excluded_twice) = [] ∧
  is_ok (Expand Go ["1.22"] ["linux/amd64"] excluded_twice) = true.
Proof. vm_compute. done. Qed.

(** A full include rule of the other ecosystem puts its combination into the
    plan of this one. *)
Example a_plan_may_mix_languages :
  ids (Expand Go ["1.22"] ["linux/amd64"]
    (mkRuleSet [RuleFromFields (fields [("rust", "1.77"); ("platform", "linux/amd64")])] [])) =
  ["go1.22-linux-amd64"; "rust1.77-linux-amd64"].
Proof. vm_compute. reflexivity. Qed.

(** A platform next to one of its parts is not ambiguous to
    [ValidateRuleFields]: the part wins. *)
Example a_part_wins_over_the_platform :
  let f := fields [("platform", "linux/amd64"); ("os", "darwin")] in
  ValidateRuleFields "exclude" f = Ok tt ∧ ValidateRule "exclude" (RuleFromFields f) = Ok tt ∧
  map_to_list (R_Dimensions (RuleFromFields f)) = map_to_list (fields [("os", "darwin"); ("arch", "amd64")]).
Proof. vm_compute. done. Qed.

(** An explicit value of the command line that is zero does not count. *)
Example no_retries_cannot_be_asked_for :
  let i := mkInput Go false false (mkCLI [] [] [] 0 0) (MatrixProfile (Some two_by_two)) true in
  match Resolve i with Ok (Some p) => PF_Retries p | _ => 0 end = 2.
Proof. vm_compute. reflexivity. Qed.

(** The prefix of the other ecosystem is stripped without a word. *)
Example a_go_version_is_a_rust_version :
  match ValidateVersions Rust ["go1.77"] with Ok l => l | Err _ => [] end = ["1.77"].
Proof. vm_compute. reflexivity. Qed.
End PlanSamples.
