(* ===== verification/MatrixExec.v ===== *)
(** * MatrixExec: the executor of the build matrix
      (src/internal/matrix/executor.go, checksum.go)

    One combination under the retry policy as a function of what its builds
    return; the worker pool as a step relation over the queue, the workers and
    the results, with a cancellation at any moment.  Progress output is left
    out. *)

From S2P Require Import Prelude GoLib MatrixPlan Errors.

(* src: internal/matrix/executor.go Attempt *)
Record Attempt := mkAttempt { AT_Number : Z; AT_Status : string; AT_Duration : Z; AT_Error : option error }.

(* src: internal/matrix/executor.go Result *)
Record Result := mkResult {
  RE_Combination : Combination; RE_Status : string; RE_Duration : Z; RE_Artifact : string; RE_Error : option error;
  RE_Log : string; RE_SHA256 : string; RE_CacheStatus : string; RE_Attempts : list Attempt
}.

Definition zero_combination : Combination := mkCombination "" "" "" "" "" "" ∅.
Definition zero_result : Result := mkResult zero_combination "" 0 "" None "" "" "" [].

Definition failed_result (c : Combination) (message : string) : Result :=
  mkResult c "failed" 0 "" (Some (New CodeBuildFailed message)) "" "" "" [].

Definition with_combination (c : Combination) (r : Result) : Result :=
  mkResult c (RE_Status r) (RE_Duration r) (RE_Artifact r) (RE_Error r) (RE_Log r) (RE_SHA256 r) (RE_CacheStatus r) (RE_Attempts r).
Definition with_attempts (d : Z) (l : list Attempt) (r : Result) : Result :=
  mkResult (RE_Combination r) (RE_Status r) d (RE_Artifact r) (RE_Error r) (RE_Log r) (RE_SHA256 r) (RE_CacheStatus r) l.

(** ** One combination *)

(** What a build function does: it panics, returns nil or a result. *)
Inductive Build := Panics (value : string) | ReturnsNil | Returns (r : Result).

(* src: internal/matrix/executor.go isZeroCombination *)
Definition isZeroCombination (c : Combination) : bool :=
  ((C_Lang c =s "") && (C_Version c =s "") && (C_OS c =s "") && (C_Arch c =s "") && (C_Variant c =s "") &&
   (C_Platform c =s "") && bool_decide (C_Metadata c = ∅))%bool.

(* src: internal/matrix/executor.go runBuild *)
Definition runBuild (c : Combination) (b : Build) : Result :=
  match b with
  | Panics v => failed_result c ("matrix build panicked for " +:+ ID c +:+ ": " +:+ v)
  | ReturnsNil => failed_result c ("matrix build returned no result for " +:+ ID c)
  | Returns r => if isZeroCombination (RE_Combination r) then with_combination c r else r
  end.

(* src: internal/matrix/executor.go DefaultRetryClassifier *)
Definition DefaultRetryClassifier (err : option error) : bool :=
  bool_decide (CodeOf err ∈ [CodeNetwork; CodeConnection; CodeTimeout; CodeUnavailable; CodeDockerDaemonUnavailable]).

Section Retries.
(** The classifier, and for each attempt what the build does and how long it
    takes. *)
Variables (classifier : option error → bool) (build : Z → Build) (took : Z → Z) (c : Combination).

(** The loop from one attempt on, with the number of attempts that are left. *)
(* src: internal/matrix/executor.go:246-275 executeWithRetries *)
Fixpoint attempts_from (more : nat) (attempt : Z) (history : list Attempt) : Result :=
  let r := runBuild c (build attempt) in
  let history := history ++ [mkAttempt attempt (RE_Status r) (took attempt) (RE_Error r)] in
  let r := with_attempts (took attempt) history r in
  if RE_Status r <>s "failed" then r
  else match more with
       | O => r
       | S more => if negb (classifier (RE_Error r)) then r else attempts_from more (attempt + 1) history
       end.

(* src: internal/matrix/executor.go executeWithRetries *)
Definition executeWithRetries (retries : Z) : Result := attempts_from (Z.to_nat retries) 1 [].
End Retries.

(** [hash]: the digest of a file, or why it cannot be read. *)
(* src: internal/matrix/checksum.go finalizeArtifactChecksum *)
Definition finalizeArtifactChecksum (hash : string → res string) (r : Result) : Result :=
  if ((RE_Status r <>s "success") || (RE_Artifact r =s ""))%bool then r
  else match hash (RE_Artifact r) with
       | Err e =>
           mkResult (RE_Combination r) "failed" (RE_Duration r) (RE_Artifact r)
             (Some (New CodeBuildFailed ("artifact integrity check failed for " +:+ ID (RE_Combination r) +:+ ": " +:+ Error e +:+
                " — the built artifact could not be checksummed and is not recorded as a valid release artifact")))
             (RE_Log r) "" (RE_CacheStatus r) (RE_Attempts r)
       | Ok sum =>
           mkResult (RE_Combination r) (RE_Status r) (RE_Duration r) (RE_Artifact r) (RE_Error r) (RE_Log r) sum
             (RE_CacheStatus r) (RE_Attempts r)
       end.

(* src: internal/matrix/checksum.go ShortSHA256 *)
Definition ShortSHA256 (sum : string) : string := if len_str sum <=? 12 then sum else take_str 12 sum +:+ "…".

(* src: internal/matrix/executor.go HasFailures *)
Definition HasFailures (results : list Result) : bool := existsb (λ r, RE_Status r =s "failed") results.
(* src: internal/matrix/executor.go Succeeded *)
Definition Succeeded (results : list Result) : list Result := List.filter (λ r, RE_Status r =s "success") results.
(* src: internal/matrix/executor.go Failed *)
Definition Failed (results : list Result) : list Result := List.filter (λ r, RE_Status r =s "failed") results.

(** ** The worker pool *)

(** A worker waits for an index, has told [marks] attempts of the combination at
    its index, or has returned. *)
Inductive Worker := Waiting | Building (idx : nat) (marks : nat) | Gone.

#[export] Instance Worker_eq_dec : EqDecision Worker.
Proof. solve_decision. Defined.

(** What the executor tells the run: an attempt starts, a result is final. *)
Inductive Told := TAttempt (c : Combination) (attempt : Z) | TResult (r : Result).

Record Pool := mkPool {
  PL_Queue : list nat; PL_Workers : list Worker; PL_Results : list Result; PL_Cancelled : bool; PL_Told : list Told
}.

(* src: internal/matrix/executor.go ExecutorConfig *)
Record ExecutorConfig := mkExec { EX_Concurrency : Z; EX_DryRun : bool; EX_Retries : Z }.

Definition workers_of (cfg : ExecutorConfig) : nat :=
  Z.to_nat (if EX_Concurrency cfg <=? 0 then DefaultConcurrency else EX_Concurrency cfg).
Definition retries_of (cfg : ExecutorConfig) : Z := Z.max 0 (EX_Retries cfg).

(** The channel holds every index, the workers wait, no result is there. *)
(* src: internal/matrix/executor.go:164-173 Execute *)
Definition start_pool (cfg : ExecutorConfig) (combs : list Combination) : Pool :=
  mkPool (seq 0 (length combs)) (replicate (workers_of cfg) Waiting) (replicate (length combs) zero_result) false [].

(* src: internal/matrix/executor.go:138-143 Execute *)
Definition dry_run (combs : list Combination) : list Result :=
  (λ c, mkResult c "skipped" 0 "" None "" "" "" []) <$> combs.

Definition set_worker (w : nat) (x : Worker) (p : Pool) : Pool :=
  mkPool (PL_Queue p) (<[w := x]> (PL_Workers p)) (PL_Results p) (PL_Cancelled p) (PL_Told p).
Definition set_queue (q : list nat) (p : Pool) : Pool :=
  mkPool q (PL_Workers p) (PL_Results p) (PL_Cancelled p) (PL_Told p).
Definition tell (t : Told) (p : Pool) : Pool :=
  mkPool (PL_Queue p) (PL_Workers p) (PL_Results p) (PL_Cancelled p) (PL_Told p ++ [t]).
Definition store_result (i : nat) (r : Result) (p : Pool) : Pool :=
  mkPool (PL_Queue p) (PL_Workers p) (<[i := r]> (PL_Results p)) (PL_Cancelled p) (PL_Told p).
Definition cancel (p : Pool) : Pool :=
  mkPool (PL_Queue p) (PL_Workers p) (PL_Results p) true (PL_Told p).

Section Pool.
Variables (combs : list Combination) (retries : Z).

(** A result the retry policy can give for a combination.  A build function
    returns results of its own combination. *)
Definition own (c : Combination) (b : Build) : Prop :=
  match b with Returns r => isZeroCombination (RE_Combination r) = true ∨ RE_Combination r = c | _ => True end.

Definition result_for (c : Combination) (r : Result) : Prop :=
  ∃ classifier build took, (∀ n, own c (build n)) ∧ r = executeWithRetries classifier build took c retries.

(** The statements of a worker, and the cancellation of the context. *)
(* src: internal/matrix/executor.go:173-226 Execute *)
Inductive pstep : Pool → unit → Pool → Prop :=
| ps_take w i rest p :
    PL_Workers p !! w = Some Waiting → PL_Queue p = i :: rest → PL_Cancelled p = false →
    pstep p tt (set_queue rest (set_worker w (Building i 0) p))
| ps_take_cancelled w i rest p :
    PL_Workers p !! w = Some Waiting → PL_Queue p = i :: rest → PL_Cancelled p = true →
    pstep p tt (set_queue rest (set_worker w Gone p))
| ps_drained w p :
    PL_Workers p !! w = Some Waiting → PL_Queue p = [] → pstep p tt (set_worker w Gone p)
| ps_attempt w i n c p :
    PL_Workers p !! w = Some (Building i n) → combs !! i = Some c → Z.of_nat n < 1 + retries →
    pstep p tt (tell (TAttempt c (Z.of_nat n + 1)) (set_worker w (Building i (S n)) p))
| ps_finish w i n c r p :
    PL_Workers p !! w = Some (Building i n) → combs !! i = Some c → result_for c r → n = length (RE_Attempts r) →
    PL_Cancelled p = false ∨ RE_Status r ≠ "failed" →
    pstep p tt (tell (TResult r) (store_result i r (set_worker w Waiting p)))
| ps_discard w i n c r p :
    PL_Workers p !! w = Some (Building i n) → combs !! i = Some c → result_for c r → n = length (RE_Attempts r) →
    PL_Cancelled p = true → RE_Status r = "failed" →
    pstep p tt (set_worker w Waiting p)
| ps_cancel p : PL_Cancelled p = false → pstep p tt (cancel p).
End Pool.

(** Every goroutine has returned. *)
Definition ended (p : Pool) : Prop := ∀ w x, PL_Workers p !! w = Some x → x = Gone.
