(* ===== verification/MatrixExecSafety.v ===== *)
(** * MatrixExecSafety: what the executor of the build matrix guarantees

    The retry policy, the worker pool under any interleaving and any
    cancellation, and its end. *)

From S2P Require Import Prelude GoLib MatrixPlan MatrixExec Errors.

(** ** The retry policy *)

Lemma runBuild_own c b : own c b → RE_Combination (runBuild c b) = c.
Proof.
  destruct b as [v| |r]; [done..|]. cbn. intros H. destruct (isZeroCombination (RE_Combination r)) eqn:E; [done|].
  by destruct H.
Qed.

(** The history of the attempts made so far: numbered from 1, all failed and
    worth another try. *)
Definition failed_so_far (classifier : option error → bool) (history : list Attempt) : Prop :=
  ∀ i a, history !! i = Some a → AT_Number a = Z.of_nat i + 1 ∧ AT_Status a = "failed" ∧ classifier (AT_Error a) = true.

Lemma attempts_from_spec classifier build took c more : ∀ attempt history,
  (∀ n, own c (build n)) → attempt = len history + 1 → failed_so_far classifier history →
  let r := attempts_from classifier build took c more attempt history in
  RE_Combination r = c ∧
  ∃ earlier last, RE_Attempts r = earlier ++ [last] ∧ failed_so_far classifier earlier ∧
    (length history ≤ length earlier ≤ length history + more)%nat ∧
    AT_Number last = len earlier + 1 ∧ AT_Status last = RE_Status r ∧ AT_Error last = RE_Error r ∧
    (RE_Status r = "failed" → length earlier = (length history + more)%nat ∨ classifier (RE_Error r) = false).
Proof.
  induction more as [|more IH]; intros attempt history Hown -> Hh; cbn [attempts_from];
    set (r := runBuild c (build (len history + 1)));
    set (r' := with_attempts (took (len history + 1)) (history ++ [mkAttempt (len history + 1) (RE_Status r) (took (len history + 1)) (RE_Error r)]) r);
    assert (RE_Combination r' = c) as Hc by (by apply runBuild_own);
    change (RE_Status r') with (RE_Status r); change (RE_Error r') with (RE_Error r).
  - destruct (RE_Status r <>s "failed") eqn:Es; (split; [done|]);
      (exists history; eexists; split; [reflexivity|]; cbn; split_and!; [done|lia|lia|done|done|done|]).
    + intros E. bool_prop. congruence.
    + intros _. left. lia.
  - destruct (RE_Status r <>s "failed") eqn:Es.
    { split; [done|]. exists history. eexists; split; [reflexivity|]; cbn. split_and!; [done|lia|lia|done|done|done|].
      intros E. bool_prop. congruence. }
    destruct (classifier (RE_Error r)) eqn:Ecl; cbn [negb].
    + destruct (IH (len history + 1 + 1) (RE_Attempts r') Hown) as (Hc2 & earlier & last & Ha & He & Hl & Hnum & Hst & Her & Hf).
      * cbn. rewrite len_app. done.
      * intros i a. cbn. intros [Hi|[Hi Hin]]%lookup_app_Some; [by apply Hh|].
        destruct (i - length history)%nat as [|j] eqn:Ej; [|done]. cbn in Hin. injection Hin as <-. cbn.
        assert (i = length history) as -> by lia. bool_prop. unfold len. split_and!; [lia|done|done].
      * split; [done|]. exists earlier, last. cbn in Hl. rewrite length_app in Hl. cbn in Hl.
        split_and!; [done|done|lia|lia|done|done|done|]. intros H. destruct (Hf H) as [Hx|Hx]; [left|by right].
        cbn in Hx. rewrite length_app in Hx. cbn in Hx. lia.
    + split; [done|]. exists history. eexists; split; [reflexivity|]; cbn. split_and!; [done|lia|lia|done|done|done|].
      intros _. by right.
Qed.

(** The retry policy.  A combination is attempted at least once and at most
    [1 + retries] times; every attempt is kept, in order and numbered from 1;
    every attempt but the last failed with an error worth another try; and a
    combination is given up as failed only when the budget is used up or the
    last error is permanent. *)
Theorem retries_follow_the_policy classifier build took c retries :
  (∀ n, own c (build n)) →
  let r := executeWithRetries classifier build took c retries in
  RE_Combination r = c ∧
  ∃ earlier last, RE_Attempts r = earlier ++ [last] ∧
    failed_so_far classifier earlier ∧ len earlier ≤ Z.max 0 retries ∧
    AT_Number last = len earlier + 1 ∧ AT_Status last = RE_Status r ∧ AT_Error last = RE_Error r ∧
    (RE_Status r = "failed" → len earlier = Z.max 0 retries ∨ classifier (RE_Error r) = false).
Proof.
  intros Hown. destruct (attempts_from_spec classifier build took c (Z.to_nat retries) 1 [] Hown eq_refl)
    as (Hc & earlier & last & Ha & He & Hl & Hn & Hs & Her & Hf); [intros i a Hi; by rewrite lookup_nil in Hi|].
  split; [done|]. exists earlier, last. cbn in *. unfold len in *. split_and!; [done|done|lia|lia|done|done|].
  intros H. destruct (Hf H); [left; lia|by right].
Qed.

Lemma executeWithRetries_facts classifier build took c retries :
  (∀ n, own c (build n)) → 0 ≤ retries →
  let r := executeWithRetries classifier build took c retries in
  RE_Combination r = c ∧ (1 ≤ length (RE_Attempts r))%nat ∧ len (RE_Attempts r) ≤ 1 + retries.
Proof.
  intros Hown Hr. destruct (attempts_from_spec classifier build took c (Z.to_nat retries) 1 [] Hown eq_refl)
    as (Hc & earlier & last & Ha & _ & Hl & _); [intros i a Hi; by rewrite lookup_nil in Hi|].
  split; [done|]. unfold executeWithRetries. rewrite Ha. unfold len. rewrite length_app. cbn in *. lia.
Qed.

Lemma result_for_facts retries c r :
  0 ≤ retries → result_for retries c r → RE_Combination r = c ∧ (1 ≤ length (RE_Attempts r))%nat ∧ len (RE_Attempts r) ≤ 1 + retries.
Proof. intros Hr (cl & build & took & Hown & ->). by apply executeWithRetries_facts. Qed.

(** ** The pool *)

Definition busy_at (x : Worker) : option nat := match x with Building i _ => Some i | Waiting | Gone => None end.
Definition busy (ws : list Worker) : list nat := omap busy_at ws.

Definition attempts_told (l : list Told) : list (Combination * Z) :=
  omap (λ t, match t with TAttempt c n => Some (c, n) | TResult _ => None end) l.
Definition results_told (l : list Told) : list Result :=
  omap (λ t, match t with TResult r => Some r | TAttempt _ _ => None end) l.

Lemma busy_insert ws w x y :
  ws !! w = Some y → busy_at y = None →
  busy (<[w := x]> ws) ≡ₚ option_list (busy_at x) ++ busy ws.
Proof.
  intros Hw Hy. unfold busy. rewrite insert_take_drop by (by eapply lookup_lt_Some).
  rewrite <- (take_drop_middle ws w y Hw) at 3. rewrite !omap_app. cbn [omap list_omap]. rewrite Hy.
  destruct (busy_at x); cbn; [|done]. by rewrite <- Permutation_middle.
Qed.

Lemma busy_replace ws w x y :
  ws !! w = Some y → busy_at x = busy_at y → busy (<[w := x]> ws) = busy ws.
Proof.
  intros Hw Hxy. unfold busy. rewrite insert_take_drop by (by eapply lookup_lt_Some).
  rewrite <- (take_drop_middle ws w y Hw) at 3. rewrite !omap_app. cbn [omap list_omap]. by rewrite Hxy.
Qed.

Lemma busy_clear ws w i n x :
  ws !! w = Some (Building i n) → busy_at x = None → busy ws ≡ₚ i :: busy (<[w := x]> ws).
Proof.
  intros Hw Hx. unfold busy. rewrite insert_take_drop by (by eapply lookup_lt_Some).
  rewrite <- (take_drop_middle ws w _ Hw) at 1. rewrite !omap_app. cbn [omap list_omap]. rewrite Hx. cbn.
  by rewrite Permutation_middle.
Qed.

Lemma elem_of_busy ws w i n : ws !! w = Some (Building i n) → i ∈ busy ws.
Proof.
  intros Hw. unfold busy. apply list_elem_of_omap. exists (Building i n). split; [by eapply list_elem_of_lookup_2|done].
Qed.

Lemma nonzero_result r : (1 ≤ length (RE_Attempts r))%nat → r ≠ zero_result.
Proof. intros H ->. cbn in H. lia. Qed.

Section PoolInvariant.
Context (combs : list Combination) (retries : Z).
Hypothesis Hcombs : NoDup combs.
Hypothesis Hretries : 0 ≤ retries.

(** Every index is in one place: the queue, one worker, or behind. *)
Record pool_ok (p : Pool) : Prop := {
  pk_once : NoDup (PL_Queue p ++ busy (PL_Workers p));
  pk_results : length (PL_Results p) = length combs;
  pk_pending i : i ∈ PL_Queue p ++ busy (PL_Workers p) → (i < length combs)%nat ∧ PL_Results p !! i = Some zero_result;
  pk_own i c r : combs !! i = Some c → PL_Results p !! i = Some r → r = zero_result ∨ result_for retries c r;
  pk_told i r : PL_Results p !! i = Some r → r ≠ zero_result → TResult r ∈ PL_Told p;
  pk_attempts : NoDup (attempts_told (PL_Told p));
  pk_unstarted i c n : combs !! i = Some c → i ∈ PL_Queue p → (c, n) ∉ attempts_told (PL_Told p);
  pk_marks w i m c n : PL_Workers p !! w = Some (Building i m) → combs !! i = Some c →
    (c, n) ∈ attempts_told (PL_Told p) → n ≤ Z.of_nat m;
  pk_kept i : PL_Cancelled p = false → (i < length combs)%nat →
    i ∈ PL_Queue p ++ busy (PL_Workers p) ∨ ∃ r, PL_Results p !! i = Some r ∧ r ≠ zero_result;
  pk_gone w : PL_Cancelled p = false → PL_Workers p !! w = Some Gone → PL_Queue p = [];
  pk_marked w i m : PL_Workers p !! w = Some (Building i m) → Z.of_nat m ≤ 1 + retries
}.

Lemma start_pool_ok cfg : pool_ok (start_pool cfg combs).
Proof.
  assert (busy (replicate (workers_of cfg) Waiting) = []) as Hb.
  { unfold busy. induction (workers_of cfg) as [|k IH]; [done|]. exact IH. }
  split; cbn [start_pool PL_Queue PL_Workers PL_Results PL_Cancelled PL_Told]; rewrite ?Hb, ?app_nil_r.
  - apply NoDup_seq.
  - apply length_replicate.
  - intros i [_ Hi]%elem_of_seq. split; [lia|]. by apply lookup_replicate_2.
  - intros i c r _ [-> _]%lookup_replicate. by left.
  - intros i r [-> _]%lookup_replicate. done.
  - constructor.
  - intros i c n _ _ H. inversion H.
  - intros w i m c n [H _]%lookup_replicate. done.
  - intros i _ Hi. left. apply elem_of_seq. lia.
  - intros w _ [H _]%lookup_replicate. done.
  - intros w i m [H _]%lookup_replicate. done.
Qed.

Lemma busy_unique ws w1 w2 i m1 m2 :
  NoDup (busy ws) → ws !! w1 = Some (Building i m1) → ws !! w2 = Some (Building i m2) → w1 = w2.
Proof using.
  intros Hn H1 H2. destruct (decide (w1 = w2)) as [|Hne]; [done|]. exfalso.
  pose proof (busy_clear ws w1 i m1 Gone H1 eq_refl) as Hp. rewrite Hp in Hn. apply NoDup_cons in Hn as [Hni _].
  apply Hni. eapply (elem_of_busy _ w2). by rewrite list_lookup_insert_ne.
Qed.

(** A worker that leaves or takes nothing changes only the workers. *)
Lemma pool_ok_idle p w x y q :
  pool_ok p → PL_Workers p !! w = Some y → busy_at x = None → busy_at y = None → (q `sublist_of` PL_Queue p) →
  (q = PL_Queue p ∨ PL_Cancelled p = true) → (x = Gone → PL_Cancelled p = true ∨ q = []) →
  pool_ok (set_queue q (set_worker w x p)).
Proof using.
  intros [] Hw Hx Hy Hq Hqc Hg.
  assert (busy (<[w := x]> (PL_Workers p)) = busy (PL_Workers p)) as Hb by (apply (busy_replace _ _ _ y); congruence).
  assert (∀ w' i m, <[w := x]> (PL_Workers p) !! w' = Some (Building i m) → PL_Workers p !! w' = Some (Building i m)) as Hold.
  { intros w' i m [(-> & -> & _)|[_ ?]]%list_lookup_insert_Some; [done|done]. }
  assert (∀ i, i ∈ q → i ∈ PL_Queue p) as Hin by (intros i Hi; by eapply elem_of_sublist).
  split; cbn [set_queue set_worker PL_Queue PL_Workers PL_Results PL_Cancelled PL_Told]; rewrite ?Hb; try done.
  - eapply sublist_NoDup; [exact pk_once0|]. by apply sublist_app.
  - intros i [Hi|Hi]%elem_of_app; apply pk_pending0, elem_of_app; auto.
  - intros i c n Hc Hi. by apply pk_unstarted0 with i; auto.
  - intros w' i m c n Hw' Hc. by eapply pk_marks0; eauto.
  - intros i Hc Hi. destruct Hqc as [->|Hqc]; [by apply pk_kept0|congruence].
  - intros w' Hc [(-> & -> & _)|[_ Hw']]%list_lookup_insert_Some.
    + destruct (Hg eq_refl); [congruence|done].
    + pose proof (pk_gone0 _ Hc Hw') as Hnil. destruct Hqc as [->|]; [done|congruence].
  - intros w' i m Hw'. by eapply pk_marked0; eauto.
Qed.

Lemma pool_ok_take p w i rest :
  pool_ok p → PL_Workers p !! w = Some Waiting → PL_Queue p = i :: rest → PL_Cancelled p = false →
  pool_ok (set_queue rest (set_worker w (Building i 0) p)).
Proof using Hretries.
  intros [] Hw Hq Hc. pose proof (busy_insert _ w (Building i 0) _ Hw eq_refl) as Hb. cbn [busy_at option_list app] in Hb.
  assert (rest ++ busy (<[w := Building i 0]> (PL_Workers p)) ≡ₚ PL_Queue p ++ busy (PL_Workers p)) as Hp.
  { rewrite Hb, Hq. symmetry. apply Permutation_middle. }
  split; cbn [set_queue set_worker PL_Queue PL_Workers PL_Results PL_Cancelled PL_Told]; try done.
  - by rewrite Hp.
  - intros j. rewrite Hp. apply pk_pending0.
  - intros j c n Hj Hin. apply pk_unstarted0 with j; [done|]. rewrite Hq. by right.
  - intros w' j m c n [(_ & Heq & _)|[_ Hw']]%list_lookup_insert_Some Hj Hin; [|by eapply pk_marks0].
    injection Heq as <- <-. exfalso. eapply (pk_unstarted0 i); [done| |done]. rewrite Hq. left.
  - intros j. rewrite Hp. apply pk_kept0.
  - intros w' Hc' [(_ & Heq & _)|[_ Hw']]%list_lookup_insert_Some; [done|].
    pose proof (pk_gone0 _ Hc Hw'). congruence.
  - intros w' j m [(_ & Heq & _)|[_ Hw']]%list_lookup_insert_Some; [injection Heq as <- <-; lia|by eapply pk_marked0].
Qed.

Lemma pool_ok_attempt p w i n c :
  pool_ok p → PL_Workers p !! w = Some (Building i n) → combs !! i = Some c → Z.of_nat n < 1 + retries →
  pool_ok (tell (TAttempt c (Z.of_nat n + 1)) (set_worker w (Building i (S n)) p)).
Proof using Hcombs.
  intros [] Hw Hc Hn.
  assert (busy (<[w := Building i (S n)]> (PL_Workers p)) = busy (PL_Workers p)) as Hb by (by eapply busy_replace).
  assert (attempts_told (PL_Told p ++ [TAttempt c (Z.of_nat n + 1)]) = attempts_told (PL_Told p) ++ [(c, Z.of_nat n + 1)]) as Ha.
  { unfold attempts_told. by rewrite omap_app. }
  assert (∀ j c', combs !! j = Some c' → c' = c → j = i) as Hsame by (intros j c' Hj ->; exact (NoDup_lookup combs j i c Hcombs Hj Hc)).
  split; cbn [tell set_worker PL_Queue PL_Workers PL_Results PL_Cancelled PL_Told]; rewrite ?Hb, ?Ha; try done.
  - intros j r Hj Hr. apply elem_of_app. left. by eapply pk_told0.
  - apply NoDup_app. split; [done|]. split; [|apply NoDup_singleton].
    intros [c' k] Hin [= -> ->]%list_elem_of_singleton. pose proof (pk_marks0 w i n c _ Hw Hc Hin). lia.
  - intros j c' k Hj Hq [Hin|[= -> ->]%list_elem_of_singleton]%elem_of_app; [by eapply pk_unstarted0|].
    rewrite (Hsame j c Hj eq_refl) in Hq. apply NoDup_app in pk_once0 as (_ & Hd & _).
    apply (Hd i Hq). by eapply elem_of_busy.
  - intros w' j m c' k [(<- & Heq & _)|[Hne Hw']]%list_lookup_insert_Some Hj [Hin|[= -> ->]%list_elem_of_singleton]%elem_of_app.
    + injection Heq as <- <-. pose proof (pk_marks0 w i n c' k Hw Hj Hin). lia.
    + injection Heq as <- <-. lia.
    + by eapply pk_marks0.
    + rewrite (Hsame j c Hj eq_refl) in Hw'. exfalso. apply Hne. apply NoDup_app in pk_once0 as (_ & _ & Hnd).
      by eapply busy_unique.
  - intros w' Hnc [(_ & Heq & _)|[_ Hw']]%list_lookup_insert_Some; [done|by eapply pk_gone0].
  - intros w' j m [(_ & Heq & _)|[_ Hw']]%list_lookup_insert_Some; [injection Heq as <- <-; lia|by eapply pk_marked0].
Qed.

Lemma pool_ok_finish p w i n c r :
  pool_ok p → PL_Workers p !! w = Some (Building i n) → combs !! i = Some c → result_for retries c r →
  pool_ok (tell (TResult r) (store_result i r (set_worker w Waiting p))).
Proof using Hcombs Hretries.
  intros [] Hw Hc Hr. pose proof (busy_clear _ w i n Waiting Hw eq_refl) as Hb.
  assert (attempts_told (PL_Told p ++ [TResult r]) = attempts_told (PL_Told p)) as Ha.
  { unfold attempts_told. rewrite omap_app. apply app_nil_r. }
  assert (r ≠ zero_result) as Hnz by (apply nonzero_result; by eapply result_for_facts).
  assert (i < length combs)%nat as Hi by (by eapply lookup_lt_Some).
  assert (∀ w' j m, <[w := Waiting]> (PL_Workers p) !! w' = Some (Building j m) → PL_Workers p !! w' = Some (Building j m)) as Hold.
  { intros w' j m [(_ & Heq & _)|[_ ?]]%list_lookup_insert_Some; done. }
  assert (NoDup (i :: PL_Queue p ++ busy (<[w := Waiting]> (PL_Workers p)))) as Hnd.
  { rewrite Permutation_middle, <- Hb. done. }
  apply NoDup_cons in Hnd as [Hni Hnd].
  split; cbn [tell store_result set_worker PL_Queue PL_Workers PL_Results PL_Cancelled PL_Told]; rewrite ?Ha; try done.
  - by rewrite length_insert.
  - intros j Hj. rewrite list_lookup_insert_ne by (intros ->; done). apply pk_pending0.
    rewrite Hb. apply elem_of_app in Hj as [Hj|Hj]; apply elem_of_app; [by left|right; by right].
  - intros j c' r' Hj [(<- & -> & _)|[_ Hr']]%list_lookup_insert_Some; [right; congruence|by eapply pk_own0].
  - intros j r' [(<- & -> & _)|[_ Hr']]%list_lookup_insert_Some Hne; apply elem_of_app;
      [right; left|left; by eapply pk_told0].
  - intros w' j m c' k Hw'. eapply pk_marks0; eauto.
  - intros j Hnc Hj. destruct (decide (j = i)) as [->|Hne].
    + right. exists r. split; [|done]. apply list_lookup_insert_eq. by rewrite pk_results0.
    + destruct (pk_kept0 j Hnc Hj) as [Hin|(r' & Hr' & Hz)].
      * left. rewrite Hb in Hin. apply elem_of_app in Hin as [?|[?|?]%elem_of_cons]; [|done|]; apply elem_of_app; auto.
      * right. exists r'. by rewrite list_lookup_insert_ne by done.
  - intros w' Hnc [(_ & Heq & _)|[_ Hw']]%list_lookup_insert_Some; [done|by eapply pk_gone0].
  - intros w' j m Hw'. eapply pk_marked0; eauto.
Qed.

Lemma pool_ok_discard p w i n :
  pool_ok p → PL_Workers p !! w = Some (Building i n) → PL_Cancelled p = true → pool_ok (set_worker w Waiting p).
Proof using.
  intros [] Hw Hc. pose proof (busy_clear _ w i n Waiting Hw eq_refl) as Hb.
  assert (∀ w' j m, <[w := Waiting]> (PL_Workers p) !! w' = Some (Building j m) → PL_Workers p !! w' = Some (Building j m)) as Hold.
  { intros w' j m [(_ & Heq & _)|[_ ?]]%list_lookup_insert_Some; done. }
  assert (NoDup (i :: PL_Queue p ++ busy (<[w := Waiting]> (PL_Workers p)))) as Hnd.
  { rewrite Permutation_middle, <- Hb. done. }
  apply NoDup_cons in Hnd as [Hni Hnd].
  split; cbn [set_worker PL_Queue PL_Workers PL_Results PL_Cancelled PL_Told]; try done; try congruence.
  - intros j Hj. apply pk_pending0. rewrite Hb. apply elem_of_app in Hj as [Hj|Hj]; apply elem_of_app; [by left|right; by right].
  - intros w' j m c' k Hw'. eapply pk_marks0; eauto.
  - intros w' j m Hw'. eapply pk_marked0; eauto.
Qed.

Lemma pstep_ok p l p' : pstep combs retries p l p' → pool_ok p → pool_ok p'.
Proof using Hcombs Hretries.
  destruct 1 as [w i rest p Hw Hq Hc|w i rest p Hw Hq Hc|w p Hw Hq|w i n c p Hw Hc Hn|w i n c r p Hw Hc Hr Hn Hs
    |w i n c r p Hw Hc Hr Hn Hca Hf|p Hc]; intros Hok.
  - by apply pool_ok_take.
  - eapply pool_ok_idle; [done|done|done|done| |by right|by left]. rewrite Hq. by apply sublist_cons.
  - replace (set_worker w Gone p) with (set_queue (PL_Queue p) (set_worker w Gone p)) by done.
    eapply pool_ok_idle; [done|done|done|done|done|by left|by right].
  - by apply pool_ok_attempt.
  - by eapply pool_ok_finish.
  - by eapply pool_ok_discard.
  - destruct Hok. split; cbn [cancel PL_Queue PL_Workers PL_Results PL_Cancelled PL_Told]; done.
Qed.

Lemma pool_reachable cfg ls p : steps (pstep combs retries) (start_pool cfg combs) ls p → pool_ok p.
Proof using Hcombs Hretries.
  intros H. eapply (steps_invariant (pstep combs retries) pool_ok); [apply pstep_ok|exact H|apply start_pool_ok].
Qed.
End PoolInvariant.



(** ** The end of an execution *)

Definition worker_cost (retries : Z) (x : Worker) : Z :=
  match x with Waiting => 1 | Building _ n => 3 + retries - Z.of_nat n | Gone => 0 end.

Definition pool_cost (retries : Z) (p : Pool) : Z :=
  (retries + 3) * len (PL_Queue p) + foldr (λ x a, worker_cost retries x + a) 0 (PL_Workers p) +
  (if PL_Cancelled p then 0 else 1).

Lemma workers_cost_insert retries ws w x y :
  ws !! w = Some y →
  foldr (λ x a, worker_cost retries x + a) 0 (<[w := x]> ws) =
  foldr (λ x a, worker_cost retries x + a) 0 ws - worker_cost retries y + worker_cost retries x.
Proof.
  revert w. induction ws as [|z ws IH]; intros [|w] H; [done|done| |].
  - injection H as ->. cbn [foldr insert list_insert]. lia.
  - change (<[S w := x]> (z :: ws)) with (z :: <[w := x]> ws). cbn [foldr]. rewrite (IH w H). lia.
Qed.

Lemma pstep_cost combs retries p l p' :
  0 ≤ retries → pool_ok combs retries p → pstep combs retries p l p' →
  pool_cost retries p' < pool_cost retries p.
Proof.
  intros Hr Hok. destruct 1 as [w i rest p Hw Hq Hc|w i rest p Hw Hq Hc|w p Hw Hq|w i n c p Hw Hc Hn|w i n c r p Hw Hc Hres Hn Hs
    |w i n c r p Hw Hc Hres Hn Hca Hf|p Hc]; unfold pool_cost;
    cbn [set_queue set_worker tell store_result cancel PL_Queue PL_Workers PL_Cancelled];
    rewrite ?(workers_cost_insert _ _ _ _ _ Hw); rewrite ?Hq, ?Hc; rewrite ?len_cons; cbn [worker_cost]; try lia.
  - pose proof (pk_marked _ _ _ Hok w i n Hw). destruct (PL_Cancelled p); lia.
  - pose proof (pk_marked _ _ _ Hok w i n Hw). destruct (PL_Cancelled p); lia.
Qed.

(** Some build of [n] attempts that ends well is possible, [n] being within the
    budget: the model does not stop where the code would go on. *)
Lemma attempts_possible c k : ∀ more attempt history,
  (k ≤ more)%nat →
  let build := λ n, if n <? attempt + Z.of_nat k then Returns (failed_result c "build failed")
                    else Returns (with_combination c zero_result) in
  let r := attempts_from (λ _, true) build (λ _, 0) c more attempt history in
  length (RE_Attempts r) = (length history + S k)%nat ∧ RE_Status r ≠ "failed".
Proof.
  induction k as [|k IH]; intros more attempt history Hk.
  - intros build r. unfold r, build. destruct more; cbn [attempts_from];
      replace (attempt <? attempt + Z.of_nat 0) with false by (symmetry; apply Z.ltb_ge; lia);
      cbn [runBuild]; destruct (isZeroCombination _); cbn; change ("" <>s "failed") with true;
      cbn; rewrite length_app; cbn; (split; [lia|done]).
  - destruct more as [|more]; [lia|]. intros build r. specialize (IH more (attempt + 1)
      (history ++ [mkAttempt attempt "failed" 0 (Some (New CodeBuildFailed "build failed"))]) ltac:(lia)). cbn zeta in IH.
    replace (attempt + 1 + Z.of_nat k) with (attempt + Z.of_nat (S k)) in IH by lia.
    assert (r = attempts_from (λ _, true) build (λ _, 0) c more (attempt + 1)
      (history ++ [mkAttempt attempt "failed" 0 (Some (New CodeBuildFailed "build failed"))])) as ->.
    { assert (runBuild c (build attempt) = failed_result c "build failed") as Hb.
      { unfold build. replace (attempt <? attempt + Z.of_nat (S k)) with true by (symmetry; apply Z.ltb_lt; lia).
        cbn [runBuild]. by destruct (isZeroCombination _). }
      unfold r. cbn [attempts_from]. rewrite Hb. reflexivity. }
    fold build in IH. rewrite length_app in IH. cbn in IH. destruct IH as [IH1 IH2]. split; [lia|done].
Qed.

Lemma result_possible retries c n :
  0 ≤ retries → (1 ≤ n)%nat → Z.of_nat n ≤ 1 + retries →
  ∃ r, result_for retries c r ∧ length (RE_Attempts r) = n ∧ RE_Status r ≠ "failed".
Proof.
  intros Hr Hn Hle. destruct (attempts_possible c (n - 1) (Z.to_nat retries) 1 [] ltac:(lia)) as [Hl Hs].
  eexists; split; [do 3 eexists; split; [|reflexivity]|split; [unfold executeWithRetries; rewrite Hl; cbn; lia|done]].
  intros m. cbn. destruct (m <? _); cbn; by right.
Qed.

Lemma pool_progress combs retries p :
  0 ≤ retries → pool_ok combs retries p → ended p ∨ ∃ p', pstep combs retries p tt p'.
Proof.
  intros Hr Hok. destruct (decide (Forall (λ x, x = Gone) (PL_Workers p))) as [Hall|Hex].
  { left. intros w x Hw. rewrite Forall_lookup in Hall. by eapply Hall. }
  right. apply not_Forall_Exists in Hex; [|apply _].
  apply Exists_exists in Hex as (x & Hx & Hg). apply list_elem_of_lookup in Hx as [w Hw]. cbn in Hg.
  destruct x as [|i n|]; [| |done].
  - destruct (PL_Queue p) as [|i rest] eqn:Eq; [eexists; by eapply ps_drained|].
    destruct (PL_Cancelled p) eqn:Ec; eexists; [by eapply ps_take_cancelled|by eapply ps_take].
  - assert (i < length combs)%nat as Hi.
    { apply (pk_pending _ _ _ Hok i). apply elem_of_app. right. by eapply elem_of_busy. }
    destruct (lookup_lt_is_Some_2 combs i Hi) as [c Hc]. destruct n as [|n].
    + eexists. eapply ps_attempt; [done|done|lia].
    + destruct (result_possible retries c (S n) Hr ltac:(lia) (pk_marked _ _ _ Hok w i (S n) Hw)) as (r & Hres & Hl & Hs).
      eexists. eapply ps_finish; [done|done|done|done|by right].
Qed.

Lemma workers_replicate_cost retries k : foldr (λ x a, worker_cost retries x + a) 0 (replicate k Waiting) = Z.of_nat k.
Proof. induction k as [|k IH]; [done|]. cbn [replicate foldr]. rewrite IH. cbn [worker_cost]. lia. Qed.

(** An execution ends: however the workers interleave and whenever it is
    cancelled, it makes at most one step per attempt of the budget, and a few
    per combination and worker; and as long as a worker runs, one can go on. *)
Theorem executions_end combs retries cfg ls p :
  NoDup combs → 0 ≤ retries → steps (pstep combs retries) (start_pool cfg combs) ls p →
  len ls ≤ (retries + 3) * len combs + Z.of_nat (workers_of cfg) + 1 ∧
  (ended p ∨ ∃ p', pstep combs retries p tt p').
Proof.
  intros Hn Hr Hs. split; [|apply pool_progress; [done|by eapply pool_reachable]].
  assert (∀ p0, pool_ok combs retries p0 → steps (pstep combs retries) p0 ls p → len ls + pool_cost retries p ≤ pool_cost retries p0) as H.
  { clear Hs. intros p0 Hok H. induction H as [|p0 l p1 ls p2 Hstep _ IH]; [unfold len; cbn; lia|].
    pose proof (pstep_cost _ _ _ _ _ Hr Hok Hstep). specialize (IH (pstep_ok _ _ Hn Hr _ _ _ Hstep Hok)).
    rewrite len_cons. lia. }
  specialize (H _ (start_pool_ok combs retries cfg) Hs).
  assert (0 ≤ pool_cost retries p) as H0.
  { pose proof (pool_reachable combs retries Hn Hr cfg ls p Hs) as Hok. unfold pool_cost. pose proof (len_nonneg (PL_Queue p)).
    assert (0 ≤ foldr (λ x a, worker_cost retries x + a) 0 (PL_Workers p)) as Hw; [|destruct (PL_Cancelled p); nia].
    assert (∀ w i m, PL_Workers p !! w = Some (Building i m) → Z.of_nat m ≤ 1 + retries) as Hm by apply Hok.
    clear -Hm Hr. induction (PL_Workers p) as [|x ws IH]; [done|]. cbn [foldr].
    assert (0 ≤ worker_cost retries x).
    { destruct x as [|i m|]; cbn; [lia| |lia]. specialize (Hm 0%nat i m eq_refl). lia. }
    assert (0 ≤ foldr (λ x a, worker_cost retries x + a) 0 ws); [|lia]. apply IH. intros w i m. apply (Hm (S w)). }
  assert (pool_cost retries (start_pool cfg combs) = (retries + 3) * len combs + Z.of_nat (workers_of cfg) + 1) as Hstart; [|lia].
  unfold pool_cost, start_pool. cbn [PL_Queue PL_Workers PL_Cancelled]. rewrite workers_replicate_cost.
  unfold len. by rewrite length_seq.
Qed.

(** ** Samples *)

Module ExecSamples.
Definition c1 : Combination := of_platform Go "1.22" "linux/amd64".
Definition transient : error := New CodeNetwork "connection reset".
(** The first attempt meets a network error, the second succeeds. *)
Definition flaky (n : Z) : Build :=
  if n =? 1 then Returns (mkResult c1 "failed" 0 "" (Some transient) "" "" "" [])
  else Returns (mkResult c1 "success" 0 "/out/app" None "" "" "" []).
Definition r1 : Result := executeWithRetries DefaultRetryClassifier flaky (λ _, 7) c1 1.

Lemma flaky_own n : own c1 (flaky n).
Proof. unfold flaky. destruct (n =? 1); by right. Qed.

Lemma retries_follow_the_policy_witness : RE_Status r1 = "success" ∧ RE_Combination r1 = c1.
Proof.
  split; [vm_compute; reflexivity|].
  exact (proj1 (retries_follow_the_policy DefaultRetryClassifier flaky (λ _, 7) c1 1 flaky_own)).
Defined.

(** One worker, one combination: it is taken, attempted twice and finished. *)
Definition one : ExecutorConfig := mkExec 1 false 1.
Definition after_take : Pool := set_queue [] (set_worker 0 (Building 0 0) (start_pool one [c1])).
Definition after_first : Pool := tell (TAttempt c1 1) (set_worker 0 (Building 0 1) after_take).
Definition after_second : Pool := tell (TAttempt c1 2) (set_worker 0 (Building 0 2) after_first).
Definition after_result : Pool := tell (TResult r1) (store_result 0 r1 (set_worker 0 Waiting after_second)).
Definition at_end : Pool := set_worker 0 Gone after_result.

Lemma one_combination : steps (pstep [c1] 1) (start_pool one [c1]) [tt; tt; tt; tt; tt] at_end.
Proof.
  eapply steps_cons; [apply (ps_take _ _ 0 0 []); reflexivity|]. fold after_take.
  eapply steps_cons; [apply (ps_attempt _ _ 0 0 0 c1); [reflexivity|reflexivity|lia]|]. fold after_first.
  eapply steps_cons; [apply (ps_attempt _ _ 0 0 1 c1); [reflexivity|reflexivity|lia]|]. fold after_second.
  eapply steps_cons; [apply (ps_finish _ _ 0 0 2 c1 r1); [reflexivity|reflexivity| |reflexivity|left; reflexivity]|].
  { exists DefaultRetryClassifier, flaky, (λ _, 7). split; [apply flaky_own|reflexivity]. }
  eapply steps_cons; [apply (ps_drained _ _ 0); reflexivity|]. apply steps_nil.
Qed.

Lemma one_NoDup : NoDup [c1].
Proof. apply NoDup_singleton. Qed.


Lemma executions_end_witness :
  len [tt; tt; tt; tt; tt] ≤ (1 + 3) * len [c1] + Z.of_nat (workers_of one) + 1.
Proof.
  destruct (executions_end [c1] 1 one [tt; tt; tt; tt; tt] at_end one_NoDup ltac:(lia) one_combination) as [H _]. exact H.
Defined.
End ExecSamples.
