(* ===== verification/MatrixRun.v ===== *)
(** * MatrixRun: one execution of the build matrix and its record
      (src/internal/matrix: run.go, manifest.go, report.go)

    A run holds one entry per combination with its outcome, and counters.  The
    entries are told attempts and results by the executor; a run is finalized,
    resumed, retried, reported and described by a release manifest.  Times are
    nanoseconds; a text that [Redact] cannot process is left empty. *)

From S2P Require Import Prelude GoLib GoText MatrixPlan MatrixExec Redact Errors.

(** ** Identifiers of runs *)

(* src: internal/matrix/run.go runIDPattern *)
Definition runIDPattern : re :=
  RSeq (RLit "mx_") (RSeq (RRepeat 8 (RClass cls_digit)) (RSeq (RLit "_") (RRepeat 4 (RClass cls_hex)))).

(* src: internal/matrix/run.go ParseRunID *)
Definition ParseRunID (s : string) : res string :=
  if negb (match_string runIDPattern s)
  then Err (New CodeInvalidArgument ("invalid matrix run ID " +:+ Quote s +:+
         " — expected format mx_YYYYMMDD_xxxx (e.g. mx_20260909_8f31); see 'phelix matrix list'"))
  else Ok s.

(** [date] is the day of the clock, [nanos] its nanoseconds; [entropy] is [None]
    when the source of randomness fails. *)
(* src: internal/matrix/run.go NewRunID *)
Definition NewRunID (date : string) (nanos : Z) (entropy : option (Z * Z)) : string :=
  let '(a, b) := default (Z.shiftr nanos 8 mod 256, nanos mod 256) entropy in
  "mx_" +:+ date +:+ "_" +:+ hex_encode (bytes_be 1 a ++ bytes_be 1 b).

(** Eight tries; [taken id] is the error of loading the run [id]. *)
(* src: internal/matrix/run.go NewUniqueRunID *)
Fixpoint NewUniqueRunID (tries : nat) (mint : nat → string) (taken : string → option error) : string :=
  match tries with
  | O => mint O
  | S n => if IsCode (taken (mint tries)) CodeNotFound then mint tries else NewUniqueRunID n mint taken
  end.

(** ** The data of a run *)

Definition RunStatusRunning : string := "running".
Definition RunStatusSucceeded : string := "succeeded".
Definition RunStatusPartial : string := "partial".
Definition RunStatusFailed : string := "failed".
Definition RunStatusInterrupted : string := "interrupted".

(* src: internal/matrix/run.go IsTerminalRunStatus *)
Definition IsTerminalRunStatus (s : string) : bool :=
  bool_decide (s ∈ [RunStatusSucceeded; RunStatusPartial; RunStatusFailed]).

(* src: internal/matrix/run.go RunConfig *)
Record RunConfig := mkRunConfig {
  CF_Lang : string; CF_Versions : list string; CF_Platforms : list string; CF_Concurrency : Z;
  CF_Include : list Rule; CF_Exclude : list Rule; CF_Retries : Z; CF_BuildArgs : list string; CF_Sources : ProfileSource
}.
Definition no_config : RunConfig := mkRunConfig "" [] [] 0 [] [] 0 [] no_source.

(* src: internal/matrix/run.go RunConfig.Profile *)
Definition config_profile (c : RunConfig) : Profile :=
  mkProfile (ParseLanguage (CF_Lang c)) (CF_Versions c) (CF_Platforms c)
    (if CF_Concurrency c <=? 0 then DefaultConcurrency else CF_Concurrency c)
    (CF_Include c) (CF_Exclude c) (CF_Retries c) no_source.

(* src: internal/matrix/run.go RunAttempt *)
Record RunAttempt := mkRunAttempt { RA_Number : Z; RA_Status : string; RA_Duration : string; RA_Error : string }.

(* src: internal/matrix/run.go RunCombination *)
Record RunCombination := mkRunCombination {
  RC_ID : string; RC_Identity : string; RC_Toolchain : string; RC_Version : string; RC_OS : string; RC_Arch : string;
  RC_Variant : string; RC_Platform : string; RC_Status : string; RC_Duration : string; RC_Artifact : string;
  RC_SHA256 : string; RC_StartedAt : option Z; RC_Error : string; RC_CacheStatus : string; RC_Attempts : Z;
  RC_AttemptLog : list RunAttempt; RC_Metadata : gmap string string
}.

(* src: internal/matrix/run.go RunCombination.Combination *)
Definition rc_combination (rc : RunCombination) : Combination :=
  mkCombination (ParseLanguage (RC_Toolchain rc)) (RC_Version rc) (RC_OS rc) (RC_Arch rc) (RC_Variant rc) (RC_Platform rc)
    (RC_Metadata rc).

(* src: internal/matrix/run.go Run *)
Record Run := mkRun {
  RN_ID : string; RN_AppName : string; RN_ProjectDir : string; RN_Status : string; RN_Config : RunConfig;
  RN_StartedAt : Z; RN_FinishedAt : option Z; RN_Duration : string;
  RN_Total : Z; RN_Succeeded : Z; RN_Failed : Z; RN_Skipped : Z; RN_Incomplete : Z;
  RN_Combinations : list RunCombination; RN_ParentRunID : string; RN_ResumeCount : Z
}.

Definition with_entries (l : list RunCombination) (r : Run) : Run :=
  mkRun (RN_ID r) (RN_AppName r) (RN_ProjectDir r) (RN_Status r) (RN_Config r) (RN_StartedAt r) (RN_FinishedAt r)
    (RN_Duration r) (RN_Total r) (RN_Succeeded r) (RN_Failed r) (RN_Skipped r) (RN_Incomplete r) l (RN_ParentRunID r)
    (RN_ResumeCount r).
Definition with_counts (ok failed skipped incomplete : Z) (r : Run) : Run :=
  mkRun (RN_ID r) (RN_AppName r) (RN_ProjectDir r) (RN_Status r) (RN_Config r) (RN_StartedAt r) (RN_FinishedAt r)
    (RN_Duration r) (RN_Total r) ok failed skipped incomplete (RN_Combinations r) (RN_ParentRunID r) (RN_ResumeCount r).
Definition with_total (n : Z) (r : Run) : Run :=
  mkRun (RN_ID r) (RN_AppName r) (RN_ProjectDir r) (RN_Status r) (RN_Config r) (RN_StartedAt r) (RN_FinishedAt r)
    (RN_Duration r) n (RN_Succeeded r) (RN_Failed r) (RN_Skipped r) (RN_Incomplete r) (RN_Combinations r) (RN_ParentRunID r)
    (RN_ResumeCount r).
Definition with_status (s : string) (r : Run) : Run :=
  mkRun (RN_ID r) (RN_AppName r) (RN_ProjectDir r) s (RN_Config r) (RN_StartedAt r) (RN_FinishedAt r)
    (RN_Duration r) (RN_Total r) (RN_Succeeded r) (RN_Failed r) (RN_Skipped r) (RN_Incomplete r) (RN_Combinations r)
    (RN_ParentRunID r) (RN_ResumeCount r).
Definition with_finish (t : Z) (d : string) (r : Run) : Run :=
  mkRun (RN_ID r) (RN_AppName r) (RN_ProjectDir r) (RN_Status r) (RN_Config r) (RN_StartedAt r) (Some t)
    d (RN_Total r) (RN_Succeeded r) (RN_Failed r) (RN_Skipped r) (RN_Incomplete r) (RN_Combinations r) (RN_ParentRunID r)
    (RN_ResumeCount r).
Definition with_config (c : RunConfig) (parent : string) (r : Run) : Run :=
  mkRun (RN_ID r) (RN_AppName r) (RN_ProjectDir r) (RN_Status r) c (RN_StartedAt r) (RN_FinishedAt r)
    (RN_Duration r) (RN_Total r) (RN_Succeeded r) (RN_Failed r) (RN_Skipped r) (RN_Incomplete r) (RN_Combinations r)
    parent (RN_ResumeCount r).

(* src: internal/matrix/run.go NewRun *)
Definition NewRun (id appName projectDir : string) (prof : option Profile) (started : Z) : Run :=
  let config := match prof with
    | Some p => mkRunConfig (PF_Lang p) (PF_Versions p) (PF_Platforms p) (PF_Concurrency p) (PF_Include p) (PF_Exclude p)
                  (PF_Retries p) [] (PF_Source p)
    | None => no_config
    end in
  mkRun id appName projectDir RunStatusRunning config started None "" 0 0 0 0 0 [] "" 0.

(* src: internal/matrix/run.go:282-288 NewRetryRun *)
Definition retry_of (id : string) (s : Run) (started : Z) : Run :=
  with_config (RN_Config s) (RN_ID s) (NewRun id (RN_AppName s) (RN_ProjectDir s) None started).

(* src: internal/matrix/run.go NewRetryRun *)
Definition NewRetryRun (id : string) (source : option Run) (started : Z) : option Run :=
  match source with None => None | Some s => Some (retry_of id s started) end.

(** ** Counters *)

(** The four groups the counters tell apart. *)
Inductive Group := GSuccess | GFailed | GSkipped | GIncomplete.

#[export] Instance Group_eq_dec : EqDecision Group.
Proof. solve_decision. Defined.

Definition group_of (status : string) : Group :=
  if status =s "success" then GSuccess else if status =s "failed" then GFailed
  else if status =s "skipped" then GSkipped else GIncomplete.

Definition add_count (status : string) (n : Z) (r : Run) : Run :=
  match group_of status with
  | GSuccess => with_counts (RN_Succeeded r + n) (RN_Failed r) (RN_Skipped r) (RN_Incomplete r) r
  | GFailed => with_counts (RN_Succeeded r) (RN_Failed r + n) (RN_Skipped r) (RN_Incomplete r) r
  | GSkipped => with_counts (RN_Succeeded r) (RN_Failed r) (RN_Skipped r + n) (RN_Incomplete r) r
  | GIncomplete => with_counts (RN_Succeeded r) (RN_Failed r) (RN_Skipped r) (RN_Incomplete r + n) r
  end.

(* src: internal/matrix/run.go Run.uncountLocked *)
Definition uncountLocked (status : string) : Run → Run := add_count status (-1).
(* src: internal/matrix/run.go Run.countLocked *)
Definition countLocked (status : string) : Run → Run := add_count status 1.

Definition count_group (g : Group) (l : list RunCombination) : Z :=
  len (List.filter (λ rc, bool_decide (group_of (RC_Status rc) = g)) l).

(* src: internal/matrix/run.go Run.recountLocked *)
Definition recountLocked (r : Run) : Run :=
  let l := RN_Combinations r in
  with_counts (count_group GSuccess l) (count_group GFailed l) (count_group GSkipped l) (count_group GIncomplete l) r.

(* src: internal/matrix/run.go StatusCounters *)
Record StatusCounters := mkStatusCounters {
  SC_Total : Z; SC_Succeeded : Z; SC_Failed : Z; SC_Skipped : Z; SC_Running : Z; SC_Pending : Z
}.

(* src: internal/matrix/run.go StatusCounters.Complete *)
Definition Complete (c : StatusCounters) : Z := SC_Succeeded c + SC_Failed c + SC_Skipped c.

(* src: internal/matrix/run.go Run.countersLocked *)
Definition SnapshotCounters (r : Run) : StatusCounters :=
  let l := RN_Combinations r in
  let running := len (List.filter (λ rc, RC_Status rc =s "running") l) in
  mkStatusCounters (len l) (count_group GSuccess l) (count_group GFailed l) (count_group GSkipped l) running
    (count_group GIncomplete l - running).

(** ** Entries *)

(* src: internal/matrix/run.go Run.newRunCombination *)
Definition newRunCombination (runID : string) (c : Combination) : RunCombination :=
  mkRunCombination (ID c) (runID +:+ "/" +:+ ID c) (C_Lang c) (C_Version c) (C_OS c) (C_Arch c) (C_Variant c) (C_Platform c)
    "pending" "" "" "" None "" "" 0 [] (C_Metadata c).

(* src: internal/matrix/run.go:302-308 Run.InitCombinations *)
Fixpoint seed_entries (runID : string) (existing : gset string) (combs : list Combination) : list RunCombination :=
  match combs with
  | [] => []
  | c :: rest =>
      if bool_decide (ID c ∈ existing) then seed_entries runID existing rest
      else newRunCombination runID c :: seed_entries runID ({[ID c]} ∪ existing) rest
  end.

(* src: internal/matrix/run.go Run.InitCombinations *)
Definition InitCombinations (combs : list Combination) (r : Run) : Run :=
  let l := RN_Combinations r ++ seed_entries (RN_ID r) (list_to_set (RC_ID <$> RN_Combinations r)) combs in
  recountLocked (with_total (len l) (with_entries l r)).

Section Outcomes.
(** What the redaction of errors needs (file Redact). *)
Variables (lower_rune : string → string) (g : secretRegistry).

Definition redacted (e : error) : string := default "" (Redact.Redact lower_rune g (Error e)).
Definition shown (d m : Z) : string := duration_string (duration_round d m).

(* src: internal/matrix/run.go:413-423 Run.combinationEntry *)
Definition run_attempt (a : Attempt) : RunAttempt :=
  mkRunAttempt (AT_Number a) (AT_Status a) (shown (AT_Duration a) Millisecond)
    (match AT_Error a with Some e => redacted e | None => "" end).

(** The outcome fields of a result, over the fields of [rc] that stay. *)
(* src: internal/matrix/run.go Run.combinationEntry *)
Definition with_outcome (res : Result) (rc : RunCombination) : RunCombination :=
  mkRunCombination (RC_ID rc) (RC_Identity rc) (RC_Toolchain rc) (RC_Version rc) (RC_OS rc) (RC_Arch rc) (RC_Variant rc)
    (RC_Platform rc) (RE_Status res) (shown (RE_Duration res) Millisecond) (RE_Artifact res) (RE_SHA256 res) (RC_StartedAt rc)
    (match RE_Error res with Some e => redacted e | None => "" end) (RE_CacheStatus res)
    (if ((len (RE_Attempts res) =? 0) && (RE_Status res <>s ""))%bool then 1 else len (RE_Attempts res))
    (run_attempt <$> RE_Attempts res) (RC_Metadata rc).

(** The index of the first entry with an identifier. *)
Fixpoint find_entry (id : string) (l : list RunCombination) : option nat :=
  match l with
  | [] => None
  | rc :: rest => if RC_ID rc =s id then Some O else S <$> find_entry id rest
  end.

(* src: internal/matrix/run.go Run.RecordResult *)
Definition RecordResult (res : Result) (r : Run) : Run :=
  match find_entry (ID (RE_Combination res)) (RN_Combinations r) with
  | None => r
  | Some i =>
      match RN_Combinations r !! i with
      | None => r
      | Some rc =>
          let r := uncountLocked (RC_Status rc) r in
          let r := with_entries (<[i := with_outcome res rc]> (RN_Combinations r)) r in
          countLocked (RE_Status res) r
      end
  end.

(* src: internal/matrix/run.go:381-390 Run.MarkRunning *)
Definition started_entry (attempt started : Z) (rc : RunCombination) : RunCombination :=
  mkRunCombination (RC_ID rc) (RC_Identity rc) (RC_Toolchain rc) (RC_Version rc) (RC_OS rc) (RC_Arch rc) (RC_Variant rc)
    (RC_Platform rc) "running" "" "" "" (Some started) "" "" (if 0 <? attempt then attempt else RC_Attempts rc)
    (RC_AttemptLog rc) (RC_Metadata rc).

Definition final (status : string) : bool := bool_decide (group_of status ≠ GIncomplete).

(* src: internal/matrix/run.go Run.MarkRunning *)
Definition MarkRunning (id : string) (attempt started : Z) (r : Run) : Run :=
  match find_entry id (RN_Combinations r) with
  | None => r
  | Some i =>
      match RN_Combinations r !! i with
      | None => r
      | Some rc =>
          if final (RC_Status rc) then r
          else
            let r := uncountLocked (RC_Status rc) r in
            let r := with_entries (<[i := started_entry attempt started rc]> (RN_Combinations r)) r in
            countLocked "running" r
      end
  end.

(* src: internal/matrix/run.go Run.CombinationEntry *)
Definition CombinationEntry (id : string) (r : Run) : option RunCombination :=
  find_entry id (RN_Combinations r) ≫= λ i, RN_Combinations r !! i.

(** ** The status of a run *)

(* src: internal/matrix/run.go Run.computeStatusLocked *)
Definition computeStatusLocked (r : Run) : Run :=
  with_status
    (if RN_Total r =? 0 then RunStatusFailed
     else if 0 <? RN_Incomplete r then RunStatusInterrupted
     else if RN_Failed r =? 0 then RunStatusSucceeded
     else if RN_Succeeded r =? 0 then RunStatusFailed
     else RunStatusPartial) r.

(* src: internal/matrix/run.go Run.Finalize *)
Definition Finalize (finished : Z) (r : Run) : Run :=
  let r := with_finish finished (shown (finished - RN_StartedAt r) Second) r in
  computeStatusLocked (recountLocked (with_total (len (RN_Combinations r)) r)).

(* src: internal/matrix/run.go Run.Finish *)
Definition Finish (results : list Result) (finished : Z) (r : Run) : Run :=
  let r := with_finish finished (shown (finished - RN_StartedAt r) Second) r in
  let l := (λ res, with_outcome res (newRunCombination (RN_ID r) (RE_Combination res))) <$> results in
  computeStatusLocked (recountLocked (with_total (len results) (with_entries l r))).
End Outcomes.

(* src: internal/matrix/run.go:553-556 Run.IncompleteCombinations *)
Definition incomplete (rc : RunCombination) : bool :=
  bool_decide (RC_Status rc ∈ ["pending"; "running"; ""]).

(* src: internal/matrix/run.go Run.Resumable *)
Definition Resumable (r : option Run) : bool :=
  match r with
  | None => false
  | Some r => if IsTerminalRunStatus (RN_Status r) then false else existsb incomplete (RN_Combinations r)
  end.

(* src: internal/matrix/run.go Run.IncompleteCombinations *)
Definition IncompleteCombinations (r : Run) : list Combination :=
  rc_combination <$> List.filter incomplete (RN_Combinations r).

(* src: internal/matrix/run.go Run.FailedCombinations *)
Definition FailedCombinations (r : Run) : list Combination :=
  rc_combination <$> List.filter (λ rc, RC_Status rc =s "failed") (RN_Combinations r).
