(* ===== verification/MatrixHistory.v ===== *)
(** * MatrixHistory: the runs of the build matrix on disk
      (src/internal/matrix: history.go, journal.go, manifest.go, report.go)

    A run is one record, rewritten as a whole, beside an append-only journal of
    the entries that changed since, and a release manifest.  Records and
    manifests are files of [FileStore]; the journal is modelled at the grain a
    write can be cut at: a line is the list of what ended up on it. *)

From S2P Require Import Prelude GoLib GoText FileStore MatrixPlan MatrixExec MatrixRun Redact Errors.

(** ** The journal *)

(** A whole entry, or the first [n] bytes of one: no JSON value by itself or
    with anything after it. *)
(* src: internal/matrix/journal.go journalEntry *)
Inductive piece := Whole (e : RunCombination) | Cut (n : Z).

(** Lines that end in a newline, and what follows the last newline. *)
Record Journal := mkJournal { JL_Lines : list (list piece); JL_Open : list piece }.
Definition empty_journal : Journal := mkJournal [] [].

Definition journalMaxLine : Z := 4 * 1024 * 1024.

(** What becomes of one append: no file, [n] bytes and an error (or a crash),
    everything. *)
Inductive append_io := AppendNoOpen (text : string) | AppendShort (n : Z) (text : string) | AppendAll.

Section Journal.
(** The length of an entry's JSON object, without the newline. *)
Variable json_len : RunCombination → Z.

Definition write_entry (n : Z) (e : RunCombination) (j : Journal) : Journal :=
  if n <=? 0 then j
  else if n <? json_len e then mkJournal (JL_Lines j) (JL_Open j ++ [Cut n])
  else if n =? json_len e then mkJournal (JL_Lines j) (JL_Open j ++ [Whole e])
  else mkJournal (JL_Lines j ++ [JL_Open j ++ [Whole e]]) [].

(* src: internal/matrix/journal.go appendJournal *)
Definition appendJournal (io : append_io) (id : string) (e : RunCombination) (j : option Journal) : res unit * option Journal :=
  let file := default empty_journal j in
  match io with
  | AppendNoOpen t => (Err (wrap CodeFilesystem ("open matrix run journal " +:+ id) (Foreign t None)), j)
  | AppendShort n t =>
      (Err (wrap CodeFilesystem ("append matrix run journal " +:+ id) (Foreign t None)), Some (write_entry n e file))
  | AppendAll => (Ok tt, Some (write_entry (json_len e + 1) e file))
  end.

Definition piece_len (p : piece) : Z := match p with Whole e => json_len e | Cut n => n end.
Definition line_len (l : list piece) : Z := foldr (λ p n, piece_len p + n) 0 l.

(** The scanner ends at the first line its buffer cannot hold. *)
Fixpoint scanned (ls : list (list piece)) : list (list piece) :=
  match ls with
  | [] => []
  | l :: rest => if line_len l <? journalMaxLine then l :: scanned rest else []
  end.

Definition lines_of (j : Journal) : list (list piece) :=
  JL_Lines j ++ (if bool_decide (JL_Open j = []) then [] else [JL_Open j]).

Definition decode_line (l : list piece) : option RunCombination :=
  match l with [Whole e] => Some e | _ => None end.

(** Of entries with one identifier the index holds the last. *)
(* src: internal/matrix/journal.go:72-75 replayJournal *)
Definition entry_index (ids : list string) : gmap string nat := list_to_map (reverse (zip ids (seq 0 (length ids)))).

(* src: internal/matrix/journal.go:80-91 replayJournal *)
Definition replay_line (index : gmap string nat) (st : list RunCombination * bool) (l : list piece) : list RunCombination * bool :=
  match decode_line l with
  | None => st
  | Some e =>
      match index !! RC_ID e with
      | None => st
      | Some i => (<[i := e]> st.1, true)
      end
  end.

(** [None]: the journal is missing or cannot be opened. *)
(* src: internal/matrix/journal.go replayJournal *)
Definition replayJournal (j : option Journal) (r : Run) : Run :=
  match j with
  | None => r
  | Some j =>
      let index := entry_index (RC_ID <$> RN_Combinations r) in
      let '(l, applied) := foldl (replay_line index) (RN_Combinations r, false) (scanned (lines_of j)) in
      if applied then recountLocked (with_entries l r) else r
  end.
End Journal.

(** ** Release manifests *)

(* src: internal/matrix/manifest.go ManifestArtifact *)
Record ManifestArtifact := mkArtifact {
  MA_CombinationID : string; MA_Identity : string; MA_Toolchain : string; MA_Version : string; MA_Platform : string;
  MA_OS : string; MA_Arch : string; MA_Variant : string; MA_Artifact : string; MA_SizeBytes : Z; MA_SHA256 : string
}.

(* src: internal/matrix/manifest.go ReleaseManifest *)
Record ReleaseManifest := mkManifest {
  MM_SchemaVersion : Z; MM_AppName : string; MM_Version : Z; MM_Tag : string; MM_MatrixRunID : string; MM_CreatedAt : Z;
  MM_Status : string; MM_TotalCombinations : Z; MM_Language : string; MM_ToolchainVersions : list string;
  MM_Platforms : list string; MM_Artifacts : list ManifestArtifact
}.

Definition ReleaseStatusComplete : string := "complete".
Definition ReleaseStatusPartial : string := "partial".

(** [size]: what [stat] says of a path, if anything. *)
(* src: internal/matrix/manifest.go fileSizeOf *)
Definition fileSizeOf (size : string → option Z) (path : string) : Z := default 0 (size path).

Definition artifact_of (size : string → option Z) (rc : RunCombination) : ManifestArtifact :=
  mkArtifact (RC_ID rc) (RC_Identity rc) (RC_Toolchain rc) (RC_Version rc) (RC_Platform rc) (RC_OS rc) (RC_Arch rc)
    (RC_Variant rc) (RC_Artifact rc) (fileSizeOf size (RC_Artifact rc)) (RC_SHA256 rc).

(* src: internal/matrix/manifest.go:135-153 BuildReleaseManifest *)
Fixpoint released (seen : gset string) (l : list RunCombination) : list RunCombination :=
  match l with
  | [] => []
  | rc :: rest =>
      if ((RC_Status rc <>s "success") || (RC_Artifact rc =s "") || bool_decide (RC_ID rc ∈ seen))%bool
      then released seen rest
      else rc :: released ({[RC_ID rc]} ∪ seen) rest
  end.

(* src: internal/matrix/manifest.go BuildReleaseManifest *)
Definition BuildReleaseManifest (size : string → option Z) (run : option Run) (version : Z) (tag : string) (createdAt : Z)
    : res ReleaseManifest :=
  match run with
  | None => Err (New CodeInvalidArgument "matrix: cannot build a release manifest for a nil run")
  | Some r =>
      if version <=? 0 then Err (New CodeInvalidArgument ("matrix run " +:+ RN_ID r +:+
           " was not recorded as an application version — no release manifest"))
      else
        let status := if RN_Status r =s RunStatusSucceeded then Some ReleaseStatusComplete
                      else if RN_Status r =s RunStatusPartial then Some ReleaseStatusPartial else None in
        match status with
        | None => Err (New CodeInvalidArgument ("matrix run " +:+ RN_ID r +:+ " has no release manifest (status: " +:+
             RN_Status r +:+ ") — only finished runs with successful artifacts form a release"))
        | Some status =>
            let artifacts := artifact_of size <$> released ∅ (RN_Combinations r) in
            if bool_decide (artifacts = [])
            then Err (New CodeInvalidArgument ("matrix run " +:+ RN_ID r +:+
                   " produced no verifiable artifacts — no release manifest"))
            else Ok (mkManifest 1 (RN_AppName r) version tag (RN_ID r) createdAt status (len (RN_Combinations r))
                   (CF_Lang (RN_Config r)) (CF_Versions (RN_Config r)) (CF_Platforms (RN_Config r))
                   (sort_by (λ x y, String.ltb (MA_CombinationID x) (MA_CombinationID y)) artifacts))
        end
  end.

(** ** The files of the runs directory *)

Record Store := mkStore {
  ST_Runs : gmap string (content Run); ST_Journals : gmap string Journal;
  ST_Manifests : gmap string (content ReleaseManifest); ST_Locks : gmap string string
}.
Definition no_runs : Store := mkStore ∅ ∅ ∅ ∅.

Definition with_runs (m : gmap string (content Run)) (s : Store) : Store :=
  mkStore m (ST_Journals s) (ST_Manifests s) (ST_Locks s).
Definition with_journals (m : gmap string Journal) (s : Store) : Store :=
  mkStore (ST_Runs s) m (ST_Manifests s) (ST_Locks s).
Definition with_manifests (m : gmap string (content ReleaseManifest)) (s : Store) : Store :=
  mkStore (ST_Runs s) (ST_Journals s) m (ST_Locks s).

Definition run_file (id : string) : string := id +:+ ".json".
Definition manifest_file (id : string) : string := id +:+ ".manifest.json".

(* src: internal/matrix/history.go RunsDir *)
Definition RunsDir (data_dir : string) (in_docker : bool) (home : res string) : res string :=
  base ← (if data_dir <>s "" then Ok data_dir
          else if in_docker then Ok "/var/lib/phelix"
          else match home with
               | Err e => Err (wrap CodeFilesystem "cannot locate the phelix data directory" e)
               | Ok h => Ok (h +:+ "/.phelix")
               end);
  Ok (base +:+ "/matrix/runs").

Definition valid_id (id : string) : res unit := _ ← ParseRunID id; Ok tt.

(** The open, the write: a run that cannot be written stays behind. *)
(* src: internal/matrix/history.go:55-76 SaveRun *)
Definition save_prog (r : Run) : list (guarded Run) :=
  let failed := "write matrix run " +:+ RN_ID r in
  [ must SMkdir CodeFilesystem "create matrix runs directory" [];
    {| call := SCreate (run_file (RN_ID r)); fatal := true;
       on_err := λ e, match e with
         | ErrExist => New CodeAlreadyExists ("matrix run " +:+ RN_ID r +:+ " already exists")
         | _ => wrap CodeFilesystem failed (os_err e)
         end;
       cleanup := [] |};
    must (SWrite (run_file (RN_ID r)) r) CodeFilesystem failed [SClose] ].

(* src: internal/matrix/history.go SaveRun *)
Definition SaveRun (fl : faults) (run : option Run) (s : Store) : res unit * Store :=
  match run with
  | None => (Err (New CodeInvalidArgument "matrix: cannot save a nil run"), s)
  | Some r =>
      match valid_id (RN_ID r) with
      | Err e => (Err e, s)
      | Ok _ => let '(e, m) := run_prog fl (save_prog r) (ST_Runs s) in (e, with_runs m s)
      end
  end.

Section Stored.
Variable json_len : RunCombination → Z.

(* src: internal/matrix/history.go LoadRun *)
Definition LoadRun (fl : faults) (id : string) (s : Store) : res Run :=
  _ ← valid_id id;
  match ST_Runs s !! run_file id with
  | None => Err (New CodeNotFound ("matrix run " +:+ id +:+ " not found — run 'phelix matrix list' to see available runs"))
  | Some data =>
      match fl op_read, data with
      | Some t, _ => Err (wrap CodeFilesystem ("read matrix run " +:+ id) (Foreign t None))
      | None, Garbage =>
          Err (wrap CodeConfiguration ("matrix run " +:+ id +:+ " is malformed") (Foreign "unexpected end of JSON input" None))
      | None, Data r =>
          if RN_ID r <>s id
          then Err (New CodeConfiguration ("matrix run " +:+ id +:+ " is malformed: record claims ID " +:+ RN_ID r))
          else Ok (replayJournal json_len (ST_Journals s !! id) r)
      end
  end.

(** ** Listing *)

(** What decodes of a file of runs; [unreadable] files and those without an
    identifier are skipped. *)
Definition listed_run (unreadable : string → bool) (s : Store) (name : string) : option Run :=
  if unreadable name then None
  else match ST_Runs s !! name with
       | Some (Data r) => if RN_ID r =s "" then None else Some r
       | _ => None
       end.

(** The newest name first, at most [maxScan] of them. *)
(* src: internal/matrix/history.go:155-173 listRunsScan *)
Definition scan_names (maxScan : Z) (s : Store) : list string :=
  let names := reverse (List.filter (λ n, HasSuffix n ".json" && negb (HasSuffix n ".manifest.json"))%bool
                 (sort_strings (map_to_list (ST_Runs s)).*1)) in
  if ((0 <? maxScan) && (maxScan <? len names))%bool then take (Z.to_nat maxScan) names else names.

Definition newer_run (x y : Run) : bool :=
  if negb (RN_StartedAt x =? RN_StartedAt y) then RN_StartedAt y <? RN_StartedAt x else String.ltb (RN_ID y) (RN_ID x).

(* src: internal/matrix/history.go listRunsScan *)
Definition listRunsScan (fl : faults) (unreadable : string → bool) (maxScan : Z) (s : Store) : res (list Run * Z) :=
  match fl op_read_dir with
  | Some t => Err (wrap CodeFilesystem "read matrix runs directory" (Foreign t None))
  | None =>
      let names := scan_names maxScan s in
      let runs := omap (listed_run unreadable s) names in
      Ok (stable_sort_by newer_run runs, len names - len runs)
  end.

(* src: internal/matrix/history.go ListRuns *)
Definition ListRuns (fl : faults) (unreadable : string → bool) (s : Store) : res (list Run * Z) :=
  listRunsScan fl unreadable 0 s.
(* src: internal/matrix/history.go RecentRuns *)
Definition RecentRuns (fl : faults) (unreadable : string → bool) (s : Store) : res (list Run * Z) :=
  listRunsScan fl unreadable 200 s.

(* src: internal/matrix/history.go resumableSuffix *)
Definition resumableSuffix (appName : string) : string :=
  if appName =s "" then "" else " for application " +:+ appName.

(* src: internal/matrix/history.go LatestResumableRun *)
Definition LatestResumableRun (fl : faults) (unreadable : string → bool) (appName : string) (s : Store) : res Run :=
  runs ← ListRuns fl unreadable s;
  match List.find (λ r, ((appName =s "") || (RN_AppName r =s appName)) && Resumable (Some r))%bool runs.1 with
  | Some r => Ok r
  | None => Err (New CodeNotFound ("no resumable matrix run found" +:+ resumableSuffix appName +:+ " — see 'phelix matrix list'"))
  end.

(** [alive pid]: signal 0 reaches the process, or it belongs to another user. *)
(* src: internal/matrix/history.go processAlive *)
Definition processAlive (alive : Z → bool) (pid : Z) : bool := if pid <=? 0 then false else alive pid.

(* src: internal/matrix/history.go RunLockOwner *)
Definition RunLockOwner (alive : Z → bool) (id : string) (s : Store) : bool * Z :=
  match valid_id id, ST_Locks s !! id with
  | Ok _, Some raw =>
      match Atoi (TrimSpace raw) with
      | Some pid => if processAlive alive pid then (true, pid) else (false, 0)
      | None => (false, 0)
      end
  | _, _ => (false, 0)
  end.

(* src: internal/matrix/history.go activeOf *)
Definition activeOf (alive : Z → bool) (s : Store) (runs : list Run) : list Run :=
  List.filter (λ r, (RN_Status r =s RunStatusRunning) && (RunLockOwner alive (RN_ID r) s).1)%bool runs.

(* src: internal/matrix/history.go ActiveRuns *)
Definition ActiveRuns (fl : faults) (unreadable : string → bool) (alive : Z → bool) (s : Store) : res (list Run) :=
  runs ← ListRuns fl unreadable s; Ok (activeOf alive s runs.1).
(* src: internal/matrix/history.go ActiveRunsRecent *)
Definition ActiveRunsRecent (fl : faults) (unreadable : string → bool) (alive : Z → bool) (s : Store) : res (list Run) :=
  runs ← RecentRuns fl unreadable s; Ok (activeOf alive s runs.1).

(** ** Rewriting a record *)

(* src: internal/matrix/history.go:239-248 UpdateRun *)
Definition update_prog (r : Run) : list (guarded Run) :=
  let path := run_file (RN_ID r) in
  [ must (SWrite (path +:+ ".tmp") r) CodeFilesystem ("write matrix run " +:+ RN_ID r) [];
    must (SRename (path +:+ ".tmp") path) CodeFilesystem ("replace matrix run " +:+ RN_ID r) [SRemove (path +:+ ".tmp")] ].

(* src: internal/matrix/journal.go discardJournal *)
Definition discardJournal (fl : faults) (id : string) (s : Store) : Store :=
  match fl op_remove with Some _ => s | None => with_journals (delete id (ST_Journals s)) s end.

(* src: internal/matrix/history.go UpdateRun *)
Definition UpdateRun (fl : faults) (run : option Run) (s : Store) : res unit * Store :=
  match run with
  | None => (Err (New CodeInvalidArgument "matrix: cannot update a nil run"), s)
  | Some r =>
      match LoadRun fl (RN_ID r) s with
      | Err e => (Err e, s)
      | Ok existing =>
          if IsTerminalRunStatus (RN_Status existing)
          then (Err (New CodeInvalidArgument ("matrix run " +:+ RN_ID r +:+ " is already " +:+ RN_Status existing +:+
                  " and cannot be modified — retry it with 'phelix matrix retry " +:+ RN_ID r +:+ " --failed' instead")), s)
          else match run_prog fl (update_prog r) (ST_Runs s) with
               | (Err e, m) => (Err e, with_runs m s)
               | (Ok _, m) => (Ok tt, discardJournal fl (RN_ID r) (with_runs m s))
               end
      end
  end.

(** A journal entry of the store. *)
(* src: internal/matrix/journal.go AppendJournal *)
Definition AppendJournal (io : append_io) (id : string) (e : RunCombination) (s : Store) : res unit * Store :=
  let '(r, j) := appendJournal json_len io id e (ST_Journals s !! id) in
  (r, with_journals (match j with Some j => <[id := j]> (ST_Journals s) | None => ST_Journals s end) s).
End Stored.

(** ** Saving a manifest *)

(* src: internal/matrix/manifest.go ManifestPath *)
Definition ManifestPath (dir : string) (id : string) : res string := _ ← ParseRunID id; Ok (dir +:+ "/" +:+ manifest_file id).

(* src: internal/matrix/manifest.go SaveManifest *)
Definition SaveManifest (fl : faults) (m : option ReleaseManifest) (s : Store) : res unit * Store :=
  match m with
  | None => (Err (New CodeInvalidArgument "matrix: cannot save a nil release manifest"), s)
  | Some m =>
      match valid_id (MM_MatrixRunID m) with
      | Err e => (Err e, s)
      | Ok _ =>
          if ((MM_Status m <>s ReleaseStatusComplete) && (MM_Status m <>s ReleaseStatusPartial))%bool
          then (Err (New CodeInvalidArgument ("matrix: refusing to save a release manifest with status " +:+ Quote (MM_Status m))), s)
          else if MM_Version m <=? 0
          then (Err (New CodeInvalidArgument ("matrix: refusing to save a release manifest for " +:+ MM_MatrixRunID m +:+
                  " without an application version")), s)
          else
            let path := manifest_file (MM_MatrixRunID m) in
            let '(e, f) := run_prog fl
              [ must SMkdir CodeFilesystem "create matrix runs directory" [];
                must (SWrite (path +:+ ".tmp") m) CodeFilesystem ("write release manifest for " +:+ MM_MatrixRunID m) [];
                must (SRename (path +:+ ".tmp") path) CodeFilesystem ("replace release manifest for " +:+ MM_MatrixRunID m)
                  [SRemove (path +:+ ".tmp")] ] (ST_Manifests s) in
            (e, with_manifests f s)
      end
  end.

(* src: internal/matrix/manifest.go LoadManifest *)
Definition LoadManifest (fl : faults) (id : string) (s : Store) : res ReleaseManifest :=
  _ ← valid_id id;
  match ST_Manifests s !! manifest_file id with
  | None => Err (New CodeNotFound ("no release manifest for matrix run " +:+ id))
  | Some data =>
      match fl op_read, data with
      | Some t, _ => Err (wrap CodeFilesystem ("read release manifest for " +:+ id) (Foreign t None))
      | None, Garbage =>
          Err (wrap CodeConfiguration ("release manifest for " +:+ id +:+ " is malformed") (Foreign "unexpected end of JSON input" None))
      | None, Data m =>
          if MM_MatrixRunID m <>s id
          then Err (New CodeConfiguration ("release manifest for " +:+ id +:+ " is malformed: it claims run " +:+ MM_MatrixRunID m))
          else Ok m
      end
  end.
