(* ===== verification/MatrixSession.v ===== *)
(** * MatrixSession: executing a run
      (src/internal/matrix/report.go, history.go; src/cmd/matrix_exec.go, matrix_retry.go)

    A session holds the lock of its run, tells the run and its journal what the
    executor does, and closes the record; resume and retry select what is
    executed.  The callbacks of the executor's workers interleave: a session is
    given the sequence of what they do.  Terminal output and the observers of
    remote sessions are left out. *)

From S2P Require Import Prelude GoLib GoText FileStore MatrixPlan MatrixExec MatrixRun MatrixHistory Redact Errors.

(** ** Reports *)

(* src: internal/matrix/report.go AttemptReport *)
Record AttemptReport := mkAttemptReport { AR_Number : Z; AR_Status : string; AR_Duration : string; AR_Error : string }.

(* src: internal/matrix/report.go ComboReport *)
Record ComboReport := mkComboReport {
  CR_Combination : string; CR_OS : string; CR_Arch : string; CR_Version : string; CR_Status : string; CR_Duration : string;
  CR_Artifact : string; CR_SHA256 : string; CR_Error : string; CR_CacheStatus : string; CR_Attempts : Z;
  CR_AttemptLog : list AttemptReport
}.

(* src: internal/matrix/report.go Report *)
Record Report := mkReport {
  RP_RunID : string; RP_AppName : string; RP_Lang : string; RP_StartedAt : Z; RP_CompletedAt : Z; RP_Duration : string;
  RP_Total : Z; RP_Succeeded : Z; RP_Failed : Z; RP_Skipped : Z; RP_Pending : Z; RP_Combinations : list ComboReport
}.

Definition attempt_report (a : RunAttempt) : AttemptReport :=
  mkAttemptReport (RA_Number a) (RA_Status a) (RA_Duration a) (RA_Error a).

(* src: internal/matrix/report.go:159-184 ReportFromRun *)
Definition combo_report (rc : RunCombination) : ComboReport :=
  mkComboReport (RC_ID rc) (RC_OS rc) (RC_Arch rc) (RC_Version rc) (RC_Status rc) (RC_Duration rc) (RC_Artifact rc) (RC_SHA256 rc)
    (RC_Error rc) (RC_CacheStatus rc)
    (if ((RC_Attempts rc =? 0) && ((RC_Status rc =s "success") || (RC_Status rc =s "failed")))%bool then 1 else RC_Attempts rc)
    (attempt_report <$> RC_AttemptLog rc).

(** [now]: the clock, for a run that has not finished. *)
(* src: internal/matrix/report.go ReportFromRun *)
Definition ReportFromRun (run : option Run) (now : Z) : Report :=
  match run with
  | None => mkReport "" "" "" 0 0 "" 0 0 0 0 0 []
  | Some r =>
      let completed := default now (RN_FinishedAt r) in
      let l := RN_Combinations r in
      mkReport (RN_ID r) (RN_AppName r) (CF_Lang (RN_Config r)) (RN_StartedAt r) completed
        (if RN_Duration r =s "" then shown (completed - RN_StartedAt r) Second else RN_Duration r)
        (len l) (count_group GSuccess l) (count_group GFailed l) (count_group GSkipped l) (count_group GIncomplete l)
        (combo_report <$> l)
  end.

(** ** The lock of a run *)

Section Session.
(** What the redaction of errors needs, the length of a journal entry. *)
Variables (lower_rune : string → string) (g : secretRegistry) (json_len : RunCombination → Z).

Definition with_locks (m : gmap string string) (s : Store) : Store :=
  mkStore (ST_Runs s) (ST_Journals s) (ST_Manifests s) m.

(** The attempts of one process that no other process interrupts. *)
(* src: internal/matrix/history.go:274-300 AcquireRunLock *)
Fixpoint acquire_from (fl : faults) (alive : Z → bool) (pid : Z) (id : string) (tries : nat) (s : Store) : res unit * Store :=
  match tries with
  | O => (Err (New CodeDeployLocked ("matrix run " +:+ id +:+ " is locked by another execution")), s)
  | S tries =>
      match fl op_open_lock, ST_Locks s !! id with
      | Some t, _ => (Err (wrap CodeFilesystem ("lock matrix run " +:+ id) (Foreign t None)), s)
      | None, None => (Ok tt, with_locks (<[id := Itoa pid]> (ST_Locks s)) s)
      | None, Some raw =>
          match fl op_read with
          | Some t => (Err (wrap CodeFilesystem ("read lock for matrix run " +:+ id) (Foreign t None)), s)
          | None =>
              match Atoi (TrimSpace raw) with
              | Some owner =>
                  if processAlive alive owner
                  then (Err (New CodeDeployLocked ("matrix run " +:+ id +:+ " is being executed by process " +:+ Itoa owner +:+
                         " — wait for it to finish or stop that process before resuming")), s)
                  else acquire_from fl alive pid id tries
                         (match fl op_remove with Some _ => s | None => with_locks (delete id (ST_Locks s)) s end)
              | None =>
                  acquire_from fl alive pid id tries
                    (match fl op_remove with Some _ => s | None => with_locks (delete id (ST_Locks s)) s end)
              end
          end
      end
  end.

(* src: internal/matrix/history.go AcquireRunLock *)
Definition AcquireRunLock (fl : faults) (alive : Z → bool) (pid : Z) (id : string) (s : Store) : res unit * Store :=
  match valid_id id with
  | Err e => (Err e, s)
  | Ok _ =>
      match fl op_mkdir with
      | Some t => (Err (wrap CodeFilesystem "create matrix runs directory" (Foreign t None)), s)
      | None => acquire_from fl alive pid id 3 s
      end
  end.

Definition release (fl : faults) (id : string) (s : Store) : Store :=
  match fl op_remove with Some _ => s | None => with_locks (delete id (ST_Locks s)) s end.

(** ** A session *)

Inductive BuildFunc := GoMatrixBuilder (useDocker : bool) | RustMatrixBuilder.

(* src: cmd/matrix_exec.go matrixSessionBuildFunc *)
Definition matrixSessionBuildFunc (r : Run) (combos : list Combination) : res BuildFunc :=
  let lang := PF_Lang (config_profile (RN_Config r)) in
  if RN_ProjectDir r =s ""
  then Err (New CodeInvalidArgument ("matrix run " +:+ RN_ID r +:+
         " has no project directory recorded — it predates run snapshots and cannot be re-executed"))
  else if lang =s Go then Ok (GoMatrixBuilder (bool_decide (1 < size (list_to_set (C_Version <$> combos) : gset string))%nat))
  else if lang =s Rust then Ok RustMatrixBuilder
  else Err (New CodeUnsupportedProject ("unsupported language for matrix build: " +:+ lang)).

(** What the callbacks of the workers do, each statement on its own: an entry
    is marked, an outcome recorded, the current entry appended. *)
Inductive Deed := DMark (c : Combination) (attempt now : Z) | DRecord (r : Result) | DJournal (c : Combination) (io : append_io).

(* src: cmd/matrix_exec.go:140-167 runMatrixSessionLocked *)
Definition deed (st : Run * Store) (d : Deed) : Run * Store :=
  let '(r, s) := st in
  match d with
  | DMark c attempt now => (MarkRunning (ID c) attempt now r, s)
  | DRecord res => (RecordResult lower_rune g res r, s)
  | DJournal c io =>
      match CombinationEntry (ID c) r with
      | None => (r, s)
      | Some e => (r, (AppendJournal json_len io (RN_ID r) e s).2)
      end
  end.

Definition session_config (r : Run) : ExecutorConfig :=
  mkExec (CF_Concurrency (RN_Config r)) false (CF_Retries (RN_Config r)).

(** What an execution gives: the deeds of its workers, its results, whether it
    was cancelled, the clock at its end. *)
Record Execution := mkExecution { EN_Deeds : list Deed; EN_Results : list Result; EN_Cancelled : bool; EN_End : Z }.

(** The executed results, whether the session was interrupted, the run. *)
(* src: cmd/matrix_exec.go runMatrixSessionLocked *)
Definition runMatrixSessionLocked (fl : faults) (x : Execution) (r : Run) (combos : list Combination) (s : Store)
    : res (list Result * bool) * Run * Store :=
  match matrixSessionBuildFunc r combos with
  | Err e => (Err e, r, s)
  | Ok _ =>
      let '(r, s) := foldl deed (r, s) (EN_Deeds x) in
      let r := Finalize (EN_End x) r in
      let s := (UpdateRun json_len fl (Some r) s).2 in
      (Ok (List.filter (λ res, RE_Status res <>s "") (EN_Results x), EN_Cancelled x), r, s)
  end.

(* src: cmd/matrix_exec.go startMatrixSessionContext *)
Definition startMatrixSessionContext (fl : faults) (alive : Z → bool) (pid : Z) (x : Execution) (r : Run)
    (combos : list Combination) (s : Store) : res (list Result * bool) * Run * Store :=
  if bool_decide (combos = []) then (Ok ([], false), r, s)
  else match AcquireRunLock fl alive pid (RN_ID r) s with
       | (Err e, s) => (Err e, r, s)
       | (Ok _, s) =>
           let '(v, r', s) := runMatrixSessionLocked fl x r combos s in
           (v, r', release fl (RN_ID r) s)
       end.

Definition resumed_config (args : list string) (c : RunConfig) : RunConfig :=
  if bool_decide (args = []) then c
  else mkRunConfig (CF_Lang c) (CF_Versions c) (CF_Platforms c) (CF_Concurrency c) (CF_Include c) (CF_Exclude c) (CF_Retries c)
         args (CF_Sources c).

(* src: cmd/matrix_exec.go:221-226 resumeMatrixSessionContext *)
Definition resumed (args : list string) (r : Run) : Run :=
  mkRun (RN_ID r) (RN_AppName r) (RN_ProjectDir r) RunStatusRunning (resumed_config args (RN_Config r)) (RN_StartedAt r)
    (RN_FinishedAt r) (RN_Duration r) (RN_Total r) (RN_Succeeded r) (RN_Failed r) (RN_Skipped r) (RN_Incomplete r)
    (RN_Combinations r) (RN_ParentRunID r) (RN_ResumeCount r + 1).

(** [x] is the execution of the run that is resumed. *)
(* src: cmd/matrix_exec.go resumeMatrixSessionContext *)
Definition resumeMatrixSessionContext (fl : faults) (alive : Z → bool) (pid : Z) (x : Run → Execution) (outside : Run)
    (args : list string) (s : Store) : res bool * Run * Store :=
  match AcquireRunLock fl alive pid (RN_ID outside) s with
  | (Err e, s) => (Err e, outside, s)
  | (Ok _, s) =>
      let '(v, r', s) :=
        match LoadRun json_len fl (RN_ID outside) s with
        | Err e => (Err e, outside, s)
        | Ok r =>
            if negb (Resumable (Some r))
            then (Err (New CodeInvalidArgument ("matrix run " +:+ RN_ID r +:+ " is no longer resumable (status: " +:+ RN_Status r +:+
                    ") — another execution may have completed it")), r, s)
            else
              let r := resumed args r in
              match UpdateRun json_len fl (Some r) s with
              | (Err e, s) => (Err e, r, s)
              | (Ok _, s) =>
                  let '(v, r', s) := runMatrixSessionLocked fl (x r) r (IncompleteCombinations r) s in
                  (match v with Ok p => Ok p.2 | Err e => Err e end, r', s)
              end
        end in
      (v, r', release fl (RN_ID outside) s)
  end.

(** A build of every combination of a plan as a new run: a run that cannot be
    saved is a warning. *)
(* src: cmd/build.go:591-618 runMatrixMode *)
Definition fresh_build (fl : faults) (alive : Z → bool) (pid : Z) (x : Execution) (runID name root : string) (prof : Profile)
    (extra : list string) (plan : list Combination) (now : Z) (s : Store) : res unit * Store :=
  let r := NewRun runID name root (Some prof) now in
  let r := with_config (mkRunConfig (CF_Lang (RN_Config r)) (CF_Versions (RN_Config r)) (CF_Platforms (RN_Config r))
                          (CF_Concurrency (RN_Config r)) (CF_Include (RN_Config r)) (CF_Exclude (RN_Config r))
                          (CF_Retries (RN_Config r)) extra (CF_Sources (RN_Config r))) (RN_ParentRunID r) r in
  let r := InitCombinations plan r in
  let s := (SaveRun fl (Some r) s).2 in
  let '(v, r', s) := startMatrixSessionContext fl alive pid x r plan s in
  (match v with
   | Err e => Err e
   | Ok (_, interrupted) =>
       if interrupted
       then Err (New CodeBuildFailed ("matrix run " +:+ runID +:+
              " interrupted — continue it with 'phelix build --matrix --resume'"))
       else if 0 <? RN_Failed r'
       then Err (New CodeBuildFailed ("matrix run " +:+ runID +:+ " completed with " +:+ Itoa (RN_Failed r') +:+
              " failure(s) out of " +:+ Itoa (RN_Total r') +:+ " combinations — retry them with 'phelix matrix retry " +:+
              runID +:+ " --failed'"))
       else Ok tt
   end, s).

(** ** Which run is resumed, what is retried *)

(* src: cmd/matrix_exec.go:395-428 resumeMatrixRun *)
Definition resume_target (fl : faults) (unreadable : string → bool) (which : string) (args : list string) (project : option string)
    (s : Store) : res Run :=
  run ← (if which =s "latest"
         then LatestResumableRun fl unreadable
                (match args, project with a :: _, _ => a | [], Some name => name | [], None => "" end) s
         else
           id ← ParseRunID which;
           r ← LoadRun json_len fl id s;
           if negb (Resumable (Some r))
           then Err (New CodeInvalidArgument ("matrix run " +:+ RN_ID r +:+ " has no incomplete combinations (status: " +:+
                  RN_Status r +:+ ") — nothing to resume; failed combinations can be retried with 'phelix matrix retry " +:+
                  RN_ID r +:+ " --failed'"))
           else Ok r);
  match args with
  | a :: _ =>
      if a <>s RN_AppName run
      then Err (New CodeInvalidArgument ("matrix run " +:+ RN_ID run +:+ " belongs to application " +:+ Quote (RN_AppName run) +:+
             ", not " +:+ Quote a))
      else Ok run
  | [] => Ok run
  end.

(** The source of a retry and its new run, not yet saved. *)
(* src: cmd/matrix_retry.go:33-67 matrixRetryCmd *)
Definition retry_run (fl : faults) (failed_flag : bool) (arg : string) (retryID : string) (now : Z) (s : Store)
    : res (Run * Run * list Combination) :=
  if negb failed_flag
  then Err (New CodeInvalidArgument "specify a selection: --failed retries the failed combinations (more selectors may be added later)")
  else
    id ← ParseRunID (TrimSpace arg);
    source ← LoadRun json_len fl id s;
    let combos := FailedCombinations source in
    if bool_decide (combos = [])
    then Err (New CodeInvalidArgument ("matrix run " +:+ RN_ID source +:+ " has no failed combinations — nothing to retry (status: " +:+
           RN_Status source +:+ ")"))
    else if RN_ProjectDir source =s ""
    then Err (New CodeInvalidArgument ("matrix run " +:+ RN_ID source +:+
           " has no project directory recorded — it predates run snapshots and cannot be retried"))
    else Ok (source, InitCombinations combos (retry_of retryID source now), combos).

(** The new run is saved and executed; what of its result is an error. *)
(* src: cmd/matrix_retry.go matrixRetryCmd *)
Definition retry_command (fl : faults) (alive : Z → bool) (pid : Z) (x : Execution) (failed_flag : bool) (arg retryID : string)
    (now : Z) (s : Store) : res unit * Store :=
  match retry_run fl failed_flag arg retryID now s with
  | Err e => (Err e, s)
  | Ok (_, r, combos) =>
      match SaveRun fl (Some r) s with
      | (Err e, s) => (Err (wrap CodeFilesystem "could not record retry run" e), s)
      | (Ok _, s) =>
          let '(v, r', s) := startMatrixSessionContext fl alive pid x r combos s in
          (match v with
           | Err e => Err e
           | Ok (_, interrupted) =>
               if interrupted
               then Err (New CodeBuildFailed ("retry run " +:+ retryID +:+
                      " interrupted — continue it with 'phelix build --matrix --resume=" +:+ retryID +:+ "'"))
               else if 0 <? RN_Failed r'
               then Err (New CodeBuildFailed ("retry run " +:+ retryID +:+ " completed with " +:+ Itoa (RN_Failed r') +:+
                      " failure(s) out of " +:+ Itoa (RN_Total r') +:+ " combinations"))
               else Ok tt
           end, s)
      end
  end.
End Session.
