(* ===== verification/MatrixRunSafety.v ===== *)
(** * MatrixRunSafety: what the record of a matrix run guarantees

    Counters, the journal against an abstract map of entries, what a resume
    executes after a crash, and runs on which the code does not do what it
    means to. *)

From S2P Require Import Prelude GoLib GoText FileStore Redact MatrixPlan MatrixExec MatrixRun MatrixHistory MatrixSession Errors.

(** ** Entries by identifier *)

Definition ids (l : list RunCombination) : list string := RC_ID <$> l.

Lemma find_entry_Some id l i :
  find_entry id l = Some i → ∃ rc, l !! i = Some rc ∧ RC_ID rc = id.
Proof.
  revert i. induction l as [|rc l IH]; intros i; cbn; [done|]. destruct (RC_ID rc =s id) eqn:E.
  - intros [= <-]. bool_prop. eauto.
  - intros (j & Hj & ->)%fmap_Some. by apply IH.
Qed.

Lemma find_entry_None id l : find_entry id l = None ↔ id ∉ ids l.
Proof.
  induction l as [|rc l IH]; cbn; [split; [intros _ H; inversion H|done]|]. destruct (RC_ID rc =s id) eqn:E; bool_prop.
  - subst. split; [done|]. intros []. left.
  - rewrite fmap_None, IH, not_elem_of_cons. split; [intros; split; [congruence|done]|by intros [_ ?]].
Qed.

Lemma find_entry_at l i rc : NoDup (ids l) → l !! i = Some rc → find_entry (RC_ID rc) l = Some i.
Proof.
  intros Hn Hi. destruct (find_entry (RC_ID rc) l) as [j|] eqn:E.
  - destruct (find_entry_Some _ _ _ E) as (rc' & Hj & Hid). f_equal. eapply NoDup_lookup; [exact Hn| |].
    + unfold ids. rewrite list_lookup_fmap, Hj. cbn. by rewrite Hid.
    + unfold ids. by rewrite list_lookup_fmap, Hi.
  - apply find_entry_None in E. destruct E. apply list_elem_of_fmap. exists rc. split; [done|]. by eapply list_elem_of_lookup_2.
Qed.

Lemma ids_insert l i rc rc' : l !! i = Some rc → RC_ID rc' = RC_ID rc → ids (<[i := rc']> l) = ids l.
Proof.
  intros Hi Hid. unfold ids. rewrite list_fmap_insert, Hid. apply list_insert_id. by rewrite list_lookup_fmap, Hi.
Qed.

(** ** Counters *)

Definition counts (r : Run) : Z * Z * Z * Z := (RN_Succeeded r, RN_Failed r, RN_Skipped r, RN_Incomplete r).

Definition counts_of (l : list RunCombination) : Z * Z * Z * Z :=
  (count_group GSuccess l, count_group GFailed l, count_group GSkipped l, count_group GIncomplete l).

Definition counted (r : Run) : Prop := counts r = counts_of (RN_Combinations r) ∧ RN_Total r = len (RN_Combinations r).

Lemma count_group_cons k rc l :
  count_group k (rc :: l) = (if bool_decide (group_of (RC_Status rc) = k) then 1 else 0) + count_group k l.
Proof.
  unfold count_group. cbn [List.filter].
  case_bool_decide; rewrite ?len_cons; lia.
Qed.

Lemma counts_total l :
  count_group GSuccess l + count_group GFailed l + count_group GSkipped l + count_group GIncomplete l = len l.
Proof.
  induction l as [|rc l IH]; [done|]. rewrite !count_group_cons, len_cons. destruct (group_of (RC_Status rc));
    repeat case_bool_decide; try done; lia.
Qed.

Lemma count_group_nonneg k l : 0 ≤ count_group k l.
Proof. apply len_nonneg. Qed.

Lemma count_group_zero k l : count_group k l = 0 ↔ ∀ rc, rc ∈ l → group_of (RC_Status rc) ≠ k.
Proof.
  induction l as [|rc l IH].
  - split; [intros _ rc H; inversion H|done].
  - rewrite count_group_cons. pose proof (count_group_nonneg k l). split.
    + case_bool_decide as E; intros H0; [lia|]. intros x [-> |Hx]%elem_of_cons; [done|]. by apply IH.
    + intros Hall. rewrite bool_decide_eq_false_2 by (apply Hall; left). rewrite (proj2 IH); [done|].
      intros x Hx. apply Hall. by right.
Qed.

Lemma count_group_insert k l i rc rc' :
  l !! i = Some rc →
  count_group k (<[i := rc']> l) =
  count_group k l - (if bool_decide (group_of (RC_Status rc) = k) then 1 else 0)
                  + (if bool_decide (group_of (RC_Status rc') = k) then 1 else 0).
Proof.
  revert i. induction l as [|x l IH]; intros i; [done|]. destruct i as [|i].
  - intros [= ->]. change (<[O := rc']> (rc :: l)) with (rc' :: l). rewrite !count_group_cons. lia.
  - intros Hi. change (<[S i := rc']> (x :: l)) with (x :: <[i := rc']> l). rewrite !count_group_cons, (IH i Hi). lia.
Qed.

Lemma len_insert {A} (l : list A) i x : len (<[i := x]> l) = len l.
Proof. unfold len. by rewrite length_insert. Qed.

Lemma add_count_counts status n r :
  counts (add_count status n r) =
  (RN_Succeeded r + (if bool_decide (group_of status = GSuccess) then n else 0),
   RN_Failed r + (if bool_decide (group_of status = GFailed) then n else 0),
   RN_Skipped r + (if bool_decide (group_of status = GSkipped) then n else 0),
   RN_Incomplete r + (if bool_decide (group_of status = GIncomplete) then n else 0)).
Proof. unfold counts, add_count. destruct (group_of status); cbn; by rewrite ?Z.add_0_r. Qed.

Lemma add_count_rest status n r :
  RN_Combinations (add_count status n r) = RN_Combinations r ∧ RN_Total (add_count status n r) = RN_Total r ∧
  RN_ID (add_count status n r) = RN_ID r ∧ RN_Status (add_count status n r) = RN_Status r.
Proof. unfold add_count. by destruct (group_of status). Qed.

Lemma uncount_entries status r : RN_Combinations (uncountLocked status r) = RN_Combinations r.
Proof. apply add_count_rest. Qed.

Lemma count_entries status r : RN_Combinations (countLocked status r) = RN_Combinations r.
Proof. apply add_count_rest. Qed.

(** One entry changes: the counters follow. *)
Lemma counted_move r i rc rc' :
  counted r → RN_Combinations r !! i = Some rc →
  counted (countLocked (RC_Status rc') (with_entries (<[i := rc']> (RN_Combinations r)) (uncountLocked (RC_Status rc) r))).
Proof.
  intros [Hc Ht] Hi. set (r1 := uncountLocked (RC_Status rc) r). set (r2 := with_entries _ r1).
  pose proof (add_count_counts (RC_Status rc) (-1) r) as H1.
  unfold counted, countLocked. rewrite add_count_counts. destruct (add_count_rest (RC_Status rc') 1 r2) as (-> & -> & _).
  change (RN_Combinations r2) with (<[i := rc']> (RN_Combinations r)).
  destruct (add_count_rest (RC_Status rc) (-1) r) as (_ & Ht1 & _).
  change (RN_Total r2) with (RN_Total (add_count (RC_Status rc) (-1) r)). rewrite len_insert, Ht1. split; [|exact Ht].
  change (RN_Succeeded r2) with (RN_Succeeded r1). change (RN_Failed r2) with (RN_Failed r1).
  change (RN_Skipped r2) with (RN_Skipped r1). change (RN_Incomplete r2) with (RN_Incomplete r1).
  unfold r1, uncountLocked. unfold counts, counts_of in *. injection H1 as -> -> -> ->. injection Hc as -> -> -> ->.
  rewrite !(count_group_insert _ _ _ _ _ Hi). repeat f_equal; repeat case_bool_decide; lia.
Qed.

Section Deeds.
Context (lower_rune : string → string) (g : secretRegistry) (json_len : RunCombination → Z).

Lemma counted_recount n r : n = len (RN_Combinations r) → counted (recountLocked (with_total n r)).
Proof using. by intros ->. Qed.

Lemma RecordResult_counted res r : counted r → counted (RecordResult lower_rune g res r).
Proof using.
  intros Hr. unfold RecordResult. destruct (find_entry _ _) as [i|]; [|done].
  destruct (RN_Combinations r !! i) as [rc|] eqn:E; [|done].
  cbv zeta. rewrite uncount_entries. exact (counted_move r i rc (with_outcome lower_rune g res rc) Hr E).
Qed.

Lemma MarkRunning_counted id n t r : counted r → counted (MarkRunning id n t r).
Proof using.
  intros Hr. unfold MarkRunning. destruct (find_entry _ _) as [i|]; [|done].
  destruct (RN_Combinations r !! i) as [rc|] eqn:E; [|done]. destruct (final _); [done|].
  cbv zeta. rewrite uncount_entries. exact (counted_move r i rc (started_entry n t rc) Hr E).
Qed.

Lemma deed_counted st d : counted st.1 → counted (deed lower_rune g json_len st d).1.
Proof using.
  destruct st as [r s], d as [c n t|res|c io]; cbn.
  - apply MarkRunning_counted.
  - apply RecordResult_counted.
  - by destruct (CombinationEntry _ _).
Qed.

Lemma deeds_counted ds : ∀ st, counted st.1 → counted (foldl (deed lower_rune g json_len) st ds).1.
Proof using. induction ds as [|d ds IH]; intros st Hst; [done|]. apply IH. by apply deed_counted. Qed.
End Deeds.

(** ** The status of a run *)

Lemma count_group_pos k l : 0 < count_group k l ↔ ∃ rc, rc ∈ l ∧ group_of (RC_Status rc) = k.
Proof.
  pose proof (count_group_nonneg k l) as Hn. split.
  - intros Hp. destruct (decide (Exists (λ rc, group_of (RC_Status rc) = k) l)) as [He|Hne].
    + by apply Exists_exists in He.
    + exfalso. assert (count_group k l = 0); [|lia]. apply count_group_zero. intros rc Hrc E. apply Hne, Exists_exists. eauto.
  - intros (rc & Hrc & E). destruct (decide (count_group k l = 0)) as [H0|]; [|lia].
    by destruct (proj1 (count_group_zero k l) H0 rc Hrc).
Qed.

Lemma running_incomplete l : len (List.filter (λ rc, RC_Status rc =s "running") l) ≤ count_group GIncomplete l.
Proof.
  induction l as [|rc l IH]; [done|]. rewrite count_group_cons. cbn [List.filter].
  destruct (RC_Status rc =s "running") eqn:E; bool_prop.
  - rewrite E, len_cons, bool_decide_eq_true_2 by done. lia.
  - case_bool_decide; lia.
Qed.

(** The status after [Finalize], by what the entries are. *)
Lemma Finalize_status t r :
  let l := RN_Combinations r in
  RN_Status (Finalize t r) =
    if len l =? 0 then RunStatusFailed
    else if 0 <? count_group GIncomplete l then RunStatusInterrupted
    else if count_group GFailed l =? 0 then RunStatusSucceeded
    else if count_group GSuccess l =? 0 then RunStatusFailed else RunStatusPartial.
Proof. done. Qed.

Lemma Finalize_terminal t r :
  IsTerminalRunStatus (RN_Status (Finalize t r)) = true ↔
  ∀ rc, rc ∈ RN_Combinations r → final (RC_Status rc) = true.
Proof.
  rewrite Finalize_status. cbv zeta. destruct (len (RN_Combinations r) =? 0) eqn:E0; bool_prop.
  - split; [|done]. intros _ rc Hrc. destruct (RN_Combinations r) as [|x l]; [inversion Hrc|].
    rewrite len_cons in E0. pose proof (len_nonneg l). lia.
  - destruct (0 <? count_group GIncomplete (RN_Combinations r)) eqn:E1; bool_prop.
    + split; [done|]. intros Hall. apply count_group_pos in E1 as (rc & Hrc & Hk).
      specialize (Hall rc Hrc). unfold final in Hall. apply bool_decide_eq_true in Hall. congruence.
    + pose proof (count_group_nonneg GIncomplete (RN_Combinations r)).
      assert (count_group GIncomplete (RN_Combinations r) = 0) as Hz by lia. rewrite count_group_zero in Hz. split.
      * intros _ rc Hrc. apply bool_decide_eq_true_2. by apply Hz.
      * intros _. by repeat destruct (_ =? 0).
Qed.

(** Whatever is recorded in a run, and in whatever order: its four counters
    are the numbers of its entries in each state and add up to the number of
    entries, the snapshot shown to users agrees with them, and the run is
    finalized as terminal exactly when every entry is final - succeeded when
    none failed, partial when some failed and some succeeded. *)
Theorem the_counters_agree lower_rune g json_len combs r0 s ds :
  let r := (foldl (deed lower_rune g json_len) (InitCombinations combs r0, s) ds).1 in
  let l := RN_Combinations r in
  let c := SnapshotCounters r in
  counted r ∧ RN_Succeeded r + RN_Failed r + RN_Skipped r + RN_Incomplete r = RN_Total r ∧
  (SC_Succeeded c, SC_Failed c, SC_Skipped c, SC_Running c + SC_Pending c) = counts r ∧
  SC_Total c = Complete c + SC_Running c + SC_Pending c ∧ 0 ≤ SC_Running c ∧ 0 ≤ SC_Pending c ∧
  ∀ t, let status := RN_Status (Finalize t r) in
    (IsTerminalRunStatus status = true ↔ ∀ rc, rc ∈ l → final (RC_Status rc) = true) ∧
    (status = RunStatusPartial ↔
       (∀ rc, rc ∈ l → final (RC_Status rc) = true) ∧
       (∃ rc, rc ∈ l ∧ RC_Status rc = "failed") ∧ ∃ rc, rc ∈ l ∧ RC_Status rc = "success").
Proof.
  cbv zeta. set (r := (foldl _ _ _).1). assert (counted r) as Hc.
  { apply deeds_counted. cbn [fst]. unfold InitCombinations. by apply counted_recount. }
  assert (RN_Succeeded r + RN_Failed r + RN_Skipped r + RN_Incomplete r = RN_Total r) as Hsum.
  { destruct Hc as [Hc Ht]. unfold counts, counts_of in Hc. injection Hc as -> -> -> ->. rewrite Ht. apply counts_total. }
  clearbody r. split; [exact Hc|]. split; [exact Hsum|]. destruct Hc as [Hc Ht].
  pose proof (running_incomplete (RN_Combinations r)) as Hri. pose proof (counts_total (RN_Combinations r)) as Htot.
  unfold Complete, SnapshotCounters. cbn [SC_Total SC_Succeeded SC_Failed SC_Skipped SC_Running SC_Pending]. split_and!.
  - rewrite Hc. unfold counts_of. repeat f_equal. lia.
  - lia.
  - apply len_nonneg.
  - lia.
  - intros t. split; [apply Finalize_terminal|]. rewrite <- (Finalize_terminal t r), Finalize_status. cbv zeta.
    assert (∀ k status, (∀ x, group_of x = k ↔ x = status) →
      (∃ rc, rc ∈ RN_Combinations r ∧ RC_Status rc = status) ↔ 0 < count_group k (RN_Combinations r)) as Hex.
    { intros k status Hk. rewrite count_group_pos. by setoid_rewrite Hk. }
    rewrite (Hex GFailed "failed"), (Hex GSuccess "success").
    + pose proof (count_group_nonneg GFailed (RN_Combinations r)). pose proof (count_group_nonneg GSuccess (RN_Combinations r)).
      pose proof (count_group_nonneg GSkipped (RN_Combinations r)).
      pose proof (count_group_nonneg GIncomplete (RN_Combinations r)).
      set (nf := count_group GFailed _) in *. set (ns := count_group GSuccess _) in *. set (ni := count_group GIncomplete _) in *.
      set (n := len (RN_Combinations r)) in *.
      destruct (n =? 0) eqn:E0, (0 <? ni) eqn:E1, (nf =? 0) eqn:E2, (ns =? 0) eqn:E3;
        bool_prop; split; intros Hx; try done; try (destruct Hx as (Hx1 & Hx2 & Hx3); try done; lia);
        split_and!; (done || lia).
    + intros x. unfold group_of. split; [|by intros ->]. repeat case_match; bool_prop; done.
    + intros x. unfold group_of. split; [|by intros ->]. repeat case_match; bool_prop; done.
Qed.

(** ** The journal *)

(** Of distinct identifiers the index is the position. *)
Lemma entry_index_lookup (names : list string) id i :
  NoDup names → entry_index names !! id = Some i ↔ names !! i = Some id.
Proof.
  intros Hn. unfold entry_index. assert (length names ≤ length (seq 0 (length names)))%nat as Hl by (rewrite length_seq; lia).
  rewrite <- elem_of_list_to_map.
  - rewrite elem_of_reverse, elem_of_lookup_zip_with. split.
    + intros (k & x & y & [= -> ->] & Hx & [-> _]%lookup_seq). done.
    + intros Hi. exists i, id, i. split_and!; [done|done|]. apply lookup_seq. split; [done|]. by eapply lookup_lt_Some.
  - rewrite fmap_reverse, fst_zip by done. by rewrite reverse_Permutation.
Qed.

Section Journal.
Context (lower_rune : string → string) (g : secretRegistry) (json_len : RunCombination → Z).
Hypothesis Hlen : ∀ e, 0 < json_len e.

Abbreviation deed := (deed lower_rune g json_len).

(** What a journal promises: a map of entries in which an append is one atomic
    update. *)
Definition atomic_deed (st : Run * list RunCombination) (d : Deed) : Run * list RunCombination :=
  ((deed (st.1, no_runs) d).1,
   match d with
   | DJournal c AppendAll =>
       match find_entry (ID c) (RN_Combinations st.1) with
       | Some i => match RN_Combinations st.1 !! i with Some e => <[i := e]> st.2 | None => st.2 end
       | None => st.2
       end
   | _ => st.2
   end).

Definition journaled (r : Run) (ds : list Deed) : list RunCombination := (foldl atomic_deed (r, RN_Combinations r) ds).2.

(** No append is cut short. *)
Definition whole_appends (ds : list Deed) : Prop := ∀ c n t, DJournal c (AppendShort n t) ∉ ds.

(** Every line fits the scanner. *)
Definition readable (id : string) (s : Store) : Prop :=
  ∀ j, ST_Journals s !! id = Some j → Forall (λ l, line_len json_len l < journalMaxLine) (JL_Lines j).

Lemma RecordResult_keeps res r :
  ids (RN_Combinations (RecordResult lower_rune g res r)) = ids (RN_Combinations r) ∧
  RN_ID (RecordResult lower_rune g res r) = RN_ID r ∧ RN_Status (RecordResult lower_rune g res r) = RN_Status r.
Proof using.
  unfold RecordResult. destruct (find_entry _ _) as [i|]; [|done].
  destruct (RN_Combinations r !! i) as [rc|] eqn:E; [|done]. cbv zeta. unfold countLocked, uncountLocked.
  destruct (add_count_rest (RE_Status res) 1 (with_entries
    (<[i := with_outcome lower_rune g res rc]> (RN_Combinations (add_count (RC_Status rc) (-1) r))) (add_count (RC_Status rc) (-1) r)))
    as (-> & _ & -> & ->).
  destruct (add_count_rest (RC_Status rc) (-1) r) as (He & _ & Hid & Hst). cbn. rewrite He, Hid, Hst.
  split_and!; [|done..]. by eapply ids_insert.
Qed.

Lemma MarkRunning_keeps id n t r :
  ids (RN_Combinations (MarkRunning id n t r)) = ids (RN_Combinations r) ∧
  RN_ID (MarkRunning id n t r) = RN_ID r ∧ RN_Status (MarkRunning id n t r) = RN_Status r.
Proof using.
  unfold MarkRunning. destruct (find_entry _ _) as [i|]; [|done].
  destruct (RN_Combinations r !! i) as [rc|] eqn:E; [|done]. destruct (final _); [done|]. cbv zeta. unfold countLocked, uncountLocked.
  destruct (add_count_rest "running" 1 (with_entries
    (<[i := started_entry n t rc]> (RN_Combinations (add_count (RC_Status rc) (-1) r))) (add_count (RC_Status rc) (-1) r)))
    as (-> & _ & -> & ->).
  destruct (add_count_rest (RC_Status rc) (-1) r) as (He & _ & Hid & Hst). cbn. rewrite He, Hid, Hst.
  split_and!; [|done..]. by eapply ids_insert.
Qed.

Lemma deed_run r s s' d : (deed (r, s) d).1 = (deed (r, s') d).1.
Proof using. destruct d; cbn; [done|done|]. by destruct (CombinationEntry _ _). Qed.

Lemma deed_keeps st d :
  ids (RN_Combinations (deed st d).1) = ids (RN_Combinations st.1) ∧ RN_ID (deed st d).1 = RN_ID st.1 ∧
  ST_Runs (deed st d).2 = ST_Runs st.2 ∧ (∀ id, id ≠ RN_ID st.1 → ST_Journals (deed st d).2 !! id = ST_Journals st.2 !! id).
Proof using.
  destruct st as [r s], d as [c n t|res|c io]; cbn.
  - by destruct (MarkRunning_keeps (ID c) n t r) as (? & ? & _).
  - by destruct (RecordResult_keeps res r) as (? & ? & _).
  - destruct (CombinationEntry _ _) as [e|]; [|done]. cbn. unfold AppendJournal.
    destruct (appendJournal _ _ _ _ _) as [v [j|]]; cbn; split_and!; try done.
    intros id Hid. by rewrite lookup_insert_ne.
Qed.

(** The file refines the map. *)
Record refines (r0 : Run) (st : Run * Store) (saved : list RunCombination) : Prop := {
  rf_id : RN_ID st.1 = RN_ID r0;
  rf_ids : ids (RN_Combinations st.1) = ids (RN_Combinations r0);
  rf_open : JL_Open (default empty_journal (ST_Journals st.2 !! RN_ID r0)) = [];
  rf_saved : (foldl (replay_line (entry_index (ids (RN_Combinations r0)))) (RN_Combinations r0, false)
                (JL_Lines (default empty_journal (ST_Journals st.2 !! RN_ID r0)))).1 = saved
}.

Lemma write_whole e j : JL_Open j = [] → write_entry json_len (json_len e + 1) e j = mkJournal (JL_Lines j ++ [[Whole e]]) [].
Proof using Hlen.
  intros Ho. specialize (Hlen e). unfold write_entry.
  rewrite (proj2 (Z.leb_gt _ _)), (proj2 (Z.ltb_ge _ _)), (proj2 (Z.eqb_neq _ _)), Ho by lia. done.
Qed.

Lemma CombinationEntry_Some id r e :
  CombinationEntry id r = Some e → ∃ i, find_entry id (RN_Combinations r) = Some i ∧ RN_Combinations r !! i = Some e ∧ RC_ID e = id.
Proof using.
  unfold CombinationEntry. intros (i & Hi & He)%bind_Some. exists i. split_and!; [done|done|].
  destruct (find_entry_Some _ _ _ Hi) as (rc & Hrc & Hid). congruence.
Qed.

Lemma refines_deed r0 r s l d :
  NoDup (ids (RN_Combinations r0)) → (∀ c n t, d ≠ DJournal c (AppendShort n t)) →
  refines r0 (r, s) l → refines r0 (deed (r, s) d) (atomic_deed (r, l) d).2.
Proof using Hlen.
  intros Hn Hd [Hid Hids Ho Hs]. cbn [fst snd] in *.
  destruct (deed_keeps (r, s) d) as (Hids' & Hid' & _ & _). cbn [fst snd] in *.
  split; [by rewrite Hid', Hid|by rewrite Hids', Hids|..]; destruct d as [c n t|res|c io]; try done; cbn.
  - destruct (CombinationEntry (ID c) r) as [e|]; [|done]. unfold AppendJournal.
    destruct io as [t|n t|]; [|by destruct (Hd c n t)|].
    + cbn [appendJournal]. rewrite Hid. destruct (ST_Journals s !! RN_ID r0) as [j|] eqn:Ej; cbn.
      * by rewrite lookup_insert_eq.
      * by rewrite Ej.
    + cbn [appendJournal]. cbn. by rewrite Hid, lookup_insert_eq, write_whole.
  - destruct (CombinationEntry (ID c) r) as [e|] eqn:Ee.
    + destruct (CombinationEntry_Some _ _ _ Ee) as (i & Hi & He & Hide). unfold AppendJournal.
      destruct io as [t|n t|]; [|by destruct (Hd c n t)|].
      * cbn [appendJournal]. rewrite Hid. destruct (ST_Journals s !! RN_ID r0) as [j|] eqn:Ej; cbn.
        -- by rewrite lookup_insert_eq.
        -- by rewrite Ej.
      * cbn [appendJournal]. cbn. rewrite Hid, lookup_insert_eq, write_whole, Hi, He by done. cbn.
        rewrite foldl_app. cbn [foldl]. unfold replay_line at 1. cbn [decode_line].
        assert (entry_index (ids (RN_Combinations r0)) !! RC_ID e = Some i) as ->.
        { apply entry_index_lookup; [done|]. rewrite <- Hids. unfold ids. by rewrite list_lookup_fmap, He. }
        cbn. by rewrite Hs.
    + destruct io as [t|n t|]; [done|done|]. unfold CombinationEntry in Ee.
      destruct (find_entry (ID c) (RN_Combinations r)) as [i|]; [|done]. cbn in Ee. by rewrite Ee.
Qed.

Lemma atomic_run st s d : (atomic_deed st d).1 = (deed (st.1, s) d).1.
Proof using. apply deed_run. Qed.

Lemma refines_deeds r0 ds : ∀ r s l,
  NoDup (ids (RN_Combinations r0)) → whole_appends ds → refines r0 (r, s) l →
  refines r0 (foldl deed (r, s) ds) (foldl atomic_deed (r, l) ds).2 ∧
  (foldl atomic_deed (r, l) ds).1 = (foldl deed (r, s) ds).1 ∧ ST_Runs (foldl deed (r, s) ds).2 = ST_Runs s.
Proof using Hlen.
  induction ds as [|d ds IH]; intros r s l Hn Hw Hr; [done|]. cbn [foldl].
  assert (refines r0 (deed (r, s) d) (atomic_deed (r, l) d).2) as Hr'.
  { apply refines_deed; [done| |done]. intros c n t ->. apply (Hw c n t). left. }
  pose proof (atomic_run (r, l) s d) as Ha. cbn [fst] in Ha. destruct (deed_keeps (r, s) d) as (_ & _ & Hruns & _).
  destruct (deed (r, s) d) as [r' s'], (atomic_deed (r, l) d) as [r'' l']. cbn [fst snd] in *. subst r''. rewrite <- Hruns.
  apply IH; [done| |done]. intros c n t Hin. apply (Hw c n t). by right.
Qed.

Lemma scanned_all ls : Forall (λ l, line_len json_len l < journalMaxLine) ls → ∀ rest, scanned json_len (ls ++ rest) = ls ++ scanned json_len rest.
Proof using.
  induction 1 as [|l ls Hl _ IH]; intros rest; [done|]. cbn. rewrite (proj2 (Z.ltb_lt _ _) Hl). by rewrite IH.
Qed.

Lemma replay_flag index ls : ∀ st,
  (foldl (replay_line index) st ls).2 = false → foldl (replay_line index) st ls = st.
Proof using.
  assert (∀ ls st, st.2 = true → (foldl (replay_line index) st ls).2 = true) as Hup.
  { clear ls. induction ls as [|l ls IH]; intros st Hst; [done|]. cbn. apply IH. unfold replay_line.
    destruct (decode_line l); [|done]. by destruct (index !! _). }
  induction ls as [|l ls IH]; intros st; [done|]. cbn. intros Hf. unfold replay_line at 2. unfold replay_line at 2 in Hf.
  destruct (decode_line l) as [e|]; [|by apply IH]. destruct (index !! _) as [i|]; [|by apply IH].
  rewrite Hup in Hf; done.
Qed.

(** What a load makes of a journal. *)
Lemma replayJournal_spec j r :
  let '(l, applied) := foldl (replay_line (entry_index (ids (RN_Combinations r)))) (RN_Combinations r, false)
                         (scanned json_len (lines_of (default empty_journal j))) in
  RN_Combinations (replayJournal json_len j r) = l ∧ RN_Status (replayJournal json_len j r) = RN_Status r ∧
  RN_ID (replayJournal json_len j r) = RN_ID r.
Proof using.
  destruct j as [j|]; [|done]. cbn [default]. unfold replayJournal, id, ids.
  pose proof (replay_flag (entry_index (RC_ID <$> RN_Combinations r)) (scanned json_len (lines_of j)) (RN_Combinations r, false)) as Hf.
  destruct (foldl _ _ _) as [l a]. destruct a; [done|]. specialize (Hf eq_refl). by injection Hf as ->.
Qed.

Lemma replay_length index ls : ∀ st, length (foldl (replay_line index) st ls).1 = length st.1.
Proof using.
  induction ls as [|l ls IH]; intros st; [done|]. cbn [foldl]. rewrite IH. unfold replay_line.
  destruct (decode_line l) as [e|]; [|done]. destruct (index !! _); [|done]. apply length_insert.
Qed.

Lemma replayJournal_counted j r : counted r → counted (replayJournal json_len j r).
Proof using.
  intros Hr. destruct j as [j|]; [|done]. unfold replayJournal.
  pose proof (replay_length (entry_index (RC_ID <$> RN_Combinations r)) (scanned json_len (lines_of j)) (RN_Combinations r, false)) as Hl.
  destruct (foldl _ _ _) as [l a]. destruct a; [|done]. destruct Hr as [_ Ht]. split; [done|].
  cbn in *. rewrite Ht. unfold len. by rewrite Hl.
Qed.

Lemma LoadRun_Ok r0 s :
  valid_id (RN_ID r0) = Ok tt → ST_Runs s !! run_file (RN_ID r0) = Some (Data r0) →
  LoadRun json_len no_faults (RN_ID r0) s = Ok (replayJournal json_len (ST_Journals s !! RN_ID r0) r0).
Proof using.
  intros Hv Hs. unfold LoadRun. rewrite Hv. cbn. rewrite Hs. unfold no_faults. cbn. by rewrite String.eqb_refl.
Qed.

(** The load of a journal that ends in a newline. *)
Lemma whole_load r0 st saved :
  valid_id (RN_ID r0) = Ok tt → ST_Runs st.2 !! run_file (RN_ID r0) = Some (Data r0) →
  refines r0 st saved → readable (RN_ID r0) st.2 →
  ∃ r', LoadRun json_len no_faults (RN_ID r0) st.2 = Ok r' ∧
    RN_Status r' = RN_Status r0 ∧ (counted r0 → counted r') ∧ RN_Combinations r' = saved.
Proof using.
  intros Hv Hf [_ _ Ho Hs] Hread. eexists. split; [by apply LoadRun_Ok|].
  pose proof (replayJournal_spec (ST_Journals st.2 !! RN_ID r0) r0) as Hspec.
  pose proof (replayJournal_counted (ST_Journals st.2 !! RN_ID r0) r0) as Hcount.
  assert (scanned json_len (lines_of (default empty_journal (ST_Journals st.2 !! RN_ID r0))) =
          JL_Lines (default empty_journal (ST_Journals st.2 !! RN_ID r0))) as Hall.
  { unfold lines_of. rewrite Ho. cbn. rewrite scanned_all; [cbn; by rewrite app_nil_r|].
    destruct (ST_Journals st.2 !! RN_ID r0) as [j|] eqn:Ej; [by apply Hread|constructor]. }
  rewrite Hall in Hspec. destruct (foldl _ _ _) as [l a]. cbn [fst] in Hs. subst l. destruct Hspec as (-> & -> & _).
  split_and!; [done|exact Hcount|done].
Qed.

(** What the last append, cut anywhere, can do to a journal. *)
Lemma torn_lines n e j :
  JL_Open j = [] →
  lines_of (write_entry json_len n e j) = JL_Lines j ∨
  (∃ m, lines_of (write_entry json_len n e j) = JL_Lines j ++ [[Cut m]]) ∨
  lines_of (write_entry json_len n e j) = JL_Lines j ++ [[Whole e]].
Proof using.
  intros Ho. unfold write_entry, lines_of. rewrite Ho.
  destruct (_ <=? _); [left; cbn [JL_Lines JL_Open]; by rewrite Ho, app_nil_r|].
  destruct (_ <? _); [right; left; by exists n|]. right. right. by destruct (_ =? _); cbn; rewrite ?app_nil_r.
Qed.

(** The lines of a journal whose last append was cut. *)
Lemma torn_load r0 r s saved c n t :
  NoDup (ids (RN_Combinations r0)) → valid_id (RN_ID r0) = Ok tt → ST_Runs s !! run_file (RN_ID r0) = Some (Data r0) →
  refines r0 (r, s) saved → readable (RN_ID r0) s →
  ∃ r', LoadRun json_len no_faults (RN_ID r0) (deed (r, s) (DJournal c (AppendShort n t))).2 = Ok r' ∧
    RN_Status r' = RN_Status r0 ∧ (counted r0 → counted r') ∧
    (RN_Combinations r' = saved ∨ RN_Combinations r' = (atomic_deed (r, saved) (DJournal c AppendAll)).2).
Proof using Hlen.
  intros Hn Hv Hf [Hid Hids Ho Hs] Hread. cbn [fst snd] in *.
  set (s' := (deed (r, s) (DJournal c (AppendShort n t))).2).
  assert (ST_Runs s' = ST_Runs s) as Hruns by apply (deed_keeps (r, s) (DJournal c (AppendShort n t))).
  exists (replayJournal json_len (ST_Journals s' !! RN_ID r0) r0).
  split; [apply LoadRun_Ok; [done|by rewrite Hruns]|].
  set (j := default empty_journal (ST_Journals s !! RN_ID r0)) in *.
  assert (Forall (λ l, line_len json_len l < journalMaxLine) (JL_Lines j)) as Hshort.
  { unfold j. destruct (ST_Journals s !! RN_ID r0) as [j'|] eqn:Ej; [by apply Hread|constructor]. }
  pose proof (replayJournal_spec (ST_Journals s' !! RN_ID r0) r0) as Hspec.
  pose proof (replayJournal_counted (ST_Journals s' !! RN_ID r0) r0) as Hcount.
  set (index := entry_index (ids (RN_Combinations r0))) in *.
  assert (∃ st, foldl (replay_line index) (RN_Combinations r0, false)
                  (scanned json_len (lines_of (default empty_journal (ST_Journals s' !! RN_ID r0)))) = st ∧
                (st.1 = saved ∨ st.1 = (atomic_deed (r, saved) (DJournal c AppendAll)).2)) as ([l a] & Hst & Hl).
  { eexists. split; [done|]. cbn [atomic_deed snd fst].
    assert (scanned json_len (JL_Lines j) = JL_Lines j) as Hall.
    { pose proof (scanned_all _ Hshort []) as Happ. by rewrite !app_nil_r in Happ. }
    assert (lines_of j = JL_Lines j) as Hlj by (unfold lines_of; rewrite Ho; cbn; by rewrite app_nil_r).
    unfold s'. cbn [deed snd]. destruct (CombinationEntry (ID c) r) as [e|] eqn:Ee.
    - cbn. unfold AppendJournal. cbn [appendJournal]. cbn. rewrite Hid, lookup_insert_eq. cbn. fold j.
      destruct (CombinationEntry_Some _ _ _ Ee) as (i & Hi & He & _).
      destruct (torn_lines n e j Ho) as [-> |[[m ->]| ->]].
      + rewrite Hall. by left.
      + rewrite (scanned_all _ Hshort), foldl_app. cbn [scanned]. left. destruct (_ <? _); exact Hs.
      + rewrite (scanned_all _ Hshort), foldl_app. cbn [scanned]. destruct (_ <? _); [|left; exact Hs]. right. cbn [foldl].
        unfold replay_line at 1. cbn [decode_line].
        assert (index !! RC_ID e = Some i) as ->.
        { apply entry_index_lookup; [done|]. rewrite <- Hids. unfold ids. by rewrite list_lookup_fmap, He. }
        cbn. by rewrite Hi, He, Hs.
    - cbn. fold j. rewrite Hlj, Hall. by left. }
  rewrite Hst in Hspec. destruct Hspec as (-> & -> & _). split_and!; [done|exact Hcount|exact Hl].
Qed.

(** C24: A crash at any moment of the first session of a saved run with
    distinct entries, also in the middle of an append, the earlier ones being
    whole and every line short enough for the scanner: the run can be loaded,
    its counters are right, and its entries are those of a map in which every
    append is one atomic update - with or without the entry whose append was
    cut short. *)
Theorem a_crash_keeps_what_was_journaled r0 s0 ds torn :
  valid_id (RN_ID r0) = Ok tt → NoDup (ids (RN_Combinations r0)) →
  ST_Runs s0 !! run_file (RN_ID r0) = Some (Data r0) → ST_Journals s0 !! RN_ID r0 = None →
  whole_appends ds → readable (RN_ID r0) (foldl deed (r0, s0) ds).2 →
  let stopped := match torn with Some (c, n, t) => [DJournal c (AppendShort n t)] | None => [] end in
  ∃ r', LoadRun json_len no_faults (RN_ID r0) (foldl deed (r0, s0) (ds ++ stopped)).2 = Ok r' ∧
    RN_Status r' = RN_Status r0 ∧ (counted r0 → counted r') ∧
    (RN_Combinations r' = journaled r0 ds ∨
     ∃ c n t, torn = Some (c, n, t) ∧ RN_Combinations r' = journaled r0 (ds ++ [DJournal c AppendAll])).
Proof using Hlen.
  intros Hv Hn Hf Hj Hw Hread. cbv zeta.
  assert (refines r0 (r0, s0) (RN_Combinations r0)) as Hr by (split; cbn; by rewrite ?Hj).
  destruct (refines_deeds r0 ds r0 s0 _ Hn Hw Hr) as (Hr' & Hrun & Hruns).
  rewrite foldl_app. unfold journaled. setoid_rewrite foldl_app.
  destruct (foldl deed (r0, s0) ds) as [r s], (foldl atomic_deed _ ds) as [r'' saved]. cbn [fst snd] in *. subst r''.
  destruct torn as [[[c n] t]|]; cbn [foldl].
  - destruct (torn_load r0 r s saved c n t Hn Hv ltac:(by rewrite Hruns) Hr' Hread) as (r' & Hl & Hst & Hc & [He|He]);
      exists r'; split_and!; try done; [by left|right; exists c, n, t; by split].
  - destruct (whole_load r0 (r, s) saved Hv ltac:(cbn; by rewrite Hruns) Hr' Hread) as (r' & Hl & Hst & Hc & He).
    exists r'. split_and!; [done..|by left].
Qed.
End Journal.

(** ** What a resume executes *)

Definition deed_id (d : Deed) : string :=
  match d with DMark c _ _ => ID c | DRecord res => ID (RE_Combination res) | DJournal c _ => ID c end.
Definition about (id : string) (ds : list Deed) : list Deed := List.filter (λ d, deed_id d =s id) ds.

(** The callbacks of one combination in the order a worker makes them, up to a
    crash: attempts, then perhaps a result, each followed by an append. *)
Inductive worker_trace (c : Combination) : list Deed → Prop :=
| wt_nothing : worker_trace c []
| wt_marked n t : worker_trace c [DMark c n t]
| wt_recorded r : RE_Combination r = c → final (RE_Status r) = true → worker_trace c [DRecord r]
| wt_attempt n t io ds :
    (∀ k x, io ≠ AppendShort k x) → worker_trace c ds → worker_trace c (DMark c n t :: DJournal c io :: ds)
| wt_done r io :
    (∀ k x, io ≠ AppendShort k x) → RE_Combination r = c → final (RE_Status r) = true →
    worker_trace c [DRecord r; DJournal c io].

(** A result was recorded and its append went through. *)
Fixpoint recorded (ds : list Deed) : bool :=
  match ds with
  | DRecord _ :: (DJournal _ AppendAll :: _) => true
  | _ :: ds => recorded ds
  | [] => false
  end.

Section Resume.
Context (lower_rune : string → string) (g : secretRegistry) (json_len : RunCombination → Z).
Hypothesis Hlen : ∀ e, 0 < json_len e.

Abbreviation deed := (deed lower_rune g json_len).
Abbreviation atomic_deed := (atomic_deed lower_rune g json_len).

(** One entry, and what is journaled of it, under a deed about it. *)
Definition entry_deed (x : RunCombination * RunCombination) (d : Deed) : RunCombination * RunCombination :=
  match d with
  | DMark _ n t => (if final (RC_Status x.1) then x.1 else started_entry n t x.1, x.2)
  | DRecord res => (with_outcome lower_rune g res x.1, x.2)
  | DJournal _ AppendAll => (x.1, x.1)
  | DJournal _ _ => x
  end.

Lemma RecordResult_lookup res r i e :
  NoDup (ids (RN_Combinations r)) → RN_Combinations r !! i = Some e →
  RN_Combinations (RecordResult lower_rune g res r) !! i =
    Some (if RC_ID e =s ID (RE_Combination res) then with_outcome lower_rune g res e else e).
Proof using.
  intros Hn Hi. unfold RecordResult. destruct (find_entry _ _) as [k|] eqn:Ek.
  - destruct (find_entry_Some _ _ _ Ek) as (rc & Hk & Hid). rewrite Hk. cbv zeta. rewrite count_entries, uncount_entries.
    cbn [with_entries RN_Combinations]. destruct (RC_ID e =s ID (RE_Combination res)) eqn:E; bool_prop.
    + rewrite <- E, (find_entry_at _ _ _ Hn Hi) in Ek. injection Ek as <-. assert (rc = e) as -> by congruence.
      apply list_lookup_insert_eq. by eapply lookup_lt_Some.
    + rewrite list_lookup_insert_ne; [done|]. intros ->. congruence.
  - destruct (RC_ID e =s ID (RE_Combination res)) eqn:E; bool_prop; [|done].
    rewrite <- E, (find_entry_at _ _ _ Hn Hi) in Ek. done.
Qed.

Lemma MarkRunning_lookup id n t r i e :
  NoDup (ids (RN_Combinations r)) → RN_Combinations r !! i = Some e →
  RN_Combinations (MarkRunning id n t r) !! i =
    Some (if RC_ID e =s id then (if final (RC_Status e) then e else started_entry n t e) else e).
Proof using.
  intros Hn Hi. unfold MarkRunning. destruct (find_entry id _) as [k|] eqn:Ek.
  - destruct (find_entry_Some _ _ _ Ek) as (rc & Hk & Hid). rewrite Hk. cbv zeta.
    destruct (RC_ID e =s id) eqn:E; bool_prop.
    + rewrite <- E, (find_entry_at _ _ _ Hn Hi) in Ek. injection Ek as <-. assert (rc = e) as -> by congruence.
      destruct (final (RC_Status e)); [done|]. rewrite count_entries, uncount_entries.
      apply list_lookup_insert_eq. by eapply lookup_lt_Some.
    + destruct (final (RC_Status rc)); [done|]. rewrite count_entries, uncount_entries. cbn [with_entries RN_Combinations].
      rewrite list_lookup_insert_ne; [done|]. intros ->. congruence.
  - destruct (RC_ID e =s id) eqn:E; bool_prop; [|done]. rewrite <- E, (find_entry_at _ _ _ Hn Hi) in Ek. done.
Qed.

(** Each entry follows the deeds about it. *)
Lemma atomic_deed_lookup r l d i e v :
  NoDup (ids (RN_Combinations r)) → RN_Combinations r !! i = Some e → l !! i = Some v →
  let x := if deed_id d =s RC_ID e then entry_deed (e, v) d else (e, v) in
  RN_Combinations (atomic_deed (r, l) d).1 !! i = Some x.1 ∧ (atomic_deed (r, l) d).2 !! i = Some x.2.
Proof using.
  intros Hn Hi Hv. destruct d as [c n t|res|c io]; cbn [atomic_deed fst snd deed_id deed].
  - rewrite (MarkRunning_lookup _ _ _ _ _ _ Hn Hi). rewrite String.eqb_sym. by destruct (ID c =s RC_ID e).
  - rewrite (RecordResult_lookup _ _ _ _ Hn Hi), String.eqb_sym. by destruct (_ =s _).
  - unfold MatrixSession.deed. destruct (CombinationEntry _ _) as [e'|] eqn:Ee; cbn [fst snd].
    + destruct (CombinationEntry_Some _ _ _ Ee) as (k & Hk & He' & Hid). destruct (ID c =s RC_ID e) eqn:E; bool_prop.
      * rewrite E, (find_entry_at _ _ _ Hn Hi) in Hk. injection Hk as <-. assert (e' = e) as -> by congruence.
        destruct io; cbn; [done|done|]. rewrite E, (find_entry_at _ _ _ Hn Hi), Hi.
        split; [done|]. apply list_lookup_insert_eq. by eapply lookup_lt_Some.
      * destruct io; cbn; [done|done|]. rewrite Hk, He'. split; [done|]. rewrite list_lookup_insert_ne; [done|].
        intros ->. congruence.
    + assert (find_entry (ID c) (RN_Combinations r) = None) as Hnone.
      { unfold CombinationEntry in Ee. destruct (find_entry (ID c) _) as [k|] eqn:Ek; [|done].
        destruct (find_entry_Some _ _ _ Ek) as (rc & Hk & _). cbn in Ee. congruence. }
      destruct (ID c =s RC_ID e) eqn:E; bool_prop.
      * rewrite E, (find_entry_at _ _ _ Hn Hi) in Hnone. done.
      * destruct io; cbn; [done|done|]. by rewrite Hnone.
Qed.

Lemma entry_deed_id x d : RC_ID (entry_deed x d).1 = RC_ID x.1.
Proof using. destruct d as [c n t|res|c [| |]]; cbn; try done. by destruct (final _). Qed.

Lemma atomic_deeds_lookup ds : ∀ r l i e v,
  NoDup (ids (RN_Combinations r)) → RN_Combinations r !! i = Some e → l !! i = Some v →
  (foldl atomic_deed (r, l) ds).2 !! i = Some (foldl entry_deed (e, v) (about (RC_ID e) ds)).2.
Proof using.
  induction ds as [|d ds IH]; intros r l i e v Hn Hi Hv; [done|]. cbn [foldl about List.filter].
  destruct (atomic_deed_lookup r l d i e v Hn Hi Hv) as [H1 H2].
  destruct (deed_keeps lower_rune g json_len (r, no_runs) d) as (Hids & _). cbn [fst] in Hids.
  destruct (atomic_deed (r, l) d) as [r' l'] eqn:Ea. cbn [fst snd] in *.
  assert (r' = (deed (r, no_runs) d).1) as Hr' by (by injection Ea). rewrite <- Hr' in Hids. clear Hr' Ea.
  fold (about (RC_ID e) ds). destruct (deed_id d =s RC_ID e) eqn:E.
  - cbn [foldl]. pose proof (entry_deed_id (e, v) d) as Hide. cbn [fst] in Hide.
    destruct (entry_deed (e, v) d) as [e' v'] eqn:Ed. cbn [fst snd] in *. rewrite <- Hide. apply IH; [by rewrite Hids|done|done].
  - apply IH; [by rewrite Hids|done|done].
Qed.

(** The journaled entry at the end of a trace. *)
Lemma trace_entry c ds : worker_trace c ds → ∀ e v,
  final (RC_Status e) = false → incomplete v = true → rc_combination e = rc_combination v →
  let v' := (foldl entry_deed (e, v) ds).2 in
  incomplete v' = negb (recorded ds) ∧ rc_combination v' = rc_combination v.
Proof using.
  induction 1 as [|n t|r Hr Hf|n t io ds Hio _ IH|r io Hio Hr Hf]; intros e v He Hv Hev.
  - done.
  - done.
  - done.
  - cbn [foldl entry_deed fst snd]. rewrite He. destruct io as [x|k x|]; [|by destruct (Hio k x)|].
    + cbn [recorded]. by apply IH.
    + cbn [recorded fst snd]. rewrite <- Hev. by apply (IH (started_entry n t e) (started_entry n t e)).
  - destruct io as [x|k x|]; [|by destruct (Hio k x)|].
    + done.
    + cbn. split; [|done]. unfold incomplete, with_outcome. cbn [RC_Status]. apply bool_decide_eq_false_2.
      intros Hin. unfold final, group_of in Hf. repeat (apply elem_of_cons in Hin as [Hin|Hin]; [by rewrite Hin in Hf|]).
      inversion Hin.
Qed.

(** The entries of a new run. *)
Lemma seed_fresh id combs : ∀ seen,
  NoDup (ID <$> combs) → (∀ c, c ∈ combs → ID c ∉ seen) → seed_entries id seen combs = newRunCombination id <$> combs.
Proof using.
  induction combs as [|c combs IH]; intros seen Hn Hs; [done|]. cbn [seed_entries]. rewrite fmap_cons in Hn.
  apply NoDup_cons in Hn as [Hc Hn].
  rewrite bool_decide_eq_false_2 by (apply Hs; left). rewrite fmap_cons. f_equal. apply IH; [done|].
  intros c' Hc'. rewrite elem_of_union, elem_of_singleton. intros [Heq|Hin].
  - apply Hc. rewrite <- Heq. apply list_elem_of_fmap. eauto.
  - by apply (Hs c'); [right|].
Qed.

Lemma InitCombinations_fresh combs r :
  NoDup (ID <$> combs) → RN_Combinations r = [] →
  RN_Combinations (InitCombinations combs r) = newRunCombination (RN_ID r) <$> combs.
Proof using.
  intros Hn Hr. unfold InitCombinations. cbn. rewrite Hr. cbn. apply seed_fresh; [done|]. intros c _. apply not_elem_of_empty.
Qed.

Lemma journaled_length ds : ∀ st, length (foldl atomic_deed st ds).2 = length st.2.
Proof using.
  induction ds as [|d ds IH]; intros st; [done|]. cbn [foldl]. rewrite IH. destruct d as [c n t|res|c [| |]]; try done. cbn.
  destruct (find_entry _ _) as [i|]; [|done]. destruct (_ !! i); [|done]. apply length_insert.
Qed.

Lemma filter_two {A B} (p : A → bool) (q : B → bool) (h : B → A) : ∀ (l : list A) (m : list B),
  length l = length m → (∀ i x y, l !! i = Some x → m !! i = Some y → q y = p x ∧ h y = x) →
  h <$> List.filter q m = List.filter p l.
Proof using.
  induction l as [|x l IH]; intros [|y m] Hl Hall; try done. cbn [List.filter].
  destruct (Hall O x y eq_refl eq_refl) as [-> Hh]. injection Hl as Hl.
  pose proof (IH m Hl (λ i x y, Hall (S i) x y)) as IH'. destruct (p x); [|done]. rewrite fmap_cons. by rewrite Hh, IH'.
Qed.

(** C23: After a crash at any moment of the first session of a saved run of
    distinct combinations of known languages, whatever the interleaving of its
    workers ([worker_trace]), a resume selects exactly the combinations, in the
    order of the plan, whose result is not in the journal; no append having been
    cut short and every line short enough for the scanner. *)
Theorem a_resume_builds_what_is_missing combs r s0 ds :
  let r0 := InitCombinations combs r in
  valid_id (RN_ID r) = Ok tt → RN_Combinations r = [] → RN_Status r = RunStatusRunning →
  NoDup (ID <$> combs) → (∀ c, c ∈ combs → ParseLanguage (C_Lang c) = C_Lang c) →
  ST_Runs s0 !! run_file (RN_ID r) = Some (Data r0) → ST_Journals s0 !! RN_ID r = None →
  whole_appends ds → readable json_len (RN_ID r) (foldl deed (r0, s0) ds).2 →
  (∀ c, c ∈ combs → worker_trace c (about (ID c) ds)) →
  ∃ r', LoadRun json_len no_faults (RN_ID r) (foldl deed (r0, s0) ds).2 = Ok r' ∧
    IncompleteCombinations r' = List.filter (λ c, negb (recorded (about (ID c) ds))) combs ∧
    (Resumable (Some r') = true ↔ IncompleteCombinations r' ≠ []).
Proof using Hlen.
  cbv zeta. intros Hv Hr Hst Hn Hlang Hf Hj Hw Hread Htrace.
  pose proof (InitCombinations_fresh combs r Hn Hr) as He. set (r0 := InitCombinations combs r) in *.
  assert (RN_ID r0 = RN_ID r) as Hid by done. assert (RN_Status r0 = RN_Status r) as Hs0 by done. clearbody r0. rewrite <- Hid in *.
  assert (ids (RN_Combinations r0) = ID <$> combs) as Hids.
  { rewrite He. unfold ids. rewrite <- list_fmap_compose. done. }
  assert (NoDup (ids (RN_Combinations r0))) as Hn0 by (by rewrite Hids).
  assert (refines r0 (r0, s0) (RN_Combinations r0)) as Hrf by (split; cbn; by rewrite ?Hj).
  destruct (refines_deeds lower_rune g json_len Hlen r0 ds r0 s0 _ Hn0 Hw Hrf) as (Hrf' & _ & Hruns).
  destruct (whole_load json_len r0 _ _ Hv ltac:(by rewrite Hruns) Hrf' Hread) as (r' & Hl & Hstat & _ & Hc).
  exists r'. split; [exact Hl|]. clear Hl Hrf' Hrf Hruns.
  assert (IncompleteCombinations r' =
          List.filter (λ c, negb (recorded (about (ID c) ds))) combs) as Hinc.
  { unfold IncompleteCombinations. rewrite Hc. apply filter_two.
    - rewrite journaled_length. cbn [snd]. by rewrite He, length_fmap.
    - intros i c v Hci Hvi.
      assert (RN_Combinations r0 !! i = Some (newRunCombination (RN_ID r0) c)) as Hei by (by rewrite He, list_lookup_fmap, Hci).
      pose proof (atomic_deeds_lookup ds r0 _ i _ _ Hn0 Hei Hei) as Hlk. rewrite Hlk in Hvi. injection Hvi as <-.
      assert (c ∈ combs) as Hin by (by eapply list_elem_of_lookup_2).
      destruct (trace_entry c _ (Htrace c Hin) (newRunCombination (RN_ID r0) c) (newRunCombination (RN_ID r0) c)
        eq_refl eq_refl eq_refl) as [-> ->]. split; [done|].
      unfold rc_combination. cbn. rewrite (Hlang c Hin). by destruct c. }
  split; [exact Hinc|]. unfold Resumable. rewrite Hstat, Hs0, Hst. change (IsTerminalRunStatus RunStatusRunning) with false. cbv iota.
  unfold IncompleteCombinations. rewrite existsb_exists. split.
  - intros (x & Hx & Hxi) Hnil. apply fmap_nil_inv in Hnil.
    assert (x ∈ List.filter incomplete (RN_Combinations (r'))) as Hin.
    { apply list_elem_of_In, List.filter_In. done. }
    rewrite Hnil in Hin. inversion Hin.
  - intros Hne. destruct (List.filter incomplete _) as [|x rest] eqn:Ef; [done|]. exists x.
    assert (In x (List.filter incomplete (RN_Combinations (r')))) as Hin by (rewrite Ef; by left).
    by apply List.filter_In in Hin.
Qed.
End Resume.

(** ** Runs *)

Module RunSamples.
Definition same_rune (s : string) : string := s.
Definition hundred (e : RunCombination) : Z := 100.
Definition linux : Combination := of_platform Go "1.22" "linux/amd64".
Definition darwin : Combination := of_platform Go "1.22" "darwin/arm64".
Definition plan : list Combination := [linux; darwin].
Definition built (c : Combination) : Result := mkResult c "success" 5 "/out/app" None "" "" "" [mkAttempt 1 "success" 5 None].

Definition id1 : string := "mx_20260909_8f31".
Definition begun : Run := NewRun id1 "web" "/srv/web" (Some (mkProfile Go ["1.22"] [] 2 [] [] 0 no_source)) 1.
Definition run0 : Run := InitCombinations plan begun.
Definition store0 : Store := (SaveRun no_faults (Some run0) no_runs).2.

(** Both combinations are started, the first is built and its result appended. *)
Definition first_done : list Deed :=
  [DMark linux 1 2; DMark darwin 1 2; DJournal linux AppendAll; DJournal darwin AppendAll; DRecord (built linux);
   DJournal linux AppendAll; DRecord (built darwin)].

Lemma id1_valid : valid_id (RN_ID begun) = Ok tt.
Proof. vm_compute. reflexivity. Qed.

Lemma plan_ids : NoDup (ID <$> plan).
Proof. refine (bool_decide_unpack _ _). vm_compute. exact I. Qed.

Lemma first_done_whole : whole_appends first_done.
Proof.
  intros c n t H. unfold first_done in H. repeat (apply elem_of_cons in H as [H|H]; [discriminate H|]). by apply not_elem_of_nil in H.
Qed.

Lemma first_done_readable :
  readable hundred (RN_ID begun) (foldl (deed same_rune empty_registry hundred) (run0, store0) first_done).2.
Proof.
  intros j Hj. vm_compute in Hj. injection Hj as <-.
  repeat (apply Forall_cons; split; [vm_compute; reflexivity|]). by apply Forall_nil.
Qed.

Lemma first_done_traces c : c ∈ plan → worker_trace c (about (ID c) first_done).
Proof.
  intros H. apply elem_of_cons in H as [-> |H].
  - change (about (ID linux) first_done) with [DMark linux 1 2; DJournal linux AppendAll; DRecord (built linux); DJournal linux AppendAll].
    apply wt_attempt; [by intros|]. by apply wt_done.
  - apply list_elem_of_singleton in H as ->.
    change (about (ID darwin) first_done) with [DMark darwin 1 2; DJournal darwin AppendAll; DRecord (built darwin)].
    apply wt_attempt; [by intros|]. by apply wt_recorded.
Qed.

Lemma a_crash_keeps_what_was_journaled_witness :
  let stopped := [DJournal darwin (AppendShort 40 "killed")] in
  ∃ r', LoadRun hundred no_faults id1 (foldl (deed same_rune empty_registry hundred) (run0, store0) (first_done ++ stopped)).2 = Ok r' ∧
    RN_Status r' = RunStatusRunning ∧ (counted run0 → counted r') ∧
    (RN_Combinations r' = journaled same_rune empty_registry hundred run0 first_done ∨
     ∃ c n t, Some (darwin, 40, "killed") = Some (c, n, t) ∧
       RN_Combinations r' = journaled same_rune empty_registry hundred run0 (first_done ++ [DJournal c AppendAll])).
Proof.
  apply (a_crash_keeps_what_was_journaled same_rune empty_registry hundred (λ _, eq_refl) run0 store0 first_done (Some (darwin, 40, "killed"))).
  - exact id1_valid.
  - refine (bool_decide_unpack _ _). vm_compute. exact I.
  - vm_compute. reflexivity.
  - vm_compute. reflexivity.
  - exact first_done_whole.
  - exact first_done_readable.
Defined.

Lemma a_resume_builds_what_is_missing_witness :
  ∃ r', LoadRun hundred no_faults id1 (foldl (deed same_rune empty_registry hundred) (run0, store0) first_done).2 = Ok r' ∧
    IncompleteCombinations r' = [darwin] ∧ (Resumable (Some r') = true ↔ IncompleteCombinations r' ≠ []).
Proof.
  destruct (a_resume_builds_what_is_missing same_rune empty_registry hundred (λ _, eq_refl) plan begun store0 first_done)
    as (r' & Hl & Hi & Hr).
  - exact id1_valid.
  - reflexivity.
  - reflexivity.
  - exact plan_ids.
  - intros c H. apply elem_of_cons in H as [-> |H]; [vm_compute; reflexivity|].
    apply list_elem_of_singleton in H as ->. vm_compute. reflexivity.
  - vm_compute. reflexivity.
  - vm_compute. reflexivity.
  - exact first_done_whole.
  - exact first_done_readable.
  - exact first_done_traces.
  - exists r'. split; [exact Hl|]. split; [|exact Hr]. rewrite Hi. vm_compute. reflexivity.
Defined.

Definition after (ds : list Deed) : Run * Store := foldl (deed same_rune empty_registry hundred) (run0, store0) ds.
Definition loaded_after (ds : list Deed) : option Run := match LoadRun hundred no_faults id1 (after ds).2 with Ok r => Some r | Err _ => None end.

(** The first append of a result is cut short and the next one goes on in its
    line: the result that was written whole is not read back. *)
Example a_torn_append_swallows_the_next :
  RC_Status <$> default [] (RN_Combinations <$> loaded_after
    [DRecord (built linux); DJournal linux (AppendShort 40 "no space"); DRecord (built darwin); DJournal darwin AppendAll]) =
  ["pending"; "pending"].
Proof. vm_compute. reflexivity. Qed.

(** All results are in the journal and the process dies before the record is
    closed: the run reads as running, and cannot be resumed. *)
Definition all_done : list Deed := [DRecord (built linux); DJournal linux AppendAll; DRecord (built darwin); DJournal darwin AppendAll].

Example a_complete_run_stays_running :
  (λ r, (RN_Status r, Resumable (Some r), IncompleteCombinations r)) <$> loaded_after all_done =
    Some (RunStatusRunning, false, []).
Proof. vm_compute. reflexivity. Qed.

(** A process that has created its lock file and not yet written its number is
    taken for dead: both hold the lock. *)
Definition half_locked : Store := with_locks {[ id1 := "" ]} store0.

Example an_unwritten_lock_is_taken_over :
  let '(r, s) := AcquireRunLock no_faults (λ _, true) 77 id1 half_locked in
  r = Ok tt ∧ ST_Locks s !! id1 = Some "77".
Proof. vm_compute. split; reflexivity. Qed.

(** A plan without combinations: the command succeeds, and its run stays. *)
Example an_empty_plan_leaves_its_run_running :
  let '(r, s) := fresh_build same_rune empty_registry hundred no_faults (λ _, true) 77 (mkExecution [] [] false 9) id1 "web" "/srv/web"
    (mkProfile Go ["1.22"] [] 2 [] [] 0 no_source) [] [] 1 no_runs in
  r = Ok tt ∧ (RN_Status <$> match LoadRun hundred no_faults id1 s with Ok r => Some r | Err _ => None end) = Some RunStatusRunning.
Proof. vm_compute. split; reflexivity. Qed.
End RunSamples.
