(* ===== verification/Supervisor.v ===== *)
(** * Supervisor: keeping worker replicas alive
      (src/internal/supervisor/policy.go, supervisor.go and the worker replica
      operations it drives in src/internal/deploy/worker_ops.go, instance.go)

    One reconcile pass of the monitor daemon.  What the operating system, the
    clock and the other processes show during the pass is a record of
    observations; what the pass does (launch, stop, probe, reset of the restart
    counter) is a list of actions.  Times are nanoseconds since Go's zero
    [time.Time], so the zero time is [0]; durations are 64-bit. *)

From S2P Require Import Prelude GoLib GoFloat Errors.

(** ** Restart policy *)

Definition second : Z := 1000000000.

(* src: internal/supervisor/policy.go:18-25 Decision *)
Inductive Decision := DecisionRestart | DecisionComplete | DecisionFail.

#[export] Instance Decision_eq_dec : EqDecision Decision.
Proof. solve_decision. Defined.

Definition RestartNever := "never".
Definition RestartAlways := "always".
Definition RestartOnFailure := "on-failure".

(* src: internal/supervisor/policy.go Evaluate *)
Definition Evaluate (policy : string) (exitCode : Z) : Decision :=
  let failed := negb (exitCode =? 0) in
  if policy =s RestartNever then (if failed then DecisionFail else DecisionComplete)
  else if policy =s RestartAlways then DecisionRestart
  else if failed then DecisionRestart else DecisionComplete.

Section Delays.
(** [int64] of a float64 out of range. *)
Variable out_of_range : spec_float → Z.

(** The loop of [Backoff], at most [n] turns. *)
(* src: internal/supervisor/policy.go:56-58 Backoff *)
Fixpoint backoff_loop (max : Z) (multiplier : spec_float) (n : nat) (d : Z) : Z :=
  match n with
  | O => d
  | S n =>
      if d <? max then
        backoff_loop max multiplier n
          (f64_to_int64 out_of_range (f64_mul (f64_of_Z d) multiplier))
      else d
  end.

(* src: internal/supervisor/policy.go Backoff *)
Definition Backoff (initial max : Z) (multiplier : spec_float) (attempt : Z) : Z :=
  let attempt := if attempt <? 0 then 0 else attempt in
  let d := backoff_loop max multiplier (Z.to_nat attempt) initial in
  let d := if max <? d then max else d in
  if d <=? 0 then second else d.

(* src: internal/supervisor/policy.go JitterFactor *)
Definition JitterFactor : spec_float := f64_const 1 5.

(* src: internal/supervisor/policy.go ApplyJitter *)
Definition ApplyJitter (d : Z) (r : spec_float) : Z :=
  let r := if f64_lt JitterFactor r then JitterFactor else r in
  let r := if f64_lt r (SFopp JitterFactor) then SFopp JitterFactor else r in
  let scaled := f64_to_int64 out_of_range (f64_mul (f64_of_Z d) (f64_add (f64_of_Z 1) r)) in
  if scaled <? 0 then d else scaled.
End Delays.

(** ** Configuration and records *)

(* src: internal/project/worker_schema.go ProcessSettings *)
Record ProcessSettings := mkProcess {
  RestartPolicy : string; MaxRestartAttempts : Z; BackoffInitial : Z; BackoffMax : Z;
  BackoffMultiplier : spec_float; ShutdownSignal : string; GracePeriod : Z; StartupTimeout : Z
}.

(** [Resolve] of an absent [process] block: the documented defaults. *)
(* src: internal/project/worker_schema.go:211-223 ProcessConfig.Resolve *)
Definition default_process : ProcessSettings :=
  {| RestartPolicy := RestartOnFailure; MaxRestartAttempts := 10; BackoffInitial := 2 * second;
     BackoffMax := 60 * second; BackoffMultiplier := f64_of_Z 2; ShutdownSignal := "SIGTERM";
     GracePeriod := 30 * second; StartupTimeout := 30 * second |}.

(* src: internal/project/worker_schema.go StableWindow *)
Definition StableWindow : Z := 300 * second.

Definition WorkerHealthExec := "exec".

(* src: internal/project/worker_schema.go WorkerHealthSettings *)
Record WorkerHealthSettings := mkHealth {
  H_Mode : string; H_Command : list string; H_Interval : Z; H_Timeout : Z; H_Retries : Z
}.

(** The fields of a replica record that supervision reads or writes; the others
    (port, container, version, environment) are carried along. *)
(* src: internal/deploy/state.go Instance *)
Record Instance := mkInstance {
  I_PID : Z; I_StartTicks : Z; I_BinaryPath : string; I_StartedAt : Z; I_Status : string;
  I_RestartCount : Z; I_LastRestartAt : Z;
  I_LastExitCode : Z; I_LastExitReason : string; I_LastExitAt : Z; I_ReadyAt : Z
}.

Definition with_status (i : Instance) (status : string) : Instance :=
  {| I_PID := I_PID i; I_StartTicks := I_StartTicks i; I_BinaryPath := I_BinaryPath i;
     I_StartedAt := I_StartedAt i; I_Status := status; I_RestartCount := I_RestartCount i;
     I_LastRestartAt := I_LastRestartAt i; I_LastExitCode := I_LastExitCode i;
     I_LastExitReason := I_LastExitReason i; I_LastExitAt := I_LastExitAt i;
     I_ReadyAt := I_ReadyAt i |}.

Definition with_restart (i : Instance) (count at_ : Z) : Instance :=
  {| I_PID := I_PID i; I_StartTicks := I_StartTicks i; I_BinaryPath := I_BinaryPath i;
     I_StartedAt := I_StartedAt i; I_Status := I_Status i; I_RestartCount := count;
     I_LastRestartAt := at_; I_LastExitCode := I_LastExitCode i;
     I_LastExitReason := I_LastExitReason i; I_LastExitAt := I_LastExitAt i;
     I_ReadyAt := I_ReadyAt i |}.

Definition with_exit (i : Instance) (code : Z) (reason : string) (at_ : Z) : Instance :=
  {| I_PID := I_PID i; I_StartTicks := I_StartTicks i; I_BinaryPath := I_BinaryPath i;
     I_StartedAt := I_StartedAt i; I_Status := I_Status i; I_RestartCount := I_RestartCount i;
     I_LastRestartAt := I_LastRestartAt i; I_LastExitCode := code; I_LastExitReason := reason;
     I_LastExitAt := at_; I_ReadyAt := I_ReadyAt i |}.

Definition with_ready (i : Instance) (at_ : Z) : Instance :=
  {| I_PID := I_PID i; I_StartTicks := I_StartTicks i; I_BinaryPath := I_BinaryPath i;
     I_StartedAt := I_StartedAt i; I_Status := I_Status i; I_RestartCount := I_RestartCount i;
     I_LastRestartAt := I_LastRestartAt i; I_LastExitCode := I_LastExitCode i;
     I_LastExitReason := I_LastExitReason i; I_LastExitAt := I_LastExitAt i; I_ReadyAt := at_ |}.

(** [a.Sub(b)]: saturates. *)
Definition t_Sub (a b : Z) : Z := Z.max (- 2 ^ 63) (Z.min (2 ^ 63 - 1) (a - b)).

(** ** Processes *)

(** What [Process.Wait] returns: nothing, an [exec.ExitError] with its code
    ([-1] for a signal), another error (the classified OOM kill is one), or an
    exit that could not be confirmed. *)
Inductive waited :=
| WaitNil
| WaitExit (code : Z) (text : string)
| WaitErr (e : error)
| WaitUnconfirmed (e : error).

(* src: internal/deploy/worker_ops.go exitCodeOf *)
Definition exitCodeOf (w : waited) : Z * string :=
  match w with
  | WaitNil => (0, "clean exit")
  | WaitExit code text => (code, text)
  | WaitErr e | WaitUnconfirmed e =>
      match CodeOf (Some e) with
      | CodeResourceOOM => (-1, "resource OOM")
      | _ => (-1, Error e)
      end
  end.

(** A process looked up by its recorded identity: [processex.Matches]. *)
Definition identity_check : Type := Z → Z → string → bool.

(* src: internal/deploy/worker_ops.go WorkerInstanceAlive *)
Definition WorkerInstanceAlive (matches : identity_check) (i : Instance) : bool :=
  if I_PID i <=? 0 then false else matches (I_PID i) (I_StartTicks i) (I_BinaryPath i).

(** What stopping a process shows: its identity is checked again, an adopted
    process is looked up ([os.FindProcess]), [Wait] may return within the grace
    period, the kill may fail, and [Wait] may return after it. *)
Record stop_obs := mkStop {
  st_matches : identity_check;
  st_find_error : option error;
  st_graceful : option waited;
  st_kill_error : option error;
  st_killed : option waited
}.

(* src: internal/deploy/instance.go ShutdownReport *)
Record ShutdownReport := mkReport { SR_ForceKilled : bool; SR_Exited : bool; SR_waitErr : waited }.

(** The background context never expires; [kill_error] is not
    [os.ErrProcessDone]. *)
(* src: internal/deploy/instance.go GracefulStopSignal *)
Definition GracefulStopSignal (o : stop_obs) : ShutdownReport * option error :=
  let report_of killed w :=
    match w with
    | WaitUnconfirmed e => (mkReport killed false w, Some e)
    | _ => (mkReport killed true w, None)
    end in
  match st_graceful o with
  | Some w => report_of false w
  | None =>
      match st_kill_error o with
      | Some e => (mkReport false false WaitNil,
                   Some (wrap CodeProcessFailed "deploy: SIGKILL failed" e))
      | None =>
          match st_killed o with
          | Some w => report_of true w
          | None => (mkReport true false WaitNil,
                     Some (New CodeProcessFailed "cannot confirm process exit after SIGKILL"))
          end
      end
  end.

(* src: internal/deploy/worker_ops.go GracefulStopWorker *)
Definition GracefulStopWorker (o : stop_obs) (i : Instance) (held : bool)
  : ShutdownReport * waited * option error :=
  if negb (WorkerInstanceAlive (st_matches o) i) then (mkReport false true WaitNil, WaitNil, None)
  else match (if held then None else st_find_error o) with
  | Some e => (mkReport false false WaitNil, WaitNil,
               Some (wrap CodeProcessFailed ("worker: adopt pid " +:+ Itoa (I_PID i)) e))
  | None => let '(report, e) := GracefulStopSignal o in (report, SR_waitErr report, e)
  end.

(** What launching a replica shows: the environment, the start (a PID and its
    start time) and the write of the deploy state. *)
Record launch_obs := mkLaunch {
  lo_env_error : option error;
  lo_start : res (Z * Z);
  lo_store_error : option error
}.

(* src: internal/deploy/worker_ops.go markWorkerLaunched *)
Definition markWorkerLaunched (now pid ticks : Z) (i : Instance) : Instance :=
  {| I_PID := pid; I_StartTicks := ticks; I_BinaryPath := I_BinaryPath i; I_StartedAt := now;
     I_Status := "starting"; I_RestartCount := I_RestartCount i;
     I_LastRestartAt := I_LastRestartAt i; I_LastExitCode := 0; I_LastExitReason := "";
     I_LastExitAt := 0; I_ReadyAt := 0 |}.

(** A launched process whose record could not be written is stopped again. *)
(* src: internal/deploy/worker_ops.go launchWorkerReplica *)
Definition LaunchWorkerReplica (o : launch_obs) (now : Z) (slot : string) (i : Instance)
  : res Z * Instance :=
  if I_BinaryPath i =s "" then
    (Err (New CodeConfiguration
            ("worker: replica " +:+ slot +:+ " has no binary recorded (deploy first)")), i)
  else match lo_env_error o with
  | Some e => (Err e, i)
  | None =>
      match lo_start o with
      | Err e => (Err e, i)
      | Ok (pid, ticks) =>
          let i := markWorkerLaunched now pid ticks i in
          match lo_store_error o with
          | Some e => (Err e, i)
          | None => (Ok pid, i)
          end
      end
  end.

(* src: internal/deploy/worker_ops.go RecordInstanceExit *)
Definition RecordInstanceExit (now : Z) (w : waited) (adopted : bool) (i : Instance) : Instance :=
  if adopted then with_exit i (-1) "unknown (process not supervised from spawn)" now
  else let '(code, reason) := exitCodeOf w in with_exit i code reason now.

(** ** The supervisor's memory *)

(* src: internal/supervisor/supervisor.go replicaKey *)
Definition replicaKey : Type := string * string.

(* src: internal/deploy/worker_probe.go ProbeOutcome *)
Record ProbeOutcome := mkProbe { PO_OK : bool; PO_Detail : string }.

(** A handle is the PID of the spawned process.  A probe run holds its outcome
    when it failed before it started; otherwise the outcome is observed. *)
(* src: internal/supervisor/supervisor.go Supervisor *)
Record Supervisor := mkSup {
  handles : gmap replicaKey Z;
  probes : gmap replicaKey (option ProbeOutcome);
  probeFails : gmap replicaKey Z;
  nextProbe : gmap replicaKey Z
}.

(* src: internal/supervisor/supervisor.go:71-74 New *)
Definition New_supervisor : Supervisor := mkSup ∅ ∅ ∅ ∅.

Definition with_handles (s : Supervisor) (m : gmap replicaKey Z) : Supervisor :=
  mkSup m (probes s) (probeFails s) (nextProbe s).
Definition with_probes (s : Supervisor) (m : gmap replicaKey (option ProbeOutcome)) : Supervisor :=
  mkSup (handles s) m (probeFails s) (nextProbe s).
Definition with_fails (s : Supervisor) (m : gmap replicaKey Z) : Supervisor :=
  mkSup (handles s) (probes s) m (nextProbe s).
Definition with_next (s : Supervisor) (m : gmap replicaKey Z) : Supervisor :=
  mkSup (handles s) (probes s) (probeFails s) m.

(** What one pass over one replica shows: the clock at its start and later in
    it, what [Wait] of the spawned process has returned so far, the identity
    check, a finished probe, the credentials for a probe, the launch, the stop
    and the random number. *)
Record obs := mkObs {
  o_now : Z;
  o_later : Z;
  o_wait : option waited;
  o_matches : identity_check;
  o_probe : option ProbeOutcome;
  o_overlay_error : option error;
  o_launch : launch_obs;
  o_stop : stop_obs;
  o_rand : spec_float
}.

Inductive action := ALaunch | AStop | AProbe | AReset.

(* src: internal/supervisor/supervisor.go Supervisor.reapHandle *)
Definition reapHandle (o : obs) (key : replicaKey) (s : Supervisor) : waited * bool * Supervisor :=
  match handles s !! key, o_wait o with
  | Some _, Some w => (w, true, with_handles s (delete key (handles s)))
  | _, _ => (WaitNil, false, s)
  end.

(* src: internal/supervisor/supervisor.go Supervisor.hasHandle *)
Definition hasHandle (key : replicaKey) (s : Supervisor) : bool :=
  bool_decide (is_Some (handles s !! key)).

(* src: internal/supervisor/supervisor.go Supervisor.dropHandle *)
Definition dropHandle (key : replicaKey) (s : Supervisor) : Supervisor :=
  with_handles s (delete key (handles s)).

(* src: internal/supervisor/supervisor.go Supervisor.setHandle *)
Definition setHandle (key : replicaKey) (pid : Z) (s : Supervisor) : Supervisor :=
  with_handles s (<[key := pid]> (handles s)).

(* src: internal/supervisor/supervisor.go Supervisor.clearProbes *)
Definition clearProbes (key : replicaKey) (s : Supervisor) : Supervisor :=
  mkSup (handles s) (delete key (probes s)) (delete key (probeFails s)) (delete key (nextProbe s)).

(** [for key := range m { if key.app == appName { delete(...) } }]: the probe
    counters go with the probes in flight only. *)
(* src: internal/supervisor/supervisor.go Supervisor.dropApp *)
Definition dropApp (appName : string) (s : Supervisor) : Supervisor :=
  let other {A} (kv : replicaKey * A) := negb (kv.1.1 =s appName) in
  let in_flight (key : replicaKey) := bool_decide (is_Some (probes s !! key)) in
  let keep {A} (kv : replicaKey * A) := (other kv || negb (in_flight kv.1))%bool in
  mkSup (filter (λ kv, other kv = true) (handles s)) (filter (λ kv, other kv = true) (probes s))
        (filter (λ kv, keep kv = true) (probeFails s))
        (filter (λ kv, keep kv = true) (nextProbe s)).

(* src: internal/supervisor/supervisor.go Supervisor.probeOutcome *)
Definition probeOutcome (o : obs) (key : replicaKey) (s : Supervisor)
  : option ProbeOutcome * Supervisor :=
  match probes s !! key with
  | None => (None, s)
  | Some ready =>
      match (match ready with Some r => Some r | None => o_probe o end) with
      | Some r => (Some r, with_probes s (delete key (probes s)))
      | None => (None, s)
      end
  end.

(* src: internal/supervisor/supervisor.go Supervisor.maybeStartProbe *)
Definition maybeStartProbe (o : obs) (key : replicaKey) (hs : WorkerHealthSettings)
    (s : Supervisor) : Supervisor * list action :=
  match probes s !! key with
  | Some _ => (s, [])
  | None =>
      let due := match nextProbe s !! key with Some next => negb (o_later o <? next) | None => true end in
      if negb due then (s, [])
      else
        let s := with_next s (<[key := o_later o + H_Interval hs]> (nextProbe s)) in
        match o_overlay_error o with
        | Some _ =>
            (with_probes s (<[key := Some (mkProbe false
               "cannot read instance credentials for probe")]> (probes s)), [])
        | None => (with_probes s (<[key := None]> (probes s)), [AProbe])
        end
  end.

(* src: internal/supervisor/supervisor.go Supervisor.scheduleRestart *)
Definition scheduleRestart (ps : ProcessSettings) (now : Z) (i : Instance) : Instance :=
  if ((0 <? MaxRestartAttempts ps) && (MaxRestartAttempts ps <=? I_RestartCount i))%bool
  then with_status i "crashloop"
  else with_status (with_restart i (I_RestartCount i + 1) now) "restarting".

(* src: internal/supervisor/supervisor.go Supervisor.applyPolicy *)
Definition applyPolicy (ps : ProcessSettings) (now : Z) (i : Instance) : Instance :=
  match Evaluate (RestartPolicy ps) (I_LastExitCode i) with
  | DecisionComplete => with_status i "completed"
  | DecisionFail => with_status i "failed"
  | DecisionRestart => scheduleRestart ps now i
  end.

(* src: internal/supervisor/supervisor.go Supervisor.recordExit *)
Definition recordExit (o : obs) (key : replicaKey) (w : waited) (reaped : bool)
    (s : Supervisor) (i : Instance) : Supervisor * Instance :=
  (dropHandle key s,
   if reaped then RecordInstanceExit (o_later o) w false i
   else RecordInstanceExit (o_later o) WaitNil true i).

(* src: internal/supervisor/supervisor.go Supervisor.finishExit *)
Definition finishExit (o : obs) (key : replicaKey) (ps : ProcessSettings) (w : waited)
    (reaped : bool) (s : Supervisor) (i : Instance) : Supervisor * Instance :=
  let '(s, i) := recordExit o key w reaped s i in
  (clearProbes key s, applyPolicy ps (o_later o) i).

Section Reconcile.
Variable out_of_range : spec_float → Z.

(* src: internal/supervisor/supervisor.go Supervisor.restartDelay *)
Definition restartDelay (o : obs) (ps : ProcessSettings) (i : Instance) : Z :=
  let attempt := I_RestartCount i - 1 in
  let attempt := if attempt <? 0 then 0 else attempt in
  let d := Backoff out_of_range (BackoffInitial ps) (BackoffMax ps) (BackoffMultiplier ps) attempt in
  ApplyJitter out_of_range d
    (f64_sub (f64_mul (f64_mul (o_rand o) (f64_of_Z 2)) JitterFactor) JitterFactor).

(** The graceful stop of a failed replica and its bookkeeping, shared by the
    startup timeout and the failed health probe. *)
(* src: internal/supervisor/supervisor.go:230-237 Supervisor.reconcileReplica *)
Definition stop_failed (o : obs) (key : replicaKey) (ps : ProcessSettings)
    (reason : Instance → string) (s : Supervisor) (i : Instance) : Supervisor * Instance :=
  let '(_, w, _) := GracefulStopWorker (o_stop o) i (hasHandle key s) in
  let '(s, i) := recordExit o key w (negb (hasHandle key s)) s i in
  let i := with_exit i (I_LastExitCode i) (reason i) (I_LastExitAt i) in
  (clearProbes key (dropHandle key s), scheduleRestart ps (o_later o) i).

(** The branches of the switch on the status; the answer is [true] when the
    record changed. *)
Definition pass_result : Type := bool * Supervisor * Instance * list action.

(** The end of a quiet turn of an exec-probed replica. *)
Definition probe_turn (o : obs) (key : replicaKey) (hs : WorkerHealthSettings) (s : Supervisor)
    (i : Instance) : pass_result :=
  let '(s, acts) := maybeStartProbe o key hs s in (false, s, i, acts).

(* src: internal/supervisor/supervisor.go:186-195 Supervisor.reconcileReplica *)
Definition pass_owned (o : obs) (key : replicaKey) (alive : bool) (w : waited) (reaped : bool)
    (s : Supervisor) (i : Instance) : pass_result :=
  if alive then (false, s, i, [])
  else
    let '(s, i) := recordExit o key w reaped s i in
    (true, clearProbes key (dropHandle key s), with_status i "stopped", []).

(* src: internal/supervisor/supervisor.go:197-215 Supervisor.reconcileReplica *)
Definition pass_restarting (o : obs) (key : replicaKey) (ps : ProcessSettings) (alive : bool)
    (s : Supervisor) (i : Instance) : pass_result :=
  if alive then (true, s, with_status i "starting", [])
  else if o_now o <? I_LastRestartAt i + restartDelay o ps i then (false, s, i, [])
  else match LaunchWorkerReplica (o_launch o) (o_later o) key.2 i with
  | (Err e, i) =>
      (true, s, scheduleRestart ps (o_now o)
                  (with_exit i (-1) ("relaunch failed: " +:+ Error e) (o_now o)), [ALaunch])
  | (Ok pid, i) => (true, setHandle key pid s, i, [ALaunch])
  end.

(* src: internal/supervisor/supervisor.go:217-247 Supervisor.reconcileReplica *)
Definition pass_starting (o : obs) (key : replicaKey) (ps : ProcessSettings)
    (hs : WorkerHealthSettings) (alive : bool) (w : waited) (reaped : bool)
    (s : Supervisor) (i : Instance) : pass_result :=
  if negb alive then
    let '(s, i) := finishExit o key ps w reaped s i in (true, s, i, [])
  else if H_Mode hs <>s WorkerHealthExec then
    (true, s, with_status (with_ready i (o_now o)) "running", [])
  else if StartupTimeout ps <=? t_Sub (o_now o) (I_StartedAt i) then
    let '(s, i) := stop_failed o key ps (λ i, "startup timeout: " +:+ I_LastExitReason i) s i in
    (true, s, i, [AStop])
  else match probeOutcome o key s with
  | (Some (mkProbe true _), s) =>
      (true, with_fails s (<[key := 0]> (probeFails s)),
       with_status (with_ready i (o_now o)) "running", [])
  | (_, s) => probe_turn o key hs s i
  end.

(* src: internal/supervisor/supervisor.go:249-288 Supervisor.reconcileReplica *)
Definition pass_running (o : obs) (key : replicaKey) (ps : ProcessSettings)
    (hs : WorkerHealthSettings) (alive : bool) (w : waited) (reaped : bool)
    (s : Supervisor) (i : Instance) : pass_result :=
  if negb alive then
    let '(s, i) := finishExit o key ps w reaped s i in (true, s, i, [])
  else
    let anchor := if I_ReadyAt i =? 0 then I_StartedAt i else I_ReadyAt i in
    if ((0 <? I_RestartCount i) && (StableWindow <=? t_Sub (o_now o) anchor))%bool then
      (true, s, with_restart i 0 (I_LastRestartAt i), [AReset])
    else if H_Mode hs <>s WorkerHealthExec then (false, s, i, [])
    else match probeOutcome o key s with
    | (None, s) => probe_turn o key hs s i
    | (Some r, s) =>
        if PO_OK r then probe_turn o key hs (with_fails s (<[key := 0]> (probeFails s))) i
        else
          let fails := default 0 (probeFails s !! key) + 1 in
          let s := with_fails s (<[key := fails]> (probeFails s)) in
          if H_Retries hs <=? fails then
            let '(s, i) := stop_failed o key ps
              (λ _, "unhealthy: exec probe failed: " +:+ PO_Detail r)
              (with_fails s (<[key := 0]> (probeFails s))) i in
            (true, s, i, [AStop])
          else probe_turn o key hs s i
    end.

(* src: internal/supervisor/supervisor.go Supervisor.reconcileReplica *)
Definition reconcileReplica (o : obs) (key : replicaKey) (ps : ProcessSettings)
    (hs : WorkerHealthSettings) (s : Supervisor) (i : Instance) : pass_result :=
  let '(w, reaped, s) := reapHandle o key s in
  let alive := (negb reaped && WorkerInstanceAlive (o_matches o) i)%bool in
  let status := I_Status i in
  if one_of status ["stopping"; "draining"; "replacing"] then
    pass_owned o key alive w reaped s i
  else if status =s "restarting" then pass_restarting o key ps alive s i
  else if status =s "starting" then pass_starting o key ps hs alive w reaped s i
  else if status =s "running" then pass_running o key ps hs alive w reaped s i
  else if alive then (false, s, i, [])
  else (false, clearProbes key (dropHandle key s), i, []).

(** *** One pass over an application *)

(** Go iterates the map of replicas in some order, [slots]. *)
(* src: internal/supervisor/supervisor.go sortedSlots *)
Definition sortedSlots (slots : list string) : list string :=
  let number slot := default (-1) (Atoi slot) in
  let byKey := foldl (λ m slot, <[number slot := slot]> m) (∅ : gmap Z string) slots in
  (λ n, default "" (byKey !! n)) <$> merge_sort Z.le (number <$> slots).

(** The replica loop of [reconcileApp]; a slot without a record is skipped. *)
(* src: internal/supervisor/supervisor.go:160-164 Supervisor.reconcileApp *)
Fixpoint reconcile_slots (o : string → obs) (name : string) (ps : ProcessSettings)
    (hs : WorkerHealthSettings) (slots : list string) (dirty : bool) (s : Supervisor)
    (replicas : gmap string Instance) (acts : list (string * action))
  : bool * Supervisor * gmap string Instance * list (string * action) :=
  match slots with
  | [] => (dirty, s, replicas, acts)
  | slot :: slots =>
      match replicas !! slot with
      | None => reconcile_slots o name ps hs slots dirty s replicas acts
      | Some i =>
          let '(changed, s, i, a) := reconcileReplica (o slot) (name, slot) ps hs s i in
          reconcile_slots o name ps hs slots (dirty || changed) s (<[slot := i]> replicas)
            (acts ++ ((slot,.) <$> a))
      end
  end.

Inductive lock_outcome := LockFree | LockBusy | LockError.

(** The deploy state of an application: its mode and its replicas. *)
Record DeployState := mkDeploy { DS_Mode : string; DS_Replicas : gmap string Instance }.

Definition ModeWorker := "worker".

(** What the pass reads: the lock, the deploy state before and after the
    recovery of secrets (the file is there while the lock is held), and the
    project configuration. *)
Record app_obs := mkAppObs {
  ao_lock : lock_outcome;
  ao_state : res (option DeployState);
  ao_secret_error : option error;
  ao_state2 : res DeployState;
  ao_config : res (ProcessSettings * WorkerHealthSettings);
  ao_order : gmap string Instance → list string
}.

(** The new memory, the state that is stored, if any, and the actions. *)
(* src: internal/supervisor/supervisor.go Supervisor.reconcileApp *)
Definition reconcileApp (a : app_obs) (o : string → obs) (name : string) (s : Supervisor)
  : Supervisor * option DeployState * list (string * action) :=
  match ao_lock a with
  | LockBusy | LockError => (s, None, [])
  | LockFree =>
      match ao_state a with
      | Ok (Some st) =>
          if DS_Mode st <>s ModeWorker then (dropApp name s, None, [])
          else match ao_secret_error a, ao_state2 a, ao_config a with
          | None, Ok st, Ok (ps, hs) =>
              let '(dirty, s, replicas, acts) :=
                reconcile_slots o name ps hs (sortedSlots (ao_order a (DS_Replicas st)))
                  false s (DS_Replicas st) [] in
              (s, if dirty : bool then Some (mkDeploy (DS_Mode st) replicas) else None, acts)
          | _, _, _ => (s, None, [])
          end
      | _ => (dropApp name s, None, [])
      end
  end.
End Reconcile.

(** ** Theorems *)

(** *** Delays *)

Lemma backoff_loop_done oor max m n d : max ≤ d → backoff_loop oor max m n d = d.
Proof. intros Hd. destruct n; simpl; [done|]. by replace (d <? max) with false by (symmetry; apply Z.ltb_ge; lia). Qed.

Lemma backoff_loop_add oor max m n k d :
  backoff_loop oor max m (n + k) d = backoff_loop oor max m k (backoff_loop oor max m n d).
Proof.
  revert d. induction n as [|n IH]; intros d; simpl; [done|].
  destruct (d <? max) eqn:E; [apply IH|]. by rewrite backoff_loop_done by (apply Z.ltb_ge in E; lia).
Qed.

(** The restart delay is positive and capped whatever the settings, and
    with the default settings it is exactly two seconds doubled with each
    consecutive attempt up to a minute; the jittered delay is never negative. *)
Theorem backoff_is_capped_doubling oor :
  (∀ initial max m attempt, 0 < Backoff oor initial max m attempt ∧
     (Backoff oor initial max m attempt ≤ max ∨ Backoff oor initial max m attempt = second)) ∧
  (∀ attempt, 0 ≤ attempt →
     Backoff oor (BackoffInitial default_process) (BackoffMax default_process)
       (BackoffMultiplier default_process) attempt =
     Z.min (2 ^ (attempt + 1) * second) (60 * second)) ∧
  (∀ d r, 0 ≤ d → 0 ≤ ApplyJitter oor d r).
Proof.
  split_and!.
  - intros initial max m attempt. unfold Backoff.
    set (d := backoff_loop _ _ _ _ _). unfold second.
    destruct (max <? d) eqn:E1; [|]; [destruct (max <=? 0) eqn:E2|destruct (d <=? 0) eqn:E2]; lia.
  - intros attempt Ha. unfold Backoff. replace (attempt <? 0) with false by lia.
    destruct (decide (attempt < 5)) as [Hlt|Hge].
    + assert (attempt = 0 ∨ attempt = 1 ∨ attempt = 2 ∨ attempt = 3 ∨ attempt = 4) as Hc by lia.
      repeat destruct Hc as [->|Hc]; [..|subst attempt]; by vm_compute.
    + replace (Z.to_nat attempt) with (5 + (Z.to_nat attempt - 5))%nat by lia.
      rewrite backoff_loop_add.
      replace (backoff_loop oor (BackoffMax default_process) (BackoffMultiplier default_process) 5
                 (BackoffInitial default_process)) with (64 * second) by by vm_compute.
      rewrite backoff_loop_done by (unfold default_process, second; simpl; lia).
      assert (2 ^ 6 ≤ 2 ^ (attempt + 1)) by (apply Z.pow_le_mono_r; lia).
      change (BackoffMax default_process) with (60 * second). unfold second in *. simpl. lia.
  - intros d r Hd. unfold ApplyJitter. destruct (_ <? 0) eqn:E; lia.
Qed.

(** *** One pass *)

(** The replica is seen alive: its process has not been reaped and the identity
    check passes. *)
Definition seen_alive (o : obs) (key : replicaKey) (s : Supervisor) (i : Instance) : bool :=
  (negb (hasHandle key s && bool_decide (is_Some (o_wait o))) &&
   WorkerInstanceAlive (o_matches o) i)%bool.

Definition is_launch (a : action) : bool := match a with ALaunch => true | _ => false end.
Definition is_reset (a : action) : bool := match a with AReset => true | _ => false end.
Definition launches (acts : list action) : Z := len (List.filter is_launch acts).
Definition resets (acts : list action) : Z := len (List.filter is_reset acts).
Definition waiting (i : Instance) : Z := if I_Status i =s "restarting" then 1 else 0.

Lemma launches_app a b : launches (a ++ b) = launches a + launches b.
Proof. unfold launches. by rewrite List.filter_app, len_app. Qed.

Lemma resets_app a b : resets (a ++ b) = resets a + resets b.
Proof. unfold resets. by rewrite List.filter_app, len_app. Qed.

Lemma reapHandle_spec o key s :
  reapHandle o key s =
  if (hasHandle key s && bool_decide (is_Some (o_wait o)))%bool
  then (default WaitNil (o_wait o), true, dropHandle key s) else (WaitNil, false, s).
Proof.
  unfold reapHandle, hasHandle, dropHandle. destruct (handles s !! key); simpl; [|done].
  by destruct (o_wait o).
Qed.

Lemma maybeStartProbe_acts o key hs s s' acts :
  maybeStartProbe o key hs s = (s', acts) → acts = [] ∨ acts = [AProbe].
Proof.
  unfold maybeStartProbe. destruct (probes s !! key); [intros [= <- <-]; auto|].
  destruct (negb _); [intros [= <- <-]; auto|].
  destruct (o_overlay_error o); intros [= <- <-]; auto.
Qed.

(** Scheduling a restart consumes one attempt, or ends in a crash loop. *)
Lemma scheduleRestart_spec ps now i :
  let i' := scheduleRestart ps now i in
  (I_Status i' = "crashloop" ∧ I_RestartCount i' = I_RestartCount i ∧
   0 < MaxRestartAttempts ps ≤ I_RestartCount i) ∨
  (I_Status i' = "restarting" ∧ I_RestartCount i' = I_RestartCount i + 1 ∧
   I_LastRestartAt i' = now ∧
   (0 < MaxRestartAttempts ps → I_RestartCount i < MaxRestartAttempts ps)).
Proof.
  unfold scheduleRestart. destruct (_ && _)%bool eqn:E; [left|right]; simpl.
  - apply andb_prop in E as [?%Z.ltb_lt ?%Z.leb_le]. split_and!; auto; lia.
  - split_and!; auto. apply andb_false_iff in E as [E|E]; [apply Z.ltb_ge in E|apply Z.leb_gt in E]; lia.
Qed.

Lemma scheduleRestart_exit ps now i :
  I_LastExitCode (scheduleRestart ps now i) = I_LastExitCode i ∧
  I_LastExitReason (scheduleRestart ps now i) = I_LastExitReason i.
Proof. unfold scheduleRestart. by destruct (_ && _)%bool. Qed.

Lemma RecordInstanceExit_fields now w a i :
  I_Status (RecordInstanceExit now w a i) = I_Status i ∧
  I_RestartCount (RecordInstanceExit now w a i) = I_RestartCount i ∧
  I_LastExitCode (RecordInstanceExit now w a i) = (if a then -1 else (exitCodeOf w).1).
Proof. unfold RecordInstanceExit. destruct a; [done|]. by destruct (exitCodeOf w). Qed.

Lemma LaunchWorkerReplica_count o now slot i r i' :
  LaunchWorkerReplica o now slot i = (r, i') →
  I_RestartCount i' = I_RestartCount i ∧ (is_ok r = true → I_Status i' = "starting").
Proof.
  unfold LaunchWorkerReplica. intros H.
  destruct (I_BinaryPath i =s ""); [by simplify_eq/=|].
  destruct (lo_env_error o); [by simplify_eq/=|].
  destruct (lo_start o) as [[pid ticks]|e]; [|by simplify_eq/=].
  by destruct (lo_store_error o); simplify_eq/=.
Qed.

(** The record as [recordExit] leaves it. *)
Definition exited (o : obs) (w : waited) (reaped : bool) (i : Instance) : Instance :=
  if reaped then RecordInstanceExit (o_later o) w false i
  else RecordInstanceExit (o_later o) WaitNil true i.

Lemma exited_fields o w reaped i :
  I_Status (exited o w reaped i) = I_Status i ∧
  I_RestartCount (exited o w reaped i) = I_RestartCount i ∧
  I_LastExitCode (exited o w reaped i) = (if reaped then (exitCodeOf w).1 else -1).
Proof. unfold exited. destruct reaped; apply RecordInstanceExit_fields. Qed.

Lemma recordExit_eq o key w reaped s i :
  recordExit o key w reaped s i = (dropHandle key s, exited o w reaped i).
Proof. done. Qed.

(** How one pass can change a replica's budget: the launches it makes, the
    restarts it arms and the counter. *)
Definition budget_step (ps : ProcessSettings) (i i' : Instance) (acts : list action) : Prop :=
  (resets acts = 0 ∧ launches acts + waiting i' ≤ waiting i + (I_RestartCount i' - I_RestartCount i)
   ∧ I_RestartCount i ≤ I_RestartCount i' ∧
   (I_RestartCount i' ≤ I_RestartCount i ∨ I_RestartCount i' ≤ MaxRestartAttempts ps)) ∨
  (resets acts = 1 ∧ launches acts = 0 ∧ waiting i' = waiting i ∧ I_RestartCount i' = 0).

Lemma waiting_status i st : waiting (with_status i st) = if st =s "restarting" then 1 else 0.
Proof. done. Qed.

Lemma schedule_budget ps now i0 i :
  0 < MaxRestartAttempts ps → I_RestartCount i = I_RestartCount i0 →
  let i' := scheduleRestart ps now i in
  waiting i' = I_RestartCount i' - I_RestartCount i0 ∧ I_RestartCount i0 ≤ I_RestartCount i' ∧
  (I_RestartCount i' ≤ I_RestartCount i0 ∨ I_RestartCount i' ≤ MaxRestartAttempts ps).
Proof.
  intros Hmax Hc. destruct (scheduleRestart_spec ps now i) as [(Hs & Hn & ?)|(Hs & Hn & _ & Hlt)];
    unfold waiting; simpl; rewrite Hs, Hn; simpl; lia.
Qed.

Lemma applyPolicy_budget ps now i0 i :
  0 < MaxRestartAttempts ps → I_RestartCount i = I_RestartCount i0 → waiting i0 = 0 →
  budget_step ps i0 (applyPolicy ps now i) [].
Proof.
  intros Hmax Hc Hw. left. rewrite Hw. unfold launches, resets, applyPolicy. simpl.
  destruct (Evaluate _ _).
  - pose proof (schedule_budget ps now i0 i Hmax Hc) as H. simpl in H.
    change (len []) with 0. split_and!; lia.
  - rewrite waiting_status. simpl. rewrite Hc. change (len []) with 0. lia.
  - rewrite waiting_status. simpl. rewrite Hc. change (len []) with 0. lia.
Qed.

Lemma stop_failed_budget o key ps reason s i s' i' :
  0 < MaxRestartAttempts ps → waiting i = 0 →
  stop_failed o key ps reason s i = (s', i') → budget_step ps i i' [AStop].
Proof.
  intros Hmax Hw. unfold stop_failed.
  destruct (GracefulStopWorker _ _ _) as [[_r w] _e]. unfold recordExit.
  intros [= _ <-]. left. rewrite Hw.
  match goal with |- context [scheduleRestart ps ?now ?j] =>
    pose proof (schedule_budget ps now i j Hmax) as H end.
  simpl in H. change (resets [AStop]) with 0. change (launches [AStop]) with 0.
  specialize (H (proj1 (proj2 (exited_fields o w (negb (hasHandle key s)) i)))). lia.
Qed.

Lemma no_action_budget ps i i' acts :
  launches acts = 0 → resets acts = 0 → I_RestartCount i' = I_RestartCount i →
  waiting i' ≤ waiting i → budget_step ps i i' acts.
Proof. intros Hl Hr Hc Hw. left. rewrite Hl, Hc. lia. Qed.

Lemma waiting_range i : 0 ≤ waiting i ≤ 1.
Proof. unfold waiting. by destruct (_ =s _). Qed.

Lemma waiting_other i st : I_Status i = st → st ≠ "restarting" → waiting i = 0.
Proof. unfold waiting. intros -> Hne. apply String.eqb_neq in Hne. by rewrite Hne. Qed.

Lemma probe_turn_result o key hs s i b s' i' acts :
  probe_turn o key hs s i = (b, s', i', acts) → i' = i ∧ (acts = [] ∨ acts = [AProbe]).
Proof.
  unfold probe_turn. destruct (maybeStartProbe o key hs s) as [s1 a1] eqn:E.
  apply maybeStartProbe_acts in E. by intros [= _ _ <- <-].
Qed.

Lemma probe_turn_budget ps i o key hs s b s' i' acts :
  probe_turn o key hs s i = (b, s', i', acts) → budget_step ps i i' acts.
Proof. intros [-> [->| ->]]%probe_turn_result; by apply no_action_budget. Qed.

Lemma finishExit_budget o key ps w reaped s i b s' i' acts :
  0 < MaxRestartAttempts ps → waiting i = 0 →
  (let '(s, i) := finishExit o key ps w reaped s i in (true, s, i, [])) = (b, s', i', acts) →
  budget_step ps i i' acts.
Proof.
  intros Hmax Hw. unfold finishExit. rewrite recordExit_eq. intros [= <- <- <- <-].
  apply applyPolicy_budget; [done| |done]. exact (proj1 (proj2 (exited_fields o w reaped i))).
Qed.

Ltac quiet_budget Hw :=
  intros [= <- <- <- <-]; apply no_action_budget;
  rewrite ?waiting_status, ?Hw; first [done | simpl; lia].

Lemma owned_budget o key ps alive w reaped s i b s' i' acts :
  pass_owned o key alive w reaped s i = (b, s', i', acts) → budget_step ps i i' acts.
Proof.
  pose proof (waiting_range i) as Hw. unfold pass_owned. rewrite recordExit_eq.
  destruct alive; [quiet_budget Hw|]. intros [= <- <- <- <-].
  apply no_action_budget; [done|done| |rewrite waiting_status; simpl; lia].
  exact (proj1 (proj2 (exited_fields o w reaped i))).
Qed.

Lemma restarting_budget oor o key ps alive s i b s' i' acts :
  0 < MaxRestartAttempts ps → waiting i = 1 →
  pass_restarting oor o key ps alive s i = (b, s', i', acts) → budget_step ps i i' acts.
Proof.
  intros Hmax Hw. unfold pass_restarting. destruct alive; [quiet_budget Hw|].
  destruct (_ <? _); [quiet_budget Hw|].
  destruct (LaunchWorkerReplica _ _ _ i) as [[pid|e] i1] eqn:El;
    apply LaunchWorkerReplica_count in El as [Hc Hs]; intros [= <- <- <- <-]; left;
    rewrite Hw; change (resets [ALaunch]) with 0; change (launches [ALaunch]) with 1.
  - rewrite (waiting_other i1 "starting") by auto. lia.
  - match goal with |- context [scheduleRestart ps ?now ?j] =>
      pose proof (schedule_budget ps now i j Hmax Hc) as H end. simpl in H. lia.
Qed.

Lemma starting_budget o key ps hs alive w reaped s i b s' i' acts :
  0 < MaxRestartAttempts ps → waiting i = 0 →
  pass_starting o key ps hs alive w reaped s i = (b, s', i', acts) → budget_step ps i i' acts.
Proof.
  intros Hmax Hw. unfold pass_starting. destruct alive; [|by apply finishExit_budget].
  destruct (H_Mode hs <>s _); [quiet_budget Hw|]. destruct (_ <=? _).
  { destruct (stop_failed _ _ _ _ _ _) as [s2 i2] eqn:Es. intros [= <- <- <- <-].
    by eapply stop_failed_budget. }
  destruct (probeOutcome o key s) as [[[[] d]|] s2];
    [quiet_budget Hw|apply probe_turn_budget..].
Qed.

Lemma running_budget o key ps hs alive w reaped s i b s' i' acts :
  0 < MaxRestartAttempts ps → waiting i = 0 →
  pass_running o key ps hs alive w reaped s i = (b, s', i', acts) → budget_step ps i i' acts.
Proof.
  intros Hmax Hw. unfold pass_running. destruct alive; [|by apply finishExit_budget].
  destruct (_ && _)%bool; [intros [= <- <- <- <-]; by right|].
  destruct (H_Mode hs <>s _); [quiet_budget Hw|].
  destruct (probeOutcome o key s) as [[r|] s2]; [|apply probe_turn_budget].
  destruct (PO_OK r); [apply probe_turn_budget|]. destruct (_ <=? _); [|apply probe_turn_budget].
  destruct (stop_failed _ _ _ _ _ _) as [s3 i3] eqn:Es. intros [= <- <- <- <-].
  by eapply stop_failed_budget.
Qed.

Lemma pass_budget oor o key ps hs s i changed s' i' acts :
  0 < MaxRestartAttempts ps →
  reconcileReplica oor o key ps hs s i = (changed, s', i', acts) → budget_step ps i i' acts.
Proof.
  intros Hmax. unfold reconcileReplica. destruct (reapHandle o key s) as [[w reaped] s1].
  generalize (negb reaped && WorkerInstanceAlive (o_matches o) i)%bool. intros alive.
  destruct (one_of (I_Status i) _); [apply owned_budget|].
  destruct (I_Status i =s "restarting") eqn:E1.
  { apply restarting_budget; [done|]. unfold waiting. by rewrite E1. }
  assert (waiting i = 0) as Hw by (unfold waiting; by rewrite E1).
  destruct (I_Status i =s "starting"); [by apply starting_budget|].
  destruct (I_Status i =s "running"); [by apply running_budget|].
  destruct alive; quiet_budget Hw.
Qed.

(** *** Many passes over one replica *)

Section Passes.
Context (oor : spec_float → Z) (key : replicaKey) (ps : ProcessSettings) (hs : WorkerHealthSettings).

(** Consecutive passes, with what each one shows. *)
Fixpoint passes (os : list obs) (s : Supervisor) (i : Instance)
  : Supervisor * Instance * list action :=
  match os with
  | [] => (s, i, [])
  | o :: os =>
      let '(_, s, i, acts) := reconcileReplica oor o key ps hs s i in
      let '(s, i, acts') := passes os s i in (s, i, acts ++ acts')
  end.

(** The same over the record in the file: a pass starts from the one that is
    there, and leaves its own for the next if it changed it and the write at its
    end, the boolean, succeeded; a failed one is only logged. *)
(* src: internal/supervisor/supervisor.go:165-169 Supervisor.reconcileApp *)
Fixpoint stored_passes (os : list (obs * bool)) (s : Supervisor) (i : Instance)
  : Supervisor * Instance * list action :=
  match os with
  | [] => (s, i, [])
  | (o, stored) :: os =>
      let '(dirty, s, i', acts) := reconcileReplica oor o key ps hs s i in
      let '(s, i, acts') := stored_passes os s (if (dirty && stored)%bool then i' else i) in
      (s, i, acts ++ acts')
  end.

(** A pass that does not ask for a write did not change the record. *)
Lemma clean_pass_keeps o s i s' i' acts :
  reconcileReplica oor o key ps hs s i = (false, s', i', acts) → i' = i.
Proof.
  unfold reconcileReplica, pass_owned, pass_restarting, pass_starting, pass_running, probe_turn, finishExit, stop_failed.
  intros H. repeat (case_match; simplify_eq; try done).
Qed.

(** [passes] is the case in which every write succeeds. *)
Lemma passes_are_stored os s i : passes os s i = stored_passes ((., true) <$> os) s i.
Proof.
  revert s i. induction os as [|o os IH]; intros s i; [done|]. cbn [passes stored_passes fmap list_fmap].
  destruct (reconcileReplica oor o key ps hs s i) as [[[dirty s1] i1] a1] eqn:E. rewrite IH.
  destruct dirty; [done|]. by rewrite (clean_pass_keeps _ _ _ _ _ _ E).
Qed.

(** C12: a crashing replica cannot be restarted without bound.  Over any passes,
    whatever they show, a replica is launched at most [MaxRestartAttempts]
    times, and as many times again for each time its counter was reset.  Every
    pass finds the record the one before it left: a pass whose write fails does
    not count what it launched ([failed_writes_launch_again]). *)
Theorem launches_stay_within_budget os s i s' i' acts :
  0 < MaxRestartAttempts ps → 0 ≤ I_RestartCount i ≤ MaxRestartAttempts ps →
  passes os s i = (s', i', acts) →
  launches acts + waiting i' ≤
    MaxRestartAttempts ps * (resets acts + 1) - I_RestartCount i + waiting i ∧
  0 ≤ I_RestartCount i' ≤ MaxRestartAttempts ps.
Proof.
  intros Hmax. revert s i acts. assert (∀ os s i acts, 0 ≤ I_RestartCount i ≤ MaxRestartAttempts ps →
    passes os s i = (s', i', acts) →
    launches acts + waiting i' ≤ MaxRestartAttempts ps * resets acts +
      (I_RestartCount i' - I_RestartCount i) + waiting i ∧
    0 ≤ I_RestartCount i' ≤ MaxRestartAttempts ps) as H.
  { clear os. intros os. induction os as [|o os IH]; intros s i acts Hc Hp; simpl in Hp.
    { injection Hp as <- <- <-. change (launches []) with 0. change (resets []) with 0. lia. }
    destruct (reconcileReplica oor o key ps hs s i) as [[[ch s1] i1] a1] eqn:Hr.
    destruct (passes os s1 i1) as [[s2 i2] a2] eqn:Hps. injection Hp as <- <- <-.
    apply pass_budget in Hr; [|done]. pose proof (waiting_range i1). pose proof (waiting_range i).
    destruct (IH s1 i1 a2) as [IH1 IH2]; [|done|];
      rewrite ?launches_app, ?resets_app; destruct Hr as [(Hz & ? & ? & ?)|(Hz & ? & ? & Hi)];
      rewrite ?Hz, ?Hi in *; nia. }
  intros s i acts Hc Hp. destruct (H _ _ _ _ Hc Hp) as [H1 H2]. split; [nia|done].
Qed.

(** The statuses the supervisor drives: the others belong to somebody else or
    are final. *)
Definition supervised (i : Instance) : bool :=
  one_of (I_Status i) ["starting"; "running"; "restarting"].
Definition owned_elsewhere (i : Instance) : bool :=
  one_of (I_Status i) ["stopping"; "draining"; "replacing"].

(** A replica that is finished (stopped, completed, failed, in a crash
    loop, or in a status of another component) is never touched again, and one
    that a deploy or a command owns only has its death recorded. *)
Theorem foreign_replicas_are_left_alone os s i s' i' acts :
  supervised i = false → passes os s i = (s', i', acts) →
  acts = [] ∧ (i' = i ∨ owned_elsewhere i = true ∧ I_Status i' = "stopped" ∧
                        I_PID i' = I_PID i ∧ I_RestartCount i' = I_RestartCount i).
Proof.
  unfold supervised. revert s i acts. induction os as [|o os IH]; intros s i acts Hs Hp; simpl in Hp.
  { injection Hp as <- <- <-. auto. }
  destruct (reconcileReplica oor o key ps hs s i) as [[[ch s1] i1] a1] eqn:Hr.
  destruct (passes os s1 i1) as [[s2 i2] a2] eqn:Hps. injection Hp as <- <- <-.
  revert Hr. unfold reconcileReplica. destruct (reapHandle o key s) as [[w reaped] s0].
  generalize (negb reaped && WorkerInstanceAlive (o_matches o) i)%bool. intros alive.
  fold (owned_elsewhere i). destruct (owned_elsewhere i) eqn:Eo.
  - destruct alive.
    + intros [= <- <- <- <-]. destruct (IH _ _ _ Hs Hps) as [-> [->|(_ & ?)]]; auto.
    + unfold pass_owned. rewrite recordExit_eq. intros [= <- <- <- <-].
      destruct (IH _ (with_status (exited o w reaped i) "stopped") _ eq_refl Hps) as [-> [->|[Hno _]]];
        [|done]. split; [done|]. right.
      destruct (exited_fields o w reaped i) as (_ & Hc & _). simpl. split_and!; [done|done| |done].
      unfold exited, RecordInstanceExit. destruct reaped; [|done]. by destruct (exitCodeOf w).
  - pose proof Hs as Hs'. unfold one_of in Hs. simpl in Hs.
    destruct (I_Status i =s "starting"), (I_Status i =s "running"),
      (I_Status i =s "restarting"); try done.
    destruct alive; intros [= <- <- <- <-]; destruct (IH _ _ _ Hs' Hps) as [-> [->|[? _]]];
      [by auto|congruence|by auto|congruence].
Qed.
End Passes.

(** *** What a pass may do *)

Section PassEffects.
Context (oor : spec_float → Z) (o : obs) (key : replicaKey) (ps : ProcessSettings)
  (hs : WorkerHealthSettings).

Lemma reaped_alive s i w reaped s1 :
  reapHandle o key s = (w, reaped, s1) →
  (negb reaped && WorkerInstanceAlive (o_matches o) i)%bool = seen_alive o key s i ∧
  (reaped = false → s1 = s) ∧ (reaped = true → s1 = dropHandle key s ∧ o_wait o = Some w) ∧
  (reaped = (hasHandle key s && bool_decide (is_Some (o_wait o)))%bool).
Proof.
  rewrite reapHandle_spec. unfold seen_alive.
  destruct (hasHandle key s && bool_decide (is_Some (o_wait o)))%bool eqn:E;
    intros [= <- <- <-]; split_and!; try done.
  intros _. split; [done|]. apply andb_prop in E as [_ [w' ->]%bool_decide_eq_true]. done.
Qed.

(** What justifies an action of a pass that sees the replica alive or not. *)
Definition justified (alive : bool) (s : Supervisor) (i : Instance) (a : action) : Prop :=
  match a with
  | ALaunch => alive = false ∧ I_Status i = "restarting" ∧
      I_LastRestartAt i + restartDelay oor o ps i ≤ o_now o
  | AStop => alive = true ∧ H_Mode hs = WorkerHealthExec ∧
      (I_Status i = "starting" ∧ StartupTimeout ps ≤ t_Sub (o_now o) (I_StartedAt i) ∨
       I_Status i = "running" ∧ H_Retries hs ≤ default 0 (probeFails s !! key) + 1 ∧
       ∃ r, (probeOutcome o key s).1 = Some r ∧ PO_OK r = false)
  | AProbe => alive = true ∧ H_Mode hs = WorkerHealthExec ∧ one_of (I_Status i) ["starting"; "running"]
  | AReset => alive = true ∧ I_Status i = "running" ∧ 0 < I_RestartCount i ∧
      StableWindow ≤ t_Sub (o_now o) (if I_ReadyAt i =? 0 then I_StartedAt i else I_ReadyAt i)
  end.

Lemma probe_turn_justified alive s0 s i b s' i' acts :
  probe_turn o key hs s i = (b, s', i', acts) →
  alive = true → H_Mode hs = WorkerHealthExec → one_of (I_Status i) ["starting"; "running"] →
  Forall (justified alive s0 i) acts.
Proof.
  intros [_ [->| ->]]%probe_turn_result ???; [by apply Forall_nil|].
  apply Forall_singleton. by split_and!.
Qed.

Lemma probeOutcome_fails s : probeFails (probeOutcome o key s).2 = probeFails s.
Proof.
  unfold probeOutcome. destruct (probes s !! key) as [ready|]; [|done].
  by destruct (match ready with Some r => _ | None => _ end).
Qed.

Lemma probeOutcome_drop s : (probeOutcome o key (dropHandle key s)).1 = (probeOutcome o key s).1.
Proof.
  unfold probeOutcome, dropHandle. simpl. destruct (probes s !! key) as [ready|]; [|done].
  by destruct (match ready with Some r => _ | None => _ end).
Qed.

Lemma restarting_justified alive s i b s' i' acts :
  I_Status i = "restarting" → pass_restarting oor o key ps alive s i = (b, s', i', acts) →
  Forall (justified alive s i) acts.
Proof.
  intros Hst. unfold pass_restarting. destruct alive; [by intros [= <- <- <- <-]|].
  destruct (_ <? _) eqn:Hd; [by intros [= <- <- <- <-]|]. apply Z.ltb_ge in Hd.
  by destruct (LaunchWorkerReplica _ _ _ _) as [[?|?] ?]; intros [= <- <- <- <-];
    apply Forall_singleton.
Qed.

Lemma starting_justified alive w reaped s i b s' i' acts :
  I_Status i = "starting" →
  pass_starting o key ps hs alive w reaped s i = (b, s', i', acts) →
  Forall (justified alive s i) acts.
Proof.
  intros Hst. unfold pass_starting, finishExit. rewrite recordExit_eq.
  destruct alive; [|by intros [= <- <- <- <-]]. simpl.
  destruct (H_Mode hs =s _) eqn:Hm; bool_prop; [|by intros [= <- <- <- <-]]. simpl.
  destruct (_ <=? _) eqn:Hto; bool_prop.
  { destruct (stop_failed _ _ _ _ _ _). intros [= <- <- <- <-]. apply Forall_singleton.
    split_and!; auto. }
  destruct (probeOutcome o key s) as [[[[] d]|] s2]; [by intros [= <- <- <- <-]|..];
    intros H; (eapply (probe_turn_justified _ _ _ _ _ _ _ _ H); [done|done|by rewrite Hst]).
Qed.

Lemma running_justified alive w reaped s i b s' i' acts :
  I_Status i = "running" →
  pass_running o key ps hs alive w reaped s i = (b, s', i', acts) →
  Forall (justified alive s i) acts.
Proof.
  intros Hst. unfold pass_running, finishExit. rewrite recordExit_eq.
  destruct alive; [|by intros [= <- <- <- <-]]. simpl.
  destruct (_ && _)%bool eqn:Hres.
  { apply andb_prop in Hres as [?%Z.ltb_lt ?%Z.leb_le]. intros [= <- <- <- <-].
    by apply Forall_singleton. }
  clear Hres. destruct (H_Mode hs =s _) eqn:Hm; bool_prop; [|by intros [= <- <- <- <-]]. simpl.
  pose proof (probeOutcome_fails s) as Hfails.
  destruct (probeOutcome o key s) as [[r|] s2] eqn:Hp; simpl in Hfails;
    [|intros H; (eapply (probe_turn_justified _ _ _ _ _ _ _ _ H); [done|done|by rewrite Hst])].
  destruct (PO_OK r) eqn:Hr; [intros H; (eapply (probe_turn_justified _ _ _ _ _ _ _ _ H); [done|done|by rewrite Hst])|].
  rewrite Hfails. destruct (H_Retries hs <=? _) eqn:Hret; bool_prop;
    [|intros H; (eapply (probe_turn_justified _ _ _ _ _ _ _ _ H); [done|done|by rewrite Hst])].
  destruct (stop_failed _ _ _ _ _ _). intros [= <- <- <- <-]. apply Forall_singleton.
  split_and!; auto. right. split_and!; [done|done|]. exists r. by rewrite Hp.
Qed.

(** A pass launches a replica only when the replica waits for its restart,
    its process is not alive and its restart delay has passed; it stops one
    only when the process is alive and either did not get ready in time or
    failed its last [Retries] probes; it forgets the restarts only of a replica
    that has been up for the stable window. *)
Theorem actions_are_justified s i changed s' i' acts :
  reconcileReplica oor o key ps hs s i = (changed, s', i', acts) →
  Forall (justified (seen_alive o key s i) s i) acts.
Proof.
  unfold reconcileReplica. destruct (reapHandle o key s) as [[w reaped] s1] eqn:Hreap.
  destruct (reaped_alive s i _ _ _ Hreap) as (-> & Hs1 & Hs2 & _).
  assert (∀ a, justified (seen_alive o key s i) s1 i a → justified (seen_alive o key s i) s i a) as Hj.
  { intros a. destruct reaped; [|by rewrite Hs1].
    destruct (Hs2 eq_refl) as [-> _]. destruct a; simpl; [done| |done|done].
    by rewrite probeOutcome_drop. }
  unfold pass_owned. rewrite recordExit_eq.
  destruct (one_of (I_Status i) _); [by destruct (seen_alive _ _ _ _); intros [= <- <- <- <-]|].
  destruct (I_Status i =s "restarting") eqn:E1; bool_prop.
  { intros H%restarting_justified; [|done]. eauto using Forall_impl. }
  destruct (I_Status i =s "starting") eqn:E2; bool_prop.
  { intros H%starting_justified; [|done]. eauto using Forall_impl. }
  destruct (I_Status i =s "running") eqn:E3; bool_prop.
  { intros H%running_justified; [|done]. eauto using Forall_impl. }
  by destruct (seen_alive _ _ _ _); intros [= <- <- <- <-].
Qed.
End PassEffects.

(** *** Exits *)

Section Exits.
Context (oor : spec_float → Z) (o : obs) (key : replicaKey) (ps : ProcessSettings)
  (hs : WorkerHealthSettings).

(** Where a restart leads: back through the delay, or into the crash loop. *)
Definition after_restart (i : Instance) : string :=
  if decide (0 < MaxRestartAttempts ps ≤ I_RestartCount i) then "crashloop" else "restarting".

Lemma scheduleRestart_status now i :
  I_Status (scheduleRestart ps now i) = after_restart i ∧
  I_RestartCount (scheduleRestart ps now i) =
    I_RestartCount i + (if after_restart i =s "restarting" then 1 else 0).
Proof.
  unfold after_restart. destruct (scheduleRestart_spec ps now i) as [(-> & -> & ?)|(-> & -> & _ & ?)];
    case_decide; simpl; try lia; split; (done || lia).
Qed.

(** The exit code of a replica that is not seen alive: what [Wait] reported to
    the supervisor that spawned it, and unknown otherwise. *)
Definition observed_code (s : Supervisor) : Z :=
  if hasHandle key s then match o_wait o with Some w => (exitCodeOf w).1 | None => -1 end else -1.

Lemma finishExit_spec w reaped s i :
  let '(s', i') := finishExit o key ps w reaped s i in
  let code := if reaped : bool then (exitCodeOf w).1 else -1 in
  handles s' !! key = None ∧ probes s' !! key = None ∧ probeFails s' !! key = None ∧
  I_LastExitCode i' = code ∧
  I_Status i' = match Evaluate (RestartPolicy ps) code with
                | DecisionComplete => "completed" | DecisionFail => "failed"
                | DecisionRestart => after_restart i
                end.
Proof.
  unfold finishExit. rewrite recordExit_eq. simpl. rewrite !lookup_delete_eq.
  destruct (exited_fields o w reaped i) as (_ & Hc & Hx). split_and!; try done.
  - unfold applyPolicy. destruct (Evaluate _ _); simpl; try done.
    by rewrite (proj1 (scheduleRestart_exit _ _ _)).
  - unfold applyPolicy. rewrite Hx. destruct (Evaluate _ _); simpl; try done.
    rewrite (proj1 (scheduleRestart_status _ _)). unfold after_restart. by rewrite Hc.
Qed.

(** When a starting or running replica is found dead its exit is recorded
    exactly (unknown for a process the supervisor did not spawn), its handle
    and probes are dropped, and the restart policy decides: a clean exit is a
    completion unless the policy is [always]; a failure under [never] is
    final; everything else restarts until the budget is spent. *)
Theorem exits_follow_the_policy s i changed s' i' acts :
  one_of (I_Status i) ["starting"; "running"] → seen_alive o key s i = false →
  reconcileReplica oor o key ps hs s i = (changed, s', i', acts) →
  changed = true ∧ acts = [] ∧
  handles s' !! key = None ∧ probes s' !! key = None ∧ probeFails s' !! key = None ∧
  I_LastExitCode i' = observed_code s ∧
  (RestartPolicy ps = RestartNever →
     I_Status i' = if observed_code s =? 0 then "completed" else "failed") ∧
  (RestartPolicy ps = RestartAlways → I_Status i' = after_restart i) ∧
  (RestartPolicy ps ∉ [RestartNever; RestartAlways] →
     I_Status i' = if observed_code s =? 0 then "completed" else after_restart i).
Proof.
  intros Hst Ha. unfold reconcileReplica.
  destruct (reapHandle o key s) as [[w reaped] s1] eqn:Hreap.
  destruct (reaped_alive o key s i _ _ _ Hreap) as (-> & _ & Hw & Hre). rewrite Ha.
  assert (observed_code s = if reaped then (exitCodeOf w).1 else -1) as ->.
  { unfold observed_code. destruct reaped; simpl in *.
    - destruct (Hw eq_refl) as [_ Hwait]. rewrite Hwait in *.
      destruct (hasHandle key s); [done|discriminate Hre].
    - destruct (hasHandle key s); [|done]. destruct (o_wait o); [discriminate Hre|done]. }
  pose proof (finishExit_spec w reaped s1 i) as H.
  unfold one_of in *. simpl in Hst. unfold pass_starting, pass_running. cbn [negb].
  assert (I_Status i = "starting" ∨ I_Status i = "running") as Hst'.
  { destruct (I_Status i =s "starting") eqn:E1; bool_prop; [by left|].
    destruct (I_Status i =s "running") eqn:E2; bool_prop; [by right|done]. }
  destruct (finishExit o key ps w reaped s1 i) as [s2 i2].
  destruct H as (Hh & Hp & Hf & Hc & Hs).
  destruct Hst' as [-> | ->]; simpl; intros [= <- <- <- <-];
    (split_and!; [done|done|done|done|done|done|..]); rewrite Hs; unfold Evaluate.
  all: try (intros ->; cbv [RestartNever RestartAlways String.eqb Ascii.eqb Bool.eqb];
            first [done | by destruct (_ =? 0)]).
  all: intros Hnot; rewrite !not_elem_of_cons in Hnot; destruct Hnot as (Hn & Hal & _).
  all: apply String.eqb_neq in Hn as ->; apply String.eqb_neq in Hal as ->.
  all: by destruct (_ =? 0).
Qed.

Lemma stop_failed_spec reason s i :
  let '(s', i') := stop_failed o key ps reason s i in
  I_Status i' = after_restart i ∧
  I_RestartCount i' = I_RestartCount i + (if after_restart i =s "restarting" then 1 else 0) ∧
  I_LastExitCode i' =
    (if hasHandle key s then -1
     else (exitCodeOf (GracefulStopWorker (o_stop o) i false).1.2).1).
Proof.
  unfold stop_failed. destruct (GracefulStopWorker _ _ _) as [[_r w] _e] eqn:Hg.
  rewrite recordExit_eq. set (j := exited _ _ _ _).
  destruct (exited_fields o w (negb (hasHandle key s)) i) as (_ & Hc & Hx). fold j in Hc, Hx.
  destruct (scheduleRestart_status (o_later o) (with_exit j (I_LastExitCode j) (reason j) (I_LastExitAt j)))
    as [Hs Hn].
  rewrite (proj1 (scheduleRestart_exit _ _ _)). simpl. rewrite Hs, Hn. simpl.
  assert (after_restart (with_exit j (I_LastExitCode j) (reason j) (I_LastExitAt j)) =
          after_restart i) as -> by (unfold after_restart; simpl; by rewrite Hc).
  rewrite Hc, Hx. split_and!; [done|done|].
  destruct (hasHandle key s); [done|]. simpl. by rewrite Hg.
Qed.

(** A turn that ended in a forced stop of a live replica. *)
Definition stopped_by (alive : bool) (s : Supervisor) (i : Instance) (changed : bool)
    (s' : Supervisor) (i' : Instance) : Prop :=
  alive = true ∧ changed = true ∧
  ∃ reason s1, hasHandle key s1 = hasHandle key s ∧ stop_failed o key ps reason s1 i = (s', i').

Lemma no_stop acts : acts = [] ∨ acts = [AProbe] → AStop ∉ acts.
Proof. intros [->| ->]; set_solver. Qed.

Lemma probe_turn_no_stop s i b s' i' acts :
  probe_turn o key hs s i = (b, s', i', acts) → AStop ∉ acts.
Proof. intros [_ H]%probe_turn_result. by apply no_stop. Qed.

Lemma probeOutcome_handles s : handles (probeOutcome o key s).2 = handles s.
Proof.
  unfold probeOutcome. destruct (probes s !! key) as [ready|]; [|done].
  by destruct (match ready with Some r => _ | None => _ end).
Qed.

Lemma starting_stop alive w reaped s i b s' i' acts :
  pass_starting o key ps hs alive w reaped s i = (b, s', i', acts) → AStop ∈ acts →
  stopped_by alive s i b s' i'.
Proof.
  unfold pass_starting, finishExit. rewrite recordExit_eq.
  destruct alive; cbn [negb]; [|by intros [= <- <- <- <-] ?%elem_of_nil].
  destruct (H_Mode hs <>s _); [by intros [= <- <- <- <-] ?%elem_of_nil|]. destruct (_ <=? _).
  - destruct (stop_failed _ _ _ _ _ _) as [s2 i2] eqn:E. intros [= <- <- <- <-] _.
    split; [done|]. split; [done|]. by eexists _, s.
  - destruct (probeOutcome o key s) as [[[[] d]|] s2];
      [by intros [= <- <- <- <-] ?%elem_of_nil|by intros H%probe_turn_no_stop..].
Qed.

Lemma running_stop alive w reaped s i b s' i' acts :
  pass_running o key ps hs alive w reaped s i = (b, s', i', acts) → AStop ∈ acts →
  stopped_by alive s i b s' i'.
Proof.
  unfold pass_running, finishExit. rewrite recordExit_eq.
  destruct alive; cbn [negb]; [|by intros [= <- <- <- <-] ?%elem_of_nil].
  destruct (_ && _)%bool; [by intros [= <- <- <- <-] ?%list_elem_of_singleton|].
  destruct (H_Mode hs <>s _); [by intros [= <- <- <- <-] ?%elem_of_nil|].
  pose proof (probeOutcome_handles s) as Hh.
  destruct (probeOutcome o key s) as [[r|] s2]; [|by intros H%probe_turn_no_stop].
  destruct (PO_OK r); [by intros H%probe_turn_no_stop|].
  destruct (_ <=? _); [|by intros H%probe_turn_no_stop].
  match goal with |- context [stop_failed o key ps ?reason ?s3 i] =>
    destruct (stop_failed o key ps reason s3 i) as [s4 i4] eqn:E;
    intros [= <- <- <- <-] _; split; [done|]; split; [done|]; exists reason, s3 end.
  split; [|done]. unfold hasHandle. simpl in *. by rewrite Hh.
Qed.

Lemma restarting_no_stop alive s i b s' i' acts :
  pass_restarting oor o key ps alive s i = (b, s', i', acts) → AStop ∉ acts.
Proof.
  unfold pass_restarting. destruct alive; [intros [= <- <- <- <-]; apply not_elem_of_nil|].
  destruct (_ <? _); [intros [= <- <- <- <-]; apply not_elem_of_nil|].
  by destruct (LaunchWorkerReplica _ _ _ _) as [[?|?] ?]; intros [= <- <- <- <-] ?%list_elem_of_singleton.
Qed.

(** A stop consumes one attempt whatever the exit: the replica waits for a
    restart, or is in a crash loop when the budget is spent.  But its exit is
    recorded the wrong way round: unknown when the supervisor spawned the
    process and has its exit, and as if supervised from spawn when it was
    adopted. *)
Theorem forced_stop_consumes_an_attempt s i changed s' i' acts :
  reconcileReplica oor o key ps hs s i = (changed, s', i', acts) → AStop ∈ acts →
  changed = true ∧ I_Status i' = after_restart i ∧
  I_RestartCount i' = I_RestartCount i + (if after_restart i =s "restarting" then 1 else 0) ∧
  I_LastExitCode i' =
    (if hasHandle key s then -1
     else (exitCodeOf (GracefulStopWorker (o_stop o) i false).1.2).1).
Proof.
  unfold reconcileReplica. destruct (reapHandle o key s) as [[w reaped] s1] eqn:Hreap.
  destruct (reaped_alive o key s i _ _ _ Hreap) as (-> & Hs1 & _ & Hre). intros Hr Hin.
  assert (stopped_by (seen_alive o key s i) s1 i changed s' i') as (Ha & -> & reason & s2 & Hh & Hsf).
  { revert Hr. unfold pass_owned. rewrite recordExit_eq.
    destruct (one_of _ _);
      [by destruct (seen_alive _ _ _ _); intros [= <- <- <- <-]; apply elem_of_nil in Hin|].
    destruct (I_Status i =s "restarting").
    { by intros ?%restarting_no_stop. }
    destruct (I_Status i =s "starting"); [by intros; eapply starting_stop|].
    destruct (I_Status i =s "running"); [by intros; eapply running_stop|].
    by destruct (seen_alive _ _ _ _); intros [= <- <- <- <-]; apply elem_of_nil in Hin. }
  rewrite Hs1 in Hh.
  - pose proof (stop_failed_spec reason s2 i) as H. rewrite Hsf, Hh in H. split; [done|exact H].
  - rewrite Hre. unfold seen_alive in Ha. by destruct (_ && _)%bool.
Qed.
End Exits.

(** *** The order of the replicas *)

Definition slot_number (slot : string) : Z := default (-1) (Atoi slot).

Definition slot_index (slots : list string) : gmap Z string :=
  foldl (λ m slot, <[slot_number slot := slot]> m) ∅ slots.

Lemma slot_index_lookup slots slot :
  NoDup (slot_number <$> slots) → slot ∈ slots →
  slot_index slots !! slot_number slot = Some slot.
Proof.
  unfold slot_index. generalize (∅ : gmap Z string).
  assert (∀ l (m : gmap Z string) n, n ∉ (slot_number <$> l) →
    foldl (λ m slot, <[slot_number slot := slot]> m) m l !! n = m !! n) as Hout.
  { induction l as [|x l IH]; intros m n Hn; [done|]. simpl in *.
    rewrite not_elem_of_cons in Hn. destruct Hn as [Hne Hn]. rewrite IH by done.
    by rewrite lookup_insert_ne. }
  induction slots as [|x slots IH]; intros m Hnd Hin; [by apply elem_of_nil in Hin|].
  rewrite fmap_cons in Hnd. apply NoDup_cons in Hnd as [Hx Hnd].
  simpl. apply elem_of_cons in Hin as [->|Hin]; [|by apply IH].
  rewrite Hout by done. apply lookup_insert_eq.
Qed.

Lemma sortedSlots_unfold slots :
  sortedSlots slots =
  (λ n, default "" (slot_index slots !! n)) <$> merge_sort Z.le (slot_number <$> slots).
Proof. done. Qed.

(** With distinct slot numbers the pass visits every replica exactly once,
    in numeric order, whatever the iteration order of the map; with a
    collision some replica is never supervised. *)
Theorem slots_are_visited_in_order slots slots' :
  NoDup (slot_number <$> slots) → slots ≡ₚ slots' →
  sortedSlots slots = sortedSlots slots' ∧ sortedSlots slots ≡ₚ slots ∧
  StronglySorted Z.le (slot_number <$> sortedSlots slots).
Proof.
  intros Hnd Hp. rewrite !sortedSlots_unfold.
  assert (∀ l : list Z, (∀ n, n ∈ l → n ∈ slot_number <$> slots) →
    slot_number <$> ((λ n, default "" (slot_index slots !! n)) <$> l) = l) as Hback.
  { intros l Hl. rewrite <- list_fmap_compose. rewrite <- (list_fmap_id l) at 2.
    apply list_fmap_ext. intros k n Hn. apply list_elem_of_lookup_2, Hl in Hn.
    apply list_elem_of_fmap in Hn as (slot & -> & Hin). simpl.
    by rewrite slot_index_lookup. }
  pose proof (merge_sort_Permutation Z.le (slot_number <$> slots)) as Hms.
  split_and!.
  - assert (merge_sort Z.le (slot_number <$> slots) = merge_sort Z.le (slot_number <$> slots')) as <-.
    { apply (StronglySorted_unique Z.le).
      1-2: apply StronglySorted_merge_sort; apply _.
      rewrite !merge_sort_Permutation. by rewrite Hp. }
    apply list_fmap_ext. intros k n Hn. apply list_elem_of_lookup_2 in Hn. rewrite Hms in Hn.
    apply list_elem_of_fmap in Hn as (slot & -> & Hin).
    rewrite !slot_index_lookup; rewrite <- ?Hp; done.
  - rewrite Hms. rewrite <- list_fmap_compose. rewrite <- (list_fmap_id slots) at 2.
    rewrite (list_fmap_ext _ id slots); [done|]. intros k slot Hk.
    apply list_elem_of_lookup_2 in Hk. simpl. by rewrite slot_index_lookup.
  - rewrite Hback by (intros n; by rewrite Hms). apply StronglySorted_merge_sort; apply _.
Qed.

(** *** Samples *)

Module SupervisorSamples.
Definition oor : spec_float → Z := λ _, - 2 ^ 63.
Definition key : replicaKey := ("api", "0").
Definition exec_health : WorkerHealthSettings :=
  mkHealth WorkerHealthExec ["./probe"] (10 * second) (5 * second) 3.
Definition alive : identity_check := λ _ _ _, true.
Definition dead : identity_check := λ _ _ _, false.

Definition launch_ok : launch_obs := mkLaunch None (Ok (4242, 7)) None.
Definition stop_clean : stop_obs := mkStop alive None (Some WaitNil) None None.

Definition at_time (t : Z) (w : option waited) (matches : identity_check)
    (probe : option ProbeOutcome) : obs :=
  mkObs (t * second) (t * second) w matches probe None launch_ok stop_clean (f64_const 1 2).

(** A replica that was started at second 100. *)
Definition started : Instance := markWorkerLaunched (100 * second) 4242 7
  (mkInstance 0 0 "/srv/api" 0 "stopped" 0 0 0 "" 0 0).

Definition spawned : Supervisor := setHandle key 4242 New_supervisor.

(** It gets ready, crashes, waits two seconds and is launched again. *)
Definition crash_run : list obs :=
  [at_time 102 None alive (Some (mkProbe true "")); at_time 104 None alive (Some (mkProbe true ""));
   at_time 106 (Some (WaitExit 2 "exit status 2")) dead None; at_time 107 None dead None;
   at_time 108 None dead None].

Definition crash_result := passes oor key default_process exec_health crash_run spawned started.

Example crash_is_restarted :
  (I_Status crash_result.1.2, I_RestartCount crash_result.1.2, crash_result.2) =
  ("starting", 1, [AProbe; ALaunch]).
Proof. by vm_compute. Qed.

(** Three failed probes stop it; its clean exit was seen, and is recorded as
    unknown. *)
Definition failing : Supervisor :=
  with_probes (with_fails spawned {[key := 2]}) {[key := None]}.
Definition running : Instance := with_status (with_ready started (101 * second)) "running".
Definition unhealthy : obs := at_time 110 None alive (Some (mkProbe false "exit status 1")).
Definition stop_result := reconcileReplica oor unhealthy key default_process exec_health failing running.

Example stopped_with_unknown_exit :
  (I_Status stop_result.1.2, I_LastExitCode stop_result.1.2, stop_result.2) =
  ("restarting", -1, [AStop]).
Proof. by vm_compute. Qed.

(** The write at the end of a pass fails: the next pass finds the replica
    waiting again, launches it again, and the processes before are nobody's. *)
Example failed_writes_launch_again :
  (stored_passes oor key default_process exec_health ((., false) <$> replicate 30 (at_time 200 None dead None))
     New_supervisor (with_status (with_restart started 10 (100 * second)) "restarting")).2 = replicate 30 ALaunch.
Proof. by vm_compute. Qed.

(** Two slots that are not numbers collide: one is visited twice. *)
Example colliding_slots : sortedSlots ["blue"; "green"; "10"; "2"] = ["green"; "green"; "2"; "10"].
Proof. by vm_compute. Qed.
End SupervisorSamples.

Lemma launches_stay_within_budget_witness :
  launches SupervisorSamples.crash_result.2 ≤ 10.
Proof.
  unfold SupervisorSamples.crash_result.
  destruct (passes SupervisorSamples.oor SupervisorSamples.key default_process
    SupervisorSamples.exec_health SupervisorSamples.crash_run SupervisorSamples.spawned
    SupervisorSamples.started) as [[s' i'] acts] eqn:Hp.
  assert (resets acts = 0) as Hr
    by (change acts with (s', i', acts).2; rewrite <- Hp; by vm_compute).
  assert (0 < MaxRestartAttempts default_process) as Hmax by done.
  assert (0 ≤ I_RestartCount SupervisorSamples.started ≤ MaxRestartAttempts default_process) as Hc
    by (split; by vm_compute).
  destruct (launches_stay_within_budget _ _ _ _ _ _ _ _ _ _ Hmax Hc Hp) as [H _].
  rewrite Hr in H. simpl in H. pose proof (waiting_range i'). simpl.
  change (waiting SupervisorSamples.started) with 0 in H.
  change (I_RestartCount SupervisorSamples.started) with 0 in H.
  change (MaxRestartAttempts default_process) with 10 in H. lia.
Defined.

Lemma foreign_replicas_are_left_alone_witness :
  (passes SupervisorSamples.oor SupervisorSamples.key default_process
     SupervisorSamples.exec_health SupervisorSamples.crash_run SupervisorSamples.spawned
     (with_status SupervisorSamples.started "crashloop")).2 = [].
Proof.
  destruct (passes SupervisorSamples.oor SupervisorSamples.key default_process
    SupervisorSamples.exec_health SupervisorSamples.crash_run SupervisorSamples.spawned
    (with_status SupervisorSamples.started "crashloop")) as [[s' i'] acts] eqn:Hp.
  assert (supervised (with_status SupervisorSamples.started "crashloop") = false) as Hs by done.
  exact (proj1 (foreign_replicas_are_left_alone _ _ _ _ _ _ _ _ _ _ Hs Hp)).
Defined.

Lemma actions_are_justified_witness :
  Forall (justified SupervisorSamples.oor SupervisorSamples.unhealthy SupervisorSamples.key
    default_process SupervisorSamples.exec_health
    (seen_alive SupervisorSamples.unhealthy SupervisorSamples.key SupervisorSamples.failing
       SupervisorSamples.running) SupervisorSamples.failing SupervisorSamples.running)
    SupervisorSamples.stop_result.2.
Proof.
  unfold SupervisorSamples.stop_result.
  destruct (reconcileReplica _ _ _ _ _ _ _) as [[[b s'] i'] acts] eqn:Hr.
  exact (actions_are_justified _ _ _ _ _ _ _ _ _ _ _ Hr).
Defined.

Lemma exits_follow_the_policy_witness :
  (reconcileReplica SupervisorSamples.oor
     (SupervisorSamples.at_time 106 (Some WaitNil) SupervisorSamples.dead None)
     SupervisorSamples.key default_process SupervisorSamples.exec_health
     SupervisorSamples.spawned SupervisorSamples.running).1.2.(I_Status) = "completed".
Proof.
  destruct (reconcileReplica _ _ _ _ _ _ _) as [[[b s'] i'] acts] eqn:Hr.
  assert (one_of (I_Status SupervisorSamples.running) ["starting"; "running"]) as Hst by done.
  assert (seen_alive (SupervisorSamples.at_time 106 (Some WaitNil) SupervisorSamples.dead None)
    SupervisorSamples.key SupervisorSamples.spawned SupervisorSamples.running = false) as Ha by done.
  destruct (exits_follow_the_policy _ _ _ _ _ _ _ _ _ _ _ Hst Ha Hr)
    as (_ & _ & _ & _ & _ & _ & _ & _ & H).
  apply H. apply (bool_decide_unpack _). by vm_compute.
Defined.

Lemma forced_stop_consumes_an_attempt_witness :
  SupervisorSamples.stop_result.1.2.(I_RestartCount) = 1.
Proof.
  unfold SupervisorSamples.stop_result.
  destruct (reconcileReplica _ _ _ _ _ _ _) as [[[b s'] i'] acts] eqn:Hr.
  assert (AStop ∈ acts) as Hin.
  { change acts with (b, s', i', acts).2. rewrite <- Hr. vm_compute. left. }
  exact (proj1 (proj2 (proj2 (forced_stop_consumes_an_attempt _ _ _ _ _ _ _ _ _ _ _ Hr Hin)))).
Defined.

Lemma slots_are_visited_in_order_witness :
  sortedSlots ["10"; "2"; "0"] = sortedSlots ["0"; "2"; "10"].
Proof.
  refine (proj1 (slots_are_visited_in_order _ _ _ _)).
  - apply (bool_decide_unpack _). by vm_compute.
  - apply (bool_decide_unpack _). by vm_compute.
Defined.
