(* ===== verification/HealthTiers.v ===== *)
(** * HealthTiers: when a new instance may take traffic

    internal/health/tiered.go and the configuration of internal/health/types.go:
    which kind of probe a deployment uses, one probe, and the wait for enough
    probes in a row before a deadline. *)

From S2P Require Import Prelude GoLib GoText GoDuration Errors.

(** ** Configuration *)

(* src: internal/health/tiered.go:17-41 Tier *)
Inductive Tier := TierUnknown | Tier1HTTPPath | Tier2HTTPAny | Tier3TCP | Tier3None.
#[export] Instance Tier_eq : EqDecision Tier.
Proof. solve_decision. Defined.

(* src: internal/health/tiered.go Tier.String *)
Definition Tier_String (t : Tier) : string :=
  match t with
  | Tier1HTTPPath => "Tier 1 (explicit health endpoint, 2xx required)"
  | Tier2HTTPAny => "Tier 2 (HTTP probe, any response = alive)"
  | Tier3TCP => "Tier 3 (TCP port check only)"
  | Tier3None => "Tier 3 (process PID check only)"
  | TierUnknown => "unknown"
  end.

(* src: internal/health/tiered.go:59-64 DefaultTierInterval *)
Definition DefaultTierInterval : Z := 1 * Second.
Definition DefaultTierRetries : Z := 5.
Definition DefaultTierTimeout : Z := 30 * Second.

(* src: internal/health/types.go:128-139 TierModeAuto *)
Definition TierModeAuto := "auto".
Definition TierModeHTTP := "http".
Definition TierModeTCPOnly := "tcp-only".
Definition TierModeNone := "none".

(* src: internal/health/types.go DeployTierConfig *)
Record DeployTierConfig := mkTier {
  DT_Mode : string; DT_Path : string; DT_Interval : string; DT_Retries : Z; DT_Timeout : string
}.

(* src: internal/health/types.go HealthCheckConfig *)
Record HealthCheckConfig := mkCheck {
  HC_ID : string; HC_Name : string; HC_URL : string; HC_Interval : string;
  HC_Retries : Z; HC_ExpectedCodes : string; HC_Timeout : string
}.
#[export] Instance HealthCheckConfig_eq : EqDecision HealthCheckConfig.
Proof. solve_decision. Defined.

(* src: internal/health/http_metrics.go HTTPMetricsConfig *)
Record HTTPMetricsConfig := mkMetrics { HM_Domain : string; HM_CaddyAdmin : string }.

(** An endpoint that is [null] in the file is not in the map. *)
(* src: internal/health/types.go AppHealthConfig *)
Record AppHealthConfig := mkHealth {
  AH_AppID : string; AH_AppName : string; AH_Endpoints : gmap string HealthCheckConfig;
  AH_Enabled : bool; AH_UpdatedAt : Z; AH_DeployTier : option DeployTierConfig;
  AH_HTTPMetrics : option HTTPMetricsConfig
}.

(* src: internal/health/types.go sortedEndpointNames *)
Definition sortedEndpointNames (m : gmap string HealthCheckConfig) : list string := sort_strings (map_to_list m).*1.

Section Effective.
(** The host name and the path of an URL, when [url.Parse] accepts it. *)
Variable parse_url : string → option (string * string).

(* src: internal/health/types.go:80-98 AppHealthConfig.EffectiveDeployTier *)
Definition derive_tier (ep : HealthCheckConfig) : option DeployTierConfig :=
  '(host, path) ← parse_url (HC_URL ep);
  if ((path =s "") || (path =s "/"))%bool then None
  else if negb (one_of host ["localhost"; "127.0.0.1"; "::1"]) then None
  else Some (mkTier TierModeAuto path "" 0 "").

(** The first endpoint of the list a tier is derived from. *)
(* src: internal/health/types.go:105-109 AppHealthConfig.EffectiveDeployTier *)
Fixpoint first_derived (m : gmap string HealthCheckConfig) (names : list string) : option DeployTierConfig :=
  match names with
  | [] => None
  | n :: names => match m !! n ≫= derive_tier with Some cfg => Some cfg | None => first_derived m names end
  end.

(* src: internal/health/types.go AppHealthConfig.EffectiveDeployTier *)
Definition EffectiveDeployTier (c : option AppHealthConfig) : option DeployTierConfig :=
  match c with
  | None => None
  | Some c =>
      match AH_DeployTier c with
      | Some t => Some t
      | None => match AH_Endpoints c !! "default" ≫= derive_tier with
                | Some t => Some t
                | None => first_derived (AH_Endpoints c) (sortedEndpointNames (AH_Endpoints c))
                end
      end
  end.
End Effective.

(** [answers]: the port answers an HTTP request for [/]. *)
(* src: internal/health/tiered.go SelectTier *)
Definition SelectTier (cfg : option DeployTierConfig) (answers : bool) : Tier :=
  let mode := match cfg with
              | Some c => if DT_Mode c <>s "" then DT_Mode c else TierModeAuto
              | None => TierModeAuto
              end in
  let path := match cfg with Some c => DT_Path c | None => "" end in
  if mode =s TierModeNone then Tier3None
  else if mode =s TierModeTCPOnly then Tier3TCP
  else if path <>s "" then Tier1HTTPPath
  else if mode =s TierModeHTTP then Tier2HTTPAny
  else if answers then Tier2HTTPAny else Tier3TCP.

Definition positive_or (d : Z) (parsed : option Z) : Z :=
  match parsed with Some p => if 0 <? p then p else d | None => d end.

(** Interval, successes in a row, overall time. *)
(* src: internal/health/tiered.go resolvedConfig *)
Definition resolvedConfig (cfg : option DeployTierConfig) : Z * Z * Z :=
  match cfg with
  | None => (DefaultTierInterval, DefaultTierRetries, DefaultTierTimeout)
  | Some c => (positive_or DefaultTierInterval (ParseDuration (DT_Interval c)),
               (if 0 <? DT_Retries c then DT_Retries c else DefaultTierRetries),
               positive_or DefaultTierTimeout (ParseDuration (DT_Timeout c)))
  end.

(** ** Probes *)

(** What one probe finds: the status of an HTTP answer, a TCP connection, a live
    process. *)
Record probed := mkProbed { pb_http : string → option Z; pb_tcp : bool; pb_alive : bool }.

(* src: internal/health/tiered.go Check *)
Definition Check_ (t : Tier) (cfg : option DeployTierConfig) (p : probed) : bool :=
  match t with
  | Tier1HTTPPath =>
      let path := match cfg with Some c => if DT_Path c <>s "" then DT_Path c else "/" | None => "/" end in
      match pb_http p path with Some code => ((200 <=? code) && (code <? 300))%bool | None => false end
  | Tier2HTTPAny => bool_decide (is_Some (pb_http p "/"))
  | Tier3TCP => pb_tcp p
  | Tier3None => pb_alive p
  | TierUnknown => false
  end.

(** How the wait before the n-th round ends: the context is done, the deadline
    passes, or the ticker fires. *)
Inductive waited := WaitDone (e : error) | WaitDeadline | WaitTick.

(** The rounds of a wait: when each begins (from the start of the wait), how the
    wait before it ended, and what its probe finds. *)
Record rounds := mkRounds { rd_time : nat → Z; rd_waited : nat → waited; rd_probed : nat → probed }.

Definition timed_out (timeout : Z) (t : Tier) (consecutive retries : Z) : error :=
  New CodeHealthCheckFailed ("health check timed out after " +:+ duration_string timeout +:+ " (tier " +:+
    Tier_String t +:+ ", " +:+ Itoa consecutive +:+ "/" +:+ Itoa retries +:+ " consecutive successes)").

Definition ErrCandidateExited : error := Foreign "candidate process exited before becoming healthy" None.

Section Wait.
Variables (t : Tier) (cfg : option DeployTierConfig) (pid : Z) (rd : rounds).
(** The deadline, which a context may bring forward. *)
Variables (deadline timeout retries : Z).

(* src: internal/health/tiered.go:330-366 WaitForHealthy *)
Fixpoint wait_rounds (fuel n : nat) (consecutive : Z) : option (res unit) :=
  match fuel with
  | O => None
  | S fuel =>
      match (if Nat.eqb n 0 then WaitTick else rd_waited rd n) with
      | WaitDone e => Some (Err e)
      | WaitDeadline => Some (Err (timed_out timeout t consecutive retries))
      | WaitTick =>
          if deadline <? rd_time rd n then Some (Err (timed_out timeout t consecutive retries))
          else if ((0 <? pid) && negb (pb_alive (rd_probed rd n)))%bool then
            Some (Err (wrap CodeHealthCheckFailed ("candidate process (pid " +:+ Itoa pid +:+
                         ") exited before becoming healthy") ErrCandidateExited))
          else if Check_ t cfg (rd_probed rd n) then
            if retries <=? consecutive + 1 then Some (Ok tt) else wait_rounds fuel (S n) (consecutive + 1)
          else wait_rounds fuel (S n) 0
      end
  end.
End Wait.

(** The n-th tick comes [n] intervals after the start at the earliest. *)
Definition wait_fuel (interval timeout : Z) : nat := Z.to_nat (timeout / interval) + 2.

(** [limit]: the deadline of the context, from the start of the wait. *)
(* src: internal/health/tiered.go WaitForHealthy *)
Definition WaitForHealthy (t : Tier) (cfg : option DeployTierConfig) (pid : Z) (limit : option Z) (rd : rounds)
  : option (res unit) :=
  let '(interval, retries, timeout) := resolvedConfig cfg in
  let deadline := match limit with Some l => Z.min l timeout | None => timeout end in
  wait_rounds t cfg pid rd deadline timeout retries (wait_fuel interval timeout) 0 0.

(** ** What a healthy answer means *)

Lemma resolvedConfig_pos cfg interval retries timeout :
  resolvedConfig cfg = (interval, retries, timeout) → 0 < interval ∧ 0 < retries ∧ 0 < timeout.
Proof.
  unfold resolvedConfig, positive_or. destruct cfg as [c|]; intros [= <- <- <-].
  - assert (∀ o d, 0 < d → 0 < match o with Some p => if 0 <? p then p else d | None => d end) as H.
    { intros [p|] d Hd; [destruct (0 <? p) eqn:E; lia | done]. }
    split; [by apply H|]. split; [destruct (0 <? DT_Retries c) eqn:E; unfold DefaultTierRetries; lia | by apply H].
  - unfold DefaultTierRetries. split_and!; done.
Qed.

Section Wait_spec.
Variables (t : Tier) (cfg : option DeployTierConfig) (pid : Z) (rd : rounds) (deadline timeout retries : Z).

(** A round that counts. *)
Definition good_round (n : nat) : Prop :=
  rd_time rd n ≤ deadline ∧ Check_ t cfg (rd_probed rd n) = true ∧
  (0 < pid → pb_alive (rd_probed rd n) = true).

Lemma wait_rounds_ok fuel n c :
  0 ≤ c < retries →
  (∀ i, (Z.of_nat n - c ≤ Z.of_nat i < Z.of_nat n) → good_round i) → c ≤ Z.of_nat n →
  wait_rounds t cfg pid rd deadline timeout retries fuel n c = Some (Ok tt) →
  ∃ last, (n ≤ last)%nat ∧ retries ≤ Z.of_nat last + 1 ∧
    ∀ i, Z.of_nat last - retries < Z.of_nat i ≤ Z.of_nat last → good_round i.
Proof.
  revert n c. induction fuel as [|fuel IH]; intros n c Hc Hgood Hn; cbn [wait_rounds]; [done|].
  destruct (if Nat.eqb n 0 then WaitTick else rd_waited rd n); [done..|].
  destruct (deadline <? rd_time rd n) eqn:Et; [done|]. apply Z.ltb_ge in Et.
  destruct ((0 <? pid) && negb (pb_alive (rd_probed rd n)))%bool eqn:Ep; [done|].
  destruct (Check_ t cfg (rd_probed rd n)) eqn:Ec.
  - assert (good_round n) as Hr.
    { split; [done|]. split; [done|]. intros Hp. apply andb_false_iff in Ep as [Ep | Ep]; [lia|].
      by apply negb_false_iff in Ep. }
    assert (∀ i, Z.of_nat (S n) - (c + 1) ≤ Z.of_nat i < Z.of_nat (S n) → good_round i) as Hgood'.
    { intros i Hi. destruct (decide (i = n)) as [-> | Hne]; [done|]. apply Hgood. lia. }
    destruct (retries <=? c + 1) eqn:Er.
    + intros _. exists n. split; [done|]. split; [lia|]. intros i Hi. apply Hgood'. lia.
    + intros Hw. destruct (IH (S n) (c + 1) ltac:(lia) Hgood' ltac:(lia) Hw) as (last & ? & ? & ?).
      exists last. split; [lia|]. by split.
  - intros Hw. destruct (IH (S n) 0 ltac:(lia)) as (last & ? & ? & ?); [intros; lia | lia | done|].
    exists last. split; [lia|]. by split.
Qed.

(** The rounds end: at the latest when the next one would begin too late. *)
Lemma wait_rounds_total interval fuel n c :
  0 < interval → (∀ i, Z.of_nat i * interval ≤ rd_time rd i) →
  deadline < (Z.of_nat n + Z.of_nat fuel - 1) * interval → (0 < fuel)%nat →
  is_Some (wait_rounds t cfg pid rd deadline timeout retries fuel n c).
Proof.
  intros Hi Hclock. revert n c. induction fuel as [|fuel IH]; intros n c Hd Hf; [lia|]. cbn [wait_rounds].
  destruct (if Nat.eqb n 0 then WaitTick else rd_waited rd n); [by eexists..|].
  destruct (deadline <? rd_time rd n) eqn:Et; [by eexists|]. apply Z.ltb_ge in Et.
  assert (0 < fuel)%nat as Hfuel.
  { destruct fuel; [|lia]. specialize (Hclock n). nia. }
  destruct (_ && _)%bool; [by eexists|].
  assert (deadline < (Z.of_nat (S n) + Z.of_nat fuel - 1) * interval) as Hd' by nia.
  destruct (Check_ t cfg (rd_probed rd n)); [|by apply IH].
  destruct (retries <=? c + 1); [by eexists | by apply IH].
Qed.
End Wait_spec.

(** A wait for a healthy instance ends, and answers healthy only after as
    many probes in a row as are configured succeeded before the deadline on a
    live process; when that many rounds do not fit before the deadline it never
    does. *)
Theorem healthy_means_enough_probes (t : Tier) (cfg : option DeployTierConfig) (pid : Z) (limit : option Z) (rd : rounds)
    (interval retries timeout : Z) (Hcfg : resolvedConfig cfg = (interval, retries, timeout))
    (Hclock : ∀ n, Z.of_nat n * interval ≤ rd_time rd n) :
  let deadline := match limit with Some l => Z.min l timeout | None => timeout end in
  ∃ r, WaitForHealthy t cfg pid limit rd = Some r ∧
    (r = Ok tt →
     (retries - 1) * interval ≤ deadline ∧
     ∃ last, retries ≤ Z.of_nat last + 1 ∧
       ∀ i, Z.of_nat last - retries < Z.of_nat i ≤ Z.of_nat last → good_round t cfg pid rd deadline i).
Proof.
  destruct (resolvedConfig_pos _ _ _ _ Hcfg) as (Hi & Hr & Ht).
  unfold WaitForHealthy. rewrite Hcfg. cbv zeta.
  set (deadline := match limit with Some l => Z.min l timeout | None => timeout end).
  assert (deadline ≤ timeout) as Hd by (unfold deadline; destruct limit; lia).
  destruct (wait_rounds_total t cfg pid rd deadline timeout retries interval (wait_fuel interval timeout) 0 0 Hi Hclock)
    as [r Hrun].
  { unfold wait_fuel. rewrite Nat2Z.inj_add, Z2Nat.id by (apply Z.div_pos; lia).
    pose proof (Z.mul_succ_div_gt timeout interval Hi). simpl. nia. }
  { unfold wait_fuel. lia. }
  exists r. split; [done|]. intros ->.
  destruct (wait_rounds_ok t cfg pid rd deadline timeout retries _ 0 0 ltac:(lia) ltac:(intros; lia) ltac:(lia) Hrun)
    as (last & _ & Hlast & Hgood).
  split; [|by exists last]. destruct (Hgood last ltac:(lia)) as [Htime _]. specialize (Hclock last). nia.
Qed.

Definition steady : rounds :=
  mkRounds (λ n, Z.of_nat n * Second) (λ _, WaitTick) (λ n, mkProbed (λ _, if Nat.ltb n 2 then None else Some 404) true true).

Lemma healthy_means_enough_probes_witness :
  WaitForHealthy Tier2HTTPAny None 7 None steady = Some (Ok tt) ∧
  ∃ r, WaitForHealthy Tier2HTTPAny None 7 None steady = Some r ∧
    (r = Ok tt →
     (5 - 1) * (1 * Second) ≤ 30 * Second ∧
     ∃ last, 5 ≤ Z.of_nat last + 1 ∧
       ∀ i, Z.of_nat last - 5 < Z.of_nat i ≤ Z.of_nat last → good_round Tier2HTTPAny None 7 steady (30 * Second) i).
Proof.
  split; [vm_compute; reflexivity|].
  apply (healthy_means_enough_probes Tier2HTTPAny None 7 None steady (1 * Second) 5 (30 * Second) eq_refl).
  intros n. unfold steady, rd_time. lia.
Defined.

(** Ten successes every 5s never fit into 30s: such an instance is never found
    healthy, although every probe succeeds. *)
Example unsatisfiable_configuration :
  WaitForHealthy Tier3TCP (Some (mkTier "tcp-only" "" "5s" 10 "30s")) 7 None
    (mkRounds (λ n, Z.of_nat n * (5 * Second)) (λ _, WaitTick) (λ _, mkProbed (λ _, None) true true)) =
  Some (Err (timed_out (30 * Second) Tier3TCP 7 10)).
Proof. vm_compute. reflexivity. Qed.
