(* ===== verification/HealthConfig.v ===== *)
(** * HealthConfig: the configuration of the health checks on disk

    internal/health/config.go: every application keeps its endpoints in
    [health.json] of its directory.  Writers of several processes go through
    [Mutate], which reads all files again under a lock, edits one configuration
    and replaces its file; an endpoint gets an identity once and keeps it. *)

From stdpp Require Import stringmap.
From S2P Require Import Prelude GoLib FileStore HealthTiers Errors.

Definition health_json : string := "health.json".

(** The files of one application directory. *)
Definition app_files : Type := gmap string (content AppHealthConfig).

(** The directories under [basePath], and the configurations in memory. *)
(* src: internal/health/config.go ConfigManager *)
Record ConfigManager := mkManager {
  CM_dirs : gmap string app_files;
  CM_configs : gmap string AppHealthConfig
}.

Definition with_ID (id : string) (c : HealthCheckConfig) : HealthCheckConfig :=
  mkCheck id (HC_Name c) (HC_URL c) (HC_Interval c) (HC_Retries c) (HC_ExpectedCodes c) (HC_Timeout c).
Definition with_endpoints (m : gmap string HealthCheckConfig) (c : AppHealthConfig) : AppHealthConfig :=
  mkHealth (AH_AppID c) (AH_AppName c) m (AH_Enabled c) (AH_UpdatedAt c) (AH_DeployTier c) (AH_HTTPMetrics c).
Definition with_updated (now : Z) (c : AppHealthConfig) : AppHealthConfig :=
  mkHealth (AH_AppID c) (AH_AppName c) (AH_Endpoints c) (AH_Enabled c) now (AH_DeployTier c) (AH_HTTPMetrics c).

(** [mint name]: the identifier [newEndpointID] gives the endpoint this time. *)
(* src: internal/health/config.go:192-203 assignEndpointIDs *)
Definition identified (mint : string → string) (prev : gmap string HealthCheckConfig) (name : string)
    (ep : HealthCheckConfig) : HealthCheckConfig :=
  if HC_ID ep <>s "" then ep
  else match prev !! name with
       | Some old => if HC_ID old <>s "" then with_ID (HC_ID old) ep else with_ID (mint name) ep
       | None => with_ID (mint name) ep
       end.

(* src: internal/health/config.go assignEndpointIDs *)
Definition assignEndpointIDs (mint : string → string) (prev : option AppHealthConfig) (next : AppHealthConfig)
  : AppHealthConfig :=
  with_endpoints (map_imap (λ name ep, Some (identified mint (match prev with Some p => AH_Endpoints p | None => ∅ end) name ep))
                    (AH_Endpoints next)) next.

(** The migrated configuration, and whether anything changed. *)
(* src: internal/health/config.go migrateEndpointIDs *)
Definition migrateEndpointIDs (mint : string → string) (c : AppHealthConfig) : AppHealthConfig * bool :=
  (assignEndpointIDs mint None c,
   bool_decide (map_Exists (λ _ ep, HC_ID ep = "") (AH_Endpoints c))).

(** How far the write of a migrated file in place gets. *)
Inductive in_place := Written | Torn | NotWritten.

(** The calls of one operation: an error of listing the directories (other than
    their absence), the files that cannot be read, the writes of a migration,
    the identifiers minted by directory, the faults of a save, the time, an
    error of the lock. *)
Record health_calls := mkCallsH {
  hx_list : option error;
  hx_unreadable : string → bool;
  hx_migration : string → in_place;
  hx_mint : string → string → string;
  hx_faults : faults;
  hx_now : Z;
  hx_lock : option error
}.

Section Manager.
Variable x : health_calls.

(** One directory: its configuration joins the ones that were loaded. *)
(* src: internal/health/config.go:325-356 ConfigManager.loadAllConfigsLocked *)
Definition load_dir (acc : gmap string AppHealthConfig * gmap string app_files) (dir : string)
  : gmap string AppHealthConfig * gmap string app_files :=
  let '(loaded, dirs) := acc in
  match dirs !! dir with
  | Some files =>
      match files !! health_json with
      | Some (Data c) =>
          if hx_unreadable x dir then acc
          else
            let key := if AH_AppID c =s "" then dir else AH_AppID c in
            let '(c, changed) := migrateEndpointIDs (hx_mint x dir) c in
            (<[key := c]> loaded,
             if changed then
               match hx_migration x dir with
               | Written => <[dir := <[health_json := Data c]> files]> dirs
               | Torn => <[dir := <[health_json := Garbage]> files]> dirs
               | NotWritten => dirs
               end
             else dirs)
      | _ => acc
      end
  | None => acc
  end.

(* src: internal/health/config.go ConfigManager.loadAllConfigsLocked *)
Definition Reload (cm : ConfigManager) : res unit * ConfigManager :=
  match hx_list x with
  | Some e => (Err (wrap CodeFilesystem "failed to list health config directory" e), cm)
  | None =>
      let '(loaded, dirs) := foldl load_dir (∅, CM_dirs cm) (sort_strings (map_to_list (CM_dirs cm)).*1) in
      (Ok tt, mkManager dirs loaded)
  end.

(* src: internal/health/config.go writeFileAtomic *)
Definition write_prog (tmp : string) (c : AppHealthConfig) : list (guarded AppHealthConfig) :=
  let failed s cl := must s CodeFilesystem "failed to write health config" cl in
  [ failed (SCreate tmp) [];
    failed (SWrite tmp c) [SClose; SRemove tmp];
    failed SSync [SClose; SRemove tmp];
    failed SClose [SRemove tmp];
    failed SChmod [SRemove tmp];
    failed (SRename tmp health_json) [SRemove tmp] ].

(** The directory of a configuration: its name, or the identity without one. *)
Definition folder_of (appID : string) (c : AppHealthConfig) : string := if AH_AppName c =s "" then appID else AH_AppName c.

(* src: internal/health/config.go ConfigManager.SaveConfig *)
Definition SaveConfig (appID : string) (config : AppHealthConfig) (cm : ConfigManager) : res unit * ConfigManager :=
  let config := with_updated (hx_now x) (assignEndpointIDs (hx_mint x (folder_of appID config)) (CM_configs cm !! appID) config) in
  let configs := <[appID := config]> (CM_configs cm) in
  let dir := folder_of appID config in
  match hx_faults x op_mkdir with
  | Some t => (Err (wrap CodeFilesystem "failed to create app config directory" (os_err (ErrIO t))),
               mkManager (CM_dirs cm) configs)
  | None =>
      let files := default ∅ (CM_dirs cm !! dir) in
      let '(r, files) := run_prog (hx_faults x) (write_prog (fresh_string ".health-" files) config) files in
      (r, mkManager (<[dir := files]> (CM_dirs cm)) configs)
  end.

(* src: internal/health/config.go:132-140 ConfigManager.Mutate *)
Definition new_health (appID appName : string) : AppHealthConfig := mkHealth appID appName ∅ true 0 None None.

(* src: internal/health/config.go ConfigManager.Mutate *)
Definition Mutate (appID appName : string) (fn : AppHealthConfig → res AppHealthConfig) (cm : ConfigManager)
  : res AppHealthConfig * ConfigManager :=
  match hx_lock x with
  | Some e => (Err e, cm)
  | None =>
      match Reload cm with
      | (Err e, cm) => (Err e, cm)
      | (Ok _, cm) =>
          match fn (default (new_health appID appName) (CM_configs cm !! appID)) with
          | Err e => (Err e, cm)
          | Ok config =>
              let '(r, cm) := SaveConfig appID config cm in
              (_ ← r; match CM_configs cm !! appID with Some c => Ok c | None => Ok config end, cm)
          end
      end
  end.
End Manager.

(* src: internal/health/config.go ConfigManager.ConfiguredAppIDs *)
Definition ConfiguredAppIDs (cm : ConfigManager) : list string := sort_strings (map_to_list (CM_configs cm)).*1.

(** The whole directory of the application goes with its configuration. *)
(* src: internal/health/config.go ConfigManager.DeleteConfig *)
Definition DeleteConfig (appID : string) (cm : ConfigManager) : ConfigManager :=
  let dir := match CM_configs cm !! appID with
             | Some c => if AH_AppName c =s "" then appID else AH_AppName c
             | None => appID
             end in
  mkManager (delete dir (CM_dirs cm)) (delete appID (CM_configs cm)).

(** ** Identities and round trips *)

Lemma identified_keeps mint prev name ep :
  let ep' := identified mint prev name ep in
  with_ID (HC_ID ep) ep' = ep ∧
  (HC_ID ep ≠ "" → ep' = ep) ∧
  (HC_ID ep = "" → ∀ old, prev !! name = Some old → HC_ID old ≠ "" → HC_ID ep' = HC_ID old) ∧
  (mint name ≠ "" → HC_ID ep' ≠ "").
Proof.
  unfold identified. destruct (HC_ID ep =s "") eqn:E; simpl; bool_prop.
  - destruct (prev !! name) as [old|] eqn:Ep; [destruct (HC_ID old =s "") eqn:Eo; simpl; bool_prop|]; split_and!;
      try done; try (by destruct ep; simpl in *; subst); try naive_solver.
  - split_and!; [by destruct ep|done..].
Qed.

Lemma assigned mint prev c name :
  AH_Endpoints (assignEndpointIDs mint prev c) !! name =
  identified mint (match prev with Some p => AH_Endpoints p | None => ∅ end) name <$> AH_Endpoints c !! name.
Proof. unfold assignEndpointIDs, with_endpoints. cbn [AH_Endpoints]. rewrite map_lookup_imap. by destruct (AH_Endpoints c !! name). Qed.

Definition all_identified (c : AppHealthConfig) : Prop := ∀ name ep, AH_Endpoints c !! name = Some ep → HC_ID ep ≠ "".

Lemma migrated_same mint c : all_identified c → migrateEndpointIDs mint c = (c, false).
Proof.
  intros Hall. unfold migrateEndpointIDs. f_equal.
  - unfold assignEndpointIDs, with_endpoints. destruct c as [a b m en u t hm]. cbn [AH_AppID AH_AppName AH_Endpoints AH_Enabled AH_UpdatedAt AH_DeployTier AH_HTTPMetrics].
    f_equal. apply map_eq. intros name. rewrite map_lookup_imap. destruct (m !! name) as [ep|] eqn:E; [|done]. simpl. f_equal.
    apply identified_keeps. by apply (Hall name).
  - apply bool_decide_eq_false_2. intros (name & ep & E & He). by apply (Hall name ep E).
Qed.

Lemma write_outcomes fl tmp c f :
  tmp ≠ health_json →
  match run_prog fl (write_prog tmp c) f with
  | (Ok _, f') => f' !! health_json = Some (Data c)
  | (Err _, f') => f' !! health_json = f !! health_json
  end.
Proof.
  intros Hne. unfold run_prog, write_prog. cbv zeta. simpl. unfold do_ignored. run_syscalls fl f tmp;
    simplify_map_eq; simpl; rewrite ?insert_insert_eq, ?delete_insert_eq, ?delete_id by done; by simplify_map_eq.
Qed.

Lemma health_tmp_ne {A} (f : gmap string A) : fresh_string ".health-" f ≠ health_json.
Proof. by destruct (fresh_string_prefix f ".health-") as [t ->]. Qed.

Lemma saved x appID config cm c cm' :
  (∀ dir name, hx_mint x dir name ≠ "") → SaveConfig x appID config cm = (Ok tt, cm') → CM_configs cm' !! appID = Some c →
  all_identified c ∧ folder_of appID c = folder_of appID config ∧ AH_AppID c = AH_AppID config ∧
  CM_dirs cm' !! folder_of appID config ≫= (.!! health_json) = Some (Data c) ∧
  (∀ dir, dir ≠ folder_of appID config → CM_dirs cm' !! dir = CM_dirs cm !! dir) ∧
  (∀ name, AH_Endpoints c !! name = identified (hx_mint x (folder_of appID config))
     (match CM_configs cm !! appID with Some p => AH_Endpoints p | None => ∅ end) name <$> AH_Endpoints config !! name).
Proof.
  intros Hm. unfold SaveConfig. set (c' := with_updated _ _). change (folder_of appID c') with (folder_of appID config).
  destruct (hx_faults x op_mkdir); [done|]. set (files := default ∅ _).
  pose proof (write_outcomes (hx_faults x) (fresh_string ".health-" files) c' files (health_tmp_ne files)) as Hw.
  destruct (run_prog _ _ _) as [[[]|e] files']; [|done]. intros [= <-]. simpl. rewrite lookup_insert_eq. intros [= <-].
  split_and!; [|done|done| | |].
  - intros name ep. subst c'. cbn [AH_Endpoints with_updated]. rewrite assigned. destruct (AH_Endpoints config !! name); [|done].
    simpl. intros [= <-]. by apply identified_keeps.
  - by rewrite lookup_insert_eq.
  - intros dir Hd. by rewrite lookup_insert_ne.
  - intros name. subst c'. cbn [AH_Endpoints with_updated]. by rewrite assigned.
Qed.

Lemma load_dirs_spec x appID c dir l : ∀ loaded dirs,
  NoDup l → all_identified c → AH_AppID c = appID → appID ≠ "" → hx_unreadable x dir = false →
  dirs !! dir ≫= (.!! health_json) = Some (Data c) →
  (∀ d c', d ∈ l → d ≠ dir → dirs !! d ≫= (.!! health_json) = Some (Data c') → (if AH_AppID c' =s "" then d else AH_AppID c') ≠ appID) →
  (dir ∈ l ∨ loaded !! appID = Some c) →
  (foldl (load_dir x) (loaded, dirs) l).1 !! appID = Some c.
Proof.
  induction l as [|d l IH]; intros loaded dirs Hnd Hall Hid Hne Hr Hf Hother Hin.
  { destruct Hin as [?%not_elem_of_nil|?]; done. }
  apply NoDup_cons in Hnd as [Hd Hnd]. cbn [foldl]. destruct (load_dir x (loaded, dirs) d) as [loaded1 dirs1] eqn:E.
  destruct (decide (d = dir)) as [-> |Hdir].
  - destruct (dirs !! dir) as [files|] eqn:Ed; simpl in Hf; [|done]. unfold load_dir in E.
    rewrite Ed, Hf, Hr, migrated_same, Hid, (proj2 (String.eqb_neq _ _) Hne) in E by done. injection E as <- <-.
    apply IH; try done; [by rewrite Ed| |right; by rewrite lookup_insert_eq].
    intros d c' Hin' ? Hc'. apply (Hother d c'); [by right|done|done].
  - assert (dirs1 !! dir = dirs !! dir ∧ (loaded !! appID = Some c → loaded1 !! appID = Some c) ∧
      (∀ d', d' ≠ d → dirs1 !! d' = dirs !! d')) as (H1 & H2 & H3).
    { revert E. unfold load_dir. destruct (dirs !! d) as [files|] eqn:Ed; [|by intros [= <- <-]].
      destruct (files !! health_json) as [[|c']|] eqn:Ef; [by intros [= <- <-]| |by intros [= <- <-]].
      destruct (hx_unreadable x d); [by intros [= <- <-]|]. destruct (migrateEndpointIDs (hx_mint x d) c') as [c2 ch]. intros [= <- <-].
      assert (∀ d' (f : app_files), d' ≠ d → <[d := f]> dirs !! d' = dirs !! d') as Hi by (intros; by rewrite lookup_insert_ne).
      split_and!.
      - destruct ch; [|done]. destruct (hx_migration x d); [by apply Hi..|done].
      - intros Hl. rewrite lookup_insert_ne; [done|]. apply (Hother d c'); [by left|done|]. rewrite Ed. exact Ef.
      - intros d' Hd'. destruct ch; [|done]. destruct (hx_migration x d); [by apply Hi..|done]. }
    apply IH; try done.
    + by rewrite H1.
    + intros d' c' Hin' Hne' Hc'. apply (Hother d' c'); [by right|done|]. rewrite <- (H3 d'); [done|]. by intros ->.
    + destruct Hin as [[<-|Hin]%elem_of_cons|Hl]; [done|by left|right; by apply H2].
Qed.

(** C39: an edit of the health checks keeps identities and is read back.  When
    [Mutate] succeeds, every endpoint of the saved configuration has an
    identity: the one it came with, or else the one of its name in the
    configuration that was read before the edit, or else a new one, and nothing
    else of it changed; and any process that can read the files afterwards sees
    this configuration, when it was saved under the application's own
    identifier and no other directory claims it.  What the read before the edit
    could not decode counts as absent (examples); new identities are not empty. *)
Theorem an_edit_keeps_identities_and_is_read_back x y appID appName fn cm c cm' :
  (∀ dir name, hx_mint x dir name ≠ "") → Mutate x appID appName fn cm = (Ok c, cm') →
  AH_AppID c = appID → appID ≠ "" →
  hx_list y = None → hx_unreadable y (folder_of appID c) = false →
  (∀ dir c', dir ≠ folder_of appID c → CM_dirs cm' !! dir ≫= (.!! health_json) = Some (Data c') →
     (if AH_AppID c' =s "" then dir else AH_AppID c') ≠ appID) →
  let prev := CM_configs (Reload x cm).2 !! appID in
  (∃ edited, fn (default (new_health appID appName) prev) = Ok edited ∧
     ∀ name, AH_Endpoints c !! name = identified (hx_mint x (folder_of appID edited))
       (match prev with Some p => AH_Endpoints p | None => ∅ end) name <$> AH_Endpoints edited !! name) ∧
  all_identified c ∧
  (Reload y cm').1 = Ok tt ∧ CM_configs (Reload y cm').2 !! appID = Some c.
Proof.
  intros Hm Hmut Hid Hne Hlist Hread Hother. unfold Mutate in Hmut. destruct (hx_lock x); [done|].
  destruct (Reload x cm) as [[[]|e] cm1] eqn:Er; [|done]. cbn [snd].
  destruct (fn (default (new_health appID appName) (CM_configs cm1 !! appID))) as [edited|e] eqn:Ef; [|done].
  destruct (SaveConfig x appID edited cm1) as [[[]|e] cm2] eqn:Es; cbn in Hmut; [|done].
  assert (CM_configs cm2 !! appID = Some c) as Hc2.
  { revert Es. unfold SaveConfig. destruct (hx_faults x op_mkdir); [done|]. destruct (run_prog _ _ _) as [[[]|e] files']; [|done].
    intros [= <-]. revert Hmut. simpl. rewrite lookup_insert_eq. by intros [= <- <-]. }
  rewrite Hc2 in Hmut. injection Hmut as <-.
  destruct (saved x appID edited cm1 c cm2 Hm Es Hc2) as (Hall & Hfold & Happ & Hdisk & _ & Hids).
  split; [by exists edited|]. split; [done|]. unfold Reload. rewrite Hlist.
  pose proof (load_dirs_spec y appID c (folder_of appID c) (sort_strings (map_to_list (CM_dirs cm2)).*1) ∅ (CM_dirs cm2)) as Hl.
  destruct (foldl (load_dir y) _ _) as [loaded dirs]. split; [done|]. cbn [CM_configs fst snd] in *. apply Hl; try done.
  - rewrite sort_strings_Permutation. apply NoDup_fst_map_to_list.
  - by rewrite Hfold.
  - intros d c' _. apply Hother.
  - left. apply elem_of_sort_strings, list_elem_of_fmap. rewrite <- Hfold in Hdisk.
    destruct (CM_dirs cm2 !! folder_of appID c) as [files|] eqn:Ed; [|done]. exists (folder_of appID c, files). split; [done|].
    by apply elem_of_map_to_list.
Qed.

Module HealthConfigSamples.

Definition check (id url : string) : HealthCheckConfig := mkCheck id "default" url "10s" 3 "" "5s".
Definition calm_calls : health_calls :=
  mkCallsH None (λ _, false) (λ _, Written) (λ dir name, dir +:+ "/" +:+ name) FileStore.no_faults 7 None.
Definition unreadable : health_calls :=
  mkCallsH None (λ _, true) (λ _, Written) (λ dir name, dir +:+ "/" +:+ name) FileStore.no_faults 7 None.
Definition torn : health_calls :=
  mkCallsH None (λ _, false) (λ _, Torn) (λ dir name, dir +:+ "/" +:+ name) FileStore.no_faults 7 None.

(** The application [web] with one endpoint, of identity [e1]. *)
Definition web (m : gmap string HealthCheckConfig) : AppHealthConfig := mkHealth "id1" "web" m true 0 None None.
Definition disk (m : gmap string HealthCheckConfig) : ConfigManager := mkManager {[ "web" := {[ health_json := Data (web m) ]} ]} ∅.
Definition one : gmap string HealthCheckConfig := {[ "default" := check "e1" "localhost:80" ]}.

(** The endpoint is replaced, without an identity, and another one is added. *)
Definition edit (c : AppHealthConfig) : res AppHealthConfig :=
  Ok (with_endpoints (<["second" := check "" "localhost:82"]> (<["default" := check "" "localhost:81"]> (AH_Endpoints c))) c).
Definition edited_to : AppHealthConfig * ConfigManager :=
  match Mutate calm_calls "id1" "web" edit (disk one) with
  | (Ok c, cm) => (c, cm)
  | (Err _, cm) => (web ∅, cm)
  end.

Lemma only_directory cm dir c' :
  (map_to_list (CM_dirs cm)).*1 = ["web"] → CM_dirs cm !! dir ≫= (.!! health_json) = Some (Data c') → dir = "web".
Proof.
  intros Hm Hc. destruct (CM_dirs cm !! dir) as [files|] eqn:E; [|done].
  assert (dir ∈ (map_to_list (CM_dirs cm)).*1) as Hin.
  { apply list_elem_of_fmap. exists (dir, files). split; [done|]. by apply elem_of_map_to_list. }
  rewrite Hm in Hin. by apply list_elem_of_singleton in Hin.
Qed.

Lemma an_edit_keeps_identities_and_is_read_back_witness :
  (HC_ID <$> AH_Endpoints edited_to.1 !! "default", HC_ID <$> AH_Endpoints edited_to.1 !! "second") = (Some "e1", Some "web/second") ∧
  let prev := CM_configs (Reload calm_calls (disk one)).2 !! "id1" in
  (∃ edited, edit (default (new_health "id1" "web") prev) = Ok edited ∧
     ∀ name, AH_Endpoints edited_to.1 !! name = identified (hx_mint calm_calls (folder_of "id1" edited))
       (match prev with Some p => AH_Endpoints p | None => ∅ end) name <$> AH_Endpoints edited !! name) ∧
  all_identified edited_to.1 ∧
  (Reload calm_calls edited_to.2).1 = Ok tt ∧ CM_configs (Reload calm_calls edited_to.2).2 !! "id1" = Some edited_to.1.
Proof.
  split; [vm_compute; reflexivity|].
  apply (an_edit_keeps_identities_and_is_read_back calm_calls calm_calls "id1" "web" edit (disk one) edited_to.1 edited_to.2).
  - intros dir name He. by destruct dir.
  - vm_compute. reflexivity.
  - vm_compute. reflexivity.
  - discriminate.
  - reflexivity.
  - reflexivity.
  - intros dir c' Hd Hc'. exfalso.
    apply Hd, (only_directory edited_to.2 dir c'); [vm_compute; reflexivity|exact Hc'].
Defined.

(** A file that cannot be read is taken for one that is not there: an edit then
    replaces it, and its endpoints are gone. *)
Definition add_second (c : AppHealthConfig) : res AppHealthConfig :=
  Ok (with_endpoints (<["second" := check "" "localhost:82"]> (AH_Endpoints c)) c).

Example an_unreadable_configuration_is_replaced :
  let '(r, cm) := Mutate unreadable "id1" "web" add_second (disk one) in
  is_ok r = true ∧
  (λ c, AH_Endpoints c !! "default") <$> (CM_configs (Reload calm_calls cm).2 !! "id1") = Some None.
Proof. vm_compute. by split. Qed.

(** A migration writes in place: interrupted, it loses the configuration. *)
Example an_interrupted_migration_loses_the_configuration :
  let '(_, cm) := Reload torn (disk {[ "default" := check "" "localhost:80" ]}) in
  CM_configs (Reload calm_calls cm).2 !! "id1" = None.
Proof. vm_compute. reflexivity. Qed.
End HealthConfigSamples.
