(* ===== verification/HealthDaemon.v ===== *)
(** * HealthDaemon: the checks of running applications

    internal/health/checker.go, daemon.go and snapshot.go: one probe of an
    endpoint and what it makes of the answer, the set of running checkers that
    [Sync] reconciles with the configuration, the state of an endpoint with its
    automatic restarts, the worker that carries them out, and the snapshot that
    is reported. *)

From Stdlib Require Import DecimalString DecimalN.
From S2P Require Import Prelude GoLib GoText GoDuration HealthTiers Errors.

(** ** Expected status codes *)

Definition Contains (s sub : string) : bool := bool_decide (is_Some (String.index 0 sub s)).

(** [Atoi] with its error ignored: 0 for what is no number, the nearest [int]
    for one that does not fit. *)
Definition atoi_value (s : string) : Z :=
  let digits neg s :=
    match s with
    | EmptyString => 0
    | _ => match NilEmpty.uint_of_string s with
           | Some d => let z := (if neg : bool then -1 else 1) * Z.of_N (N.of_uint d) in
                       Z.max (- 2 ^ 63) (Z.min z (2 ^ 63 - 1))
           | None => 0
           end
    end in
  match s with
  | String "-" s' => digits true s'
  | String "+" s' => digits false s'
  | _ => digits false s
  end.

(* src: internal/health/checker.go:164-171 isStatusCodeHealthy *)
Definition listed_code (statusCode : Z) (expectedCodes : string) : bool :=
  existsb (λ code, atoi_value (TrimSpace code) =? statusCode) (split_on "," expectedCodes).

(* src: internal/health/checker.go isStatusCodeHealthy *)
Definition isStatusCodeHealthy (statusCode : Z) (expectedCodes : string) : bool :=
  let expectedCodes := if expectedCodes =s "" then "200-299" else expectedCodes in
  if Contains expectedCodes "-" then
    match split_on "-" expectedCodes with
    | [a; b] => ((atoi_value (TrimSpace a) <=? statusCode) && (statusCode <=? atoi_value (TrimSpace b)))%bool
    | _ => listed_code statusCode expectedCodes
    end
  else listed_code statusCode expectedCodes.

(** ** One probe *)

(* src: internal/health/types.go HealthCheckResult *)
Record HealthCheckResult := mkResult {
  HR_AppID : string; HR_AppName : string; HR_EndpointName : string; HR_URL : string; HR_Status : string;
  HR_StatusCode : option Z; HR_LatencyMs : option Z; HR_CheckedAt : Z; HR_Error : string
}.

(** What a probe meets: the time, the answer of an HTTP request or of a TCP
    connection under a timeout, the latency. *)
Record probe_view := mkProbeView {
  pv_now : Z; pv_http : string → Z → res Z; pv_tcp : string → Z → option error; pv_latency : Z
}.

(** The branch for a process id comes after one with the same test. *)
(* src: internal/health/checker.go Checker.performCheck *)
Definition performCheck (pv : probe_view) (url : string) (timeout : Z) : res Z :=
  let tcp addr := match pv_tcp pv addr timeout with Some e => Err e | None => Ok 200 end in
  if (HasPrefix url "http://" || HasPrefix url "https://")%bool then pv_http pv url timeout
  else if Contains url ":" then tcp url
  else if bool_decide (is_Some (Atoi url)) then tcp ("localhost:" +:+ url)
  else Err (Foreign ("invalid URL format: " +:+ url) None).

(* src: internal/health/checker.go:40-46 Checker.Check *)
Definition check_timeout (c : HealthCheckConfig) : Z := default (10 * Second) (ParseDuration (HC_Timeout c)).

(* src: internal/health/checker.go Checker.Check *)
Definition Checker_Check (pv : probe_view) (c : HealthCheckConfig) : HealthCheckResult :=
  let result status code latency err :=
    mkResult "" "" (HC_Name c) (HC_URL c) status code latency (pv_now pv) err in
  match performCheck pv (HC_URL c) (check_timeout c) with
  | Err e =>
      if Contains (Error e) "context deadline exceeded" then result "TIMEOUT" None None (Error e)
      else result "DOWN" None (Some (pv_latency pv)) (Error e)
  | Ok code =>
      if isStatusCodeHealthy code (HC_ExpectedCodes c) then result "UP" (Some code) (Some (pv_latency pv)) ""
      else result "DOWN" (Some code) (Some (pv_latency pv)) ("unexpected status code: " +:+ Itoa code)
  end.

(** ** The state of an endpoint *)

(* src: internal/health/types.go EndpointState *)
Record EndpointState := mkEndpoint {
  ES_LastResult : option HealthCheckResult;
  ES_ConsecutiveFailures : Z;
  ES_LastFailTime : option Z;
  ES_LastSuccessTime : option Z;
  ES_BackoffLevel : Z;
  ES_NextRestartTime : option Z;
  ES_CrashHistory : list Z
}.
Definition new_endpoint : EndpointState := mkEndpoint None 0 None None 0 None [].

(* src: internal/health/types.go AutoRestartRecord *)
Record AutoRestartRecord := mkRestart {
  AR_AppID : string; AR_AppName : string; AR_EndpointID : string; AR_EndpointName : string; AR_Reason : string;
  AR_ExitCode : Z; AR_BackoffNextSeconds : Z; AR_RestartedAt : Z; AR_CrashCount24h : Z
}.

Definition day : Z := 24 * Hour.
Definition max_crashes : Z := 10.

(** [t.After(u)], the zero time being [None]. *)
Definition after_opt (t : Z) (u : option Z) : bool := match u with Some u => u <? t | None => true end.
Definition after (t u : option Z) : bool := match t with Some t => after_opt t u | None => false end.

(* src: internal/health/daemon.go Daemon.calculateBackoff *)
Definition calculateBackoff (level : Z) : Z :=
  let backoffs := [5; 15; 60; 300] in
  if len backoffs <=? level then List.last backoffs 0 else nth (Z.to_nat level) backoffs 0.

(* src: internal/health/snapshot.go crashesWithin24h *)
Definition within_day (now : Z) (history : list Z) : list Z := filter (λ t, now - t < day) history.
Definition crashesWithin24h (now : Z) (history : list Z) : Z := len (within_day now history).

(** The clock is read once for one result. *)
Section Update.
Variables (appID appName endpointName : string) (config : HealthCheckConfig) (now : Z).

(* src: internal/health/daemon.go Daemon.triggerAutoRestart *)
Definition triggerAutoRestart (s : EndpointState) : EndpointState * AutoRestartRecord :=
  let backoffSeconds := calculateBackoff (ES_BackoffLevel s) in
  let crashes := within_day now (ES_CrashHistory s) in
  let record exit := mkRestart appID appName (HC_ID config) endpointName
    (Itoa (ES_ConsecutiveFailures s) +:+ " consecutive health check failures on " +:+ endpointName)
    exit backoffSeconds now (len crashes) in
  if max_crashes <? len crashes then
    (mkEndpoint (ES_LastResult s) (ES_ConsecutiveFailures s) (ES_LastFailTime s) (ES_LastSuccessTime s)
       (ES_BackoffLevel s) (ES_NextRestartTime s) crashes, record 1)
  else
    (mkEndpoint (ES_LastResult s) (ES_ConsecutiveFailures s) (ES_LastFailTime s) (ES_LastSuccessTime s)
       (ES_BackoffLevel s + 1) (Some (now + backoffSeconds * Second)) (crashes ++ [now]), record 0).

(* src: internal/health/daemon.go:353-368 Daemon.updateEndpointState *)
Definition observe_result (result : HealthCheckResult) (s : EndpointState) : EndpointState * option AutoRestartRecord :=
  if HR_Status result =s "UP" then
    (mkEndpoint (Some result) 0 (ES_LastFailTime s) (Some now) 0 (ES_NextRestartTime s) (ES_CrashHistory s), None)
  else
    let failures := ES_ConsecutiveFailures s + 1 in
    let s := mkEndpoint (Some result) failures (Some now) (ES_LastSuccessTime s) (ES_BackoffLevel s)
               (ES_NextRestartTime s) (ES_CrashHistory s) in
    if ((HC_Retries config <=? failures) &&
        ((ES_BackoffLevel s =? 0) || after_opt now (ES_NextRestartTime s)))%bool
    then let '(s, r) := triggerAutoRestart s in (s, Some r)
    else (s, None).
End Update.

(* src: internal/health/daemon.go:559-565 Daemon.performMaintenance *)
Definition maintained (now : Z) (s : EndpointState) : EndpointState :=
  if (after (ES_LastSuccessTime s) (ES_LastFailTime s) &&
      match ES_LastSuccessTime s with Some t => 5 * Minute <? now - t | None => true end && (0 <? ES_BackoffLevel s))%bool
  then mkEndpoint (ES_LastResult s) (ES_ConsecutiveFailures s) (ES_LastFailTime s) (ES_LastSuccessTime s)
         0 None (ES_CrashHistory s)
  else s.

(** ** The daemon *)

(** A checker: its configuration, and the identity of its goroutine. *)
(* src: internal/health/daemon.go checkHandle *)
Record checkHandle := mkHandle { CH_cfg : HealthCheckConfig; CH_id : nat }.

(* src: internal/health/daemon.go checkerKey *)
Definition checkerKey (appID endpointName : string) : string :=
  appID +:+ String "000" endpointName.

(** [dm_closed]: the checkers told to stop; [dm_next]: the next identity;
    [dm_histories]: the stored results of an endpoint. *)
(* src: internal/health/daemon.go Daemon *)
Record Daemon := mkDaemon {
  dm_states : gmap string (gmap string EndpointState);
  dm_running : gmap string checkHandle;
  dm_closed : list nat;
  dm_next : nat;
  dm_histories : gmap string (list HealthCheckResult)
}.

Definition dm_set_states (m : gmap string (gmap string EndpointState)) (d : Daemon) : Daemon :=
  mkDaemon m (dm_running d) (dm_closed d) (dm_next d) (dm_histories d).
Definition dm_set_histories (m : gmap string (list HealthCheckResult)) (d : Daemon) : Daemon :=
  mkDaemon (dm_states d) (dm_running d) (dm_closed d) (dm_next d) m.

(** A checker the configuration asks for. *)
Record wanted := mkWanted { wd_appID : string; wd_appName : string; wd_endpoint : string; wd_cfg : HealthCheckConfig }.
Definition wd_key (w : wanted) : string := checkerKey (wd_appID w) (wd_endpoint w).

(** [apps]: the registered applications, identity and name. *)
(* src: internal/health/daemon.go:175-192 Daemon.Sync *)
Definition desired (apps : list (string * string)) (configs : gmap string AppHealthConfig) : list wanted :=
  apps ≫= λ a,
    match configs !! a.1 with
    | Some c =>
        if AH_Enabled c then
          omap (λ name, mkWanted a.1 a.2 name <$> AH_Endpoints c !! name) (sortedEndpointNames (AH_Endpoints c))
        else []
    | None => []
    end.

(** One wanted checker: kept, replaced or started. *)
(* src: internal/health/daemon.go:202-214 Daemon.Sync *)
Definition sync_one (acc : Daemon * list (wanted * checkHandle)) (w : wanted) : Daemon * list (wanted * checkHandle) :=
  let '(d, starting) := acc in
  let old := dm_running d !! wd_key w in
  if match old with Some h => bool_decide (CH_cfg h = wd_cfg w) | None => false end then acc
  else
    let h := mkHandle (wd_cfg w) (dm_next d) in
    (mkDaemon (dm_states d) (<[wd_key w := h]> (dm_running d))
       (match old with Some o => dm_closed d ++ [CH_id o] | None => dm_closed d end) (S (dm_next d)) (dm_histories d),
     starting ++ [(w, h)]).

Definition kept_keys (l : list wanted) : list string := wd_key <$> l.

(* src: internal/health/daemon.go:215-221 Daemon.Sync *)
Definition sync_drop (keep : list string) (d : Daemon) : Daemon :=
  let gone := filter (λ kh, kh.1 ∉ keep) (dm_running d) in
  mkDaemon (dm_states d) (filter (λ kh, kh.1 ∈ keep) (dm_running d))
    (dm_closed d ++ ((λ kh, CH_id kh.2) <$> map_to_list gone)) (dm_next d) (dm_histories d).

(* src: internal/health/daemon.go:222-234 Daemon.Sync *)
Definition sync_states (keep : list string) (d : Daemon) : Daemon :=
  dm_set_states
    (filter (λ ks, ks.2 ≠ ∅) (map_imap (λ appID states,
       Some (filter (λ ns, checkerKey appID ns.1 ∈ keep) states)) (dm_states d))) d.

(** The daemon after a reconciliation, and the checkers it starts. *)
(* src: internal/health/daemon.go Daemon.Sync *)
Definition Sync (apps : list (string * string)) (configs : gmap string AppHealthConfig) (d : Daemon)
  : Daemon * list (wanted * checkHandle) :=
  let l := desired apps configs in
  let '(d, starting) := foldl sync_one (d, []) l in
  (sync_states (kept_keys l) (sync_drop (kept_keys l) d), starting).

(** [from]: the checker that produced the result, if it was one. *)
(* src: internal/health/daemon.go Daemon.updateEndpointState *)
Definition updateEndpointState (appID appName endpointName : string) (config : HealthCheckConfig)
    (result : HealthCheckResult) (from : option nat) (now : Z) (d : Daemon) : Daemon * option AutoRestartRecord :=
  if match from with
     | Some id => negb (bool_decide (CH_id <$> dm_running d !! checkerKey appID endpointName = Some id))
     | None => false
     end then (d, None)
  else
    let states := default ∅ (dm_states d !! appID) in
    let s := default new_endpoint (states !! endpointName) in
    let '(s, rec) := observe_result appID appName endpointName config now result s in
    let d := dm_set_states (<[appID := <[endpointName := s]> states]> (dm_states d)) d in
    let key := checkerKey appID endpointName in
    let history := default [] (dm_histories d !! key) ++ [result] in
    (dm_set_histories (<[key := if 100 <? len history then tail history else history]> (dm_histories d)) d, rec).

(* src: internal/health/daemon.go Daemon.performMaintenance *)
Definition performMaintenance (now : Z) (d : Daemon) : Daemon :=
  dm_set_states (fmap (M := gmap string) (fmap (M := gmap string) (maintained now)) (dm_states d)) d.

(* src: internal/health/daemon.go Daemon.GetStatus *)
Definition GetStatus (appID : string) (d : Daemon) : gmap string HealthCheckResult :=
  omap ES_LastResult (default ∅ (dm_states d !! appID)).

(* src: internal/health/daemon.go Daemon.GetAllStatus *)
Definition GetAllStatus (d : Daemon) : gmap string (gmap string HealthCheckResult) :=
  fmap (M := gmap string) (omap ES_LastResult) (dm_states d).

(** ** Automatic restarts *)

(** [deployed]: whether a zero-downtime deployment manages the application;
    [restarter]: its restart, when the command layer provides one. *)
(* src: internal/health/daemon.go restartForAutoRestart *)
Definition restartForAutoRestart (deployed : string → bool) (restarter : option (string → option error))
    (restart : string → option error) (appID : string) : option error :=
  if negb (deployed appID) then restart appID
  else match restarter with
       | None => Some (New CodeProcessFailed ("app " +:+ appID +:+
                   " is managed by a zero-downtime deployment and no deploy-aware restart is available"))
       | Some f => f appID
       end.

Definition with_exit (code : Z) (r : AutoRestartRecord) : AutoRestartRecord :=
  mkRestart (AR_AppID r) (AR_AppName r) (AR_EndpointID r) (AR_EndpointName r) (AR_Reason r) code
    (AR_BackoffNextSeconds r) (AR_RestartedAt r) (AR_CrashCount24h r).

(** The record after the restart: [failed], the error of the attempt. *)
(* src: internal/health/daemon.go:482-491 Daemon.startAutoRestarter *)
Definition carried_out (failed : string → option error) (r : AutoRestartRecord) : AutoRestartRecord :=
  if AR_CrashCount24h r <=? max_crashes
  then match failed (AR_AppID r) with Some _ => with_exit 1 r | None => with_exit 0 r end
  else r.

(** The last hundred records. *)
(* src: internal/health/config.go:449-453 ConfigManager.SaveAutoRestartRecord *)
Definition restarts_kept (records : list AutoRestartRecord) (r : AutoRestartRecord) : list AutoRestartRecord :=
  let records := records ++ [r] in
  if 100 <? len records then drop (length records - 100) records else records.

(** ** The snapshot *)

(* src: internal/health/snapshot.go:28-38 StatusUnknown *)
Definition StatusUnknown := "UNKNOWN".
Definition StatusUp := "UP".
Definition StatusDown := "DOWN".
Definition StatusDegraded := "DEGRADED".

(* src: internal/health/snapshot.go rollupStatus *)
Definition rollupStatus (checked up : Z) : string :=
  if checked =? 0 then StatusUnknown
  else if up =? checked then StatusUp
  else if up =? 0 then StatusDown
  else StatusDegraded.

(* src: internal/health/snapshot.go EndpointHealthSnapshot *)
Record EndpointHealthSnapshot := mkEndpointSnapshot {
  EH_Config : HealthCheckConfig; EH_Result : option HealthCheckResult; EH_ConsecutiveFailures : Z;
  EH_LastSuccess : option Z; EH_LastFailure : option Z; EH_BackoffLevel : Z; EH_NextRestart : option Z; EH_CrashCount24h : Z
}.

(* src: internal/health/snapshot.go AppHealthSnapshot *)
Record AppHealthSnapshot := mkAppSnapshot {
  AS_AppID : string; AS_AppName : string; AS_Enabled : bool; AS_Status : string; AS_UpdatedAt : Z;
  AS_DeployTier : option DeployTierConfig; AS_EndpointsTotal : Z; AS_EndpointsUp : Z;
  AS_Endpoints : list EndpointHealthSnapshot
}.

(* src: internal/health/snapshot.go:109-124 Daemon.SnapshotForApp *)
Definition endpoint_snapshot (now : Z) (states : gmap string EndpointState) (name : string) (cfg : HealthCheckConfig)
  : EndpointHealthSnapshot :=
  match states !! name with
  | None => mkEndpointSnapshot cfg None 0 None None 0 None 0
  | Some s => mkEndpointSnapshot cfg (ES_LastResult s) (ES_ConsecutiveFailures s) (ES_LastSuccessTime s) (ES_LastFailTime s)
                (ES_BackoffLevel s) (ES_NextRestartTime s) (crashesWithin24h now (ES_CrashHistory s))
  end.

Definition endpoint_up (e : EndpointHealthSnapshot) : bool :=
  match EH_Result e with Some r => HR_Status r =s StatusUp | None => false end.

(* src: internal/health/snapshot.go Daemon.SnapshotForApp *)
Definition SnapshotForApp (parse_url : string → option (string * string)) (now : Z)
    (configs : gmap string AppHealthConfig) (appID appName : string) (d : Daemon) : option AppHealthSnapshot :=
  match configs !! appID with
  | None => None
  | Some c =>
      let states := default ∅ (dm_states d !! appID) in
      let endpoints := omap (λ name, endpoint_snapshot now states name <$> AH_Endpoints c !! name)
                            (sortedEndpointNames (AH_Endpoints c)) in
      let checked := len (filter (λ e, is_Some (EH_Result e)) endpoints) in
      let up := len (filter (λ e, endpoint_up e = true) endpoints) in
      Some (mkAppSnapshot appID (if appName =s "" then AH_AppName c else appName) (AH_Enabled c)
              (rollupStatus checked up) now (EffectiveDeployTier parse_url (Some c)) (len endpoints) up endpoints)
  end.

(** ** The queue of restarts and the lock

    A result is recorded under the lock of the daemon, and its record is sent on
    the channel of restarts, which holds fifty, before the lock is released.  The
    worker takes a record, restarts the application, and takes the lock to read
    the reporter before it takes the next one. *)

Definition restart_slots : nat := 50.

(** [hs_waiting]: the record of the goroutine that holds the lock while it waits
    for a slot; [hs_busy]: the record the worker carries out. *)
Record hstate := mkHState {
  hs_daemon : Daemon;
  hs_queue : list AutoRestartRecord;
  hs_waiting : option AutoRestartRecord;
  hs_busy : option AutoRestartRecord;
  hs_done : list AutoRestartRecord
}.

(** A send: into a free slot, or the sender waits with the lock held. *)
Definition send (r : AutoRestartRecord) (d : Daemon) (h : hstate) : hstate :=
  if Nat.ltb (length (hs_queue h)) restart_slots
  then mkHState d (hs_queue h ++ [r]) None (hs_busy h) (hs_done h)
  else mkHState d (hs_queue h) (Some r) (hs_busy h) (hs_done h).

(** What takes the lock runs only while no sender holds it. *)
(* src: internal/health/daemon.go:474-512 Daemon.startAutoRestarter *)
Inductive hstep : hstate → hstate → Prop :=
| step_result h appID appName name config result from now d :
    hs_waiting h = None →
    updateEndpointState appID appName name config result from now (hs_daemon h) = (d, None) →
    hstep h (mkHState d (hs_queue h) None (hs_busy h) (hs_done h))
| step_restart h appID appName name config result from now d r :
    hs_waiting h = None →
    updateEndpointState appID appName name config result from now (hs_daemon h) = (d, Some r) →
    hstep h (send r d h)
| step_sync h apps configs d starting :
    hs_waiting h = None → Sync apps configs (hs_daemon h) = (d, starting) →
    hstep h (mkHState d (hs_queue h) None (hs_busy h) (hs_done h))
| step_maintenance h now :
    hs_waiting h = None →
    hstep h (mkHState (performMaintenance now (hs_daemon h)) (hs_queue h) None (hs_busy h) (hs_done h))
| step_take h r queue :
    hs_busy h = None → hs_queue h = r :: queue →
    hstep h (mkHState (hs_daemon h) (match hs_waiting h with Some w => queue ++ [w] | None => queue end) None (Some r) (hs_done h))
| step_report h r failed :
    hs_busy h = Some r → hs_waiting h = None →
    hstep h (mkHState (hs_daemon h) (hs_queue h) None None (hs_done h ++ [carried_out failed r])).
