(* ===== verification/HealthSafety.v ===== *)
(** * HealthSafety: what the health daemon guarantees

    The checkers that run are the ones the configuration asks for, each stopped
    at most once; a checker that was stopped changes nothing any more; automatic
    restarts are spaced and limited; what is reported is what was seen. *)

From S2P Require Import Prelude GoLib GoText GoDuration HealthTiers HealthDaemon Errors.

(** ** The set of checkers *)

(** Every identity handed out belongs to the checker that runs under its key or
    was told to stop, once. *)
Record daemon_ok (d : Daemon) : Prop := {
  ok_live k h : dm_running d !! k = Some h → (CH_id h < dm_next d)%nat ∧ CH_id h ∉ dm_closed d;
  ok_distinct k1 k2 h1 h2 : dm_running d !! k1 = Some h1 → dm_running d !! k2 = Some h2 → CH_id h1 = CH_id h2 → k1 = k2;
  ok_closed : NoDup (dm_closed d);
  ok_closed_old id : id ∈ dm_closed d → (id < dm_next d)%nat;
  ok_all id : (id < dm_next d)%nat → id ∈ dm_closed d ∨ ∃ k h, dm_running d !! k = Some h ∧ CH_id h = id
}.

Lemma sync_one_ok d st w : daemon_ok d → daemon_ok (sync_one (d, st) w).1.
Proof.
  intros [Hl Hd Hc Ho Ha]. unfold sync_one. destruct (dm_running d !! wd_key w) as [o|] eqn:Eo.
  - destruct (bool_decide _); [by split|]. split; simpl.
    + intros k h [[<- <-]|[Hne Hk]]%lookup_insert_Some.
      * split; [simpl; lia|]. rewrite elem_of_app, list_elem_of_singleton. intros [H%Ho|H]; simpl in *; [lia|].
        apply Hl in Eo as [? _]. lia.
      * destruct (Hl k h Hk) as [? Hn]. split; [lia|]. rewrite elem_of_app, list_elem_of_singleton. intros [?|He]; [done|].
        apply Hne. symmetry. by eapply Hd.
    + intros k1 k2 h1 h2 [[<- <-]|[Hn1 H1]]%lookup_insert_Some [[<- <-]|[Hn2 H2]]%lookup_insert_Some He; try done.
      * apply Hl in H2 as [? _]. simpl in He. lia.
      * apply Hl in H1 as [? _]. simpl in He. lia.
      * by eapply Hd.
    + apply NoDup_app. split; [done|]. split; [|apply NoDup_singleton]. intros id Hid Hs%list_elem_of_singleton.
      apply Hl in Eo as [_ Hn]. by subst id.
    + intros id [H|H%list_elem_of_singleton]%elem_of_app; [apply Ho in H; lia|]. apply Hl in Eo as [? _]. lia.
    + intros id Hid. destruct (decide (id = dm_next d)) as [-> |Hne].
      { right. exists (wd_key w), (mkHandle (wd_cfg w) (dm_next d)). by rewrite lookup_insert_eq. }
      destruct (Ha id ltac:(lia)) as [?|(k & h & Hk & Hh)]; [left; apply elem_of_app; by left|].
      destruct (decide (k = wd_key w)) as [-> |Hk']; [|right; exists k, h; by rewrite lookup_insert_ne].
      left. apply elem_of_app. right. apply list_elem_of_singleton. congruence.
  - split; simpl.
    + intros k h [[<- <-]|[Hne Hk]]%lookup_insert_Some; simpl.
      * split; [lia|]. intros H%Ho. lia.
      * destruct (Hl k h Hk) as [? Hn]. split; [lia|done].
    + intros k1 k2 h1 h2 [[<- <-]|[Hn1 H1]]%lookup_insert_Some [[<- <-]|[Hn2 H2]]%lookup_insert_Some He; try done.
      * apply Hl in H2 as [? _]. simpl in He. lia.
      * apply Hl in H1 as [? _]. simpl in He. lia.
      * by eapply Hd.
    + done.
    + intros id H%Ho. lia.
    + intros id Hid. destruct (decide (id = dm_next d)) as [-> |Hne].
      { right. exists (wd_key w), (mkHandle (wd_cfg w) (dm_next d)). by rewrite lookup_insert_eq. }
      destruct (Ha id ltac:(lia)) as [?|(k & h & Hk & Hh)]; [by left|]. right. exists k, h. rewrite lookup_insert_ne; [done|].
      intros <-. congruence.
Qed.

Lemma sync_all_ok l : ∀ d st, daemon_ok d → daemon_ok (foldl sync_one (d, st) l).1.
Proof.
  induction l as [|w l IH]; intros d st Hd; [done|]. cbn [foldl]. pose proof (sync_one_ok d st w Hd) as Hok.
  destruct (sync_one (d, st) w) as [d1 st1]. by apply IH.
Qed.

Lemma gone_spec (keep : list string) (m : gmap string checkHandle) (id : nat) :
  (id ∈ ((λ kh, CH_id kh.2) <$> map_to_list (filter (λ kh, kh.1 ∉ keep) m))) ↔
  (∃ k h, m !! k = Some h ∧ k ∉ keep ∧ CH_id h = id).
Proof.
  rewrite list_elem_of_fmap. split.
  - intros ([k h] & -> & Hin%elem_of_map_to_list). apply map_lookup_filter_Some in Hin as [? ?]. by exists k, h.
  - intros (k & h & Hk & Hn & <-). exists (k, h). split; [done|]. apply elem_of_map_to_list, map_lookup_filter_Some. done.
Qed.

Lemma sync_drop_ok keep d : daemon_ok d → daemon_ok (sync_drop keep d).
Proof.
  intros [Hl Hd Hc Ho Ha]. unfold sync_drop. split; simpl.
  - intros k h [Hk Hin]%map_lookup_filter_Some. destruct (Hl k h Hk) as [? Hn]. split; [done|].
    rewrite elem_of_app, gone_spec. intros [?|(k' & h' & Hk' & Hn' & He)]; [done|]. apply Hn'.
    by rewrite (Hd k' k h' h Hk' Hk He).
  - intros k1 k2 h1 h2 [H1 _]%map_lookup_filter_Some [H2 _]%map_lookup_filter_Some. by eapply Hd.
  - apply NoDup_app. split; [done|]. split.
    + intros id Hid (k & h & Hk & _ & <-)%gone_spec. by apply Hl in Hk as [_ ?].
    + apply (NoDup_fmap_2_strong _).
      * intros [k1 h1] [k2 h2] [H1 _]%elem_of_map_to_list%map_lookup_filter_Some [H2 _]%elem_of_map_to_list%map_lookup_filter_Some He.
        assert (k1 = k2) as -> by by eapply Hd. congruence.
      * apply NoDup_map_to_list.
  - intros id [?%Ho|(k & h & Hk & _ & <-)%gone_spec]%elem_of_app; [done|]. by apply Hl in Hk as [? _].
  - intros id [?|(k & h & Hk & <-)]%Ha; [left; apply elem_of_app; by left|].
    destruct (decide (k ∈ keep)) as [Hin|Hn].
    + right. exists k, h. split; [|done]. by apply map_lookup_filter_Some.
    + left. apply elem_of_app. right. apply gone_spec. eauto.
Qed.

(** The checkers after the wanted ones were kept, replaced or started. *)
Lemma sync_all_spec l : ∀ d st d' st', NoDup (wd_key <$> l) → foldl sync_one (d, st) l = (d', st') →
  dm_states d' = dm_states d ∧
  (∀ k, k ∉ wd_key <$> l → dm_running d' !! k = dm_running d !! k) ∧
  (∀ w, w ∈ l → ∃ h, dm_running d' !! wd_key w = Some h ∧ CH_cfg h = wd_cfg w ∧
     (dm_running d !! wd_key w = Some h ∨ (w, h) ∈ st')) ∧
  (∀ wh, wh ∈ st' → wh ∈ st ∨ wh.1 ∈ l ∧ dm_running d' !! wd_key wh.1 = Some wh.2) ∧
  ((∀ w, w ∈ l → CH_cfg <$> dm_running d !! wd_key w = Some (wd_cfg w)) → d' = d ∧ st' = st) ∧
  (∀ wh, wh ∈ st → wh ∈ st').
Proof.
  induction l as [|w l IH]; intros d st d' st' Hnd.
  { intros [= <- <-]. split_and!; [done|done|by intros ? ?%not_elem_of_nil|by left|done|done]. }
  apply NoDup_cons in Hnd as [Hw Hnd]. cbn [foldl fmap list_fmap].
  destruct (sync_one (d, st) w) as [d1 st1] eqn:E1. intros E.
  destruct (IH d1 st1 d' st' Hnd E) as (H1 & H2 & H3 & H4 & H5 & H6).
  assert (dm_states d1 = dm_states d ∧ (∀ k, k ≠ wd_key w → dm_running d1 !! k = dm_running d !! k) ∧
    (∃ h, dm_running d1 !! wd_key w = Some h ∧ CH_cfg h = wd_cfg w ∧ (dm_running d !! wd_key w = Some h ∨ (w, h) ∈ st1)) ∧
    (∀ wh, wh ∈ st1 → wh ∈ st ∨ wh.1 = w ∧ dm_running d1 !! wd_key w = Some wh.2) ∧
    (CH_cfg <$> dm_running d !! wd_key w = Some (wd_cfg w) → d1 = d ∧ st1 = st) ∧ (∀ wh, wh ∈ st → wh ∈ st1))
    as (G1 & G2 & (h & Gh & Gc & Go) & G4 & G5 & G6).
  { revert E1. unfold sync_one. destruct (dm_running d !! wd_key w) as [o|] eqn:Eo.
    - destruct (bool_decide (CH_cfg o = wd_cfg w)) eqn:Eb.
      + apply bool_decide_eq_true in Eb. intros [= <- <-]. split_and!; [done|done| |by left|done|done].
        exists o. split_and!; [done|done|by left].
      + apply bool_decide_eq_false in Eb. intros [= <- <-]. simpl. rewrite lookup_insert_eq. split_and!; [done| | | | |].
        * intros k Hk. by rewrite lookup_insert_ne.
        * eexists. split_and!; [done|done|]. right. apply elem_of_app. right. by apply list_elem_of_singleton.
        * intros wh [?| ->%list_elem_of_singleton]%elem_of_app; [by left|by right].
        * intros [= ?]. done.
        * intros wh ?. apply elem_of_app. by left.
    - intros [= <- <-]. simpl. rewrite lookup_insert_eq. split_and!; [done| | | |done|].
      * intros k Hk. by rewrite lookup_insert_ne.
      * eexists. split_and!; [done|done|]. right. apply elem_of_app. right. by apply list_elem_of_singleton.
      * intros wh [?| ->%list_elem_of_singleton]%elem_of_app; [by left|by right].
      * intros wh ?. apply elem_of_app. by left. }
  clear E1 E IH. split_and!.
  - congruence.
  - intros k Hk. apply not_elem_of_cons in Hk as [? ?]. rewrite H2 by done. by apply G2.
  - intros w' [-> |Hin]%elem_of_cons.
    + exists h. rewrite H2 by done. split_and!; [done..|]. destruct Go as [?|?]; [by left|right; by apply H6].
    + destruct (H3 w' Hin) as (h' & ? & ? & Ho). exists h'. split_and!; [done..|]. destruct Ho as [Ho|?]; [|by right].
      left. rewrite <- G2; [done|]. intros He. apply Hw. rewrite <- He. by apply list_elem_of_fmap_2.
  - intros wh [Hin|[Hin ?]]%H4; [|right; split; [by right|done]]. apply G4 in Hin as [?|[-> Hr]]; [by left|right].
    split; [by left|]. by rewrite H2.
  - intros Hall. destruct (G5 (Hall w ltac:(by left))) as [-> ->]. apply H5. intros w' Hin. apply Hall. by right.
  - intros wh ?. by apply H6, G6.
Qed.

Lemma states_pruned keep d appID name s :
  dm_states (sync_states keep d) !! appID ≫= (.!! name) = Some s ↔
  dm_states d !! appID ≫= (.!! name) = Some s ∧ checkerKey appID name ∈ keep.
Proof.
  unfold sync_states, dm_set_states. cbn [dm_states]. rewrite map_lookup_filter, map_lookup_imap.
  destruct (dm_states d !! appID) as [m|] eqn:E; simpl; [|naive_solver]. case_guard as Hg; simpl.
  - rewrite map_lookup_filter_Some. done.
  - split; [done|]. intros [Hm Hk]. exfalso.
    assert (filter (λ ns : string * EndpointState, checkerKey appID ns.1 ∈ keep) m !! name = Some s) as Hf
      by by apply map_lookup_filter_Some.
    simpl in Hg. by rewrite Hg, lookup_empty in Hf.
Qed.

Lemma drop_twice keep d : (∀ k h, dm_running d !! k = Some h → k ∈ keep) → sync_drop keep d = d.
Proof.
  intros Hin. unfold sync_drop.
  assert (filter (λ kh : string * checkHandle, kh.1 ∉ keep) (dm_running d) = ∅) as ->.
  { apply map_empty. intros k. apply map_lookup_filter_None. right. intros h Hh Hn. by apply Hn, (Hin k h). }
  rewrite map_filter_id by (intros k h Hh; by apply (Hin k h)). rewrite map_to_list_empty, app_nil_r. by destruct d.
Qed.

Lemma states_twice keep d : sync_states keep (sync_states keep d) = sync_states keep d.
Proof.
  unfold sync_states, dm_set_states. cbn [dm_states dm_running dm_closed dm_next dm_histories]. f_equal.
  apply map_eq. intros appID. rewrite !map_lookup_filter, !map_lookup_imap, !map_lookup_filter, !map_lookup_imap.
  destruct (dm_states d !! appID) as [states|]; simpl; [|done]. case_guard as Hg; simpl; [|done].
  rewrite map_filter_filter_l by done. by rewrite option_guard_True.
Qed.

(** C37: a reconciliation leaves exactly the checkers the configuration asks for,
    with its settings: a checker whose settings did not change goes on, any
    other is started anew, and every one that is no longer wanted was told to
    stop, once.  Nothing is remembered of an endpoint that is not configured,
    what is remembered of the others stays, and a second reconciliation under
    the same configuration does nothing. *)
Theorem Sync_runs_what_is_configured apps configs d :
  daemon_ok d → NoDup (wd_key <$> desired apps configs) →
  let '(d', starting) := Sync apps configs d in
  let l := desired apps configs in
  daemon_ok d' ∧
  (∀ k h, dm_running d' !! k = Some h ↔ ∃ w, w ∈ l ∧ wd_key w = k ∧ dm_running d' !! k = Some h ∧ CH_cfg h = wd_cfg w ∧
     (dm_running d !! k = Some h ∨ (w, h) ∈ starting)) ∧
  (∀ w, w ∈ l → is_Some (dm_running d' !! wd_key w)) ∧
  (∀ appID name s, dm_states d' !! appID ≫= (.!! name) = Some s ↔
     dm_states d !! appID ≫= (.!! name) = Some s ∧ checkerKey appID name ∈ wd_key <$> l) ∧
  Sync apps configs d' = (d', []).
Proof.
  intros Hok Hnd. unfold Sync. set (l := desired apps configs) in *.
  destruct (foldl sync_one (d, []) l) as [d1 st] eqn:E.
  destruct (sync_all_spec l d [] d1 st Hnd E) as (H1 & H2 & H3 & H4 & _ & _).
  pose proof (sync_all_ok l d [] Hok) as Hok1. rewrite E in Hok1. cbn [fst] in Hok1.
  apply (sync_drop_ok (kept_keys l)) in Hok1. set (d2 := sync_drop (kept_keys l) d1) in *.
  assert (∀ k h, dm_running d2 !! k = Some h ↔ dm_running d1 !! k = Some h ∧ k ∈ kept_keys l) as Hrun
    by (intros k h; apply map_lookup_filter_Some).
  assert (∀ w, w ∈ l → ∃ h, dm_running d2 !! wd_key w = Some h ∧ CH_cfg h = wd_cfg w ∧
     (dm_running d !! wd_key w = Some h ∨ (w, h) ∈ st)) as Hw.
  { intros w Hin. destruct (H3 w Hin) as (h & Hh & Hc & Ho). exists h. split_and!; [|done|done]. apply Hrun.
    split; [done|]. by apply list_elem_of_fmap_2. }
  split_and!.
  - destruct Hok1. by split.
  - intros k h. change (dm_running (sync_states _ d2)) with (dm_running d2). split; [|by intros (w & _ & _ & ? & _)].
    intros Hk. pose proof Hk as [_ Hin]%Hrun. apply list_elem_of_fmap in Hin as (w & -> & Hin).
    destruct (Hw w Hin) as (h' & Hh' & Hc & Ho). rewrite Hk in Hh'. injection Hh' as <-. by exists w.
  - intros w Hin. change (dm_running (sync_states _ d2)) with (dm_running d2). destruct (Hw w Hin) as (h & -> & _). done.
  - intros appID name s. rewrite states_pruned. change (dm_states d2) with (dm_states d1). by rewrite H1.
  - set (d3 := sync_states (kept_keys l) d2).
    assert (foldl sync_one (d3, []) l = (d3, [])) as ->.
    { destruct (foldl sync_one (d3, []) l) as [d4 st4] eqn:E4.
      destruct (sync_all_spec l d3 [] d4 st4 Hnd E4) as (_ & _ & _ & _ & H5 & _).
      destruct H5 as [-> ->]; [|done]. intros w Hin. change (dm_running d3) with (dm_running d2).
      destruct (Hw w Hin) as (h & -> & Hc & _). simpl. by rewrite Hc. }
    f_equal. rewrite drop_twice; [apply states_twice|]. change (dm_running d3) with (dm_running d2).
    by intros k h [_ ?]%Hrun.
Qed.

(** A checker that was told to stop changes nothing: its last result neither
    revives the state of a removed endpoint nor restarts the application. *)
Theorem a_stopped_checker_changes_nothing d id appID appName endpointName config result now :
  daemon_ok d → id ∈ dm_closed d →
  updateEndpointState appID appName endpointName config result (Some id) now d = (d, None).
Proof.
  intros Hok Hid. unfold updateEndpointState. destruct (dm_running d !! checkerKey appID endpointName) as [h|] eqn:E; simpl.
  - rewrite bool_decide_eq_false_2; [done|]. intros [= <-]. by apply (ok_live d Hok) in E as [_ ?].
  - done.
Qed.

(** ** Automatic restarts of an endpoint *)

Section Restarts.
Context (appID appName endpointName : string).

(** A result, the time it is recorded at and the settings of the checker then. *)
Definition event : Type := Z * (HealthCheckConfig * HealthCheckResult).

(** Whether a record asks for a restart, as [startAutoRestarter] reads it. *)
Definition restarts (r : option AutoRestartRecord) : bool :=
  match r with Some r => AR_CrashCount24h r <=? max_crashes | None => false end.

(** The state after the results, and the times of the restarts. *)
Fixpoint observed (l : list event) (s : EndpointState) : EndpointState * list Z :=
  match l with
  | [] => (s, [])
  | (now, (config, result)) :: l =>
      let '(s, r) := observe_result appID appName endpointName config now result s in
      let '(s, times) := observed l s in
      (s, if restarts r then now :: times else times)
  end.

(** The times do not go back. *)
Definition in_time (t : Z) (l : list event) : Prop := Sorted Z.le (t :: l.*1).















(** A state whose backoff is set failed last. *)
Definition failed_last (t : Z) (s : EndpointState) : Prop :=
  (∀ u, ES_LastSuccessTime s = Some u → u ≤ t) ∧ (0 < ES_BackoffLevel s → after (ES_LastSuccessTime s) (ES_LastFailTime s) = false).

Lemma observed_failed_last l : ∀ t s, in_time t l → failed_last t s → ∃ t', failed_last t' (observed l s).1.
Proof.
  induction l as [|[now [config result]] l IH]; intros t s Ht [Hs Hf]; [by exists t|].
  apply Sorted_inv in Ht as [Hso Ht]. inversion Ht as [|? ? Hle]; subst. cbn [observed].
  destruct (observe_result _ _ _ config now result s) as [s1 r] eqn:E.
  assert (failed_last now s1) as Hf1; [|destruct (IH now s1 Hso Hf1) as [t' Ht']; destruct (observed l s1); by exists t'].
  assert (∀ level next hist last n, failed_last now (mkEndpoint last n (Some now) (ES_LastSuccessTime s) level next hist)) as Hfail.
  { intros. split; simpl; [intros u ?%Hs; lia|]. intros _. unfold after. destruct (ES_LastSuccessTime s) as [u|]; [|done].
    simpl. specialize (Hs u eq_refl). apply Z.ltb_ge. lia. }
  revert E. unfold observe_result, triggerAutoRestart. destruct (HR_Status result =s "UP").
  - intros [= <- <-]. split; simpl; [by intros u [= <-]|lia].
  - destruct (_ && _)%bool; [|by intros [= <- <-]]. destruct (_ <? _); by intros [= <- <-].
Qed.
End Restarts.


(** The hourly maintenance never resets a backoff: a success already did. *)
Theorem maintenance_changes_nothing appID appName endpointName t l now :
  in_time t l →
  let s := (observed appID appName endpointName l new_endpoint).1 in maintained now s = s.
Proof.
  intros Ht s. destruct (observed_failed_last appID appName endpointName l t new_endpoint Ht) as (t' & _ & Hf);
    [by split|]. unfold maintained. fold s in Hf. destruct (Z.ltb_spec 0 (ES_BackoffLevel s)) as [Hl|Hl].
  - by rewrite Hf.
  - by rewrite andb_false_r.
Qed.

(** The exit code of a carried out record tells what happened. *)
Theorem exit_code_is_truthful appID appName endpointName config now result s s' r failed :
  observe_result appID appName endpointName config now result s = (s', Some r) →
  AR_ExitCode (carried_out failed r) = 0 ↔ AR_CrashCount24h r ≤ max_crashes ∧ failed appID = None.
Proof.
  unfold observe_result. destruct (HR_Status result =s "UP"); [done|]. destruct (_ && _)%bool; [|done].
  unfold triggerAutoRestart. destruct (Z.ltb_spec max_crashes (len (within_day now (ES_CrashHistory s)))) as [Hm|Hm];
    cbn [ES_CrashHistory]; rewrite ?(proj2 (Z.ltb_lt _ _) Hm), ?(proj2 (Z.ltb_ge _ _) Hm); intros [= <- <-];
    unfold carried_out; cbn [AR_CrashCount24h AR_AppID].
  - rewrite (proj2 (Z.leb_gt _ _)) by lia. simpl. naive_solver lia.
  - rewrite (proj2 (Z.leb_le _ _)) by lia. destruct (failed appID); simpl; naive_solver lia.
Qed.

(** ** The snapshot *)

(** The last result of an endpoint. *)
Definition last_result (d : Daemon) (appID name : string) : option HealthCheckResult :=
  match dm_states d !! appID with
  | Some states => match states !! name with Some s => ES_LastResult s | None => None end
  | None => None
  end.

Definition probed_endpoints (s : AppHealthSnapshot) : list EndpointHealthSnapshot :=
  filter (λ e, is_Some (EH_Result e)) (AS_Endpoints s).

Lemma fmap_omap {A B C} (f : A → option B) (g : B → C) (l : list A) : g <$> omap f l = omap (λ x, g <$> f x) l.
Proof. induction l as [|x l IH]; [done|]. cbn [omap list_omap]. destruct (f x); cbn; [by f_equal|done]. Qed.

Lemma omap_same {A B} (f g : A → option B) (l : list A) : (∀ x, f x = g x) → omap f l = omap g l.
Proof. intros Hfg. induction l as [|x l IH]; [done|]. cbn [omap list_omap]. rewrite (Hfg x). destruct (g x); [by f_equal|done]. Qed.

Lemma len_zero {A} (l : list A) : len l = 0 ↔ l = [].
Proof. unfold len. destruct l; simpl; split; (done || lia). Qed.

Lemma up_are_probed (l : list EndpointHealthSnapshot) : filter (λ e, endpoint_up e = true) l =
  filter (λ e, endpoint_up e = true) (filter (λ e, is_Some (EH_Result e)) l).
Proof.
  rewrite list_filter_filter_l; [done|]. intros e. unfold endpoint_up. destruct (EH_Result e); [by eexists|done].
Qed.

Lemma count_all (l : list EndpointHealthSnapshot) :
  len (filter (λ e, endpoint_up e = true) l) = len l ↔ Forall (λ e, endpoint_up e = true) l.
Proof.
  induction l as [|e l IH]; [done|]. rewrite filter_cons, len_cons, Forall_cons.
  assert (len (filter (λ e, endpoint_up e = true) l) ≤ len l) by (unfold len; apply inj_le, length_filter).
  destruct (decide (endpoint_up e = true)) as [He|He]; [rewrite len_cons; naive_solver lia|]. split; [lia|by intros [? _]].
Qed.

Lemma count_none (l : list EndpointHealthSnapshot) :
  len (filter (λ e, endpoint_up e = true) l) = 0 ↔ Forall (λ e, endpoint_up e = false) l.
Proof.
  induction l as [|e l IH]; [done|]. rewrite filter_cons, Forall_cons.
  destruct (endpoint_up e); destruct (decide _); try done.
  - rewrite len_cons. split; [|by intros [? _]]. pose proof (len_nonneg (filter (λ e, endpoint_up e = true) l)). lia.
  - rewrite IH. naive_solver.
Qed.

(** What is reported of an application is what is configured and seen: one
    entry for each configured endpoint, in the order of their names, with its
    last result; the status is UNKNOWN when none was probed, UP when every one
    that was probed is, DOWN when none of those is, and DEGRADED otherwise. *)
Theorem snapshot_reports_what_was_seen parse_url now configs appID appName d s c :
  SnapshotForApp parse_url now configs appID appName d = Some s → configs !! appID = Some c →
  (EH_Config <$> AS_Endpoints s = omap (λ name, AH_Endpoints c !! name) (sortedEndpointNames (AH_Endpoints c))) ∧
  (∀ e, e ∈ AS_Endpoints s → ∃ name, AH_Endpoints c !! name = Some (EH_Config e) ∧ EH_Result e = last_result d appID name) ∧
  (AS_Status s = StatusUnknown ↔ probed_endpoints s = []) ∧
  (AS_Status s = StatusUp ↔ probed_endpoints s ≠ [] ∧ Forall (λ e, endpoint_up e = true) (probed_endpoints s)) ∧
  (AS_Status s = StatusDown ↔ probed_endpoints s ≠ [] ∧ Forall (λ e, endpoint_up e = false) (probed_endpoints s)).
Proof.
  intros Hs Hc. unfold SnapshotForApp in Hs. rewrite Hc in Hs. injection Hs as <-. unfold probed_endpoints.
  cbn [AS_Endpoints AS_Status]. set (l := omap _ _). split; [|split].
  - subst l. rewrite fmap_omap. apply omap_same. intros name. destruct (AH_Endpoints c !! name) as [cfg|]; [|done].
    simpl. f_equal. unfold endpoint_snapshot. by case_match.
  - intros e (name & _ & He)%list_elem_of_omap. exists name. destruct (AH_Endpoints c !! name) as [cfg|]; [|done].
    injection He as <-. unfold last_result, endpoint_snapshot. destruct (dm_states d !! appID) as [st|]; simpl.
    + by destruct (st !! name).
    + by rewrite lookup_empty.
  - rewrite up_are_probed. set (p := filter _ l). rewrite <- count_all, <- count_none, <- (len_zero p). unfold rollupStatus.
    assert (len (filter (λ e, endpoint_up e = true) p) ≤ len p) by (unfold len; apply inj_le, length_filter).
    destruct (Z.eqb_spec (len p) 0), (Z.eqb_spec (len (filter (λ e, endpoint_up e = true) p)) (len p)),
      (Z.eqb_spec (len (filter (λ e, endpoint_up e = true) p)) 0); naive_solver lia.
Qed.

(** ** The queue and the lock *)

(** Once the worker is busy while a sender waits with the lock, neither goes on:
    the worker needs the lock to report, the sender a slot that only the worker
    frees. *)
Lemma waiting_is_final h w r h' :
  hs_waiting h = Some w → hs_busy h = Some r → ¬ hstep h h'.
Proof. intros Hw Hb Hs. inversion Hs; subst; congruence. Qed.

Module HealthSamples.

Definition endpoint (retries : Z) : HealthCheckConfig := mkCheck "ep" "default" "http://localhost:80/health" "10s" retries "" "5s".
Definition health_of (id : string) : AppHealthConfig := mkHealth id id {[ "default" := endpoint 1 ]} true 0 None None.
Definition empty_daemon : Daemon := mkDaemon ∅ ∅ [] 0 ∅.
Definition down (n : Z) : HealthCheckResult := mkResult "" "" "default" "" "DOWN" None None n "".
Definition up (n : Z) : HealthCheckResult := mkResult "" "" "default" "" "UP" (Some 200) None n "".

Lemma empty_ok : daemon_ok empty_daemon.
Proof.
  split; simpl.
  - by intros k h ?%(lookup_empty_Some (M := gmap string)).
  - by intros k1 k2 h1 h2 ?%(lookup_empty_Some (M := gmap string)).
  - constructor.
  - by intros id ?%not_elem_of_nil.
  - lia.
Qed.

(** *** Applications that all fail at once *)

Definition app_ids : list string := Itoa <$> [1; 2; 3; 4; 5; 6; 7; 8; 9; 10; 11; 12; 13; 14; 15; 16; 17; 18; 19; 20; 21; 22;
  23; 24; 25; 26; 27; 28; 29; 30; 31; 32; 33; 34; 35; 36; 37; 38; 39; 40; 41; 42; 43; 44; 45; 46; 47; 48; 49; 50; 51; 52].
Definition all_apps : list (string * string) := (λ i, (i, i)) <$> app_ids.
Definition all_configs : gmap string AppHealthConfig := list_to_map ((λ i, (i, health_of i)) <$> app_ids).
Definition synced : Daemon := (Sync all_apps all_configs empty_daemon).1.

(** The n-th checker delivers a failure. *)
Definition fire (h : hstate) (n : nat) : option hstate :=
  match hs_waiting h, app_ids !! n with
  | None, Some i =>
      match updateEndpointState i i "default" (endpoint 1) (down 7) (Some n) 7 (hs_daemon h) with
      | (d, Some r) => Some (send r d h)
      | (_, None) => None
      end
  | _, _ => None
  end.

Lemma fire_step h n h' : fire h n = Some h' → hstep h h'.
Proof.
  unfold fire. destruct (hs_waiting h) eqn:Ew; [done|]. destruct (app_ids !! n) as [i|]; [|done].
  destruct (updateEndpointState _ _ _ _ _ _ _ _) as [d [r|]] eqn:E; [|done]. intros [= <-]. by eapply step_restart.
Qed.

Lemma fire_steps l : ∀ h h', foldl (λ o n, o ≫= λ h, fire h n) (Some h) l = Some h' → rtc hstep h h'.
Proof.
  induction l as [|n l IH]; intros h h'; simpl; [by intros [= <-]|]. destruct (fire h n) as [h1|] eqn:E.
  - intros Hr. eapply rtc_l; [by eapply fire_step|by apply IH].
  - intros Hr. exfalso. clear -Hr. induction l; [done|by apply IHl].
Qed.

(** The worker restarts the first application while fifty-one others fail. *)
Definition first_failed (d : Daemon) : option hstate := fire (mkHState d [] None None []) 0.
Definition restarting (d : Daemon) : option hstate :=
  h ← first_failed d;
  match hs_queue h with
  | r :: queue => Some (mkHState (hs_daemon h) queue None (Some r) [])
  | [] => None
  end.
Definition stopped (d : Daemon) : option hstate := h ← restarting d; foldl (λ o n, o ≫= λ h, fire h n) (Some h) (seq 1 51).

Definition stuck (o : option hstate) : bool :=
  match o with Some h => bool_decide (is_Some (hs_waiting h) ∧ is_Some (hs_busy h)) | None => false end.

Lemma stuck_stops o : stuck o = true → ∃ h, o = Some h ∧ ∀ h', ¬ hstep h h'.
Proof.
  destruct o as [h|]; [|done]. intros [[w Hw] [r Hr]]%bool_decide_eq_true. exists h. split; [done|]. intros h'.
  by apply (waiting_is_final h w r).
Qed.

Lemma restarting_reached d h : restarting d = Some h → rtc hstep (mkHState d [] None None []) h.
Proof.
  unfold restarting. destruct (first_failed d) as [h1|] eqn:E1; [|done]. simpl. destruct (hs_queue h1) as [|r queue] eqn:Eq; [done|].
  intros [= <-]. eapply rtc_l; [exact (fire_step _ 0 _ E1)|]. apply rtc_once.
  pose proof (step_take h1 r queue) as Hs.
  assert (hs_busy h1 = None ∧ hs_waiting h1 = None ∧ hs_done h1 = []) as (Hb & Hw & Hd).
  { revert E1. unfold first_failed, fire. cbn [hs_waiting hs_daemon].
    destruct (app_ids !! 0%nat) as [i|]; [|done].
    destruct (updateEndpointState _ _ _ _ _ _ _ _) as [d1 [r1|]]; [|done]. by intros [= <-]. }
  specialize (Hs Hb Eq). by rewrite Hw, Hd in Hs.
Qed.

(** From a daemon that just started to one where nothing goes on any more. *)
Lemma stuck_is_reached d : stuck (stopped d) = true → ∃ h, rtc hstep (mkHState d [] None None []) h ∧ ∀ h', ¬ hstep h h'.
Proof.
  intros (h & Hh & Hn)%stuck_stops. exists h. split; [|exact Hn]. unfold stopped in Hh.
  destruct (restarting d) as [h1|] eqn:E; [|done]. etrans; [exact (restarting_reached d h1 E)|exact (fire_steps _ _ _ Hh)].
Qed.

Example a_full_queue_is_reached :
  ∃ h, rtc hstep (mkHState synced [] None None []) h ∧ ∀ h', ¬ hstep h h'.
Proof. apply stuck_is_reached. vm_compute. reflexivity. Qed.

(** *** Witnesses *)

(** Application [a] is edited, [b] is removed, [c] is new. *)
Definition edited (url : string) : AppHealthConfig :=
  mkHealth "a" "a" {[ "default" := mkCheck "ep" "default" url "10s" 1 "" "5s" ]} true 0 None None.
Definition before_apps : list (string * string) := [("a", "a"); ("b", "b")].
Definition before_configs : gmap string AppHealthConfig := {[ "a" := health_of "a"; "b" := health_of "b" ]}.
Definition running2 : Daemon := (Sync before_apps before_configs empty_daemon).1.
Definition after_configs : gmap string AppHealthConfig := {[ "a" := edited "localhost:81"; "c" := health_of "c" ]}.
Definition after_apps : list (string * string) := [("a", "a"); ("c", "c")].

Lemma NoDup_check (l : list string) : bool_decide (NoDup l) = true → NoDup l.
Proof. by intros ?%bool_decide_eq_true. Qed.

Lemma running2_ok : daemon_ok running2.
Proof.
  unfold running2, Sync. destruct (foldl sync_one (empty_daemon, []) (desired before_apps before_configs)) as [d st] eqn:E.
  pose proof (sync_all_ok (desired before_apps before_configs) empty_daemon [] empty_ok) as Hok. rewrite E in Hok.
  apply (sync_drop_ok (kept_keys (desired before_apps before_configs))) in Hok. destruct Hok. by split.
Qed.

Lemma Sync_runs_what_is_configured_witness :
  dm_closed (Sync after_apps after_configs running2).1 = [0%nat; 1%nat] ∧
  let '(d', starting) := Sync after_apps after_configs running2 in
  let l := desired after_apps after_configs in
  daemon_ok d' ∧
  (∀ k h, dm_running d' !! k = Some h ↔ ∃ w, w ∈ l ∧ wd_key w = k ∧ dm_running d' !! k = Some h ∧ CH_cfg h = wd_cfg w ∧
     (dm_running running2 !! k = Some h ∨ (w, h) ∈ starting)) ∧
  (∀ w, w ∈ l → is_Some (dm_running d' !! wd_key w)) ∧
  (∀ appID name s, dm_states d' !! appID ≫= (.!! name) = Some s ↔
     dm_states running2 !! appID ≫= (.!! name) = Some s ∧ checkerKey appID name ∈ wd_key <$> l) ∧
  Sync after_apps after_configs d' = (d', []).
Proof.
  split; [vm_compute; reflexivity|].
  apply (Sync_runs_what_is_configured after_apps after_configs running2).
  - exact running2_ok.
  - apply NoDup_check. vm_compute. reflexivity.
Defined.

Lemma a_stopped_checker_changes_nothing_witness :
  updateEndpointState "b" "b" "default" (endpoint 1) (down 9) (Some 1%nat) 9 (Sync after_apps after_configs running2).1 =
    ((Sync after_apps after_configs running2).1, None).
Proof.
  apply (a_stopped_checker_changes_nothing (Sync after_apps after_configs running2).1 1 "b" "b" "default" (endpoint 1) (down 9) 9).
  - pose proof (sync_all_ok (desired after_apps after_configs) running2 [] running2_ok) as Hok. unfold Sync.
    destruct (foldl sync_one (running2, []) (desired after_apps after_configs)) as [d st].
    apply (sync_drop_ok (kept_keys (desired after_apps after_configs))) in Hok. destruct Hok. by split.
  - refine (proj1 (bool_decide_eq_true _) _). vm_compute. reflexivity.
Defined.

(** A failing probe every ten minutes for a day. *)
Definition failing_day : list event := (λ n, (Z.of_nat n * (10 * Minute), (endpoint 3, down (Z.of_nat n)))) <$> seq 1 144.

Lemma failing_in_time n k : Sorted Z.le ((λ n, Z.of_nat n * (10 * Minute)) <$> seq k n).
Proof.
  revert k. induction n as [|n IH]; intros k; [constructor|]. cbn [seq fmap list_fmap]. constructor; [apply IH|].
  destruct n as [|n]; [constructor|]. cbn [seq fmap list_fmap]. constructor. assert (0 < Minute) by done. nia.
Qed.

Lemma failing_day_in_time : in_time 0 failing_day.
Proof.
  unfold in_time, failing_day. assert (((λ n, (Z.of_nat n * (10 * Minute), (endpoint 3, down (Z.of_nat n)))) <$> seq 1 144).*1 =
    (λ n, Z.of_nat n * (10 * Minute)) <$> seq 1 144) as -> by by rewrite <- list_fmap_compose.
  exact (failing_in_time 145 0).
Qed.


(** The endpoint is disabled for a moment after half a day, or the daemon
    restarted: the day sees twenty-two restarts. *)
Example a_forgotten_endpoint_begins_anew :
  len (observed "a" "a" "default" (take 72 failing_day) new_endpoint).2 = 11 ∧
  len (observed "a" "a" "default" (drop 72 failing_day) new_endpoint).2 = 11.
Proof. split; vm_compute; reflexivity. Qed.

Lemma maintenance_changes_nothing_witness :
  maintained day (observed "a" "a" "default" failing_day new_endpoint).1 =
  (observed "a" "a" "default" failing_day new_endpoint).1.
Proof. apply (maintenance_changes_nothing "a" "a" "default" 0 failing_day day). exact failing_day_in_time. Defined.

Definition first_state : EndpointState := (observe_result "a" "a" "default" (endpoint 1) 7 (down 7) new_endpoint).1.
Definition first_record : AutoRestartRecord :=
  default (mkRestart "" "" "" "" "" 0 0 0 0) (observe_result "a" "a" "default" (endpoint 1) 7 (down 7) new_endpoint).2.

Lemma exit_code_is_truthful_witness :
  AR_ExitCode (carried_out (λ _, None) first_record) = 0 ↔ AR_CrashCount24h first_record ≤ max_crashes ∧ @None error = None.
Proof.
  apply (exit_code_is_truthful "a" "a" "default" (endpoint 1) 7 (down 7) new_endpoint first_state first_record (λ _, None)).
  vm_compute. reflexivity.
Defined.

Definition seen : Daemon := (updateEndpointState "a" "a" "default" (endpoint 1) (up 7) (Some 0%nat) 7 running2).1.
Definition shown : AppHealthSnapshot :=
  default (mkAppSnapshot "" "" false "" 0 None 0 0 []) (SnapshotForApp (λ _, None) 8 before_configs "a" "" seen).

Lemma snapshot_reports_what_was_seen_witness :
  AS_Status shown = StatusUp ∧
  (EH_Config <$> AS_Endpoints shown = omap (λ name, AH_Endpoints (health_of "a") !! name)
     (sortedEndpointNames (AH_Endpoints (health_of "a")))) ∧
  (∀ e, e ∈ AS_Endpoints shown → ∃ name, AH_Endpoints (health_of "a") !! name = Some (EH_Config e) ∧
     EH_Result e = last_result seen "a" name) ∧
  (AS_Status shown = StatusUnknown ↔ probed_endpoints shown = []) ∧
  (AS_Status shown = StatusUp ↔ probed_endpoints shown ≠ [] ∧ Forall (λ e, endpoint_up e = true) (probed_endpoints shown)) ∧
  (AS_Status shown = StatusDown ↔ probed_endpoints shown ≠ [] ∧ Forall (λ e, endpoint_up e = false) (probed_endpoints shown)).
Proof.
  split; [vm_compute; reflexivity|].
  apply (snapshot_reports_what_was_seen (λ _, None) 8 before_configs "a" "" seen shown (health_of "a")).
  - vm_compute. reflexivity.
  - vm_compute. reflexivity.
Defined.

(** *** What the code does not do as it means to *)

(** A list with a range in it accepts nothing. *)
Example a_list_with_a_range_accepts_nothing :
  map (λ code, isStatusCodeHealthy code "200-299,404") [200; 204; 299; 404] = [false; false; false; false].
Proof. vm_compute. reflexivity. Qed.

(** A process id is dialled as a port. *)
Example a_process_id_is_a_port :
  performCheck (mkProbeView 0 (λ _ _, Ok 0) (λ a _, Some (Foreign a None)) 0) "4711" 0 = Err (Foreign "localhost:4711" None).
Proof. vm_compute. reflexivity. Qed.

(** Past the ceiling every failing probe sends a record of a restart that was
    not made, and the hundred that are kept soon are all of that kind. *)
Example skipped_restarts_push_out_the_real_ones :
  let kept := (foldl (λ acc e, let '(s, kept) := acc in
    match observe_result "a" "a" "default" (endpoint 3) e.1 e.2.2 s with
    | (s, Some r) => (s, restarts_kept kept r)
    | (s, None) => (s, kept)
    end) (new_endpoint, []) failing_day).2 in
  (length kept, length (List.filter (λ r, AR_CrashCount24h r <=? max_crashes) kept)) = (100%nat, 0%nat).
Proof. vm_compute. reflexivity. Qed.
End HealthSamples.
