(* ===== verification/Workspace.v ===== *)
(** * Workspace: dependency levels and ports of a multi-service workspace
      (src/internal/workspace/graph.go, workspace.go)

    The dependency graph is a Go map of adjacency lists; its iteration order is
    the order of the association list [deps].  Counters and adjacency are maps
    with Go's zero values for missing keys.  Reading the manifest and
    discovering services are not modelled. *)

From S2P Require Import Prelude GoLib Errors.

(** ** The dependency graph *)

Abbreviation graph := (list (string * list string)).

Definition deg (m : gmap string Z) (n : string) : Z := default 0 (m !! n).
Definition adj (m : gmap string (list string)) (n : string) : list string := default [] (m !! n).

(** [indegree[name]++; dependents[dep] = append(dependents[dep], name)]. *)
(* src: internal/workspace/graph.go:38-39 TopoLevels *)
Definition add_edge (dep name : string) (g : gmap string Z * gmap string (list string))
  : gmap string Z * gmap string (list string) :=
  (<[name := deg g.1 name + 1]> g.1, <[dep := adj g.2 dep ++ [name]]> g.2).

(* src: internal/workspace/graph.go:30-40 TopoLevels *)
Fixpoint add_deps (names : list string) (name : string) (l : list string)
    (g : gmap string Z * gmap string (list string))
  : res (gmap string Z * gmap string (list string)) :=
  match l with
  | [] => Ok g
  | dep :: l =>
      if negb (one_of dep names) then
        Err (New CodeValidation
               ("service " +:+ Quote name +:+ " depends on unknown service " +:+ Quote dep))
      else add_deps names name l (add_edge dep name g)
  end.

(* src: internal/workspace/graph.go:26-41 TopoLevels *)
Fixpoint add_all_deps (names : list string) (deps : graph)
    (g : gmap string Z * gmap string (list string))
  : res (gmap string Z * gmap string (list string)) :=
  match deps with
  | [] => Ok g
  | (name, l) :: deps =>
      if negb (one_of name names) then add_all_deps names deps g
      else add_deps names name l g ≫= add_all_deps names deps
  end.

(** [indegree[dependent]--; if indegree[dependent] == 0 { next = append(...) }]. *)
(* src: internal/workspace/graph.go:59-62 TopoLevels *)
Definition release (st : gmap string Z * list string) (dependent : string)
  : gmap string Z * list string :=
  let m := <[dependent := deg st.1 dependent - 1]> st.1 in
  (m, if deg m dependent =? 0 then st.2 ++ [dependent] else st.2).

(** The [for len(ready) > 0] loop; [None] when the fuel runs out. *)
(* src: internal/workspace/graph.go:53-68 TopoLevels *)
Fixpoint level_loop (fuel : nat) (dependents : gmap string (list string))
    (indegree : gmap string Z) (ready : list string) : option (list (list string)) :=
  match fuel with
  | O => None
  | S fuel =>
      match ready with
      | [] => Some []
      | _ =>
          let '(indegree, next) :=
            foldl (λ st name, foldl release st (adj dependents name)) (indegree, []) ready in
          levels ← level_loop fuel dependents indegree (sort_strings next);
          Some (ready :: levels)
      end
  end.

(* src: internal/workspace/graph.go indexOf *)
Fixpoint index_from (i : nat) (l : list string) (want : string) : option nat :=
  match l with
  | [] => None
  | x :: l => if x =s want then Some i else index_from (S i) l want
  end.

(** [None] is the answer [-1]. *)
(* src: internal/workspace/graph.go indexOf *)
Definition indexOf (l : list string) (want : string) : option nat := index_from 0 l want.

(** The closure [walk] of [cyclePath], with the variables it captures.  The
    recursion marks a node of the set visited at each level, so a fuel of one
    more than the number of names is enough. *)
(* src: internal/workspace/graph.go:105-125 cyclePath *)
Fixpoint walk (fuel : nat) (names : list string) (deps : gmap string (list string))
    (visited : gset string) (path : list string) (node : string)
  : bool * gset string * list string :=
  match fuel with
  | O => (false, visited, path)
  | S fuel =>
      if bool_decide (node ∈ visited) then
        match indexOf path node with
        | Some _ => (true, visited, path ++ [node])
        | None => (false, visited, path)
        end
      else
        let fix go (l : list string) (visited : gset string) (path : list string) :=
          match l with
          | [] => (false, visited, take (length path - 1) path)
          | dep :: l =>
              if negb (one_of dep names) then go l visited path
              else match walk fuel names deps visited path dep with
              | (true, visited, path) => (true, visited, path)
              | (false, visited, path) => go l visited path
              end
          end in
        go (adj deps node) ({[node]} ∪ visited) (path ++ [node])
  end.

(* src: internal/workspace/graph.go:102-132 cyclePath *)
Fixpoint cycle_from (names : list string) (deps : gmap string (list string))
    (starts path : list string) : list string :=
  match starts with
  | [] => names
  | name :: starts =>
      match walk (S (S (length names))) names deps ∅ path name with
      | (true, _, path) =>
          let start := default 0%nat (indexOf path name) in
          drop start (take (length path - 1) path)
      | (false, _, path) => cycle_from names deps starts path
      end
  end.

(* src: internal/workspace/graph.go cyclePath *)
Definition cyclePath (names : list string) (deps : gmap string (list string)) : list string :=
  cycle_from names deps names [].

Definition newline : string := String (ascii_of_nat 10) "".

(** Each level places at least one name and no name twice, so one more turn
    than the number of names is enough ([levels_fuel]). *)
(* src: internal/workspace/graph.go TopoLevels *)
Definition TopoLevels (names : list string) (deps : graph) : res (list (list string)) :=
  let indegree := list_to_map ((λ name, (name, 0)) <$> names) in
  add_all_deps names deps (indegree, ∅) ≫= λ '(indegree, dependents),
  let ready := sort_strings (List.filter (λ name, deg indegree name =? 0) names) in
  let levels := default [] (level_loop (S (length names)) dependents indegree ready) in
  let placed := len (concat levels) in
  if placed <? len names then
    Err (New CodeValidation
           ("dependency cycle among services: " +:+
            Join (cyclePath names (list_to_map deps)) " -> " +:+ newline +:+
            "Hint: remove one depends_on edge to break the cycle"))
  else Ok levels.

(* src: internal/workspace/graph.go TopoOrder *)
Definition TopoOrder (names : list string) (deps : graph) : res (list string) :=
  TopoLevels names deps ≫= λ levels, Ok (concat levels).

(** ** Levels: the reference definition

    The edges [(dep, name)] among the names; the next level holds the names not
    yet placed whose dependencies are all placed. *)

Definition edges (names : list string) (deps : graph) : list (string * string) :=
  concat ((λ '(name, l), if one_of name names then (λ dep, (dep, name)) <$> l else []) <$> deps).

Definition placeable (E : list (string * string)) (placed : list string) (n : string) : Prop :=
  (n ∉ placed) ∧ (∀ d, (d, n) ∈ E → d ∈ placed).

#[export] Instance placeable_dec E placed n : Decision (placeable E placed n).
Proof.
  refine (cast_if_and (decide (n ∉ placed)) (decide (Forall (λ e, e.2 = n → e.1 ∈ placed) E))).
  all: unfold placeable; try rewrite Forall_forall in *; try intuition.
  - apply (f (d, n)); done.
  - apply n1. intros [d m] Hin Heq. simpl in Heq. subst m. auto.
Defined.

Fixpoint ref_levels (fuel : nat) (E : list (string * string)) (names placed : list string)
  : list (list string) :=
  match fuel with
  | O => []
  | S fuel =>
      match filter (placeable E placed) names with
      | [] => []
      | l => sort_strings l :: ref_levels fuel E names (placed ++ sort_strings l)
      end
  end.

(** ** Counting edges *)

Definition count (n : string) (l : list string) : Z := len (List.filter (String.eqb n) l).

Lemma count_app n l1 l2 : count n (l1 ++ l2) = count n l1 + count n l2.
Proof. unfold count. by rewrite List.filter_app, len_app. Qed.

Lemma count_cons n x l : count n (x :: l) = (if n =s x then 1 else 0) + count n l.
Proof. unfold count. simpl. destruct (n =s x); [rewrite len_cons|]; lia. Qed.

Lemma count_nonneg n l : 0 ≤ count n l.
Proof. apply len_nonneg. Qed.

Lemma count_elem n l : 0 < count n l ↔ n ∈ l.
Proof.
  induction l as [|x l IH]; [by rewrite elem_of_nil|]. rewrite count_cons, elem_of_cons.
  pose proof (count_nonneg n l). destruct (n =s x) eqn:E; bool_prop; rewrite <- IH.
  - split; [by left|lia].
  - split; [right; lia|]. intros [?|?]; [done|lia].
Qed.

(** The targets of the edges that leave [d], in order, and the number of edges
    into [n] from outside a set. *)
Definition targets (E : list (string * string)) (d : string) : list string :=
  (List.filter (λ e, e.1 =s d) E).*2.

Definition indeg (E : list (string * string)) (placed : list string) (n : string) : Z :=
  len (List.filter (λ e, ((e.2 =s n) && negb (one_of e.1 placed))%bool) E).

(** *** Building the counters *)

Definition add_edge_of (g : gmap string Z * gmap string (list string)) (e : string * string) :=
  add_edge e.1 e.2 g.

Lemma add_deps_Ok names name l g g' :
  add_deps names name l g = Ok g' ↔
  Forall (λ dep, dep ∈ names) l ∧ g' = foldl add_edge_of g ((λ dep, (dep, name)) <$> l).
Proof.
  revert g. induction l as [|dep l IH]; intros g; simpl.
  { split; [intros [= <-]; auto|by intros [_ ->]]. }
  destruct (one_of dep names) eqn:E; bool_prop; simpl.
  - rewrite IH, Forall_cons. tauto.
  - split; [done|]. by intros [[? _]%Forall_cons _].
Qed.

Lemma add_all_deps_Ok names deps g g' :
  add_all_deps names deps g = Ok g' ↔
  Forall (λ e, e.1 ∈ names) (edges names deps) ∧ g' = foldl add_edge_of g (edges names deps).
Proof.
  revert g. induction deps as [|[name l] deps IH]; intros g; simpl.
  { split; [intros [= <-]; split; [by apply Forall_nil|done]|by intros [_ ->]]. }
  unfold edges. rewrite fmap_cons. simpl. fold (edges names deps).
  destruct (one_of name names) eqn:E; simpl; [|apply IH].
  rewrite bind_Ok, Forall_app, foldl_app, Forall_fmap. setoid_rewrite add_deps_Ok.
  setoid_rewrite IH. split.
  - by intros (g1 & [? ->] & ? & ->).
  - intros [[? ?] ->]. eauto.
Qed.

Lemma deg_insert m n k x : deg (<[n := x]> m) k = if k =s n then x else deg m k.
Proof.
  unfold deg. destruct (k =s n) eqn:E; bool_prop; [subst; by rewrite lookup_insert_eq|].
  by rewrite lookup_insert_ne.
Qed.

Lemma adj_insert m n k x : adj (<[n := x]> m) k = if k =s n then x else adj m k.
Proof.
  unfold adj. destruct (k =s n) eqn:E; bool_prop; [subst; by rewrite lookup_insert_eq|].
  by rewrite lookup_insert_ne.
Qed.

Lemma seqb_sym (x y : string) : (x =s y) = (y =s x).
Proof. apply String.eqb_sym. Qed.

Lemma build_spec E g n :
  deg (foldl add_edge_of g E).1 n = deg g.1 n + count n E.*2 ∧
  adj (foldl add_edge_of g E).2 n = adj g.2 n ++ targets E n.
Proof.
  revert g. induction E as [|[d m] E IH]; intros g; cbn [foldl].
  { unfold count, targets. simpl. rewrite app_nil_r. rewrite len_nil. split; [lia|done]. }
  destruct (IH (add_edge_of g (d, m))) as [-> ->]. rewrite fmap_cons.
  unfold add_edge_of, add_edge. cbn [fst snd].
  rewrite deg_insert, adj_insert, count_cons. split.
  - destruct (n =s m) eqn:E1; bool_prop; subst; lia.
  - unfold targets. simpl. rewrite (seqb_sym n d).
    destruct (d =s n) eqn:E1; bool_prop; [|done]. subst. simpl. by rewrite <- app_assoc.
Qed.

Lemma indeg_nil E n : indeg E [] n = count n E.*2.
Proof.
  induction E as [|[d m] E IH]; [done|]. rewrite fmap_cons, count_cons, <- IH. unfold indeg. simpl.
  rewrite (seqb_sym n m). destruct (m =s n); simpl; [rewrite len_cons|]; lia.
Qed.

Lemma indeg_zero E placed n : indeg E placed n = 0 ↔ ∀ d, (d, n) ∈ E → d ∈ placed.
Proof.
  unfold indeg. split.
  - intros H d Hin. destruct (one_of d placed) eqn:Ho; bool_prop; [done|].
    exfalso. assert ((d, n) ∈ List.filter (λ e, ((e.2 =s n) && negb (one_of e.1 placed))%bool) E) as Hf.
    { apply list_elem_of_In, List.filter_In. split; [by apply list_elem_of_In|]. simpl.
      rewrite String.eqb_refl. simpl. apply negb_true_iff, one_of_false. done. }
    destruct (List.filter _ E); [by apply elem_of_nil in Hf|]. rewrite len_cons in H.
    pose proof (len_nonneg l). lia.
  - intros H. induction E as [|[d m] E IH]; [done|]. cbn [List.filter fst snd].
    assert (((m =s n) && negb (one_of d placed))%bool = false) as ->.
    { destruct (m =s n) eqn:Em; bool_prop; [|done]. subst.
      assert (d ∈ placed) as Hd by (apply H; left). apply one_of_true in Hd. by rewrite Hd. }
    apply IH. intros d' Hd'. apply H. by right.
Qed.

(** *** One level *)

(** The targets released by a level, in order. *)
Definition released (E : list (string * string)) (level : list string) : list string :=
  concat (targets E <$> level).

Lemma foldl_release_concat f (level : list string) st :
  foldl (λ st name, foldl release st (f name)) st level = foldl release st (concat (f <$> level)).
Proof. revert st. induction level as [|x level IH]; intros st; simpl; [done|]. by rewrite IH, foldl_app. Qed.

(** Releasing [T] lowers each counter by the number of occurrences, and queues
    each name whose counter reaches zero once, provided no counter falls below
    zero. *)
Lemma foldl_release T m next :
  (∀ n, count n T ≤ deg m n) →
  ∃ X, (foldl release (m, next) T).2 = next ++ X ∧ NoDup X ∧
    (∀ n, n ∈ X ↔ n ∈ T ∧ deg m n = count n T) ∧
    ∀ n, deg (foldl release (m, next) T).1 n = deg m n - count n T.
Proof.
  revert m next. induction T as [|x T IH]; intros m next Hle; cbn [foldl].
  { exists []. rewrite app_nil_r. split_and!; [done|constructor| |].
    - intros n. rewrite !elem_of_nil. tauto.
    - intros n. unfold count. simpl. rewrite len_nil. lia. }
  unfold release at 2 4. cbn [fst snd]. rewrite deg_insert, String.eqb_refl.
  set (m' := <[x := deg m x - 1]> m).
  assert (∀ n, deg m' n = deg m n - (if n =s x then 1 else 0)) as Hm'.
  { intros n. unfold m'. rewrite deg_insert. destruct (n =s x) eqn:E; bool_prop; subst; lia. }
  assert (∀ n, count n T ≤ deg m' n) as Hle'.
  { intros n. specialize (Hle n). rewrite count_cons in Hle. rewrite Hm'.
    destruct (n =s x); lia. }
  assert (∀ n, deg m' n - count n T = deg m n - count n (x :: T)) as Hdiff.
  { intros n. rewrite Hm', count_cons. destruct (n =s x); lia. }
  destruct (IH m' (if deg m x - 1 =? 0 then next ++ [x] else next) Hle') as (X & HX & Hnd & Hin & Hdeg).
  assert (∀ n, n ∈ x :: T ↔ n = x ∨ n ∈ T) as Hcons by (intros n; apply elem_of_cons).
  destruct (deg m x - 1 =? 0) eqn:Ez; bool_prop.
  - exists (x :: X). rewrite HX, <- app_assoc. split_and!; [done| | |].
    + constructor; [|done]. rewrite Hin. intros [Hx _]. apply count_elem in Hx.
      specialize (Hle' x). rewrite Hm', String.eqb_refl in Hle'. lia.
    + intros n. rewrite elem_of_cons, Hin, Hcons, Hm', count_cons.
      assert (deg m x = 1 + count x T) as Hx.
      { specialize (Hle' x). rewrite Hm', String.eqb_refl in Hle'.
        pose proof (count_nonneg x T). lia. }
      destruct (n =s x) eqn:E; bool_prop; [subst n; split; [intros _; auto|auto]|].
      split; [intros [?|[? ?]]; [done|]; split; [auto|lia]|].
      intros [[?|?] ?]; [done|]. right. split; [done|lia].
    + intros n. by rewrite Hdeg, Hdiff.
  - exists X. rewrite HX. split_and!; [done|done| |].
    + intros n. rewrite Hin, Hcons, Hm', count_cons.
      destruct (n =s x) eqn:E; bool_prop; [subst n|].
      * split; [intros [? ?]; split; [auto|lia]|]. intros [_ Hx]. split; [|lia].
        apply count_elem. pose proof (count_nonneg x T). lia.
      * split; [intros [? ?]; split; [auto|lia]|]. intros [[?|?] ?]; [done|]. split; [done|lia].
    + intros n. by rewrite Hdeg, Hdiff.
Qed.

Lemma one_of_app x l1 l2 : one_of x (l1 ++ l2) = (one_of x l1 || one_of x l2)%bool.
Proof. unfold one_of. apply existsb_app. Qed.

Lemma one_of_singleton x y : one_of x [y] = (x =s y).
Proof. unfold one_of. simpl. apply orb_false_r. Qed.

Lemma indeg_place E placed x n :
  x ∉ placed → indeg E placed n = count n (targets E x) + indeg E (placed ++ [x]) n.
Proof.
  intros Hx. induction E as [|[d m] E IH]; [done|].
  unfold indeg, targets in *. cbn [List.filter fst snd].
  rewrite one_of_app, one_of_singleton. destruct (d =s x) eqn:Ed; bool_prop.
  - subst d. apply one_of_false in Hx. rewrite Hx, fmap_cons, count_cons. cbn [snd]. rewrite (seqb_sym n m). simpl.
    rewrite andb_true_r, andb_false_r. destruct (m =s n); simpl; [rewrite len_cons|]; lia.
  - rewrite orb_false_r. destruct ((m =s n) && _)%bool; [rewrite !len_cons|]; lia.
Qed.

Lemma indeg_place_all E placed R n :
  NoDup R → (∀ x, x ∈ R → x ∉ placed) →
  indeg E placed n = count n (released E R) + indeg E (placed ++ R) n.
Proof.
  revert placed. induction R as [|x R IH]; intros placed Hnd Hdis.
  { rewrite app_nil_r. unfold released, count. simpl. rewrite len_nil. lia. }
  apply NoDup_cons in Hnd as [Hx Hnd]. unfold released. rewrite fmap_cons. simpl.
  fold (released E R). rewrite count_app, (indeg_place _ _ x) by (apply Hdis; left).
  rewrite (IH (placed ++ [x])); [|done|].
  - rewrite <- app_assoc. simpl. lia.
  - intros y Hy. rewrite elem_of_app, list_elem_of_singleton. intros [?|?].
    + by apply (Hdis y); [right|].
    + by subst.
Qed.

Lemma elem_of_targets E d n : n ∈ targets E d ↔ (d, n) ∈ E.
Proof.
  unfold targets. rewrite list_elem_of_fmap. split.
  - intros ([d' m] & -> & [Hin Hd]%list_elem_of_In%List.filter_In). simpl in *. bool_prop.
    subst. by apply list_elem_of_In.
  - intros Hin. exists (d, n). split; [done|]. apply list_elem_of_In, List.filter_In.
    split; [by apply list_elem_of_In|]. apply String.eqb_refl.
Qed.

Lemma elem_of_concat {A} (x : A) ls : x ∈ concat ls ↔ ∃ l, x ∈ l ∧ l ∈ ls.
Proof.
  rewrite list_elem_of_In, List.in_concat. setoid_rewrite list_elem_of_In. naive_solver.
Qed.

Lemma elem_of_released E R n : n ∈ released E R ↔ ∃ d, d ∈ R ∧ (d, n) ∈ E.
Proof.
  unfold released. rewrite elem_of_concat. setoid_rewrite list_elem_of_fmap. split.
  - intros (l & Hn & d & -> & Hd). exists d. by rewrite <- elem_of_targets.
  - intros (d & Hd & Hn). exists (targets E d). rewrite elem_of_targets. eauto.
Qed.

Section Levels.
Context (E : list (string * string)) (names : list string).
Hypothesis names_distinct : NoDup names.
Hypothesis edges_known : ∀ d n, (d, n) ∈ E → n ∈ names.

(** What the loop knows when it starts a level. *)
Definition level_inv (placed : list string) (m : gmap string Z) (ready : list string) : Prop :=
  (∀ n, deg m n = indeg E placed n) ∧
  ready = sort_strings (filter (placeable E placed) names) ∧
  NoDup placed ∧ (∀ n, n ∈ placed → n ∈ names ∧ ∀ d, (d, n) ∈ E → d ∈ placed).

Lemma ready_spec placed m ready n :
  level_inv placed m ready → n ∈ ready ↔ n ∈ names ∧ placeable E placed n.
Proof. intros (_ & -> & _). rewrite elem_of_sort_strings, list_elem_of_filter. tauto. Qed.

Lemma ready_NoDup placed m ready : level_inv placed m ready → NoDup ready.
Proof.
  intros (_ & -> & _). rewrite sort_strings_Permutation. by apply NoDup_filter.
Qed.

Lemma placed_NoDup placed m ready : level_inv placed m ready → NoDup (placed ++ ready).
Proof.
  intros Hinv. apply NoDup_app. split_and!; [apply Hinv| |by eapply ready_NoDup].
  intros x Hx [_ [Hno _]]%(ready_spec _ _ _ _ Hinv). done.
Qed.

Lemma level_step placed m ready :
  level_inv placed m ready →
  let st := foldl release (m, []) (released E ready) in
  level_inv (placed ++ ready) st.1 (sort_strings st.2).
Proof.
  intros Hinv. pose proof Hinv as (Hdeg & Hready & Hnd & Hclosed).
  pose proof (ready_NoDup _ _ _ Hinv) as Hrnd.
  assert (∀ x, x ∈ ready → x ∉ placed) as Hdis
    by (intros x [_ [? _]]%(ready_spec _ _ _ _ Hinv); done).
  assert (∀ n, indeg E placed n = count n (released E ready) + indeg E (placed ++ ready) n) as Hin
    by (intros; by apply indeg_place_all).
  destruct (foldl_release (released E ready) m []) as (X & HX & HXnd & HXin & HXdeg).
  { intros n. rewrite Hdeg, Hin. pose proof (len_nonneg
      (List.filter (λ e, ((e.2 =s n) && negb (one_of e.1 (placed ++ ready)))%bool) E)).
    unfold indeg. lia. }
  simpl. rewrite HX. simpl. split_and!.
  - intros n. rewrite HXdeg, Hdeg, Hin. lia.
  - apply sort_strings_proper. apply NoDup_Permutation; [done|by apply NoDup_filter|].
    intros n. rewrite HXin, Hdeg, Hin, list_elem_of_filter, elem_of_released. unfold placeable.
    assert (count n (released E ready) + indeg E (placed ++ ready) n = count n (released E ready) ↔
            indeg E (placed ++ ready) n = 0) as -> by lia.
    rewrite indeg_zero. split.
    + intros [(d & Hd & Hdn) Hall]. split; [|by eapply edges_known]. split; [|done].
      rewrite elem_of_app. intros [Hp|Hr].
      * apply (Hdis d Hd). by apply (Hclosed n Hp).
      * apply (Hdis d Hd). apply (ready_spec _ _ _ _ Hinv) in Hr as [_ [_ Hr]]. by apply Hr.
    + intros [[Hno Hall] Hn]. split; [|done]. rewrite elem_of_app in Hno.
      destruct (decide (placeable E placed n)) as [Hpl|Hpl].
      { exfalso. apply Hno. right. apply (ready_spec _ _ _ _ Hinv). done. }
      destruct (decide (Exists (λ e, e.2 = n ∧ e.1 ∉ placed) E)) as [He|He].
      * apply Exists_exists in He as ([d n'] & Hdn & Heq & Hd). simpl in *. subst.
        exists d. split; [|done]. specialize (Hall _ Hdn). rewrite elem_of_app in Hall. tauto.
      * exfalso. apply Hpl. split; [tauto|]. intros d Hdn. destruct (decide (d ∈ placed)); [done|].
        exfalso. apply He, Exists_exists. by exists (d, n).
  - by eapply placed_NoDup.
  - intros n. rewrite elem_of_app. intros [Hp|Hr].
    + destruct (Hclosed n Hp) as [? Hd]. split; [done|]. intros d ?. rewrite elem_of_app. auto.
    + apply (ready_spec _ _ _ _ Hinv) in Hr as [? [_ Hd]]. split; [done|].
      intros d ?. rewrite elem_of_app. auto.
Qed.

Lemma level_loop_ref fuel dependents placed m ready :
  (∀ d, adj dependents d = targets E d) →
  level_inv placed m ready → (length names < length placed + fuel)%nat →
  level_loop fuel dependents m ready = Some (ref_levels fuel E names placed).
Proof.
  intros Hadj. revert placed m ready. induction fuel as [|fuel IH]; intros placed m ready Hinv Hf.
  { exfalso. pose proof Hinv as (_ & _ & Hnd & Hcl).
    assert (length placed ≤ length names)%nat; [|lia].
    apply submseteq_length, NoDup_submseteq; [done|]. intros x Hx. by apply Hcl. }
  pose proof Hinv as (_ & Hr & _). simpl.
  destruct (filter (placeable E placed) names) as [|x l] eqn:Efil.
  { by rewrite Hr. }
  rewrite <- Hr. destruct ready as [|y ready'] eqn:Eready.
  { exfalso. symmetry in Hr. apply (f_equal length) in Hr.
    by rewrite (Permutation_length (sort_strings_Permutation _)) in Hr. }
  rewrite <- Eready in *. clear Eready.
  pose proof (level_step _ _ _ Hinv) as Hstep. simpl in Hstep.
  rewrite foldl_release_concat.
  replace (concat _) with (released E ready)
    by (unfold released; f_equal; apply list_fmap_ext; intros; by rewrite Hadj).
  destruct (foldl release (m, []) (released E ready)) as [m' next]. simpl in Hstep.
  rewrite (IH (placed ++ ready) m' (sort_strings next)); [done|done|].
  assert (1 ≤ length ready)%nat; [|rewrite length_app; lia].
  rewrite Hr, (Permutation_length (sort_strings_Permutation _)). simpl. lia.
Qed.
End Levels.

(** ** Properties of the reference levels *)

Section RefLevels.
Context (E : list (string * string)) (names : list string).
Hypothesis names_distinct : NoDup names.

Lemma elem_of_next placed n :
  n ∈ sort_strings (filter (placeable E placed) names) ↔ placeable E placed n ∧ n ∈ names.
Proof. by rewrite elem_of_sort_strings, list_elem_of_filter. Qed.

(** A level is the sorted list of what the levels before it make placeable. *)
Lemma ref_levels_lookup fuel placed k l :
  ref_levels fuel E names placed !! k = Some l →
  l = sort_strings (filter (placeable E
        (placed ++ concat (take k (ref_levels fuel E names placed)))) names) ∧ l ≠ [].
Proof.
  revert placed k. induction fuel as [|fuel IH]; intros placed k; [done|]. simpl.
  destruct (filter (placeable E placed) names) as [|x l0] eqn:Ef; [done|].
  destruct k as [|k]; simpl.
  - intros [= <-]. rewrite app_nil_r, Ef. split; [done|]. intros Hnil.
    apply (f_equal length) in Hnil. by rewrite (Permutation_length (sort_strings_Permutation _)) in Hnil.
  - intros Hl. destruct (IH _ _ Hl) as [-> ?]. split; [|done]. by rewrite <- app_assoc.
Qed.

Definition good_placed (placed : list string) : Prop := NoDup placed ∧ placed ⊆ names.

Lemma good_placed_next placed :
  good_placed placed →
  good_placed (placed ++ sort_strings (filter (placeable E placed) names)).
Proof.
  intros [Hnd Hsub]. split.
  - apply NoDup_app. split_and!; [done| |].
    + intros x Hx [[Hno _] _]%elem_of_next. done.
    + rewrite sort_strings_Permutation. by apply NoDup_filter.
  - intros x. rewrite elem_of_app, elem_of_next. intros [?|[_ ?]]; auto.
Qed.

Lemma good_placed_levels fuel placed :
  good_placed placed → good_placed (placed ++ concat (ref_levels fuel E names placed)).
Proof.
  revert placed. induction fuel as [|fuel IH]; intros placed Hg; simpl; [by rewrite app_nil_r|].
  destruct (filter (placeable E placed) names) as [|x l0] eqn:Ef; [by rewrite app_nil_r|].
  simpl. rewrite app_assoc. apply IH. rewrite <- Ef. by apply good_placed_next.
Qed.

(** With enough fuel the levels end because nothing more is placeable. *)
Lemma ref_levels_end fuel placed n :
  good_placed placed → (length names < length placed + fuel)%nat → n ∈ names →
  ¬ placeable E (placed ++ concat (ref_levels fuel E names placed)) n.
Proof.
  revert placed. induction fuel as [|fuel IH]; intros placed Hg Hf Hn.
  { exfalso. destruct Hg as [Hnd Hsub].
    assert (length placed ≤ length names)%nat; [|lia].
    by apply submseteq_length, NoDup_submseteq. }
  simpl. destruct (filter (placeable E placed) names) as [|x l0] eqn:Ef.
  - simpl. rewrite app_nil_r. intros Hp. apply (not_elem_of_nil n). rewrite <- Ef.
    by apply list_elem_of_filter.
  - simpl. rewrite app_assoc. apply IH; [|rewrite length_app|done].
    + rewrite <- Ef. by apply good_placed_next.
    + rewrite (Permutation_length (sort_strings_Permutation _)). simpl. lia.
Qed.

Definition levels : list (list string) := ref_levels (S (length names)) E names [].

Lemma levels_good : good_placed (concat levels).
Proof. apply (good_placed_levels _ []). split; [constructor|]. intros x Hx. by apply elem_of_nil in Hx. Qed.

Lemma levels_end n : n ∈ names → ¬ placeable E (concat levels) n.
Proof.
  apply (ref_levels_end _ []); [|simpl; lia]. split; [constructor|].
  intros x Hx. by apply elem_of_nil in Hx.
Qed.

Lemma levels_lookup k l n :
  levels !! k = Some l → n ∈ l ↔ placeable E (concat (take k levels)) n ∧ n ∈ names.
Proof. intros Hl. destruct (ref_levels_lookup _ [] _ _ Hl) as [-> _]. apply elem_of_next. Qed.

Lemma elem_of_take_levels (k : nat) (n : string) (ls : list (list string)) :
  n ∈ concat (take k ls) ↔ ∃ j l, (j < k)%nat ∧ ls !! j = Some l ∧ n ∈ l.
Proof.
  rewrite elem_of_concat. split.
  - intros (l & Hn & Hl). apply list_elem_of_lookup in Hl as [j Hj].
    apply lookup_take_Some in Hj as [? ?]. eauto.
  - intros (j & l & ? & Hj & Hn). exists l. split; [done|].
    apply (list_elem_of_lookup_2 _ j). by rewrite lookup_take_lt.
Qed.

(** Where a name is and why: its dependencies are before it, and one of them
    in the level just before. *)
Lemma levels_tight k l n :
  levels !! k = Some l → n ∈ l →
  (∀ d, (d, n) ∈ E → ∃ j l', (j < k)%nat ∧ levels !! j = Some l' ∧ d ∈ l') ∧
  (k ≠ 0%nat → ∃ d l', (d, n) ∈ E ∧ levels !! (k - 1)%nat = Some l' ∧ d ∈ l').
Proof.
  intros Hl Hn. apply (levels_lookup _ _ _ Hl) in Hn as [[Hno Hd] Hin]. split.
  - intros d Hdn. by apply elem_of_take_levels, Hd.
  - intros Hk. destruct k as [|k]; [done|]. simpl. rewrite Nat.sub_0_r. clear Hk.
    assert (is_Some (levels !! k)) as [l' Hl'].
    { apply lookup_lt_is_Some. apply lookup_lt_Some in Hl. lia. }
    rewrite (take_S_r _ _ _ Hl'), concat_app in Hno, Hd. simpl in *. rewrite app_nil_r in *.
    destruct (decide (Exists (λ e, e.2 = n ∧ e.1 ∈ l') E)) as [He|He].
    { apply Exists_exists in He as ([d n'] & Hdn & <- & Hdl). eauto. }
    exfalso. apply Hno. rewrite elem_of_app. right. apply (levels_lookup _ _ _ Hl').
    split; [|done]. split; [by intros ?; apply Hno; rewrite elem_of_app; left|].
    intros d Hdn. specialize (Hd d Hdn). rewrite elem_of_app in Hd. destruct Hd as [?|Hdl]; [done|].
    exfalso. apply He, Exists_exists. by exists (d, n).
Qed.

Fixpoint level_of (ls : list (list string)) (n : string) : nat :=
  match ls with
  | [] => 0
  | l :: ls => if one_of n l then 0 else S (level_of ls n)
  end.

Lemma level_of_le ls j l n : ls !! j = Some l → n ∈ l → (level_of ls n ≤ j)%nat.
Proof.
  revert j. induction ls as [|l0 ls IH]; intros j Hj Hn; [done|]. simpl.
  destruct (one_of n l0) eqn:Eo; [lia|]. destruct j as [|j]; simplify_eq/=.
  - by apply one_of_false in Eo.
  - apply le_n_S. eauto.
Qed.

Lemma level_of_ge ls k n :
  n ∉ concat (take k ls) → (k ≤ length ls)%nat → (k ≤ level_of ls n)%nat.
Proof.
  revert k. induction ls as [|l0 ls IH]; intros k Hn Hk; [simpl in *; lia|].
  destruct k as [|k]; [lia|]. simpl in *. rewrite elem_of_app in Hn.
  destruct (one_of n l0) eqn:Eo; bool_prop; [tauto|]. apply le_n_S, IH; [tauto|lia].
Qed.

(** The names are all placed exactly when the edges can be ranked. *)
Lemma levels_complete :
  (∀ d n, (d, n) ∈ E → d ∈ names ∧ n ∈ names) →
  (length names ≤ length (concat levels))%nat ↔
  ∃ rank : string → nat, ∀ d n, (d, n) ∈ E → (rank d < rank n)%nat.
Proof.
  intros Hk. destruct levels_good as [Hnd Hsub]. split.
  - intros Hlen. exists (level_of levels). intros d n Hdn.
    assert (n ∈ concat levels) as Hn.
    { assert (concat levels ≡ₚ names) as Hp.
      { apply submseteq_length_Permutation; [by apply NoDup_submseteq|done]. }
      rewrite Hp. by apply (Hk d). }
    apply elem_of_concat in Hn as (l & Hnl & Hll).
    apply list_elem_of_lookup in Hll as [k Hl]. rename Hnl into Hn.
    destruct (proj1 (levels_tight _ _ _ Hl Hn) _ Hdn) as (j & l' & Hj & Hl' & Hd).
    pose proof (level_of_le _ _ _ _ Hl' Hd).
    destruct (proj1 (levels_lookup _ _ _ Hl) Hn) as [[Hno _] _].
    pose proof (level_of_ge _ _ _ Hno). apply lookup_lt_Some in Hl. lia.
  - intros [rank Hrank]. apply submseteq_length, NoDup_submseteq; [done|].
    intros n Hn. remember (rank n) as r eqn:Hr. revert n Hr Hn.
    induction r as [r IH] using lt_wf_ind. intros n -> Hn.
    destruct (decide (n ∈ concat levels)); [done|]. exfalso.
    apply (levels_end n Hn). split; [done|]. intros d Hdn.
    by eapply (IH (rank d)); [apply Hrank| |apply (Hk d n)].
Qed.
End RefLevels.

(** ** What the code computes *)

Definition all_known (names : list string) (deps : graph) : Prop :=
  Forall (λ e, e.1 ∈ names) (edges names deps).

Lemma edges_target names deps d n : (d, n) ∈ edges names deps → n ∈ names.
Proof.
  unfold edges. rewrite elem_of_concat. intros (l & Hin & Hl).
  apply list_elem_of_fmap in Hl as ([name l'] & -> & _).
  destruct (one_of name names) eqn:Eo; [|by apply elem_of_nil in Hin]. bool_prop.
  by apply list_elem_of_fmap in Hin as (? & [= -> ->] & _).
Qed.

Lemma deg_zeros (names : list string) n : deg (list_to_map ((λ name, (name, 0)) <$> names)) n = 0.
Proof.
  unfold deg. destruct (list_to_map _ !! n) as [x|] eqn:El; [|done].
  apply elem_of_list_to_map_2, list_elem_of_fmap in El as (? & [= _ ->] & _). done.
Qed.

Lemma filter_ext_dec {A} (P : A → bool) (Q : A → Prop) `{!∀ x, Decision (Q x)} l :
  (∀ x, x ∈ l → P x = true ↔ Q x) → List.filter P l = filter Q l.
Proof.
  induction l as [|x l IH]; intros HPQ; [done|]. simpl. rewrite filter_cons.
  rewrite <- IH by (intros y Hy; apply HPQ; by right).
  assert (P x = true ↔ Q x) as Hx by (apply HPQ; left).
  destruct (P x) eqn:Ep; [rewrite decide_True|rewrite decide_False]; try done; try tauto.
  intros Hq. apply Hx in Hq. congruence.
Qed.

(** [TopoLevels] is the reference definition, guarded. *)
Lemma TopoLevels_Ok names deps ls :
  NoDup names →
  TopoLevels names deps = Ok ls ↔
  all_known names deps ∧ ls = levels (edges names deps) names ∧
  (length names ≤ length (concat ls))%nat.
Proof.
  intros Hnd. unfold TopoLevels. rewrite bind_Ok. setoid_rewrite add_all_deps_Ok.
  set (E := edges names deps). set (g0 := (list_to_map _, ∅)).
  pose proof (λ n, proj1 (build_spec E g0 n)) as Hdeg.
  pose proof (λ n, proj2 (build_spec E g0 n)) as Hadj.
  destruct (foldl add_edge_of g0 E) as [m dependents] eqn:Hg. simpl in Hdeg, Hadj.
  assert (∀ n, deg m n = indeg E [] n) as Hm.
  { intros n. rewrite Hdeg, deg_zeros, indeg_nil. done. }
  assert (level_inv E names [] m (sort_strings (List.filter (λ name, deg m name =? 0) names))) as Hinv.
  { split_and!; [done| |constructor|by intros n ?%elem_of_nil]. f_equal. apply filter_ext_dec.
    intros x _. rewrite Hm, Z.eqb_eq, indeg_zero. unfold placeable.
    split; [intros ?; split; [apply not_elem_of_nil|done]|by intros [_ ?]]. }
  assert (level_loop (S (length names)) dependents m
    (sort_strings (List.filter (λ name, deg m name =? 0) names)) = Some (levels E names)) as Hloop.
  { eapply level_loop_ref; [done| |done|exact Hinv|simpl; lia]. intros. by eapply edges_target. }
  unfold all_known. fold E. split.
  - intros ([m' d'] & [Hk Heq] & H). injection Heq as -> ->.
    revert H. cbv zeta. rewrite Hloop. simpl. destruct (_ <? _) eqn:El; [done|]. bool_prop.
    intros [= <-]. unfold len in El. split_and!; [done|done|lia].
  - intros (Hk & -> & Hlen). exists (m, dependents). split; [done|].
    cbv zeta. rewrite Hloop. simpl. replace (_ <? _) with false; [done|].
    symmetry. apply Z.ltb_ge. unfold len. lia.
Qed.

(** On success every service is placed exactly once, each level is sorted,
    the dependencies of a service are in earlier levels, and no service could
    be earlier: one of its dependencies is in the level just before. *)
Theorem levels_respect_dependencies names deps ls :
  NoDup names → TopoLevels names deps = Ok ls →
  concat ls ≡ₚ names ∧ Forall (StronglySorted String.le) ls ∧
  ∀ k l n, ls !! k = Some l → n ∈ l →
    (∀ d, (d, n) ∈ edges names deps → ∃ j l', (j < k)%nat ∧ ls !! j = Some l' ∧ d ∈ l') ∧
    (k ≠ 0%nat → ∃ d l', (d, n) ∈ edges names deps ∧ ls !! (k - 1)%nat = Some l' ∧ d ∈ l').
Proof.
  intros Hnd (Hk & -> & Hlen)%TopoLevels_Ok; [|done].
  destruct (levels_good (edges names deps) names Hnd) as [Hlnd Hsub]. split_and!.
  - apply submseteq_length_Permutation; [by apply NoDup_submseteq|done].
  - apply Forall_forall. intros l Hl. apply list_elem_of_lookup in Hl as [k Hl].
    destruct (ref_levels_lookup _ _ _ [] _ _ Hl) as [-> _]. apply sort_strings_Sorted.
  - intros k l n. apply levels_tight.
Qed.

(** C13: the call succeeds exactly when every dependency is a known service and
    the dependencies are acyclic (they can be ranked). *)
Theorem levels_exist_iff_acyclic names deps :
  NoDup names →
  is_ok (TopoLevels names deps) = true ↔
  all_known names deps ∧
  ∃ rank : string → nat, ∀ d n, (d, n) ∈ edges names deps → (rank d < rank n)%nat.
Proof.
  intros Hnd. rewrite is_ok_true. setoid_rewrite TopoLevels_Ok; [|done]. split.
  - intros (ls & Hk & -> & Hlen). split; [done|]. apply (levels_complete _ names); [done| |done].
    intros d n Hdn. split; [|by eapply edges_target].
    unfold all_known in Hk. rewrite Forall_forall in Hk. by apply (Hk (d, n)).
  - intros [Hk Hrank]. eexists. split_and!; [done|done|].
    apply levels_complete; [done| |done]. intros d n Hdn. split; [|by eapply edges_target].
    unfold all_known in Hk. rewrite Forall_forall in Hk. by apply (Hk (d, n)).
Qed.

#[export] Instance edges_proper names : Proper ((≡ₚ) ==> (≡ₚ)) (edges names).
Proof. intros d d' Hp. unfold edges. by rewrite Hp. Qed.

(** *** The result does not depend on the order of the inputs *)

Lemma ref_levels_ext fuel E E' names names' placed :
  (∀ e, e ∈ E ↔ e ∈ E') → names ≡ₚ names' →
  ref_levels fuel E names placed = ref_levels fuel E' names' placed.
Proof.
  intros HE Hn. revert placed. induction fuel as [|fuel IH]; intros placed; [done|]. simpl.
  assert (filter (placeable E placed) names ≡ₚ filter (placeable E' placed) names') as Hf.
  { rewrite <- Hn. rewrite (list_filter_iff _ (placeable E' placed)); [done|].
    intros x. unfold placeable. by setoid_rewrite HE. }
  destruct (filter (placeable E placed) names) as [|x l] eqn:E1.
  - symmetry in Hf. by apply Permutation_nil_r in Hf as ->.
  - rewrite (sort_strings_proper _ _ Hf).
    destruct (filter (placeable E' placed) names') as [|x' l'] eqn:E2;
      [by apply Permutation_nil_r in Hf|]. f_equal. apply IH.
Qed.

Lemma elem_of_edges names names' deps deps' e :
  names ≡ₚ names' → deps ≡ₚ deps' → e ∈ edges names deps ↔ e ∈ edges names' deps'.
Proof.
  intros Hn Hd. rewrite Hd. unfold edges. rewrite !elem_of_concat.
  assert (∀ x, one_of x names = one_of x names') as Ho.
  { intros x. apply eq_true_iff_eq. rewrite !one_of_true. by rewrite Hn. }
  setoid_rewrite list_elem_of_fmap. split; intros (l & Hin & [name l'] & -> & Hl);
    (eexists; split; [|exists (name, l'); split; [reflexivity|exact Hl]]);
    cbn beta iota in *; [by rewrite <- Ho|by rewrite Ho].
Qed.

(** The levels are deterministic: they do not depend on the iteration order
    of the dependency map, nor on the order of the names. *)
Theorem levels_are_deterministic names names' deps deps' ls :
  NoDup names → names ≡ₚ names' → deps ≡ₚ deps' →
  TopoLevels names deps = Ok ls → TopoLevels names' deps' = Ok ls.
Proof.
  intros Hnd Hn Hd (Hk & -> & Hlen)%TopoLevels_Ok; [|done].
  assert (NoDup names') as Hnd' by (by rewrite <- Hn).
  assert (∀ e, e ∈ edges names deps ↔ e ∈ edges names' deps') as He
    by (intros; by apply elem_of_edges).
  assert (levels (edges names deps) names = levels (edges names' deps') names') as Heq.
  { unfold levels. rewrite (Permutation_length Hn). by apply ref_levels_ext. }
  apply TopoLevels_Ok; [done|]. rewrite <- Heq, <- (Permutation_length Hn). split_and!; [|done|done].
  unfold all_known in *. rewrite Forall_forall in *. intros e Hin.
  rewrite <- Hn. apply Hk. by apply He.
Qed.

(** ** Ports *)

(* src: internal/workspace/workspace.go Service *)
Record Service := mkService {
  S_Name : string; S_Path : string; S_Port : Z; S_Strategy : string; S_Replicas : Z;
  S_DependsOn : list string
}.

Definition with_port (s : Service) (port : Z) : Service :=
  {| S_Name := S_Name s; S_Path := S_Path s; S_Port := port; S_Strategy := S_Strategy s;
     S_Replicas := S_Replicas s; S_DependsOn := S_DependsOn s |}.

(* src: internal/workspace/workspace.go Workspace.Names *)
Definition Names (services : list Service) : list string := S_Name <$> services.

(** The map in the order it was built; service names are distinct. *)
(* src: internal/workspace/workspace.go Workspace.Deps *)
Definition Deps (services : list Service) : graph :=
  (λ s, (S_Name s, S_DependsOn s)) <$> services.

(* src: internal/workspace/workspace.go Workspace.TopoLevels *)
Definition Workspace_TopoLevels (services : list Service) : res (list (list string)) :=
  TopoLevels (Names services) (Deps services).

(** The empty string is the answer [no clash]. *)
(* src: internal/workspace/graph.go:149-159 duplicatePort *)
Fixpoint find_clash (owner : gmap Z string) (services : list Service) : string :=
  match services with
  | [] => ""
  | s :: services =>
      if S_Port s =? 0 then find_clash owner services
      else match owner !! S_Port s with
      | Some prev => prev +:+ " and " +:+ S_Name s +:+ " both declare port " +:+ Itoa (S_Port s)
      | None => find_clash (<[S_Port s := S_Name s]> owner) services
      end
  end.

(* src: internal/workspace/graph.go duplicatePort *)
Definition duplicatePort (services : list Service) : string := find_clash ∅ services.

(* src: internal/port/port.go Validate *)
Definition Validate (port : Z) : res unit :=
  fail_if ((port <=? 0) || (65535 <? port))%bool
    (New CodeValidation ("invalid port " +:+ Itoa port +:+ ": must be between 1 and 65535")).

(** [for used[candidate] { candidate++; if candidate > 65535 { return err } }]. *)
(* src: internal/workspace/workspace.go:298-307 AssignPorts *)
Fixpoint skip_used (fuel : nat) (used : gset Z) (candidate : Z) : option Z :=
  if bool_decide (candidate ∈ used) then
    match fuel with
    | O => None
    | S fuel => if 65535 <? candidate + 1 then None else skip_used fuel used (candidate + 1)
    end
  else Some candidate.

(** The candidate grows at each turn up to 65535 ([skip_used_spec]). *)
(* src: internal/workspace/workspace.go:298-307 AssignPorts *)
Definition next_port (used : gset Z) (candidate : Z) : option Z :=
  skip_used (Z.to_nat (65536 - candidate)) used candidate.

(** The pointers of [unassigned] are positions in the list of services. *)
(* src: internal/workspace/workspace.go:296-312 AssignPorts *)
Fixpoint assign_loop (base : Z) (unassigned : list (nat * Service)) (used : gset Z)
    (candidate : Z) (services : list Service) : res unit * list Service :=
  match unassigned with
  | [] => (Ok tt, services)
  | (i, s) :: unassigned =>
      match next_port used candidate with
      | None =>
          (Err (New CodeValidation
                  ("workspace ran out of ports above base " +:+ Itoa base +:+
                   " while assigning " +:+ Quote (S_Name s))), services)
      | Some candidate =>
          assign_loop base unassigned ({[candidate]} ∪ used) candidate
            (<[i := with_port s candidate]> services)
      end
  end.

(** The ports recorded by an earlier run, the last entry of a name first. *)
(* src: internal/workspace/workspace.go:270-277 AssignPorts *)
Definition recorded_ports (state : list (string * Z)) : gmap string Z :=
  foldl (λ m '(name, port), if 0 <? port then <[name := port]> m else m) ∅ state.

(* src: internal/workspace/workspace.go:278-282 AssignPorts *)
Definition use_recorded (recorded : gmap string Z) (s : Service) : Service :=
  if S_Port s =? 0 then with_port s (default 0 (recorded !! S_Name s)) else s.

(* src: internal/workspace/workspace.go:295-295 AssignPorts *)
Definition by_name (a b : nat * Service) : bool := String.ltb (S_Name a.2) (S_Name b.2).

(** [state]: the services of the recorded workspace state, empty when there is
    none. *)
(* src: internal/workspace/workspace.go AssignPorts *)
Definition AssignPorts (state : res (list (string * Z))) (base : Z) (services : list Service)
  : res unit * list Service :=
  match Validate base with
  | Err e => (Err (wrap CodeConfiguration ("invalid workspace port base " +:+ Itoa base) e), services)
  | Ok _ =>
      match state with
      | Err e => (Err e, services)
      | Ok state =>
          let services := use_recorded (recorded_ports state) <$> services in
          let used := list_to_set (List.filter (λ p, negb (p =? 0)) (S_Port <$> services)) in
          let unassigned :=
            stable_sort_by by_name
              (List.filter (λ x, S_Port x.2 =? 0) (imap pair services)) in
          assign_loop base unassigned used base services
      end
  end.

Lemma skip_used_spec fuel used c :
  c ≤ 65535 → 65536 - c ≤ Z.of_nat fuel →
  match skip_used fuel used c with
  | Some p => c ≤ p ≤ 65535 ∧ (p ∉ used) ∧ ∀ q, c ≤ q < p → q ∈ used
  | None => ∀ q, c ≤ q ≤ 65535 → q ∈ used
  end.
Proof.
  revert c. induction fuel as [|fuel IH]; intros c Hc Hf; [lia|]. simpl.
  case_bool_decide as Hu; [|split_and!; [lia|lia|done|lia]].
  destruct (65535 <? c + 1) eqn:E; bool_prop.
  { intros q Hq. by replace q with c by lia. }
  specialize (IH (c + 1) ltac:(lia) ltac:(lia)).
  assert (∀ q, c ≤ q → c + 1 ≤ q ∨ q = c) as Hsplit by lia.
  destruct (skip_used fuel used (c + 1)) as [p|].
  - destruct IH as (? & ? & Hq). split_and!; [lia|lia|done|].
    intros q [Hq1 Hq2]. destruct (Hsplit q Hq1) as [?| ->]; [apply Hq; lia|done].
  - intros q [Hq1 Hq2]. destruct (Hsplit q Hq1) as [?| ->]; [apply IH; lia|done].
Qed.

Section Assign.
Context (base : Z).

(** [used] is the set of the ports in use, all below [c] above [base] among
    them, and the positions to fill hold services without a port. *)
Definition assign_inv (todo : list (nat * Service)) (used : gset Z) (c : Z)
    (services : list Service) : Prop :=
  base ≤ c ≤ 65535 ∧ 0 < base ∧ NoDup todo.*1 ∧
  (∀ i s, (i, s) ∈ todo → services !! i = Some s ∧ S_Port s = 0) ∧
  (∀ p, p ≠ 0 → p ∈ used ↔ ∃ j s, services !! j = Some s ∧ S_Port s = p) ∧
  (∀ q, base ≤ q < c → q ∈ used).

Lemma assign_inv_next i s todo used c p services :
  assign_inv ((i, s) :: todo) used c services →
  c ≤ p ≤ 65535 → (∀ q, c ≤ q < p → q ∈ used) →
  assign_inv todo ({[p]} ∪ used) p (<[i := with_port s p]> services).
Proof.
  intros (Hc & Hb & Hnd & Htodo & Hused & Hlow) Hp Hskip.
  rewrite fmap_cons in Hnd. apply NoDup_cons in Hnd as [Hi Hnd].
  destruct (Htodo i s) as [Hs Hs0]; [left|].
  split_and!; [lia|lia|done|done| | |].
  - intros j s' Hin. destruct (Htodo j s') as [Hj Hj0]; [by right|]. split; [|done].
    rewrite list_lookup_insert_ne; [done|]. intros ->. apply Hi. apply list_elem_of_fmap.
    by exists (j, s').
  - intros q Hq. rewrite elem_of_union, elem_of_singleton, Hused by done. split.
    + intros [->|(j & s' & Hj & <-)].
      * exists i, (with_port s p). split; [|done]. rewrite list_lookup_insert_eq; [done|].
        by eapply lookup_lt_Some.
      * exists j, s'. split; [|done]. rewrite list_lookup_insert_ne; [done|]. intros ->. congruence.
    + intros (j & s' & Hj & <-). destruct (decide (j = i)) as [->|Hne].
      * rewrite list_lookup_insert_eq in Hj by (by eapply lookup_lt_Some). simplify_eq. by left.
      * rewrite list_lookup_insert_ne in Hj by done. right. eauto.
  - intros q Hq. rewrite elem_of_union, elem_of_singleton.
    destruct (decide (q < c)); [right; apply Hlow; lia|].
    destruct (decide (q = p)); [by left|]. right. apply Hskip. lia.
Qed.

Lemma assign_loop_spec todo used c services r services' :
  assign_inv todo used c services →
  assign_loop base todo used c services = (r, services') →
  (∀ j, j ∉ todo.*1 → services' !! j = services !! j) ∧
  match r with
  | Ok _ => ∀ i s, (i, s) ∈ todo → ∃ p, services' !! i = Some (with_port s p) ∧
      base ≤ p ≤ 65535 ∧ (p ∉ used) ∧
      ∀ j s', services' !! j = Some s' → S_Port s' = p → j = i
  | Err _ => ∀ q, base ≤ q ≤ 65535 → ∃ j s, services' !! j = Some s ∧ S_Port s = q
  end.
Proof.
  revert used c services. induction todo as [|[i s] todo IH]; intros used c services Hinv; cbn [assign_loop].
  { intros [= <- <-]. split; [done|]. by intros i s ?%elem_of_nil. }
  pose proof Hinv as ((Hc1 & Hc2) & Hb & Hnd & Htodo & Hused & Hlow).
  unfold next_port. pose proof (skip_used_spec (Z.to_nat (65536 - c)) used c Hc2 ltac:(lia)) as Hskip.
  destruct (skip_used _ used c) as [p|]; cycle 1.
  { intros [= <- <-]. split; [done|]. intros q Hq. apply Hused; [lia|].
    destruct (decide (q < c)); [apply Hlow|apply Hskip]; lia. }
  destruct Hskip as (Hp & Hpu & Hq). intros Hloop.
  pose proof (assign_inv_next _ _ _ _ _ p _ Hinv Hp Hq) as Hinv'.
  destruct (IH _ _ _ Hinv' Hloop) as [Hsame Hres].
  rewrite fmap_cons in Hnd. apply NoDup_cons in Hnd as [Hi Hnd].
  destruct (Htodo i s) as [Hs Hs0]; [left|].
  assert (services' !! i = Some (with_port s p)) as Hi'.
  { rewrite Hsame by done. apply list_lookup_insert_eq. by eapply lookup_lt_Some. }
  split.
  { intros j Hj. rewrite fmap_cons, not_elem_of_cons in Hj. destruct Hj as [Hji Hj].
    rewrite Hsame by done. by rewrite list_lookup_insert_ne. }
  destruct r as [u|e]; [|done]. intros j s' [[= -> ->]|Hj]%elem_of_cons.
  - exists p. split_and!; [done|lia|lia|done|]. intros k s' Hk Hkp.
    destruct (decide (k = i)) as [|Hne]; [done|].
    destruct (decide (k ∈ todo.*1)) as [Hin|Hout].
    + apply list_elem_of_fmap in Hin as ([k' t] & -> & Hin).
      destruct (Hres _ _ Hin) as (p' & Hk' & _ & Hp' & _). simpl in Hk. simplify_eq. simpl in *.
      exfalso. apply Hp', elem_of_union_l. by apply elem_of_singleton.
    + rewrite Hsame, list_lookup_insert_ne in Hk by done. exfalso. apply Hpu, Hused; [lia|]. eauto.
  - destruct (Hres _ _ Hj) as (p' & ? & ? & Hp' & ?). exists p'. split_and!; [done|lia|lia| |done].
    intros ?. by apply Hp', elem_of_union_r.
Qed.
End Assign.

Lemma elem_of_unassigned (services : list Service) i s :
  (i, s) ∈ stable_sort_by by_name (List.filter (λ x, S_Port x.2 =? 0) (imap pair services)) ↔
  services !! i = Some s ∧ S_Port s = 0.
Proof.
  rewrite elem_of_stable_sort, list_elem_of_In, List.filter_In, <- list_elem_of_In. simpl.
  rewrite Z.eqb_eq, elem_of_lookup_imap. naive_solver.
Qed.

Lemma unassigned_NoDup (services : list Service) :
  NoDup (stable_sort_by by_name (List.filter (λ x, S_Port x.2 =? 0) (imap pair services))).*1.
Proof.
  rewrite stable_sort_by_Permutation.
  assert (NoDup (imap pair services).*1) as Hnd.
  { rewrite fmap_imap. rewrite (imap_ext _ (λ i _, i)) by done.
    replace (imap (λ i _, i) services) with (seq 0 (length services)); [apply NoDup_seq|].
    apply list_eq. intros i. rewrite list_lookup_imap.
    destruct (services !! i) as [s|] eqn:Hs; simpl.
    - apply lookup_seq. split; [lia|by eapply lookup_lt_Some].
    - apply lookup_ge_None_2. rewrite length_seq. by apply lookup_ge_None. }
  revert Hnd. generalize (imap pair services). induction l as [|[i s] l IH]; [done|].
  rewrite fmap_cons. intros [Hi Hnd]%NoDup_cons. simpl. destruct (S_Port s =? 0); [|by apply IH].
  rewrite fmap_cons. apply NoDup_cons. split; [|by apply IH].
  intros (x & Hx & Hin)%list_elem_of_fmap. apply Hi. simpl in Hx. subst i.
  apply list_elem_of_In, List.filter_In in Hin as [Hin _]. apply list_elem_of_fmap.
  exists x. split; [done|by apply list_elem_of_In].
Qed.

Lemma started_inv base services :
  Validate base = Ok tt →
  assign_inv base
    (stable_sort_by by_name (List.filter (λ x, S_Port x.2 =? 0) (imap pair services)))
    (list_to_set (List.filter (λ p, negb (p =? 0)) (S_Port <$> services))) base services.
Proof.
  intros Hv%fail_if_Ok. bool_prop. split_and!; [lia|lia|lia|apply unassigned_NoDup| | |lia].
  - intros i s. apply elem_of_unassigned.
  - intros p Hp. rewrite elem_of_list_to_set, list_elem_of_In, List.filter_In, <- list_elem_of_In.
    rewrite list_elem_of_fmap. split.
    + intros [(s & -> & Hs) _]. apply list_elem_of_lookup in Hs as [j Hj]. eauto.
    + intros (j & s & Hj & <-). split; [|by apply negb_true_iff, Z.eqb_neq].
      exists s. split; [done|]. by eapply list_elem_of_lookup_2.
Qed.

(** Ports are assigned without clashes.  Services with an explicit or a
    recorded port keep it; every other service gets a port in range that no
    other service of the workspace has; and with a readable state the
    assignment fails only on an invalid base or when every port from the base
    up is in use.  (A recorded port is not compared with the explicit ones:
    [recorded_port_clashes].) *)
Theorem assigned_ports_are_free state base services r services' :
  AssignPorts (Ok state) base services = (r, services') →
  let started := use_recorded (recorded_ports state) <$> services in
  match r with
  | Ok _ => ∀ i s, started !! i = Some s →
      if S_Port s =? 0 then
        ∃ p, services' !! i = Some (with_port s p) ∧ base ≤ p ≤ 65535 ∧
          ∀ j s', services' !! j = Some s' → S_Port s' = p → j = i
      else services' !! i = Some s
  | Err _ => Validate base ≠ Ok tt ∨
      ∀ q, base ≤ q ≤ 65535 → ∃ j s, services' !! j = Some s ∧ S_Port s = q
  end.
Proof.
  unfold AssignPorts. destruct (Validate base) as [[]|e] eqn:Hv; [|intros [= <- <-]; by left].
  set (started := use_recorded _ <$> services). intros Hloop. cbv zeta.
  destruct (assign_loop_spec _ _ _ _ _ _ _ (started_inv base started Hv) Hloop) as [Hsame Hres].
  destruct r as [u|e]; [|by right]. intros i s Hs. destruct (S_Port s =? 0) eqn:Hp; bool_prop.
  - destruct (Hres i s) as (p & ? & ? & _ & ?); [by apply elem_of_unassigned|]. by exists p.
  - rewrite Hsame; [done|]. intros ([i' s'] & -> & Hin)%list_elem_of_fmap.
    apply elem_of_unassigned in Hin as [Hin ?]. simpl in Hs. congruence.
Qed.

(** An explicit clash is always reported, and only a clash is. *)
Theorem duplicate_port_is_exact services :
  duplicatePort services = "" ↔
  NoDup (List.filter (λ p, negb (p =? 0)) (S_Port <$> services)).
Proof.
  unfold duplicatePort.
  assert (∀ owner, find_clash owner services = "" ↔
    NoDup (List.filter (λ p, negb (p =? 0)) (S_Port <$> services)) ∧
    ∀ s, s ∈ services → S_Port s ≠ 0 → owner !! S_Port s = None) as H.
  { induction services as [|s services IH]; intros owner; simpl.
    { split; [intros _; split; [constructor|by intros s ?%elem_of_nil]|done]. }
    destruct (S_Port s =? 0) eqn:Hp; bool_prop; simpl.
    - rewrite IH. split; intros [? Hall]; (split; [done|]); intros s'.
      + intros [->|?]%elem_of_cons; [done|auto].
      + intros ?. apply Hall. by right.
    - destruct (owner !! S_Port s) as [prev|] eqn:Ho.
      + split; [|intros [_ Hall]; rewrite (Hall s) in Ho; [done|left|done]].
        intros Heq. exfalso. apply (f_equal String.length) in Heq. rewrite !length_sapp in Heq.
        simpl in Heq. lia.
      + rewrite IH, NoDup_cons, list_elem_of_In, List.filter_In, <- list_elem_of_In.
        setoid_rewrite elem_of_cons. split.
        * intros [Hnd Hall]. split_and!; [|done|].
          -- intros [Hin _]. apply list_elem_of_fmap in Hin as (s' & Heq & Hin).
             specialize (Hall s' Hin). rewrite <- Heq, lookup_insert_eq in Hall.
             by specialize (Hall Hp).
          -- intros s' [->|Hin] Hne; [done|]. specialize (Hall s' Hin Hne).
             by apply lookup_insert_None in Hall as [? _].
        * intros [[Hno Hnd] Hall]. split; [done|]. intros s' Hin Hne.
          apply lookup_insert_None. split; [by apply Hall; [right|]|].
          intros Heq. apply Hno. split; [|by apply negb_true_iff, Z.eqb_neq].
          apply list_elem_of_fmap. by exists s'. }
  rewrite H. split; [by intros [? _]|]. intros ?. split; [done|]. intros. apply lookup_empty.
Qed.

(** ** Samples *)

Module WorkspaceSamples.
Definition svc (name : string) (port : Z) (deps : list string) : Service :=
  mkService name ("/w/" +:+ name) port "" 0 deps.

Definition mesh : list Service :=
  [svc "auth" 0 ["db"]; svc "db" 0 []; svc "gateway" 8080 ["auth"; "orders"];
   svc "orders" 0 ["db"; "auth"]].

Example mesh_levels :
  Workspace_TopoLevels mesh = Ok [["db"]; ["auth"]; ["orders"]; ["gateway"]].
Proof. by vm_compute. Qed.

(** The cycle is between [b] and [c]; the message also names [a], which nothing
    depends on. *)
Definition tail_into_cycle : graph := [("a", ["b"]); ("b", ["c"]); ("c", ["b"])].

Example reported_cycle_has_a_stranger :
  cyclePath ["a"; "b"; "c"] (list_to_map tail_into_cycle) = ["a"; "b"; "c"] ∧
  "a" ∉ (edges ["a"; "b"; "c"] tail_into_cycle).*1.
Proof. split; [by vm_compute|]. apply (bool_decide_unpack _). by vm_compute. Qed.

(** [web] got 8080 in an earlier run; now [api] declares it. *)
Example recorded_port_clashes :
  S_Port <$> (AssignPorts (Ok [("web", 8080)]) 8080 [svc "api" 8080 []; svc "web" 0 []]).2 =
  [8080; 8080].
Proof. by vm_compute. Qed.

Lemma mesh_distinct : NoDup (Names mesh).
Proof. apply (bool_decide_unpack _). by vm_compute. Qed.
End WorkspaceSamples.

Lemma levels_respect_dependencies_witness :
  concat [["db"]; ["auth"]; ["orders"]; ["gateway"]] ≡ₚ Names WorkspaceSamples.mesh.
Proof.
  refine (proj1 (levels_respect_dependencies (Names WorkspaceSamples.mesh)
    (Deps WorkspaceSamples.mesh) _ WorkspaceSamples.mesh_distinct _)).
  by vm_compute.
Defined.

Lemma levels_exist_iff_acyclic_witness :
  ¬ ∃ rank : string → nat,
    ∀ d n, (d, n) ∈ edges ["a"; "b"; "c"] WorkspaceSamples.tail_into_cycle → (rank d < rank n)%nat.
Proof.
  assert (NoDup ["a"; "b"; "c"]) as Hnd by (apply (bool_decide_unpack _); by vm_compute).
  intros Hrank.
  assert (is_ok (TopoLevels ["a"; "b"; "c"] WorkspaceSamples.tail_into_cycle) = true) as Hok.
  { apply (levels_exist_iff_acyclic _ _ Hnd). split; [|exact Hrank].
    apply (bool_decide_unpack _). by vm_compute. }
  vm_compute in Hok. discriminate Hok.
Defined.

Lemma levels_are_deterministic_witness :
  TopoLevels ["b"; "a"] [("b", ["a"]); ("a", [])] = Ok [["a"]; ["b"]].
Proof.
  refine (levels_are_deterministic ["a"; "b"] ["b"; "a"] [("a", []); ("b", ["a"])] _ _ _ _ _ _).
  - apply (bool_decide_unpack _). by vm_compute.
  - apply (bool_decide_unpack _). by vm_compute.
  - apply perm_swap.
  - by vm_compute.
Defined.

Lemma assigned_ports_are_free_witness :
  ∃ p, (AssignPorts (Ok []) 8080 WorkspaceSamples.mesh).2 !! 0%nat =
         Some (with_port (WorkspaceSamples.svc "auth" 0 ["db"]) p) ∧ 8080 ≤ p ≤ 65535.
Proof.
  destruct (AssignPorts (Ok []) 8080 WorkspaceSamples.mesh) as [r services'] eqn:Ha.
  assert (is_ok r = true) as Hok by (change r with (r, services').1; rewrite <- Ha; by vm_compute).
  pose proof (assigned_ports_are_free _ _ _ _ _ Ha) as H.
  destruct r as [u|e]; [|discriminate Hok].
  destruct (H 0%nat (WorkspaceSamples.svc "auth" 0 ["db"]) eq_refl) as (p & Hp & Hr & _).
  exists p. split; [exact Hp|exact Hr].
Defined.
