(* ===== verification/Update.v ===== *)
(** * Update: release versions and the self-update
      (src/internal/update/semver.go, update.go, binary.go, release.go)

    Parsing, printing and comparing versions, and the flow that replaces the
    running binary.  The release server, the file system, systemd and sudo are
    observations of a run; the installed binary is its content.  The static
    inspection of the downloaded executable ([ValidateReleaseFile]) is an
    observation too. *)

From Stdlib Require Import DecimalString.
From S2P Require Import Prelude GoLib Errors.

(** ** Versions *)

(* src: internal/update/semver.go Semver *)
Record Semver := mkSemver { Major : N; Minor : N; Patch : N; Pre : string }.

#[export] Instance Semver_eq_dec : EqDecision Semver.
Proof. solve_decision. Defined.

Definition cls_dot_tail : re := RStar (RSeq (RLit ".") (RPlus (RClass cls_alnum_dash))).

(* src: internal/update/semver.go semverRe *)
Definition semverRe : re :=
  RSeq (RGroup 1 (RPlus (RClass cls_digit))) (RSeq (RLit ".")
  (RSeq (RGroup 2 (RPlus (RClass cls_digit))) (RSeq (RLit ".")
  (RSeq (RGroup 3 (RPlus (RClass cls_digit)))
  (RSeq (ROpt (RSeq (ROpt (RLit "-"))
           (RGroup 4 (RSeq (RClass cls_alnum)
              (RSeq (RStar (RClass cls_alnum_dash)) cls_dot_tail)))))
        (ROpt (RSeq (RLit "+")
           (RGroup 5 (RSeq (RPlus (RClass cls_alnum_dash)) cls_dot_tail))))))))).

(* src: internal/update/semver.go ParseSemver *)
Definition ParseSemver (s : string) : res Semver :=
  let malformed := Err (New CodeConfiguration ("malformed version " +:+ Quote s)) in
  let normalized := TrimPrefix (TrimPrefix (TrimSpace s) "v") "V" in
  match find_submatch semverRe normalized with
  | None => malformed
  | Some m =>
      match ParseUint (group 1 m), ParseUint (group 2 m), ParseUint (group 3 m) with
      | Some major, Some minor, Some patch => Ok (mkSemver major minor patch (group 4 m))
      | _, _, _ => malformed
      end
  end.

(* src: internal/update/semver.go cmpUint *)
Definition cmpUint (a b : N) : Z := if (a <? b)%N then -1 else if (b <? a)%N then 1 else 0.

(* src: internal/update/semver.go cmpInt *)
Definition cmpInt (a b : Z) : Z := if a <? b then -1 else if b <? a then 1 else 0.

(** One turn of the loop of [comparePre]: [0] goes on to the next identifier. *)
(* src: internal/update/semver.go:93-111 comparePre *)
Definition compare_ident (a b : string) : Z :=
  match ParseUint a, ParseUint b with
  | Some an, Some bn => cmpUint an bn
  | Some _, None => -1
  | None, Some _ => 1
  | None, None => if a <>s b then (if String.ltb a b then -1 else 1) else 0
  end.

(* src: internal/update/semver.go:92-112 comparePre *)
Fixpoint compare_idents (la lb : list string) : Z :=
  match la, lb with
  | a :: la, b :: lb => let c := compare_ident a b in if c =? 0 then compare_idents la lb else c
  | _, _ => 0
  end.

(* src: internal/update/semver.go comparePre *)
Definition comparePre (a b : string) : Z :=
  let la := split_on "." a in
  let lb := split_on "." b in
  let c := compare_idents la lb in
  if c =? 0 then cmpInt (len la) (len lb) else c.

(* src: internal/update/semver.go Compare *)
Definition Compare (a b : Semver) : Z :=
  if negb (Major a =? Major b)%N then cmpUint (Major a) (Major b)
  else if negb (Minor a =? Minor b)%N then cmpUint (Minor a) (Minor b)
  else if negb (Patch a =? Patch b)%N then cmpUint (Patch a) (Patch b)
  else if Pre a =s Pre b then 0
  else if Pre a =s "" then 1
  else if Pre b =s "" then -1
  else comparePre (Pre a) (Pre b).

(* src: internal/update/semver.go Display *)
Definition Display (v : Semver) : string :=
  let triple := "v" +:+ pretty (Major v) +:+ "." +:+ pretty (Minor v) +:+ "." +:+ pretty (Patch v) in
  if Pre v =s "" then triple else triple +:+ "-" +:+ Pre v.

(* src: internal/update/semver.go isUnknownVersion *)
Definition isUnknownVersion (s : string) : bool :=
  let s := TrimSpace s in ((s =s "") || (s =s "0.0.0-dev"))%bool.

(** Shapes the documentation of [semverRe] says are rejected. *)
Example four_components_are_accepted :
  ParseSemver "1.2.10.4" = Ok (mkSemver 1 2 1 "0.4") ∧
  ParseSemver "1.2.34-" = Ok (mkSemver 1 2 3 "4-") ∧
  is_ok (ParseSemver "1.2.3.4") = false ∧ is_ok (ParseSemver "1.2.3-") = false.
Proof. by vm_compute. Qed.

Example versions_parse :
  ParseSemver "v1.2.3-rc.1+build.5" = Ok (mkSemver 1 2 3 "rc.1") ∧
  ParseSemver " 1.2.3dev " = Ok (mkSemver 1 2 3 "dev") ∧
  ParseSemver "1.18446744073709551616.0" = Err (New CodeConfiguration
    ("malformed version " +:+ Quote "1.18446744073709551616.0")).
Proof. by vm_compute. Qed.

(** ** Three-way comparisons

    A comparison is an order when it is reflexive, antisymmetric in sign and
    transitive. *)

Definition is_order {A} (c : A → A → Z) : Prop :=
  (∀ a, c a a = 0) ∧ (∀ a b, c b a = - c a b) ∧
  (∀ a b d, c a b ≤ 0 → c b d ≤ 0 → c a d ≤ 0).

(** [c1], then [c2] on ties. *)
Definition then_by {A} (c1 c2 : A → A → Z) (a b : A) : Z :=
  if c1 a b =? 0 then c2 a b else c1 a b.

Lemma order_eq_l {A} (c : A → A → Z) a b d : is_order c → c a b = 0 → c a d ≤ 0 ↔ c b d ≤ 0.
Proof.
  intros (_ & Hanti & Htr) H0. pose proof (Hanti a b). split; intros Hle.
  - apply (Htr b a d); lia.
  - apply (Htr a b d); lia.
Qed.

Lemma order_lt_trans {A} (c : A → A → Z) a b d :
  is_order c → c a b ≤ 0 → c b d ≤ 0 → c a d = 0 → c a b = 0 ∧ c b d = 0.
Proof.
  intros (_ & Hanti & Htr) H1 H2 H0. pose proof (Hanti a d). pose proof (Hanti a b).
  pose proof (Hanti b d).
  assert (c b a ≤ 0) by (apply (Htr b d a); lia). assert (c d b ≤ 0) by (apply (Htr d a b); lia). lia.
Qed.

Lemma then_by_order {A} (c1 c2 : A → A → Z) :
  is_order c1 → is_order c2 → is_order (then_by c1 c2).
Proof.
  intros H1 H2. pose proof H1 as (R1 & A1 & T1). pose proof H2 as (R2 & A2 & T2).
  unfold then_by. split_and!.
  - intros a. by rewrite R1, R2.
  - intros a b. rewrite A1, A2. destruct (c1 a b =? 0) eqn:E; bool_prop.
    + by rewrite E.
    + replace (- c1 a b =? 0) with false; [done|]. symmetry. apply Z.eqb_neq. lia.
  - intros a b d. destruct (c1 a b =? 0) eqn:E1; bool_prop; intros Hab;
      (destruct (c1 b d =? 0) eqn:E2; bool_prop; intros Hbd).
    + assert (c1 a d = 0) as ->; [|simpl; by apply (T2 a b d)].
      assert (c1 a d ≤ 0) by (apply (T1 a b d); lia).
      assert (c1 d a ≤ 0) by (apply (T1 d b a); [rewrite (A1 b d)|rewrite (A1 a b)]; lia).
      pose proof (A1 a d). lia.
    + assert (c1 a d ≤ 0) by (apply (T1 a b d); lia). destruct (c1 a d =? 0) eqn:E; bool_prop; [|done].
      destruct (order_lt_trans c1 a b d H1) as [_ ?]; lia.
    + assert (c1 a d ≤ 0) by (apply (T1 a b d); lia). destruct (c1 a d =? 0) eqn:E; bool_prop; [|done].
      destruct (order_lt_trans c1 a b d H1) as [? _]; lia.
    + assert (c1 a d ≤ 0) by (apply (T1 a b d); lia). destruct (c1 a d =? 0) eqn:E; bool_prop; [|done].
      destruct (order_lt_trans c1 a b d H1) as [? _]; lia.
Qed.

Lemma order_on {A B} (f : A → B) (c : B → B → Z) : is_order c → is_order (λ a b, c (f a) (f b)).
Proof. intros (R & A0 & T). split_and!; eauto. Qed.

Lemma order_ext {A} (c c' : A → A → Z) : (∀ a b, c a b = c' a b) → is_order c → is_order c'.
Proof.
  intros Hext (R & A0 & T). split_and!; intros; rewrite <- ?Hext in *; eauto.
Qed.

Lemma cmpUint_order : is_order cmpUint.
Proof.
  unfold cmpUint. split_and!; intros; repeat case_match;
    rewrite ?N.ltb_lt, ?N.ltb_ge in *; lia.
Qed.

Lemma cmpUint_zero a b : cmpUint a b = 0 ↔ a = b.
Proof. unfold cmpUint. repeat case_match; rewrite ?N.ltb_lt, ?N.ltb_ge in *; lia. Qed.

Lemma cmpInt_order : is_order cmpInt.
Proof. unfold cmpInt. split_and!; intros; repeat case_match; bool_prop; lia. Qed.

Lemma string_order :
  is_order (λ a b, if a <>s b then (if String.ltb a b then -1 else 1) else 0).
Proof.
  destruct (strict_weak_string id) as [Hasym Htr]. simpl in Hasym, Htr.
  split_and!.
  - intros a. by rewrite String.eqb_refl.
  - intros a b. rewrite (String.eqb_sym b a). destruct (a =s b) eqn:E; [done|]. simpl.
    destruct (String.ltb a b) eqn:E1.
    + by rewrite (Hasym _ _ E1).
    + destruct (String.ltb b a) eqn:E2; [done|]. exfalso. by apply (eqb_neq_ltb a b).
  - intros a b d. destruct (a =s b) eqn:E1; bool_prop; [by subst|]. simpl.
    destruct (b =s d) eqn:E2; bool_prop; [intros; subst; apply String.eqb_neq in E1; by rewrite E1|].
    simpl. destruct (String.ltb a b) eqn:L1; [|lia]. destruct (String.ltb b d) eqn:L2; [|lia].
    intros _ _. destruct (a =s d) eqn:E3; [done|]. simpl.
    destruct (String.ltb a d) eqn:L3; [done|]. exfalso.
    pose proof (Hasym _ _ L1). pose proof (Htr d a b). pose proof (Hasym _ _ L2). 
    rewrite L3 in *. specialize (Htr b a d). unfold id in *. naive_solver congruence.
Qed.

Lemma compare_ident_order : is_order compare_ident.
Proof.
  pose proof cmpUint_order as (R & A0 & T). pose proof string_order as (Rs & As & Ts).
  unfold compare_ident. split_and!.
  - intros a. destruct (ParseUint a); [apply R|apply Rs].
  - intros a b. destruct (ParseUint a), (ParseUint b); [apply A0|done|done|apply As].
  - intros a b d. destruct (ParseUint a), (ParseUint b), (ParseUint d); try lia; [apply T|apply Ts].
Qed.

Section ListOrder.
Context {A : Type} (c : A → A → Z).

(** Element by element, a proper prefix first. *)
Fixpoint list_cmp (la lb : list A) : Z :=
  match la, lb with
  | [], [] => 0
  | [], _ :: _ => -1
  | _ :: _, [] => 1
  | a :: la, b :: lb => if c a b =? 0 then list_cmp la lb else c a b
  end.

Lemma list_cmp_order : is_order c → is_order list_cmp.
Proof.
  intros Hc. pose proof Hc as (R & A0 & T). split_and!.
  - induction a as [|x la IH]; [done|]. simpl. by rewrite R.
  - induction a as [|x la IH]; intros [|y lb]; try done. simpl. rewrite A0, IH.
    destruct (c x y =? 0) eqn:E; bool_prop; [by rewrite E|].
    replace (- c x y =? 0) with false; [done|]. symmetry. apply Z.eqb_neq. lia.
  - induction a as [|x la IH]; intros [|y lb] [|z ld]; simpl; try lia.
    pose proof (T x y z) as Hxyz. pose proof (A0 x y) as Hxy. pose proof (A0 y z) as Hyz.
    pose proof (A0 x z) as Hxz. pose proof (T z y x) as Hzyx.
    pose proof (λ h1 h2 h3, order_lt_trans c x y z Hc h1 h2 h3) as Hst.
    destruct (c x y =? 0) eqn:E1, (c y z =? 0) eqn:E2, (c x z =? 0) eqn:E3; bool_prop; try lia.
    apply IH.
Qed.
End ListOrder.

Lemma comparePre_list a b :
  comparePre a b = list_cmp compare_ident (split_on "." a) (split_on "." b).
Proof.
  unfold comparePre. generalize (split_on "." a) (split_on "." b). clear a b.
  induction l as [|x la IH]; intros [|y lb]; try done.
  cbn [compare_idents list_cmp]. cbv zeta. destruct (compare_ident x y =? 0) eqn:E; [|by rewrite E].
  rewrite <- IH. cbv zeta. destruct (compare_idents la lb =? 0); [|done].
  unfold cmpInt, len. cbn [length]. repeat case_match; bool_prop; lia.
Qed.

(** The order of the prerelease part: a release is above its prereleases. *)
Definition compare_release (a b : string) : Z :=
  if a =s b then 0 else if a =s "" then 1 else if b =s "" then -1 else comparePre a b.

Lemma comparePre_order : is_order comparePre.
Proof.
  apply (order_ext (λ a b, list_cmp compare_ident (split_on "." a) (split_on "." b))).
  - intros. by rewrite comparePre_list.
  - apply (order_on (split_on ".") (list_cmp compare_ident)), list_cmp_order, compare_ident_order.
Qed.

Lemma compare_release_order : is_order compare_release.
Proof.
  pose proof comparePre_order as (R & A0 & T). unfold compare_release. split_and!.
  - intros a. by rewrite String.eqb_refl.
  - intros a b. rewrite (String.eqb_sym b a). destruct (a =s b) eqn:E; [done|].
    destruct (a =s "") eqn:Ea, (b =s "") eqn:Eb; bool_prop; subst; first [done|apply A0].
  - intros a b d. destruct (a =s b) eqn:E1; bool_prop; [by subst|].
    destruct (b =s d) eqn:E2; bool_prop; [intros; subst; apply String.eqb_neq in E1; by rewrite E1|].
    destruct (a =s d) eqn:E3; [lia|].
    destruct (a =s "") eqn:Ea, (b =s "") eqn:Eb, (d =s "") eqn:Ed; bool_prop; subst; try lia; try done.
    apply T.
Qed.

Lemma Compare_lex a b :
  Compare a b = then_by (λ a b, cmpUint (Major a) (Major b))
    (then_by (λ a b, cmpUint (Minor a) (Minor b))
       (then_by (λ a b, cmpUint (Patch a) (Patch b)) (λ a b, compare_release (Pre a) (Pre b)))) a b.
Proof.
  unfold Compare, then_by, compare_release.
  assert (∀ x y, negb (x =? y)%N = negb (cmpUint x y =? 0)) as H.
  { intros x y. f_equal. apply eq_true_iff_eq. by rewrite N.eqb_eq, Z.eqb_eq, cmpUint_zero. }
  rewrite !H. by destruct (cmpUint (Major a) (Major b) =? 0), (cmpUint (Minor a) (Minor b) =? 0),
    (cmpUint (Patch a) (Patch b) =? 0).
Qed.

(** Versions are totally ordered: comparison is reflexive, antisymmetric in
    sign and transitive; the triple dominates, and a release is above its own
    prereleases. *)
Theorem version_order_is_total :
  (∀ a, Compare a a = 0) ∧ (∀ a b, Compare b a = - Compare a b) ∧
  (∀ a b c, Compare a b ≤ 0 → Compare b c ≤ 0 → Compare a c ≤ 0) ∧
  (∀ a b, (Major a < Major b ∨ Major a = Major b ∧
            (Minor a < Minor b ∨ Minor a = Minor b ∧ Patch a < Patch b))%N → Compare a b = -1) ∧
  (∀ x y z p, p ≠ "" → Compare (mkSemver x y z p) (mkSemver x y z "") = -1).
Proof.
  assert (is_order Compare) as (R & A0 & T).
  { eapply order_ext; [intros a b; symmetry; apply Compare_lex|].
    repeat apply then_by_order; [apply (order_on Major), cmpUint_order|
      apply (order_on Minor), cmpUint_order|apply (order_on Patch), cmpUint_order|
      apply (order_on Pre), compare_release_order]. }
  split_and!; [done|done|done| |].
  - intros a b Hlt. rewrite Compare_lex. unfold then_by, cmpUint.
    repeat case_match; rewrite ?N.ltb_lt, ?N.ltb_ge in *; bool_prop; lia.
  - intros x y z p Hp. unfold Compare. simpl. rewrite !N.eqb_refl. simpl.
    apply String.eqb_neq in Hp. by rewrite Hp.
Qed.

(** ** The update *)

(* src: internal/update/update.go Outcome *)
Inductive Outcome := OutcomeUpToDate | OutcomeLocalNewer | OutcomeAvailable | OutcomeUpdated.

#[export] Instance Outcome_eq_dec : EqDecision Outcome.
Proof. solve_decision. Defined.

(* src: internal/update/update.go Result *)
Record Result := mkResult {
  R_Outcome : Outcome; R_Current : string; R_Latest : string; R_Restarted : bool
}.

(** What staging and renaming a new binary shows. *)
Record replace_obs := mkReplace { ro_stage_error : option error; ro_rename_error : option error }.

(** The service manager: whether the unit is there and active, and how a
    restart and the wait after it end. *)
Record service_obs := mkService {
  so_present : bool; so_active : bool; so_restart_error : option error; so_wait_error : option error
}.

(** A run: the options, then what each step shows, in order.  [uo_disk] is what
    the disk holds after the new content was renamed into place, [uo_restored]
    what it holds after the previous binary was backed up and renamed back. *)
Record update_obs := mkUpdate {
  uo_current : string;
  uo_check_only : bool;
  uo_stdin_tty : bool;
  uo_latest : res string;
  uo_platform_error : option error;
  uo_workdir_error : option error;
  uo_download : res string;
  uo_checksum : res (option string);
  uo_validate_error : option error;
  uo_executable_error : option error;
  uo_service : service_obs;
  uo_can_write : bool;
  uo_root : bool;
  uo_sudo_cached : bool;
  uo_sudo_prompt_error : option error;
  uo_backup_error : option error;
  uo_replace : replace_obs;
  uo_disk : string → string;
  uo_hash_error : option error;
  uo_restore : replace_obs;
  uo_restored : string → string
}.

(** The new content of the target. *)
(* src: internal/update/binary.go replaceBinary *)
Definition replaceBinary (o : replace_obs) (elevate : bool) (new target : string)
  : res unit * string :=
  let code := if elevate then CodePermissionDenied else CodeFilesystem in
  match ro_stage_error o with
  | Some e => (Err (wrap code "stage the new binary" e), target)
  | None =>
      match ro_rename_error o with
      | Some e => (Err (wrap code "replace the binary" e), target)
      | None => (Ok tt, new)
      end
  end.

(* src: internal/update/update.go ensureSudo *)
Definition ensureSudo (cached tty : bool) (prompt_error : option error) : res unit :=
  if cached then Ok tt
  else if negb tty then
    Err (New CodePermissionDenied
      "updating the Phelix binary requires root privileges, but sudo needs a password and no terminal is available")
  else match prompt_error with
  | Some e => Err (wrap CodePermissionDenied "sudo authentication failed" e)
  | None => Ok tt
  end.

(** A step that fails when its observation is an error. *)
Definition step (e : option error) : res unit := match e with Some e => Err e | None => Ok tt end.

(** [strings.ToLower] on the hexadecimal digest [FetchChecksum] lets through. *)
Fixpoint ToLower (s : string) : string :=
  match s with
  | EmptyString => EmptyString
  | String c s =>
      String (if in_range "A" "Z" c then ascii_of_nat (nat_of_ascii c + 32) else c) (ToLower s)
  end.

Section Flow.
(** The SHA-256 of a content, in hexadecimal. *)
Variable sha256_hex : string → string.

(* src: internal/update/release.go VerifyChecksum *)
Definition VerifyChecksum (content want : string) : res unit :=
  fail_if (sha256_hex content <>s ToLower want)
    (New CodeUpdateFailed ("checksum mismatch for the downloaded release: got " +:+
       sha256_hex content +:+ ", want " +:+ want)).

(* src: internal/update/binary.go VerifyInstalledFile *)
Definition VerifyInstalledFile (hash_error : option error) (installed downloaded : string) : res unit :=
  match hash_error with
  | Some e => Err (wrap CodeFilesystem "hash the installed binary" e)
  | None =>
      fail_if (sha256_hex installed <>s sha256_hex downloaded)
        (New CodeUpdateFailed ("the installed binary does not match the validated release (got " +:+
           sha256_hex installed +:+ ", want " +:+ sha256_hex downloaded +:+ ")"))
  end.

(** Everything before the target is touched: the versions, and for a newer
    release the content that was downloaded and checked. *)
(* src: internal/update/update.go:101-244 Run *)
Definition prepare (o : update_obs) : res (Result * option (string * bool)) :=
  let curRaw := TrimSpace (uo_current o) in
  if isUnknownVersion curRaw then
    Err (New CodeConfiguration
      "current Phelix version could not be determined (development or unversioned build)")
  else match ParseSemver curRaw with
  | Err _ => Err (New CodeConfiguration ("current Phelix version could not be determined (" +:+
               Quote curRaw +:+ " is not a release version)"))
  | Ok cur =>
      uo_latest o ≫= λ latestRaw,
      match ParseSemver latestRaw with
      | Err _ => Err (New CodeConfiguration ("the release server returned a malformed version (" +:+
                   Quote latestRaw +:+ ")"))
      | Ok latest =>
          let res outcome := mkResult outcome (Display cur) (Display latest) false in
          if 0 <? Compare cur latest then Ok (res OutcomeLocalNewer, None)
          else if Compare cur latest =? 0 then Ok (res OutcomeUpToDate, None)
          else if uo_check_only o then Ok (res OutcomeAvailable, None)
          else
            step (uo_platform_error o) ≫= λ _,
            match uo_workdir_error o with
            | Some e => Err (wrap CodeFilesystem "could not create a temp workspace" e)
            | None =>
                uo_download o ≫= λ content,
                uo_checksum o ≫= λ sum,
                (match sum with Some want => VerifyChecksum content want | None => Ok tt end) ≫= λ _,
                step (uo_validate_error o) ≫= λ _,
                match uo_executable_error o with
                | Some e => Err (wrap CodeFilesystem
                              "could not locate the running Phelix executable" e)
                | None =>
                    let restartPlanned := (so_present (uo_service o) && so_active (uo_service o))%bool in
                    let elevate := negb (uo_can_write o) in
                    (if (elevate || (restartPlanned && negb (uo_root o)))%bool
                     then ensureSudo (uo_sudo_cached o) (uo_stdin_tty o) (uo_sudo_prompt_error o)
                     else Ok tt) ≫= λ _,
                    step (uo_backup_error o) ≫= λ _,
                    Ok (res OutcomeUpdated, Some (content, restartPlanned))
                end
            end
      end
  end.

(** The closure [rollback]: the error and the content of the target. *)
(* src: internal/update/update.go:251-263 Run *)
Definition rollback (o : update_obs) (restartPlanned : bool) (backup target : string) (cause : error)
  : error * string :=
  match replaceBinary (uo_restore o) (negb (uo_can_write o)) backup target with
  | (Err rbErr, target) =>
      (New CodeUpdateFailed ("update failed (" +:+ Error cause +:+
         ") and restoring the previous binary also failed (" +:+ Error rbErr +:+
         "); the target remains replaced"), target)
  | (Ok _, target) =>
      let target := uo_restored o target in
      (New CodeUpdateFailed ("update failed (" +:+ Error cause +:+
         if restartPlanned then "); the previous binary was restored and a service restart attempted"
         else "); the previous binary was restored"), target)
  end.

(** [target] is the installed binary; the result is the one after the run. *)
(* src: internal/update/update.go Run *)
Definition Run (o : update_obs) (target : string) : res Result * string :=
  match prepare o with
  | Err e => (Err e, target)
  | Ok (r, None) => (Ok r, target)
  | Ok (r, Some (content, restartPlanned)) =>
      match replaceBinary (uo_replace o) (negb (uo_can_write o)) content target with
      | (Err e, target) => (Err e, target)
      | (Ok _, replaced) =>
          let installed := uo_disk o replaced in
          let fail cause :=
            let '(e, target) := rollback o restartPlanned target installed cause in (Err e, target) in
          match VerifyInstalledFile (uo_hash_error o) installed content with
          | Err e => fail e
          | Ok _ =>
              if restartPlanned : bool then
                match so_restart_error (uo_service o), so_wait_error (uo_service o) with
                | Some e, _ => fail e
                | None, Some e => fail e
                | None, None =>
                    (Ok (mkResult (R_Outcome r) (R_Current r) (R_Latest r) true), installed)
                end
              else (Ok r, installed)
          end
      end
  end.
End Flow.

Section FlowTheorems.
Context (sha256_hex : string → string).

(** What was established about a content before the target is touched. *)
Definition checked (o : update_obs) (content : string) : Prop :=
  uo_check_only o = false ∧ uo_download o = Ok content ∧ uo_validate_error o = None ∧
  uo_backup_error o = None ∧
  (∃ sum, uo_checksum o = Ok sum ∧ ∀ want, sum = Some want → sha256_hex content = ToLower want) ∧
  ∃ cur latestRaw latest, ParseSemver (TrimSpace (uo_current o)) = Ok cur ∧
    uo_latest o = Ok latestRaw ∧ ParseSemver latestRaw = Ok latest ∧ Compare cur latest < 0.

Lemma step_Ok e : step e = Ok tt ↔ e = None.
Proof. by destruct e. Qed.

Lemma prepare_Ok o r next :
  prepare sha256_hex o = Ok (r, next) →
  (R_Outcome r = OutcomeUpdated ↔ is_Some next) ∧ R_Restarted r = false ∧
  ∀ content planned, next = Some (content, planned) →
    checked o content ∧ planned = (so_present (uo_service o) && so_active (uo_service o))%bool.
Proof.
  unfold prepare. destruct (isUnknownVersion _); [done|].
  destruct (ParseSemver (TrimSpace (uo_current o))) as [cur|] eqn:Hc; [|done].
  rewrite bind_Ok. intros (latestRaw & Hl & H). revert H.
  destruct (ParseSemver latestRaw) as [latest|] eqn:Hp; [|done]. cbv zeta.
  destruct (0 <? Compare cur latest) eqn:E1; bool_prop; [by intros [= <- <-]|].
  destruct (Compare cur latest =? 0) eqn:E2; bool_prop; [by intros [= <- <-]|].
  destruct (uo_check_only o) eqn:E3; [by intros [= <- <-]|].
  rewrite bind_Ok. intros (_ & _ & H). destruct (uo_workdir_error o); [done|].
  apply bind_Ok in H as (content & Hd & H). apply bind_Ok in H as (sum & Hs & H).
  apply bind_Ok in H as ([] & Hv & H). apply bind_Ok in H as ([] & Hval%step_Ok & H).
  destruct (uo_executable_error o); [done|]. apply bind_Ok in H as (_ & _ & H).
  apply bind_Ok in H as ([] & Hb%step_Ok & [= <- <-]).
  split_and!; [by split; [eexists|]|done|]. intros content' planned [= <- <-].
  split; [|done]. split_and!; try done.
  - exists sum. split; [done|]. intros want ->. unfold VerifyChecksum in Hv.
    apply fail_if_Ok in Hv. by bool_prop.
  - exists cur, latestRaw, latest. split_and!; try done. lia.
Qed.

Lemma VerifyInstalledFile_Ok he installed content :
  VerifyInstalledFile sha256_hex he installed content = Ok tt →
  sha256_hex installed = sha256_hex content.
Proof. unfold VerifyInstalledFile. destruct he; [done|]. intros H%fail_if_Ok. by bool_prop. Qed.

(** What an error of [Run] leaves: nothing was touched, or the new release was
    taken back, or it could not be. *)
Definition left_by (o : update_obs) (target : string) (e : error) (target' : string) : Prop :=
  target' = target ∨
  (CodeOf (Some e) = CodeUpdateFailed ∧ target' = uo_restored o target ∧
     ro_stage_error (uo_restore o) = None ∧ ro_rename_error (uo_restore o) = None ∧
     ∃ cause, Error e = "update failed (" +:+ cause +:+ "); the previous binary was restored" ∨
              Error e = "update failed (" +:+ cause +:+ "); the previous binary was restored and a service restart attempted") ∨
  (CodeOf (Some e) = CodeUpdateFailed ∧ HasSuffix (Error e) "the target remains replaced" = true ∧
     (is_Some (ro_stage_error (uo_restore o)) ∨ is_Some (ro_rename_error (uo_restore o))) ∧
     ∃ content, checked o content ∧ target' = uo_disk o content).

Lemma rollback_left o planned target content cause e target' :
  checked o content → rollback o planned target (uo_disk o content) cause = (e, target') → left_by o target e target'.
Proof.
  intros Hc. unfold rollback, replaceBinary.
  assert (∀ s, HasSuffix (s +:+ "); the target remains replaced") "the target remains replaced" = true) as Hsuf.
  { intros s. change "); the target remains replaced" with ("); " +:+ "the target remains replaced").
    rewrite sapp_assoc. apply HasSuffix_app. }
  destruct (ro_stage_error (uo_restore o)) eqn:E1.
  { intros [= <- <-]. right. right. rewrite E1. split_and!; [done| |left; done|eauto].
    cbn [Error New]. rewrite !sapp_assoc. apply Hsuf. }
  destruct (ro_rename_error (uo_restore o)) eqn:E2.
  { intros [= <- <-]. right. right. rewrite E2. split_and!; [done| |right; done|eauto].
    cbn [Error New]. rewrite !sapp_assoc. apply Hsuf. }
  intros [= <- <-]. right. left. split_and!; try done. exists (Error cause). destruct planned; [by right|by left].
Qed.

(** Every run of the update. *)
Lemma Run_spec o target :
  let '(r, target') := Run sha256_hex o target in
  match r with
  | Err e => left_by o target e target'
  | Ok res =>
      if decide (R_Outcome res = OutcomeUpdated) then
        ∃ content, checked o content ∧ target' = uo_disk o content ∧ sha256_hex target' = sha256_hex content ∧
          R_Restarted res = (so_present (uo_service o) && so_active (uo_service o))%bool
      else target' = target
  end.
Proof.
  unfold Run. destruct (prepare sha256_hex o) as [[r0 next]|e] eqn:Hp; [|by left].
  destruct (prepare_Ok _ _ _ Hp) as (Hup & Hrs & Hnext).
  destruct next as [[content planned]|]; cycle 1.
  { case_decide as Hd; [|done]. apply Hup in Hd as [? ?]. done. }
  destruct (Hnext _ _ eq_refl) as [Hck Hpl].
  assert (R_Outcome r0 = OutcomeUpdated) as Ho by (by apply Hup).
  destruct (replaceBinary (uo_replace o) _ _ _) as [[[]|e] replaced] eqn:Hr; cycle 1.
  { left. unfold replaceBinary in Hr. destruct (ro_stage_error _); [by simplify_eq|]. destruct (ro_rename_error _); by simplify_eq. }
  assert (replaced = content) as ->.
  { unfold replaceBinary in Hr. destruct (ro_stage_error _); [done|]. destruct (ro_rename_error _); [done|]. by injection Hr. }
  assert (∀ cause, let '(r, target') := (let '(e, t) := rollback o planned target (uo_disk o content) cause in (Err e : res Result, t)) in
    match r with Err e => left_by o target e target' | Ok _ => False end) as Hrb.
  { intros cause. destruct (rollback o planned target (uo_disk o content) cause) as [e t] eqn:E. by eapply rollback_left. }
  assert (∀ cause, let '(r, target') := (let '(e, t) := rollback o planned target (uo_disk o content) cause in (Err e : res Result, t)) in
    match r with Err e => left_by o target e target' | Ok res => if decide (R_Outcome res = OutcomeUpdated) then
        ∃ content, checked o content ∧ target' = uo_disk o content ∧ sha256_hex target' = sha256_hex content ∧
          R_Restarted res = (so_present (uo_service o) && so_active (uo_service o))%bool
      else target' = target end) as Hrb'.
  { intros cause. specialize (Hrb cause). by destruct (rollback _ _ _ _ _). }
  destruct (VerifyInstalledFile _ _ _ _) as [[]|e] eqn:Hv; [|apply Hrb'].
  apply VerifyInstalledFile_Ok in Hv. destruct planned.
  - destruct (so_restart_error (uo_service o)), (so_wait_error (uo_service o)); try apply Hrb'.
    rewrite decide_True by done. exists content. by rewrite <- Hpl.
  - rewrite decide_True by done. exists content. by rewrite Hrs, <- Hpl.
Qed.

(** C29: what the target holds after an update, and that the result tells it.
    A reported update means a newer release that was downloaded, inspected and,
    where a checksum is published, matched it: the target holds what the disk
    made of that download, with the same digest.  Any other success leaves the
    target as it was.  After an error ([left_by]) the target was not touched; or
    the error says that the previous binary was restored, and the target holds
    what the disk made of its backup, which the code does not check; or the
    restore failed, the error says that the target remains replaced, and it
    holds what the disk made of the checked download. *)
Theorem an_update_leaves_what_it_reports o target r target' :
  Run sha256_hex o target = (r, target') →
  match r with
  | Ok res =>
      if decide (R_Outcome res = OutcomeUpdated) then
        ∃ content, checked o content ∧ target' = uo_disk o content ∧ sha256_hex target' = sha256_hex content ∧
          R_Restarted res = (so_present (uo_service o) && so_active (uo_service o))%bool
      else target' = target
  | Err e => left_by o target e target'
  end.
Proof. intros E. pose proof (Run_spec o target) as H. by rewrite E in H. Qed.
End FlowTheorems.

(** ** Printing and parsing *)

(** *** The preferred match

    [heads r s s' c]: the first way [r] matches a prefix of [s] leaves [s'] and
    captures [c]. *)

Definition heads (r : re) (s s' : string) (c : list (nat * string)) : Prop :=
  ∃ l, run r s = (s', c) :: l.

Lemma heads_class p c s : p c = true → heads (RClass p) (String c s) s [].
Proof. intros Hp. exists []. simpl. by rewrite Hp. Qed.

Lemma heads_seq r1 r2 s s1 s2 c1 c2 :
  heads r1 s s1 c1 → heads r2 s1 s2 c2 → heads (RSeq r1 r2) s s2 (c2 ++ c1).
Proof. intros [l1 H1] [l2 H2]. unfold heads. cbn [run]. rewrite H1. simpl. rewrite H2. simpl. eauto. Qed.

Lemma heads_opt r s s' c : heads r s s' c → heads (ROpt r) s s' c.
Proof. intros [l H]. unfold heads. cbn [run]. rewrite H. simpl. eauto. Qed.

Lemma heads_opt_none r s : run r s = [] → heads (ROpt r) s s [].
Proof. intros H. exists []. cbn [run]. by rewrite H. Qed.

Lemma take_str_app s t : take_str (String.length (s +:+ t) - String.length t) (s +:+ t) = s.
Proof.
  rewrite length_sapp. replace (_ + _ - _)%nat with (String.length s) by lia.
  induction s as [|c s IH]; [by destruct t|]. rewrite sapp_cons. unfold take_str in *. simpl. by rewrite IH.
Qed.

Lemma heads_group n r s t c : heads r (s +:+ t) t c → heads (RGroup n r) (s +:+ t) t ((n, s) :: c).
Proof.
  intros [l H]. unfold heads. cbn [run]. rewrite H. cbn [mbind list_bind]. rewrite take_str_app.
  simpl. eauto.
Qed.

Lemma heads_lit p s : heads (RLit p) (p +:+ s) s [].
Proof. exists []. apply run_RLit. Qed.

Definition starts_outside (p : ascii → bool) (s : string) : Prop :=
  match s with String c _ => p c = false | EmptyString => True end.

Lemma star_class_heads p w s fuel :
  all_chars p w = true → starts_outside p s → (String.length w ≤ fuel)%nat →
  ∃ l, star_run (run (RClass p)) fuel (w +:+ s) = (s, []) :: l.
Proof.
  intros Hw Hs. revert fuel. induction w as [|c w IH]; intros fuel Hf.
  - destruct fuel as [|fuel]; [by eexists|]. destruct s as [|c s]; [by eexists|].
    simpl in *. rewrite Hs. by eexists.
  - simpl in Hw. apply andb_prop in Hw as [Hc Hw]. destruct fuel as [|fuel]; simpl in Hf; [lia|].
    rewrite sapp_cons. simpl. rewrite Hc. simpl.
    replace (Nat.ltb _ _) with true by (symmetry; apply Nat.ltb_lt; lia).
    destruct (IH Hw fuel) as [l Hl]; [lia|]. simpl in Hl. rewrite Hl. simpl. by eexists.
Qed.

Lemma heads_star_class p w s :
  all_chars p w = true → starts_outside p s → heads (RStar (RClass p)) (w +:+ s) s [].
Proof.
  intros Hw Hs. unfold heads. cbn [run]. apply star_class_heads; [done|done|].
  rewrite length_sapp. lia.
Qed.

Lemma heads_plus_class p w s :
  w ≠ "" → all_chars p w = true → starts_outside p s → heads (RPlus (RClass p)) (w +:+ s) s [].
Proof.
  intros Hne Hw Hs. destruct w as [|c w]; [done|]. simpl in Hw. apply andb_prop in Hw as [Hc Hw].
  rewrite sapp_cons. apply (heads_seq _ _ _ (w +:+ s) _ [] []).
  - by apply heads_class.
  - by apply heads_star_class.
Qed.

(** *** Prereleases *)

Definition ident_ok (id : string) : Prop := id ≠ "" ∧ all_chars cls_alnum_dash id = true.

Fixpoint dotted (ids : list string) : string :=
  match ids with [] => "" | id :: ids => "." +:+ id +:+ dotted ids end.

Lemma dotted_outside ids : starts_outside cls_alnum_dash (dotted ids).
Proof. by destruct ids. Qed.

Lemma heads_dotted ids : Forall ident_ok ids → heads cls_dot_tail (dotted ids) "" [].
Proof.
  intros Hids. unfold heads, cls_dot_tail. cbn [run].
  assert (∀ fuel, (String.length (dotted ids) ≤ fuel)%nat →
    ∃ l, star_run (run (RSeq (RLit ".") (RPlus (RClass cls_alnum_dash)))) fuel (dotted ids) =
         ("", []) :: l) as H; [|by apply H].
  induction Hids as [|id ids [Hne Hid] _ IH]; intros fuel Hf.
  { destruct fuel; by eexists. }
  destruct fuel as [|fuel]; [simpl in Hf; lia|]. cbn [star_run].
  assert (heads (RSeq (RLit ".") (RPlus (RClass cls_alnum_dash))) (dotted (id :: ids)) (dotted ids) [])
    as [l Hl].
  { apply (heads_seq _ _ _ (id +:+ dotted ids) _ [] []).
    - apply (heads_lit ".").
    - apply heads_plus_class; [done|done|apply dotted_outside]. }
  rewrite Hl. cbn [mbind list_bind].
  assert (String.length (dotted ids) < String.length (dotted (id :: ids)))%nat as Hlt.
  { cbn [dotted]. rewrite !length_sapp. simpl. lia. }
  replace (Nat.ltb _ _) with true by (symmetry; by apply Nat.ltb_lt).
  destruct (IH fuel) as [l' Hl']; [lia|]. rewrite Hl'. cbn [mbind list_bind app]. by eexists.
Qed.

(** A prerelease in the canonical shape. *)
Definition valid_pre (p : string) : Prop :=
  p = "" ∨ ∃ c w ids, p = String c w +:+ dotted ids ∧ cls_alnum c = true ∧
    all_chars cls_alnum_dash w = true ∧ Forall ident_ok ids.

Definition pre_part : re :=
  RSeq (ROpt (RLit "-"))
    (RGroup 4 (RSeq (RClass cls_alnum) (RSeq (RStar (RClass cls_alnum_dash)) cls_dot_tail))).

Lemma heads_pre p :
  valid_pre p → p ≠ "" → heads (ROpt pre_part) ("-" +:+ p) "" [(4%nat, p)].
Proof.
  intros [->|(c & w & ids & -> & Hc & Hw & Hids)] Hne; [done|]. apply heads_opt.
  apply (heads_seq _ _ _ (String c w +:+ dotted ids) _ [] [_]).
  - apply heads_opt. apply (heads_lit "-").
  - pose proof (heads_group 4 (RSeq (RClass cls_alnum) (RSeq (RStar (RClass cls_alnum_dash))
      cls_dot_tail)) (String c w +:+ dotted ids) "" []) as H.
    rewrite sapp_nil_r in H. apply H. rewrite sapp_cons.
    apply (heads_seq _ _ _ (w +:+ dotted ids) _ [] []); [by apply heads_class|].
    apply (heads_seq _ _ _ (dotted ids) _ [] []); [|by apply heads_dotted].
    apply heads_star_class; [done|apply dotted_outside].
Qed.

(** *** The round trip *)

Lemma all_ascii (P : ascii → Prop) : (∀ n, (n < 256)%nat → P (ascii_of_nat n)) → ∀ c, P c.
Proof.
  intros H c. rewrite <- (ascii_nat_embedding c). apply H. apply nat_ascii_bounded.
Qed.

Lemma alnum_dash_printable c : cls_alnum_dash c = true → printable c = true.
Proof. destruct c as [[] [] [] [] [] [] [] []]; by vm_compute. Qed.

Lemma valid_pre_printable p : valid_pre p → all_chars printable p = true.
Proof.
  intros [->|(c & w & ids & -> & Hc & Hw & Hids)]; [done|].
  rewrite all_chars_app. simpl.
  rewrite (alnum_dash_printable c) by (unfold cls_alnum_dash; by rewrite Hc).
  rewrite (all_chars_impl _ _ _ alnum_dash_printable Hw). simpl.
  induction Hids as [|id ids [_ Hid] _ IH]; [done|]. cbn [dotted]. rewrite !all_chars_app, IH.
  by rewrite (all_chars_impl _ _ _ alnum_dash_printable Hid).
Qed.

Definition in_uint64 (v : Semver) : Prop := (Major v < 2 ^ 64 ∧ Minor v < 2 ^ 64 ∧ Patch v < 2 ^ 64)%N.

(** The text after the prefix [v], with the separators made explicit. *)
Definition body (v : Semver) : string :=
  pretty (Major v) +:+ ("." +:+ (pretty (Minor v) +:+ ("." +:+ (pretty (Patch v) +:+
    (if Pre v =s "" then "" else "-" +:+ Pre v))))).

Lemma Display_body v : Display v = "v" +:+ body v.
Proof.
  unfold Display, body. destruct (Pre v =s ""); rewrite ?sapp_nil_r; [done|].
  by rewrite !sapp_assoc.
Qed.

Lemma heads_semver v :
  in_uint64 v → valid_pre (Pre v) →
  ∃ c, heads semverRe (body v) "" c ∧ group 1 c = pretty (Major v) ∧ group 2 c = pretty (Minor v) ∧
       group 3 c = pretty (Patch v) ∧ group 4 c = Pre v.
Proof.
  intros (H1 & H2 & H3) Hp. unfold body, semverRe.
  assert (∀ n x s, (x < 2 ^ 64)%N → starts_outside cls_digit s →
    heads (RGroup n (RPlus (RClass cls_digit))) (pretty x +:+ s) s [(n, pretty x)]) as Hnum.
  { intros n x s Hx Hs. apply heads_group, heads_plus_class;
      [by apply pretty_nonempty|apply pretty_digits|done]. }
  set (tail := if Pre v =s "" then "" else "-" +:+ Pre v).
  assert (∃ c, heads (RSeq (ROpt pre_part) (ROpt (RSeq (RLit "+")
    (RGroup 5 (RSeq (RPlus (RClass cls_alnum_dash)) cls_dot_tail))))) tail "" c ∧
    c = if Pre v =s "" then [] else [(4%nat, Pre v)]) as (c & Hc & Hceq).
  { subst tail. destruct (Pre v =s "") eqn:Ep; bool_prop.
    - exists []. split; [|done]. apply (heads_seq _ _ _ "" _ [] []); by apply heads_opt_none.
    - eexists. split; [|reflexivity]. apply (heads_seq _ _ _ "" _ _ []); [by apply heads_pre|].
      by apply heads_opt_none. }
  eexists. split.
  - eapply heads_seq; [apply Hnum; done|]. eapply heads_seq; [apply heads_lit|].
    eapply heads_seq; [apply Hnum; done|]. eapply heads_seq; [apply heads_lit|].
    eapply heads_seq; [|exact Hc]. apply Hnum; [done|]. subst tail. by destruct (Pre v =s "").
  - rewrite Hceq. destruct (Pre v =s "") eqn:Ep; bool_prop; [rewrite Ep|]; done.
Qed.

(** Printing and parsing round-trip: the canonical form of a version with
    64-bit numbers and a well-formed prerelease parses back to it. *)
Theorem version_roundtrip v :
  in_uint64 v → valid_pre (Pre v) → ParseSemver (Display v) = Ok v.
Proof.
  intros Hr Hp. unfold ParseSemver. rewrite Display_body.
  destruct (heads_semver v Hr Hp) as (c & [l Hl] & G1 & G2 & G3 & G4).
  pose proof Hr as (H1 & H2 & H3).
  rewrite TrimSpace_id; cycle 1.
  { unfold body. rewrite !all_chars_app.
    rewrite !(all_chars_impl _ _ _ digit_printable (pretty_digits _)). simpl.
    destruct (Pre v =s ""); [done|]. change ("-" +:+ Pre v) with (String "-" (Pre v)). simpl.
    by rewrite valid_pre_printable. }
  assert (TrimPrefix (TrimPrefix ("v" +:+ body v) "v") "V" = body v) as ->.
  { assert (TrimPrefix ("v" +:+ body v) "v" = body v) as ->.
    { unfold TrimPrefix. replace (HasPrefix ("v" +:+ body v) "v") with true by by destruct (body v).
      apply (drop_str_app "v"). }
    unfold TrimPrefix, HasPrefix, body.
    pose proof (pretty_nonempty _ H1). pose proof (pretty_digits (Major v)) as Hd.
    destruct (pretty (Major v)) as [|d s]; [done|]. rewrite sapp_cons. cbn [String.prefix].
    destruct (ascii_dec "V" d) as [<-|]; [done|]. done. }
  unfold find_submatch. rewrite Hl. simpl. rewrite G1, G2, G3, G4.
  rewrite !ParseUint_pretty by done. by destruct v.
Qed.

(** ** Samples *)

Module UpdateSamples.
Definition sha (s : string) : string := "sha-" +:+ s.
Definition ok_replace := mkReplace None None.
Definition run_of (disk : string → string) (restore : replace_obs) (restored : string → string) : update_obs :=
  mkUpdate "1.4.0" false false (Ok "v1.5.0-rc.1") None None (Ok "new") (Ok (Some "sha-new")) None None
    (mkService true true None None) true true true None None ok_replace disk None restore restored.
Definition good : update_obs := run_of id ok_replace id.
(** The disk does not keep what was written. *)
Definition torn : update_obs := run_of (λ _, "torn") ok_replace id.
Definition torn_twice : update_obs :=
  run_of (λ _, "torn") (mkReplace (Some (New CodeFilesystem "full")) None) id.
Definition torn_restore : update_obs := run_of (λ _, "torn") ok_replace (λ _, "torn backup").

Example torn_write_is_rolled_back :
  (Run sha torn "old").2 = "old" ∧ (Run sha torn_twice "old").2 = "torn" ∧
  (Run sha good "old").2 = "new".
Proof. by vm_compute. Qed.

(** The restored binary is not compared with its backup: the error says that it
    was restored. *)
Example a_torn_restore_is_reported_as_restored :
  (Run sha torn_restore "old").2 = "torn backup" ∧
  ∃ e, (Run sha torn_restore "old").1 = Err e ∧
    HasSuffix (Error e) "the previous binary was restored and a service restart attempted" = true.
Proof. split; [by vm_compute|]. eexists. split; [by vm_compute|by vm_compute]. Qed.

Definition candidate : Semver := mkSemver 1 5 0 "rc.1".
Lemma candidate_pre : valid_pre (Pre candidate).
Proof.
  right. exists "r"%char, "c", ["1"]. split_and!; [done|done|done|].
  apply Forall_singleton. by split.
Qed.
End UpdateSamples.

Lemma an_update_leaves_what_it_reports_witness :
  (∃ content, checked UpdateSamples.sha UpdateSamples.good content ∧ "new" = uo_disk UpdateSamples.good content) ∧
  ∃ e, Run UpdateSamples.sha UpdateSamples.torn "old" = (Err e, "old") ∧
    left_by UpdateSamples.sha UpdateSamples.torn "old" e "old".
Proof.
  split.
  - assert (Run UpdateSamples.sha UpdateSamples.good "old" =
      (Ok (mkResult OutcomeUpdated "v1.4.0" "v1.5.0-rc.1" true), "new")) as Hr by (vm_compute; reflexivity).
    destruct (an_update_leaves_what_it_reports _ _ _ _ _ Hr) as (content & Hc & Ht & _).
    exists content. split; [exact Hc|exact Ht].
  - eexists. split; [vm_compute; reflexivity|].
    refine (an_update_leaves_what_it_reports UpdateSamples.sha UpdateSamples.torn "old" (Err _) "old" _).
    vm_compute; reflexivity.
Defined.

Lemma version_roundtrip_witness :
  ParseSemver (Display UpdateSamples.candidate) = Ok UpdateSamples.candidate.
Proof.
  apply (version_roundtrip UpdateSamples.candidate).
  - split_and!; done.
  - exact UpdateSamples.candidate_pre.
Defined.
