(* ===== verification/DeployState.v ===== *)
(** * DeployState: the deployment journal of an application

    deploy.json describes the instances of an application that Phelix deploys
    without downtime: two blue-green slots or a set of replicas, the active
    slot, the version that serves.  This file models the record, its atomic
    persistence (state.go), strategy migration, the liveness checks and the
    reconciliation with reality (lifecycle.go), and the replica bookkeeping of
    the rolling strategy (rolling.go).

    The fields [op_lock], [last_deployment_id], [last_request_id] and
    [worker_rollout], which nothing modelled here reads, are left out.  A [map[string]*Instance] is a [gmap]; a nil map is
    an empty one and a nil entry a missing one, as every reader treats them. *)

From stdpp Require Import stringmap.
From S2P Require Import Prelude GoLib FileStore ProxyRouting Errors.

(* src: internal/deploy/state.go:25-28 SlotBlue *)
Definition SlotBlue := "blue".
Definition SlotGreen := "green".

(* src: internal/deploy/state.go:33-37 Mode *)
Definition ModeBlueGreen := "blue-green".
Definition ModeRolling := "rolling".
Definition ModeWorker := "worker".
Definition ModeClassic := "classic".

(* src: internal/deploy/state.go:51-56 CanaryRunning *)
Definition CanaryRunning := "running".
Definition CanaryFailed := "failed".
Definition CanaryAborted := "aborted".
Definition CanaryPromoted := "promoted".

(** The records, with one update function per field that is assigned. *)

(* src: internal/deploy/state.go Instance *)
Record Instance := mkInstance {
  I_SecretEnvs : list string;
  I_Slot : string;
  I_PID : Z;
  I_Port : Z;
  I_BinaryPath : string;
  I_ContainerID : string;
  I_StartedAt : Z;
  I_Status : string;
  I_Version : Z;
  I_EnvPath : string;
  I_StartTicks : Z
}.

Definition inst_PID (v : Z) (s : Instance) : Instance :=
  mkInstance (I_SecretEnvs s) (I_Slot s) v (I_Port s) (I_BinaryPath s) (I_ContainerID s)
    (I_StartedAt s) (I_Status s) (I_Version s) (I_EnvPath s) (I_StartTicks s).
Definition inst_ContainerID (v : string) (s : Instance) : Instance :=
  mkInstance (I_SecretEnvs s) (I_Slot s) (I_PID s) (I_Port s) (I_BinaryPath s) v (I_StartedAt
    s) (I_Status s) (I_Version s) (I_EnvPath s) (I_StartTicks s).
Definition inst_Status (v : string) (s : Instance) : Instance :=
  mkInstance (I_SecretEnvs s) (I_Slot s) (I_PID s) (I_Port s) (I_BinaryPath s) (I_ContainerID
    s) (I_StartedAt s) v (I_Version s) (I_EnvPath s) (I_StartTicks s).

(* src: internal/deploy/state.go CanaryState *)
Record CanaryState := mkCanary {
  C_Version : Z;
  C_Strategy : string;
  C_Slot : string;
  C_Step : Z;
  C_Steps : Z;
  C_TrafficPercent : Z;
  C_Status : string;
  C_Reason : string;
  C_StartedAt : Z;
  C_UpdatedAt : Z
}.

(* src: internal/deploy/state.go HealthSummary *)
Record HealthSummary := mkHealthSummary {
  H_Tier : Z;
  H_TierLabel : string;
  H_HealthyAt : Z
}.

(* src: internal/deploy/state.go RollbackRecord *)
Record RollbackRecord := mkRollbackRecord { RB_FromVersion : Z; RB_ToVersion : Z; RB_At : Z }.

(* src: internal/deploy/state.go:43-48 WorkerRolloutRunning *)
Definition WorkerRolloutRunning := "running".
Definition WorkerRolloutDone := "done".
Definition WorkerRolloutReverting := "reverting".
Definition WorkerRolloutRecoveryRequired := "recovery_required".

(* src: internal/deploy/state.go WorkerRollout *)
Record WorkerRollout := mkWorkerRollout {
  WR_Version : Z;
  WR_Strategy : string;
  WR_Status : string;
  WR_Reason : string;
  WR_ReplacedFrom : gmap string Z;
  WR_StartedAt : Z;
  WR_UpdatedAt : Z
}.

(* src: internal/deploy/state.go DeployState *)
Record DeployState := mkState {
  D_AppName : string;
  D_AppID : string;
  D_Mode : string;
  D_Runtime : string;
  D_Network : string;
  D_PublicPort : Z;
  D_ActiveSlot : string;
  D_Slots : gmap string Instance;
  D_Replicas : gmap string Instance;
  D_Health : option HealthSummary;
  D_ActiveVersion : Z;
  D_Canary : option CanaryState;
  D_SecretCleanupPending : bool;
  D_SecretTxnID : string;
  D_Retiring : list Instance;
  D_secretPreparing : bool;
  D_UpdatedAt : Z;
  D_GraceSeconds : Z;
  D_LastRollback : option RollbackRecord;
  D_WorkerRollout : option WorkerRollout
}.

Definition with_AppName (v : string) (s : DeployState) : DeployState :=
  mkState v (D_AppID s) (D_Mode s) (D_Runtime s) (D_Network s) (D_PublicPort s) (D_ActiveSlot
    s) (D_Slots s) (D_Replicas s) (D_Health s) (D_ActiveVersion s) (D_Canary s)
    (D_SecretCleanupPending s) (D_SecretTxnID s) (D_Retiring s) (D_secretPreparing s)
    (D_UpdatedAt s) (D_GraceSeconds s)
    (D_LastRollback s) (D_WorkerRollout s).
Definition with_AppID (v : string) (s : DeployState) : DeployState :=
  mkState (D_AppName s) v (D_Mode s) (D_Runtime s) (D_Network s) (D_PublicPort s)
    (D_ActiveSlot s) (D_Slots s) (D_Replicas s) (D_Health s) (D_ActiveVersion s) (D_Canary s)
    (D_SecretCleanupPending s) (D_SecretTxnID s) (D_Retiring s) (D_secretPreparing s)
    (D_UpdatedAt s) (D_GraceSeconds s)
    (D_LastRollback s) (D_WorkerRollout s).
Definition with_Mode (v : string) (s : DeployState) : DeployState :=
  mkState (D_AppName s) (D_AppID s) v (D_Runtime s) (D_Network s) (D_PublicPort s)
    (D_ActiveSlot s) (D_Slots s) (D_Replicas s) (D_Health s) (D_ActiveVersion s) (D_Canary s)
    (D_SecretCleanupPending s) (D_SecretTxnID s) (D_Retiring s) (D_secretPreparing s)
    (D_UpdatedAt s) (D_GraceSeconds s)
    (D_LastRollback s) (D_WorkerRollout s).
Definition with_Runtime (v : string) (s : DeployState) : DeployState :=
  mkState (D_AppName s) (D_AppID s) (D_Mode s) v (D_Network s) (D_PublicPort s) (D_ActiveSlot
    s) (D_Slots s) (D_Replicas s) (D_Health s) (D_ActiveVersion s) (D_Canary s)
    (D_SecretCleanupPending s) (D_SecretTxnID s) (D_Retiring s) (D_secretPreparing s)
    (D_UpdatedAt s) (D_GraceSeconds s)
    (D_LastRollback s) (D_WorkerRollout s).
Definition with_Network (v : string) (s : DeployState) : DeployState :=
  mkState (D_AppName s) (D_AppID s) (D_Mode s) (D_Runtime s) v (D_PublicPort s) (D_ActiveSlot
    s) (D_Slots s) (D_Replicas s) (D_Health s) (D_ActiveVersion s) (D_Canary s)
    (D_SecretCleanupPending s) (D_SecretTxnID s) (D_Retiring s) (D_secretPreparing s)
    (D_UpdatedAt s) (D_GraceSeconds s)
    (D_LastRollback s) (D_WorkerRollout s).
Definition with_PublicPort (v : Z) (s : DeployState) : DeployState :=
  mkState (D_AppName s) (D_AppID s) (D_Mode s) (D_Runtime s) (D_Network s) v (D_ActiveSlot s)
    (D_Slots s) (D_Replicas s) (D_Health s) (D_ActiveVersion s) (D_Canary s)
    (D_SecretCleanupPending s) (D_SecretTxnID s) (D_Retiring s) (D_secretPreparing s)
    (D_UpdatedAt s) (D_GraceSeconds s)
    (D_LastRollback s) (D_WorkerRollout s).
Definition with_ActiveSlot (v : string) (s : DeployState) : DeployState :=
  mkState (D_AppName s) (D_AppID s) (D_Mode s) (D_Runtime s) (D_Network s) (D_PublicPort s) v
    (D_Slots s) (D_Replicas s) (D_Health s) (D_ActiveVersion s) (D_Canary s)
    (D_SecretCleanupPending s) (D_SecretTxnID s) (D_Retiring s) (D_secretPreparing s)
    (D_UpdatedAt s) (D_GraceSeconds s)
    (D_LastRollback s) (D_WorkerRollout s).
Definition with_Slots (v : gmap string Instance) (s : DeployState) : DeployState :=
  mkState (D_AppName s) (D_AppID s) (D_Mode s) (D_Runtime s) (D_Network s) (D_PublicPort s)
    (D_ActiveSlot s) v (D_Replicas s) (D_Health s) (D_ActiveVersion s) (D_Canary s)
    (D_SecretCleanupPending s) (D_SecretTxnID s) (D_Retiring s) (D_secretPreparing s)
    (D_UpdatedAt s) (D_GraceSeconds s)
    (D_LastRollback s) (D_WorkerRollout s).
Definition with_Replicas (v : gmap string Instance) (s : DeployState) : DeployState :=
  mkState (D_AppName s) (D_AppID s) (D_Mode s) (D_Runtime s) (D_Network s) (D_PublicPort s)
    (D_ActiveSlot s) (D_Slots s) v (D_Health s) (D_ActiveVersion s) (D_Canary s)
    (D_SecretCleanupPending s) (D_SecretTxnID s) (D_Retiring s) (D_secretPreparing s)
    (D_UpdatedAt s) (D_GraceSeconds s)
    (D_LastRollback s) (D_WorkerRollout s).
Definition with_Health (v : option HealthSummary) (s : DeployState) : DeployState :=
  mkState (D_AppName s) (D_AppID s) (D_Mode s) (D_Runtime s) (D_Network s) (D_PublicPort s)
    (D_ActiveSlot s) (D_Slots s) (D_Replicas s) v (D_ActiveVersion s) (D_Canary s)
    (D_SecretCleanupPending s) (D_SecretTxnID s) (D_Retiring s) (D_secretPreparing s)
    (D_UpdatedAt s) (D_GraceSeconds s)
    (D_LastRollback s) (D_WorkerRollout s).
Definition with_ActiveVersion (v : Z) (s : DeployState) : DeployState :=
  mkState (D_AppName s) (D_AppID s) (D_Mode s) (D_Runtime s) (D_Network s) (D_PublicPort s)
    (D_ActiveSlot s) (D_Slots s) (D_Replicas s) (D_Health s) v (D_Canary s)
    (D_SecretCleanupPending s) (D_SecretTxnID s) (D_Retiring s) (D_secretPreparing s)
    (D_UpdatedAt s) (D_GraceSeconds s)
    (D_LastRollback s) (D_WorkerRollout s).
Definition with_Canary (v : option CanaryState) (s : DeployState) : DeployState :=
  mkState (D_AppName s) (D_AppID s) (D_Mode s) (D_Runtime s) (D_Network s) (D_PublicPort s)
    (D_ActiveSlot s) (D_Slots s) (D_Replicas s) (D_Health s) (D_ActiveVersion s) v
    (D_SecretCleanupPending s) (D_SecretTxnID s) (D_Retiring s) (D_secretPreparing s)
    (D_UpdatedAt s) (D_GraceSeconds s)
    (D_LastRollback s) (D_WorkerRollout s).
Definition with_SecretCleanupPending (v : bool) (s : DeployState) : DeployState :=
  mkState (D_AppName s) (D_AppID s) (D_Mode s) (D_Runtime s) (D_Network s) (D_PublicPort s)
    (D_ActiveSlot s) (D_Slots s) (D_Replicas s) (D_Health s) (D_ActiveVersion s) (D_Canary s)
    v (D_SecretTxnID s) (D_Retiring s) (D_secretPreparing s) (D_UpdatedAt s) (D_GraceSeconds s)
    (D_LastRollback s) (D_WorkerRollout s).
Definition with_SecretTxnID (v : string) (s : DeployState) : DeployState :=
  mkState (D_AppName s) (D_AppID s) (D_Mode s) (D_Runtime s) (D_Network s) (D_PublicPort s)
    (D_ActiveSlot s) (D_Slots s) (D_Replicas s) (D_Health s) (D_ActiveVersion s) (D_Canary s)
    (D_SecretCleanupPending s) v (D_Retiring s) (D_secretPreparing s) (D_UpdatedAt s) (D_GraceSeconds s)
    (D_LastRollback s) (D_WorkerRollout s).
Definition with_Retiring (v : list Instance) (s : DeployState) : DeployState :=
  mkState (D_AppName s) (D_AppID s) (D_Mode s) (D_Runtime s) (D_Network s) (D_PublicPort s)
    (D_ActiveSlot s) (D_Slots s) (D_Replicas s) (D_Health s) (D_ActiveVersion s) (D_Canary s)
    (D_SecretCleanupPending s) (D_SecretTxnID s) v (D_secretPreparing s) (D_UpdatedAt s) (D_GraceSeconds s)
    (D_LastRollback s) (D_WorkerRollout s).
Definition with_secretPreparing (v : bool) (s : DeployState) : DeployState :=
  mkState (D_AppName s) (D_AppID s) (D_Mode s) (D_Runtime s) (D_Network s) (D_PublicPort s)
    (D_ActiveSlot s) (D_Slots s) (D_Replicas s) (D_Health s) (D_ActiveVersion s) (D_Canary s)
    (D_SecretCleanupPending s) (D_SecretTxnID s) (D_Retiring s) v (D_UpdatedAt s) (D_GraceSeconds s)
    (D_LastRollback s) (D_WorkerRollout s).
Definition with_UpdatedAt (v : Z) (s : DeployState) : DeployState :=
  mkState (D_AppName s) (D_AppID s) (D_Mode s) (D_Runtime s) (D_Network s) (D_PublicPort s)
    (D_ActiveSlot s) (D_Slots s) (D_Replicas s) (D_Health s) (D_ActiveVersion s) (D_Canary s)
    (D_SecretCleanupPending s) (D_SecretTxnID s) (D_Retiring s) (D_secretPreparing s) v (D_GraceSeconds s)
    (D_LastRollback s) (D_WorkerRollout s).
Definition with_LastRollback (v : option RollbackRecord) (s : DeployState) : DeployState :=
  mkState (D_AppName s) (D_AppID s) (D_Mode s) (D_Runtime s) (D_Network s) (D_PublicPort s)
    (D_ActiveSlot s) (D_Slots s) (D_Replicas s) (D_Health s) (D_ActiveVersion s) (D_Canary s)
    (D_SecretCleanupPending s) (D_SecretTxnID s) (D_Retiring s) (D_secretPreparing s)
    (D_UpdatedAt s) (D_GraceSeconds s) v (D_WorkerRollout s).
Definition with_WorkerRollout (v : option WorkerRollout) (s : DeployState) : DeployState :=
  mkState (D_AppName s) (D_AppID s) (D_Mode s) (D_Runtime s) (D_Network s) (D_PublicPort s)
    (D_ActiveSlot s) (D_Slots s) (D_Replicas s) (D_Health s) (D_ActiveVersion s) (D_Canary s)
    (D_SecretCleanupPending s) (D_SecretTxnID s) (D_Retiring s) (D_secretPreparing s)
    (D_UpdatedAt s) (D_GraceSeconds s) (D_LastRollback s) v.

(** [&Instance{Slot: slot, Status: "stopped"}]. *)
Definition stopped_instance (slot : string) : Instance :=
  mkInstance [] slot 0 0 "" "" 0 "stopped" 0 "" 0.

(** [inst.PID > 0 || inst.ContainerID != ""]: the record names a process. *)
Definition recorded (i : Instance) : bool := ((0 <? I_PID i) || (I_ContainerID i <>s ""))%bool.

(* src: internal/deploy/instance.go hostPort *)
Definition hostPort (port : Z) : string := "127.0.0.1:" +:+ Itoa port.

Lemma hostPort_inj p1 p2 : hostPort p1 = hostPort p2 → p1 = p2.
Proof. unfold hostPort, Itoa. intros Heq%(inj (String.app _)). by apply (inj pretty) in Heq. Qed.

(** ** The journal file *)

(* src: internal/deploy/version.go:23-23 appNameRe *)
Definition appNameRe : re :=
  let rest c := (cls_alnum_dash c || (c =? "_")%char || (c =? ".")%char)%bool in
  let first c := (cls_alnum_dash c || (c =? "_")%char)%bool in
  RSeq (RClass first) (foldr (λ _ r, ROpt (RSeq (RClass rest) r)) REps (seq 0 63)).

(* src: internal/deploy/version.go ValidateAppName *)
Definition ValidateAppName (name : string) : res unit :=
  fail_if (negb (match_string appNameRe name)) (New CodeInvalidArgument
    ("invalid application name " +:+ Quote name +:+
     ": use letters, digits, dot, dash or underscore (1-64 characters, no path separators)")).

(** The directory of one application: the journal and leftover temporaries. *)
Abbreviation journal := (gmap string (content DeployState)).

Definition deploy_json := "deploy.json".

(** The calls of [Store], with the clean-up of its deferred functions. *)
(* src: internal/deploy/state.go:371-404 Store *)
Definition store_prog (tmp : string) (s : DeployState) : list (guarded DeployState) :=
  let raw call cl := {| call := call; fatal := true; on_err := os_err; cleanup := cl |} in
  let undo := [SClose; SRemove tmp] in
  [ must SMkdir CodeFilesystem "deploy: create state dir" [];
    raw (SCreate tmp) [];
    raw (SWrite tmp s) undo;
    raw SSync undo;
    raw SClose undo;
    raw (SRename tmp deploy_json) undo;
    raw SOpenDir undo;
    raw SSyncDir undo ].

(** [Store] also updates the record in memory: the pair's second component. *)
(* src: internal/deploy/state.go Store *)
Definition Store (fl : faults) (now : Z) (s : DeployState) (j : journal)
  : res unit * DeployState * journal :=
  if D_AppName s =s "" then
    (Err (New CodeInvalidArgument "deploy: cannot store state without an app name"), s, j)
  else if D_secretPreparing s then (Ok tt, s, j)
  else
    let s := if D_SecretTxnID s =s "" then with_SecretCleanupPending false s else s in
    match ValidateAppName (D_AppName s) with
    | Err e => (Err e, s, j)
    | Ok _ =>
        match fl op_mkdir with
        | Some t => (Err (wrap CodeFilesystem "deploy: create state dir" (os_err (ErrIO t))), s, j)
        | None =>
            let s := with_UpdatedAt now s in
            let '(r, j) := run_prog fl (store_prog (fresh_string ".deploy-" j) s) j in (r, s, j)
        end
    end.

(** What [Load] returns: the state, no file, or an error. *)
Inductive loaded := Loaded (s : DeployState) | NoState | LoadError (e : error).

Definition valid_mode (m : string) : bool :=
  one_of m [""; ModeClassic; ModeBlueGreen; ModeRolling; ModeWorker].

(* src: internal/deploy/state.go Load *)
Definition Load (fl : faults) (appName : string) (j : journal) : loaded :=
  match ValidateAppName appName with
  | Err e => LoadError e
  | Ok _ =>
      match j !! deploy_json with
      | None => NoState
      | Some data =>
          match fl op_read with
          | Some t => LoadError (os_err (ErrIO t))
          | None =>
              match data with
              | Garbage => LoadError (wrap CodeConfiguration "deploy: decode"
                                        (Foreign "invalid JSON" None))
              | Data s =>
                  if ((D_AppName s <>s appName) || negb (valid_mode (D_Mode s)))%bool
                  then LoadError (New CodeConfiguration
                         "deployment journal has an invalid app identity or strategy")
                  else Loaded s
              end
          end
      end
  end.

(** A state as [encoding/json] reads it back. *)
Definition stored_form (s : DeployState) : DeployState := with_secretPreparing false s.

Definition slots_stopped : gmap string Instance :=
  {[ SlotBlue := stopped_instance SlotBlue; SlotGreen := stopped_instance SlotGreen ]}.

Definition empty_state (appName mode : string) (publicPort : Z)
    (slots : gmap string Instance) : DeployState :=
  mkState appName "" mode "" "" publicPort "" slots ∅ None 0 None false "" [] false 0 0 None None.

(* src: internal/deploy/state.go LoadOrInit *)
Definition LoadOrInit (fl : faults) (appName mode : string) (publicPort : Z) (j : journal)
  : res DeployState :=
  match Load fl appName j with
  | Loaded s => Ok s
  | LoadError e => Err e
  | NoState => Ok (empty_state appName mode publicPort
                     (if mode =s ModeBlueGreen then slots_stopped else ∅))
  end.

(* src: internal/deploy/state.go LoadZeroDowntime *)
Definition LoadZeroDowntime (fl : faults) (appName : string) (j : journal)
  : res (option DeployState) :=
  match Load fl appName j with
  | LoadError e => Err e
  | NoState => Ok None
  | Loaded s =>
      if ((D_Mode s <>s ModeBlueGreen) && (D_Mode s <>s ModeRolling))%bool then Ok None
      else Ok (Some s)
  end.

(* src: internal/deploy/state.go RemoveState *)
Definition RemoveState (fl : faults) (appName : string) (j : journal) : res unit * journal :=
  match ValidateAppName appName with
  | Err e => (Err e, j)
  | Ok _ =>
      match do_syscall fl (SRemove deploy_json) j with
      | Ok j' => (Ok tt, j')
      | Err ErrNotExist => (Ok tt, j)
      | Err e => (Err (os_err e), j)
      end
  end.

(** ** Strategy *)

(* src: internal/deploy/state.go DeployState.InactiveSlot *)
Definition InactiveSlot (s : DeployState) : string :=
  if D_ActiveSlot s =s SlotBlue then SlotGreen else SlotBlue.

(* src: internal/deploy/state.go modeSnapshot *)
Record modeSnapshot := mkSnapshot {
  m_mode : string;
  m_activeSlot : string;
  m_slots : gmap string Instance;
  m_replicas : gmap string Instance
}.

(* src: internal/deploy/state.go captureMode *)
Definition captureMode (s : DeployState) : modeSnapshot :=
  mkSnapshot (D_Mode s) (D_ActiveSlot s) (D_Slots s) (D_Replicas s).

(* src: internal/deploy/state.go DeployState.restoreMode *)
Definition restoreMode (m : modeSnapshot) (s : DeployState) : DeployState :=
  with_Mode (m_mode m) (with_ActiveSlot (m_activeSlot m)
    (with_Slots (m_slots m) (with_Replicas (m_replicas m) s))).

(** Go ranges over a map in an unspecified order: [order] is the order of one
    run, an arbitrary permutation of the keys. *)
Definition in_order (order : list string → list string) (m : gmap string Instance)
  : list (string * Instance) :=
  omap (λ k, (λ i, (k, i)) <$> m !! k) (order (map_to_list m).*1).

(** The record after a migration and the instances it retires. *)
(* src: internal/deploy/state.go:290-321 DeployState.MigrateTo *)
Definition migrated (order : list string → list string) (mode : string) (s : DeployState)
  : DeployState * list Instance :=
  let retired := List.filter recorded ((in_order order (D_Slots s)).*2 ++
                                       (in_order order (D_Replicas s)).*2) in
  (with_Mode mode (with_ActiveSlot ""
     (with_Slots (if mode =s ModeBlueGreen then slots_stopped else ∅)
        (with_Replicas ∅ s))), retired).

(* src: internal/deploy/state.go DeployState.ActiveInstance *)
Definition ActiveInstance (s : DeployState) : option Instance :=
  if D_Mode s =s ModeBlueGreen then
    if D_ActiveSlot s =s "" then None else D_Slots s !! D_ActiveSlot s
  else None.

(** ** Liveness

    What the operating system and the container runtime answer. *)

(** [docker inspect]: an error (with what [isDockerNotRunning] says of it) or
    its output. *)
Inductive inspected := InspectError (not_running : bool) | InspectOutput (out : string).

Record os_view := mkOS {
  os_pid_alive : Z → bool;           (* [processex.Alive] *)
  os_start_ticks : Z → option Z;     (* [processex.Identity], its start time *)
  os_exe : Z → string;               (* the executable of a process *)
  os_find : Z → bool;                (* [os.FindProcess] succeeds *)
  os_same_path : string → string → bool;  (* equal after cleaning or resolving links *)
  os_inspect : string → inspected
}.

(** [strings.Cut(s, "|")]. *)
Fixpoint cut_bar (s : string) : string * string * bool :=
  match s with
  | EmptyString => ("", "", false)
  | String c s' =>
      if Ascii.eqb c "|" then ("", s', true)
      else let '(a, b, ok) := cut_bar s' in
           if ok : bool then (String c a, b, true) else (s, "", false)
  end.

Section Liveness.
Variable os : os_view.

(* src: internal/deploy/docker_identity.go dockerContainerAlive *)
Definition dockerContainerAlive (containerID : string) : bool :=
  if containerID =s "" then false
  else match os_inspect os containerID with
  | InspectError not_running => negb not_running
  | InspectOutput out =>
      let '(running, managed, ok) := cut_bar (TrimSpace out) in
      if negb ok then false else ((running =s "true") && (managed =s "true"))%bool
  end.

(* src: internal/deploy/instance.go sameExecutable *)
Definition sameExecutable (exe want : string) : bool :=
  if ((exe =s "") || (want =s ""))%bool then false
  else
    let trim s := if HasSuffix s " (deleted)"
                  then take_str (String.length s - String.length " (deleted)") s else s in
    os_same_path os (trim exe) (trim want).

(** Whether a handle is returned. *)
(* src: internal/deploy/instance.go findVerifiedProcess *)
Definition findVerifiedProcess (pid : Z) (expectBinary : string) : bool :=
  if ((pid <=? 0) || negb (os_pid_alive os pid))%bool then false
  else if ((expectBinary <>s "") && negb (sameExecutable (os_exe os pid) expectBinary))%bool then false
  else os_find os pid.

(* src: internal/deploy/docker_identity.go instanceAliveViaRuntime *)
Definition InstanceAlive (inst : Instance) : bool :=
  if I_ContainerID inst <>s "" then dockerContainerAlive (I_ContainerID inst)
  else if I_PID inst <=? 0 then false
  else if (negb (I_StartTicks inst =? 0) &&
           match os_start_ticks os (I_PID inst) with
           | None => true
           | Some t => negb (t =? I_StartTicks inst)
           end)%bool then false
  else findVerifiedProcess (I_PID inst) (I_BinaryPath inst).

(** ** What the journal claims, and what is true *)

Definition atoi0 (s : string) : Z := default 0 (Atoi s).

(* src: internal/deploy/lifecycle.go sortedReplicaKeys *)
Definition sortedReplicaKeys (m : gmap string Instance) : list string :=
  sort_by (λ x y, match Atoi x, Atoi y with
                  | Some a, Some b => a <? b
                  | _, _ => String.ltb x y
                  end) (map_to_list m).*1.

(** The instances at [keys], in that order. *)
Definition instances_at (m : gmap string Instance) (keys : list string) : list Instance :=
  omap (λ k, m !! k) keys.

(* src: internal/deploy/lifecycle.go instancesServing *)
Definition instancesServing (s : DeployState) : list Instance :=
  if D_Mode s =s ModeBlueGreen then
    match ActiveInstance s with
    | Some i => if recorded i then [i] else []
    | None => []
    end
  else if D_Mode s =s ModeRolling then
    List.filter recorded (instances_at (D_Replicas s) (sortedReplicaKeys (D_Replicas s)))
  else if D_Mode s =s ModeWorker then
    instances_at (D_Replicas s) (sortedReplicaKeys (D_Replicas s))
  else [].

(* src: internal/deploy/lifecycle.go DeployState.ServingInstance *)
Definition ServingInstance (s : DeployState) : option Instance :=
  if D_Mode s =s ModeBlueGreen then ActiveInstance s
  else if D_Mode s =s ModeClassic then D_Slots s !! ModeClassic
  else if one_of (D_Mode s) [ModeRolling; ModeWorker] then
    List.find InstanceAlive (instances_at (D_Replicas s) (sortedReplicaKeys (D_Replicas s)))
  else None.

(* src: internal/deploy/lifecycle.go LifecycleDecision *)
Record LifecycleDecision := mkDecision {
  L_Status : string;
  L_Alive : Z;
  L_Desired : Z;
  L_PID : Z;
  L_StartTicks : Z;
  L_StartedAt : Z;
  L_PublicPort : Z
}.

(** The loop over the serving instances. *)
(* src: internal/deploy/lifecycle.go:178-188 DecideLifecycle *)
Definition count_alive (d : LifecycleDecision) (inst : Instance) : LifecycleDecision :=
  if negb (InstanceAlive inst) then d
  else
    let d := if L_PID d =? 0
             then mkDecision (L_Status d) (L_Alive d) (L_Desired d) (I_PID inst)
                    (I_StartTicks inst) (I_StartedAt inst) (L_PublicPort d)
             else d in
    mkDecision (L_Status d) (L_Alive d + 1) (L_Desired d) (L_PID d) (L_StartTicks d)
      (L_StartedAt d) (L_PublicPort d).

(* src: internal/deploy/lifecycle.go DecideLifecycle *)
Definition DecideLifecycle (s : DeployState) : LifecycleDecision :=
  let serving := instancesServing s in
  let d := foldl count_alive (mkDecision "" 0 (len serving) 0 0 0 (D_PublicPort s)) serving in
  let status :=
    if ((L_Desired d =? 0) || (L_Alive d =? 0))%bool then "stopped"
    else if L_Alive d <? L_Desired d then "degraded" else "running" in
  mkDecision status (L_Alive d) (L_Desired d) (L_PID d) (L_StartTicks d) (L_StartedAt d)
    (L_PublicPort d).

(** The closure [fix]. *)
(* src: internal/deploy/lifecycle.go:216-230 DeployState.Reconcile *)
Definition fix_instance (inst : Instance) : Instance :=
  let alive := InstanceAlive inst in
  if (negb alive && (0 <? I_PID inst))%bool then inst_Status "stopped" (inst_PID 0 inst)
  else if (alive && (I_Status inst <>s "running"))%bool then inst_Status "running" inst
  else inst.

(** What [Reconcile] leaves in memory; it is stored when it differs. *)
(* src: internal/deploy/lifecycle.go:231-239 DeployState.Reconcile *)
Definition reconciled (s : DeployState) : DeployState :=
  if D_Mode s =s ModeBlueGreen then with_Slots (fix_instance <$> D_Slots s) s
  else with_Replicas (fix_instance <$> D_Replicas s) s.

(** Whether [fix] touched an instance. *)
Definition needs_fix (inst : Instance) : bool :=
  let alive := InstanceAlive inst in
  ((negb alive && (0 <? I_PID inst)) || (alive && (I_Status inst <>s "running")))%bool.

(* src: internal/deploy/lifecycle.go DeployState.Reconcile *)
Definition Reconcile (fl : faults) (now : Z) (s : DeployState) (j : journal)
  : res LifecycleDecision * DeployState * journal :=
  let d := DecideLifecycle s in
  let m := if D_Mode s =s ModeBlueGreen then D_Slots s else D_Replicas s in
  if negb (existsb needs_fix (map_to_list m).*2) then (Ok d, s, j)
  else match Store fl now (reconciled s) j with
  | (Ok _, s, j) => (Ok d, s, j)
  | (Err e, s, j) =>
      (Err (wrap CodeFilesystem ("deploy: persist reconciled state for " +:+ D_AppName s) e), s, j)
  end.

(* src: internal/deploy/lifecycle.go:263-287 ReapStaleInstances *)
Definition reap (inst : Instance) : Instance :=
  if I_ContainerID inst <>s "" then
    if negb (dockerContainerAlive (I_ContainerID inst)) then inst_Status "stopped" (inst_PID 0 inst)
    else inst
  else if I_PID inst <=? 0 then inst
  else if negb (os_pid_alive os (I_PID inst)) then inst_Status "stopped" (inst_PID 0 inst)
  else inst.

(* src: internal/deploy/lifecycle.go ReapStaleInstances *)
Definition ReapStaleInstances (s : DeployState) : DeployState :=
  with_Slots (reap <$> D_Slots s) (with_Replicas (reap <$> D_Replicas s) s).
End Liveness.

Lemma reap_cases os i : reap os i = i ∨ reap os i = inst_Status "stopped" (inst_PID 0 i).
Proof.
  unfold reap. destruct (I_ContainerID i <>s ""); [destruct (negb _); auto|].
  destruct (I_PID i <=? 0); [auto|]. destruct (negb _); auto.
Qed.

Lemma reap_port os i : I_Port (reap os i) = I_Port i.
Proof. by destruct (reap_cases os i) as [-> | ->]. Qed.

(** Reaping brings nothing to life. *)
Lemma reap_alive os os' i : InstanceAlive os' (reap os i) = true → InstanceAlive os' i = true.
Proof.
  destruct (reap_cases os i) as [-> | ->]; [done|]. unfold InstanceAlive. simpl.
  by destruct (I_ContainerID i <>s "").
Qed.

Lemma alive_reap os i : InstanceAlive os i = true → reap os i = i.
Proof.
  unfold InstanceAlive, reap, findVerifiedProcess.
  destruct (I_ContainerID i <>s ""); [by intros ->|].
  destruct (I_PID i <=? 0); [done|]. destruct (os_pid_alive os (I_PID i)); [done|].
  rewrite orb_true_r. by repeat case_match.
Qed.

(** ** Replicas of the rolling strategy *)

(* src: internal/deploy/rolling.go replicaIndices *)
Definition replicaIndices (m : gmap string Instance) : list string :=
  sort_by (λ x y, atoi0 x <? atoi0 y) (map_to_list m).*1.

(** [strconv.Itoa(i)] for [i < n]. *)
Definition replica_keys (n : Z) : list string := (λ i, Itoa (Z.of_nat i)) <$> seq 0 (Z.to_nat n).

(* src: internal/deploy/rolling.go ensureReplicaMap *)
Definition ensureReplicaMap (existing : gmap string Instance) (n : Z) : gmap string Instance :=
  list_to_map ((λ k, (k, default (stopped_instance k) (existing !! k))) <$> replica_keys n).

(** A key beyond the desired count, or not a number. *)
Definition beyond (n : Z) (k : string) : bool :=
  match Atoi k with None => true | Some idx => n <=? idx end.

(** The surplus, sorted by slot, and the remaining map. *)
(* src: internal/deploy/rolling.go applyReplicaSet *)
Definition applyReplicaSet (order : list string → list string) (existing : gmap string Instance)
    (n : Z) : list Instance * gmap string Instance :=
  let out := List.filter (λ p, beyond n p.1) (in_order order existing) in
  (sort_by (λ x y, String.ltb (I_Slot x) (I_Slot y)) (List.filter recorded out.*2),
   foldl (λ m p, delete p.1 m) existing out).

(** A replica that takes traffic. *)
Definition in_rotation (inst : Instance) : bool :=
  ((I_Status inst =s "running") && negb (I_Port inst =? 0))%bool.

Lemma rotation_reap os i : in_rotation (reap os i) = true → reap os i = i.
Proof. by destruct (reap_cases os i) as [-> | ->]. Qed.

(* src: internal/deploy/rolling.go healthyTargets *)
Definition healthyTargets (replicas : gmap string Instance) : Target * list Target :=
  let targets := omap (λ k, match replicas !! k with
                            | Some inst => if in_rotation inst
                                then Some (mkTarget (hostPort (I_Port inst)) ("replica-" +:+ k) 0)
                                else None
                            | None => None
                            end) (replicaIndices replicas) in
  match targets with
  | [] => (mkTarget "127.0.0.1:0" "none" 0, [])
  | primary :: backends => (primary, backends)
  end.

(* src: internal/deploy/rolling.go membershipAfterReplace *)
Definition membershipAfterReplace (replicas : gmap string Instance) (key : string) (newPort : Z)
  : Target * list Target :=
  healthyTargets (map_imap (λ k v, Some (if k =s key
      then mkInstance [] key 0 newPort "" "" 0 "running" 0 "" 0 else v)) replicas).

(* src: internal/deploy/rolling.go restoreReplica *)
Definition restoreReplica (key : string) (old : option Instance) (s : DeployState) : DeployState :=
  with_Replicas (<[key := default (stopped_instance key) old]> (D_Replicas s)) s.

(* src: internal/deploy/rolling.go wrapDeployStep *)
Definition wrapDeployStep (err : error) (message : string) : error :=
  let code := CodeOf (Some err) in
  wrap (if decide (code = CodeUnknown) then CodeDeployFailed else code) message err.

(** ** Persistence *)

Definition journal_tmp (j : journal) : string := fresh_string ".deploy-" j.

Lemma journal_tmp_ne j : journal_tmp j ≠ deploy_json.
Proof. unfold journal_tmp. by destruct (fresh_string_prefix j ".deploy-") as [t ->]. Qed.

Lemma journal_tmp_fresh j : j !! journal_tmp j = None.
Proof. apply fresh_string_fresh. Qed.

(** A state that [Store] writes. *)
Definition storable (s : DeployState) : Prop :=
  ValidateAppName (D_AppName s) = Ok tt ∧ D_secretPreparing s = false.

(** The record as [Store] leaves it in memory. *)
Definition stamped (now : Z) (s : DeployState) : DeployState :=
  with_UpdatedAt now (if D_SecretTxnID s =s "" then with_SecretCleanupPending false s else s).

Lemma store_atomic fl tmp s (j : journal) :
  tmp ≠ deploy_json →
  Forall (atomic_at j tmp deploy_json s) (crash_states fl (store_prog tmp s) j).
Proof.
  intros Hne. unfold crash_states, store_prog, atomic_at. simpl. unfold do_ignored. run_syscalls fl j tmp;
  repeat (apply Forall_cons; split); try apply Forall_nil; simpl; auto;
    (split; [|intros p Hp1 Hp2]); simplify_map_eq; auto.
Qed.

Lemma store_no_faults fl tmp s (j : journal) :
  (∀ o, fl o = None) → j !! tmp = None →
  run_prog fl (store_prog tmp s) j = (Ok tt, <[deploy_json := Data s]> j).
Proof.
  intros Hfl Htmp. unfold run_prog, store_prog. simpl. unfold do_syscall, syscall_effect.
  rewrite !Hfl. rewrite Htmp. simpl. simplify_map_eq. by rewrite insert_insert_eq, delete_insert_eq, delete_id.
Qed.

Lemma store_outcome fl tmp s (j : journal) :
  tmp ≠ deploy_json →
  let '(r, j') := run_prog fl (store_prog tmp s) j in
  match r with
  | Ok _ => j' !! deploy_json = Some (Data s)
  | Err _ => j' !! deploy_json = j !! deploy_json ∨ j' !! deploy_json = Some (Data s)
  end.
Proof.
  intros Hne. unfold run_prog, store_prog. simpl. unfold do_ignored. run_syscalls fl j tmp; simplify_map_eq; auto.
Qed.

(** How a [Store] can end. *)
Lemma Store_cases fl now s j :
  storable s →
  let '(r, s', j') := Store fl now s j in
  match r with
  | Ok _ => s' = stamped now s ∧ j' !! deploy_json = Some (Data s')
  | Err _ => j' !! deploy_json = j !! deploy_json ∨ j' !! deploy_json = Some (Data (stamped now s))
  end.
Proof.
  intros [Hv Hp]. unfold Store. destruct (D_AppName s =s "") eqn:E; [by left|]. rewrite Hp.
  set (s1 := if D_SecretTxnID s =s "" then _ else s).
  assert (D_AppName s1 = D_AppName s) as -> by (subst s1; by destruct (D_SecretTxnID s =s "")).
  rewrite Hv. destruct (fl op_mkdir); [by left|]. fold (journal_tmp j).
  pose proof (store_outcome fl (journal_tmp j) (stamped now s) j (journal_tmp_ne j)) as Hout.
  unfold stamped in Hout. fold s1 in Hout.
  destruct (run_prog _ _ _) as [[[]|e] j']; [by split|done].
Qed.

Lemma Store_no_faults fl now s j :
  (∀ o, fl o = None) → storable s →
  Store fl now s j = (Ok tt, stamped now s, <[deploy_json := Data (stamped now s)]> j).
Proof.
  intros Hfl [Hv Hp]. unfold Store. destruct (D_AppName s =s "") eqn:E.
  { bool_prop. rewrite E in Hv. vm_compute in Hv. done. }
  rewrite Hp. set (s1 := if D_SecretTxnID s =s "" then _ else s).
  assert (D_AppName s1 = D_AppName s) as -> by (subst s1; by destruct (D_SecretTxnID s =s "")).
  rewrite Hv, Hfl. fold (journal_tmp j). by rewrite store_no_faults by (done || apply journal_tmp_fresh).
Qed.

(** A journal write is atomic.  Whatever calls fail, and whatever the point
    at which the write stops, what a reader then loads is either exactly what
    it would have loaded before or exactly the state that was being written;
    after a success it is the latter, and no other file of the directory but
    one temporary differs. *)
Theorem Store_is_atomic fl fl' now app s j :
  storable s → D_AppName s = app → valid_mode (D_Mode s) = true → fl' op_read = None →
  (∀ st, st ∈ crash_states fl (store_prog (journal_tmp j) (stamped now s)) j →
     Load fl' app st = Load fl' app j ∨ Load fl' app st = Loaded (stamped now s)) ∧
  let '(r, s', j') := Store fl now s j in
  (Load fl' app j' = Load fl' app j ∨ Load fl' app j' = Loaded (stamped now s)) ∧
  (r = Ok tt → s' = stamped now s ∧ Load fl' app j' = Loaded s').
Proof.
  intros Hs Happ Hm Hr.
  assert (∀ st : journal, st !! deploy_json = j !! deploy_json → Load fl' app st = Load fl' app j) as Hold.
  { intros st Hst. unfold Load. by rewrite Hst. }
  assert (∀ st : journal, st !! deploy_json = Some (Data (stamped now s)) →
    Load fl' app st = Loaded (stamped now s)) as Hnew.
  { intros st Hst. unfold Load. destruct Hs as [Hv _]. rewrite Happ in Hv. rewrite Hv, Hst, Hr.
    assert (D_AppName (stamped now s) = app ∧ D_Mode (stamped now s) = D_Mode s) as [-> ->]
      by (unfold stamped; by destruct (D_SecretTxnID s =s "")).
    by rewrite String.eqb_refl, Hm. }
  split.
  - intros st Hst. pose proof (store_atomic fl (journal_tmp j) (stamped now s) j (journal_tmp_ne j)) as Ha.
    rewrite Forall_forall in Ha. destruct (Ha _ Hst) as [[?|?] _]; auto.
  - pose proof (Store_cases fl now s j Hs) as Hc. destruct (Store fl now s j) as [[[[]|e] s'] j'].
    + destruct Hc as [-> Hj]. split; [right|intros _; split; [done|]]; by apply Hnew.
    + split; [|done]. destruct Hc; [left|right]; auto.
Qed.

Lemma Store_is_atomic_witness :
  let s := empty_state "web" ModeRolling 80 ∅ in
  let j : journal := {[ deploy_json := Data (empty_state "web" ModeBlueGreen 80 slots_stopped) ]} in
  (Store (fault_at op_sync_dir) 9 s j).1.1 ≠ Ok tt ∧
  Load FileStore.no_faults "web" (Store (fault_at op_sync_dir) 9 s j).2 = Loaded (stamped 9 s) ∧
  ∀ st, st ∈ crash_states (fault_at op_sync_dir) (store_prog (journal_tmp j) (stamped 9 s)) j →
     Load FileStore.no_faults "web" st = Load FileStore.no_faults "web" j ∨
     Load FileStore.no_faults "web" st = Loaded (stamped 9 s).
Proof.
  cbv zeta. split; [by vm_compute|]. split; [by vm_compute|].
  by apply (Store_is_atomic (fault_at op_sync_dir) FileStore.no_faults 9 "web").
Defined.
