(* ===== verification/Versions.v ===== *)
(** * Versions: the build history of an application

    ~/.phelix/apps/<AppName>/ keeps versions.json, the stored binaries
    builds/vN/binary, the environment snapshots env/vN.enc and the link
    [current].  This file models internal/deploy/version.go: recording builds,
    promotion of the version that was deployed, the resolution of rollback
    targets, tags and version arguments, and the pruning that must never take
    a version in use.  Build reports, which nothing here reads, are left out of
    the rows. *)

From S2P Require Import Prelude GoLib FileStore ProxyRouting DeployState Errors.

(* src: internal/deploy/version.go MatrixArtifact *)
Record MatrixArtifact := mkArtifact {
  MA_Platform : string;
  MA_Version : string;
  MA_Binary : string;
  MA_ImageTag : string;
  MA_Status : string;
  MA_Error : string;
  MA_SizeBytes : Z;
  MA_MatrixRunID : string;
  MA_SHA256 : string
}.

(* src: internal/deploy/version.go VersionMeta *)
Record VersionMeta := mkVersion {
  V_Version : Z;
  V_Tag : string;
  V_GitCommit : string;
  V_BuiltAt : Z;
  V_SizeBytes : Z;
  V_DeployedAt : option Z;
  V_DeployMode : string;
  V_IsCurrent : bool;
  V_DockerImage : string;
  V_MatrixArtifacts : list MatrixArtifact;
  V_MultiArchImage : string
}.

Definition with_current (b : bool) (v : VersionMeta) : VersionMeta :=
  mkVersion (V_Version v) (V_Tag v) (V_GitCommit v) (V_BuiltAt v) (V_SizeBytes v) (V_DeployedAt v)
    (V_DeployMode v) b (V_DockerImage v) (V_MatrixArtifacts v) (V_MultiArchImage v).

Definition with_deployed (at_ms : Z) (mode : string) (v : VersionMeta) : VersionMeta :=
  mkVersion (V_Version v) (V_Tag v) (V_GitCommit v) (V_BuiltAt v) (V_SizeBytes v) (Some at_ms)
    mode (V_IsCurrent v) (V_DockerImage v) (V_MatrixArtifacts v) (V_MultiArchImage v).

(** [max int]: zero or less is unlimited. *)
(* src: internal/deploy/version.go RetentionPolicy *)
Inductive RetentionPolicy := DefaultRetention (max : Z) | UnlimitedRetention.

(* src: internal/deploy/version.go:118-136 DefaultRetention.MaxRetainedVersions *)
Definition MaxRetainedVersions (p : RetentionPolicy) : Z :=
  match p with
  | DefaultRetention max => if max <=? 0 then 5 else max
  | UnlimitedRetention => 0
  end.

(** [if policy == nil { policy = DefaultRetention{} }]. *)
Definition policy_or_default (p : option RetentionPolicy) : RetentionPolicy :=
  default (DefaultRetention 0) p.

(** The directory of the application. *)
Record vstore := mkVStore {
  vs_meta : option (content (list VersionMeta));   (* versions.json *)
  vs_binaries : gset Z;                            (* builds/vN/binary *)
  vs_envs : gset Z;                                (* env/vN.enc *)
  vs_current : option Z                            (* the target of [current] *)
}.

Definition set_meta (l : list VersionMeta) (s : vstore) : vstore :=
  mkVStore (Some (Data l)) (vs_binaries s) (vs_envs s) (vs_current s).

(** The calls that may fail, by the site that makes them. *)
Inductive vop :=
| v_read | v_mkdir | v_write_tmp | v_rename       (* saveVersions *)
| v_stage_mkdir | v_stage_write | v_stage_link | v_activate_meta | v_activate_link
| v_mkdir_build | v_copy | v_stat_binary | v_env_snapshot | v_stat_env.

#[export] Instance vop_eq_dec : EqDecision vop.
Proof. solve_decision. Defined.

Definition vfaults : Type := vop → option string.
Definition no_vfaults : vfaults := λ _, None.
Definition vfault_at (o : vop) : vfaults :=
  λ o', if decide (o = o') then Some "input/output error" else None.

Definition io (t : string) : error := os_err (ErrIO t).

(** [if err := call(); err != nil { return err }] with an error as it is, or
    wrapped. *)
Definition vcall (fl : vfaults) (o : vop) : res unit :=
  match fl o with Some t => Err (io t) | None => Ok tt end.
Definition vcall_wrap (fl : vfaults) (o : vop) (msg : string) : res unit :=
  match fl o with Some t => Err (wrap CodeFilesystem msg (io t)) | None => Ok tt end.

(** ** Reading *)

(* src: internal/deploy/version.go LoadVersions *)
Definition LoadVersions (fl : vfaults) (app : string) (s : vstore) : res (list VersionMeta) :=
  ValidateAppName app ≫= λ _,
  match vs_meta s with
  | None => Ok []
  | Some data =>
      vcall fl v_read ≫= λ _,
      match data with
      | Garbage => Err (wrap CodeConfiguration "deploy: decode versions.json"
                          (Foreign "invalid JSON" None))
      | Data l => Ok l
      end
  end.

(* src: internal/deploy/version.go NextVersion *)
Definition NextVersion (fl : vfaults) (app : string) (s : vstore) : res Z :=
  vf ← LoadVersions fl app s;
  Ok (foldl (λ m v, if m <? V_Version v then V_Version v else m) 0 vf + 1).

(** The version marked current in a list of rows, 0 when none is. *)
Definition current_of (vf : list VersionMeta) : Z :=
  match List.find V_IsCurrent vf with Some v => V_Version v | None => 0 end.

(* src: internal/deploy/version.go CurrentVersion *)
Definition CurrentVersion (fl : vfaults) (app : string) (s : vstore) : res Z :=
  vf ← LoadVersions fl app s; Ok (current_of vf).

(* src: internal/deploy/version.go CurrentVersionMeta *)
Definition CurrentVersionMeta (fl : vfaults) (app : string) (s : vstore) : res (option VersionMeta) :=
  vf ← LoadVersions fl app s; Ok (List.find V_IsCurrent vf).

(* src: internal/deploy/version.go versionExists *)
Definition versionExists (vf : list VersionMeta) (ver : Z) : bool :=
  existsb (λ v, V_Version v =? ver) vf.

(* src: internal/deploy/version.go formatAvailableVersions *)
Definition formatAvailableVersions (vf : list VersionMeta) : string :=
  match vf with
  | [] => "(none)"
  | _ => Join ((λ v, "v" +:+ Itoa v) <$> sort_by Z.ltb (V_Version <$> vf)) ", "
  end.

(** [builds/vN/binary] and [env/vN.enc], relative to the directory. *)
Definition binary_path (ver : Z) : string := "builds/v" +:+ Itoa ver +:+ "/binary".
Definition env_path (ver : Z) : string := "env/v" +:+ Itoa ver +:+ ".enc".

(* src: internal/deploy/version.go VersionPaths *)
Definition VersionPaths (fl : vfaults) (app : string) (ver : Z) (s : vstore) : res (string * string) :=
  vf ← LoadVersions fl app s;
  let list := formatAvailableVersions vf in
  fail_if (negb (versionExists vf ver)) (New CodeVersionNotFound
    ("deploy: version v" +:+ Itoa ver +:+ " does not exist for " +:+ Quote app +:+
     "; available: " +:+ list)) ≫= λ _,
  fail_if (negb (bool_decide (ver ∈ vs_binaries s)) || bool_decide (is_Some (fl v_stat_binary)))%bool
    (New CodeVersionNotFound ("deploy: binary for v" +:+ Itoa ver +:+ " missing for " +:+
       Quote app +:+ "; available: " +:+ list)) ≫= λ _,
  if bool_decide (ver ∈ vs_envs s) then
    vcall_wrap fl v_stat_env ("deploy: env snapshot for v" +:+ Itoa ver +:+ " of " +:+ Quote app +:+
      " is not readable") ≫= λ _, Ok (binary_path ver, env_path ver)
  else Ok (binary_path ver, "").

(* src: internal/deploy/version.go LastKnownGoodVersion *)
Definition LastKnownGoodVersion (fl : vfaults) (app : string) (s : vstore) : res Z :=
  vf ← LoadVersions fl app s;
  let promoted v := bool_decide (is_Some (V_DeployedAt v)) in
  let usable ver := is_ok (VersionPaths fl app ver s) in
  let best := foldl (λ b v, if ((b <? V_Version v) && promoted v && usable (V_Version v))%bool
                            then V_Version v else b) 0 vf in
  fail_if (best =? 0) (New CodeRollbackTargetNotFound
    ("deploy: no previous known-good version to roll back to for " +:+ Quote app +:+
     " (available: " +:+ formatAvailableVersions vf +:+ ")")) ≫= λ _,
  Ok best.

(** [cur]: the current version, or the highest one when none is marked. *)
(* src: internal/deploy/version.go PreviousVersion *)
Definition PreviousVersion (fl : vfaults) (app : string) (s : vstore) : res Z :=
  vf ← LoadVersions fl app s;
  let cur := match CurrentVersion fl app s with Ok c => c | Err _ => 0 end in
  let cur := if cur =? 0
             then List.last (sort_by Z.ltb (V_Version <$> vf)) 0
             else cur in
  fail_if (cur <=? 1) (New CodeRollbackTargetNotFound
    ("deploy: no previous version to roll back to for " +:+ Quote app +:+
     " (current v" +:+ Itoa cur +:+ ")")) ≫= λ _,
  fail_if (negb (versionExists vf (cur - 1))) (New CodeRollbackTargetNotFound
    ("deploy: version v" +:+ Itoa (cur - 1) +:+ " is not available for " +:+ Quote app +:+
     "; available: " +:+ formatAvailableVersions vf)) ≫= λ _,
  Ok (cur - 1).

(* src: internal/deploy/version.go TagForVersion *)
Definition TagForVersion (fl : vfaults) (app : string) (version : Z) (s : vstore) : string :=
  match LoadVersions fl app s with
  | Err _ => ""
  | Ok vf => match List.find (λ v, V_Version v =? version) vf with Some v => V_Tag v | None => "" end
  end.

(* src: internal/deploy/version.go DockerImageForVersion *)
Definition DockerImageForVersion (fl : vfaults) (app : string) (ver : Z) (s : vstore) : res string :=
  vf ← LoadVersions fl app s;
  match List.find (λ v, V_Version v =? ver) vf with
  | Some v =>
      fail_if (V_DockerImage v =s "") (New CodeVersionNotFound
        ("deploy: version v" +:+ Itoa ver +:+ " of " +:+ Quote app +:+
         " has no docker image (recorded as a native build?)")) ≫= λ _, Ok (V_DockerImage v)
  | None => Err (New CodeVersionNotFound
      ("deploy: version v" +:+ Itoa ver +:+ " does not exist for " +:+ Quote app +:+
       "; available: " +:+ formatAvailableVersions vf))
  end.

(** Newest first; also [ListVersionsForDisplay], whose policy is unused. *)
(* src: internal/deploy/version.go ListVersionsForDisplay *)
Definition ListVersionsForDisplay (fl : vfaults) (app : string) (s : vstore)
  : res (list VersionMeta) :=
  vf ← LoadVersions fl app s; Ok (sort_by (λ a b, V_Version b <? V_Version a) vf).

(* src: internal/deploy/version.go RecentVersions *)
Definition RecentVersions (fl : vfaults) (app : string) (n : Z) (s : vstore)
  : res (list VersionMeta) :=
  out ← ListVersionsForDisplay fl app s;
  Ok (if ((0 <? n) && (n <? len out))%bool then take (Z.to_nat n) out else out).

(* src: internal/deploy/version.go WouldPruneOnNextBuild *)
Definition WouldPruneOnNextBuild (fl : vfaults) (app : string) (ver : Z)
    (policy : option RetentionPolicy) (s : vstore) : bool :=
  let max := MaxRetainedVersions (policy_or_default policy) in
  if max <=? 0 then false
  else match LoadVersions fl app s with
  | Err _ => false
  | Ok vf =>
      let cur := match CurrentVersion fl app s with Ok c => c | Err _ => 0 end in
      if ver =? cur then false else max <? len vf + 1
  end.

(* src: internal/deploy/version.go ParseVersionArg *)
Definition ParseVersionArg (arg : string) : res Z :=
  let t := TrimPrefix (TrimPrefix (TrimSpace arg) "v") "V" in
  match Atoi t with
  | Some n => if n <? 1 then Err (New CodeInvalidArgument
                ("invalid version " +:+ Quote t +:+ " (expected vN or N)")) else Ok n
  | None => Err (New CodeInvalidArgument ("invalid version " +:+ Quote t +:+ " (expected vN or N)"))
  end.

(* src: internal/deploy/version.go ResolveVersionOrTag *)
Definition ResolveVersionOrTag (fl : vfaults) (app input : string) (s : vstore) : res Z :=
  let input := TrimSpace input in
  fail_if (input =s "") (New CodeInvalidArgument "empty version or tag") ≫= λ _,
  match ParseVersionArg input with
  | Ok ver =>
      vf ← LoadVersions fl app s;
      fail_if (negb (versionExists vf ver)) (New CodeVersionNotFound
        ("version " +:+ Quote input +:+ " does not exist for " +:+ Quote app +:+
         "; available: " +:+ formatAvailableVersions vf)) ≫= λ _, Ok ver
  | Err _ =>
      vf ← LoadVersions fl app s;
      match List.filter (λ v, V_Tag v =s input) vf with
      | [] => Err (New CodeVersionNotFound
                ("tag " +:+ Quote input +:+ " not found for " +:+ Quote app))
      | [v] => Ok (V_Version v)
      | matches => Err (New CodeVersionNotFound
          ("tag " +:+ Quote input +:+ " is ambiguous for " +:+ Quote app +:+ " — matches " +:+
           Join ((λ v, "v" +:+ Itoa (V_Version v)) <$> matches) ", " +:+
           "; use a version ID instead"))
      end
  end.

(** ** Writing *)

(* src: internal/deploy/version.go saveVersions *)
Definition saveVersions (fl : vfaults) (app : string) (vf : list VersionMeta) (s : vstore)
  : res unit * vstore :=
  match (ValidateAppName app ≫= λ _, vcall fl v_mkdir ≫= λ _, vcall fl v_write_tmp ≫= λ _,
         vcall fl v_rename) with
  | Ok _ => (Ok tt, set_meta vf s)
  | Err e => (Err e, s)
  end.

(** The rows after marking [ver] current. *)
(* src: internal/deploy/version.go:512-522 PromoteVersion *)
Definition promoted_rows (ver now : Z) (deployMode : string) (vf : list VersionMeta)
  : list VersionMeta :=
  (λ v, let v := with_current (V_Version v =? ver) v in
        if V_Version v =? ver then with_deployed now deployMode v else v) <$> vf.

(* src: internal/deploy/version.go PromoteVersion *)
Definition PromoteVersion (fl : vfaults) (app : string) (ver now : Z) (deployMode : string)
    (s : vstore) : res unit * vstore :=
  if ver <=? 0 then (Ok tt, s)
  else match LoadVersions fl app s with
  | Err e => (Err e, s)
  | Ok before =>
      let after := promoted_rows ver now deployMode before in
      if negb (versionExists before ver) then
        (Err (New CodeVersionNotFound ("deploy: cannot promote unknown version v" +:+ Itoa ver +:+
                " for " +:+ Quote app)), s)
      else match (vcall_wrap fl v_stage_mkdir "deploy: create versions directory" ≫= λ _,
                  vcall_wrap fl v_stage_write "deploy: stage versions metadata" ≫= λ _,
                  vcall_wrap fl v_stage_link ("deploy: stage current -> builds/v" +:+ Itoa ver) ≫= λ _,
                  vcall_wrap fl v_activate_meta
                    ("deploy: activate versions metadata for v" +:+ Itoa ver)) with
      | Err e => (Err e, s)
      | Ok _ =>
          let s' := set_meta after s in
          match fl v_activate_link with
          | None => (Ok tt, mkVStore (vs_meta s') (vs_binaries s') (vs_envs s') (Some ver))
          | Some t =>
              match saveVersions fl app before s' with
              | (Ok _, s'') =>
                  (Err (wrap CodeFilesystem ("deploy: activate current for v" +:+ Itoa ver) (io t)), s'')
              | (Err e, s'') =>
                  (Err (wrap CodeFilesystem ("deploy: activate current for v" +:+ Itoa ver +:+
                     " (metadata rollback also failed: " +:+ Error e +:+ ")") (io t)), s'')
              end
          end
      end
  end.

(** The versions deploy.json says are in use; [state] is what [Load] returned,
    [vf] the rows of versions.json. *)
(* src: internal/deploy/version.go deploymentProtectedVersions *)
Definition deploymentProtectedVersions (state : option DeployState) (vf : list VersionMeta)
  : gset Z :=
  match state with
  | None => ∅
  | Some st =>
      let used (m : gmap string Instance) : gset Z :=
        list_to_set (I_Version <$> List.filter (λ i, (0 <? I_PID i) && (0 <? I_Version i))%bool
                                     (map_to_list m).*2) in
      let deployed := D_ActiveVersion st in
      let rollback := foldl (λ r v, if ((V_Version v <? deployed) && (r <? V_Version v))%bool
                                    then V_Version v else r) 0 vf in
      used (D_Slots st) ∪ used (D_Replicas st) ∪
      (if 0 <? deployed then {[ deployed ]} ∪ (if 0 <? rollback then {[ rollback ]} else ∅) else ∅)
  end.

(** The removal of a version's binary and environment; errors are ignored. *)
(* src: internal/deploy/version.go removeVersionArtifacts *)
Definition removeVersionArtifacts (ver : Z) (s : vstore) : vstore :=
  mkVStore (vs_meta s) (vs_binaries s ∖ {[ ver ]}) (vs_envs s ∖ {[ ver ]}) (vs_current s).

(** The loop over the rows, oldest first; [over] is how many are to go. *)
(* src: internal/deploy/version.go:635-650 PruneVersions *)
Fixpoint prune_loop (keep : VersionMeta → bool) (over : Z) (rows : list VersionMeta) (s : vstore)
  : list VersionMeta * vstore :=
  match rows with
  | [] => ([], s)
  | v :: rows' =>
      if negb (0 <? over) then (rows, s)
      else if keep v then
        let '(kept, s') := prune_loop keep over rows' s in (v :: kept, s')
      else prune_loop keep (over - 1) rows' (removeVersionArtifacts (V_Version v) s)
  end.

(* src: internal/deploy/version.go:638-641 PruneVersions *)
Definition kept_by_prune (cur : Z) (protected : gset Z) (v : VersionMeta) : bool :=
  (V_IsCurrent v || (V_Version v =? cur) || bool_decide (V_Version v ∈ protected))%bool.

(* src: internal/deploy/version.go PruneVersions *)
Definition PruneVersions (fl : vfaults) (app : string) (policy : option RetentionPolicy)
    (state : option DeployState) (s : vstore) : res unit * vstore :=
  let max := MaxRetainedVersions (policy_or_default policy) in
  if max <=? 0 then (Ok tt, s)
  else match LoadVersions fl app s with
  | Err e => (Err e, s)
  | Ok vf =>
      let cur := current_of vf in
      let protected := deploymentProtectedVersions state vf in
      let rows := sort_by (λ a b, V_Version a <? V_Version b) vf in
      let '(kept, s') := prune_loop (kept_by_prune cur protected) (len rows - max) rows s in
      saveVersions fl app kept s'
  end.

(** [append(vf.Versions, row)], [saveVersions], [PruneVersions]. *)
Definition append_row (fl : vfaults) (app : string) (policy : option RetentionPolicy)
    (state : option DeployState) (row : VersionMeta) (s : vstore) : res unit * vstore :=
  match LoadVersions fl app s with
  | Err e => (Err e, s)
  | Ok vf =>
      match saveVersions fl app (vf ++ [row]) s with
      | (Err e, s) => (Err e, s)
      | (Ok _, s) => PruneVersions fl app policy state s
      end
  end.

(* src: internal/deploy/version.go RecordResult *)
Record RecordResult := mkRecordResult { RR_Version : Z; RR_BinaryPath : string; RR_EnvPath : string }.

(** [size]: what [Stat] reports of the stored binary. *)
(* src: internal/deploy/version.go RecordFreshBuild *)
Definition RecordFreshBuild (fl : vfaults) (app gitCommit tag : string) (now size : Z)
    (policy : option RetentionPolicy) (state : option DeployState) (s : vstore)
  : res RecordResult * vstore :=
  match NextVersion fl app s with
  | Err e => (Err e, s)
  | Ok ver =>
      match vcall fl v_mkdir_build ≫= λ _,
            vcall_wrap fl v_copy ("deploy: store binary v" +:+ Itoa ver) with
      | Err e => (Err e, s)
      | Ok _ =>
          let s := mkVStore (vs_meta s) ({[ ver ]} ∪ vs_binaries s) (vs_envs s) (vs_current s) in
          match vcall fl v_stat_binary ≫= λ _, vcall fl v_env_snapshot with
          | Err e => (Err e, s)
          | Ok _ =>
              let s := mkVStore (vs_meta s) (vs_binaries s) ({[ ver ]} ∪ vs_envs s) (vs_current s) in
              match append_row fl app policy state
                      (mkVersion ver tag gitCommit now size None "" false "" [] "") s with
              | (Err e, s) => (Err e, s)
              | (Ok _, s) => (Ok (mkRecordResult ver (binary_path ver) (env_path ver)), s)
              end
          end
      end
  end.

(* src: internal/deploy/version.go RecordDockerBuild *)
Definition RecordDockerBuild (fl : vfaults) (app dockerImage tag gitCommit : string) (now : Z)
    (policy : option RetentionPolicy) (state : option DeployState) (s : vstore)
  : res RecordResult * vstore :=
  match NextVersion fl app s with
  | Err e => (Err e, s)
  | Ok ver =>
      match append_row fl app policy state
              (mkVersion ver tag gitCommit now 0 None "" false dockerImage [] "") s with
      | (Err e, s) => (Err e, s)
      | (Ok _, s) => (Ok (mkRecordResult ver "" ""), s)
      end
  end.

(* src: internal/deploy/version.go RecordMatrixBuild *)
Definition RecordMatrixBuild (fl : vfaults) (app tag gitCommit : string)
    (artifacts : list MatrixArtifact) (multiArchImage : string) (now : Z)
    (policy : option RetentionPolicy) (state : option DeployState) (s : vstore)
  : res RecordResult * vstore :=
  match NextVersion fl app s with
  | Err e => (Err e, s)
  | Ok ver =>
      match append_row fl app policy state
              (mkVersion ver tag gitCommit now 0 None "" false "" artifacts multiArchImage) s with
      | (Err e, s) => (Err e, s)
      | (Ok _, s) => (Ok (mkRecordResult ver "" ""), s)
      end
  end.

(** ** Promotion *)

(** The store after [ver] was promoted. *)
Definition promoted_store (ver now : Z) (mode : string) (rows : list VersionMeta) (s : vstore)
  : vstore :=
  mkVStore (Some (Data (promoted_rows ver now mode rows))) (vs_binaries s) (vs_envs s) (Some ver).

Definition one_vfault (fl : vfaults) : Prop :=
  ∀ o o', fl o ≠ None → fl o' ≠ None → o = o'.

Lemma vcall_Err fl o e : vcall fl o = Err e → fl o ≠ None.
Proof. unfold vcall. by destruct (fl o). Qed.

Lemma vcall_wrap_Err fl o m e : vcall_wrap fl o m = Err e → fl o ≠ None.
Proof. unfold vcall_wrap. by destruct (fl o). Qed.

Lemma saveVersions_cases fl app vf s :
  ValidateAppName app = Ok tt →
  (saveVersions fl app vf s = (Ok tt, set_meta vf s)) ∨
  (∃ e o, saveVersions fl app vf s = (Err e, s) ∧ fl o ≠ None ∧ o ∈ [v_mkdir; v_write_tmp; v_rename]).
Proof.
  intros Hv. unfold saveVersions. rewrite Hv. simpl.
  destruct (vcall fl v_mkdir) eqn:E1; simpl.
  2:{ right. repeat eexists; [by eapply vcall_Err|]. by left. }
  destruct (vcall fl v_write_tmp) eqn:E2; simpl.
  2:{ right. repeat eexists; [by eapply vcall_Err|]. by right; left. }
  destruct (vcall fl v_rename) eqn:E3; simpl; [by left|].
  right. repeat eexists; [by eapply vcall_Err|]. by right; right; left.
Qed.

Lemma set_meta_id l s : vs_meta s = Some (Data l) → ∀ l', set_meta l (set_meta l' s) = s.
Proof. intros Hs l'. destruct s. simpl in *. by rewrite Hs. Qed.

(** How a promotion of a recorded version can end. *)
Lemma PromoteVersion_cases fl app ver now mode s rows :
  0 < ver → ValidateAppName app = Ok tt → vs_meta s = Some (Data rows) →
  versionExists rows ver = true →
  let '(r, s') := PromoteVersion fl app ver now mode s in
  match r with
  | Ok _ => s' = promoted_store ver now mode rows s
  | Err _ => (one_vfault fl → s' = s) ∧ ∃ o, fl o ≠ None
  end.
Proof.
  intros Hver Hv Hs Hex. unfold PromoteVersion. rewrite (proj2 (Z.leb_gt _ _) Hver).
  unfold LoadVersions. rewrite Hv. simpl. rewrite Hs.
  destruct (vcall fl v_read) eqn:E0; simpl; [|split; [done|]; eauto using vcall_Err].
  rewrite Hex. simpl.
  destruct (vcall_wrap fl v_stage_mkdir _) eqn:E1; simpl; [|split; [done|]; eauto using vcall_wrap_Err].
  destruct (vcall_wrap fl v_stage_write _) eqn:E2; simpl; [|split; [done|]; eauto using vcall_wrap_Err].
  destruct (vcall_wrap fl v_stage_link _) eqn:E3; simpl; [|split; [done|]; eauto using vcall_wrap_Err].
  destruct (vcall_wrap fl v_activate_meta _) eqn:E4; simpl; [|split; [done|]; eauto using vcall_wrap_Err].
  destruct (fl v_activate_link) eqn:E5; [|done].
  destruct (saveVersions_cases fl app rows (set_meta (promoted_rows ver now mode rows) s) Hv)
    as [->|(e & o & -> & Ho & Hin)].
  - split; [|by exists v_activate_link; rewrite E5]. intros _. by apply set_meta_id.
  - split; [|by eauto]. intros H1. assert (v_activate_link = o) as <- by (apply H1; [by rewrite E5|done]).
    exfalso. set_solver.
Qed.

Lemma elem_of_promoted_rows ver now mode rows v :
  v ∈ promoted_rows ver now mode rows ↔
  ∃ w, w ∈ rows ∧ v = if V_Version w =? ver then with_deployed now mode (with_current true w)
                      else with_current false w.
Proof.
  unfold promoted_rows. rewrite list_elem_of_fmap. split; intros (w & H1 & H2); exists w.
  - split; [done|]. rewrite H1. simpl. by destruct (V_Version w =? ver).
  - split; [|done]. rewrite H2. simpl. by destruct (V_Version w =? ver).
Qed.

Lemma current_of_promoted ver now mode rows :
  versionExists rows ver = true → current_of (promoted_rows ver now mode rows) = ver.
Proof.
  intros Hex. unfold current_of. destruct (List.find _ _) as [v|] eqn:Hf.
  - apply List.find_some in Hf as [Hin Hc]. apply list_elem_of_In, elem_of_promoted_rows in Hin
      as (w & _ & ->). destruct (V_Version w =? ver) eqn:E; [|done]. by bool_prop.
  - exfalso. unfold versionExists in Hex. apply existsb_exists in Hex as (w & Hw & E).
    eapply List.find_none in Hf; [|apply list_elem_of_In, elem_of_promoted_rows; exists w;
      split; [by apply list_elem_of_In|reflexivity]]. by rewrite E in Hf.
Qed.

(** Promotion is all or nothing.  A promotion that succeeds makes the
    requested version the only current one, stamps its deployment and points
    the link [current] at it, and changes no other row; one that fails, for any
    one failing call, leaves the version store exactly as it was. *)
Theorem PromoteVersion_is_atomic fl app ver now mode s rows :
  0 < ver → vs_meta s = Some (Data rows) → one_vfault fl →
  match PromoteVersion fl app ver now mode s with
  | (Ok _, s') =>
      vs_current s' = Some ver ∧ vs_binaries s' = vs_binaries s ∧ vs_envs s' = vs_envs s ∧
      ∃ rows', vs_meta s' = Some (Data rows') ∧ current_of rows' = ver ∧
        (V_Version <$> rows' = V_Version <$> rows) ∧
        ∀ v, v ∈ rows' → V_IsCurrent v = (V_Version v =? ver) ∧
          (V_Version v = ver → V_DeployedAt v = Some now ∧ V_DeployMode v = mode) ∧
          (V_Version v ≠ ver → ∃ w, w ∈ rows ∧ v = with_current false w)
  | (Err _, s') => s' = s
  end.
Proof.
  intros Hver Hs H1. destruct (ValidateAppName app) as [[]|e] eqn:Hv.
  2:{ unfold PromoteVersion, LoadVersions. rewrite (proj2 (Z.leb_gt _ _) Hver), Hv. done. }
  destruct (versionExists rows ver) eqn:Hex.
  2:{ unfold PromoteVersion, LoadVersions. rewrite (proj2 (Z.leb_gt _ _) Hver), Hv, Hs. simpl.
      destruct (vcall fl v_read); simpl; by rewrite ?Hex. }
  pose proof (PromoteVersion_cases fl app ver now mode s rows Hver Hv Hs Hex) as Hc.
  destruct (PromoteVersion fl app ver now mode s) as [[[]|e] s']; [|by apply Hc].
  subst s'. split_and!; [done..|]. eexists. split_and!; [done|by apply current_of_promoted| |].
  - unfold promoted_rows. rewrite <- list_fmap_compose. apply list_fmap_ext. intros i w _. simpl.
    by destruct (V_Version w =? ver).
  - intros v (w & Hw & ->)%elem_of_promoted_rows. destruct (V_Version w =? ver) eqn:E; simpl; rewrite E.
    + bool_prop. by split_and!.
    + bool_prop. split_and!; [done|done|]. eauto.
Qed.

Module VersionSamples.
Definition row (n : Z) (current : bool) : VersionMeta :=
  mkVersion n "" "" n 10 (Some n) "" current "" [] "".
Definition three : vstore :=
  mkVStore (Some (Data [row 1 false; row 2 true; row 3 false])) {[1; 2; 3]} {[1; 2; 3]} (Some 2).

Lemma PromoteVersion_is_atomic_witness :
  (PromoteVersion (vfault_at v_activate_link) "web" 3 99 "rolling" three).2 = three ∧
  CurrentVersion no_vfaults "web" (PromoteVersion no_vfaults "web" 3 99 "rolling" three).2 = Ok 3.
Proof.
  split; [|by vm_compute].
  assert (one_vfault (vfault_at v_activate_link)) as H1.
  { intros o o'. unfold vfault_at. repeat destruct (decide _); congruence. }
  pose proof (PromoteVersion_is_atomic (vfault_at v_activate_link) "web" 3 99 "rolling" three _
    ltac:(lia) eq_refl H1) as H.
  assert (is_ok (PromoteVersion (vfault_at v_activate_link) "web" 3 99 "rolling" three).1 = false) as He
    by (vm_compute; reflexivity).
  destruct (PromoteVersion _ _ _ _ _ _) as [[|] s']; [done|exact H].
Defined.
End VersionSamples.
