(* ===== verification/VersionHistory.v ===== *)
(** * VersionHistory: what the version store keeps

    Theorems about internal/deploy/version.go: the rows of versions.json stay
    well formed under every operation and every failure, version numbers are
    never given twice, pruning takes the oldest versions nobody needs, and the
    lookups that pick a rollback target only return versions that can run. *)

From S2P Require Import Prelude GoLib FileStore ProxyRouting DeployState Versions Errors.

(** ** Well-formed rows *)

Record wf_rows (l : list VersionMeta) : Prop := {
  wf_numbers : NoDup (V_Version <$> l);
  wf_positive v : v ∈ l → 0 < V_Version v;
  wf_one_current v w : v ∈ l → w ∈ l → V_IsCurrent v = true → V_IsCurrent w = true → v = w
}.

Definition wf_store (s : vstore) : Prop := ∀ l, vs_meta s = Some (Data l) → wf_rows l.

Lemma wf_rows_nil : wf_rows [].
Proof. split; [apply NoDup_nil_2| |]; [by intros ? ?%not_elem_of_nil|by intros ?? ?%not_elem_of_nil]. Qed.

Lemma wf_same_number l v w : wf_rows l → v ∈ l → w ∈ l → V_Version v = V_Version w → v = w.
Proof.
  intros [Hn _ _]. revert Hn. induction l as [|x l IH]; [by intros _ ?%not_elem_of_nil|].
  rewrite fmap_cons, NoDup_cons. intros [Hx Hl]. rewrite !elem_of_cons.
  intros [->|Hv] [->|Hw] Heq; [done| | |by apply IH].
  - destruct Hx. rewrite Heq. by apply list_elem_of_fmap_2.
  - destruct Hx. rewrite <- Heq. by apply list_elem_of_fmap_2.
Qed.

Lemma wf_rows_part l l' k : l ≡ₚ l' ++ k → wf_rows l → wf_rows l'.
Proof.
  intros Hk [Hn Hp Hc].
  assert (∀ v, v ∈ l' → v ∈ l) as Hin by (intros v Hv; rewrite Hk; apply elem_of_app; by left).
  split; [|by eauto|by eauto 10].
  rewrite Hk, fmap_app, NoDup_app in Hn. apply Hn.
Qed.

Lemma highest_ge l m : ∀ v, v ∈ l → V_Version v ≤ foldl (λ m v, if m <? V_Version v then V_Version v else m) m l.
Proof.
  assert (∀ l m, m ≤ foldl (λ m v, if m <? V_Version v then V_Version v else m) m l) as Hm.
  { clear. induction l as [|x l IH]; intros m; simpl; [lia|].
    etrans; [|apply IH]. destruct (m <? V_Version x) eqn:E; bool_prop; lia. }
  revert m. induction l as [|x l IH]; intros m v; [by intros ?%not_elem_of_nil|].
  simpl. intros [->|Hv]%elem_of_cons; [|by apply IH].
  etrans; [|apply Hm]. destruct (m <? V_Version x) eqn:E; bool_prop; lia.
Qed.

Lemma highest_nonneg l m : 0 ≤ m → 0 ≤ foldl (λ m v, if m <? V_Version v then V_Version v else m) m l.
Proof.
  revert m. induction l as [|x l IH]; intros m Hm; [done|]. simpl. apply IH.
  destruct (m <? V_Version x) eqn:E; bool_prop; lia.
Qed.

(** The next number is larger than every number in use. *)
Lemma NextVersion_fresh fl app s ver :
  NextVersion fl app s = Ok ver →
  ∃ l, LoadVersions fl app s = Ok l ∧ 0 < ver ∧ ∀ v, v ∈ l → V_Version v < ver.
Proof.
  unfold NextVersion. intros Hn. inv_result. eexists. split; [done|].
  pose proof (highest_nonneg a 0 ltac:(lia)). split; [lia|]. intros v Hv.
  pose proof (highest_ge a 0 v Hv). lia.
Qed.

Lemma LoadVersions_rows fl app s l :
  LoadVersions fl app s = Ok l → vs_meta s = Some (Data l) ∨ (l = [] ∧ vs_meta s = None).
Proof.
  unfold LoadVersions. intros Hl. inv_result. destruct (vs_meta s) as [data|].
  - inv_result. destruct data; [done|]. injection Hl as ->. by left.
  - injection Hl as <-. by right.
Qed.

Lemma wf_loaded fl app s l : wf_store s → LoadVersions fl app s = Ok l → wf_rows l.
Proof. intros Hs [?|[-> _]]%LoadVersions_rows; [by apply Hs|apply wf_rows_nil]. Qed.

Lemma wf_promoted ver now mode l : wf_rows l → wf_rows (promoted_rows ver now mode l).
Proof.
  intros Hwf. assert (V_Version <$> promoted_rows ver now mode l = V_Version <$> l) as Hn.
  { unfold promoted_rows. rewrite <- list_fmap_compose. apply list_fmap_ext. intros i w _. simpl.
    by destruct (V_Version w =? ver). }
  split.
  - rewrite Hn. apply Hwf.
  - intros v Hv. eapply list_elem_of_fmap_2 in Hv. rewrite Hn in Hv.
    apply list_elem_of_fmap in Hv as (w & -> & Hw). by eapply wf_positive.
  - intros v1 v2 (w1 & H1 & ->)%elem_of_promoted_rows (w2 & H2 & ->)%elem_of_promoted_rows.
    destruct (V_Version w1 =? ver) eqn:E1, (V_Version w2 =? ver) eqn:E2; try done. intros _ _.
    bool_prop. by rewrite (wf_same_number l w1 w2) by congruence.
Qed.

Lemma wf_append row l :
  wf_rows l → 0 < V_Version row → V_IsCurrent row = false →
  (∀ v, v ∈ l → V_Version v < V_Version row) → wf_rows (l ++ [row]).
Proof.
  intros [Hn Hp Hc] Hpos Hcur Hlt. split.
  - rewrite fmap_app. apply NoDup_app. split; [done|]. split; [|apply NoDup_singleton].
    intros n (v & -> & Hv)%list_elem_of_fmap Hr%list_elem_of_singleton.
    specialize (Hlt _ Hv). lia.
  - intros v [Hv| ->%list_elem_of_singleton]%elem_of_app; auto.
  - intros v w Hv Hw Hcv Hcw. apply elem_of_app in Hv as [Hv| ->%list_elem_of_singleton]; [|congruence].
    apply elem_of_app in Hw as [Hw| ->%list_elem_of_singleton]; [|congruence]. auto.
Qed.

Lemma wf_store_meta s s' : vs_meta s' = vs_meta s → wf_store s → wf_store s'.
Proof. intros Hm Hs l. rewrite Hm. apply Hs. Qed.

Lemma wf_saveVersions fl app l s :
  wf_rows l → wf_store s → wf_store (saveVersions fl app l s).2.
Proof.
  intros Hl Hs. unfold saveVersions. destruct (_ ≫= _); [|done]. by intros l' [= <-].
Qed.

(** ** Pruning *)

Section Prune.
Context (keep : VersionMeta → bool).

(** The rows that go: the first [over] that nobody keeps. *)
Definition pruned (over : Z) (rows : list VersionMeta) : list VersionMeta :=
  take (Z.to_nat over) (List.filter (λ v, negb (keep v)) rows).

Lemma prune_loop_spec over rows s :
  let '(kept, s') := prune_loop keep over rows s in
  kept ++ pruned over rows ≡ₚ rows ∧
  vs_meta s' = vs_meta s ∧ vs_current s' = vs_current s ∧
  vs_binaries s' = vs_binaries s ∖ list_to_set (V_Version <$> pruned over rows) ∧
  vs_envs s' = vs_envs s ∖ list_to_set (V_Version <$> pruned over rows).
Proof.
  unfold pruned. revert over s. induction rows as [|v rows IH]; intros over s.
  - simpl. rewrite take_nil. simpl. split_and!; set_solver.
  - simpl. destruct (0 <? over) eqn:E; cbn [negb]; bool_prop.
    2:{ rewrite (Z2Nat.nonpos _ E), take_0, app_nil_r. simpl. split_and!; set_solver. }
    destruct (keep v); cbn [negb].
    + specialize (IH over s). destruct (prune_loop _ _ _ _) as [kept s'].
      destruct IH as (Hp & IH). split; [|done]. simpl. by rewrite Hp.
    + specialize (IH (over - 1) (removeVersionArtifacts (V_Version v) s)).
      destruct (prune_loop _ _ _ _) as [kept s']. destruct IH as (Hp & Hm & Hc & Hb & He).
      replace (Z.to_nat over) with (S (Z.to_nat (over - 1))) by lia. cbn [take].
      split; [by rewrite <- Permutation_middle, Hp|]. rewrite fmap_cons, list_to_set_cons.
      split; [done|]. split; [done|]. rewrite Hb, He. simpl. split; set_solver.
Qed.

(** In a sorted list of rows, what goes is older than what stays unprotected. *)
Lemma pruned_oldest over rows r k :
  StronglySorted (λ a b, V_Version a ≤ V_Version b) rows → NoDup rows →
  r ∈ pruned over rows → k ∈ rows → k ∉ pruned over rows → keep k = false →
  V_Version r ≤ V_Version k.
Proof.
  unfold pruned. intros Hs Hnd Hr Hk Hn Hkeep. set (l := List.filter (λ v, negb (keep v)) rows) in *.
  assert (StronglySorted (λ a b, V_Version a ≤ V_Version b) l) as Hl.
  { subst l. clear -Hs. induction Hs as [|x l Hl IH Hx]; simpl; [constructor|].
    destruct (negb (keep x)); [|done]. constructor; [done|].
    rewrite Forall_forall in Hx |- *. intros y Hy. apply Hx.
    by apply list_elem_of_In, filter_In in Hy as [Hy%list_elem_of_In _]. }
  assert (k ∈ l) as Hkl.
  { apply list_elem_of_In, filter_In. split; [by apply list_elem_of_In|by rewrite Hkeep]. }
  rewrite <- (take_drop (Z.to_nat over) l) in Hl, Hkl.
  apply elem_of_app in Hkl as [?|Hkl]; [done|].
  revert Hl Hr Hkl. generalize (take (Z.to_nat over) l) (drop (Z.to_nat over) l). clear.
  intros l1 l2 Hs Hr Hk. induction l1 as [|x l1 IH]; [by apply not_elem_of_nil in Hr|].
  simpl in Hs. apply StronglySorted_inv in Hs as [Hs Hx]. apply elem_of_cons in Hr as [->|Hr]; [|auto].
  rewrite Forall_forall in Hx. apply Hx, elem_of_app. by right.
Qed.
End Prune.

Definition oldest_first (a b : VersionMeta) : bool := V_Version a <? V_Version b.

Lemma oldest_first_sorted l :
  StronglySorted (λ a b, V_Version a ≤ V_Version b) (sort_by oldest_first l).
Proof.
  assert (strict_weak oldest_first) as Hw.
  { split; unfold oldest_first; intros *; rewrite ?Z.ltb_lt, ?Z.ltb_ge; lia. }
  induction (sort_by_sorted _ l Hw) as [|x k Hk IH Hx]; constructor; [done|].
  eapply Forall_impl; [exact Hx|]. unfold not_after, oldest_first. intros b H. bool_prop. lia.
Qed.

(** The rows of versions.json after a pruning, and those it dropped. *)
Record pruning (max : Z) (needed : VersionMeta → bool) (s s' : vstore)
    (rows kept removed : list VersionMeta) : Prop := {
  pr_split : kept ++ removed ≡ₚ rows;
  pr_unneeded v : v ∈ removed → needed v = false;
  pr_count : len removed ≤ Z.max 0 (len rows - max);
  pr_enough v : v ∈ kept → needed v = false → max < len rows → len kept = max;
  pr_oldest r k : r ∈ removed → k ∈ kept → needed k = false → V_Version r ≤ V_Version k;
  pr_current : vs_current s' = vs_current s;
  pr_binaries : vs_binaries s' = vs_binaries s ∖ list_to_set (V_Version <$> removed);
  pr_envs : vs_envs s' = vs_envs s ∖ list_to_set (V_Version <$> removed)
}.

Lemma prune_rows max keep rows s :
  wf_rows rows →
  let sorted := sort_by oldest_first rows in
  let '(kept, s') := prune_loop keep (len sorted - max) sorted s in
  pruning max keep s s' rows kept (pruned keep (len sorted - max) sorted) ∧ vs_meta s' = vs_meta s.
Proof.
  intros Hwf sorted. set (over := len sorted - max).
  assert (sorted ≡ₚ rows) as Hp by apply sort_by_Permutation.
  assert (len sorted = len rows) as Hlen by (unfold len; by rewrite Hp).
  pose proof (prune_loop_spec keep over sorted s) as Hspec.
  destruct (prune_loop _ _ _ _) as [kept s']. destruct Hspec as (Hk & Hm & Hc & Hb & He).
  assert (length (kept ++ pruned keep over sorted) = length sorted) as Hcount by by rewrite Hk.
  rewrite length_app in Hcount.
  assert (NoDup sorted) as Hnd.
  { rewrite Hp. apply (NoDup_fmap_1 V_Version), Hwf. }
  split; [|done]. split; try done.
  - by rewrite Hk.
  - intros v Hv. unfold pruned in Hv. apply elem_of_take in Hv as (i & Hi & _).
    apply list_elem_of_lookup_2, list_elem_of_In, filter_In in Hi as [_ Hi]. by bool_prop.
  - unfold pruned, len, over. rewrite length_take. unfold len in *. lia.
  - intros v Hv Hn Hmax. unfold len in *.
    assert (Z.of_nat (length (pruned keep over sorted)) = Z.of_nat (length rows) - max) as Hall; [|lia].
    unfold pruned. rewrite length_take.
    destruct (decide (Z.to_nat over ≤ length (List.filter (λ v, negb (keep v)) sorted))%nat) as [|Hgt];
      [unfold over, len in *; lia|]. exfalso.
    assert (pruned keep over sorted = List.filter (λ v, negb (keep v)) sorted) as Heq.
    { unfold pruned. apply take_ge. lia. }
    rewrite Heq in Hk. rewrite <- Hk in Hnd. apply NoDup_app in Hnd as (_ & Hdisj & _).
    apply (Hdisj v Hv). apply list_elem_of_In, filter_In. rewrite Hn. split; [|done].
    apply list_elem_of_In. rewrite <- Hk. apply elem_of_app. by left.
  - intros r k Hr Hkk Hn. apply (pruned_oldest keep over sorted); try done.
    + apply oldest_first_sorted.
    + rewrite <- Hk. apply elem_of_app. by left.
    + rewrite <- Hk in Hnd. apply NoDup_app in Hnd as (_ & Hdisj & _). by apply Hdisj.
Qed.

Definition needed (state : option DeployState) (rows : list VersionMeta) : VersionMeta → bool :=
  kept_by_prune (current_of rows) (deploymentProtectedVersions state rows).

Definition retained (policy : option RetentionPolicy) : Z :=
  MaxRetainedVersions (policy_or_default policy).

Lemma PruneVersions_pruning fl app policy state s rows :
  0 < retained policy → LoadVersions fl app s = Ok rows → wf_rows rows →
  let '(r, s') := PruneVersions fl app policy state s in
  ∃ kept removed,
    pruning (retained policy) (needed state rows) s s' rows kept removed ∧
    match r with
    | Ok _ => vs_meta s' = Some (Data kept)
    | Err _ => vs_meta s' = vs_meta s
    end.
Proof.
  intros Hmax Hl Hwf. unfold PruneVersions. fold (retained policy).
  rewrite (proj2 (Z.leb_gt _ _) Hmax), Hl. cbv zeta. fold oldest_first.
  change (λ a b, V_Version a <? V_Version b) with oldest_first.
  pose proof (prune_rows (retained policy) (needed state rows) rows s Hwf) as Hp. cbv zeta in Hp.
  fold (needed state rows). destruct (prune_loop _ _ _ _) as [kept s']. destruct Hp as [Hp Hm].
  unfold saveVersions. destruct (_ ≫= _); eexists kept, _; (split; [|done]).
  - destruct Hp. by split.
  - exact Hp.
Qed.

(** Pruning is safe and exact.  Whatever fails, a row that is dropped is
    not needed - it is not current, not deployed, not the version of a live
    instance, not the rollback target - and is older than every unneeded row
    that stays; no more rows go than the retention asks for, exactly the
    retained number stays when an unneeded row does, and only the artifacts of
    the dropped rows are removed. *)
Theorem PruneVersions_drops_only_the_oldest_unneeded fl app policy state s rows :
  0 < retained policy → LoadVersions fl app s = Ok rows → wf_rows rows →
  ∃ kept removed,
    let '(r, s') := PruneVersions fl app policy state s in
    kept ++ removed ≡ₚ rows ∧
    (r = Ok tt → vs_meta s' = Some (Data kept)) ∧ (r ≠ Ok tt → vs_meta s' = vs_meta s) ∧
    (∀ v, v ∈ removed → V_IsCurrent v = false ∧ V_Version v ≠ current_of rows ∧
       V_Version v ∉ deploymentProtectedVersions state rows) ∧
    (∀ v k, v ∈ removed → k ∈ kept → needed state rows k = false → V_Version v < V_Version k) ∧
    len removed ≤ Z.max 0 (len rows - retained policy) ∧
    (∀ k, k ∈ kept → needed state rows k = false → len kept = Z.min (len rows) (retained policy)) ∧
    vs_binaries s' = vs_binaries s ∖ list_to_set (V_Version <$> removed) ∧
    vs_envs s' = vs_envs s ∖ list_to_set (V_Version <$> removed).
Proof.
  intros Hmax Hl Hwf. pose proof (PruneVersions_pruning fl app policy state s rows Hmax Hl Hwf) as Hp.
  destruct (PruneVersions fl app policy state s) as [r s'].
  destruct Hp as (kept & removed & [Hsplit Hun Hcount Hen Hold Hcur Hb He] & Hr). exists kept, removed.
  split; [done|]. split; [by intros ->|]. split; [by destruct r as [[]|]|].
  assert (length kept + length removed = length rows)%nat as Hlen by (by rewrite <- Hsplit, length_app).
  split_and!; try done.
  - intros v Hv. specialize (Hun v Hv). unfold needed, kept_by_prune in Hun. bool_prop.
    split_and!; [done|done|]. by eapply bool_decide_eq_false.
  - intros v k Hv Hk Hn. specialize (Hold v k Hv Hk Hn).
    assert (V_Version v ≠ V_Version k); [|lia]. intros Heq.
    assert (v = k) as -> by (apply (wf_same_number rows); [done| | |done]; rewrite <- Hsplit;
      apply elem_of_app; auto).
    assert (NoDup rows) as Hnd by (apply (NoDup_fmap_1 V_Version), Hwf).
    rewrite <- Hsplit in Hnd. apply NoDup_app in Hnd as (_ & Hd & _). by apply (Hd k).
  - intros k Hk Hn. unfold len in *. destruct (decide (retained policy < len rows)) as [Hgt|Hle].
    + rewrite (Hen k Hk Hn Hgt). unfold len in *. lia.
    + unfold len in *. lia.
Qed.

(** ** Every operation keeps the rows well formed *)

Inductive version_step : vstore → vstore → Prop :=
| step_promote fl app ver now mode s :
    version_step s (PromoteVersion fl app ver now mode s).2
| step_prune fl app policy state s :
    version_step s (PruneVersions fl app policy state s).2
| step_fresh fl app commit tag now size policy state s :
    version_step s (RecordFreshBuild fl app commit tag now size policy state s).2
| step_docker fl app image tag commit now policy state s :
    version_step s (RecordDockerBuild fl app image tag commit now policy state s).2
| step_matrix fl app tag commit artifacts image now policy state s :
    version_step s (RecordMatrixBuild fl app tag commit artifacts image now policy state s).2.

Lemma wf_PruneVersions fl app policy state s :
  wf_store s → wf_store (PruneVersions fl app policy state s).2.
Proof.
  intros Hs. destruct (decide (0 < retained policy)) as [Hmax|Hmax].
  - destruct (LoadVersions fl app s) as [rows|e] eqn:Hl.
    + pose proof (PruneVersions_pruning fl app policy state s rows Hmax Hl (wf_loaded _ _ _ _ Hs Hl)) as Hp.
      destruct (PruneVersions fl app policy state s) as [[[]|e] s'];
        destruct Hp as (kept & removed & Hp & Hm); [|by eapply wf_store_meta].
      intros l. simpl. rewrite Hm. intros [= <-].
      eapply (wf_rows_part _ _ removed); [|by eapply wf_loaded]. symmetry. apply Hp.
    + unfold PruneVersions. fold (retained policy). rewrite Hl. by destruct (retained policy <=? 0).
  - unfold PruneVersions. fold (retained policy). by rewrite (proj2 (Z.leb_le _ _)) by lia.
Qed.

Lemma wf_append_row fl app policy state row s :
  wf_store s → 0 < V_Version row → V_IsCurrent row = false →
  (∀ l v, LoadVersions fl app s = Ok l → v ∈ l → V_Version v < V_Version row) →
  wf_store (append_row fl app policy state row s).2.
Proof.
  intros Hs Hpos Hcur Hlt. unfold append_row. destruct (LoadVersions fl app s) as [vf|e] eqn:Hl; [|done].
  assert (wf_rows (vf ++ [row])) as Hwf.
  { apply wf_append; [by eapply wf_loaded|done|done|]. intros v Hv. by eapply Hlt. }
  pose proof (wf_saveVersions fl app (vf ++ [row]) s Hwf Hs) as Hsave.
  destruct (saveVersions fl app (vf ++ [row]) s) as [[[]|e] s']; [|done]. by apply wf_PruneVersions.
Qed.

(** The row of a new build, appended once its files are stored. *)
Lemma wf_new_build fl app policy state row s s1 :
  wf_store s → vs_meta s1 = vs_meta s → NextVersion fl app s = Ok (V_Version row) →
  V_IsCurrent row = false → wf_store (append_row fl app policy state row s1).2.
Proof.
  intros Hs Hm Hn Hcur. apply NextVersion_fresh in Hn as (l & Hl & Hpos & Hlt).
  apply wf_append_row; [by eapply wf_store_meta|done|done|].
  intros l' v Hl'. assert (LoadVersions fl app s1 = LoadVersions fl app s) as Heq
    by (unfold LoadVersions; by rewrite Hm). rewrite Heq, Hl in Hl'. injection Hl' as <-. apply Hlt.
Qed.

Ltac new_build :=
  match goal with
  | Hs : wf_store ?s, Hn : NextVersion ?fl ?app ?s = _ |- context [append_row ?fl ?app ?policy ?state ?row ?s1] =>
      let Hw := fresh in
      pose proof (wf_new_build fl app policy state row s s1 Hs eq_refl Hn eq_refl) as Hw;
      destruct (append_row fl app policy state row s1) as [[[]|] ?]
  end.

Lemma wf_version_step s s' : version_step s s' → wf_store s → wf_store s'.
Proof.
  intros Hstep Hs. destruct Hstep as [fl app ver now mode s|fl app policy state s
    |fl app commit tag now size policy state s|fl app image tag commit now policy state s
    |fl app tag commit artifacts image now policy state s].
  - unfold PromoteVersion. destruct (ver <=? 0); [done|].
    destruct (LoadVersions fl app s) as [before|] eqn:Hl; [|done].
    destruct (negb _); [done|]. destruct (_ ≫= _); [|done].
    assert (wf_store (set_meta (promoted_rows ver now mode before) s)) as Hw.
    { intros l [= <-]. apply wf_promoted. by eapply wf_loaded. }
    destruct (fl v_activate_link); [|by apply (wf_store_meta (set_meta (promoted_rows ver now mode before) s))].
    pose proof (wf_saveVersions fl app before _ (wf_loaded _ _ _ _ Hs Hl) Hw) as Hsave.
    by destruct (saveVersions _ _ _ _) as [[]].
  - by apply wf_PruneVersions.
  - unfold RecordFreshBuild. destruct (NextVersion fl app s) as [ver|] eqn:Hn; [|done].
    destruct (_ ≫= _); [|done]. destruct (_ ≫= _); [|done].
    by new_build.
  - unfold RecordDockerBuild. destruct (NextVersion fl app s) as [ver|] eqn:Hn; [|done].
    by new_build.
  - unfold RecordMatrixBuild. destruct (NextVersion fl app s) as [ver|] eqn:Hn; [|done].
    by new_build.
Qed.

(** The rows of versions.json are sound in every reachable history.
    However builds, promotions and prunings interleave and whatever fails in
    them, the version numbers stay positive and distinct, at most one row is
    current, and the number the next build takes is larger than all of them. *)
Theorem version_rows_stay_sound s s' :
  rtc version_step s s' → vs_meta s = None →
  wf_store s' ∧
  ∀ fl app ver, NextVersion fl app s' = Ok ver →
    ∃ l, LoadVersions fl app s' = Ok l ∧ 0 < ver ∧ ∀ v, v ∈ l → 0 < V_Version v < ver.
Proof.
  intros Hsteps Hs. assert (wf_store s) as Hwf by (intros l; by rewrite Hs). clear Hs.
  assert (wf_store s') as Hwf'.
  { induction Hsteps as [|s1 s2 s3 Hstep _ IH]; [done|]. apply IH. by eapply wf_version_step. }
  split; [done|]. intros fl app ver (l & Hl & Hpos & Hlt)%NextVersion_fresh. exists l.
  split_and!; [done..|]. intros v Hv. split; [|auto]. eapply wf_positive; [|done].
  by eapply wf_loaded.
Qed.

(** ** Choosing a version *)

(** A version that can run: listed, its binary stored. *)
Definition usable (fl : vfaults) (app : string) (s : vstore) (ver : Z) : bool :=
  is_ok (VersionPaths fl app ver s).

Section Best.
Context {A : Type} (f : A → Z) (good : A → bool).

Definition best_step (b : Z) (v : A) : Z := if ((b <? f v) && good v)%bool then f v else b.

(** The fold keeps the largest good value above its start. *)
Lemma best_spec l b :
  let r := foldl best_step b l in
  b ≤ r ∧ (r = b ∨ ∃ v, v ∈ l ∧ good v = true ∧ f v = r) ∧ ∀ v, v ∈ l → good v = true → f v ≤ r.
Proof.
  revert b. induction l as [|v l IH]; intros b r; subst r.
  - simpl. split_and!; [lia|by left|]. by intros ? ?%not_elem_of_nil.
  - cbn [foldl]. destruct (IH (best_step b v)) as (Hle & Hor & Hall).
    assert (b ≤ best_step b v ∧ (good v = true → f v ≤ best_step b v) ∧
      (best_step b v = b ∨ good v = true ∧ best_step b v = f v)) as (H1 & H2 & H3).
    { unfold best_step. destruct (b <? f v) eqn:E, (good v) eqn:G; simpl; bool_prop; split_and!;
        try lia; try done; auto. }
    split_and!; [lia| |].
    + destruct Hor as [Hr|(w & Hw & Hg & Hr)]; [|right; exists w; split_and!; [by right|done|done]].
      destruct H3 as [H3|[Hg H3]]; [left; lia|right; exists v]. split_and!; [by left|done|lia].
    + intros w [->|Hw]%elem_of_cons Hg; [etrans; [by apply H2|done]|by apply Hall].
Qed.
End Best.

(** The automatic rollback target is the best one there is: a version that
    was deployed before and can run, newer than every other such version; and
    when no target is returned although the history reads, there is none. *)
Theorem LastKnownGoodVersion_is_best fl app s :
  wf_store s →
  match LastKnownGoodVersion fl app s with
  | Ok ver =>
      ∃ rows v, LoadVersions fl app s = Ok rows ∧ v ∈ rows ∧ V_Version v = ver ∧
        is_Some (V_DeployedAt v) ∧ usable fl app s ver = true ∧
        ∀ w, w ∈ rows → is_Some (V_DeployedAt w) → usable fl app s (V_Version w) = true →
             V_Version w ≤ ver
  | Err _ =>
      ∀ rows w, LoadVersions fl app s = Ok rows → w ∈ rows → is_Some (V_DeployedAt w) →
        usable fl app s (V_Version w) = false
  end.
Proof.
  intros Hwf. unfold LastKnownGoodVersion. destruct (LoadVersions fl app s) as [rows|e] eqn:Hl; [|done].
  simpl. set (good v := (bool_decide (is_Some (V_DeployedAt v)) && usable fl app s (V_Version v))%bool).
  assert (foldl (λ b v, if ((b <? V_Version v) && bool_decide (is_Some (V_DeployedAt v)) &&
    is_ok (VersionPaths fl app (V_Version v) s))%bool then V_Version v else b) 0 rows =
    foldl (best_step V_Version good) 0 rows) as ->.
  { generalize 0. clear. induction rows as [|v rows IH]; intros b; [done|]. simpl. rewrite IH.
    f_equal. unfold best_step, good, usable. by rewrite andb_assoc. }
  destruct (best_spec V_Version good rows 0) as (Hle & Hor & Hall). cbv zeta in *.
  set (best := foldl _ 0 rows) in *.
  assert (∀ w, is_Some (V_DeployedAt w) → usable fl app s (V_Version w) = true → good w = true) as Hgood.
  { intros w Hd Hu. unfold good. by rewrite Hu, bool_decide_true. }
  destruct (best =? 0) eqn:E; simpl; bool_prop.
  - intros rows' w [= <-] Hw Hd. destruct (usable fl app s (V_Version w)) eqn:Eu; [|done].
    specialize (Hall w Hw (Hgood w Hd Eu)).
    pose proof (wf_positive _ (wf_loaded fl app s rows Hwf Hl) w Hw). lia.
  - destruct Hor as [?|(v & Hv & Hg & Hr)]; [done|]. exists rows, v.
    unfold good in Hg. apply andb_true_iff in Hg as [Hd Hu]. apply bool_decide_eq_true in Hd.
    split_and!; try done; [by rewrite <- Hr|]. intros w Hw Hdw Huw. apply Hall; auto.
Qed.

(** *** Version arguments *)

Definition version_arg (ver : Z) : string := "v" +:+ Itoa ver.

Lemma ParseVersionArg_label ver : 1 ≤ ver → in_int64 ver → ParseVersionArg (version_arg ver) = Ok ver.
Proof.
  intros Hpos Hi. unfold ParseVersionArg, version_arg.
  pose proof (Itoa_digits ver ltac:(lia)) as Hd.
  assert (all_chars printable ("v" +:+ Itoa ver) = true) as Hp.
  { simpl. eapply all_chars_impl; [|exact Hd]. apply digit_printable. }
  rewrite (TrimSpace_id _ Hp).
  assert (TrimPrefix ("v" +:+ Itoa ver) "v" = Itoa ver) as ->.
  { unfold TrimPrefix. replace (HasPrefix ("v" +:+ Itoa ver) "v") with true by by destruct (Itoa ver).
    apply (drop_str_app "v"). }
  assert (TrimPrefix (Itoa ver) "V" = Itoa ver) as ->.
  { destruct (Itoa ver) as [|c s] eqn:E; [done|]. simpl in Hd. apply andb_true_iff in Hd as [Hc _].
    unfold TrimPrefix. by destruct c as [[] [] [] [] [] [] [] []]. }
  rewrite Atoi_Itoa by done. by rewrite (proj2 (Z.ltb_ge _ _)) by lia.
Qed.

(** Version arguments resolve to versions that exist.  What is accepted
    names a recorded version, by its number or as the only one with that tag;
    and the label [vN] of every recorded version resolves to that version. *)
Theorem ResolveVersionOrTag_sound_and_complete fl app s rows :
  LoadVersions fl app s = Ok rows → wf_rows rows →
  (∀ input ver, ResolveVersionOrTag fl app input s = Ok ver →
     ∃ v, v ∈ rows ∧ V_Version v = ver ∧
       (ParseVersionArg (TrimSpace input) = Ok ver ∨
        V_Tag v = TrimSpace input ∧ ∀ w, w ∈ rows → V_Tag w = TrimSpace input → w = v)) ∧
  (∀ v, v ∈ rows → V_Version v < 2 ^ 63 →
     ResolveVersionOrTag fl app (version_arg (V_Version v)) s = Ok (V_Version v)).
Proof.
  intros Hl Hwf. split.
  - intros input ver. unfold ResolveVersionOrTag. intros ([] & _ & H)%bind_Ok.
    destruct (ParseVersionArg (TrimSpace input)) as [n|e] eqn:Hp.
    + rewrite Hl in H. simpl in H. apply bind_Ok in H as ([] & Hex & [= ->]). apply fail_if_Ok in Hex.
      bool_prop. apply existsb_exists in Hex as (v & Hv & E). bool_prop. apply list_elem_of_In in Hv. subst. eauto.
    + rewrite Hl in H. simpl in H.
      destruct (List.filter (λ v, V_Tag v =s TrimSpace input) rows) as [|v [|]] eqn:Hf; [done| |done].
      injection H as <-.
      assert (∀ w, w ∈ rows ∧ V_Tag w = TrimSpace input ↔ w ∈ [v]) as Hin.
      { intros w. rewrite <- Hf, list_elem_of_In, list_elem_of_In, filter_In. by rewrite String.eqb_eq. }
      destruct (proj2 (Hin v)) as [Hv Ht]; [by left|]. exists v. split_and!; [done|done|]. right.
      split; [done|]. intros w Hw Hwt. by apply list_elem_of_singleton, Hin.
  - intros v Hv Hmax. pose proof (wf_positive _ Hwf v Hv) as Hpos.
    assert (in_int64 (V_Version v)) as Hi by (unfold in_int64; lia).
    assert (TrimSpace (version_arg (V_Version v)) = version_arg (V_Version v)) as Htrim.
    { apply TrimSpace_id. simpl. eapply all_chars_impl; [apply digit_printable|]. apply Itoa_digits. lia. }
    unfold ResolveVersionOrTag. rewrite Htrim, ParseVersionArg_label by (done || lia). rewrite Hl. simpl.
    assert (versionExists rows (V_Version v) = true) as ->; [|done].
    apply existsb_exists. exists v. split; [by apply list_elem_of_In|]. apply Z.eqb_refl.
Qed.

(** ** Samples *)

Module HistorySamples.
Import VersionSamples.

Definition three_rows : list VersionMeta := [row 1 false; row 2 true; row 3 false].

Lemma three_wf : wf_rows three_rows.
Proof.
  split.
  - by apply (bool_decide_unpack _).
  - intros v Hv. repeat (apply elem_of_cons in Hv as [->|Hv]; [done|]). by apply not_elem_of_nil in Hv.
  - intros v w Hv Hw. repeat (apply elem_of_cons in Hv as [->|Hv];
      [repeat (apply elem_of_cons in Hw as [->|Hw]; [done|]); by apply not_elem_of_nil in Hw|]).
    by apply not_elem_of_nil in Hv.
Qed.

Lemma three_store : wf_store three.
Proof. intros l [= <-]. apply three_wf. Qed.

(** Version 1 goes: 2 is current, 3 is newer. *)
Lemma PruneVersions_drops_only_the_oldest_unneeded_witness :
  vs_meta (PruneVersions no_vfaults "web" (Some (DefaultRetention 2)) None three).2 =
    Some (Data [row 2 true; row 3 false]) ∧
  ∃ kept removed,
    let '(r, s') := PruneVersions no_vfaults "web" (Some (DefaultRetention 2)) None three in
    kept ++ removed ≡ₚ three_rows ∧
    (r = Ok tt → vs_meta s' = Some (Data kept)) ∧ (r ≠ Ok tt → vs_meta s' = vs_meta three) ∧
    (∀ v, v ∈ removed → V_IsCurrent v = false ∧ V_Version v ≠ current_of three_rows ∧
       V_Version v ∉ deploymentProtectedVersions None three_rows) ∧
    (∀ v k, v ∈ removed → k ∈ kept → needed None three_rows k = false → V_Version v < V_Version k) ∧
    len removed ≤ Z.max 0 (len three_rows - retained (Some (DefaultRetention 2))) ∧
    (∀ k, k ∈ kept → needed None three_rows k = false →
       len kept = Z.min (len three_rows) (retained (Some (DefaultRetention 2)))) ∧
    vs_binaries s' = vs_binaries three ∖ list_to_set (V_Version <$> removed) ∧
    vs_envs s' = vs_envs three ∖ list_to_set (V_Version <$> removed).
Proof.
  split; [by vm_compute|].
  apply (PruneVersions_drops_only_the_oldest_unneeded no_vfaults "web" (Some (DefaultRetention 2))
    None three three_rows); [done|done|apply three_wf].
Defined.

Definition no_store : vstore := mkVStore None ∅ ∅ None.

Lemma version_rows_stay_sound_witness :
  let s1 := (RecordDockerBuild no_vfaults "web" "web:1" "" "" 5 None None no_store).2 in
  let s2 := (PromoteVersion no_vfaults "web" 1 6 "rolling" s1).2 in
  NextVersion no_vfaults "web" s2 = Ok 2 ∧
  wf_store s2 ∧
  ∀ fl app ver, NextVersion fl app s2 = Ok ver →
    ∃ l, LoadVersions fl app s2 = Ok l ∧ 0 < ver ∧ ∀ v, v ∈ l → 0 < V_Version v < ver.
Proof.
  intros s1 s2. split; [by vm_compute|]. apply (version_rows_stay_sound no_store s2); [|done].
  eapply rtc_l; [apply (step_docker no_vfaults "web" "web:1" "" "" 5 None None)|].
  eapply rtc_l; [apply (step_promote no_vfaults "web" 1 6 "rolling")|]. apply rtc_refl.
Defined.

(** Version 2 serves, but 3, which was deployed and rolled back, is chosen. *)
Example rollback_prefers_the_newest_promoted :
  CurrentVersion no_vfaults "web" three = Ok 2 ∧ LastKnownGoodVersion no_vfaults "web" three = Ok 3.
Proof. split; vm_compute; reflexivity. Qed.

Lemma LastKnownGoodVersion_is_best_witness :
  ∃ rows v, LoadVersions no_vfaults "web" three = Ok rows ∧ v ∈ rows ∧ V_Version v = 3 ∧
    is_Some (V_DeployedAt v) ∧ usable no_vfaults "web" three 3 = true ∧
    ∀ w, w ∈ rows → is_Some (V_DeployedAt w) → usable no_vfaults "web" three (V_Version w) = true →
         V_Version w ≤ 3.
Proof.
  pose proof (LastKnownGoodVersion_is_best no_vfaults "web" three three_store) as H.
  assert (LastKnownGoodVersion no_vfaults "web" three = Ok 3) as E by (vm_compute; reflexivity).
  rewrite E in H. exact H.
Defined.

Lemma ResolveVersionOrTag_sound_and_complete_witness :
  ResolveVersionOrTag no_vfaults "web" " v2 " three = Ok 2 ∧
  ∀ v, v ∈ three_rows → V_Version v < 2 ^ 63 →
    ResolveVersionOrTag no_vfaults "web" (version_arg (V_Version v)) three = Ok (V_Version v).
Proof.
  split; [by vm_compute|].
  exact (proj2 (ResolveVersionOrTag_sound_and_complete no_vfaults "web" three three_rows eq_refl three_wf)).
Defined.
End HistorySamples.
