(* ===== verification/EnvStore.v ===== *)
(** * EnvStore: the master key and the encrypted variables of an application

    internal/env: the file format of an encrypted value (crypto.go), the master
    key that every encrypted store of the host depends on (master_key.go), the
    variables of an application (manager.go) and what is masked when they are
    shown (mask.go).  AES-GCM is a pair of functions; a file is its decoded
    content, as in FileStore. *)

From S2P Require Import Prelude GoLib Errors FileStore Retention.

(** What the key needs to know of a file of encrypted values: whether it has
    any, and which they are. *)
Class Encrypted (A : Type) := {
  holds_values : A → bool;
  sealed_values : A → list string;
  no_values a : holds_values a = false → sealed_values a = []
}.

(** The files that are looked at. *)
Definition visible (name : string) : bool := (HasSuffix name ".json" || HasSuffix name ".enc")%bool.

(** ** Values *)

Section Crypto.
(** [seal key nonce plain], [open key nonce sealed]. *)
Context (seal : string → string → string → string).
Context (open : string → string → string → option string).

Definition nonce_size : nat := 12.

Definition bad_key (key : string) : error :=
  New CodeEncryption ("invalid key size: expected 32 bytes, got " +:+ Itoa (len_str key)).

(** [nonce]: what the random source answers. *)
(* src: internal/env/crypto.go EncryptData *)
Definition EncryptData (nonce : option string) (plaintext key : string) : res string :=
  if negb (Nat.eqb (String.length key) 32) then Err (bad_key key)
  else match nonce with
       | None => Err (wrap CodeEncryption "failed to generate nonce" (Foreign "unexpected EOF" None))
       | Some nonce => Ok (hex_of (nonce +:+ seal key nonce plaintext))
       end.

(* src: internal/env/crypto.go DecryptData *)
Definition DecryptData (ciphertext key : string) : res string :=
  if negb (Nat.eqb (String.length key) 32) then Err (bad_key key)
  else match hex_decode ciphertext with
       | None => Err (wrap CodeEncryption "failed to decode hex" (Foreign "encoding/hex: invalid byte" None))
       | Some data =>
           if (String.length data <? nonce_size)%nat then Err (New CodeEncryption "ciphertext too short")
           else match open key (take_str nonce_size data) (drop_str nonce_size data) with
                | None => Err (wrap CodeEncryption "failed to decrypt"
                                 (Foreign "cipher: message authentication failed" None))
                | Some plaintext => Ok plaintext
                end
       end.
End Crypto.

(** ** The master key *)

(** The key file: whether it is a regular file of mode 0600, and its bytes. *)
Record key_file := mkKeyFile { kf_private : bool; kf_text : string }.

(** The directory ~/.phelix, as far as the key is concerned. *)
Abbreviation key_dir := (gmap string (content key_file)).
Definition master_key : string := "master.key".

(** Why a file cannot be read: it is not there, or anything else. *)
Inductive key_read := KeyFound (key : string) | KeyMissing (e : error) | KeyRefused (e : error).

(* src: internal/env/master_key.go readMasterKey *)
Definition readMasterKey (fl : faults) (d : key_dir) : key_read :=
  let invalid := KeyRefused (New CodeEncryption "master key is invalid; restore the original key") in
  match fl op_read, d !! master_key with
  | Some t, _ => KeyRefused (wrap CodeEncryption "cannot read master key" (os_err (ErrIO t)))
  | None, None => KeyMissing (wrap CodeEncryption "cannot read master key" (os_err ErrNotExist))
  | None, Some Garbage => invalid
  | None, Some (Data k) =>
      match fl op_stat with
      | Some t => KeyRefused (wrap CodeEncryption "cannot inspect master key" (os_err (ErrIO t)))
      | None =>
          if negb (kf_private k) then
            KeyRefused (New CodeEncryption "master key must be a regular file with mode 0600")
          else match hex_decode (TrimSpace (take_str 67 (kf_text k))) with
               | Some key => if Nat.eqb (String.length key) 32 then KeyFound key else invalid
               | None => invalid
               end
      end
  end.

Definition key_result (r : key_read) : res string :=
  match r with KeyFound key => Ok key | KeyMissing e | KeyRefused e => Err e end.

(* src: internal/env/master_key.go ReadMasterKey *)
Definition ReadMasterKey (fl : faults) (d : key_dir) : res string := key_result (readMasterKey fl d).

(** One directory of encrypted files, [None] when it does not exist. *)
(* src: internal/env/master_key.go inspectEncryptedStores *)
Definition inspectEncryptedStores `{Encrypted A} (fl : faults) (dir : option (gmap string (content A)))
  : res unit :=
  match dir, fl op_read_dir with
  | None, _ => Ok tt
  | Some _, Some _ => Err (New CodeEncryption "cannot inspect existing encrypted stores")
  | Some dir, None =>
      fail_if (existsb (λ '(name, c),
          (visible name &&
           match fl op_read, c with
           | None, Data a => holds_values a
           | _, _ => true
           end)%bool) (map_to_list dir))
        (New CodeEncryption "master key is missing; restore the original key before changing encrypted data")
  end.

(** The calls up to the link, and those after it. *)
Definition key_write_prog (tmp key : string) : list (guarded key_file) :=
  let undo := [SClose; SRemove tmp] in
  [ must SMkdir CodeEncryption "cannot create master key directory" [];
    must (SCreate tmp) CodeEncryption "cannot create master key" [];
    must (SWrite tmp (mkKeyFile true (hex_of key))) CodeEncryption "cannot write master key" undo;
    must SSync CodeEncryption "cannot sync master key" undo;
    must SClose CodeEncryption "cannot close master key" undo ].
Definition key_sync_prog (tmp : string) : list (guarded key_file) :=
  [ must SOpenDir CodeEncryption "cannot open master key directory" [SRemove tmp];
    must SSyncDir CodeEncryption "cannot sync master key directory" [SRemove tmp] ].

Section MasterKey.
Context {S V : Type} `{Encrypted S, Encrypted V}.

(** [secrets], [envs], [snapshots]: the directories of encrypted stores.
    [fresh]: 32 bytes of the random source.  [other]: the key file that another
    process creates before this one links its own. *)
Section Create.
Context (fl : faults) (fresh : option string) (tmp : string) (other : option (content key_file)).
Context (secrets : option (gmap string (content S))) (envs : option (gmap string (content V))).
Context (snapshots : list (option (gmap string (content V)))).

Definition no_encrypted_data : res unit :=
  _ ← inspectEncryptedStores fl secrets; _ ← inspectEncryptedStores fl envs;
  for_each (inspectEncryptedStores fl) snapshots.

Definition raced (d : key_dir) : key_dir :=
  match other, d !! master_key with
  | Some c, None => <[master_key := c]> d
  | _, _ => d
  end.

(* src: internal/env/master_key.go GetMasterKey *)
Definition GetMasterKey (d : key_dir) : res string * key_dir :=
  match readMasterKey fl d with
  | KeyFound key => (Ok key, d)
  | KeyRefused e => (Err e, d)
  | KeyMissing _ =>
      match no_encrypted_data, fresh with
      | Err e, _ => (Err e, d)
      | Ok _, None => (Err (wrap CodeEncryption "failed to generate master key" (Foreign "unexpected EOF" None)), d)
      | Ok _, Some key =>
          match run_prog fl (key_write_prog tmp key) d with
          | (Err e, d) => (Err e, d)
          | (Ok _, d) =>
              let d := raced d in
              match do_syscall fl (SLink tmp master_key) d with
              | Err ErrExist => (key_result (readMasterKey fl d), do_ignored fl d (SRemove tmp))
              | Err e => (Err (wrap CodeEncryption "cannot save master key" (os_err e)),
                          do_ignored fl d (SRemove tmp))
              | Ok d =>
                  match run_prog fl (key_sync_prog tmp) d with
                  | (Err e, d) => (Err e, d)
                  | (Ok _, d) => (Ok key, do_ignored fl d (SRemove tmp))
                  end
              end
          end
      end
  end.

(** The states in which a crash can leave the directory. *)
Definition GetMasterKey_crash (d : key_dir) : list key_dir :=
  match readMasterKey fl d, no_encrypted_data, fresh with
  | KeyMissing _, Ok _, Some key =>
      crash_states fl (key_write_prog tmp key) d ++
      match run_prog fl (key_write_prog tmp key) d with
      | (Err _, _) => []
      | (Ok _, d) =>
          let d := raced d in
          d :: match do_syscall fl (SLink tmp master_key) d with
               | Err _ => []
               | Ok d => crash_states fl (key_sync_prog tmp) d
               end
      end
  | _, _, _ => [d]
  end.
End Create.
End MasterKey.

(** ** The variables of an application *)

(* src: internal/env/manager.go EnvEntry *)
Record EnvEntry := mkEntry { EE_Key : string; EE_Value : string; EE_CreatedAt : Z; EE_UpdatedAt : Z }.

(** [ES_Entries] is [None] where the file has none: a nil map. *)
(* src: internal/env/manager.go EnvStore *)
Record EnvStore := mkEnvStore {
  ES_Version : Z;
  ES_AppID : string;
  ES_Entries : option (gmap string EnvEntry)
}.

Definition entries (s : EnvStore) : gmap string EnvEntry := default ∅ (ES_Entries s).

#[export] Program Instance EnvStore_encrypted : Encrypted EnvStore := {
  holds_values s := negb (bool_decide (entries s = ∅));
  sealed_values s := (λ kv, EE_Value kv.2) <$> map_to_list (entries s)
}.
Next Obligation.
  intros s Hs%negb_false_iff%bool_decide_eq_true.
  cbv beta. by rewrite Hs, map_to_list_empty.
Qed.

Abbreviation env_dir := (gmap string (content EnvStore)).

(* src: internal/env/manager.go GetEnvFilePath *)
Definition GetEnvFilePath (fl : faults) (appID : string) : res string :=
  match fl op_mkdir with
  | Some t => Err (wrap CodeFilesystem "failed to create envs directory" (os_err (ErrIO t)))
  | None => Ok (appID +:+ ".env.enc")
  end.

Definition empty_env (appID : string) : EnvStore := mkEnvStore 1 appID (Some ∅).

(* src: internal/env/manager.go EnvManager.LoadEnvStore *)
Definition LoadEnvStore (fl : faults) (appID : string) (d : env_dir) : res EnvStore :=
  path ← GetEnvFilePath fl appID;
  match d !! path, fl op_read with
  | None, _ => Ok (empty_env appID)
  | Some _, Some t => Err (wrap CodeFilesystem ("failed to read env file " +:+ path) (os_err (ErrIO t)))
  | Some Garbage, None => Err (wrap CodeConfiguration ("failed to parse env file " +:+ path)
                                 (Foreign "invalid JSON" None))
  | Some (Data s), None => Ok s
  end.

(** [os.WriteFile] empties the file before it writes it. *)
(* src: internal/env/manager.go EnvManager.SaveEnvStore *)
Definition SaveEnvStore (fl : faults) (s : EnvStore) (d : env_dir) : res unit * env_dir :=
  match GetEnvFilePath fl (ES_AppID s) with
  | Err e => (Err e, d)
  | Ok path =>
      let failed t := Err (wrap CodeFilesystem ("failed to write env file " +:+ path) (os_err (ErrIO t))) in
      match fl op_create, fl op_write with
      | Some t, _ => (failed t, d)
      | None, Some t => (failed t, <[path := Garbage]> d)
      | None, None => (Ok tt, <[path := Data s]> d)
      end
  end.

Section Manager.
Context (seal : string → string → string → string).
Context (open : string → string → string → option string).

(** [key]: what [GetMasterKey] answers.  [None]: the process panicked, on the
    nil map of a file without entries. *)
(* src: internal/env/manager.go EnvManager.SetEnv *)
Definition SetEnv (fl : faults) (nonce : option string) (key : res string) (now : Z)
    (appID name value : string) (d : env_dir) : option (res unit * env_dir) :=
  match LoadEnvStore fl appID d with
  | Err e => Some (Err e, d)
  | Ok store =>
      match key with
      | Err e => Some (Err e, d)
      | Ok key =>
          match EncryptData seal nonce value key with
          | Err e => Some (Err (wrap CodeEncryption ("failed to encrypt value for " +:+ Quote name) e), d)
          | Ok encrypted =>
              m ← ES_Entries store;
              Some (SaveEnvStore fl (mkEnvStore (ES_Version store) (ES_AppID store)
                (Some (<[name := mkEntry name encrypted now now]> m))) d)
          end
      end
  end.

Definition no_variable (name : string) : error :=
  New CodeNotFound ("environment variable '" +:+ name +:+ "' not found").

(* src: internal/env/manager.go EnvManager.GetEnv *)
Definition GetEnv (fl : faults) (key : res string) (appID name : string) (d : env_dir) : res string :=
  store ← LoadEnvStore fl appID d;
  match entries store !! name with
  | None => Err (no_variable name)
  | Some entry =>
      key ← key;
      match DecryptData open (EE_Value entry) key with
      | Err e => Err (wrap CodeEncryption ("failed to decrypt value for " +:+ Quote name) e)
      | Ok v => Ok v
      end
  end.

(* src: internal/env/manager.go EnvManager.ListEnv *)
Definition ListEnv (fl : faults) (appID : string) (d : env_dir) : res (gmap string string) :=
  store ← LoadEnvStore fl appID d; Ok ((λ _, "***REDACTED***") <$> entries store).

(* src: internal/env/manager.go EnvManager.UnsetEnv *)
Definition UnsetEnv (fl : faults) (appID name : string) (d : env_dir) : res unit * env_dir :=
  match LoadEnvStore fl appID d with
  | Err e => (Err e, d)
  | Ok store =>
      match entries store !! name with
      | None => (Err (no_variable name), d)
      | Some _ => SaveEnvStore fl (mkEnvStore (ES_Version store) (ES_AppID store)
                    (delete name <$> ES_Entries store)) d
      end
  end.

(** In the order of one iteration over the map. *)
Fixpoint decrypt_all (key : string) (l : list (string * EnvEntry)) : res (gmap string string) :=
  match l with
  | [] => Ok ∅
  | (name, entry) :: l =>
      match DecryptData open (EE_Value entry) key with
      | Err e => Err (wrap CodeEncryption ("failed to decrypt env var '" +:+ name +:+ "'") e)
      | Ok v => m ← decrypt_all key l; Ok (<[name := v]> m)
      end
  end.

(* src: internal/env/manager.go EnvManager.GetAllEnvVars *)
Definition GetAllEnvVars (fl : faults) (key : res string) (appID : string) (d : env_dir)
  : res (gmap string string) :=
  store ← LoadEnvStore fl appID d; key ← key; decrypt_all key (map_to_list (entries store)).

(* src: internal/env/manager.go EnvManager.ClearAllEnv *)
Definition ClearAllEnv (fl : faults) (appID : string) (d : env_dir) : res unit * env_dir :=
  SaveEnvStore fl (empty_env appID) d.

(* src: internal/env/manager.go EnvManager.GetEnvVarCount *)
Definition GetEnvVarCount (fl : faults) (appID : string) (d : env_dir) : res Z :=
  store ← LoadEnvStore fl appID d; Ok (Z.of_nat (size (entries store))).

(* src: internal/env/manager.go EnvManager.ExportEnvFile *)
Definition ExportEnvFile (fl : faults) (key : res string) (order : list string → list string)
    (masked : bool) (appID : string) (d : env_dir) : res string :=
  store ← LoadEnvStore fl appID d;
  let line name := if masked then Ok (name +:+ "=***REDACTED***")
                   else v ← GetEnv fl key appID name d; Ok (name +:+ "=" +:+ v) in
  lines ← foldr (λ name acc, l ← line name; ls ← acc; Ok (l :: ls)) (Ok [])
            (order (map_to_list (entries store)).*1);
  Ok (Join lines (String (ascii_of_nat 10) "")).
End Manager.

(** ** Snapshots *)

Section Snapshots.
Context (open : string → string → string → option string).

(** The variables of a version as [KEY=value], in the order of one iteration. *)
(* src: internal/deploy/env_snapshot.go snapshotOverlay *)
Definition snapshotOverlay (fl : faults) (key : res string) (order : list (string * EnvEntry) → list (string * EnvEntry))
    (envPath : string) (d : env_dir) : res (list string) :=
  if envPath =s "" then Ok []
  else match d !! envPath, fl op_read with
       | None, _ => Ok []
       | Some _, Some t => Err (os_err (ErrIO t))
       | Some Garbage, None => Err (wrap CodeConfiguration "deploy: parse env snapshot" (Foreign "invalid JSON" None))
       | Some (Data s), None =>
           if bool_decide (entries s = ∅) then Ok []
           else
             key ← key;
             foldr (λ '(name, entry) acc,
               match DecryptData open (EE_Value entry) key with
               | Err e => Err (wrap CodeEncryption ("deploy: decrypt env " +:+ Quote name) e)
               | Ok v => l ← acc; Ok ((name +:+ "=" +:+ v) :: l)
               end) (Ok []) (order (map_to_list (entries s)))
       end.
End Snapshots.

(** The snapshot of a version: the live store, or an empty one. *)
(* src: internal/deploy/env_snapshot.go snapshotEnvForVersion *)
Definition snapshotEnvForVersion (fl fl_dst : faults) (appID dst : string) (src d : env_dir)
  : res string * env_dir :=
  match GetEnvFilePath fl appID with
  | Err e => (Err e, d)
  | Ok path =>
      match fl_dst op_mkdir with
      | Some t => (Err (os_err (ErrIO t)), d)
      | None =>
          let copied := match src !! path with None => Data (empty_env appID) | Some c => c end in
          let wrapped e := if bool_decide (is_Some (src !! path))
            then wrap CodeFilesystem ("deploy: snapshot env " +:+ dst) e else e in
          match (if bool_decide (is_Some (src !! path)) then fl op_read else None), fl_dst op_create, fl_dst op_write with
          | Some t, _, _ | None, Some t, _ => (Err (wrapped (os_err (ErrIO t))), d)
          | None, None, Some t => (Err (wrapped (os_err (ErrIO t))), <[dst := Garbage]> d)
          | None, None, None => (Ok dst, <[dst := copied]> d)
          end
      end
  end.

(** ** Facts *)

Lemma DecryptData_EncryptData seal open nonce plain key enc :
  (∀ k n p, open k n (seal k n p) = Some p) → String.length nonce = nonce_size →
  EncryptData seal (Some nonce) plain key = Ok enc → DecryptData open enc key = Ok plain.
Proof.
  intros Hlaw Hn. unfold EncryptData, DecryptData. destruct (Nat.eqb (String.length key) 32); [|done].
  intros [= <-]. simpl. rewrite hex_decode_hex_of, length_sapp, Hn.
  rewrite (proj2 (Nat.ltb_ge _ _)) by (unfold nonce_size; lia). rewrite <- Hn.
  rewrite drop_str_app. unfold take_str. rewrite substring_sapp. by rewrite Hlaw.
Qed.

Lemma inspect_Ok `{Encrypted A} fl (dir : gmap string (content A)) p c :
  inspectEncryptedStores fl (Some dir) = Ok tt → visible p = true → dir !! p = Some c →
  ∃ a, c = Data a ∧ sealed_values a = [].
Proof.
  unfold inspectEncryptedStores. destruct (fl op_read_dir); [done|]. intros Hf%fail_if_Ok Hv Hp.
  destruct (fl op_read) as [t|] eqn:Er.
  - exfalso. apply not_true_iff_false in Hf. apply Hf, existsb_exists. exists (p, c).
    split; [by apply list_elem_of_In, elem_of_map_to_list|]. by rewrite Hv.
  - destruct c as [|a]; [|destruct (holds_values a) eqn:Ha; [|by exists a; split; [|by apply no_values]]];
      exfalso; apply not_true_iff_false in Hf; apply Hf, existsb_exists; eexists (p, _);
      (split; [by apply list_elem_of_In, elem_of_map_to_list|]); by rewrite Hv.
Qed.

Lemma readMasterKey_faults fl d key : readMasterKey fl d = KeyFound key → readMasterKey no_faults d = KeyFound key.
Proof.
  unfold readMasterKey, no_faults. destruct (fl op_read); [done|]. destruct (d !! master_key) as [[|k]|]; [done| |done].
  by destruct (fl op_stat).
Qed.

Lemma key_missing_absent fl d e : readMasterKey fl d = KeyMissing e → d !! master_key = None.
Proof.
  unfold readMasterKey. destruct (fl op_read); [done|]. destruct (d !! master_key) as [[|k]|]; [done| |done].
  destruct (fl op_stat); [done|]. destruct (negb _); [done|]. destruct (hex_decode _) as [s|]; [|done].
  by destruct (Nat.eqb _ _).
Qed.

Section Key.
Context (fl : faults) (tmp : string) (Htmp : tmp ≠ master_key).

Lemma key_write_keeps key (d : key_dir) :
  Forall (λ st, st !! master_key = d !! master_key) (crash_states fl (key_write_prog tmp key) d) ∧
  ∀ r d', run_prog fl (key_write_prog tmp key) d = (r, d') → d' !! master_key = d !! master_key ∧
    (r = Ok tt → d' !! tmp = Some (Data (mkKeyFile true (hex_of key)))).
Proof.
  unfold crash_states, run_prog, key_write_prog. simpl. unfold do_ignored.
  run_syscalls fl d tmp; simplify_map_eq; (split; [repeat (apply Forall_cons; split); try apply Forall_nil; by simplify_map_eq|]);
    intros r d' [= <- <-]; by simplify_map_eq.
Qed.

Lemma key_sync_keeps (d : key_dir) :
  Forall (λ st, st !! master_key = d !! master_key) (crash_states fl (key_sync_prog tmp) d) ∧
  ∀ r d', run_prog fl (key_sync_prog tmp) d = (r, d') → d' !! master_key = d !! master_key.
Proof.
  unfold crash_states, run_prog, key_sync_prog. simpl. unfold do_ignored.
  run_syscalls fl d tmp; simplify_map_eq; (split; [repeat (apply Forall_cons; split); try apply Forall_nil; by simplify_map_eq|]);
    intros r d' [= <- <-]; by simplify_map_eq.
Qed.

Lemma ignored_remove (d : key_dir) : do_ignored fl d (SRemove tmp) !! master_key = d !! master_key.
Proof. unfold do_ignored. run_syscalls fl d tmp; by simplify_map_eq. Qed.

Lemma written_key_read key (d : key_dir) :
  String.length key = 32%nat → d !! master_key = Some (Data (mkKeyFile true (hex_of key))) →
  readMasterKey no_faults d = KeyFound key.
Proof.
  intros Hk Hd. unfold readMasterKey, no_faults. rewrite Hd. cbn [kf_private kf_text negb].
  assert (take_str 67 (hex_of key) = hex_of key) as ->.
  { unfold take_str. apply substring_long. rewrite length_hex_of, Hk. lia. }
  rewrite TrimSpace_id, hex_decode_hex_of, Hk; [done|].
  eapply all_chars_impl; [|apply hex_of_chars]. intros c. unfold cls_hex.
  intros [H|H]%orb_true_iff; [by apply digit_printable|]. by destruct c as [[] [] [] [] [] [] [] []].
Qed.

Context {S V : Type} `{Encrypted S, Encrypted V}.
Context (fresh : option string) (other : option (content key_file)).
Context (secrets : option (gmap string (content S))) (envs : option (gmap string (content V))).
Context (snapshots : list (option (gmap string (content V)))).
Context (Hfresh : ∀ key, fresh = Some key → String.length key = 32%nat).

Abbreviation nothing_sealed := (no_encrypted_data fl secrets envs snapshots = Ok tt).

(** The key file is kept, or there was none and nothing is encrypted. *)
Definition key_step (d d' : key_dir) : Prop :=
  d' !! master_key = d !! master_key ∨ (d !! master_key = None ∧ nothing_sealed).

Lemma GetMasterKey_step d r d' :
  GetMasterKey fl fresh tmp other secrets envs snapshots d = (r, d') →
  key_step d d' ∧ ∀ key, r = Ok key → readMasterKey no_faults d' = KeyFound key.
Proof.
  unfold GetMasterKey, key_step. destruct (readMasterKey fl d) as [key|e|e] eqn:Er.
  { intros [= <- <-]. split; [by left|]. intros ? [= <-]. by eapply readMasterKey_faults. }
  2: { intros [= <- <-]. split; [by left|done]. }
  pose proof (key_missing_absent _ _ _ Er) as Hnone.
  destruct (no_encrypted_data _ _ _ _) as [[]|e1] eqn:Ei; [|intros [= <- <-]; split; [by left|done]].
  destruct fresh as [key|] eqn:Ef; [|intros [= <- <-]; split; [by left|done]].
  destruct (run_prog fl (key_write_prog tmp key) d) as [r1 d1] eqn:Hw.
  destruct (key_write_keeps key d) as [_ Hk]. destruct (Hk _ _ Hw) as [Hm Ht].
  destruct r1 as [[]|e1]; [|intros [= <- <-]; split; [by left|done]]. specialize (Ht eq_refl).
  assert (Hd2 : raced other d1 !! tmp = Some (Data (mkKeyFile true (hex_of key)))).
  { unfold raced. destruct other as [c|]; [|done]. destruct (d1 !! master_key); [done|]. by simplify_map_eq. }
  set (d2 := raced other d1) in *. unfold do_syscall, syscall_effect. cbn [op_of].
  destruct (fl op_link) as [t|]; [intros [= <- <-]; split; [by right|done]|].
  destruct (d2 !! master_key) as [c|] eqn:E2.
  { intros [= <- <-]. split; [by right|]. intros k Hkr. unfold key_result in Hkr.
    destruct (readMasterKey fl d2) as [k'| |] eqn:Er2; [|done..]. injection Hkr as ->.
    apply readMasterKey_faults in Er2. revert Er2. unfold readMasterKey. by rewrite ignored_remove. }
  rewrite Hd2. destruct (run_prog fl (key_sync_prog tmp) _) as [r3 d3] eqn:Hs.
  apply (proj2 (key_sync_keeps _)) in Hs. rewrite lookup_insert_eq in Hs.
  destruct r3 as [[]|e3]; [|intros [= <- <-]; split; [by right|done]].
  intros [= <- <-]. split; [by right|]. intros ? [= <-].
  apply written_key_read; [by apply Hfresh|]. by rewrite ignored_remove.
Qed.

Lemma GetMasterKey_crash_step d :
  Forall (key_step d) (GetMasterKey_crash fl fresh tmp other secrets envs snapshots d).
Proof.
  unfold GetMasterKey_crash, key_step.
  assert (Forall (λ st, st !! master_key = d !! master_key ∨ (d !! master_key = None ∧ nothing_sealed)) [d]) as Hd.
  { constructor; [by left|constructor]. }
  destruct (readMasterKey fl d) as [key|e|e] eqn:Er; [done| |done].
  pose proof (key_missing_absent _ _ _ Er) as Hnone.
  destruct (no_encrypted_data _ _ _ _) as [[]|e1]; [|done]. destruct fresh as [key|]; [|done].
  apply Forall_forall. intros st _. by right.
Qed.
End Key.
