(* ===== verification/SecretStore.v ===== *)
(** * SecretStore: the encrypted secrets of an application

    internal/secrets/store.go: versioned secrets, the bindings that expose them
    as variables and the pending transaction of a deployment, in one file per
    application that is read and replaced under a lock.  The rules for bindings
    are those of internal/project/secrets_schema.go, the identifiers those of
    internal/appid. *)

From stdpp Require Import stringmap.
From S2P Require Import Prelude GoLib Errors FileStore Retention EnvStore.

Definition nl : string := String (ascii_of_nat 10) "".

(* src: internal/secrets/store.go storeSchemaVersion *)
Definition storeSchemaVersion : Z := 1.
(* src: internal/secrets/store.go maxVersions *)
Definition maxVersions : nat := 5.
(* src: internal/secrets/store.go MaxValueBytes *)
Definition MaxValueBytes : Z := 1048576.

(* src: internal/project/secrets_schema.go SecretImport *)
Record Binding := mkBinding { B_Secret : string; B_Env : string }.

(* src: internal/secrets/store.go SecretVersion *)
Record SecretVersion := mkSecretVersion {
  SV_Version : Z;
  SV_CreatedAt : Z;
  SV_Fingerprint : string;
  SV_EncValue : string
}.

(* src: internal/secrets/store.go SecretRecord *)
Record SecretRecord := mkSecret {
  SR_Name : string;
  SR_ActiveVersion : Z;
  SR_CreatedAt : Z;
  SR_UpdatedAt : Z;
  SR_Versions : list SecretVersion
}.

(* src: internal/secrets/store.go ResolvedVersion *)
Record ResolvedVersion := mkResolved { RV_Secret : string; RV_Version : Z; RV_Fingerprint : string }.

(* src: internal/secrets/store.go PendingTxn *)
Record PendingTxn := mkPending {
  PT_Runtime : string;
  PT_TxnID : string;
  PT_DeploymentID : string;
  PT_Bindings : list Binding;
  PT_Resolved : list ResolvedVersion;
  PT_UpdatedAt : Z
}.

(* src: internal/secrets/store.go ApplyStatus *)
Record ApplyStatus := mkApply {
  AS_At : Z;
  AS_Restart : string;
  AS_Bindings : list Binding;
  AS_Desired : list ResolvedVersion;
  AS_AppliedBindings : list Binding;
  AS_Applied : list ResolvedVersion
}.

(* src: internal/secrets/store.go:115-120 ApplyRestartSucceeded *)
Definition ApplyRestartSucceeded := "succeeded".
Definition ApplyRestartFailed := "failed".
Definition ApplyRestartPartial := "partial".
Definition ApplyDeploymentAccepted := "accepted".
Definition ApplyRestartSkipped := "skipped_not_running".
Definition ApplyRestartNotNeeded := "not_requested".

(** A nil map of secrets reads as an empty one. *)
(* src: internal/secrets/store.go Store *)
Record Store := mkStore {
  ST_SchemaVersion : Z;
  ST_AppID : string;
  ST_Bindings : list Binding;
  ST_Pending : option PendingTxn;
  ST_LastApply : option ApplyStatus;
  ST_Secrets : gmap string SecretRecord
}.

Definition with_Bindings (v : list Binding) (s : Store) : Store :=
  mkStore (ST_SchemaVersion s) (ST_AppID s) v (ST_Pending s) (ST_LastApply s) (ST_Secrets s).
Definition with_Pending (v : option PendingTxn) (s : Store) : Store :=
  mkStore (ST_SchemaVersion s) (ST_AppID s) (ST_Bindings s) v (ST_LastApply s) (ST_Secrets s).
Definition with_LastApply (v : option ApplyStatus) (s : Store) : Store :=
  mkStore (ST_SchemaVersion s) (ST_AppID s) (ST_Bindings s) (ST_Pending s) v (ST_Secrets s).
Definition with_Secrets (v : gmap string SecretRecord) (s : Store) : Store :=
  mkStore (ST_SchemaVersion s) (ST_AppID s) (ST_Bindings s) (ST_Pending s) (ST_LastApply s) v.

#[export] Program Instance Store_encrypted : Encrypted Store := {
  holds_values s := negb (bool_decide (ST_Secrets s = ∅));
  sealed_values s := concat ((λ kv, SV_EncValue <$> SR_Versions kv.2) <$> map_to_list (ST_Secrets s))
}.
Next Obligation.
  intros s Hs. apply negb_false_iff, bool_decide_eq_true in Hs. cbv beta. by rewrite Hs, map_to_list_empty.
Qed.

(* src: internal/secrets/store.go ResolvedSecret *)
Record ResolvedSecret := mkResolvedSecret { RS_Value : string; RS_Fingerprint : string; RS_Version : Z }.
(* src: internal/secrets/store.go SecretMeta *)
Record SecretMeta := mkMeta {
  SM_Name : string; SM_Version : Z; SM_Fingerprint : string; SM_CreatedAt : Z; SM_UpdatedAt : Z;
  SM_BoundEnvs : list string
}.

(** ** Names *)

Definition cls_lower : ascii → bool := in_range "a" "z".
Definition cls_name (c : ascii) : bool :=
  (cls_lower c || cls_digit c || Ascii.eqb c "_" || Ascii.eqb c "-")%bool.

(* src: internal/secrets/store.go secretNameRe *)
Definition secretNameRe : re := RSeq (RClass cls_lower) (RStar (RClass cls_name)).
(* src: internal/secrets/store.go txnIDPattern *)
Definition txnIDPattern : re := id_pattern "sec_".
(* src: internal/project/webhook_schema.go envNamePattern *)
Definition envNamePattern : re :=
  RSeq (RClass (λ c, ((cls_alnum c && negb (cls_digit c)) || Ascii.eqb c "_")%bool))
       (RStar (RClass (λ c, (cls_alnum c || Ascii.eqb c "_")%bool))).

(* src: internal/appid/appid.go pattern *)
Definition appid_pattern : re :=
  let hex n := RRepeat n (RClass cls_hex) in
  let dash := RLit "-" in
  RSeq (hex 8%nat) (RSeq dash (RSeq (hex 4%nat) (RSeq (RLit "-4") (RSeq (hex 3%nat) (RSeq dash
    (RSeq (RClass (λ c, one_of (String c "") ["8"; "9"; "a"; "b"]))
    (RSeq (hex 3%nat) (RSeq dash (hex 12%nat))))))))).
(* src: internal/appid/appid.go Valid *)
Definition appid_Valid (id : string) : bool := match_string appid_pattern id.

(** [rnd]: eight random bytes; the clock serves when there are none. *)
(* src: internal/secrets/store.go NewTxnID *)
Definition NewTxnID (rnd : option (list Byte.byte)) (unixNano : Z) : string :=
  "sec_" +:+ hex_encode (default (bytes_be 8 unixNano) rnd).
(* src: internal/secrets/store.go ValidTxnID *)
Definition ValidTxnID (id : string) : bool := match_string txnIDPattern id.

(* src: internal/secrets/store.go validateSecretName *)
Definition validateSecretName (name : string) : res unit :=
  fail_if (negb (match_string secretNameRe name)) (New CodeInvalidArgument
    ("secrets: invalid name " +:+ Quote name +:+ nl +:+
     "Hint: use a lowercase name like database_url (letters, digits, hyphen, underscore; must start with a letter)")).

(* src: internal/secrets/store.go ValidateSecretValue *)
Definition ValidateSecretValue (value : string) : res unit :=
  _ ← fail_if (value =s "") (New CodeInvalidArgument
        ("secrets: value must not be empty" +:+ nl +:+ "Hint: pass the value on stdin or with --from-file"));
  _ ← fail_if (MaxValueBytes <? len_str value) (New CodeInvalidArgument
        ("secrets: value exceeds the " +:+ Itoa MaxValueBytes +:+ " byte limit"));
  fail_if (existsb (Ascii.eqb (ascii_of_nat 0)) (String.list_ascii_of_string value))
    (New CodeInvalidArgument "secrets: value must not contain NUL bytes").

(* src: internal/project/secrets_schema.go reservedEnvNames *)
Definition reservedEnvNames : list string := ["PORT"; "PHELIX_INTERNAL_SECRET_TXN"].
(* src: internal/project/secrets_schema.go IsReservedEnvName *)
Definition IsReservedEnvName (env : string) : bool := one_of env reservedEnvNames.

Definition config_error (msg hint : string) : error :=
  New CodeConfiguration ("configuration error: " +:+ msg +:+ nl +:+ "Hint: " +:+ hint).

Section Imports.
Definition where_field (i : Z) (field : string) : string :=
  "secrets.imports[" +:+ Itoa i +:+ "]." +:+ field.

(** One import, with the names seen so far and where. *)
(* src: internal/project/secrets_schema.go:63-100 SecretsConfig.validate *)
Definition validate_import (i : Z) (imp : Binding) (seen : gmap string Z) : res (gmap string Z) :=
  let secret := B_Secret imp in
  let env := B_Env imp in
  _ ← fail_if (secret =s "") (config_error (where_field i "secret" +:+ " is required")
        "name the secret as it exists in the store, e.g. secret: database_url");
  _ ← fail_if (negb (match_string secretNameRe secret))
        (config_error ("invalid " +:+ where_field i "secret" +:+ " " +:+ Quote secret)
        "use a lowercase name like database_url (letters, digits, hyphen, underscore; must start with a letter)");
  _ ← fail_if (env =s "") (config_error (where_field i "env" +:+ " is required")
        "name the environment variable the app receives, e.g. env: DATABASE_URL");
  _ ← fail_if (negb (match_string envNamePattern env))
        (config_error ("invalid " +:+ where_field i "env" +:+ " " +:+ Quote env)
        "use an environment variable name like DATABASE_URL (letters, digits, underscore; must not start with a digit)");
  _ ← fail_if (IsReservedEnvName env)
        (config_error (where_field i "env" +:+ " targets the reserved name " +:+ env)
        "Phelix manages this variable itself; choose a different name for the import");
  match seen !! env with
  | Some prev => Err (config_error (where_field i "env" +:+ " targets " +:+ env +:+
      ", already targeted by secrets.imports[" +:+ Itoa prev +:+ "]")
      "each environment variable name may be declared once; the same secret can feed several names")
  | None => Ok (<[env := i]> seen)
  end.

Fixpoint validate_imports (i : Z) (imports : list Binding) (seen : gmap string Z) : res unit :=
  match imports with
  | [] => Ok tt
  | imp :: imports => seen ← validate_import i imp seen; validate_imports (i + 1) imports seen
  end.
End Imports.

(* src: internal/secrets/store.go validateBindings *)
Definition validateBindings (bindings : list Binding) : res unit := validate_imports 0 bindings ∅.

(** ** Reading a store *)

(** The fingerprint of the active version: the last one of that number. *)
Definition active_version (rec : SecretRecord) : option SecretVersion :=
  last (List.filter (λ v, SV_Version v =? SR_ActiveVersion rec) (SR_Versions rec)).

(* src: internal/secrets/store.go Store.meta *)
Definition meta (s : Store) (rec : SecretRecord) : SecretMeta :=
  mkMeta (SR_Name rec) (SR_ActiveVersion rec)
    (match active_version rec with Some v => SV_Fingerprint v | None => "" end)
    (SR_CreatedAt rec) (SR_UpdatedAt rec)
    (B_Env <$> List.filter (λ b, B_Secret b =s SR_Name rec) (ST_Bindings s)).

Definition no_secret (name : string) : error :=
  New CodeSecretNotFound ("secrets: " +:+ name +:+ " does not exist in this app's store").

(* src: internal/secrets/store.go Store.Peek *)
Definition Peek (s : Store) (name : string) : res SecretMeta :=
  match ST_Secrets s !! name with
  | None => Err (no_secret name)
  | Some rec => Ok (meta s rec)
  end.

(** In the order of one iteration. *)
(* src: internal/secrets/store.go Store.List *)
Definition List_ (s : Store) : list SecretMeta := meta s <$> (map_to_list (ST_Secrets s)).*2.

(* src: internal/secrets/store.go Store.History *)
Definition History (s : Store) (name : string) : res (list (Z * string * Z)) :=
  match ST_Secrets s !! name with
  | None => Err (no_secret name)
  | Some rec => Ok ((λ v, (SV_Version v, SV_Fingerprint v, SV_CreatedAt v)) <$> SR_Versions rec)
  end.

(** The pinned versions, each secret once. *)
Fixpoint resolved_map (l : list ResolvedVersion) (m : gmap string ResolvedVersion)
  : res (gmap string ResolvedVersion) :=
  match l with
  | [] => Ok m
  | v :: l => match m !! RV_Secret v with
              | Some _ => Err (New CodeConfiguration "secrets: duplicate pinned secret")
              | None => resolved_map l (<[RV_Secret v := v]> m)
              end
  end.

Definition check_pinned (s : Store) (resolved : gmap string ResolvedVersion) (b : Binding) : res unit :=
  m ← Peek s (B_Secret b);
  match resolved !! B_Secret b with
  | Some v => fail_if (negb ((RV_Version v =? SM_Version m) && (RV_Fingerprint v =s SM_Fingerprint m))%bool)
                (New CodeDeployLocked "secrets: pinned versions changed; retry the deployment")
  | None => Err (New CodeDeployLocked "secrets: pinned versions changed; retry the deployment")
  end.

(* src: internal/secrets/store.go Store.validatePending *)
Definition validatePending (s : Store) (txn : PendingTxn) : res unit :=
  resolved ← resolved_map (PT_Resolved txn) ∅;
  _ ← for_each (check_pinned s resolved) (PT_Bindings txn);
  fail_if (negb (Nat.eqb (size (list_to_set (B_Secret <$> PT_Bindings txn) : gset string)) (size resolved)))
    (New CodeConfiguration "secrets: pinned versions do not match bindings").

(** The versions increase, and the active one is the last. *)
Fixpoint check_versions (previous : Z) (l : list SecretVersion) : res Z :=
  match l with
  | [] => Ok previous
  | v :: l =>
      if ((SV_Version v <=? previous) ||
          match hex_decode (SV_Fingerprint v) with
          | Some fp => negb (Nat.eqb (String.length fp) 6)
          | None => true
          end || (SV_EncValue v =s ""))%bool
      then Err (New CodeFilesystem "secrets: invalid version metadata")
      else check_versions (SV_Version v) l
  end.

Definition check_secret (name : string) (rec : SecretRecord) : res unit :=
  _ ← fail_if (negb (is_ok (validateSecretName name)) || (SR_Name rec <>s name) ||
               Nat.eqb (length (SR_Versions rec)) 0 || (maxVersions <? length (SR_Versions rec))%nat)%bool
        (New CodeFilesystem "secrets: invalid secret metadata");
  previous ← check_versions 0 (SR_Versions rec);
  fail_if (negb (SR_ActiveVersion rec =? previous)) (New CodeFilesystem "secrets: invalid active version").

(** The decoded content of the file of [appID].  The order of the secrets does
    not change what is accepted. *)
(* src: internal/secrets/store.go:240-289 openStoreLocked *)
Definition check_store (path appID : string) (st : Store) : res unit :=
  _ ← fail_if (ST_AppID st <>s appID) (New CodeFilesystem "secrets: store belongs to another application");
  _ ← validateBindings (ST_Bindings st);
  _ ← match ST_Pending st with
      | None => Ok tt
      | Some p =>
          _ ← fail_if (negb (ValidTxnID (PT_TxnID p))) (New CodeFilesystem "secrets: invalid pending transaction");
          validateBindings (PT_Bindings p)
      end;
  _ ← fail_if (negb (ST_SchemaVersion st =? storeSchemaVersion)) (New CodeFilesystem
        ("secrets: store " +:+ path +:+ " has unsupported schema version " +:+ Itoa (ST_SchemaVersion st)));
  _ ← for_each (λ '(name, rec), check_secret name rec) (map_to_list (ST_Secrets st));
  match ST_Pending st with None => Ok tt | Some p => validatePending st p end.

(** ** The file *)

Abbreviation secret_dir := (gmap string (content Store)).

(** What one call meets: the faults of its system calls, whether the directory
    and the store file are private, why the lock cannot be had, the clock. *)
Record calls := mkCalls {
  x_faults : faults;
  x_dir_private : bool;
  x_file_private : bool;
  x_lock : option error;
  x_now : Z
}.

Definition invalid_app (appID : string) : error :=
  New CodeInvalidArgument ("secrets: invalid application id " +:+ Quote appID).

(* src: internal/secrets/store.go storePath *)
Definition storePath (appID : string) : res string :=
  if negb (appid_Valid appID) then Err (invalid_app appID) else Ok (appID +:+ ".json").

Definition empty_store (appID : string) : Store := mkStore storeSchemaVersion appID [] None None ∅.

(* src: internal/secrets/store.go openStoreLocked *)
Definition openStoreLocked (x : calls) (path appID : string) (d : secret_dir) : res Store :=
  match d !! path, x_faults x op_read with
  | None, _ => Ok (empty_store appID)
  | Some _, Some t => Err (wrap CodeFilesystem ("secrets: open store " +:+ path) (os_err (ErrIO t)))
  | Some c, None =>
      _ ← fail_if (negb (x_file_private x))
            (New CodeFilesystem "secrets: store and lock must be regular files with mode 0600");
      match c with
      | Garbage => Err (wrap CodeFilesystem ("secrets: store " +:+ path +:+ " is unreadable")
                          (Foreign "invalid JSON" None))
      | Data st => _ ← check_store path appID st; Ok st
      end
  end.

Definition store_tmp (path : string) (d : secret_dir) : string := fresh_string ("." +:+ path +:+ ".tmp-") d.

Definition persist_prog (tmp path : string) (st : Store) : list (guarded Store) :=
  [ must (SCreate tmp) CodeFilesystem "secrets: create temp store" [];
    must SChmod CodeFilesystem ("secrets: restrict temp store " +:+ tmp) [SClose; SRemove tmp];
    must (SWrite tmp st) CodeFilesystem "secrets: encode store" [SClose; SRemove tmp];
    must SSync CodeFilesystem ("secrets: fsync temp store " +:+ tmp) [SClose; SRemove tmp];
    must SClose CodeFilesystem ("secrets: close temp store " +:+ tmp) [SRemove tmp];
    must (SRename tmp path) CodeFilesystem ("secrets: replace store " +:+ path) [SRemove tmp];
    must SOpenDir CodeFilesystem "secrets: open store directory" [];
    must SSyncDir CodeFilesystem "secrets: sync store directory" [] ].

(* src: internal/secrets/store.go persistLocked *)
Definition persistLocked (x : calls) (st : Store) (path : string) (d : secret_dir) : res unit * secret_dir :=
  run_prog (x_faults x) (persist_prog (store_tmp path d) path st) d.

(** The checks of [withStoreLock] before its function runs; the directory is
    created.  [acquireStoreLock] is its lock. *)
(* src: internal/secrets/store.go:345-371 withStoreLock *)
Definition lock_store (x : calls) (d : option secret_dir) : res unit * option secret_dir :=
  match x_faults x op_mkdir with
  | Some t => (Err (wrap CodeFilesystem "secrets: create secrets directory" (os_err (ErrIO t))), d)
  | None =>
      let d := Some (default ∅ d) in
      match x_faults x op_stat with
      | Some t => (Err (wrap CodeFilesystem "secrets: inspect directory" (os_err (ErrIO t))), d)
      | None =>
          if negb (x_dir_private x) then
            (Err (New CodeFilesystem "secrets: directory must have mode 0700 and must not be a symlink"), d)
          else (match x_lock x with Some e => Err e | None => Ok tt end, d)
      end
  end.

(* src: internal/secrets/store.go Open *)
Definition Open (x : calls) (appID : string) (d : option secret_dir) : res Store * option secret_dir :=
  match storePath appID, d with
  | Err e, _ => (Err e, d)
  | Ok _, None => (Ok (empty_store appID), d)
  | Ok path, Some _ =>
      let '(r, d) := lock_store x d in
      (_ ← r; openStoreLocked x path appID (default ∅ d), d)
  end.

(** The function of a mutation may read and create the master key: it runs over
    a state of its own. *)
(* src: internal/secrets/store.go mutate *)
Definition mutate {K} (x : calls) (appID : string) (fn : Store → K → res Store * K)
    (d : option secret_dir) (k : K) : res unit * option secret_dir * K :=
  match storePath appID with
  | Err e => (Err e, d, k)
  | Ok path =>
      match lock_store x d with
      | (Err e, d) => (Err e, d, k)
      | (Ok _, d) =>
          let dir := default ∅ d in
          match openStoreLocked x path appID dir with
          | Err e => (Err e, d, k)
          | Ok st =>
              match fn st k with
              | (Err e, k) => (Err e, d, k)
              | (Ok st, k) => let '(r, dir) := persistLocked x st path dir in (r, Some dir, k)
              end
          end
      end
  end.

Definition mutate_ (x : calls) (appID : string) (fn : Store → res Store) (d : option secret_dir)
  : res unit * option secret_dir :=
  let '(r, d, _) := mutate x appID (λ st k, (fn st, k)) d tt in (r, d).

(** ** Values *)

Section Values.
Context (seal : string → string → string → string).
Context (open : string → string → string → option string).
Context (hmac : string → string → string).

(* src: internal/secrets/store.go fingerprint *)
Definition fingerprint (master value : string) : string :=
  take_str 12 (hex_of (hmac (hmac master "phelix:secrets:fingerprint:v1") value)).

(* src: internal/secrets/store.go Store.resolve *)
Definition resolve (key : res string) (s : Store) (name : string) : res ResolvedSecret :=
  match ST_Secrets s !! name with
  | None => Err (no_secret name)
  | Some rec =>
      match active_version rec with
      | None => Err (New CodeFilesystem ("secrets: " +:+ name +:+ " has no active version " +:+
                                         Itoa (SR_ActiveVersion rec)))
      | Some ver =>
          key ← key;
          match DecryptData open (SV_EncValue ver) key with
          | Err e => Err (wrap CodeEncryption "secrets: decryption failed; the master key may have changed" e)
          | Ok value =>
              _ ← (match ValidateSecretValue value with
                   | Err _ => Err (New CodeEncryption "secrets: decrypted value is invalid")
                   | Ok _ => Ok tt
                   end);
              _ ← fail_if (fingerprint key value <>s SV_Fingerprint ver)
                    (New CodeEncryption "secrets: stored fingerprint does not match the value");
              Ok (mkResolvedSecret value (SV_Fingerprint ver) (SV_Version ver))
          end
      end
  end.

(** [cancelled]: [ctx.Err()]. *)
(* src: internal/secrets/store.go Resolve *)
Definition Resolve (x : calls) (cancelled : option error) (key : res string) (appID name : string)
    (d : option secret_dir) : res ResolvedSecret * option secret_dir :=
  match cancelled with
  | Some e => (Err (wrap CodeUnknown "secrets: resolution cancelled" e), d)
  | None => let '(r, d) := Open x appID d in (st ← r; resolve key st name, d)
  end.

(** ** Changes *)

(** The desired versions of the bindings, each secret once. *)
Fixpoint desired (s : Store) (seen : gset string) (l : list Binding) : list ResolvedVersion :=
  match l with
  | [] => []
  | b :: l =>
      if bool_decide (B_Secret b ∈ seen) then desired s seen l
      else match Peek s (B_Secret b) with
           | Ok m => mkResolved (B_Secret b) (SM_Version m) (SM_Fingerprint m) :: desired s ({[B_Secret b]} ∪ seen) l
           | Err _ => desired s ({[B_Secret b]} ∪ seen) l
           end
  end.

(* src: internal/secrets/store.go Store.recordApply *)
Definition recordApply (now : Z) (restart : string) (s : Store) : Store :=
  let wanted := desired s ∅ (ST_Bindings s) in
  let succeeded := restart =s ApplyRestartSucceeded in
  let last_bindings := match ST_LastApply s with Some a => AS_AppliedBindings a | None => [] end in
  let last := match ST_LastApply s with Some a => AS_Applied a | None => [] end in
  with_LastApply (Some (mkApply now restart (ST_Bindings s) wanted
    (if succeeded then ST_Bindings s else last_bindings) (if succeeded then wanted else last))) s.

(* src: internal/secrets/store.go SetResult *)
Record SetResult := mkSet { SE_Name : string; SE_Version : Z; SE_Fingerprint : string; SE_Previous : Z; SE_Created : bool }.

(** The record of [name] with a new version. *)
(* src: internal/secrets/store.go:452-477 Set *)
Definition new_version (now : Z) (name fp enc : string) (s : Store) : SecretRecord :=
  let rec := default (mkSecret name 0 now 0 []) (ST_Secrets s !! name) in
  let v := SR_ActiveVersion rec + 1 in
  let versions := SR_Versions rec ++ [mkSecretVersion v now fp enc] in
  mkSecret (SR_Name rec) v (SR_CreatedAt rec) now (drop (length versions - maxVersions) versions).

(** [first]: the key for the first secret, [known]: for any other; the state
    [K] is where the first one may be created. *)
(* src: internal/secrets/store.go:431-477 Set *)
Definition set_secret {K} (first known : K → res string * K) (nonce : option string) (now : Z)
    (name value : string) (st : Store) (k : K * SetResult) : res Store * (K * SetResult) :=
  let '(k, out) := k in
  match ST_Pending st with
  | Some _ => (Err (New CodeDeployLocked "secrets: reconcile the pending deployment before changing values"), (k, out))
  | None =>
      let '(key, k) := if bool_decide (ST_Secrets st = ∅) then first k else known k in
      match (key ← key; enc ← EncryptData seal nonce value key; Ok (fingerprint key value, enc)) with
      | Err e => (Err e, (k, out))
      | Ok (fp, enc) =>
          let rec := new_version now name fp enc st in
          let old := ST_Secrets st !! name in
          let st' := with_Secrets (<[name := rec]> (ST_Secrets st)) st in
          let used := existsb (λ b, B_Secret b =s name) (ST_Bindings st) in
          (Ok (if used then recordApply now ApplyRestartNotNeeded st' else st'),
           (k, mkSet name (SR_ActiveVersion rec) fp (match old with Some r => SR_ActiveVersion r | None => 0 end)
                 (negb (bool_decide (is_Some old)))))
      end
  end.

(* src: internal/secrets/store.go Set *)
Definition Set_ {K} (x : calls) (first known : K → res string * K) (nonce : option string)
    (appID name value : string) (d : option secret_dir) (k : K) : res SetResult * option secret_dir * K :=
  match (_ ← storePath appID; _ ← validateSecretName name; ValidateSecretValue value) with
  | Err e => (Err e, d, k)
  | Ok _ =>
      let '(r, d, (k, out)) :=
        mutate x appID (set_secret first known nonce (x_now x) name value) d (k, mkSet name 0 "" 0 false) in
      (_ ← r; Ok out, d, k)
  end.

(* src: internal/secrets/store.go:494-514 Remove *)
Definition remove_secret (name : string) (st : Store) : res Store :=
  match ST_Pending st with
  | Some _ => Err (New CodeDeployLocked "secrets: reconcile the pending deployment before removing values")
  | None =>
      let users := B_Env <$> List.filter (λ b, B_Secret b =s name) (ST_Bindings st) in
      _ ← fail_if (negb (bool_decide (users = []))) (New CodeInvalidArgument
            ("secrets: " +:+ name +:+ " is still imported as " +:+ Join users ", " +:+ nl +:+
             "Hint: remove the import from phelix.yaml (and commit or discard any pending change) before deleting the secret"));
      match ST_Secrets st !! name with
      | None => Err (no_secret name)
      | Some _ => Ok (with_Secrets (delete name (ST_Secrets st)) st)
      end
  end.

(* src: internal/secrets/store.go Remove *)
Definition Remove (x : calls) (appID name : string) (d : option secret_dir) : res unit * option secret_dir :=
  match validateSecretName name with
  | Err e => (Err e, d)
  | Ok _ => mutate_ x appID (remove_secret name) d
  end.

(** [live]: the variables of the live environment store, or its error. *)
(* src: internal/secrets/store.go CheckCollisions *)
Definition CheckCollisions (live : res (gset string)) (appID : string) (bindings : list Binding) : res unit :=
  _ ← validateBindings bindings;
  if bool_decide (bindings = []) then Ok tt
  else
    names ← live;
    for_each (λ b, fail_if (bool_decide (B_Env b ∈ names)) (New CodeConfiguration
      ("secrets: " +:+ B_Env b +:+ " also exists in the live environment store" +:+ nl +:+
       "Hint: remove it with phelix env unset " +:+ appID +:+ " " +:+ B_Env b +:+ " before deploy or apply"))) bindings.

(* src: internal/secrets/store.go ReplaceBindings *)
Definition ReplaceBindings (x : calls) (live : res (gset string)) (key : res string) (appID : string)
    (bindings : list Binding) (d : option secret_dir) : res unit * option secret_dir :=
  match validateBindings bindings with
  | Err e => (Err e, d)
  | Ok _ => mutate_ x appID (λ st,
      match ST_Pending st with
      | Some _ => Err (New CodeDeployLocked "secrets: reconcile the pending deployment before changing bindings")
      | None =>
          _ ← CheckCollisions live appID bindings;
          _ ← for_each (λ b, _ ← resolve key st (B_Secret b); Ok tt) bindings;
          Ok (recordApply (x_now x) ApplyRestartNotNeeded (with_Bindings bindings st))
      end) d
  end.

Definition stamped_at (now : Z) (p : PendingTxn) : PendingTxn :=
  mkPending (PT_Runtime p) (PT_TxnID p) (PT_DeploymentID p) (PT_Bindings p) (PT_Resolved p) now.

(* src: internal/secrets/store.go BeginTxn *)
Definition BeginTxn (x : calls) (live : res (gset string)) (appID : string) (txn : PendingTxn)
    (d : option secret_dir) : res unit * option secret_dir :=
  if negb (ValidTxnID (PT_TxnID txn)) then
    (Err (New CodeInvalidArgument "secrets: a transaction needs an id"), d)
  else match validateBindings (PT_Bindings txn) with
  | Err e => (Err e, d)
  | Ok _ =>
      let txn := stamped_at (x_now x) txn in
      mutate_ x appID (λ st,
        match ST_Pending st with
        | Some _ => Err (New CodeDeployLocked "secrets: reconcile the pending deployment before starting another")
        | None =>
            _ ← validatePending st txn;
            _ ← CheckCollisions live appID (PT_Bindings txn);
            Ok (with_Pending (Some txn) st)
        end) d
  end.

(* src: internal/secrets/store.go CommitTxn *)
Definition CommitTxn (x : calls) (appID : string) (d : option secret_dir) : res unit * option secret_dir :=
  mutate_ x appID (λ st,
    match ST_Pending st with
    | None => Ok st
    | Some p => Ok (with_Pending None (recordApply (x_now x) ApplyDeploymentAccepted (with_Bindings (PT_Bindings p) st)))
    end) d.

(* src: internal/secrets/store.go DiscardTxn *)
Definition DiscardTxn (x : calls) (appID : string) (d : option secret_dir) : res unit * option secret_dir :=
  mutate_ x appID (λ st, Ok (with_Pending None st)) d.

(* src: internal/secrets/store.go RecordApply *)
Definition RecordApply (x : calls) (appID restart : string) (d : option secret_dir)
  : res unit * option secret_dir :=
  if one_of restart [ApplyRestartSucceeded; ApplyRestartFailed; ApplyRestartSkipped; ApplyRestartNotNeeded;
                     ApplyRestartPartial]
  then mutate_ x appID (λ st, Ok (recordApply (x_now x) restart st)) d
  else (Err (New CodeInvalidArgument "secrets: invalid apply outcome"), d).
End Values.

(** ** The file is replaced as a whole *)

Lemma appid_first id q : appid_Valid id = true → id +:+ q = "." +:+ q → False.
Proof. intros Hv Hq. apply sapp_inj_r in Hq as ->. by vm_compute in Hv. Qed.

Lemma store_tmp_not_store path d id : appid_Valid id = true → store_tmp path d ≠ id +:+ ".json".
Proof.
  intros Hv. unfold store_tmp. destruct (fresh_string_prefix d ("." +:+ path +:+ ".tmp-")) as [t ->].
  destruct id as [|c id]; [by vm_compute in Hv|]. intros [= <- _]. by vm_compute in Hv.
Qed.

Lemma store_tmp_fresh path d : d !! store_tmp path d = None.
Proof. apply fresh_string_fresh. Qed.

Lemma persist_atomic fl tmp path st (d : secret_dir) :
  tmp ≠ path → Forall (atomic_at d tmp path st) (crash_states fl (persist_prog tmp path st) d).
Proof.
  intros Hne. unfold crash_states, persist_prog, atomic_at. simpl. unfold do_ignored.
  run_syscalls fl d tmp; repeat (apply Forall_cons; split); try apply Forall_nil; simpl; auto;
    (split; [|intros p Hp1 Hp2]); simplify_map_eq; auto.
Qed.

Lemma persist_end fl tmp path st (d : secret_dir) r d' :
  tmp ≠ path → run_prog fl (persist_prog tmp path st) d = (r, d') →
  atomic_at d tmp path st d' ∧ (r = Ok tt → d' !! path = Some (Data st)).
Proof.
  intros Hne. unfold run_prog, persist_prog, atomic_at. simpl. unfold do_ignored.
  run_syscalls fl d tmp; simplify_map_eq; intros [= <- <-]; (split; [|try done]); simpl;
    (try (by intros; simplify_map_eq)); (split; [|intros p Hp1 Hp2]); simplify_map_eq; auto.
Qed.

Lemma secret_persist_no_faults tmp path st (d : secret_dir) :
  d !! tmp = None → run_prog no_faults (persist_prog tmp path st) d = (Ok tt, <[path := Data st]> d).
Proof.
  intros Htmp. unfold run_prog, persist_prog. simpl. unfold do_syscall, syscall_effect, no_faults.
  rewrite Htmp. simpl. simplify_map_eq. by rewrite insert_insert_eq, delete_insert_eq, delete_id.
Qed.

(** The files of the applications decode and are accepted. *)
Definition sound_dir (d : secret_dir) : Prop := ∀ appID c,
  appid_Valid appID = true → d !! (appID +:+ ".json") = Some c →
  ∃ st, c = Data st ∧ check_store (appID +:+ ".json") appID st = Ok tt.

Lemma sound_dir_replace d tmp appID st d' :
  sound_dir d → appid_Valid appID = true → (∀ id, appid_Valid id = true → tmp ≠ id +:+ ".json") →
  check_store (appID +:+ ".json") appID st = Ok tt →
  atomic_at d tmp (appID +:+ ".json") st d' → sound_dir d'.
Proof.
  intros Hd Hv Ht Hst [Hp Ho] id c Hid Hc.
  destruct (decide (id = appID)) as [->|Hne].
  - destruct Hp as [Hp|Hp]; rewrite Hp in Hc; [by eapply Hd|]. injection Hc as <-. by exists st.
  - rewrite Ho in Hc; [by eapply Hd|intros Heq; by apply sapp_inj_r in Heq|by apply not_eq_sym, Ht].
Qed.

(** ** What a mutation does to the directory *)

(** The states in which a mutation can leave the directory, a crash included. *)
Definition mutate_crash {K} (x : calls) (appID : string) (fn : Store → K → res Store * K)
    (d : option secret_dir) (k : K) : list (option secret_dir) :=
  match storePath appID, lock_store x d with
  | Ok path, (Ok _, d') =>
      let dir := default ∅ d' in
      match openStoreLocked x path appID dir with
      | Ok st => match fn st k with
                 | (Ok st, _) => d :: (Some <$> crash_states (x_faults x) (persist_prog (store_tmp path dir) path st) dir)
                 | _ => [d; d']
                 end
      | Err _ => [d; d']
      end
  | _, (_, d') => [d; d']
  end.

Lemma storePath_Ok appID path : storePath appID = Ok path ↔ appid_Valid appID = true ∧ path = appID +:+ ".json".
Proof.
  unfold storePath. destruct (appid_Valid appID); simpl; split; [by intros [= <-]|by intros [_ ->]|done|by intros []].
Qed.

Lemma lock_store_dir x d r d' : lock_store x d = (r, d') → default ∅ d' = default ∅ d.
Proof.
  unfold lock_store. destruct (x_faults x op_mkdir); [by intros [= <- <-]|].
  destruct (x_faults x op_stat); [by intros [= <- <-]|]. by destruct (x_dir_private x); intros [= <- <-].
Qed.

Lemma openStoreLocked_Ok x path appID d st :
  openStoreLocked x path appID d = Ok st →
  (d !! path = None ∧ st = empty_store appID) ∨ (d !! path = Some (Data st) ∧ check_store path appID st = Ok tt).
Proof.
  unfold openStoreLocked. destruct (d !! path) as [c|] eqn:Ec; [|intros [= <-]; by left].
  destruct (x_faults x op_read); [done|]. intros (_ & _ & H)%bind_Ok. destruct c as [|s]; [done|].
  apply bind_Ok in H as ([] & Hs & [= <-]). by right.
Qed.

Lemma check_empty_store appID : check_store (appID +:+ ".json") appID (empty_store appID) = Ok tt.
Proof. unfold check_store. cbn [ST_AppID empty_store]. by rewrite String.eqb_refl. Qed.

Lemma opened_checked x appID d st :
  openStoreLocked x (appID +:+ ".json") appID d = Ok st → check_store (appID +:+ ".json") appID st = Ok tt.
Proof. intros [[_ ->]|[_ H]]%openStoreLocked_Ok; [apply check_empty_store|done]. Qed.

(** A function that keeps what is accepted. *)
Definition keeps_checked {K} (fn : Store → K → res Store * K) : Prop := ∀ path appID st k st' k',
  check_store path appID st = Ok tt → fn st k = (Ok st', k') → check_store path appID st' = Ok tt.

Section Mutate.
Context {K : Type} (x : calls) (appID : string) (fn : Store → K → res Store * K).

(** The two ends of a mutation. *)
Lemma mutate_cases d k r d' k' :
  mutate x appID fn d k = (r, d', k') →
  (default ∅ d' = default ∅ d ∧ (∃ e, r = Err e) ∧ (k' = k ∨ ∃ st e, fn st k = (Err e, k'))) ∨
  (∃ st st', appid_Valid appID = true ∧
     openStoreLocked x (appID +:+ ".json") appID (default ∅ d) = Ok st ∧ fn st k = (Ok st', k') ∧
     atomic_at (default ∅ d) (store_tmp (appID +:+ ".json") (default ∅ d)) (appID +:+ ".json") st' (default ∅ d') ∧
     (r = Ok tt → default ∅ d' !! (appID +:+ ".json") = Some (Data st'))).
Proof.
  unfold mutate. destruct (storePath appID) as [path|e] eqn:Hp; [|intros [= <- <- <-]; left; eauto].
  apply storePath_Ok in Hp as [Hv ->]. destruct (lock_store x d) as [[[]|e] d1] eqn:Hl;
    apply lock_store_dir in Hl; [|intros [= <- <- <-]; left; eauto].
  rewrite Hl. destruct (openStoreLocked _ _ _ _) as [st|e] eqn:Ho; [|intros [= <- <- <-]; left; eauto].
  destruct (fn st k) as [[st'|e] k1] eqn:Hf; [|intros [= <- <- <-]; left; eauto 8].
  unfold persistLocked. destruct (run_prog _ _ _) as [r1 dir] eqn:Hr. intros [= <- <- <-]. right.
  apply persist_end in Hr as [Ha Hok]; [|by apply store_tmp_not_store]. by exists st, st'.
Qed.

(** Any state in which a mutation can leave the directory. *)
Lemma mutate_any d k d' :
  d' = (mutate x appID fn d k).1.2 ∨ d' ∈ mutate_crash x appID fn d k →
  let k' := (mutate x appID fn d k).2 in
  (k' = k ∨ ∃ st r, fn st k = (r, k')) ∧
  (default ∅ d' = default ∅ d ∨
   ∃ st st', appid_Valid appID = true ∧
     openStoreLocked x (appID +:+ ".json") appID (default ∅ d) = Ok st ∧ fn st k = (Ok st', k') ∧
     atomic_at (default ∅ d) (store_tmp (appID +:+ ".json") (default ∅ d)) (appID +:+ ".json") st' (default ∅ d')).
Proof.
  intros Hd'. cbv zeta. assert ((mutate x appID fn d k).2 = k ∨ ∃ st r, fn st k = (r, (mutate x appID fn d k).2)) as Hk.
  { unfold mutate. destruct (storePath appID); [|by left]. destruct (lock_store x d) as [[[]|e] d1]; [|by left].
    destruct (openStoreLocked _ _ _ _) as [st|e]; [|by left].
    destruct (fn st k) as [[st'|e] k1] eqn:Hf; [|right; by eauto].
    destruct (persistLocked _ _ _ _) as [r1 dir]. right; eauto. }
  split; [done|]. destruct Hd' as [->|Hd'].
  { destruct (mutate x appID fn d k) as [[r d'] k'] eqn:Hm. simpl.
    destruct (mutate_cases _ _ _ _ _ Hm) as [[-> _]|(st & st' & Hv & Ho & Hf & Ha & _)]; [by left|]. right. by exists st, st'. }
  unfold mutate, mutate_crash in *. destruct (lock_store x d) as [r d1] eqn:Hl. apply lock_store_dir in Hl.
  assert (d' ∈ [d; d1] → default ∅ d' = default ∅ d) as Hsame.
  { by intros [->|[->|?%not_elem_of_nil]%elem_of_cons]%elem_of_cons. }
  destruct (storePath appID) as [path|e] eqn:Hp; [|by left; apply Hsame].
  apply storePath_Ok in Hp as [Hv ->]. destruct r as [[]|e]; [|by left; apply Hsame]. rewrite Hl in *.
  destruct (openStoreLocked _ _ _ _) as [st|e] eqn:Ho; [|by left; apply Hsame].
  destruct (fn st k) as [[st'|e] k1] eqn:Hf; [|by left; apply Hsame].
  destruct (persistLocked _ _ _ _) as [r1 dir]. simpl.
  apply elem_of_cons in Hd' as [->|(dir' & -> & Hd')%list_elem_of_fmap]; [by left|]. right. exists st, st'.
  split; [done|]. split; [done|]. split; [done|].
  pose proof (persist_atomic (x_faults x) (store_tmp (appID +:+ ".json") (default ∅ d)) (appID +:+ ".json") st'
    (default ∅ d) (store_tmp_not_store _ _ _ Hv)) as Ha.
  rewrite Forall_forall in Ha. by apply Ha.
Qed.

Lemma mutate_sound d k d' :
  keeps_checked fn → sound_dir (default ∅ d) →
  d' = (mutate x appID fn d k).1.2 ∨ d' ∈ mutate_crash x appID fn d k → sound_dir (default ∅ d').
Proof.
  intros Hfn Hd Hd'. destruct (mutate_any d k d' Hd') as [_ [->|(st & st' & Hv & Ho & Hf & Ha)]]; [done|].
  eapply sound_dir_replace; [done|done| | |done]; [intros; by apply store_tmp_not_store|].
  by eapply Hfn; [eapply opened_checked|].
Qed.
End Mutate.

(** ** What is accepted *)

Definition pending_ok (st : Store) (p : PendingTxn) : Prop :=
  ValidTxnID (PT_TxnID p) = true ∧ validateBindings (PT_Bindings p) = Ok tt ∧ validatePending st p = Ok tt.

Record accepted (appID : string) (st : Store) : Prop := {
  acc_app : ST_AppID st = appID;
  acc_bindings : validateBindings (ST_Bindings st) = Ok tt;
  acc_schema : ST_SchemaVersion st = storeSchemaVersion;
  acc_secrets : ∀ name rec, ST_Secrets st !! name = Some rec → check_secret name rec = Ok tt;
  acc_pending : ∀ p, ST_Pending st = Some p → pending_ok st p
}.

Lemma check_store_accepted path appID st : check_store path appID st = Ok tt ↔ accepted appID st.
Proof.
  unfold check_store. split.
  - intros H. apply bind_Ok in H as ([] & H1%fail_if_Ok & H). apply bind_Ok in H as ([] & H2 & H).
    apply bind_Ok in H as ([] & H3 & H). apply bind_Ok in H as ([] & H4%fail_if_Ok & H).
    apply bind_Ok in H as ([] & H5 & H6). bool_prop. split; [done..| |].
    + intros name rec Hr. rewrite for_each_Ok, Forall_forall in H5.
      by apply (H5 (name, rec)), elem_of_map_to_list.
    + intros p Hp. rewrite Hp in H3, H6. apply bind_Ok in H3 as ([] & H3%fail_if_Ok & H3'). bool_prop. done.
  - intros [-> Hb Hsch Hs Hp]. rewrite String.eqb_refl. cbn [negb fail_if mbind result_bind]. rewrite Hb.
    cbn [mbind result_bind].
    assert (for_each (λ '(name, rec), check_secret name rec) (map_to_list (ST_Secrets st)) = Ok tt) as Hfe.
    { apply for_each_Ok, Forall_forall. intros [name rec] Hin%elem_of_map_to_list. by apply Hs. }
    destruct (ST_Pending st) as [p|]; [destruct (Hp p eq_refl) as (-> & -> & Hv)|];
      cbn [negb fail_if mbind result_bind]; rewrite Hsch, Z.eqb_refl; cbn [negb fail_if mbind result_bind];
      rewrite Hfe; done.
Qed.

Lemma check_versions_app prev l v :
  check_versions prev (l ++ [v]) = (m ← check_versions prev l; check_versions m [v]).
Proof.
  revert prev. induction l as [|w l IH]; intros prev; [done|]. cbn [app check_versions].
  destruct (_ || _)%bool; [done|]. apply IH.
Qed.

Lemma check_versions_last prev l m : check_versions prev l = Ok m → prev ≤ m ∧ ∀ v, v ∈ l → prev < SV_Version v ≤ m.
Proof.
  revert prev. induction l as [|w l IH]; intros prev; cbn [check_versions].
  { intros [= <-]. split; [lia|]. by intros v ?%not_elem_of_nil. }
  destruct (_ || _)%bool eqn:Eb; [done|]. intros Hm. apply IH in Hm as [H1 H2].
  apply orb_false_iff in Eb as [Eb _]. apply orb_false_iff in Eb as [Eb _]. apply Z.leb_gt in Eb.
  split; [lia|]. intros v [->|Hv]%elem_of_cons; [lia|]. specialize (H2 v Hv). lia.
Qed.

Lemma check_versions_drop prev l m n :
  check_versions prev l = Ok m → (n < length l)%nat → 0 ≤ prev → check_versions 0 (drop n l) = Ok m.
Proof.
  revert prev n. induction l as [|w l IH]; intros prev n H Hn Hp; [simpl in Hn; lia|].
  cbn [check_versions] in H. destruct (_ || _)%bool eqn:Eb; [done|].
  pose proof Eb as Eb'. apply orb_false_iff in Eb as [Eb Eb3]. apply orb_false_iff in Eb as [Eb1 Eb2].
  apply Z.leb_gt in Eb1. destruct n as [|n]; cbn [drop].
  - cbn [check_versions]. by rewrite (proj2 (Z.leb_gt _ _)), Eb2, Eb3 by lia.
  - simpl in Hn. eapply IH; [exact H|lia|lia].
Qed.

Definition good_version (v : SecretVersion) : Prop :=
  (∃ fp, hex_decode (SV_Fingerprint v) = Some fp ∧ String.length fp = 6%nat) ∧ SV_EncValue v ≠ "".

Lemma check_versions_one prev v :
  prev < SV_Version v → good_version v → check_versions prev [v] = Ok (SV_Version v).
Proof.
  intros Hv [(fp & Hfp & Hlen) He]. cbn [check_versions].
  rewrite (proj2 (Z.leb_gt _ _)), Hfp, Hlen, (proj2 (String.eqb_neq _ _)) by done. done.
Qed.

(** The record of a secret with one version more is accepted. *)
Lemma new_version_checked now name fp enc st :
  match_string secretNameRe name = true →
  (∀ rec, ST_Secrets st !! name = Some rec → check_secret name rec = Ok tt) →
  (∃ raw, hex_decode fp = Some raw ∧ String.length raw = 6%nat) → enc ≠ "" →
  check_secret name (new_version now name fp enc st) = Ok tt ∧
  (∃ l, SR_Versions (new_version now name fp enc st) =
          l ++ [mkSecretVersion (SR_ActiveVersion (new_version now name fp enc st)) now fp enc]).
Proof.
  intros Hname Hold Hfp Henc. unfold new_version.
  set (rec := default (mkSecret name 0 now 0 []) (ST_Secrets st !! name)).
  set (v := mkSecretVersion (SR_ActiveVersion rec + 1) now fp enc). cbn zeta.
  assert (SR_Name rec = name ∧ check_versions 0 (SR_Versions rec) = Ok (SR_ActiveVersion rec)) as [Hn Hv].
  { subst rec. destruct (ST_Secrets st !! name) as [rec|] eqn:Er; [|done]. simpl. specialize (Hold _ eq_refl).
    unfold check_secret in Hold. apply bind_Ok in Hold as ([] & H1%fail_if_Ok & H).
    apply bind_Ok in H as (m & Hm & H%fail_if_Ok). apply negb_false_iff, Z.eqb_eq in H. rewrite H. split; [|done].
    apply orb_false_iff in H1 as [H1 _]. apply orb_false_iff in H1 as [H1 _]. apply orb_false_iff in H1 as [_ H1].
    by apply negb_false_iff, String.eqb_eq in H1. }
  set (n := (length (SR_Versions rec ++ [v]) - maxVersions)%nat).
  assert (Hlen : length (SR_Versions rec ++ [v]) = S (length (SR_Versions rec))) by (rewrite length_app; simpl; lia).
  assert (n < length (SR_Versions rec ++ [v]))%nat as Hlt by (subst n; unfold maxVersions; lia).
  assert (check_versions 0 (SR_Versions rec ++ [v]) = Ok (SV_Version v)) as Hall.
  { rewrite check_versions_app, Hv. cbn [mbind result_bind]. apply check_versions_one; [simpl; lia|by split]. }
  cbn [SR_Versions SR_ActiveVersion]. split.
  - unfold check_secret. cbn [SR_Name SR_Versions SR_ActiveVersion].
    unfold validateSecretName. rewrite Hname, Hn, String.eqb_refl. cbn [negb fail_if is_ok orb].
    assert (0 < length (drop n (SR_Versions rec ++ [v])) ≤ maxVersions)%nat as [Hd1 Hd2].
    { rewrite length_drop. subst n. unfold maxVersions. lia. }
    rewrite (proj2 (Nat.eqb_neq _ 0)), (proj2 (Nat.ltb_ge _ _)) by lia.
    cbn [orb fail_if mbind result_bind]. rewrite (check_versions_drop 0 _ (SV_Version v)) by done.
    cbn [mbind result_bind SV_Version v]. by rewrite Z.eqb_refl.
  - exists (drop n (SR_Versions rec)). rewrite drop_app_le; [done|]. subst n. unfold maxVersions. lia.
Qed.

Lemma Peek_secrets st st' name :
  ST_Secrets st' = ST_Secrets st →
  match Peek st name, Peek st' name with
  | Ok m, Ok m' => SM_Version m' = SM_Version m ∧ SM_Fingerprint m' = SM_Fingerprint m
  | Err e, Err e' => e = e'
  | _, _ => False
  end.
Proof. intros Hs. unfold Peek. rewrite Hs. by destruct (ST_Secrets st !! name). Qed.

Lemma validatePending_secrets st st' p :
  ST_Secrets st' = ST_Secrets st → validatePending st' p = validatePending st p.
Proof.
  intros Hs. unfold validatePending. destruct (resolved_map _ _) as [m|e]; [|done]. cbn [mbind result_bind].
  assert (∀ b, check_pinned st' m b = check_pinned st m b) as Hb.
  { intros b. unfold check_pinned. pose proof (Peek_secrets st st' (B_Secret b) Hs) as H.
    destruct (Peek st _), (Peek st' _); try done; cbn [mbind result_bind]; [|by rewrite H].
    by destruct H as [-> ->]. }
  assert (∀ l, for_each (check_pinned st' m) l = for_each (check_pinned st m) l) as ->; [|done].
  induction l as [|b l IH]; [done|]. simpl. by rewrite Hb, IH.
Qed.

(** A change that leaves the secrets as they are. *)
Lemma accepted_change appID st st' :
  accepted appID st → ST_AppID st' = ST_AppID st → ST_SchemaVersion st' = ST_SchemaVersion st →
  ST_Secrets st' = ST_Secrets st → validateBindings (ST_Bindings st') = Ok tt →
  (∀ p, ST_Pending st' = Some p → pending_ok st p) → accepted appID st'.
Proof.
  intros [Ha Hb Hsch Hs Hp] Ha' Hsch' Hs' Hb' Hp'. split; [congruence|done|congruence| |].
  - intros name rec. rewrite Hs'. apply Hs.
  - intros p Hpp. destruct (Hp' p Hpp) as (? & ? & ?). split_and!; [done..|].
    by rewrite (validatePending_secrets st).
Qed.
