(* ===== verification/SecretSafety.v ===== *)
(** * SecretSafety: what holds of the secrets of a host

    The operations of SecretStore and EnvStore, run in any order with any
    faults and crashes: the files of the secret store stay readable, every
    encrypted value stays readable under one master key, the value that was
    set is the value that is resolved, and bindings change only by being
    replaced or committed. *)

From S2P Require Import Prelude GoLib Errors FileStore Retention EnvStore SecretStore.

Section Safety.
Context (seal : string → string → string → string).
Context (open : string → string → string → option string).
Context (hmac : string → string → string).
(** AES-GCM opens what it sealed; HMAC-SHA256 has at least six bytes. *)
Context (Hlaw : ∀ k n p, open k n (seal k n p) = Some p).
Context (Hmac : ∀ k v, (6 ≤ String.length (hmac k v))%nat).

(** The random source fills the nonce. *)
Definition good_nonce (nonce : option string) : Prop := ∀ n, nonce = Some n → String.length n = nonce_size.

(** ** Every operation keeps what is accepted *)

Lemma take_hex_of n s : take_str (2 * n) (hex_of s) = hex_of (take_str n s).
Proof.
  unfold take_str. revert s. induction n as [|n IH]; intros s; [by destruct s|].
  replace (2 * S n)%nat with (S (S (2 * n))) by lia. destruct s as [|c s]; [done|].
  cbn [hex_of String.substring]. by rewrite IH.
Qed.

Lemma take_str_length n s : (n ≤ String.length s)%nat → String.length (take_str n s) = n.
Proof.
  unfold take_str. revert s. induction n as [|n IH]; intros s Hn; [by destruct s|].
  destruct s as [|c s]; simpl in *; [lia|]. rewrite IH; [done|lia].
Qed.

Lemma fingerprint_form master value :
  ∃ raw, hex_decode (fingerprint hmac master value) = Some raw ∧ String.length raw = 6%nat.
Proof.
  unfold fingerprint. rewrite (take_hex_of 6), hex_decode_hex_of. eexists. split; [done|].
  by apply take_str_length.
Qed.

Lemma EncryptData_form nonce plain key enc :
  good_nonce nonce → EncryptData seal nonce plain key = Ok enc →
  ∃ n, nonce = Some n ∧ String.length n = nonce_size ∧ enc ≠ "" ∧ DecryptData open enc key = Ok plain.
Proof.
  intros Hn He. destruct nonce as [n|].
  2: { unfold EncryptData in He. by destruct (negb _). }
  exists n. split; [done|]. specialize (Hn _ eq_refl). split; [done|].
  split; [|by eapply DecryptData_EncryptData]. unfold EncryptData in He.
  destruct (negb _); [done|]. injection He as <-. intros Heq. apply (f_equal String.length) in Heq.
  rewrite length_hex_of, length_sapp, Hn in Heq. simpl in Heq. lia.
Qed.

Lemma accepted_recordApply appID now restart st :
  accepted appID st → accepted appID (recordApply now restart st).
Proof. intros [Ha Hb Hsch Hs Hp]. by split. Qed.

Lemma set_secret_cases {K} (first known : K → res string * K) nonce now name value st k out st' k' out' :
  set_secret seal hmac first known nonce now name value st (k, out) = (Ok st', (k', out')) →
  ∃ key fp enc, ST_Pending st = None ∧
    (if bool_decide (ST_Secrets st = ∅) then first k else known k) = (Ok key, k') ∧
    fp = fingerprint hmac key value ∧ EncryptData seal nonce value key = Ok enc ∧
    SE_Version out' = SR_ActiveVersion (new_version now name fp enc st) ∧ SE_Fingerprint out' = fp ∧
    SE_Previous out' = match ST_Secrets st !! name with Some r => SR_ActiveVersion r | None => 0 end ∧
    ST_Secrets st' = <[name := new_version now name fp enc st]> (ST_Secrets st) ∧
    ST_Bindings st' = ST_Bindings st ∧ ST_Pending st' = None ∧ ST_AppID st' = ST_AppID st ∧
    ST_SchemaVersion st' = ST_SchemaVersion st.
Proof.
  unfold set_secret. destruct (ST_Pending st) as [p|] eqn:Hp; [done|].
  destruct (if bool_decide (ST_Secrets st = ∅) then first k else known k) as [[key|e] k1]; [|done].
  cbn [mbind result_bind]. destruct (EncryptData seal nonce value key) as [enc|e] eqn:He; [|done].
  cbn [mbind result_bind]. intros [= <- <- <-]. exists key, (fingerprint hmac key value), enc.
  by destruct (existsb _ _).
Qed.

Lemma set_secret_keeps {K} (first known : K → res string * K) nonce now name value :
  match_string secretNameRe name = true → good_nonce nonce →
  keeps_checked (set_secret seal hmac first known nonce now name value).
Proof.
  intros Hname Hn path appID st [k out] st' [k' out'] Hc Hset. apply check_store_accepted in Hc as [Ha Hb Hsch Hs Hp].
  apply set_secret_cases in Hset as (key & fp & enc & Hpend & _ & -> & He & _ & _ & _ & Hs' & Hb' & Hp' & Ha' & Hsch').
  apply check_store_accepted. split; [congruence|by rewrite Hb'|congruence| |by rewrite Hp'].
  destruct (EncryptData_form _ _ _ _ Hn He) as (n & _ & _ & Hne & _).
  intros nm rec. rewrite Hs'. intros [[<- <-]|[_ Hr]]%lookup_insert_Some; [|by apply Hs].
  eapply new_version_checked; [done|apply Hs|apply fingerprint_form|done].
Qed.

(** The mutations without a key: their functions. *)
Inductive plain_fn : (Store → res Store) → Prop :=
| fn_remove name : plain_fn (remove_secret name)
| fn_replace now live key appID bindings : validateBindings bindings = Ok tt →
    plain_fn (λ st,
      match ST_Pending st with
      | Some _ => Err (New CodeDeployLocked "secrets: reconcile the pending deployment before changing bindings")
      | None =>
          _ ← CheckCollisions live appID bindings;
          _ ← for_each (λ b, _ ← resolve open hmac key st (B_Secret b); Ok tt) bindings;
          Ok (recordApply now ApplyRestartNotNeeded (with_Bindings bindings st))
      end)
| fn_begin live appID txn : ValidTxnID (PT_TxnID txn) = true → validateBindings (PT_Bindings txn) = Ok tt →
    plain_fn (λ st,
      match ST_Pending st with
      | Some _ => Err (New CodeDeployLocked "secrets: reconcile the pending deployment before starting another")
      | None =>
          _ ← validatePending st txn;
          _ ← CheckCollisions live appID (PT_Bindings txn);
          Ok (with_Pending (Some txn) st)
      end)
| fn_commit now : plain_fn (λ st,
    match ST_Pending st with
    | None => Ok st
    | Some p => Ok (with_Pending None (recordApply now ApplyDeploymentAccepted (with_Bindings (PT_Bindings p) st)))
    end)
| fn_discard : plain_fn (λ st, Ok (with_Pending None st))
| fn_record now restart : plain_fn (λ st, Ok (recordApply now restart st)).

(** What such a function does to a store. *)
Lemma plain_fn_effect fn st st' :
  plain_fn fn → fn st = Ok st' → accepted (ST_AppID st) st →
  accepted (ST_AppID st) st' ∧ ST_AppID st' = ST_AppID st ∧
  (ST_Secrets st' = ST_Secrets st ∨ ∃ name, ST_Secrets st' = delete name (ST_Secrets st)).
Proof.
  intros Hfn Hf Hacc. destruct Hfn.
  - unfold remove_secret in Hf. destruct (ST_Pending st) as [p|] eqn:Hp; [done|].
    apply bind_Ok in Hf as ([] & _ & Hf). destruct (ST_Secrets st !! name) eqn:Hn; [|done]. injection Hf as <-.
    split; [|split; [done|right; by exists name]].
    destruct Hacc as [Ha Hb Hsch Hs Hpd]. split; [done|done|done| |by intros p; simpl; rewrite Hp].
    intros nm rec. cbn [ST_Secrets with_Secrets]. intros [_ Hr]%lookup_delete_Some. by apply Hs.
  - destruct (ST_Pending st) as [p|] eqn:Hp; [done|]. apply bind_Ok in Hf as ([] & _ & Hf).
    apply bind_Ok in Hf as ([] & _ & [= <-]). split; [|by split; [|left]].
    eapply accepted_change; [done..| |]; [done|]. intros p. simpl. by rewrite Hp.
  - destruct (ST_Pending st) as [p|] eqn:Hp; [done|]. apply bind_Ok in Hf as ([] & Hv & Hf).
    apply bind_Ok in Hf as ([] & _ & [= <-]). split; [|by split; [|left]].
    eapply accepted_change; [done|done|done|done|apply Hacc|]. by intros p [= <-].
  - destruct (ST_Pending st) as [p|] eqn:Hp; injection Hf as <-; [|by split; [|split; [|left]]].
    split; [|by split; [|left]]. destruct (acc_pending _ _ Hacc p Hp) as (_ & Hb & _).
    by eapply accepted_change.
  - injection Hf as <-. split; [|by split; [|left]]. eapply accepted_change; [done|done|done|done|apply Hacc|done].
  - injection Hf as <-. split; [by apply accepted_recordApply|by split; [|left]].
Qed.

Lemma plain_fn_keeps {K} fn : plain_fn fn → keeps_checked (λ st (k : K), (fn st, k)).
Proof.
  intros Hfn path appID st k st' k' Hc [= Hf _]. apply check_store_accepted in Hc. apply check_store_accepted.
  pose proof (acc_app _ _ Hc) as <-. by eapply plain_fn_effect.
Qed.

(** ** The operations on a store *)

Inductive plain_op :=
| ORemove (name : string)
| OReplace (live : res (gset string)) (key : res string) (bindings : list Binding)
| OBegin (live : res (gset string)) (txn : PendingTxn)
| OCommit
| ODiscard
| ORecord (restart : string).

Definition run_plain (x : calls) (appID : string) (op : plain_op) (d : option secret_dir)
  : res unit * option secret_dir :=
  match op with
  | ORemove name => Remove x appID name d
  | OReplace live key bindings => ReplaceBindings open hmac x live key appID bindings d
  | OBegin live txn => BeginTxn x live appID txn d
  | OCommit => CommitTxn x appID d
  | ODiscard => DiscardTxn x appID d
  | ORecord restart => RecordApply x appID restart d
  end.

(** Each is refused at once or a mutation. *)
Lemma run_plain_mutate x appID op :
  (∃ e, ∀ d, run_plain x appID op d = (Err e, d)) ∨
  (∃ fn, plain_fn fn ∧ ∀ d, run_plain x appID op d = mutate_ x appID fn d).
Proof.
  destruct op as [name|live key bs|live txn| | |restart]; cbn [run_plain].
  - unfold Remove. destruct (validateSecretName name) as [[]|e]; [|left; by exists e].
    right. eexists. split; [apply fn_remove|done].
  - unfold ReplaceBindings. destruct (validateBindings bs) as [[]|e] eqn:Hb; [|left; by exists e].
    right. eexists. split; [by apply fn_replace|done].
  - unfold BeginTxn. destruct (ValidTxnID _) eqn:Hv; cbn [negb]; [|left; by eexists].
    destruct (validateBindings _) as [[]|e] eqn:Hb; [|left; by exists e].
    right. eexists. split; [|done]. by apply (fn_begin live appID (stamped_at (x_now x) txn)).
  - right. eexists. split; [apply fn_commit|done].
  - right. eexists. split; [apply fn_discard|done].
  - unfold RecordApply. destruct (one_of _ _); [|left; by eexists]. right. eexists. split; [apply fn_record|done].
Qed.

(** ** A host *)

Record host := mkHost {
  h_key : key_dir;
  h_secrets : option secret_dir;
  h_envs : option env_dir;
  h_snapshots : list (option env_dir)
}.

(** What [GetMasterKey] meets. *)
Record key_call := mkKeyCall {
  kc_faults : faults;
  kc_fresh : option string;
  kc_tmp : string;
  kc_other : option (content key_file)
}.

Definition good_key_call (kc : key_call) : Prop :=
  kc_tmp kc ≠ master_key ∧ ∀ key, kc_fresh kc = Some key → String.length key = 32%nat.

Definition get_key (kc : key_call) (secrets : option secret_dir) (h : host) (k : key_dir) : res string * key_dir :=
  GetMasterKey (kc_faults kc) (kc_fresh kc) (kc_tmp kc) (kc_other kc) secrets (h_envs h) (h_snapshots h) k.

(** [Set] on the host: the directory exists when the key is asked for. *)
Definition host_first (kc : key_call) (h : host) (k : key_dir) : res string * key_dir :=
  get_key kc (Some (default ∅ (h_secrets h))) h k.
Definition host_known (kf : faults) (k : key_dir) : res string * key_dir := (ReadMasterKey kf k, k).

Definition set_fn (x : calls) kc kf nonce name value (h : host) :=
  set_secret seal hmac (host_first kc h) (host_known kf) nonce (x_now x) name value.

Definition with_envs (d : env_dir) (k : key_dir) (h : host) : host :=
  mkHost k (h_secrets h) (Some d) (h_snapshots h).

(** One operation of any process, or what a crash leaves of it; the key file
    may also be lost.  A write of the variables that a crash interrupts is one
    whose write fails. *)
Inductive host_step (h : host) : host → Prop :=
| step_set x kc kf nonce appID name value r d k :
    good_key_call kc → good_nonce nonce →
    Set_ seal hmac x (host_first kc h) (host_known kf) nonce appID name value (h_secrets h) (h_key h) = (r, d, k) →
    host_step h (mkHost k d (h_envs h) (h_snapshots h))
| step_set_crash x kc kf nonce appID name value out d :
    good_key_call kc → good_nonce nonce → match_string secretNameRe name = true →
    d ∈ mutate_crash x appID (set_fn x kc kf nonce name value h) (h_secrets h) (h_key h, out) →
    host_step h (mkHost (mutate x appID (set_fn x kc kf nonce name value h) (h_secrets h) (h_key h, out)).2.1
                   d (h_envs h) (h_snapshots h))
| step_plain x appID op r d :
    run_plain x appID op (h_secrets h) = (r, d) →
    host_step h (mkHost (h_key h) d (h_envs h) (h_snapshots h))
| step_plain_crash x appID op fn d :
    (∀ d, run_plain x appID op d = mutate_ x appID fn d) → plain_fn fn →
    d ∈ mutate_crash x appID (λ st k, (fn st, k)) (h_secrets h) tt →
    host_step h (mkHost (h_key h) d (h_envs h) (h_snapshots h))
| step_set_env fl kc nonce now appID name value key k r d :
    good_key_call kc → good_nonce nonce →
    get_key kc (h_secrets h) (with_envs (default ∅ (h_envs h)) (h_key h) h) (h_key h) = (key, k) →
    SetEnv seal fl nonce key now appID name value (default ∅ (h_envs h)) = Some (r, d) →
    host_step h (with_envs d k h)
| step_unset_env fl appID name r d :
    UnsetEnv fl appID name (default ∅ (h_envs h)) = (r, d) → host_step h (with_envs d (h_key h) h)
| step_clear_env fl appID r d :
    ClearAllEnv fl appID (default ∅ (h_envs h)) = (r, d) → host_step h (with_envs d (h_key h) h)
| step_snapshot fl fl' appID dst i old r d :
    h_snapshots h !! i = Some old →
    snapshotEnvForVersion fl fl' appID dst (default ∅ (h_envs h)) (default ∅ old) = (r, d) →
    host_step h (mkHost (h_key h) (h_secrets h) (h_envs h) (<[i := Some d]> (h_snapshots h)))
| step_key kc k :
    good_key_call kc →
    (k = (get_key kc (h_secrets h) h (h_key h)).2 ∨
     k ∈ GetMasterKey_crash (kc_faults kc) (kc_fresh kc) (kc_tmp kc) (kc_other kc) (h_secrets h) (h_envs h)
           (h_snapshots h) (h_key h)) →
    host_step h (mkHost k (h_secrets h) (h_envs h) (h_snapshots h))
| step_key_lost :
    host_step h (mkHost (delete master_key (h_key h)) (h_secrets h) (h_envs h) (h_snapshots h)).

(** ** One key opens everything *)

Definition opens (key v : string) : Prop := is_ok (DecryptData open v key) = true.

Definition dir_opens {A} `{Encrypted A} (key : string) (d : gmap string (content A)) : Prop :=
  ∀ p a v, visible p = true → d !! p = Some (Data a) → v ∈ sealed_values a → opens key v.

Definition host_opens (key : string) (h : host) : Prop :=
  dir_opens key (default ∅ (h_secrets h)) ∧ dir_opens key (default ∅ (h_envs h)) ∧
  Forall (λ d, dir_opens key (default ∅ d)) (h_snapshots h).

(** The key file, if it can be read, is [key]. *)
Definition key_is (key : string) (k : key_dir) : Prop :=
  ∀ key', readMasterKey no_faults k = KeyFound key' → key' = key.

Definition host_sound (h : host) : Prop :=
  sound_dir (default ∅ (h_secrets h)) ∧ ∃ key, host_opens key h ∧ key_is key (h_key h).

Lemma read_same fl (k k' : key_dir) : k' !! master_key = k !! master_key → readMasterKey fl k' = readMasterKey fl k.
Proof. intros Hk. unfold readMasterKey. by rewrite Hk. Qed.

Lemma dir_opens_empty {A} `{Encrypted A} key fl (dir : option (gmap string (content A))) :
  inspectEncryptedStores fl dir = Ok tt → dir_opens key (default ∅ dir).
Proof.
  intros Hi p a v Hp Ha Hv. destruct dir as [dir|]; [|simpl in Ha; by rewrite lookup_empty in Ha].
  destruct (inspect_Ok fl dir p (Data a) Hi Hp Ha) as (a' & [= <-] & Hs). rewrite Hs in Hv.
  by apply not_elem_of_nil in Hv.
Qed.

(** A step of the key file leaves one key that opens everything. *)
Lemma key_step_opens kc secrets h h0 k k' key :
  default ∅ secrets = default ∅ (h_secrets h) → default ∅ (h_envs h0) = default ∅ (h_envs h) →
  h_snapshots h0 = h_snapshots h →
  key_step (kc_faults kc) secrets (h_envs h0) (h_snapshots h0) k k' → host_opens key h → key_is key k →
  ∃ key', host_opens key' h ∧ key_is key' k'.
Proof.
  intros Hsec Henv Hsnap [Hk|[Hk Hn]] Ho Hi.
  - exists key. split; [done|]. intros key'. rewrite (read_same _ k) by done. apply Hi.
  - assert (∀ key', host_opens key' h) as Hall.
    { intros key'. apply bind_Ok in Hn as ([] & H1 & Hn). apply bind_Ok in Hn as ([] & H2 & H3).
      split; [|split]; [rewrite <- Hsec; by eapply dir_opens_empty|rewrite <- Henv; by eapply dir_opens_empty|].
      rewrite <- Hsnap. rewrite for_each_Ok in H3. eapply Forall_impl; [exact H3|]. intros d. apply dir_opens_empty. }
    destruct (readMasterKey no_faults k') as [key'| |] eqn:Er.
    + exists key'. split; [done|]. intros ?. rewrite Er. by intros [= ->].
    + exists key. split; [done|]. intros ?. by rewrite Er.
    + exists key. split; [done|]. intros ?. by rewrite Er.
Qed.

Lemma invisible_tmp path (d : secret_dir) : visible (store_tmp path d) = false.
Proof.
  unfold store_tmp. destruct (fresh_string_digits d ("." +:+ path +:+ ".tmp-")) as (t & -> & Ht).
  assert (∃ s c, ("." +:+ path +:+ ".tmp-") +:+ t = s +:+ String c "" ∧ c ≠ "n"%char ∧ c ≠ "c"%char) as (s & c & -> & Hn & Hc).
  { destruct (decide (t = "")) as [->|Hne].
    - exists ("." +:+ path +:+ ".tmp"), "-"%char. rewrite sapp_nil_r. split; [|done].
      rewrite <- !sapp_assoc. done.
    - destruct (string_last t Hne) as (u & c & ->). exists (("." +:+ path +:+ ".tmp-") +:+ u), c.
      rewrite sapp_assoc. split; [done|]. rewrite all_chars_app in Ht. apply andb_true_iff in Ht as [_ Ht].
      simpl in Ht. by split; intros ->. }
  unfold visible. rewrite (HasSuffix_last _ ".jso" c "n") by done. by rewrite (HasSuffix_last _ ".en" c "c").
Qed.

Lemma dir_opens_replace {A} `{Encrypted A} key (d d' : gmap string (content A)) tmp path a :
  dir_opens key d → visible tmp = false → (∀ v, v ∈ sealed_values a → opens key v) →
  atomic_at d tmp path a d' → dir_opens key d'.
Proof.
  intros Hd Ht Ha [Hp Ho] p b v Hv Hb Hin. destruct (decide (p = path)) as [->|Hne].
  - destruct Hp as [Hp|Hp]; rewrite Hp in Hb; [by eapply Hd|]. injection Hb as <-. by apply Ha.
  - rewrite Ho in Hb; [by eapply Hd|done|]. intros ->. by rewrite Ht in Hv.
Qed.

(** ** The values of a store *)

Lemma elem_of_sealed_store st v :
  v ∈ sealed_values st ↔ ∃ name rec w, ST_Secrets st !! name = Some rec ∧ w ∈ SR_Versions rec ∧ v = SV_EncValue w.
Proof.
  cbn [sealed_values Store_encrypted]. rewrite list_elem_of_In, in_concat. split.
  - intros (l & Hl%list_elem_of_In & Hv%list_elem_of_In).
    apply list_elem_of_fmap in Hl as ([name rec] & -> & Hr). apply list_elem_of_fmap in Hv as (w & -> & Hw).
    apply elem_of_map_to_list in Hr. by exists name, rec, w.
  - intros (name & rec & w & Hr & Hw & ->). exists (SV_EncValue <$> SR_Versions rec). split; apply list_elem_of_In.
    + apply list_elem_of_fmap. exists (name, rec). split; [done|]. by apply elem_of_map_to_list.
    + apply list_elem_of_fmap. by exists w.
Qed.

Lemma elem_of_sealed_env s v :
  v ∈ sealed_values s ↔ ∃ name e, entries s !! name = Some e ∧ v = EE_Value e.
Proof.
  cbn [sealed_values EnvStore_encrypted]. rewrite list_elem_of_fmap. split.
  - intros ([name e] & -> & He%elem_of_map_to_list). by exists name, e.
  - intros (name & e & He%elem_of_map_to_list & ->). by exists (name, e).
Qed.

Lemma opened_opens x appID key (d : secret_dir) st v :
  dir_opens key d → openStoreLocked x (appID +:+ ".json") appID d = Ok st → v ∈ sealed_values st → opens key v.
Proof.
  intros Hd [[_ ->]|[Hp _]]%openStoreLocked_Ok Hv.
  - apply elem_of_sealed_store in Hv as (name & rec & w & Hr & _). simpl in Hr; by rewrite lookup_empty in Hr.
  - eapply Hd; [|exact Hp|exact Hv]. unfold visible. by rewrite HasSuffix_app.
Qed.

Lemma new_version_versions now name fp enc st w :
  w ∈ SR_Versions (new_version now name fp enc st) →
  SV_EncValue w = enc ∨ ∃ rec, ST_Secrets st !! name = Some rec ∧ w ∈ SR_Versions rec.
Proof.
  unfold new_version. cbn [SR_Versions]. set (l := _ ++ [_]). intros Hw.
  assert (w ∈ l) as Hl; [rewrite <- (take_drop (length l - maxVersions) l); apply elem_of_app; by right|]. clear Hw.
  rename Hl into Hw. subst l.
  apply elem_of_app in Hw as [Hw|Hw%list_elem_of_singleton]; [|left; by rewrite Hw].
  destruct (ST_Secrets st !! name) as [rec|]; [|by apply not_elem_of_nil in Hw]. right. by exists rec.
Qed.

(** ** Every step is sound *)

Lemma set_fn_key x kc kf nonce name value h st k out r k' out' :
  good_key_call kc →
  set_fn x kc kf nonce name value h st (k, out) = (r, (k', out')) →
  key_step (kc_faults kc) (Some (default ∅ (h_secrets h))) (h_envs h) (h_snapshots h) k k'.
Proof.
  intros [Htmp Hfresh]. unfold set_fn, set_secret. destruct (ST_Pending st); [intros [= _ <- _]; by left|].
  destruct (bool_decide _).
  - unfold host_first, get_key. destruct (GetMasterKey _ _ _ _ _ _ _ k) as [key k1] eqn:Hg.
    destruct (GetMasterKey_step _ _ Htmp _ _ _ _ _ Hfresh _ _ _ Hg) as [Hs _].
    destruct (key ← key; _) as [[fp enc]|e]; by intros [= _ <- _].
  - unfold host_known. destruct (key ← _; _) as [[fp enc]|e]; intros [= _ <- _]; by left.
Qed.

Lemma set_fn_opens x kc kf nonce name value h st k out st' k' out' :
  good_key_call kc → good_nonce nonce →
  set_fn x kc kf nonce name value h st (k, out) = (Ok st', (k', out')) →
  ∃ key, readMasterKey no_faults k' = KeyFound key ∧ ∀ v, v ∈ sealed_values st' → v ∈ sealed_values st ∨ opens key v.
Proof.
  intros [Htmp Hfresh] Hn Hset. apply set_secret_cases in Hset as (key & fp & enc & _ & Hk & _ & He & _ & _ & _ & Hs & _).
  exists key. split.
  - destruct (bool_decide _).
    + by apply (GetMasterKey_step _ _ Htmp _ _ _ _ _ Hfresh) in Hk as [_ Hr]; apply Hr.
    + injection Hk as Hr <-. unfold ReadMasterKey, key_result in Hr.
      destruct (readMasterKey kf k) as [key'| |] eqn:Er; [|done..]. injection Hr as ->. by eapply readMasterKey_faults.
  - destruct (EncryptData_form _ _ _ _ Hn He) as (n & _ & _ & _ & Hd).
    intros v (nm & rec & w & Hr & Hw & ->)%elem_of_sealed_store. rewrite Hs in Hr.
    apply lookup_insert_Some in Hr as [[<- <-]|[_ Hr]].
    + apply new_version_versions in Hw as [->|(rec & Hr & Hw)]; [right; unfold opens; by rewrite Hd|].
      left. apply elem_of_sealed_store. by exists name, rec, w.
    + left. apply elem_of_sealed_store. by exists nm, rec, w.
Qed.

Lemma set_step_sound x kc kf nonce appID name value h out d :
  good_key_call kc → good_nonce nonce → match_string secretNameRe name = true → host_sound h →
  let m := mutate x appID (set_fn x kc kf nonce name value h) (h_secrets h) (h_key h, out) in
  d = m.1.2 ∨ d ∈ mutate_crash x appID (set_fn x kc kf nonce name value h) (h_secrets h) (h_key h, out) →
  host_sound (mkHost m.2.1 d (h_envs h) (h_snapshots h)).
Proof.
  intros Hkc Hn Hname [Hd (key & Ho & Hi)] m Hin. split.
  { eapply mutate_sound; [|exact Hd|exact Hin]. by apply (set_secret_keeps (host_first kc h) (host_known kf)). }
  destruct (mutate_any _ _ _ _ _ _ Hin) as [Hk Hcase]. fold m in Hk, Hcase. destruct m as [[r dm] [k' out']]. cbn [snd fst] in *.
  assert (key_step (kc_faults kc) (Some (default ∅ (h_secrets h))) (h_envs h) (h_snapshots h) (h_key h) k') as Hstep.
  { destruct Hk as [[= -> _]|(st & r1 & Hf)]; [by left|]. by eapply set_fn_key. }
  destruct (key_step_opens kc (Some (default ∅ (h_secrets h))) h h _ _ key eq_refl eq_refl eq_refl Hstep Ho Hi) as (key' & (Ho1 & Ho2 & Ho3) & Hi').
  exists key'. split; [|done]. split; [|by split]. cbn [h_secrets].
  destruct Hcase as [->|(st & st' & Hv & Hop & Hf & Ha)]; [done|].
  destruct (set_fn_opens _ _ _ _ _ _ _ _ _ _ _ _ _ Hkc Hn Hf) as (key2 & Hr2 & Hv2). apply Hi' in Hr2 as ->.
  eapply dir_opens_replace; [exact Ho1|apply invisible_tmp| |exact Ha].
  intros v Hv'. destruct (Hv2 v Hv') as [Hold|]; [|done]. by eapply opened_opens.
Qed.

Lemma plain_step_sound x appID fn h d :
  plain_fn fn → host_sound h →
  d = (mutate x appID (λ st k, (fn st, k)) (h_secrets h) tt).1.2 ∨
  d ∈ mutate_crash x appID (λ st k, (fn st, k)) (h_secrets h) tt →
  host_sound (mkHost (h_key h) d (h_envs h) (h_snapshots h)).
Proof.
  intros Hfn [Hd (key & (Ho1 & Ho2 & Ho3) & Hi)] Hin. split.
  { eapply mutate_sound; [by apply plain_fn_keeps|exact Hd|exact Hin]. }
  exists key. split; [|done]. split; [|by split]. cbn [h_secrets].
  destruct (mutate_any _ _ _ _ _ _ Hin) as [_ [->|(st & st' & Hv & Hop & [= Hf _] & Ha)]]; [done|].
  eapply dir_opens_replace; [exact Ho1|apply invisible_tmp| |exact Ha].
  intros v (nm & rec & w & Hr & Hw & ->)%elem_of_sealed_store. eapply opened_opens; [exact Ho1|exact Hop|].
  apply elem_of_sealed_store. pose proof (opened_checked _ _ _ _ Hop) as Hacc%check_store_accepted.
  pose proof (acc_app _ _ Hacc) as Happ. rewrite <- Happ in Hacc.
  destruct (plain_fn_effect _ _ _ Hfn Hf Hacc) as (_ & _ & [Hs|(nm' & Hs)]); rewrite Hs in Hr.
  - by exists nm, rec, w.
  - apply lookup_delete_Some in Hr as [_ Hr]. by exists nm, rec, w.
Qed.

(** Saving variables whose values open. *)
Lemma SaveEnvStore_opens key fl s d r d' :
  dir_opens key d → (∀ v, v ∈ sealed_values s → opens key v) → SaveEnvStore fl s d = (r, d') → dir_opens key d'.
Proof.
  intros Hd Hs. unfold SaveEnvStore. destruct (GetEnvFilePath _ _) as [path|e]; [|by intros [= <- <-]].
  destruct (fl op_create); [by intros [= <- <-]|].
  destruct (fl op_write); intros [= <- <-] p a v Hp [[<- Ha]|[_ Ha]]%lookup_insert_Some Hv;
    try done; try (by eapply Hd). injection Ha as ->. by apply Hs.
Qed.

Lemma LoadEnvStore_opens key fl appID (d : env_dir) s v :
  dir_opens key d → LoadEnvStore fl appID d = Ok s → v ∈ sealed_values s → opens key v.
Proof.
  intros Hd H Hv. unfold LoadEnvStore, GetEnvFilePath in H. destruct (fl op_mkdir); [done|]. cbn [mbind result_bind] in H.
  destruct (d !! (appID +:+ ".env.enc")) as [[|a]|] eqn:Ea.
  - by destruct (fl op_read).
  - destruct (fl op_read); [done|]. injection H as ->. eapply Hd; [|exact Ea|done].
    unfold visible. assert (appID +:+ ".env.enc" = (appID +:+ ".env") +:+ ".enc") as ->; [by rewrite <- sapp_assoc|].
    by rewrite (HasSuffix_app _ ".enc"), orb_true_r.
  - injection H as <-. apply elem_of_sealed_env in Hv as (name & e & He & _). change (entries (empty_env appID)) with (∅ : gmap string EnvEntry) in He. by rewrite lookup_empty in He.
Qed.

Lemma host_opens_envs key h d k :
  host_opens key h → dir_opens key d → host_opens key (with_envs d k h).
Proof. intros (Ho1 & _ & Ho3) Hd. by split_and!. Qed.

Lemma env_step_sound h d :
  host_sound h → (∀ key, dir_opens key (default ∅ (h_envs h)) → dir_opens key d) →
  host_sound (with_envs d (h_key h) h).
Proof.
  intros [Hd (key & Ho & Hi)] Hopen. split; [done|]. exists key. split; [|done].
  apply host_opens_envs; [done|]. apply Hopen, Ho.
Qed.

Lemma set_env_sound h fl kc nonce now appID name value key k r d :
  good_key_call kc → good_nonce nonce → host_sound h →
  get_key kc (h_secrets h) (with_envs (default ∅ (h_envs h)) (h_key h) h) (h_key h) = (key, k) →
  SetEnv seal fl nonce key now appID name value (default ∅ (h_envs h)) = Some (r, d) →
  host_sound (with_envs d k h).
Proof.
  intros [Htmp Hfresh] Hn [Hd (key0 & Ho & Hi)] Hg Hset. split; [done|].
  destruct (GetMasterKey_step _ _ Htmp _ _ _ _ _ Hfresh _ _ _ Hg) as [Hstep Hr].
  destruct (key_step_opens kc (h_secrets h) h (with_envs (default ∅ (h_envs h)) (h_key h) h) _ _ key0
    eq_refl eq_refl eq_refl Hstep Ho Hi) as (key' & Ho' & Hi').
  exists key'. split; [|done]. apply host_opens_envs; [done|]. destruct Ho' as (_ & Hde & _).
  unfold SetEnv in Hset. destruct (LoadEnvStore _ _ _) as [store|e] eqn:Hl; [|by injection Hset as _ <-].
  destruct key as [key|e]; [|by injection Hset as _ <-].
  destruct (EncryptData seal nonce value key) as [enc|e] eqn:He; [|by injection Hset as _ <-].
  destruct (ES_Entries store) as [m|] eqn:Hm; [|done]. cbn [mbind option_bind] in Hset. injection Hset as Hsave.
  eapply SaveEnvStore_opens; [exact Hde| |exact Hsave].
  intros v (nm & e & Hin & ->)%elem_of_sealed_env. unfold entries in Hin. cbn [ES_Entries default from_option id] in Hin.
  apply lookup_insert_Some in Hin as [[<- <-]|[_ Hin]].
  - destruct (EncryptData_form _ _ _ _ Hn He) as (n & _ & _ & _ & Hdec). cbn [EE_Value].
    specialize (Hr _ eq_refl). apply Hi' in Hr as ->. unfold opens. by rewrite Hdec.
  - eapply LoadEnvStore_opens; [exact Hde|exact Hl|]. apply elem_of_sealed_env. exists nm, e.
    unfold entries. by rewrite Hm.
Qed.

Lemma unset_env_opens key fl appID name d r d' :
  UnsetEnv fl appID name d = (r, d') → dir_opens key d → dir_opens key d'.
Proof.
  unfold UnsetEnv. intros Hun Hd. destruct (LoadEnvStore _ _ _) as [store|e] eqn:Hl; [|by injection Hun as _ <-].
  destruct (entries store !! name) as [found|]; [|by injection Hun as _ <-].
  eapply SaveEnvStore_opens; [exact Hd| |exact Hun]. intros v (nm & e & Hin & ->)%elem_of_sealed_env.
  eapply LoadEnvStore_opens; [exact Hd|exact Hl|]. apply elem_of_sealed_env.
  unfold entries in *. cbn [ES_Entries] in Hin. destruct (ES_Entries store) as [m|]; simpl in *.
  - apply lookup_delete_Some in Hin as [_ Hin]. by exists nm, e.
  - by rewrite lookup_empty in Hin.
Qed.

Lemma snapshot_opens key fl fl' appID dst src d r d' :
  snapshotEnvForVersion fl fl' appID dst src d = (r, d') → dir_opens key src → dir_opens key d → dir_opens key d'.
Proof.
  unfold snapshotEnvForVersion. intros Hsn Hs Hd.
  destruct (GetEnvFilePath fl appID) as [path|e] eqn:Hp; [|by injection Hsn as _ <-].
  destruct (fl' op_mkdir); [by injection Hsn as _ <-|]. cbv zeta in Hsn.
  destruct (if bool_decide _ then fl op_read else None); [by injection Hsn as _ <-|].
  destruct (fl' op_create); [by injection Hsn as _ <-|].
  destruct (fl' op_write); injection Hsn as _ <-; intros p a v Hv [[<- Ha]|[_ Ha]]%lookup_insert_Some Hin;
    try done; try (by eapply Hd).
  destruct (src !! path) as [c|] eqn:Ec.
  - subst c. eapply Hs; [|exact Ec|exact Hin]. unfold GetEnvFilePath in Hp. destruct (fl op_mkdir); [done|].
    injection Hp as <-. unfold visible.
    assert (appID +:+ ".env.enc" = (appID +:+ ".env") +:+ ".enc") as ->; [by rewrite <- sapp_assoc|].
    by rewrite (HasSuffix_app _ ".enc"), orb_true_r.
  - injection Ha as <-. apply elem_of_sealed_env in Hin as (nm & e & He & _).
    change (entries (empty_env appID)) with (∅ : gmap string EnvEntry) in He. by rewrite lookup_empty in He.
Qed.

Lemma host_step_sound h h' : host_step h h' → host_sound h → host_sound h'.
Proof.
  intros Hstep Hh. destruct Hstep.
  - unfold Set_ in H1. destruct (_ ← storePath appID; _) as [[]|e] eqn:Hv.
    2: { injection H1 as _ <- <-. by destruct h. }
    apply bind_Ok in Hv as (path & _ & Hv). apply bind_Ok in Hv as ([] & Hname & _).
    apply fail_if_Ok in Hname. apply negb_false_iff in Hname.
    pose proof (set_step_sound x kc kf nonce appID name value h (mkSet name 0 "" 0 false) d H H0 Hname Hh) as Hs.
    cbv zeta in Hs. unfold set_fn in Hs.
    destruct (mutate _ _ _ _ _) as [[r1 d1] [k1 out]]. injection H1 as _ <- <-. apply Hs. by left.
  - eapply set_step_sound; [done..|]. by right.
  - destruct (run_plain_mutate x appID op) as [[e He]|(fn & Hfn & He)].
    { rewrite He in H. injection H as _ <-. by destruct h. }
    rewrite He in H. unfold mutate_ in H. destruct (mutate _ _ _ _ _) as [[r1 d1] []] eqn:Hm.
    injection H as _ <-. eapply plain_step_sound; [exact Hfn|done|]. left. by rewrite Hm.
  - eapply plain_step_sound; [done|done|]. by right.
  - by eapply set_env_sound.
  - apply env_step_sound; [done|]. intros key Hd. by eapply unset_env_opens.
  - apply env_step_sound; [done|]. intros key Hd. eapply SaveEnvStore_opens; [exact Hd| |exact H].
    intros v (nm & e & He & _)%elem_of_sealed_env.
    change (entries (empty_env appID)) with (∅ : gmap string EnvEntry) in He. by rewrite lookup_empty in He.
  - destruct Hh as [Hd (key & (Ho1 & Ho2 & Ho3) & Hi)]. split; [done|]. exists key. split; [|done].
    split; [done|]. split; [done|]. cbn [h_snapshots]. apply Forall_insert; [done|].
    eapply snapshot_opens; [exact H0|exact Ho2|]. rewrite Forall_forall in Ho3. apply Ho3. by eapply list_elem_of_lookup_2.
  - destruct H as [Htmp Hfresh]. destruct Hh as [Hd (key & Ho & Hi)]. split; [done|].
    assert (key_step (kc_faults kc) (h_secrets h) (h_envs h) (h_snapshots h) (h_key h) k) as Hstep.
    { destruct H0 as [->|Hk].
      - unfold get_key. destruct (GetMasterKey _ _ _ _ _ _ _ _) as [r k'] eqn:Hg.
        by destruct (GetMasterKey_step _ _ Htmp _ _ _ _ _ Hfresh _ _ _ Hg).
      - revert k Hk. apply Forall_forall. by eapply GetMasterKey_crash_step. }
    by destruct (key_step_opens kc (h_secrets h) h h _ _ key eq_refl eq_refl eq_refl Hstep Ho Hi) as (key' & ? & ?); exists key'.
  - destruct Hh as [Hd (key & Ho & Hi)]. split; [done|]. exists key. split; [done|].
    intros key'. unfold readMasterKey, no_faults. cbn [h_key]. by rewrite lookup_delete_eq.
Qed.

(** C18: whatever operations, faults, crashes, races for the first key and
    losses of the key file happen, the store file of every application stays
    one that is accepted, and one key opens every encrypted value of the host:
    the one in the key file, if there is one - a new key is made only when
    nothing is encrypted. *)
Theorem stored_values_stay_readable h h' :
  host_sound h → rtc host_step h h' →
  (∀ appID c, appid_Valid appID = true → default ∅ (h_secrets h') !! (appID +:+ ".json") = Some c →
     ∃ st, c = Data st ∧ check_store (appID +:+ ".json") appID st = Ok tt) ∧
  ∃ key, host_opens key h' ∧ key_is key (h_key h').
Proof.
  intros Hh Hs. assert (host_sound h') as [Hd Hk]; [|by split].
  revert Hh. induction Hs as [|h1 h2 h3 Hstep _ IH]; [done|]. intros Hh. apply IH. by eapply host_step_sound.
Qed.

(** ** Set, then resolve *)

(** A call that meets no fault. *)
Definition fair (x : calls) : Prop :=
  (∀ o, x_faults x o = None) ∧ x_dir_private x = true ∧ x_file_private x = true ∧ x_lock x = None.

Lemma Open_fair x appID (d : secret_dir) st :
  fair x → appid_Valid appID = true → d !! (appID +:+ ".json") = Some (Data st) → accepted appID st →
  Open x appID (Some d) = (Ok st, Some d).
Proof.
  intros (Hf & Hd & Hp & Hl) Hv Hst Hacc. unfold Open, storePath. rewrite Hv. cbn [negb].
  unfold lock_store. rewrite !Hf, Hd, Hl. cbn [negb default from_option id mbind result_bind].
  unfold openStoreLocked. rewrite Hst, Hf, Hp. cbn [negb fail_if mbind result_bind].
  apply check_store_accepted with (path := appID +:+ ".json") in Hacc. by rewrite Hacc.
Qed.

Lemma active_of_last rec l v :
  SR_Versions rec = l ++ [v] → SV_Version v = SR_ActiveVersion rec → active_version rec = Some v.
Proof.
  intros Hl Hv. unfold active_version. rewrite Hl, List.filter_app. simpl. by rewrite Hv, Z.eqb_refl, last_snoc.
Qed.

Lemma Resolve_fair x key appID name (d : secret_dir) st :
  fair x → appid_Valid appID = true → d !! (appID +:+ ".json") = Some (Data st) → accepted appID st →
  (Resolve open hmac x None key appID name (Some d)).1 = resolve open hmac key st name.
Proof. intros Hx Hv Hst Hacc. unfold Resolve. by rewrite (Open_fair x appID d st). Qed.

(** C19: the value that was set is the value that is resolved, under the
    version that [Set] reports, which is one more than before; the other
    secrets resolve as before, and at most the last five versions are kept. *)
Theorem set_then_resolve {K} x x' (first known : K → res string * K) nonce appID name value (d : secret_dir) k out d' k' key :
  Set_ seal hmac x first known nonce appID name value (Some d) k = (Ok out, d', k') →
  (∀ key' k1, first k = (Ok key', k1) ∨ known k = (Ok key', k1) → key' = key) →
  good_nonce nonce → fair x' → sound_dir d →
  (Resolve open hmac x' None (Ok key) appID name d').1 = Ok (mkResolvedSecret value (SE_Fingerprint out) (SE_Version out)) ∧
  SE_Version out = SE_Previous out + 1 ∧
  (∀ other r, other ≠ name → (Resolve open hmac x' None (Ok key) appID other (Some d)).1 = Ok r →
     (Resolve open hmac x' None (Ok key) appID other d').1 = Ok r) ∧
  ∃ st rec, default ∅ d' !! (appID +:+ ".json") = Some (Data st) ∧ ST_Secrets st !! name = Some rec ∧
    (length (SR_Versions rec) ≤ maxVersions)%nat.
Proof.
  intros Hset Hkey Hn Hx Hd. unfold Set_ in Hset.
  destruct (_ ← storePath appID; _) as [[]|e] eqn:Hv; [|done].
  apply bind_Ok in Hv as (path & [Hvalid ->]%storePath_Ok & Hv). apply bind_Ok in Hv as ([] & Hname & Hvalue).
  apply fail_if_Ok, negb_false_iff in Hname.
  destruct (mutate _ _ _ _ _) as [[r1 d1] [k1 out1]] eqn:Hm. injection Hset as Hr <- <-.
  apply bind_Ok in Hr as ([] & -> & [= <-]).
  destruct (mutate_cases _ _ _ _ _ _ _ _ Hm) as [(_ & [e ?] & _)|(st & st' & _ & Hop & Hf & _ & Hst')]; [done|].
  specialize (Hst' eq_refl). cbn [default from_option id] in Hop.
  pose proof (opened_checked _ _ _ _ Hop) as Hacc%check_store_accepted.
  pose proof (set_secret_keeps first known nonce (x_now x) name value Hname Hn "" appID st _ st' _
    (proj2 (check_store_accepted _ _ _) Hacc) Hf) as Hacc'%check_store_accepted.
  destruct d1 as [d1|]; [|simpl in Hst'; by rewrite lookup_empty in Hst']. cbn [default from_option id] in Hst'.
  apply set_secret_cases in Hf as (key' & fp & enc & _ & Hk & -> & He & Hver & Hfp & Hprev & Hs & _).
  assert (key' = key) as ->. { destruct (bool_decide _); eapply Hkey; eauto. }
  assert (Hrec : ST_Secrets st' !! name = Some (new_version (x_now x) name (fingerprint hmac key value) enc st))
    by (rewrite Hs; apply lookup_insert_eq).
  destruct (EncryptData_form _ _ _ _ Hn He) as (n & _ & _ & Hne & Hdec).
  destruct (new_version_checked (x_now x) name (fingerprint hmac key value) enc st Hname (acc_secrets _ _ Hacc name)
    (fingerprint_form key value) Hne) as [Hchk [l Hl]].
  split_and!.
  - rewrite (Resolve_fair x' _ _ _ d1 st') by done. unfold resolve. rewrite Hrec, (active_of_last _ _ _ Hl) by done.
    cbn [SV_EncValue SV_Fingerprint SV_Version mbind result_bind]. rewrite Hdec, Hvalue.
    cbn [mbind result_bind]. rewrite String.eqb_refl. cbn [negb fail_if mbind result_bind]. by rewrite Hfp, Hver.
  - rewrite Hver, Hprev. unfold new_version. cbn [SR_ActiveVersion]. by destruct (ST_Secrets st !! name).
  - intros other r Hne' Ho. rewrite (Resolve_fair x' _ _ _ d1 st') by done.
    apply openStoreLocked_Ok in Hop as [[Hnone ->]|[Hp _]].
    { unfold Resolve, Open, storePath in Ho. rewrite Hvalid in Ho. cbn [negb] in Ho.
      destruct (lock_store x' (Some d)) as [r2 d2] eqn:Hl2. pose proof (lock_store_dir _ _ _ _ Hl2) as Hd2.
      cbn [default from_option id fst] in Ho, Hd2. apply bind_Ok in Ho as (s & Ho & Hres). apply bind_Ok in Ho as ([] & _ & Ho).
      rewrite Hd2 in Ho. unfold openStoreLocked in Ho. rewrite Hnone in Ho. injection Ho as <-. done. }
    rewrite (Resolve_fair x' _ _ _ d st) in Ho by done. unfold resolve in *. rewrite Hs, lookup_insert_ne by done. done.
  - exists st', (new_version (x_now x) name (fingerprint hmac key value) enc st). split; [done|]. split; [done|].
    unfold check_secret in Hchk. apply bind_Ok in Hchk as ([] & Hc%fail_if_Ok & _).
    apply orb_false_iff in Hc as [_ Hc]. by apply Nat.ltb_ge in Hc.
Qed.
End Safety.

(** ** A host *)

Module SecretSamples.

(** A cipher that shows its key and nonce. *)
Definition seal (k n p : string) : string := k +:+ n +:+ p.
Definition open (k n s : string) : option string :=
  if HasPrefix s (k +:+ n) then Some (drop_str (String.length (k +:+ n)) s) else None.
Definition hmac (k v : string) : string := "digest" +:+ v.

Lemma prefix_app s t : String.prefix s (s +:+ t) = true.
Proof. induction s as [|c s IH]; [by destruct t|]. simpl. by destruct (ascii_dec c c). Qed.

Lemma seal_law k n p : open k n (seal k n p) = Some p.
Proof.
  unfold open, seal, HasPrefix. by rewrite sapp_assoc, prefix_app, drop_str_app.
Qed.
Lemma hmac_long k v : (6 ≤ String.length (hmac k v))%nat.
Proof. simpl. lia. Qed.

Definition key0 : string := "0123456789abcdef0123456789abcdef".
Definition nonce0 : string := "nonce-nonce-".
Definition x0 : calls := mkCalls no_faults true true None 5.
Definition kc0 : key_call := mkKeyCall no_faults (Some key0) ".master-key-1" None.
Definition app : string := "0a1b2c3d-0a1b-4a1b-8a1b-0a1b2c3d4e5f".
Definition bare : host := mkHost ∅ None None [].

Definition set1 := Set_ seal hmac x0 (host_first kc0 bare) (host_known no_faults) (Some nonce0) app
  "database_url" "postgres://db" (h_secrets bare) (h_key bare).
Definition host1 : host := mkHost set1.2 set1.1.2 None [].
Definition host2 : host := mkHost (delete master_key (h_key host1)) (h_secrets host1) None [].

Lemma good_kc0 : good_key_call kc0.
Proof. split; [done|]. by intros key [= <-]. Qed.
Lemma good_nonce0 : good_nonce (Some nonce0).
Proof. by intros n [= <-]. Qed.

Lemma bare_sound : host_sound open bare.
Proof.
  split; [intros appID c _ Hc; simpl in Hc; by rewrite lookup_empty in Hc|]. exists "".
  split; [|intros key' Hk; vm_compute in Hk; done].
  split; [|split; [|constructor]]; intros p a v _ Ha; simpl in Ha; by rewrite lookup_empty in Ha.
Qed.

Lemma bare_run : rtc (host_step seal open hmac) bare host2.
Proof.
  apply rtc_l with host1; [|apply rtc_once].
  - apply (step_set seal open hmac bare x0 kc0 no_faults (Some nonce0) app "database_url" "postgres://db" set1.1.1);
      [apply good_kc0|apply good_nonce0|]. unfold host1, set1. by destruct (Set_ _ _ _ _ _ _ _ _ _ _ _) as [[r d] k].
  - apply (step_key_lost seal open hmac host1).
Qed.

Lemma stored_values_stay_readable_witness :
  (∀ appID c, appid_Valid appID = true → default ∅ (h_secrets host2) !! (appID +:+ ".json") = Some c →
     ∃ st, c = Data st ∧ check_store (appID +:+ ".json") appID st = Ok tt) ∧
  ∃ key, host_opens open key host2 ∧ key_is key (h_key host2).
Proof.
  apply (stored_values_stay_readable seal open hmac seal_law hmac_long bare host2).
  - exact bare_sound.
  - exact bare_run.
Defined.

Lemma host1_sound : sound_dir (default ∅ (h_secrets host1)).
Proof.
  assert (host_step seal open hmac bare host1) as Hs.
  { apply (step_set seal open hmac bare x0 kc0 no_faults (Some nonce0) app "database_url" "postgres://db" set1.1.1);
      [apply good_kc0|apply good_nonce0|]. unfold host1, set1. by destruct (Set_ _ _ _ _ _ _ _ _ _ _ _) as [[r d] k]. }
  exact (proj1 (host_step_sound seal open hmac seal_law hmac_long _ _ Hs bare_sound)).
Qed.

(** Setting the secret again. *)
Definition known0 (k : unit) : res string * unit := (Ok key0, k).
Definition dir1 : secret_dir := default ∅ (h_secrets host1).
Definition set2 := Set_ seal hmac x0 known0 known0 (Some nonce0) app "database_url" "postgres://new" (Some dir1) tt.

Example second_version :
  set1.1.1 = Ok (mkSet "database_url" 1 "646967657374" 0 true) ∧
  set2.1.1 = Ok (mkSet "database_url" 2 "646967657374" 1 false).
Proof. split; vm_compute; reflexivity. Qed.

Definition out2 : SetResult := mkSet "database_url" 2 "646967657374" 1 false.

Lemma set_then_resolve_witness :
  (Resolve open hmac x0 None (Ok key0) app "database_url" set2.1.2).1 =
    Ok (mkResolvedSecret "postgres://new" (SE_Fingerprint out2) (SE_Version out2)) ∧
  SE_Version out2 = SE_Previous out2 + 1 ∧
  (∀ other r, other ≠ "database_url" → (Resolve open hmac x0 None (Ok key0) app other (Some dir1)).1 = Ok r →
     (Resolve open hmac x0 None (Ok key0) app other set2.1.2).1 = Ok r) ∧
  ∃ st rec, default ∅ set2.1.2 !! (app +:+ ".json") = Some (Data st) ∧ ST_Secrets st !! "database_url" = Some rec ∧
    (length (SR_Versions rec) ≤ maxVersions)%nat.
Proof.
  assert (set2 = (Ok out2, set2.1.2, tt)) as Hset.
  { pose proof (proj2 second_version) as H. destruct set2 as [[r d] []]. simpl in *. by rewrite H. }
  apply (set_then_resolve seal open hmac seal_law hmac_long x0 x0 known0 known0 (Some nonce0) app "database_url"
    "postgres://new" dir1 tt out2 set2.1.2 tt key0).
  - exact Hset.
  - by intros key' k1 [[= <- _]|[= <- _]].
  - exact good_nonce0.
  - by split_and!.
  - exact host1_sound.
Defined.

(** The key is lost: nothing encrypts under a new one. *)
Example lost_key_is_not_replaced :
  (get_key kc0 (h_secrets host2) host2 (h_key host2)).1 =
    Err (New CodeEncryption "master key is missing; restore the original key before changing encrypted data").
Proof. vm_compute. reflexivity. Qed.

(** A write of the variables that stops half-way loses all of them. *)
Definition envs1 : env_dir :=
  match SetEnv seal no_faults (Some nonce0) (Ok key0) 5 app "PORT" "80" ∅ with Some (_, d) => d | None => ∅ end.

Example interrupted_write_loses_the_variables :
  GetEnv open no_faults (Ok key0) app "PORT" envs1 = Ok "80" ∧
  match SetEnv seal (fault_at op_write) (Some nonce0) (Ok key0) 6 app "HOST" "a" envs1 with
  | Some (_, d) => is_ok (GetEnv open no_faults (Ok key0) app "PORT" d)
  | None => true
  end = false.
Proof. split; vm_compute; reflexivity. Qed.

(** A file without entries: the next write panics. *)
Example file_without_entries_panics :
  SetEnv seal no_faults (Some nonce0) (Ok key0) 6 app "HOST" "a"
    {[ (app +:+ ".env.enc") := Data (mkEnvStore 0 "" None) ]} = None.
Proof. vm_compute. reflexivity. Qed.
End SecretSamples.
