(* ===== verification/SecretPins.v ===== *)
(** * SecretPins: secrets on their way into a process

    internal/secrets/pinned.go, overlay.go and security.go: the values a
    deployment freezes, the variables a launcher receives, what an application
    keeps masked while its instances run, and the state that stops its launches
    when its secrets cannot be read. *)

From S2P Require Import Prelude GoLib Errors Redact FileStore EnvStore SecretStore SecretSafety.

(** ** Variables *)

(** [strings.Cut(kv, "=")]. *)
Fixpoint cut_eq (s : string) : option (string * string) :=
  match s with
  | EmptyString => None
  | String c s => if Ascii.eqb c "=" then Some ("", s)
                  else '(k, v) ← cut_eq s; Some (String c k, v)
  end.

Definition key_of (kv : string) : option string := fst <$> cut_eq kv.

(** The last index of each key. *)
(* src: internal/secrets/overlay.go:125-131 MergeEnv *)
Fixpoint last_index (i : Z) (all : list string) (m : gmap string Z) : gmap string Z :=
  match all with
  | [] => m
  | kv :: all => last_index (i + 1) all (match key_of kv with Some k => <[k := i]> m | None => m end)
  end.

(* src: internal/secrets/overlay.go:132-138 MergeEnv *)
Fixpoint keep_last (last : gmap string Z) (i : Z) (all : list string) : list string :=
  match all with
  | [] => []
  | kv :: all =>
      let rest := keep_last last (i + 1) all in
      match key_of kv with
      | Some k => if negb (default 0 (last !! k) =? i) then rest else kv :: rest
      | None => kv :: rest
      end
  end.

(* src: internal/secrets/overlay.go MergeEnv *)
Definition MergeEnv (base overlay : list string) : list string :=
  match overlay with
  | [] => base
  | _ => let all := base ++ overlay in keep_last (last_index 0 all ∅) 0 all
  end.

(** ** Pinned values *)

(** The values by secret; the registry holds [PS_held] until the release function
    is called for the first time, which [PS_released] says ([sync.OnceFunc]). *)
(* src: internal/secrets/pinned.go PinnedSet *)
Record PinnedSet := mkPinned {
  PS_LaunchTxnID : string;
  PS_Bindings : list Binding;
  PS_Resolved : list ResolvedVersion;
  PS_values : gmap string string;
  PS_held : list string;
  PS_released : bool
}.

(** [set.LaunchTxnID = txn]. *)
Definition with_launch_txn (txn : string) (p : PinnedSet) : PinnedSet :=
  mkPinned txn (PS_Bindings p) (PS_Resolved p) (PS_values p) (PS_held p) (PS_released p).

(* src: internal/secrets/pinned.go PinnedSet.Overlay *)
Definition Overlay (p : PinnedSet) : list string :=
  ((λ b, B_Env b +:+ "=" +:+ default "" (PS_values p !! B_Secret b)) <$> PS_Bindings p) ++
  (if PS_LaunchTxnID p <>s "" then ["PHELIX_INTERNAL_SECRET_TXN=" +:+ PS_LaunchTxnID p] else []).

(* src: internal/secrets/pinned.go PinnedSet.Close *)
Definition Close (p : PinnedSet) (g : secretRegistry) : PinnedSet * secretRegistry :=
  (mkPinned (PS_LaunchTxnID p) (PS_Bindings p) (PS_Resolved p) (PS_values p) (PS_held p) true,
   if PS_released p then g else changeReferences (PS_held p) (-1) g).

(* src: internal/secrets/pinned.go PinnedSet.Values *)
Definition Values (p : PinnedSet) : list string := (map_to_list (PS_values p)).*2.

(** ** Security states *)

(* src: internal/secrets/security.go securityEntry *)
Record securityEntry := mkEntry { en_degraded : bool; en_reason : string; en_runtime : bool }.
Abbreviation securityStates := (gmap string securityEntry).

Definition runtime_of (m : securityStates) (appID : string) : bool :=
  match m !! appID with Some e => en_runtime e | None => false end.

(** [reason] is redacted; [None]: that panicked. *)
(* src: internal/secrets/security.go markDegraded *)
Definition markDegraded (redacted : option string) (runtime : bool) (appID : string) (m : securityStates)
  : option securityStates :=
  reason ← redacted;
  Some (<[appID := mkEntry true reason (runtime || runtime_of m appID)]> m).

(* src: internal/secrets/security.go MarkDegraded *)
Definition MarkDegraded (redacted : option string) (appID : string) (m : securityStates) : option securityStates :=
  markDegraded redacted false appID m.
(* src: internal/secrets/security.go MarkRuntimeDegraded *)
Definition MarkRuntimeDegraded (redacted : option string) (appID : string) (m : securityStates) : option securityStates :=
  markDegraded redacted true appID m.

(* src: internal/secrets/security.go CheckRuntimeSecurity *)
Definition CheckRuntimeSecurity (appID : string) (m : securityStates) : res unit :=
  fail_if (runtime_of m appID) (New CodeEncryption
    "application secret coverage is degraded; retry after runtime inspection recovers").

(* src: internal/secrets/security.go markResolved *)
Definition markResolved (appID : string) (m : securityStates) : securityStates :=
  if runtime_of m appID then m else delete appID m.

(* src: internal/secrets/security.go MarkHealthy *)
Definition MarkHealthy (appID : string) (m : securityStates) : securityStates :=
  <[appID := mkEntry false "" false]> m.

(* src: internal/secrets/security.go SecurityOf *)
Definition SecurityOf (appID : string) (m : securityStates) : bool * string :=
  match m !! appID with
  | Some e => if en_degraded e then (false, en_reason e) else (true, "")
  | None => (true, "")
  end.

(** ** Pinning *)

Section Pins.
Context (open : string → string → string → option string).
Context (hmac : string → string → string).

(** Each secret is resolved once; the order of the bindings is kept.
    [cancelled i]: [ctx.Err()] before the i-th binding. *)
(* src: internal/secrets/pinned.go:49-67 PinBindings *)
Fixpoint pin_loop (cancelled : nat → option error) (key : res string) (st : Store) (i : nat) (l : list Binding)
    (resolved : list ResolvedVersion) (values : gmap string string) (held : list string)
  : res (list ResolvedVersion * gmap string string * list string) :=
  match l with
  | [] => Ok (resolved, values, held)
  | b :: l =>
      match cancelled i with
      | Some e => Err e
      | None =>
          match values !! B_Secret b with
          | Some _ => pin_loop cancelled key st (S i) l resolved values held
          | None =>
              match resolve open hmac key st (B_Secret b) with
              | Err e => Err (wrap (CodeOf (Some e))
                  ("secrets: cannot pin " +:+ B_Secret b +:+ " (bound to " +:+ B_Env b +:+ ")") e)
              | Ok r => pin_loop cancelled key st (S i) l
                  (resolved ++ [mkResolved (B_Secret b) (RS_Version r) (RS_Fingerprint r)])
                  (<[B_Secret b := RS_Value r]> values) (held ++ [RS_Value r])
              end
          end
      end
  end.

(* src: internal/secrets/pinned.go PinBindings *)
Definition PinBindings (x : calls) (cancelled : nat → option error) (live : res (gset string)) (key : res string)
    (states : securityStates) (appID : string) (bindings : list Binding) (d : option secret_dir) (g : secretRegistry)
  : res PinnedSet * option secret_dir * secretRegistry :=
  match (_ ← CheckRuntimeSecurity appID states; CheckCollisions live appID bindings) with
  | Err e => (Err e, d, g)
  | Ok _ =>
      match bindings with
      | [] => (Ok (mkPinned "" [] [] ∅ [] false), d, g)
      | _ =>
          let '(r, d) := Open x appID d in
          match (st ← r; pin_loop cancelled key st 0 bindings [] ∅ []) with
          | Err e => (Err e, d, g)
          | Ok (resolved, values, held) =>
              (Ok (mkPinned "" bindings resolved values held false), d, changeReferences held 1 g)
          end
      end
  end.

(** The named variables of a running process; [vars] is its environment. *)
(* src: internal/secrets/pinned.go:105-115 FromRuntime *)
Fixpoint runtime_loop (vars : gmap string string) (names : list string) (p : PinnedSet) : res PinnedSet :=
  match names with
  | [] => Ok p
  | name :: names =>
      match vars !! name with
      | Some value =>
          if is_ok (ValidateSecretValue value)
          then runtime_loop vars names (mkPinned "" (PS_Bindings p ++ [mkBinding name name]) []
                 (<[name := value]> (PS_values p)) (PS_held p ++ [value]) false)
          else Err (New CodeEncryption "cannot read running instance credentials")
      | None => Err (New CodeEncryption "cannot read running instance credentials")
      end
  end.

(* src: internal/secrets/pinned.go:98-103 FromRuntime *)
Definition env_map (env : list string) : gmap string string :=
  foldl (λ m kv, match cut_eq kv with Some (k, v) => <[k := v]> m | None => m end) ∅ env.

(* src: internal/secrets/pinned.go FromRuntime *)
Definition FromRuntime (env names : list string) (g : secretRegistry) : res PinnedSet * secretRegistry :=
  match runtime_loop (env_map env) names (mkPinned "" [] [] ∅ [] false) with
  | Err e => (Err e, g)
  | Ok p => (Ok p, changeReferences (PS_held p) 1 g)
  end.

(** [environ]: what the operating system says of the process. *)
(* src: internal/secrets/pinned.go RuntimeForPID *)
Definition RuntimeForPID (exists_ : bool) (environ : option (list string)) (names : list string) (g : secretRegistry)
  : res PinnedSet * secretRegistry :=
  match names with
  | [] => FromRuntime [] [] g
  | _ =>
      if negb exists_ then (Err (New CodeEncryption "cannot inspect running credentials"), g)
      else match environ with
           | None => (Err (New CodeEncryption "cannot read running credentials"), g)
           | Some env => FromRuntime env names g
           end
  end.

(** ** The overlay of a launch *)

(* src: internal/secrets/overlay.go CommittedBindings *)
Definition CommittedBindings (x : calls) (appID : string) (d : option secret_dir) : res (list Binding) * option secret_dir :=
  if negb (appid_Valid appID) then (Ok [], d)
  else let '(r, d) := Open x appID d in (st ← r; Ok (ST_Bindings st), d).

(** The variables and values of the bindings, resolved one by one. *)
(* src: internal/secrets/overlay.go:106-114 OverlayForLaunch *)
Fixpoint overlay_loop (x : calls) (cancelled : option error) (key : res string) (appID : string) (l : list Binding)
    (d : option secret_dir) : (res (list string * list string) + error * string) * option secret_dir :=
  match l with
  | [] => (inl (Ok ([], [])), d)
  | b :: l =>
      match Resolve open hmac x cancelled key appID (B_Secret b) d with
      | (Err e, d) => (inr (wrap (CodeOf (Some e))
          ("secrets: cannot resolve " +:+ B_Secret b +:+ " (bound to " +:+ B_Env b +:+ ")") e,
          "cannot resolve secret for " +:+ B_Env b +:+ ": " +:+ Error e), d)
      | (Ok r, d) =>
          match overlay_loop x cancelled key appID l d with
          | (inl (Ok (kvs, values)), d) => (inl (Ok ((B_Env b +:+ "=" +:+ RS_Value r) :: kvs, RS_Value r :: values)), d)
          | other => other
          end
      end
  end.

(** [redact]: [Redact] with the registry of the moment.  [None]: a panic. *)
(* src: internal/secrets/overlay.go OverlayForLaunch *)
Definition OverlayForLaunch (redact : secretRegistry → string → option string) (x : calls) (cancelled : option error)
    (key : res string) (appID : string) (bindings : list Binding)
    (states : securityStates) (d : option secret_dir) (g : secretRegistry)
  : option (res (list string * list string) * securityStates * option secret_dir * secretRegistry) :=
  match (_ ← CheckRuntimeSecurity appID states; validateBindings bindings) with
  | Err e => Some (Err e, states, d, g)
  | Ok _ =>
      match bindings with
      | [] => Some (Ok ([], []), markResolved appID states, d, g)
      | _ =>
          match overlay_loop x cancelled key appID bindings d with
          | (inr (e, reason), d) =>
              states ← MarkDegraded (redact g reason) appID states; Some (Err e, states, d, g)
          | (inl (Err e), d) => Some (Err e, states, d, g)
          | (inl (Ok (overlay, values)), d) =>
              Some (Ok (overlay, values), markResolved appID states, d, changeReferences values 1 g)
          end
      end
  end.

(* src: internal/secrets/overlay.go ClassicEnvOverlay *)
Definition ClassicEnvOverlay (redact : secretRegistry → string → option string) (x : calls) (cancelled : option error)
    (key : res string) (appID : string) (states : securityStates) (d : option secret_dir) (g : secretRegistry)
  : option (res (list string * list string) * securityStates * option secret_dir * secretRegistry) :=
  match CommittedBindings x appID d with
  | (Err e, d) => states ← MarkDegraded (redact g "cannot read secret bindings") appID states; Some (Err e, states, d, g)
  | (Ok bindings, d) => OverlayForLaunch redact x cancelled key appID bindings states d g
  end.
End Pins.

(** ** Coverage *)

(** The values each application keeps registered. *)
Abbreviation coverage := (gmap string (list string)).

(* src: internal/secrets/overlay.go replaceCoverage *)
Definition replaceCoverage (order : gset string → list string) (owner : string) (values : list string)
    (c : coverage) (g : secretRegistry) : coverage * secretRegistry :=
  let next := order (list_to_set (List.filter (λ v, v <>s "") values)) in
  let g := foldl (λ g v, changeReferences [v] 1 g) g next in
  let g := foldl (λ g v, changeReferences [v] (-1) g) g (default [] (c !! owner)) in
  (if bool_decide (next = []) then delete owner c else <[owner := next]> c, g).

(* src: internal/secrets/overlay.go AcquireCoverage *)
Definition AcquireCoverage order (appID : string) (values : list string) (c : coverage) (g : secretRegistry) :=
  replaceCoverage order appID values c g.
(* src: internal/secrets/overlay.go ReleaseCoverage *)
Definition ReleaseCoverage order (appID : string) (c : coverage) (g : secretRegistry) :=
  AcquireCoverage order appID [] c g.

(** ** What a launched process receives *)

(** The reference: an entry is kept unless its key occurs again later. *)
Fixpoint dedup_last (all : list string) : list string :=
  match all with
  | [] => []
  | kv :: all =>
      match key_of kv with
      | Some k => if decide (k ∈ omap key_of all) then dedup_last all else kv :: dedup_last all
      | None => kv :: dedup_last all
      end
  end.

Lemma last_index_absent all i m k : k ∉ omap key_of all → last_index i all m !! k = m !! k.
Proof.
  revert i m. induction all as [|kv all IH]; intros i m Hk; [done|]. simpl in *.
  destruct (key_of kv) as [k'|] eqn:E; [|by apply IH].
  apply not_elem_of_cons in Hk as [Hne Hk]. rewrite IH by done. by rewrite lookup_insert_ne.
Qed.

Lemma last_index_present all i m k : k ∈ omap key_of all → ∃ j, last_index i all m !! k = Some j ∧ i <= j.
Proof.
  revert i m. induction all as [|kv all IH]; intros i m Hk; [by apply elem_of_nil in Hk|]. simpl in *.
  set (m' := match key_of kv with Some k' => <[k' := i]> m | None => m end).
  destruct (decide (k ∈ omap key_of all)) as [Hin | Hout].
  - destruct (IH (i + 1) m' Hin) as (j & Hj & Hle). exists j. split; [done | lia].
  - destruct (key_of kv) as [k'|] eqn:E; [|done].
    apply elem_of_cons in Hk as [-> | Hk]; [|done].
    exists i. split; [|lia]. rewrite last_index_absent by done. apply lookup_insert_eq.
Qed.

Lemma keep_last_dedup all i m : keep_last (last_index i all m) i all = dedup_last all.
Proof.
  revert i m. induction all as [|kv all IH]; intros i m; [done|]. cbn [keep_last last_index dedup_last].
  rewrite IH. destruct (key_of kv) as [k|] eqn:E; [|done].
  destruct (decide (k ∈ omap key_of all)) as [Hin | Hout].
  - destruct (last_index_present all (i + 1) (<[k := i]> m) k Hin) as (j & -> & Hj).
    simpl. by rewrite (proj2 (Z.eqb_neq j i)) by lia.
  - rewrite last_index_absent, lookup_insert_eq by done. simpl. by rewrite Z.eqb_refl.
Qed.

Lemma elem_of_dedup_last_key k all : k ∈ omap key_of (dedup_last all) ↔ k ∈ omap key_of all.
Proof.
  induction all as [|kv all IH]; [done|]. simpl.
  destruct (key_of kv) as [k'|] eqn:E; simpl; [|by rewrite E].
  case_decide as Hd; simpl; rewrite ?E, ?elem_of_cons, IH; set_solver.
Qed.

Lemma dedup_last_NoDup all : NoDup (omap key_of (dedup_last all)).
Proof.
  induction all as [|kv all IH]; [constructor|]. simpl.
  destruct (key_of kv) as [k'|] eqn:E; simpl; [|by rewrite E].
  case_decide as Hd; [done|]. simpl. rewrite E. constructor; [|done]. by rewrite elem_of_dedup_last_key.
Qed.

(** The environment as the process reads it, from a map on. *)
Definition env_fold (m : gmap string string) (env : list string) : gmap string string :=
  foldl (λ m kv, match cut_eq kv with Some (k, v) => <[k := v]> m | None => m end) m env.

Lemma env_fold_lookup env : ∀ m k,
  env_fold m env !! k = match env_fold ∅ env !! k with Some v => Some v | None => m !! k end.
Proof.
  induction env as [|kv env IH] using rev_ind; intros m k; [done|].
  unfold env_fold in *. rewrite !foldl_app. simpl.
  destruct (cut_eq kv) as [[k' v]|]; [|apply IH].
  destruct (decide (k = k')) as [-> | Hne]; [by rewrite !lookup_insert_eq|].
  rewrite !lookup_insert_ne by done. apply IH.
Qed.

Lemma union_cases {A} (x y : option A) : match x with Some v => Some v | None => y end = x ∪ y.
Proof. by destruct x, y. Qed.

Lemma env_map_app env env' : env_map (env ++ env') = env_map env' ∪ env_map env.
Proof.
  apply map_eq. intros k. rewrite lookup_union, <- union_cases.
  transitivity (env_fold (env_map env) env' !! k); [unfold env_map, env_fold; by rewrite foldl_app|].
  apply env_fold_lookup.
Qed.

Lemma env_map_cons kv env : env_map (kv :: env) = env_map env ∪ env_map [kv].
Proof. apply (env_map_app [kv]). Qed.

Lemma env_map_dom env k : k ∈ omap key_of env ↔ is_Some (env_map env !! k).
Proof.
  induction env as [|kv env IH].
  { split; [by intros ?%elem_of_nil | by intros [? ?]]. }
  rewrite env_map_cons, lookup_union_is_Some, <- IH. simpl.
  unfold env_map, key_of. simpl. destruct (cut_eq kv) as [[k' v]|]; simpl.
  - rewrite elem_of_cons, lookup_insert_is_Some. rewrite lookup_empty.
    split; [intros [-> | ?]; auto | intros [? | [-> | [_ [? ?]]]]; auto; done].
  - rewrite lookup_empty. split; [auto | intros [? | [? ?]]; done].
Qed.

Lemma env_map_dedup all : env_map (dedup_last all) = env_map all.
Proof.
  induction all as [|kv all IH]; [done|]. cbn [dedup_last].
  rewrite (env_map_cons kv all).
  destruct (key_of kv) as [k|] eqn:E; [case_decide as Hd|];
    [rewrite IH | by rewrite (env_map_cons kv), IH..].
  apply map_eq. intros k'. rewrite lookup_union.
  destruct (decide (k' = k)) as [-> | Hne].
  - apply env_map_dom in Hd as [v ->]. by rewrite <- union_cases.
  - assert (env_map [kv] !! k' = None) as ->.
    { unfold key_of in E. unfold env_map. simpl. destruct (cut_eq kv) as [[k1 v]|]; simplify_eq/=.
      by rewrite lookup_insert_ne. }
    rewrite <- union_cases. by destruct (env_map all !! k').
Qed.

Lemma dedup_last_raw all :
  List.filter (λ kv, negb (bool_decide (is_Some (key_of kv)))) (dedup_last all)
  = List.filter (λ kv, negb (bool_decide (is_Some (key_of kv)))) all.
Proof.
  induction all as [|kv all IH]; [done|]. cbn [dedup_last List.filter].
  destruct (key_of kv) as [k|] eqn:E; [case_decide|]; cbn [List.filter]; rewrite ?E; cbn; by rewrite ?IH.
Qed.

Lemma env_wins (base overlay : list string) (Hov : overlay ≠ []) :
  let env := MergeEnv base overlay in
  env_map env = env_map overlay ∪ env_map base ∧
  NoDup (omap key_of env) ∧
  List.filter (λ kv, negb (bool_decide (is_Some (key_of kv)))) env
  = List.filter (λ kv, negb (bool_decide (is_Some (key_of kv)))) (base ++ overlay).
Proof.
  cbv zeta. assert (MergeEnv base overlay = dedup_last (base ++ overlay)) as ->.
  { destruct overlay; [done|]. apply keep_last_dedup. }
  split; [by rewrite env_map_dedup, env_map_app|].
  split; [apply dedup_last_NoDup | apply dedup_last_raw].
Qed.

(** Whenever there is an overlay, the environment MergeEnv builds gives
    every variable the overlay names the overlay's value and every other
    variable its value in the base, names each variable once, so that a runtime
    that reads the first entry and one that reads the last agree, and keeps the
    entries that are not variables. *)
Theorem MergeEnv_overlay_wins (base overlay : list string) (Hov : overlay ≠ []) :
  let env := MergeEnv base overlay in
  env_map env = env_map overlay ∪ env_map base ∧
  NoDup (omap key_of env) ∧
  List.filter (λ kv, negb (bool_decide (is_Some (key_of kv)))) env
  = List.filter (λ kv, negb (bool_decide (is_Some (key_of kv)))) (base ++ overlay).
Proof. by apply env_wins. Qed.

Lemma MergeEnv_overlay_wins_witness :
  MergeEnv ["A=1"; "junk"; "B=2"; "A=3"] ["B=9"; "C=a=b"] = ["junk"; "A=3"; "B=9"; "C=a=b"] ∧
  NoDup (omap key_of (MergeEnv ["A=1"; "junk"; "B=2"; "A=3"] ["B=9"; "C=a=b"])).
Proof.
  split; [reflexivity|].
  exact (proj1 (proj2 (MergeEnv_overlay_wins ["A=1"; "junk"; "B=2"; "A=3"] ["B=9"; "C=a=b"] ltac:(discriminate)))).
Defined.

(** ** What a deployment freezes *)

Section Frozen.
Context (open : string → string → string → option string).
Context (hmac : string → string → string).

(** [values] holds what the store resolves, and nothing is held unregistered. *)
Definition pins_ok (key : res string) (st : Store) (values : gmap string string) (held : list string) : Prop :=
  map_Forall (λ s v, v ∈ held ∧ ∃ r, resolve open hmac key st s = Ok r ∧ v = RS_Value r) values.

Lemma pin_loop_spec cancelled key st i l resolved values held resolved' values' held' :
  pin_loop open hmac cancelled key st i l resolved values held = Ok (resolved', values', held') →
  pins_ok key st values held →
  pins_ok key st values' held' ∧ values ⊆ values' ∧ ∀ b, b ∈ l → is_Some (values' !! B_Secret b).
Proof.
  revert i resolved values held. induction l as [|b l IH]; intros i resolved values held Hrun Hok; cbn [pin_loop] in Hrun.
  { simplify_eq. split; [done|]. split; [done|]. by intros b ?%elem_of_nil. }
  destruct (cancelled i); [done|].
  destruct (values !! B_Secret b) as [v|] eqn:Hv.
  - destruct (IH _ _ _ _ Hrun Hok) as (? & Hsub & Hall). split; [done|]. split; [done|].
    intros b' [-> | Hb']%elem_of_cons; [|auto]. exists v. by eapply lookup_weaken.
  - destruct (resolve open hmac key st (B_Secret b)) as [r|] eqn:Hr; [|done].
    assert (pins_ok key st (<[B_Secret b := RS_Value r]> values) (held ++ [RS_Value r])) as Hok'.
    { apply map_Forall_insert; [done|]. split; [split; [set_solver | eauto]|].
      intros s v Hs. destruct (Hok s v Hs) as [? ?]. split; [set_solver | done]. }
    destruct (IH _ _ _ _ Hrun Hok') as (? & Hsub & Hall). split; [done|].
    split; [etrans; [by apply insert_subseteq | done]|].
    intros b' [-> | Hb']%elem_of_cons; [|auto].
    exists (RS_Value r). eapply lookup_weaken; [apply lookup_insert_eq | done].
Qed.

Lemma occurrences_elem v l : v ∈ l → 0 < occurrences v l.
Proof.
  induction l as [|x l IH]; [by intros ?%elem_of_nil|]. rewrite elem_of_cons, occurrences_cons.
  pose proof (occurrences_nonneg v l). intros [-> | Hv]; [|specialize (IH Hv); destruct (v =s x); lia].
  rewrite String.eqb_refl. lia.
Qed.

(** The names of valid bindings. *)
Lemma validate_imports_spec imports : ∀ i seen,
  validate_imports i imports seen = Ok tt →
  NoDup (B_Env <$> imports) ∧
  ∀ b, b ∈ imports → seen !! B_Env b = None ∧ match_string envNamePattern (B_Env b) = true ∧ IsReservedEnvName (B_Env b) = false.
Proof.
  induction imports as [|b l IH]; intros i seen; cbn [validate_imports].
  { intros _. split; [constructor|]. by intros b ?%elem_of_nil. }
  destruct (validate_import i b seen) as [seen'|] eqn:Ei; [|done]. cbn. intros Hl.
  unfold validate_import, fail_if in Ei.
  destruct (B_Secret b =s ""); [done|]. cbn [mbind result_bind] in Ei.
  destruct (negb (match_string secretNameRe _)); [done|]. cbn [mbind result_bind] in Ei.
  destruct (B_Env b =s ""); [done|]. cbn [mbind result_bind] in Ei.
  destruct (match_string envNamePattern (B_Env b)) eqn:Hm; cbn [negb] in Ei; [|done]. cbn [mbind result_bind] in Ei.
  destruct (IsReservedEnvName (B_Env b)) eqn:Hr; [done|]. cbn [mbind result_bind] in Ei.
  destruct (seen !! B_Env b) eqn:Es; [done|]. injection Ei as <-.
  destruct (IH _ _ Hl) as [Hn Hall].
  split.
  - apply NoDup_cons. split; [|done]. intros (b' & Heq & Hin)%list_elem_of_fmap.
    destruct (Hall b' Hin) as [H _]. by rewrite <- Heq, lookup_insert_eq in H.
  - intros b' [-> |Hin]%elem_of_cons; [done|]. destruct (Hall b' Hin) as (H & ? & ?). split; [|done].
    by apply lookup_insert_None in H as [? _].
Qed.

Definition not_eq (c : ascii) : bool := negb (Ascii.eqb c "=").

Lemma env_name_chars s : match_string envNamePattern s = true → all_chars not_eq s = true.
Proof.
  apply match_over. unfold envNamePattern. cbn [re_over]. split; intros c Hc; unfold not_eq; destruct (Ascii.eqb c "=") eqn:E;
    try done; apply Ascii.eqb_eq in E; by subst c.
Qed.

Lemma cut_eq_name k v : all_chars not_eq k = true → cut_eq (k +:+ "=" +:+ v) = Some (k, v).
Proof.
  induction k as [|c k IH]; cbn [all_chars]; intros Hk; [done|]. apply andb_true_iff in Hk as [Hc Hk].
  rewrite sapp_cons. cbn [cut_eq]. unfold not_eq in Hc. apply negb_true_iff in Hc. rewrite Hc. by rewrite IH.
Qed.

(** Each name of valid bindings has its value in the overlay. *)
Lemma overlay_value l (f : Binding → string) rest : ∀ b,
  b ∈ l → NoDup (B_Env <$> l) → (∀ b, b ∈ l → all_chars not_eq (B_Env b) = true) →
  env_map rest !! B_Env b = None →
  env_map (((λ b, B_Env b +:+ "=" +:+ f b) <$> l) ++ rest) !! B_Env b = Some (f b).
Proof.
  induction l as [|x l IH]; intros b Hb Hn Hall Hrest; [by apply elem_of_nil in Hb|].
  rewrite fmap_cons. cbn [app]. rewrite fmap_cons in Hn. apply NoDup_cons in Hn as [Hx Hn].
  rewrite env_map_cons, lookup_union, <- union_cases.
  destruct (decide (B_Env b = B_Env x)) as [Heq|Hne].
  - assert (b = x) as ->.
    { apply elem_of_cons in Hb as [-> |Hb]; [done|]. destruct Hx. rewrite <- Heq. apply list_elem_of_fmap. eauto. }
    assert (env_map (((λ b, B_Env b +:+ "=" +:+ f b) <$> l) ++ rest) !! B_Env x = None) as ->.
    { apply eq_None_not_Some. rewrite <- env_map_dom, omap_app, elem_of_app.
      intros [Hin|Hin]; [|apply env_map_dom in Hin; rewrite Hrest in Hin; by destruct Hin].
      apply list_elem_of_omap in Hin as (kv & Hkv & Hk). apply list_elem_of_fmap in Hkv as (b & -> & Hb').
      unfold key_of in Hk. rewrite cut_eq_name in Hk by (apply Hall; by right). injection Hk as Hk.
      apply Hx. rewrite <- Hk. apply list_elem_of_fmap. eauto. }
    unfold env_map. cbn [foldl]. rewrite cut_eq_name by (apply Hall; left). apply lookup_insert_eq.
  - apply elem_of_cons in Hb as [-> |Hb]; [done|]. rewrite IH; [done|done|done| |done]. intros b' ?. apply Hall. by right.
Qed.

(** What [PinBindings] made of the store. *)
Lemma PinBindings_spec x cancelled live key states appID bindings d d' g g' p :
  PinBindings open hmac x cancelled live key states appID bindings d g = (Ok p, d', g') →
  runtime_of states appID = false ∧ g' = changeReferences (PS_held p) 1 g ∧ PS_released p = false ∧ PS_Bindings p = bindings ∧
  validateBindings bindings = Ok tt ∧
  (bindings ≠ [] → ∃ st, fst (Open x appID d) = Ok st ∧
     ∀ b, b ∈ bindings → ∃ r, resolve open hmac key st (B_Secret b) = Ok r ∧
       PS_values p !! B_Secret b = Some (RS_Value r) ∧ RS_Value r ∈ PS_held p).
Proof.
  unfold PinBindings. intros Hrun.
  destruct (CheckRuntimeSecurity appID states) as [[]|] eqn:Hsec; [|done].
  cbn [mbind result_bind] in Hrun.
  assert (runtime_of states appID = false) as Hrt.
  { unfold CheckRuntimeSecurity, fail_if in Hsec. by destruct (runtime_of states appID). }
  destruct (CheckCollisions live appID bindings) eqn:Hcol; [|done].
  assert (validateBindings bindings = Ok tt) as Hval.
  { unfold CheckCollisions in Hcol. by destruct (validateBindings bindings) as [[]|]. }
  destruct bindings as [|b0 l0] eqn:Hb.
  { simplify_eq. destruct g'. by split_and!. }
  rewrite <- Hb in *.
  destruct (Open x appID d) as [r0 d0] eqn:Hopen. destruct r0 as [st|]; [|done].
  cbn [mbind result_bind] in Hrun.
  destruct (pin_loop open hmac cancelled key st 0 bindings [] ∅ []) as [[[resolved values] held]|] eqn:Hloop; [|done].
  simplify_eq. cbn [fst PS_held PS_released PS_Bindings PS_values].
  destruct (pin_loop_spec _ _ _ _ _ _ _ _ _ _ _ Hloop) as (Hok & _ & Hall); [apply map_Forall_empty|].
  split_and!; try done. intros _. exists st. split; [done|]. intros b Hin. destruct (Hall b Hin) as [v Hv].
  destruct (Hok _ _ Hv) as (Hheld & r & Hr & ->). eauto.
Qed.

Lemma paired_app v ops held others :
  paired v (ops ++ others) → paired v (ops ++ Acquire held :: others).
Proof.
  intros Hp n. pose proof (occurrences_nonneg v held) as Hn. destruct (Nat.le_gt_cases n (length ops)) as [Hle|Hgt].
  - specialize (Hp n). rewrite !take_app_le in * by done. done.
  - rewrite take_app_ge by lia. destruct (n - length ops)%nat as [|k] eqn:E; [lia|]. cbn [take].
    specialize (Hp (length ops + k)%nat). rewrite take_app_add in Hp.
    rewrite outstanding_app in *. cbn [outstanding foldr change_of] in *. unfold outstanding in *. lia.
Qed.

(** C21: what a deployment pins.  For every binding the set holds the value the
    store resolves; a process launched with the set, over any base environment
    and with any transaction stamp, reads that value in the bound variable; from
    the pinning on, whatever other owners acquire and release meanwhile, no
    redacted text shows the value or a line of it ([plain_value], and every
    release of the others follows its acquisition); closing
    the set once leaves exactly the references of the other owners, and closing
    it again changes nothing. *)
Theorem pinned_until_closed x cancelled live key states appID bindings d d' g' p ops others :
  PinBindings open hmac x cancelled live key states appID bindings d (foldl do_op empty_registry ops) = (Ok p, d', g') →
  let during := foldl do_op g' others in
  runtime_of states appID = false ∧
  (bindings ≠ [] → ∃ st, fst (Open x appID d) = Ok st ∧
    ∀ b, b ∈ bindings → ∃ r, resolve open hmac key st (B_Secret b) = Ok r ∧
      (∀ base txn, env_map (MergeEnv base (Overlay (with_launch_txn txn p))) !! B_Env b = Some (RS_Value r)) ∧
      (RS_Value r ≠ "" → paired (RS_Value r) (ops ++ others) → ∀ w lower_rune s out,
        w = RS_Value r ∨ w ∈ lines_of (RS_Value r) → plain_value (text_of w) = true →
        Redact lower_rune during s = Some out → ¬ infix (text_of w) (text_of out))) ∧
  (∀ v, v ≠ "" → paired v (ops ++ others) → references (Close p during).2 v = outstanding v (ops ++ others)) ∧
  (Close (Close p during).1 (Close p during).2).2 = (Close p during).2.
Proof.
  intros (Hrt & -> & Hrel & Hb & Hval & Hst)%PinBindings_spec. cbv zeta.
  destruct (validate_imports_spec _ _ _ Hval) as [Hn Hnames].
  change (changeReferences (PS_held p) 1 (foldl do_op empty_registry ops))
    with (do_op (foldl do_op empty_registry ops) (Acquire (PS_held p))).
  change (foldl do_op (do_op (foldl do_op empty_registry ops) (Acquire (PS_held p))) others)
    with (foldl do_op (foldl do_op empty_registry ops) (Acquire (PS_held p) :: others)).
  rewrite <- foldl_app. split; [done|]. split; [|split; [|by cbn; rewrite Hrel]].
  - intros Hne. destruct (Hst Hne) as (st & Hopen & Hall). exists st. split; [done|]. intros b Hin.
    destruct (Hall b Hin) as (r & Hr & Hv & Hheld). exists r. split; [done|]. split.
    + intros base txn. assert (Overlay (with_launch_txn txn p) ≠ []) as Hov.
      { unfold Overlay. cbn [PS_Bindings with_launch_txn]. rewrite Hb. by destruct bindings. }
      destruct (env_wins base _ Hov) as [-> _]. rewrite lookup_union, <- union_cases.
      unfold Overlay. cbn [PS_Bindings PS_values PS_LaunchTxnID with_launch_txn]. rewrite Hb.
      rewrite (overlay_value bindings (λ b, default "" (PS_values p !! B_Secret b))).
      * by rewrite Hv.
      * done.
      * done.
      * intros b' Hb'. apply env_name_chars. by destruct (Hnames b' Hb') as (_ & ? & _).
      * destruct (Hnames b Hin) as (_ & _ & Hres). destruct (txn <>s ""); [|apply lookup_empty].
        unfold env_map. cbn [foldl]. change ("PHELIX_INTERNAL_SECRET_TXN=" +:+ txn) with ("PHELIX_INTERNAL_SECRET_TXN" +:+ "=" +:+ txn).
        rewrite cut_eq_name by done. rewrite lookup_insert_ne; [apply lookup_empty|]. intros Heq. by rewrite <- Heq in Hres.
    + intros Hnv Hp w lower_rune s out Hw Hplain Hred.
      eapply (held_is_hidden lower_rune _ (RS_Value r) w s out Hnv); [|..|exact Hred]; [by apply paired_app| |done|done].
      pose proof (occurrences_elem _ _ Hheld). specialize (Hp (length (ops ++ others))). rewrite take_ge in Hp by done.
      rewrite outstanding_app in *. cbn [outstanding foldr change_of]. unfold outstanding in *. lia.
  - intros v Hv Hp. cbn [Close snd]. rewrite Hrel.
    change (changeReferences (PS_held p) (-1) (foldl do_op empty_registry (ops ++ Acquire (PS_held p) :: others)))
      with (foldl do_op (foldl do_op empty_registry (ops ++ Acquire (PS_held p) :: others)) [Release (PS_held p)]).
    rewrite <- foldl_app. destruct (registry_run v ((ops ++ Acquire (PS_held p) :: others) ++ [Release (PS_held p)]) Hv) as [_ ->].
    + intros n. destruct (Nat.le_gt_cases n (length (ops ++ Acquire (PS_held p) :: others))) as [Hle|Hgt].
      * rewrite take_app_le by done. by apply paired_app.
      * rewrite take_ge by (rewrite length_app; cbn; lia). specialize (Hp (length (ops ++ others))). rewrite take_ge in Hp by done.
        rewrite !outstanding_app in *. cbn [outstanding foldr change_of]. unfold outstanding in *. lia.
    + rewrite !outstanding_app. cbn [outstanding foldr change_of]. unfold outstanding. lia.
Qed.
End Frozen.

Module PinSamples.
Import SecretSafety.SecretSamples.

Definition bound : list Binding := [mkBinding "database_url" "DATABASE_URL"].
Definition pins : res PinnedSet * option secret_dir * secretRegistry :=
  PinBindings open hmac x0 (λ _, None) (Ok ∅) (Ok key0) ∅ app bound (Some dir1) empty_registry.
Definition pinned0 : PinnedSet := match pins.1.1 with Ok p => p | Err _ => mkPinned "" [] [] ∅ [] false end.

Lemma empty_registry_wf : registry_wf empty_registry.
Proof. split; [apply map_Forall_empty|]. intros v. split; [by intros ?%elem_of_nil|]. by intros (k & [? ?] & _). Qed.

Lemma pinned_until_closed_witness :
  pins = (Ok pinned0, pins.1.2, pins.2) ∧
  Overlay pinned0 = ["DATABASE_URL=postgres://db"] ∧
  (let during := foldl do_op pins.2 [Acquire ["other"]] in
   references (Close pinned0 during).2 "other" = 1 ∧
   (Close (Close pinned0 during).1 (Close pinned0 during).2).2 = (Close pinned0 during).2).
Proof.
  assert (pins = (Ok pinned0, pins.1.2, pins.2)) as Hrun by (vm_compute; reflexivity).
  split; [exact Hrun|]. split; [vm_compute; reflexivity|].
  pose proof (pinned_until_closed open hmac x0 (λ _, None) (Ok ∅) (Ok key0) ∅ app bound (Some dir1) _
                _ pinned0 [] [Acquire ["other"]] Hrun) as (_ & _ & Hrefs & Hagain).
  split; [|exact Hagain]. rewrite (Hrefs "other"); [vm_compute; reflexivity|discriminate|].
  intros n. do 2 (destruct n as [|n]; [vm_compute; discriminate|]). vm_compute. discriminate.
Defined.
End PinSamples.
