(* ===== verification/WebhookLedger.v ===== *)
(** * WebhookLedger: the deliveries that were accepted

    internal/webhook/ledger.go: the bounded record of delivery identifiers that
    keeps a redelivered webhook from starting a second rebuild.  Every
    operation runs under the mutex of the ledger, so each is one function here.
    The capacity is positive. *)

From S2P Require Import Prelude GoLib Errors FileStore.

(* src: internal/webhook/ledger.go DefaultLedgerCapacity *)
Definition DefaultLedgerCapacity : nat := 512.
(* src: internal/webhook/ledger.go deliveryLedgerVersion *)
Definition deliveryLedgerVersion : Z := 1.

(* src: internal/webhook/ledger.go deliveryRecord *)
Record deliveryRecord := mkDelivery {
  DR_Key : string;
  DR_App : string;
  DR_DeliveryID : string;
  DR_Branch : string;
  DR_Commit : string;
  DR_Provider : string;
  DR_ReceivedAt : Z
}.

(** An entry can be [null]. *)
(* src: internal/webhook/ledger.go ledgerFileData *)
Record ledgerFileData := mkLedgerFile {
  LF_Version : Z;
  LF_Entries : list (option deliveryRecord)
}.

(* src: internal/webhook/ledger.go DeliveryLedger *)
Record DeliveryLedger := mkLedger {
  DL_path : string;
  DL_max : nat;
  DL_entries : gmap string deliveryRecord;
  DL_order : list string;
  DL_ready : bool;
  DL_err : option error
}.

Abbreviation ledger_fs := (gmap string (content ledgerFileData)).

(* src: internal/webhook/ledger.go NewDeliveryLedger *)
Definition NewDeliveryLedger (path : string) (capacity : nat) : DeliveryLedger :=
  mkLedger path capacity ∅ [] false None.

Definition with_entries (m : gmap string deliveryRecord) (order : list string) (l : DeliveryLedger)
  : DeliveryLedger := mkLedger (DL_path l) (DL_max l) m order (DL_ready l) (DL_err l).
Definition with_err (e : error) (l : DeliveryLedger) : DeliveryLedger :=
  mkLedger (DL_path l) (DL_max l) (DL_entries l) (DL_order l) (DL_ready l) (Some e).

(** ** Loading *)

(* src: internal/webhook/ledger.go:100-109 DeliveryLedger.loadLocked *)
Fixpoint load_entries (es : list (option deliveryRecord)) (l : DeliveryLedger)
  : res unit * DeliveryLedger :=
  match es with
  | [] => (Ok tt, l)
  | oe :: es =>
      let invalid := (Err (New CodeUnavailable "webhook delivery ledger contains an invalid entry"), l) in
      match oe with
      | None => invalid
      | Some e =>
          if ((DR_Key e =s "") || (DR_App e =s "") || (DR_DeliveryID e =s ""))%bool then invalid
          else match DL_entries l !! DR_Key e with
               | Some _ => (Err (New CodeUnavailable "webhook delivery ledger contains a duplicate entry"), l)
               | None => load_entries es
                   (with_entries (<[DR_Key e := e]> (DL_entries l)) (DL_order l ++ [DR_Key e]) l)
               end
      end
  end.

(* src: internal/webhook/ledger.go DeliveryLedger.loadLocked *)
Definition loadLocked (fl : faults) (l : DeliveryLedger) (s : ledger_fs) : res unit * DeliveryLedger :=
  match s !! DL_path l, fl op_read with
  | None, None => (Ok tt, l)
  | _, Some t => (Err (wrap CodeUnavailable "read webhook delivery ledger" (os_err (ErrIO t))), l)
  | Some Garbage, None =>
      (Err (wrap CodeUnavailable "decode webhook delivery ledger" (Foreign "invalid JSON" None)), l)
  | Some (Data disk), None =>
      if negb (LF_Version disk =? deliveryLedgerVersion) then
        (Err (New CodeUnavailable ("unsupported webhook delivery ledger version " +:+ Itoa (LF_Version disk))), l)
      else load_entries (LF_Entries disk) l
  end.

(* src: internal/webhook/ledger.go DeliveryLedger.Initialize *)
Definition Initialize (fl : faults) (l : DeliveryLedger) (s : ledger_fs) : res unit * DeliveryLedger :=
  if DL_ready l then (Ok tt, l)
  else match loadLocked fl l s with
       | (Err e, l) => (Err e, with_err e l)
       | (Ok _, l) => (Ok tt, mkLedger (DL_path l) (DL_max l) (DL_entries l) (DL_order l) true (DL_err l))
       end.

(** ** Recording *)

Definition nul : string := String (ascii_of_nat 0) "".

(* src: internal/webhook/ledger.go deliveryKey *)
Definition deliveryKey (app deliveryID : string) : string := app +:+ nul +:+ deliveryID.

(* src: internal/webhook/ledger.go DeliveryLedger.unavailableLocked *)
Definition unavailableLocked (l : DeliveryLedger) : error :=
  match DL_err l with
  | Some e => wrap CodeUnavailable "webhook delivery ledger unavailable" e
  | None => New CodeUnavailable "webhook delivery ledger is not initialized"
  end.

Definition available (l : DeliveryLedger) : bool :=
  (DL_ready l && match DL_err l with None => true | Some _ => false end)%bool.

(** One entry goes at each turn. *)
Fixpoint evict (n : nat) (m : gmap string deliveryRecord) (order : list string)
  : gmap string deliveryRecord * list string :=
  match n, order with
  | S n, oldest :: order => evict n (delete oldest m) order
  | _, _ => (m, order)
  end.

(* src: internal/webhook/ledger.go DeliveryLedger.evictLocked *)
Definition evictLocked (l : DeliveryLedger) : DeliveryLedger :=
  let '(m, order) := evict (length (DL_order l) - DL_max l) (DL_entries l) (DL_order l) in
  with_entries m order l.

Definition disk_of (l : DeliveryLedger) : ledgerFileData :=
  mkLedgerFile deliveryLedgerVersion ((λ key, DL_entries l !! key) <$> DL_order l).

Definition persist_prog (pid : Z) (l : DeliveryLedger) : list (guarded ledgerFileData) :=
  replace_prog CodeUnavailable "webhook delivery ledger" "webhook delivery ledger"
    (tmp_path (DL_path l) pid) (DL_path l) (disk_of l).

(* src: internal/webhook/ledger.go DeliveryLedger.persistLocked *)
Definition persistLocked (fl : faults) (pid : Z) (l : DeliveryLedger) (s : ledger_fs) : res unit * ledger_fs :=
  match fl op_mkdir with
  | Some t => (Err (wrap CodeUnavailable "create webhook delivery ledger directory" (os_err (ErrIO t))), s)
  | None => run_prog fl (persist_prog pid l) s
  end.

(** The insertion of a new delivery, before it is written. *)
(* src: internal/webhook/ledger.go:132-143 DeliveryLedger.SeenOrRecord *)
Definition recorded (now : Z) (app deliveryID branch commit provider : string) (l : DeliveryLedger)
  : DeliveryLedger :=
  let key := deliveryKey app deliveryID in
  let rec := mkDelivery key app deliveryID branch commit provider now in
  evictLocked (with_entries (<[key := rec]> (DL_entries l)) (DL_order l ++ [key]) l).

(** [Ok true]: seen before. *)
(* src: internal/webhook/ledger.go DeliveryLedger.SeenOrRecord *)
Definition SeenOrRecord (fl : faults) (pid now : Z) (app deliveryID branch commit provider : string)
    (l : DeliveryLedger) (s : ledger_fs) : res bool * DeliveryLedger * ledger_fs :=
  if negb (available l) then (Err (unavailableLocked l), l, s)
  else
    let key := deliveryKey app deliveryID in
    match DL_entries l !! key with
    | Some _ => (Ok true, l, s)
    | None =>
        let l := recorded now app deliveryID branch commit provider l in
        match persistLocked fl pid l s with
        | (Err e, s) =>
            (Err e, with_err e (with_entries (delete key (DL_entries l))
                                  (take (length (DL_order l) - 1) (DL_order l)) l), s)
        | (Ok _, s) => (Ok false, l, s)
        end
    end.

Fixpoint remove_first (key : string) (order : list string) : list string :=
  match order with
  | [] => []
  | k :: order => if k =s key then order else k :: remove_first key order
  end.

Definition without (key : string) (l : DeliveryLedger) : DeliveryLedger :=
  with_entries (delete key (DL_entries l)) (remove_first key (DL_order l)) l.

(* src: internal/webhook/ledger.go DeliveryLedger.Remove *)
Definition Remove (fl : faults) (pid : Z) (app deliveryID : string) (l : DeliveryLedger) (s : ledger_fs)
  : res unit * DeliveryLedger * ledger_fs :=
  if negb (available l) then (Err (unavailableLocked l), l, s)
  else
    let key := deliveryKey app deliveryID in
    match DL_entries l !! key with
    | None => (Ok tt, l, s)
    | Some _ =>
        let l := without key l in
        match persistLocked fl pid l s with
        | (Err e, s) => (Err e, with_err e l, s)
        | (Ok _, s) => (Ok tt, l, s)
        end
    end.

(* src: internal/webhook/ledger.go DeliveryLedger.Len *)
Definition Len (l : DeliveryLedger) : Z := Z.of_nat (size (DL_entries l)).

(* src: internal/webhook/ledger.go DeliveryInfo *)
Record DeliveryInfo := mkInfo {
  DI_App : string;
  DI_DeliveryID : string;
  DI_Branch : string;
  DI_Commit : string;
  DI_Provider : string;
  DI_ReceivedAt : Z
}.

Definition info_of (e : deliveryRecord) : DeliveryInfo :=
  mkInfo (DR_App e) (DR_DeliveryID e) (DR_Branch e) (DR_Commit e) (DR_Provider e) (DR_ReceivedAt e).

(** The scan from the newest; a limit of 0 is none. *)
Fixpoint recent_scan (m : gmap string deliveryRecord) (app : string) (limit : nat)
    (newest_first : list string) (found : nat) : list DeliveryInfo :=
  match newest_first with
  | [] => []
  | k :: ks =>
      match m !! k with
      | Some e =>
          if DR_App e =s app then
            info_of e :: (if (Nat.ltb 0 limit && Nat.leb limit (S found))%bool then []
                          else recent_scan m app limit ks (S found))
          else recent_scan m app limit ks found
      | None => recent_scan m app limit ks found
      end
  end.

(* src: internal/webhook/ledger.go DeliveryLedger.RecentForApp *)
Definition RecentForApp (app : string) (limit : nat) (l : DeliveryLedger) : list DeliveryInfo :=
  recent_scan (DL_entries l) app limit (rev (DL_order l)) 0.

(** ** Well-formed ledgers *)

Definition valid_entry (e : deliveryRecord) : Prop :=
  DR_Key e ≠ "" ∧ DR_App e ≠ "" ∧ DR_DeliveryID e ≠ "".

Record ledger_wf (l : DeliveryLedger) : Prop := {
  wf_nodup : NoDup (DL_order l);
  wf_dom k : k ∈ DL_order l ↔ is_Some (DL_entries l !! k);
  wf_entry k e : DL_entries l !! k = Some e → DR_Key e = k ∧ valid_entry e
}.

(** What the file says of the ledger: its keys from the oldest to the newest;
    [None] when it cannot be loaded. *)
Definition keys_of (d : ledgerFileData) : list string :=
  omap (λ oe, DR_Key <$> oe) (LF_Entries d).

Definition file_keys (path : string) (s : ledger_fs) : list string :=
  match s !! path with Some (Data d) => keys_of d | _ => [] end.

(** A ledger that is up agrees with its file. *)
Definition in_step (l : DeliveryLedger) (s : ledger_fs) : Prop :=
  s !! DL_path l = Some (Data (disk_of l)) ∨ (s !! DL_path l = None ∧ DL_order l = []).

(** ** Order of the entries *)

Lemma evict_spec n m order :
  NoDup order → (evict n m order).2 = drop n order ∧
  ∀ k, (evict n m order).1 !! k = if decide (k ∈ take n order) then None else m !! k.
Proof.
  revert m order. induction n as [|n IH]; intros m order Hnd; [done|].
  destruct order as [|o order]; simpl; [done|]. apply NoDup_cons in Hnd as [Ho Hnd].
  destruct (IH (delete o m) order Hnd) as [-> Hm]. split; [done|]. intros k. rewrite Hm.
  destruct (decide (k = o)) as [->|Hk].
  - rewrite lookup_delete_eq. rewrite (decide_True (P := o ∈ o :: _)) by by left. by destruct (decide _).
  - rewrite lookup_delete_ne by done.
    destruct (decide (k ∈ take n order)), (decide (k ∈ o :: take n order)); set_solver.
Qed.

Lemma remove_first_spec key order :
  NoDup order → remove_first key order = filter (λ k, k ≠ key) order.
Proof.
  induction 1 as [|k order Hk Hnd IH]; [done|]. simpl. destruct (k =s key) eqn:E; bool_prop.
  - subst k. rewrite filter_cons_False by (intros H; by apply H). clear IH Hnd. induction order as [|k order IH]; [done|].
    apply not_elem_of_cons in Hk as [Hne Hk]. rewrite filter_cons_True by (by intros ->). f_equal. by apply IH.
  - rewrite filter_cons_True by done. by rewrite IH.
Qed.

(** [k] is in the list with at most [n] entries after it. *)
Definition near_end (n : nat) (k : string) (order : list string) : Prop :=
  ∃ a b, order = a ++ k :: b ∧ (length b ≤ n)%nat.

Lemma near_end_elem n k order : near_end n k order → k ∈ order.
Proof. intros (a & b & -> & _). set_solver. Qed.

(** A new entry pushes the others on by one; eviction only reaches an entry
    with as many after it as the capacity. *)
Lemma near_end_record n k order key max :
  (S n < max)%nat → near_end n k order →
  near_end (S n) k (drop (length (order ++ [key]) - max) (order ++ [key])).
Proof.
  intros Hn (a & b & -> & Hb). rewrite <- !app_assoc. simpl.
  set (d := (length _ - max)%nat). assert (d ≤ length a)%nat as Hd.
  { unfold d. rewrite !length_app. simpl. rewrite length_app. simpl. lia. }
  exists (drop d a), (b ++ [key]). split; [|rewrite length_app; simpl; lia].
  rewrite drop_app. by replace (d - length a)%nat with 0%nat by lia.
Qed.

Lemma near_end_new key order max :
  (0 < max)%nat → near_end 0 key (drop (length (order ++ [key]) - max) (order ++ [key])).
Proof.
  intros Hm. exists (drop (length (order ++ [key]) - max) order), []. split; [|simpl; lia].
  rewrite drop_app. replace (_ - max - length order)%nat with 0%nat; [done|].
  rewrite length_app. simpl. lia.
Qed.

Lemma near_end_remove n k key order :
  k ≠ key → near_end n k order → near_end n k (filter (λ k, k ≠ key) order).
Proof.
  intros Hk (a & b & -> & Hb). exists (filter (λ k, k ≠ key) a), (filter (λ k, k ≠ key) b).
  rewrite filter_app, filter_cons_True by done. split; [done|].
  pose proof (length_filter (λ k, k ≠ key) b). lia.
Qed.

Lemma near_end_weaken n n' k order : (n ≤ n')%nat → near_end n k order → near_end n' k order.
Proof. intros Hn (a & b & -> & Hb). exists a, b. split; [done|lia]. Qed.

(** ** Every operation keeps the ledger well formed *)

Lemma recorded_wf now app id branch commit provider l :
  ledger_wf l → app ≠ "" → id ≠ "" → DL_entries l !! deliveryKey app id = None →
  let l' := recorded now app id branch commit provider l in
  let key := deliveryKey app id in
  ledger_wf l' ∧
  DL_order l' = drop (length (DL_order l ++ [key]) - DL_max l) (DL_order l ++ [key]).
Proof.
  intros [Hnd Hdom Hent] Happ Hid Hnone. unfold recorded, evictLocked. simpl.
  set (key := deliveryKey app id) in *. set (order := DL_order l ++ [key]).
  assert (NoDup order) as Hnd'.
  { apply NoDup_app. split; [done|]. split; [|apply NoDup_singleton].
    intros x Hx ->%list_elem_of_singleton. apply Hdom in Hx. rewrite Hnone in Hx. by destruct Hx. }
  set (n := (length order - DL_max l)%nat). set (m := <[key := _]> (DL_entries l)).
  pose proof (evict_spec n m order Hnd') as [Ho Hm].
  destruct (evict n m order) as [m' order'] eqn:Ee. simpl in *. subst order'.
  split; [|done]. rewrite <- (take_drop n order) in Hnd'. apply NoDup_app in Hnd' as (_ & Hdisj & Hnd2).
  split; simpl; [done| |].
  - intros k. rewrite Hm. assert (is_Some (m !! k) ↔ k ∈ order) as Hmk.
    { unfold m, order. rewrite elem_of_app, list_elem_of_singleton, Hdom, lookup_insert_is_Some'.
      split; intros [?|?]; auto. }
    rewrite <- (take_drop n order), elem_of_app in Hmk.
    destruct (decide _) as [Ht|Ht]; [|rewrite Hmk; set_solver].
    split; [intros Hk; by destruct (Hdisj k Ht)|by intros []].
  - intros k e. rewrite Hm. destruct (decide _); [done|]. unfold m.
    rewrite lookup_insert_Some. intros [[<- <-]|[_ He]]; [|by apply Hent].
    split; [done|]. split; [|done]. simpl. unfold key, deliveryKey. by destruct app.
Qed.

Lemma without_wf key l : ledger_wf l →
  ledger_wf (without key l) ∧ DL_order (without key l) = filter (λ k, k ≠ key) (DL_order l).
Proof.
  intros [Hnd Hdom Hent]. unfold without. simpl. rewrite remove_first_spec by done. split; [|done].
  split; simpl; rewrite ?remove_first_spec by done.
  - by apply NoDup_filter.
  - intros k. rewrite list_elem_of_filter, Hdom, lookup_delete_is_Some. split; intros [? ?]; auto.
  - intros k e [_ He]%lookup_delete_Some. by apply Hent.
Qed.

(** ** The file *)

Lemma persist_outcome fl pid l s r s' :
  persistLocked fl pid l s = (r, s') →
  match r with
  | Ok _ => s' !! DL_path l = Some (Data (disk_of l))
  | Err _ => s' !! DL_path l = s !! DL_path l ∨ s' !! DL_path l = Some (Data (disk_of l))
  end.
Proof.
  unfold persistLocked. destruct (fl op_mkdir).
  { intros [= <- <-]. by left. }
  intros Hrun. pose proof (replace_outcomes fl s CodeUnavailable "webhook delivery ledger"
    "webhook delivery ledger" (tmp_path (DL_path l) pid) (DL_path l) (disk_of l) (tmp_path_ne _ _)) as H.
  unfold persist_prog in Hrun. rewrite Hrun in H. destruct H as [Ht|e f' _ Hf|e _ Ht].
  - by rewrite lookup_insert_eq.
  - left. apply Hf. intros Heq. by apply (tmp_path_ne (DL_path l) pid).
  - right. by rewrite lookup_insert_eq.
Qed.

Lemma persist_crash fl pid l s :
  Forall (λ st, st !! DL_path l = s !! DL_path l ∨ st !! DL_path l = Some (Data (disk_of l)))
    (crash_states fl (persist_prog pid l) s).
Proof.
  eapply Forall_impl; [apply (replace_atomic fl s _ _ _ (tmp_path (DL_path l) pid)), tmp_path_ne|].
  intros st [Ho _]. exact Ho.
Qed.

(** A file is sound when it holds some well-formed ledger. *)
Definition holds (s : ledger_fs) (l : DeliveryLedger) : Prop := ledger_wf l ∧ in_step l s.

Lemma load_entries_spec (m : gmap string deliveryRecord) rest l :
  (∀ k, k ∈ rest → ∃ e, m !! k = Some e ∧ DR_Key e = k ∧ valid_entry e) →
  NoDup rest → (∀ k, k ∈ rest → DL_entries l !! k = None) →
  ∃ m', load_entries ((λ k, m !! k) <$> rest) l = (Ok tt, with_entries m' (DL_order l ++ rest) l) ∧
    ∀ k, m' !! k = if decide (k ∈ rest) then m !! k else DL_entries l !! k.
Proof.
  revert l. induction rest as [|k rest IH]; intros l Hm Hnd Hnew.
  { exists (DL_entries l). rewrite app_nil_r. by destruct l. }
  destruct (Hm k ltac:(by left)) as (e & He & Hk & Hv1 & Hv2 & Hv3). apply NoDup_cons in Hnd as [Hni Hnd].
  rewrite fmap_cons. cbn [load_entries]. rewrite He.
  rewrite <- String.eqb_neq in Hv1, Hv2, Hv3. rewrite Hv1, Hv2, Hv3. cbn [orb].
  rewrite Hk, Hnew by by left.
  destruct (IH (with_entries (<[k:=e]> (DL_entries l)) (DL_order l ++ [k]) l)) as (m' & Hl & Hm').
  - intros k' Hk'. apply Hm. by right.
  - done.
  - intros k' Hk'. simpl. rewrite lookup_insert_ne by (intros <-; done). apply Hnew. by right.
  - exists m'. simpl in Hl. rewrite <- app_assoc in Hl. split; [exact Hl|]. intros k'. rewrite Hm'. simpl.
    destruct (decide (k' = k)) as [->|Hne].
    + rewrite lookup_insert_eq, He. rewrite (decide_True (P := k ∈ k :: _)) by by left.
      by destruct (decide (k ∈ rest)).
    + rewrite lookup_insert_ne by done.
      destruct (decide (k' ∈ rest)), (decide (k' ∈ k :: rest)); set_solver.
Qed.

(** A sound file loads, as the ledger it holds. *)
Lemma Initialize_holds l0 cap s : holds s l0 →
  Initialize no_faults (NewDeliveryLedger (DL_path l0) cap) s =
  (Ok tt, mkLedger (DL_path l0) cap (DL_entries l0) (DL_order l0) true None).
Proof.
  intros [[Hnd Hdom Hent] Hin]. unfold Initialize, loadLocked. simpl.
  assert (DL_order l0 = [] → DL_entries l0 = ∅) as Hnil.
  { intros Ho. apply map_eq. intros k. rewrite lookup_empty. apply eq_None_not_Some.
    rewrite <- Hdom, Ho. apply not_elem_of_nil. }
  destruct Hin as [->|[-> Ho]]; simpl.
  - destruct (load_entries_spec (DL_entries l0) (DL_order l0) (NewDeliveryLedger (DL_path l0) cap))
      as (m' & -> & Hm').
    + intros k [e He]%Hdom. exists e. split; [done|by apply Hent].
    + done.
    + done.
    + simpl. do 2 f_equal. apply map_eq. intros k. rewrite Hm'. simpl.
      destruct (decide _) as [|Hn]; [done|]. symmetry. apply eq_None_not_Some. by rewrite <- Hdom.
  - by rewrite Ho, Hnil.
Qed.

(** ** What an operation does to the file *)

Lemma file_keys_holds s l : holds s l → file_keys (DL_path l) s = DL_order l.
Proof.
  intros [[Hnd Hdom Hent] Hin]. unfold file_keys. destruct Hin as [->|[-> ->]]; [|done].
  unfold keys_of, disk_of. simpl. clear Hnd.
  assert (∀ order, (∀ k, k ∈ order → is_Some (DL_entries l !! k)) →
    omap (M := list) (λ oe, DR_Key <$> oe) ((λ key, DL_entries l !! key) <$> order) = order) as H.
  { induction order as [|k order IH]; intros Hall; [done|]. rewrite fmap_cons. simpl.
    destruct (Hall k ltac:(by left)) as [e He]. rewrite He. simpl. destruct (Hent _ _ He) as [-> _].
    f_equal. apply IH. intros k' Hk'. apply Hall. by right. }
  apply H. intros k. by rewrite Hdom.
Qed.

(** The file holds a ledger; a ledger that is available is that one. *)
Record sound (l : DeliveryLedger) (s : ledger_fs) : Prop := {
  sound_file : ∃ l0, DL_path l0 = DL_path l ∧ holds s l0;
  sound_up : available l = true → holds s l
}.

Definition pushed (max : nat) (key : string) (order : list string) : list string :=
  drop (length (order ++ [key]) - max) (order ++ [key]).
Definition removed (key : string) (order : list string) : list string := filter (λ k, k ≠ key) order.

Lemma holds_same s s' l : s' !! DL_path l = s !! DL_path l → holds s l → holds s' l.
Proof. unfold holds, in_step. by intros ->. Qed.

Lemma holds_written s l : ledger_wf l → s !! DL_path l = Some (Data (disk_of l)) → holds s l.
Proof. intros Hwf Hs. split; [done|by left]. Qed.

Lemma sound_down l s e l0 : DL_path l0 = DL_path l → holds s l0 → sound (with_err e l) s.
Proof.
  intros Hp H. split; [by exists l0|]. unfold available. simpl. by rewrite andb_false_r.
Qed.

Section Writing.
Context (l : DeliveryLedger) (s : ledger_fs) (Hs : sound l s) (Hup : available l = true).

(** A new state of the ledger reaches the file whole or not at all, also when
    the process stops in between. *)
Lemma sound_persist fl pid l' r s' :
  DL_path l' = DL_path l → available l' = true → ledger_wf l' →
  persistLocked fl pid l' s = (r, s') →
  match r with
  | Ok _ => sound l' s' ∧ file_keys (DL_path l) s' = DL_order l'
  | Err e => ∀ l2, DL_path l2 = DL_path l → sound (with_err e l2) s' ∧
      (file_keys (DL_path l) s' = file_keys (DL_path l) s ∨ file_keys (DL_path l) s' = DL_order l')
  end.
Proof.
  intros Hp Hup' Hwf Hrun%persist_outcome. rewrite Hp in Hrun.
  assert (∀ e, s' !! DL_path l = Some (Data (disk_of l')) → ∀ l2, DL_path l2 = DL_path l →
    sound (with_err e l2) s' ∧ file_keys (DL_path l) s' = DL_order l') as Hnew.
  { intros e Hf l2 Hp2. assert (holds s' l') as Hh by (apply holds_written; [done|by rewrite Hp]).
    split; [by eapply sound_down; [|exact Hh]; congruence|]. rewrite <- Hp. by apply file_keys_holds. }
  destruct r as [[]|e].
  - assert (holds s' l') as Hh by (apply holds_written; [done|by rewrite Hp]).
    split; [|rewrite <- Hp; by apply file_keys_holds]. split; [by exists l'|done].
  - intros l2 Hp2. destruct Hrun as [Hf|Hf].
    + split; [|left; unfold file_keys; by rewrite Hf].
      eapply sound_down; [|by eapply holds_same, Hs]. done.
    + destruct (Hnew e Hf l2 Hp2). auto.
Qed.

Lemma crash_persist fl pid l' :
  DL_path l' = DL_path l → ledger_wf l' →
  ∀ st, st ∈ crash_states fl (persist_prog pid l') s →
  (∃ l0, DL_path l0 = DL_path l ∧ holds st l0) ∧
  (file_keys (DL_path l) st = file_keys (DL_path l) s ∨ file_keys (DL_path l) st = DL_order l').
Proof.
  intros Hp Hwf st Hst. pose proof (persist_crash fl pid l' s) as H.
  rewrite Forall_forall in H. specialize (H st Hst). rewrite Hp in H.
  destruct H as [Hf|Hf].
  - split; [exists l; split; [done|by eapply holds_same, Hs]|]. left. unfold file_keys. by rewrite Hf.
  - assert (holds st l') as Hh by (apply holds_written; [done|by rewrite Hp]).
    split; [by exists l'|]. right. rewrite <- Hp. by apply file_keys_holds.
Qed.
End Writing.

(** What a crash in the middle of a call can leave behind. *)
Definition SeenOrRecord_crash (fl : faults) (pid now : Z) (app deliveryID branch commit provider : string)
    (l : DeliveryLedger) (s : ledger_fs) : list ledger_fs :=
  if (available l && bool_decide (DL_entries l !! deliveryKey app deliveryID = None))%bool
  then crash_states fl (persist_prog pid (recorded now app deliveryID branch commit provider l)) s
  else [s].

Definition Remove_crash (fl : faults) (pid : Z) (app deliveryID : string)
    (l : DeliveryLedger) (s : ledger_fs) : list ledger_fs :=
  if available l then crash_states fl (persist_prog pid (without (deliveryKey app deliveryID) l)) s
  else [s].

Section Operations.
Context (fl : faults) (pid now : Z) (app deliveryID : string).
Context (Happ : app ≠ "") (Hid : deliveryID ≠ "").
Context (l : DeliveryLedger) (s : ledger_fs) (Hs : sound l s).
Let key := deliveryKey app deliveryID.
Let keys := file_keys (DL_path l).

Lemma SeenOrRecord_spec branch commit provider r l' s' :
  SeenOrRecord fl pid now app deliveryID branch commit provider l s = (r, l', s') →
  sound l' s' ∧ DL_path l' = DL_path l ∧ DL_max l' = DL_max l ∧
  match r with
  | Ok true => s' = s ∧ key ∈ keys s
  | Ok false => available l = true ∧ (key ∉ keys s) ∧ keys s' = pushed (DL_max l) key (keys s)
  | Err _ => available l' = false ∧
      (keys s' = keys s ∨ ((key ∉ keys s) ∧ keys s' = pushed (DL_max l) key (keys s)))
  end.
Proof.
  unfold SeenOrRecord. destruct (available l) eqn:Hup; simpl.
  2: { intros [= <- <- <-]. rewrite Hup. split_and!; auto. }
  pose proof (sound_up _ _ Hs Hup) as Hh. pose proof (file_keys_holds _ _ Hh) as Hk.
  fold key. destruct (DL_entries l !! key) as [e|] eqn:Ee.
  { intros [= <- <- <-]. split_and!; try done. unfold keys. rewrite Hk. destruct Hh as [Hwf _].
    by apply wf_dom. }
  assert (key ∉ keys s) as Hnot.
  { unfold keys. rewrite Hk. destruct Hh as [Hwf _]. rewrite (wf_dom _ Hwf), Ee. by intros []. }
  destruct (recorded_wf now app deliveryID branch commit provider l (proj1 Hh) Happ Hid Ee) as [Hwf' Ho].
  destruct (persistLocked fl pid (recorded _ _ _ _ _ _ l) s) as [[[]|e] s1] eqn:Ep;
    eapply (sound_persist l s Hs Hup) in Ep; try done; try (by unfold recorded, evictLocked; destruct (evict _ _ _)).
  - intros [= <- <- <-]. destruct Ep as [H1 H2]. split; [done|].
    split; [by unfold recorded, evictLocked; destruct (evict _ _ _)|].
    split; [by unfold recorded, evictLocked; destruct (evict _ _ _)|].
    split; [done|]. split; [done|]. unfold keys. by rewrite H2, Ho, Hk.
  - intros [= <- <- <-].
    set (l2 := with_entries _ _ _) in *. assert (DL_path l2 = DL_path l ∧ DL_max l2 = DL_max l) as [Hp2 Hm2].
    { unfold l2, recorded, evictLocked. by destruct (evict _ _ _). }
    destruct (Ep l2 Hp2) as [H1 H2]. split; [done|]. split; [done|]. split; [done|].
    split; [unfold available; simpl; by rewrite andb_false_r|]. unfold keys, pushed. rewrite Hk.
    destruct H2 as [->| ->]; [left; by rewrite Hk|right]. split; [by rewrite <- Hk|done].
Qed.

Lemma SeenOrRecord_crash_spec branch commit provider st :
  st ∈ SeenOrRecord_crash fl pid now app deliveryID branch commit provider l s →
  (∃ l0, DL_path l0 = DL_path l ∧ holds st l0) ∧
  (keys st = keys s ∨ ((key ∉ keys s) ∧ keys st = pushed (DL_max l) key (keys s))).
Proof.
  unfold SeenOrRecord_crash. destruct (available l && _)%bool eqn:E.
  2: { intros ->%list_elem_of_singleton. split; [apply Hs|by left]. }
  apply andb_true_iff in E as [Hup Ee%bool_decide_eq_true]. fold key in Ee.
  pose proof (sound_up _ _ Hs Hup) as Hh. pose proof (file_keys_holds _ _ Hh) as Hk.
  destruct (recorded_wf now app deliveryID branch commit provider l (proj1 Hh) Happ Hid Ee) as [Hwf' Ho].
  intros Hst. eapply (crash_persist l s Hs Hup) in Hst as [H1 H2]; [|..|exact Hwf'].
  2: by unfold recorded, evictLocked; destruct (evict _ _ _).
  split; [done|]. unfold keys, pushed. rewrite Hk. destruct H2 as [->| ->]; [left; by rewrite Hk|right].
  split; [|done]. destruct Hh as [Hwf _]. rewrite (wf_dom _ Hwf). fold key in Ee. rewrite Ee. by intros [].
Qed.

Lemma Remove_spec r l' s' :
  Remove fl pid app deliveryID l s = (r, l', s') →
  sound l' s' ∧ DL_path l' = DL_path l ∧ DL_max l' = DL_max l ∧
  (keys s' = keys s ∨ keys s' = removed key (keys s)) ∧
  match r with Ok _ => available l = true ∧ key ∉ keys s' | Err _ => available l' = false end.
Proof.
  unfold Remove. destruct (available l) eqn:Hup; simpl.
  2: { intros [= <- <- <-]. rewrite Hup. split_and!; auto. }
  pose proof (sound_up _ _ Hs Hup) as Hh. pose proof (file_keys_holds _ _ Hh) as Hk.
  fold key. destruct (DL_entries l !! key) as [e|] eqn:Ee.
  2: { intros [= <- <- <-]. split_and!; try done; [by left|]. unfold keys. rewrite Hk.
       destruct Hh as [Hwf _]. rewrite (wf_dom _ Hwf), Ee. by intros []. }
  destruct (without_wf key l (proj1 Hh)) as [Hwf' Ho].
  destruct (persistLocked fl pid (without key l) s) as [[[]|e'] s1] eqn:Ep;
    eapply (sound_persist l s Hs Hup) in Ep; try done.
  - intros [= <- <- <-]. destruct Ep as [H1 H2]. split_and!; try done; unfold keys; rewrite H2, Ho.
    + right. unfold removed. by rewrite Hk.
    + rewrite list_elem_of_filter. by intros [? _].
  - intros [= <- <- <-]. destruct (Ep (without key l) eq_refl) as [H1 H2]. split_and!; try done.
    + unfold keys. rewrite Hk. destruct H2 as [->| ->]; [left; by rewrite Hk|by right].
    + unfold available. simpl. by rewrite andb_false_r.
Qed.

Lemma Remove_crash_spec st :
  st ∈ Remove_crash fl pid app deliveryID l s →
  (∃ l0, DL_path l0 = DL_path l ∧ holds st l0) ∧ (keys st = keys s ∨ keys st = removed key (keys s)).
Proof.
  unfold Remove_crash. destruct (available l) eqn:Hup.
  2: { intros ->%list_elem_of_singleton. split; [apply Hs|by left]. }
  pose proof (sound_up _ _ Hs Hup) as Hh. pose proof (file_keys_holds _ _ Hh) as Hk. fold key.
  destruct (without_wf key l (proj1 Hh)) as [Hwf' Ho].
  intros Hst. eapply (crash_persist l s Hs Hup) in Hst as [H1 H2]; [|done|exact Hwf'].
  split; [done|]. unfold keys. rewrite Hk. destruct H2 as [->| ->]; [left; by rewrite Hk|by right].
Qed.
End Operations.
