(* ===== verification/WebhookJobs.v ===== *)
(** * WebhookJobs: the durable jobs of accepted deliveries

    internal/webhook/jobs.go: one record per accepted webhook, its status, the
    store with one file per job, the retention sweep and the recovery after a
    restart.  The store is the directory of the jobs, keyed by file name.  Every
    operation runs under the mutex of the store; the in-memory record and the
    file are one record of type [JobRecord].  A message is redacted before it
    is stored, and redaction can panic: the operation is [None] then, and the
    process is gone. *)

From S2P Require Import Prelude GoLib GoFloat GoText Errors Redact FileStore Retention Versions.

(* src: internal/webhook/jobs.go StatusAccepted *)
Definition StatusAccepted := "accepted".
(* src: internal/webhook/jobs.go StatusQueued *)
Definition StatusQueued := "queued".
(* src: internal/webhook/jobs.go StatusSyncing *)
Definition StatusSyncing := "syncing".
(* src: internal/webhook/jobs.go StatusBuilding *)
Definition StatusBuilding := "building".
(* src: internal/webhook/jobs.go StatusDeploying *)
Definition StatusDeploying := "deploying".
(* src: internal/webhook/jobs.go StatusHealthChecking *)
Definition StatusHealthChecking := "health_checking".
(* src: internal/webhook/jobs.go StatusSucceeded *)
Definition StatusSucceeded := "succeeded".
(* src: internal/webhook/jobs.go StatusFailed *)
Definition StatusFailed := "failed".
(* src: internal/webhook/jobs.go StatusRolledBack *)
Definition StatusRolledBack := "rolled_back".
(* src: internal/webhook/jobs.go StatusCancelled *)
Definition StatusCancelled := "cancelled".

(* src: internal/webhook/jobs.go StageQueue *)
Definition StageQueue := "queue".
(* src: internal/webhook/jobs.go StageGitSync *)
Definition StageGitSync := "git_sync".
(* src: internal/webhook/jobs.go StageBuild *)
Definition StageBuild := "build".
(* src: internal/webhook/jobs.go StageDeploy *)
Definition StageDeploy := "deploy".
(* src: internal/webhook/jobs.go StageHealthCheck *)
Definition StageHealthCheck := "health_check".
(* src: internal/webhook/jobs.go StageCleanup *)
Definition StageCleanup := "cleanup".
(* src: internal/webhook/jobs.go StageRecovery *)
Definition StageRecovery := "recovery".

(* src: internal/webhook/jobs.go JobErrGitSync *)
Definition JobErrGitSync := "GIT_SYNC_FAILED".
(* src: internal/webhook/jobs.go JobErrBuild *)
Definition JobErrBuild := "BUILD_FAILED".
(* src: internal/webhook/jobs.go JobErrDeploy *)
Definition JobErrDeploy := "DEPLOY_FAILED".
(* src: internal/webhook/jobs.go JobErrHealth *)
Definition JobErrHealth := "HEALTH_CHECK_FAILED".
(* src: internal/webhook/jobs.go JobErrAutoRoll *)
Definition JobErrAutoRoll := "AUTO_ROLLBACK_FAILED".
(* src: internal/webhook/jobs.go JobErrRollback *)
Definition JobErrRollback := "ROLLBACK_FAILED".
(* src: internal/webhook/jobs.go JobErrRebuild *)
Definition JobErrRebuild := "REBUILD_FAILED".
(* src: internal/webhook/jobs.go JobErrQueue *)
Definition JobErrQueue := "WEBHOOK_QUEUE_FAILED".
(* src: internal/webhook/jobs.go JobErrInterrupted *)
Definition JobErrInterrupted := "WEBHOOK_JOB_INTERRUPTED".

(* src: internal/webhook/jobs.go DefaultJobRetention *)
Definition DefaultJobRetention : Z := 200.
(* src: internal/webhook/jobs.go jobSchemaVersion *)
Definition jobSchemaVersion : Z := 1.

(* src: internal/webhook/jobs.go statusRank *)
Definition statusRank (status : string) : option Z :=
  if status =s StatusAccepted then Some 0
  else if status =s StatusQueued then Some 1
  else if status =s StatusSyncing then Some 2
  else if status =s StatusBuilding then Some 3
  else if status =s StatusDeploying then Some 4
  else if status =s StatusHealthChecking then Some 5
  else None.

(* src: internal/webhook/jobs.go isTerminalStatus *)
Definition isTerminalStatus (status : string) : bool :=
  one_of status [StatusSucceeded; StatusFailed; StatusRolledBack; StatusCancelled].

(* src: internal/webhook/jobs.go JobRecord *)
Record JobRecord := mkJob {
  J_SchemaVersion : Z;
  J_ID : string;
  J_DeliveryID : string;
  J_AppID : string;
  J_AppName : string;
  J_Branch : string;
  J_Commit : string;
  J_Provider : string;
  J_Status : string;
  J_Stage : string;
  J_AcceptedAt : Z;
  J_StartedAt : Z;
  J_FinishedAt : Z;
  J_Version : Z;
  J_ErrorCode : string;
  J_ErrorMessage : string
}.

(* src: internal/webhook/jobs.go JobRecord.Terminal *)
Definition Terminal (r : JobRecord) : bool := isTerminalStatus (J_Status r).
(* src: internal/webhook/jobs.go JobRecord.Active *)
Definition Active (r : JobRecord) : bool := (negb (isTerminalStatus (J_Status r)) && (J_Status r <>s ""))%bool.

(* src: internal/webhook/jobs.go jobIDPattern *)
Definition jobIDPattern : re := id_pattern "wh_".

(** [rnd] are eight random bytes; without them the clock serves. *)
(* src: internal/webhook/jobs.go NewJobID *)
Definition NewJobID (rnd : option (list Byte.byte)) (unixNano : Z) : string :=
  match rnd with
  | None => "wh_" +:+ hex_encode (bytes_be 8 unixNano)
  | Some buf => "wh_" +:+ hex_encode buf
  end.

Example NewJobID_clock : NewJobID None 1700000000123456789 = "wh_17979cfe3d85cd15".
Proof. reflexivity. Qed.

(** ** Assignments to a record *)

Definition with_stage (status stage : string) (r : JobRecord) : JobRecord :=
  mkJob (J_SchemaVersion r) (J_ID r) (J_DeliveryID r) (J_AppID r) (J_AppName r) (J_Branch r) (J_Commit r)
    (J_Provider r) status stage (J_AcceptedAt r) (J_StartedAt r) (J_FinishedAt r) (J_Version r)
    (J_ErrorCode r) (J_ErrorMessage r).

Definition with_started (now : Z) (r : JobRecord) : JobRecord :=
  mkJob (J_SchemaVersion r) (J_ID r) (J_DeliveryID r) (J_AppID r) (J_AppName r) (J_Branch r) (J_Commit r)
    (J_Provider r) (J_Status r) (J_Stage r) (J_AcceptedAt r) now (J_FinishedAt r) (J_Version r)
    (J_ErrorCode r) (J_ErrorMessage r).

Definition with_outcome (version : Z) (code message : string) (now : Z) (r : JobRecord) : JobRecord :=
  mkJob (J_SchemaVersion r) (J_ID r) (J_DeliveryID r) (J_AppID r) (J_AppName r) (J_Branch r) (J_Commit r)
    (J_Provider r) (J_Status r) (J_Stage r) (J_AcceptedAt r) (J_StartedAt r) now version code message.

(** ** The store *)

(* src: internal/webhook/jobs.go JobStore *)
Record JobStore := mkJobStore {
  JS_dir : string;
  JS_max : Z;
  JS_jobs : gmap string JobRecord;
  JS_ready : bool;
  JS_err : option error;
  JS_readOnly : bool
}.

Abbreviation job_fs := (gmap string (content JobRecord)).

(* src: internal/webhook/jobs.go NewJobStore *)
Definition NewJobStore (dir : string) (max : Z) : JobStore := mkJobStore dir max ∅ false None false.
(* src: internal/webhook/jobs.go OpenJobStoreReadOnly *)
Definition OpenJobStoreReadOnly (dir : string) : JobStore := mkJobStore dir 0 ∅ false None true.

Definition with_jobs (m : gmap string JobRecord) (s : JobStore) : JobStore :=
  mkJobStore (JS_dir s) (JS_max s) m (JS_ready s) (JS_err s) (JS_readOnly s).

(* src: internal/webhook/jobs.go JobStore.jobPath *)
Definition jobPath (id : string) : string := json_file id.

Definition job_tmp (pid : Z) (id : string) : string := tmp_path (jobPath id) pid +:+ "-job".

(** The decoded record is complete. *)
Definition valid_job (r : JobRecord) : bool :=
  (match_string jobIDPattern (J_ID r) && (J_AppName r <>s "") && (J_DeliveryID r <>s "") &&
   (J_Status r <>s "") && negb (J_AcceptedAt r =? 0))%bool.

(* src: internal/webhook/jobs.go loadJobRecord *)
Definition loadJobRecord (fl : faults) (c : content JobRecord) : res JobRecord :=
  match fl op_read, c with
  | Some t, _ => Err (os_err (ErrIO t))
  | None, Garbage => Err (Foreign "invalid JSON" None)
  | None, Data r =>
      if negb (J_SchemaVersion r =? jobSchemaVersion) then
        Err (Foreign ("unsupported schema version " +:+ Itoa (J_SchemaVersion r)) None)
      else if negb (valid_job r) then Err (Foreign "invalid job record" None)
      else Ok r
  end.

Definition corrupt_path (name : string) (unix : Z) : string := name +:+ ".corrupt." +:+ Itoa unix.

(** One file of the directory; the directory has no subdirectory here. *)
(* src: internal/webhook/jobs.go:192-209 JobStore.Load *)
Definition load_one (fl : faults) (unix : Z) (readOnly : bool)
    (acc : gmap string JobRecord * job_fs) (name : string) : gmap string JobRecord * job_fs :=
  let '(m, f) := acc in
  if negb (is_json name) then acc
  else match f !! name with
       | None => acc
       | Some c =>
           match loadJobRecord fl c with
           | Err _ => if readOnly : bool then acc
                      else (m, do_ignored fl f (SRename name (corrupt_path name unix)))
           | Ok r => (<[J_ID r := r]> m, f)
           end
       end.

(* src: internal/webhook/jobs.go JobStore.Load *)
Definition Load (fl : faults) (unix : Z) (s : JobStore) (f : job_fs) : res unit * JobStore * job_fs :=
  let fail e := (Err e, mkJobStore (JS_dir s) (JS_max s) (JS_jobs s) true (Some e) (JS_readOnly s), f) in
  let ready m := mkJobStore (JS_dir s) (JS_max s) m true (JS_err s) (JS_readOnly s) in
  if JS_ready s then (match JS_err s with Some e => Err e | None => Ok tt end, s, f)
  else
    match (if JS_readOnly s then None else fl op_mkdir), fl op_read_dir with
    | Some t, _ => fail (wrap CodeFilesystem ("webhook jobs: create " +:+ JS_dir s) (os_err (ErrIO t)))
    | None, Some t =>
        if negb (JS_readOnly s) then fail (wrap CodeFilesystem ("webhook jobs: read " +:+ JS_dir s) (os_err (ErrIO t)))
        else (Ok tt, ready (JS_jobs s), f)
    | None, None =>
        let '(m, f) := foldl (load_one fl unix (JS_readOnly s)) (JS_jobs s, f)
                         (dir_names f) in
        (Ok tt, ready m, f)
    end.

(* src: internal/webhook/jobs.go JobStore.writableLocked *)
Definition writableLocked (s : JobStore) : res unit :=
  if JS_readOnly s then Err (New CodePermissionDenied "webhook jobs: store is read-only")
  else match JS_err s with
       | Some e => Err (wrap CodeFilesystem "webhook jobs unavailable" e)
       | None => Ok tt
       end.

(** There is no sync of the directory here. *)
Definition job_prog (pid : Z) (r : JobRecord) : list (guarded JobRecord) :=
  let path := jobPath (J_ID r) in
  let tmp := job_tmp pid (J_ID r) in
  replace_unsynced_prog CodeFilesystem "webhook jobs: create temp record" "webhook jobs: write record"
    "webhook jobs: sync record" "webhook jobs: close record" "webhook jobs: replace record" tmp path r.

(* src: internal/webhook/jobs.go JobStore.persistLocked *)
Definition persistLocked (fl : faults) (pid : Z) (dir : string) (r : JobRecord) (f : job_fs) : res unit * job_fs :=
  match fl op_mkdir with
  | Some t => (Err (wrap CodeFilesystem ("webhook jobs: create " +:+ dir) (os_err (ErrIO t))), f)
  | None => run_prog fl (job_prog pid r) f
  end.

(** ** Retention *)

Definition older (a b : JobRecord) : bool :=
  if J_AcceptedAt a =? J_AcceptedAt b then String.ltb (J_ID a) (J_ID b)
  else J_AcceptedAt a <? J_AcceptedAt b.

(** A file that cannot be removed keeps its record, and the next one goes. *)
Fixpoint sweep_loop (fl : faults) (excess : Z) (rs : list JobRecord) (m : gmap string JobRecord) (f : job_fs)
  : gmap string JobRecord * job_fs :=
  match rs with
  | [] => (m, f)
  | r :: rs =>
      if excess <=? 0 then (m, f)
      else if negb (Terminal r) then sweep_loop fl excess rs m f
      else match do_syscall fl (SRemove (jobPath (J_ID r))) f with
           | Ok f => sweep_loop fl (excess - 1) rs (delete (J_ID r) m) f
           | Err ErrNotExist => sweep_loop fl (excess - 1) rs (delete (J_ID r) m) f
           | Err _ => sweep_loop fl excess rs m f
           end
  end.

(** [rs] are all records, the oldest first. *)
(* src: internal/webhook/jobs.go JobStore.sweepRetentionLocked *)
Definition sweepRetentionLocked (fl : faults) (s : JobStore) (f : job_fs) : JobStore * job_fs :=
  if JS_max s <=? 0 then (s, f)
  else
    let rs := sort_by older (map_to_list (JS_jobs s)).*2 in
    let '(m, f) := sweep_loop fl (len rs - JS_max s) rs (JS_jobs s) f in
    (with_jobs m s, f).

(** ** Creation *)

(* src: internal/webhook/jobs.go:240-255 JobStore.Create *)
Definition filled_in (rnd : option (list Byte.byte)) (unixNano now : Z) (r : JobRecord) : JobRecord :=
  let id := if J_ID r =s "" then NewJobID rnd unixNano else J_ID r in
  mkJob jobSchemaVersion id (J_DeliveryID r) (J_AppID r) (J_AppName r) (J_Branch r) (J_Commit r) (J_Provider r)
    (if J_Status r =s "" then StatusAccepted else J_Status r)
    (if J_Stage r =s "" then StageQueue else J_Stage r)
    (if J_AcceptedAt r =? 0 then now else J_AcceptedAt r)
    (J_StartedAt r) (J_FinishedAt r) (J_Version r) (J_ErrorCode r) (J_ErrorMessage r).

(** The clock and the faults of one call. *)
Record call_env := mkEnv { c_faults : faults; c_pid : Z; c_now : Z }.

(* src: internal/webhook/jobs.go JobStore.Create *)
Definition Create (ev : call_env) (rnd : option (list Byte.byte)) (unixNano : Z) (r : JobRecord)
    (s : JobStore) (f : job_fs) : res JobRecord * JobStore * job_fs :=
  let r := filled_in rnd unixNano (c_now ev) r in
  if negb (match_string jobIDPattern (J_ID r)) then
    (Err (New CodeInvalidArgument ("webhook jobs: invalid id " +:+ Quote (J_ID r))), s, f)
  else
    match writableLocked s with
    | Err e => (Err e, s, f)
    | Ok _ =>
        match JS_jobs s !! J_ID r with
        | Some _ => (Err (New CodeAlreadyExists ("webhook jobs: " +:+ J_ID r +:+ " already exists")), s, f)
        | None =>
            match persistLocked (c_faults ev) (c_pid ev) (JS_dir s) r f with
            | (Err e, f) => (Err e, s, f)
            | (Ok _, f) =>
                let '(s, f) := sweepRetentionLocked (c_faults ev) (with_jobs (<[J_ID r := r]> (JS_jobs s)) s) f in
                (Ok r, s, f)
            end
        end
    end.

(** ** Transitions *)

(** [fn] is [None] when it panics.  A failed write leaves memory as it was. *)
(* src: internal/webhook/jobs.go JobStore.update *)
Definition update (ev : call_env) (id : string) (fn : JobRecord → option (res JobRecord))
    (s : JobStore) (f : job_fs) : option (res unit * JobStore * job_fs) :=
  match writableLocked s with
  | Err e => Some (Err e, s, f)
  | Ok _ =>
      match JS_jobs s !! id with
      | None => Some (Err (New CodeNotFound ("webhook jobs: unknown job " +:+ id)), s, f)
      | Some r =>
          match fn r with
          | None => None
          | Some (Err e) => Some (Err e, s, f)
          | Some (Ok r') =>
              if J_ID r' <>s J_ID r then
                Some (Err (New CodeInvalidArgument "webhook jobs: id is immutable"), s, f)
              else match persistLocked (c_faults ev) (c_pid ev) (JS_dir s) r' f with
                   | (Err e, f) => Some (Err e, s, f)
                   | (Ok _, f) => Some (Ok tt, with_jobs (<[id := r']> (JS_jobs s)) s, f)
                   end
          end
      end
  end.

(* src: internal/webhook/jobs.go forwardTransition *)
Definition forwardTransition (r : JobRecord) (newStatus : string) : res unit :=
  if isTerminalStatus (J_Status r) then
    Err (New CodeInvalidArgument ("webhook jobs: " +:+ J_ID r +:+ " is terminal (" +:+ J_Status r +:+
                                  "); no further transitions"))
  else match statusRank (J_Status r), statusRank newStatus with
       | Some oldRank, Some newRank =>
           if newRank <? oldRank then
             Err (New CodeInvalidArgument ("webhook jobs: " +:+ J_ID r +:+ ": cannot move backward from " +:+
                                           J_Status r +:+ " to " +:+ newStatus))
           else Ok tt
       | _, _ => Err (New CodeInvalidArgument ("webhook jobs: " +:+ J_ID r +:+ ": " +:+ Quote newStatus +:+
                                               " is not a running status"))
       end.

(* src: internal/webhook/jobs.go terminalTransition *)
Definition terminalTransition (r : JobRecord) (status : string) : res unit :=
  if isTerminalStatus (J_Status r) then
    Err (New CodeInvalidArgument ("webhook jobs: " +:+ J_ID r +:+ " is already terminal (" +:+ J_Status r +:+ ")"))
  else if negb (isTerminalStatus status) then
    Err (New CodeInvalidArgument ("webhook jobs: " +:+ J_ID r +:+ ": " +:+ Quote status +:+
                                  " is not a terminal status"))
  else Ok tt.

(** A move to a running status. *)
Definition move (status stage : string) (r : JobRecord) : option (res JobRecord) :=
  Some (_ ← forwardTransition r status; Ok (with_stage status stage r)).

(* src: internal/webhook/jobs.go JobStore.MarkQueued *)
Definition MarkQueued (ev : call_env) (id : string) := update ev id (move StatusQueued StageQueue).

Definition syncing_fn (now : Z) (r : JobRecord) : option (res JobRecord) := Some (
  _ ← forwardTransition r StatusSyncing;
  let r := with_stage StatusSyncing StageGitSync r in
  Ok (if J_StartedAt r =? 0 then with_started now r else r)).

(* src: internal/webhook/jobs.go JobStore.MarkSyncing *)
Definition MarkSyncing (ev : call_env) (id : string) := update ev id (syncing_fn (c_now ev)).

(* src: internal/webhook/jobs.go JobStore.MarkBuilding *)
Definition MarkBuilding (ev : call_env) (id : string) := update ev id (move StatusBuilding StageBuild).

(* src: internal/webhook/jobs.go JobStore.MarkProgress *)
Definition MarkProgress (ev : call_env) (id status stage : string) := update ev id (move status stage).

Definition cleanup_fn (r : JobRecord) : option (res JobRecord) := Some (
  if isTerminalStatus (J_Status r) then
    Err (New CodeInvalidArgument ("webhook jobs: " +:+ J_ID r +:+ " is terminal; cleanup stage is meaningless"))
  else Ok (with_stage (J_Status r) StageCleanup r)).

(* src: internal/webhook/jobs.go JobStore.MarkCleanup *)
Definition MarkCleanup (ev : call_env) (id : string) := update ev id cleanup_fn.

Definition succeeded_fn (now version : Z) (r : JobRecord) : option (res JobRecord) := Some (
  _ ← terminalTransition r StatusSucceeded;
  Ok (with_outcome version "" "" now (with_stage StatusSucceeded StageCleanup r))).

Section Messages.
(** What [Redact] is run with. *)
Context (lower_rune : string → string) (secrets : secretRegistry).

Definition ellipsis : string := String (ascii_of_nat 226) (String (ascii_of_nat 128) (String (ascii_of_nat 166) "")).

(* src: internal/webhook/jobs.go SanitizeJobMessage *)
Definition SanitizeJobMessage (msg : string) : option string :=
  msg ← Redact lower_rune secrets msg;
  let msg := TrimSpace msg in
  Some (if 300 <? len_str msg then take_str 300 msg +:+ ellipsis else msg).

(** The end of a job: the status is set before the message is sanitized. *)
Definition finish (now : Z) (status stage : string) (version : option Z) (code : string) (msg : string)
    (r : JobRecord) : option (res JobRecord) :=
  match terminalTransition r status with
  | Err e => Some (Err e)
  | Ok _ => msg ← SanitizeJobMessage msg;
            Some (Ok (with_outcome (default (J_Version r) version) code msg now (with_stage status stage r)))
  end.

(* src: internal/webhook/jobs.go JobStore.MarkSucceeded *)
Definition MarkSucceeded (ev : call_env) (id : string) (version : Z) :=
  update ev id (succeeded_fn (c_now ev) version).

(* src: internal/webhook/jobs.go JobStore.MarkFailed *)
Definition MarkFailed (ev : call_env) (id errorCode message : string) :=
  update ev id (finish (c_now ev) StatusFailed StageCleanup None errorCode message).

(* src: internal/webhook/jobs.go JobStore.MarkRolledBack *)
Definition MarkRolledBack (ev : call_env) (id : string) (version : Z) (errorCode message : string) :=
  update ev id (finish (c_now ev) StatusRolledBack StageCleanup (Some version) errorCode message).

(* src: internal/webhook/jobs.go JobStore.MarkCancelled *)
Definition MarkCancelled (ev : call_env) (id message : string) :=
  update ev id (finish (c_now ev) StatusCancelled StageQueue None JobErrQueue message).
End Messages.

(** ** Queries *)

(* src: internal/webhook/jobs.go JobStore.Get *)
Definition Get (id : string) (s : JobStore) : option JobRecord := JS_jobs s !! id.

Definition newer (a b : JobRecord) : bool := older b a.

(* src: internal/webhook/jobs.go JobStore.filterForApp *)
Definition filterForApp (app : string) (keep : JobRecord → bool) (limit : Z) (s : JobStore) : list JobRecord :=
  let out := sort_by newer (List.filter (λ r, ((J_AppName r =s app) || (J_AppID r =s app)) && keep r)%bool
                              (map_to_list (JS_jobs s)).*2) in
  if ((0 <? limit) && (limit <? len out))%bool then take (Z.to_nat limit) out else out.

(* src: internal/webhook/jobs.go JobStore.ActiveForApp *)
Definition ActiveForApp (app : string) (s : JobStore) : list JobRecord := filterForApp app Active 0 s.
(* src: internal/webhook/jobs.go JobStore.HistoryForApp *)
Definition HistoryForApp (app : string) (limit : Z) (s : JobStore) : list JobRecord :=
  filterForApp app Terminal limit s.

(** ** Recovery after a restart *)

(** [strings.EqualFold], on ASCII. *)
Definition EqualFold (a b : string) : bool := bool_decide (lower (text_of a) = lower (text_of b)).

(* src: internal/webhook/jobs.go RecoveryOutcome *)
Record RecoveryOutcome := mkOutcome {
  RO_JobID : string;
  RO_Previous : string;
  RO_Result : string;
  RO_Version : Z
}.

Section Recovery.
Context (lower_rune : string → string) (secrets : secretRegistry).
Context (currentVersion : string → res (option VersionMeta)).

(** The version that shows that the job finished. *)
(* src: internal/webhook/jobs.go:646-649 JobStore.RecoverInterrupted *)
Definition finished_version (job : JobRecord) : option Z :=
  if default 0 (statusRank (J_Status job)) <? 3 then None
  else match currentVersion (J_AppName job) with
       | Ok (Some meta) =>
           match V_DeployedAt meta with
           | Some at_ms =>
               if (EqualFold (V_GitCommit meta) (J_Commit job) && (J_AcceptedAt job <=? at_ms))%bool
               then Some (V_Version meta) else None
           | None => None
           end
       | _ => None
       end.

Definition interrupted_message (job : JobRecord) : string :=
  "daemon restart interrupted the job while " +:+ J_Status job +:+
  "; the deployment was not re-run (redeliver the webhook to deploy again)".

(* src: internal/webhook/jobs.go:658-671 JobStore.RecoverInterrupted *)
Definition mark_interrupted (ev : call_env) (job : JobRecord) :=
  update ev (J_ID job)
    (finish lower_rune secrets (c_now ev) StatusFailed StageRecovery None JobErrInterrupted (interrupted_message job)).

(** One interrupted job. *)
(* src: internal/webhook/jobs.go:640-673 JobStore.RecoverInterrupted *)
Definition recover_one (ev : call_env) (job : JobRecord) (s : JobStore) (f : job_fs)
  : option (RecoveryOutcome * JobStore * job_fs) :=
  let outcome result version := mkOutcome (J_ID job) (J_Status job) result version in
  let fail s f :=
    match mark_interrupted ev job s f with
    | None => None
    | Some (Ok _, s, f) => Some (outcome StatusFailed 0, s, f)
    | Some (Err _, s, f) => Some (outcome "" 0, s, f)
    end in
  match finished_version job with
  | Some version =>
      match MarkSucceeded ev (J_ID job) version s f with
      | None => None
      | Some (Ok _, s, f) => Some (outcome StatusSucceeded version, s, f)
      | Some (Err _, s, f) => fail s f
      end
  | None => fail s f
  end.

(** [evs]: the environment of each turn. *)
Fixpoint recover_loop (evs : nat → call_env) (jobs : list JobRecord) (s : JobStore) (f : job_fs)
  : option (list RecoveryOutcome * JobStore * job_fs) :=
  match jobs with
  | [] => Some ([], s, f)
  | job :: jobs =>
      '(o, s, f) ← recover_one (evs O) job s f;
      '(os, s, f) ← recover_loop (λ n, evs (S n)) jobs s f;
      Some (o :: os, s, f)
  end.

(** The map is walked in some order: [order] lists its records. *)
(* src: internal/webhook/jobs.go JobStore.RecoverInterrupted *)
Definition RecoverInterrupted (evs : nat → call_env) (order : gmap string JobRecord → list JobRecord)
    (s : JobStore) (f : job_fs) : option (list RecoveryOutcome * JobStore * job_fs) :=
  recover_loop evs (List.filter Active (order (JS_jobs s))) s f.
End Recovery.

(** ** Progress of one record *)

Definition rank (r : JobRecord) : Z := if Terminal r then 6 else default 0 (statusRank (J_Status r)).

(** What never changes, and the direction of what does. *)
Record advances (r r' : JobRecord) : Prop := {
  adv_identity : J_ID r' = J_ID r ∧ J_DeliveryID r' = J_DeliveryID r ∧ J_AppID r' = J_AppID r ∧
    J_AppName r' = J_AppName r ∧ J_Branch r' = J_Branch r ∧ J_Commit r' = J_Commit r ∧
    J_Provider r' = J_Provider r ∧ J_AcceptedAt r' = J_AcceptedAt r ∧ J_SchemaVersion r' = J_SchemaVersion r;
  adv_rank : rank r <= rank r';
  adv_terminal : Terminal r = true → r' = r
}.

#[export] Instance advances_preorder : PreOrder advances.
Proof.
  split.
  - intros r. by repeat split.
  - intros r1 r2 r3 [I1 R1 T1] [I2 R2 T2]. split; [intuition congruence|lia|].
    intros Ht. specialize (T1 Ht). subst r2. auto.
Qed.

Lemma statusRank_range st n : statusRank st = Some n → 0 <= n <= 5 ∧ isTerminalStatus st = false.
Proof.
  unfold statusRank. repeat (destruct (st =s _) eqn:?; bool_prop; [intros [= <-]; subst st; split; [lia|done]|]).
  done.
Qed.

Lemma rank_stage st stage r : rank (with_stage st stage r) = if isTerminalStatus st then 6 else default 0 (statusRank st).
Proof. done. Qed.

Lemma forward_Ok r st : forwardTransition r st = Ok tt →
  Terminal r = false ∧ rank r <= default 0 (statusRank st) ∧ isTerminalStatus st = false ∧ st ≠ "".
Proof.
  unfold forwardTransition, rank, Terminal. destruct (isTerminalStatus (J_Status r)) eqn:Et; [done|].
  destruct (statusRank (J_Status r)) as [o|] eqn:Eo; [|done].
  destruct (statusRank st) as [n|] eqn:En; [|done].
  destruct (n <? o) eqn:E; [done|]. intros _. bool_prop.
  apply statusRank_range in En as Hn. split; [done|]. split; [simpl; lia|]. split; [apply Hn|]. by intros ->.
Qed.

Lemma terminal_Ok r st : terminalTransition r st = Ok tt → Terminal r = false ∧ isTerminalStatus st = true.
Proof.
  unfold terminalTransition, Terminal. destruct (isTerminalStatus (J_Status r)); [done|].
  by destruct (isTerminalStatus st).
Qed.

Lemma rank_running r : Terminal r = false → 0 <= rank r <= 5.
Proof.
  unfold rank. intros ->. destruct (statusRank (J_Status r)) eqn:E; simpl; [|lia].
  by apply statusRank_range in E as [? _].
Qed.

(** A transition is a function on records that only moves them forward and
    keeps them loadable. *)
Definition forward_fn (fn : JobRecord → option (res JobRecord)) : Prop :=
  ∀ r r', fn r = Some (Ok r') → Terminal r = false ∧ advances r r' ∧ (J_Status r ≠ "" → J_Status r' ≠ "").

Lemma move_forward st stage : forward_fn (move st stage).
Proof.
  intros r r' [= H]. apply bind_Ok in H as ([] & Hf & [= <-]).
  apply forward_Ok in Hf as (Ht & Hr & Hnt & Hne). split; [done|]. split; [|done].
  split; [done| |congruence]. rewrite rank_stage, Hnt. done.
Qed.

Lemma finish_forward lower_rune secrets now st stage version code msg :
  forward_fn (finish lower_rune secrets now st stage version code msg).
Proof.
  intros r r'. unfold finish. destruct (terminalTransition r st) as [[]|e] eqn:E; [|done].
  apply terminal_Ok in E as [Ht Hst]. intros (m & _ & [= <-])%bind_Some. split; [done|]. split.
  - split; [done| |congruence]. change (rank (with_outcome _ _ _ _ _)) with (rank (with_stage st stage r)).
    rewrite rank_stage, Hst. pose proof (rank_running r Ht). lia.
  - intros _. simpl. by intros ->.
Qed.

(** ** Memory and directory agree *)

(** A record that loads. *)
Definition loadable (r : JobRecord) : bool := ((J_SchemaVersion r =? jobSchemaVersion) && valid_job r)%bool.

(** Every record file holds the loadable record it is named after. *)
Definition dir_ok (f : job_fs) : Prop :=
  ∀ name c, is_json name = true → f !! name = Some c →
  ∃ r, c = Data r ∧ loadable r = true ∧ name = jobPath (J_ID r).

Record consistent (s : JobStore) (f : job_fs) : Prop := {
  cs_dir : dir_ok f;
  cs_mem id r : JS_jobs s !! id = Some r ↔ f !! jobPath id = Some (Data r)
}.

Lemma jobPath_inj a b : jobPath a = jobPath b → a = b.
Proof. apply sapp_inj_r. Qed.

Lemma is_json_jobPath id : is_json (jobPath id) = true.
Proof. apply HasSuffix_app. Qed.

Lemma is_json_job_tmp pid id : is_json (job_tmp pid id) = false.
Proof.
  unfold is_json, job_tmp.
  change (HasSuffix (tmp_path (jobPath id) pid +:+ ("-jo" +:+ String "b" "")) (".jso" +:+ String "n" "") = false).
  rewrite sapp_assoc. by apply HasSuffix_last.
Qed.

Lemma job_tmp_ne pid id name : is_json name = true → name ≠ job_tmp pid id.
Proof. intros H ->. by rewrite is_json_job_tmp in H. Qed.

(** What writing a record can leave of the files that count. *)
Definition wrote (r : JobRecord) (f f' : job_fs) : Prop :=
  ∀ name, is_json name = true → f' !! name = if name =s jobPath (J_ID r) then Some (Data r) else f !! name.
Definition kept (f f' : job_fs) : Prop := ∀ name, is_json name = true → f' !! name = f !! name.

Lemma persist_job fl pid dir r f res f' :
  persistLocked fl pid dir r f = (res, f') →
  match res with Ok _ => wrote r f f' | Err _ => kept f f' end.
Proof.
  unfold persistLocked. destruct (fl op_mkdir); [by intros [= <- <-] name|]. intros Hrun.
  assert (job_tmp pid (J_ID r) ≠ jobPath (J_ID r)) as Hne.
  { intros Heq. by apply (job_tmp_ne pid (J_ID r) (jobPath (J_ID r)) (is_json_jobPath _)). }
  pose proof (replace_unsynced_outcomes fl f CodeFilesystem "webhook jobs: create temp record"
    "webhook jobs: write record" "webhook jobs: sync record" "webhook jobs: close record"
    "webhook jobs: replace record" _ _ r Hne) as H.
  unfold job_prog in Hrun. rewrite Hrun in H. destruct res as [[]|e].
  - destruct H as [_ ->]. intros name Hn. destruct (name =s _) eqn:E; bool_prop; by simplify_map_eq.
  - destruct H as [_ H]. intros name Hn. apply H. by apply job_tmp_ne.
Qed.

Lemma crash_job fl pid r f st :
  st ∈ crash_states fl (job_prog pid r) f → wrote r f st ∨ kept f st.
Proof.
  assert (job_tmp pid (J_ID r) ≠ jobPath (J_ID r)) as Hne.
  { intros Heq. by apply (job_tmp_ne pid (J_ID r) (jobPath (J_ID r)) (is_json_jobPath _)). }
  pose proof (replace_unsynced_atomic fl f CodeFilesystem "webhook jobs: create temp record"
    "webhook jobs: write record" "webhook jobs: sync record" "webhook jobs: close record"
    "webhook jobs: replace record" _ _ r Hne) as H.
  rewrite Forall_forall in H. intros Hst. destruct (H st Hst) as [Hp Ho].
  destruct Hp as [Hp|Hp]; [right|left]; intros name Hn.
  - destruct (decide (name = jobPath (J_ID r))) as [->|Hd]; [done|]. apply Ho; [done|by apply job_tmp_ne].
  - destruct (name =s _) eqn:E; bool_prop; [by subst name|]. apply Ho; [done|by apply job_tmp_ne].
Qed.

Lemma wrote_dir_ok r f f' : loadable r = true → wrote r f f' → dir_ok f → dir_ok f'.
Proof.
  intros Hl Hw Hd name c Hn. rewrite Hw by done. destruct (name =s _) eqn:E; bool_prop; [|by apply Hd].
  intros [= <-]. by exists r.
Qed.

Lemma kept_dir_ok f f' : kept f f' → dir_ok f → dir_ok f'.
Proof. intros Hk Hd name c Hn. rewrite Hk by done. by apply Hd. Qed.

Lemma consistent_wrote s m r f f' :
  loadable r = true → consistent s f → wrote r f f' → m = <[J_ID r := r]> (JS_jobs s) →
  consistent (with_jobs m s) f'.
Proof.
  intros Hl [Hd Hm] Hw ->. split; [by eapply wrote_dir_ok|]. intros id r'. simpl.
  rewrite Hw by apply is_json_jobPath. destruct (jobPath id =s _) eqn:E; bool_prop.
  - apply jobPath_inj in E as ->. rewrite lookup_insert_eq. split; intros H; congruence.
  - rewrite lookup_insert_ne by (intros Heq; by rewrite Heq in E). apply Hm.
Qed.

Lemma consistent_kept s f f' : consistent s f → kept f f' → consistent s f'.
Proof.
  intros [Hd Hm] Hk. split; [by eapply kept_dir_ok|]. intros id r. rewrite Hk by apply is_json_jobPath. apply Hm.
Qed.

Lemma consistent_loadable s f id r :
  consistent s f → JS_jobs s !! id = Some r → loadable r = true ∧ J_ID r = id.
Proof.
  intros [Hd Hm] H%Hm. apply Hd in H as (r' & [= <-] & Hl & Hp); [|apply is_json_jobPath].
  by apply jobPath_inj in Hp.
Qed.

(** ** Calls of the store *)

Lemma cleanup_forward : forward_fn cleanup_fn.
Proof.
  intros r r'. unfold cleanup_fn. destruct (isTerminalStatus _) eqn:E; [done|]. intros [= <-].
  split; [done|]. split; [|done]. split; [done|by destruct r|unfold Terminal; congruence].
Qed.

Lemma syncing_forward now : forward_fn (syncing_fn now).
Proof.
  intros r r' [= H]. apply bind_Ok in H as ([] & Hf & [= <-]).
  apply forward_Ok in Hf as (Ht & Hr & Hnt & Hne). split; [done|].
  destruct (J_StartedAt _ =? 0); (split; [split; [done|done|congruence]|done]).
Qed.

Lemma succeeded_forward now version : forward_fn (succeeded_fn now version).
Proof.
  intros r r' [= H]. apply bind_Ok in H as ([] & Hf & [= <-]). apply terminal_Ok in Hf as [Ht _].
  split; [done|]. split; [|done]. split; [done| |congruence].
  change (rank (with_outcome _ _ _ _ _)) with 6. pose proof (rank_running r Ht). lia.
Qed.

Inductive job_op :=
| OpCreate (rnd : option (list Byte.byte)) (unixNano : Z) (r : JobRecord)
| OpQueued (id : string)
| OpSyncing (id : string)
| OpBuilding (id : string)
| OpProgress (id status stage : string)
| OpCleanup (id : string)
| OpSucceeded (id : string) (version : Z)
| OpFailed (id code message : string)
| OpRolledBack (id : string) (version : Z) (code message : string)
| OpCancelled (id message : string)
| OpInterrupted (job : JobRecord).

Section Ops.
Context (lower_rune : string → string) (secrets : secretRegistry).

(** The record and the function an update applies to it. *)
Definition fn_of (now : Z) (op : job_op) : string * (JobRecord → option (res JobRecord)) :=
  match op with
  | OpCreate _ _ r => (J_ID r, λ _, None)
  | OpQueued id => (id, move StatusQueued StageQueue)
  | OpSyncing id => (id, syncing_fn now)
  | OpBuilding id => (id, move StatusBuilding StageBuild)
  | OpProgress id status stage => (id, move status stage)
  | OpCleanup id => (id, cleanup_fn)
  | OpSucceeded id version => (id, succeeded_fn now version)
  | OpFailed id code msg => (id, finish lower_rune secrets now StatusFailed StageCleanup None code msg)
  | OpRolledBack id version code msg =>
      (id, finish lower_rune secrets now StatusRolledBack StageCleanup (Some version) code msg)
  | OpCancelled id msg => (id, finish lower_rune secrets now StatusCancelled StageQueue None JobErrQueue msg)
  | OpInterrupted job =>
      (J_ID job, finish lower_rune secrets now StatusFailed StageRecovery None JobErrInterrupted
                   (interrupted_message job))
  end.

Definition do_op (ev : call_env) (op : job_op) (s : JobStore) (f : job_fs)
  : option (res unit * JobStore * job_fs) :=
  match op with
  | OpCreate rnd nano r => let '(res, s, f) := Create ev rnd nano r s f in Some ((λ _, tt) <$> res, s, f)
  | OpQueued id => MarkQueued ev id s f
  | OpSyncing id => MarkSyncing ev id s f
  | OpBuilding id => MarkBuilding ev id s f
  | OpProgress id status stage => MarkProgress ev id status stage s f
  | OpCleanup id => MarkCleanup ev id s f
  | OpSucceeded id version => MarkSucceeded ev id version s f
  | OpFailed id code msg => MarkFailed lower_rune secrets ev id code msg s f
  | OpRolledBack id version code msg => MarkRolledBack lower_rune secrets ev id version code msg s f
  | OpCancelled id msg => MarkCancelled lower_rune secrets ev id msg s f
  | OpInterrupted job => mark_interrupted lower_rune secrets ev job s f
  end.

(** What a crash in the middle of a call can leave on disk. *)
Fixpoint sweep_states (fl : faults) (excess : Z) (rs : list JobRecord) (f : job_fs) : list job_fs :=
  match rs with
  | [] => []
  | r :: rs =>
      if excess <=? 0 then []
      else if negb (Terminal r) then sweep_states fl excess rs f
      else match do_syscall fl (SRemove (jobPath (J_ID r))) f with
           | Ok f => f :: sweep_states fl (excess - 1) rs f
           | Err ErrNotExist => sweep_states fl (excess - 1) rs f
           | Err _ => sweep_states fl excess rs f
           end
  end.

Definition op_crash (ev : call_env) (op : job_op) (s : JobStore) (f : job_fs) : list job_fs :=
  match op with
  | OpCreate rnd nano r =>
      let r := filled_in rnd nano (c_now ev) r in
      if (match_string jobIDPattern (J_ID r) && is_ok (writableLocked s) &&
          bool_decide (JS_jobs s !! J_ID r = None))%bool
      then
        crash_states (c_faults ev) (job_prog (c_pid ev) r) f ++
        match persistLocked (c_faults ev) (c_pid ev) (JS_dir s) r f with
        | (Ok _, f) =>
            if JS_max s <=? 0 then []
            else
              let rs := sort_by older (map_to_list (<[J_ID r := r]> (JS_jobs s))).*2 in
              sweep_states (c_faults ev) (len rs - JS_max s) rs f
        | (Err _, _) => []
        end
      else [f]
  | _ =>
      let '(id, fn) := fn_of (c_now ev) op in
      match JS_jobs s !! id with
      | Some r => match fn r with
                  | Some (Ok r') => crash_states (c_faults ev) (job_prog (c_pid ev) r') f
                  | _ => [f]
                  end
      | None => [f]
      end
  end.

Lemma do_op_update ev op s f :
  match op with OpCreate _ _ _ => True | _ =>
    do_op ev op s f = update ev (fn_of (c_now ev) op).1 (fn_of (c_now ev) op).2 s f ∧
    forward_fn (fn_of (c_now ev) op).2
  end.
Proof.
  destruct op; try done; simpl; (split; [done|]);
    auto using move_forward, cleanup_forward, syncing_forward, succeeded_forward, finish_forward.
Qed.
End Ops.

(** ** One call *)

(** What a step of the store may do to the directory: records advance, new ones
    appear, and only terminal ones disappear. *)
Definition only_advances (f f' : job_fs) : Prop :=
  ∀ id r, f !! jobPath id = Some (Data r) →
  (∃ r', f' !! jobPath id = Some (Data r') ∧ advances r r') ∨ Terminal r = true.

Lemma kept_advances f f' : kept f f' → only_advances f f'.
Proof. intros Hk id r Hr. left. exists r. rewrite Hk by apply is_json_jobPath. by split. Qed.

Lemma wrote_advances r r0 f f' :
  f !! jobPath (J_ID r) = Some (Data r0) → advances r0 r → wrote r f f' → only_advances f f'.
Proof.
  intros H0 Ha Hw id x Hx. left. rewrite Hw by apply is_json_jobPath.
  destruct (jobPath id =s _) eqn:E; bool_prop; [|by exists x].
  rewrite E in Hx. exists r. split; [done|]. congruence.
Qed.

Lemma loadable_advances r r' :
  loadable r = true → advances r r' → (J_Status r ≠ "" → J_Status r' ≠ "") → loadable r' = true.
Proof.
  unfold loadable, valid_job. intros Hl [(-> & -> & _ & -> & _ & _ & _ & -> & ->) _ _] Hs.
  rewrite !andb_true_iff in *. destruct Hl as [? [[[[? ?] ?] Hst] ?]].
  repeat split; try assumption. apply negb_true_iff, String.eqb_neq, Hs. by apply String.eqb_neq, negb_true_iff.
Qed.

Section Update.
Context (ev : call_env) (id : string) (fn : JobRecord → option (res JobRecord)) (Hfn : forward_fn fn).
Context (s : JobStore) (f : job_fs) (Hc : consistent s f).

(** The record the function applies to, and its successor. *)
Lemma update_target r r' :
  JS_jobs s !! id = Some r → fn r = Some (Ok r') →
  f !! jobPath (J_ID r') = Some (Data r) ∧ advances r r' ∧ loadable r' = true ∧ J_ID r' = id.
Proof.
  intros Hr Hf. destruct (Hfn _ _ Hf) as (_ & Ha & Hs).
  destruct (consistent_loadable _ _ _ _ Hc Hr) as [Hl Hid].
  assert (J_ID r' = id) as Hid' by (rewrite <- Hid; apply Ha).
  split; [rewrite Hid'; by apply Hc|]. split; [done|]. split; [by eapply loadable_advances|done].
Qed.

Lemma job_update_spec r s' f' :
  update ev id fn s f = Some (r, s', f') →
  consistent s' f' ∧ only_advances f f' ∧ s' = with_jobs (JS_jobs s') s.
Proof.
  unfold update. assert (s = with_jobs (JS_jobs s) s) as Hw by by destruct s.
  assert (consistent s f ∧ only_advances f f ∧ s = with_jobs (JS_jobs s) s) as Hsame.
  { split; [done|]. split; [by apply kept_advances|done]. }
  destruct (writableLocked s); [|by intros [= <- <- <-]].
  destruct (JS_jobs s !! id) as [r0|] eqn:Er; [|by intros [= <- <- <-]].
  destruct (fn r0) as [[r'|e]|] eqn:Ef; [|by intros [= <- <- <-]|done].
  destruct (update_target _ _ Er Ef) as (Hf0 & Ha & Hl & Hid).
  destruct (J_ID r' <>s J_ID r0); [by intros [= <- <- <-]|].
  destruct (persistLocked _ _ _ r' f) as [[[]|e] f1] eqn:Ep; apply persist_job in Ep; intros [= <- <- <-].
  - split; [eapply consistent_wrote; try done; by rewrite Hid|]. split; [by eapply wrote_advances|done].
  - split; [by eapply consistent_kept|]. split; [by apply kept_advances|done].
Qed.

Lemma update_crash r r' st :
  JS_jobs s !! id = Some r → fn r = Some (Ok r') →
  st ∈ crash_states (c_faults ev) (job_prog (c_pid ev) r') f →
  dir_ok st ∧ only_advances f st.
Proof.
  intros Er Ef Hst. destruct (update_target _ _ Er Ef) as (Hf0 & Ha & Hl & Hid).
  apply crash_job in Hst as [Hw|Hk].
  - split; [by eapply wrote_dir_ok, Hc|by eapply wrote_advances].
  - split; [by eapply kept_dir_ok, Hc|by apply kept_advances].
Qed.
End Update.

(** ** Creation and the sweep *)

(** Nothing changes but terminal records that disappear. *)
Definition pruned (f f' : job_fs) : Prop :=
  ∀ id r, f !! jobPath id = Some (Data r) → f' !! jobPath id = Some (Data r) ∨ Terminal r = true.

Lemma pruned_advances f f' : pruned f f' → only_advances f f'.
Proof. intros H id r Hr. destruct (H id r Hr); [left; by exists r|by right]. Qed.

Lemma pruned_trans f1 f2 f3 : pruned f1 f2 → pruned f2 f3 → pruned f1 f3.
Proof. intros H1 H2 id r Hr. destruct (H1 id r Hr); auto. Qed.

Lemma dir_ok_delete f p : dir_ok f → dir_ok (delete p f).
Proof. intros Hd name c Hn [_ H]%lookup_delete_Some. by apply Hd. Qed.

Lemma consistent_delete s m f id r :
  consistent (with_jobs m s) f → m !! id = Some r → Terminal r = true →
  consistent (with_jobs (delete id m) s) (delete (jobPath id) f) ∧ pruned f (delete (jobPath id) f).
Proof.
  intros [Hd Hm] Hr Ht. split.
  - split; [by apply dir_ok_delete|]. intros id' r'. simpl. destruct (decide (id' = id)) as [->|Hne].
    + by rewrite !lookup_delete_eq.
    + rewrite !lookup_delete_ne; [apply Hm| |done]. by intros ->%jobPath_inj.
  - intros id' r' Hr'. destruct (decide (id' = id)) as [->|Hne].
    + right. apply Hm in Hr. congruence.
    + left. rewrite lookup_delete_ne; [done|]. by intros ->%jobPath_inj.
Qed.

Lemma sweep_loop_spec fl s rs excess m f :
  consistent (with_jobs m s) f →
  (∀ r, r ∈ rs → m !! J_ID r = Some r) → NoDup (J_ID <$> rs) →
  let '(m', f') := sweep_loop fl excess rs m f in
  consistent (with_jobs m' s) f' ∧ pruned f f' ∧
  ∀ st, st ∈ sweep_states fl excess rs f → dir_ok st ∧ pruned f st.
Proof.
  revert excess m f. induction rs as [|r rs IH]; intros excess m f Hc Hin Hnd; simpl.
  { split; [done|]. split; [by intros ? ? ?; left|]. by intros st ?%elem_of_nil. }
  rewrite fmap_cons in Hnd. apply NoDup_cons in Hnd as [Hni Hnd].
  assert (∀ r', r' ∈ rs → m !! J_ID r' = Some r') as Hin' by (intros r' H; apply Hin; by right).
  destruct (excess <=? 0).
  { split; [done|]. split; [by intros ? ? ?; left|]. by intros st ?%elem_of_nil. }
  destruct (Terminal r) eqn:Et; simpl; [|by apply IH].
  pose proof (Hin r ltac:(by left)) as Hr.
  assert (f !! jobPath (J_ID r) = Some (Data r)) as Hf by by apply Hc.
  unfold do_syscall. simpl. destruct (fl op_remove); simpl; [by apply IH|]. rewrite Hf.
  destruct (consistent_delete s m f (J_ID r) r Hc Hr Et) as [Hc' Hp].
  specialize (IH (excess - 1) (delete (J_ID r) m) _ Hc').
  destruct (sweep_loop _ _ rs _ _) as [m' f']. destruct IH as (H1 & H2 & H3); [|done|].
  { intros r' Hr'. rewrite lookup_delete_ne; [by apply Hin'|]. intros Heq. apply Hni. rewrite Heq.
    apply list_elem_of_fmap. by exists r'. }
  split; [done|]. split; [by eapply pruned_trans|].
  intros st [->|Hst]%elem_of_cons; [split; [apply Hc'|done]|].
  destruct (H3 st Hst). split; [done|by eapply pruned_trans].
Qed.

Lemma sweep_records m s f (Hc : consistent (with_jobs m s) f) :
  let rs := sort_by older (map_to_list m).*2 in
  (∀ r, r ∈ rs → m !! J_ID r = Some r) ∧ NoDup (J_ID <$> rs).
Proof.
  assert (∀ k r, (k, r) ∈ map_to_list m → k = J_ID r ∧ m !! J_ID r = Some r) as H.
  { intros k r Hk%elem_of_map_to_list. destruct (consistent_loadable _ _ k r Hc Hk) as [_ <-]. done. }
  split.
  - intros r. rewrite sort_by_Permutation, list_elem_of_fmap. intros ([k r'] & -> & Hk). by apply H in Hk as [_ ?].
  - rewrite sort_by_Permutation, <- list_fmap_compose.
    assert (J_ID ∘ snd <$> map_to_list m = (map_to_list m).*1) as ->; [|apply NoDup_fst_map_to_list].
    apply list_fmap_ext. intros i [k r] Hk%list_elem_of_lookup_2. simpl. by destruct (H k r Hk) as [-> _].
Qed.

Lemma sweepRetentionLocked_spec fl s f s' f' :
  consistent s f → sweepRetentionLocked fl s f = (s', f') →
  consistent s' f' ∧ pruned f f' ∧ s' = with_jobs (JS_jobs s') s.
Proof.
  intros Hc. unfold sweepRetentionLocked. assert (s = with_jobs (JS_jobs s) s) as Hw by by destruct s.
  destruct (JS_max s <=? 0).
  { intros [= <- <-]. split; [done|]. split; [by intros ? ? ?; left|done]. }
  rewrite Hw in Hc. destruct (sweep_records _ _ _ Hc) as [Hin Hnd].
  pose proof (sweep_loop_spec fl s _ (len (sort_by older (map_to_list (JS_jobs s)).*2) - JS_max s)
    (JS_jobs s) f Hc Hin Hnd) as H.
  destruct (sweep_loop _ _ _ _ _) as [m f1]. destruct H as (H1 & H2 & _). intros [= <- <-]. done.
Qed.

(** What the caller of [Create] fills in. *)
Definition complete (now : Z) (r : JobRecord) : Prop :=
  J_AppName r ≠ "" ∧ J_DeliveryID r ≠ "" ∧ (J_AcceptedAt r ≠ 0 ∨ now ≠ 0).

Lemma filled_in_loadable rnd nano now r :
  complete now r → match_string jobIDPattern (J_ID (filled_in rnd nano now r)) = true →
  loadable (filled_in rnd nano now r) = true.
Proof.
  intros (Ha & Hd & Hn) Hid. unfold loadable, valid_job. rewrite Hid. simpl.
  rewrite <- String.eqb_neq in Ha, Hd. rewrite Ha, Hd. simpl. apply andb_true_iff. split.
  - destruct (J_Status r =s "") eqn:E; [done|by rewrite E].
  - destruct (J_AcceptedAt r =? 0) eqn:E; bool_prop; apply negb_true_iff, Z.eqb_neq; [by destruct Hn|done].
Qed.

Lemma wrote_new r f f' : f !! jobPath (J_ID r) = None → wrote r f f' → pruned f f'.
Proof.
  intros Hn Hw id x Hx. left. rewrite Hw by apply is_json_jobPath. destruct (_ =s _) eqn:E; [|done].
  bool_prop. rewrite E in Hx. congruence.
Qed.

Lemma kept_pruned f f' : kept f f' → pruned f f'.
Proof. intros Hk id r Hr. left. by rewrite Hk by apply is_json_jobPath. Qed.

Section Creation.
Context (ev : call_env) (rnd : option (list Byte.byte)) (nano : Z) (r : JobRecord).
Context (Hcomplete : complete (c_now ev) r).
Context (s : JobStore) (f : job_fs) (Hc : consistent s f).
Let r' := filled_in rnd nano (c_now ev) r.

Lemma fresh_file : JS_jobs s !! J_ID r' = None → f !! jobPath (J_ID r') = None.
Proof.
  intros Hn. destruct (f !! jobPath (J_ID r')) as [c|] eqn:Ec; [|done].
  destruct (cs_dir _ _ Hc _ _ (is_json_jobPath _) Ec) as (x & -> & _ & Hp%jobPath_inj).
  apply (cs_mem _ _ Hc) in Ec. by rewrite Hn in Ec.
Qed.

Lemma Create_spec res s' f' :
  Create ev rnd nano r s f = (res, s', f') →
  consistent s' f' ∧ pruned f f' ∧ s' = with_jobs (JS_jobs s') s ∧
  match res with
  | Ok x => x = r' ∧ ∃ f1, wrote r' f f1 ∧ pruned f1 f'
  | Err _ => kept f f' ∧ s' = s
  end.
Proof.
  unfold Create. fold r'. assert (s = with_jobs (JS_jobs s) s) as Hw by by destruct s.
  assert (consistent s f ∧ pruned f f ∧ s = with_jobs (JS_jobs s) s ∧ kept f f ∧ s = s) as Hsame.
  { split_and!; try done. by apply kept_pruned. }
  destruct (match_string jobIDPattern (J_ID r')) eqn:Eid; cbn [negb]; [|by intros [= <- <- <-]].
  destruct (writableLocked s); [|by intros [= <- <- <-]].
  destruct (JS_jobs s !! J_ID r') as [|] eqn:Ej; [by intros [= <- <- <-]|].
  destruct (persistLocked _ _ _ r' f) as [[[]|e] f1] eqn:Ep; apply persist_job in Ep.
  - assert (consistent (with_jobs (<[J_ID r' := r']> (JS_jobs s)) s) f1) as Hc1.
    { eapply consistent_wrote; [by apply filled_in_loadable|done..]. }
    destruct (sweepRetentionLocked _ _ f1) as [s2 f2] eqn:Es.
    destruct (sweepRetentionLocked_spec _ _ _ _ _ Hc1 Es) as (H1 & H2 & H3).
    intros [= <- <- <-]. split; [done|]. split; [eapply pruned_trans; [eapply wrote_new; [by apply fresh_file|done]|done]|].
    split; [by rewrite H3|]. split; [done|]. by exists f1.
  - intros [= <- <- <-]. split; [by eapply consistent_kept|]. split; [by apply kept_pruned|]. done.
Qed.

Lemma Create_crash lower_rune secrets st :
  st ∈ op_crash lower_rune secrets ev (OpCreate rnd nano r) s f → dir_ok st ∧ pruned f st.
Proof.
  cbn [op_crash]. fold r'. destruct (_ && _)%bool eqn:E.
  2: { intros ->%list_elem_of_singleton. split; [apply Hc|by apply kept_pruned]. }
  apply andb_true_iff in E as [[Hid _]%andb_true_iff Hn%bool_decide_eq_true].
  pose proof (filled_in_loadable rnd nano _ r Hcomplete Hid) as Hl. fold r' in Hl.
  rewrite elem_of_app. intros [Hst|Hst].
  - apply crash_job in Hst as [Hw|Hk].
    + split; [by eapply wrote_dir_ok, Hc|eapply wrote_new; [by apply fresh_file|done]].
    + split; [by eapply kept_dir_ok, Hc|by apply kept_pruned].
  - destruct (persistLocked _ _ _ r' f) as [[[]|e] f1] eqn:Ep; [|by apply elem_of_nil in Hst].
    apply persist_job in Ep. destruct (JS_max s <=? 0); [by apply elem_of_nil in Hst|].
    assert (consistent (with_jobs (<[J_ID r' := r']> (JS_jobs s)) s) f1) as Hc1
      by (eapply consistent_wrote; done).
    destruct (sweep_records _ _ _ Hc1) as [Hin Hnd].
    set (rs := sort_by older _) in *.
    pose proof (sweep_loop_spec (c_faults ev) s rs (len rs - JS_max s) _ f1 Hc1 Hin Hnd) as H.
    destruct (sweep_loop _ _ _ _ _) as [m f2]. destruct H as (_ & _ & H3). destruct (H3 st Hst) as [H1 H2].
    split; [done|]. eapply pruned_trans; [eapply wrote_new; [by apply fresh_file|done]|done].
Qed.
End Creation.

(** ** Loading *)

Lemma load_one_spec fl unix ro m f name :
  dir_ok f → fl op_read = None →
  load_one fl unix ro (m, f) name =
  (match f !! name with
   | Some (Data r) => if is_json name then <[J_ID r := r]> m else m
   | _ => m
   end, f).
Proof.
  intros Hd Hfl. unfold load_one. destruct (is_json name) eqn:Hn; cbn [negb].
  2: { by destruct (f !! name) as [[|]|]. }
  destruct (f !! name) as [c|] eqn:Ec; [|done].
  destruct (Hd _ _ Hn Ec) as (r & -> & Hl & _). unfold loadJobRecord. rewrite Hfl.
  unfold loadable in Hl. apply andb_true_iff in Hl as [-> ->]. done.
Qed.

Lemma load_all_spec fl unix ro f names m :
  dir_ok f → fl op_read = None →
  ∃ m', foldl (load_one fl unix ro) (m, f) names = (m', f) ∧
    ∀ id, m' !! id = if bool_decide (jobPath id ∈ names)
                     then match f !! jobPath id with Some (Data r) => Some r | _ => m !! id end
                     else m !! id.
Proof.
  intros Hd Hfl. revert m. induction names as [|name names IH]; intros m; [by exists m|].
  cbn [foldl]. rewrite load_one_spec by done.
  destruct (IH (match f !! name with
   | Some (Data r) => if is_json name then <[J_ID r := r]> m else m
   | _ => m
   end)) as (m' & Hm' & Hl). exists m'. split; [done|]. intros id. rewrite Hl.
  assert (match f !! name with
    | Some (Data r) => if is_json name then <[J_ID r := r]> m else m
    | _ => m
    end !! id = if decide (jobPath id = name)
                then match f !! jobPath id with Some (Data r) => Some r | _ => m !! id end
                else m !! id) as Hone.
  { destruct (decide (jobPath id = name)) as [<-|Hne].
    - destruct (f !! jobPath id) as [[|r]|] eqn:Ef; try done. rewrite is_json_jobPath.
      destruct (Hd _ _ (is_json_jobPath id) Ef) as (x & [= <-] & _ & Hp%jobPath_inj). subst id.
      by rewrite lookup_insert_eq.
    - destruct (f !! name) as [[|r]|] eqn:Ef; try done. destruct (is_json name) eqn:Hn; [|done].
      destruct (Hd _ _ Hn Ef) as (x & [= <-] & _ & Hp). rewrite lookup_insert_ne; [done|].
      intros Heq. apply Hne. by rewrite <- Heq. }
  rewrite Hone. destruct (decide (jobPath id = name)) as [Heq|Hne].
  - rewrite (bool_decide_true (jobPath id ∈ name :: names)) by (rewrite Heq; by left).
    destruct (f !! jobPath id) as [[|r]|]; by destruct (bool_decide _).
  - rewrite (bool_decide_ext (jobPath id ∈ name :: names) (jobPath id ∈ names)); [done|].
    rewrite elem_of_cons. tauto.
Qed.

(** A directory the store wrote loads whole. *)
Lemma Load_spec fl unix dir max f r s f' :
  dir_ok f → fl op_read = None → Load fl unix (NewJobStore dir max) f = (r, s, f') →
  f' = f ∧ (r = Ok tt → consistent s f ∧ JS_readOnly s = false ∧ JS_err s = None).
Proof.
  intros Hd Hfl. unfold Load. simpl. destruct (fl op_mkdir); [by intros [= <- <- <-]|].
  destruct (fl op_read_dir); [by intros [= <- <- <-]|].
  destruct (load_all_spec fl unix false f (dir_names f) ∅ Hd Hfl) as (m' & -> & Hl).
  intros [= <- <- <-]. split; [done|]. intros _. split; [|done]. split; [done|]. intros id r. simpl. rewrite Hl, lookup_empty.
  destruct (bool_decide _) eqn:E.
  - destruct (f !! jobPath id) as [[|x]|]; split; congruence.
  - apply bool_decide_eq_false in E. split; [done|]. intros Hf. destruct E.
    apply elem_of_sort_strings, list_elem_of_fmap. exists (jobPath id, Data r). split; [done|].
    by apply elem_of_map_to_list.
Qed.

(** ** The history of the directory

    The daemon runs calls one after the other; it may stop in the middle of
    any, and starts again on what the directory holds. *)

Record jobs_sys := mkSys { sys_up : option JobStore; sys_dir : job_fs }.

Inductive event :=
| EvCall (ev : call_env) (op : job_op)
| EvCrash (ev : call_env) (op : job_op)
| EvStart (fl : faults) (unix : Z).

Section History.
Context (lower_rune : string → string) (secrets : secretRegistry) (dir : string) (max : Z).

Definition well_called (ev : call_env) (op : job_op) : Prop :=
  match op with OpCreate _ _ r => complete (c_now ev) r | _ => True end.

(** A panic ends the process. *)
Inductive jobs_step : jobs_sys → event → jobs_sys → Prop :=
| step_call ev op s f r s' f' :
    well_called ev op → do_op lower_rune secrets ev op s f = Some (r, s', f') →
    jobs_step (mkSys (Some s) f) (EvCall ev op) (mkSys (Some s') f')
| step_panic ev op s f :
    do_op lower_rune secrets ev op s f = None →
    jobs_step (mkSys (Some s) f) (EvCall ev op) (mkSys None f)
| step_crash ev op s f f' :
    well_called ev op → f' ∈ op_crash lower_rune secrets ev op s f →
    jobs_step (mkSys (Some s) f) (EvCrash ev op) (mkSys None f')
| step_start fl unix f s f' :
    fl op_read = None → Load fl unix (NewJobStore dir max) f = (Ok tt, s, f') →
    jobs_step (mkSys None f) (EvStart fl unix) (mkSys (Some s) f').

Definition sys_ok (c : jobs_sys) : Prop :=
  dir_ok (sys_dir c) ∧ ∀ s, sys_up c = Some s → consistent s (sys_dir c).

Lemma jobs_step_ok c e c' :
  jobs_step c e c' → sys_ok c → sys_ok c' ∧ only_advances (sys_dir c) (sys_dir c').
Proof.
  destruct 1 as [ev op s f r s' f' Hw Hdo|ev op s f Hdo|ev op s f f' Hw Hst|fl unix f s f' Hfl Hl];
    intros [Hd Hup]; simpl in *.
  - specialize (Hup s eq_refl).
    assert (consistent s' f' ∧ only_advances f f') as [Hc Ha].
    { pose proof (do_op_update lower_rune secrets ev op s f) as H. destruct op.
      1: { simpl in Hdo. destruct (Create _ _ _ _ s f) as [[r1 s1] f1] eqn:Ec. injection Hdo as <- <- <-.
           edestruct Create_spec as (H1 & H2 & _); [exact Hw|exact Hup|exact Ec|].
           split; [done|by apply pruned_advances]. }
      all: destruct H as [H Hfn]; rewrite H in Hdo;
        destruct (job_update_spec _ _ _ Hfn _ _ Hup _ _ _ Hdo) as (H1 & H2 & _); done. }
    split; [split; [by destruct Hc|by intros ? [= <-]]|done].
  - split; [by split|]. by apply kept_advances.
  - specialize (Hup s eq_refl). assert (dir_ok f' ∧ only_advances f f') as [Hd' Ha]; [|by split; [split|]].
    pose proof (do_op_update lower_rune secrets ev op s f) as H. destruct op.
    1: { edestruct Create_crash as [H1 H2]; [exact Hw|exact Hup|exact Hst|].
         split; [done|by apply pruned_advances]. }
    all: destruct H as [_ Hfn]; unfold op_crash in Hst; destruct (fn_of _ _ _ _) as [id0 fn]; simpl in Hfn;
      destruct (JS_jobs s !! id0) as [r|] eqn:Er;
        [|apply list_elem_of_singleton in Hst as ->; split; [done|by apply kept_advances]];
      destruct (fn r) as [[r'|e]|] eqn:Ef;
        [by eapply update_crash|apply list_elem_of_singleton in Hst as ->; split; [done|by apply kept_advances]..].
  - destruct (Load_spec _ _ _ _ _ _ _ _ Hd Hfl Hl) as [-> Hc]. destruct (Hc eq_refl) as (Hc' & _ & _).
    split; [split; [done|by intros ? [= <-]]|by apply kept_advances].
Qed.

(** C27: Whatever calls are made, fail, panic or are cut by a crash, and however
    often the daemon restarts, where every restart can read the records: the
    record of a job keeps its identity - the delivery, the application, the
    branch and the commit it was accepted for - its status only moves forward,
    and once it is terminal the record never changes again; a record only
    disappears after it was terminal.  A restart that cannot read a record
    moves it aside (examples). *)
Theorem jobs_only_advance c es c' id r :
  sys_ok c → steps jobs_step c es c' → sys_dir c !! jobPath id = Some (Data r) →
  (∃ r', sys_dir c' !! jobPath id = Some (Data r') ∧ advances r r') ∨
  (∃ es1 es2 cm r', es = es1 ++ es2 ∧ steps jobs_step c es1 cm ∧
     sys_dir cm !! jobPath id = Some (Data r') ∧ advances r r' ∧ Terminal r' = true).
Proof.
  intros Hok Hsteps. revert r Hok. induction Hsteps as [c|c e c1 es c' Hstep Hsteps IH]; intros r Hok Hr.
  { left. by exists r. }
  destruct (jobs_step_ok _ _ _ Hstep Hok) as [Hok1 Ha]. destruct (Ha id r Hr) as [(r1 & Hr1 & Ha1)|Ht].
  - destruct (IH r1 Hok1 Hr1) as [(r' & Hr' & Ha')|(es1 & es2 & cm & r' & -> & Hs & Hr' & Ha' & Ht)].
    + left. exists r'. split; [done|by etransitivity].
    + right. exists (e :: es1), es2, cm, r'. split; [done|]. split; [by econstructor|].
      split; [done|]. split; [by etransitivity|done].
  - right. exists [], (e :: es), c, r. split; [done|]. split; [constructor|]. by split.
Qed.
End History.

(** ** What recovery decides *)

Section RecoveryFacts.
Context (lower_rune : string → string) (secrets : secretRegistry).
Context (currentVersion : string → res (option VersionMeta)).

Lemma interrupted_message_total job :
  is_Some (statusRank (J_Status job)) → is_Some (SanitizeJobMessage lower_rune secrets (interrupted_message job)).
Proof.
  intros Hst. unfold SanitizeJobMessage.
  destruct (Redact_ascii lower_rune secrets (interrupted_message job)) as (out & -> & _); [|by eexists].
  unfold interrupted_message. unfold statusRank in Hst.
  repeat (destruct (J_Status job =s _) eqn:? in Hst; bool_prop;
    [match goal with H : J_Status job = _ |- _ => rewrite H end; repeat constructor|]).
  by destruct Hst.
Qed.

Definition quiet (pid : Z) (ev : call_env) : Prop := c_faults ev = no_faults ∧ c_pid ev = pid.
Definition no_leftovers (pid : Z) (f : job_fs) : Prop := ∀ id, f !! job_tmp pid id = None.

Lemma job_persist_quiet pid dir r f :
  no_leftovers pid f →
  persistLocked no_faults pid dir r f = (Ok tt, <[jobPath (J_ID r) := Data r]> f) ∧
  no_leftovers pid (<[jobPath (J_ID r) := Data r]> f).
Proof.
  intros Hno. split.
  - unfold persistLocked. simpl. unfold run_prog, job_prog, replace_unsynced_prog. simpl.
    unfold do_syscall, syscall_effect, no_faults. rewrite Hno. simpl. simplify_map_eq.
    by rewrite insert_insert_eq, delete_insert_eq, delete_id.
  - intros id. rewrite lookup_insert_ne; [apply Hno|]. apply job_tmp_ne, is_json_jobPath.
Qed.

(** A transition that is allowed is made. *)
Lemma update_quiet pid ev id fn r r' s f :
  quiet pid ev → no_leftovers pid f → writableLocked s = Ok tt →
  JS_jobs s !! id = Some r → fn r = Some (Ok r') → J_ID r' = J_ID r →
  ∃ f', update ev id fn s f = Some (Ok tt, with_jobs (<[id := r']> (JS_jobs s)) s, f') ∧ no_leftovers pid f'.
Proof.
  intros [Hfl Hpid] Hno Hw Hr Hf Hid. unfold update. rewrite Hw, Hr, Hf, Hid.
  rewrite String.eqb_refl, Hfl, Hpid. simpl.
  destruct (job_persist_quiet pid (JS_dir s) r' f Hno) as [-> Hno']. eauto.
Qed.

(** How recovery closes a record. *)
Definition recovered (now : Z) (job r' : JobRecord) : Prop :=
  match finished_version currentVersion job with
  | Some version => J_Status r' = StatusSucceeded ∧ J_Version r' = version
  | None => J_Status r' = StatusFailed ∧ J_ErrorCode r' = JobErrInterrupted
  end ∧ J_FinishedAt r' = now ∧ advances job r'.

Lemma recover_one_quiet pid ev job s f :
  quiet pid ev → no_leftovers pid f → writableLocked s = Ok tt → consistent s f →
  JS_jobs s !! J_ID job = Some job → Active job = true → is_Some (statusRank (J_Status job)) →
  ∃ o s' f' r', recover_one lower_rune secrets currentVersion ev job s f = Some (o, s', f') ∧
    s' = with_jobs (<[J_ID job := r']> (JS_jobs s)) s ∧ recovered (c_now ev) job r' ∧
    consistent s' f' ∧ no_leftovers pid f'.
Proof.
  intros Hq Hno Hw Hc Hr Hact Hst. unfold recover_one, recovered.
  assert (isTerminalStatus (J_Status job) = false) as Hnt.
  { unfold Active in Hact. by destruct (isTerminalStatus _). }
  destruct (finished_version currentVersion job) as [version|] eqn:Ef.
  - set (r' := with_outcome version "" "" (c_now ev) (with_stage StatusSucceeded StageCleanup job)).
    assert (succeeded_fn (c_now ev) version job = Some (Ok r')) as Hfn.
    { unfold succeeded_fn, terminalTransition. by rewrite Hnt. }
    destruct (update_quiet pid ev (J_ID job) _ job r' s f Hq Hno Hw Hr Hfn eq_refl) as (f' & Hu & Hno').
    unfold MarkSucceeded. rewrite Hu. do 4 eexists. split; [done|]. split; [done|].
    destruct (succeeded_forward _ _ _ _ Hfn) as (_ & Ha & _).
    destruct (job_update_spec ev _ _ (succeeded_forward _ _) s f Hc _ _ _ Hu) as [Hc' _].
    split; [|done]. by repeat split; try apply Ha.
  - destruct (interrupted_message_total job Hst) as [m Hm].
    set (r' := with_outcome (J_Version job) JobErrInterrupted m (c_now ev)
                 (with_stage StatusFailed StageRecovery job)).
    set (fn := finish lower_rune secrets (c_now ev) StatusFailed StageRecovery None JobErrInterrupted
      (interrupted_message job)).
    assert (fn job = Some (Ok r')) as Hfn.
    { unfold fn, finish, terminalTransition. rewrite Hnt. simpl. by rewrite Hm. }
    destruct (update_quiet pid ev (J_ID job) fn job r' s f Hq Hno Hw Hr Hfn eq_refl) as (f' & Hu & Hno').
    unfold mark_interrupted. fold fn. rewrite Hu. do 4 eexists. split; [done|]. split; [done|].
    assert (forward_fn fn) as Hfw by apply finish_forward.
    destruct (Hfw _ _ Hfn) as (_ & Ha & _).
    destruct (job_update_spec ev _ _ Hfw s f Hc _ _ _ Hu) as [Hc' _].
    split; [|done]. by repeat split; try apply Ha.
Qed.
Lemma recover_loop_quiet pid evs jobs s f :
  (∀ n, quiet pid (evs n)) → no_leftovers pid f → writableLocked s = Ok tt → consistent s f →
  NoDup (J_ID <$> jobs) →
  (∀ job, job ∈ jobs → JS_jobs s !! J_ID job = Some job ∧ Active job = true ∧ is_Some (statusRank (J_Status job))) →
  ∃ outs s' f', recover_loop lower_rune secrets currentVersion evs jobs s f = Some (outs, s', f') ∧
    consistent s' f' ∧
    ∀ id r, JS_jobs s !! id = Some r → ∃ r', JS_jobs s' !! id = Some r' ∧
      if decide (id ∈ J_ID <$> jobs) then ∃ n, recovered (c_now (evs n)) r r' else r' = r.
Proof.
  revert evs s f. induction jobs as [|job jobs IH]; intros evs s f Hq Hno Hw Hc Hnd Hin; cbn [recover_loop].
  { do 3 eexists. split; [done|]. split; [done|]. intros id r Hr. by exists r. }
  rewrite fmap_cons in Hnd. apply NoDup_cons in Hnd as [Hni Hnd].
  destruct (Hin job ltac:(by left)) as (Hr & Hact & Hst).
  destruct (recover_one_quiet pid (evs O) job s f (Hq O) Hno Hw Hc Hr Hact Hst)
    as (o & s1 & f1 & r1 & -> & -> & Hrec & Hc1 & Hno1). cbn [mbind option_bind].
  destruct (IH (λ n, evs (S n)) (with_jobs (<[J_ID job := r1]> (JS_jobs s)) s) f1 (λ n, Hq (S n)) Hno1 Hw Hc1 Hnd) as (outs & s' & f' & -> & Hc' & Hall).
  { intros job' Hj. destruct (Hin job' ltac:(by right)) as (Hr' & ?). simpl.
    rewrite lookup_insert_ne; [done|]. intros Heq. apply Hni. rewrite Heq. apply list_elem_of_fmap. by exists job'. }
  cbn [mbind option_bind]. do 3 eexists. split; [done|]. split; [done|]. intros id r Hid. rewrite fmap_cons.
  destruct (decide (id = J_ID job)) as [->|Hne].
  - rewrite Hr in Hid. injection Hid as <-. destruct (Hall (J_ID job) r1) as (r' & Hr' & Hsame).
    { simpl. by rewrite lookup_insert_eq. }
    rewrite decide_False in Hsame by done. subst r'. exists r1. split; [done|].
    rewrite decide_True by by left. by exists O.
  - destruct (Hall id r) as (r' & Hr' & Hcase). { simpl. by rewrite lookup_insert_ne. }
    exists r'. split; [done|]. destruct (decide (id ∈ J_ID <$> jobs)).
    + rewrite decide_True by by right. destruct Hcase as [n Hn]. by exists (S n).
    + rewrite decide_False by (rewrite elem_of_cons; tauto). done.
Qed.

Lemma finished_version_sound job version :
  finished_version currentVersion job = Some version →
  ∃ meta deployed, currentVersion (J_AppName job) = Ok (Some meta) ∧ V_Version meta = version ∧
    lower (text_of (V_GitCommit meta)) = lower (text_of (J_Commit job)) ∧
    V_DeployedAt meta = Some deployed ∧ J_AcceptedAt job <= deployed.
Proof.
  unfold finished_version. destruct (_ <? 3); [done|].
  destruct (currentVersion _) as [[meta|]|]; [|done..]. destruct (V_DeployedAt meta) as [d|] eqn:Ed; [|done].
  destruct (_ && _)%bool eqn:E; [|done]. intros [= <-]. apply andb_true_iff in E as [H1 H2]. bool_prop.
  unfold EqualFold in H1. apply bool_decide_eq_true in H1. by exists meta, d.
Qed.

(** After a restart whose writes succeed no job is left in flight.  A job
    that had started to build is recorded as succeeded only when the current
    version of its application has the commit of the job and was deployed after
    the job was accepted; every other interrupted job is recorded as failed
    because of the interruption, and finished jobs are not touched. *)
Theorem recovery_closes_interrupted_jobs pid evs order s f :
  (∀ n, quiet pid (evs n)) → no_leftovers pid f → writableLocked s = Ok tt → consistent s f →
  order (JS_jobs s) ≡ₚ (map_to_list (JS_jobs s)).*2 →
  (∀ id r, JS_jobs s !! id = Some r → Active r = true → is_Some (statusRank (J_Status r))) →
  ∃ outs s' f',
    RecoverInterrupted lower_rune secrets currentVersion evs order s f = Some (outs, s', f') ∧
    consistent s' f' ∧
    ∀ id r, JS_jobs s !! id = Some r → ∃ r', JS_jobs s' !! id = Some r' ∧ Active r' = false ∧ advances r r' ∧
      if Active r then
        match J_Status r' =s StatusSucceeded with
        | true => ∃ meta deployed, currentVersion (J_AppName r) = Ok (Some meta) ∧ V_Version meta = J_Version r' ∧
            lower (text_of (V_GitCommit meta)) = lower (text_of (J_Commit r)) ∧
            V_DeployedAt meta = Some deployed ∧ J_AcceptedAt r <= deployed
        | false => J_Status r' = StatusFailed ∧ J_ErrorCode r' = JobErrInterrupted
        end
      else r' = r.
Proof.
  intros Hq Hno Hw Hc Hperm Hst. unfold RecoverInterrupted.
  assert (∀ r, r ∈ order (JS_jobs s) ↔ JS_jobs s !! J_ID r = Some r) as Hord.
  { intros r. rewrite Hperm, list_elem_of_fmap. split.
    - intros ([k r'] & -> & Hk%elem_of_map_to_list).
      destruct (consistent_loadable _ _ _ _ Hc Hk) as [_ <-]. done.
    - intros Hr. exists (J_ID r, r). split; [done|]. by apply elem_of_map_to_list. }
  assert (NoDup (J_ID <$> order (JS_jobs s))) as Hnd.
  { rewrite Hperm, <- list_fmap_compose.
    assert (J_ID ∘ snd <$> map_to_list (JS_jobs s) = (map_to_list (JS_jobs s)).*1) as ->;
      [|apply NoDup_fst_map_to_list].
    apply list_fmap_ext. intros i [k r] Hk%list_elem_of_lookup_2%elem_of_map_to_list. simpl.
    by destruct (consistent_loadable _ _ _ _ Hc Hk) as [_ ->]. }
  set (jobs := List.filter Active (order (JS_jobs s))).
  assert (∀ job, job ∈ jobs ↔ JS_jobs s !! J_ID job = Some job ∧ Active job = true) as Hjobs.
  { intros job. unfold jobs. rewrite list_elem_of_In, filter_In, <- list_elem_of_In, Hord. done. }
  destruct (recover_loop_quiet pid evs jobs s f Hq Hno Hw Hc) as (outs & s' & f' & Hloop & Hc' & Hall).
  { eapply sublist_NoDup; [exact Hnd|]. apply sublist_fmap. unfold jobs. clear.
    induction (order (JS_jobs s)) as [|r rs IH]; simpl; [constructor|]. destruct (Active r); by constructor. }
  { intros job [Hr Ha]%Hjobs. split; [done|]. split; [done|]. by eapply Hst. }
  exists outs, s', f'. split; [done|]. split; [done|]. intros id r Hr.
  destruct (consistent_loadable _ _ _ _ Hc Hr) as [Hl Hid].
  destruct (Hall id r Hr) as (r' & Hr' & Hcase). exists r'. split; [done|].
  destruct (Active r) eqn:Ea.
  - rewrite decide_True in Hcase.
    2: { apply list_elem_of_fmap. exists r. split; [done|]. apply Hjobs. by rewrite Hid. }
    destruct Hcase as (n & Hcase & _ & Hadv). unfold Active.
    destruct (finished_version currentVersion r) as [v|] eqn:Ef; destruct Hcase as [Hs Hv]; rewrite Hs.
    + split; [done|]. split; [done|]. simpl. rewrite Hv. by apply finished_version_sound.
    + by split.
  - rewrite decide_False in Hcase.
    2: { intros (x & Hx & [Hx1 Hx2]%Hjobs)%list_elem_of_fmap. rewrite <- Hx, Hr in Hx1. congruence. }
    subst r'. split; [done|]. by split.
Qed.
End RecoveryFacts.

(** A stored message is bounded. *)
Lemma SanitizeJobMessage_bounded lower_rune secrets msg out :
  SanitizeJobMessage lower_rune secrets msg = Some out → len_str out <= 303.
Proof.
  intros (m & _ & [= <-])%bind_Some. unfold len_str. destruct (300 <? _) eqn:E; bool_prop; [|lia].
  rewrite length_sapp. simpl. assert (∀ n s, String.length (take_str n s) ≤ n)%nat as Ht.
  { unfold take_str. induction n as [|n IH]; intros s; destruct s; simpl; try lia. specialize (IH s). lia. }
  pose proof (Ht 300%nat (TrimSpace m)). lia.
Qed.

(** ** Samples *)

Module JobSamples.

Definition same (r : string) : string := r.
Definition ev : call_env := mkEnv no_faults 7 1000.
Definition bytes : list Byte.byte := [Byte.x01; Byte.x02; Byte.x03; Byte.x04; Byte.x05; Byte.x06; Byte.x07; Byte.x08].
Definition id1 : string := "wh_0102030405060708".
Definition push : JobRecord :=
  mkJob 0 "" "d-1" "app1" "shop" "main" "abc123" "github" "" "" 0 0 0 0 "" "".
Definition job1 : JobRecord := filled_in (Some bytes) 0 1000 push.
Definition empty_store : JobStore := mkJobStore "jobs" 200 ∅ true None false.
Definition sys0 : jobs_sys := mkSys (Some empty_store) ∅.
Definition store1 : JobStore := with_jobs {[ id1 := job1 ]} empty_store.
Definition dir1 : job_fs := {[ jobPath id1 := Data job1 ]}.
Definition sys1 : jobs_sys := mkSys (Some store1) dir1.

Lemma sys1_ok : sys_ok sys1.
Proof.
  assert (dir_ok dir1) as Hd.
  { unfold dir1. intros name c _ [<- <-]%lookup_singleton_Some. exists job1. by repeat split. }
  split; [done|]. intros s [= <-]. split; [done|]. intros id r.
  change (({[ id1 := job1 ]} : gmap string JobRecord) !! id = Some r ↔
    ({[ jobPath id1 := Data job1 ]} : job_fs) !! jobPath id = Some (Data r)). split.
  - intros [<- <-]%lookup_singleton_Some. reflexivity.
  - intros [Hp [= <-]]%lookup_singleton_Some. apply jobPath_inj in Hp as <-. reflexivity.
Qed.

(** The job is queued; the daemon crashes while it records the start of the
    build, and restarts. *)
Definition queued : JobRecord := with_stage StatusQueued StageQueue job1.
Definition store_q : JobStore := with_jobs {[ id1 := queued ]} empty_store.
Definition dir_q : job_fs := {[ jobPath id1 := Data queued ]}.
Definition history : list event := [EvCall ev (OpQueued id1); EvCrash ev (OpBuilding id1); EvStart no_faults 5].

Example queue_call : do_op same empty_registry ev (OpQueued id1) store1 dir1 = Some (Ok tt, store_q, dir_q).
Proof. vm_compute. reflexivity. Qed.
Example crash_call : head (op_crash same empty_registry ev (OpBuilding id1) store_q dir_q) = Some dir_q.
Proof. vm_compute. reflexivity. Qed.
Example start_call : Load no_faults 5 (NewJobStore "jobs" 200) dir_q = (Ok tt, store_q, dir_q).
Proof. vm_compute. reflexivity. Qed.

Lemma history_runs : steps (jobs_step same empty_registry "jobs" 200) sys1 history (mkSys (Some store_q) dir_q).
Proof.
  eapply steps_cons; [eapply step_call; [done|exact queue_call]|].
  eapply steps_cons; [eapply (step_crash _ _ _ _ ev (OpBuilding id1) store_q dir_q dir_q); [done|]|].
  { apply head_Some_elem_of, crash_call. }
  eapply steps_cons; [eapply step_start; [done|exact start_call]|]. apply steps_nil.
Qed.

Lemma jobs_only_advance_witness :
  let c' := mkSys (Some store_q) dir_q in
  steps (jobs_step same empty_registry "jobs" 200) sys1 history c' ∧
  ((∃ r', sys_dir c' !! jobPath id1 = Some (Data r') ∧ advances job1 r') ∨
   (∃ es1 es2 cm r', history = es1 ++ es2 ∧ steps (jobs_step same empty_registry "jobs" 200) sys1 es1 cm ∧
     sys_dir cm !! jobPath id1 = Some (Data r') ∧ advances job1 r' ∧ Terminal r' = true)).
Proof.
  split; [exact history_runs|].
  exact (jobs_only_advance same empty_registry "jobs" 200 sys1 history _ id1 job1 sys1_ok history_runs eq_refl).
Defined.

Definition building : JobRecord := with_stage StatusBuilding StageBuild job1.
Definition store2 : JobStore := with_jobs {[ id1 := building ]} empty_store.
Definition dir2 : job_fs := {[ jobPath id1 := Data building ]}.
Definition deployed_version : VersionMeta := mkVersion 7 "" "ABC123" 0 0 (Some 2000) "" true "" [] "".

Lemma recovery_closes_interrupted_jobs_witness :
  ∃ outs s' f',
    RecoverInterrupted same empty_registry (λ _, Ok (Some deployed_version)) (λ _, ev)
      (λ m, (map_to_list m).*2) store2 dir2 = Some (outs, s', f') ∧
    consistent s' f' ∧
    ∀ id r, JS_jobs store2 !! id = Some r → ∃ r', JS_jobs s' !! id = Some r' ∧ Active r' = false ∧ advances r r' ∧
      if Active r then
        match J_Status r' =s StatusSucceeded with
        | true => ∃ meta deployed, (λ _ : string, Ok (Some deployed_version) : res _) (J_AppName r) = Ok (Some meta) ∧
            V_Version meta = J_Version r' ∧
            lower (text_of (V_GitCommit meta)) = lower (text_of (J_Commit r)) ∧
            V_DeployedAt meta = Some deployed ∧ J_AcceptedAt r <= deployed
        | false => J_Status r' = StatusFailed ∧ J_ErrorCode r' = JobErrInterrupted
        end
      else r' = r.
Proof.
  apply (recovery_closes_interrupted_jobs same empty_registry (λ _, Ok (Some deployed_version)) 7 (λ _, ev)
    (λ m, (map_to_list m).*2) store2 dir2).
  - intros n. by split.
  - intros id. unfold dir2. apply lookup_singleton_ne. apply job_tmp_ne, is_json_jobPath.
  - reflexivity.
  - split.
    + unfold dir2. intros name c _ [<- <-]%lookup_singleton_Some. exists building. by repeat split.
    + intros id r. unfold dir2. simpl. split.
      * intros [<- <-]%lookup_singleton_Some. reflexivity.
      * intros [Hp [= <-]]%lookup_singleton_Some. apply jobPath_inj in Hp as <-. reflexivity.
  - reflexivity.
  - intros id r. simpl. intros [<- <-]%lookup_singleton_Some _. by exists 3.
Defined.

Example recovery_outcome :
  match RecoverInterrupted same empty_registry (λ _, Ok (Some deployed_version)) (λ _, ev)
          (λ m, (map_to_list m).*2) store2 dir2 with
  | Some (outs, _, _) => outs = [mkOutcome id1 StatusBuilding StatusSucceeded 7]
  | None => False
  end.
Proof. vm_compute. reflexivity. Qed.

(** A read error while loading moves a sound record aside: the job in flight is
    no longer known. *)
Example unreadable_record_is_moved_aside :
  match Load (fault_at op_read) 99 (NewJobStore "jobs" 200) dir1 with
  | (r, s, f) => r = Ok tt ∧ JS_jobs s = ∅ ∧ f !! jobPath id1 = None ∧
      f !! corrupt_path (jobPath id1) 99 = Some (Data job1)
  end.
Proof. vm_compute. repeat split. Qed.

(** A message that is not UTF-8 panics where the failure is recorded. *)
Example failure_message_panics :
  let bad := String (ascii_of_nat 255) (String (ascii_of_nat 255) (String (ascii_of_nat 255) "token=x")) in
  MarkFailed same empty_registry ev id1 JobErrBuild bad store1 dir1 = None.
Proof. vm_compute. reflexivity. Qed.
End JobSamples.
