(* ===== verification/WebhookServer.v ===== *)
(** * WebhookServer: from a request to a queued job

    internal/webhook/server.go, hmac.go, payload.go, queue.go.  A request is
    checked by [admission], a pure function; an admitted delivery is then recorded,
    turned into a durable job and queued, one critical section at a time.  Many
    requests, the workers of the queue, the end of the daemon and its restarts
    interleave: [world_step].

    The HMAC, the JSON decoder and the injected resolver and secret lookup are
    parameters. *)

From S2P Require Import Prelude GoLib GoFloat GoText Errors Redact FileStore Versions WebhookLedger WebhookJobs.

(** ** Signatures *)

(* src: internal/webhook/hmac.go ProviderGitHub *)
Definition ProviderGitHub := "github".
(* src: internal/webhook/hmac.go signaturePrefix *)
Definition signaturePrefix := "sha256=".

(** [hmac secret body]: the 32 bytes of HMAC-SHA256. *)
(* src: internal/webhook/hmac.go VerifySignature *)
Definition VerifySignature (hmac : string → string → string) (secret body sigHeader : string) : bool :=
  if secret =s "" then false
  else if negb (HasPrefix sigHeader signaturePrefix) then false
  else
    let hexDigest := drop_str (String.length signaturePrefix) sigHeader in
    if negb (Nat.eqb (String.length hexDigest) 64) then false
    else match hex_decode hexDigest with
         | None => false
         | Some given => hmac secret body =s given
         end.

(** ** Payloads *)

(* src: internal/webhook/payload.go PushPayload *)
Record PushPayload := mkPush {
  P_Ref : string;
  P_Before : string;
  P_After : string;
  P_Created : bool;
  P_Deleted : bool
}.

(* src: internal/webhook/payload.go BranchFromRef *)
Definition BranchFromRef (ref : string) : string := TrimPrefix ref "refs/heads/".

(* src: internal/webhook/payload.go isNullSHA *)
Definition isNullSHA (sha : string) : bool :=
  ((Nat.eqb (String.length sha) 40 || Nat.eqb (String.length sha) 64) && all_chars (Ascii.eqb "0") sha)%bool.

(* src: internal/webhook/payload.go IsBranchDeletion *)
Definition IsBranchDeletion (p : PushPayload) : bool := (P_Deleted p || isNullSHA (P_After p))%bool.

(* src: internal/webhook/server.go ignoredReason *)
Definition ignoredReason (eventType : string) (p : PushPayload) (branch configured : string) : string :=
  if ((eventType <>s "") && (eventType <>s "push"))%bool then "event ignored"
  else if IsBranchDeletion p then "branch deleted; nothing to rebuild"
  else if branch <>s configured then "branch does not match configured branch"
  else "".

(** ** Requests *)

(* src: internal/webhook/resolver.go AppInfo *)
Record AppInfo := mkApp { A_ID : string; A_Name : string; A_Directory : string }.

(** The webhook section of a project. *)
Record WebhookConfig := mkConfig { W_Enabled : bool; W_Branch : string; W_SecretEnv : string }.

(* src: internal/webhook/resolver.go ResolvedApp *)
Record ResolvedApp := mkResolved { RA_Info : AppInfo; RA_Config : option WebhookConfig }.

(* src: internal/webhook/server.go Response *)
Record Response := mkResponse {
  Rs_Status : Z;
  Rs_Accepted : bool;
  Rs_Queued : bool;
  Rs_Message : string
}.

(** [rq_broken]: the body cannot be read to its end.  A content length of -1 is
    unknown. *)
Record Request := mkRequest {
  rq_method : string;
  rq_path : string;
  rq_content_length : Z;
  rq_body : string;
  rq_broken : bool;
  rq_signature : string;
  rq_delivery : string;
  rq_event : string
}.

(** A push that must be built. *)
Record Delivery := mkDel {
  D_App : AppInfo;
  D_ID : string;
  D_Branch : string;
  D_Commit : string
}.

Inductive verdict :=
| Reply (r : Response)
| Admit (d : Delivery).

(* src: internal/webhook/server.go DefaultMaxBodyBytes *)
Definition DefaultMaxBodyBytes : Z := Z.shiftl 2 20.

Definition reply (status : Z) (accepted queued : bool) (message : string) : verdict :=
  Reply (mkResponse status accepted queued message).

Definition unknown_app : verdict := reply 404 false false "unknown application".
Definition webhook_unavailable : verdict := reply 500 false false "webhook unavailable".

Definition has_slash (s : string) : bool :=
  negb (all_chars (λ c, negb (Ascii.eqb c "/" || Ascii.eqb c (ascii_of_nat 92))) s).

Section Admission.
Context (hmac : string → string → string).
Context (ParsePushPayload : string → option PushPayload).
Context (Resolve : string → res ResolvedApp) (LookupSecret : string → option string).
Context (MaxBodyBytes : Z).

(** What is checked once the body is read and the secret known. *)
(* src: internal/webhook/server.go:182-220 Server.handleWebhook *)
Definition admit_body (info : AppInfo) (cfg : WebhookConfig) (secret : string) (rq : Request) : verdict :=
  let deliveryID := TrimSpace (rq_delivery rq) in
  if negb (VerifySignature hmac secret (rq_body rq) (rq_signature rq)) then
    reply 401 false false "invalid signature"
  else match ParsePushPayload (rq_body rq) with
  | None => reply 400 false false "invalid payload"
  | Some payload =>
      if deliveryID =s "" then reply 400 false false "missing delivery id"
      else
        let branch := BranchFromRef (P_Ref payload) in
        let ignored := ignoredReason (rq_event rq) payload branch (W_Branch cfg) in
        if ignored <>s "" then reply 200 true false ignored
        else Admit (mkDel info deliveryID branch (P_After payload))
  end.

(** The handler up to the delivery ledger. *)
(* src: internal/webhook/server.go:126-220 Server.handleWebhook *)
Definition admission (rq : Request) : verdict :=
  if rq_method rq <>s "POST" then reply 405 false false "method not allowed"
  else
    let identifier := TrimPrefix (rq_path rq) "/webhook/" in
    if ((identifier =s "") || has_slash identifier)%bool then unknown_app
    else match Resolve identifier with
    | Err e => if IsCode (Some e) CodeNotFound then unknown_app else webhook_unavailable
    | Ok resolved =>
        match RA_Config resolved with
        | None => unknown_app
        | Some cfg =>
            if negb (W_Enabled cfg) then unknown_app
            else match LookupSecret (W_SecretEnv cfg) with
            | None => webhook_unavailable
            | Some secret =>
                if TrimSpace secret =s "" then webhook_unavailable
                else if MaxBodyBytes <? rq_content_length rq then
                  reply 413 false false "request body too large"
                else if MaxBodyBytes <? len_str (rq_body rq) then
                  reply 413 false false "request body too large"
                else if rq_broken rq then reply 400 false false "could not read request body"
                else admit_body (RA_Info resolved) cfg secret rq
            end
        end
    end.
End Admission.

(** ** The queue *)

(* src: internal/webhook/queue.go Job *)
Record Job := mkQJob {
  Q_ID : string;
  Q_AppID : string;
  Q_AppName : string;
  Q_Directory : string;
  Q_Branch : string;
  Q_CommitSHA : string;
  Q_DeliveryID : string;
  Q_Provider : string;
  Q_ReceivedAt : Z
}.

(* src: internal/webhook/queue.go perAppQueueDepth *)
Definition perAppQueueDepth : nat := 8.

(** Where the loop of a worker stands: before the check of [stop], before the
    blocking select, in a rebuild, dropping what is left, gone. *)
(* src: internal/webhook/queue.go Queue.run *)
Inductive worker_pc :=
| AtTop
| AtSelect
| Busy (job : Job)
| Draining
| Exited.

(* src: internal/webhook/queue.go appWorker *)
Record appWorker := mkWorker { w_jobs : list Job; w_stop : bool; w_pc : worker_pc }.

(* src: internal/webhook/queue.go Queue *)
Record Queue := mkQueue { q_workers : gmap string appWorker; q_closed : bool }.

(* src: internal/webhook/queue.go NewQueue *)
Definition NewQueue : Queue := mkQueue ∅ false.

(* src: internal/webhook/queue.go ErrQueueFull *)
Definition ErrQueueFull : error := New CodeUnavailable "webhook queue is full".
(* src: internal/webhook/queue.go ErrQueueClosed *)
Definition ErrQueueClosed : error := New CodeUnavailable "webhook queue is closed".

(* src: internal/webhook/queue.go Queue.Enqueue *)
Definition Enqueue (job : Job) (q : Queue) : res unit * Queue :=
  if q_closed q then (Err ErrQueueClosed, q)
  else
    let w := default (mkWorker [] false AtTop) (q_workers q !! Q_AppName job) in
    let set w := mkQueue (<[Q_AppName job := w]> (q_workers q)) (q_closed q) in
    if Nat.ltb (length (w_jobs w)) perAppQueueDepth
    then (Ok tt, set (mkWorker (w_jobs w ++ [job]) (w_stop w) (w_pc w)))
    else (Err ErrQueueFull, set w).

(** One step of a worker; [Some job] in the label: its rebuild starts, or the
    job is dropped. *)
Inductive worker_label := WSilent | WStart (job : Job) | WDone (job : Job) | WDrop (job : Job).

(* src: internal/webhook/queue.go:145-178 Queue.run *)
Inductive worker_step : appWorker → worker_label → appWorker → Prop :=
| w_top_stop js :
    worker_step (mkWorker js true AtTop) WSilent (mkWorker js true Draining)
| w_top_go js :
    worker_step (mkWorker js false AtTop) WSilent (mkWorker js false AtSelect)
| w_take job js stop :
    worker_step (mkWorker (job :: js) stop AtSelect) (WStart job) (mkWorker js stop (Busy job))
| w_select_stop js :
    worker_step (mkWorker js true AtSelect) WSilent (mkWorker js true Draining)
| w_done job js stop :
    worker_step (mkWorker js stop (Busy job)) (WDone job) (mkWorker js stop AtTop)
| w_drop job js stop :
    worker_step (mkWorker (job :: js) stop Draining) (WDrop job) (mkWorker js stop Draining)
| w_exit stop :
    worker_step (mkWorker [] stop Draining) WSilent (mkWorker [] stop Exited).

(* src: internal/webhook/queue.go:206-226 Queue.Close *)
Definition Close (q : Queue) : Queue :=
  if q_closed q then q
  else mkQueue ((λ w, mkWorker (w_jobs w) true (w_pc w)) <$> q_workers q) true.

(** ** An admitted delivery

    What the handler does next is cut where it releases a lock.  [h_ticket] is
    not in the code: it numbers the deliveries in the order in which they
    reached the ledger. *)

Inductive handler_pc :=
| ToCreate                                  (* recorded; the job comes next *)
| ToForget                                  (* no job record: take the delivery back *)
| ToEnqueue (rec : JobRecord)
| ToForgetFull (rec : JobRecord) (e : error)    (* not queued: take the delivery back, *)
| ToFail (rec : JobRecord) (e : error)          (* and close the job *)
| ToMarkQueued (rec : JobRecord).

Record handler := mkHandler { h_delivery : Delivery; h_pc : handler_pc }.

Record server := mkServer {
  sv_ledger : DeliveryLedger;
  sv_jobs : JobStore;
  sv_queue : Queue;
  sv_handlers : gmap nat handler
}.

(** The daemon, its two stores, and what happened so far: the keys of the
    deliveries that reached the ledger, the jobs that were queued with their
    tickets, the jobs whose rebuild started, and the job records of the
    deliveries that were acknowledged as queued. *)
Record world := mkWorld {
  w_up : option server;
  w_ledger_fs : ledger_fs;
  w_job_fs : job_fs;
  w_reached : list string;
  w_queued : list (nat * Job);
  w_started : list Job;
  w_acked : list JobRecord
}.

Definition key_of (d : Delivery) : string := deliveryKey (A_Name (D_App d)) (D_ID d).
Definition job_key (j : Job) : string := deliveryKey (Q_AppName j) (Q_DeliveryID j).

Definition with_up (up : option server) (w : world) : world :=
  mkWorld up (w_ledger_fs w) (w_job_fs w) (w_reached w) (w_queued w) (w_started w) (w_acked w).
Definition with_ledger_fs (f : ledger_fs) (w : world) : world :=
  mkWorld (w_up w) f (w_job_fs w) (w_reached w) (w_queued w) (w_started w) (w_acked w).
Definition with_job_fs (f : job_fs) (w : world) : world :=
  mkWorld (w_up w) (w_ledger_fs w) f (w_reached w) (w_queued w) (w_started w) (w_acked w).
Definition reach (k : string) (w : world) : world :=
  mkWorld (w_up w) (w_ledger_fs w) (w_job_fs w) (w_reached w ++ [k]) (w_queued w) (w_started w) (w_acked w).
Definition note_queued (i : nat) (j : Job) (w : world) : world :=
  mkWorld (w_up w) (w_ledger_fs w) (w_job_fs w) (w_reached w) (w_queued w ++ [(i, j)]) (w_started w) (w_acked w).
Definition note_started (j : Job) (w : world) : world :=
  mkWorld (w_up w) (w_ledger_fs w) (w_job_fs w) (w_reached w) (w_queued w) (w_started w ++ [j]) (w_acked w).
Definition note_acked (r : JobRecord) (w : world) : world :=
  mkWorld (w_up w) (w_ledger_fs w) (w_job_fs w) (w_reached w) (w_queued w) (w_started w) (w_acked w ++ [r]).

(* src: internal/webhook/server.go:247-258 Server.handleWebhook *)
Definition record_for (id : string) (now : Z) (d : Delivery) : JobRecord :=
  mkJob 0 id (D_ID d) (A_ID (D_App d)) (A_Name (D_App d)) (D_Branch d) (D_Commit d) ProviderGitHub
    StatusAccepted StageQueue now 0 0 0 "" "".

(* src: internal/webhook/server.go:270-280 Server.handleWebhook *)
Definition job_for (rec : JobRecord) (now : Z) (d : Delivery) : Job :=
  mkQJob (J_ID rec) (A_ID (D_App d)) (A_Name (D_App d)) (A_Directory (D_App d)) (D_Branch d) (D_Commit d)
    (D_ID d) ProviderGitHub now.

Section Steps.
Context (lower_rune : string → string) (secrets : secretRegistry).

(** The outcome of a section: a state and a reply, or the handler goes on. *)
Definition outcome : Type := world * option Response.

Definition resp (status : Z) (accepted queued : bool) (message : string) : option Response :=
  Some (mkResponse status accepted queued message).

Definition next (i : nat) (d : Delivery) (pc : handler_pc) (sv : server) : server :=
  mkServer (sv_ledger sv) (sv_jobs sv) (sv_queue sv) (<[i := mkHandler d pc]> (sv_handlers sv)).
Definition finished (i : nat) (sv : server) : server :=
  mkServer (sv_ledger sv) (sv_jobs sv) (sv_queue sv) (delete i (sv_handlers sv)).
Definition set_ledger (l : DeliveryLedger) (sv : server) : server :=
  mkServer l (sv_jobs sv) (sv_queue sv) (sv_handlers sv).
Definition set_jobs (s : JobStore) (sv : server) : server :=
  mkServer (sv_ledger sv) s (sv_queue sv) (sv_handlers sv).
Definition set_queue (q : Queue) (sv : server) : server :=
  mkServer (sv_ledger sv) (sv_jobs sv) q (sv_handlers sv).

(** The delivery reaches the ledger. *)
(* src: internal/webhook/server.go:222-233 Server.handleWebhook *)
Definition do_record (ev : call_env) (d : Delivery) (sv : server) (w : world) : outcome :=
  let '(r, l, f) := SeenOrRecord (c_faults ev) (c_pid ev) (c_now ev) (A_Name (D_App d)) (D_ID d) (D_Branch d)
                      (D_Commit d) ProviderGitHub (sv_ledger sv) (w_ledger_fs w) in
  let sv := set_ledger l sv in
  let w := with_ledger_fs f w in
  match r with
  | Err _ => (with_up (Some sv) (reach (key_of d) w), resp 500 false false "webhook unavailable")
  | Ok true => (with_up (Some sv) w, resp 200 true false "delivery already processed")
  | Ok false =>
      let i := length (w_reached w) in
      (with_up (Some (next i d ToCreate sv)) (reach (key_of d) w), None)
  end.

(** One section of the handler with ticket [i]; [None]: the process dies. *)
(* src: internal/webhook/server.go:247-308 Server.handleWebhook *)
Definition do_section (ev : call_env) (rnd : option (list Byte.byte)) (nano : Z) (i : nat) (h : handler)
    (sv : server) (w : world) : option outcome :=
  let d := h_delivery h in
  match h_pc h with
  | ToCreate =>
      let rec := record_for (NewJobID rnd nano) (c_now ev) d in
      let '(r, s, f) := Create ev rnd nano rec (sv_jobs sv) (w_job_fs w) in
      let sv := set_jobs s sv in
      let w := with_job_fs f w in
      match r with
      | Err _ => Some (with_up (Some (next i d ToForget sv)) w, None)
      | Ok rec => Some (with_up (Some (next i d (ToEnqueue rec) sv)) w, None)
      end
  | ToForget =>
      let '(_, l, f) := Remove (c_faults ev) (c_pid ev) (A_Name (D_App d)) (D_ID d) (sv_ledger sv) (w_ledger_fs w) in
      Some (with_up (Some (finished i (set_ledger l sv))) (with_ledger_fs f w),
            resp 500 false false "webhook unavailable")
  | ToEnqueue rec =>
      let job := job_for rec (c_now ev) d in
      let '(r, q) := Enqueue job (sv_queue sv) in
      let sv := set_queue q sv in
      match r with
      | Err e => Some (with_up (Some (next i d (ToForgetFull rec e) sv)) w, None)
      | Ok _ => Some (with_up (Some (next i d (ToMarkQueued rec) sv)) (note_queued i job w), None)
      end
  | ToForgetFull rec e =>
      let '(_, l, f) := Remove (c_faults ev) (c_pid ev) (A_Name (D_App d)) (D_ID d) (sv_ledger sv) (w_ledger_fs w) in
      Some (with_up (Some (next i d (ToFail rec e) (set_ledger l sv))) (with_ledger_fs f w), None)
  | ToFail rec e =>
      '(_, s, f) ← MarkFailed lower_rune secrets ev (J_ID rec) JobErrQueue (Error e) (sv_jobs sv) (w_job_fs w);
      Some (with_up (Some (finished i (set_jobs s sv))) (with_job_fs f w),
            resp 503 false false "webhook queue unavailable")
  | ToMarkQueued rec =>
      '(_, s, f) ← MarkQueued ev (J_ID rec) (sv_jobs sv) (w_job_fs w);
      Some (with_up (Some (finished i (set_jobs s sv))) (note_acked rec (with_job_fs f w)),
            resp 200 true true "webhook accepted")
  end.

(** ** Interleavings *)

(** A request is answered before more deliveries than the capacity of the
    ledger have arrived after it. *)
Definition in_time (i : nat) (sv : server) (w : world) : Prop :=
  (length (w_reached w) ≤ i + DL_max (sv_ledger sv))%nat.

Definition named (d : Delivery) : Prop := A_Name (D_App d) ≠ "" ∧ D_ID d ≠ "".

Inductive label :=
| LArrive (ev : call_env) (d : Delivery)
| LSection (ev : call_env) (i : nat)
| LWorker (app : string) (wl : worker_label)
| LJobs (ev : call_env) (op : job_op)
| LClose
| LCrash
| LStart.

(** What is on disk when the process stops in the middle of a section. *)
Definition section_crash (ev : call_env) (rnd : option (list Byte.byte)) (nano : Z) (h : handler)
    (sv : server) (w : world) (lf : ledger_fs) (jf : job_fs) : Prop :=
  let d := h_delivery h in
  match h_pc h with
  | ToCreate => lf = w_ledger_fs w ∧
      jf ∈ op_crash lower_rune secrets ev (OpCreate rnd nano (record_for (NewJobID rnd nano) (c_now ev) d))
             (sv_jobs sv) (w_job_fs w)
  | ToForget | ToForgetFull _ _ => jf = w_job_fs w ∧
      lf ∈ Remove_crash (c_faults ev) (c_pid ev) (A_Name (D_App d)) (D_ID d) (sv_ledger sv) (w_ledger_fs w)
  | ToEnqueue _ => lf = w_ledger_fs w ∧ jf = w_job_fs w
  | ToFail rec e => lf = w_ledger_fs w ∧
      jf ∈ op_crash lower_rune secrets ev (OpFailed (J_ID rec) JobErrQueue (Error e)) (sv_jobs sv) (w_job_fs w)
  | ToMarkQueued rec => lf = w_ledger_fs w ∧
      jf ∈ op_crash lower_rune secrets ev (OpQueued (J_ID rec)) (sv_jobs sv) (w_job_fs w)
  end.

Definition apply_label (wl : worker_label) (w : world) : world :=
  match wl with WStart job => note_started job w | _ => w end.

Context (path : string) (capacity : nat) (dir : string) (max : Z).

(* src: internal/webhook/server.go:222-308 Server.handleWebhook *)
Inductive world_step : world → label → world → Prop :=
| st_arrive ev d sv w w' r :
    w_up w = Some sv → named d → do_record ev d sv w = (w', r) →
    world_step w (LArrive ev d) w'
| st_section ev rnd nano i h sv w w' r :
    w_up w = Some sv → sv_handlers sv !! i = Some h → in_time i sv w → c_now ev ≠ 0 →
    do_section ev rnd nano i h sv w = Some (w', r) →
    world_step w (LSection ev i) w'
| st_worker app wk wl wk' sv w :
    w_up w = Some sv → q_workers (sv_queue sv) !! app = Some wk → worker_step wk wl wk' →
    world_step w (LWorker app wl)
      (apply_label wl (with_up (Some (set_queue (mkQueue (<[app := wk']> (q_workers (sv_queue sv)))
                                                   (q_closed (sv_queue sv))) sv)) w))
| st_jobs ev op sv w r s f :
    w_up w = Some sv → well_called ev op →
    do_op lower_rune secrets ev op (sv_jobs sv) (w_job_fs w) = Some (r, s, f) →
    world_step w (LJobs ev op) (with_up (Some (set_jobs s sv)) (with_job_fs f w))
| st_close sv w :
    w_up w = Some sv → world_step w LClose (with_up (Some (set_queue (Close (sv_queue sv)) sv)) w)
| st_crash w : world_step w LCrash (with_up None w)
| st_crash_record ev d sv w f :
    w_up w = Some sv → named d →
    f ∈ SeenOrRecord_crash (c_faults ev) (c_pid ev) (c_now ev) (A_Name (D_App d)) (D_ID d) (D_Branch d)
          (D_Commit d) ProviderGitHub (sv_ledger sv) (w_ledger_fs w) →
    world_step w LCrash (with_up None (with_ledger_fs f (reach (key_of d) w)))
| st_crash_section ev rnd nano i h sv w lf jf :
    w_up w = Some sv → sv_handlers sv !! i = Some h → in_time i sv w → c_now ev ≠ 0 →
    section_crash ev rnd nano h sv w lf jf →
    world_step w LCrash (with_up None (with_ledger_fs lf (with_job_fs jf w)))
| st_crash_jobs ev op sv w f :
    w_up w = Some sv → well_called ev op → f ∈ op_crash lower_rune secrets ev op (sv_jobs sv) (w_job_fs w) →
    world_step w LCrash (with_up None (with_job_fs f w))
| st_start lfl jfl unix l s f w :
    w_up w = None → jfl op_read = None →
    Initialize lfl (NewDeliveryLedger path capacity) (w_ledger_fs w) = (Ok tt, l) →
    Load jfl unix (NewJobStore dir max) (w_job_fs w) = (Ok tt, s, f) →
    world_step w LStart (with_up (Some (mkServer l s NewQueue ∅)) (with_job_fs f w)).
End Steps.

(** ** The jobs of the queue *)

Definition waiting (m : gmap string appWorker) : list Job := concat (w_jobs <$> (map_to_list m).*2).

Lemma waiting_insert m app wk :
  waiting (<[app := wk]> m) ≡ₚ w_jobs wk ++ waiting (delete app m).
Proof.
  unfold waiting. rewrite <- insert_delete_eq, map_to_list_insert by apply lookup_delete_eq. done.
Qed.

Lemma waiting_lookup m app wk :
  m !! app = Some wk → waiting m ≡ₚ w_jobs wk ++ waiting (delete app m).
Proof. intros H. rewrite <- (insert_id m app wk H) at 1. apply waiting_insert. Qed.

Lemma waiting_fmap (f : appWorker → appWorker) m :
  (∀ w, w_jobs (f w) = w_jobs w) → waiting (f <$> m) ≡ₚ waiting m.
Proof.
  intros Hf. unfold waiting. rewrite map_to_list_fmap, <- !list_fmap_compose.
  erewrite list_fmap_ext; [reflexivity|]. intros i [k w] _. simpl. apply Hf.
Qed.

Lemma Enqueue_waiting job q r q' :
  Enqueue job q = (r, q') →
  waiting (q_workers q') ≡ₚ match r with Ok _ => waiting (q_workers q) ++ [job] | Err _ => waiting (q_workers q) end.
Proof.
  unfold Enqueue. destruct (q_closed q); [by intros [= <- <-]|].
  destruct (q_workers q !! Q_AppName job) as [w|] eqn:Ew; simpl.
  - destruct (Nat.ltb _ _); intros [= <- <-]; simpl; rewrite waiting_insert, (waiting_lookup _ _ _ Ew); simpl.
    + rewrite <- app_assoc, <- app_assoc. by rewrite (Permutation_app_comm _ [job]).
    + done.
  - intros [= <- <-]. simpl. rewrite waiting_insert, delete_id by done. simpl.
    by rewrite Permutation_app_comm.
Qed.

Lemma Close_waiting q : waiting (q_workers (Close q)) ≡ₚ waiting (q_workers q).
Proof. unfold Close. destruct (q_closed q); [done|]. simpl. by apply waiting_fmap. Qed.

(** A step of a worker moves the jobs it starts or drops out of the queue. *)
Lemma worker_waiting wk wl wk' m app :
  worker_step wk wl wk' → m !! app = Some wk →
  waiting m ≡ₚ match wl with WStart j | WDrop j => [j] | _ => [] end ++ waiting (<[app := wk']> m).
Proof.
  intros Hs Hm. rewrite (waiting_lookup _ _ _ Hm), waiting_insert. by destruct Hs.
Qed.

(** ** Tickets *)

Definition pending (pc : handler_pc) : bool :=
  match pc with ToFail _ _ | ToMarkQueued _ => false | _ => true end.

(** Who answers for the delivery with ticket [i]: the handler that has not
    decided yet, or the job that was queued. *)
Definition claim (w : world) (i : nat) (k : string) : Prop :=
  (∃ sv h, w_up w = Some sv ∧ sv_handlers sv !! i = Some h ∧ pending (h_pc h) = true ∧ key_of (h_delivery h) = k) ∨
  (∃ j, (i, j) ∈ w_queued w ∧ job_key j = k).

Section Invariant.
Context (path : string) (capacity : nat).

(** [order]: the keys in the ledger file; [n]: how many deliveries reached the
    ledger. *)
Definition remembered (order : list string) (n i : nat) (k : string) : Prop :=
  (i < n)%nat ∧ ((n ≤ i + capacity)%nat → near_end (n - 1 - i) k order).

Record tickets_ok (w : world) : Prop := {
  t_claim i k : claim w i k → remembered (file_keys path (w_ledger_fs w)) (length (w_reached w)) i k;
  t_apart i j k : claim w i k → claim w j k → (i < j)%nat → (i + capacity < j)%nat;
  t_nodup : NoDup (w_queued w).*1;
  t_fresh sv i h : w_up w = Some sv → sv_handlers sv !! i = Some h → pending (h_pc h) = true →
    i ∉ (w_queued w).*1;
  t_handler sv i h : w_up w = Some sv → sv_handlers sv !! i = Some h →
    (i < length (w_reached w))%nat ∧ named (h_delivery h)
}.

Record ledger_ok (w : world) : Prop := {
  l_file : ∃ l0, DL_path l0 = path ∧ holds (w_ledger_fs w) l0;
  l_up sv : w_up w = Some sv →
    sound (sv_ledger sv) (w_ledger_fs w) ∧ DL_path (sv_ledger sv) = path ∧ DL_max (sv_ledger sv) = capacity
}.

Definition queue_ok (w : world) : Prop :=
  w_started w ++ (match w_up w with Some sv => waiting (q_workers (sv_queue sv)) | None => [] end) ⊆+ (w_queued w).*2.

(** A state with fewer claims, the same deliveries and a file that still
    remembers them. *)
Lemma tickets_mono w w' :
  tickets_ok w →
  w_reached w' = w_reached w → w_queued w' = w_queued w →
  (∀ i k, claim w' i k → claim w i k) →
  (∀ i k, claim w' i k → (length (w_reached w) ≤ i + capacity)%nat →
     near_end (length (w_reached w) - 1 - i) k (file_keys path (w_ledger_fs w)) →
     near_end (length (w_reached w) - 1 - i) k (file_keys path (w_ledger_fs w'))) →
  (∀ sv i h, w_up w' = Some sv → sv_handlers sv !! i = Some h →
     (i < length (w_reached w))%nat ∧ named (h_delivery h) ∧
     (pending (h_pc h) = true → i ∉ (w_queued w).*1)) →
  tickets_ok w'.
Proof.
  intros [Hc Ha Hnd Hf Hh] Hr Hq Hsub Hfile Hhand. split; rewrite ?Hr, ?Hq.
  - intros i k Hi. destruct (Hc i k (Hsub _ _ Hi)) as [H1 H2]. split; [done|]. intros Hn. by apply Hfile, H2.
  - intros i j k Hi Hj. apply (Ha i j k); by apply Hsub.
  - done.
  - intros sv i h Hup Hi Hp. by destruct (Hhand sv i h Hup Hi) as (_ & _ & ?); auto.
  - intros sv i h Hup Hi. by destruct (Hhand sv i h Hup Hi) as (? & ? & _).
Qed.

(** A new delivery: every other claim on the same key is out of the window. *)
Lemma tickets_reach w w' k :
  (0 < capacity)%nat →
  tickets_ok w →
  w_reached w' = w_reached w ++ [k] → w_queued w' = w_queued w →
  let n := length (w_reached w) in
  let order := file_keys path (w_ledger_fs w) in
  let order' := file_keys path (w_ledger_fs w') in
  (∀ i q, claim w' i q → claim w i q ∨ (i = n ∧ q = k ∧ (k ∉ order) ∧ order' = pushed capacity k order)) →
  order' = order ∨ order' = pushed capacity k order →
  (∀ sv i h, w_up w' = Some sv → sv_handlers sv !! i = Some h →
     (i < S n)%nat ∧ named (h_delivery h) ∧ (pending (h_pc h) = true → i ∉ (w_queued w).*1)) →
  tickets_ok w'.
Proof.
  intros Hcap [Hc Ha Hnd Hf Hh] Hr Hq n order order' Hsub Hord Hhand.
  assert (∀ i q, claim w i q → (S n ≤ i + capacity)%nat → near_end (S n - 1 - i) q order') as Hold.
  { intros i q Hi Hn. destruct (Hc i q Hi) as [Hlt Hne]. fold n order in Hlt, Hne.
    specialize (Hne ltac:(lia)). replace (S n - 1 - i)%nat with (S (n - 1 - i)) by lia.
    destruct Hord as [Ho|Ho]; rewrite Ho; [by eapply near_end_weaken; [|exact Hne]; lia|].
    unfold pushed. apply near_end_record; [lia|done]. }
  assert (∀ i q, claim w i q → q = k → k ∉ order → (i + capacity < n)%nat) as Hfar.
  { intros i q Hi -> Hk. destruct (Hc i k Hi) as [Hlt Hne]. fold n order in Hlt, Hne.
    destruct (decide (n ≤ i + capacity)%nat); [|lia]. by destruct Hk; eapply near_end_elem, Hne. }
  assert (length (w_reached w') = S n) as Hn' by (rewrite Hr, length_app; simpl; lia).
  split; rewrite ?Hn', ?Hq.
  - intros i q Hi. destruct (Hsub i q Hi) as [Hi'|(-> & -> & Hk & Ho)].
    + destruct (Hc i q Hi') as [Hlt _]. fold n in Hlt. split; [lia|]. intros Hw. by apply Hold.
    + split; [lia|]. intros _. fold order'. rewrite Ho.
      replace (S n - 1 - n)%nat with 0%nat by lia. by apply near_end_new.
  - intros i j q Hi Hj Hij. destruct (Hsub j q Hj) as [Hj'|(-> & -> & Hk & _)].
    + destruct (Hsub i q Hi) as [Hi'|(-> & _)]; [by eapply Ha|].
      destruct (Hc j q Hj') as [Hlt _]. fold n in Hlt. lia.
    + destruct (Hsub i k Hi) as [Hi'|(-> & _)]; [by eapply Hfar|lia].
  - done.
  - intros sv i h Hup Hi Hp. by destruct (Hhand sv i h Hup Hi) as (_ & _ & ?); auto.
  - intros sv i h Hup Hi. by destruct (Hhand sv i h Hup Hi) as (? & ? & _).
Qed.

Lemma claim_up w sv i k : w_up w = Some sv →
  claim w i k ↔ (∃ h, sv_handlers sv !! i = Some h ∧ pending (h_pc h) = true ∧ key_of (h_delivery h) = k) ∨
                (∃ j, (i, j) ∈ w_queued w ∧ job_key j = k).
Proof.
  intros Hup. unfold claim. rewrite Hup. split; (intros [H|H]; [left|by right]).
  - destruct H as (sv' & h & [= <-] & ?). by exists h.
  - destruct H as (h & ?). by exists sv, h.
Qed.

(** A handler that takes its own delivery back removes nothing that another
    claim in the window needs. *)
Lemma tickets_forget w w' i k :
  tickets_ok w → claim w i k → (length (w_reached w) ≤ i + capacity)%nat →
  w_reached w' = w_reached w → w_queued w' = w_queued w →
  (∀ j q, claim w' j q → claim w j q ∧ j ≠ i) →
  (file_keys path (w_ledger_fs w') = file_keys path (w_ledger_fs w) ∨
   file_keys path (w_ledger_fs w') = removed k (file_keys path (w_ledger_fs w))) →
  (∀ sv j h, w_up w' = Some sv → sv_handlers sv !! j = Some h →
     (j < length (w_reached w))%nat ∧ named (h_delivery h) ∧ (pending (h_pc h) = true → j ∉ (w_queued w).*1)) →
  tickets_ok w'.
Proof.
  intros Hok Hi Hin Hr Hq Hsub Hord Hhand. eapply tickets_mono; [exact Hok|done|done|by intros j q [? _]%Hsub| |done].
  intros j q Hj Hw Hne. destruct Hord as [-> | ->]; [done|].
  destruct (Hsub j q Hj) as [Hj' Hji]. apply near_end_remove; [|done]. intros ->.
  destruct (t_claim _ Hok i k Hi) as [Hlt _]. destruct (t_claim _ Hok j k Hj') as [Hlt' _].
  destruct (Nat.lt_total i j) as [Hc|[Hc|Hc]]; [|done|].
  - pose proof (t_apart _ Hok i j k Hi Hj' Hc). lia.
  - pose proof (t_apart _ Hok j i k Hj' Hi Hc). lia.
Qed.
End Invariant.

(** ** Every step keeps the invariants *)

Section Preservation.
Context (lower_rune : string → string) (secrets : secretRegistry).
Context (path : string) (capacity : nat) (Hcap : (0 < capacity)%nat) (dir : string) (max : Z).

Record world_ok (w : world) : Prop := {
  wo_tickets : tickets_ok path capacity w;
  wo_ledger : ledger_ok path capacity w;
  wo_queue : queue_ok w;
  wo_dir : dir_ok (w_job_fs w);
  wo_jobs sv : w_up w = Some sv → consistent (sv_jobs sv) (w_job_fs w)
}.

(** The handlers of a state that still has its ticket. *)
Lemma handlers_ok w : world_ok w → ∀ sv j h, w_up w = Some sv → sv_handlers sv !! j = Some h →
  (j < length (w_reached w))%nat ∧ named (h_delivery h) ∧ (pending (h_pc h) = true → j ∉ (w_queued w).*1).
Proof.
  intros Hok sv j h Hup Hj. destruct (t_handler _ _ _ (wo_tickets _ Hok) sv j h Hup Hj).
  split; [done|]. split; [done|]. by eapply t_fresh, Hj; [exact (wo_tickets _ Hok)|].
Qed.

(** Losing the process loses its handlers and the jobs that wait. *)
Lemma tickets_down w f : world_ok w →
  (file_keys path f = file_keys path (w_ledger_fs w)) →
  ∀ jf, tickets_ok path capacity (with_up None (with_ledger_fs f (with_job_fs jf w))).
Proof.
  intros Hok Hf jf. eapply tickets_mono; [exact (wo_tickets _ Hok)|done|done| | |done].
  - intros i k [(sv & h & [=] & _)|H]. by right.
  - intros i k _ _. simpl. by rewrite Hf.
Qed.

Lemma queue_down w w' : queue_ok w → w_up w' = None → w_started w' = w_started w → w_queued w' = w_queued w → queue_ok w'.
Proof.
  unfold queue_ok. intros H -> -> ->. etransitivity; [|exact H]. rewrite app_nil_r. by apply submseteq_inserts_r.
Qed.

Lemma crash_ok w f jf :
  world_ok w → (∃ l0, DL_path l0 = path ∧ holds f l0) → dir_ok jf →
  tickets_ok path capacity (with_up None (with_ledger_fs f (with_job_fs jf w))) →
  world_ok (with_up None (with_ledger_fs f (with_job_fs jf w))).
Proof.
  intros Hok Hf Hd Ht. split; [done|by split|apply (queue_down w); [apply Hok|done..]|done|done].
Qed.

(** The claims of a state that is written out. *)
Local Ltac claims_in H := eapply claim_up in H; [|reflexivity]; cbn in H.

Lemma queue_same w w' sv sv' :
  queue_ok w → w_up w = Some sv → w_up w' = Some sv' →
  w_started w' = w_started w → w_queued w' = w_queued w →
  waiting (q_workers (sv_queue sv')) ≡ₚ waiting (q_workers (sv_queue sv)) → queue_ok w'.
Proof. unfold queue_ok. intros H Hup Hup' -> -> Hw. rewrite Hup', Hw. by rewrite Hup in H. Qed.

Lemma record_ok ev d sv w w' r :
  world_ok w → w_up w = Some sv → named d → do_record ev d sv w = (w', r) →
  world_ok w' ∧ w_job_fs w' = w_job_fs w ∧ w_acked w' = w_acked w.
Proof.
  intros Hok Hup [Hn1 Hn2]. unfold do_record.
  destruct (l_up _ _ _ (wo_ledger _ Hok) sv Hup) as (Hs & Hp & Hm).
  destruct (SeenOrRecord _ _ _ _ _ _ _ _ _ _) as [[res l] f] eqn:Er.
  apply (SeenOrRecord_spec _ _ _ _ _ Hn1 Hn2 _ _ Hs) in Er as (Hs' & Hp' & Hm' & Hcase).
  rewrite Hp in Hcase, Hp'. rewrite Hm in Hcase, Hm'.
  assert (∃ l0, DL_path l0 = path ∧ holds f l0) as Hfile.
  { destruct (sound_file _ _ Hs') as (l0 & Hl0 & ?). exists l0. by rewrite Hl0. }
  pose proof (handlers_ok _ Hok) as Hhand.
  destruct res as [[|]|e]; intros [= <- <-]; (split; [|by split]).
  - destruct Hcase as [-> _]. split; [|split; [done|by intros ? [= <-]]| |apply Hok|].
    + eapply tickets_mono; [exact (wo_tickets _ Hok)|done|done| |done|].
      * intros i k Hi. apply (claim_up w sv i k Hup). claims_in Hi. exact Hi.
      * intros sv' i h [= <-] Hi. by eapply Hhand.
    + by eapply queue_same; [apply Hok|exact Hup|..].
    + intros ? [= <-]. exact (wo_jobs _ Hok sv Hup).
  - destruct Hcase as (Hav & Hk & Hf). split; [|split; [done|by intros ? [= <-]]| |apply Hok|].
    + eapply (tickets_reach path capacity w _ (key_of d)); [done|exact (wo_tickets _ Hok)|done|done| |by right|].
      * intros i k Hi. rewrite (claim_up w sv i k Hup). claims_in Hi.
        destruct Hi as [(h & Hi & Hpd & Hkey)|H]; [|left; right; exact H]. destruct (decide (i = length (w_reached w))) as [->|Hne].
        -- rewrite lookup_insert_eq in Hi. injection Hi as <-. simpl in Hkey. subst k. by right.
        -- rewrite lookup_insert_ne in Hi by done. left. left. by exists h.
      * intros sv' i h [= <-] Hi. simpl in Hi. destruct (decide (i = length (w_reached w))) as [->|Hne].
        -- rewrite lookup_insert_eq in Hi. injection Hi as <-. split; [simpl; lia|]. split; [done|]. intros _ Hin.
           apply list_elem_of_fmap in Hin as ([i' j] & Heq & Hin). simpl in Heq. subst i'.
           destruct (t_claim _ _ _ (wo_tickets _ Hok) (length (w_reached w)) (job_key j)) as [Hlt _]; [|lia].
           right. by exists j.
        -- rewrite lookup_insert_ne in Hi by done. destruct (Hhand sv i h Hup Hi) as (? & ? & ?). split; [lia|done].
    + by eapply queue_same; [apply Hok|exact Hup|..].
    + intros ? [= <-]. exact (wo_jobs _ Hok sv Hup).
  - destruct Hcase as (Hav & Hf). split; [|split; [done|by intros ? [= <-]]| |apply Hok|].
    + eapply (tickets_reach path capacity w _ (key_of d)); [done|exact (wo_tickets _ Hok)|done|done| |naive_solver|].
      * intros i k Hi. left. apply (claim_up w sv i k Hup). claims_in Hi. exact Hi.
      * intros sv' i h [= <-] Hi. destruct (Hhand sv i h Hup Hi) as (? & ? & ?). split; [lia|done].
    + by eapply queue_same; [apply Hok|exact Hup|..].
    + intros ? [= <-]. exact (wo_jobs _ Hok sv Hup).
Qed.

(** A step that leaves the ledger alone and gives no handler a new claim. *)
Lemma move_ok w w' sv sv' :
  world_ok w → w_up w = Some sv → w_up w' = Some sv' →
  w_reached w' = w_reached w → w_queued w' = w_queued w → w_ledger_fs w' = w_ledger_fs w →
  sv_ledger sv' = sv_ledger sv →
  (∀ j h, sv_handlers sv' !! j = Some h → ∃ h0, sv_handlers sv !! j = Some h0 ∧
     h_delivery h = h_delivery h0 ∧ (pending (h_pc h) = true → pending (h_pc h0) = true)) →
  consistent (sv_jobs sv') (w_job_fs w') → queue_ok w' →
  world_ok w'.
Proof.
  intros Hok Hup Hup' Hr Hq Hf Hl Hh Hc Hqok.
  assert (ledger_ok path capacity w') as Hlok.
  { split; rewrite Hf; [apply Hok|]. intros ? Hx. rewrite Hup' in Hx. injection Hx as <-. rewrite Hl.
    by apply (wo_ledger _ Hok). }
  split; [|done|done|apply Hc|intros ? Hx; rewrite Hup' in Hx; by injection Hx as <-].
  eapply tickets_mono; [exact (wo_tickets _ Hok)|done|done| |by rewrite Hf|].
  - intros i k Hi. apply (claim_up w sv i k Hup). apply (claim_up w' sv' i k Hup') in Hi. rewrite Hq in Hi.
    destruct Hi as [(h & Hi & Hpd & Hkey)|?]; [|by right]. left.
    destruct (Hh i h Hi) as (h0 & H0 & Hd & Hp0). exists h0. split; [done|]. split; [by apply Hp0|].
    by rewrite <- Hd.
  - intros sv0 i h Hx Hi. rewrite Hup' in Hx. injection Hx as <-. destruct (Hh i h Hi) as (h0 & H0 & Hd & Hp0).
    destruct (handlers_ok w Hok sv i h0 Hup H0) as (? & ? & Hfr). rewrite Hd. split; [done|]. split; [done|]. auto.
Qed.

(** The handlers after a step of one of them. *)
Lemma next_handlers (m : gmap nat handler) i h pc :
  m !! i = Some h → (pending pc = true → pending (h_pc h) = true) →
  ∀ j h', <[i := mkHandler (h_delivery h) pc]> m !! j = Some h' →
  ∃ h0, m !! j = Some h0 ∧ h_delivery h' = h_delivery h0 ∧ (pending (h_pc h') = true → pending (h_pc h0) = true).
Proof.
  intros Hi Hp j h' [[<- <-]|[_ Hj]]%lookup_insert_Some; [by exists h|by exists h'].
Qed.

Lemma delete_handlers (m : gmap nat handler) i :
  ∀ j h', delete i m !! j = Some h' →
  ∃ h0, m !! j = Some h0 ∧ h_delivery h' = h_delivery h0 ∧ (pending (h_pc h') = true → pending (h_pc h0) = true).
Proof. intros j h' [_ Hj]%lookup_delete_Some. by exists h'. Qed.

(** The handler takes its delivery back, and has no claim afterwards. *)
Lemma forget_ok ev i h sv w hs res l f :
  world_ok w → w_up w = Some sv → sv_handlers sv !! i = Some h → in_time i sv w →
  pending (h_pc h) = true →
  Remove (c_faults ev) (c_pid ev) (A_Name (D_App (h_delivery h))) (D_ID (h_delivery h))
    (sv_ledger sv) (w_ledger_fs w) = (res, l, f) →
  (∀ j h', hs !! j = Some h' → (j = i → pending (h_pc h') = false) ∧
     ∃ h0, sv_handlers sv !! j = Some h0 ∧ h_delivery h' = h_delivery h0 ∧
       (pending (h_pc h') = true → pending (h_pc h0) = true)) →
  world_ok (with_up (Some (mkServer l (sv_jobs sv) (sv_queue sv) hs)) (with_ledger_fs f w)).
Proof.
  intros Hok Hup Hi Hin Hpd Hrm Hhs.
  destruct (l_up _ _ _ (wo_ledger _ Hok) sv Hup) as (Hs & Hp & Hm).
  apply (Remove_spec _ _ _ _ _ _ Hs) in Hrm as (Hs' & Hp' & Hm' & Hkeys & _).
  rewrite Hp in Hp', Hkeys. rewrite Hm in Hm'.
  split; [|split; [|by intros ? [= <-]]|by eapply queue_same; [apply Hok|exact Hup|..]|apply Hok|
           intros ? [= <-]; exact (wo_jobs _ Hok sv Hup)].
  2: { destruct (sound_file _ _ Hs') as (l0 & Hl0 & ?). exists l0. by rewrite Hl0. }
  unfold in_time in Hin. rewrite Hm in Hin.
  eapply (tickets_forget path capacity w _ i (key_of (h_delivery h)) (wo_tickets _ Hok)); [|done|done|done| |done|].
  - apply (claim_up w sv _ _ Hup). left. by exists h.
  - intros j q Hj. claims_in Hj. rewrite (claim_up w sv _ _ Hup). destruct Hj as [(h' & Hj & Hpj & Hkey)|(x & Hx & Hkey)].
    + destruct (Hhs j h' Hj) as [Hji (h0 & H0 & Hd & Hp0)]. split.
      * left. exists h0. split; [done|]. split; [by apply Hp0|by rewrite <- Hd].
      * intros Heq. rewrite Hji in Hpj; congruence.
    + split; [right; by exists x|]. intros ->. eapply (t_fresh _ _ _ (wo_tickets _ Hok) sv i h); [done..|].
      apply list_elem_of_fmap. by exists (i, x).
  - intros sv0 j h' [= <-] Hj. destruct (Hhs j h' Hj) as [_ (h0 & H0 & Hd & Hp0)].
    destruct (handlers_ok w Hok sv j h0 Hup H0) as (? & ? & Hfr). rewrite Hd. split; [done|]. split; [done|]. auto.
Qed.

(** The job of a handler is queued: its claim passes to the queue. *)
Lemma enqueue_ok i h rec now q sv w :
  world_ok w → w_up w = Some sv → sv_handlers sv !! i = Some h → pending (h_pc h) = true →
  Enqueue (job_for rec now (h_delivery h)) (sv_queue sv) = (Ok tt, q) →
  world_ok (with_up (Some (next i (h_delivery h) (ToMarkQueued rec) (set_queue q sv)))
              (note_queued i (job_for rec now (h_delivery h)) w)).
Proof.
  intros Hok Hup Hi Hpd He. set (job := job_for _ _ _) in *.
  assert (job_key job = key_of (h_delivery h)) as Hkey by done.
  split; [|split; [apply Hok|intros ? [= <-]; exact (l_up _ _ _ (wo_ledger _ Hok) sv Hup)]| |apply Hok|intros ? [= <-]; exact (wo_jobs _ Hok sv Hup)].
  - assert (∀ j k, claim (with_up (Some (next i (h_delivery h) (ToMarkQueued rec) (set_queue q sv)))
              (note_queued i job w)) j k → claim w j k) as Hsub.
    { intros j k Hj. claims_in Hj. rewrite (claim_up w sv _ _ Hup). destruct Hj as [(h' & Hj & Hpj & Hk)|(x & Hx & Hk)].
      - apply lookup_insert_Some in Hj as [[<- <-]|[_ Hj]]; [done|]. left. by exists h'.
      - apply elem_of_app in Hx as [Hx|[= -> ->]%list_elem_of_singleton]; [right; by exists x|].
        left. exists h. by rewrite <- Hk. }
    pose proof (t_fresh _ _ _ (wo_tickets _ Hok) sv i h Hup Hi Hpd) as Hni.
    destruct (wo_tickets _ Hok) as [Hc Ha Hnd Hf Hh]. split.
    + intros j k Hj. exact (Hc j k (Hsub j k Hj)).
    + intros j1 j2 k H1 H2. exact (Ha j1 j2 k (Hsub _ _ H1) (Hsub _ _ H2)).
    + simpl. rewrite fmap_app. apply NoDup_app. split; [done|]. split; [|apply NoDup_singleton].
      by intros x Hx ->%list_elem_of_singleton.
    + intros sv0 j h' [= <-] Hj Hp. simpl in Hj. apply lookup_insert_Some in Hj as [[<- <-]|[Hne Hj]]; [done|].
      simpl. rewrite fmap_app, elem_of_app. intros [Hx| ->%list_elem_of_singleton]; [by eapply Hf|done].
    + intros sv0 j h' [= <-] Hj. simpl in Hj. apply lookup_insert_Some in Hj as [[<- <-]|[Hne Hj]]; [by eapply (Hh sv i h)|by eapply Hh].
  - pose proof (wo_queue _ Hok) as Hqk. unfold queue_ok in *. rewrite Hup in Hqk. simpl.
    apply Enqueue_waiting in He. rewrite He, fmap_app, app_assoc. by apply submseteq_app.
Qed.

Lemma complete_record_for id now d : named d → now ≠ 0 → complete now (record_for id now d).
Proof. intros [? ?] ?. split; [done|]. split; [done|by left]. Qed.

Lemma mark_spec ev op s f r s' f' : consistent s f → well_called ev op →
  do_op lower_rune secrets ev op s f = Some (r, s', f') → consistent s' f' ∧ only_advances f f'.
Proof.
  intros Hc Hw Hdo.
  destruct (jobs_step_ok lower_rune secrets dir max (mkSys (Some s) f) (EvCall ev op) (mkSys (Some s') f'))
    as [[_ Hc'] Ha].
  - by eapply step_call.
  - split; [apply Hc|by intros ? [= <-]].
  - split; [by apply Hc'|done].
Qed.

Lemma mark_crash ev op s f f' : consistent s f → well_called ev op →
  f' ∈ op_crash lower_rune secrets ev op s f → dir_ok f' ∧ only_advances f f'.
Proof.
  intros Hc Hw Hdo.
  destruct (jobs_step_ok lower_rune secrets dir max (mkSys (Some s) f) (EvCrash ev op) (mkSys None f'))
    as [[Hd _] Ha].
  - by eapply step_crash.
  - split; [apply Hc|by intros ? [= <-]].
  - by split.
Qed.

Lemma section_ok ev rnd nano i h sv w w' r :
  world_ok w → w_up w = Some sv → sv_handlers sv !! i = Some h → in_time i sv w → c_now ev ≠ 0 →
  do_section lower_rune secrets ev rnd nano i h sv w = Some (w', r) →
  world_ok w' ∧ only_advances (w_job_fs w) (w_job_fs w').
Proof.
  intros Hok Hup Hi Hin Hnow. pose proof (wo_jobs _ Hok sv Hup) as Hc.
  destruct (handlers_ok w Hok sv i h Hup Hi) as (_ & Hnamed & _).
  assert (∀ w1, w_job_fs w1 = w_job_fs w → only_advances (w_job_fs w) (w_job_fs w1)) as Hsame.
  { intros w1 ->. by apply kept_advances. }
  unfold do_section. destruct h as [d pc]. cbn [h_delivery h_pc] in *. destruct pc as [| |rec|rec e|rec e|rec].
  - destruct (Create _ _ _ _ _ _) as [[res s] f] eqn:Ec.
    apply (Create_spec _ _ _ _ (complete_record_for _ _ d Hnamed Hnow) _ _ Hc) in Ec as (Hc' & Hpr & _).
    destruct res as [rec|e]; intros [= <- <-]; (split; [|by apply pruned_advances]);
      (eapply (move_ok w _ sv); [done|done|done|done|done|done|done| |done|by eapply queue_same; [apply Hok|exact Hup|..]]);
      by apply (next_handlers _ _ _ _ Hi).
  - destruct (Remove _ _ _ _ _ _) as [[res l] f] eqn:Er. intros [= <- <-]. split; [|by apply Hsame].
    eapply (forget_ok ev i _ sv w _ res l f Hok Hup Hi Hin eq_refl Er).
    intros j h' Hj. split; [|by eapply delete_handlers].
    intros ->. by rewrite lookup_delete_eq in Hj.
  - destruct (Enqueue _ _) as [res q] eqn:Ee. destruct res as [[]|e]; intros [= <- <-]; (split; [|by apply Hsame]).
    + by eapply (enqueue_ok i (mkHandler d (ToEnqueue rec))).
    + eapply (move_ok w _ sv); [done|done|done|done|done|done|done|by apply (next_handlers _ _ _ _ Hi)|done|].
      apply Enqueue_waiting in Ee. by eapply queue_same; [apply Hok|exact Hup|..].
  - destruct (Remove _ _ _ _ _ _) as [[res l] f] eqn:Er. intros [= <- <-]. split; [|by apply Hsame].
    eapply (forget_ok ev i _ sv w _ res l f Hok Hup Hi Hin eq_refl Er).
    intros j h' Hj. split; [|by eapply (next_handlers _ i _ (ToFail rec e)); [exact Hi|done|exact Hj]].
    intros ->. simpl in Hj. rewrite lookup_insert_eq in Hj. by injection Hj as <-.
  - intros ([[res s] f] & Hm & [= <- <-])%bind_Some.
    destruct (mark_spec ev (OpFailed (J_ID rec) JobErrQueue (Error e)) _ _ _ _ _ Hc I Hm) as [Hc' Ha].
    split; [|done].
    eapply (move_ok w _ sv); [done|done|done|done|done|done|done|by apply delete_handlers|done|].
    by eapply queue_same; [apply Hok|exact Hup|..].
  - intros ([[res s] f] & Hm & [= <- <-])%bind_Some.
    destruct (mark_spec ev (OpQueued (J_ID rec)) _ _ _ _ _ Hc I Hm) as [Hc' Ha].
    split; [|done].
    eapply (move_ok w _ sv); [done|done|done|done|done|done|done|by apply delete_handlers|done|].
    by eapply queue_same; [apply Hok|exact Hup|..].
Qed.

Lemma with_fs_id w : with_ledger_fs (w_ledger_fs w) (with_job_fs (w_job_fs w) w) = w.
Proof. by destruct w. Qed.

(** A crash that leaves the ledger alone. *)
Lemma crash_jobs_ok w jf : world_ok w → dir_ok jf → world_ok (with_up None (with_job_fs jf w)).
Proof.
  intros Hok Hd. exact (crash_ok w (w_ledger_fs w) jf Hok (l_file _ _ _ (wo_ledger _ Hok)) Hd
    (tickets_down w _ Hok eq_refl jf)).
Qed.

Lemma crash_record_ok ev d sv w f :
  world_ok w → w_up w = Some sv → named d →
  f ∈ SeenOrRecord_crash (c_faults ev) (c_pid ev) (c_now ev) (A_Name (D_App d)) (D_ID d) (D_Branch d)
        (D_Commit d) ProviderGitHub (sv_ledger sv) (w_ledger_fs w) →
  world_ok (with_up None (with_ledger_fs f (reach (key_of d) w))).
Proof.
  intros Hok Hup [Hn1 Hn2] Hf. destruct (l_up _ _ _ (wo_ledger _ Hok) sv Hup) as (Hs & Hp & Hm).
  apply (SeenOrRecord_crash_spec _ _ _ _ _ Hn1 Hn2 _ _ Hs) in Hf as [Hfile Hkeys].
  rewrite Hp in Hkeys, Hfile. rewrite Hm in Hkeys.
  split; [|by split|by eapply (queue_down w); [apply Hok|..]|apply Hok|done].
  eapply (tickets_reach path capacity w _ (key_of d)); [done|exact (wo_tickets _ Hok)|done|done| |naive_solver|done].
  intros j k [(? & ? & [=] & _)|Hj]. left. by right.
Qed.

Lemma crash_forget_ok ev i h sv w f :
  world_ok w → w_up w = Some sv → sv_handlers sv !! i = Some h → in_time i sv w → pending (h_pc h) = true →
  f ∈ Remove_crash (c_faults ev) (c_pid ev) (A_Name (D_App (h_delivery h))) (D_ID (h_delivery h))
        (sv_ledger sv) (w_ledger_fs w) →
  world_ok (with_up None (with_ledger_fs f (with_job_fs (w_job_fs w) w))).
Proof.
  intros Hok Hup Hi Hin Hpd Hf. destruct (l_up _ _ _ (wo_ledger _ Hok) sv Hup) as (Hs & Hp & Hm).
  apply (Remove_crash_spec _ _ _ _ _ _ Hs) in Hf as [Hfile Hkeys]. rewrite Hp in Hkeys, Hfile.
  unfold in_time in Hin. rewrite Hm in Hin.
  apply crash_ok; [done|done|apply Hok|].
  eapply (tickets_forget path capacity w _ i (key_of (h_delivery h)) (wo_tickets _ Hok)); [|done|done|done| |done|done].
  - apply (claim_up w sv _ _ Hup). left. by exists h.
  - intros j q [(? & ? & [=] & _)|(x & Hx & Hkey)]. split; [right; by exists x|].
    intros ->. eapply (t_fresh _ _ _ (wo_tickets _ Hok) sv i h); [done..|].
    apply list_elem_of_fmap. by exists (i, x).
Qed.

Lemma crash_section_ok ev rnd nano i h sv w lf jf :
  world_ok w → w_up w = Some sv → sv_handlers sv !! i = Some h → in_time i sv w → c_now ev ≠ 0 →
  section_crash lower_rune secrets ev rnd nano h sv w lf jf →
  world_ok (with_up None (with_ledger_fs lf (with_job_fs jf w))) ∧ only_advances (w_job_fs w) jf.
Proof.
  intros Hok Hup Hi Hin Hnow. pose proof (wo_jobs _ Hok sv Hup) as Hc.
  destruct (handlers_ok w Hok sv i h Hup Hi) as (_ & Hnamed & _).
  destruct h as [d pc]. unfold section_crash. cbn [h_delivery h_pc] in *.
  assert (only_advances (w_job_fs w) (w_job_fs w)) as Hsame by by apply kept_advances.
  destruct pc as [| |rec|rec e|rec e|rec]; intros [Heq Hst]; subst.
  - edestruct mark_crash as [H1 H2]; [exact Hc| |exact Hst|]; [by apply complete_record_for|].
    split; [exact (crash_jobs_ok w jf Hok H1)|done].
  - split; [|done]. by eapply (crash_forget_ok ev i (mkHandler d ToForget)).
  - split; [|done]. exact (crash_jobs_ok w _ Hok (wo_dir _ Hok)).
  - split; [|done]. by eapply (crash_forget_ok ev i (mkHandler d (ToForgetFull rec e))).
  - edestruct mark_crash as [H1 H2]; [exact Hc| |exact Hst|]; [done|]. split; [exact (crash_jobs_ok w jf Hok H1)|done].
  - edestruct mark_crash as [H1 H2]; [exact Hc| |exact Hst|]; [done|]. split; [exact (crash_jobs_ok w jf Hok H1)|done].
Qed.

Lemma start_ok lfl jfl unix l s f w :
  world_ok w → w_up w = None → jfl op_read = None →
  Initialize lfl (NewDeliveryLedger path capacity) (w_ledger_fs w) = (Ok tt, l) →
  Load jfl unix (NewJobStore dir max) (w_job_fs w) = (Ok tt, s, f) →
  world_ok (with_up (Some (mkServer l s NewQueue ∅)) (with_job_fs f w)) ∧ f = w_job_fs w.
Proof.
  intros Hok Hup Hrd Hinit Hload.
  destruct (Load_spec _ _ _ _ _ _ _ _ (wo_dir _ Hok) Hrd Hload) as [-> Hc]. destruct (Hc eq_refl) as (Hc' & _ & _).
  split; [|done]. destruct (l_file _ _ _ (wo_ledger _ Hok)) as (l0 & Hp & Hh).
  pose proof (Initialize_holds l0 capacity _ Hh) as Hi0. rewrite Hp in Hi0.
  assert (l = mkLedger path capacity (DL_entries l0) (DL_order l0) true None) as ->.
  { unfold Initialize, loadLocked in *. simpl in *. destruct Hh as [_ [Hd|[Hd _]]]; rewrite Hp in Hd; rewrite Hd in *.
    - destruct (lfl op_read); [done|]. simpl in *. rewrite Hinit in Hi0. by injection Hi0.
    - destruct (lfl op_read); [done|]. rewrite Hinit in Hi0. by injection Hi0. }
  assert (holds (w_ledger_fs w) (mkLedger path capacity (DL_entries l0) (DL_order l0) true None)) as Hh'.
  { destruct Hh as [[? ? ?] Hin]. split; [by split|]. unfold in_step in *. simpl. by rewrite Hp in Hin. }
  split; [|split; [apply Hok|]| |apply Hok|by intros ? [= <-]].
  - eapply (tickets_mono path capacity w _ (wo_tickets _ Hok)); [done|done| |done|].
    + intros i k Hi. claims_in Hi. destruct Hi as [(h & Hi & _)|?]; [by rewrite lookup_empty in Hi|by right].
    + intros ? ? ? [= <-] Hi. simpl in Hi. by rewrite lookup_empty in Hi.
  - intros ? [= <-]. split; [|done]. split; [|done]. by eexists.
  - pose proof (wo_queue _ Hok) as Hq. unfold queue_ok in *. rewrite Hup in Hq. simpl. exact Hq.
Qed.

Lemma world_step_ok w lb w' :
  world_step lower_rune secrets path capacity dir max w lb w' → world_ok w →
  world_ok w' ∧ only_advances (w_job_fs w) (w_job_fs w').
Proof.
  intros Hstep Hok.
  assert (∀ w1, w_job_fs w1 = w_job_fs w → only_advances (w_job_fs w) (w_job_fs w1)) as Hsame.
  { intros w1 ->. by apply kept_advances. }
  destruct Hstep as [ev d sv w w' r Hup Hd Hr|ev rnd nano i h sv w w' r Hup Hi Hin Hnow Hs
    |app wk wl wk' sv w Hup Hwk Hst|ev op sv w r s f Hup Hw Hdo|sv w Hup|w|ev d sv w f Hup Hd Hf
    |ev rnd nano i h sv w lf jf Hup Hi Hin Hnow Hs|ev op sv w f Hup Hw Hf|lfl jfl unix l s f w Hup Hrd Hini Hl].
  - destruct (record_ok _ _ _ _ _ _ Hok Hup Hd Hr) as (? & Hj & _). split; [done|]. by apply Hsame.
  - by eapply section_ok.
  - pose proof (worker_waiting _ _ _ _ _ Hst Hwk) as Hwt. pose proof (wo_queue _ Hok) as Hq.
    unfold queue_ok in Hq. rewrite Hup, Hwt in Hq.
    split; [|apply Hsame; by destruct wl].
    eapply (move_ok w _ sv); [done|done|by destruct wl|by destruct wl|by destruct wl|by destruct wl|done|
      intros j h Hj; by exists h|by destruct wl; exact (wo_jobs _ Hok sv Hup)|].
    unfold queue_ok. destruct wl as [|job|job|job]; simpl in *; rewrite <- ?app_assoc; try exact Hq.
    etransitivity; [|exact Hq]. apply submseteq_app; [done|]. by apply submseteq_cons.
  - destruct (mark_spec _ _ _ _ _ _ _ (wo_jobs _ Hok sv Hup) Hw Hdo) as [Hc Ha]. split; [|done].
    eapply (move_ok w _ sv); [done|done|done|done|done|done|done|intros j h Hj; by exists h|done|].
    by eapply queue_same; [apply Hok|exact Hup|..].
  - split; [|by apply Hsame].
    eapply (move_ok w _ sv); [done|done|done|done|done|done|done|intros j h Hj; by exists h|exact (wo_jobs _ Hok sv Hup)|].
    eapply queue_same; [apply Hok|exact Hup|done..|]. apply Close_waiting.
  - split; [|by apply Hsame]. pose proof (crash_jobs_ok w (w_job_fs w) Hok (wo_dir _ Hok)) as H. by destruct w.
  - split; [by eapply crash_record_ok|by apply Hsame].
  - by eapply crash_section_ok.
  - destruct (mark_crash _ _ _ _ _ (wo_jobs _ Hok sv Hup) Hw Hf). split; [by eapply crash_jobs_ok|done].
  - destruct (start_ok _ _ _ _ _ _ _ Hok Hup Hrd Hini Hl) as [? ->]. split; [done|]. by apply kept_advances.
Qed.
End Preservation.

(** ** What the server promises *)

Section Promises.
Context (lower_rune : string → string) (secrets : secretRegistry).
Context (path : string) (capacity : nat) (Hcap : (0 < capacity)%nat) (dir : string) (max : Z).
Abbreviation step := (world_step lower_rune secrets path capacity dir max).

(** Before the first start: a ledger file that loads, if any, and a directory
    of jobs. *)
Definition start_world (f : ledger_fs) (jf : job_fs) : world := mkWorld None f jf [] [] [] [].

Lemma start_world_ok f jf : (∃ l0, DL_path l0 = path ∧ holds f l0) → dir_ok jf → world_ok path capacity (start_world f jf).
Proof.
  intros Hf Hd. split; [|by split|by unfold queue_ok|exact Hd|done].
  split; [| |constructor|done|done].
  - intros i k [(? & ? & [=] & _)|(j & Hj & _)]. by apply elem_of_nil in Hj.
  - intros i j k [(? & ? & [=] & _)|(x & Hj & _)]. by apply elem_of_nil in Hj.
Qed.

Lemma world_steps_ok w tr w' : steps step w tr w' → world_ok path capacity w → world_ok path capacity w'.
Proof. apply steps_invariant. intros s l s' Hs Hok. by eapply world_step_ok. Qed.

(** Jobs of one delivery that are apart by more than the capacity are at most
    one while no more deliveries than that arrived. *)
Lemma apart_NoDup (q : list (nat * Job)) n :
  (n ≤ capacity)%nat → NoDup q.*1 → (∀ i j, (i, j) ∈ q → (i < n)%nat) →
  (∀ i j ji jj, (i, ji) ∈ q → (j, jj) ∈ q → job_key ji = job_key jj → (i < j)%nat → (i + capacity < j)%nat) →
  NoDup (job_key <$> q.*2).
Proof.
  intros Hn Hnd Hlt Hap. induction q as [|[i j] q IH]; [constructor|].
  rewrite !fmap_cons in *. apply NoDup_cons in Hnd as [Hni Hnd]. simpl in Hni. apply NoDup_cons. split.
  - intros (x & Hkx & ([i' x'] & Heq & Hin)%list_elem_of_fmap)%list_elem_of_fmap. simpl in *. subst x'.
    assert (i ≠ i') as Hne. { intros <-. apply Hni, list_elem_of_fmap. by exists (i, x). }
    pose proof (Hlt i j ltac:(by left)). pose proof (Hlt i' x ltac:(by right)).
    destruct (Nat.lt_total i i') as [Hc|[Hc|Hc]]; [|done|].
    + pose proof (Hap i i' j x ltac:(by left) ltac:(by right) Hkx Hc). lia.
    + pose proof (Hap i' i x j ltac:(by right) ltac:(by left) (eq_sym Hkx) Hc). lia.
  - apply IH; [done| |].
    + intros i' j' Hin. apply (Hlt i' j'). by right.
    + intros i1 i2 j1 j2 H1 H2. apply Hap; by right.
Qed.

(** C16: Replay protection, for any interleaving of requests, workers, write
    failures, crashes and restarts: two jobs for the same delivery are only
    ever queued when more than [capacity] deliveries reached the ledger in
    between, every rebuild that starts is one of a queued job, each once - so
    while no more than [capacity] deliveries arrive, no delivery is built
    twice. *)
Theorem delivery_is_built_at_most_once f jf tr w :
  (∃ l0, DL_path l0 = path ∧ holds f l0) → dir_ok jf → steps step (start_world f jf) tr w →
  (∀ i j ji jj, (i, ji) ∈ w_queued w → (j, jj) ∈ w_queued w → job_key ji = job_key jj →
     (i < j)%nat → (i + capacity < j)%nat) ∧
  w_started w ⊆+ (w_queued w).*2 ∧
  ((length (w_reached w) ≤ capacity)%nat → NoDup (job_key <$> w_started w)).
Proof.
  intros Hf Hd Hs. pose proof (world_steps_ok _ _ _ Hs (start_world_ok f jf Hf Hd)) as Hok.
  assert (∀ i j ji jj, (i, ji) ∈ w_queued w → (j, jj) ∈ w_queued w → job_key ji = job_key jj →
     (i < j)%nat → (i + capacity < j)%nat) as Hap.
  { intros i j ji jj Hi Hj Hk. apply (t_apart _ _ _ (wo_tickets _ _ _ Hok) i j (job_key jj)); right; eauto. }
  assert (w_started w ⊆+ (w_queued w).*2) as Hsub.
  { pose proof (wo_queue _ _ _ Hok) as Hq. unfold queue_ok in Hq. etransitivity; [|exact Hq].
    by apply submseteq_inserts_r. }
  split; [done|]. split; [done|]. intros Hn.
  destruct (submseteq_Permutation _ _ Hsub) as [rest Hperm].
  assert (NoDup (job_key <$> (w_queued w).*2)) as Hnd.
  { eapply apart_NoDup; [exact Hn|exact (t_nodup _ _ _ (wo_tickets _ _ _ Hok))| |exact Hap].
    intros i j Hij. apply (t_claim _ _ _ (wo_tickets _ _ _ Hok) i (job_key j)). right. by exists j. }
  rewrite Hperm, fmap_app in Hnd. by apply NoDup_app in Hnd as [? _].
Qed.

(** ** Acknowledged deliveries *)

Definition rec_of (pc : handler_pc) : option JobRecord :=
  match pc with
  | ToCreate | ToForget => None
  | ToEnqueue r | ToForgetFull r _ | ToFail r _ | ToMarkQueued r => Some r
  end.

(** The records the handlers hold, and those of the acknowledged deliveries. *)
Definition has_rec (w : world) (rec : JobRecord) : Prop :=
  rec ∈ w_acked w ∨ ∃ sv i h, w_up w = Some sv ∧ sv_handlers sv !! i = Some h ∧ rec_of (h_pc h) = Some rec.

Lemma has_rec_up w sv rec : w_up w = Some sv → has_rec w rec ↔
  rec ∈ w_acked w ∨ ∃ i h, sv_handlers sv !! i = Some h ∧ rec_of (h_pc h) = Some rec.
Proof.
  intros Hup. unfold has_rec. rewrite Hup. split; (intros [?|H]; [by left|right]).
  - destruct H as (? & i & h & [= <-] & ?). by exists i, h.
  - destruct H as (i & h & ?). by exists sv, i, h.
Qed.

Local Ltac rec_in H := eapply has_rec_up in H; [|reflexivity]; cbn in H.

Lemma section_rec ev rnd nano i h sv w w' r rec :
  world_ok path capacity w → w_up w = Some sv → sv_handlers sv !! i = Some h → c_now ev ≠ 0 →
  do_section lower_rune secrets ev rnd nano i h sv w = Some (w', r) →
  has_rec w' rec → has_rec w rec ∨ w_job_fs w' !! jobPath (J_ID rec) = Some (Data rec).
Proof.
  intros Hok Hup Hi Hnow Hs Hrec. rewrite (has_rec_up w sv rec Hup).
  destruct (t_handler _ _ _ (wo_tickets _ _ _ Hok) sv i h Hup Hi) as [_ Hnamed].
  destruct h as [d pc]. unfold do_section in Hs. cbn [h_delivery h_pc] in *.
  destruct pc as [| |x|x e|x e|x].
  - destruct (Create _ _ _ _ _ _) as [[res s] f] eqn:Ec.
    apply (Create_spec _ _ _ _ (complete_record_for _ _ d Hnamed Hnow) _ _ (wo_jobs _ _ _ Hok sv Hup))
      in Ec as (_ & _ & _ & Hres).
    destruct res as [x|e]; injection Hs as <- <-; rec_in Hrec;
      (destruct Hrec as [Ha|(j & h & Hj & Hr)]; [by left; left|]);
      apply lookup_insert_Some in Hj as [[<- <-]|[_ Hj]]; try (by left; right; exists j, h); [|done].
    right. simpl in Hr. injection Hr as <-. destruct Hres as [-> (f1 & Hw & Hp)].
    assert (f1 !! jobPath (J_ID (filled_in rnd nano (c_now ev) (record_for (NewJobID rnd nano) (c_now ev) d))) =
      Some (Data (filled_in rnd nano (c_now ev) (record_for (NewJobID rnd nano) (c_now ev) d)))) as H1.
    { rewrite Hw by apply is_json_jobPath. by rewrite String.eqb_refl. }
    destruct (Hp _ _ H1) as [?|Ht]; done.
  - destruct (Remove _ _ _ _ _ _) as [[res l] f]. injection Hs as <- <-. rec_in Hrec. left.
    destruct Hrec as [Ha|(j & h & [_ Hj]%lookup_delete_Some & Hr)]; [by left|right; by exists j, h].
  - destruct (Enqueue _ _) as [[[]|e] q]; injection Hs as <- <-; rec_in Hrec; left;
      (destruct Hrec as [Ha|(j & h & Hj & Hr)]; [by left|right]);
      apply lookup_insert_Some in Hj as [[<- <-]|[_ Hj]]; try (by exists j, h);
      eexists _, _; (split; [exact Hi|exact Hr]).
  - destruct (Remove _ _ _ _ _ _) as [[res l] f]. injection Hs as <- <-. rec_in Hrec. left.
    destruct Hrec as [Ha|(j & h & Hj & Hr)]; [by left|right].
    apply lookup_insert_Some in Hj as [[<- <-]|[_ Hj]]; [|by exists j, h].
    eexists _, _. split; [exact Hi|exact Hr].
  - apply bind_Some in Hs as ([[res s] f] & _ & [= <- <-]). rec_in Hrec. left.
    destruct Hrec as [Ha|(j & h & [_ Hj]%lookup_delete_Some & Hr)]; [by left|right; by exists j, h].
  - apply bind_Some in Hs as ([[res s] f] & _ & [= <- <-]). rec_in Hrec. left.
    destruct Hrec as [Ha|(j & h & [_ Hj]%lookup_delete_Some & Hr)]; [|right; by exists j, h].
    apply elem_of_app in Ha as [Ha| ->%list_elem_of_singleton]; [by left|]. right. eexists _, _. split; [exact Hi|done].
Qed.

Lemma step_rec w lb w' rec :
  step w lb w' → world_ok path capacity w → has_rec w' rec →
  has_rec w rec ∨ w_job_fs w' !! jobPath (J_ID rec) = Some (Data rec).
Proof.
  intros Hstep Hok Hrec.
  destruct Hstep as [ev d sv w w' r Hup Hd Hr|ev rnd nano i h sv w w' r Hup Hi Hin Hnow Hs
    |app wk wl wk' sv w Hup Hwk Hst|ev op sv w r s f Hup Hw Hdo|sv w Hup|w|ev d sv w f Hup Hd Hf
    |ev rnd nano i h sv w lf jf Hup Hi Hin Hnow Hs|ev op sv w f Hup Hw Hf|lfl jfl unix l s f w Hup Hrd Hini Hl].
  - left. rewrite (has_rec_up w sv rec Hup). unfold do_record in Hr.
    destruct (SeenOrRecord _ _ _ _ _ _ _ _ _ _) as [[res l] f]. destruct res as [[|]|e]; injection Hr as <- <-; rec_in Hrec; try done.
    destruct Hrec as [Ha|(j & h & Hj & Hr)]; [by left|right].
    apply lookup_insert_Some in Hj as [[<- <-]|[_ Hj]]; [done|by exists j, h].
  - by eapply section_rec.
  - left. rewrite (has_rec_up w sv rec Hup).
    destruct wl; rec_in Hrec; exact Hrec.
  - left. rewrite (has_rec_up w sv rec Hup). rec_in Hrec. exact Hrec.
  - left. rewrite (has_rec_up w sv rec Hup). rec_in Hrec. exact Hrec.
  - left. destruct Hrec as [?|(? & ? & ? & [=] & _)]. by left.
  - left. destruct Hrec as [?|(? & ? & ? & [=] & _)]. by left.
  - left. destruct Hrec as [?|(? & ? & ? & [=] & _)]. by left.
  - left. destruct Hrec as [?|(? & ? & ? & [=] & _)]. by left.
  - left. rec_in Hrec. destruct Hrec as [?|(j & h & Hj & _)]; [by left|]. by rewrite lookup_empty in Hj.
Qed.

(** The record is on disk, or has been there until it was terminal. *)
Definition settled (w0 : world) (tr : list label) (w : world) (rec : JobRecord) : Prop :=
  ∃ r', advances rec r' ∧
    (w_job_fs w !! jobPath (J_ID rec) = Some (Data r') ∨
     ∃ tr1 tr2 w1, tr = tr1 ++ tr2 ∧ steps step w0 tr1 w1 ∧
       w_job_fs w1 !! jobPath (J_ID rec) = Some (Data r') ∧ Terminal r' = true).

Lemma settled_step w0 tr w lb w' rec :
  steps step w0 tr w → step w lb w' → world_ok path capacity w →
  settled w0 tr w rec → settled w0 (tr ++ [lb]) w' rec.
Proof.
  intros Hs Hst Hok (r' & Ha & Hcase).
  destruct (world_step_ok _ _ _ _ Hcap _ _ _ _ _ Hst Hok) as [_ Hadv].
  destruct Hcase as [Hr|(tr1 & tr2 & w1 & -> & H1 & Hr & Ht)].
  - destruct (Hadv _ _ Hr) as [(r2 & Hr2 & Ha2)|Ht].
    + exists r2. split; [by etransitivity|by left].
    + exists r'. split; [done|]. right. by exists tr, [lb], w.
  - exists r'. split; [done|]. right. exists tr1, (tr2 ++ [lb]), w1. by rewrite app_assoc.
Qed.

Lemma recs_settled w0 tr0 w tr w' :
  steps step w0 tr0 w → world_ok path capacity w → (∀ rec, has_rec w rec → settled w0 tr0 w rec) →
  steps step w tr w' → ∀ rec, has_rec w' rec → settled w0 (tr0 ++ tr) w' rec.
Proof.
  intros H0 Hok Hall Hs. revert tr0 H0 Hok Hall. induction Hs as [w|w lb w1 tr w' Hst Hs IH]; intros tr0 H0 Hok Hall rec.
  { rewrite app_nil_r. apply Hall. }
  destruct (world_step_ok _ _ _ _ Hcap _ _ _ _ _ Hst Hok) as [Hok1 _].
  change (tr0 ++ lb :: tr) with (tr0 ++ [lb] ++ tr). rewrite app_assoc. apply IH; [|done|].
  - eapply steps_app; [exact H0|]. econstructor; [exact Hst|constructor].
  - intros x Hx. destruct (step_rec _ _ _ _ Hst Hok Hx) as [H|H].
    + eapply settled_step; [exact H0|exact Hst|done|by apply Hall].
    + exists x. split; [reflexivity|by left].
Qed.

(** An acknowledged delivery was queued. *)
Definition acked_queued (w : world) : Prop :=
  (∀ rec, rec ∈ w_acked w → ∃ i j, (i, j) ∈ w_queued w ∧ Q_ID j = J_ID rec) ∧
  ∀ sv i h rec, w_up w = Some sv → sv_handlers sv !! i = Some h → h_pc h = ToMarkQueued rec →
    ∃ i j, (i, j) ∈ w_queued w ∧ Q_ID j = J_ID rec.

Lemma acked_queued_mono w w' :
  acked_queued w → w_queued w' = w_queued w → w_acked w' = w_acked w →
  (∀ sv' i h rec, w_up w' = Some sv' → sv_handlers sv' !! i = Some h → h_pc h = ToMarkQueued rec →
    ∃ sv, w_up w = Some sv ∧ sv_handlers sv !! i = Some h) →
  acked_queued w'.
Proof.
  intros [H1 H2] Hq Ha Hh. split; rewrite Hq; [by rewrite Ha|].
  intros sv' i h rec Hup Hi Hpc. destruct (Hh _ _ _ _ Hup Hi Hpc) as (sv & Hup0 & Hi0). by eapply H2.
Qed.

Lemma section_acked ev rnd nano i h sv w w' r :
  w_up w = Some sv → sv_handlers sv !! i = Some h →
  do_section lower_rune secrets ev rnd nano i h sv w = Some (w', r) → acked_queued w → acked_queued w'.
Proof.
  intros Hup Hi Hs Haq. destruct h as [d pc]. unfold do_section in Hs. cbn [h_delivery h_pc] in *.
  destruct pc as [| |x|x e|x e|x].
  - destruct (Create _ _ _ _ _ _) as [[[x|e] s] f]; injection Hs as <- <-;
      (eapply acked_queued_mono; [exact Haq|done|done|]);
      intros sv' j h rec [= <-] Hj Hpc; simpl in Hj;
      (apply lookup_insert_Some in Hj as [[<- <-]|[_ Hj]]; [done|by exists sv]).
  - destruct (Remove _ _ _ _ _ _) as [[res l] f]. injection Hs as <- <-.
    eapply acked_queued_mono; [exact Haq|done|done|].
    intros sv' j h rec [= <-] Hj Hpc. simpl in Hj. apply lookup_delete_Some in Hj as [_ Hj]. by exists sv.
  - destruct (Enqueue _ _) as [[[]|e] q]; injection Hs as <- <-.
    + destruct Haq as [H1 H2]. split.
      * intros rec Hrec. destruct (H1 rec Hrec) as (i' & j & Hin & Hid). exists i', j. split; [|done]. by apply elem_of_app; left.
      * intros sv' j h rec [= <-] Hj Hpc. simpl in Hj. apply lookup_insert_Some in Hj as [[<- <-]|[_ Hj]].
        -- injection Hpc as <-. eexists _, _. split; [apply elem_of_app; right; by left|done].
        -- destruct (H2 _ _ _ _ Hup Hj Hpc) as (i' & j' & Hin & Hid). exists i', j'. split; [|done]. by apply elem_of_app; left.
    + eapply acked_queued_mono; [exact Haq|done|done|].
      intros sv' j h rec [= <-] Hj Hpc. simpl in Hj.
      apply lookup_insert_Some in Hj as [[<- <-]|[_ Hj]]; [done|by exists sv].
  - destruct (Remove _ _ _ _ _ _) as [[res l] f]. injection Hs as <- <-.
    eapply acked_queued_mono; [exact Haq|done|done|].
    intros sv' j h rec [= <-] Hj Hpc. simpl in Hj.
    apply lookup_insert_Some in Hj as [[<- <-]|[_ Hj]]; [done|by exists sv].
  - apply bind_Some in Hs as ([[res s] f] & _ & [= <- <-]).
    eapply acked_queued_mono; [exact Haq|done|done|].
    intros sv' j h rec [= <-] Hj Hpc. simpl in Hj. apply lookup_delete_Some in Hj as [_ Hj]. by exists sv.
  - apply bind_Some in Hs as ([[res s] f] & _ & [= <- <-]). destruct Haq as [H1 H2]. split.
    + intros rec Hrec. apply elem_of_app in Hrec as [Hrec| ->%list_elem_of_singleton]; [by apply H1|].
      by eapply (H2 sv i).
    + intros sv' j h rec [= <-] Hj Hpc. simpl in Hj. apply lookup_delete_Some in Hj as [_ Hj]. by eapply H2.
Qed.

Lemma step_acked w lb w' : step w lb w' → acked_queued w → acked_queued w'.
Proof.
  intros Hstep Haq.
  destruct Hstep as [ev d sv w w' r Hup Hd Hr|ev rnd nano i h sv w w' r Hup Hi Hin Hnow Hs
    |app wk wl wk' sv w Hup Hwk Hst|ev op sv w r s f Hup Hw Hdo|sv w Hup|w|ev d sv w f Hup Hd Hf
    |ev rnd nano i h sv w lf jf Hup Hi Hin Hnow Hs|ev op sv w f Hup Hw Hf|lfl jfl unix l s f w Hup Hrd Hini Hl];
    try (by eapply section_acked); try (eapply acked_queued_mono; [exact Haq|done|done|done]).
  - unfold do_record in Hr. destruct (SeenOrRecord _ _ _ _ _ _ _ _ _ _) as [[res l] f].
    destruct res as [[|]|e]; injection Hr as <- <-; (eapply acked_queued_mono; [exact Haq|done|done|]);
      intros sv' j h rec [= <-] Hj Hpc; try (by exists sv). simpl in Hj.
    apply lookup_insert_Some in Hj as [[<- <-]|[_ Hj]]; [done|by exists sv].
  - destruct wl; (eapply acked_queued_mono; [exact Haq|done|done|]); intros sv' j h rec [= <-] Hj Hpc; by exists sv.
  - eapply acked_queued_mono; [exact Haq|done|done|]. intros sv' j h rec [= <-] Hj Hpc. by exists sv.
  - eapply acked_queued_mono; [exact Haq|done|done|]. intros sv' j h rec [= <-] Hj Hpc. by exists sv.
  - eapply acked_queued_mono; [exact Haq|done|done|]. intros sv' j h rec [= <-] Hj. simpl in Hj. by rewrite lookup_empty in Hj.
Qed.

(** A delivery is only acknowledged as queued after its job was put into
    the queue and its record was on disk; from then on the record of the job,
    for that delivery and commit, is there and only moves forward - through
    failed writes, crashes and restarts - until it was terminal. *)
Theorem acknowledged_jobs_are_durable f jf tr w rec :
  (∃ l0, DL_path l0 = path ∧ holds f l0) → dir_ok jf → steps step (start_world f jf) tr w →
  rec ∈ w_acked w →
  settled (start_world f jf) tr w rec ∧ ∃ i j, (i, j) ∈ w_queued w ∧ Q_ID j = J_ID rec.
Proof.
  intros Hf Hd Hs Hrec. split.
  - eapply (recs_settled _ [] _ tr w); [constructor|by apply start_world_ok| |exact Hs|by left].
    intros x [Hx|(? & ? & ? & [=] & _)]. by apply elem_of_nil in Hx.
  - assert (acked_queued w) as [H _]; [|by apply H].
    eapply (steps_invariant _ acked_queued); [|exact Hs|].
    + intros s l s' Hst. by eapply step_acked.
    + split; [by intros x ?%elem_of_nil|done].
Qed.
End Promises.

(** ** Authentication *)

Section Authentic.
Context (hmac : string → string → string).
Context (ParsePushPayload : string → option PushPayload).
Context (Resolve : string → res ResolvedApp) (LookupSecret : string → option string).
Context (MaxBodyBytes : Z).

(** The request carries the HMAC of its body under the secret of its
    application. *)
Definition authentic (rq : Request) (info : AppInfo) (cfg : WebhookConfig) : Prop :=
  ∃ secret given,
    Resolve (TrimPrefix (rq_path rq) "/webhook/") = Ok (mkResolved info (Some cfg)) ∧ W_Enabled cfg = true ∧
    LookupSecret (W_SecretEnv cfg) = Some secret ∧ TrimSpace secret ≠ "" ∧
    rq_signature rq = signaturePrefix +:+ given ∧ hex_decode given = Some (hmac secret (rq_body rq)).

Lemma HasPrefix_split s p : HasPrefix s p = true → s = p +:+ drop_str (String.length p) s.
Proof.
  unfold HasPrefix, drop_str. revert s. induction p as [|c p IH]; intros s Hp.
  - simpl. by rewrite Nat.sub_0_r, substring_all.
  - destruct s as [|d s]; [done|]. simpl in Hp. destruct (Ascii.ascii_dec c d) as [->|]; [|done].
    rewrite sapp_cons. f_equal. by apply IH.
Qed.

Lemma VerifySignature_sound secret body sig :
  VerifySignature hmac secret body sig = true →
  secret ≠ "" ∧ ∃ given, sig = signaturePrefix +:+ given ∧ hex_decode given = Some (hmac secret body).
Proof.
  unfold VerifySignature. destruct (secret =s "") eqn:E; [done|]. bool_prop.
  destruct (HasPrefix sig signaturePrefix) eqn:Ep; [|done]. simpl negb. cbv iota.
  apply HasPrefix_split in Ep. set (given := drop_str _ _) in *.
  destruct (negb _); [done|]. destruct (hex_decode given) as [b|] eqn:Eb; [|done].
  intros Hb%String.eqb_eq. split; [done|]. exists given. by rewrite Hb.
Qed.

(** The push of an admitted request is the one that must be built. *)
Definition to_build (rq : Request) (info : AppInfo) (cfg : WebhookConfig) (d : Delivery) : Prop :=
  ∃ payload, ParsePushPayload (rq_body rq) = Some payload ∧
    d = mkDel info (TrimSpace (rq_delivery rq)) (BranchFromRef (P_Ref payload)) (P_After payload) ∧
    D_ID d ≠ "" ∧ D_Branch d = W_Branch cfg ∧ IsBranchDeletion payload = false ∧
    (rq_event rq = "" ∨ rq_event rq = "push").

Lemma ignoredReason_none ev p branch configured :
  ignoredReason ev p branch configured = "" →
  branch = configured ∧ IsBranchDeletion p = false ∧ (ev = "" ∨ ev = "push").
Proof.
  unfold ignoredReason. destruct ((ev <>s "") && (ev <>s "push"))%bool eqn:E; [done|].
  destruct (IsBranchDeletion p); [done|]. destruct (branch <>s configured) eqn:Eb; [done|]. intros _.
  apply negb_false_iff, String.eqb_eq in Eb. split; [done|]. split; [done|].
  apply andb_false_iff in E as [E|E]; apply negb_false_iff, String.eqb_eq in E; auto.
Qed.

(** C17: Only a POST whose body, within the limit, is signed with the secret of
    an enabled application gets anything but an error: it is admitted exactly
    as the push it carries - the configured branch, no deletion, with a
    delivery identifier - or acknowledged without a build. *)
Theorem admitted_requests_are_authentic rq v :
  admission hmac ParsePushPayload Resolve LookupSecret MaxBodyBytes rq = v →
  match v with
  | Reply r => 400 <= Rs_Status r ∧ Rs_Accepted r = false ∨
      Rs_Status r = 200 ∧ Rs_Queued r = false ∧ ∃ info cfg, authentic rq info cfg
  | Admit d => rq_method rq = "POST" ∧ len_str (rq_body rq) <= MaxBodyBytes ∧
      ∃ cfg, authentic rq (D_App d) cfg ∧ to_build rq (D_App d) cfg d
  end.
Proof.
  intros <-. unfold admission. destruct (rq_method rq <>s "POST") eqn:Em; [by left|].
  destruct (_ || _)%bool; [by left|]. destruct (Resolve _) as [[info [cfg|]]|e] eqn:Er; [|by left|].
  2: { destruct (IsCode _ _); by left. }
  simpl RA_Config. cbv iota beta. destruct (W_Enabled cfg) eqn:Een; [|by left].
  destruct (LookupSecret _) as [secret|] eqn:El; [|by left].
  destruct (TrimSpace secret =s "") eqn:Et; [by left|].
  destruct (MaxBodyBytes <? rq_content_length rq); [by left|].
  destruct (MaxBodyBytes <? len_str (rq_body rq)) eqn:Eb; [by left|].
  destruct (rq_broken rq); [by left|]. unfold admit_body.
  destruct (VerifySignature _ _ _ _) eqn:Ev; [|by left]. simpl negb. cbv iota.
  apply VerifySignature_sound in Ev as (_ & given & Hsig & Hdec). bool_prop.
  assert (authentic rq info cfg) as Hauth by (exists secret, given; by repeat split).
  destruct (ParsePushPayload _) as [payload|] eqn:Ep; [|by left].
  destruct (TrimSpace (rq_delivery rq) =s "") eqn:Ed; [by left|]. bool_prop.
  destruct (ignoredReason _ _ _ _ <>s "") eqn:Ei; simpl.
  - right. split; [done|]. split; [done|]. by exists info, cfg.
  - bool_prop. apply ignoredReason_none in Ei as (Hb & Hdel & Hev).
    split; [done|]. split; [done|]. exists cfg. split; [done|]. by exists payload.
Qed.
End Authentic.

(** ** Samples *)

Module ServerSamples.

Definition same (r : string) : string := r.
Definition ev : call_env := mkEnv no_faults 7 1000.
Definition delivery : Delivery := mkDel (mkApp "app1" "shop" "/srv/shop") "d-1" "main" "abc123".
Definition key : string := key_of delivery.
Definition bytes : list Byte.byte := [Byte.x01; Byte.x02; Byte.x03; Byte.x04; Byte.x05; Byte.x06; Byte.x07; Byte.x08].

Definition w0 : world := start_world ∅ ∅.
Definition l0 : DeliveryLedger := mkLedger "deliveries.json" 2 ∅ [] true None.
Definition s0 : JobStore := mkJobStore "jobs" 200 ∅ true None false.
Definition sv0 : server := mkServer l0 s0 NewQueue ∅.
Definition w1 : world := with_up (Some sv0) (with_job_fs ∅ w0).
Definition w2 : world := (do_record ev delivery sv0 w1).1.

Definition sv_of (w : world) : server := default sv0 (w_up w).
Definition section_of (w : world) : world :=
  match sv_handlers (sv_of w) !! 0%nat with
  | Some h => match do_section same empty_registry ev (Some bytes) 0 0 h (sv_of w) w with
              | Some (w', _) => w' | None => w end
  | None => w
  end.
Definition h_of (w : world) : handler := default (mkHandler delivery ToForget) (sv_handlers (sv_of w) !! 0%nat).
Definition w3 : world := section_of w2.
Definition w4 : world := section_of w3.
Definition w5 : world := section_of w4.

Abbreviation step := (world_step same empty_registry "deliveries.json" 2 "jobs" 200).

Lemma section_step w w' :
  w_up w = Some (sv_of w) → sv_handlers (sv_of w) !! 0%nat = Some (h_of w) →
  Nat.leb (length (w_reached w)) (DL_max (sv_ledger (sv_of w))) = true →
  (∃ r, do_section same empty_registry ev (Some bytes) 0 0 (h_of w) (sv_of w) w = Some (w', r)) →
  step w (LSection ev 0) w'.
Proof. intros Hup Hh Hl%Nat.leb_le [r Hs]. by eapply st_section. Qed.

Lemma sections_run : steps step w0 [LStart; LArrive ev delivery; LSection ev 0; LSection ev 0; LSection ev 0] w5.
Proof.
  eapply steps_cons; [by apply (st_start _ _ _ _ _ _ no_faults no_faults 0 l0 s0 ∅ w0)|].
  eapply steps_cons; [apply (st_arrive _ _ _ _ _ _ ev delivery sv0 w1 w2 (do_record ev delivery sv0 w1).2); [done|done|apply surjective_pairing]|].
  eapply steps_cons; [apply (section_step w2 w3); [vm_compute; reflexivity..|eexists; vm_compute; reflexivity]|].
  eapply steps_cons; [apply (section_step w3 w4); [vm_compute; reflexivity..|eexists; vm_compute; reflexivity]|].
  eapply steps_cons; [apply (section_step w4 w5); [vm_compute; reflexivity..|eexists; vm_compute; reflexivity]|].
  apply steps_nil.
Qed.

Lemma no_ledger : ∃ l, DL_path l = "deliveries.json" ∧ holds ∅ l.
Proof.
  exists l0. split; [done|]. split; [|by right]. split; [constructor| |by intros k e ?].
  intros k. simpl. rewrite lookup_empty. split; [by intros ?%elem_of_nil|by intros []].
Qed.

Lemma no_jobs : dir_ok ∅.
Proof. by intros name c _ ?. Qed.

Example served : w_queued w5 = [(0%nat, job_for (record_for (NewJobID (Some bytes) 0) 1000 delivery) 1000 delivery)] ∧
  length (w_acked w5) = 1%nat ∧ w_started w5 = [].
Proof. vm_compute. repeat split. Qed.

Lemma delivery_is_built_at_most_once_witness :
  steps step w0 [LStart; LArrive ev delivery; LSection ev 0; LSection ev 0; LSection ev 0] w5 ∧
  (∀ i j ji jj, (i, ji) ∈ w_queued w5 → (j, jj) ∈ w_queued w5 → job_key ji = job_key jj →
     (i < j)%nat → (i + 2 < j)%nat) ∧
  w_started w5 ⊆+ (w_queued w5).*2 ∧
  ((length (w_reached w5) ≤ 2)%nat → NoDup (job_key <$> w_started w5)).
Proof.
  split; [exact sections_run|].
  apply (delivery_is_built_at_most_once same empty_registry "deliveries.json" 2 ltac:(lia) "jobs" 200 ∅ ∅
    _ w5 no_ledger no_jobs sections_run).
Defined.

Lemma acknowledged_jobs_are_durable_witness :
  ∃ rec, rec ∈ w_acked w5 ∧
    settled same empty_registry "deliveries.json" 2 "jobs" 200 w0
      [LStart; LArrive ev delivery; LSection ev 0; LSection ev 0; LSection ev 0] w5 rec ∧
    ∃ i j, (i, j) ∈ w_queued w5 ∧ Q_ID j = J_ID rec.
Proof.
  destruct (w_acked w5) as [|rec recs] eqn:E; [vm_compute in E; discriminate E|].
  exists rec. split; [by left|].
  apply (acknowledged_jobs_are_durable same empty_registry "deliveries.json" 2 ltac:(lia) "jobs" 200 ∅ ∅
    _ w5 rec no_ledger no_jobs sections_run). rewrite E. by left.
Defined.

(** The daemon stops between the ledger and the job record: after the restart
    the redelivery counts as seen, and no job was ever made for it. *)
Example crash_loses_the_delivery :
  w_job_fs w2 = ∅ ∧
  match Initialize no_faults (NewDeliveryLedger "deliveries.json" 2) (w_ledger_fs w2) with
  | (Ok _, l) => (SeenOrRecord no_faults 7 1001 "shop" "d-1" "main" "abc123" "github" l (w_ledger_fs w2)).1.1 = Ok true
  | _ => False
  end.
Proof. vm_compute. by split. Qed.

(** A worker that waits in its select may still take a job after [Close]. *)
Example job_starts_after_close job :
  let q := mkQueue {[ "shop" := mkWorker [job] false AtSelect ]} false in
  ∃ wk, q_workers (Close q) !! "shop" = Some wk ∧ worker_step wk (WStart job) (mkWorker [] true (Busy job)).
Proof. exists (mkWorker [job] true AtSelect). split; [reflexivity|constructor]. Qed.

(** The signature of a request, with a stand-in for the HMAC. *)
Definition hmac (secret body : string) : string := if body =s "ok" then "0123456789abcdef0123456789abcdef" else "".
Definition signed : Request :=
  mkRequest "POST" "/webhook/shop" 2 "ok" false
    "sha256=3031323334353637383961626364656630313233343536373839616263646566" "d-1" "push".
Definition resolve (id : string) : res ResolvedApp :=
  Ok (mkResolved (mkApp "app1" "shop" "/srv/shop") (Some (mkConfig true "main" "SECRET"))).
Definition parse (_ : string) : option PushPayload := Some (mkPush "refs/heads/main" "" "abc123" false false).

Example signed_is_admitted :
  admission hmac parse resolve (λ _, Some "s3") DefaultMaxBodyBytes signed = Admit delivery.
Proof. vm_compute. reflexivity. Qed.

Lemma admitted_requests_are_authentic_witness :
  rq_method signed = "POST" ∧ len_str (rq_body signed) <= DefaultMaxBodyBytes ∧
  ∃ cfg, authentic hmac resolve (λ _, Some "s3") signed (D_App delivery) cfg ∧
    to_build parse signed (D_App delivery) cfg delivery.
Proof.
  exact (admitted_requests_are_authentic hmac parse resolve (λ _, Some "s3") DefaultMaxBodyBytes signed
    (Admit delivery) signed_is_admitted).
Defined.
End ServerSamples.
