(* ===== verification/WebhookRebuild.v ===== *)
(** * WebhookRebuild: the bridge from a queued job to a rebuild

    internal/webhook/rebuild.go: the exact source of the commit is prepared,
    the deploy lock is awaited, the rebuild command is run - again when it lost
    the race for the lock - and its outcome is written to the record of the
    job.  The command, Git, the deploy lock, the rollback history and the
    version store answer through [renv]. *)

From S2P Require Import Prelude GoLib GoFloat GoText Errors Redact FileStore Retention Versions WebhookJobs WebhookServer.

(* src: internal/webhook/rebuild.go maxRebuildAttempts *)
Definition maxRebuildAttempts : nat := 3.
(* src: internal/webhook/rebuild.go stderrTailLines *)
Definition stderrTailLines : nat := 30.
(* src: internal/webhook/rebuild.go deployLockFailureMarker *)
Definition deployLockFailureMarker := "could not acquire deploy lock".

(* src: internal/webhook/rebuild.go rebuildExitBuild *)
Definition rebuildExitBuild : Z := 20.
(* src: internal/webhook/rebuild.go rebuildExitDeploy *)
Definition rebuildExitDeploy : Z := 21.
(* src: internal/webhook/rebuild.go rebuildExitRollback *)
Definition rebuildExitRollback : Z := 22.
(* src: internal/webhook/rebuild.go rebuildExitRollbackVer *)
Definition rebuildExitRollbackVer : Z := 23.
(* src: internal/webhook/rebuild.go rebuildExitAutoRoll *)
Definition rebuildExitAutoRoll : Z := 24.

(** ** The output of the command *)

Fixpoint trim_newlines (s : string) : string :=
  match s with
  | EmptyString => EmptyString
  | String c s => match trim_newlines s with
                  | EmptyString => if Ascii.eqb c (ascii_of_nat 10) then EmptyString else String c EmptyString
                  | t => String c t
                  end
  end.

(** The last [n] writes. *)
(* src: internal/webhook/rebuild.go lineTail.Write *)
Definition tail_write (n : nat) (lines : list string) (p : string) : list string :=
  let s := trim_newlines p in
  if s =s "" then lines
  else let lines := lines ++ [s] in drop (length lines - n) lines.

(* src: internal/webhook/rebuild.go stageMarkers *)
Definition stageMarkers : list (string * string * string) :=
  [("starting new instance", StatusDeploying, StageDeploy);
   ("starting canary instance", StatusDeploying, StageDeploy);
   ("starting replacement", StatusDeploying, StageDeploy);
   ("starting first instance", StatusDeploying, StageDeploy);
   ("Starting application on port", StatusDeploying, StageDeploy);
   ("health tier selected", StatusHealthChecking, StageHealthCheck)].

(** The markers of a line whose stage was not seen: the calls to make. *)
Fixpoint detect (line id : string) (seen : list string) (ms : list (string * string * string))
  : list job_op * list string :=
  match ms with
  | [] => ([], seen)
  | (m, status, stage) :: ms =>
      if (negb (one_of stage seen) && contains m line)%bool then
        let '(ops, seen) := detect line id (stage :: seen) ms in (OpProgress id status stage :: ops, seen)
      else detect line id seen ms
  end.

(* src: internal/webhook/rebuild.go stageDetector.Write *)
Definition stage_write (id : string) (seen : list string) (p : string) : list job_op * list string :=
  let line := trim_newlines p in
  if ((line <>s "") && (id <>s ""))%bool then detect line id seen stageMarkers else ([], seen).

(** ** Classification *)

Definition cls_upper : ascii → bool := in_range "A" "Z".
Definition cls_code (c : ascii) : bool := (cls_upper c || cls_digit c || Ascii.eqb c "_")%bool.

Fixpoint take_while_str (f : ascii → bool) (s : string) : string :=
  match s with
  | String c s => if f c then String c (take_while_str f s) else ""
  | EmptyString => ""
  end.

(** The leftmost match of [Code: ([A-Z][A-Z0-9_]+)] and its group. *)
(* src: internal/webhook/rebuild.go renderedCodePattern *)
Fixpoint rendered_code (s : string) : option string :=
  let here :=
    if HasPrefix s "Code: " then
      match drop_str 6 s with
      | String c rest =>
          let more := take_while_str cls_code rest in
          if (cls_upper c && (more <>s ""))%bool then Some (String c more) else None
      | EmptyString => None
      end
    else None in
  match here, s with
  | Some code, _ => Some code
  | None, EmptyString => None
  | None, String _ s => rendered_code s
  end.

(** What a run of the command returns: its error carries the exit code of the
    process, or marks a shutdown. *)
Inductive run_result :=
| RunOk
| RunFailed (e : error) (exit : option Z)
| RunShutdown (e : error)
| RunOrphan (e : error).

Definition run_error (r : run_result) : option error :=
  match r with RunOk => None | RunFailed e _ | RunShutdown e | RunOrphan e => Some e end.

Definition class_of_code (code : string) : option string :=
  if one_of code ["BUILD_FAILED"; "TOOLCHAIN_NOT_FOUND"; "BUILD_TIMEOUT"; "UNSUPPORTED_PROJECT"] then Some JobErrBuild
  else if code =s "HEALTH_CHECK_FAILED" then Some JobErrHealth
  else if one_of code ["DEPLOY_FAILED"; "INSTANCE_START_FAILED"; "CANARY_REGRESSION"] then Some JobErrDeploy
  else if code =s "AUTO_ROLLBACK_FAILED" then Some JobErrAutoRoll
  else if one_of code ["ROLLBACK_FAILED"; "ROLLBACK_VERIFY_FAILED"] then Some JobErrRollback
  else None.

Definition class_of_exit (exit : option Z) : string :=
  match exit with
  | Some code =>
      if code =? rebuildExitBuild then JobErrBuild
      else if code =? rebuildExitDeploy then JobErrDeploy
      else if code =? rebuildExitAutoRoll then JobErrAutoRoll
      else if ((code =? rebuildExitRollback) || (code =? rebuildExitRollbackVer))%bool then JobErrRollback
      else JobErrRebuild
  | None => JobErrRebuild
  end.

(* src: internal/webhook/rebuild.go classifyRebuildFailure *)
Definition classifyRebuildFailure (stderrTail : list string) (exit : option Z) : string :=
  match last (omap rendered_code stderrTail) with
  | Some code => default (class_of_exit exit) (class_of_code code)
  | None => class_of_exit exit
  end.

Definition telling (line : string) : bool :=
  (negb (line =s "") && negb (HasPrefix line "Code:") && negb (HasPrefix line "Hint:") &&
   negb (HasPrefix line "Run with --debug"))%bool.

(* src: internal/webhook/rebuild.go failureMessage *)
Definition failureMessage (stderrTail : list string) (runErr : option error) : string :=
  match List.find telling (rev (TrimSpace <$> stderrTail)) with
  | Some line => line
  | None => match runErr with Some e => Error e | None => "rebuild failed" end
  end.

(** ** Correlation *)

(** What is read of one line of the rollback history. *)
Record history_entry := mkEntry { he_source : string; he_status : string; he_to : string }.

(* src: internal/webhook/rebuild.go parseVersionLabel *)
Definition parseVersionLabel (label : string) : Z :=
  match Atoi (TrimPrefix (TrimSpace label) "v") with
  | Some n => if n <? 0 then 0 else n
  | None => 0
  end.

(** The newest automatic entry from [baseline] on: the version it names. *)
(* src: internal/webhook/rebuild.go detectAutomaticRollback *)
Definition detectAutomaticRollback (history : res (list history_entry)) (baseline : nat) : option Z :=
  match history with
  | Err _ => None
  | Ok records =>
      (λ rec, parseVersionLabel (he_to rec)) <$>
      List.find (λ rec, he_source rec =s "automatic") (rev (drop baseline records))
  end.

(* src: internal/webhook/rebuild.go rollbackHistoryLen *)
Definition rollbackHistoryLen (history : res (list history_entry)) : nat :=
  match history with Ok records => length records | Err _ => 0%nat end.

(* src: internal/webhook/rebuild.go correlateDeployedVersion *)
Definition correlateDeployedVersion (current : res (option VersionMeta)) (job : Job) : Z :=
  match current with
  | Ok (Some meta) => if EqualFold (V_GitCommit meta) (Q_CommitSHA job) then V_Version meta else 0
  | _ => 0
  end.

(** ** The rebuild of one job *)

(** The world around one rebuild.  [lock n]: the answer of the n-th probe of
    the deploy lock, and whether the server shuts down before the next one.
    [run n]: what the n-th run of the command writes to its standard output,
    the tail of its errors, and how it ends. *)
Record renv := mkREnv {
  e_prepare : res string;
  e_cleanup : option error;
  e_history : res (list history_entry);
  e_lock : nat → res bool * bool;
  e_run : nat → list string * list string * run_result;
  e_history_after : res (list history_entry);
  e_current : res (option VersionMeta);
  e_call : nat → call_env
}.

(** What the rebuild did. *)
Inductive revent :=
| EvRun (args : list string) (dir : string)
| EvCleanup.

(** The store of jobs, the calls made on it so far and the log; the number of
    lock probes made. *)
Record rstate := mkRState {
  r_jobs : JobStore;
  r_fs : job_fs;
  r_calls : nat;
  r_log : list revent;
  r_probes : nat
}.

Section Rebuild.
Context (lower_rune : string → string) (secrets : secretRegistry).
Context (env : renv) (job : Job).

(** Best effort: an error is only logged.  [None]: the process panicked. *)
(* src: internal/webhook/rebuild.go CliRebuild.markJob *)
Definition markJob (op : job_op) (st : rstate) : option rstate :=
  if Q_ID job =s "" then Some st
  else
    '(_, s, f) ← do_op lower_rune secrets (e_call env (r_calls st)) op (r_jobs st) (r_fs st);
    Some (mkRState s f (S (r_calls st)) (r_log st) (r_probes st)).

Fixpoint mark_all (ops : list job_op) (st : rstate) : option rstate :=
  match ops with
  | [] => Some st
  | op :: ops => st ← markJob op st; mark_all ops st
  end.

Definition log (e : revent) (st : rstate) : rstate :=
  mkRState (r_jobs st) (r_fs st) (r_calls st) (r_log st ++ [e]) (r_probes st).
Definition probed (st : rstate) : rstate :=
  mkRState (r_jobs st) (r_fs st) (r_calls st) (r_log st) (S (r_probes st)).

Inductive wait_result := Free | WaitShutdown | WaitError (e : error) | Waiting.

(** [fuel] bounds the probes. *)
(* src: internal/webhook/rebuild.go CliRebuild.waitForDeployLock *)
Fixpoint waitForDeployLock (fuel : nat) (st : rstate) : wait_result * rstate :=
  match fuel with
  | O => (Waiting, st)
  | S fuel =>
      let '(holder, shutdown) := e_lock env (r_probes st) in
      let st := probed st in
      match holder with
      | Err e => (WaitError (wrap CodeFilesystem
                  ("webhook: could not inspect deploy lock for app " +:+ Q_AppName job) e), st)
      | Ok false => (Free, st)
      | Ok true => if shutdown : bool then (WaitShutdown, st) else waitForDeployLock fuel st
      end
  end.

(* src: internal/webhook/rebuild.go CliRebuild.lockContention *)
Definition lockContention (stderrTail : list string) (st : rstate) : bool * rstate :=
  if existsb (contains deployLockFailureMarker) stderrTail then (true, st)
  else (match (e_lock env (r_probes st)).1 with Ok held => held | Err _ => false end, probed st).

(** The progress a run reports on its standard output. *)
Fixpoint progress (seen : list string) (writes : list string) (st : rstate) : option rstate :=
  match writes with
  | [] => Some st
  | p :: writes =>
      let '(ops, seen) := stage_write (Q_ID job) seen p in
      st ← mark_all ops st; progress seen writes st
  end.

(* src: internal/webhook/rebuild.go CliRebuild.markTerminalFailure *)
Definition markTerminalFailure (stderrTail : list string) (e : error) (exit : option Z) (baseline : nat)
    (st : rstate) : option rstate :=
  let errorCode := classifyRebuildFailure stderrTail exit in
  let message := failureMessage stderrTail (Some e) in
  match detectAutomaticRollback (e_history_after env) baseline with
  | Some version => markJob (OpRolledBack (Q_ID job) version errorCode message) st
  | None => markJob (OpFailed (Q_ID job) errorCode message) st
  end.

(** How the rebuild returns; an orphaned command keeps its source. *)
Inductive rebuild_result :=
| Succeeded
| Failed (e : error)
| Abandoned (e : error)
| Orphaned (e : error)
| StillWaiting.

Definition shutdown_error : error :=
  PErr CodeUnavailable "webhook: server shutdown while waiting for the deploy lock"
    (Some (Foreign "webhook: server shutdown while job was in flight" None)).

(** [attempts]: how many runs are left. *)
(* src: internal/webhook/rebuild.go:273-305 CliRebuild.Rebuild *)
Fixpoint attempt (probes attempts n : nat) (dir : string) (baseline : nat) (st : rstate)
  : option (rebuild_result * rstate) :=
  match attempts with
  | O => None
  | S more =>
      let '(w, st) := waitForDeployLock probes st in
      match w with
      | Waiting => Some (StillWaiting, st)
      | WaitError e => Some (Failed e, st)
      | WaitShutdown => Some (Abandoned shutdown_error, st)
      | Free =>
          let st := log (EvRun ["rebuild"; Q_AppID job; "--source-dir"; dir] (Q_Directory job)) st in
          let '(stdout, stderrTail, result) := e_run env n in
          st ← progress [] stdout st;
          match result with
          | RunOk =>
              st ← markJob (OpSucceeded (Q_ID job) (correlateDeployedVersion (e_current env) job)) st;
              Some (Succeeded, st)
          | RunOrphan e => Some (Orphaned e, st)
          | RunShutdown e => Some (Abandoned e, st)
          | RunFailed e exit =>
              let '(contention, st) := lockContention stderrTail st in
              match more with
              | S _ =>
                  if contention : bool then attempt probes more (S n) dir baseline st
                  else st ← markTerminalFailure stderrTail e exit baseline st; Some (Failed e, st)
              | O => st ← markTerminalFailure stderrTail e exit baseline st; Some (Failed e, st)
              end
          end
      end
  end.

(** The deferred cleanup. *)
(* src: internal/webhook/rebuild.go:248-262 CliRebuild.Rebuild *)
Definition after_rebuild (r : rebuild_result) (st : rstate) : option rstate :=
  match r with
  | StillWaiting => Some st
  | Orphaned _ => markJob (OpCleanup (Q_ID job)) st
  | _ => st ← markJob (OpCleanup (Q_ID job)) st; Some (log EvCleanup st)
  end.

(* src: internal/webhook/rebuild.go CliRebuild.Rebuild *)
Definition Rebuild (probes : nat) (st : rstate) : option (rebuild_result * rstate) :=
  st ← markJob (OpSyncing (Q_ID job)) st;
  match e_prepare env with
  | Err e =>
      st ← markJob (OpFailed (Q_ID job) JobErrGitSync (Error e)) st;
      Some (Failed e, st)
  | Ok dir =>
      let baseline := rollbackHistoryLen (e_history env) in
      st ← markJob (OpBuilding (Q_ID job)) st;
      '(r, st) ← attempt probes maxRebuildAttempts 0 dir baseline st;
      st ← after_rebuild r st;
      Some (r, st)
  end.
End Rebuild.

(** ** A store that works *)

Section Calm.
Context (lower_rune : string → string) (secrets : secretRegistry).
Context (env : renv) (job : Job) (pid : Z).
Context (Hid : Q_ID job ≠ "") (Hcalls : ∀ n, quiet pid (e_call env n)).
















(** The messages of the failed runs can be sanitised: they are valid text. *)
Context (Hmsg : ∀ n stdout stderrTail e exit, e_run env n = (stdout, stderrTail, RunFailed e exit) →
  is_Some (SanitizeJobMessage lower_rune secrets (failureMessage stderrTail (Some e)))).


Definition run_of (dir : string) : revent :=
  EvRun ["rebuild"; Q_AppID job; "--source-dir"; dir] (Q_Directory job).







End Calm.

Module RebuildSamples.
Import JobSamples.

Definition job : Job := mkQJob id1 "app1" "shop" "/srv/shop" "main" "abc123" "d-1" "github" 1000.
Definition start : rstate := mkRState store_q dir_q 0 [] 0.

(** The first run loses the race for the deploy lock, the second deploys. *)
Definition retried : renv :=
  mkREnv (Ok "/tmp/src") None (Ok [])
    (λ n, (Ok (Nat.eqb n 0), false))
    (λ n, match n with
          | 0%nat => ([], [deployLockFailureMarker], RunFailed (Foreign "exit status 1" None) (Some 1))
          | _ => (["starting new instance"; "health tier selected"], [], RunOk)
          end)
    (Ok []) (Ok (Some deployed_version)) (λ _, ev).

Example rebuild_retried :
  match Rebuild same empty_registry retried job 5 start with
  | Some (r, st) => r = Succeeded ∧ r_log st = [run_of job "/tmp/src"; run_of job "/tmp/src"; EvCleanup] ∧
      match JS_jobs (r_jobs st) !! id1 with
      | Some rec => J_Status rec = StatusSucceeded ∧ J_Version rec = 7
      | None => False
      end
  | None => False
  end.
Proof. vm_compute. repeat split. Qed.



(** The automatic rollback of the run failed too, and was recorded so: the job
    is closed as rolled back, with the version that was not restored. *)
Definition unrestored : renv :=
  mkREnv (Ok "/tmp/src") None (Ok [])
    (λ _, (Ok false, false))
    (λ _, ([], ["Code: AUTO_ROLLBACK_FAILED"], RunFailed (Foreign "exit status 24" None) (Some 24)))
    (Ok [mkEntry "automatic" "failed" "v6"]) (Ok None) (λ _, ev).

Example failed_rollback_reads_rolled_back :
  match Rebuild same empty_registry unrestored job 5 start with
  | Some (_, st) =>
      match JS_jobs (r_jobs st) !! id1 with
      | Some rec => J_Status rec = StatusRolledBack ∧ J_Version rec = 6
      | None => False
      end
  | None => False
  end.
Proof. vm_compute. by split. Qed.

(** The lock cannot be inspected: the rebuild returns an error, and its record
    stays open. *)
Definition uninspected : renv :=
  mkREnv (Ok "/tmp/src") None (Ok []) (λ _, (Err (Foreign "permission denied" None), false))
    (λ _, ([], [], RunOk)) (Ok []) (Ok None) (λ _, ev).

Example lock_error_leaves_the_job_open :
  match Rebuild same empty_registry uninspected job 5 start with
  | Some (Failed _, st) =>
      match JS_jobs (r_jobs st) !! id1 with
      | Some rec => Active rec = true ∧ J_FinishedAt rec = 0
      | None => False
      end
  | _ => False
  end.
Proof. vm_compute. by split. Qed.
End RebuildSamples.
