(* ===== verification/Engine.v ===== *)
(** * Engine: the effects of a deployment

    A deployment of internal/deploy talks to the journal, the version store,
    the proxy daemon, the launcher, the health checker and the processes it
    stops.  Each of these calls can fail; this file models a run as a state
    machine over the world the calls see, with one oracle ([env]) that answers
    the n-th call of the run, so that a statement for every [env] is a
    statement for every interleaving of failures.  Logging and telemetry only
    observe a deployment and are left out.

    It also holds the program logic the strategies are verified with: triples
    over the final result and world, and the traces of process stops and route
    changes. *)

From S2P Require Import Prelude GoLib FileStore ProxyRouting DeployState Versions Errors.

(** ** The world *)

(** A process handle: pid, start ticks, container id ("" when native). *)
Record proc := mkProc { p_pid : Z; p_ticks : Z; p_container : string }.

(** What the proxy daemon routes the application to, if it is enrolled. *)
Abbreviation route := (option (Target * list Target)).

(** What happened, as traffic sees it: an instance was started or stopped on
    an internal address or found healthy there, the route was set. *)
Inductive event :=
| EvLaunch (host : string)
| EvHealthy (host : string)
| EvStop (host : string)
| EvRoute (r : route).

Record world := mkWorld {
  w_tick : nat;
  w_journal : journal;
  w_versions : vstore;
  w_route : route;
  w_log : list event     (* oldest first *)
}.

(* src: internal/deploy/instance.go ShutdownReport *)
Record ShutdownReport := mkReport { rep_Exited : bool; rep_ForceKilled : bool }.

(** What the verification of a rollout step answers: the step passed, or an
    error that stands for a cancellation, for an unhealthy stable baseline, or
    for the canary. *)
Inductive verdict :=
| Verified
| VerifyCancelled (e : error)
| BaselineUnhealthy (e : error)
| CanaryRejected (e : error).

(** The answers to the calls of one run, by the number of the call. *)
Record env := mkEnv {
  e_now : nat → Z;
  e_fs : nat → faults;
  e_vfs : nat → vfaults;
  e_os : nat → os_view;
  e_order : list string → list string;         (* one order of map iteration *)
  e_ping : nat → bool;                         (* the daemon answers *)
  e_status : nat → bool;                       (* it answers a status request *)
  e_proxy : nat → option (error * bool);       (* an error, and whether it took effect *)
  e_build : nat → res (string * string);       (* binary and environment path *)
  e_target : Z;                                (* the version of the source, once built *)
  e_overlay : nat → res (list string);         (* the names of the secret variables *)
  e_launch : nat → res (proc * Z);             (* the process and its internal port *)
  e_tier : Z * string;                         (* the selected health tier *)
  e_health : nat → option error;               (* [WaitForHealthy] *)
  e_oom : nat → bool;                          (* the exit was a memory-limit kill *)
  e_stop : nat → ShutdownReport;               (* [GracefulStop] of a live process *)
  e_port_available : nat → bool;
  e_handoff : nat → option error;              (* the [PortHandoff] callback *)
  e_released : nat → bool;                     (* [waitForPortRelease] *)
  e_cancelled : nat → option error;            (* [ctx.Err()] *)
  e_binary : nat → option error;               (* [Stat] of a recorded binary *)
  e_listens : nat → bool;                      (* [port.WaitForListener] *)
  e_worker_stop : nat → option error;          (* [GracefulStopWorker] *)
  e_verify : nat → verdict                     (* the [StepVerifier] of a rollout *)
}.

(** The variables of a running deployment: the journal record it holds in
    memory and the flag of its strategy ([switched], [enrolled]). *)
Record machine := mkMachine { m_world : world; m_state : DeployState; m_flag : bool }.

(** ** The monad *)

Definition M (A : Type) : Type := machine → res A * machine.

Definition ret {A} (a : A) : M A := λ m, (Ok a, m).
Definition throw {A} (e : error) : M A := λ m, (Err e, m).
Definition bindM {A B} (x : M A) (f : A → M B) : M B := λ m,
  match x m with
  | (Ok a, m') => f a m'
  | (Err e, m') => (Err e, m')
  end.

Notation "'do' x <- a ; b" := (bindM a (λ x, b))
  (at level 10, x pattern, a at level 100, b at level 200) : phelix_scope.
Notation "a ;;; b" := (bindM a (λ _, b)) (at level 100, b at level 200, right associativity)
  : phelix_scope.

(** The error of a call as a value, for code that goes on. *)
Definition attempt {A} (x : M A) : M (res A) := λ m, let '(r, m') := x m in (Ok r, m').
(** [_ = call()]. *)
Definition ignore {A} (x : M A) : M unit := bindM (attempt x) (λ _, ret tt).
(** [if err := call(); err != nil { return f(err) }]. *)
Definition wrap_err {A} (x : M A) (f : error → error) : M A := λ m,
  let '(r, m') := x m in (match r with Ok a => Ok a | Err e => Err (f e) end, m').

(** [errors.Join]. *)
Definition join_errors (a b : error) : error :=
  Foreign (Error a +:+ String (ascii_of_nat 10) "" +:+ Error b) (Some a).

Definition get_state : M DeployState := λ m, (Ok (m_state m), m).
Definition set_state (s : DeployState) : M unit := λ m, (Ok tt, mkMachine (m_world m) s (m_flag m)).
Definition modify (f : DeployState → DeployState) : M unit := λ m,
  (Ok tt, mkMachine (m_world m) (f (m_state m)) (m_flag m)).
Definition get_flag : M bool := λ m, (Ok (m_flag m), m).
Definition set_flag (b : bool) : M unit := λ m, (Ok tt, mkMachine (m_world m) (m_state m) b).
Definition get_world : M world := λ m, (Ok (m_world m), m).
Definition put_world (w : world) : M unit := λ m, (Ok tt, mkMachine w (m_state m) (m_flag m)).

Definition on_world (f : world → world) : M unit := λ m,
  (Ok tt, mkMachine (f (m_world m)) (m_state m) (m_flag m)).

Definition w_set_tick (n : nat) (w : world) : world :=
  mkWorld n (w_journal w) (w_versions w) (w_route w) (w_log w).
Definition w_set_journal (j : journal) (w : world) : world :=
  mkWorld (w_tick w) j (w_versions w) (w_route w) (w_log w).
Definition w_set_versions (v : vstore) (w : world) : world :=
  mkWorld (w_tick w) (w_journal w) v (w_route w) (w_log w).
Definition w_set_route (r : route) (w : world) : world :=
  mkWorld (w_tick w) (w_journal w) (w_versions w) r (w_log w ++ [EvRoute r]).
Definition w_event (e : event) (w : world) : world :=
  mkWorld (w_tick w) (w_journal w) (w_versions w) (w_route w) (w_log w ++ [e]).

(** The number of the next call. *)
Definition tick : M nat := λ m,
  let w := m_world m in
  (Ok (w_tick w), mkMachine (w_set_tick (S (w_tick w)) w) (m_state m) (m_flag m)).

Fixpoint for_eachM {A} (l : list A) (f : A → M unit) : M unit :=
  match l with
  | [] => ret tt
  | x :: l' => f x ;;; for_eachM l' f
  end.

(** ** The calls *)

Section Calls.
Variable ev : env.

(** [persist(state)]: [Store], which also updates the record in memory. *)
(* src: internal/deploy/bluegreen.go BlueGreen.persist *)
Definition persist : M unit := λ m,
  let t := w_tick (m_world m) in
  let '(r, s, j) := Store (e_fs ev t) (e_now ev t) (m_state m) (w_journal (m_world m)) in
  (r, mkMachine (w_set_tick (S t) (w_set_journal j (m_world m))) s (m_flag m)).

(** A failed write is only logged. *)
(* src: internal/deploy/bluegreen.go BlueGreen.storeState *)
Definition storeState : M unit := ignore persist.

Definition remove_state (app : string) : M unit := λ m,
  let t := w_tick (m_world m) in
  let '(r, j) := RemoveState (e_fs ev t) app (w_journal (m_world m)) in
  (r, mkMachine (w_set_tick (S t) (w_set_journal j (m_world m))) (m_state m) (m_flag m)).

Definition promote (app : string) (ver : Z) (mode : string) : M unit := λ m,
  let t := w_tick (m_world m) in
  let '(r, v) := PromoteVersion (e_vfs ev t) app ver (e_now ev t) mode (w_versions (m_world m)) in
  (r, mkMachine (w_set_tick (S t) (w_set_versions v (m_world m))) (m_state m) (m_flag m)).

(** A message to the proxy daemon, with its effect on the route.  A failed call
    may have been carried out before the answer was lost. *)
Definition proxy_call (effect : route → res route) : M unit :=
  do t <- tick;
  do w <- get_world;
  let run := match effect (w_route w) with
             | Ok r => on_world (w_set_route r)
             | Err e => throw e
             end in
  match e_proxy ev t with
  | None => run
  | Some (e, applied) => (if applied : bool then ignore run else ret tt) ;;; throw e
  end.

(** [EnrollApp]: sets the members, opening the port first where needed. *)
(* src: internal/proxy/control.go Daemon.EnrollApp *)
Definition proxy_Add (publicPort : Z) (primary : Target) (backends : list Target) : M unit :=
  proxy_call (λ _,
    if publicPort <=? 0 then Err (New CodeInvalidArgument "proxy: valid public port required")
    else if T_Host primary =s "" then
      Err (New CodeInvalidArgument "proxy: primary target host is required")
    else Ok (Some (primary, backends))).

(* src: internal/proxy/control.go Daemon.SwitchApp *)
Definition proxy_Switch (primary : Target) (backends : list Target) : M unit :=
  proxy_call (λ r, match r with
                   | None => Err (New CodeInvalidArgument
                       "proxy: app is not enrolled with the proxy daemon")
                   | Some _ => Ok (Some (primary, backends))
                   end).

(* src: internal/proxy/control.go Daemon.RemoveApp *)
Definition proxy_Remove : M unit := proxy_call (λ _, Ok None).

(** [Ping() == nil]. *)
Definition proxy_reachable : M bool :=
  do t <- tick; ret (e_ping ev t).

(** [Status] answers and lists the application. *)
(* src: internal/deploy/bluegreen.go BlueGreen.proxyEnrolled *)
Definition proxyEnrolled (has_client : bool) : M bool :=
  if negb has_client then ret false
  else
    do t <- tick;
    do w <- get_world;
    ret (e_status ev t && bool_decide (is_Some (w_route w)))%bool.

(** The launcher and the handle of the candidate. *)
Definition launch : M (proc * Z) :=
  do t <- tick;
  match e_launch ev t with
  | Err e => throw e
  | Ok (p, port) => on_world (w_event (EvLaunch (hostPort port))) ;;; ret (p, port)
  end.

(** [WaitForHealthy] on the candidate's port. *)
Definition wait_healthy (t : nat) (port : Z) : M unit :=
  match e_health ev t with
  | Some e => throw e
  | None => on_world (w_event (EvHealthy (hostPort port)))
  end.

(** [GracefulStop] through a held handle; its result is ignored by every
    caller modelled here. *)
Definition stop_held (port : Z) : M unit :=
  do _ <- tick; on_world (w_event (EvStop (hostPort port))).

(* src: internal/deploy/docker_identity.go stopByContainerID *)
Definition stopByContainerID (t : nat) (inst : Instance) : M ShutdownReport :=
  match os_inspect (e_os ev t) (I_ContainerID inst) with
  | InspectError not_running => ret (mkReport not_running false)
  | InspectOutput out =>
      let '(running, managed, ok) := cut_bar (TrimSpace out) in
      if (negb ok || ((running <>s "true") && (running <>s "false")))%bool
      then ret (mkReport false false)
      else if ((running =s "false") || (managed <>s "true"))%bool then ret (mkReport true false)
      else on_world (w_event (EvStop (hostPort (I_Port inst)))) ;;; ret (e_stop ev t)
  end.

(* src: internal/deploy/instance.go stopByPID *)
Definition stopByPID (t : nat) (inst : Instance) : M ShutdownReport :=
  if findVerifiedProcess (e_os ev t) (I_PID inst) (I_BinaryPath inst)
  then on_world (w_event (EvStop (hostPort (I_Port inst)))) ;;; ret (e_stop ev t)
  else ret (mkReport true false).

(* src: internal/deploy/docker_identity.go stopInstance *)
Definition stopInstance (inst : Instance) : M ShutdownReport :=
  do t <- tick;
  if I_ContainerID inst <>s "" then stopByContainerID t inst
  else if negb (InstanceAlive (e_os ev t) inst) then ret (mkReport true false)
  else stopByPID t inst.

(** [InstanceAlive] at some moment of the run. *)
Definition alive_now (inst : Instance) : M bool :=
  do t <- tick; ret (InstanceAlive (e_os ev t) inst).

(* src: internal/deploy/lifecycle.go stopRetiredInstances *)
Definition stopRetiredInstances (retired : list Instance) : M unit :=
  for_eachM retired (λ inst,
    if negb (recorded inst) then ret tt
    else
      do report <- stopInstance inst;
      if negb (rep_Exited report)
      then throw (New CodeProcessFailed "cannot confirm retired instance stopped")
      else ret tt).

(** The record of the state switched to another strategy; the instances of the
    previous one are returned. *)
(* src: internal/deploy/state.go DeployState.MigrateTo *)
Definition MigrateTo (mode : string) : M (list Instance) :=
  do s <- get_state;
  if D_Mode s =s mode then ret []
  else
    let '(s', retired) := migrated (e_order ev) mode s in
    set_state s' ;;; persist ;;; ret retired.
End Calls.

(** Update the record of one slot, of one replica. *)
Definition on_slot (slot : string) (f : Instance → Instance) (s : DeployState) : DeployState :=
  with_Slots (alter f slot (D_Slots s)) s.
Definition on_replica (key : string) (f : Instance → Instance) (s : DeployState) : DeployState :=
  with_Replicas (alter f key (D_Replicas s)) s.
Definition set_replica (key : string) (i : Instance) (s : DeployState) : DeployState :=
  with_Replicas (<[key := i]> (D_Replicas s)) s.

(** Mark a state that accepts instances with the values of a secret
    transaction, given by its id. *)
(* src: internal/deploy/secrets_txn.go SecretTxn.Stamp *)
Definition Stamp (txn : option string) (retired : list Instance) (s : DeployState) : DeployState :=
  let s := with_SecretCleanupPending false (with_SecretTxnID "" (with_secretPreparing false s)) in
  match txn with
  | None => s
  | Some id =>
      with_Retiring (D_Retiring s ++ List.filter recorded retired)
        (with_SecretCleanupPending (id <>s "") (with_SecretTxnID id s))
  end.

(** ** Traces

    What traffic can see of a run.  [ready] holds the addresses that may take
    traffic: those routed when the run began and those found healthy since,
    less those stopped. *)

Record trace_state := mkTrace { ts_route : route; ts_ready : list string }.

Definition route_hosts (r : route) : list string :=
  match r with
  | None => []
  | Some (primary, backends) => T_Host <$> primary :: backends
  end.

Definition trace_start (r : route) : trace_state := mkTrace r (route_hosts r).

Definition trace_step (ts : trace_state) (e : event) : trace_state :=
  match e with
  | EvLaunch _ => ts
  | EvHealthy h => mkTrace (ts_route ts) (h :: ts_ready ts)
  | EvStop h => mkTrace (ts_route ts) (List.filter (λ x, x <>s h) (ts_ready ts))
  | EvRoute r => mkTrace r (ts_ready ts)
  end.

(** A stop may not hit a routed address, a route may name ready addresses only,
    and a route may be taken away only where [may_remove] says so. *)
Definition event_ok (may_remove : bool) (ts : trace_state) (e : event) : bool :=
  match e with
  | EvLaunch _ | EvHealthy _ => true
  | EvStop h => negb (one_of h (route_hosts (ts_route ts)))
  | EvRoute None => may_remove
  | EvRoute r => forallb (λ h, one_of h (ts_ready ts)) (route_hosts r)
  end.

Fixpoint trace_ok (may_remove : bool) (ts : trace_state) (log : list event) : bool :=
  match log with
  | [] => true
  | e :: log' => (event_ok may_remove ts e && trace_ok may_remove (trace_step ts e) log')%bool
  end.

Definition trace_end (ts : trace_state) (log : list event) : trace_state := foldl trace_step ts log.

Lemma trace_ok_app mr ts l1 l2 :
  trace_ok mr ts (l1 ++ l2) = (trace_ok mr ts l1 && trace_ok mr (trace_end ts l1) l2)%bool.
Proof.
  revert ts. induction l1 as [|e l1 IH]; intros ts; [done|]. simpl. by rewrite IH, andb_assoc.
Qed.

(** The run from [w0] to [w] left a good trace, with [ready] at its end. *)
Definition traced (mr : bool) (w0 w : world) (ready : list string) : Prop :=
  ∃ l, w_log w = w_log w0 ++ l ∧ trace_ok mr (trace_start (w_route w0)) l = true ∧
       trace_end (trace_start (w_route w0)) l = mkTrace (w_route w) ready.

Lemma traced_refl mr w : traced mr w w (route_hosts (w_route w)).
Proof. exists []. by rewrite app_nil_r. Qed.

(** One more event. *)
Lemma traced_event mr w0 w w' ready e :
  traced mr w0 w ready → event_ok mr (mkTrace (w_route w) ready) e = true →
  w_log w' = w_log w ++ [e] →
  w_route w' = ts_route (trace_step (mkTrace (w_route w) ready) e) →
  traced mr w0 w' (ts_ready (trace_step (mkTrace (w_route w) ready) e)).
Proof.
  intros (l & Hl & Hok & Hend) He Hlog Hr. exists (l ++ [e]).
  rewrite Hlog, Hl, app_assoc, trace_ok_app, Hend, Hok. unfold trace_end in *.
  rewrite foldl_app, Hend. simpl. rewrite He. split_and!; [done|done|].
  rewrite Hr. by destruct e.
Qed.

Lemma traced_unseen mr w0 w w' ready :
  w_log w' = w_log w → w_route w' = w_route w → traced mr w0 w ready → traced mr w0 w' ready.
Proof. intros Hl Hr (l & ? & ? & ?). exists l. by rewrite Hl, Hr. Qed.

(** ** The program logic *)

Definition wp {A} (x : M A) (Q : res A → machine → Prop) (m : machine) : Prop :=
  Q (x m).1 (x m).2.

Section WP.
Context {A B : Type}.
Implicit Types (m : machine).

Lemma wp_bind (x : M A) (f : A → M B) Q m :
  wp x (λ r m', match r with Ok a => wp (f a) Q m' | Err e => Q (Err e) m' end) m →
  wp (bindM x f) Q m.
Proof. unfold wp, bindM. by destruct (x m) as [[a|e] m']. Qed.

Lemma wp_mono (x : M A) (P Q : res A → machine → Prop) m :
  wp x P m → (∀ r m', P r m' → Q r m') → wp x Q m.
Proof. unfold wp. auto. Qed.

Lemma wp_attempt (x : M A) (Q : res (res A) → machine → Prop) m :
  wp x (λ r m', Q (Ok r) m') m → wp (attempt x) Q m.
Proof. unfold wp, attempt. by destruct (x m). Qed.

Lemma wp_wrap_err (x : M A) f (Q : res A → machine → Prop) m :
  wp x (λ r m', Q (match r with Ok a => Ok a | Err e => Err (f e) end) m') m → wp (wrap_err x f) Q m.
Proof. unfold wp, wrap_err. by destruct (x m). Qed.

Lemma wp_ignore (x : M A) (Q : res unit → machine → Prop) m :
  wp x (λ r m', Q (Ok tt) m') m → wp (ignore x) Q m.
Proof. unfold wp, ignore, bindM, attempt. by destruct (x m). Qed.
End WP.

(** The primitive steps. *)
Lemma wp_ret {A} (a : A) (Q : res A → machine → Prop) m : Q (Ok a) m → wp (ret a) Q m.
Proof. done. Qed.

Lemma wp_throw {A} e (Q : res A → machine → Prop) m : Q (Err e) m → wp (throw e) Q m.
Proof. done. Qed.

Lemma wp_get_state (Q : res DeployState → machine → Prop) m : Q (Ok (m_state m)) m → wp get_state Q m.
Proof. done. Qed.

Lemma wp_set_state s (Q : res unit → machine → Prop) m :
  Q (Ok tt) (mkMachine (m_world m) s (m_flag m)) → wp (set_state s) Q m.
Proof. done. Qed.

Lemma wp_modify f (Q : res unit → machine → Prop) m :
  Q (Ok tt) (mkMachine (m_world m) (f (m_state m)) (m_flag m)) → wp (modify f) Q m.
Proof. done. Qed.

Lemma wp_get_flag (Q : res bool → machine → Prop) m : Q (Ok (m_flag m)) m → wp get_flag Q m.
Proof. done. Qed.

Lemma wp_set_flag b (Q : res unit → machine → Prop) m :
  Q (Ok tt) (mkMachine (m_world m) (m_state m) b) → wp (set_flag b) Q m.
Proof. done. Qed.

Lemma wp_get_world (Q : res world → machine → Prop) m : Q (Ok (m_world m)) m → wp get_world Q m.
Proof. done. Qed.

Lemma wp_on_world f (Q : res unit → machine → Prop) m :
  Q (Ok tt) (mkMachine (f (m_world m)) (m_state m) (m_flag m)) → wp (on_world f) Q m.
Proof. done. Qed.

Lemma wp_tick (Q : res nat → machine → Prop) m :
  Q (Ok (w_tick (m_world m)))
    (mkMachine (w_set_tick (S (w_tick (m_world m))) (m_world m)) (m_state m) (m_flag m)) →
  wp tick Q m.
Proof. done. Qed.

(** Symbolic execution up to the next call or branch. *)
Ltac wp_step :=
  lazymatch goal with
  | |- wp (bindM _ _) _ _ => apply wp_bind
  | |- wp (attempt _) _ _ => apply wp_attempt
  | |- wp (ignore _) _ _ => apply wp_ignore
  | |- wp (wrap_err _ _) _ _ => apply wp_wrap_err
  | |- wp (ret _) _ _ => apply wp_ret
  | |- wp (throw _) _ _ => apply wp_throw
  | |- wp get_state _ _ => apply wp_get_state
  | |- wp (set_state _) _ _ => apply wp_set_state
  | |- wp (modify _) _ _ => apply wp_modify
  | |- wp get_flag _ _ => apply wp_get_flag
  | |- wp (set_flag _) _ _ => apply wp_set_flag
  | |- wp get_world _ _ => apply wp_get_world
  | |- wp (on_world _) _ _ => apply wp_on_world
  | |- wp tick _ _ => apply wp_tick
  end; cbv beta iota; cbn [m_world m_state m_flag].
Ltac wp_steps := repeat wp_step.

(** [wp_call spec]: a call by its specification. *)
Ltac wp_call H := eapply wp_mono; [eapply H|]; cbv beta.

(** The invariant rule of a loop. *)
Lemma wp_for_each {A} (P : machine → Prop) (f : A → M unit) l m :
  P m → (∀ x m, x ∈ l → P m → wp (f x) (λ _ m', P m') m) → wp (for_eachM l f) (λ _ m', P m') m.
Proof.
  revert m. induction l as [|x l IH]; intros m HP Hf; [done|]. cbn [for_eachM].
  apply wp_bind. eapply wp_mono; [by apply Hf; [left|]|].
  intros [[]|e] m' HP'; [|done]. apply IH; [done|]. intros y m'' Hy. apply Hf. by right.
Qed.

(** The same with what a run of the loop that stops on an error knows. *)
Lemma wp_for_each_ok {A} (P : machine → Prop) (C : Prop) (f : A → M unit) l m :
  P m → (∀ x m, x ∈ l → P m → wp (f x) (λ r m', P m' ∧ (C → r = Ok tt)) m) →
  wp (for_eachM l f) (λ r m', P m' ∧ (C → r = Ok tt)) m.
Proof.
  revert m. induction l as [|x l IH]; intros m HP Hf; [done|]. cbn [for_eachM].
  apply wp_bind. eapply wp_mono; [by apply Hf; [left|]|].
  intros [[]|e] m' HP'; [|done]. apply IH; [apply HP'|]. intros y m'' Hy. apply Hf. by right.
Qed.

(** Calls that only read the world, count, or write the journal or the version
    store: traffic does not notice them. *)
Definition unseen (m m' : machine) : Prop :=
  w_route (m_world m') = w_route (m_world m) ∧ w_log (m_world m') = w_log (m_world m) ∧
  m_flag m' = m_flag m ∧ (w_tick (m_world m) ≤ w_tick (m_world m'))%nat.

#[export] Instance unseen_preorder : PreOrder unseen.
Proof.
  split; [by intros m|]. intros m1 m2 m3 (? & ? & ? & ?) (? & ? & ? & ?).
  split_and!; [congruence..|lia].
Qed.

(** What persistence may change of the record in memory. *)
Definition touched (s s' : DeployState) : Prop :=
  ∃ c u, s' = with_UpdatedAt u (with_SecretCleanupPending c s).

Lemma Store_touched fl now s j r s' j' : Store fl now s j = (r, s', j') → touched s s'.
Proof.
  assert (touched s s) as Hs by (by exists (D_SecretCleanupPending s), (D_UpdatedAt s); destruct s).
  assert (∀ u, touched s (with_UpdatedAt u s)) as Hu
    by (intros u; by exists (D_SecretCleanupPending s), u; destruct s).
  unfold Store. destruct (D_AppName s =s ""); [by intros [= <- <- <-]|].
  destruct (D_secretPreparing s); [by intros [= <- <- <-]|].
  set (s1 := if D_SecretTxnID s =s "" then _ else s).
  assert (touched s s1 ∧ ∀ u, touched s (with_UpdatedAt u s1)) as [H1 H2].
  { subst s1. destruct (D_SecretTxnID s =s ""); [|done]. split.
    - by exists false, (D_UpdatedAt s).
    - intros u. by exists false, u. }
  destruct (ValidateAppName (D_AppName s1)); [|by intros [= <- <- <-]].
  destruct (fl op_mkdir); [by intros [= <- <- <-]|].
  destruct (run_prog _ _ _) as [r' j1]. intros [= <- <- <-]. apply H2.
Qed.

Section Calls_spec.
Context (ev : env).
Implicit Types (m : machine).

Lemma wp_persist m :
  wp (persist ev) (λ _ m', unseen m m' ∧ touched (m_state m) (m_state m')) m.
Proof.
  unfold wp, persist. destruct (Store _ _ _ _) as [[r s] j] eqn:Hs. simpl.
  split; [split_and!; simpl; auto|]. by eapply Store_touched.
Qed.

Lemma wp_storeState m :
  wp (storeState ev) (λ r m', r = Ok tt ∧ unseen m m' ∧ touched (m_state m) (m_state m')) m.
Proof. apply wp_ignore. eapply wp_mono; [apply wp_persist|]. auto. Qed.

(** The handle of a live process is signalled, or nothing happens. *)
Lemma wp_stopInstance inst m :
  wp (stopInstance ev inst) (λ r m', m_state m' = m_state m ∧ m_flag m' = m_flag m ∧
    (∃ rep, r = Ok rep) ∧ ∃ t, (w_tick (m_world m) ≤ t)%nat ∧
    (m_world m' = w_set_tick t (m_world m) ∨
    (∃ t', InstanceAlive (e_os ev t') inst = true) ∧
    m_world m' = w_event (EvStop (hostPort (I_Port inst))) (w_set_tick t (m_world m)))) m.
Proof.
  unfold wp, stopInstance, bindM, tick. simpl. set (t := w_tick (m_world m)).
  assert (t ≤ S t)%nat as Ht by lia.
  destruct (I_ContainerID inst <>s "") eqn:Ec.
  - unfold stopByContainerID. destruct (os_inspect _ _) as [nr|out] eqn:Eo; simpl; [by eauto 9|].
    destruct (cut_bar (TrimSpace out)) as [[running managed] ok] eqn:Ecut.
    destruct (negb ok || ((running <>s "true") && (running <>s "false")))%bool eqn:E1;
      simpl; [by eauto 9|].
    destruct ((running =s "false") || (managed <>s "true"))%bool eqn:E2; simpl; [by eauto 9|].
    split; [done|]. split; [done|]. split; [by eauto|]. exists (S t). split; [done|]. right.
    split; [|done]. exists t. unfold InstanceAlive, dockerContainerAlive.
    rewrite Ec. apply negb_true_iff in Ec. rewrite Ec, Eo, Ecut.
    apply orb_false_iff in E1 as [-> E1], E2 as [E2 E3]. rewrite E2, andb_true_r in E1.
    apply negb_false_iff in E1, E3. by rewrite E1, E3.
  - destruct (InstanceAlive _ _) eqn:Ea; simpl; [|by eauto 9].
    unfold stopByPID. destruct (findVerifiedProcess _ _ _); simpl; [|by eauto 9].
    split; [done|]. split; [done|]. split; [by eauto|]. exists (S t). eauto.
Qed.

Lemma wp_proxy_call effect m :
  (∀ t e applied, e_proxy ev t = Some (e, applied) → applied = false) →
  wp (proxy_call ev effect) (λ r m', m_state m' = m_state m ∧ m_flag m' = m_flag m ∧
    let t := w_tick (m_world m) in
    match r with
    | Err _ => m_world m' = w_set_tick (S t) (m_world m) ∧
               ((∃ e, effect (w_route (m_world m)) = Err e) ∨ e_proxy ev t ≠ None)
    | Ok _ => ∃ rt, effect (w_route (m_world m)) = Ok rt ∧
                    m_world m' = w_set_route rt (w_set_tick (S t) (m_world m))
    end) m.
Proof.
  intros Hl. unfold wp, proxy_call, bindM, tick, get_world. simpl.
  destruct (e_proxy ev _) as [[e applied]|] eqn:Ep; simpl.
  - rewrite (Hl _ _ _ Ep). simpl. split_and!; try done. by right.
  - destruct (effect _) as [rt|e]; simpl; split_and!; eauto.
Qed.
End Calls_spec.

(** ** The traffic invariant

    Since [w0] the trace was good and the addresses [keep] may take traffic. *)

Definition Inv (mr : bool) (w0 : world) (keep : list string) (w : world) : Prop :=
  ∃ ready, traced mr w0 w ready ∧ ∀ h, h ∈ keep → h ∈ ready.

Section Invariant.
Context (mr : bool) (w0 : world).
Implicit Types (w : world) (keep : list string).

Lemma Inv_start : Inv mr w0 (route_hosts (w_route w0)) w0.
Proof. eexists. split; [apply traced_refl|done]. Qed.

Lemma Inv_weaken keep keep' w : (∀ h, h ∈ keep' → h ∈ keep) → Inv mr w0 keep w → Inv mr w0 keep' w.
Proof. intros Hk (R & Ht & HR). exists R. auto. Qed.

Lemma Inv_unseen keep w w' :
  w_log w' = w_log w → w_route w' = w_route w → Inv mr w0 keep w → Inv mr w0 keep w'.
Proof. intros Hl Hr (R & Ht & HR). exists R. split; [|done]. by eapply traced_unseen. Qed.

Lemma Inv_launch h keep w : Inv mr w0 keep w → Inv mr w0 keep (w_event (EvLaunch h) w).
Proof.
  intros (R & Ht & HR). exists R. split; [|done]. by apply (traced_event _ _ _ _ _ (EvLaunch h) Ht).
Qed.

Lemma Inv_healthy h keep w : Inv mr w0 keep w → Inv mr w0 (h :: keep) (w_event (EvHealthy h) w).
Proof.
  intros (R & Ht & HR). exists (h :: R).
  split; [by apply (traced_event _ _ _ _ _ (EvHealthy h) Ht)|].
  intros x [->|Hx]%elem_of_cons; [by left|right; auto].
Qed.

Lemma Inv_stop h keep w :
  h ∉ route_hosts (w_route w) → h ∉ keep → Inv mr w0 keep w → Inv mr w0 keep (w_event (EvStop h) w).
Proof.
  intros Hr Hk (R & Ht & HR). eexists. split.
  - apply (traced_event _ _ _ _ _ (EvStop h) Ht); [|done|done]. simpl.
    by apply negb_true_iff, one_of_false.
  - intros x Hx. simpl. apply list_elem_of_In, filter_In. rewrite <- list_elem_of_In.
    split; [auto|]. apply negb_true_iff, String.eqb_neq. by intros ->.
Qed.

Lemma Inv_route r keep w :
  (r = None → mr = true) → (∀ h, h ∈ route_hosts r → h ∈ keep) →
  Inv mr w0 keep w → Inv mr w0 keep (w_set_route r w).
Proof.
  intros Hmr Hr (R & Ht & HR). exists R. split; [|done].
  apply (traced_event _ _ _ _ _ (EvRoute r) Ht); [|done|done]. destruct r as [t|]; [|by apply Hmr].
  cbn [event_ok]. apply forallb_forall. intros h Hh%list_elem_of_In. by apply one_of_true, HR, Hr.
Qed.
End Invariant.
