(* ===== verification/Traffic.v ===== *)
(** * Traffic: the triples the deployment strategies share

    A moment of a run as traffic sees it - the trace so far is good, certain
    addresses may take traffic, the route is known - together with what is
    known of the record in memory, and how each call of [Engine] changes it. *)

From S2P Require Import Prelude GoLib FileStore ProxyRouting DeployState Versions Engine Errors.

(** A predicate on the variables of a run, the flag and the record, that
    persistence preserves. *)
Class Persistent (St : bool → DeployState → Prop) : Prop :=
  persistent f s s' : touched s s' → St f s → St f s'.

Section Traffic.
Context (ev : env) (mr : bool) (w0 : world).
Context (St : bool → DeployState → Prop) `{!Persistent St}.
Implicit Types (m : machine) (K : list string) (r : route) (n : nat).

(** At least [n] calls were made, the trace is good so far, the addresses [K]
    may take traffic, the route is [r] and the record satisfies [St]. *)
Definition traffic n K r m : Prop :=
  Inv mr w0 K (m_world m) ∧ w_route (m_world m) = r ∧ St (m_flag m) (m_state m) ∧
  (n ≤ w_tick (m_world m))%nat.

Lemma traffic_step n K r m w' s' f :
  w_route w' = w_route (m_world m) → w_log w' = w_log (m_world m) →
  (w_tick (m_world m) ≤ w_tick w')%nat → St f s' →
  traffic n K r m → traffic n K r (mkMachine w' s' f).
Proof.
  intros Hr Hl Ht Hs (HI & Hr0 & _ & Hn).
  split_and!; [by eapply Inv_unseen|simpl; congruence|done|simpl; lia].
Qed.

Lemma traffic_tick n K r m :
  traffic n K r m →
  traffic n K r (mkMachine (w_set_tick (S (w_tick (m_world m))) (m_world m)) (m_state m) (m_flag m)).
Proof. intros Hm. eapply traffic_step; [done|done|simpl; lia|apply Hm|done]. Qed.

Lemma traffic_end n K r m : traffic n K r m → Inv mr w0 [] (m_world m).
Proof. intros [HI _]. eapply Inv_weaken; [|done]. by intros ? ?%not_elem_of_nil. Qed.

Lemma traffic_launch n K r h w st f :
  traffic n K r (mkMachine w st f) → traffic n K r (mkMachine (w_event (EvLaunch h) w) st f).
Proof. intros (HI & ?). split; [|done]. by apply Inv_launch. Qed.

Lemma traffic_healthy n K r h w st f :
  traffic n K r (mkMachine w st f) → traffic n (h :: K) r (mkMachine (w_event (EvHealthy h) w) st f).
Proof. intros (HI & ?). split; [|done]. by apply Inv_healthy. Qed.

Lemma traffic_unseen n K r m m' :
  unseen m m' → touched (m_state m) (m_state m') → traffic n K r m → traffic n K r m'.
Proof.
  intros (Hr & Hl & Hf & Hle) Ht (HI & Hr0 & Hk & Hn).
  split_and!; [by eapply Inv_unseen|congruence|rewrite Hf; by eapply persistent|lia].
Qed.

Lemma traffic_weaken n K K' r m : (∀ h, h ∈ K' → h ∈ K) → traffic n K r m → traffic n K' r m.
Proof. intros HK (HI & ?). split; [|done]. by eapply Inv_weaken. Qed.

Lemma persist_traffic n K r m : traffic n K r m → wp (persist ev) (λ _ m', traffic n K r m') m.
Proof. intros. wp_call wp_persist. intros _ m' [Hu Ht]. by eapply traffic_unseen. Qed.

Lemma storeState_traffic n K r m :
  traffic n K r m → wp (storeState ev) (λ x m', x = Ok tt ∧ traffic n K r m') m.
Proof.
  intros. wp_call wp_storeState. intros x m' (-> & Hu & Ht). split; [done|].
  by eapply traffic_unseen.
Qed.

(** Stopping an instance that, if alive, is neither routed nor needed. *)
Lemma stop_traffic n K r inst m :
  (∀ t, InstanceAlive (e_os ev t) inst = true →
        (hostPort (I_Port inst) ∉ route_hosts r) ∧ (hostPort (I_Port inst) ∉ K)) →
  traffic n K r m →
  wp (stopInstance ev inst) (λ x m', traffic n K r m' ∧ ∃ rep, x = Ok rep) m.
Proof.
  intros Hn (HI & Hr & Hk & Hle). wp_call wp_stopInstance.
  intros x m' (Hs & Hf & Hx & t & Hlt & Hw). split; [|done]. unfold traffic. rewrite Hs, Hf.
  destruct Hw as [->|[[t' Ha] ->]]; split_and!; simpl; try done; try lia.
  destruct (Hn _ Ha). apply Inv_stop; [by simpl; rewrite Hr|done|].
  by eapply Inv_unseen; [..|exact HI].
Qed.

Lemma stop_held_traffic n K r port m :
  hostPort port ∉ route_hosts r → hostPort port ∉ K → traffic n K r m →
  wp (stop_held port) (λ x m', x = Ok tt ∧ traffic n K r m') m.
Proof.
  intros Hr HK (HI & Hrt & Hk & Hn). unfold stop_held. wp_steps.
  split; [done|]. split_and!; [|done|done|simpl; lia]. apply Inv_stop; [by simpl; rewrite Hrt|done|].
  by eapply Inv_unseen; [..|exact HI].
Qed.

Lemma proxy_traffic n K r effect m :
  (∀ t e applied, e_proxy ev t = Some (e, applied) → applied = false) →
  (∀ rt, effect r = Ok rt → (rt = None → mr = true) ∧ ∀ h, h ∈ route_hosts rt → h ∈ K) →
  traffic n K r m →
  wp (proxy_call ev effect)
    (λ x m', match x with
             | Ok _ => ∃ rt, effect r = Ok rt ∧ traffic n K rt m'
             | Err _ => traffic n K r m' ∧ ((∃ e, effect r = Err e) ∨ ∃ t, e_proxy ev t ≠ None)
             end) m.
Proof.
  intros Hl He (HI & Hr & Hk & Hn). wp_call wp_proxy_call; [apply Hl|].
  intros x m' (Hs & Hf & Hw). cbv zeta in Hw. rewrite Hr in Hw. destruct x as [[]|e].
  - destruct Hw as (rt & Hrt & Hw). exists rt. split; [done|]. unfold traffic. rewrite Hs, Hf, Hw.
    split_and!; [|done|done|simpl; lia]. destruct (He _ Hrt) as [Hnone Hh]. apply Inv_route; [done|done|].
    by eapply Inv_unseen; [..|exact HI].
  - destruct Hw as [Hw Hwhy]. split; [|naive_solver]. unfold traffic. rewrite Hs, Hf, Hw.
    split_and!; [|done|done|simpl; lia]. by eapply Inv_unseen; [..|exact HI].
Qed.

(** A launched process, at a call that was not made before. *)
Lemma launch_traffic n K r m :
  traffic n K r m →
  wp (launch ev) (λ x m', match x with
    | Ok (p, port) => ∃ t, (n ≤ t)%nat ∧ e_launch ev t = Ok (p, port) ∧ traffic (S t) K r m'
    | Err _ => traffic n K r m'
    end) m.
Proof.
  intros (HI & Hr & Hs & Hn). unfold launch. wp_steps.
  destruct (e_launch ev _) as [[p port]|e] eqn:El; wp_steps.
  - exists (w_tick (m_world m)). split; [done|]. split; [done|].
    split_and!; simpl; [|done..]. by apply Inv_launch.
  - split_and!; simpl; [|done..|lia]. done.
Qed.
End Traffic.

(** Once nothing has to stay routed any more, a write of the record is
    harmless whatever it says. *)
Lemma persist_Inv ev mr w0 K m :
  Inv mr w0 K (m_world m) → wp (persist ev) (λ _ m', Inv mr w0 K (m_world m')) m.
Proof. intros HI. wp_call wp_persist. intros _ m' [(Hr & Hl & _) _]. by eapply Inv_unseen. Qed.

Lemma storeState_Inv ev mr w0 K m :
  Inv mr w0 K (m_world m) → wp (storeState ev) (λ x m', x = Ok tt ∧ Inv mr w0 K (m_world m')) m.
Proof.
  intros HI. wp_call wp_storeState. intros x m' (-> & (Hr & Hl & _) & _).
  split; [done|]. by eapply Inv_unseen.
Qed.
