(* ===== verification/Lifecycle.v ===== *)
(** * Lifecycle: stopping, starting and reconciling deployments

    internal/deploy/lifecycle.go and docker_reconcile.go: what the journal
    claims against what is alive ([DecideLifecycle], [Reconcile]), the teardown
    and the restart of a deployment, the restoration of its proxy route, the
    replica bookkeeping, and the removal of orphaned containers. *)

From S2P Require Import Prelude GoLib FileStore ProxyRouting DeployState Versions Engine Errors.

Section Operations.
Variable ev : env.

(** *** Teardown *)

(** The loop body of [stopAll]: the record of the instance afterwards.  Whether
    the process exited is not looked at. *)
(* src: internal/deploy/lifecycle.go:325-341 TeardownDeployment *)
Definition stop_recorded (on : string → (Instance → Instance) → DeployState → DeployState)
    (p : string * Instance) : M unit :=
  let '(key, inst) := p in
  let mark := modify (on key (λ i, inst_Status "stopped" (inst_PID 0 i))) in
  if negb (recorded inst) then ret tt
  else
    do alive <- alive_now ev inst;
    if negb alive then mark
    else stopInstance ev inst ;;; mark.

(* src: internal/deploy/lifecycle.go TeardownDeployment *)
Definition TeardownDeployment : M unit :=
  do s <- get_state;
  if D_AppName s =s "" then
    throw (New CodeInvalidArgument "deploy: teardown requires app state")
  else
    for_eachM (in_order (e_order ev) (D_Slots s)) (stop_recorded on_slot) ;;;
    for_eachM (in_order (e_order ev) (D_Replicas s)) (stop_recorded on_replica) ;;;
    wrap_err (persist ev)
      (wrap CodeFilesystem ("deploy: persist teardown state for " +:+ D_AppName s)).

(** *** Start *)

(** The instances to start, by key, in order. *)
(* src: internal/deploy/lifecycle.go:381-407 StartDeployment *)
Definition to_start (s : DeployState) : res (list (string * Instance)) :=
  if D_Mode s =s ModeBlueGreen then
    match ActiveInstance s with
    | Some inst =>
        if I_BinaryPath inst =s "" then Err (New CodeNotFound
          ("no deployable instance recorded for " +:+ D_AppName s))
        else Ok [(D_ActiveSlot s, inst)]
    | None => Err (New CodeNotFound ("no deployable instance recorded for " +:+ D_AppName s))
    end
  else if D_Mode s =s ModeRolling then
    if bool_decide (D_Replicas s = ∅) then
      Err (New CodeNotFound ("no replicas recorded for " +:+ D_AppName s))
    else
      let l := omap (λ k, match D_Replicas s !! k with
                          | Some inst => if I_BinaryPath inst <>s "" then Some (k, inst) else None
                          | None => None
                          end) (sortedReplicaKeys (D_Replicas s)) in
      match l with
      | [] => Err (New CodeNotFound ("no deployable replicas recorded for " +:+ D_AppName s))
      | _ => Ok l
      end
  else Err (New CodeInvalidArgument ("unsupported deploy mode " +:+ Quote (D_Mode s))).

Definition RuntimeDocker := "docker".

(* src: internal/deploy/runtime.go IsDockerRuntime *)
Definition IsDockerRuntime (r : string) : bool := r =s RuntimeDocker.

(* src: internal/deploy/lifecycle.go:409-412 StartDeployment *)
Definition start_runtime (s : DeployState) (first : Instance) : string :=
  if ((D_Runtime s =s "") && (I_ContainerID first <>s ""))%bool then RuntimeDocker else D_Runtime s.

(** The record of a restarted instance. *)
(* src: internal/deploy/lifecycle.go:444-453 StartDeployment *)
Definition restarted (envs : list string) (p : proc) (port now : Z) (i : Instance) : Instance :=
  mkInstance envs (I_Slot i) (p_pid p) port (I_BinaryPath i) (p_container p) now "running"
    (I_Version i) (I_EnvPath i) (p_ticks p).

Definition on_serving (mode key : string) (f : Instance → Instance) : DeployState → DeployState :=
  if mode =s ModeBlueGreen then on_slot key f else on_replica key f.

(* src: internal/deploy/lifecycle.go:418-459 StartDeployment *)
Definition start_one (mode app runtime : string) (p : string * Instance) : M unit :=
  let '(key, inst) := p in
  do alive <- alive_now ev inst;
  if alive : bool then ret tt
  else
    (if IsDockerRuntime runtime then ret tt
     else
       do t <- tick;
       match e_binary ev t with
       | Some e => throw (wrap CodeNotFound ("deploy: recorded binary for " +:+ app +:+ " is gone") e)
       | None => ret tt
       end) ;;;
    do t <- tick;
    do envs <- wrap_err (λ m, (e_overlay ev t, m))
      (λ e, wrap (CodeOf (Some e)) ("deploy: load env snapshot for " +:+ app) e);
    do (proc, port) <- wrap_err (launch ev)
      (wrap CodeInstanceStartFailed ("deploy: start " +:+ app +:+ " instance"));
    do t <- tick;
    if negb (e_listens ev t) then
      stop_held port ;;;
      throw (New CodePortUnavailable
        ("restored " +:+ app +:+ " instance did not listen on " +:+ hostPort port))
    else
      modify (on_serving mode key (restarted envs proc port (e_now ev t))) ;;;
      modify (λ s, with_SecretCleanupPending false (with_SecretTxnID "" s)) ;;;
      do r <- attempt (persist ev);
      match r with
      | Ok _ => ret tt
      | Err e =>
          stop_held port ;;;
          throw (wrap CodeFilesystem ("deploy: persists start state for " +:+ app) e)
      end.

(* src: internal/deploy/lifecycle.go StartDeployment *)
Definition StartDeployment : M unit :=
  do s <- get_state;
  if D_AppName s =s "" then throw (New CodeInvalidArgument "deploy: start requires app state")
  else
    match to_start s with
    | Err e => throw e
    | Ok [] => ret tt
    | Ok ((key, first) :: l) =>
        for_eachM ((key, first) :: l) (start_one (D_Mode s) (D_AppName s) (start_runtime s first))
    end.

(** *** The proxy route *)

(** The members of the route: the active instance, or every recorded replica. *)
(* src: internal/deploy/lifecycle.go:475-503 RestoreProxyRoute *)
Definition route_members (s : DeployState) : res (Target * list Target) :=
  if D_Mode s =s ModeBlueGreen then
    match ActiveInstance s with
    | Some inst =>
        if recorded inst then Ok (mkTarget (hostPort (I_Port inst)) (I_Slot inst) 0, [])
        else Err (New CodeNotFound ("no running instance for " +:+ D_AppName s))
    | None => Err (New CodeNotFound ("no running instance for " +:+ D_AppName s))
    end
  else if D_Mode s =s ModeRolling then
    let members := omap (λ k, match D_Replicas s !! k with
                              | Some inst => if recorded inst
                                  then Some (mkTarget (hostPort (I_Port inst)) ("replica-" +:+ k) 0)
                                  else None
                              | None => None
                              end) (sortedReplicaKeys (D_Replicas s)) in
    match members with
    | [] => Err (New CodeNotFound ("no running replicas for " +:+ D_AppName s))
    | primary :: backends => Ok (primary, backends)
    end
  else Err (New CodeInvalidArgument ("unsupported deploy mode " +:+ Quote (D_Mode s))).

(* src: internal/deploy/lifecycle.go RestoreProxyRoute *)
Definition RestoreProxyRoute (has_client : bool) (s : DeployState) : M unit :=
  if negb has_client then throw (New CodeProxy "no proxy client")
  else match route_members s with
  | Err e => throw e
  | Ok (primary, backends) =>
      do enrolled <- proxyEnrolled ev true;
      if enrolled : bool then
        wrap_err (proxy_Switch ev primary backends)
          (wrap CodeProxy ("proxy switch failed for " +:+ D_AppName s))
      else
        wrap_err (proxy_Add ev (D_PublicPort s) primary backends)
          (wrap CodeProxy ("proxy enrol failed for " +:+ D_AppName s))
  end.
End Operations.

(** *** Orphaned containers *)

(* src: internal/deploy/docker_reconcile.go KnownContainerIDs *)
Definition KnownContainerIDs (order : list string → list string) (s : DeployState) : list string :=
  List.filter (λ id, id <>s "")
    (I_ContainerID <$> D_Retiring s ++ (in_order order (D_Slots s)).*2 ++
                       (in_order order (D_Replicas s)).*2).

(** [ps]: the answer of [docker ps]; [rm id]: [docker rm -f id] succeeds. *)
(* src: internal/deploy/docker_reconcile.go reconcileOrphanContainers *)
Definition reconcileOrphanContainers (ps : res string) (rm : string → bool) (known : string → bool)
  : res (list string) :=
  match ps with
  | Err e => Err (wrap CodeDocker "deploy: list phelix-managed containers" e)
  | Ok out =>
      Ok (List.filter (λ id, ((id <>s "") && negb (known id) && rm id)%bool)
            (TrimSpace <$> split_on (ascii_of_nat 10) (TrimSpace out)))
  end.

(* src: internal/deploy/docker_reconcile.go ReconcileOrphanContainers *)
Definition ReconcileOrphanContainers (app : string) (ps : res string) (rm known : string → bool)
  : res (list string) :=
  ValidateAppName app ≫= λ _, reconcileOrphanContainers ps rm known.

(** ** What the journal claims and what is alive *)

Section Decisions.
Context (os : os_view).

Lemma count_alive_spec l d :
  let r := foldl (count_alive os) d l in
  L_Alive r = L_Alive d + len (List.filter (InstanceAlive os) l) ∧ L_Desired r = L_Desired d ∧
  L_PublicPort r = L_PublicPort d ∧
  (L_PID r = L_PID d ∨ ∃ i, i ∈ l ∧ InstanceAlive os i = true ∧ L_PID r = I_PID i).
Proof.
  revert d. induction l as [|i l IH]; intros d; cbn [foldl List.filter].
  - unfold len. simpl. split_and!; [lia|done|done|by left].
  - destruct (IH (count_alive os d i)) as (H1 & H2 & H3 & H4). cbv zeta in *. rewrite H1, H2, H3.
    unfold count_alive in *. destruct (InstanceAlive os i) eqn:Ea; cbn [negb] in *.
    + destruct (L_PID d =? 0); simpl in *; (split_and!; [unfold len; simpl; lia|done|done|]).
      * destruct H4 as [H4|(j & Hj & Hja & H4)]; right; [exists i|exists j]; split_and!;
          try done; [by left|by right].
      * destruct H4 as [H4|(j & Hj & Hja & H4)]; [by left|right; exists j]. split_and!; [by right|done..].
    + split_and!; [done..|]. destruct H4 as [H4|(j & Hj & Hja & H4)]; [by left|right; exists j].
      split_and!; [by right|done..].
Qed.

Lemma filter_length_all {A} (f : A → bool) l :
  length (List.filter f l) = length l ↔ ∀ x, x ∈ l → f x = true.
Proof.
  induction l as [|x l IH]; simpl; [split; [intros _ y ?%not_elem_of_nil; done|done]|].
  pose proof (List.filter_length_le f l) as Hle. split.
  - destruct (f x) eqn:Ex; simpl; [|lia]. intros Hlen y [->|Hy]%elem_of_cons; [done|].
    apply IH; [lia|done].
  - intros Hall. rewrite (Hall x) by by left. simpl. f_equal. apply IH. intros y Hy. apply Hall. by right.
Qed.

(** The lifecycle decision counts what is true.  [Desired] and [Alive] are
    the numbers of instances that should serve and that do; the status is
    "running" exactly when all of them do, "stopped" when none does, and
    "degraded" otherwise; a reported PID is that of a live serving instance. *)
Theorem DecideLifecycle_counts s :
  let d := DecideLifecycle os s in
  let serving := instancesServing s in
  L_Desired d = len serving ∧ L_Alive d = len (List.filter (InstanceAlive os) serving) ∧
  (L_Status d = "running" ↔ serving ≠ [] ∧ ∀ i, i ∈ serving → InstanceAlive os i = true) ∧
  (L_Status d = "stopped" ↔ ∀ i, i ∈ serving → InstanceAlive os i = false) ∧
  (L_Status d = "degraded" ↔
     (∃ i, i ∈ serving ∧ InstanceAlive os i = true) ∧ ∃ i, i ∈ serving ∧ InstanceAlive os i = false) ∧
  (L_PID d ≠ 0 → ∃ i, i ∈ serving ∧ InstanceAlive os i = true ∧ L_PID d = I_PID i).
Proof.
  cbv zeta. unfold DecideLifecycle. set (serving := instancesServing s).
  destruct (count_alive_spec serving (mkDecision "" 0 (len serving) 0 0 0 (D_PublicPort s)))
    as (Ha & Hd & _ & Hp). cbv zeta in *. set (d := foldl _ _ serving) in *. cbn in Ha, Hd, Hp |- *.
  rewrite Ha, Hd. set (alive := List.filter (InstanceAlive os) serving) in *.
  assert (∀ i, i ∈ alive ↔ i ∈ serving ∧ InstanceAlive os i = true) as Hin.
  { intros i. unfold alive. by rewrite list_elem_of_In, filter_In, <- list_elem_of_In. }
  pose proof (List.filter_length_le (InstanceAlive os) serving) as Hle. fold alive in Hle.
  pose proof (filter_length_all (InstanceAlive os) serving) as Hall. fold alive in Hall.
  assert (len alive = 0 ↔ ∀ i, i ∈ serving → InstanceAlive os i = false) as Hnone.
  { unfold len. split.
    - intros H i Hi. destruct (InstanceAlive os i) eqn:E; [|done].
      assert (i ∈ alive) as Hia by by apply Hin. destruct alive; [by apply not_elem_of_nil in Hia|done].
    - intros H. destruct alive as [|i l] eqn:E; [done|]. exfalso.
      destruct (proj1 (Hin i)) as [H1 H2]; [by left|]. by rewrite H in H2. }
  assert (len alive = len serving ↔ ∀ i, i ∈ serving → InstanceAlive os i = true) as Hevery.
  { rewrite <- Hall. unfold len. lia. }
  assert (serving ≠ [] ↔ len serving ≠ 0) as Hne by (unfold len; destruct serving; simpl; split; try done; lia).
  assert ((∃ i, i ∈ serving ∧ InstanceAlive os i = true) ↔ len alive ≠ 0) as Hsome.
  { unfold len. split.
    - intros (i & Hi). apply Hin in Hi. destruct alive; [by apply not_elem_of_nil in Hi|done].
    - intros H. destruct alive as [|i l] eqn:E; [done|]. exists i. apply Hin. by left. }
  assert ((∃ i, i ∈ serving ∧ InstanceAlive os i = false) ↔ len alive ≠ len serving) as Hdead.
  { rewrite Hevery. split.
    - intros (i & Hi & Hf) Hx. by rewrite Hx in Hf.
    - intros Hx. destruct (List.find (λ i, negb (InstanceAlive os i)) serving) as [i|] eqn:Ef.
      + apply find_some in Ef as [Hi Hn]. exists i. split; [by apply list_elem_of_In|by apply negb_true_iff].
      + destruct Hx. intros i Hi. eapply find_none in Ef; [|by apply list_elem_of_In].
        by apply negb_false_iff in Ef. }
  split_and!; try done.
  - rewrite Hne, <- Hevery. unfold len in *.
    destruct ((Z.of_nat (length serving) =? 0) || _)%bool eqn:E; [rewrite orb_true_iff, !Z.eqb_eq in E|bool_prop];
      [split; [done|intros; lia]|].
    destruct (_ <? _) eqn:E2; bool_prop; split; try done; intros; lia.
  - rewrite <- Hnone. unfold len in *.
    destruct ((Z.of_nat (length serving) =? 0) || _)%bool eqn:E; [rewrite orb_true_iff, !Z.eqb_eq in E|bool_prop];
      [split; [intros; lia|done]|].
    destruct (_ <? _) eqn:E2; bool_prop; split; try done; intros; lia.
  - rewrite Hsome, Hdead. unfold len in *.
    destruct ((Z.of_nat (length serving) =? 0) || _)%bool eqn:E; [rewrite orb_true_iff, !Z.eqb_eq in E|bool_prop];
      [split; [done|intros; lia]|].
    destruct (_ <? _) eqn:E2; bool_prop; split; try done; intros; lia.
  - intros Hpid. destruct Hp as [?|(i & Hi & Hia & ->)]; [done|]. eauto.
Qed.
End Decisions.

(** ** Reconciliation *)

Section Reconciliation.
Context (os : os_view).

(** The records [Reconcile] looks at. *)
Definition examined (s : DeployState) : gmap string Instance :=
  if D_Mode s =s ModeBlueGreen then D_Slots s else D_Replicas s.

Lemma fix_instance_alive i : InstanceAlive os (fix_instance os i) = InstanceAlive os i.
Proof.
  unfold fix_instance. destruct (InstanceAlive os i) eqn:Ea; simpl.
  - destruct (I_Status i <>s "running"); [|done]. revert Ea. by unfold InstanceAlive.
  - destruct (0 <? I_PID i); [|done]. revert Ea. unfold InstanceAlive. simpl.
    by destruct (I_ContainerID i <>s "").
Qed.

Lemma fix_instance_settled i : needs_fix os (fix_instance os i) = false.
Proof.
  unfold needs_fix. rewrite fix_instance_alive. unfold fix_instance.
  destruct (InstanceAlive os i); simpl.
  - destruct (I_Status i =s "running") eqn:Es; simpl; [by rewrite Es|done].
  - destruct (0 <? I_PID i) eqn:Ep; simpl; [done|by rewrite Ep].
Qed.

Lemma fix_instance_id i : needs_fix os i = false → fix_instance os i = i.
Proof.
  unfold needs_fix, fix_instance. destruct (InstanceAlive os i); simpl.
  - by intros ->.
  - rewrite orb_false_r. by intros ->.
Qed.

Lemma examined_reconciled s : examined (reconciled os s) = fix_instance os <$> examined s.
Proof. unfold examined, reconciled. by destruct (D_Mode s =s ModeBlueGreen) eqn:E; simpl; rewrite E. Qed.

Lemma examined_stamped now s : examined (stamped now s) = examined s.
Proof. unfold examined, stamped. by destruct (D_SecretTxnID s =s ""). Qed.

Lemma existsb_values (f : Instance → bool) (m : gmap string Instance) :
  existsb f (map_to_list m).*2 = false ↔ ∀ k i, m !! k = Some i → f i = false.
Proof.
  split.
  - intros H k i Hk. destruct (f i) eqn:E; [|done]. exfalso.
    rewrite <- not_true_iff_false, existsb_exists in H. apply H. exists i. split; [|done].
    apply list_elem_of_In, list_elem_of_fmap. exists (k, i). split; [done|].
    by apply elem_of_map_to_list.
  - intros H. apply not_true_iff_false. rewrite existsb_exists. intros (i & Hi & Hf).
    apply list_elem_of_In, list_elem_of_fmap in Hi as ([k j] & -> & Hk).
    apply elem_of_map_to_list in Hk. simpl in *. by rewrite (H k j Hk) in Hf.
Qed.

(** Reconciliation makes the journal truthful, once.  It reports the
    decision on what it found; afterwards every live instance is recorded as
    running and no dead one keeps a process id, the journal on disk says the
    same as the record in memory wherever anything changed, and reconciling
    again changes nothing and writes nothing. *)
Theorem Reconcile_settles fl now s j :
  storable s → (∀ o, fl o = None) →
  let '(r, s1, j1) := Reconcile os fl now s j in
  r = Ok (DecideLifecycle os s) ∧
  (∀ k i, examined s1 !! k = Some i →
     (InstanceAlive os i = true → I_Status i = "running") ∧
     (InstanceAlive os i = false → I_PID i ≤ 0)) ∧
  (∀ k i, examined s1 !! k = Some i → ∃ i0, examined s !! k = Some i0 ∧
     i = fix_instance os i0) ∧
  (s1 = s ∧ j1 = j ∨ j1 !! deploy_json = Some (Data s1)) ∧
  ∀ fl' now', Reconcile os fl' now' s1 j1 = (Ok (DecideLifecycle os s1), s1, j1).
Proof.
  intros Hst Hfl. unfold Reconcile. fold (examined s).
  assert (∀ s', (∀ k i, examined s' !! k = Some i → needs_fix os i = false) →
    ∀ k i, examined s' !! k = Some i →
     (InstanceAlive os i = true → I_Status i = "running") ∧
     (InstanceAlive os i = false → I_PID i ≤ 0)) as Htruth.
  { intros s' H k i Hk. specialize (H k i Hk). unfold needs_fix in H.
    destruct (InstanceAlive os i); simpl in H; (split; [|]); try done.
    - intros _. by apply negb_false_iff, String.eqb_eq in H.
    - intros _. rewrite orb_false_r in H. by apply Z.ltb_ge in H. }
  assert (∀ s' j', (∀ k i, examined s' !! k = Some i → needs_fix os i = false) →
    ∀ fl' now', Reconcile os fl' now' s' j' = (Ok (DecideLifecycle os s'), s', j')) as Hagain.
  { intros s' j' H fl' now'. unfold Reconcile. fold (examined s').
    by rewrite (proj2 (existsb_values _ _)). }
  destruct (existsb (needs_fix os) (map_to_list (examined s)).*2) eqn:E; cbn [negb].
  - assert (storable (reconciled os s)) as Hst'.
    { unfold reconciled. by destruct (D_Mode s =s ModeBlueGreen). }
    rewrite Store_no_faults by done.
    assert (∀ k i, examined (stamped now (reconciled os s)) !! k = Some i →
      ∃ i0, examined s !! k = Some i0 ∧ i = fix_instance os i0) as Hfix.
    { intros k i. rewrite examined_stamped, examined_reconciled, lookup_fmap, fmap_Some. eauto. }
    assert (∀ k i, examined (stamped now (reconciled os s)) !! k = Some i → needs_fix os i = false) as Hno.
    { intros k i (i0 & _ & ->)%Hfix. apply fix_instance_settled. }
    split_and!; [done|by apply Htruth|done| |by apply Hagain].
    right. by rewrite lookup_insert_eq.
  - rewrite existsb_values in E. split_and!; [done|by apply Htruth| |by left|by apply Hagain].
    intros k i Hk. exists i. split; [done|]. symmetry. eapply fix_instance_id, E, Hk.
Qed.
End Reconciliation.

(** ** Teardown *)

(** What a teardown makes of a record. *)
Definition torn_down (i : Instance) : Instance :=
  if recorded i then inst_Status "stopped" (inst_PID 0 i) else i.

Section AlterAll.
Context {A : Type} (f : A → A).
Implicit Types m : gmap string A.

Definition alter_all (keys : list string) m : gmap string A := foldl (λ m k, alter f k m) m keys.

Lemma lookup_alter_all keys m k :
  NoDup keys → alter_all keys m !! k = if bool_decide (k ∈ keys) then f <$> m !! k else m !! k.
Proof.
  unfold alter_all. revert m. induction keys as [|k' keys IH]; intros m Hnd.
  - by rewrite bool_decide_false by apply not_elem_of_nil.
  - apply NoDup_cons in Hnd as [Hk' Hnd]. cbn [foldl]. rewrite IH by done.
    destruct (decide (k = k')) as [->|Hne].
    + rewrite bool_decide_false by done. rewrite bool_decide_true by by left.
      apply lookup_alter_eq.
    + rewrite lookup_alter_ne by done. rewrite (bool_decide_ext (k ∈ k' :: keys) (k ∈ keys)); [done|].
      rewrite elem_of_cons. naive_solver.
Qed.

(** Altering every key is mapping. *)
Lemma alter_all_fmap keys m : keys ≡ₚ (map_to_list m).*1 → alter_all keys m = f <$> m.
Proof.
  intros Hp. apply map_eq. intros k. assert (NoDup keys) as Hnd by (rewrite Hp; apply NoDup_fst_map_to_list).
  rewrite lookup_alter_all, lookup_fmap by done. case_bool_decide as Hk; [done|].
  destruct (m !! k) as [x|] eqn:E; [|done]. destruct Hk. rewrite Hp. apply list_elem_of_fmap.
  exists (k, x). split; [done|]. by apply elem_of_map_to_list.
Qed.
End AlterAll.

(** The keys [in_order] visits, when it visits them all. *)
Lemma in_order_all order (m : gmap string Instance) :
  (∀ l, order l ≡ₚ l) →
  (in_order order m).*1 ≡ₚ (map_to_list m).*1 ∧ ∀ k i, (k, i) ∈ in_order order m → m !! k = Some i.
Proof.
  intros Ho. split.
  - unfold in_order. rewrite <- (Ho (map_to_list m).*1) at 2.
    assert (∀ k, k ∈ order (map_to_list m).*1 → is_Some (m !! k)) as Hin.
    { intros k. rewrite Ho. intros ([k' x] & -> & Hk)%list_elem_of_fmap. exists x.
      by apply elem_of_map_to_list. }
    revert Hin. generalize (order (map_to_list m).*1). intros l Hin. induction l as [|k l IH]; [done|].
    simpl. destruct (Hin k) as [x ->]; [by left|]. simpl. rewrite IH; [done|]. intros k' Hk'. apply Hin. by right.
  - unfold in_order. intros k i. rewrite list_elem_of_omap. intros (k' & _ & Hk).
    destruct (m !! k') as [x|] eqn:E; [|done]. by injection Hk as <- <-.
Qed.

Section Teardown.
Context (ev : env).

(** Only instances that were found alive are signalled. *)
Definition only_stops (insts : Instance → Prop) (w w' : world) : Prop :=
  w_journal w' = w_journal w ∧ w_route w' = w_route w ∧
  ∃ l, w_log w' = w_log w ++ l ∧
    ∀ e, e ∈ l → ∃ i t, insts i ∧ InstanceAlive (e_os ev t) i = true ∧ e = EvStop (hostPort (I_Port i)).

Lemma only_stops_refl P w w' :
  w_journal w' = w_journal w → w_route w' = w_route w → w_log w' = w_log w → only_stops P w w'.
Proof.
  intros Hj Hr Hl. split_and!; [done|done|]. rewrite Hl. exists []. split; [by rewrite app_nil_r|]. by intros e ?%not_elem_of_nil.
Qed.

Lemma only_stops_trans P w1 w2 w3 : only_stops P w1 w2 → only_stops P w2 w3 → only_stops P w1 w3.
Proof.
  intros (Hj1 & Hr1 & l1 & Hl1 & H1) (Hj2 & Hr2 & l2 & Hl2 & H2). split_and!; [congruence..|].
  exists (l1 ++ l2). split; [by rewrite Hl2, Hl1, app_assoc|]. intros e [?|?]%elem_of_app; auto.
Qed.

(** One of the two maps of the record. *)
Context (get : DeployState → gmap string Instance) (set : gmap string Instance → DeployState → DeployState).
Context (on : string → (Instance → Instance) → DeployState → DeployState).
Context (Hon : ∀ k f s, on k f s = set (alter f k (get s)) s).
Context (Hget : ∀ v s, get (set v s) = v) (Hset : ∀ v v' s, set v (set v' s) = set v s).
Context (Hid : ∀ s, set (get s) s = s).

Lemma alter_torn (m : gmap string Instance) k i f :
  m !! k = Some i → f i = torn_down i → alter f k m = alter torn_down k m.
Proof.
  intros Hi Hf. apply map_eq. intros k'. destruct (decide (k' = k)) as [->|Hne].
  - rewrite !lookup_alter_eq, Hi. simpl. by rewrite Hf.
  - by rewrite !lookup_alter_ne.
Qed.

Lemma stop_recorded_spec P k i m :
  get (m_state m) !! k = Some i → P i →
  wp (stop_recorded ev on (k, i)) (λ r m', r = Ok tt ∧ only_stops P (m_world m) (m_world m') ∧
    m_state m' = set (alter torn_down k (get (m_state m))) (m_state m)) m.
Proof.
  intros Hi HP. unfold stop_recorded.
  assert (∀ t, only_stops P (m_world m) (w_set_tick t (m_world m))) as Htick by (intros t; by apply only_stops_refl).
  assert (recorded i = true → torn_down i = inst_Status "stopped" (inst_PID 0 i)) as Htorn.
  { unfold torn_down. by intros ->. }
  destruct (recorded i) eqn:Er; cbn [negb].
  2:{ wp_steps. split; [done|]. split; [by apply only_stops_refl|].
      assert (alter torn_down k (get (m_state m)) = get (m_state m)) as ->; [|by rewrite Hid].
      apply map_eq. intros k'. destruct (decide (k' = k)) as [->|Hne]; [|by rewrite lookup_alter_ne].
      rewrite lookup_alter_eq, Hi. simpl. unfold torn_down. by rewrite Er. }
  unfold alive_now. wp_steps. destruct (InstanceAlive _ i) eqn:Ea; cbn [negb]; wp_steps.
  - wp_call wp_stopInstance. intros x m' (Hs & _ & (rep & ->) & t & _ & Hw). wp_steps.
    split; [done|]. rewrite Hs. cbn [m_state m_world] in *. split.
    + destruct Hw as [->|[_ ->]]; [by apply only_stops_refl|]. split_and!; [done|done|].
      eexists. split; [done|]. intros e ->%list_elem_of_singleton. by exists i, (w_tick (m_world m)).
    + rewrite Hon. f_equal. eapply alter_torn; [done|]. by rewrite Htorn.
  - split; [done|]. split; [apply Htick|]. rewrite Hon. f_equal. eapply alter_torn; [done|]. by rewrite Htorn.
Qed.

Lemma stop_all_spec P l m :
  NoDup l.*1 → (∀ k i, (k, i) ∈ l → get (m_state m) !! k = Some i ∧ P i) →
  wp (for_eachM l (stop_recorded ev on)) (λ r m', r = Ok tt ∧ only_stops P (m_world m) (m_world m') ∧
    m_state m' = set (alter_all torn_down l.*1 (get (m_state m))) (m_state m)) m.
Proof.
  revert m. induction l as [|[k i] l IH]; intros m Hnd Hin.
  - split; [done|]. split; [by apply only_stops_refl|]. simpl. by rewrite Hid.
  - cbn [for_eachM]. rewrite fmap_cons, NoDup_cons in Hnd. destruct Hnd as [Hk Hnd].
    destruct (Hin k i) as [Hi HP]; [by left|]. wp_steps. wp_call stop_recorded_spec; [done|done|].
    intros x m1 (-> & Hw1 & Hs1). wp_call IH; [done| |].
    + intros k' i' Hin'. rewrite Hs1, Hget, lookup_alter_ne; [by apply Hin; right|].
      intros <-. apply Hk, list_elem_of_fmap. by exists (k, i').
    + intros x m2 (-> & Hw2 & Hs2). split; [done|]. split; [by eapply only_stops_trans|].
      rewrite Hs2, Hs1, Hget, Hset. done.
Qed.
End Teardown.

(** A teardown stops what runs and forgets nothing.  Where the journal can
    be written it succeeds: every recorded instance is marked stopped and loses
    its process id, all other fields of the record (slots, ports, versions,
    binaries, the active slot) stay for a later start, the journal on disk says
    so, and only instances that were verified alive were signalled. *)
Theorem TeardownDeployment_result ev m :
  storable (m_state m) → (∀ t o, e_fs ev t o = None) → (∀ l, e_order ev l ≡ₚ l) →
  let s := m_state m in
  let '(r, m') := TeardownDeployment ev m in
  r = Ok tt ∧
  (∃ now, m_state m' = stamped now (with_Replicas (torn_down <$> D_Replicas s)
                         (with_Slots (torn_down <$> D_Slots s) s))) ∧
  w_journal (m_world m') !! deploy_json = Some (Data (m_state m')) ∧
  w_route (m_world m') = w_route (m_world m) ∧
  ∃ l, w_log (m_world m') = w_log (m_world m) ++ l ∧
    ∀ e, e ∈ l → ∃ k i t, (D_Slots s !! k = Some i ∨ D_Replicas s !! k = Some i) ∧
      InstanceAlive (e_os ev t) i = true ∧ e = EvStop (hostPort (I_Port i)).
Proof.
  intros Hst Hfs Ho s. set (P i := ∃ k, D_Slots s !! k = Some i ∨ D_Replicas s !! k = Some i).
  destruct (in_order_all (e_order ev) (D_Slots s) Ho) as [HpS HinS].
  destruct (in_order_all (e_order ev) (D_Replicas s) Ho) as [HpR HinR].
  pose proof (stop_all_spec ev D_Slots with_Slots on_slot ltac:(done) ltac:(done) ltac:(done)
    ltac:(by intros [])) as stop_slots.
  pose proof (stop_all_spec ev D_Replicas with_Replicas on_replica ltac:(done) ltac:(done) ltac:(done)
    ltac:(by intros [])) as stop_replicas.
  assert (wp (TeardownDeployment ev) (λ r m', r = Ok tt ∧
    (∃ now, m_state m' = stamped now (with_Replicas (torn_down <$> D_Replicas s)
                         (with_Slots (torn_down <$> D_Slots s) s))) ∧
    w_journal (m_world m') !! deploy_json = Some (Data (m_state m')) ∧
    w_route (m_world m') = w_route (m_world m) ∧
    ∃ l, w_log (m_world m') = w_log (m_world m) ++ l ∧
      ∀ e, e ∈ l → ∃ i t, P i ∧ InstanceAlive (e_os ev t) i = true ∧ e = EvStop (hostPort (I_Port i))) m) as Hw.
  { unfold TeardownDeployment. wp_steps. fold s. destruct (D_AppName s =s "") eqn:En.
    { exfalso. bool_prop. destruct Hst as [Hv _]. fold s in Hv. rewrite En in Hv. by vm_compute in Hv. }
    wp_steps. wp_call (stop_slots P).
    { rewrite HpS. apply NoDup_fst_map_to_list. }
    { intros k i Hi. split; [by apply HinS|exists k; left; by apply HinS]. }
    intros x m1 (-> & Hw1 & Hs1). rewrite alter_all_fmap in Hs1 by done. wp_steps.
    wp_call (stop_replicas P).
    { rewrite HpR. apply NoDup_fst_map_to_list. }
    { intros k i Hi. rewrite Hs1. split; [by apply HinR|exists k; right; by apply HinR]. }
    intros x m2 (-> & Hw2 & Hs2). rewrite Hs1 in Hs2. simpl in Hs2. fold s in Hs2.
    rewrite alter_all_fmap in Hs2 by done. wp_steps.
    unfold wp, persist. rewrite Store_no_faults; [|done|rewrite Hs2; exact Hst]. simpl.
    split; [done|]. rewrite Hs2. split; [by eexists|]. split; [by rewrite lookup_insert_eq|].
    destruct (only_stops_trans _ _ _ _ _ Hw1 Hw2) as (_ & Hr & l & Hl & He). split; [done|]. eauto. }
  unfold wp in Hw. destruct (TeardownDeployment ev m) as [r m']. destruct Hw as (H1 & H2 & H3 & H4 & l & Hl & He).
  split_and!; try done. exists l. split; [done|]. intros e Hin. destruct (He e Hin) as (i & t & [k Hk] & ? & ?).
  by exists k, i, t.
Qed.

(** ** Start: no process is left without a record *)

Section Start.
Context (ev : env) (log0 : list event) (mode : string).

Definition members (s : DeployState) : gmap string Instance :=
  if mode =s ModeBlueGreen then D_Slots s else D_Replicas s.

Lemma members_on key f s : members (on_serving mode key f s) = alter f key (members s).
Proof. unfold members, on_serving. by destruct (mode =s ModeBlueGreen). Qed.

Definition holds (s : DeployState) (key host : string) : Prop :=
  ∃ inst, members s !! key = Some inst ∧ hostPort (I_Port inst) = host.

Lemma holds_touched s s' key host : touched s s' → holds s key host → holds s' key host.
Proof. by intros (c & u & ->). Qed.

Lemma stamped_touched now s : touched s (stamped now s).
Proof.
  unfold stamped. destruct (D_SecretTxnID s =s ""); [by exists false, now|].
  exists (D_SecretCleanupPending s), now. by destruct s.
Qed.

(** A host the journal holds, in the record in memory too, under a key that is
    not [pending]. *)
Definition kept_record (pending : list string) (m : machine) (host : string) : Prop :=
  ∃ key, (key ∉ pending) ∧ holds (m_state m) key host ∧
         ∃ st, w_journal (m_world m) !! deploy_json = Some (Data st) ∧ holds st key host.

(** Every launched process was stopped or is recorded. *)
Definition accounted (pending : list string) (m : machine) : Prop :=
  ∃ evs, w_log (m_world m) = log0 ++ evs ∧
    ∀ h, EvLaunch h ∈ evs → EvStop h ∈ evs ∨ kept_record pending m h.

Definition all_accounted (m : machine) : Prop :=
  ∃ evs, w_log (m_world m) = log0 ++ evs ∧
    ∀ h, EvLaunch h ∈ evs → EvStop h ∈ evs ∨
      ∃ key st, w_journal (m_world m) !! deploy_json = Some (Data st) ∧ holds st key h.

Lemma accounted_all pending m : accounted pending m → all_accounted m.
Proof.
  intros (evs & Hl & H). exists evs. split; [done|]. intros h Hh.
  destruct (H h Hh) as [?|(key & _ & _ & st & ? & ?)]; [by left|right; by exists key, st].
Qed.

Lemma accounted_tick pending m t :
  accounted pending m → accounted pending (mkMachine (w_set_tick t (m_world m)) (m_state m) (m_flag m)).
Proof. done. Qed.

(** The same but for one process. *)
Definition owing (pending : list string) (host : string) (m : machine) : Prop :=
  ∃ evs, w_log (m_world m) = log0 ++ evs ∧
    ∀ h, EvLaunch h ∈ evs → EvStop h ∈ evs ∨ h = host ∨ kept_record pending m h.

Lemma owing_launch pending host w st f :
  accounted pending (mkMachine w st f) → owing pending host (mkMachine (w_event (EvLaunch host) w) st f).
Proof.
  intros (evs & Hl & H). exists (evs ++ [EvLaunch host]). split; [simpl in *; by rewrite Hl, app_assoc|].
  intros h [Hin|Hin]%elem_of_app.
  - destruct (H h Hin) as [?|?]; [left; apply elem_of_app; by left|by right; right].
  - apply list_elem_of_singleton in Hin. injection Hin as ->. by right; left.
Qed.

Lemma owing_stop pending port m :
  owing pending (hostPort port) m → wp (stop_held port) (λ x m', x = Ok tt ∧ all_accounted m') m.
Proof.
  intros (evs & Hl & H). unfold stop_held. wp_steps. split; [done|].
  exists (evs ++ [EvStop (hostPort port)]). split; [simpl; by rewrite Hl, app_assoc|].
  intros h [Hin|Hin]%elem_of_app; [|by apply list_elem_of_singleton in Hin].
  destruct (H h Hin) as [?|[->|(k & _ & _ & st & ? & ?)]].
  - left. apply elem_of_app. by left.
  - left. apply elem_of_app. right. by apply list_elem_of_singleton.
  - right. by exists k, st.
Qed.

(** A change of the record under a pending key. *)
Lemma owing_modify pending host w st st' f :
  (∀ k, (k ∉ pending) → members st' !! k = members st !! k) →
  owing pending host (mkMachine w st f) → owing pending host (mkMachine w st' f).
Proof.
  intros Hm (evs & Hl & H). exists evs. split; [done|]. intros h Hin.
  destruct (H h Hin) as [?|[?|(k & Hk & (i & Hi & Hp) & Hj)]]; [by left|by right; left|right; right].
  exists k. split; [done|]. split; [|done]. exists i. split; [|done]. by rewrite Hm.
Qed.

Lemma persist_accounted key rest host m :
  key ∉ rest → storable (m_state m) → owing (key :: rest) host m → holds (m_state m) key host →
  wp (persist ev) (λ x m', touched (m_state m) (m_state m') ∧
    match x with
    | Ok _ => accounted rest m'
    | Err _ => owing (key :: rest) host m'
    end) m.
Proof.
  intros Hkey Hst (evs & Hl & H) Hh. unfold wp, persist.
  pose proof (Store_cases (e_fs ev (w_tick (m_world m))) (e_now ev (w_tick (m_world m))) (m_state m)
    (w_journal (m_world m)) Hst) as Hc.
  destruct (Store _ _ _ _) as [[x s'] j'] eqn:Hstore. pose proof (Store_touched _ _ _ _ _ _ _ Hstore) as Ht.
  simpl. split; [done|]. destruct x as [[]|e].
  - destruct Hc as [-> Hj]. exists evs. split; [done|]. intros h Hin.
    assert (∀ k, holds (m_state m) k h → (k ∉ rest) → kept_record rest
      (mkMachine (w_set_tick (S (w_tick (m_world m))) (w_set_journal j' (m_world m)))
         (stamped (e_now ev (w_tick (m_world m))) (m_state m)) (m_flag m)) h) as Hkept.
    { intros k Hk Hkr. exists k. split; [done|]. split; [by eapply holds_touched|].
      eexists. split; [exact Hj|]. by eapply holds_touched. }
    destruct (H h Hin) as [?|[->|(k & Hk & Hm & _)]]; [by left|right; by eapply Hkept|right].
    apply (Hkept k); [done|]. intros ?. apply Hk. by right.
  - exists evs. split; [done|]. intros h Hin. destruct (H h Hin) as [?|[?|(k & Hk & Hm & st & Hj & Hs)]];
      [by left|by right; left|right; right].
    exists k. split; [done|]. split; [by eapply holds_touched|]. destruct Hc as [Hc|Hc].
    + exists st. simpl. by rewrite Hc.
    + eexists. split; [exact Hc|]. eapply holds_touched; [apply stamped_touched|done].
Qed.

Definition restart_inv (rest : list string) (m : machine) : Prop :=
  accounted rest m ∧ storable (m_state m) ∧ ∀ k, k ∈ rest → is_Some (members (m_state m) !! k).

Lemma start_one_accounted app runtime key inst rest m :
  key ∉ rest → restart_inv (key :: rest) m →
  wp (start_one ev mode app runtime (key, inst)) (λ r m',
    match r with Ok _ => restart_inv rest m' | Err _ => all_accounted m' end) m.
Proof.
  intros Hkey (Ha & Hst & Hin). unfold start_one, alive_now. wp_steps.
  assert (∀ m t, accounted (key :: rest) m → all_accounted (mkMachine (w_set_tick t (m_world m)) (m_state m) (m_flag m)))
    as Hend by (intros; by eapply accounted_all).
  destruct (InstanceAlive _ inst); wp_steps.
  { split; [|split; [done|intros k Hk; apply Hin; by right]]. destruct Ha as (evs & Hl & H). exists evs.
    split; [done|]. intros h Hh. destruct (H h Hh) as [?|(k & Hk & Hrest)]; [by left|right].
    exists k. split; [|done]. intros ?. apply Hk. by right. }
  apply (accounted_tick _ _ (S (w_tick (m_world m)))) in Ha.
  set (m1 := mkMachine _ _ _) in *. assert (storable (m_state m1)) as Hst1 by done.
  assert (∀ k, k ∈ key :: rest → is_Some (members (m_state m1) !! k)) as Hin1 by done.
  clearbody m1. clear m Hst Hin.
  eapply (wp_mono _ (λ r m', accounted (key :: rest) m' ∧ m_state m' = m_state m1)).
  { destruct (IsDockerRuntime runtime); wp_steps; [done|]. by destruct (e_binary ev _); wp_steps. }
  intros [[]|e] m2 [Ha2 Hs2]; [|by eapply accounted_all]. wp_steps.
  unfold wp at 1. cbn [fst snd]. destruct (e_overlay ev _) as [envs|]; wp_steps; [|by eapply accounted_all].
  unfold launch. wp_steps. destruct (e_launch ev _) as [[p port]|]; wp_steps; [|by eapply accounted_all].
  destruct m2 as [w2 s2 f2]. cbn [m_world m_state m_flag] in *. set (m3 := mkMachine _ _ _).
  assert (owing (key :: rest) (hostPort port) m3) as Ho by (eapply (owing_launch _ _ _ _ f2); exact Ha2).
  assert (m_state m3 = m_state m1) as Hs3 by done. clearbody m3. clear Ha2 Hs2.
  assert (owing (key :: rest) (hostPort port)
    (mkMachine (w_set_tick (S (w_tick (m_world m3))) (m_world m3)) (m_state m3) (m_flag m3))) as Ho' by done.
  destruct (e_listens ev _); cbn [negb]; wp_steps.
  2:{ wp_call owing_stop; [exact Ho'|]. intros x m' [-> ?]. by wp_steps. }
  match goal with |- context [restarted _ _ _ ?n] => generalize n; intros now end.
  set (s' := with_SecretCleanupPending false _).
  assert (members s' = alter (restarted envs p port now) key (members (m_state m3)))
    as Hmem by (rewrite <- members_on; unfold s', members; by destruct (mode =s ModeBlueGreen)).
  wp_call persist_accounted; [exact Hkey| | | |].
  - subst s'. rewrite Hs3. unfold on_serving. by destruct (mode =s ModeBlueGreen).
  - eapply (owing_modify _ _ _ _ _ (m_flag m3)); [|exact Ho']. intros k Hk. rewrite Hmem, lookup_alter_ne; [done|].
    intros <-. apply Hk. by left.
  - destruct (Hin1 key) as [i Hi]; [by left|]. eexists. cbn [m_state]. rewrite Hmem, lookup_alter_eq, Hs3, Hi.
    split; [done|]. done.
  - intros [[]|e] m' [Ht Ha']; wp_steps.
    + split; [done|]. cbn [m_state] in Ht. destruct Ht as (c & u & Ht). split.
      * rewrite Ht. subst s'. rewrite Hs3. unfold on_serving. by destruct (mode =s ModeBlueGreen).
      * intros k Hk. destruct (Hin1 k) as [i Hi]; [by right|].
        assert (members (m_state m') = members s') as -> by by rewrite Ht.
        rewrite Hmem, lookup_alter_ne, Hs3; [by eexists|]. by intros <-.
    + wp_call owing_stop; [exact Ha'|]. intros x m'' [-> ?]. by wp_steps.
Qed.

Lemma start_all_accounted app runtime l m :
  NoDup l.*1 → restart_inv l.*1 m →
  wp (for_eachM l (start_one ev mode app runtime)) (λ _ m', all_accounted m') m.
Proof.
  revert m. induction l as [|[key inst] l IH]; intros m Hnd Hinv.
  - cbn [for_eachM]. wp_steps. eapply accounted_all, Hinv.
  - cbn [for_eachM]. rewrite fmap_cons in Hnd, Hinv. apply NoDup_cons in Hnd as [Hk Hnd]. wp_steps.
    wp_call start_one_accounted; [exact Hk|exact Hinv|]. intros [[]|e] m' Hm'; [|done]. by apply IH.
Qed.
End Start.

Lemma to_start_keys s l :
  to_start s = Ok l → NoDup l.*1 ∧ ∀ k, k ∈ l.*1 → is_Some (members (D_Mode s) s !! k).
Proof.
  unfold to_start, members, ActiveInstance. destruct (D_Mode s =s ModeBlueGreen) eqn:E.
  - destruct (D_ActiveSlot s =s ""); [done|]. destruct (D_Slots s !! D_ActiveSlot s) as [i|] eqn:Ei; [|done].
    destruct (I_BinaryPath i =s ""); [done|]. intros [= <-]. split; [by apply NoDup_singleton|].
    intros k ->%list_elem_of_singleton. by eexists.
  - destruct (D_Mode s =s ModeRolling); [|done]. case_bool_decide; [done|].
    set (f := λ k, _ : option (string * Instance)). intros Hl.
    assert (l = omap f (sortedReplicaKeys (D_Replicas s))) as ->.
    { revert Hl. destruct (omap f _); [done|]. by intros [= <-]. }
    assert (∀ k p, f k = Some p → p.1 = k ∧ is_Some (D_Replicas s !! k)) as Hf.
    { intros k p. subst f. simpl. destruct (D_Replicas s !! k) as [i|]; [|done].
      destruct (I_BinaryPath i <>s ""); [|done]. intros [= <-]. by split; [|eexists]. }
    assert (NoDup (sortedReplicaKeys (D_Replicas s))) as Hnd.
    { unfold sortedReplicaKeys. rewrite sort_by_Permutation. apply NoDup_fst_map_to_list. }
    revert Hnd. generalize (sortedReplicaKeys (D_Replicas s)). clear -Hf. intros keys Hnd. split.
    + induction Hnd as [|k keys Hk Hnd IH]; [constructor|]. simpl. destruct (f k) as [p|] eqn:Ef; [|done].
      apply Hf in Ef as [Hp _]. rewrite fmap_cons, Hp. constructor; [|done].
      intros ([k' i] & -> & (k'' & Hk'' & Hf'')%list_elem_of_omap)%list_elem_of_fmap.
      apply Hf in Hf'' as [<- _]. done.
    + intros k ([k' i] & -> & (k'' & Hk'' & Hf'')%list_elem_of_omap)%list_elem_of_fmap.
      by apply Hf in Hf'' as [<- ?].
Qed.

(** A restart leaves no orphan.  Whatever fails, and at whatever instance,
    every process that [StartDeployment] launched is either stopped again or
    recorded in the journal on disk, under the port it listens on. *)
Theorem StartDeployment_leaves_no_orphans ev m :
  storable (m_state m) →
  let m' := (StartDeployment ev m).2 in
  ∃ evs, w_log (m_world m') = w_log (m_world m) ++ evs ∧
    ∀ h, EvLaunch h ∈ evs → EvStop h ∈ evs ∨
      ∃ st k inst, w_journal (m_world m') !! deploy_json = Some (Data st) ∧
        (D_Slots st !! k = Some inst ∨ D_Replicas st !! k = Some inst) ∧ hostPort (I_Port inst) = h.
Proof.
  intros Hst. cbv zeta. set (s := m_state m).
  assert (wp (StartDeployment ev) (λ _ m', all_accounted (w_log (m_world m)) (D_Mode s) m') m) as Hw.
  { assert (accounted (w_log (m_world m)) (D_Mode s) [] m) as Hnone.
    { exists []. split; [by rewrite app_nil_r|]. by intros h ?%not_elem_of_nil. }
    unfold StartDeployment. wp_steps. fold s. destruct (D_AppName s =s ""); wp_steps; [by eapply accounted_all|].
    destruct (to_start s) as [[|[key first] l]|e] eqn:E; wp_steps; [by eapply accounted_all| |by eapply accounted_all].
    destruct (to_start_keys _ _ E) as [Hnd Hin]. apply start_all_accounted; [done|].
    split; [|by split]. exists []. split; [by rewrite app_nil_r|]. by intros h ?%not_elem_of_nil. }
  unfold wp in Hw. destruct Hw as (evs & Hl & H). exists evs. split; [done|]. intros h Hh.
  destruct (H h Hh) as [?|(k & st & Hj & inst & Hi & Hp)]; [by left|right]. exists st, k, inst.
  split; [done|]. split; [|done]. revert Hi. unfold members. destruct (D_Mode s =s ModeBlueGreen); auto.
Qed.

(** ** Replicas *)

Lemma lookup_replica_map keys (m : gmap string Instance) k :
  (list_to_map ((λ k, (k, default (stopped_instance k) (m !! k))) <$> keys) : gmap string Instance) !! k =
  if bool_decide (k ∈ keys) then Some (default (stopped_instance k) (m !! k)) else None.
Proof.
  induction keys as [|k' keys IH].
  - rewrite bool_decide_false by apply not_elem_of_nil. apply lookup_empty.
  - rewrite fmap_cons, list_to_map_cons. destruct (decide (k = k')) as [->|Hne].
    + rewrite lookup_insert_eq, bool_decide_true; [done|by left].
    + rewrite lookup_insert_ne, IH by done. rewrite (bool_decide_ext (k ∈ k' :: keys) (k ∈ keys)); [done|].
      rewrite elem_of_cons. naive_solver.
Qed.

Lemma lookup_delete_all (l : list (string * Instance)) (m : gmap string Instance) k :
  foldl (λ m p, delete p.1 m) m l !! k = if bool_decide (k ∈ l.*1) then None else m !! k.
Proof.
  revert m. induction l as [|[k' i] l IH]; intros m.
  - by rewrite bool_decide_false by apply not_elem_of_nil.
  - cbn [foldl fst]. rewrite IH, fmap_cons. cbn [fst]. destruct (decide (k = k')) as [->|Hne].
    + rewrite (bool_decide_true (k' ∈ k' :: l.*1)) by by left. case_bool_decide; [done|]. apply lookup_delete_eq.
    + rewrite lookup_delete_ne by done. rewrite (bool_decide_ext (k ∈ k' :: l.*1) (k ∈ l.*1)); [done|].
      rewrite elem_of_cons. naive_solver.
Qed.

Lemma elem_of_replica_keys n k : k ∈ replica_keys n ↔ ∃ i, 0 ≤ i < n ∧ k = Itoa i.
Proof.
  unfold replica_keys. rewrite list_elem_of_fmap. split.
  - intros (i & -> & Hi%elem_of_seq). exists (Z.of_nat i). split; [lia|done].
  - intros (i & Hi & ->). exists (Z.to_nat i). split; [by rewrite Z2Nat.id by lia|]. apply elem_of_seq. lia.
Qed.

(** The map of the desired replicas and the surplus. *)
Lemma replica_set_split order existing n :
  (∀ l, order l ≡ₚ l) → n < 2 ^ 63 →
  (∀ k, is_Some (existing !! k) → ∃ i, 0 ≤ i < 2 ^ 63 ∧ k = Itoa i) →
  let '(surplus, kept) := applyReplicaSet order existing n in
  let replicas := ensureReplicaMap kept n in
  (∀ k, is_Some (replicas !! k) ↔ ∃ i, 0 ≤ i < n ∧ k = Itoa i) ∧
  (∀ k inst, existing !! k = Some inst → recorded inst = true →
     replicas !! k = Some inst ∨ inst ∈ surplus ∧ replicas !! k = None) ∧
  (∀ inst, inst ∈ surplus → ∃ k, existing !! k = Some inst ∧ recorded inst = true ∧ replicas !! k = None) ∧
  (∀ k, replicas !! k = None ∨ replicas !! k = Some (default (stopped_instance k) (existing !! k))).
Proof.
  intros Ho Hn Hcanon. unfold applyReplicaSet, ensureReplicaMap.
  destruct (in_order_all order existing Ho) as [Hp Hin].
  set (out := List.filter (λ p, beyond n p.1) (in_order order existing)).
  assert (∀ i, 0 ≤ i < 2 ^ 63 → beyond n (Itoa i) = (n <=? i)) as Hbeyond.
  { intros i Hi. unfold beyond. by rewrite Atoi_Itoa by (unfold in_int64; lia). }
  assert (∀ k inst, (k, inst) ∈ out ↔ existing !! k = Some inst ∧ beyond n k = true) as Hout.
  { intros k inst. unfold out. rewrite list_elem_of_In, filter_In, <- list_elem_of_In. simpl. split.
    - intros [H1 H2]. split; [by apply Hin|done].
    - intros [H1 H2]. split; [|done]. unfold in_order. apply list_elem_of_omap. exists k.
      split; [|by rewrite H1]. rewrite Ho. apply list_elem_of_fmap. exists (k, inst).
      split; [done|]. by apply elem_of_map_to_list. }
  assert (∀ inst, inst ∈ sort_by (λ x y, String.ltb (I_Slot x) (I_Slot y)) (List.filter recorded out.*2) ↔
    ∃ k, existing !! k = Some inst ∧ beyond n k = true ∧ recorded inst = true) as Hsur.
  { intros inst. rewrite sort_by_Permutation, list_elem_of_In, filter_In, <- list_elem_of_In, list_elem_of_fmap.
    split.
    - intros [([k i] & -> & Hk) Hr]. apply Hout in Hk as [? ?]. eauto.
    - intros (k & Hk & Hb & Hr). split; [|done]. exists (k, inst). split; [done|]. by apply Hout. }
  assert (∀ k, is_Some (existing !! k) → k ∈ replica_keys n ↔ beyond n k = false) as Hkey.
  { intros k Hk. destruct (Hcanon k Hk) as (i & Hi & ->). rewrite elem_of_replica_keys, Hbeyond by done.
    rewrite Z.leb_gt. split; [|intros; exists i; split; [lia|done]].
    intros (i' & Hi' & Heq). apply (f_equal Atoi) in Heq.
    rewrite !Atoi_Itoa in Heq by (unfold in_int64; lia). injection Heq. lia. }
  assert (∀ k, k ∈ replica_keys n → foldl (λ m p, delete p.1 m) existing out !! k = existing !! k) as Hkept.
  { intros k Hk. rewrite lookup_delete_all. case_bool_decide as Hd; [|done]. exfalso.
    apply list_elem_of_fmap in Hd as ([k' i] & Heq & Hk'). simpl in Heq. subst k'.
    apply Hout in Hk' as [Hk' Hb]. rewrite (proj1 (Hkey k ltac:(by eexists)) Hk) in Hb. done. }
  split_and!.
  - intros k. rewrite lookup_replica_map, <- elem_of_replica_keys. case_bool_decide as Hk; [by split; [|eexists]|].
    split; [by intros []|done].
  - intros k inst Hk Hr. rewrite lookup_replica_map. destruct (beyond n k) eqn:Eb.
    + right. split; [apply Hsur; eauto|]. rewrite bool_decide_false; [done|].
      rewrite Hkey by by eexists. by rewrite Eb.
    + left. assert (k ∈ replica_keys n) as Hkk by (apply Hkey; [by eexists|done]).
      by rewrite bool_decide_true, Hkept, Hk.
  - intros inst (k & Hk & Hb & Hr)%Hsur. exists k. split_and!; [done|done|].
    rewrite lookup_replica_map, bool_decide_false; [done|]. rewrite Hkey by by eexists. by rewrite Hb.
  - intros k. rewrite lookup_replica_map. case_bool_decide as Hk; [right|by left]. by rewrite Hkept.
Qed.

(** Changing the number of replicas loses no process.  The new map has
    exactly the indices below the desired count; every recorded instance keeps
    its entry there or is handed over as surplus, and the surplus are exactly
    the recorded instances without one. *)
Theorem replica_set_loses_nothing order existing n :
  (∀ l, order l ≡ₚ l) → n < 2 ^ 63 →
  (∀ k, is_Some (existing !! k) → ∃ i, 0 ≤ i < 2 ^ 63 ∧ k = Itoa i) →
  let '(surplus, kept) := applyReplicaSet order existing n in
  let replicas := ensureReplicaMap kept n in
  (∀ k, is_Some (replicas !! k) ↔ ∃ i, 0 ≤ i < n ∧ k = Itoa i) ∧
  (∀ k inst, existing !! k = Some inst → recorded inst = true →
     replicas !! k = Some inst ∨ inst ∈ surplus ∧ replicas !! k = None) ∧
  (∀ inst, inst ∈ surplus → ∃ k, existing !! k = Some inst ∧ recorded inst = true ∧ replicas !! k = None).
Proof.
  intros Ho Hn Hk. pose proof (replica_set_split order existing n Ho Hn Hk) as Hs.
  destruct (applyReplicaSet order existing n). by destruct Hs as (? & ? & ? & _).
Qed.

(** *** The members of the proxy's set *)

Definition member_hosts (m : Target * list Target) : list string := T_Host <$> m.1 :: m.2.

(** The targets before the fallback for an empty set. *)
Definition rotation (replicas : gmap string Instance) : list Target :=
  omap (λ k, match replicas !! k with
             | Some inst => if in_rotation inst
                 then Some (mkTarget (hostPort (I_Port inst)) ("replica-" +:+ k) 0) else None
             | None => None
             end) (replicaIndices replicas).

Lemma elem_of_rotation replicas h :
  h ∈ T_Host <$> rotation replicas ↔
  ∃ k i, replicas !! k = Some i ∧ in_rotation i = true ∧ h = hostPort (I_Port i).
Proof.
  unfold rotation. rewrite list_elem_of_fmap. split.
  - intros (t & -> & (k & Hk & Ht)%list_elem_of_omap). destruct (replicas !! k) as [i|] eqn:E; [|done].
    destruct (in_rotation i) eqn:Er; [|done]. injection Ht as <-. eauto.
  - intros (k & i & Hi & Hr & ->). eexists. split; [|apply list_elem_of_omap; exists k; split].
    3: by rewrite Hi, Hr. { done. }
    unfold replicaIndices. rewrite sort_by_Permutation. apply list_elem_of_fmap. exists (k, i).
    split; [done|]. by apply elem_of_map_to_list.
Qed.

Lemma healthyTargets_rotation replicas :
  member_hosts (healthyTargets replicas) =
  match rotation replicas with [] => ["127.0.0.1:0"] | _ => T_Host <$> rotation replicas end.
Proof. unfold healthyTargets. fold (rotation replicas). by destruct (rotation replicas). Qed.

(** The routed hosts, where some replica is in rotation. *)
Lemma elem_of_healthyTargets replicas h :
  (∃ k i, replicas !! k = Some i ∧ in_rotation i = true) →
  h ∈ member_hosts (healthyTargets replicas) ↔
  ∃ k i, replicas !! k = Some i ∧ in_rotation i = true ∧ h = hostPort (I_Port i).
Proof.
  intros (k & i & Hi & Hr). rewrite healthyTargets_rotation, <- elem_of_rotation.
  destruct (rotation replicas) eqn:E; [|done].
  assert (hostPort (I_Port i) ∈ T_Host <$> rotation replicas) as Hin by (apply elem_of_rotation; eauto).
  rewrite E in Hin. by apply not_elem_of_nil in Hin.
Qed.

Lemma elem_of_membership replicas key port h :
  is_Some (replicas !! key) → port ≠ 0 →
  h ∈ member_hosts (membershipAfterReplace replicas key port) ↔
  h = hostPort port ∨
  ∃ k i, k ≠ key ∧ replicas !! k = Some i ∧ in_rotation i = true ∧ h = hostPort (I_Port i).
Proof.
  intros [old Hold] Hport. unfold membershipAfterReplace.
  set (new := mkInstance [] key 0 port "" "" 0 "running" 0 "" 0). set (virtual := map_imap _ replicas).
  assert (∀ k, virtual !! k = if k =s key then (λ _, new) <$> replicas !! k else replicas !! k) as Hv.
  { intros k. unfold virtual. rewrite map_lookup_imap. destruct (replicas !! k); simpl; by destruct (k =s key). }
  assert (in_rotation new = true) as Hnew.
  { unfold in_rotation. simpl. by apply negb_true_iff, Z.eqb_neq. }
  assert (virtual !! key = Some new) as Hkey by (rewrite Hv, String.eqb_refl, Hold; done).
  rewrite elem_of_healthyTargets by eauto. split.
  - intros (k & i & Hi & Hr & ->). rewrite Hv in Hi. destruct (k =s key) eqn:E; bool_prop.
    + subst k. rewrite Hold in Hi. injection Hi as <-. by left.
    + right. exists k, i. done.
  - intros [->|(k & i & Hne & Hi & Hr & ->)]; [by exists key, new|]. exists k, i.
    rewrite Hv. apply String.eqb_neq in Hne. by rewrite Hne.
Qed.

(** Replacing a replica swaps exactly one member.  The set sent to the
    proxy holds the replacement and every other replica in rotation, and
    nothing else: not the replaced instance, none that is not running. *)
Theorem membershipAfterReplace_swaps_one replicas key port h :
  is_Some (replicas !! key) → port ≠ 0 →
  h ∈ member_hosts (membershipAfterReplace replicas key port) ↔
  h = hostPort port ∨
  ∃ k i, k ≠ key ∧ replicas !! k = Some i ∧ in_rotation i = true ∧ h = hostPort (I_Port i).
Proof. apply elem_of_membership. Qed.

(** ** Samples *)

Module LifecycleSamples.

Definition inst (slot : string) (pid port : Z) : Instance :=
  mkInstance [] slot pid port "/bin/web" "" 5 "running" 1 "" 0.

(** Processes 100 and 101 run; the others do not. *)
Definition os : os_view :=
  mkOS (λ pid, one_of (Itoa pid) ["100"; "101"]) (λ _, None) (λ _, "/bin/web") (λ _, true)
    String.eqb (λ _, InspectError true).

Definition fleet : DeployState :=
  with_Replicas {[ "0" := inst "0" 100 9000; "1" := inst "1" 300 9001 ]}
    (empty_state "web" ModeRolling 80 ∅).

Definition journal_of (s : DeployState) : journal := {[ deploy_json := Data s ]}.

Definition env_with (exited listens : bool) (fs : nat → faults) : env :=
  mkEnv (λ n, Z.of_nat n) fs (λ _ _, None) (λ _, os) id (λ _, true) (λ _, true) (λ _, None)
    (λ _, Ok ("/bin/web", "")) 2 (λ _, Ok []) (λ n, Ok (mkProc 200 7 "", 9100 + Z.of_nat n)) (1, "http")
    (λ _, None) (λ _, false) (λ _, mkReport exited false) (λ _, true) (λ _, None) (λ _, true)
    (λ _, None) (λ _, None) (λ _, listens) (λ _, None) (λ _, Verified).

Definition calm : nat → faults := λ _, FileStore.no_faults.

Definition machine_of (s : DeployState) : machine :=
  mkMachine (mkWorld 0 (journal_of s) (mkVStore None ∅ ∅ None) None []) s false.

Lemma Reconcile_settles_witness :
  (Reconcile os FileStore.no_faults 9 fleet (journal_of fleet)).1.1 =
    Ok (mkDecision "degraded" 1 2 100 0 5 80) ∧
  let '(r, s1, j1) := Reconcile os FileStore.no_faults 9 fleet (journal_of fleet) in
  r = Ok (DecideLifecycle os fleet) ∧
  (∀ k i, examined s1 !! k = Some i →
     (InstanceAlive os i = true → I_Status i = "running") ∧
     (InstanceAlive os i = false → I_PID i ≤ 0)) ∧
  (∀ k i, examined s1 !! k = Some i → ∃ i0, examined fleet !! k = Some i0 ∧
     i = fix_instance os i0) ∧
  (s1 = fleet ∧ j1 = journal_of fleet ∨ j1 !! deploy_json = Some (Data s1)) ∧
  ∀ fl' now', Reconcile os fl' now' s1 j1 = (Ok (DecideLifecycle os s1), s1, j1).
Proof.
  split; [vm_compute; reflexivity|].
  apply (Reconcile_settles os FileStore.no_faults 9 fleet (journal_of fleet)); [|done].
  split; [vm_compute; reflexivity|reflexivity].
Defined.

(** The loss of a replica is reported once: its record leaves the desired set. *)
Example degraded_is_reported_once :
  let '(_, s1, _) := Reconcile os FileStore.no_faults 9 fleet (journal_of fleet) in
  L_Status (DecideLifecycle os fleet) = "degraded" ∧ L_Status (DecideLifecycle os s1) = "running".
Proof. vm_compute. by split. Qed.

(** A dead container without a host process id stays "running". *)
Example dead_container_stays_running :
  let dead := mkInstance [] "0" 0 9000 "" "c0ffee" 5 "running" 1 "" 0 in
  InstanceAlive os dead = false ∧ fix_instance os dead = dead.
Proof. vm_compute. by split. Qed.

Lemma TeardownDeployment_result_witness :
  w_log (m_world (TeardownDeployment (env_with true true calm) (machine_of fleet)).2) =
    [EvStop "127.0.0.1:9000"] ∧
  let '(r, m') := TeardownDeployment (env_with true true calm) (machine_of fleet) in
  r = Ok tt ∧
  (∃ now, m_state m' = stamped now (with_Replicas (torn_down <$> D_Replicas fleet)
                         (with_Slots (torn_down <$> D_Slots fleet) fleet))) ∧
  w_journal (m_world m') !! deploy_json = Some (Data (m_state m')) ∧
  w_route (m_world m') = None ∧
  ∃ l, w_log (m_world m') = [] ++ l ∧
    ∀ e, e ∈ l → ∃ k i t, (D_Slots fleet !! k = Some i ∨ D_Replicas fleet !! k = Some i) ∧
      InstanceAlive (e_os (env_with true true calm) t) i = true ∧ e = EvStop (hostPort (I_Port i)).
Proof.
  split; [vm_compute; reflexivity|].
  apply (TeardownDeployment_result (env_with true true calm) (machine_of fleet)).
  - split; [vm_compute; reflexivity|reflexivity].
  - reflexivity.
  - intros l. reflexivity.
Defined.

(** A process that survives the stop is recorded as stopped all the same. *)
Example teardown_forgets_a_survivor :
  let '(r, m') := TeardownDeployment (env_with false true calm) (machine_of fleet) in
  r = Ok tt ∧ (I_PID <$> D_Replicas (m_state m') !! "0") = Some 0.
Proof. vm_compute. by split. Qed.

(** The record of the second restart cannot be written. *)
Definition stopped_fleet : DeployState :=
  with_Replicas {[ "0" := inst "0" 0 9000; "1" := inst "1" 0 9001 ]} (empty_state "web" ModeRolling 80 ∅).
Definition second_write_fails : env :=
  env_with true true (λ n, if Nat.eqb n 11 then fault_at op_write else FileStore.no_faults).

Lemma StartDeployment_leaves_no_orphans_witness :
  w_log (m_world (StartDeployment second_write_fails (machine_of stopped_fleet)).2) =
    [EvLaunch "127.0.0.1:9103"; EvLaunch "127.0.0.1:9109"; EvStop "127.0.0.1:9109"] ∧
  let m' := (StartDeployment second_write_fails (machine_of stopped_fleet)).2 in
  ∃ evs, w_log (m_world m') = [] ++ evs ∧
    ∀ h, EvLaunch h ∈ evs → EvStop h ∈ evs ∨
      ∃ st k i, w_journal (m_world m') !! deploy_json = Some (Data st) ∧
        (D_Slots st !! k = Some i ∨ D_Replicas st !! k = Some i) ∧ hostPort (I_Port i) = h.
Proof.
  split; [vm_compute; reflexivity|].
  apply (StartDeployment_leaves_no_orphans second_write_fails (machine_of stopped_fleet)).
  split; [vm_compute; reflexivity|reflexivity].
Defined.

Lemma replica_set_loses_nothing_witness :
  let '(surplus, kept) := applyReplicaSet id (D_Replicas fleet) 1 in
  let replicas := ensureReplicaMap kept 1 in
  (∀ k, is_Some (replicas !! k) ↔ ∃ i, 0 ≤ i < 1 ∧ k = Itoa i) ∧
  (∀ k i, D_Replicas fleet !! k = Some i → recorded i = true →
     replicas !! k = Some i ∨ i ∈ surplus ∧ replicas !! k = None) ∧
  (∀ i, i ∈ surplus → ∃ k, D_Replicas fleet !! k = Some i ∧ recorded i = true ∧ replicas !! k = None).
Proof.
  apply (replica_set_loses_nothing id (D_Replicas fleet) 1); [done|lia|].
  intros k [i Hi]. simpl in Hi. apply lookup_insert_Some in Hi as [[<- _]|[_ Hi]].
  - exists 0. split; [lia|reflexivity].
  - apply lookup_singleton_Some in Hi as [<- _]. exists 1. split; [lia|reflexivity].
Defined.

Lemma membershipAfterReplace_swaps_one_witness :
  member_hosts (membershipAfterReplace (D_Replicas fleet) "0" 9200) = ["127.0.0.1:9200"; "127.0.0.1:9001"] ∧
  ("127.0.0.1:9001" ∈ member_hosts (membershipAfterReplace (D_Replicas fleet) "0" 9200) ↔
   "127.0.0.1:9001" = hostPort 9200 ∨
   ∃ k i, k ≠ "0" ∧ D_Replicas fleet !! k = Some i ∧ in_rotation i = true ∧
     "127.0.0.1:9001" = hostPort (I_Port i)).
Proof.
  split; [vm_compute; reflexivity|].
  apply (membershipAfterReplace_swaps_one (D_Replicas fleet) "0" 9200); [by eexists|done].
Defined.
End LifecycleSamples.
