(* ===== verification/Rolling.v ===== *)
(** * Rolling: the replica-by-replica deployment

    internal/deploy/rolling.go.  Each replica is replaced in turn: the
    replacement starts beside the running one, must become healthy, enters the
    proxy's member set in place of the old one, is written to the journal, and
    only then the old one is drained.  [rollOne] is one such step with all its
    compensations, [Deploy] the loop around it with the strategy migration, the
    shrinking of the set and the promotion of the version. *)

From S2P Require Import Prelude GoLib FileStore ProxyRouting DeployState Versions Engine.
From S2P Require Import Lifecycle Errors.

(** The configuration of a rolling deployment; [m_flag] is its [enrolled]. *)
(* src: internal/deploy/rolling.go Rolling *)
Record Rolling := mkRolling {
  r_atomicSecretRecovery : bool;
  r_AppName : string;
  r_AppID : string;
  r_PublicPort : Z;
  r_Replicas : Z;
  r_Source : bool;             (* a [BuildSource] or [Builder] is configured *)
  r_ProxyClient : bool;
  r_PortHandoff : bool;
  r_Runtime : string;
  r_Network : string;
  r_Secrets : option string
}.

(** *** Instances that a secret deployment retired *)

Section Retirements.
Variable ev : env.

(** The instances that serve, for [drainSecretRetirements]. *)
(* src: internal/deploy/secrets_txn.go:233-239 drainSecretRetirements *)
Definition serving_records (s : DeployState) : gmap string Instance :=
  if D_Mode s =s ModeBlueGreen then
    let active := match ActiveInstance s with Some i => {[ D_ActiveSlot s := i ]} | None => ∅ end in
    match D_Canary s with
    | Some c => if C_Status c =s CanaryRunning
                then partial_alter (λ _, D_Slots s !! C_Slot c) (C_Slot c) active else active
    | None => active
    end
  else D_Replicas s.

(* src: internal/deploy/secrets_txn.go:244-249 drainSecretRetirements *)
Definition in_use (serving : gmap string Instance) (retired : Instance) : bool :=
  existsb (λ inst,
    ((I_ContainerID retired <>s "") && (I_ContainerID retired =s I_ContainerID inst)) ||
    ((I_ContainerID retired =s "") && (I_PID retired =? I_PID inst)))%bool (map_to_list serving).*2.

(* src: internal/deploy/secrets_txn.go:240-259 drainSecretRetirements *)
Definition drain_one (mode : string) (serving : gmap string Instance) (retired : Instance) : M unit :=
  if in_use serving retired then ret tt
  else if mode =s ModeWorker then
    do t <- tick;
    match e_worker_stop ev t with Some e => throw e | None => ret tt end
  else
    do report <- stopInstance ev retired;
    if negb (rep_Exited report)
    then throw (New CodeProcessFailed "cannot stop retired secret instance") else ret tt.

(* src: internal/deploy/secrets_txn.go drainSecretRetirements *)
Definition drainSecretRetirements : M unit :=
  do s <- get_state;
  match D_Retiring s with
  | [] => ret tt
  | retiring =>
      do idle <- (if D_Mode s =s ModeBlueGreen then
                    match ActiveInstance s with
                    | Some i => do alive <- alive_now ev i; ret (negb alive)
                    | None => ret true
                    end
                  else ret false);
      if idle : bool then ret tt
      else
        for_eachM retiring (drain_one (D_Mode s) (serving_records s)) ;;;
        modify (with_Retiring []) ;;; persist ev
  end.
End Retirements.

Section Deploy.
Variable ev : env.
Variable r : Rolling.

(* src: internal/deploy/rolling.go Rolling.handOffPublicPort *)
Definition handOffPublicPort : M unit :=
  let bound msg := New CodePortUnavailable ("public port " +:+ Itoa (r_PublicPort r) +:+ msg) in
  if negb (r_PortHandoff r) then
    throw (bound " is owned by another process (classic instance?); stop it once, then deploy")
  else
    do t <- tick;
    match e_handoff ev t with
    | Some e => throw (wrap CodeProxy "classic-to-rolling handoff failed" e)
    | None => if e_released ev t then ret tt
              else throw (bound " still bound after stopping the classic instance")
    end.

(** Kill the replacement and give the replica its old record back. *)
(* src: internal/deploy/rolling.go:385-386 Rolling.rollOne *)
Definition give_back (key : string) (old : option Instance) (port : Z) : M unit :=
  stop_held port ;;; modify (restoreReplica key old).

(** The same, persisted, then the error. *)
(* src: internal/deploy/rolling.go:419-425 Rolling.rollOne *)
Definition abort_replica {A} (key : string) (old : option Instance) (port : Z) (why : string)
    (e : error) : M A :=
  give_back key old port ;;;
  wrap_err (persist ev)
    (wrap CodeFilesystem ("replica " +:+ key +:+ ": persist restored old record after " +:+ why)) ;;;
  throw e.

(** Step 1: the replacement process and its port. *)
(* src: internal/deploy/rolling.go:349-379 Rolling.rollOne *)
Definition start_replacement (key : string) : M (option Instance * proc * Z) :=
  do s <- get_state;
  let old := D_Replicas s !! key in
  match old with None => modify (set_replica key (stopped_instance key)) | Some _ => ret tt end ;;;
  do (p, port) <- wrap_err (launch ev)
    (wrap CodeInstanceStartFailed ("start replica " +:+ key +:+ " replacement"));
  (if 0 <? match old with Some i => I_PID i | None => 0 end then
     modify (on_replica key (inst_Status "replacing")) ;;;
     do x <- attempt (persist ev);
     match x with
     | Ok _ => ret tt
     | Err e =>
         give_back key old port ;;;
         throw (wrap CodeFilesystem ("replica " +:+ key +:+ ": persist replacement state") e)
     end
   else ret tt) ;;;
  ret (old, p, port).

(** Step 2: its health. *)
(* src: internal/deploy/rolling.go:384-400 Rolling.rollOne *)
Definition await_replacement (key : string) (old : option Instance) (port : Z) : M unit :=
  do t <- tick;
  do x <- attempt (wait_healthy ev t port);
  match x with
  | Ok _ => ret tt
  | Err e =>
      let failure := wrap CodeHealthCheckFailed
        ("replica " +:+ key +:+ " replacement failed health check; previous instance still serving")
        (wrap CodeHealthCheckFailed "probe target" e) in
      abort_replica key old port "unhealthy replacement"
        (if e_oom ev t then wrap CodeResourceOOM ("replica " +:+ key +:+
           " replacement exceeded its configured memory limit and was killed by the kernel OOM killer; previous instance still serving") failure
         else failure)
  end.

(** Step 3: the proxy's member set. *)
(* src: internal/deploy/rolling.go:417-466 Rolling.rollOne *)
Definition swap_member (key : string) (old : option Instance) (port : Z) : M unit :=
  do s <- get_state;
  let '(primary, backends) := membershipAfterReplace (D_Replicas s) key port in
  if negb (r_ProxyClient r) then
    abort_replica key old port "missing proxy"
      (New CodeProxy ("replica " +:+ key +:+ ": no proxy client configured"))
  else
    do enrolled <- get_flag;
    do handed <- attempt (
      if (negb enrolled && r_PortHandoff r && (0 <? r_PublicPort r))%bool then
        do t <- tick;
        if e_port_available ev t then ret tt else handOffPublicPort
      else ret tt);
    match handed with
    | Err e => abort_replica key old port "port handoff failure" e
    | Ok _ =>
        do x <- attempt (
          if negb enrolled then
            proxy_Add ev (r_PublicPort r) primary backends ;;; set_flag true
          else proxy_Switch ev primary backends);
        match x with
        | Ok _ => ret tt
        | Err e => abort_replica key old port "proxy error"
            (wrap CodeProxy ("replica " +:+ key +:+
              ": proxy membership update failed; previous instance still serving") e)
        end
    end.

(** The proxy is restored: the old record is written, then the candidate goes. *)
(* src: internal/deploy/rolling.go:494-504 Rolling.rollOne *)
Definition abandon_swap (key : string) (candidate : Instance) (port : Z) (previousStamp : string)
    (err : error) : M unit :=
  modify (with_SecretTxnID previousStamp) ;;;
  modify (λ s, match r_Secrets r with
               | None => s
               | Some _ => with_Retiring (D_Retiring s ++ [candidate]) s
               end) ;;;
  wrap_err (persist ev) (λ restoreErr, wrap CodeFilesystem ("replica " +:+ key +:+
    ": persist proxy-switched replacement failed; proxy restored but restoring old state also failed: " +:+
    Error restoreErr) err) ;;;
  stop_held port ;;;
  throw (wrap CodeFilesystem ("replica " +:+ key +:+
    ": persist proxy-switched replacement; proxy restored") err).

(** The write after the swap failed: the old member set comes back, or the
    candidate stays. *)
(* src: internal/deploy/rolling.go:475-493 Rolling.rollOne *)
Definition compensate_swap (key : string) (old : option Instance) (candidate : Instance) (port : Z)
    (wasEnrolled : bool) (previousStamp : string) (err : error) : M unit :=
  modify (restoreReplica key old) ;;;
  do s <- get_state;
  do comp <- attempt (
    if wasEnrolled then
      let '(primary, backends) := healthyTargets (D_Replicas s) in proxy_Switch ev primary backends
    else proxy_Remove ev ;;; set_flag false);
  match comp with
  | Err e =>
      modify (set_replica key candidate) ;;;
      storeState ev ;;;
      throw (wrap CodeProxy ("replica " +:+ key +:+
        ": state persistence failed and proxy compensation failed") e)
  | Ok _ => abandon_swap key candidate port previousStamp err
  end.

(** Step 4: the old instance is drained; its report is not looked at. *)
(* src: internal/deploy/rolling.go:512-521 Rolling.rollOne *)
Definition drain_old (old : option Instance) : M unit :=
  match old with
  | Some i =>
      if (recorded i && negb (bool_decide (is_Some (r_Secrets r))))%bool
      then stopInstance ev i ;;; ret tt else ret tt
  | None => ret tt
  end.

(** One replica. *)
(* src: internal/deploy/rolling.go Rolling.rollOne *)
Definition rollOne (binaryPath envPath : string) (envs : list string) (key : string) : M unit :=
  do (old, p, port) <- start_replacement key;
  await_replacement key old port ;;;
  do t <- tick;
  let candidate := mkInstance envs key (p_pid p) port binaryPath (p_container p) (e_now ev t)
                     "running" (e_target ev) envPath (p_ticks p) in
  if r_atomicSecretRecovery r then
    modify (set_replica key candidate) ;;;
    modify (λ s, with_Retiring (D_Retiring s ++ option_list old) s)
  else
    do wasEnrolled <- get_flag;
    swap_member key old port ;;;
    modify (set_replica key candidate) ;;;
    do s <- get_state;
    let previousStamp := D_SecretTxnID s in
    modify (Stamp (r_Secrets r) (option_list old)) ;;;
    do x <- attempt (persist ev);
    match x with
    | Err e => compensate_swap key old candidate port wasEnrolled previousStamp e
    | Ok _ => drain_old old
    end.

(* src: internal/deploy/rolling.go Rolling.undoMigration *)
Definition undoMigration (pre : modeSnapshot) : M unit :=
  if m_mode pre =s "" then ignore (remove_state ev (r_AppName r))
  else if m_mode pre =s ModeRolling then ret tt
  else modify (restoreMode pre) ;;; storeState ev.

(** The loop over the replicas; [progressed] after the first. *)
(* src: internal/deploy/rolling.go:205-245 Rolling.Deploy *)
Fixpoint roll (pre : modeSnapshot) (legacy : list Instance) (binaryPath envPath : string)
    (envs : list string) (progressed : bool) (keys : list string) : M unit :=
  match keys with
  | [] => ret tt
  | key :: keys' =>
      do t <- tick;
      match e_cancelled ev t with
      | Some e =>
          (if progressed then ret tt else undoMigration pre) ;;;
          throw (wrapDeployStep e ("rolling deploy cancelled before replica " +:+ key))
      | None =>
          do x <- attempt (rollOne binaryPath envPath envs key);
          match x with
          | Err e =>
              (if progressed then
                 modify (with_ActiveVersion 0) ;;;
                 modify (with_secretPreparing (r_atomicSecretRecovery r)) ;;;
                 wrap_err (persist ev) (wrap CodeFilesystem
                   ("persist mixed rolling fleet after replica " +:+ key +:+ " failed: " +:+ Error e))
               else undoMigration pre) ;;;
              throw (wrapDeployStep e ("rolling deploy failed at replica " +:+ key))
          | Ok _ =>
              (if (negb progressed && negb (bool_decide (is_Some (r_Secrets r))))%bool
               then stopRetiredInstances ev legacy else ret tt) ;;;
              roll pre legacy binaryPath envPath envs true keys'
          end
      end
  end.

(** The state before the first replica: the migrated record, the instances of
    another strategy and the surplus replicas. *)
(* src: internal/deploy/rolling.go:131-173 Rolling.Deploy *)
Definition prepare : M (modeSnapshot * list Instance * list Instance) :=
  modify (with_secretPreparing (bool_decide (is_Some (r_Secrets r)))) ;;;
  modify (λ s, if r_Runtime r <>s "" then with_Runtime (r_Runtime r) s else s) ;;;
  modify (λ s, if r_Network r <>s "" then with_Network (r_Network r) s else s) ;;;
  do s <- get_state;
  let pre := captureMode s in
  do legacy <- wrap_err (MigrateTo ev ModeRolling)
    (wrap CodeFilesystem "persist strategy migration to rolling");
  do t <- tick;
  modify (ReapStaleInstances (e_os ev t)) ;;;
  do s <- get_state;
  let n := Z.max 1 (r_Replicas r) in
  let '(surplus, kept) := applyReplicaSet (e_order ev) (D_Replicas s) n in
  modify (λ s, match r_Secrets r with
               | None => s
               | Some _ => with_Retiring (D_Retiring s ++ legacy ++ surplus) s
               end) ;;;
  modify (with_Replicas (ensureReplicaMap kept n)) ;;;
  do enrolled <- proxyEnrolled ev (r_ProxyClient r);
  set_flag enrolled ;;;
  ret (pre, legacy, surplus).

(** Build once; a failure undoes the migration if it retired instances. *)
(* src: internal/deploy/rolling.go:180-194 Rolling.Deploy *)
Definition build (pre : modeSnapshot) (legacy : list Instance)
  : M (string * string * list string) :=
  let failed A (e : error) : M A :=
    (if negb (Nat.eqb (length legacy) 0) then undoMigration pre else ret tt) ;;; throw e in
  do t <- tick;
  match e_build ev t with
  | Err e => failed _ (wrap CodeBuildFailed "prepare deploy artifact" e)
  | Ok (binaryPath, envPath) =>
      do t <- tick;
      match e_overlay ev t with
      | Err e => failed _ (wrap (CodeOf (Some e)) "env snapshot" e)
      | Ok envs => ret (binaryPath, envPath, envs)
      end
  end.

(** After the last replica: the surplus, the journal, the version. *)
(* src: internal/deploy/rolling.go:253-286 Rolling.Deploy *)
Definition finish (surplus : list Instance) : M unit :=
  (if bool_decide (is_Some (r_Secrets r)) then ret tt else stopRetiredInstances ev surplus) ;;;
  do t <- tick;
  modify (with_Health (Some (mkHealthSummary (e_tier ev).1 (e_tier ev).2 (e_now ev t)))) ;;;
  modify (with_ActiveVersion (e_target ev)) ;;;
  (if r_atomicSecretRecovery r then
     do s <- get_state;
     RestoreProxyRoute ev (r_ProxyClient r) s ;;;
     modify (Stamp (r_Secrets r) [])
   else ret tt) ;;;
  wrap_err (persist ev)
    (wrap CodeFilesystem "persist completed rolling deploy state before promotion") ;;;
  (if 0 <? e_target ev then promote ev (r_AppName r) (e_target ev) ModeRolling else ret tt) ;;;
  (if bool_decide (is_Some (r_Secrets r)) then drainSecretRetirements ev else ret tt).

(* src: internal/deploy/rolling.go Rolling.restoreSecretFleet *)
Definition restoreSecretFleet (previous : DeployState) : M unit :=
  let serving := instancesServing previous in
  for_eachM serving (λ inst,
    do alive <- alive_now ev inst;
    if alive : bool then ret tt else throw (New CodeProcessFailed
      "previous secret instance is unavailable; accepted deployment retained")) ;;;
  (if Nat.eqb (length serving) 0 then
     if negb (r_ProxyClient r) then throw (New CodeProxy "cannot remove failed deployment route")
     else proxy_Remove ev
   else RestoreProxyRoute ev (r_ProxyClient r) previous) ;;;
  do current <- get_state;
  set_state (with_secretPreparing false
    (with_Retiring (D_Retiring previous ++ (in_order (e_order ev) (D_Replicas current)).*2) previous)) ;;;
  do x <- attempt (persist ev);
  match x with
  | Err e => set_state current ;;; throw e
  | Ok _ => drainSecretRetirements ev
  end.

Definition deploy_body : M unit :=
  do (pre, legacy, surplus) <- prepare;
  do (binaryPath, envPath, envs) <- build pre legacy;
  do s <- get_state;
  roll pre legacy binaryPath envPath envs false (replicaIndices (D_Replicas s)) ;;;
  finish surplus.

(** The deferred restoration of a secret deployment. *)
(* src: internal/deploy/rolling.go:119-130 Rolling.Deploy *)
Definition deploy_run : M unit :=
  modify (with_AppID (r_AppID r)) ;;;
  do previous <- get_state;
  do x <- attempt deploy_body;
  match x with
  | Ok _ => ret tt
  | Err e =>
      do s <- get_state;
      match r_Secrets r with
      | Some id =>
          if (r_atomicSecretRecovery r || (D_SecretTxnID s =s id))%bool then
            do y <- attempt (restoreSecretFleet previous);
            throw (match y with Ok _ => e | Err e' => join_errors e e' end)
          else throw e
      | None => throw e
      end
  end.

(* src: internal/deploy/rolling.go Rolling.Deploy *)
Definition Deploy (w : world) : res unit * world :=
  if negb (r_Source r) then
    (Err (New CodeInvalidArgument "deploy: no BuildSource or Builder configured"), w)
  else
    let t := w_tick w in
    let w := w_set_tick (S t) w in
    match LoadOrInit (e_fs ev t) (r_AppName r) ModeRolling (r_PublicPort r) (w_journal w) with
    | Err e => (Err (wrap CodeConfiguration "failed to load deploy state" e), w)
    | Ok s => let '(x, m) := deploy_run (mkMachine w s false) in (x, m_world m)
    end.
End Deploy.
