(* ===== verification/SecretTxn.v ===== *)
(** * SecretTxn: the secrets of a deployment, settled by its journal

    internal/deploy/secrets_txn.go and secret_orphans.go.  A deployment pins the
    secrets it will run with and records the bindings as pending in the store
    before it changes anything; the engine stamps the id of this transaction
    into the journal with every write that accepts an instance.  Afterwards, and
    after any crash, [ReconcileSecretTxn] derives the outcome from the journal
    alone. *)

From S2P Require Import Prelude GoLib FileStore ProxyRouting DeployState Versions Engine Lifecycle Rolling EnvStore SecretStore SecretSafety SecretPins Redact Errors.

(** ** Launches left behind *)

(** What the operating system says of a process: its pid, its environment,
    whether its identity can be read and still matches, whether it can be
    killed, and whether it is gone within the grace period. *)
Record process := mkProcess {
  pr_pid : Z;
  pr_environ : option (list string);
  pr_identity : option bool;
  pr_kill : bool;
  pr_gone : bool
}.

(** The processes of the host, the parent of each, the containers that carry
    the transaction, and their removal. *)
Record launches := mkLaunches {
  l_processes : option (list process);
  l_ppid : Z → option Z;
  l_containers : res (list string);
  l_remove : string → option error
}.

Definition tag_of (txnID : string) : string := "PHELIX_INTERNAL_SECRET_TXN=" +:+ txnID.

Definition all_instances (s : DeployState) : list Instance :=
  (map_to_list (D_Slots s)).*2 ++ (map_to_list (D_Replicas s)).*2.

Definition launched_status (i : Instance) : bool := one_of (I_Status i) ["running"; "replacing"].

(* src: internal/deploy/secret_orphans.go:18-34 reclaimSecretLaunches *)
Definition kept_pids (os : os_view) (accepted : option DeployState) : list Z :=
  match accepted with
  | None => []
  | Some s => I_PID <$> List.filter (λ i, launched_status i && (I_ContainerID i =s "") && InstanceAlive os i)%bool
                          (all_instances s)
  end.

(* src: internal/deploy/secret_orphans.go:18-34 reclaimSecretLaunches *)
Definition kept_containers (accepted : option DeployState) : list string :=
  match accepted with
  | None => []
  | Some s => I_ContainerID <$> List.filter (λ i, launched_status i && (I_ContainerID i <>s ""))%bool (all_instances s)
  end.

(** Is [parent], or an ancestor of it, kept?  [None]: the parent is unknown. *)
(* src: internal/deploy/secret_orphans.go:57-67 reclaimSecretLaunches *)
Fixpoint kept_ancestor (fuel : nat) (ppid : Z → option Z) (keep : list Z) (parent : option Z) : bool :=
  match parent, fuel with
  | Some p, S fuel =>
      if bool_decide (p ∈ keep) then true
      else if p <=? 1 then false else kept_ancestor fuel ppid keep (ppid p)
  | _, _ => false
  end.

(** Is the process one to stop? *)
(* src: internal/deploy/secret_orphans.go:40-72 reclaimSecretLaunches *)
Definition left_behind (fuel : nat) (v : launches) (keep : list Z) (txnID : string) (p : process) : bool :=
  (negb (bool_decide (pr_pid p ∈ keep)) &&
   match pr_environ p with Some env => bool_decide (tag_of txnID ∈ env) | None => false end &&
   negb (kept_ancestor fuel (l_ppid v) keep (l_ppid v (pr_pid p))) &&
   bool_decide (pr_identity p = Some true))%bool.

(** The pids that were killed are listed too. *)
(* src: internal/deploy/secret_orphans.go:39-87 reclaimSecretLaunches *)
Fixpoint reclaim_processes (stop : process → bool) (l : list process) : res unit * list Z :=
  match l with
  | [] => (Ok tt, [])
  | p :: l =>
      if stop p then
        if negb (pr_kill p) then (Err (New CodeProcessFailed "cannot reclaim interrupted secret launch"), [])
        else if negb (pr_gone p)
        then (Err (New CodeProcessFailed "cannot confirm interrupted secret launch has stopped"), [pr_pid p])
        else let '(r, killed) := reclaim_processes stop l in (r, pr_pid p :: killed)
      else reclaim_processes stop l
  end.

(* src: internal/deploy/secret_orphans.go:97-103 reclaimSecretLaunches *)
Fixpoint remove_containers (rm : string → option error) (keep : list string) (ids : list string)
  : res unit * list string :=
  match ids with
  | [] => (Ok tt, [])
  | id :: ids =>
      if bool_decide (id ∈ keep) then remove_containers rm keep ids
      else match rm id with
           | Some e => (Err e, [id])
           | None => let '(r, removed) := remove_containers rm keep ids in (r, id :: removed)
           end
  end.

(* src: internal/deploy/secret_orphans.go reclaimSecretLaunches *)
Definition reclaimSecretLaunches (fuel : nat) (v : launches) (os : os_view) (txnID runtime : string)
    (accepted : option DeployState) : res unit * list Z * list string :=
  match l_processes v with
  | None => (Err (New CodeProcessFailed "cannot inspect interrupted secret launches"), [], [])
  | Some procs =>
      match reclaim_processes (left_behind fuel v (kept_pids os accepted) txnID) procs with
      | (Err e, killed) => (Err e, killed, [])
      | (Ok _, killed) =>
          if negb (IsDockerRuntime runtime) then (Ok tt, killed, [])
          else match l_containers v with
               | Err e => (Err e, killed, [])
               | Ok ids => let '(r, removed) := remove_containers (l_remove v) (kept_containers accepted) ids in
                           (r, killed, removed)
               end
      end
  end.

(* src: internal/deploy/secret_orphans.go secretLaunchTxn *)
Definition secretLaunchTxn (env : list string) : string :=
  match List.find (λ e, HasPrefix e (tag_of "")) env with
  | Some e => drop_str (String.length (tag_of "")) e
  | None => ""
  end.

(** ** What is reclaimed *)

Section Reclaim.
Context (fuel : nat) (v : launches) (os : os_view) (txnID runtime : string) (accepted : option DeployState).

(** Where parents have a smaller rank than their children, fuel above the rank
    of the process finds every ancestor. *)
Lemma kept_ancestor_enough (rank : Z → nat) keep n p :
  (∀ q r, l_ppid v q = Some r → (rank r < rank q)%nat) → (rank p < n)%nat →
  kept_ancestor n (l_ppid v) keep (Some p) = kept_ancestor (S (rank p)) (l_ppid v) keep (Some p).
Proof.
  intros Hr. remember (rank p) as k eqn:Hk. revert n p Hk.
  induction k as [k IH] using lt_wf_ind. intros n p -> Hn. destruct n as [|n]; [lia|]. cbn [kept_ancestor].
  case_bool_decide; [done|]. destruct (p <=? 1); [done|].
  destruct (l_ppid v p) as [q|] eqn:Eq; [|by destruct n, (rank p)].
  pose proof (Hr _ _ Eq). rewrite (IH (rank q) ltac:(lia) n q eq_refl) by lia.
  by rewrite (IH (rank q) ltac:(lia) (rank p) q eq_refl) by lia.
Qed.

Lemma reclaim_processes_spec stop l r killed :
  reclaim_processes stop l = (r, killed) →
  (∀ k, k ∈ killed → ∃ p, p ∈ l ∧ pr_pid p = k ∧ stop p = true) ∧
  (r = Ok tt → ∀ p, p ∈ l → stop p = true → pr_pid p ∈ killed ∧ pr_gone p = true).
Proof.
  revert r killed. induction l as [|p l IH]; intros r killed; cbn [reclaim_processes].
  { intros [= <- <-]. split; [by intros k ?%elem_of_nil | by intros _ p ?%elem_of_nil]. }
  destruct (stop p) eqn:Es.
  - destruct (negb (pr_kill p)); [intros [= <- <-]; split; [by intros k ?%elem_of_nil | done]|].
    destruct (pr_gone p) eqn:Eg; cbn [negb].
    + destruct (reclaim_processes stop l) as [r0 k0] eqn:E. intros [= <- <-]. destruct (IH _ _ eq_refl) as [Hk Hall].
      split.
      * intros k [-> | Hin]%elem_of_cons; [exists p; set_solver|]. destruct (Hk k Hin) as (q & ? & ? & ?).
        exists q. set_solver.
      * intros Hok q [-> | Hin]%elem_of_cons Hq; [set_solver|]. destruct (Hall Hok q Hin Hq). set_solver.
    + intros [= <- <-]. split; [|done]. intros k ->%list_elem_of_singleton. exists p. set_solver.
  - intros E. destruct (IH _ _ E) as [Hk Hall]. split.
    + intros k Hin. destruct (Hk k Hin) as (q & ? & ? & ?). exists q. set_solver.
    + intros Hok q [-> | Hin]%elem_of_cons Hq; [congruence|]. by apply Hall.
Qed.

Lemma remove_containers_spec rm keep ids r removed :
  remove_containers rm keep ids = (r, removed) →
  (∀ id, id ∈ removed → id ∈ ids ∧ id ∉ keep) ∧ (r = Ok tt → ∀ id, id ∈ ids → id ∉ keep → id ∈ removed).
Proof.
  revert r removed. induction ids as [|id ids IH]; intros r removed; cbn [remove_containers].
  { intros [= <- <-]. split; [by intros id ?%elem_of_nil | by intros _ id ?%elem_of_nil]. }
  case_bool_decide as Hk.
  - intros E. destruct (IH _ _ E) as [H1 H2]. split; [set_solver|]. intros Hok i [-> | Hi]%elem_of_cons Hn; [done|auto].
  - destruct (rm id); [intros [= <- <-]; split; [set_solver | done]|].
    destruct (remove_containers rm keep ids) as [r0 k0] eqn:E. intros [= <- <-]. destruct (IH _ _ eq_refl) as [H1 H2].
    split; [set_solver|]. intros Hok i [-> | Hi]%elem_of_cons Hn; [by left|]. right. by apply H2.
Qed.

(** Reclaiming the launches of a transaction stops only processes whose
    environment carries its marker, never an instance the journal accepted and
    records as running, and never a container it records; when it reports no
    error every other launch with the marker is gone. *)
Theorem reclaim_spares_the_accepted r killed removed
    (Hrun : reclaimSecretLaunches fuel v os txnID runtime accepted = (r, killed, removed)) :
  (∀ pid, pid ∈ killed → ∃ p env, l_processes v = Some p ∧
     (∃ q, q ∈ p ∧ pr_pid q = pid ∧ pr_environ q = Some env ∧ tag_of txnID ∈ env) ∧
     ∀ s i, accepted = Some s → i ∈ all_instances s → launched_status i = true → I_ContainerID i = "" →
       InstanceAlive os i = true → I_PID i ≠ pid) ∧
  (∀ id, id ∈ removed → ∀ s i, accepted = Some s → i ∈ all_instances s → launched_status i = true →
     I_ContainerID i ≠ "" → I_ContainerID i ≠ id) ∧
  (r = Ok tt → ∃ procs, l_processes v = Some procs ∧
     ∀ q, q ∈ procs → left_behind fuel v (kept_pids os accepted) txnID q = true → pr_pid q ∈ killed ∧ pr_gone q = true).
Proof.
  unfold reclaimSecretLaunches in Hrun. destruct (l_processes v) as [procs|].
  2: { injection Hrun as <- <- <-. split_and!; [by intros ? ?%elem_of_nil..|done]. }
  destruct (reclaim_processes _ procs) as [r1 k1] eqn:Hp.
  destruct (reclaim_processes_spec _ _ _ _ Hp) as [Hk Hall].
  assert (killed = k1 ∧ (r = Ok tt → r1 = Ok tt) ∧ ∀ id, id ∈ removed → id ∉ kept_containers accepted) as (-> & Hr1 & Hrm).
  { destruct r1 as [[]|e]; [|injection Hrun as <- <- <-; split_and!; [done..|by intros ? ?%elem_of_nil]].
    destruct (negb _); [injection Hrun as <- <- <-; split_and!; [done..|by intros ? ?%elem_of_nil]|].
    destruct (l_containers v) as [ids|e]; [|injection Hrun as <- <- <-; split_and!; [done..|by intros ? ?%elem_of_nil]].
    destruct (remove_containers _ _ ids) as [r2 k2] eqn:E. injection Hrun as <- <- <-.
    split_and!; [done..|]. intros id Hid. by apply (remove_containers_spec _ _ _ _ _ E). }
  split; [|split].
  - intros pid Hin. destruct (Hk pid Hin) as (q & Hq & <- & Hleft). unfold left_behind in Hleft.
    apply andb_true_iff in Hleft as [[[Hnk Henv]%andb_true_iff _]%andb_true_iff _].
    destruct (pr_environ q) as [env|] eqn:Ee; [|done]. apply bool_decide_eq_true in Henv.
    exists procs, env. split; [done|]. split; [by exists q|]. intros s i -> Hi Hs Hc Ha Hpid.
    apply negb_true_iff, bool_decide_eq_false in Hnk. apply Hnk. apply list_elem_of_fmap. exists i.
    split; [done|]. apply list_elem_of_In, filter_In. rewrite <- list_elem_of_In. by rewrite Hs, Hc, Ha.
  - intros id Hid s i -> Hi Hs Hne <-. apply (Hrm _ Hid). apply list_elem_of_fmap. exists i. split; [done|].
    apply list_elem_of_In, filter_In. rewrite <- list_elem_of_In. split; [done|]. rewrite Hs. simpl.
    by apply negb_true_iff, String.eqb_neq.
  - intros Hr. exists procs. split; [done|]. intros q Hq. by apply Hall; [apply Hr1|].
Qed.
End Reclaim.

(** ** Settling *)

(* src: internal/deploy/secrets_txn.go:110-125 SecretTxnOutcome *)
Inductive SecretTxnOutcome := SecretTxnNone | SecretTxnCommitted | SecretTxnDiscarded | SecretTxnRetained.
#[export] Instance SecretTxnOutcome_eq : EqDecision SecretTxnOutcome.
Proof. solve_decision. Defined.

Section Settle.
Variable ev : env.
(** What the n-th call of the run meets: the secret store, the launches to
    reclaim, the path of the proxy's socket. *)
Variables (x : nat → calls) (view : nat → launches) (socket : nat → option error) (fuel : nat).

Definition load_state (appName : string) : M loaded :=
  do t <- tick; do w <- get_world; ret (Load (e_fs ev t) appName (w_journal w)).

Definition reclaim (txnID runtime : string) (accepted : option DeployState) : M unit :=
  do t <- tick;
  match reclaimSecretLaunches fuel (view t) (e_os ev t) txnID runtime accepted with
  | (Err e, _, _) => throw e
  | (Ok _, _, _) => ret tt
  end.

Definition at_canary (f : CanaryState → CanaryState) (s : DeployState) : DeployState :=
  with_Canary (f <$> D_Canary s) s.

Definition promoted_canary (percent : option Z) (reason : string) (now : Z) (c : CanaryState) : CanaryState :=
  mkCanary (C_Version c) (C_Strategy c) (C_Slot c) (C_Step c) (C_Steps c) (default (C_TrafficPercent c) percent)
    CanaryPromoted reason (C_StartedAt c) now.

(** The other slots, in one order of the map. *)
Definition other_slots (slot : string) (s : DeployState) : list (string * Instance) :=
  omap (λ k, if k =s slot then None else (λ i, (k, i)) <$> D_Slots s !! k)
    (e_order ev (map_to_list (D_Slots s)).*1).

(* src: internal/deploy/secrets_txn.go recoverAcceptedSecretCanary *)
Definition recoverAcceptedSecretCanary (canary : CanaryState) : M unit :=
  do s <- get_state;
  match D_Slots s !! C_Slot canary with
  | None => throw (New CodeConfiguration "accepted secret rollout has no candidate record")
  | Some candidate =>
      do alive <- alive_now ev candidate;
      if negb alive then
        do t <- tick;
        modify (λ s, at_canary (promoted_canary None "accepted secret rollout recovered; candidate needs restart" (e_now ev t))
          (with_ActiveVersion (I_Version candidate) (with_ActiveSlot (C_Slot canary)
            (with_Retiring (D_Retiring s ++ (other_slots (C_Slot canary) s).*2) s)))) ;;;
        persist ev
      else
        let promoted := with_ActiveVersion (I_Version candidate) (with_ActiveSlot (C_Slot canary) s) in
        RestoreProxyRoute ev true promoted ;;;
        set_state promoted ;;;
        do stored <- attempt (persist ev);
        match stored with
        | Err e => set_state s ;;; throw e
        | Ok _ =>
            do s <- get_state;
            for_eachM (other_slots (C_Slot canary) s) (λ '(slot, inst),
              do report <- stopInstance ev inst;
              if negb (rep_Exited report)
              then throw (New CodeProcessFailed "accepted secret rollout could not stop its retired instance")
              else modify (on_slot slot (λ i, inst_Status "stopped" (inst_ContainerID "" (inst_PID 0 i))))) ;;;
            do t <- tick;
            modify (at_canary (promoted_canary (Some 100) "accepted secret rollout recovered from deployment journal" (e_now ev t))) ;;;
            persist ev
        end
  end.

(* src: internal/deploy/secrets_txn.go finishAcceptedSecretRecovery *)
Definition finishAcceptedSecretRecovery : M unit :=
  do s <- get_state;
  (if D_SecretCleanupPending s then
     if D_SecretTxnID s =s "" then
       throw (New CodeConfiguration "secret cleanup is missing its transaction identity")
     else
       reclaim (D_SecretTxnID s) (D_Runtime s) (Some s) ;;;
       modify (with_SecretCleanupPending false) ;;; persist ev
   else ret tt) ;;;
  do s <- get_state;
  match D_Canary s with
  | Some c =>
      if C_Status c =s CanaryRunning then
        do t <- tick;
        match socket t with
        | Some e => throw e
        | None => recoverAcceptedSecretCanary c
        end
      else ret tt
  | None => ret tt
  end ;;;
  drainSecretRetirements ev ;;;
  do s <- get_state;
  match D_WorkerRollout s with
  | Some w =>
      if WR_Status w <>s WorkerRolloutDone then
        modify (with_WorkerRollout (Some (mkWorkerRollout (WR_Version w) (WR_Strategy w) WorkerRolloutDone
          "accepted secret deployment recovered; later restarts use committed bindings" (WR_ReplacedFrom w)
          (WR_StartedAt w) (WR_UpdatedAt w)))) ;;; persist ev
      else ret tt
  | None => ret tt
  end.

(** What both results mean is left to the caller; the store is threaded. *)
Definition settled : Type := SecretTxnOutcome * res unit * option secret_dir.

Definition settle (x : M unit) (out : SecretTxnOutcome) (d : option secret_dir) : M settled :=
  do r <- attempt x; ret (out, r, d).

(** Stop with [SecretTxnRetained] on an error. *)
Definition or_retain (x : M unit) (d : option secret_dir) (k : M settled) : M settled :=
  do r <- attempt x;
  match r with Err e => ret (SecretTxnRetained, Err e, d) | Ok _ => k end.

(* src: internal/deploy/secrets_txn.go:155-157 ReconcileSecretTxn *)
Definition discard (appID : string) (d : option secret_dir) : M settled :=
  do t <- tick;
  let '(r, d) := DiscardTxn (x t) appID d in
  ret (if is_ok r then SecretTxnDiscarded else SecretTxnRetained, r, d).

(* src: internal/deploy/secrets_txn.go:161-163 ReconcileSecretTxn *)
Definition journal_fits (appName appID : string) (s : DeployState) : bool :=
  ((D_AppName s =s appName) && ((D_AppID s =s "") || (D_AppID s =s appID)) &&
   one_of (D_Mode s) [ModeRolling; ModeBlueGreen; ModeWorker; ModeClassic])%bool.

(* src: internal/deploy/secrets_txn.go:164-178 ReconcileSecretTxn *)
Definition commit_accepted (appID : string) (s : DeployState) (d : option secret_dir) : M settled :=
  set_state s ;;;
  or_retain (if D_SecretCleanupPending s then ret tt
             else modify (with_SecretCleanupPending true) ;;; persist ev) d
    (do t <- tick;
     let '(r, d) := CommitTxn (x t) appID d in
     match r with
     | Err e => ret (SecretTxnRetained, Err e, d)
     | Ok _ => settle finishAcceptedSecretRecovery SecretTxnCommitted d
     end).

(* src: internal/deploy/secrets_txn.go ReconcileSecretTxn *)
Definition ReconcileSecretTxn (appName appID : string) (d : option secret_dir) : M settled :=
  if negb (appid_Valid appID) then ret (SecretTxnNone, Ok tt, d)
  else
    do t <- tick;
    let '(opened, d) := Open (x t) appID d in
    match opened with
    | Err e => ret (SecretTxnRetained, Err (wrap CodeFilesystem ("deploy: read secret store of " +:+ appName) e), d)
    | Ok st =>
        do l <- load_state appName;
        match ST_Pending st, l with
        | None, Loaded s =>
            if ((D_SecretTxnID s <>s "") || D_SecretCleanupPending s || negb (bool_decide (D_Retiring s = [])))%bool
            then set_state s ;;; settle finishAcceptedSecretRecovery SecretTxnNone d
            else ret (SecretTxnNone, Ok tt, d)
        | None, _ => ret (SecretTxnNone, Ok tt, d)
        | Some p, NoState => or_retain (reclaim (PT_TxnID p) (PT_Runtime p) None) d (discard appID d)
        | Some _, LoadError e =>
            ret (SecretTxnRetained,
                 Err (wrap CodeFilesystem ("deploy: read deployment journal of " +:+ appName) e), d)
        | Some p, Loaded s =>
            if negb (journal_fits appName appID s) then
              ret (SecretTxnRetained, Err (New CodeConfiguration
                "deployment journal identity or strategy is invalid; pending secrets retained"), d)
            else if D_SecretTxnID s =s PT_TxnID p then commit_accepted appID s d
            else
              set_state s ;;;
              or_retain (reclaim (PT_TxnID p) (if PT_Runtime p =s "" then D_Runtime s else PT_Runtime p) (Some s)) d
                (or_retain (drainSecretRetirements ev) d (discard appID d))
        end
    end.
End Settle.

(** ** The transaction of a deployment *)

(* src: internal/deploy/secrets_txn.go SecretTxn *)
Record SecretTxn := mkSecretTxn {
  TX_Partial : bool;
  TX_AppName : string;
  TX_ID : string;
  TX_DeploymentID : string;
  TX_Set : PinnedSet
}.

Section Transaction.
Variable ev : env.
Variables (x : nat → calls) (view : nat → launches) (socket : nat → option error) (fuel : nat).
Context (open : string → string → string → option string).
Context (hmac : string → string → string).

(** [live], [key], [states]: the live variables, the master key, the security
    of the applications; [txnID]: [NewTxnID].  The result, the store and the
    registry of masked values are returned. *)
(* src: internal/deploy/secrets_txn.go BeginSecretTxn *)
Definition BeginSecretTxn (live : res (gset string)) (key : res string) (states : securityStates) (txnID : string)
    (appID appName deploymentID : string) (imports : list Binding) (runtime : string)
    (d : option secret_dir) (g : secretRegistry) : M (res SecretTxn * option secret_dir * secretRegistry) :=
  if negb (appid_Valid appID) then
    ret (Err (New CodeInvalidArgument ("deploy: cannot open a secret transaction for app " +:+ Quote appName)), d, g)
  else
    do settled <- ReconcileSecretTxn ev x view socket fuel appName appID d;
    match settled with
    | (_, Err e, d) => ret (Err e, d, g)
    | (_, Ok _, d) =>
        do t <- tick;
        match PinBindings open hmac (x t) (λ _, None) live key states appID imports d g with
        | (Err e, d, g) => ret (Err e, d, g)
        | (Ok set, d, g) =>
            let set := with_launch_txn txnID set in
            do t <- tick;
            match BeginTxn (x t) live appID (mkPending runtime txnID deploymentID (PS_Bindings set) (PS_Resolved set) 0) d with
            | (Err e, d) => ret (Err e, d, (Close set g).2)
            | (Ok _, d) => ret (Ok (mkSecretTxn false appName txnID deploymentID set), d, g)
            end
        end
    end.

(** [base]: what [snapshotOverlay] answers for the version. *)
(* src: internal/deploy/secrets_txn.go SecretTxn.OverlayFor *)
Definition OverlayFor (txn : SecretTxn) (base : res (list string)) : res (list string) :=
  base ← base; Ok (MergeEnv base (Overlay (TX_Set txn))).

(** [deployErr]: whether the deployment failed. *)
(* src: internal/deploy/secrets_txn.go FinishSecretTxn *)
Definition FinishSecretTxn (appID : string) (txn : option SecretTxn) (deployErr : bool)
    (d : option secret_dir) (g : secretRegistry) : M (res unit * option secret_dir * secretRegistry) :=
  match txn with
  | None => ret (Ok tt, d, g)
  | Some txn =>
      let g := (Close (TX_Set txn) g).2 in
      do settled <- ReconcileSecretTxn ev x view socket fuel (TX_AppName txn) appID d;
      match settled with
      | (SecretTxnCommitted, Ok _, d) =>
          if deployErr then ret (Ok tt, d, g)
          else
            do t <- tick;
            let '(r, d) := RecordApply (x t) appID
                             (if TX_Partial txn then ApplyRestartPartial else ApplyRestartSucceeded) d in
            ret (r, d, g)
      | (_, r, d) => ret (r, d, g)
      end
  end.
End Transaction.

(** ** The stamp stays in the journal *)

(** The transaction that the journal accepted last. *)
Definition journal_stamp (j : journal) : option string :=
  match j !! deploy_json with
  | Some (Data s) => Some (D_SecretTxnID s)
  | _ => None
  end.

(** Any [Store] leaves the old record or the one being written. *)
Lemma Store_stamp fl now s j r s' j' :
  DeployState.Store fl now s j = (r, s', j') → journal_stamp j = Some (D_SecretTxnID s) →
  journal_stamp j' = Some (D_SecretTxnID s) ∧ D_SecretTxnID s' = D_SecretTxnID s.
Proof.
  intros Hs Hj. destruct (Store_touched _ _ _ _ _ _ _ Hs) as (c & u & ->). split; [|done].
  revert Hs. unfold DeployState.Store. destruct (D_AppName s =s ""); [by intros H%(f_equal snd); cbn in H; subst j'|].
  destruct (D_secretPreparing s); [by intros H%(f_equal snd); cbn in H; subst j'|].
  set (s1 := if D_SecretTxnID s =s "" then _ else s).
  assert (D_SecretTxnID s1 = D_SecretTxnID s) as Hs1 by (subst s1; by destruct (D_SecretTxnID s =s "")).
  destruct (ValidateAppName (D_AppName s1)); [|by intros H%(f_equal snd); cbn in H; subst j'].
  destruct (fl op_mkdir); [by intros H%(f_equal snd); cbn in H; subst j'|]. fold (journal_tmp j).
  pose proof (store_outcome fl (journal_tmp j) (with_UpdatedAt now s1) j (journal_tmp_ne j)) as Hout.
  destruct (run_prog _ _ _) as [r1 j1]. intros H%(f_equal snd). cbn in H. subst j'.
  assert (j1 !! deploy_json = j !! deploy_json ∨ j1 !! deploy_json = Some (Data (with_UpdatedAt now s1))) as Hj1
    by (destruct r1; auto).
  unfold journal_stamp in *. destruct Hj1 as [-> | ->]; [done|]. cbn. by rewrite <- Hs1.
Qed.

(** Both the record on disk and the one in memory carry the stamp [id]. *)
Definition stamp_is (id : string) (m : machine) : Prop :=
  journal_stamp (w_journal (m_world m)) = Some id ∧ D_SecretTxnID (m_state m) = id.

(** Calls that leave the journal and the record alone. *)
Definition quiet (m m' : machine) : Prop :=
  w_journal (m_world m') = w_journal (m_world m) ∧ m_state m' = m_state m.

Lemma stamp_quiet id m m' : quiet m m' → stamp_is id m → stamp_is id m'.
Proof. intros [Hj Hs] [H1 H2]. split; [by rewrite Hj | by rewrite Hs]. Qed.

Section Stamp.
Context (ev : env) (x : nat → calls) (view : nat → launches) (socket : nat → option error) (fuel : nat).
Context (id : string).
Implicit Types (m : machine).

Lemma stamp_persist m : stamp_is id m → wp (persist ev) (λ _ m', stamp_is id m') m.
Proof.
  intros [Hj Hs]. unfold wp, persist. destruct (DeployState.Store _ _ _ _) as [[r s] j] eqn:E. simpl.
  rewrite <- Hs in *. destruct (Store_stamp _ _ _ _ _ _ _ E Hj) as [H1 H2]. by split.
Qed.

Lemma quiet_stopInstance inst m : wp (stopInstance ev inst) (λ _ m', quiet m m') m.
Proof.
  eapply wp_mono; [apply wp_stopInstance|]. intros r m' (Hs & _ & _ & t & _ & [Hw | [_ Hw]]); split; try done; by rewrite Hw.
Qed.

Lemma quiet_proxy_call effect m : wp (proxy_call ev effect) (λ _ m', quiet m m') m.
Proof.
  unfold wp, proxy_call, bindM, tick, get_world, ignore, attempt, on_world, throw, ret. simpl.
  destruct (e_proxy ev _) as [[e []]|]; simpl; destruct (effect (w_route (m_world m))); simpl; by split.
Qed.

Lemma quiet_RestoreProxyRoute b s m : wp (RestoreProxyRoute ev b s) (λ _ m', quiet m m') m.
Proof.
  unfold RestoreProxyRoute. destruct b; [|by apply wp_throw]. cbn [negb].
  destruct (route_members s) as [[primary backends]|e]; [|by apply wp_throw].
  unfold proxyEnrolled. cbn [negb]. wp_steps.
  case_match; apply wp_wrap_err; eapply wp_mono; [apply quiet_proxy_call| |apply quiet_proxy_call|];
    by intros ? ? [? ?].
Qed.

Lemma stamp_modify f m : (∀ s, D_SecretTxnID (f s) = D_SecretTxnID s) → stamp_is id m →
  wp (modify f) (λ _ m', stamp_is id m') m.
Proof. intros Hf [Hj Hs]. apply wp_modify. split; [done|]. cbn. by rewrite Hf. Qed.

Lemma stamp_modify_persist f m : (∀ s, D_SecretTxnID (f s) = D_SecretTxnID s) → stamp_is id m →
  wp (modify f ;;; persist ev) (λ _ m', stamp_is id m') m.
Proof.
  intros Hf Hm. apply wp_bind. eapply wp_mono; [by apply stamp_modify|]. intros [[]|e] m' H; [|done].
  by apply stamp_persist.
Qed.

Lemma stamp_drain m : stamp_is id m → wp (drainSecretRetirements ev) (λ _ m', stamp_is id m') m.
Proof.
  intros Hm. unfold drainSecretRetirements. apply wp_bind, wp_get_state.
  destruct (D_Retiring (m_state m)) as [|i0 l0] eqn:El; [done|].
  set (next := λ (idle : bool), if idle then ret tt else _).
  assert (∀ b m', stamp_is id m' → wp (next b) (λ _ m', stamp_is id m') m') as Hnext.
  { intros [] m' Hm'; [done|]. unfold next. apply wp_bind.
    eapply wp_mono; [apply (wp_for_each (stamp_is id)); [done|]|].
    - intros inst m1 _ H1. unfold drain_one. destruct (in_use _ _); [done|].
      destruct (_ =s ModeWorker).
      + wp_steps. destruct (e_worker_stop ev _); [by apply wp_throw | by apply wp_ret].
      + apply wp_bind. eapply wp_mono; [apply quiet_stopInstance|]. intros [rep|e] m2 Hq; cbn.
        * destruct (negb _); eapply stamp_quiet; done.
        * by eapply stamp_quiet.
    - intros [[]|e] m1 H1; [|done]. by apply stamp_modify_persist. }
  apply wp_bind. destruct (_ =s ModeBlueGreen).
  - destruct (ActiveInstance _).
    + unfold alive_now. wp_steps. by apply Hnext.
    + wp_steps. by apply Hnext.
  - wp_steps. by apply Hnext.
Qed.

Lemma stamp_reclaim txn runtime acc m :
  wp (reclaim ev view fuel txn runtime acc) (λ _ m', quiet m m') m.
Proof.
  unfold reclaim. wp_steps. destruct (reclaimSecretLaunches _ _ _ _ _ _) as [[[[]|e] k] rm]; by split.
Qed.

Lemma stamp_recover_canary c m :
  stamp_is id m → wp (recoverAcceptedSecretCanary ev c) (λ _ m', stamp_is id m') m.
Proof.
  intros Hm. unfold recoverAcceptedSecretCanary. apply wp_bind, wp_get_state.
  destruct (D_Slots (m_state m) !! C_Slot c) as [candidate|]; [|done].
  unfold alive_now. wp_steps.
  destruct (negb _).
  - wp_steps. by apply stamp_persist.
  - apply wp_bind. eapply wp_mono; [apply quiet_RestoreProxyRoute|].
    intros [[]|e] m1 [Hj Hs]; [|by eapply stamp_quiet; [split|]; try done].
    wp_steps. destruct Hm as [Hm1 Hm2].
    eapply wp_mono; [apply stamp_persist; split; cbn; [exact (eq_trans (f_equal journal_stamp Hj) Hm1) | exact Hm2]|].
    intros [[]|e] m2 H2; cbn beta iota.
    + apply wp_bind, wp_get_state. apply wp_bind.
      eapply wp_mono; [apply (wp_for_each (stamp_is id)); [done|]|].
      * intros [slot inst] m3 _ H3. apply wp_bind. eapply wp_mono; [apply quiet_stopInstance|].
        intros [rep|e] m4 Hq; [|by eapply stamp_quiet].
        destruct (negb _); [by eapply stamp_quiet|]. by apply stamp_modify; [|eapply stamp_quiet].
      * intros [[]|e] m3 H3; [|done]. wp_steps. by apply stamp_persist.
    + wp_steps. split; [apply H2 | done].
Qed.

Lemma stamp_finish m : stamp_is id m →
  wp (finishAcceptedSecretRecovery ev view socket fuel) (λ _ m', stamp_is id m') m.
Proof.
  intros Hm. unfold finishAcceptedSecretRecovery. apply wp_bind, wp_get_state. apply wp_bind.
  match goal with |- wp _ ?Q _ => assert (∀ m1, stamp_is id m1 → Q (Ok tt) m1) as Hnext end.
  { intros m1 H1. apply wp_bind, wp_get_state. apply wp_bind.
    match goal with |- wp _ ?Q _ => assert (∀ m2, stamp_is id m2 → Q (Ok tt) m2) as Hlast end.
    { intros m2 H2. apply wp_bind. eapply wp_mono; [by apply stamp_drain|]. intros [[]|e] m3 H3; [|done].
      apply wp_bind, wp_get_state. destruct (D_WorkerRollout _) as [w|]; [|done].
      destruct (WR_Status w <>s WorkerRolloutDone); [|done]. by apply stamp_modify_persist. }
    destruct (D_Canary (m_state m1)) as [c|]; [|by apply wp_ret, Hlast].
    destruct (C_Status c =s CanaryRunning); [|by apply wp_ret, Hlast].
    wp_steps. destruct (socket _); [by apply wp_throw|].
    eapply wp_mono; [by apply stamp_recover_canary|]. intros [[]|e] m2 H2; [by apply Hlast|done]. }
  destruct (D_SecretCleanupPending (m_state m)); [|by apply wp_ret, Hnext].
  destruct (D_SecretTxnID (m_state m) =s ""); [by apply wp_throw|].
  apply wp_bind. eapply wp_mono; [apply stamp_reclaim|]. intros [[]|e] m1 Hq; [|by eapply stamp_quiet].
  eapply wp_mono; [apply stamp_modify_persist; [done | by eapply stamp_quiet]|].
  intros [[]|e] m2 H2; [by apply Hnext|done].
Qed.
End Stamp.

(** ** The outcome is the journal's *)

(** The record of the application in the directory of the secret store. *)
Definition stored (appID : string) (d : option secret_dir) : option (content Store) :=
  default ∅ d !! (appID +:+ ".json").

(** What settling the pending transaction [p] makes of the store. *)
Definition decided (accepted : bool) (p : PendingTxn) (now : Z) (st : Store) : Store :=
  if accepted
  then with_Pending None (recordApply now ApplyDeploymentAccepted (with_Bindings (PT_Bindings p) st))
  else with_Pending None st.

Definition accepts (j : journal) (p : PendingTxn) : bool := bool_decide (journal_stamp j = Some (PT_TxnID p)).

Lemma Open_stored x appID d r d' : Open x appID d = (r, d') → stored appID d' = stored appID d.
Proof.
  unfold Open, stored. destruct (storePath appID); [|by intros [= _ <-]]. destruct d as [d|]; [|by intros [= _ <-]].
  destruct (lock_store x (Some d)) as [r0 d0] eqn:Hl. apply lock_store_dir in Hl. intros [= _ <-]. by rewrite Hl.
Qed.

Lemma Open_Ok x appID d st d' st0 :
  Open x appID d = (Ok st, d') → stored appID d = Some (Data st0) → st = st0.
Proof.
  unfold Open, stored. destruct (storePath appID) as [path|] eqn:Hp; [|done]. apply storePath_Ok in Hp as [Hv ->].
  destruct d as [d|]; [|by intros _ H; simpl in H; rewrite lookup_empty in H].
  destruct (lock_store x (Some d)) as [[[]|] d0] eqn:Hl; [|done]. apply lock_store_dir in Hl.
  cbn [mbind result_bind]. rewrite Hl. simpl. intros [= Ho _] Hs.
  destruct (openStoreLocked_Ok _ _ _ _ _ Ho) as [[Hn _] | [Hd _]]; [by rewrite Hs in Hn|].
  rewrite Hs in Hd. by injection Hd.
Qed.

(** A change of the store that fails leaves it, one that succeeds is on disk. *)
Lemma mutate_stored x appID fn d r d' st :
  mutate_ x appID fn d = (r, d') → stored appID d = Some (Data st) →
  (stored appID d' = Some (Data st) ∧ r ≠ Ok tt) ∨
  ∃ st', fn st = Ok st' ∧ stored appID d' = Some (Data st').
Proof.
  unfold mutate_, stored. destruct (mutate _ _ _ _ _) as [[r0 d0] k] eqn:Hm. intros [= <- <-] Hs.
  destruct (mutate_cases _ _ _ _ _ _ _ _ Hm) as [(-> & [e ->] & _) | (st1 & st' & Hv & Ho & Hf & [Ha _] & Hok)]; [by left|].
  destruct (openStoreLocked_Ok _ _ _ _ _ Ho) as [[Hn _] | [Hd _]]; [by rewrite Hs in Hn|].
  rewrite Hs in Hd. injection Hd as <-. injection Hf as Hf _.
  destruct r0 as [[]|e]; [right; exists st'; auto|].
  destruct Ha as [-> | ->]; [by left | right; by exists st'].
Qed.

Section Outcome.
Context (ev : env) (x : nat → calls) (view : nat → launches) (socket : nat → option error) (fuel : nat).
Context (appID : string) (st : Store) (p : PendingTxn) (Hp : ST_Pending st = Some p).
Implicit Types (m : machine) (d : option secret_dir).

(** Still pending after an error, or settled as the journal says. *)
Definition settled_as (accepted : bool) (r : res settled) : Prop :=
  ∃ out rr d, r = Ok (out, rr, d) ∧
    ((stored appID d = Some (Data st) ∧ out = SecretTxnRetained ∧ rr ≠ Ok tt) ∨
     ∃ now, stored appID d = Some (Data (decided accepted p now st)) ∧
       (rr = Ok tt → out = if accepted then SecretTxnCommitted else SecretTxnDiscarded)).

Lemma settled_retained accepted e d :
  stored appID d = Some (Data st) → settled_as accepted (Ok (SecretTxnRetained, Err e, d)).
Proof. intros Hd. by exists SecretTxnRetained, (Err e), d; split; [|left]. Qed.

Lemma wp_or_retain accepted a d k (P : machine → Prop) m :
  stored appID d = Some (Data st) → wp a (λ _ m', P m') m →
  (∀ m', P m' → wp k (λ r m'', settled_as accepted r ∧ P m'') m') →
  wp (or_retain a d k) (λ r m', settled_as accepted r ∧ P m') m.
Proof.
  intros Hd Ha Hk. unfold or_retain. wp_steps. eapply wp_mono; [exact Ha|]. intros [[]|e] m' HP; [by apply Hk|].
  apply wp_ret. split; [by apply settled_retained | done].
Qed.

Lemma wp_discard d m : stored appID d = Some (Data st) →
  wp (discard x appID d) (λ r m', settled_as false r ∧ quiet m m') m.
Proof.
  intros Hd. unfold discard. wp_steps.
  destruct (DiscardTxn _ _ _) as [r d'] eqn:E. split; [|done].
  destruct (mutate_stored _ _ _ _ _ _ _ E Hd) as [[Hs Hr] | (st' & [= <-] & Hs)].
  - destruct r as [[]|e]; [done|]. by apply settled_retained.
  - exists (if is_ok r then SecretTxnDiscarded else SecretTxnRetained), r, d'. split; [done|]. right.
    exists 0. split; [done|]. by intros ->.
Qed.

Lemma wp_commit s d m : stored appID d = Some (Data st) →
  journal_stamp (w_journal (m_world m)) = Some (D_SecretTxnID s) →
  wp (commit_accepted ev x view socket fuel appID s d)
    (λ r m', settled_as true r ∧ stamp_is (D_SecretTxnID s) m') m.
Proof.
  intros Hd Hj. unfold commit_accepted. wp_steps. apply wp_or_retain; [done| |].
  - destruct (D_SecretCleanupPending s); [by apply wp_ret|]. by apply stamp_modify_persist.
  - intros m' Hm'. wp_steps. destruct (CommitTxn _ _ _) as [r d'] eqn:E.
    destruct (mutate_stored _ _ _ _ _ _ _ E Hd) as [[Hs Hr] | (st' & Hst & Hs)].
    + destruct r as [[]|e]; [done|]. apply wp_ret. split; [by apply settled_retained | done].
    + rewrite Hp in Hst. injection Hst as <-. destruct r as [[]|e].
      * unfold settle. wp_steps. eapply wp_mono; [by apply stamp_finish|]. intros r m'' H''. apply wp_ret.
        split; [|done]. exists SecretTxnCommitted, r, d'. split; [done|]. right. by exists (x_now (x (w_tick (m_world m')))).
      * apply wp_ret. split; [|done]. exists SecretTxnRetained, (Err e), d'. split; [done|]. right.
        by exists (x_now (x (w_tick (m_world m')))).
Qed.

Lemma reconcile_pending appName d m :
  appid_Valid appID = true → stored appID d = Some (Data st) →
  wp (ReconcileSecretTxn ev x view socket fuel appName appID d)
    (λ r m', settled_as (accepts (w_journal (m_world m)) p) r ∧
             journal_stamp (w_journal (m_world m')) = journal_stamp (w_journal (m_world m))) m.
Proof.
  intros Hv Hd. unfold ReconcileSecretTxn. rewrite Hv. cbn [negb]. wp_steps.
  destruct (Open _ appID d) as [opened d1] eqn:Ho. pose proof (Open_stored _ _ _ _ _ Ho) as Hd1. rewrite Hd in Hd1.
  destruct opened as [st1|e]; [|apply wp_ret; split; [by apply settled_retained | done]].
  rewrite (Open_Ok _ _ _ _ _ _ Ho Hd), Hp in *. unfold load_state. wp_steps.
  unfold Load. destruct (ValidateAppName appName); [|apply wp_ret; split; [by apply settled_retained | done]].
  cbn [w_journal w_set_tick]. unfold accepts, journal_stamp.
  destruct (w_journal (m_world m) !! deploy_json) as [data|] eqn:Ej.
  2: { rewrite bool_decide_eq_false_2 by done.
       eapply wp_mono; [apply (wp_or_retain false _ _ _ (quiet m)); [done| |]|].
       - eapply wp_mono; [apply stamp_reclaim|]. by intros ? ? [? ?].
       - intros m' [Hj Hs]. eapply wp_mono; [by apply wp_discard|]. intros r m'' [Hr [Hj' Hs']].
         split; [done|]. split; congruence.
       - intros r m' [Hr [Hj _]]. split; [done|]. by rewrite Hj, Ej. }
  assert (∀ e acc, wp (ret (SecretTxnRetained, Err e, d1)) (λ r m', settled_as acc r ∧
            match w_journal (m_world m') !! deploy_json with Some (Data s) => Some (D_SecretTxnID s) | _ => None end =
            match data with Data s => Some (D_SecretTxnID s) | _ => None end)
            (mkMachine (w_set_tick (S (S (w_tick (m_world m)))) (m_world m)) (m_state m) (m_flag m))) as Hret.
  { intros e acc. apply wp_ret. split; [by apply settled_retained|]. cbn. by rewrite Ej. }
  destruct (e_fs ev _ op_read); [apply Hret|]. destruct data as [|s]; [apply Hret|].
  destruct (_ || _)%bool; [apply Hret|].
  destruct (negb (journal_fits appName appID s)); [apply Hret|].
  destruct (D_SecretTxnID s =s PT_TxnID p) eqn:Et; bool_prop.
  - rewrite bool_decide_eq_true_2 by congruence.
    eapply wp_mono; [apply wp_commit; [done|]; exact (f_equal (λ o, match o with Some (Data s) => Some (D_SecretTxnID s) | _ => None end) Ej)|].
    intros r m' [Hr [Hj _]]. by split.
  - rewrite bool_decide_eq_false_2 by congruence.
    eapply wp_mono; [apply wp_bind, wp_set_state, (wp_or_retain false _ _ _ (stamp_is (D_SecretTxnID s)))|]; [done| | |].
    + eapply wp_mono; [apply stamp_reclaim|]. intros r m' Hq. eapply stamp_quiet; [exact Hq|].
      split; [exact (f_equal (λ o, match o with Some (Data s) => Some (D_SecretTxnID s) | _ => None end) Ej) | done].
    + intros m' Hm'. apply wp_or_retain; [done|by apply stamp_drain|].
      intros m'' H''. eapply wp_mono; [by apply wp_discard|]. intros r m3 [Hr Hq]. split; [done|]. by eapply stamp_quiet.
    + intros r m' [Hr [Hj _]]. by split.
Qed.
End Outcome.

(** ** From the pin to the outcome *)

(** One run of the reconciler, whatever it meets and however far it gets. *)
Inductive attempt_step (appName appID : string) : journal * option secret_dir → journal * option secret_dir → Prop :=
| one_attempt ev x view socket fuel m m' d d' out r :
    ReconcileSecretTxn ev x view socket fuel appName appID d m = (Ok (out, r, d'), m') →
    attempt_step appName appID (w_journal (m_world m), d) (w_journal (m_world m'), d').

(** Without a pending transaction the store is only read. *)
Lemma reconcile_settled ev x view socket fuel appName appID d m st :
  stored appID d = Some (Data st) → ST_Pending st = None →
  wp (ReconcileSecretTxn ev x view socket fuel appName appID d)
    (λ r _, ∀ out rr d', r = Ok (out, rr, d') → stored appID d' = Some (Data st)) m.
Proof.
  intros Hd Hp. unfold ReconcileSecretTxn. destruct (negb _); [by intros ? ? ? [= _ _ <-]|]. wp_steps.
  destruct (Open _ appID d) as [opened d1] eqn:Ho. pose proof (Open_stored _ _ _ _ _ Ho) as Hd1. rewrite Hd in Hd1.
  destruct opened as [st1|e]; [|by intros ? ? ? [= _ _ <-]].
  rewrite (Open_Ok _ _ _ _ _ _ Ho Hd), Hp. unfold load_state. wp_steps.
  destruct (Load _ _ _) as [s| |e]; [|by intros ? ? ? [= _ _ <-]..].
  destruct (_ || _)%bool; [|by intros ? ? ? [= _ _ <-]].
  unfold settle. wp_steps. by intros ? ? ? [= _ _ <-].
Qed.

Section Story.
Context (appName appID : string) (st : Store) (p : PendingTxn) (accepted : bool).

(** Every state that attempts to settle [p] can reach. *)
Definition on_the_way (c : journal * option secret_dir) : Prop :=
  (stored appID c.2 = Some (Data st) ∧ accepts c.1 p = accepted) ∨
  ∃ now, stored appID c.2 = Some (Data (decided accepted p now st)).

Lemma decided_settled now : ST_Pending (decided accepted p now st) = None.
Proof. by destruct accepted. Qed.

Lemma on_the_way_step ev x view socket fuel d m out r d' m' :
  appid_Valid appID = true → ST_Pending st = Some p →
  on_the_way (w_journal (m_world m), d) →
  ReconcileSecretTxn ev x view socket fuel appName appID d m = (Ok (out, r, d'), m') →
  on_the_way (w_journal (m_world m'), d') ∧
  (r = Ok tt → ∃ now, stored appID d' = Some (Data (decided accepted p now st))).
Proof.
  intros Hv Hp [[Hs Ha] | [now Hs]] Hrun; simpl in *.
  - destruct (reconcile_pending ev x view socket fuel appID st p Hp appName d m Hv Hs) as [Hr Hj].
    rewrite Hrun, Ha in Hr. rewrite Hrun in Hj. cbn [snd] in Hj. destruct Hr as (out1 & r1 & d1 & [= <- <- <-] & Hcase).
    destruct Hcase as [(Hs' & _ & Hne) | (now & Hs' & _)].
    + split; [|done]. left. split; [done|]. rewrite <- Ha. unfold accepts. cbn [fst]. by rewrite Hj.
    + split; [right; eauto | eauto].
  - pose proof (reconcile_settled ev x view socket fuel appName appID d m _ Hs (decided_settled now)) as Hr.
    unfold wp in Hr. rewrite Hrun in Hr. specialize (Hr _ _ _ eq_refl). split; [right|]; eauto.
Qed.
End Story.

Lemma PinBindings_bindings open hmac x cancelled live key states appID bindings d g set d' g' :
  PinBindings open hmac x cancelled live key states appID bindings d g = (Ok set, d', g') → PS_Bindings set = bindings.
Proof.
  unfold PinBindings. destruct (_ ← _; _); [|done]. destruct bindings as [|b l]; [by intros [= <- _ _]|].
  destruct (Open x appID d) as [r d1]. destruct (st ← r; _) as [[[]]|]; by intros [= <- _ _].
Qed.

(** A transaction that has begun is on disk. *)
Lemma begun_is_pending ev x view socket fuel open hmac live key states txnID appID appName deploymentID imports
    runtime d g m txn d1 g1 m1 :
  BeginSecretTxn ev x view socket fuel open hmac live key states txnID appID appName deploymentID imports runtime d g m
    = (Ok (Ok txn, d1, g1), m1) →
  appid_Valid appID = true ∧ TX_ID txn = txnID ∧
  ∃ st p, stored appID d1 = Some (Data st) ∧ ST_Pending st = Some p ∧ PT_TxnID p = txnID ∧ PT_Bindings p = imports.
Proof.
  unfold BeginSecretTxn. destruct (appid_Valid appID) eqn:Hv; cbn [negb]; [|done]. intros H.
  apply (f_equal fst) in H. cbn [fst] in H. unfold bindM in H.
  destruct (ReconcileSecretTxn _ _ _ _ _ _ _ _ _) as [[[[out r] d2]|e] m2]; [|done].
  destruct r as [[]|e]; [|done]. unfold tick in H. cbn beta iota zeta in H.
  destruct (PinBindings _ _ _ _ _ _ _ _ _ _ _) as [[rset d3] g3] eqn:Hpin.
  destruct rset as [set|e]; [|done]. apply PinBindings_bindings in Hpin.
  cbn [PS_Bindings PS_Resolved] in H.
  destruct (BeginTxn _ _ _ _ _) as [rb d4] eqn:Hb. destruct rb as [[]|e]; [|done].
  injection H as <- <- <-. split; [done|]. split; [done|].
  unfold BeginTxn in Hb. destruct (negb _); [done|]. destruct (validateBindings _); [|done].
  unfold mutate_ in Hb. destruct (mutate _ _ _ _ _) as [[r0 d0] k] eqn:Hm. injection Hb as -> <-.
  destruct (mutate_cases _ _ _ _ _ _ _ _ Hm) as [(_ & [e He] & _) | (st1 & st' & _ & _ & Hf & _ & Hok)]; [done|].
  specialize (Hok eq_refl). injection Hf as Hf _.
  destruct (ST_Pending st1); [done|]. apply bind_Ok in Hf as (_ & _ & Hf). apply bind_Ok in Hf as (_ & _ & [= <-]).
  eexists _, _. split; [exact Hok|]. split; [done|]. by split.
Qed.

(** C20: the secrets of a deployment are all or nothing, and the journal decides.
    Once a deployment has begun its transaction, whatever it does to the journal
    and however often recovery is interrupted or fails afterwards, the first
    recovery that reports no error leaves the application with the new bindings
    if the journal carries the stamp of the transaction and with the previous
    ones if not; nothing stays pending and no stored secret changes. *)
Theorem bindings_follow_the_journal ev x view socket fuel open hmac live key states txnID appID appName deploymentID
    imports runtime d g m txn d1 g1 m1 (j j' : journal) d2 ev' x' view' socket' fuel' m2 m3 out d3
    (Hbegin : BeginSecretTxn ev x view socket fuel open hmac live key states txnID appID appName deploymentID imports
                runtime d g m = (Ok (Ok txn, d1, g1), m1))
    (Hattempts : rtc (attempt_step appName appID) (j, d1) (j', d2))
    (Hjournal : w_journal (m_world m2) = j')
    (Hlast : ReconcileSecretTxn ev' x' view' socket' fuel' appName appID d2 m2 = (Ok (out, Ok tt, d3), m3)) :
  ∃ st1 st3, stored appID d1 = Some (Data st1) ∧ stored appID d3 = Some (Data st3) ∧
    ST_Pending st3 = None ∧ ST_Secrets st3 = ST_Secrets st1 ∧
    ST_Bindings st3 = if bool_decide (journal_stamp j = Some txnID) then imports else ST_Bindings st1.
Proof.
  destruct (begun_is_pending _ _ _ _ _ _ _ _ _ _ _ _ _ _ _ _ _ _ _ _ _ _ _ Hbegin)
    as (Hv & _ & st & p & Hs & Hp & <- & <-).
  fold (accepts j p). set (acc := accepts j p).
  assert (∀ c, rtc (attempt_step appName appID) (j, d1) c → on_the_way appID st p acc c) as Hway.
  { apply (rtc_ind_r (on_the_way appID st p acc) (j, d1)); [by left|].
    intros c c' _ Hstep Hc. destruct Hstep as [ev0 x0 v0 s0 f0 m0 m0' d0 d0' o0 r0 Hrun].
    by destruct (on_the_way_step appName appID st p acc _ _ _ _ _ _ _ _ _ _ _ Hv Hp Hc Hrun). }
  specialize (Hway _ Hattempts). subst j'.
  destruct (on_the_way_step appName appID st p acc _ _ _ _ _ _ _ _ _ _ _ Hv Hp Hway Hlast) as [_ Hend].
  destruct (Hend eq_refl) as [now Hd3]. exists st, (decided acc p now st).
  split; [done|]. split; [done|]. split; [apply decided_settled|]. unfold decided. by destruct acc.
Qed.

Module TxnSamples.
Import SecretSafety.SecretSamples PinSamples.

Definition txn_id : string := "sec_0123456789abcdef".
Definition ev0 : env := LifecycleSamples.env_with true true LifecycleSamples.calm.
Definition calm_store (n : nat) : calls := x0.
Definition full_disk (n : nat) : calls := mkCalls (fault_at op_sync) true true None 5.
Definition nothing_left (n : nat) : launches := mkLaunches (Some []) (λ _, None) (Ok []) (λ _, None).
Definition no_socket_error (n : nat) : option error := None.
Definition m0 : machine := mkMachine (mkWorld 0 ∅ (mkVStore None ∅ ∅ None) None []) LifecycleSamples.fleet false.

Definition begin0 := BeginSecretTxn ev0 calm_store nothing_left no_socket_error 9 open hmac (Ok ∅) (Ok key0) ∅ txn_id
  app "web" "dep-1" bound "native" (Some dir1) empty_registry m0.
Definition begun : SecretTxn :=
  match begin0.1 with Ok (Ok txn, _, _) => txn | _ => mkSecretTxn false "" "" "" pinned0 end.
Definition after_begin : option secret_dir * secretRegistry :=
  match begin0.1 with Ok (_, d, g) => (d, g) | Err _ => (None, empty_registry) end.

(** Process 100 was accepted, 500 is its child, 501 was left behind and 502
    belongs to another transaction. *)
Definition tagged (pid : Z) (txn : string) : process := mkProcess pid (Some ["A=1"; tag_of txn]) (Some true) true true.
Definition left_over : launches :=
  mkLaunches (Some [tagged 100 txn_id; tagged 500 txn_id; tagged 501 txn_id; tagged 502 "sec_other"])
    (λ pid, if pid =? 500 then Some 100 else Some 1) (Ok ["c1"; "c2"]) (λ _, None).
Definition with_container : DeployState :=
  with_Replicas (<["2" := mkInstance [] "2" 0 9002 "" "c1" 5 "running" 1 "" 0]> (D_Replicas LifecycleSamples.fleet))
    LifecycleSamples.fleet.

Lemma reclaim_spares_the_accepted_witness :
  reclaimSecretLaunches 9 left_over LifecycleSamples.os txn_id "docker" (Some with_container) = (Ok tt, [501], ["c2"]) ∧
  (501 ∈ [501] → 100 ≠ 501).
Proof.
  assert (reclaimSecretLaunches 9 left_over LifecycleSamples.os txn_id "docker" (Some with_container)
    = (Ok tt, [501], ["c2"])) as H by (vm_compute; reflexivity).
  split; [exact H|]. intros Hin.
  destruct (proj1 (reclaim_spares_the_accepted _ _ _ _ _ _ _ _ _ H) 501 Hin) as (p & env & _ & _ & Hi).
  refine (Hi with_container (LifecycleSamples.inst "0" 100 9000) eq_refl _ eq_refl eq_refl eq_refl).
  vm_compute. repeat first [left | right].
Defined.

(** The deployment accepted its instances, or did not. *)
Definition accepted_state : DeployState := with_SecretTxnID txn_id LifecycleSamples.fleet.
Definition try (store : nat → calls) (s : DeployState) (d : option secret_dir) :=
  ReconcileSecretTxn ev0 store nothing_left no_socket_error 9 "web" app d (LifecycleSamples.machine_of s).
Definition result (r : res settled * machine) : settled :=
  match r.1 with Ok s => s | Err e => (SecretTxnNone, Err e, None) end.

Definition failed := try full_disk accepted_state after_begin.1.
Definition failed_journal : DeployState :=
  match w_journal (m_world failed.2) !! deploy_json with Some (Data s) => s | _ => accepted_state end.
Definition recovered := try calm_store failed_journal (result failed).2.

(** The recovery fails while it commits and is repeated. *)
Example commit_is_retried :
  (result failed).1.1 = SecretTxnRetained ∧ (result recovered).1 = (SecretTxnCommitted, Ok tt).
Proof. split; vm_compute; reflexivity. Qed.

Example unstamped_is_discarded :
  (result (try calm_store LifecycleSamples.fleet after_begin.1)).1 = (SecretTxnDiscarded, Ok tt).
Proof. vm_compute. reflexivity. Qed.

Lemma bindings_follow_the_journal_witness :
  ∃ st1 st3, stored app after_begin.1 = Some (Data st1) ∧ stored app (result recovered).2 = Some (Data st3) ∧
    ST_Pending st3 = None ∧ ST_Secrets st3 = ST_Secrets st1 ∧
    ST_Bindings st3 = if bool_decide (journal_stamp (LifecycleSamples.journal_of accepted_state) = Some txn_id)
                      then bound else ST_Bindings st1.
Proof.
  assert (begin0 = (Ok (Ok begun, after_begin.1, after_begin.2), begin0.2)) as Hbegin by (vm_compute; reflexivity).
  assert (failed = (Ok (SecretTxnRetained, (result failed).1.2, (result failed).2), failed.2)) as Hfailed
    by (vm_compute; reflexivity).
  assert (recovered = (Ok (SecretTxnCommitted, Ok tt, (result recovered).2), recovered.2)) as Hrec
    by (vm_compute; reflexivity).
  assert (w_journal (m_world failed.2) = LifecycleSamples.journal_of failed_journal) as Hj by (vm_compute; reflexivity).
  apply (bindings_follow_the_journal _ _ _ _ _ _ _ _ _ _ txn_id _ _ _ bound _ _ _ _ _ _ _ _
    (LifecycleSamples.journal_of accepted_state) (w_journal (m_world failed.2)) (result failed).2
    ev0 calm_store nothing_left no_socket_error 9%nat (LifecycleSamples.machine_of failed_journal)
    recovered.2 SecretTxnCommitted (result recovered).2 Hbegin).
  - apply rtc_once. exact (one_attempt "web" app ev0 full_disk nothing_left no_socket_error 9%nat
      (LifecycleSamples.machine_of accepted_state) failed.2 after_begin.1 (result failed).2
      SecretTxnRetained (result failed).1.2 Hfailed).
  - symmetry. exact Hj.
  - exact Hrec.
Defined.
End TxnSamples.
