(* ===== verification/RollingSafety.v ===== *)
(** * RollingSafety: a rolling deployment never interrupts service

    The traces of [Rolling.Deploy] without a secret transaction: while replicas
    are replaced one after another, no instance is stopped that the proxy
    routes to, and the proxy is only ever pointed at replicas that took traffic
    before or were found healthy, on every error path and under every order of
    failures. *)

From S2P Require Import Prelude GoLib FileStore ProxyRouting DeployState Versions Engine Traffic.
From S2P Require Import Lifecycle Rolling Errors.

Section Safety.
Context (ev : env) (r : Rolling) (mr : bool) (w0 : world).

#[local] Abbreviation old_hosts := (route_hosts (w_route w0)).

(** An instance that takes traffic by the record, or lives at some moment. *)
Definition hot (i : Instance) : Prop := in_rotation i = true ∨ ∃ t, InstanceAlive (e_os ev t) i = true.

(** What is known of the environment of a run from the record [s0]: a proxy
    call that fails was not carried out; the processes of one run get different
    ports, which are neither routed nor held by a recorded replica. *)
Record lawful (s0 : DeployState) : Prop := {
  law_proxy t e applied : e_proxy ev t = Some (e, applied) → applied = false;
  law_port t p port : e_launch ev t = Ok (p, port) → port ≠ 0;
  law_once t1 p1 port1 t2 p2 port2 :
    e_launch ev t1 = Ok (p1, port1) → e_launch ev t2 = Ok (p2, port2) →
    hostPort port1 = hostPort port2 → t1 = t2;
  law_unrouted t p port : e_launch ev t = Ok (p, port) → hostPort port ∉ old_hosts;
  law_fresh t p port k i :
    e_launch ev t = Ok (p, port) → D_Replicas s0 !! k = Some i → hot i →
    hostPort (I_Port i) ≠ hostPort port;
  law_order l : e_order ev l ≡ₚ l
}.

(** The record agrees with the proxy: the replicas recorded as running are
    routed, no two live replicas share an address, and of a routed application
    some replica within the desired count serves. *)
Record agrees (s0 : DeployState) : Prop := {
  a_mode : D_Mode s0 = ModeRolling;
  a_keys k : is_Some (D_Replicas s0 !! k) → ∃ i, 0 ≤ i < 2 ^ 63 ∧ k = Itoa i;
  a_routed k i : D_Replicas s0 !! k = Some i → in_rotation i = true →
    hostPort (I_Port i) ∈ old_hosts;
  a_apart k1 i1 k2 i2 :
    D_Replicas s0 !! k1 = Some i1 → D_Replicas s0 !! k2 = Some i2 → k1 ≠ k2 → hot i1 → hot i2 →
    hostPort (I_Port i1) ≠ hostPort (I_Port i2);
  a_serving : is_Some (w_route w0) → ∃ n i,
    0 ≤ n < Z.max 1 (r_Replicas r) ∧ D_Replicas s0 !! Itoa n = Some i ∧
    in_rotation i = true ∧ ∀ t, InstanceAlive (e_os ev t) i = true
}.

(** ** The fleet *)

(** No process launched from the [n]-th call on gets the address. *)
Definition untaken (n : nat) (h : string) : Prop :=
  ∀ t p port, (n ≤ t)%nat → e_launch ev t = Ok (p, port) → hostPort port ≠ h.

(** The hosts of the replicas in rotation. *)
Definition rot (R : gmap string Instance) : list string := T_Host <$> rotation R.

(** The replicas and the surplus are on addresses of their own. *)
Record fleet (n : nat) (surplus : list Instance) (R : gmap string Instance) : Prop := {
  f_untaken k i : R !! k = Some i → hot i → untaken n (hostPort (I_Port i));
  f_surplus j : j ∈ surplus → hot j → untaken n (hostPort (I_Port j));
  f_apart k1 i1 k2 i2 : R !! k1 = Some i1 → R !! k2 = Some i2 → k1 ≠ k2 → hot i1 → hot i2 →
    hostPort (I_Port i1) ≠ hostPort (I_Port i2);
  f_beside k i j : R !! k = Some i → j ∈ surplus → hot i → hot j →
    hostPort (I_Port i) ≠ hostPort (I_Port j)
}.

(** The variables of the run: whether the application is enrolled, the replicas. *)
Definition holds (enrolled : bool) (R : gmap string Instance) (f : bool) (s : DeployState) : Prop :=
  f = enrolled ∧ D_Replicas s = R.

#[local] Instance holds_persistent f R : Persistent (holds f R).
Proof. by intros f' s s' (c & u & ->). Qed.

#[local] Abbreviation phase f R := (traffic mr w0 (holds f R)).

(** Some replica of the fleet takes traffic. *)
Definition serves (R : gmap string Instance) : Prop := ∃ k i, R !! k = Some i ∧ in_rotation i = true.

(** Between two replicas: the fleet of [R] serves on [rt]. *)
Record round (n : nat) (surplus : list Instance) (enrolled : bool) (R : gmap string Instance)
    (rt : route) (m : machine) : Prop := {
  ro_fleet : fleet n surplus R;
  ro_phase : phase enrolled R n (rot R) rt m;
  ro_route h : h ∈ route_hosts rt → untaken n h;
  ro_serves : enrolled = true → serves R;
  ro_remove : enrolled = false → mr = true
}.

Lemma untaken_mono n n' h : (n ≤ n')%nat → untaken n h → untaken n' h.
Proof. intros Hle Hu t p port Ht. apply Hu. lia. Qed.

Lemma rot_untaken n surplus R h : fleet n surplus R → h ∈ rot R → untaken n h.
Proof.
  intros Hf (k & i & Hi & Hr & ->)%elem_of_rotation. eapply f_untaken; [done..|]. by left.
Qed.

(** Replacing one replica by a freshly launched one. *)
Lemma fleet_replace s0 n surplus R R' key cand t p port :
  lawful s0 → fleet n surplus R → (n ≤ t)%nat → e_launch ev t = Ok (p, port) → I_Port cand = port →
  (∀ k, k ≠ key → R' !! k = R !! k) → R' !! key = Some cand → fleet (S t) surplus R'.
Proof.
  intros Hl Hf Ht He Hp Hothers Hkey.
  assert (untaken (S t) (hostPort port)) as Hnew.
  { intros t' p' port' Ht' He' Heq. rewrite (law_once _ Hl _ _ _ _ _ _ He' He Heq) in Ht'. lia. }
  assert (∀ k i, R' !! k = Some i → k = key ∧ i = cand ∨ k ≠ key ∧ R !! k = Some i) as Hcase.
  { intros k i Hk. destruct (decide (k = key)) as [->|Hne]; [left; split; [done|congruence]|].
    right. by rewrite <- Hothers. }
  split.
  - intros k i [[-> ->]|[_ Hk]]%Hcase Hh; [by rewrite Hp|].
    eapply untaken_mono; [|by eapply f_untaken]. lia.
  - intros j Hj Hh. eapply untaken_mono; [|by eapply f_surplus]. lia.
  - intros k1 i1 k2 i2 [[-> ->]|[Hn1 Hk1]]%Hcase [[-> ->]|[Hn2 Hk2]]%Hcase Hne Hh1 Hh2.
    + done.
    + rewrite Hp. by eapply (f_untaken _ _ _ Hf).
    + rewrite Hp. intros Heq. symmetry in Heq. revert Heq. by eapply (f_untaken _ _ _ Hf).
    + by eapply f_apart; [| | |exact Hne|..].
  - intros k i j [[-> ->]|[_ Hk]]%Hcase Hj Hhi Hhj; [|by eapply f_beside].
    rewrite Hp. by eapply (f_surplus _ _ _ Hf).
Qed.
(** ** One replica *)

(** An error ends the run: from then on only the journal is written. *)
#[local] Abbreviation quiet := (Inv mr w0 []).

Lemma give_back_quiet key old port f n R K rt m :
  phase f R n K rt m → hostPort port ∉ route_hosts rt → hostPort port ∉ K →
  wp (give_back key old port) (λ x m', x = Ok tt ∧ quiet (m_world m')) m.
Proof.
  intros Hb Hr HK. unfold give_back. wp_steps.
  wp_call (stop_held_traffic mr w0 (holds f R)); [done|done|exact Hb|].
  clear m Hb. intros x m [-> Hb]. wp_steps. split; [done|]. by eapply traffic_end.
Qed.

Lemma abort_replica_quiet {A} key old port why e f n R K rt m :
  phase f R n K rt m → hostPort port ∉ route_hosts rt → hostPort port ∉ K →
  wp (abort_replica ev (A := A) key old port why e)
    (λ x m', (∃ e, x = Err e) ∧ quiet (m_world m')) m.
Proof.
  intros Hb Hr HK. unfold abort_replica. wp_steps.
  wp_call give_back_quiet; [done..|]. clear m Hb. intros x m [-> HI]. wp_steps.
  wp_call persist_Inv; [done|]. clear m HI. intros [[]|e'] m HI; wp_steps; eauto.
Qed.

(** The replica map with the record of one key left open. *)
Definition beside (key : string) (R R' : gmap string Instance) : Prop :=
  is_Some (R' !! key) ∧ ∀ k, k ≠ key → R' !! k = R !! k.

Lemma beside_insert key i R R' : beside key R R' → beside key R (<[key := i]> R').
Proof.
  intros [_ Hk]. split; [by rewrite lookup_insert_eq; eauto|].
  intros k Hne. rewrite lookup_insert_ne by done. by apply Hk.
Qed.

Lemma beside_alter key f R R' : beside key R R' → beside key R (alter f key R').
Proof.
  intros [[i Hi] Hk]. split; [by rewrite lookup_alter_eq, Hi; eauto|].
  intros k Hne. rewrite lookup_alter_ne by done. by apply Hk.
Qed.

(** The address of a process just launched. *)
Record newcomer (n : nat) (R : gmap string Instance) (rt : route) (t : nat) (port : Z) : Prop := {
  nc_call : (n ≤ t)%nat;
  nc_launch : ∃ p, e_launch ev t = Ok (p, port);
  nc_route : hostPort port ∉ route_hosts rt;
  nc_rot : hostPort port ∉ rot R
}.

(** An edit of the replicas alone. *)
Lemma phase_edit f R R' n K rt w s s' fl fl' f' :
  phase f R n K rt (mkMachine w s fl) → D_Replicas s' = R' → f' = fl' →
  phase f' R' n K rt (mkMachine w s' fl').
Proof. intros (HI & Hw & _ & Hn) Hs Hf. by split_and!. Qed.

Lemma start_replacement_safe surplus n enrolled R rt key m :
  round n surplus enrolled R rt m →
  wp (start_replacement ev key) (λ x m', match x with
    | Ok (old, p, port) => old = R !! key ∧ ∃ t R',
        newcomer n R rt t port ∧ beside key R R' ∧ phase enrolled R' (S t) (rot R) rt m'
    | Err _ => quiet (m_world m')
    end) m.
Proof.
  intros [Hf Hb Hrt _ _]. unfold start_replacement. wp_steps.
  assert (D_Replicas (m_state m) = R) as -> by apply Hb.
  set (R1 := match R !! key with Some _ => R | None => <[key := stopped_instance key]> R end).
  assert (beside key R R1) as HR1.
  { unfold R1. destruct (R !! key) eqn:E; split; [by eauto|done|by rewrite lookup_insert_eq; eauto|].
    intros k Hne. by rewrite lookup_insert_ne. }
  assert (wp (match R !! key with
              | Some _ => ret tt | None => modify (set_replica key (stopped_instance key)) end)
    (λ x m', x = Ok tt ∧ phase enrolled R1 n (rot R) rt m') m) as Hfirst.
  { unfold R1. destruct m as [w s f]. destruct (R !! key); wp_steps; [done|]. split; [done|].
    pose proof Hb as (_ & _ & [Hfl Hs] & _). simpl in Hfl, Hs.
    eapply phase_edit; [exact Hb|by rewrite <- Hs|done]. }
  eapply wp_mono; [apply Hfirst|]. clear Hfirst Hb m. intros x m (-> & Hb). wp_steps.
  wp_call (launch_traffic ev mr w0 (holds enrolled R1)); [exact Hb|].
  clear Hb m. intros [[p port]|e] m Hb; wp_steps; [|by eapply traffic_end].
  destruct Hb as (t & Ht & He & Hb).
  assert (newcomer n R rt t port) as Hnew.
  { split; [done|by exists p|..]; intros Hin.
    - by eapply (Hrt _ Hin).
    - by eapply (rot_untaken _ _ _ _ Hf Hin). }
  destruct (0 <? _); wp_steps; [|split; [done|]; by exists t, R1].
  wp_call (persist_traffic ev mr w0 (holds enrolled (alter (inst_Status "replacing") key R1))).
  { destruct m as [w s f]. pose proof Hb as (_ & _ & [Hfl Hs] & _). simpl in Hfl, Hs.
    eapply phase_edit; [exact Hb|by rewrite <- Hs|done]. }
  clear Hb m. intros [[]|e] m Hb; wp_steps.
  - split; [done|]. eexists t, _. split; [done|]. split; [|done]. by apply beside_alter.
  - wp_call give_back_quiet; [exact Hb|by eapply nc_route|by eapply nc_rot|].
    clear Hb m. intros x m [-> HI]. by wp_steps.
Qed.

Lemma await_replacement_safe n R rt t port key old f R' m :
  newcomer n R rt t port → phase f R' (S t) (rot R) rt m →
  wp (await_replacement ev key old port) (λ x m', match x with
    | Ok _ => phase f R' (S t) (hostPort port :: rot R) rt m'
    | Err _ => quiet (m_world m')
    end) m.
Proof.
  intros Hn Hb. unfold await_replacement. wp_steps.
  apply traffic_tick in Hb.
  unfold wait_healthy. destruct (e_health ev _) as [e|]; wp_steps.
  - wp_call (abort_replica_quiet (A := unit)); [exact Hb|by eapply nc_route|by eapply nc_rot|].
    by intros x m' [[e' ->] HI].
  - by apply traffic_healthy.
Qed.
(** The members after the swap: the newcomer and the others in rotation. *)
Definition swapped (key : string) (port : Z) (R : gmap string Instance) (rt : route) : Prop :=
  ∀ h, h ∈ route_hosts rt → h = hostPort port ∨
    ∃ k i, k ≠ key ∧ R !! k = Some i ∧ in_rotation i = true ∧ h = hostPort (I_Port i).

Lemma swapped_members key port R R' :
  port ≠ 0 → beside key R R' → swapped key port R (Some (membershipAfterReplace R' key port)).
Proof.
  intros Hp [Hk Hothers] h Hh.
  assert (h ∈ member_hosts (membershipAfterReplace R' key port)) as Hm
    by (by destruct (membershipAfterReplace R' key port)).
  apply elem_of_membership in Hm as [->|(k & i & Hne & Hi & Hr & ->)]; [by left| |done..].
  right. exists k, i. by rewrite <- Hothers.
Qed.

Lemma swapped_ready key port R rt h :
  swapped key port R rt → h ∈ route_hosts rt → h ∈ hostPort port :: rot R.
Proof.
  intros Hs [->|(k & i & _ & Hi & Hr & ->)]%Hs; [by left|]. right.
  apply elem_of_rotation. eauto.
Qed.

(** One message to the daemon about the members. *)
Lemma send_members s0 f R' n K rt members effect m :
  lawful s0 → (∀ rt', effect rt = Ok rt' → rt' = Some members) →
  (∀ h, h ∈ route_hosts (Some members) → h ∈ K) → phase f R' n K rt m →
  wp (proxy_call ev effect) (λ x m', match x with
    | Ok _ => phase f R' n K (Some members) m'
    | Err _ => phase f R' n K rt m'
    end) m.
Proof.
  intros Hl He HK Hb. wp_call (proxy_traffic ev mr w0 (holds f R')); [by eapply law_proxy| |exact Hb|].
  - intros rt' ->%He. split; [done|]. apply HK.
  - intros [[]|e] m'; [|by intros [? _]]. intros (rt' & ->%He & Hb'). done.
Qed.

Lemma swap_member_safe s0 n R rt t port key old enrolled R' m :
  lawful s0 → newcomer n R rt t port → beside key R R' →
  phase enrolled R' (S t) (hostPort port :: rot R) rt m →
  wp (swap_member ev r key old port) (λ x m', match x with
    | Ok _ => ∃ rt', swapped key port R rt' ∧
                     phase true R' (S t) (hostPort port :: rot R) rt' m'
    | Err _ => quiet (m_world m')
    end) m.
Proof.
  intros Hl Hn Hbe Hb. unfold swap_member. wp_steps.
  assert (D_Replicas (m_state m) = R') as -> by apply Hb.
  assert (port ≠ 0) as Hport by (destruct (nc_launch _ _ _ _ _ Hn); by eapply law_port).
  pose proof (swapped_members key port R R' Hport Hbe) as Hsw.
  assert (∀ why e m, phase enrolled R' (S t) (hostPort port :: rot R) rt m →
    wp (abort_replica ev (A := unit) key old port why e) (λ x m', match x with
      | Ok _ => ∃ rt', swapped key port R rt' ∧
                       phase true R' (S t) (hostPort port :: rot R) rt' m'
      | Err _ => quiet (m_world m')
      end) m) as Habort.
  { intros why e m1 Hb1. wp_call (abort_replica_quiet (A := unit)).
    - eapply (traffic_weaken _ _ _ _ _ (rot R)); [|exact Hb1]. intros h Hh. by right.
    - by eapply nc_route.
    - by eapply nc_rot.
    - by intros x m' [[e' ->] HI]. }
  destruct (membershipAfterReplace R' key port) as [primary backends].
  destruct (negb (r_ProxyClient r)); [by apply Habort|]. wp_steps.
  assert (m_flag m = enrolled) as -> by apply Hb.
  set (handoff := if (_ && (0 <? r_PublicPort r))%bool then _ else _).
  assert (wp handoff (λ _ m', phase enrolled R' (S t) (hostPort port :: rot R) rt m') m) as Hhand.
  { unfold handoff. destruct (_ && (0 <? r_PublicPort r))%bool; wp_steps; [|done].
    apply traffic_tick in Hb. destruct (e_port_available ev _); wp_steps; [done|].
    unfold handOffPublicPort. destruct (negb (r_PortHandoff r)); wp_steps; [done|].
    apply traffic_tick in Hb. destruct (e_handoff ev _); wp_steps; [done|].
    by destruct (e_released ev _). }
  eapply wp_mono; [apply Hhand|]. clear Hhand Hb m. intros [[]|e] m Hb; [|by apply Habort].
  wp_steps. destruct enrolled; cbn [negb].
  - wp_call (send_members s0 true R' (S t) (hostPort port :: rot R) rt (primary, backends));
      [done| |intros h; by apply (swapped_ready key)|exact Hb|].
    { intros rt'. destruct rt; [|done]. by intros [= <-]. }
    clear Hb m. intros [[]|e] m Hb; [|by apply Habort]. wp_steps. by eexists.
  - wp_steps. wp_call (send_members s0 false R' (S t) (hostPort port :: rot R) rt (primary, backends));
      [done| |intros h; by apply (swapped_ready key)|exact Hb|].
    { intros rt'. destruct (_ <=? 0); [done|]. destruct (T_Host primary =s ""); [done|].
      by intros [= <-]. }
    clear Hb m. intros [[]|e] m Hb; wp_steps; [|by apply Habort]. eexists. split; [done|].
    destruct m as [w s f]. pose proof Hb as (_ & _ & [Hfl Hs] & _).
    by eapply phase_edit; [exact Hb|..].
Qed.
(** The record could not be written after the swap. *)
Lemma abandon_swap_quiet key cand port stamp err f n R K rt m :
  r_Secrets r = None → phase f R n K rt m → hostPort port ∉ route_hosts rt → hostPort port ∉ K →
  wp (abandon_swap ev r key cand port stamp err)
    (λ x m', (∃ e, x = Err e) ∧ quiet (m_world m')) m.
Proof.
  intros Hsec Hb Hr HK. unfold abandon_swap. rewrite Hsec. wp_steps.
  wp_call (persist_traffic ev mr w0 (holds f R)).
  { destruct m as [w s f1]. pose proof Hb as (_ & _ & [Hfl Hs] & _). by eapply phase_edit; [exact Hb|..]. }
  clear Hb m. intros [[]|e] m Hb; wp_steps; [|by eauto using traffic_end].
  wp_call (stop_held_traffic mr w0 (holds f R)); [done|done|exact Hb|].
  clear Hb m. intros x m [-> Hb]. wp_steps. eauto using traffic_end.
Qed.

Lemma compensate_swap_safe s0 surplus n enrolled R rt0 rt t port key cand R' stamp err m0 m :
  lawful s0 → r_Secrets r = None → round n surplus enrolled R rt0 m0 → newcomer n R rt0 t port →
  beside key R R' → phase true R' (S t) (hostPort port :: rot R) rt m →
  wp (compensate_swap ev r key (R !! key) cand port enrolled stamp err)
    (λ x m', (∃ e, x = Err e) ∧ quiet (m_world m')) m.
Proof.
  intros Hl Hsec Hro Hn [_ Hothers] Hb. unfold compensate_swap. wp_steps.
  set (R3 := <[key := default (stopped_instance key) (R !! key)]> R').
  assert (D_Replicas (restoreReplica key (R !! key) (m_state m)) = R3) as HR
    by (unfold restoreReplica; simpl; f_equal; apply Hb).
  rewrite HR.
  assert (∀ k i, R3 !! k = Some i → in_rotation i = true → R !! k = Some i) as Hback.
  { intros k i. unfold R3. destruct (decide (k = key)) as [->|Hne].
    - rewrite lookup_insert_eq. intros [= <-]. by destruct (R !! key).
    - rewrite lookup_insert_ne by done. by rewrite Hothers. }
  assert (phase true R3 (S t) (hostPort port :: rot R) rt
    (mkMachine (m_world m) (restoreReplica key (R !! key) (m_state m)) (m_flag m))) as Hb1.
  { destruct m as [w s f]. pose proof Hb as (_ & _ & [Hfl Hs] & _). by eapply phase_edit; [exact Hb|..]. }
  clear Hb HR. revert Hb1. generalize (restoreReplica key (R !! key) (m_state m)) as s1. intros s1 Hb.
  assert (hostPort port ∉ rot R) as Hnrot by by eapply nc_rot.
  assert (∀ f rt1 m, phase f R3 (S t) (hostPort port :: rot R) rt1 m →
    (∀ h, h ∈ route_hosts rt1 → h ∈ rot R) →
    wp (abandon_swap ev r key cand port stamp err)
      (λ x m', (∃ e, x = Err e) ∧ quiet (m_world m')) m) as Habandon.
  { intros f rt1 m1 Hb1 Hin. eapply (abandon_swap_quiet _ _ _ _ _ f _ R3 (rot R) rt1); [done| |by auto|done].
    eapply traffic_weaken; [|exact Hb1]. intros h Hh. by right. }
  assert (∀ e m, quiet (m_world m) → wp (modify (set_replica key cand) ;;; storeState ev ;;; throw e)
      (λ x m', (∃ e, x = Err (A := unit) e) ∧ quiet (m_world m')) m) as Hkeep.
  { intros e m1 HI. wp_steps. wp_call storeState_Inv; [done|]. intros x m2 [-> HI2]. wp_steps. eauto. }
  destruct enrolled; wp_steps.
  - assert (∀ h, h ∈ route_hosts (Some (healthyTargets R3)) → h ∈ rot R) as Hin.
    { intros h Hh. assert (h ∈ member_hosts (healthyTargets R3)) as Hm by by destruct (healthyTargets R3).
      apply elem_of_healthyTargets in Hm as (k & i & Hi & Hr & ->).
      - apply elem_of_rotation. exists k, i. split; [by apply Hback|done].
      - destruct (ro_serves _ _ _ _ _ _ Hro eq_refl) as (k & i & Hi & Hr). exists k, i. split; [|done].
        unfold R3. destruct (decide (k = key)) as [->|Hne].
        + by rewrite lookup_insert_eq, Hi.
        + rewrite lookup_insert_ne by done. by rewrite Hothers. }
    destruct (healthyTargets R3) as [primary backends]. unfold proxy_Switch.
    wp_call (send_members s0 true R3 (S t) (hostPort port :: rot R) rt (primary, backends));
      [done| |intros h Hh; right; by apply Hin|exact Hb|].
    { intros rt'. destruct rt; [|done]. by intros [= <-]. }
    clear Hb m. intros [[]|e] m Hb; [by eapply Habandon|]. apply Hkeep. by eapply traffic_end.
  - unfold proxy_Remove. wp_call (proxy_traffic ev mr w0 (holds true R3)); [by eapply law_proxy| |exact Hb|].
    { intros rt' [= <-]. split; [intros _; by eapply ro_remove|]. by intros h ?%not_elem_of_nil. }
    clear Hb m. intros [[]|e] m.
    + intros (rt' & [= <-] & Hb). wp_steps. apply (Habandon false None).
      * destruct m as [w s f]. pose proof Hb as (_ & _ & [Hfl Hs] & _). by eapply phase_edit; [exact Hb|..].
      * by intros h ?%not_elem_of_nil.
    + intros [Hb _]. apply Hkeep. by eapply traffic_end.
Qed.
(** The fleet after the replacement is on [rt]. *)
Definition settled (surplus : list Instance) (n : nat) (R : gmap string Instance) (rt : route)
    (m : machine) : Prop :=
  round n surplus true R rt m ∧ ∀ h, h ∈ route_hosts rt → h ∈ rot R.

(** An instance of the old fleet that is neither in rotation nor routed. *)
Lemma stop_beside surplus n R rt i m :
  settled surplus n R rt m → (hot i → hostPort (I_Port i) ∉ rot R) →
  wp (stopInstance ev i) (λ x m', settled surplus n R rt m' ∧ ∃ rep, x = Ok rep) m.
Proof.
  intros [[Hf Hb Hu Hs Hm] Hr] Hi. wp_call (stop_traffic ev mr w0 (holds true R)); [|exact Hb|].
  - intros t Ha. assert (hot i) as Hh by (right; by exists t). split; [|exact (Hi Hh)].
    intros Hin%Hr. exact (Hi Hh Hin).
  - intros x m' [Hb' Hx]. split; [|done]. by split; [split|].
Qed.

Lemma rollOne_safe s0 surplus n enrolled R rt bin envp envs key m :
  lawful s0 → r_Secrets r = None → r_atomicSecretRecovery r = false →
  round n surplus enrolled R rt m →
  wp (rollOne ev r bin envp envs key) (λ x m', match x with
    | Ok _ => ∃ n' R' rt', settled surplus n' R' rt' m'
    | Err _ => quiet (m_world m')
    end) m.
Proof.
  intros Hl Hsec Hat Hro. unfold rollOne. wp_steps.
  wp_call start_replacement_safe; [exact Hro|].
  intros [[[old p] port]|e] m1 Hx; [|done]. destruct Hx as (-> & t & R' & Hn & Hbe & Hb). wp_steps.
  wp_call await_replacement_safe; [exact Hn|exact Hb|]. clear Hb m1. intros [[]|e] m1 Hb; [|done].
  wp_steps. rewrite Hat. wp_steps. apply traffic_tick in Hb.
  set (m2 := mkMachine _ _ _) in Hb |- *.
  assert (m_flag m1 = enrolled) as -> by apply Hb.
  set (cand := mkInstance envs key _ _ _ _ _ _ _ _ _).
  assert (I_Port cand = port) as Hport by done.
  assert (in_rotation cand = true) as Hcand.
  { destruct (nc_launch _ _ _ _ _ Hn) as [p' Hp']. unfold in_rotation. simpl.
    apply negb_true_iff, Z.eqb_neq. by eapply law_port. }
  wp_call swap_member_safe; [exact Hl|exact Hn|exact Hbe|exact Hb|].
  clear Hb. clearbody m2 cand. clear m2. intros [[]|e] m3 Hx; [|done]. destruct Hx as (rt' & Hsw & Hb). wp_steps.
  rewrite Hsec. set (R2 := <[key := cand]> R').
  assert (fleet (S t) surplus R2) as Hf2.
  { destruct (nc_launch _ _ _ _ _ Hn) as [p' Hp'].
    eapply fleet_replace; [exact Hl|apply Hro|by eapply nc_call|exact Hp'|exact Hport|..].
    - intros k Hne. unfold R2. rewrite lookup_insert_ne by done. by apply Hbe.
    - apply lookup_insert_eq. }
  assert (phase true R2 (S t) (hostPort port :: rot R) rt'
    (mkMachine (m_world m3) (Stamp None (option_list (R !! key)) (set_replica key cand (m_state m3)))
       (m_flag m3))) as Hb2.
  { destruct m3 as [w s f]. pose proof Hb as (_ & _ & [Hfl Hs] & _). simpl in Hfl, Hs.
    eapply phase_edit; [exact Hb|simpl; by rewrite Hs|done]. }
  wp_call (persist_traffic ev mr w0 (holds true R2)); [exact Hb2|].
  clear Hb Hb2. intros [[]|e] m4 Hb.
  - assert (∀ h, h ∈ rot R2 ↔ h = hostPort port ∨
      ∃ k i, k ≠ key ∧ R !! k = Some i ∧ in_rotation i = true ∧ h = hostPort (I_Port i)) as Hrot.
    { intros h. unfold rot. rewrite elem_of_rotation. split.
      - intros (k & i & Hi & Hr & ->). revert Hi. unfold R2. destruct (decide (k = key)) as [->|Hne].
        + rewrite lookup_insert_eq. intros [= <-]. left. by rewrite Hport.
        + rewrite lookup_insert_ne by done. rewrite (proj2 Hbe) by done. right. by exists k, i.
      - intros [->|(k & i & Hne & Hi & Hr & ->)].
        + exists key, cand. rewrite Hport. split; [apply lookup_insert_eq|done].
        + exists k, i. unfold R2. rewrite lookup_insert_ne by done. by rewrite (proj2 Hbe). }
    assert (settled surplus (S t) R2 rt' m4) as Hset.
    { assert (∀ h, h ∈ route_hosts rt' → h ∈ rot R2) as Hin by (intros h Hh; by apply Hrot, Hsw).
      split; [split|done].
      - done.
      - eapply traffic_weaken; [|exact Hb]. intros h [->|(k & i & _ & Hi & Hr & ->)]%Hrot; [by left|].
        right. apply elem_of_rotation. by exists k, i.
      - intros h Hh%Hin. by eapply rot_untaken.
      - intros _. exists key, cand. split; [apply lookup_insert_eq|done].
      - done. }
    unfold drain_old. destruct (R !! key) as [i|] eqn:Ei; [|wp_steps; eauto].
    destruct (_ && _)%bool; wp_steps; [|eauto].
    wp_call stop_beside; [exact Hset| |intros x m5 [Hset' [rep ->]]; wp_steps; eauto].
    intros Hh [Heq|(k & j & Hne & Hj & Hr & Heq)]%Hrot.
    + destruct (nc_launch _ _ _ _ _ Hn) as [p' Hp'].
      eapply (f_untaken _ _ _ (ro_fleet _ _ _ _ _ _ Hro) key i Ei Hh); [by eapply nc_call|exact Hp'|done].
    + eapply (f_apart _ _ _ (ro_fleet _ _ _ _ _ _ Hro) key i k j); [done|done|done|done|by left|done].
  - wp_call compensate_swap_safe; [done|done|exact Hro|exact Hn| |exact Hb|].
    + by apply beside_insert.
    + by intros x m5 [[e' ->] HI].
Qed.

(** ** The loop over the replicas *)

Lemma round_tick n surplus enrolled R rt m :
  round n surplus enrolled R rt m →
  round n surplus enrolled R rt
    (mkMachine (w_set_tick (S (w_tick (m_world m))) (m_world m)) (m_state m) (m_flag m)).
Proof. intros [? Hb ? ? ?]. split; [done|by apply traffic_tick|done..]. Qed.

Lemma round_quiet n surplus enrolled R rt m : round n surplus enrolled R rt m → quiet (m_world m).
Proof. intros [_ Hb _ _ _]. by eapply traffic_end. Qed.

Lemma undoMigration_quiet pre m :
  quiet (m_world m) → wp (undoMigration ev r pre) (λ x m', x = Ok tt ∧ quiet (m_world m')) m.
Proof.
  intros HI. unfold undoMigration. destruct (m_mode pre =s ""); [|destruct (m_mode pre =s ModeRolling)];
    wp_steps; [|done|].
  - unfold wp, remove_state. by destruct (RemoveState _ _ _) as [x j].
  - by wp_call storeState_Inv; [done|].
Qed.

(** What the loop has at the beginning and, after a replica, in between. *)
Definition going (surplus : list Instance) (progressed : bool) (m : machine) : Prop :=
  if progressed then ∃ n R rt, settled surplus n R rt m
  else ∃ n enrolled R rt, round n surplus enrolled R rt m.

Lemma going_round surplus progressed m :
  going surplus progressed m → ∃ n enrolled R rt, round n surplus enrolled R rt m.
Proof. destruct progressed; [intros (n & R & rt & Hr & _); eauto|done]. Qed.

Lemma roll_safe s0 surplus pre bin envp envs progressed keys m :
  lawful s0 → r_Secrets r = None → r_atomicSecretRecovery r = false →
  going surplus progressed m →
  wp (roll ev r pre [] bin envp envs progressed keys) (λ x m', match x with
    | Ok _ => going surplus (progressed || negb (Nat.eqb (length keys) 0)) m'
    | Err _ => quiet (m_world m')
    end) m.
Proof.
  intros Hl Hsec Hat. revert progressed m. induction keys as [|key keys IH]; intros progressed m Hg.
  { simpl. by rewrite orb_false_r. }
  destruct (going_round _ _ _ Hg) as (n & enrolled & R & rt & Hro). cbn [roll]. wp_steps.
  assert (∀ e m, quiet (m_world m) → wp
    ((if progressed then ret tt else undoMigration ev r pre) ;;; throw e)
    (λ x m', (∃ e, x = Err (A := unit) e) ∧ quiet (m_world m')) m) as Hfail.
  { intros e m1 HI. destruct progressed; wp_steps; [eauto|].
    wp_call undoMigration_quiet; [done|]. intros x m2 [-> HI2]. wp_steps. eauto. }
  apply round_tick in Hro. destruct (e_cancelled ev _) as [e|].
  { eapply wp_mono; [eapply Hfail; by eapply round_quiet|]. by intros x m1 [[e' ->] HI]. }
  wp_steps. wp_call rollOne_safe; [done|done|done|exact Hro|]. clear Hro Hg Hfail.
  intros [[]|e] m1 Hx; wp_steps.
  - assert (wp (if (negb progressed && negb (bool_decide (is_Some (r_Secrets r))))%bool
                then stopRetiredInstances ev [] else ret tt) (λ x m', x = Ok tt ∧ m' = m1) m1) as Hstop.
    { by destruct (_ && _)%bool. }
    eapply wp_mono; [exact Hstop|]. intros x m2 [-> ->]. wp_steps.
    wp_call (IH true); [exact Hx|]. intros [[]|e] m2 Hg; [|done]. simpl in Hg |- *.
    by rewrite orb_true_r.
  - assert (wp (if progressed then
                 modify (with_ActiveVersion 0) ;;;
                 modify (with_secretPreparing (r_atomicSecretRecovery r)) ;;;
                 wrap_err (persist ev) (wrap CodeFilesystem
                   ("persist mixed rolling fleet after replica " +:+ key +:+ " failed: " +:+ Error e))
               else undoMigration ev r pre) (λ _ m', quiet (m_world m')) m1) as Hend.
    { destruct progressed; wp_steps.
      - by wp_call persist_Inv; [exact Hx|].
      - wp_call undoMigration_quiet; [exact Hx|]. by intros x m2 [_ HI]. }
    eapply wp_mono; [exact Hend|]. by intros [[]|e'] m2 HI; wp_steps.
Qed.

(** ** Before and after the loop *)

Lemma hot_reap os i : hot (reap os i) → hot i ∧ I_Port (reap os i) = I_Port i.
Proof.
  intros Hh. split; [|apply reap_port]. destruct Hh as [Hr|[t Ha]].
  - left. by rewrite <- (rotation_reap _ _ Hr).
  - right. exists t. by eapply reap_alive.
Qed.

(** The application is routed and can be seen to be. *)
Definition watched : Prop :=
  is_Some (w_route w0) ∧ r_ProxyClient r = true ∧ ∀ t, e_status ev t = true.

Lemma first_fleet s0 os n :
  lawful s0 → agrees s0 → n < 2 ^ 63 →
  let '(surplus, kept) := applyReplicaSet (e_order ev) (reap os <$> D_Replicas s0) n in
  let R := ensureReplicaMap kept n in
  fleet 0 surplus R ∧ (∀ h, h ∈ rot R → h ∈ old_hosts) ∧
  (∀ k i, 0 ≤ k < n → D_Replicas s0 !! Itoa k = Some i → in_rotation i = true →
     InstanceAlive os i = true → serves R) ∧
  (0 < n → replicaIndices R ≠ []).
Proof.
  intros Hl Ha Hn. set (R0 := reap os <$> D_Replicas s0).
  pose proof (replica_set_split (e_order ev) R0 n (law_order _ Hl) Hn) as Hsplit.
  destruct (applyReplicaSet (e_order ev) R0 n) as [surplus kept].
  destruct Hsplit as (Hkeys & _ & Hsur & Hmap).
  { intros k Hk. apply (a_keys _ Ha). unfold R0 in Hk. by rewrite lookup_fmap, fmap_is_Some in Hk. }
  cbv zeta in *. set (R := ensureReplicaMap kept n) in *.
  assert (∀ k i, R0 !! k = Some i → hot i → ∃ i0, D_Replicas s0 !! k = Some i0 ∧ hot i0 ∧
    I_Port i = I_Port i0) as HR0.
  { intros k i Hi Hh. unfold R0 in Hi. rewrite lookup_fmap in Hi.
    apply fmap_Some in Hi as (i0 & Hi0 & ->). apply hot_reap in Hh as [Hh Hp]. eauto. }
  assert (∀ k i, R !! k = Some i → hot i → R0 !! k = Some i) as HR.
  { intros k i Hi Hh. destruct (Hmap k) as [Hk|Hk]; [congruence|]. rewrite Hi in Hk.
    injection Hk as ->. destruct (R0 !! k); [done|]. by destruct Hh as [|[t Ht]]. }
  assert (∀ k i, R0 !! k = Some i → hot i → untaken 0 (hostPort (I_Port i))) as Hunt.
  { intros k i Hi Hh t p port _ He Heq. destruct (HR0 _ _ Hi Hh) as (i0 & Hi0 & Hh0 & Hp).
    eapply (law_fresh _ Hl); [exact He|exact Hi0|exact Hh0|]. by rewrite <- Hp. }
  assert (∀ k1 i1 k2 i2, R0 !! k1 = Some i1 → R0 !! k2 = Some i2 → k1 ≠ k2 → hot i1 → hot i2 →
    hostPort (I_Port i1) ≠ hostPort (I_Port i2)) as Hapart.
  { intros k1 i1 k2 i2 H1 H2 Hne Hh1 Hh2.
    destruct (HR0 _ _ H1 Hh1) as (j1 & Hj1 & Hg1 & ->), (HR0 _ _ H2 Hh2) as (j2 & Hj2 & Hg2 & ->).
    by eapply (a_apart _ Ha). }
  split_and!.
  - split.
    + eauto.
    + intros j (k & Hk & _)%Hsur Hh. eauto.
    + intros k1 i1 k2 i2 H1 H2 Hne Hh1 Hh2. eapply Hapart; eauto.
    + intros k i j Hi (k' & Hk' & _ & Hnone)%Hsur Hhi Hhj. eapply (Hapart k i k' j); eauto.
      intros ->. congruence.
  - intros h (k & i & Hi & Hr & ->)%elem_of_rotation.
    assert (R0 !! k = Some i) as Hi0 by (apply HR; [done|by left]).
    unfold R0 in Hi0. rewrite lookup_fmap in Hi0. apply fmap_Some in Hi0 as (i0 & Hi0 & ->).
    pose proof (rotation_reap _ _ Hr) as E. rewrite E in Hr |- *. by eapply (a_routed _ Ha).
  - intros k i Hk Hi Hr Hal. exists (Itoa k), i. split; [|done].
    destruct (Hmap (Itoa k)) as [Hnone|Hsome].
    + destruct (proj2 (Hkeys (Itoa k))) as [x Hx]; [by exists k|congruence].
    + rewrite Hsome. unfold R0. by rewrite lookup_fmap, Hi, fmap_Some_2 with (x := i), alive_reap.
  - intros Hpos Hnil. destruct (proj2 (Hkeys (Itoa 0))) as [x Hx]; [exists 0; split; [lia|done]|].
    assert (Itoa 0 ∈ replicaIndices R) as Hin; [|rewrite Hnil in Hin; by apply not_elem_of_nil in Hin].
    unfold replicaIndices. rewrite sort_by_Permutation. apply list_elem_of_fmap. exists (Itoa 0, x).
    split; [done|]. by apply elem_of_map_to_list.
Qed.
(** The fleet the loop starts with. *)
Definition ready (surplus : list Instance) (m : machine) : Prop :=
  going surplus false m ∧ replicaIndices (D_Replicas (m_state m)) ≠ [].

Lemma prepare_safe s0 m :
  lawful s0 → agrees s0 → r_Secrets r = None → r_Replicas r < 2 ^ 63 → (mr = true ∨ watched) →
  D_Replicas (m_state m) = D_Replicas s0 → D_Mode (m_state m) = D_Mode s0 →
  Inv mr w0 old_hosts (m_world m) → w_route (m_world m) = w_route w0 →
  wp (prepare ev r) (λ x m', match x with
    | Ok (pre, legacy, surplus) => legacy = [] ∧ ready surplus m'
    | Err _ => False
    end) m.
Proof.
  intros Hl Ha Hsec Hn Hmr HR HM HI Hw. unfold prepare. rewrite Hsec. wp_steps.
  set (s1 := (if r_Network r <>s "" then _ else _)).
  assert (D_Replicas s1 = D_Replicas s0 ∧ D_Mode s1 = ModeRolling) as [HR1 HM1].
  { subst s1. rewrite <- HR, <- (a_mode _ Ha), <- HM. by destruct (r_Network r <>s ""), (r_Runtime r <>s ""). }
  clearbody s1. unfold MigrateTo. wp_steps. rewrite HM1, String.eqb_refl. wp_steps.
  set (os := e_os ev (w_tick (m_world m))).
  change (D_Replicas (ReapStaleInstances os s1)) with (reap os <$> D_Replicas s1). rewrite HR1.
  pose proof (first_fleet s0 os (Z.max 1 (r_Replicas r)) Hl Ha) as Hfirst.
  destruct (applyReplicaSet _ _ _) as [surplus kept]. destruct Hfirst as (Hf & Hrot & Hserve & Hidx); [lia|].
  wp_steps. set (s2 := with_Replicas (ensureReplicaMap _ _) _).
  set (w := w_set_tick _ _).
  assert (wp (proxyEnrolled ev (r_ProxyClient r)) (λ x m', ∃ enrolled, x = Ok enrolled ∧
    m_state m' = s2 ∧ Inv mr w0 old_hosts (m_world m') ∧ w_route (m_world m') = w_route w0 ∧
    (enrolled = true → is_Some (w_route w0)) ∧ (enrolled = false → mr = true))
    (mkMachine w s2 (m_flag m))) as Hen.
  { unfold proxyEnrolled. destruct (r_ProxyClient r) eqn:Ep; cbn [negb]; wp_steps.
    - eexists. split; [done|]. split; [done|]. split; [done|]. split; [done|]. simpl. rewrite Hw. split.
      + intros [_ Hr]%andb_true_iff. by apply bool_decide_eq_true in Hr.
      + intros Hfalse. destruct Hmr as [|(Hr & _ & Hst)]; [done|].
        by rewrite Hst, bool_decide_true in Hfalse.
    - exists false. split_and!; try done. intros _. destruct Hmr as [|(_ & Hpc & _)]; [done|]. congruence. }
  eapply wp_mono; [exact Hen|]. clear Hen.
  intros x m' (enrolled & -> & Hs' & HI' & Hw' & Htrue & Hfalse). wp_steps. split; [done|]. split.
  - exists 0%nat, enrolled, (ensureReplicaMap kept (Z.max 1 (r_Replicas r))), (w_route w0). split.
    + done.
    + split_and!; [|done| |simpl; lia].
      * eapply Inv_weaken; [|exact HI']. done.
      * split; [done|]. simpl. by rewrite Hs'.
    + intros h Hh t p port _ He Heq. apply (law_unrouted _ Hl _ _ _ He). by rewrite Heq.
    + intros Ht. destruct (a_serving _ Ha (Htrue Ht)) as (k & i & Hk & Hi & Hr & Hal). eauto.
    + done.
  - simpl. rewrite Hs'. apply Hidx. lia.
Qed.

Lemma stopRetired_safe surplus m n R rt :
  settled surplus n R rt m →
  wp (stopRetiredInstances ev surplus) (λ _ m', settled surplus n R rt m') m.
Proof.
  intros Hset. apply wp_for_each; [done|]. clear m Hset. intros i m Hin Hset.
  destruct (recorded i); cbn [negb]; wp_steps; [|done].
  wp_call stop_beside; [exact Hset| |].
  - intros Hh (k & j & Hj & Hr & Heq)%elem_of_rotation.
    apply (f_beside _ _ _ (ro_fleet _ _ _ _ _ _ (proj1 Hset)) k j i Hj Hin); [by left|done|by symmetry].
  - intros x m' [Hset' [rep ->]]. wp_steps. by destruct (negb (rep_Exited rep)).
Qed.

Lemma finish_safe surplus m :
  r_Secrets r = None → r_atomicSecretRecovery r = false → going surplus true m →
  wp (finish ev r surplus) (λ _ m', quiet (m_world m')) m.
Proof.
  intros Hsec Hat (n & R & rt & Hset). unfold finish. rewrite Hsec, Hat. wp_steps.
  rewrite bool_decide_false by (by intros []).
  wp_call stopRetired_safe; [exact Hset|]. clear m Hset.
  intros [[]|e] m Hset; [|by eapply round_quiet, Hset]. apply proj1, round_quiet in Hset. wp_steps.
  wp_call persist_Inv; [by eapply Inv_unseen; [..|exact Hset]|]. clear m Hset.
  intros [[]|e] m HI; wp_steps; [|done]. destruct (0 <? e_target ev); wp_steps; [|done].
  unfold wp, promote. by destruct (PromoteVersion _ _ _ _ _ _) as [[[]|e] v].
Qed.

Lemma ready_tick surplus m :
  ready surplus m →
  ready surplus (mkMachine (w_set_tick (S (w_tick (m_world m))) (m_world m)) (m_state m) (m_flag m)).
Proof.
  intros [(n & enrolled & R & rt & Hro) Hk]. split; [|done].
  exists n, enrolled, R, rt. by apply round_tick.
Qed.

Lemma ready_quiet surplus m : ready surplus m → quiet (m_world m).
Proof. intros [(n & enrolled & R & rt & Hro) _]. by eapply round_quiet. Qed.

Lemma build_safe pre surplus m :
  ready surplus m →
  wp (build ev r pre []) (λ x m', match x with
    | Ok _ => ready surplus m'
    | Err _ => quiet (m_world m')
    end) m.
Proof.
  intros Hb%ready_tick. unfold build. wp_steps. destruct (e_build ev _) as [[bin envp]|e]; wp_steps.
  - apply ready_tick in Hb. destruct (e_overlay ev _); wp_steps; [done|]. simpl. wp_steps.
    exact (ready_quiet _ _ Hb).
  - simpl. wp_steps. exact (ready_quiet _ _ Hb).
Qed.

Lemma rolling_run_safe s0 m :
  lawful s0 → agrees s0 → r_Secrets r = None → r_atomicSecretRecovery r = false →
  r_Replicas r < 2 ^ 63 → (mr = true ∨ watched) →
  m_state m = s0 → Inv mr w0 old_hosts (m_world m) → w_route (m_world m) = w_route w0 →
  wp (deploy_run ev r) (λ _ m', quiet (m_world m')) m.
Proof.
  intros Hl Ha Hsec Hat Hn Hmr Hs HI Hw. unfold deploy_run. wp_steps.
  set (m1 := mkMachine _ _ _).
  assert (wp (deploy_body ev r) (λ _ m', quiet (m_world m')) m1) as Hbody.
  { unfold deploy_body. wp_steps.
    wp_call (prepare_safe s0); [done|done|done|done|done|by simpl; rewrite Hs..|done|done|].
    clear m Hs HI Hw m1. intros [[[pre legacy] surplus]|e] m Hb; [|done]. destruct Hb as [-> Hb]. wp_steps.
    wp_call build_safe; [exact Hb|]. clear m Hb. intros [[[bin envp] envs]|e] m Hb; [|done].
    destruct Hb as [Hg Hk]. wp_steps. wp_call roll_safe; [done|done|done|exact Hg|].
    clear Hg. intros [[]|e] m' Hg; [|done]. wp_steps.
    wp_call finish_safe; [done|done| |by intros].
    by destruct (replicaIndices (D_Replicas (m_state m))). }
  eapply wp_mono; [exact Hbody|]. intros [[]|e] m' HI'; wp_steps; [done|]. by rewrite Hsec.
Qed.

Lemma rolling_Deploy_traced s0 :
  LoadOrInit (e_fs ev (w_tick w0)) (r_AppName r) ModeRolling (r_PublicPort r) (w_journal w0) = Ok s0 →
  lawful s0 → agrees s0 → r_Secrets r = None → r_atomicSecretRecovery r = false →
  r_Replicas r < 2 ^ 63 → (mr = true ∨ watched) → Inv mr w0 [] (Deploy ev r w0).2.
Proof.
  intros Hs Hl Ha Hsec Hat Hn Hmr. unfold Deploy.
  assert (Inv mr w0 old_hosts w0) as HI by apply Inv_start.
  destruct (negb (r_Source r)).
  { eapply Inv_weaken; [|done]. by intros ? ?%not_elem_of_nil. }
  cbv zeta. cbn [w_journal w_set_tick]. rewrite Hs. set (m := mkMachine _ _ _).
  assert (wp (deploy_run ev r) (λ _ m', quiet (m_world m')) m) as Hw.
  { by eapply rolling_run_safe. }
  unfold wp in Hw. by destruct (deploy_run ev r m).
Qed.
End Safety.

(** C3: a rolling deployment is zero-downtime on every path.  Take an
    application without secrets whose record is a rolling one and agrees with
    the proxy ([agrees]), fewer than 2^63 replicas, a proxy whose failed calls
    were not carried out and launches on ports of their own ([lawful]).  Then
    whatever call fails, at whatever replica, no instance is stopped while the
    proxy routes to it, and the member set only ever names replicas that took
    traffic before the run or were found healthy during it and have not been
    stopped since; if it is routed when the run begins and the daemon answers
    its status ([watched]), the route is never taken away either.  A migration
    from blue-green, which this leaves out, can route nowhere (examples). *)
Theorem rolling_Deploy_never_cuts_traffic ev r w0 s0 :
  LoadOrInit (e_fs ev (w_tick w0)) (r_AppName r) ModeRolling (r_PublicPort r) (w_journal w0) = Ok s0 →
  lawful ev w0 s0 → agrees ev r w0 s0 → r_Secrets r = None → r_atomicSecretRecovery r = false →
  r_Replicas r < 2 ^ 63 →
  ∃ l, w_log (Deploy ev r w0).2 = w_log w0 ++ l ∧
       trace_ok true (trace_start (w_route w0)) l = true ∧
       (watched ev r w0 → trace_ok false (trace_start (w_route w0)) l = true).
Proof.
  intros Hs Hl Ha Hsec Hat Hn.
  destruct (rolling_Deploy_traced ev r true w0 s0) as (R & (l & Hlog & Hok & _) & _); [done..|by left|].
  exists l. split; [done|]. split; [done|]. intros Hw.
  destruct (rolling_Deploy_traced ev r false w0 s0) as (R' & (l' & Hlog' & Hok' & _) & _); [done..|by right|].
  rewrite Hlog in Hlog'. apply app_inv_head in Hlog' as ->. done.
Qed.

(** ** Runs over two replicas *)

Module RollingSamples.
Import LifecycleSamples.

Definition live (slot : string) (pid port : Z) : Instance :=
  mkInstance [] slot pid port "/bin/web" "" 5 "running" 1 "" 0.

(** Processes 100 and 101 serve on the ports 9000 and 9001. *)
Definition two : DeployState :=
  with_Replicas {[ "0" := live "0" 100 9000; "1" := live "1" 101 9001 ]}
    (empty_state "web" ModeRolling 80 ∅).
Definition member (h k : string) : Target := mkTarget h ("replica-" +:+ k) 0.
Definition both : route := Some (member "127.0.0.1:9000" "0", [member "127.0.0.1:9001" "1"]).
Definition begin (s : DeployState) (rt : route) : world :=
  mkWorld 0 (journal_of s) (mkVStore None ∅ ∅ None) rt [].

Definition rolling (n : Z) : Rolling :=
  mkRolling false "web" "id1" 80 n true true false "" "" None.

Definition run_env (broken : nat → bool) (health : nat → option error) : env :=
  mkEnv (λ n, Z.of_nat n) (λ n, if broken n then fault_at op_write else FileStore.no_faults)
    (λ _ _, None) (λ _, os) id (λ _, true) (λ _, true) (λ _, None)
    (λ _, Ok ("/bin/web", "")) 0 (λ _, Ok []) (λ n, Ok (mkProc 200 7 "", 9100 + Z.of_nat n)) (1, "http")
    health (λ _, false) (λ _, mkReport true false) (λ _, true) (λ _, None) (λ _, true)
    (λ _, None) (λ _, None) (λ _, true) (λ _, None) (λ _, Verified).

(** The journal write after the second swap fails: the old member set comes
    back before the replacement is stopped. *)
Definition late_failure : env := run_env (Nat.eqb 19) (λ _, None).

Lemma two_replicas k i :
  D_Replicas two !! k = Some i → k = "0" ∧ i = live "0" 100 9000 ∨ k = "1" ∧ i = live "1" 101 9001.
Proof.
  simpl. intros [[<- <-]|[Hne Hi]]%lookup_insert_Some; [by left|].
  apply lookup_singleton_Some in Hi as [<- <-]. by right.
Qed.

Lemma late_lawful : lawful late_failure (begin two both) two.
Proof.
  split.
  - done.
  - intros t p port [= <- <-]. lia.
  - intros t1 p1 port1 t2 p2 port2 [= <- <-] [= <- <-] Heq%hostPort_inj. lia.
  - intros t p port [= <- <-]. simpl. rewrite !not_elem_of_cons.
    split_and!; [intros Heq%(hostPort_inj _ 9000)|intros Heq%(hostPort_inj _ 9001)|by intros ?%not_elem_of_nil]; lia.
  - intros t p port k i [= <- <-] [[-> ->]|[-> ->]]%two_replicas _; intros Heq%hostPort_inj; simpl in Heq; lia.
  - done.
Qed.

Lemma two_agrees : agrees late_failure (rolling 2) (begin two both) two.
Proof.
  split.
  - done.
  - intros k [i [[-> _]|[-> _]]%two_replicas]; [exists 0|exists 1]; (split; [lia|done]).
  - intros k i [[-> ->]|[-> ->]]%two_replicas _; simpl; [by left|by right; left].
  - by intros k1 i1 k2 i2 [[-> ->]|[-> ->]]%two_replicas [[-> ->]|[-> ->]]%two_replicas.
  - intros _. exists 0, (live "0" 100 9000). split; [done|]. by split_and!.
Qed.

Lemma rolling_Deploy_never_cuts_traffic_witness :
  let final := Deploy late_failure (rolling 2) (begin two both) in
  is_ok final.1 = false ∧ w_log final.2 =
    [EvLaunch "127.0.0.1:9106"; EvHealthy "127.0.0.1:9106";
     EvRoute (Some (member "127.0.0.1:9106" "0", [member "127.0.0.1:9001" "1"]));
     EvStop "127.0.0.1:9000"; EvLaunch "127.0.0.1:9114"; EvHealthy "127.0.0.1:9114";
     EvRoute (Some (member "127.0.0.1:9106" "0", [member "127.0.0.1:9114" "1"]));
     EvRoute (Some (member "127.0.0.1:9106" "0", [member "127.0.0.1:9001" "1"]));
     EvStop "127.0.0.1:9114"] ∧
  ∃ l, w_log final.2 = [] ++ l ∧ trace_ok true (trace_start both) l = true ∧
       (watched late_failure (rolling 2) (begin two both) → trace_ok false (trace_start both) l = true).
Proof.
  split; [vm_compute; reflexivity|]. split; [vm_compute; reflexivity|].
  apply (rolling_Deploy_never_cuts_traffic late_failure (rolling 2) (begin two both) two).
  - reflexivity.
  - apply late_lawful.
  - apply two_agrees.
  - reflexivity.
  - reflexivity.
  - reflexivity.
Defined.

(** ** Limits of the code *)

Definition stored_keys (w : world) : option (list string) :=
  match w_journal w !! deploy_json with
  | Some (Data s) => Some (map_to_list (D_Replicas s)).*1
  | _ => None
  end.

(** A shrink to one replica whose replacement is unhealthy: the second replica
    still runs and is routed, but the record no longer holds it. *)
Example failed_shrink_forgets_a_routed_replica :
  let w := (Deploy (run_env (λ _, false) (λ _, Some (New CodeHealthCheckFailed "no answer")))
              (rolling 1) (begin two both)).2 in
  w_log w = [EvLaunch "127.0.0.1:9106"; EvStop "127.0.0.1:9106"] ∧ w_route w = both ∧
  stored_keys w = Some ["0"].
Proof. split_and!; vm_compute; reflexivity. Qed.

(** A migration from blue-green whose journal write fails after the first swap:
    the compensation routes the application to no address at all, while the
    blue-green instance still runs. *)
Definition blue : DeployState :=
  with_ActiveSlot SlotBlue (empty_state "web" ModeBlueGreen 80
    {[ SlotBlue := live SlotBlue 100 9000; SlotGreen := stopped_instance SlotGreen ]}).

Example failed_migration_routes_nowhere :
  let w := (Deploy (run_env (Nat.eqb 11) (λ _, None)) (rolling 1)
              (begin blue (Some (mkTarget "127.0.0.1:9000" SlotBlue 0, [])))).2 in
  w_log w = [EvLaunch "127.0.0.1:9107"; EvHealthy "127.0.0.1:9107";
             EvRoute (Some (member "127.0.0.1:9107" "0", []));
             EvRoute (Some (mkTarget "127.0.0.1:0" "none" 0, [])); EvStop "127.0.0.1:9107"].
Proof. vm_compute; reflexivity. Qed.
End RollingSamples.
