(* ===== verification/BlueGreen.v ===== *)
(** * BlueGreen: the zero-downtime blue-green deployment

    internal/deploy/bluegreen.go.  A deployment prepares the journal, starts a
    candidate on the inactive slot, waits for it to be healthy, moves the
    proxy to it, commits the journal and the version store, and only then
    drains the old instance; every step has a compensation.  The phases of
    [Deploy] are one definition each, composed in its order. *)

From S2P Require Import Prelude GoLib FileStore ProxyRouting DeployState Versions Engine Errors.

(** The configuration of a deployment.  [bg_Secrets] is the id of the secret
    transaction, if the deployment has one. *)
(* src: internal/deploy/bluegreen.go BlueGreen *)
Record BlueGreen := mkBlueGreen {
  bg_AppName : string;
  bg_AppID : string;
  bg_PublicPort : Z;
  bg_Source : bool;            (* a [BuildSource] or [Builder] is configured *)
  bg_ProxyClient : bool;       (* a proxy client is configured *)
  bg_PortHandoff : bool;
  bg_Runtime : string;
  bg_Network : string;
  bg_Secrets : option string
}.

Section Deploy.
Variable ev : env.
Variable bg : BlueGreen.

(** [inst.Status = "failed"; inst.PID = 0]. *)
Definition failed_instance (i : Instance) : Instance := inst_Status "failed" (inst_PID 0 i).

(** Step 1: the state is annotated and migrated; the instances of another
    strategy are returned. *)
(* src: internal/deploy/bluegreen.go:145-168 BlueGreen.Deploy *)
Definition prepare : M (modeSnapshot * list Instance) :=
  modify (with_AppID (bg_AppID bg)) ;;;
  modify (with_secretPreparing (bool_decide (is_Some (bg_Secrets bg)))) ;;;
  modify (λ s, if bg_Runtime bg <>s "" then with_Runtime (bg_Runtime bg) s else s) ;;;
  modify (λ s, if bg_Network bg <>s "" then with_Network (bg_Network bg) s else s) ;;;
  do s <- get_state;
  let pre := captureMode s in
  do legacy <- wrap_err (MigrateTo ev ModeBlueGreen)
    (wrap CodeFilesystem "persist strategy migration to blue-green");
  ret (pre, legacy).

(** The loop body for one slot. *)
(* src: internal/deploy/bluegreen.go:586-611 recoverStaleSlots *)
Definition recover_slot (active : string) (slot : string * Instance) : M unit :=
  let '(name, inst) := slot in
  let mark := modify (on_slot name (λ i, inst_Status "stopped" (inst_PID 0 i))) in
  if name =s active then ret tt
  else if negb (recorded inst) then ret tt
  else
    do alive <- alive_now ev inst;
    if ((I_ContainerID inst =s "") && negb alive)%bool then
      if one_of (I_Status inst) ["running"; "starting"] then mark else ret tt
    else
      do report <- stopInstance ev inst;
      if negb (rep_Exited report)
      then throw (New CodeProcessFailed "cannot confirm stale slot stopped")
      else mark.

(* src: internal/deploy/bluegreen.go recoverStaleSlots *)
Definition recoverStaleSlots (active : string) : M unit :=
  do s <- get_state; for_eachM (in_order (e_order ev) (D_Slots s)) (recover_slot active).

(** Kill the candidate, record it as failed, abort. *)
Definition abort_candidate (inactive : string) (port : Z) (f : Instance → Instance) (e : error)
  : M unit :=
  stop_held port ;;; modify (on_slot inactive f) ;;; storeState ev ;;; throw e.

(** Steps 1b to 4: stale slots, the artifact and the candidate process; its
    port and whether the application is enrolled. *)
(* src: internal/deploy/bluegreen.go:188-255 BlueGreen.Deploy *)
Definition start_candidate (active inactive : string) : M (Z * bool * bool) :=
  recoverStaleSlots active ;;;
  modify (λ s, match D_Slots s !! inactive with
               | Some _ => s
               | None => with_Slots (<[inactive := stopped_instance inactive]> (D_Slots s)) s
               end) ;;;
  storeState ev ;;;
  do reachable <- proxy_reachable ev;
  let proxyOK := (bg_ProxyClient bg && reachable)%bool in
  do enrolled <- proxyEnrolled ev (bg_ProxyClient bg);
  do t <- tick;
  do (binaryPath, envPath) <- wrap_err (λ m, (e_build ev t, m))
    (wrap CodeBuildFailed "prepare deploy artifact failed");
  do t <- tick;
  do secretEnvs <- wrap_err (λ m, (e_overlay ev t, m))
    (λ e, wrap (CodeOf (Some e)) "load env snapshot" e);
  do (p, port) <- wrap_err (launch ev) (wrap CodeInstanceStartFailed "start instance failed");
  modify (λ s, with_Slots (<[inactive :=
    mkInstance secretEnvs inactive (p_pid p) port binaryPath (p_container p) (e_now ev t)
      "starting" (e_target ev) envPath (p_ticks p)]> (D_Slots s)) s) ;;;
  storeState ev ;;;
  ret (port, proxyOK, enrolled).

(** Steps 5 and 6: the candidate must become healthy. *)
(* src: internal/deploy/bluegreen.go:257-293 BlueGreen.Deploy *)
Definition await_healthy (inactive : string) (port : Z) : M unit :=
  do t <- tick;
  do r <- attempt (wait_healthy ev t port);
  match r with
  | Err e =>
      let failure := wrap CodeHealthCheckFailed
        "deploy aborted: new instance unhealthy; active instance untouched"
        (wrap CodeHealthCheckFailed "probe target" e) in
      abort_candidate inactive port failed_instance
        (if e_oom ev t
         then wrap CodeResourceOOM "deploy aborted: new instance exceeded its configured memory limit and was killed by the kernel OOM killer; active instance untouched" failure
         else failure)
  | Ok _ =>
      modify (on_slot inactive (inst_Status "running")) ;;;
      modify (with_Health (Some (mkHealthSummary (e_tier ev).1 (e_tier ev).2 (e_now ev t))))
  end.

(* src: internal/deploy/lifecycle.go BlueGreen.handOffPublicPort *)
Definition handOffPublicPort : M unit :=
  if ((bg_PublicPort bg <=? 0) || negb (bg_PortHandoff bg))%bool then ret tt
  else
    do t <- tick;
    if e_port_available ev t then ret tt
    else match e_handoff ev t with
    | Some e => throw (wrap CodeProxy "classic-to-blue-green handoff failed" e)
    | None =>
        if e_released ev t then ret tt
        else throw (New CodePortUnavailable ("public port " +:+ Itoa (bg_PublicPort bg) +:+
               " still bound after stopping the classic instance"))
    end.

(** Step 7: route the application to the candidate.  The result is the slot
    that served before, "" when the application was enrolled just now. *)
(* src: internal/deploy/bluegreen.go:295-383 BlueGreen.Deploy *)
Definition switch_traffic (active inactive : string) (port : Z) (proxyOK enrolled : bool)
  : M string :=
  let primary := mkTarget (hostPort port) inactive 0 in
  let abort f e := abort_candidate inactive port f e ;;; ret "" in
  if ((active =s "") || negb enrolled)%bool then
    if negb (bg_ProxyClient bg) then
      abort failed_instance
        (New CodeProxy "deploy aborted: no proxy client (is 'phelix proxy' running?)")
    else if negb proxyOK then
      abort failed_instance (New CodeConnection
        "deploy aborted: proxy daemon unreachable (is 'phelix proxy' running?)")
    else
      do r <- attempt (if negb enrolled then handOffPublicPort else ret tt);
      match r with
      | Err e => abort failed_instance e
      | Ok _ =>
          do r <- attempt (proxy_Add ev (bg_PublicPort bg) primary []);
          match r with
          | Err e => abort (inst_Status "failed") (wrap CodeProxy "enrol app with proxy failed" e)
          | Ok _ => set_flag true ;;; ret ""
          end
      end
  else if negb (bg_ProxyClient bg) then
    abort failed_instance (New CodeProxy "deploy aborted: no proxy client for switch")
  else
    do r <- attempt (proxy_Switch ev primary []);
    match r with
    | Err e => abort (inst_Status "failed") (wrap CodeProxy
        "deploy aborted: proxy switch failed; active instance untouched" e)
    | Ok _ => set_flag true ;;; ret active
    end.

(** Records restored service before a previously accepted candidate is stopped;
    the update is undone when it cannot be written. *)
(* src: internal/deploy/secrets_txn.go retireFailedCandidate *)
Definition retireFailedCandidate (slot : string) : M unit :=
  do s <- get_state;
  match D_Slots s !! slot with
  | None => ret tt
  | Some previous =>
      let retiring := D_Retiring s in
      modify (with_Retiring (retiring ++ [previous])) ;;;
      modify (on_slot slot (λ i, inst_Status "failed" (inst_ContainerID "" (inst_PID 0 i)))) ;;;
      modify (with_secretPreparing false) ;;;
      do r <- attempt (persist ev);
      match r with
      | Ok _ => ret tt
      | Err e =>
          modify (on_slot slot (λ _, previous)) ;;; modify (with_Retiring retiring) ;;; throw e
      end
  end.

(** What the compensations give back to the state in memory. *)
Record before_commit := mkBefore { bc_slot : string; bc_version : Z; bc_stamp : string }.

(* src: internal/deploy/bluegreen.go:409-411 BlueGreen.Deploy *)
Definition restore_serving (slot : string) (b : before_commit) : M unit :=
  modify (λ s, with_SecretTxnID (bc_stamp b)
                 (with_ActiveVersion (bc_version b) (with_ActiveSlot slot s))).

(** The post-switch write failed: send the traffic back, then retire the
    candidate. *)
(* src: internal/deploy/bluegreen.go:399-437 BlueGreen.Deploy *)
Definition compensate_persist (b : before_commit) (inactive : string) (port : Z) (err : error)
  : M unit :=
  let after := wrap CodeFilesystem "persist blue-green state after proxy switch" err in
  let unavailable := wrap CodeFilesystem
    "persist blue-green state after proxy switch; compensation unavailable" err in
  let undo := set_flag false ;;; restore_serving (bc_slot b) b ;;;
              retireFailedCandidate inactive ;;; stop_held port ;;; throw after in
  do s <- get_state;
  if ((bc_slot b <>s "") && bg_ProxyClient bg)%bool then
    match D_Slots s !! bc_slot b with
    | Some old =>
        if 0 <? I_Port old then
          wrap_err (proxy_Switch ev (mkTarget (hostPort (I_Port old)) (bc_slot b) 0) [])
            (wrap CodeProxy "persist post-switch state failed and proxy compensation failed") ;;;
          undo
        else throw unavailable
    | None => throw unavailable
    end
  else if ((bc_slot b =s "") && bg_ProxyClient bg)%bool then
    do r <- attempt (proxy_Remove ev);
    match r with
    | Ok _ => undo
    | Err _ => throw unavailable
    end
  else throw unavailable.

(** The promotion failed. *)
(* src: internal/deploy/bluegreen.go:441-471 BlueGreen.Deploy *)
Definition compensate_promote (b : before_commit) (inactive : string) (port : Z) (err : error)
  : M unit :=
  modify (λ s, with_ActiveVersion (bc_version b) (with_ActiveSlot (bc_slot b) s)) ;;;
  do s <- get_state;
  do comp <- attempt (
    if ((bc_slot b <>s "") && bg_ProxyClient bg)%bool then
      match D_Slots s !! bc_slot b with
      | Some old =>
          if 0 <? I_Port old
          then proxy_Switch ev (mkTarget (hostPort (I_Port old)) (bc_slot b) 0) []
          else ret tt
      | None => ret tt
      end
    else if ((bc_slot b =s "") && bg_ProxyClient bg)%bool then proxy_Remove ev
    else ret tt);
  match comp with
  | Ok _ =>
      set_flag false ;;;
      modify (with_SecretTxnID (bc_stamp b)) ;;;
      wrap_err (retireFailedCandidate inactive) (λ stateErr, wrap CodeFilesystem
        ("promote target failed; traffic restored but state restoration failed: " +:+
         Error stateErr) err) ;;;
      stop_held port ;;;
      throw err
  | Err compErr =>
      modify (λ s, with_ActiveVersion (e_target ev) (with_ActiveSlot inactive s)) ;;;
      storeState ev ;;;
      throw (wrap CodeProxy
        ("promote target failed and proxy compensation failed: " +:+ Error err) compErr)
  end.

(** The durable commit: the journal, then the version store. *)
(* src: internal/deploy/bluegreen.go:385-473 BlueGreen.Deploy *)
Definition commit (oldActive inactive : string) (port : Z) (legacy : list Instance) : M unit :=
  do s <- get_state;
  let b := mkBefore oldActive (D_ActiveVersion s) (D_SecretTxnID s) in
  modify (λ s, Stamp (bg_Secrets bg) []
                 (with_ActiveVersion (e_target ev) (with_ActiveSlot inactive s))) ;;;
  modify (λ s, match bg_Secrets bg with
               | None => s
               | Some _ => with_Retiring (D_Retiring s ++ legacy ++
                   match D_Slots s !! oldActive with Some i => [i] | None => [] end) s
               end) ;;;
  do r <- attempt (persist ev);
  match r with
  | Err e => compensate_persist b inactive port e
  | Ok _ =>
      if 0 <? e_target ev then
        do r <- attempt (promote ev (bg_AppName bg) (e_target ev) ModeBlueGreen);
        match r with
        | Err e => compensate_promote b inactive port e
        | Ok _ => ret tt
        end
      else ret tt
  end.

(** Steps 8 and 9: the instances nothing routes to any more are drained. *)
(* src: internal/deploy/bluegreen.go:475-510 BlueGreen.Deploy *)
Definition drain (oldActive : string) (legacy : list Instance) : M unit :=
  stopRetiredInstances ev legacy ;;;
  do s <- get_state;
  (if oldActive <>s "" then
     match D_Slots s !! oldActive with
     | Some old =>
         if recorded old then
           do report <- stopInstance ev old;
           if negb (rep_Exited report)
           then throw (New CodeProcessFailed "cannot confirm retired instance has stopped")
           else modify (on_slot oldActive
                  (λ i, inst_ContainerID "" (inst_PID 0 (inst_Status "stopped" i))))
         else ret tt
     | None => ret tt
     end
   else ret tt) ;;;
  wrap_err (persist ev) (wrap CodeFilesystem "persist blue-green drained old-slot state").

(** The body between the migration and the deferred clean-up. *)
(* src: internal/deploy/bluegreen.go:183-515 BlueGreen.Deploy *)
Definition deploy_body (legacy : list Instance) : M unit :=
  do s <- get_state;
  let inactive := InactiveSlot s in
  let active := D_ActiveSlot s in
  do (port, proxyOK, enrolled) <- start_candidate active inactive;
  await_healthy inactive port ;;;
  do oldActive <- switch_traffic active inactive port proxyOK enrolled;
  commit oldActive inactive port legacy ;;;
  drain oldActive legacy.

(** The deferred function: a deployment that failed before the switch gives the
    journal back to the strategy that serves. *)
(* src: internal/deploy/bluegreen.go:169-182 BlueGreen.Deploy *)
Definition undo_migration (pre : modeSnapshot) : M unit :=
  do switched <- get_flag;
  if switched : bool then ret tt
  else if ((m_mode pre <>s "") && (m_mode pre <>s ModeBlueGreen))%bool then
    modify (restoreMode pre) ;;; storeState ev
  else if m_mode pre =s "" then ignore (remove_state ev (bg_AppName bg))
  else ret tt.

Definition deploy_run : M unit :=
  do (pre, legacy) <- prepare;
  do r <- attempt (deploy_body legacy);
  match r with
  | Ok _ => ret tt
  | Err e => undo_migration pre ;;; throw e
  end.

(** [Deploy] on a world: the error it returns and the world it leaves. *)
(* src: internal/deploy/bluegreen.go BlueGreen.Deploy *)
Definition Deploy (w : world) : res unit * world :=
  if negb (bg_Source bg) then
    (Err (New CodeInvalidArgument "deploy: no BuildSource or Builder configured"), w)
  else
    let t := w_tick w in
    let w := w_set_tick (S t) w in
    match LoadOrInit (e_fs ev t) (bg_AppName bg) ModeBlueGreen (bg_PublicPort bg) (w_journal w) with
    | Err e => (Err (wrap CodeConfiguration "failed to load deploy state" e), w)
    | Ok s => let '(r, m) := deploy_run (mkMachine w s false) in (r, m_world m)
    end.
End Deploy.
