(* ===== verification/BlueGreenPhases.v ===== *)
(** * BlueGreenPhases: a blue-green deployment up to the switch

    The steps of [BlueGreen.Deploy] before the commit, verified once for an
    arbitrary invariant of the run.  A client names three predicates on the
    machine: [P], which holds until the candidate is healthy, [Ready port],
    which holds while the switch is attempted, and [Switched port], which
    holds after it; [Phases] lists what it has to prove of them, and the
    lemmas of this file carry them through the code, error paths included. *)

From S2P Require Import Prelude GoLib FileStore ProxyRouting DeployState Versions Engine.
From S2P Require Import Traffic BlueGreen Errors.

Section Phases.
Context (ev : env) (bg : BlueGreen) (w0 : world) (s : DeployState).

(** The addresses that take traffic when the run begins. *)
Definition old_hosts : list string := route_hosts (w_route w0).

Definition launched (port : Z) : Prop := ∃ t p, e_launch ev t = Ok (p, port).

(** The answer of the enrolment check. *)
Definition enrolment (enrolled : bool) : Prop :=
  enrolled = false ∧ bg_ProxyClient bg = false ∨
  bg_ProxyClient bg = true ∧
  ∃ t, enrolled = (e_status ev t && bool_decide (is_Some (w_route w0)))%bool.

(** The route the switch sets. *)
Definition candidate (port : Z) : route :=
  Some (mkTarget (hostPort port) (InactiveSlot s) 0, []).

(** The record of the candidate. *)
Definition holds_candidate (port : Z) (st : DeployState) : Prop :=
  ∃ inst, D_Slots st !! InactiveSlot s = Some inst ∧ I_Port inst = port.

(** What an update of the record before the commit leaves alone. *)
Definition edited (s1 s2 : DeployState) : Prop :=
  D_AppName s2 = D_AppName s1 ∧ D_Mode s2 = D_Mode s1 ∧ D_ActiveSlot s2 = D_ActiveSlot s1 ∧
  D_ActiveVersion s2 = D_ActiveVersion s1 ∧ D_secretPreparing s2 = D_secretPreparing s1 ∧
  D_Slots s2 !! D_ActiveSlot s = D_Slots s1 !! D_ActiveSlot s.

(** No call of the run fails. *)
Record flawless : Prop := {
  fl_fs t o : e_fs ev t o = None;
  fl_vfs t o : e_vfs ev t o = None;
  fl_proxy t : e_proxy ev t = None;
  fl_ping t : e_ping ev t = true;
  fl_status t : e_status ev t = true;
  fl_build t : is_ok (e_build ev t) = true;
  fl_overlay t : is_ok (e_overlay ev t) = true;
  fl_launch t : is_ok (e_launch ev t) = true;
  fl_health t : e_health ev t = None;
  fl_stop t : rep_Exited (e_stop ev t) = true;
  fl_inspect t id : match os_inspect (e_os ev t) id with
                    | InspectError not_running => not_running = true
                    | InspectOutput out => out = "true|true" ∨ out = "false|true" ∨ out = "false|"
                    end;
  fl_port t : e_port_available ev t = true;
  fl_client : bg_ProxyClient bg = true;
  fl_public : 0 < bg_PublicPort bg
}.

(** Time passes, and nothing else is visible outside of memory. *)
Definition passes (w w' : world) : Prop :=
  w_route w' = w_route w ∧ w_log w' = w_log w ∧ w_journal w' = w_journal w ∧
  w_versions w' = w_versions w ∧ (w_tick w ≤ w_tick w')%nat.

Lemma passes_tick w t : (w_tick w ≤ t)%nat → passes w (w_set_tick t w).
Proof. done. Qed.

Lemma passes_refl w : passes w w.
Proof. by split_and!. Qed.

(** An invariant that survives the steps before the commit. *)
Class Steady (P : machine → Prop) : Prop := {
  steady_step m w' s' f :
    P m → passes (m_world m) w' → edited (m_state m) s' → P (mkMachine w' s' f);
  steady_route m : P m → w_route (m_world m) = w_route w0;
  steady_persist m : P m → wp (persist ev) (λ _ m', P m') m;
  steady_stop inst m :
    hostPort (I_Port inst) ∉ old_hosts → P m →
    wp (stopInstance ev inst) (λ _ m', P m') m;
  steady_stop_held port m :
    hostPort port ∉ old_hosts → P m → wp (stop_held port) (λ x m', P m' ∧ x = Ok tt) m;
  steady_launch h w st f :
    P (mkMachine w st f) → P (mkMachine (w_event (EvLaunch h) w) st f)
}.

(** What a client proves of its three predicates. *)
Class Phases (P : machine → Prop) (Ready Switched : Z → machine → Prop) : Prop := {
  ph_steady :: Steady P;
  ph_healthy port w st f :
    launched port → holds_candidate port st →
    P (mkMachine w st f) → Ready port (mkMachine (w_event (EvHealthy (hostPort port)) w) st f);
  ph_ready_step port m w' : Ready port m → passes (m_world m) w' →
    Ready port (mkMachine w' (m_state m) (m_flag m));
  ph_give_up port m : Ready port m → P m;
  ph_switch port effect m :
    launched port →
    (effect (w_route w0) = Ok (candidate port) ∨
     (∃ e, effect (w_route w0) = Err e) ∧ ¬ flawless) →
    Ready port m →
    wp (proxy_call ev effect)
      (λ x m', match x with Ok _ => Switched port m' | Err _ => Ready port m' ∧ ¬ flawless end) m;
  ph_switched_flag port w st f f' : Switched port (mkMachine w st f) → Switched port (mkMachine w st f')
}.

Context {P : machine → Prop} {Ready Switched : Z → machine → Prop} `{!Phases P Ready Switched}.

Lemma InactiveSlot_ne st : InactiveSlot st ≠ D_ActiveSlot st.
Proof.
  unfold InactiveSlot. destruct (D_ActiveSlot st =s SlotBlue) eqn:E; bool_prop; [by rewrite E|done].
Qed.

Lemma in_order_lookup order (l : gmap string Instance) name inst :
  (name, inst) ∈ in_order order l → l !! name = Some inst.
Proof.
  unfold in_order. rewrite list_elem_of_omap. intros (k & _ & Hk).
  destruct (l !! k) as [i|] eqn:Hl; [|done]. by injection Hk as <- <-.
Qed.

Lemma retired_recorded order l inst :
  inst ∈ (in_order order l).*2 → ∃ k, l !! k = Some inst.
Proof.
  intros ([k i] & -> & Hk)%list_elem_of_fmap. exists k. by eapply in_order_lookup.
Qed.

(** A step of the run that [P] survives. *)
Ltac steady Hb :=
  eapply steady_step; [exact Hb| |];
  [ by split_and!; try reflexivity; simpl; lia
  | unfold edited; simpl; rewrite ?lookup_alter_ne, ?lookup_insert_ne by done; try done ].

Lemma steady_storeState m :
  P m → wp (storeState ev) (λ x m', P m' ∧ x = Ok tt ∧ touched (m_state m) (m_state m')) m.
Proof.
  intros Hb. unfold storeState. wp_steps. pose proof (steady_persist m Hb) as H1.
  pose proof (wp_persist ev m) as [_ H2]. by split_and!.
Qed.

(** A stop always reports, and in a flawless run it confirms. *)
Lemma stop_reports inst m :
  wp (stopInstance ev inst)
    (λ x m', m_state m' = m_state m ∧ ∃ rep, x = Ok rep ∧ (flawless → rep_Exited rep = true)) m.
Proof.
  unfold wp, stopInstance, bindM, tick. simpl. destruct (I_ContainerID inst <>s "").
  - unfold stopByContainerID. destruct (os_inspect _ _) as [nr|out] eqn:Eo.
    + simpl. split; [done|]. eexists. split; [done|]. intros Hf.
      pose proof (fl_inspect Hf (w_tick (m_world m)) (I_ContainerID inst)) as Hi. by rewrite Eo in Hi.
    + destruct (cut_bar (TrimSpace out)) as [[running managed] ok] eqn:Ecut.
      destruct (negb ok || ((running <>s "true") && (running <>s "false")))%bool eqn:E1; simpl.
      * split; [done|]. eexists. split; [done|]. intros Hf.
        pose proof (fl_inspect Hf (w_tick (m_world m)) (I_ContainerID inst)) as Hi. rewrite Eo in Hi.
        destruct Hi as [->|[->| ->]]; vm_compute in Ecut; injection Ecut as <- <- <-; done.
      * destruct ((running =s "false") || (managed <>s "true"))%bool; simpl;
          (split; [done|]); eexists; (split; [done|]); intros Hf; [done|apply (fl_stop Hf)].
  - destruct (InstanceAlive _ _); simpl; [|by eauto].
    unfold stopByPID. destruct (findVerifiedProcess _ _ _); simpl; (split; [done|]);
      eexists; (split; [done|]); intros Hf; [apply (fl_stop Hf)|done].
Qed.

Lemma steady_stop_reports inst m :
  hostPort (I_Port inst) ∉ old_hosts → P m →
  wp (stopInstance ev inst)
    (λ x m', P m' ∧ ∃ rep, x = Ok rep ∧ (flawless → rep_Exited rep = true)) m.
Proof.
  intros Hn Hb. pose proof (steady_stop inst m Hn Hb). by destruct (stop_reports inst m) as [_ ?].
Qed.

Lemma recoverStaleSlots_steady m :
  (∀ name inst, name ≠ D_ActiveSlot s → D_Slots s !! name = Some inst → recorded inst = true →
     hostPort (I_Port inst) ∉ old_hosts) →
  m_state m = s → P m →
  wp (recoverStaleSlots ev (D_ActiveSlot s)) (λ x m', P m' ∧ (flawless → x = Ok tt)) m.
Proof.
  intros Hc Hs Hb. unfold recoverStaleSlots. wp_steps.
  rewrite Hs. apply wp_for_each_ok; [done|]. clear m Hb Hs.
  intros [name inst] m Hin Hb. apply in_order_lookup in Hin.
  unfold recover_slot. destruct (name =s D_ActiveSlot s) eqn:En; wp_steps; [done|]. bool_prop.
  destruct (recorded inst) eqn:Er; cbn [negb]; wp_steps; [|done].
  assert (hostPort (I_Port inst) ∉ old_hosts) as Hn by by eapply Hc.
  unfold alive_now. wp_steps.
  destruct ((I_ContainerID inst =s "") && _)%bool.
  - destruct (one_of (I_Status inst) _); wp_steps; (split; [by steady Hb|done]).
  - wp_steps. wp_call steady_stop_reports; [done|by steady Hb|].
    clear Hb. intros r m' (Hb & rep & -> & Hex).
    destruct (rep_Exited rep); cbn [negb]; wp_steps; split; try done; [by steady Hb|].
    intros Hf. by specialize (Hex Hf).
Qed.

Lemma proxyEnrolled_steady m :
  P m → wp (proxyEnrolled ev (bg_ProxyClient bg)) (λ x m', P m' ∧ ∃ b, x = Ok b ∧ enrolment b) m.
Proof.
  intros Hb. unfold proxyEnrolled, enrolment.
  destruct (bg_ProxyClient bg); cbn [negb]; wp_steps; [|by eauto 9].
  split; [by steady Hb|]. simpl. rewrite (steady_route m Hb). by eauto 9.
Qed.

Lemma start_candidate_steady m :
  wp (recoverStaleSlots ev (D_ActiveSlot s)) (λ x m', P m' ∧ (flawless → x = Ok tt)) m →
  wp (start_candidate ev bg (D_ActiveSlot s) (InactiveSlot s)) (λ x m',
    P m' ∧ match x with
           | Ok (port, proxyOK, enrolled) =>
               launched port ∧ enrolment enrolled ∧ holds_candidate port (m_state m') ∧
               (flawless → proxyOK = true)
           | Err _ => ¬ flawless
           end) m.
Proof.
  intros Hrec. pose proof (InactiveSlot_ne s) as Hne. unfold start_candidate. wp_steps.
  wp_call Hrec. clear m Hrec. intros [[]|e] m [Hb Hok]; [|split; [done|]; intros Hf; by specialize (Hok Hf)].
  clear Hok. wp_steps. wp_call steady_storeState.
  { steady Hb. destruct (D_Slots (m_state m) !! InactiveSlot s); [done|]. simpl.
    by rewrite lookup_insert_ne. }
  clear Hb. intros ? m1 (Hb & -> & _). clear m. rename m1 into m. unfold proxy_reachable. wp_steps.
  wp_call proxyEnrolled_steady; [by steady Hb|]. 
  assert (flawless → e_ping ev (w_tick (m_world m)) = true) as Hping by (intros Hf; apply (fl_ping Hf)).
  revert Hping. generalize (e_ping ev (w_tick (m_world m))). intros ping Hping.
  clear m Hb. intros ? m (Hb & b & -> & Hen). wp_steps.
  unfold wp at 1. simpl. destruct (e_build ev _) as [[bin envp]|] eqn:Eb.
  2:{ wp_steps. split; [by steady Hb|]. intros Hf. pose proof (fl_build Hf (w_tick (m_world m))) as H.
      by rewrite Eb in H. }
  wp_steps. unfold wp at 1. simpl.
  destruct (e_overlay ev _) as [envs|] eqn:Eo.
  2:{ wp_steps. split; [by steady Hb|]. intros Hf. pose proof (fl_overlay Hf (S (w_tick (m_world m)))) as H.
      by rewrite Eo in H. }
  wp_steps. unfold launch. wp_steps. simpl.
  destruct (e_launch ev _) as [[p port]|] eqn:El; wp_steps.
  2:{ split; [by steady Hb|]. intros Hf. pose proof (fl_launch Hf (S (S (w_tick (m_world m))))) as H.
      by rewrite El in H. }
  assert (launched port) as Hl by by repeat eexists.
  wp_call steady_storeState.
  { apply steady_launch. steady Hb. }
  intros ? m' (Hb' & -> & c & u & Ht). wp_steps.
  split; [done|]. split; [done|]. split; [done|]. split.
  - rewrite Ht. eexists. split; [by apply lookup_insert_eq|done].
  - intros Hf. by rewrite (fl_client Hf), (Hping Hf).
Qed.

Lemma abort_candidate_steady port f e m :
  P m → hostPort port ∉ old_hosts →
  wp (abort_candidate ev (InactiveSlot s) port f e) (λ x m', P m' ∧ ∃ e', x = Err e') m.
Proof.
  intros Hb Hp. pose proof (InactiveSlot_ne s). unfold abort_candidate. wp_steps.
  wp_call steady_stop_held; [done..|]. clear m Hb. intros ? m [Hb ->]. wp_steps.
  wp_call steady_storeState; [by steady Hb|]. intros ? m' (? & -> & _). wp_steps. eauto.
Qed.

Lemma holds_candidate_on_slot port f st :
  (∀ i, I_Port (f i) = I_Port i) → holds_candidate port st →
  holds_candidate port (on_slot (InactiveSlot s) f st).
Proof.
  intros Hf (inst & Hi & Hp). exists (f inst). simpl. rewrite lookup_alter_eq, Hi. by rewrite Hf.
Qed.

Lemma await_healthy_ready port m :
  launched port → hostPort port ∉ old_hosts → holds_candidate port (m_state m) → P m →
  wp (await_healthy ev (InactiveSlot s) port) (λ x m',
    match x with Ok _ => Ready port m' | Err _ => P m' ∧ ¬ flawless end) m.
Proof.
  intros Hl Hn Hh Hb. pose proof (InactiveSlot_ne s). unfold await_healthy. wp_steps. unfold wait_healthy.
  destruct (e_health ev _) eqn:Eh; wp_steps.
  - wp_call abort_candidate_steady; [by steady Hb|done|]. intros ? m' [? [e' ->]].
    split; [done|]. intros Hf. by rewrite (fl_health Hf) in Eh.
  - apply ph_healthy; [done| |by steady Hb].
    by apply (holds_candidate_on_slot port (inst_Status "running")).
Qed.

Lemma handOffPublicPort_ready port m :
  Ready port m →
  wp (handOffPublicPort ev bg) (λ x m', Ready port m' ∧ (flawless → x = Ok tt)) m.
Proof.
  intros Hb. assert (Ready port (mkMachine (w_set_tick (S (w_tick (m_world m))) (m_world m))
    (m_state m) (m_flag m))) as Ht by (apply ph_ready_step; [done|apply passes_tick; lia]).
  unfold handOffPublicPort. destruct (_ || _)%bool; wp_steps; [done|].
  destruct (e_port_available ev _) eqn:Ep; wp_steps; [done|].
  assert (¬ flawless) by (intros Hf; by rewrite (fl_port Hf) in Ep).
  destruct (e_handoff ev _); wp_steps; [done|].
  by destruct (e_released ev _); wp_steps.
Qed.

(** The slot that served before, as the switch reports it. *)
Definition reported (enrolled : bool) (oldActive : string) : Prop :=
  if decide (D_ActiveSlot s = "" ∨ enrolled = false) then oldActive = ""
  else oldActive = D_ActiveSlot s.

Lemma switch_traffic_switched port proxyOK enrolled m :
  launched port → hostPort port ∉ old_hosts → enrolment enrolled → (flawless → proxyOK = true) →
  Ready port m →
  wp (switch_traffic ev bg (D_ActiveSlot s) (InactiveSlot s) port proxyOK enrolled) (λ x m',
    match x with
    | Ok oldActive => Switched port m' ∧ bg_ProxyClient bg = true ∧ reported enrolled oldActive
    | Err _ => P m' ∧ ¬ flawless
    end) m.
Proof.
  intros Hp Hn Hen Hok Hb. pose proof (InactiveSlot_ne s). unfold switch_traffic, reported.
  assert (∀ f e (Q : res string → machine → Prop) m, ¬ flawless → Ready port m →
    (∀ x m', P m' ∧ ¬ flawless → (∃ e, x = Err e) → Q x m') →
    wp (abort_candidate ev (InactiveSlot s) port f e ;;; ret "") Q m) as Habort.
  { intros f e Q m' Hnf Hb' HQ. wp_steps. wp_call abort_candidate_steady; [by eapply ph_give_up|done|].
    intros ? m'' [? [e' ->]]. apply HQ; eauto. }
  assert (bg_ProxyClient bg = false → ¬ flawless) as Hnc by (intros Hc Hf; by rewrite (fl_client Hf) in Hc).
  assert (proxyOK = false → ¬ flawless) as Hno by (intros Hc Hf; by rewrite (Hok Hf) in Hc).
  destruct ((D_ActiveSlot s =s "") || negb enrolled)%bool eqn:E.
  - rewrite orb_true_iff, negb_true_iff, String.eqb_eq in E.
    destruct (bg_ProxyClient bg); cbn [negb]; [|apply Habort; [by apply Hnc|done|by intros ? ? ? [? ->]]].
    destruct proxyOK; cbn [negb]; [|apply Habort; [by apply Hno|done|by intros ? ? ? [? ->]]].
    wp_steps. eapply (wp_mono _ (λ x m', Ready port m' ∧ (flawless → x = Ok tt))).
    { destruct (negb enrolled); [by apply handOffPublicPort_ready|done]. }
    clear m Hb. intros [[]|e] m [Hb Hx].
    2:{ apply Habort; [intros Hf; by specialize (Hx Hf)|done|by intros ? ? ? [? ->]]. }
    wp_steps. unfold proxy_Add. wp_call (ph_switch port); [done| |done|].
    { destruct (bg_PublicPort bg <=? 0) eqn:Epub; [|by left].
      right. split; [by eexists|]. intros Hf. pose proof (fl_public Hf). bool_prop. lia. }
    clear m Hb Hx. intros [[]|e] m Hb; [|destruct Hb; apply Habort; [done|done|by intros ? ? ? [? ->]]].
    wp_steps. rewrite decide_True by done. destruct m.
    by split; [eapply ph_switched_flag|].
  - rewrite orb_false_iff, negb_false_iff, String.eqb_neq in E. destruct E as [Ea ->].
    destruct (bg_ProxyClient bg); cbn [negb]; [|apply Habort; [by apply Hnc|done|by intros ? ? ? [? ->]]].
    wp_steps. unfold proxy_Switch. wp_call (ph_switch port); [done| |done|].
    { destruct Hen as [[? _]|[_ [t Ht]]]; [done|]. symmetry in Ht. apply andb_true_iff in Ht as [_ Ht].
      apply bool_decide_eq_true in Ht as [r ->]. by left. }
    clear m Hb. intros [[]|e] m Hb; [|destruct Hb; apply Habort; [done|done|by intros ? ? ? [? ->]]].
    wp_steps. rewrite decide_False by naive_solver. destruct m.
    by split; [eapply ph_switched_flag|].
Qed.
End Phases.

(** Retiring a candidate does not touch traffic: [St] only has to survive the
    edits of its record. *)
Lemma retireFailedCandidate_traffic ev mr w0 St `{!Persistent St} slot n K r m :
  (∀ f s g, St f s → St f (on_slot slot g s)) →
  (∀ f s l, St f s → St f (with_Retiring l s)) →
  (∀ f s, St f s → St f (with_secretPreparing false s)) →
  traffic mr w0 St n K r m →
  wp (retireFailedCandidate ev slot) (λ _ m', traffic mr w0 St n K r m') m.
Proof.
  intros H1 H2 H3 Hb.
  assert (∀ w s s' f, St f s' → traffic mr w0 St n K r (mkMachine w s f) →
    traffic mr w0 St n K r (mkMachine w s' f)) as Hedit
    by (intros w s s' f Hs (HI & Hr & _ & Hn); by split_and!).
  unfold retireFailedCandidate. wp_steps.
  destruct (D_Slots (m_state m) !! slot); [|done]. wp_steps.
  wp_call (persist_traffic ev mr w0 St).
  { destruct m as [w s f]. eapply Hedit; [|exact Hb]. apply H3, H1, H2, Hb. }
  clear Hb. intros [[]|e] m' Hb; wp_steps; [done|].
  destruct m' as [w s f]. eapply Hedit; [|exact Hb]. apply H2, H1, Hb.
Qed.
