(* ===== verification/BlueGreenSafety.v ===== *)
(** * BlueGreenSafety: a blue-green deployment never interrupts service

    The traces of [BlueGreen.Deploy]: whatever fails, no instance is stopped
    while the proxy routes to it, the proxy is only ever pointed at instances
    that served before or were found healthy, and an application that is
    served is not taken off the proxy. *)

From S2P Require Import Prelude GoLib FileStore ProxyRouting DeployState Versions Engine Traffic.
From S2P Require Import BlueGreen BlueGreenPhases Errors.

Section Safety.
Context (ev : env) (bg : BlueGreen) (mr : bool) (w0 : world).

#[local] Abbreviation old_hosts := (old_hosts w0).

(** What is known of the environment of a run that starts in [w0] with the
    record [s0]: a proxy call that fails was not carried out; the port of a
    launched process is neither routed nor held by a live recorded instance. *)
Record lawful (s0 : DeployState) : Prop := {
  law_proxy t e applied : e_proxy ev t = Some (e, applied) → applied = false;
  law_unrouted t p port : e_launch ev t = Ok (p, port) → hostPort port ∉ old_hosts;
  law_fresh t p port t' inst :
    e_launch ev t = Ok (p, port) →
    (∃ k, D_Slots s0 !! k = Some inst ∨ D_Replicas s0 !! k = Some inst) →
    InstanceAlive (e_os ev t') inst = true → hostPort (I_Port inst) ≠ hostPort port
}.

(** The record agrees with the proxy on who serves: no other slot holds a
    routed address, and a routed application has an active slot that is. *)
Record consistent (s : DeployState) : Prop := {
  c_others name inst :
    name ≠ D_ActiveSlot s → D_Slots s !! name = Some inst → recorded inst = true →
    hostPort (I_Port inst) ∉ old_hosts;
  c_active : is_Some (w_route w0) → D_ActiveSlot s ≠ "" →
    ∃ old, D_Slots s !! D_ActiveSlot s = Some old ∧ 0 < I_Port old ∧
           hostPort (I_Port old) ∈ old_hosts
}.

(** The record of the active slot is untouched. *)
Definition kept (s s' : DeployState) : Prop :=
  D_Slots s' !! D_ActiveSlot s = D_Slots s !! D_ActiveSlot s.

#[local] Instance kept_persistent s : Persistent (λ _, kept s).
Proof. by intros f s1 s2 (c & u & ->). Qed.

#[local] Abbreviation phase s := (traffic mr w0 (λ _, kept s) 0).

Lemma phase_step s K r m w' s' f :
  w_route w' = w_route (m_world m) → w_log w' = w_log (m_world m) →
  D_Slots s' !! D_ActiveSlot s = D_Slots (m_state m) !! D_ActiveSlot s →
  phase s K r m → phase s K r (mkMachine w' s' f).
Proof.
  intros Hr Hl Hs (HI & Hr0 & Hk & _). split_and!; [by eapply Inv_unseen|simpl; congruence| |simpl; lia].
  unfold kept. by rewrite <- Hk.
Qed.

(** A step that touches neither traffic nor the record of the active slot. *)
Ltac phase_by Hb :=
  eapply phase_step; [..|exact Hb]; [done|done|];
  simpl; rewrite ?lookup_alter_ne, ?lookup_insert_ne by done; try done.

(** ** The phases before the commit *)

#[local] Abbreviation launched := (launched ev).
#[local] Abbreviation candidate := BlueGreenPhases.candidate.

#[local] Instance phase_steady s : Steady ev w0 s (phase s old_hosts (w_route w0)).
Proof.
  split.
  - intros m w' s' f Hb (Hr & Hl & _) Hs. by eapply phase_step; [..|exact Hb]; [..|apply Hs].
  - by intros m (_ & Hr & _).
  - intros m Hm. by apply persist_traffic; [apply _|].
  - intros inst m Hn Hm. wp_call (stop_traffic ev mr w0 (λ _, kept s)); [done|exact Hm|]. by intros ? ? [? _].
  - intros port m Hn Hm. wp_call (stop_held_traffic mr w0 (λ _, kept s)); [done|done|exact Hm|]. by intros ? ? [-> ?].
  - intros. by apply traffic_launch.
Qed.

#[local] Instance phase_phases s0 s : lawful s0 →
  Phases ev bg w0 s (phase s old_hosts (w_route w0))
    (λ port, phase s (hostPort port :: old_hosts) (w_route w0))
    (λ port, phase s (hostPort port :: old_hosts) (candidate s port)).
Proof.
  intros Hl. split.
  - apply _.
  - intros. by apply traffic_healthy.
  - intros port m w' Hb (Hr & Hlog & _). by eapply phase_step; [..|exact Hb].
  - intros port m. apply traffic_weaken. by right.
  - intros port effect m Hp He Hb. wp_call (proxy_traffic ev mr w0 (λ _, kept s)); [by eapply law_proxy| |done|].
    + intros rt Hrt. destruct He as [He|[[e He] _]]; rewrite He in Hrt; [|done]. injection Hrt as <-.
      split; [done|]. intros h ->%list_elem_of_singleton. by left.
    + intros [[]|e] m'.
      * intros (rt & Hrt & Hb').
        destruct He as [He|[[e He] _]]; rewrite He in Hrt; [|done]. by injection Hrt as <-.
      * intros [Hb' Hwhy]. split; [done|]. intros Hf.
        destruct He as [He|[_ He]]; [|by apply He].
        destruct Hwhy as [[e' He']|[t Ht]]; [congruence|]. by rewrite (fl_proxy _ _ Hf) in Ht.
  - done.
Qed.

(** ** The commit and its compensations *)

(** What the compensations rely on: the old slot's record is of a routed
    instance; where there is none, the application may be taken off. *)
Definition can_restore (s : DeployState) (oldActive : string) : Prop :=
  (oldActive = "" ∧ mr = true) ∨
  (oldActive = D_ActiveSlot s ∧ D_ActiveSlot s ≠ "" ∧ ∃ old, D_Slots s !! D_ActiveSlot s = Some old ∧
     0 < I_Port old ∧ hostPort (I_Port old) ∈ old_hosts).

Lemma retireFailedCandidate_phase s K r m :
  phase s K r m → wp (retireFailedCandidate ev (InactiveSlot s)) (λ _ m', phase s K r m') m.
Proof.
  pose proof (InactiveSlot_ne s). apply retireFailedCandidate_traffic; [apply _| |done..].
  intros f s' g Hk. unfold kept. simpl. by rewrite lookup_alter_ne.
Qed.

(** The message that sends the traffic back. *)
Lemma send_back_phase s port old m :
  (∀ t e applied, e_proxy ev t = Some (e, applied) → applied = false) →
  hostPort (I_Port old) ∈ old_hosts →
  phase s (hostPort port :: old_hosts) (candidate s port) m →
  wp (proxy_Switch ev (mkTarget (hostPort (I_Port old)) (D_ActiveSlot s) 0) []) (λ x m',
    match x with
    | Ok _ => phase s old_hosts (Some (mkTarget (hostPort (I_Port old)) (D_ActiveSlot s) 0, [])) m'
    | Err _ => Inv mr w0 [] (m_world m')
    end) m.
Proof.
  intros Hl Ho Hb. unfold proxy_Switch. wp_call (proxy_traffic ev mr w0 (λ _, kept s)); [done| |done|].
  { intros rt [= <-]. split; [done|]. intros h ->%list_elem_of_singleton. by right. }
  clear m Hb. intros [[]|e] m.
  - intros (rt & [= <-] & Hb). eapply traffic_weaken; [|done]. by right.
  - intros [Hb _]. by eapply traffic_end.
Qed.

Lemma take_off_phase s K r m :
  (∀ t e applied, e_proxy ev t = Some (e, applied) → applied = false) →
  mr = true → phase s K r m →
  wp (proxy_Remove ev) (λ x m', match x with
                                | Ok _ => phase s [] None m'
                                | Err _ => Inv mr w0 [] (m_world m')
                                end) m.
Proof.
  intros Hl Hmr Hb. unfold proxy_Remove. wp_call (proxy_traffic ev mr w0 (λ _, kept s)); [done| |done|].
  { intros rt [= <-]. split; [done|]. by intros h ?%not_elem_of_nil. }
  clear m Hb. intros [[]|e] m.
  - intros (rt & [= <-] & Hb). eapply traffic_weaken; [|done]. by intros ? ?%not_elem_of_nil.
  - intros [Hb _]. by eapply traffic_end.
Qed.

(** The end of a compensation: the candidate is stopped, once nothing routes
    to it. *)
Lemma stop_and_throw s K r port e (x : res unit) m :
  phase s K r m → hostPort port ∉ route_hosts r → hostPort port ∉ K →
  match x with
  | Ok _ => wp (stop_held port ;;; throw e)
              (λ x m', (∃ e', x = Err (A := unit) e') ∧ Inv mr w0 [] (m_world m')) m
  | Err e => (∃ e', Err (A := unit) e = Err e') ∧ Inv mr w0 [] (m_world m)
  end.
Proof.
  intros Hb Hr HK.
  destruct x as [[]|e']; [|by eauto using traffic_end]. wp_steps. wp_call (stop_held_traffic mr w0 (λ _, kept s)); [done..|].
  clear m Hb. intros ? m [-> Hb]. wp_steps. eauto using traffic_end.
Qed.

Lemma compensate_persist_safe s0 s slot ver stamp port err m :
  lawful s0 → launched port → bg_ProxyClient bg = true → can_restore s slot →
  phase s (hostPort port :: old_hosts) (candidate s port) m →
  wp (compensate_persist ev bg (mkBefore slot ver stamp) (InactiveSlot s) port err)
    (λ x m', (∃ e, x = Err e) ∧ Inv mr w0 [] (m_world m')) m.
Proof.
  intros Hl (t & p & Hp) Hc Hcan Hb. pose proof (law_unrouted _ Hl _ _ _ Hp) as Hn.
  unfold compensate_persist. cbn [bc_slot bc_version bc_stamp]. wp_steps. rewrite Hc, !andb_true_r.
  destruct Hcan as [[-> Hmr]|(-> & Hne & old & Ho & Hport & Hin)].
  - change ("" <>s "") with false. change ("" =s "") with true. cbv iota. wp_steps.
    wp_call take_off_phase; [by eapply law_proxy|done..|].
    clear m Hb. intros [[]|e] m Hb; wp_steps; [|by eauto]. unfold restore_serving. wp_steps.
    wp_call retireFailedCandidate_phase; [by phase_by Hb|].
    clear m Hb. intros x m Hb. eapply stop_and_throw; [done|by apply not_elem_of_nil..].
  - rewrite (proj2 (String.eqb_neq _ _) Hne). cbn [negb].
    assert (D_Slots (m_state m) !! D_ActiveSlot s = Some old) as -> by (rewrite <- Ho; apply Hb).
    rewrite (proj2 (Z.ltb_lt _ _) Hport). wp_steps.
    wp_call send_back_phase; [by eapply law_proxy|done|done|].
    clear m Hb. intros [[]|e] m Hb; wp_steps; [|by eauto]. unfold restore_serving. wp_steps.
    wp_call retireFailedCandidate_phase; [by phase_by Hb|].
    clear m Hb. intros x m Hb. eapply stop_and_throw; [done| |done].
    intros Hh%list_elem_of_singleton. by rewrite Hh in Hn.
Qed.

Lemma compensate_promote_safe s0 s slot ver stamp port err m :
  lawful s0 → launched port → bg_ProxyClient bg = true → can_restore s slot →
  phase s (hostPort port :: old_hosts) (candidate s port) m →
  wp (compensate_promote ev bg (mkBefore slot ver stamp) (InactiveSlot s) port err)
    (λ x m', (∃ e, x = Err e) ∧ Inv mr w0 [] (m_world m')) m.
Proof.
  intros Hl (t & p & Hp) Hc Hcan Hb. pose proof (law_unrouted _ Hl _ _ _ Hp) as Hn.
  unfold compensate_promote. cbn [bc_slot bc_version bc_stamp]. wp_steps.
  rewrite Hc, !andb_true_r.
  destruct Hcan as [[-> Hmr]|(-> & Hne & old & Ho & Hport & Hin)].
  - change ("" <>s "") with false. change ("" =s "") with true. cbv iota.
    wp_call take_off_phase; [by eapply law_proxy|done|by phase_by Hb|].
    clear m Hb. intros [[]|e] m Hb; wp_steps; [|wp_call storeState_Inv; [done|]; intros ? ? [-> ?]; wp_steps; by eauto].
    wp_call retireFailedCandidate_phase; [by phase_by Hb|].
    clear m Hb. intros [[]|e] m Hb; [|by eauto using traffic_end].
    eapply (stop_and_throw _ _ _ _ _ (Ok tt)); [done|by apply not_elem_of_nil..].
  - rewrite (proj2 (String.eqb_neq _ _) Hne). cbn [negb].
    cbn [D_Slots with_ActiveSlot with_ActiveVersion].
    assert (D_Slots (m_state m) !! D_ActiveSlot s = Some old) as -> by (rewrite <- Ho; apply Hb).
    rewrite (proj2 (Z.ltb_lt _ _) Hport).
    wp_call send_back_phase; [by eapply law_proxy|done|by phase_by Hb|].
    clear m Hb. intros [[]|e] m Hb; wp_steps; [|wp_call storeState_Inv; [done|]; intros ? ? [-> ?]; wp_steps; by eauto].
    wp_call retireFailedCandidate_phase; [by phase_by Hb|].
    clear m Hb. intros [[]|e] m Hb; [|by eauto using traffic_end].
    eapply (stop_and_throw _ _ _ _ _ (Ok tt)); [done| |done].
    intros Hh%list_elem_of_singleton. by rewrite Hh in Hn.
Qed.
Lemma commit_phase s0 s oldActive legacy port m :
  lawful s0 → launched port → bg_ProxyClient bg = true → can_restore s oldActive →
  phase s (hostPort port :: old_hosts) (candidate s port) m →
  wp (commit ev bg oldActive (InactiveSlot s) port legacy) (λ x m',
    match x with
    | Ok _ => phase s [hostPort port] (candidate s port) m'
    | Err _ => Inv mr w0 [] (m_world m')
    end) m.
Proof.
  intros Hl Hp Hc Hcan Hb. unfold commit. wp_steps. wp_call (persist_traffic ev mr w0 (λ _, kept s)).
  { eapply phase_step; [..|exact Hb]; [done|done|]. by destruct (bg_Secrets bg). }
  clear Hb. intros [[]|e] m1 Hb; wp_steps.
  2:{ wp_call compensate_persist_safe; [done..|]. by intros ? ? [[? ->] ?]. }
  assert (phase s [hostPort port] (candidate s port) m1) as Hdone.
  { eapply traffic_weaken; [|done]. intros h ->%list_elem_of_singleton. by left. }
  destruct (0 <? e_target ev); wp_steps; [|done]. unfold wp at 1, promote.
  destruct (PromoteVersion _ _ _ _ _ _) as [[[]|e] v]; cbn [fst snd]; wp_steps; [by phase_by Hdone|].
  wp_call compensate_promote_safe; [done..|by phase_by Hb|]. by intros ? ? [[? ->] ?].
Qed.

(** ** The drain *)

(** An instance that, where alive, is not on a port just launched. *)
Definition elsewhere (inst : Instance) : Prop :=
  ∀ t port, launched port → InstanceAlive (e_os ev t) inst = true →
            hostPort (I_Port inst) ≠ hostPort port.

Lemma stop_elsewhere s port inst m :
  launched port → elsewhere inst → phase s [hostPort port] (candidate s port) m →
  wp (stopInstance ev inst)
    (λ x m', phase s [hostPort port] (candidate s port) m' ∧ ∃ rep, x = Ok rep) m.
Proof.
  intros Hp He Hb. wp_call (stop_traffic ev mr w0 (λ _, kept s)); [|done|done].
  intros t Ha. pose proof (He _ _ Hp Ha). simpl. rewrite list_elem_of_singleton. done.
Qed.

Lemma drain_safe s oldActive legacy port m :
  launched port → (∀ inst, inst ∈ legacy → elsewhere inst) →
  (oldActive = "" ∨ oldActive = D_ActiveSlot s) →
  (∀ inst, D_Slots s !! D_ActiveSlot s = Some inst → elsewhere inst) →
  phase s [hostPort port] (candidate s port) m →
  wp (drain ev oldActive legacy) (λ _ m', Inv mr w0 [] (m_world m')) m.
Proof.
  intros Hp Hleg Hold Hel Hb. unfold drain, stopRetiredInstances. wp_steps.
  wp_call (wp_for_each (A := Instance) (phase s [hostPort port] (candidate s port))); [done| |].
  { clear m Hb. intros inst m Hin Hb. destruct (recorded inst); cbn [negb]; wp_steps; [|done].
    wp_call stop_elsewhere; [done|by apply Hleg|done|]. clear m Hb. intros x m (Hb & rep & ->).
    by destruct (rep_Exited rep). }
  clear m Hb. intros [[]|e] m Hb; [|by eauto using traffic_end]. wp_steps.
  destruct (oldActive <>s "") eqn:Ene; wp_steps; [|wp_call persist_Inv; [by eapply traffic_end|by intros [[]|]]].
  destruct (D_Slots (m_state m) !! oldActive) as [old|] eqn:Eo; wp_steps;
    [|wp_call persist_Inv; [by eapply traffic_end|by intros [[]|]]].
  destruct (recorded old); wp_steps; [|wp_call persist_Inv; [by eapply traffic_end|by intros [[]|]]].
  destruct Hold as [-> | ->]; [discriminate Ene|]. wp_call stop_elsewhere; [done| |done|].
  { apply Hel. rewrite <- Eo. symmetry. apply Hb. }
  clear m Hb Eo. intros x m (Hb & rep & ->). apply traffic_end in Hb.
  destruct (rep_Exited rep); cbn [negb]; wp_steps; [|done].
  wp_call persist_Inv; [done|by intros [[]|]].
Qed.

(** ** The whole deployment *)

Lemma consistent_ext s s' :
  D_Slots s' = D_Slots s → D_ActiveSlot s' = D_ActiveSlot s → consistent s → consistent s'.
Proof. intros Hs Ha [H1 H2]. split; rewrite Hs, Ha; auto. Qed.

Lemma elsewhere_recorded s0 inst :
  lawful s0 → (∃ k, D_Slots s0 !! k = Some inst ∨ D_Replicas s0 !! k = Some inst) → elsewhere inst.
Proof. intros Hl Hk t port (t' & p & Hp). by eapply law_fresh. Qed.

(** What the preparation leaves to the deployment. *)
Definition prepared (s0 : DeployState) (legacy : list Instance) (m : machine) : Prop :=
  phase (m_state m) old_hosts (w_route w0) m ∧ consistent (m_state m) ∧
  (∀ inst, inst ∈ legacy → elsewhere inst) ∧
  (∀ inst, D_Slots (m_state m) !! D_ActiveSlot (m_state m) = Some inst → elsewhere inst) ∧
  (D_Mode s0 = ModeBlueGreen → D_ActiveSlot (m_state m) = D_ActiveSlot s0).

Lemma prepare_phase s0 m :
  lawful s0 → (D_Mode s0 = ModeBlueGreen → consistent s0) → m_state m = s0 →
  Inv mr w0 old_hosts (m_world m) → w_route (m_world m) = w_route w0 →
  wp (prepare ev bg) (λ x m', match x with
                              | Ok (pre, legacy) => prepared s0 legacy m'
                              | Err _ => Inv mr w0 [] (m_world m')
                              end) m.
Proof.
  intros Hl Hc Hs HI Hr. unfold prepare. wp_steps. unfold MigrateTo. wp_steps.
  set (s1 := (if bg_Network bg <>s "" then _ else _)).
  assert (D_Slots s1 = D_Slots s0 ∧ D_Replicas s1 = D_Replicas s0 ∧ D_ActiveSlot s1 = D_ActiveSlot s0 ∧
    D_Mode s1 = D_Mode s0) as (HS & HR & HA & HM).
  { subst s1. rewrite <- Hs. by destruct (bg_Network bg <>s ""), (bg_Runtime bg <>s ""). }
  rewrite HM. destruct (D_Mode s0 =s ModeBlueGreen) eqn:E; bool_prop; wp_steps.
  - split; [split_and!; [done..|simpl; lia]|]. split; [by eapply consistent_ext; [..|by apply Hc]|]. simpl.
    split; [by intros ? ?%not_elem_of_nil|]. split; [|done].
    rewrite HS, HA. intros inst Hi. eapply elsewhere_recorded; eauto.
  - unfold migrated. cbv zeta iota beta. wp_steps. wp_call wp_persist.
    intros [[]|e] m' [(Hr' & Hlog & _) (c & u & Ht)]; wp_steps.
    2:{ eapply Inv_unseen; [done..|]. by eapply Inv_weaken; [|exact HI]; intros ? ?%not_elem_of_nil. }
    unfold prepared. rewrite Ht. cbn. split_and!; [| | | |done].
    + split_and!; [by eapply Inv_unseen|by rewrite Hr'| |simpl; lia]. unfold kept. by rewrite Ht.
    + split; simpl; [|done]. intros name inst _ Hi Hrec. exfalso. revert Hi.
      destruct (decide (name = SlotBlue)) as [->|]; [by intros [= <-]|].
      destruct (decide (name = SlotGreen)) as [->|]; [by intros [= <-]|].
      by rewrite !lookup_insert_ne.
    + rewrite HS, HR. intros inst Hi. apply (elsewhere_recorded s0); [done|].
      apply list_elem_of_In, filter_In in Hi as [Hi _]. apply list_elem_of_In in Hi.
      apply elem_of_app in Hi as [[k Hk]%retired_recorded|[k Hk]%retired_recorded]; eauto.
    + done.
Qed.

(** The application is served by the slot the record names, and can be seen to be. *)
Definition served (s0 : DeployState) : Prop :=
  D_Mode s0 = ModeBlueGreen ∧ D_ActiveSlot s0 ≠ "" ∧ is_Some (w_route w0) ∧
  ∀ t, e_status ev t = true.

Lemma restorable s0 s enrolled oldActive :
  bg_ProxyClient bg = true → (mr = true ∨ served s0) → consistent s →
  (D_Mode s0 = ModeBlueGreen → D_ActiveSlot s = D_ActiveSlot s0) →
  enrolment ev bg w0 enrolled → reported s enrolled oldActive → can_restore s oldActive.
Proof.
  intros Hpc Hmr Hc Hact Hen Ho. unfold reported in Ho.
  destruct (decide (D_ActiveSlot s = "" ∨ enrolled = false)) as [Hd|Hd].
  - left. split; [done|]. destruct Hmr as [|(Hm & Ha & Hr & Hst)]; [done|]. exfalso.
    destruct Hd as [Hd|Hd]; [rewrite (Hact Hm) in Hd; by destruct Ha|].
    destruct Hen as [[_ ?]|[_ [t Ht]]]; [congruence|].
    rewrite Hd, Hst, bool_decide_true in Ht by done. done.
  - apply Decidable.not_or in Hd as [Hd1 Hd2]. right. split; [done|]. split; [done|].
    apply c_active; [done| |done]. destruct Hen as [[? _]|[_ [t Ht]]]; [done|].
    apply not_false_is_true in Hd2. rewrite Hd2 in Ht. symmetry in Ht.
    apply andb_true_iff in Ht as [_ Ht]. by apply bool_decide_eq_true in Ht.
Qed.

Lemma deploy_body_safe s0 legacy m :
  lawful s0 → (mr = true ∨ served s0) → prepared s0 legacy m →
  wp (deploy_body ev bg legacy) (λ _ m', Inv mr w0 [] (m_world m')) m.
Proof.
  intros Hl Hmr (Hb & Hc & Hleg & Hold & Hact). unfold deploy_body. wp_steps.
  remember (m_state m) as s eqn:Es. pose proof (phase_phases s0 s Hl) as Hph.
  wp_call (start_candidate_steady ev bg w0 s).
  { eapply (recoverStaleSlots_steady ev bg w0 s); [|done|done]. intros name inst. apply (c_others s Hc). }
  clear m Hb Es. intros [[[port ok] enrolled]|e] m [Hb Hx]; [|by eapply traffic_end].
  destruct Hx as (Hp & Hen & Hh & Hok). wp_steps.
  assert (hostPort port ∉ old_hosts) as Hn by (destruct Hp as (? & ? & ?); by eapply law_unrouted).
  wp_call (await_healthy_ready ev bg w0 s); [done..|].
  clear m Hb Hh. intros [[]|e] m Hb; [|destruct Hb; by eapply traffic_end]. wp_steps.
  wp_call (switch_traffic_switched ev bg w0 s); [done..|].
  clear m Hb. intros [oldActive|e] m Hb; [|destruct Hb; by eapply traffic_end]. destruct Hb as (Hb & Hpc & Ho).
  assert (can_restore s oldActive) as Hcan by by eapply restorable.
  wp_steps. wp_call commit_phase; [done..|].
  clear m Hb. intros [[]|e] m Hb; [|done]. wp_steps.
  wp_call drain_safe; [done|done| |done|done|done].
  destruct Hcan as [[? _]|[? _]]; auto.
Qed.

Lemma undo_migration_safe pre m :
  Inv mr w0 [] (m_world m) →
  wp (undo_migration ev bg pre) (λ x m', x = Ok tt ∧ Inv mr w0 [] (m_world m')) m.
Proof.
  intros HI. unfold undo_migration. wp_steps. destruct (m_flag m); wp_steps; [done|].
  destruct (_ && _)%bool; wp_steps.
  - wp_call storeState_Inv; [done|]. by intros.
  - destruct (m_mode pre =s ""); wp_steps; [|done]. unfold wp at 1, remove_state.
    by destruct (RemoveState _ _ _) as [r j].
Qed.

Lemma deploy_run_safe s0 m :
  lawful s0 → (D_Mode s0 = ModeBlueGreen → consistent s0) → (mr = true ∨ served s0) →
  m_state m = s0 → Inv mr w0 old_hosts (m_world m) → w_route (m_world m) = w_route w0 →
  wp (deploy_run ev bg) (λ _ m', Inv mr w0 [] (m_world m')) m.
Proof.
  intros Hl Hc Hmr Hs HI Hr. unfold deploy_run. wp_steps. wp_call prepare_phase; [done..|].
  clear m Hs HI Hr. intros [[pre legacy]|e] m Hb; [|done]. wp_steps.
  wp_call deploy_body_safe; [done..|]. clear m Hb. intros [[]|e] m HI; wp_steps; [done|].
  wp_call undo_migration_safe; [done|]. intros ? m' [-> ?]. by wp_steps.
Qed.

Lemma Deploy_traced s0 :
  LoadOrInit (e_fs ev (w_tick w0)) (bg_AppName bg) ModeBlueGreen (bg_PublicPort bg) (w_journal w0)
    = Ok s0 →
  lawful s0 → (D_Mode s0 = ModeBlueGreen → consistent s0) → (mr = true ∨ served s0) →
  Inv mr w0 [] (Deploy ev bg w0).2.
Proof.
  intros Hs Hl Hc Hmr. unfold Deploy.
  assert (Inv mr w0 old_hosts w0) as HI by apply Inv_start.
  destruct (negb (bg_Source bg)).
  { eapply Inv_weaken; [|done]. by intros ? ?%not_elem_of_nil. }
  cbv zeta. cbn [w_journal w_set_tick]. rewrite Hs. set (m := mkMachine _ _ _).
  assert (wp (deploy_run ev bg) (λ _ m', Inv mr w0 [] (m_world m')) m) as Hw.
  { by eapply deploy_run_safe. }
  unfold wp in Hw. by destruct (deploy_run ev bg m).
Qed.
End Safety.

(** C2: a blue-green deployment is zero-downtime on every path.  Assume that a
    proxy call that fails was not carried out, that a launched process gets a
    port that is neither routed nor held by a live recorded instance
    ([lawful]), and that a blue-green record agrees with the proxy on who
    serves ([consistent]).  Then whatever call fails, at whatever moment, no
    instance is stopped while the proxy routes to it, and the proxy is only
    ever pointed at an instance that took traffic before the run or was found
    healthy during it and has not been stopped.  What a lost answer and a
    record that disagrees do is shown by examples below. *)
Theorem Deploy_never_cuts_traffic ev bg w0 s0 :
  LoadOrInit (e_fs ev (w_tick w0)) (bg_AppName bg) ModeBlueGreen (bg_PublicPort bg) (w_journal w0)
    = Ok s0 →
  lawful ev w0 s0 → (D_Mode s0 = ModeBlueGreen → consistent w0 s0) →
  ∃ l, w_log (Deploy ev bg w0).2 = w_log w0 ++ l ∧
       trace_ok true (trace_start (w_route w0)) l = true.
Proof.
  intros Hs Hl Hc. destruct (Deploy_traced ev bg true w0 s0) as (R & (l & Hlog & Hok & _) & _);
    [done..|by left|by exists l].
Qed.

(** A route that is only ever replaced stays. *)
Lemma trace_keeps_route ts l :
  is_Some (ts_route ts) → trace_ok false ts l = true → is_Some (ts_route (trace_end ts l)).
Proof.
  revert ts. induction l as [|e l IH]; intros ts Hr; [done|]. simpl. rewrite andb_true_iff.
  intros [He Hok]. apply IH; [|done]. by destruct e as [| | |[]].
Qed.

(** A deployment of an application that is being served never takes it off
    the proxy, whatever fails: it ends routed, and no moment of the run leaves
    it without a route. *)
Theorem Deploy_keeps_the_application_routed ev bg w0 s0 :
  LoadOrInit (e_fs ev (w_tick w0)) (bg_AppName bg) ModeBlueGreen (bg_PublicPort bg) (w_journal w0)
    = Ok s0 →
  lawful ev w0 s0 → consistent w0 s0 → served ev w0 s0 →
  is_Some (w_route (Deploy ev bg w0).2) ∧
  ∃ l, w_log (Deploy ev bg w0).2 = w_log w0 ++ l ∧ EvRoute None ∉ l.
Proof.
  intros Hs Hl Hc Hv. destruct (Deploy_traced ev bg false w0 s0) as (R & (l & Hlog & Hok & Hend) & _);
    [done..|by right|]. split.
  - assert (is_Some (ts_route (trace_end (trace_start (w_route w0)) l))) as Hr
      by (apply trace_keeps_route; [apply Hv|done]). by rewrite Hend in Hr.
  - exists l. split; [done|]. clear -Hok. revert Hok. generalize (trace_start (w_route w0)).
    induction l as [|e l IH]; intros ts; [by intros _ ?%not_elem_of_nil|]. simpl. rewrite andb_true_iff.
    intros [He Hok] [<-|Hin]%elem_of_cons; [done|by eapply IH].
Qed.

(** ** A run whose journal write fails right after the switch *)

Module SafetySamples.

Definition old_instance : Instance :=
  mkInstance [] SlotBlue 100 9001 "/bin/web" "" 5 "running" 1 "" 7.

Definition serving : DeployState :=
  with_ActiveVersion 1 (with_ActiveSlot SlotBlue
    (empty_state "web" ModeBlueGreen 8080
       {[ SlotBlue := old_instance; SlotGreen := stopped_instance SlotGreen ]})).

Definition no_faults : faults := λ _, None.

(** A machine where only process 100 and 200 run [/bin/web]. *)
Definition os : os_view :=
  mkOS (λ pid, one_of (Itoa pid) ["100"; "200"]) (λ _, Some 7) (λ _, "/bin/web") (λ _, true)
    String.eqb (λ _, InspectError true).

(** Every call succeeds, but the writes [broken] and those that follow it. *)
Definition sample_env_proxy (broken : nat → bool) (proxy : nat → option (error * bool)) : env :=
  mkEnv (λ n, Z.of_nat n) (λ n, if broken n then λ _, Some "EIO" else no_faults)
    (λ _ _, None) (λ _, os) id (λ _, true) (λ _, true) proxy
    (λ _, Ok ("/bin/web", "")) 2 (λ _, Ok []) (λ _, Ok (mkProc 200 7 "", 9002)) (1, "http")
    (λ _, None) (λ _, false) (λ _, mkReport true false) (λ _, true) (λ _, None) (λ _, true)
    (λ _, None) (λ _, None) (λ _, true) (λ _, None) (λ _, Verified).

Definition sample_env (broken : nat → bool) : env := sample_env_proxy broken (λ _, None).

Definition old_route : route := Some (mkTarget "127.0.0.1:9001" SlotBlue 0, []).
Definition version (n : Z) (current : bool) : VersionMeta :=
  mkVersion n "" "" n 10 None "" current "" [] "".
Definition start : world :=
  mkWorld 0 {[ deploy_json := Data serving ]}
    (mkVStore (Some (Data [version 1 true; version 2 false])) {[1; 2]} {[1; 2]} (Some 1))
    old_route [].

Definition config : BlueGreen := mkBlueGreen "web" "id1" 8080 true true false "" "" None.

(** The journal write right after the switch fails. *)
Definition bad_write : env := sample_env (Nat.eqb 10).

Definition new_route : route := Some (mkTarget "127.0.0.1:9002" SlotGreen 0, []).

Lemma sample_slots k inst :
  D_Slots serving !! k = Some inst →
  k = SlotBlue ∧ inst = old_instance ∨ k = SlotGreen ∧ inst = stopped_instance SlotGreen.
Proof.
  simpl. intros [[<- <-]|[Hne Hi]]%lookup_insert_Some; [by left|].
  apply lookup_singleton_Some in Hi as [<- <-]. by right.
Qed.

Lemma sample_lawful broken : lawful (sample_env broken) start serving.
Proof.
  split.
  - done.
  - intros t p port [= <- <-] Hin. by apply list_elem_of_singleton in Hin.
  - intros t p port t' inst [= <- <-] [k [Hk|Hk]] _; [|by exfalso; revert Hk; apply (lookup_empty_Some (M := gmap string))].
    by destruct (sample_slots _ _ Hk) as [[_ ->]|[_ ->]].
Qed.

Lemma sample_consistent : consistent start serving.
Proof.
  split.
  - intros name inst Hne Hi Hr. by destruct (sample_slots _ _ Hi) as [[-> ->]|[-> ->]].
  - intros _ _. exists old_instance. split; [done|]. split; [done|]. by apply list_elem_of_singleton.
Qed.

Lemma sample_served broken : served (sample_env broken) start serving.
Proof. by split_and!; [|done|eexists|]. Qed.

(** The traffic is sent back before the candidate is stopped. *)
Lemma Deploy_never_cuts_traffic_witness :
  w_log (Deploy bad_write config start).2 =
    [EvLaunch "127.0.0.1:9002"; EvHealthy "127.0.0.1:9002"; EvRoute new_route; EvRoute old_route;
     EvStop "127.0.0.1:9002"] ∧
  ∃ l, w_log (Deploy bad_write config start).2 = w_log start ++ l ∧
       trace_ok true (trace_start (w_route start)) l = true.
Proof.
  split; [vm_compute; reflexivity|].
  apply (Deploy_never_cuts_traffic bad_write config start serving).
  - reflexivity.
  - apply sample_lawful.
  - intros _. apply sample_consistent.
Defined.

Lemma Deploy_keeps_the_application_routed_witness :
  is_Some (w_route (Deploy bad_write config start).2) ∧
  ∃ l, w_log (Deploy bad_write config start).2 = w_log start ++ l ∧ EvRoute None ∉ l.
Proof.
  apply (Deploy_keeps_the_application_routed bad_write config start serving).
  - reflexivity.
  - apply sample_lawful.
  - apply sample_consistent.
  - apply sample_served.
Defined.

(** ** Limits of the hypotheses *)

(** The daemon switches but its answer is lost: the deployment takes the switch
    for failed and stops the instance that now takes the traffic. *)
Definition lost_answer : env :=
  sample_env_proxy (λ _, false)
    (λ n, if Nat.eqb n 9 then Some (New CodeConnection "connection reset", true) else None).

Example lost_answer_stops_the_routed_instance :
  w_route (Deploy lost_answer config start).2 = new_route ∧
  w_log (Deploy lost_answer config start).2 =
    [EvLaunch "127.0.0.1:9002"; EvHealthy "127.0.0.1:9002"; EvRoute new_route;
     EvStop "127.0.0.1:9002"].
Proof. split; vm_compute; reflexivity. Qed.

(** A first blue-green deployment of an application that replicas serve: when
    the journal write after the switch fails, the application is taken off the
    proxy although its replicas still run. *)
Definition rolling_state : DeployState :=
  with_Replicas {[ "0" := old_instance ]} (empty_state "web" ModeRolling 8080 ∅).
Definition rolling_start : world :=
  mkWorld 0 {[ deploy_json := Data rolling_state ]} (w_versions start)
    (Some (mkTarget "127.0.0.1:9001" "replica-0" 0, [])) [].

Example failed_migration_unroutes_the_replicas :
  w_route (Deploy (sample_env (Nat.eqb 11)) config rolling_start).2 = None ∧
  w_log (Deploy (sample_env (Nat.eqb 11)) config rolling_start).2 =
    [EvLaunch "127.0.0.1:9002"; EvHealthy "127.0.0.1:9002";
     EvRoute (Some (mkTarget "127.0.0.1:9002" SlotBlue 0, [])); EvRoute None;
     EvStop "127.0.0.1:9002"].
Proof. split; vm_compute; reflexivity. Qed.

(** A crash between the switch and the journal write leaves a record that names
    the old instance; the next deployment stops the one that is routed. *)
Definition crashed_state : DeployState :=
  with_Slots {[ SlotBlue := old_instance;
                SlotGreen := mkInstance [] SlotGreen 200 9002 "/bin/web" "" 6 "running" 2 "" 7 ]} serving.
Definition crashed_start : world :=
  mkWorld 0 {[ deploy_json := Data crashed_state ]} (w_versions start) new_route [].

Example recovery_stops_the_routed_instance :
  take 1 (w_log (Deploy (sample_env (λ _, false)) config crashed_start).2) = [EvStop "127.0.0.1:9002"] ∧
  w_route crashed_start = new_route.
Proof. split; vm_compute; reflexivity. Qed.
End SafetySamples.
