(* ===== verification/BlueGreenAtomic.v ===== *)
(** * BlueGreenAtomic: a blue-green deployment commits everywhere or nowhere

    Three stores record who serves: the proxy's route, the journal's active
    slot and the current version of versions.json.  This file shows that a
    deployment in which any single call fails leaves them in agreement, on the
    old instance or on the new one, and that a deployment in which no call
    fails completes on the new one. *)

From S2P Require Import Prelude GoLib FileStore ProxyRouting DeployState Versions Engine.
From S2P Require Import BlueGreen BlueGreenPhases BlueGreenSafety Errors.

Section Atomic.
Context (ev : env) (bg : BlueGreen) (w0 : world).

(** The calls with this number succeed. *)
Definition quiet (t : nat) : Prop :=
  (∀ o, e_fs ev t o = None) ∧ (∀ o, e_vfs ev t o = None) ∧ e_proxy ev t = None.

(** At most one call fails, and a failed proxy call was not carried out. *)
Definition one_failure : Prop :=
  (∃ t0, (∀ t, t ≠ t0 → quiet t) ∧ one_vfault (e_vfs ev t0)) ∧
  ∀ t e applied, e_proxy ev t = Some (e, applied) → applied = false.

Definition restful (m : machine) : Prop := ∀ t, (w_tick (m_world m) ≤ t)%nat → quiet t.

Lemma after_failure t m :
  one_failure → ¬ quiet t → (t < w_tick (m_world m))%nat → restful m.
Proof.
  intros [(t0 & Hq & _) _] Ht Hlt t' Hge. apply Hq. intros ->.
  destruct (decide (t = t0)) as [->|Hne]; [lia|]. by apply Ht, Hq.
Qed.

Context (s : DeployState).

Definition named (st : DeployState) : Prop :=
  D_AppName st = bg_AppName bg ∧ D_Mode st = ModeBlueGreen.

Definition keeps_old (st : DeployState) : Prop :=
  D_Slots st !! D_ActiveSlot s = D_Slots s !! D_ActiveSlot s.

(** The record still says the old instance serves. *)
Definition old_rec (st : DeployState) : Prop :=
  named st ∧ keeps_old st ∧ D_ActiveSlot st = D_ActiveSlot s ∧ D_ActiveVersion st = D_ActiveVersion s.

(** It says the candidate does. *)
Definition new_rec (port : Z) (st : DeployState) : Prop :=
  named st ∧ holds_candidate s port st ∧ D_ActiveSlot st = InactiveSlot s ∧
  D_ActiveVersion st = e_target ev.

Definition mid_rec (port : Z) (st : DeployState) : Prop := new_rec port st ∧ keeps_old st.

(** Predicates that persistence preserves. *)
Definition closed (R : DeployState → Prop) : Prop := ∀ s1 s2, touched s1 s2 → R s1 → R s2.

Lemma closed_old : closed old_rec.
Proof. by intros s1 s2 (c & u & ->). Qed.
Lemma closed_new port : closed (new_rec port).
Proof. by intros s1 s2 (c & u & ->). Qed.
Lemma closed_mid port : closed (mid_rec port).
Proof. by intros s1 s2 (c & u & ->). Qed.

Definition held (R : DeployState → Prop) (w : world) : Prop :=
  ∃ st, w_journal w !! deploy_json = Some (Data st) ∧ R st.

(** What the three stores say: the journal, the route, the versions. *)
Definition settled (R : DeployState → Prop) (r : route) (v : vstore) (m : machine) : Prop :=
  held R (m_world m) ∧ w_route (m_world m) = r ∧ w_versions (m_world m) = v.

(** The same during the run, with the record in memory. *)
Definition moment (R S : DeployState → Prop) (r : route) (v : vstore) (m : machine) : Prop :=
  settled R r v m ∧ S (m_state m) ∧ D_secretPreparing (m_state m) = false.

Lemma held_impl (R R' : DeployState → Prop) w : (∀ st, R st → R' st) → held R w → held R' w.
Proof. intros Hi (st & Hj & HR). exists st. auto. Qed.

Lemma moment_impl (R R' S : DeployState → Prop) r v m :
  (∀ st, R st → R' st) → moment R S r v m → moment R' S r v m.
Proof. intros Hi ((Hh & Hr & Hv) & HS). split; [|done]. split; [|done]. by eapply held_impl. Qed.

(** A step that leaves the three stores alone. *)
Lemma moment_step R S S' r v m w' s' f :
  w_journal w' = w_journal (m_world m) → w_route w' = w_route (m_world m) →
  w_versions w' = w_versions (m_world m) → S' s' → D_secretPreparing s' = false →
  moment R S r v m → moment R S' r v (mkMachine w' s' f).
Proof.
  intros Hj Hr Hv HS Hp ((Hh & Hr0 & Hv0) & _). split; [|done]. split_and!; simpl; [|congruence..].
  destruct Hh as (st & Hst & HR). exists st. by rewrite Hj.
Qed.

Context (Hvalid : ValidateAppName (bg_AppName bg) = Ok tt).

Lemma persist_moment R S r v m :
  closed S → (∀ st, S st → named st) → moment R S r v m →
  wp (persist ev) (λ x m',
    match x with
    | Ok _ => moment S S r v m'
    | Err _ => moment (λ st, R st ∨ S st) S r v m' ∧ ¬ quiet (w_tick (m_world m))
    end ∧ w_tick (m_world m') = Datatypes.S (w_tick (m_world m))) m.
Proof.
  intros Hcl Hn ((Hh & Hr & Hv) & HS & Hp). unfold wp, persist.
  set (t := w_tick (m_world m)).
  assert (storable (m_state m)) as Hst by (split; [by rewrite (proj1 (Hn _ HS))|done]).
  pose proof (Store_cases (e_fs ev t) (e_now ev t) (m_state m) (w_journal (m_world m)) Hst) as Hc.
  pose proof (Store_no_faults (e_fs ev t) (e_now ev t) (m_state m) (w_journal (m_world m))) as Hnf.
  destruct (Store _ _ _ _) as [[x s'] j'] eqn:Hstore.
  pose proof (Store_touched _ _ _ _ _ _ _ Hstore) as Ht. simpl. split; [|done].
  assert (S s' ∧ D_secretPreparing s' = false) as [HS' Hp'].
  { split; [by eapply Hcl|]. destruct Ht as (c & u & ->). done. }
  destruct x as [[]|e].
  - destruct Hc as [Hs' Hj]. split; [|done]. split_and!; [|done|done]. exists s'. by split.
  - split.
    + split; [|done]. split_and!; [|done|done]. destruct Hc as [Hj|Hj].
      * destruct Hh as (st & Hst' & HR). exists st. split; [by rewrite <- Hst'|by left].
      * eexists. split; [exact Hj|]. right. eapply Hcl; [|exact HS]. unfold stamped.
        destruct (D_SecretTxnID (m_state m) =s "").
        -- by exists false, (e_now ev t).
        -- exists (D_SecretCleanupPending (m_state m)), (e_now ev t). by destruct (m_state m).
    + intros (Hq & _ & _). by specialize (Hnf Hq Hst).
Qed.

Lemma proxy_moment R S r v effect m :
  (∀ t e applied, e_proxy ev t = Some (e, applied) → applied = false) →
  moment R S r v m →
  wp (proxy_call ev effect) (λ x m', m_state m' = m_state m ∧
    w_tick (m_world m') = Datatypes.S (w_tick (m_world m)) ∧
    match x with
    | Ok _ => ∃ rt, effect r = Ok rt ∧ moment R S rt v m'
    | Err _ => moment R S r v m' ∧ ((∃ e, effect r = Err e) ∨ ¬ quiet (w_tick (m_world m)))
    end) m.
Proof.
  intros Hl ((Hh & Hr & Hv) & HS). wp_call wp_proxy_call; [done|].
  intros x m' (Hs & _ & Hw). cbv zeta in Hw. rewrite Hr in Hw. split; [done|].
  unfold moment, settled, held. rewrite Hs. destruct x as [[]|e].
  - destruct Hw as (rt & Hrt & ->). split; [done|]. by exists rt.
  - destruct Hw as (-> & Hwhy). split; [done|]. split; [done|].
    destruct Hwhy as [?|Hf]; [by left|right]. by intros (_ & _ & ?).
Qed.

Lemma stop_moment R S r v inst m :
  moment R S r v m →
  wp (stopInstance ev inst) (λ x m', moment R S r v m' ∧ ∃ rep, x = Ok rep) m.
Proof.
  intros ((Hh & Hr & Hv) & HS). wp_call wp_stopInstance.
  intros x m' (Hs & _ & Hx & t & _ & Hw). split; [|done]. unfold moment, settled, held. rewrite Hs.
  by destruct Hw as [->|[_ ->]].
Qed.

(** ** The phases before the commit *)

#[local] Abbreviation r0 := (w_route w0).
#[local] Abbreviation v0 := (w_versions w0).

Lemma old_edited s1 s2 : edited s s1 s2 → old_rec s1 → old_rec s2.
Proof.
  intros (H1 & H2 & H3 & H4 & _ & H6) ([? ?] & ? & ? & ?). unfold old_rec, named, keeps_old.
  split_and!; congruence.
Qed.

#[local] Instance moment_steady : Steady ev w0 s (moment old_rec old_rec r0 v0).
Proof.
  split.
  - intros m w' s' f Hb (Hr & _ & Hj & Hv & _) He. eapply moment_step; [..|exact Hb]; try done.
    + eapply old_edited; [done|apply Hb].
    + destruct He as (_ & _ & _ & _ & -> & _). apply Hb.
  - by intros m ((_ & Hr & _) & _).
  - intros m Hb. wp_call persist_moment; [apply closed_old|by intros ? [? _]|done|].
    intros x m' [Hx _]. destruct x as [[]|e]; [done|]. destruct Hx as [Hx _].
    eapply moment_impl; [|done]. by intros st [?|?].
  - intros inst m _ Hb. wp_call stop_moment; [done|]. by intros ? ? [? _].
  - intros port m _ Hb. unfold stop_held. wp_steps. done.
  - done.
Qed.

Definition ready (port : Z) (m : machine) : Prop :=
  moment old_rec old_rec r0 v0 m ∧ holds_candidate s port (m_state m).
Definition switched (port : Z) (m : machine) : Prop :=
  moment old_rec old_rec (candidate s port) v0 m ∧ holds_candidate s port (m_state m).

Context (Hone : one_failure).

#[local] Instance moment_phases :
  Phases ev bg w0 s (moment old_rec old_rec r0 v0) ready switched.
Proof.
  split.
  - apply _.
  - by intros.
  - intros port m w' [Hb Hh] (Hr & _ & Hj & Hv & _). split; [|done].
    eapply moment_step; [..|exact Hb]; try done; apply Hb.
  - by intros port m [? _].
  - intros port effect m Hp He [Hb Hh]. wp_call proxy_moment; [apply Hone|done|].
    intros [[]|e] m' (Hs & _ & Hx); unfold ready, switched; rewrite Hs.
    + destruct Hx as (rt & Hrt & Hb'). split; [|done].
      destruct He as [He|[[e He] _]]; rewrite He in Hrt; [|done]. by injection Hrt as <-.
    + destruct Hx as [Hb' Hwhy]. split; [done|]. intros Hf. destruct He as [He|[_ He]]; [|by apply He].
      destruct Hwhy as [[e' He']|Hq]; [congruence|]. apply Hq.
      split_and!; [apply (fl_fs _ _ Hf)|apply (fl_vfs _ _ Hf)|apply (fl_proxy _ _ Hf)].
  - done.
Qed.

(** ** The commit *)

(** The instance that serves when the run begins. *)
Context (old : Instance) (rows : list VersionMeta).
Context (Hserves : D_Slots s !! D_ActiveSlot s = Some old) (Hport : 0 < I_Port old).
Context (Hroute : w_route w0 = Some (mkTarget (hostPort (I_Port old)) (D_ActiveSlot s) 0, [])).
Context (Hact : D_ActiveSlot s ≠ "") (Hclient : bg_ProxyClient bg = true).
Context (Hsecrets : bg_Secrets bg = None) (Htarget : 0 < e_target ev).
Context (Hrows : vs_meta v0 = Some (Data rows)) (Hrec : versionExists rows (e_target ev) = true).

(** The version store after the promotion. *)
Definition promoted (v : vstore) : Prop :=
  ∃ now, v = promoted_store (e_target ev) now ModeBlueGreen rows v0.

Lemma flawless_quiet t : flawless ev bg → quiet t.
Proof.
  intros Hf. split_and!; [apply (fl_fs _ _ Hf)|apply (fl_vfs _ _ Hf)|apply (fl_proxy _ _ Hf)].
Qed.

Lemma persist_quiet R S r v m :
  closed S → (∀ st, S st → named st) → moment R S r v m → restful m →
  wp (persist ev) (λ x m', x = Ok tt ∧ moment S S r v m' ∧ restful m') m.
Proof.
  intros Hcl Hn Hb Hrest. wp_call persist_moment; [done|done|done|]. intros [[]|e] m' [Hx Ht].
  - split_and!; [done|done|]. intros t Hle. apply Hrest. lia.
  - destruct Hx as [_ Hx]. destruct Hx. apply Hrest. lia.
Qed.

Lemma retire_moment R port v m :
  moment R old_rec r0 v m → holds_candidate s port (m_state m) → restful m →
  wp (retireFailedCandidate ev (InactiveSlot s)) (λ x m', x = Ok tt ∧ moment old_rec old_rec r0 v m') m.
Proof.
  intros Hb (inst & Hi & _) Hrest. pose proof (InactiveSlot_ne s). unfold retireFailedCandidate. wp_steps.
  rewrite Hi. wp_steps. eapply wp_mono; [eapply (persist_quiet R old_rec r0 v); [apply closed_old|by intros ? [? _]| |]|].
  - eapply moment_step; [..|exact Hb]; try done. destruct Hb as (_ & (Hn & Hk & Ha & Hv) & _).
    split; [done|]. split; [|done]. unfold keeps_old. simpl. by rewrite lookup_alter_ne.
  - done.
  - intros x m' (-> & Hb' & _). by wp_steps.
Qed.

Lemma stop_held_moment R S r v port m :
  moment R S r v m → wp (stop_held port) (λ x m', x = Ok tt ∧ moment R S r v m') m.
Proof. intros Hb. unfold stop_held. by wp_steps. Qed.

(** The traffic goes back to the old instance. *)
Lemma send_back_moment R S port m :
  moment R S (candidate s port) v0 m → restful m →
  wp (proxy_Switch ev (mkTarget (hostPort (I_Port old)) (D_ActiveSlot s) 0) [])
    (λ x m', x = Ok tt ∧ moment R S r0 v0 m' ∧ m_state m' = m_state m ∧ restful m') m.
Proof.
  intros Hb Hrest. unfold proxy_Switch. wp_call proxy_moment; [apply Hone|done|].
  intros [[]|e] m' (Hs & Ht & Hx).
  - destruct Hx as (rt & [= <-] & Hb'). split_and!; [done|by rewrite Hroute|done|].
    intros t Hle. apply Hrest. lia.
  - destruct Hx as [_ [[e' He]|Hq]]; [done|]. destruct Hq. apply Hrest. lia.
Qed.

Definition kept_old (x : res unit) (m : machine) : Prop :=
  (∃ e, x = Err e) ∧ settled old_rec r0 v0 m.

Lemma compensate_persist_restores R port stamp err m :
  moment R (mid_rec port) (candidate s port) v0 m → restful m →
  wp (compensate_persist ev bg (mkBefore (D_ActiveSlot s) (D_ActiveVersion s) stamp)
        (InactiveSlot s) port err) kept_old m.
Proof.
  intros Hb Hrest. unfold compensate_persist. cbn [bc_slot bc_version bc_stamp]. wp_steps.
  rewrite Hclient, !andb_true_r, (proj2 (String.eqb_neq _ _) Hact). cbn [negb].
  pose proof Hb as (_ & (((Hn & Hc & _) & Hk) & _)). unfold keeps_old in Hk.
  rewrite Hk, Hserves, (proj2 (Z.ltb_lt _ _) Hport). wp_steps.
  wp_call send_back_moment; [done|done|]. clear Hrest.
  intros x m1 (-> & Hb1 & Hs & Hrest). wp_steps. unfold restore_serving. wp_steps.
  wp_call (retire_moment R port v0).
  - eapply moment_step; [..|exact Hb1]; try done; [|apply Hb1]. rewrite Hs. by split_and!.
  - by rewrite Hs.
  - done.
  - intros x m2 (-> & Hb2). wp_steps. wp_call stop_held_moment; [done|].
    intros x m3 (-> & Hb3). wp_steps. split; [by eauto|apply Hb3].
Qed.

Lemma compensate_promote_restores R port stamp err m :
  moment R (mid_rec port) (candidate s port) v0 m → restful m →
  wp (compensate_promote ev bg (mkBefore (D_ActiveSlot s) (D_ActiveVersion s) stamp)
        (InactiveSlot s) port err) kept_old m.
Proof.
  intros Hb Hrest. unfold compensate_promote. cbn [bc_slot bc_version bc_stamp]. wp_steps.
  rewrite Hclient, !andb_true_r, (proj2 (String.eqb_neq _ _) Hact). cbn [negb].
  pose proof Hb as (_ & (((Hn & Hc & _) & Hk) & Hp)). unfold keeps_old in Hk.
  cbn [D_Slots with_ActiveSlot with_ActiveVersion].
  rewrite Hk, Hserves, (proj2 (Z.ltb_lt _ _) Hport).
  wp_call (send_back_moment R old_rec port).
  { eapply moment_step; [..|exact Hb]; try done. }
  { done. }
  clear Hrest. intros x m1 (-> & Hb1 & Hs & Hrest). wp_steps.
  wp_call (retire_moment R port v0).
  - eapply moment_step; [..|exact Hb1]; try done; [|by rewrite Hs]. by rewrite Hs.
  - by rewrite Hs.
  - done.
  - intros x m2 (-> & Hb2). wp_steps. wp_call stop_held_moment; [done|].
    intros x m3 (-> & Hb3). wp_steps. split; [by eauto|apply Hb3].
Qed.

Lemma promote_moment R S r m :
  moment R S r v0 m →
  wp (promote ev (bg_AppName bg) (e_target ev) ModeBlueGreen) (λ x m',
    m_state m' = m_state m ∧
    match x with
    | Ok _ => ∃ v, promoted v ∧ moment R S r v m'
    | Err _ => moment R S r v0 m' ∧ restful m' ∧ ¬ flawless ev bg
    end) m.
Proof.
  intros ((Hh & Hr & Hv) & HS). unfold wp, promote. rewrite Hv. set (t := w_tick (m_world m)).
  pose proof (PromoteVersion_cases (e_vfs ev t) (bg_AppName bg) (e_target ev) (e_now ev t) ModeBlueGreen
    v0 rows Htarget Hvalid Hrows Hrec) as Hc.
  destruct (PromoteVersion _ _ _ _ _ _) as [[[]|e] v]; simpl.
  - subst v. split; [done|]. eexists. split; [by eexists|]. done.
  - destruct Hc as [Hv' [o Ho]]. split; [done|].
    assert (¬ quiet t) as Hnq by (intros (_ & Hq & _); by apply Ho).
    assert (one_vfault (e_vfs ev t)) as H1.
    { destruct Hone as [(t0 & Hq & H1) _]. destruct (decide (t = t0)) as [->|Hne]; [done|].
      by destruct Hnq; apply Hq. }
    rewrite (Hv' H1). split; [done|]. split.
    + eapply after_failure; [done|exact Hnq|]. simpl. lia.
    + intros Hf. by apply Hnq, flawless_quiet.
Qed.

Lemma commit_moment port m :
  switched port m →
  wp (commit ev bg (D_ActiveSlot s) (InactiveSlot s) port []) (λ x m',
    match x with
    | Ok _ => ∃ v, promoted v ∧ moment (mid_rec port) (mid_rec port) (candidate s port) v m'
    | Err _ => settled old_rec r0 v0 m' ∧ ¬ flawless ev bg
    end) m.
Proof.
  intros [Hb Hh]. pose proof (InactiveSlot_ne s). unfold commit. wp_steps. rewrite Hsecrets.
  pose proof Hb as (_ & (Hn & Hk & Ha & Hver) & Hp). rewrite Hver.
  wp_call (persist_moment old_rec (mid_rec port)); [apply closed_mid|by intros ? [[? _] _]| |].
  { eapply moment_step; [..|exact Hb]; try done. }
  intros [[]|e] m1 [Hx Ht]; wp_steps.
  - rewrite (proj2 (Z.ltb_lt _ _) Htarget). wp_steps. wp_call promote_moment; [exact Hx|].
    intros [[]|e] m2 [_ Hx2]; wp_steps; [done|]. destruct Hx2 as (Hb2 & Hrest & Hnf).
    wp_call compensate_promote_restores; [done|done|]. by intros x m3 [[e' ->] ?].
  - destruct Hx as [Hb1 Hnq]. wp_call compensate_persist_restores; [done| |].
    + eapply after_failure; [done|done|]. lia.
    + intros x m3 [[e' ->] ?]. split; [done|]. intros Hf. by apply Hnq, flawless_quiet.
Qed.

Definition kept_new (port : Z) (v : vstore) (x : res unit) (m : machine) : Prop :=
  settled (new_rec port) (candidate s port) v m ∧ (flawless ev bg → x = Ok tt).

Lemma drain_moment port v m :
  moment (mid_rec port) (mid_rec port) (candidate s port) v m →
  wp (drain ev (D_ActiveSlot s) []) (kept_new port v) m.
Proof.
  intros Hb. pose proof (InactiveSlot_ne s) as Hne. unfold drain, stopRetiredInstances. cbn [for_eachM].
  wp_steps. rewrite (proj2 (String.eqb_neq _ _) Hact). cbn [negb].
  assert (∀ m, moment (mid_rec port) (new_rec port) (candidate s port) v m →
    wp (persist ev) (λ x m', kept_new port v
      (match x with Ok a => Ok a | Err e => Err (wrap CodeFilesystem "persist blue-green drained old-slot state" e) end) m') m)
    as Hend.
  { clear m Hb. intros m Hb.
    wp_call (persist_moment (mid_rec port) (new_rec port)); [apply closed_new|by intros ? [? _]|exact Hb|].
    intros [[]|e] m' [Hx _]; (split; [|done|| intros Hf]).
    - apply Hx.
    - destruct Hx as [((Hh & Hr) & _) _]. split; [|exact Hr].
      eapply held_impl; [|exact Hh]. by intros st [[? _]|?].
    - destruct Hx as [_ Hx]. by destruct Hx; apply flawless_quiet. }
  pose proof Hb as (_ & (Hn & Hk) & _). unfold keeps_old in Hk. rewrite Hk, Hserves.
  destruct (recorded old); wp_steps.
  2:{ apply Hend. destruct Hb as (H1 & [H2 _] & H3). by split_and!. }
  assert (wp (stopInstance ev old) (λ x m', moment (mid_rec port) (mid_rec port) (candidate s port) v m' ∧
    ∃ rep, x = Ok rep ∧ (flawless ev bg → rep_Exited rep = true)) m) as Hstop.
  { pose proof (stop_moment _ _ _ _ old m Hb) as [H1 _]. by destruct (stop_reports ev bg old m) as [_ H2]. }
  wp_call Hstop. clear m Hb Hstop Hn Hk. intros x m (Hb & rep & -> & Hex).
  destruct (rep_Exited rep); cbn [negb]; wp_steps.
  - apply Hend. eapply moment_step; [..|exact Hb]; try done; [|apply Hb].
    destruct Hb as (_ & ((Hn & (inst & Hi & Hp) & Ha & Hv) & Hk) & _). split; [done|].
    split; [|done]. exists inst. simpl. by rewrite lookup_alter_ne.
  - split; [|intros Hf; by specialize (Hex Hf)]. destruct Hb as ((Hh & Hr) & _). split; [|done].
    eapply held_impl; [|exact Hh]. by intros st [? _].
Qed.

(** What a run can leave behind. *)
Definition outcome (x : res unit) (m : machine) : Prop :=
  (settled old_rec r0 v0 m ∧ is_ok x = false ∧ ¬ flawless ev bg) ∨
  (∃ port v, promoted v ∧ kept_new port v x m ∧
     ∃ t p, e_launch ev t = Ok (p, port)).

Lemma deploy_body_outcome m :
  (∀ name inst, name ≠ D_ActiveSlot s → D_Slots s !! name = Some inst → recorded inst = true →
     hostPort (I_Port inst) ∉ old_hosts w0) →
  (∀ t p port, e_launch ev t = Ok (p, port) → hostPort port ∉ old_hosts w0) →
  (∀ t, e_status ev t = true) →
  m_state m = s → moment old_rec old_rec r0 v0 m →
  wp (deploy_body ev bg []) outcome m.
Proof.
  intros Hothers Hfresh Hstatus Hs Hb. unfold deploy_body. wp_steps. rewrite Hs.
  assert (∀ m, moment old_rec old_rec r0 v0 m → settled old_rec r0 v0 m) as Hend by by intros ? [? _].
  wp_call (start_candidate_steady ev bg w0 s).
  { eapply (recoverStaleSlots_steady ev bg w0 s); [exact Hothers|done|done]. }
  clear m Hs Hb. intros [[[port ok] enrolled]|e] m [Hb Hx]; [|left; by auto].
  destruct Hx as (Hl & Hen & Hh & Hok). wp_steps.
  assert (hostPort port ∉ old_hosts w0) as Hn by (destruct Hl as (? & ? & ?); by eapply Hfresh).
  wp_call (await_healthy_ready ev bg w0 s); [done..|].
  clear m Hb Hh. intros [[]|e] m Hb; [|left; destruct Hb; by auto]. wp_steps.
  wp_call (switch_traffic_switched ev bg w0 s); [done..|].
  clear m Hb. intros [oldActive|e] m Hb; [|left; destruct Hb; by auto]. destruct Hb as (Hb & _ & Ho).
  assert (oldActive = D_ActiveSlot s) as ->.
  { unfold reported in Ho. rewrite decide_False in Ho; [done|]. intros [?|He]; [done|].
    destruct Hen as [[_ ?]|[_ [t Ht]]]; [congruence|].
    rewrite He, Hstatus, bool_decide_true in Ht; [done|]. by rewrite Hroute. }
  wp_steps. wp_call commit_moment; [done|].
  clear m Hb. intros [[]|e] m Hb; [|left; destruct Hb; by auto]. wp_steps.
  destruct Hb as (v & Hv & Hb). wp_call drain_moment; [done|].
  intros x m' Hx. right. exists port, v. split; [done|]. split; [done|].
  destruct Hl as (t & p & Hl). eauto.
Qed.
End Atomic.

(** ** The three stores *)

(** The journal's active slot is the instance the proxy routes to, and its
    version is the current one of the version store. *)
Record agrees (w : world) (st : DeployState) : Prop := {
  ag_journal : w_journal w !! deploy_json = Some (Data st);
  ag_mode : D_Mode st = ModeBlueGreen;
  ag_route : ∃ inst, D_Slots st !! D_ActiveSlot st = Some inst ∧
    w_route w = Some (mkTarget (hostPort (I_Port inst)) (D_ActiveSlot st) 0, []);
  ag_version : ∃ rows, vs_meta (w_versions w) = Some (Data rows) ∧
    current_of rows = D_ActiveVersion st ∧ vs_current (w_versions w) = Some (D_ActiveVersion st)
}.

(** The configuration of a deployment of a recorded version. *)
Record deploys_recorded (ev : env) (bg : BlueGreen) (w0 : world) (rows : list VersionMeta) : Prop := {
  dr_name : ValidateAppName (bg_AppName bg) = Ok tt;
  dr_source : bg_Source bg = true;
  dr_client : bg_ProxyClient bg = true;
  dr_secrets : bg_Secrets bg = None;
  dr_target : 0 < e_target ev;
  dr_rows : vs_meta (w_versions w0) = Some (Data rows);
  dr_recorded : versionExists rows (e_target ev) = true
}.

Section Whole.
Context (ev : env) (bg : BlueGreen) (w0 : world) (s0 : DeployState) (rows : list VersionMeta).
Context (Hag : agrees w0 s0) (Hdr : deploys_recorded ev bg w0 rows).
Context (Hlaw : lawful ev w0 s0) (Hcons : consistent w0 s0) (Hserved : served ev w0 s0).
Context (Hname : D_AppName s0 = bg_AppName bg) (Hone : one_failure ev).

(** The record the body of the deployment starts from. *)
Definition same_serving (s1 : DeployState) : Prop :=
  D_Slots s1 = D_Slots s0 ∧ D_ActiveSlot s1 = D_ActiveSlot s0 ∧ D_Mode s1 = D_Mode s0 ∧
  D_AppName s1 = D_AppName s0 ∧ D_ActiveVersion s1 = D_ActiveVersion s0.

Lemma prepare_serving m :
  m_state m = s0 →
  wp (prepare ev bg) (λ x m', ∃ pre, x = Ok (pre, []) ∧ m_mode pre = ModeBlueGreen ∧
    m_world m' = m_world m ∧ same_serving (m_state m') ∧ D_secretPreparing (m_state m') = false) m.
Proof.
  intros Hs. unfold prepare. wp_steps. unfold MigrateTo. wp_steps. rewrite (dr_secrets _ _ _ _ Hdr).
  rewrite bool_decide_false by (by intros []).
  set (s1 := (if bg_Network bg <>s "" then _ else _)).
  assert (same_serving s1 ∧ D_secretPreparing s1 = false) as [(HS & HA & HM & HN & HV) HP].
  { subst s1. rewrite Hs. unfold same_serving. by destruct (bg_Network bg <>s ""), (bg_Runtime bg <>s ""). }
  rewrite HM, (ag_mode _ _ Hag). change (ModeBlueGreen =s ModeBlueGreen) with true. wp_steps.
  eexists. split; [done|]. simpl. rewrite HM, (ag_mode _ _ Hag). by split_and!.
Qed.

Definition final (x : res unit) (w : world) : Prop :=
  ∃ s1, same_serving s1 ∧ outcome ev bg w0 s1 rows x (mkMachine w s1 false).

Lemma deploy_run_outcome m :
  m_state m = s0 → w_journal (m_world m) = w_journal w0 → w_route (m_world m) = w_route w0 →
  w_versions (m_world m) = w_versions w0 →
  wp (deploy_run ev bg) (λ x m', final x (m_world m')) m.
Proof.
  intros Hs Hj Hr Hvs. pose proof (dr_name _ _ _ _ Hdr) as Hv. unfold deploy_run. wp_steps. wp_call prepare_serving; [done|].
  intros x m1 (pre & -> & Hpre & Hw & Hsame & Hsp). wp_steps.
  remember (m_state m1) as s1 eqn:Es1.
  pose proof Hsame as (HS & HA & HM & HN & HV).
  pose proof Hag as [Hjr Hmode (inst & Hinst & Hroute) _].
  destruct (c_active _ _ Hcons) as (old & Hold & Hport & _); [by rewrite Hroute|apply Hserved|].
  rewrite Hinst in Hold. injection Hold as <-.
  wp_call (deploy_body_outcome ev bg w0 s1 Hv Hone inst rows).
  - by rewrite HS, HA.
  - done.
  - by rewrite HA.
  - rewrite HA. apply Hserved.
  - apply Hdr.
  - apply Hdr.
  - apply Hdr.
  - apply Hdr.
  - apply Hdr.
  - intros name i. rewrite HS, HA. apply (c_others _ _ Hcons).
  - intros t p port. apply (law_unrouted _ _ _ Hlaw).
  - apply Hserved.
  - done.
  - split.
    + unfold settled, held. rewrite Hw, Hr, Hvs, Hj. split; [|done]. exists s0. split; [done|].
      unfold old_rec, named, keeps_old. rewrite HS, HA, HV. by split_and!.
    + rewrite <- Es1. split; [|done]. unfold old_rec, named, keeps_old. rewrite HM, HN. by split_and!.
  - intros [[]|e] m2 Hout; wp_steps.
    + by exists s1.
    + unfold undo_migration. wp_steps. rewrite Hpre.
      change (ModeBlueGreen <>s ModeBlueGreen) with false. change (ModeBlueGreen =s "") with false.
      rewrite andb_false_r. by destruct (m_flag m2); wp_steps; exists s1.
Qed.

Lemma Deploy_final : final (Deploy ev bg w0).1 (Deploy ev bg w0).2.
Proof.
  unfold Deploy. rewrite (dr_source _ _ _ _ Hdr). cbn [negb]. cbv zeta. cbn [w_journal w_set_tick].
  assert (∀ e, ¬ flawless ev bg → final (Err e) (w_set_tick (S (w_tick w0)) w0)) as Hfail.
  { intros e Hnf. exists s0. split; [by split_and!|]. left. split; [|done]. split; [|done].
    exists s0. split; [apply Hag|]. unfold old_rec, named, keeps_old. split_and!; try done. apply Hag. }
  unfold LoadOrInit, Load. rewrite (dr_name _ _ _ _ Hdr), (ag_journal _ _ Hag).
  destruct (e_fs ev (w_tick w0) op_read) eqn:Er.
  { apply Hfail. intros Hf. by rewrite (fl_fs _ _ Hf) in Er. }
  rewrite Hname, String.eqb_refl, (ag_mode _ _ Hag). cbn [negb orb valid_mode].
  change (negb (valid_mode ModeBlueGreen)) with false. cbv iota.
  set (m := mkMachine _ _ _). assert (wp (deploy_run ev bg) (λ x m', final x (m_world m')) m) as Hw.
  { by apply deploy_run_outcome. }
  unfold wp in Hw. by destruct (deploy_run ev bg m).
Qed.

Lemma old_agrees s1 w :
  same_serving s1 → settled (old_rec bg s1) (w_route w0) (w_versions w0) (mkMachine w s1 false) →
  ∃ st, agrees w st ∧ D_ActiveSlot st = D_ActiveSlot s0 ∧ D_ActiveVersion st = D_ActiveVersion s0.
Proof.
  intros (HS & HA & HM & HN & HV) ((st & Hj & (_ & Hmode) & Hk & Ha & Hver) & Hr & Hvs). simpl in *.
  exists st. unfold keeps_old in Hk. rewrite HS, HA in Hk. rewrite HA in Ha. rewrite HV in Hver.
  split; [|done]. destruct Hag as [_ _ (inst & Hi & Hroute) Hv]. split; [done|done| |].
  - exists inst. by rewrite Ha, Hk, Hr.
  - by rewrite Hvs, Hver.
Qed.

Lemma new_agrees s1 port v w :
  same_serving s1 → promoted ev w0 rows v →
  settled (new_rec ev bg s1 port) (candidate s1 port) v (mkMachine w s1 false) →
  ∃ st, agrees w st ∧ D_ActiveSlot st = InactiveSlot s0 ∧ D_ActiveVersion st = e_target ev.
Proof.
  intros (HS & HA & HM & HN & HV) [now ->] ((st & Hj & (_ & Hmode) & (inst & Hi & Hp) & Ha & Hver) & Hr & Hvs).
  simpl in *. assert (InactiveSlot s1 = InactiveSlot s0) as HI by (unfold InactiveSlot; by rewrite HA).
  exists st. rewrite HI in Ha. split; [|done]. split; [done|done| |].
  - exists inst. rewrite Hr, Ha, <- HI, Hi. unfold candidate. by rewrite Hp.
  - rewrite Hvs, Hver. eexists. split; [done|]. split; [|done]. apply current_of_promoted, Hdr.
Qed.
End Whole.

(** C1: a deployment commits everywhere or nowhere.  Let the journal, the proxy
    and the version store agree on a blue-green instance that is served
    ([agrees], [served]), the deployed version be recorded and the application
    have no secrets ([deploys_recorded]), the status checks answer, and
    launched processes get ports that are not in use ([lawful]).  If among the
    calls to the file system, the version store and the proxy at most one fails
    - whichever, whenever, a failed proxy call not having been carried out -
    and whatever builds, launches, probes and stops do, then the three agree
    again when the deployment returns: on the old instance, with an error and
    the route and the versions as they were, or on the candidate and the
    deployed version; a success means the latter. *)
Theorem Deploy_commits_everywhere_or_nowhere ev bg w0 s0 rows :
  agrees w0 s0 → deploys_recorded ev bg w0 rows → D_AppName s0 = bg_AppName bg →
  lawful ev w0 s0 → consistent w0 s0 → served ev w0 s0 → one_failure ev →
  let '(r, w) := Deploy ev bg w0 in
  ∃ st, agrees w st ∧
    ((D_ActiveSlot st = D_ActiveSlot s0 ∧ D_ActiveVersion st = D_ActiveVersion s0 ∧
      w_route w = w_route w0 ∧ w_versions w = w_versions w0 ∧ r ≠ Ok tt) ∨
     (D_ActiveSlot st = InactiveSlot s0 ∧ D_ActiveVersion st = e_target ev)).
Proof.
  intros Hag Hdr Hname Hlaw Hcons Hserved Hone.
  destruct (Deploy_final ev bg w0 s0 rows) as (s1 & Hsame & Hout); [done..|].
  destruct (Deploy ev bg w0) as [r w]. simpl in Hout.
  destruct Hout as [(Hset & Hr & _)|(port & v & Hv & [Hset _] & _)].
  - destruct (old_agrees bg w0 s0 Hag s1 w Hsame Hset) as (st & Hst & Ha & Hver). exists st. split; [done|].
    left. destruct Hset as (_ & Hrt & Hvs). split_and!; try done. intros ->. done.
  - destruct (new_agrees ev bg w0 s0 rows Hdr s1 port v w Hsame Hv Hset) as (st & Hst & Ha & Hver).
    exists st. split; [done|]. by right.
Qed.

(** C32: a deployment in which no call fails completes, of an application
    without secrets that a blue-green instance serves and whose journal, proxy
    and version store agree: it returns no error, and the three are on the new
    instance and the deployed version; the instance was launched during the run
    on the port the proxy routes to. *)
Theorem Deploy_completes ev bg w0 s0 rows :
  agrees w0 s0 → deploys_recorded ev bg w0 rows → D_AppName s0 = bg_AppName bg →
  lawful ev w0 s0 → consistent w0 s0 → served ev w0 s0 → flawless ev bg →
  let '(r, w) := Deploy ev bg w0 in
  r = Ok tt ∧ ∃ st port,
    agrees w st ∧ D_ActiveSlot st = InactiveSlot s0 ∧ D_ActiveVersion st = e_target ev ∧
    (∃ t p, e_launch ev t = Ok (p, port)) ∧
    w_route w = Some (mkTarget (hostPort port) (InactiveSlot s0) 0, []).
Proof.
  intros Hag Hdr Hname Hlaw Hcons Hserved Hf.
  assert (one_failure ev) as Hone.
  { split; [|by eapply law_proxy]. exists 0%nat. split; [intros t _; by eapply flawless_quiet|].
    intros o o' Ho. by rewrite (fl_vfs _ _ Hf) in Ho. }
  destruct (Deploy_final ev bg w0 s0 rows) as (s1 & Hsame & Hout); [done..|].
  destruct (Deploy ev bg w0) as [r w]. simpl in Hout.
  destruct Hout as [(_ & _ & Hnf)|(port & v & Hv & [Hset Hok] & Hl)]; [done|].
  split; [by apply Hok|].
  destruct (new_agrees ev bg w0 s0 rows Hdr s1 port v w Hsame Hv Hset) as (st & Hst & Ha & Hver).
  exists st, port. split_and!; try done. destruct Hset as (_ & Hrt & _). simpl in Hrt. rewrite Hrt.
  unfold candidate, InactiveSlot. destruct Hsame as (_ & -> & _). done.
Qed.

Module AtomicSamples.
Import SafetySamples.

Definition history : list VersionMeta := [version 1 true; version 2 false].

Lemma sample_agrees : agrees start serving.
Proof.
  split; [done|done| |].
  - by exists old_instance.
  - by exists history.
Qed.

Lemma sample_deploys broken : deploys_recorded (sample_env broken) config start history.
Proof. by split. Qed.

Lemma bad_write_one_failure : one_failure bad_write.
Proof.
  split; [|done]. exists 10%nat. split; [|by intros o o' Ho].
  intros t Hne. split_and!; [|done|done]. intros o. unfold bad_write, sample_env, sample_env_proxy. cbn [e_fs].
  by rewrite (proj2 (Nat.eqb_neq _ _)) by congruence.
Qed.

(** The version that was current stays current. *)
Lemma Deploy_commits_everywhere_or_nowhere_witness :
  CurrentVersion Versions.no_vfaults "web" (w_versions (Deploy bad_write config start).2) = Ok 1 ∧
  let '(r, w) := Deploy bad_write config start in
  ∃ st, agrees w st ∧
    ((D_ActiveSlot st = SlotBlue ∧ D_ActiveVersion st = 1 ∧
      w_route w = old_route ∧ w_versions w = w_versions start ∧ r ≠ Ok tt) ∨
     (D_ActiveSlot st = SlotGreen ∧ D_ActiveVersion st = 2)).
Proof.
  split; [vm_compute; reflexivity|].
  apply (Deploy_commits_everywhere_or_nowhere bad_write config start serving history).
  - apply sample_agrees.
  - apply sample_deploys.
  - reflexivity.
  - apply sample_lawful.
  - apply sample_consistent.
  - apply sample_served.
  - apply bad_write_one_failure.
Defined.

Definition good_day : env := sample_env (λ _, false).

Lemma good_day_flawless : flawless good_day config.
Proof. by split. Qed.

Lemma Deploy_completes_witness :
  let '(r, w) := Deploy good_day config start in
  r = Ok tt ∧ ∃ st port,
    agrees w st ∧ D_ActiveSlot st = SlotGreen ∧ D_ActiveVersion st = 2 ∧
    (∃ t p, e_launch good_day t = Ok (p, port)) ∧
    w_route w = Some (mkTarget (hostPort port) SlotGreen 0, []).
Proof.
  apply (Deploy_completes good_day config start serving history).
  - apply sample_agrees.
  - apply sample_deploys.
  - reflexivity.
  - apply sample_lawful.
  - apply sample_consistent.
  - apply sample_served.
  - apply good_day_flawless.
Defined.
End AtomicSamples.
