(* ===== verification/Rollback.v ===== *)
(** * Rollback: going back to an earlier version

    internal/deploy/rollback.go, rollback_plan.go, auto_rollback.go,
    rollback_history.go and rollback_verify.go.  A rollback is a deployment of a
    version that is built already: [executeRollbackLocked] settles what a secret
    deployment left, resolves the versions, runs the strategy of [BlueGreen] or
    [Rolling], records the outcome and observes the result when asked to.
    [PlanRollback] says beforehand what it would do; [RunAutoRollbackLocked] is
    the recovery after a failed deployment. *)

From S2P Require Import Prelude GoLib GoText HealthTiers FileStore ProxyRouting DeployState Versions Engine Lifecycle EnvStore SecretStore SecretPins SecretTxn.
From S2P Require Import BlueGreen Rolling Redact Errors.

(** ** Reasons *)

(** [strings.Fields], on the white space of ASCII. *)
Fixpoint fields_from (word : string) (s : string) : list string :=
  match s with
  | EmptyString => if word =s "" then [] else [word]
  | String c s =>
      if is_space c then (if word =s "" then fields_from "" s else word :: fields_from "" s)
      else fields_from (word +:+ String c "") s
  end.
Definition Fields (s : string) : list string := fields_from "" s.

(* src: internal/deploy/rollback_history.go MaxRollbackReasonLength *)
Definition MaxRollbackReasonLength : Z := 500.

(* src: internal/deploy/rollback_history.go MaxRollbackVerifyDuration *)
Definition MaxRollbackVerifyDuration : Z := 30 * Minute.

(* src: internal/deploy/rollback_history.go ValidateRollbackReason *)
Definition ValidateRollbackReason (reason : string) (explicit : bool) : res string :=
  let trimmed := TrimSpace reason in
  if trimmed =s "" then
    if explicit then Err (New CodeInvalidArgument "rollback reason cannot be empty") else Ok ""
  else
    let collapsed := Join (Fields trimmed) " " in
    if MaxRollbackReasonLength <? len (runes collapsed)
    then Err (New CodeInvalidArgument ("rollback reason too long: " +:+ Itoa (len (runes collapsed)) +:+
                                       " characters (max " +:+ Itoa MaxRollbackReasonLength +:+ ")"))
    else Ok collapsed.

(* src: internal/deploy/auto_rollback.go truncateReason *)
Definition truncateReason (s : string) : string :=
  let r := runes s in
  if len r <=? MaxRollbackReasonLength then s else Join (take (Z.to_nat MaxRollbackReasonLength) r) "".

(* src: internal/deploy/auto_rollback.go AutoRollbackReason *)
Definition AutoRollbackReason (failedVer : Z) (deployErr : option error) : string :=
  if 0 <? failedVer then
    match deployErr with
    | None => "Deployment v" +:+ Itoa failedVer +:+ " failed"
    | Some e => truncateReason ("Deployment v" +:+ Itoa failedVer +:+ " failed: " +:+ Error e)
    end
  else
    match deployErr with
    | None => "Deployment failed"
    | Some e => truncateReason ("Deployment failed: " +:+ Error e)
    end.

(** [cancelled]: the error is [context.Canceled] or [DeadlineExceeded] itself. *)
(* src: internal/deploy/auto_rollback.go RecoverableDeployFailure *)
Definition RecoverableDeployFailure (cancelled : bool) (e : option error) : bool :=
  match e with
  | None => false
  | Some _ =>
      if cancelled then false
      else match CodeOf e with
           | CodeInstanceStartFailed | CodeHealthCheckFailed | CodeCanaryRegression
           | CodeProxy | CodeConnection | CodeDeployFailed => true
           | _ => false
           end
  end.

(** ** History *)

(* src: internal/deploy/rollback_history.go RollbackVerification *)
Record RollbackVerification := mkVerification {
  RV_Requested : bool; RV_Duration : string; RV_Status : string; RV_Error : string; RV_At : Z
}.

(* src: internal/deploy/rollback_history.go RollbackHistoryRecord *)
Record RollbackHistoryRecord := mkHistory {
  RH_Time : Z; RH_App : string; RH_From : string; RH_To : string; RH_Status : string; RH_Mode : string;
  RH_Error : string; RH_Reason : string; RH_Source : string; RH_Verification : option RollbackVerification
}.

(* src: internal/deploy/rollback_history.go:47-50 RollbackSourceManual *)
Definition RollbackSourceManual := "manual".
Definition RollbackSourceAutomatic := "automatic".
(* src: internal/deploy/rollback_history.go:67-70 RollbackStatusSuccess *)
Definition RollbackStatusSuccess := "success".
Definition RollbackStatusFailed := "failed".
(* src: internal/deploy/rollback_history.go:73-77 RollbackVerifyPassed *)
Definition RollbackVerifyPassed := "passed".
Definition RollbackVerifyFailed := "failed".
Definition RollbackVerifyCancelled := "cancelled".

(** A line of the file: its length in bytes, and the record when it decodes. *)
Record history_line := mkLine { hl_bytes : Z; hl_record : option RollbackHistoryRecord }.

(** How far the write of a line gets. *)
Inductive appended := Appended (bytes : Z) | Torn (bytes : Z) | NotAppended.

Definition version_label (v : Z) : string := "v" +:+ Itoa v.

(** [redact]: [Redact] with the registry of the moment; [None]: it panicked. *)
(* src: internal/deploy/rollback_history.go:110-136 RecordRollbackResultSource *)
Definition history_record (redact : string → option string) (now : Z) (appName : string) (fromVer toVer : Z)
    (mode reason : string) (verification : option RollbackVerification) (runErr : option error) (source : string)
  : option RollbackHistoryRecord :=
  err ← match runErr with None => Some "" | Some e => redact (Error e) end;
  v ← match verification with
      | None => Some None
      | Some v => e ← redact (RV_Error v);
                  Some (Some (mkVerification (RV_Requested v) (RV_Duration v) (RV_Status v) e (RV_At v)))
      end;
  reason ← redact reason;
  Some (mkHistory now appName (version_label fromVer) (version_label toVer)
    (match runErr with None => RollbackStatusSuccess | Some _ => RollbackStatusFailed end) mode err reason source v).

(* src: internal/deploy/rollback_history.go RecordRollbackResultSource *)
Definition RecordRollbackResultSource (redact : string → option string) (now : Z) (write : appended) (appName : string)
    (fromVer toVer : Z) (mode reason : string) (verification : option RollbackVerification) (runErr : option error)
    (source : string) (file : list history_line) : option (list history_line) :=
  rec ← history_record redact now appName fromVer toVer mode reason verification runErr source;
  Some (match write with
        | Appended n => file ++ [mkLine n (Some rec)]
        | Torn n => file ++ [mkLine n None]
        | NotAppended => file
        end).

(** The scanner's buffer holds a line and its end. *)
Definition max_line : Z := 1024 * 1024.

(* src: internal/deploy/rollback_history.go:168-186 ReadRollbackHistory *)
Fixpoint read_lines (file : list history_line) : list RollbackHistoryRecord * Z * option error :=
  match file with
  | [] => ([], 0, None)
  | l :: file =>
      if max_line <=? hl_bytes l then ([], 0, Some (Foreign "bufio.Scanner: token too long" None))
      else
        let '(records, skipped, e) := read_lines file in
        if hl_bytes l =? 0 then (records, skipped, e)
        else match hl_record l with
             | Some rec => if RH_Time rec =? 0 then (records, skipped + 1, e) else (rec :: records, skipped, e)
             | None => (records, skipped + 1, e)
             end
  end.

(** [open]: an error of opening the file; [None] for the file: there is none. *)
(* src: internal/deploy/rollback_history.go ReadRollbackHistory *)
Definition ReadRollbackHistory (open : option error) (file : option (list history_line))
  : list RollbackHistoryRecord * Z * option error :=
  match file, open with
  | None, _ => ([], 0, None)
  | Some _, Some e => ([], 0, Some e)
  | Some file, None => read_lines file
  end.

(** ** The world of a rollback *)

(** What a rollback changes: the world of a deployment, the secret store, the
    registry of masked values, the log and the history. *)
Record rb_host := mkRb {
  rb_world : world;
  rb_secrets : option secret_dir;
  rb_registry : secretRegistry;
  rb_log : list string;
  rb_history : list history_line
}.

Definition rb_set_world (w : world) (h : rb_host) : rb_host :=
  mkRb w (rb_secrets h) (rb_registry h) (rb_log h) (rb_history h).
Definition rb_set_secrets (d : option secret_dir) (h : rb_host) : rb_host :=
  mkRb (rb_world h) d (rb_registry h) (rb_log h) (rb_history h).
Definition rb_set_registry (g : secretRegistry) (h : rb_host) : rb_host :=
  mkRb (rb_world h) (rb_secrets h) g (rb_log h) (rb_history h).
Definition rb_set_log (l : list string) (h : rb_host) : rb_host :=
  mkRb (rb_world h) (rb_secrets h) (rb_registry h) l (rb_history h).
Definition rb_set_history (l : list history_line) (h : rb_host) : rb_host :=
  mkRb (rb_world h) (rb_secrets h) (rb_registry h) (rb_log h) l.

(** A step: a result and the host; [None] is a panic. *)
Definition R (A : Type) : Type := rb_host → option (res A * rb_host).

Definition retR {A} (r : res A) : R A := λ h, Some (r, h).
Definition bindR {A B} (a : R A) (f : A → R B) : R B := λ h,
  match a h with
  | Some (Ok x, h) => f x h
  | Some (Err e, h) => Some (Err e, h)
  | None => None
  end.
Notation "'run' x <- a ; b" := (bindR a (λ x, b))
  (at level 10, x pattern, a at level 100, b at level 200) : phelix_scope.

(** A step of a deployment. *)
Definition liftM {A} (x : M A) : R A := λ h,
  let '(r, m) := x (mkMachine (rb_world h) (empty_state "" "" 0 ∅) false) in
  Some (r, rb_set_world (m_world m) h).

(** The error of a step as a value. *)
Definition attemptR {A} (a : R A) : R (res A) := λ h,
  match a h with Some (r, h) => Some (Ok r, h) | None => None end.

Definition on_host (f : rb_host → rb_host) : R unit := λ h, Some (Ok tt, f h).

(** ** Sources *)

(** [OtherSource]: a source that tells its target when it is known. *)
Inductive BuildSource :=
(* src: internal/deploy/source.go ExistingVersionSource *)
| ExistingVersionSource (version : Z)
| DockerVersionSource (version : Z)
| OtherSource (target : option Z).

(* src: internal/deploy/runtime.go RollbackSourceForRuntime *)
Definition RollbackSourceForRuntime (runtime : string) (version : Z) : BuildSource :=
  if IsDockerRuntime runtime then DockerVersionSource version else ExistingVersionSource version.

(* src: internal/deploy/docker_source.go DockerVersionSource.TargetVersion *)
Definition docker_TargetVersion (fl : vfaults) (app : string) (version : Z) (s : vstore) : Z :=
  if 0 <? version then version
  else match PreviousVersion fl app s with Ok v => v | Err _ => 0 end.

(* src: internal/deploy/rollback.go resolveRollbackTarget *)
Definition resolveRollbackTarget (fl : vfaults) (app : string) (requested : Z) (src : BuildSource) (s : vstore) : res Z :=
  toVer ← match src with
          | ExistingVersionSource v => if 0 <? v then Ok v else PreviousVersion fl app s
          | DockerVersionSource v => Ok (docker_TargetVersion fl app v s)
          | OtherSource (Some v) => Ok v
          | OtherSource None => Ok requested
          end;
  _ ← fail_if (toVer <=? 0) (New CodeRollbackTargetNotFound
        ("deploy: could not resolve rollback target version for " +:+ Quote app));
  match src with
  | ExistingVersionSource _ => _ ← VersionPaths fl app toVer s; Ok toVer
  | DockerVersionSource _ => _ ← DockerImageForVersion fl app toVer s; Ok toVer
  | OtherSource _ => Ok toVer
  end.

(* src: internal/deploy/rollback.go wrapRollbackError *)
Definition wrapRollbackError (e : error) (message : string) : error :=
  let code := match CodeOf (Some e) with
              | CodeUnknown | CodeDeployFailed => CodeRollbackFailed
              | c => c
              end in
  wrap code message e.

(** ** Observing the result *)

(* src: internal/deploy/rollback_verify.go VerifyTarget *)
Record VerifyTarget := mkVerifyTarget { vt_Label : string; vt_HostPort : string; vt_PID : Z }.

(* src: internal/deploy/rollback_verify.go servingTargets *)
Definition servingTargets (s : DeployState) : list VerifyTarget :=
  let add label (i : option Instance) :=
    match i with
    | Some i => if (negb (recorded i) || (I_Port i <=? 0) || (I_Status i <>s "running"))%bool then []
                else [mkVerifyTarget label (hostPort (I_Port i)) (I_PID i)]
    | None => []
    end in
  if D_Mode s =s ModeClassic then add "classic" (D_Slots s !! "classic")
  else if D_Mode s =s ModeBlueGreen then add ("slot " +:+ D_ActiveSlot s) (ActiveInstance s)
  else if D_Mode s =s ModeRolling then
    concat ((λ k, add ("replica " +:+ k) (D_Replicas s !! k)) <$> replicaIndices (D_Replicas s))
  else [].

(** What the n-th probe meets (a cancelled context before it or during it, the
    time left, its answer) and what the end of the n-th sweep finds. *)
Record watch := mkWatch {
  wt_cancelled : nat → option error;
  wt_remaining : nat → Z;
  wt_healthy : nat → VerifyTarget → bool;
  wt_interrupted : nat → option error;
  wt_late : nat → bool;
  wt_stopped : nat → option error
}.

Definition unhealthy_target (t : VerifyTarget) : error :=
  New CodeHealthCheckFailed ("instance " +:+ vt_Label t +:+ " (pid " +:+ Itoa (vt_PID t) +:+ ", " +:+
                             vt_HostPort t +:+ ") is unhealthy").

(** One sweep from the n-th probe on: the result of the observation when it ends
    here, or the next probe and the first failure so far. *)
(* src: internal/deploy/rollback_verify.go:133-152 VerifyRollbackStability *)
Fixpoint sweep (wt : watch) (n : nat) (failErr : option error) (targets : list VerifyTarget)
  : option error + nat * option error :=
  match targets with
  | [] => inr (n, failErr)
  | t :: targets =>
      match wt_cancelled wt n with
      | Some e => inl (Some e)
      | None =>
          if wt_remaining wt n <=? 0 then inl failErr
          else match wt_interrupted wt n with
               | Some e => inl (Some e)
               | None =>
                   let failErr := match failErr with
                                  | Some e => Some e
                                  | None => if wt_healthy wt n t then None else Some (unhealthy_target t)
                                  end in
                   sweep wt (S n) failErr targets
               end
      end
  end.

(* src: internal/deploy/rollback_verify.go:127-165 VerifyRollbackStability *)
Fixpoint observe (fuel : nat) (wt : watch) (k n : nat) (failErr : option error) (targets : list VerifyTarget)
  : option (option error) :=
  match fuel with
  | O => None
  | S fuel =>
      match sweep wt n failErr targets with
      | inl r => Some r
      | inr (n, failErr) =>
          if wt_late wt k then Some failErr
          else match wt_stopped wt k with
               | Some e => Some (Some e)
               | None => observe fuel wt (S k) n failErr targets
               end
      end
  end.

Definition verify_tick (duration : Z) : Z := Z.min duration DefaultTierInterval.
Definition verify_fuel (duration : Z) : nat := Z.to_nat (duration / verify_tick duration) + 2.

(** [explicit]: the targets of a classic rollback. *)
(* src: internal/deploy/rollback_verify.go VerifyRollbackStability *)
Definition VerifyRollbackStability (wt : watch) (app : string) (duration : Z) (explicit : list VerifyTarget) (l : loaded)
  : option (option error) :=
  if duration <=? 0 then Some (Some (New CodeInvalidArgument "deploy: verification duration must be positive"))
  else
    match explicit, l with
    | _ :: _, _ => observe (verify_fuel duration) wt 0 0 None explicit
    | [], Loaded s =>
        match servingTargets s with
        | [] => Some (Some (New CodeHealthCheckFailed
                  ("deploy: no running instance recorded for " +:+ Quote app +:+ "; nothing to verify")))
        | targets => observe (verify_fuel duration) wt 0 0 None targets
        end
    | [], _ => Some (Some (wrap CodeInvalidArgument
                 ("deploy: stability verification requires a zero-downtime deploy state for " +:+ Quote app)
                 (match l with LoadError e => e | _ => Foreign "file does not exist" None end)))
    end.

(** ** The transaction *)

(** [ro_Verify]: the window of the observation; [ro_Recovery]: the version that
    failed, for an automatic recovery. *)
(* src: internal/deploy/rollback.go RollbackOptions *)
Record RollbackOptions := mkRollback {
  ro_AppName : string;
  ro_AppID : string;
  ro_PublicPort : Z;
  ro_TargetVersion : Z;
  ro_ExpectedCurrentVersion : Z;
  ro_Replicas : Z;
  ro_Source : option BuildSource;
  ro_ProxyClient : bool;
  ro_Reason : string;
  ro_SourceTag : string;
  ro_Verify : option Z;
  ro_Recovery : option Z
}.

(** The deployment builds the resolved version. *)
Definition for_version (v : Z) (ev : env) : env :=
  mkEnv (e_now ev) (e_fs ev) (e_vfs ev) (e_os ev) (e_order ev) (e_ping ev) (e_status ev) (e_proxy ev) (e_build ev) v
    (e_overlay ev) (e_launch ev) (e_tier ev) (e_health ev) (e_oom ev) (e_stop ev) (e_port_available ev) (e_handoff ev)
    (e_released ev) (e_cancelled ev) (e_binary ev) (e_listens ev) (e_worker_stop ev) (e_verify ev).

Section Execute.
Variable ev : env.
(** The calls of the secret store, the launches, the socket ([SecretTxn]). *)
Variables (x : nat → calls) (view : nat → launches) (socket : nat → option error) (fuel : nat).
Context (open : string → string → string → option string) (hmac : string → string → string).
Variables (live : res (gset string)) (key : res string) (states : securityStates).
(** The context of the pin, the redactor, how far a line of the history gets, a time as text, the
    observation of the result. *)
Variables (pin_cancelled : nat → option error) (redact : secretRegistry → string → option string) (history : nat → appended) (log_opens : nat → bool).
Variables (rfc3339 : Z → string) (wt : watch).

Definition rb_tick : R nat := liftM tick.

(** [CommittedBindings] and [PinBindings] on the store of the host. *)
Definition rb_bindings (appID : string) : R (list Binding) :=
  run t <- rb_tick;
  λ h, let '(r, d) := CommittedBindings (x t) appID (rb_secrets h) in Some (r, rb_set_secrets d h).

Definition rb_pin (appID : string) (bindings : list Binding) : R PinnedSet :=
  run t <- rb_tick;
  λ h, let '(r, d, g) := PinBindings open hmac (x t) pin_cancelled live key states appID bindings
                           (rb_secrets h) (rb_registry h) in
       Some (r, rb_set_registry g (rb_set_secrets d h)).

(** The journal as it is read back: the field that is not exported is not in it. *)
Definition rb_load (app : string) : R loaded :=
  run t <- rb_tick;
  λ h, Some (Ok match Load (e_fs ev t) app (w_journal (rb_world h)) with
                | Loaded s => Loaded (stored_form s)
                | l => l
                end, h).

Definition rb_versions {A} (f : vfaults → vstore → res A) : R A :=
  run t <- rb_tick; λ h, Some (f (e_vfs ev t) (w_versions (rb_world h)), h).

(** The deploy state a rollback starts from. *)
(* src: internal/deploy/rollback.go:141-155 executeRollbackLocked *)
Definition load_deployed (app : string) : R DeployState :=
  run l <- rb_load app;
  retR match l with
       | NoState => Err (New CodeRollbackTargetNotFound ("deploy: no deploy state for " +:+ Quote app +:+
                      " — rollback requires a prior zero-downtime deploy"))
       | LoadError e => Err e
       | Loaded s =>
           if one_of (D_Mode s) [ModeBlueGreen; ModeRolling] then Ok s
           else Err (New CodeRollbackFailed ("deploy: rollback unsupported for mode " +:+ Quote (D_Mode s)))
       end.

(** The pinned set of the bindings in force; [None]: there are none. *)
(* src: internal/deploy/rollback.go:157-172 executeRollbackLocked *)
Definition pin_committed (opts : RollbackOptions) (s : DeployState) : R (option PinnedSet) :=
  run bindings <- rb_bindings (ro_AppID opts);
  if (negb (bool_decide (bindings = [])) || (D_SecretTxnID s <>s ""))%bool then
    run set <- rb_pin (ro_AppID opts) bindings;
    retR (Ok (Some (mkPinned (match ro_Recovery opts with Some _ => D_SecretTxnID s | None => PS_LaunchTxnID set end)
                      (PS_Bindings set) (PS_Resolved set) (PS_values set) (PS_held set) (PS_released set))))
  else retR (Ok None).

(* src: internal/deploy/rollback.go:174-203 executeRollbackLocked *)
Definition rollback_versions (opts : RollbackOptions) (s : DeployState) : R (Z * Z) :=
  let app := ro_AppName opts in
  run fromVer <- match ro_Recovery opts with
                 | Some failed => if 0 <? failed then retR (Ok failed) else rb_versions (λ fl v, CurrentVersion fl app v)
                 | None => rb_versions (λ fl v, CurrentVersion fl app v)
                 end;
  let checked := match ro_Recovery opts with Some failed => negb (0 <? failed) | None => true end in
  if (checked && (0 <? ro_ExpectedCurrentVersion opts) && negb (fromVer =? ro_ExpectedCurrentVersion opts))%bool then
    retR (Err (New CodeRollbackTargetNotFound ("deploy: current version changed from v" +:+
      Itoa (ro_ExpectedCurrentVersion opts) +:+ " to v" +:+ Itoa fromVer +:+
      " while rollback waited for the deploy lock; resolve the target again")))
  else
    let src := default (RollbackSourceForRuntime (D_Runtime s) (ro_TargetVersion opts)) (ro_Source opts) in
    run toVer <- rb_versions (λ fl v, resolveRollbackTarget fl app (ro_TargetVersion opts) src v);
    if (bool_decide (ro_Recovery opts = None) && (0 <? fromVer) && (toVer =? fromVer))%bool then
      retR (Err (New CodeRollbackTargetNotFound ("deploy: already running v" +:+ Itoa fromVer +:+
                                                "; nothing to roll back to")))
    else retR (Ok (fromVer, toVer)).

(** The strategies, as a rollback sets them up. *)
(* src: internal/deploy/rollback.go:252-269 executeRollbackLocked *)
Definition rollback_blue_green (opts : RollbackOptions) (s : DeployState) (set : option PinnedSet) : BlueGreen :=
  mkBlueGreen (ro_AppName opts) (ro_AppID opts) (if ro_PublicPort opts =? 0 then D_PublicPort s else ro_PublicPort opts)
    true (ro_ProxyClient opts) false "" "" (match set with Some _ => Some "" | None => None end).

(* src: internal/deploy/rollback.go:271-294 executeRollbackLocked *)
Definition rollback_rolling (opts : RollbackOptions) (s : DeployState) (set : option PinnedSet) : Rolling :=
  let replicas := if ro_Replicas opts <=? 0 then Z.of_nat (size (D_Replicas s)) else ro_Replicas opts in
  mkRolling (bool_decide (is_Some (ro_Recovery opts)) && bool_decide (is_Some set))%bool
    (ro_AppName opts) (ro_AppID opts) (D_PublicPort s) (if replicas <? 1 then 1 else replicas)
    true (ro_ProxyClient opts) false "" "" (match set with Some _ => Some "" | None => None end).

(** The deployment of the target, by the strategy of the record. *)
(* src: internal/deploy/rollback.go:251-298 executeRollbackLocked *)
Definition rollback_deploy (opts : RollbackOptions) (s : DeployState) (toVer : Z) (set : option PinnedSet) : R unit := λ h,
  let ev := for_version toVer ev in
  let '(r, w) := if D_Mode s =s ModeBlueGreen then BlueGreen.Deploy ev (rollback_blue_green opts s set) (rb_world h)
                 else Rolling.Deploy ev (rollback_rolling opts s set) (rb_world h) in
  Some (r, rb_set_world w h).

(** A line of the human log, [Success] being what the event says. *)
(* src: internal/deploy/rollback.go appendRollbackLog *)
Definition appendRollbackLog (now fromVer toVer : Z) (success : bool) (msg : string) : R unit :=
  run t <- rb_tick;
  λ h, if log_opens t then
         line ← redact (rb_registry h) (rfc3339 now +:+ " rollback v" +:+ Itoa fromVer +:+ " -> v" +:+ Itoa toVer +:+ " " +:+
                  (if success then "ok" else "FAILED: " +:+ msg) +:+ String (ascii_of_nat 10) "");
         Some (Ok tt, rb_set_log (rb_log h ++ [line]) h)
       else Some (Ok tt, h).

(** The record of the rollback in the journal. *)
(* src: internal/deploy/rollback.go:315-332 executeRollbackLocked *)
Definition commit_record (opts : RollbackOptions) (now fromVer toVer : Z) : R unit :=
  run l <- rb_load (ro_AppName opts);
  match l with
  | Loaded s =>
      run t <- rb_tick;
      λ h, let s := with_LastRollback (Some (mkRollbackRecord fromVer toVer now))
                      (with_SecretCleanupPending false (with_SecretTxnID "" s)) in
           let '(r, _, j) := DeployState.Store (e_fs ev t) (e_now ev t) s (w_journal (rb_world h)) in
           Some (match r with
                 | Ok _ => Ok tt
                 | Err e => Err (wrap CodeFilesystem "persist rollback record in deploy state" e)
                 end, rb_set_world (w_set_journal j (rb_world h)) h)
  | NoState => retR (Err (wrap CodeFilesystem "reload authoritative deploy state after rollback"
                            (Foreign "file does not exist" None)))
  | LoadError e => retR (Err (wrap CodeFilesystem "reload authoritative deploy state after rollback" e))
  end.

(** [context.Canceled] as the observation reports it. *)
Definition is_cancelled (e : error) : bool :=
  match Cause e with Foreign msg None => msg =s "context canceled" | _ => false end.

(** The observation of a committed rollback: its record, and the error of the
    command. *)
(* src: internal/deploy/rollback.go:344-375 executeRollbackLocked *)
Definition observe_rollback (opts : RollbackOptions) (toVer duration : Z) : R (RollbackVerification * option error) :=
  run l <- rb_load (ro_AppName opts);
  run t <- rb_tick;
  λ h, verr ← VerifyRollbackStability wt (ro_AppName opts) duration [] l;
       let rec status e := mkVerification true (duration_string duration) status e (e_now ev t) in
       Some (Ok match verr with
             | None => (rec RollbackVerifyPassed "", None)
             | Some e =>
                 if is_cancelled e then
                   (rec RollbackVerifyCancelled (Error e), Some (New CodeRollbackVerifyFailed
                     ("rollback verification cancelled; rollback to v" +:+ Itoa toVer +:+ " remains active")))
                 else
                   (rec RollbackVerifyFailed (Error e), Some (wrap CodeRollbackVerifyFailed
                     ("rollback to v" +:+ Itoa toVer +:+ " completed, but the application did not remain healthy during the " +:+
                      duration_string duration +:+ " verification window") e))
             end, h).

(** The end of the transaction: the error of the deployment, as the history
    tells it, the error of the command, and the observation.  [now] is the time
    of the event.  The journal record the deployment left is authoritative: the
    record loaded before is reaped in memory only and never written. *)
(* src: internal/deploy/rollback.go:299-377 executeRollbackLocked *)
Definition rollback_outcome (opts : RollbackOptions) (now fromVer toVer : Z) (deployed : res unit)
  : R (option error * option error * option RollbackVerification) :=
  match deployed with
  | Err e => retR (Ok (Some e, Some (wrapRollbackError e
               (match ro_Recovery opts with
                | Some _ => "automatic recovery failed; application state may require manual intervention"
                | None => "rollback failed"
                end)), None))
  | Ok _ =>
      run committed <- attemptR (commit_record opts now fromVer toVer);
      match committed with
      | Err e => retR (Ok (Some e, Some e, None))
      | Ok _ =>
          run _ <- (match ro_Recovery opts with
                    | None => appendRollbackLog now fromVer toVer false ""
                    | Some _ => retR (Ok tt)
                    end);
          match ro_Verify opts with
          | None => retR (Ok (None, None, None))
          | Some duration =>
              run v <- observe_rollback opts toVer duration;
              retR (Ok (None, v.2, Some v.1))
          end
      end
  end.

(** Who asked for the rollback, as the history tells it. *)
(* src: internal/deploy/rollback.go:241-247 executeRollbackLocked *)
Definition rollback_source (opts : RollbackOptions) : string :=
  if ro_SourceTag opts =s "" then
    match ro_Recovery opts with Some _ => RollbackSourceAutomatic | None => RollbackSourceManual end
  else ro_SourceTag opts.

(* src: internal/deploy/rollback.go:228-249 executeRollbackLocked *)
Definition record_outcome (opts : RollbackOptions) (mode : string) (fromVer toVer : Z) (deployErr : option error)
    (verify : option RollbackVerification) : R unit :=
  run t <- rb_tick;
  λ h, lines ← RecordRollbackResultSource (redact (rb_registry h)) (e_now ev t) (history t) (ro_AppName opts)
                 fromVer toVer mode (ro_Reason opts) verify deployErr (rollback_source opts) (rb_history h);
       Some (Ok tt, rb_set_history lines h).

(* src: internal/deploy/rollback.go:215-377 executeRollbackLocked *)
Definition rollback_run (opts : RollbackOptions) (s : DeployState) (set : option PinnedSet) (versions : Z * Z) : R unit :=
  let '(fromVer, toVer) := versions in
  run t <- rb_tick;
  run deployed <- attemptR (rollback_deploy opts s toVer set);
  run out <- rollback_outcome opts (e_now ev t) fromVer toVer deployed;
  run _ <- record_outcome opts (D_Mode s) fromVer toVer out.1.1 out.2;
  retR (match out.1.2 with Some e => Err e | None => Ok tt end).

(** The first reads of a rollback: what it starts from and where it goes. *)
(* src: internal/deploy/rollback.go:136-140 executeRollbackLocked *)
Definition rollback_preflight (opts : RollbackOptions) : R (DeployState * option PinnedSet) :=
  run _ <- (match ro_Recovery opts with
            | None =>
                λ h, match liftM (ReconcileSecretTxn ev x view socket fuel (ro_AppName opts) (ro_AppID opts) (rb_secrets h)) h with
                     | Some (Ok (_, r, d), h) => Some (r, rb_set_secrets d h)
                     | Some (Err e, h) => Some (Err e, h)
                     | None => None
                     end
            | Some _ => retR (Ok tt)
            end);
  run s <- load_deployed (ro_AppName opts);
  run set <- pin_committed opts s;
  retR (Ok (s, set)).

(* src: internal/deploy/rollback.go executeRollbackLocked *)
Definition executeRollbackLocked (opts : RollbackOptions) : R unit :=
  run start <- rollback_preflight opts;
  λ h, match (run versions <- rollback_versions opts start.1; rollback_run opts start.1 start.2 versions) h with
       | Some (r, h) => Some (r, match start.2 with
                                 | Some set => rb_set_registry (Close set (rb_registry h)).2 h
                                 | None => h
                                 end)
       | None => None
       end.

(** [lock]: why the deploy lock cannot be had. *)
(* src: internal/deploy/rollback.go ExecuteRollback *)
Definition ExecuteRollback (lock : option error) (opts : RollbackOptions) : R unit :=
  if ro_AppName opts =s "" then retR (Err (New CodeInvalidArgument "deploy: rollback requires app name"))
  else match lock with
       | Some e => retR (Err e)
       | None => executeRollbackLocked opts
       end.

(** ** Automatic recovery *)

(* src: internal/deploy/auto_rollback.go AutoRollbackOptions *)
Record AutoRollbackOptions := mkAuto {
  ao_AppName : string;
  ao_AppID : string;
  ao_PublicPort : Z;
  ao_ProxyClient : bool;
  ao_Replicas : Z;
  ao_FailedVersion : Z;
  ao_FailureReason : string
}.

(* src: internal/deploy/auto_rollback.go AutoRollbackResult *)
Record AutoRollbackResult := mkAutoResult {
  AR_FromVer : Z; AR_ToVer : Z; AR_Restored : bool; AR_AlreadyServing : bool; AR_Err : option error
}.

(* src: internal/deploy/auto_rollback.go AutoRollbackTarget *)
Definition AutoRollbackTarget (fl : vfaults) (app : string) (newVer : Z) (s : vstore) : res Z :=
  target ← LastKnownGoodVersion fl app s;
  _ ← fail_if ((0 <? newVer) && (target =? newVer))%bool (New CodeRollbackTargetNotFound
        ("deploy: the only known-good version for " +:+ Quote app +:+ " is the one that just failed (v" +:+
         Itoa newVer +:+ ")"));
  Ok target.

(* src: internal/deploy/auto_rollback.go failedVersionServing *)
Definition failedVersionServing (s : DeployState) (failedVer : Z) : bool :=
  if failedVer <=? 0 then false
  else existsb (λ i, recorded i && (I_Version i =? failedVer))%bool (all_instances s).

(* src: internal/deploy/auto_rollback.go RunAutoRollbackLocked *)
Definition RunAutoRollbackLocked (ao : AutoRollbackOptions) : R AutoRollbackResult :=
  run target <- attemptR (rb_versions (λ fl v, AutoRollbackTarget fl (ao_AppName ao) (ao_FailedVersion ao) v));
  match target with
  | Err e => retR (Ok (mkAutoResult (ao_FailedVersion ao) 0 false false (Some e)))
  | Ok target =>
      run l <- rb_load (ao_AppName ao);
      if match l with Loaded s => negb (failedVersionServing s (ao_FailedVersion ao)) | _ => false end then
        retR (Ok (mkAutoResult (ao_FailedVersion ao) target true true None))
      else
        run r <- attemptR (executeRollbackLocked (mkRollback (ao_AppName ao) (ao_AppID ao) (ao_PublicPort ao) target 0
                   (ao_Replicas ao) None (ao_ProxyClient ao) (ao_FailureReason ao) RollbackSourceAutomatic None
                   (Some (ao_FailedVersion ao))));
        retR (Ok match r with
              | Err e => mkAutoResult (ao_FailedVersion ao) target false false
                  (Some (wrap CodeAutoRollbackFailed ("automatic rollback to v" +:+ Itoa target +:+
                     " failed; previous known-good version could not be restored safely") e))
              | Ok _ => mkAutoResult (ao_FailedVersion ao) target true false None
              end)
  end.

(* src: internal/deploy/auto_rollback.go RunAutoRollback *)
Definition RunAutoRollback (lock : option error) (ao : AutoRollbackOptions) : R AutoRollbackResult :=
  match lock with
  | Some e => retR (Ok (mkAutoResult 0 0 false false (Some e)))
  | None => RunAutoRollbackLocked ao
  end.
End Execute.
