(* ===== verification/RollbackPlan.v ===== *)
(** * RollbackPlan: what a rollback would do

    internal/deploy/rollback_plan.go: the read-only description of a rollback
    that [rollback --dry-run] renders, from the reads the real one starts with. *)

From S2P Require Import Prelude GoLib GoText HealthTiers FileStore ProxyRouting DeployState Versions Engine Lifecycle SecretStore SecretPins SecretTxn.
From S2P Require Import BlueGreen Rolling Rollback Redact Errors.

(* src: internal/deploy/rollback_plan.go RollbackPlan *)
Record RollbackPlan := mkPlan {
  RP_AppName : string;
  RP_CurrentVersion : Z;
  RP_TargetVersion : Z;
  RP_TargetMeta : option VersionMeta;
  RP_CurrentMeta : option VersionMeta;
  RP_BinaryPath : string;
  RP_EnvSnapshotAvailable : bool;
  RP_EnvSummary : string;
  RP_Strategy : string;
  RP_Replicas : Z;
  RP_PublicPort : Z;
  RP_CurrentSlot : string;
  RP_TargetSlot : string;
  RP_CurrentPort : Z;
  RP_HealthCheck : string;
  RP_Downtime : bool;
  RP_Steps : list string;
  RP_Warnings : list string
}.

(* src: internal/deploy/rollback_plan.go RollbackPlanInput *)
Record RollbackPlanInput := mkInput {
  in_Target : Z; in_ClassicRunning : bool; in_ClassicPort : Z; in_ClassicDestBin : string
}.

(* src: internal/deploy/bluegreen.go DefaultGracePeriod *)
Definition DefaultGracePeriod : Z := 30 * Second.

(* src: internal/deploy/rollback_plan.go findVersionMeta *)
Definition findVersionMeta (vf : list VersionMeta) (ver : Z) : option VersionMeta :=
  List.find (λ v, V_Version v =? ver) vf.

(* src: internal/deploy/rollback_plan.go describeRollbackHealth *)
Definition describeRollbackHealth (cfg : option DeployTierConfig) : string :=
  match cfg with
  | None => "auto (no endpoint configured; selected when the instance starts)"
  | Some c =>
      let tier1 := "Tier 1 (" +:+ DT_Path c +:+ ", 2xx required)" in
      if DT_Mode c =s TierModeNone then Tier_String Tier3None
      else if DT_Mode c =s TierModeTCPOnly then Tier_String Tier3TCP
      else if DT_Path c <>s "" then tier1
      else if DT_Mode c =s TierModeHTTP then Tier_String Tier2HTTPAny
      else "auto (Tier 2/3; selected when the instance starts)"
  end.

Section Plan.
(** The configuration of the health checks of the application, the answer of the
    proxy daemon (no socket path, or whether it answers), the holder of the
    deploy lock when its file exists. *)
Variables (health : option DeployTierConfig) (proxy : option bool) (holder : option (string * Z)).

Section Steps.
Variables (target : Z) (bin env : string).

Definition v_target : string := "v" +:+ Itoa target.

(* src: internal/deploy/rollback_plan.go RollbackPlan.envNote *)
Definition env_summary : string := v_target +:+ (if env =s "" then " snapshot missing" else " snapshot available").
Definition env_warnings : list string :=
  if env =s "" then [v_target +:+ " environment snapshot is missing; the rollback will start without restored env (the current environment applies)"]
  else [].

Definition promote_step : string := "Promote " +:+ v_target +:+ " as current (versions.json + current symlink)".
Definition load_steps : list string :=
  ["Ensure the proxy daemon is running"; "Load the " +:+ v_target +:+ " artifact (" +:+ bin +:+ ")"].
Definition env_step (without : string) : string :=
  if env =s "" then without
  else "Restore the " +:+ v_target +:+ " environment snapshot (env/" +:+ v_target +:+ ".enc)".

(* src: internal/deploy/rollback_plan.go RollbackPlan.planClassic *)
Definition classic_steps (inp : RollbackPlanInput) : list string :=
  (if in_ClassicRunning inp then ["Stop the current instance"] else []) ++
  ["Copy the " +:+ v_target +:+ " binary to " +:+ in_ClassicDestBin inp;
   "Start the application on port " +:+ Itoa (in_ClassicPort inp); promote_step].

(* src: internal/deploy/rollback_plan.go RollbackPlan.planBlueGreen *)
Definition blue_green_steps (s : DeployState) : list string :=
  let slot := InactiveSlot s in
  let grace := if D_GraceSeconds s <=? 0 then DefaultGracePeriod / Second else D_GraceSeconds s in
  load_steps ++
  [env_step "Start the new instance with the current environment (no snapshot to restore)";
   "Start the new instance on the inactive slot " +:+ slot +:+ " (internal port assigned at startup)";
   "Run health checks against the new instance";
   if D_ActiveSlot s =s "" then
     "Enrol the app with the proxy on public port " +:+ Itoa (D_PublicPort s) +:+ " → slot " +:+ slot
   else "Switch proxy traffic on public port " +:+ Itoa (D_PublicPort s) +:+ " from slot " +:+ D_ActiveSlot s +:+
        " to slot " +:+ slot;
   promote_step] ++
  (if D_ActiveSlot s <>s "" then
     ["Drain and stop the old slot " +:+ D_ActiveSlot s +:+ " instance (grace " +:+ Itoa grace +:+ "s)"] else []).

(* src: internal/deploy/rollback_plan.go RollbackPlan.planRolling *)
Definition rolling_steps (s : DeployState) : list string :=
  let keys := match replicaIndices (D_Replicas s) with [] => ["0"] | keys => keys end in
  load_steps ++
  [env_step "Start the replacements with the current environment (no snapshot to restore)"] ++
  ((λ key, match D_Replicas s !! key with
           | Some inst =>
               if 0 <? I_PID inst then
                 "Replace replica " +:+ key +:+ ": start a replacement alongside pid " +:+ Itoa (I_PID inst) +:+
                 ", health-check it, swap proxy membership, drain the old instance"
               else "Replica " +:+ key +:+ ": start an instance, health-check it, add it to the proxy rotation"
           | None => "Replica " +:+ key +:+ ": start an instance, health-check it, add it to the proxy rotation"
           end) <$> keys) ++
  [promote_step].
End Steps.

(* src: internal/deploy/rollback_plan.go RollbackPlan.checkProxyReachability *)
Definition proxy_warnings : list string :=
  match proxy with
  | Some false => ["Proxy daemon is not reachable; the rollback will start it first (phelix proxy)"]
  | _ => []
  end.

(* src: internal/deploy/rollback_plan.go RollbackPlan.warnIfDeployLocked *)
Definition lock_warnings : list string :=
  match holder with
  | Some (op, pid) => ["A " +:+ Quote op +:+ " operation (pid " +:+ Itoa pid +:+
      ") holds the deploy lock; the rollback will be rejected until it finishes"]
  | None => []
  end.

(* src: internal/deploy/rollback_plan.go RollbackPlan.warnOnDistance *)
Definition distance_warnings (cur target : Z) : list string :=
  if ((0 <? cur) && (5 <=? cur - target))%bool
  then ["Target version is " +:+ Itoa (cur - target) +:+ " versions behind current"] else [].

(** The plan by strategy; the common warnings come last. *)
(* src: internal/deploy/rollback_plan.go:116-136 PlanRollback *)
Definition plan_for (app : string) (inp : RollbackPlanInput) (cur : Z) (vf : list VersionMeta) (bin env : string)
    (l : loaded) : res RollbackPlan :=
  let target := in_Target inp in
  let plan strategy replicas port slot target_slot slot_port check downtime available summary steps warnings :=
    Ok (mkPlan app cur target (findVersionMeta vf target) (findVersionMeta vf cur) bin available summary strategy
          replicas port slot target_slot slot_port check downtime steps
          (warnings ++ lock_warnings ++ distance_warnings cur target)) in
  let classic := plan "classic" 0 0 "" "" 0 "none (classic rollback starts without deploy health checks)"
    (in_ClassicRunning inp) false "live environment (classic rollback does not restore versioned snapshots)"
    (classic_steps target inp) [] in
  match l with
  | LoadError e => Err e
  | NoState => classic
  | Loaded s =>
      if ((D_Mode s =s "") || (D_Mode s =s ModeClassic))%bool then classic
      else if D_Mode s =s ModeBlueGreen then
        plan ModeBlueGreen 0 (D_PublicPort s) (D_ActiveSlot s) (InactiveSlot s)
          (match ActiveInstance s with Some i => I_Port i | None => 0 end) (describeRollbackHealth health) false
          (env <>s "") (env_summary target env) (blue_green_steps target bin env s)
          (env_warnings target env ++ proxy_warnings)
      else if D_Mode s =s ModeRolling then
        plan ModeRolling (Z.max 1 (Z.of_nat (size (D_Replicas s)))) (D_PublicPort s) "" "" 0
          (describeRollbackHealth health) false (env <>s "") (env_summary target env) (rolling_steps target bin env s)
          (env_warnings target env ++ proxy_warnings)
      else Err (New CodeRollbackFailed ("deploy: rollback unsupported for mode " +:+ Quote (D_Mode s)))
  end.

(* src: internal/deploy/rollback_plan.go PlanRollback *)
Definition PlanRollback (vfl : vfaults) (fl : faults) (app : string) (inp : RollbackPlanInput) (v : vstore) (j : journal)
  : res RollbackPlan :=
  let cur := match CurrentVersion vfl app v with Ok c => c | Err _ => 0 end in
  _ ← fail_if ((0 <? cur) && (in_Target inp =? cur))%bool (New CodeRollbackTargetNotFound
        ("deploy: already running v" +:+ Itoa cur +:+ "; nothing to roll back to"));
  vf ← LoadVersions vfl app v;
  _ ← fail_if (negb (versionExists vf (in_Target inp))) (New CodeVersionNotFound
        ("deploy: version v" +:+ Itoa (in_Target inp) +:+ " does not exist for " +:+ Quote app +:+ "; available: " +:+
         formatAvailableVersions vf));
  paths ← VersionPaths vfl app (in_Target inp) v;
  plan_for app inp cur vf paths.1 paths.2 (Load fl app j).
End Plan.
