(* ===== verification/RollbackSafety.v ===== *)
(** * RollbackSafety: what a rollback guarantees

    How a rollback ends: refused by its checks, or told in one line as the
    deployment it ran ended; and that one of an application without secrets
    never interrupts service.  Recovery, dry run and observation are in
    [RollbackChecks]. *)

From S2P Require Import Prelude GoLib GoText HealthTiers FileStore ProxyRouting DeployState Versions Engine Traffic.
From S2P Require Import Lifecycle EnvStore SecretStore SecretPins SecretTxn BlueGreen BlueGreenSafety Rolling RollingSafety.
From S2P Require Import Rollback RollbackPlan Redact Errors.

(** ** Steps of a rollback *)

(** [endsR a Q h]: where [a] ends from [h], if it does not panic, [Q] holds. *)
Definition endsR {A} (a : R A) (Q : res A → rb_host → Prop) (h : rb_host) : Prop :=
  ∀ r h', a h = Some (r, h') → Q r h'.

Lemma endsR_ret {A} (r : res A) Q h : Q r h → endsR (retR r) Q h.
Proof. by intros HQ ? ? [= <- <-]. Qed.

Lemma endsR_bind {A B} (a : R A) (f : A → R B) Q h :
  endsR a (λ r h', match r with Ok y => endsR (f y) Q h' | Err e => Q (Err e) h' end) h →
  endsR (bindR a f) Q h.
Proof.
  intros Ha r h'. unfold bindR. destruct (a h) as [[[y|e] h1]|] eqn:E; [| |done].
  - exact (Ha (Ok y) h1 E r h').
  - intros [= <- <-]. exact (Ha (Err e) h1 E).
Qed.

Lemma endsR_attempt {A} (a : R A) Q h :
  endsR a (λ r h', Q (Ok r) h') h → endsR (attemptR a) Q h.
Proof. intros Ha r h'. unfold attemptR. destruct (a h) as [[r1 h1]|] eqn:E; [|done]. intros [= <- <-]. by apply Ha. Qed.

Lemma endsR_mono {A} (a : R A) (Q Q' : res A → rb_host → Prop) h :
  endsR a Q h → (∀ r h', Q r h' → Q' r h') → endsR a Q' h.
Proof. intros Ha HQ r h' E. apply HQ, (Ha _ _ E). Qed.

(** A step that leaves part of the host alone. *)
Definition keepsR {A B} (part : rb_host → B) (a : R A) : Prop := ∀ h, endsR a (λ _ h', part h' = part h) h.

Lemma keepsR_ret {A B} (part : rb_host → B) (r : res A) : keepsR part (retR r).
Proof. intros h. by apply endsR_ret. Qed.

Lemma keepsR_bind {A B C} (part : rb_host → C) (a : R A) (f : A → R B) :
  keepsR part a → (∀ y, keepsR part (f y)) → keepsR part (bindR a f).
Proof.
  intros Ha Hf h. apply endsR_bind. eapply endsR_mono; [apply Ha|]. intros [y|e] h1 Hh; [|done].
  eapply endsR_mono; [apply Hf|]. cbn beta. intros ? h2 Hh2. by rewrite Hh2.
Qed.

Lemma keepsR_attempt {A B} (part : rb_host → B) (a : R A) : keepsR part a → keepsR part (attemptR a).
Proof. intros Ha h. apply endsR_attempt, Ha. Qed.

(** A step that leaves a part alone by its definition. *)
Lemma keepsR_step {A B} (part : rb_host → B) (f : rb_host → option (res A * rb_host)) :
  (∀ h r h', f h = Some (r, h') → part h' = part h) → keepsR part f.
Proof. intros Hf h r h' E. by eapply Hf. Qed.

Section Rollback.
Context (ev : env) (x : nat → calls) (view : nat → launches) (socket : nat → option error) (fuel : nat).
Context (open : string → string → string → option string) (hmac : string → string → string).
Context (live : res (gset string)) (key : res string) (states : securityStates).
Context (pin_cancelled : nat → option error) (redact : secretRegistry → string → option string).
Context (history : nat → appended) (log_opens : nat → bool) (rfc3339 : Z → string) (wt : watch).

#[local] Abbreviation rollback_run := (rollback_run ev redact history log_opens rfc3339 wt).
#[local] Abbreviation rollback_preflight := (rollback_preflight ev x view socket fuel open hmac live key states pin_cancelled).
#[local] Abbreviation executeRollbackLocked := (executeRollbackLocked ev x view socket fuel open hmac live key states
  pin_cancelled redact history log_opens rfc3339 wt).
#[local] Abbreviation rollback_outcome := (rollback_outcome ev redact log_opens rfc3339 wt).

(** *** What is left of the host *)

(** A part of the host that reading and pinning leave alone. *)
Record reading {B} (part : rb_host → B) : Prop := {
  reading_tick : ∀ t h, part (rb_set_world (w_set_tick t (rb_world h)) h) = part h;
  reading_secrets : ∀ d h, part (rb_set_secrets d h) = part h;
  reading_registry : ∀ g h, part (rb_set_registry g h) = part h
}.

(** The world but for its clock. *)
Definition still (h : rb_host) : world := w_set_tick 0 (rb_world h).

Lemma reading_history : reading rb_history.
Proof. by split. Qed.
Lemma reading_still : reading still.
Proof. by split. Qed.

Lemma keepsR_tick {B} (part : rb_host → B) : reading part → keepsR part rb_tick.
Proof. intros Hp. apply keepsR_step. intros h r h' [= <- <-]. by apply reading_tick. Qed.

Lemma keepsR_load {B} (part : rb_host → B) app : reading part → keepsR part (rb_load ev app).
Proof.
  intros Hp. apply keepsR_bind; [by apply keepsR_tick|]. intros t. apply keepsR_step. by intros h r h' [= <- <-].
Qed.

Lemma keepsR_versions {A B} (part : rb_host → B) (f : vfaults → vstore → res A) :
  reading part → keepsR part (rb_versions ev f).
Proof.
  intros Hp. apply keepsR_bind; [by apply keepsR_tick|]. intros t. apply keepsR_step. by intros h r h' [= <- <-].
Qed.

Lemma keepsR_pin {B} (part : rb_host → B) opts s :
  reading part → keepsR part (pin_committed x open hmac live key states pin_cancelled opts s).
Proof.
  intros Hp. apply keepsR_bind.
  - apply keepsR_bind; [by apply keepsR_tick|]. intros t. apply keepsR_step. intros h r h'.
    destruct (CommittedBindings _ _ _). intros [= <- <-]. by apply reading_secrets.
  - intros b. destruct (_ || _)%bool; [|apply keepsR_ret]. apply keepsR_bind; [|intros; apply keepsR_ret].
    apply keepsR_bind; [by apply keepsR_tick|]. intros t. apply keepsR_step. intros h r h'.
    destruct (PinBindings _ _ _ _ _ _ _ _ _ _ _) as [[? ?] ?]. intros [= <- <-].
    by rewrite (reading_registry _ Hp), (reading_secrets _ Hp).
Qed.

(** After [ReconcileSecretTxn], which a recovery leaves out, a rollback reads. *)
Lemma preflight_keeps {B} (part : rb_host → B) opts :
  reading part → (ro_Recovery opts = None → ∀ w h, part (rb_set_world w h) = part h) →
  keepsR part (rollback_preflight opts).
Proof.
  intros Hp Hw. unfold Rollback.rollback_preflight. apply keepsR_bind.
  - destruct (ro_Recovery opts); [apply keepsR_ret|]. specialize (Hw eq_refl). apply keepsR_step. intros h r h'. unfold liftM.
    destruct (ReconcileSecretTxn _ _ _ _ _ _ _ _ _) as [[[[? r1] d]|e] m]; intros [= <- <-];
      by rewrite ?(reading_secrets _ Hp), Hw.
  - intros _. apply keepsR_bind.
    + apply keepsR_bind; [by apply keepsR_load|]. intros; apply keepsR_ret.
    + intros s. apply keepsR_bind; [by apply keepsR_pin|]. intros; apply keepsR_ret.
Qed.

Lemma preflight_history opts : keepsR rb_history (rollback_preflight opts).
Proof. by apply preflight_keeps; [apply reading_history|]. Qed.

Lemma versions_keep {B} (part : rb_host → B) opts s : reading part → keepsR part (rollback_versions ev opts s).
Proof.
  intros Hp. unfold rollback_versions. apply keepsR_bind.
  { destruct (ro_Recovery opts) as [f|]; [destruct (0 <? f)|]; try apply keepsR_ret; by apply keepsR_versions. }
  intros from. destruct (_ && _)%bool; [apply keepsR_ret|].
  apply keepsR_bind; [by apply keepsR_versions|]. intros to. destruct (_ && _)%bool; apply keepsR_ret.
Qed.

Lemma versions_history opts s : keepsR rb_history (rollback_versions ev opts s).
Proof. apply versions_keep, reading_history. Qed.

(** *** The commit *)

(** A step of the end of a rollback leaves the routes, the versions and what
    happened to the instances alone. *)
Definition aside (w w' : world) : Prop :=
  w_route w' = w_route w ∧ w_versions w' = w_versions w ∧ w_log w' = w_log w.

Lemma aside_trans w1 w2 w3 : aside w1 w2 → aside w2 w3 → aside w1 w3.
Proof. intros (H1 & H2 & H3) (? & ? & ?). unfold aside. by rewrite <- H1, <- H2, <- H3. Qed.

(** From [j] to [j'] the journal only records the rollback, and that no secret
    transaction is open. *)
Definition rolled_back (app : string) (now from to : Z) (j j' : journal) : Prop :=
  ∃ s at_, j !! deploy_json = Some (Data s) ∧ D_AppName s = app ∧
    j' !! deploy_json = Some (Data (with_UpdatedAt at_ (with_LastRollback (Some (mkRollbackRecord from to now))
      (with_SecretCleanupPending false (with_SecretTxnID "" (stored_form s)))))).

(** Why the record may not get into the journal [j]. *)
Definition commit_refused (app : string) (j : journal) : Prop :=
  (∀ t o, e_fs ev t o = None) → ∀ t s, Load (e_fs ev t) app j ≠ Loaded s.

Lemma Load_named fl app j s : Load fl app j = Loaded s →
  j !! deploy_json = Some (Data s) ∧ D_AppName s = app ∧ ValidateAppName app = Ok tt.
Proof.
  unfold Load. destruct (ValidateAppName app) as [[]|]; [|done]. destruct (j !! deploy_json) as [d|]; [|done].
  destruct (fl op_read); [done|]. destruct d as [|d]; [done|]. destruct (_ || _)%bool eqn:E; [done|].
  intros [= <-]. by bool_prop.
Qed.

Lemma commit_recorded opts now from to h :
  endsR (commit_record ev opts now from to) (λ r h', rb_history h' = rb_history h ∧ aside (rb_world h) (rb_world h') ∧
    match r with
    | Ok _ => rolled_back (ro_AppName opts) now from to (w_journal (rb_world h)) (w_journal (rb_world h'))
    | Err _ => commit_refused (ro_AppName opts) (w_journal (rb_world h))
    end) h.
Proof.
  unfold commit_record. apply endsR_bind. unfold rb_load. apply endsR_bind. intros r1 h1 [= <- <-].
  intros r2 h2 [= <- <-]. set (h3 := rb_set_world _ h). change (w_journal (rb_world h3)) with (w_journal (rb_world h)).
  destruct (Load _ _ _) as [s| |e] eqn:El; cbn [rb_world].
  2,3: apply endsR_ret; split_and!; [done..|]; intros Hf t s; unfold Load in *;
    rewrite Hf in *; destruct (ValidateAppName _); [|done]; destruct (_ !! _) as [[]|]; [done| |done];
    by destruct (_ || _)%bool.
  pose proof El as El'. apply Load_named in El as (Hd & Hn & Hv). apply endsR_bind. intros r4 h4 [= <- <-]. intros r h' E.
  set (s' := with_LastRollback _ _) in E.
  assert (storable s') as Hs by (split; [by rewrite <- Hn in Hv|done]).
  pose proof (Store_cases (e_fs ev (w_tick (rb_world h3))) (e_now ev (w_tick (rb_world h3))) s'
                (w_journal (rb_world h3)) Hs) as Hc.
  pose proof (Store_no_faults (e_fs ev (w_tick (rb_world h3))) (e_now ev (w_tick (rb_world h3))) s'
                (w_journal (rb_world h3))) as Hno.
  cbn -[DeployState.Store] in E, Hc, Hno. destruct (DeployState.Store _ _ _ _) as [[rs s''] j']. injection E as <- <-.
  split_and!; [done..|]. destruct rs as [[]|].
  - destruct Hc as [-> Hj]. exists s, (e_now ev (S (w_tick (rb_world h)))). split_and!; [done..|]. exact Hj.
  - intros Hf. specialize (Hno (Hf _) Hs). done.
Qed.

(** *** The outcome *)

(** What a deployment that ended with [dr] in the world [w] leads to: the error
    of the history, the error of the command and the observation, in [w']. *)
Definition concluded (opts : RollbackOptions) (now from to : Z) (dr : res unit) (w : world)
    (o : option error * option error * option RollbackVerification) (w' : world) : Prop :=
  aside w w' ∧
  match dr with
  | Err e => w_journal w' = w_journal w ∧ o = (Some e, Some (wrapRollbackError e (match ro_Recovery opts with
      | Some _ => "automatic recovery failed; application state may require manual intervention"
      | None => "rollback failed" end)), None)
  | Ok _ =>
      (∃ e, o = (Some e, Some e, None) ∧ commit_refused (ro_AppName opts) (w_journal w)) ∨
      (o.1.1 = None ∧ rolled_back (ro_AppName opts) now from to (w_journal w) (w_journal w') ∧
       match ro_Verify opts with
       | None => o.1.2 = None ∧ o.2 = None
       | Some _ => ∃ v, o.2 = Some v ∧ RV_Requested v = true ∧ (RV_Status v = RollbackVerifyPassed ↔ o.1.2 = None)
       end)
  end.

Lemma observe_told opts to duration h :
  endsR (observe_rollback ev wt opts to duration) (λ r h', rb_history h' = rb_history h ∧
    aside (rb_world h) (rb_world h') ∧ w_journal (rb_world h') = w_journal (rb_world h) ∧
    ∃ v e, r = Ok (v, e) ∧ RV_Requested v = true ∧ (RV_Status v = RollbackVerifyPassed ↔ e = None)) h.
Proof.
  unfold observe_rollback, rb_load. apply endsR_bind, endsR_bind. intros r1 h1 [= <- <-].
  intros r2 h2 [= <- <-]. apply endsR_bind. intros r3 h3 [= <- <-]. intros r h'. simpl.
  destruct (VerifyRollbackStability _ _ _ _ _) as [[e|]|]; cbn [mbind option_bind]; [| |done].
  - intros [= <- <-]. split_and!; [done..|]. destruct (is_cancelled e); eexists _, _; (split; [done|]); simpl;
      (split; [done|]); by split.
  - intros [= <- <-]. split_and!; [done..|]. eexists _, _; split; [done|]. by split.
Qed.

Lemma outcome_told opts now from to deployed h :
  endsR (rollback_outcome opts now from to deployed) (λ r h', rb_history h' = rb_history h ∧ ∃ o, r = Ok o ∧
    concluded opts now from to deployed (rb_world h) o (rb_world h')) h.
Proof.
  unfold Rollback.rollback_outcome. destruct deployed as [[]|e].
  2: { apply endsR_ret. split; [done|]. by eexists. }
  apply endsR_bind, endsR_attempt. eapply endsR_mono; [apply commit_recorded|].
  intros [[]|e] h1 (Hh & Ha & Hj).
  2: { apply endsR_ret. split; [done|]. eexists; split; [done|]. split; [done|]. left. by eexists. }
  apply endsR_bind.
  assert (endsR (match ro_Recovery opts with
                 | Some _ => retR (Ok tt)
                 | None => appendRollbackLog redact log_opens rfc3339 now from to false ""
                 end) (λ r h', (∃ u, r = Ok u) ∧ rb_history h' = rb_history h ∧ aside (rb_world h1) (rb_world h') ∧
                               w_journal (rb_world h') = w_journal (rb_world h1)) h1) as Hlog.
  { destruct (ro_Recovery opts); [apply endsR_ret; split; [by eexists|done]|]. unfold appendRollbackLog. apply endsR_bind.
    intros r2 h2 [= <- <-]. intros r h'. destruct (log_opens _).
    - destruct (redact _ _); [|done]. intros [= <- <-]. split; [by eexists|done].
    - intros [= <- <-]. split; [by eexists|done]. }
  eapply endsR_mono; [exact Hlog|]. intros r2 h2 ([u ->] & Hh2 & Ha2 & Hj2). rewrite <- Hj2 in Hj. clear Hlog.
  pose proof (aside_trans _ _ _ Ha Ha2) as Ha'.
  destruct (ro_Verify opts) as [duration|] eqn:Hv.
  2: { apply endsR_ret. split; [done|]. eexists; split; [done|]. split; [done|]. right. by rewrite Hv. }
  apply endsR_bind. eapply endsR_mono; [by apply observe_told|].
  intros r3 h3 (Hh3 & Ha3 & Hj3 & v & e & -> & Hq & Hp). apply endsR_ret. split; [by rewrite Hh3|].
  eexists. split; [done|]. split; [by eapply aside_trans|]. right. rewrite Hv, Hj3. split; [done|]. split; [done|].
  exists v. split; [done|]. by split.
Qed.

(** *** The record of the history *)

(** [aimed opts from to]: where the options take a rollback. *)
Definition aimed (opts : RollbackOptions) (from to : Z) : Prop :=
  0 < to ∧ (ro_Source opts = None → 0 < ro_TargetVersion opts → to = ro_TargetVersion opts) ∧
  (∀ failed, ro_Recovery opts = Some failed → 0 < failed → from = failed) ∧
  (ro_Recovery opts = None → 0 < from → to ≠ from).

(** What a line says: [headed] for its subject, [errors_as] for its error. *)
Definition headed (opts : RollbackOptions) (mode : string) (from to : Z) (rec : RollbackHistoryRecord) : Prop :=
  RH_App rec = ro_AppName opts ∧ RH_Source rec = rollback_source opts ∧ RH_Mode rec = mode ∧
  RH_From rec = version_label from ∧ RH_To rec = version_label to.

Definition errors_as (rec : RollbackHistoryRecord) (e : option error) : Prop :=
  match e with
  | None => RH_Status rec = RollbackStatusSuccess ∧ RH_Error rec = ""
  | Some e => RH_Status rec = RollbackStatusFailed ∧ RH_Verification rec = None ∧ ∃ g, redact g (Error e) = Some (RH_Error rec)
  end.

(** The strategy of the record, set up for the target and run from [w]. *)
Definition deploys (opts : RollbackOptions) (s : DeployState) (set : option PinnedSet) (to : Z)
    (w : world) (dr : res unit) (w' : world) : Prop :=
  (D_Mode s = ModeBlueGreen ∧ BlueGreen.Deploy (for_version to ev) (rollback_blue_green opts s set) w = (dr, w')) ∨
  (D_Mode s = ModeRolling ∧ Rolling.Deploy (for_version to ev) (rollback_rolling opts s set) w = (dr, w')).

(** [told opts from to dr w r w' rec]: after a deployment that ended with [dr] in
    [w], the command ends with [r] in [w'], and the line [rec] tells it. *)
Definition told (opts : RollbackOptions) (from to : Z) (dr : res unit) (w : world)
    (r : res unit) (w' : world) (rec : RollbackHistoryRecord) : Prop :=
  aside w w' ∧
  match dr with
  | Err e => errors_as rec (Some e) ∧ w_journal w' = w_journal w ∧
      r = Err (wrapRollbackError e (match ro_Recovery opts with
        | Some _ => "automatic recovery failed; application state may require manual intervention"
        | None => "rollback failed" end))
  | Ok _ =>
      (∃ e, errors_as rec (Some e) ∧ r = Err e ∧ commit_refused (ro_AppName opts) (w_journal w)) ∨
      (errors_as rec None ∧ (∃ now, rolled_back (ro_AppName opts) now from to (w_journal w) (w_journal w')) ∧
       match ro_Verify opts with
       | None => RH_Verification rec = None ∧ r = Ok tt
       | Some _ => ∃ v, RH_Verification rec = Some v ∧ RV_Requested v = true ∧ (RV_Status v = RollbackVerifyPassed ↔ r = Ok tt)
       end)
  end.

(** What the write of the line leaves of it. *)
Definition written_as (write : appended) (rec : RollbackHistoryRecord) : list history_line :=
  match write with Appended n => [mkLine n (Some rec)] | Torn n => [mkLine n None] | NotAppended => [] end.

Lemma resolved_positive fl app requested src v to :
  resolveRollbackTarget fl app requested src v = Ok to → 0 < to ∧ ∀ n, 0 < n →
    (src = ExistingVersionSource n ∨ src = DockerVersionSource n) → to = n.
Proof.
  unfold resolveRollbackTarget. intros H. destruct (match src with ExistingVersionSource _ => _ | DockerVersionSource _ => _ | OtherSource _ => _ end)
    as [t|e] eqn:Et; cbn in H; [|done].
  destruct (t <=? 0) eqn:Hle; [done|]. apply Z.leb_gt in Hle.
  assert (to = t) as ->.
  { revert H. cbn. destruct src; [destruct (VersionPaths _ _ _ _)|destruct (DockerImageForVersion _ _ _ _)|]; cbn; congruence. }
  split; [done|]. intros n Hn [-> | ->]; revert Et.
  - rewrite (proj2 (Z.ltb_lt _ _) Hn). congruence.
  - unfold docker_TargetVersion. rewrite (proj2 (Z.ltb_lt _ _) Hn). congruence.
Qed.

Lemma versions_aimed opts s h :
  endsR (rollback_versions ev opts s) (λ r h', rb_history h' = rb_history h ∧
    ∀ from to, r = Ok (from, to) → aimed opts from to) h.
Proof.
  intros r h' E. split; [by eapply versions_history|]. revert r h' E.
  assert (endsR (rollback_versions ev opts s) (λ r _, ∀ from to, r = Ok (from, to) → aimed opts from to) h) as H; [|exact H].
  unfold rollback_versions. apply endsR_bind.
  eapply (endsR_mono _ (λ r _, ∀ from, r = Ok from → ∀ failed, ro_Recovery opts = Some failed → 0 < failed → from = failed)).
  { destruct (ro_Recovery opts) as [f|]; [destruct (Z.ltb_spec 0 f)|]; try (by intros r h' _ from _).
    - apply endsR_ret. intros from [= <-] failed [= <-] _. done.
    - intros r h' _ from _ failed [= <-]. lia. }
  intros [from|e] h1 Hfrom; [|done]. specialize (Hfrom from eq_refl). destruct (_ && _)%bool; [by apply endsR_ret|].
  apply endsR_bind. intros r h2. unfold rb_versions, bindR. cbn. intros [= <- <-].
  destruct (resolveRollbackTarget _ _ _ _ _) as [to|e] eqn:Er; [|done]. apply resolved_positive in Er as [Hto Hn].
  destruct (_ && _)%bool eqn:Eq; [by apply endsR_ret|]. apply endsR_ret. intros f t [= <- <-]. split_and!; [done| |done|].
  - intros Hs Ht. apply Hn; [done|]. rewrite Hs. simpl. unfold RollbackSourceForRuntime. destruct (IsDockerRuntime _); auto.
  - intros Hr Hf ->. rewrite Hr, bool_decide_eq_true_2, Z.eqb_refl, (proj2 (Z.ltb_lt _ _) Hf) in Eq by done. done.
Qed.

Lemma history_record_says now opts mode from to v e rec g :
  history_record (redact g) now (ro_AppName opts) from to mode (ro_Reason opts) v e (rollback_source opts) = Some rec →
  (is_Some e → v = None) →
  headed opts mode from to rec ∧ errors_as rec e ∧
  match v, RH_Verification rec with
  | None, None => True
  | Some v, Some v' => RV_Requested v' = RV_Requested v ∧ RV_Status v' = RV_Status v
  | _, _ => False
  end.
Proof.
  unfold history_record. intros E Hv.
  destruct e as [e|]; [destruct (redact _ (Error e)) as [er|] eqn:Er; [|done]|];
    (destruct v as [v|]; cbn in E; [destruct (redact _ (RV_Error v)) as [ve|]; cbn in E; [|done]|]);
    (destruct (redact _ (ro_Reason opts)) as [rs|]; cbn in E; [|done]); injection E as <-; simpl;
    (split; [by split_and!|]); (split; [|done]); try done.
  - by specialize (Hv (mk_is_Some _ _ eq_refl)).
  - split_and!; eauto.
Qed.

Lemma record_told opts mode now from to dr w o h :
  concluded opts now from to dr w o (rb_world h) →
  endsR (record_outcome ev redact history opts mode from to o.1.1 o.2) (λ r h', ∃ t rec,
    r = Ok tt ∧ rb_history h' = rb_history h ++ written_as (history t) rec ∧ headed opts mode from to rec ∧
    told opts from to dr w (match o.1.2 with Some c => Err c | None => Ok tt end) (rb_world h') rec) h.
Proof.
  intros Hc. unfold record_outcome. apply endsR_bind. intros r1 h1 [= <- <-]. intros r h'. cbn beta.
  unfold RecordRollbackResultSource. destruct (history_record _ _ _ _ _ _ _ _ _ _) as [rec|] eqn:Er; [|done].
  intros [= <- <-]. exists (w_tick (rb_world h)), rec. split; [done|].
  split. { simpl. destruct (history _); cbn; by rewrite ?app_nil_r. }
  apply history_record_says in Er as (Hh & He & Hv).
  2: { destruct Hc as [_ Hc]. intros [e Hs]. destruct dr as [[]|e']; [|by destruct Hc as [_ ->]].
       destruct Hc as [(e' & -> & _)|(Hn & _)]; [done|]. by rewrite Hn in Hs. }
  split; [exact Hh|]. destruct Hc as [Ha Hc]. split; [exact Ha|]. destruct dr as [[]|e].
  - destruct Hc as [(e & -> & Hcr)|(Hn & Hrb & Hver)].
    { left. exists e. by split_and!. }
    right. rewrite Hn in He. split; [done|]. split; [by eexists|]. destruct (ro_Verify opts).
    + destruct Hver as (v & Ho & Hq & Hp). rewrite Ho in Hv. destruct (RH_Verification rec) as [v'|]; [|done].
      exists v'. destruct Hv as [-> ->]. split; [done|]. split; [done|]. rewrite Hp. by destruct (o.1.2).
    + destruct Hver as [-> Ho]. rewrite Ho in Hv. by destruct (RH_Verification rec).
  - destruct Hc as (Hj & ->). by split_and!.
Qed.

(** A rollback that comes to its deployment tells it in one line. *)
Lemma run_recorded opts s set from to h :
  D_Mode s = ModeBlueGreen ∨ D_Mode s = ModeRolling →
  endsR (rollback_run opts s set (from, to)) (λ r h', ∃ t0 dr w t rec,
    deploys opts s set to (w_set_tick t0 (rb_world h)) dr w ∧
    rb_history h' = rb_history h ++ written_as (history t) rec ∧ headed opts (D_Mode s) from to rec ∧
    told opts from to dr w r (rb_world h') rec) h.
Proof.
  intros Hm. unfold Rollback.rollback_run. apply endsR_bind. intros r1 h1 [= <- <-].
  apply endsR_bind, endsR_attempt. intros dr h2 Ed.
  set (w1 := w_set_tick (S (w_tick (rb_world h))) (rb_world h)).
  assert (deploys opts s set to w1 dr (rb_world h2) ∧ rb_history h2 = rb_history h) as [Hd Hh2].
  { revert Ed. unfold rollback_deploy, deploys. destruct Hm as [Hm|Hm]; rewrite Hm; simpl.
    - destruct (BlueGreen.Deploy _ _ _) as [r w] eqn:E. intros [= <- <-]. split; [by left|done].
    - destruct (Rolling.Deploy _ _ _) as [r w] eqn:E. intros [= <- <-]. split; [by right|done]. }
  cbn beta. apply endsR_bind. eapply endsR_mono; [apply outcome_told|]. intros r3 h3 (Hh3 & o & -> & Hc).
  apply endsR_bind. eapply endsR_mono; [by eapply (record_told opts (D_Mode s))|].
  intros r4 h4 (t & rec & -> & Hh4 & Hhead & Ht). apply endsR_ret.
  exists (S (w_tick (rb_world h))), dr, (rb_world h2), t, rec. split_and!; [exact Hd| |exact Hhead|exact Ht].
  by rewrite Hh4, Hh3, Hh2.
Qed.

(** The checks of a rollback: the record and the pins it starts from, and the
    versions it goes between. *)
Definition rollback_checks (opts : RollbackOptions) : R (DeployState * option PinnedSet * (Z * Z)) :=
  run start <- rollback_preflight opts;
  run versions <- rollback_versions ev opts start.1;
  retR (Ok (start, versions)).

(** The record a rollback starts from is the one of the journal. *)
Lemma load_deployed_record app h : endsR (load_deployed ev app)
  (λ r h', ∀ s, r = Ok s → (D_Mode s = ModeBlueGreen ∨ D_Mode s = ModeRolling) ∧
     ∃ s0, w_journal (rb_world h) !! deploy_json = Some (Data s0) ∧ s = stored_form s0) h.
Proof.
  unfold load_deployed, rb_load. apply endsR_bind, endsR_bind. intros r1 h1 [= <- <-]. intros r2 h2 [= <- <-]. apply endsR_ret.
  intros s. change (w_journal _) with (w_journal (rb_world h)).
  destruct (Load _ _ _) as [s'| |] eqn:El; [|done..]. apply Load_named in El as (Hd & _).
  destruct (one_of _ _) eqn:Em; [|done]. intros [= <-].
  split; [|by exists s']. apply one_of_true in Em. apply elem_of_cons in Em as [Em|Em]; [by left|].
  apply list_elem_of_singleton in Em. by right.
Qed.

Lemma preflight_record opts h : endsR (rollback_preflight opts)
  (λ r _, ∀ y, r = Ok y → (D_Mode y.1 = ModeBlueGreen ∨ D_Mode y.1 = ModeRolling) ∧
     (is_Some (ro_Recovery opts) → ∃ s0, w_journal (rb_world h) !! deploy_json = Some (Data s0) ∧ y.1 = stored_form s0)) h.
Proof.
  unfold Rollback.rollback_preflight. apply endsR_bind. intros r1 h1 E1. destruct r1 as [[]|e]; [|done].
  apply endsR_bind. eapply endsR_mono; [apply load_deployed_record|]. intros [s|e] h2 Hm; [|done].
  apply endsR_bind. intros r3 h3 _. destruct r3 as [set|e]; [|done]. apply endsR_ret. intros y [= <-].
  destruct (Hm s eq_refl) as [Hmode Hrec]. split; [done|]. intros [f Hf]. rewrite Hf in E1. by injection E1 as <-.
Qed.

(** How a rollback of the host [h] ends. *)
Definition rollback_ends (opts : RollbackOptions) (h : rb_host) (r : res unit) (h' : rb_host) : Prop :=
  ∃ c h1, rollback_checks opts h = Some (c, h1) ∧ rb_history h1 = rb_history h ∧
  match c with
  | Err e => r = Err e ∧ rb_world h' = rb_world h1 ∧ rb_secrets h' = rb_secrets h1 ∧ rb_history h' = rb_history h
  | Ok (s, set, (from, to)) =>
      aimed opts from to ∧ ∃ t0 dr w t rec,
        deploys opts s set to (w_set_tick t0 (rb_world h1)) dr w ∧
        rb_history h' = rb_history h ++ written_as (history t) rec ∧ headed opts (D_Mode s) from to rec ∧
        told opts from to dr w r (rb_world h') rec
  end.

Lemma locked_ends opts h : endsR (executeRollbackLocked opts) (rollback_ends opts h) h.
Proof.
  intros r h' E. unfold Rollback.executeRollbackLocked, bindR at 1 in E. unfold rollback_ends, rollback_checks, bindR at 1.
  destruct (rollback_preflight opts h) as [[[[s set]|e] h1]|] eqn:Ep; [| |done].
  2: { injection E as <- <-. eexists _, h1. split; [done|]. by rewrite (preflight_history _ _ _ _ Ep). }
  pose proof (preflight_history _ _ _ _ Ep) as Hh1. cbn beta in Hh1. destruct (preflight_record _ _ _ _ Ep _ eq_refl) as [Hm _].
  cbn [fst snd] in E, Hm |- *. unfold bindR at 1 in E. unfold bindR at 1.
  destruct (rollback_versions ev opts s h1) as [[[[from to]|e] h2]|] eqn:Ev; [| |done];
    destruct (versions_aimed _ _ _ _ _ Ev) as [Hh2 Ha]; cbn beta in Hh2.
  2: { injection E as <- <-. eexists _, h2. split; [done|]. rewrite Hh2, Hh1. split; [done|]. destruct set; split_and!; simpl; congruence. }
  eexists _, h2. split; [done|]. rewrite Hh2, Hh1. split; [done|]. split; [by apply Ha|].
  destruct (rollback_run opts s set (from, to) h2) as [[r3 h3]|] eqn:Er; [|done]. injection E as <- <-.
  destruct (run_recorded _ _ _ _ _ _ Hm _ _ Er) as (t0 & dr & w & t & rec & Hd & Hh3 & Hhead & Ht).
  rewrite Hh2, Hh1 in Hh3. exists t0, dr, w, t, rec. split_and!; [exact Hd| |exact Hhead|]; by destruct set.
Qed.

(** The checks of a recovery only read: what it deploys over is the host it was
    called on, and the record is the one of its journal. *)
Lemma recovery_checks_read opts h c h1 :
  is_Some (ro_Recovery opts) → rollback_checks opts h = Some (c, h1) →
  still h1 = still h ∧ ∀ start versions, c = Ok (start, versions) →
    ∃ s0, w_journal (rb_world h) !! deploy_json = Some (Data s0) ∧ start.1 = stored_form s0.
Proof.
  intros Hr. unfold rollback_checks. unfold bindR at 1.
  destruct (rollback_preflight opts h) as [[[start|e] h2]|] eqn:Ep; [| |done].
  - pose proof (preflight_keeps still opts reading_still ltac:(intros Hn; rewrite Hn in Hr; by destruct Hr) h _ _ Ep) as Hs.
    destruct (preflight_record _ _ _ _ Ep _ eq_refl) as [_ Hrec]. specialize (Hrec Hr). cbn beta in Hs.
    unfold bindR. destruct (rollback_versions ev opts start.1 h2) as [[[v|e] h3]|] eqn:Ev; [| |done];
      pose proof (versions_keep still opts start.1 reading_still h2 _ _ Ev) as Hs2; cbn beta in Hs2;
      intros [= <- <-]; (split; [congruence|]); [|done]. by intros st vs [= <- <-].
  - intros [= <- <-]. split; [|done].
    by apply (preflight_keeps still opts reading_still ltac:(intros Hn; rewrite Hn in Hr; by destruct Hr) h _ _ Ep).
Qed.
End Rollback.

(** ** Traffic

    Of an application without secrets, from the record [s0]. *)

Section Calm.
Context (ev : env) (x : nat → calls) (view : nat → launches) (socket : nat → option error) (fuel : nat).
Context (open : string → string → string → option string) (hmac : string → string → string).
Context (live : res (gset string)) (key : res string) (states : securityStates).
Context (pin_cancelled : nat → option error) (redact : secretRegistry → string → option string).
Context (history : nat → appended) (log_opens : nat → bool) (rfc3339 : Z → string) (wt : watch).
Context (s0 : DeployState) (w0 : world).

#[local] Abbreviation executeRollbackLocked := (executeRollbackLocked ev x view socket fuel open hmac live key states
  pin_cancelled redact history log_opens rfc3339 wt).
#[local] Abbreviation rollback_preflight := (rollback_preflight ev x view socket fuel open hmac live key states pin_cancelled).

(** No secret transaction is stamped and no instance of one is to be drained. *)
Definition without_secrets (s : DeployState) : Prop :=
  D_SecretTxnID s = "" ∧ D_SecretCleanupPending s = false ∧ D_Retiring s = [].

(** Nothing but time has passed since [w0]. *)
Definition calm (h : rb_host) : Prop :=
  rb_secrets h = None ∧ w_journal (rb_world h) !! deploy_json = Some (Data s0) ∧
  w_route (rb_world h) = w_route w0 ∧ w_log (rb_world h) = w_log w0.

Lemma calm_tick h r h' : calm h → rb_tick h = Some (r, h') → r = Ok (w_tick (rb_world h)) ∧ calm h'.
Proof. by intros Hc [= <- <-]. Qed.

Lemma calm_load app h : calm h → endsR (rb_load ev app) (λ r h', calm h' ∧
  ∃ l, r = Ok l ∧ ∀ s, l = Loaded s → s = stored_form s0) h.
Proof.
  intros Hc. apply endsR_bind. intros r1 h1 [-> Hc1]%calm_tick; [|done]. intros r h' [= <- <-]. split; [done|].
  eexists. split; [done|]. intros s. destruct Hc1 as (_ & Hj & _). unfold Load. rewrite Hj.
  destruct (ValidateAppName app); [|done]. destruct (e_fs ev _ op_read); [done|]. destruct (_ || _)%bool; [done|]. by intros [= <-].
Qed.

Lemma calm_versions {A} (f : vfaults → vstore → res A) h : calm h → endsR (rb_versions ev f) (λ _ h', calm h') h.
Proof. intros Hc. apply endsR_bind. intros r1 h1 [-> Hc1]%calm_tick; [|done]. by intros r h' [= <- <-]. Qed.

Lemma calm_reconcile opts h : without_secrets s0 → calm h →
  endsR (λ h, match liftM (ReconcileSecretTxn ev x view socket fuel (ro_AppName opts) (ro_AppID opts) (rb_secrets h)) h with
              | Some (Ok (_, r, d), h) => Some (r, rb_set_secrets d h)
              | Some (Err e, h) => Some (Err e, h)
              | None => None
              end) (λ _ h', calm h') h.
Proof.
  intros (Hi & Hp & Hr) Hc r h'. pose proof Hc as (Hs & Hj & Hrt & Hl). rewrite Hs. unfold liftM, ReconcileSecretTxn.
  destruct (appid_Valid (ro_AppID opts)); simpl.
  2: { by intros [= <- <-]. }
  unfold Open. destruct (storePath _) as [path|e]; simpl.
  2: { by intros [= <- <-]. }
  unfold load_state. cbn -[Load]. destruct (Load _ _ _) as [s| |e] eqn:El; cbn -[Load].
  2,3: by intros [= <- <-].
  assert (s = s0) as ->.
  { revert El. unfold Load. rewrite Hj. destruct (ValidateAppName _); [|done]. destruct (e_fs ev _ op_read); [done|].
    destruct (_ || _)%bool; [done|]. by intros [= <-]. }
  rewrite Hi, Hp, Hr. simpl. by intros [= <- <-].
Qed.

Lemma calm_preflight opts h : without_secrets s0 → calm h →
  endsR (rollback_preflight opts) (λ r h', calm h' ∧ ∀ s set, r = Ok (s, set) → s = stored_form s0 ∧ set = None ∧
    (D_Mode s0 = ModeBlueGreen ∨ D_Mode s0 = ModeRolling)) h.
Proof.
  intros Hw Hc. unfold Rollback.rollback_preflight. apply endsR_bind.
  assert (endsR (match ro_Recovery opts with
    | None => λ h, match liftM (ReconcileSecretTxn ev x view socket fuel (ro_AppName opts) (ro_AppID opts) (rb_secrets h)) h with
                   | Some (Ok (_, r, d), h) => Some (r, rb_set_secrets d h)
                   | Some (Err e, h) => Some (Err e, h)
                   | None => None
                   end
    | Some _ => retR (Ok tt)
    end) (λ _ h', calm h') h) as Hrec.
  { destruct (ro_Recovery opts); [by apply endsR_ret|by apply calm_reconcile]. }
  eapply endsR_mono; [exact Hrec|]. clear h Hc Hrec. intros [[]|e] h Hc; [|done]. apply endsR_bind.
  unfold load_deployed. apply endsR_bind. eapply endsR_mono; [by apply calm_load|].
  clear h Hc. intros r1 h (Hc & l & -> & Hl). apply endsR_ret. destruct l as [s| |e]; [|done..].
  specialize (Hl s eq_refl) as ->. destruct (one_of _ [ModeBlueGreen; _]) eqn:Em; [|done].
  apply one_of_true in Em. change (D_Mode (stored_form s0)) with (D_Mode s0) in Em. apply endsR_bind. unfold pin_committed, rb_bindings. apply endsR_bind, endsR_bind.
  intros r2 h2 [-> Hc2]%calm_tick; [|done]. intros r3 h3. destruct Hc2 as (Hs2 & Hrest). rewrite Hs2. unfold CommittedBindings.
  assert (∀ b : list Binding, b = [] → endsR (if (negb (bool_decide (b = [])) || (D_SecretTxnID (stored_form s0) <>s ""))%bool
    then run set <- rb_pin x open hmac live key states pin_cancelled (ro_AppID opts) b;
         retR (Ok (Some (mkPinned (match ro_Recovery opts with Some _ => D_SecretTxnID (stored_form s0) | None => PS_LaunchTxnID set end)
                      (PS_Bindings set) (PS_Resolved set) (PS_values set) (PS_held set) (PS_released set))))
    else retR (Ok None)) (λ r h', match r with
      | Ok y => endsR (retR (Ok (stored_form s0, y))) (λ r h', calm h' ∧ ∀ s set, r = Ok (s, set) → s = stored_form s0 ∧ set = None ∧
                  (D_Mode s0 = ModeBlueGreen ∨ D_Mode s0 = ModeRolling)) h'
      | Err e => calm h' ∧ ∀ (s : DeployState) (set : option PinnedSet), Err e = Ok (s, set) → s = stored_form s0 ∧ set = None ∧ (D_Mode s0 = ModeBlueGreen ∨ D_Mode s0 = ModeRolling)
      end) (rb_set_secrets None h2)) as Hb.
  { intros b ->. destruct Hw as (Hi & _). simpl. rewrite Hi. simpl. apply endsR_ret, endsR_ret. split; [by split|].
    intros s set [= <- <-]. split_and!; [done..|]. apply elem_of_cons in Em as [Em|Em]; [by left|].
    apply list_elem_of_singleton in Em. by right. }
  unfold Open. intros E.
  assert (r3 = Ok [] ∧ h3 = rb_set_secrets None h2 ∨ (∃ e, r3 = Err e) ∧ h3 = rb_set_secrets None h2) as [[-> ->]|[[e ->] ->]].
  { revert E. destruct (negb (appid_Valid _)); [by intros [= <- <-]; left|].
    destruct (storePath _); intros [= <- <-]; [by left|right; eauto]. }
  - by apply Hb.
  - by split.
Qed.

Lemma calm_version_step opts s h : calm h → endsR (rollback_versions ev opts s) (λ _ h', calm h') h.
Proof.
  intros Hc. unfold rollback_versions. apply endsR_bind. eapply (endsR_mono _ (λ _ h', calm h')).
  { destruct (ro_Recovery opts) as [f|]; [destruct (0 <? f)|]; try (by apply endsR_ret); by apply calm_versions. }
  clear h Hc. intros [from|e] h Hc; [|done]. destruct (_ && _)%bool; [by apply endsR_ret|].
  apply endsR_bind. eapply endsR_mono; [by apply calm_versions|].
  clear h Hc. intros [to|e] h Hc; [|done]. destruct (_ && _)%bool; by apply endsR_ret.
Qed.

(** *** The deployment *)

Context (opts : RollbackOptions).

(** What is known of the environment and of the record, by the strategy. *)
Definition known : Prop :=
  (D_Mode s0 = ModeBlueGreen → BlueGreenSafety.lawful ev w0 s0 ∧ BlueGreenSafety.consistent w0 s0) ∧
  (D_Mode s0 = ModeRolling → RollingSafety.lawful ev w0 s0 ∧
     RollingSafety.agrees ev (rollback_rolling opts (stored_form s0) None) w0 s0 ∧
     r_Replicas (rollback_rolling opts (stored_form s0) None) < 2 ^ 63).

(** Since [w0] no instance was stopped while it took traffic. *)
Definition uncut (h : rb_host) : Prop :=
  ∃ l, w_log (rb_world h) = w_log w0 ++ l ∧ trace_ok true (trace_start (w_route w0)) l = true.

Lemma calm_uncut h : calm h → uncut h.
Proof. intros (_ & _ & _ & Hl). exists []. by rewrite app_nil_r. Qed.

Lemma LoadOrInit_Data fl app mode port (j : journal) s :
  j !! deploy_json = Some (Data s0) → LoadOrInit fl app mode port j = Ok s → s = s0.
Proof.
  intros Hj. unfold LoadOrInit, Load. rewrite Hj. destruct (ValidateAppName app); [|done].
  destruct (fl op_read); [done|]. destruct (_ || _)%bool; [done|]. by intros [= <-].
Qed.

Lemma blue_green_uncut ver port h :
  known → D_Mode s0 = ModeBlueGreen → calm h → bg_Source port = true →
  uncut (rb_set_world (BlueGreen.Deploy (for_version ver ev) port (rb_world h)).2 h).
Proof.
  intros [Hk _] Hm Hc Hsrc. destruct (Hk Hm) as [Hl Hco]. pose proof Hc as (_ & Hj & Hr & Hlog).
  destruct (LoadOrInit (e_fs ev (w_tick (rb_world h))) (bg_AppName port) ModeBlueGreen (bg_PublicPort port) (w_journal (rb_world h)))
    as [s|e] eqn:El.
  - assert (s = s0) as -> by by eapply LoadOrInit_Data.
    destruct (BlueGreenSafety.Deploy_traced (for_version ver ev) port true (rb_world h) s0) as (R & (l & Hl' & Hok & _) & _).
    + exact El.
    + destruct Hl as [? Hu ?]. unfold BlueGreenPhases.old_hosts in *. rewrite <- Hr in Hu. by split.
    + intros _. destruct Hco as [Ho Ha]. unfold BlueGreenPhases.old_hosts in *. rewrite <- Hr in Ho, Ha. by split.
    + by left.
    + exists l. rewrite <- Hlog, <- Hr. by split.
  - apply calm_uncut. unfold BlueGreen.Deploy. rewrite Hsrc. cbn [negb]. cbv zeta. cbn [w_journal w_set_tick for_version e_fs].
    by rewrite El.
Qed.

Lemma rolling_uncut ver h :
  known → D_Mode s0 = ModeRolling → calm h →
  uncut (rb_set_world (Rolling.Deploy (for_version ver ev) (rollback_rolling opts (stored_form s0) None) (rb_world h)).2 h).
Proof.
  intros [_ Hk] Hm Hc. destruct (Hk Hm) as (Hl & Hag & Hn). pose proof Hc as (_ & Hj & Hr & Hlog).
  set (r := rollback_rolling opts (stored_form s0) None) in *.
  destruct (LoadOrInit (e_fs ev (w_tick (rb_world h))) (r_AppName r) ModeRolling (r_PublicPort r) (w_journal (rb_world h)))
    as [s|e] eqn:El.
  - assert (s = s0) as -> by by eapply LoadOrInit_Data.
    destruct (RollingSafety.rolling_Deploy_traced (for_version ver ev) r true (rb_world h) s0) as (R & (l & Hl' & Hok & _) & _).
    + exact El.
    + destruct Hl as [? ? ? Hu ? ?]. unfold BlueGreenPhases.old_hosts in *. rewrite <- Hr in Hu. by split.
    + destruct Hag as [? ? Ho ? Ha]. unfold BlueGreenPhases.old_hosts in *. rewrite <- Hr in Ho, Ha. by split.
    + done.
    + subst r. unfold rollback_rolling. cbn [r_atomicSecretRecovery]. by rewrite andb_false_r.
    + done.
    + by left.
    + exists l. rewrite <- Hlog, <- Hr. by split.
  - apply calm_uncut. unfold Rolling.Deploy. change (r_Source r) with true. cbn [negb]. cbv zeta.
    cbn [w_journal w_set_tick for_version e_fs]. by rewrite El.
Qed.

Lemma uncut_keeps {A} (a : R A) h : keepsR (λ h, w_log (rb_world h)) a → uncut h → endsR a (λ _ h', uncut h') h.
Proof. intros Ha Hu. eapply endsR_mono; [apply Ha|]. intros r h' Hh. unfold uncut. by rewrite Hh. Qed.

(** *** What follows the deployment *)

#[local] Abbreviation log_of := (λ h, w_log (rb_world h)).

Lemma keeps_log_load app : keepsR log_of (rb_load ev app).
Proof. apply keepsR_bind; [by apply keepsR_step; intros h r h' [= <- <-]|]. intros t. apply keepsR_step. by intros h r h' [= <- <-]. Qed.

Lemma keeps_log_tick : keepsR log_of rb_tick.
Proof. apply keepsR_step. by intros h r h' [= <- <-]. Qed.

Lemma outcome_keeps_log now from to deployed :
  keepsR log_of (rollback_outcome ev redact log_opens rfc3339 wt opts now from to deployed).
Proof.
  unfold rollback_outcome. destruct deployed as [[]|e]; [|apply keepsR_ret]. apply keepsR_bind.
  - apply keepsR_attempt, keepsR_bind; [apply keeps_log_load|]. intros [s| |e]; [|apply keepsR_ret..].
    apply keepsR_bind; [apply keeps_log_tick|]. intros t. apply keepsR_step. intros h r h'.
    cbv zeta. destruct (DeployState.Store _ _ _ _) as [[? ?] ?]. by intros [= <- <-].
  - intros [[]|e]; [|apply keepsR_ret]. apply keepsR_bind.
    + destruct (ro_Recovery opts); [apply keepsR_ret|]. apply keepsR_bind; [apply keeps_log_tick|]. intros t.
      apply keepsR_step. intros h r h'. destruct (log_opens t); [|by intros [= <- <-]].
      destruct (redact _ _); [|done]. by intros [= <- <-].
    + intros _. destruct (ro_Verify opts) as [d|]; [|apply keepsR_ret]. apply keepsR_bind; [|intros; apply keepsR_ret].
      apply keepsR_bind; [apply keeps_log_load|]. intros l. apply keepsR_bind; [apply keeps_log_tick|]. intros t.
      apply keepsR_step. intros h r h'. destruct (VerifyRollbackStability _ _ _ _ _) as [v|]; [|done].
      by intros [= <- <-].
Qed.

Lemma record_keeps_log mode from to e v : keepsR log_of (record_outcome ev redact history opts mode from to e v).
Proof.
  apply keepsR_bind; [apply keeps_log_tick|]. intros t. apply keepsR_step. intros h r h'.
  cbv zeta. destruct (RecordRollbackResultSource _ _ _ _ _ _ _ _ _ _ _); [|done]. by intros [= <- <-].
Qed.

Lemma run_uncut from to h :
  known → D_Mode s0 = ModeBlueGreen ∨ D_Mode s0 = ModeRolling → calm h →
  endsR (rollback_run ev redact history log_opens rfc3339 wt opts (stored_form s0) None (from, to)) (λ _ h', uncut h') h.
Proof.
  intros Hk Hm Hc. unfold rollback_run. apply endsR_bind. intros r1 h1 [-> Hc1]%calm_tick; [|done].
  apply endsR_bind, endsR_attempt. intros r2 h2 E.
  assert (uncut h2) as Hu.
  { revert E. unfold rollback_deploy. change (D_Mode (stored_form s0)) with (D_Mode s0).
    destruct Hm as [Hm|Hm]; rewrite Hm; simpl.
    - pose proof (blue_green_uncut to (rollback_blue_green opts (stored_form s0) None) h1 Hk Hm Hc1 eq_refl) as Hb.
      destruct (BlueGreen.Deploy _ _ _). by intros [= <- <-].
    - pose proof (rolling_uncut to h1 Hk Hm Hc1) as Hb. destruct (Rolling.Deploy _ _ _). by intros [= <- <-]. }
  cbn beta. apply endsR_bind. eapply endsR_mono; [by apply uncut_keeps; [apply outcome_keeps_log|]|].
  intros [o|e] h3 Hu3; [|done]. apply endsR_bind. eapply endsR_mono; [by apply uncut_keeps; [apply record_keeps_log|]|].
  intros [[]|e] h4 Hu4; [|done]. by apply endsR_ret.
Qed.

Lemma locked_uncut h :
  known → without_secrets s0 → calm h → endsR (executeRollbackLocked opts) (λ _ h', uncut h') h.
Proof.
  intros Hk Hw Hc. unfold Rollback.executeRollbackLocked. apply endsR_bind.
  eapply endsR_mono; [by apply calm_preflight|]. clear h Hc. intros [[s set]|e] h [Hc Hs]; [|by apply calm_uncut].
  destruct (Hs s set eq_refl) as (-> & -> & Hm). cbn [fst snd]. intros r h' E.
  assert (endsR (run versions <- rollback_versions ev opts (stored_form s0);
    rollback_run ev redact history log_opens rfc3339 wt opts (stored_form s0) None versions) (λ _ h', uncut h') h) as Hb.
  { apply endsR_bind. eapply endsR_mono; [by apply calm_version_step|].
    intros [[from to]|e] h2 Hc2; [by apply run_uncut|by apply calm_uncut]. }
  destruct ((run versions <- _ ; _) h) as [[r2 h2]|] eqn:E2; [|done]. specialize (Hb _ _ E2). by injection E as <- <-.
Qed.
End Calm.

(** C6: a rollback is told as it ended.  Its checks come first: when they are
    refused, the command returns their error, nothing was deployed and the
    history has no new line.  Otherwise the strategy of the record - the
    blue-green or the rolling deployment - runs for the target the checks
    resolved, and one line is written, or as much of it as its write leaves.
    The line says failed, with the redacted error, and the command returns an
    error, if the deployment failed, or if its record could not be committed to
    the journal; it says success if the deployment succeeded and the journal
    then differs only in the record of this rollback and its closed
    transaction.  After a success the command fails only if the observation
    that was asked for did not pass.  Nothing after the deployment touches the
    routes, the versions or an instance. *)
Theorem a_rollback_tells_its_outcome ev x view socket fuel open hmac live key states pin_cancelled redact history
    log_opens rfc3339 wt opts h r h' :
  executeRollbackLocked ev x view socket fuel open hmac live key states pin_cancelled redact history
    log_opens rfc3339 wt opts h = Some (r, h') →
  rollback_ends ev x view socket fuel open hmac live key states pin_cancelled redact history opts h r h'.
Proof. intros E. by eapply locked_ends. Qed.

(** C5: a rollback is zero-downtime on every path, manual or automatic, by
    either strategy.  Of an application without secrets - no store, no stamp,
    nothing retiring - whose record agrees with the proxy, where a proxy call
    that fails was not carried out and launches get ports not in use ([known]):
    whatever else fails and whatever the rollback ends with, no instance is
    stopped while the proxy routes to it, and the proxy is only ever pointed at
    an instance that took traffic before or was found healthy and has not been
    stopped since. *)
Theorem a_rollback_never_cuts_traffic ev x view socket fuel open hmac live key states pin_cancelled redact history
    log_opens rfc3339 wt opts s0 h r h' :
  rb_secrets h = None → w_journal (rb_world h) !! deploy_json = Some (Data s0) → without_secrets s0 →
  known ev s0 (rb_world h) opts →
  executeRollbackLocked ev x view socket fuel open hmac live key states pin_cancelled redact history
    log_opens rfc3339 wt opts h = Some (r, h') →
  ∃ l, w_log (rb_world h') = w_log (rb_world h) ++ l ∧ trace_ok true (trace_start (w_route (rb_world h))) l = true.
Proof. intros Hs Hj Hw Hk E. by eapply (locked_uncut ev); [exact Hk|exact Hw| |exact E]. Qed.

Module RollbackSamples.
Import SafetySamples.

(** Version 2 is current, the target 1 was promoted before and is there. *)
Definition row (n : Z) (current : bool) : VersionMeta := mkVersion n "" "" n 10 (Some n) "" current "" [] "".
Definition two_versions : vstore := mkVStore (Some (Data [row 1 false; row 2 true])) {[1; 2]} {[1; 2]} (Some 2).
Definition before : world := mkWorld 0 {[ deploy_json := Data serving ]} two_versions old_route [].
Definition host0 : rb_host := mkRb before None empty_registry [] [].

Definition options (verify recovery : option Z) : RollbackOptions :=
  mkRollback "web" "id1" 0 1 2 0 None true "bad release" "" verify recovery.

Definition steady (healthy : bool) : watch :=
  mkWatch (λ _, None) (λ n, 10 * Second - Z.of_nat n * 2 * Second) (λ _ _, healthy) (λ _, None)
    (λ k, Nat.leb 4 k) (λ _, None).

Definition run_with (ev : env) (wt : watch) (opts : RollbackOptions) : option (res unit * rb_host) :=
  executeRollbackLocked ev (λ _, mkCalls FileStore.no_faults true true None 5)
    (λ _, mkLaunches (Some []) (λ _, None) (Ok []) (λ _, None)) (λ _, None) 5 (λ _ _ _, None) (λ _ _, "")
    (Ok ∅) (Ok "") ∅ (λ _, None) (λ _, Some) (λ _, Appended 100) (λ _, true) Itoa wt opts host0.

Definition calm_env : env := sample_env (λ _, false).

(** A healthy rollback whose observation fails. *)
Definition ended : res unit * rb_host :=
  default (Ok tt, host0) (run_with calm_env (steady false) (options (Some (10 * Second)) None)).

Lemma a_rollback_tells_its_outcome_witness :
  (∃ e, ended.1 = Err e ∧ CodeOf (Some e) = CodeRollbackVerifyFailed) ∧
  RH_Status <$> (rb_history ended.2 ≫= λ l, option_list (hl_record l)) = [RollbackStatusSuccess] ∧
  rollback_ends calm_env (λ _, mkCalls FileStore.no_faults true true None 5)
    (λ _, mkLaunches (Some []) (λ _, None) (Ok []) (λ _, None)) (λ _, None) 5 (λ _ _ _, None) (λ _ _, "")
    (Ok ∅) (Ok "") ∅ (λ _, None) (λ _, Some) (λ _, Appended 100) (options (Some (10 * Second)) None) host0 ended.1 ended.2.
Proof.
  split; [eexists; split; vm_compute; reflexivity|]. split; [vm_compute; reflexivity|].
  apply (a_rollback_tells_its_outcome calm_env (λ _, mkCalls FileStore.no_faults true true None 5)
    (λ _, mkLaunches (Some []) (λ _, None) (Ok []) (λ _, None)) (λ _, None) 5 (λ _ _ _, None) (λ _ _, "")
    (Ok ∅) (Ok "") ∅ (λ _, None) (λ _, Some) (λ _, Appended 100) (λ _, true) Itoa (steady false)
    (options (Some (10 * Second)) None) host0 ended.1 ended.2).
  vm_compute. reflexivity.
Defined.

Lemma sample_known : known calm_env serving before (options None None).
Proof.
  split; [|done]. intros _. split.
  - destruct (sample_lawful (λ _, false)) as [? Hu ?]. split; [done|exact Hu|done].
  - destruct sample_consistent as [Ho Ha]. split; [exact Ho|exact Ha].
Qed.

(** The rollback switches back to version 1 and stops the old slot. *)
Definition switched : res unit * rb_host :=
  default (Ok tt, host0) (run_with calm_env (steady true) (options None None)).

Lemma a_rollback_never_cuts_traffic_witness :
  w_log (rb_world switched.2) =
    [EvLaunch "127.0.0.1:9002"; EvHealthy "127.0.0.1:9002"; EvRoute new_route; EvStop "127.0.0.1:9001"] ∧
  ∃ l, w_log (rb_world switched.2) = w_log before ++ l ∧ trace_ok true (trace_start (w_route before)) l = true.
Proof.
  split; [vm_compute; reflexivity|].
  apply (a_rollback_never_cuts_traffic calm_env (λ _, mkCalls FileStore.no_faults true true None 5)
    (λ _, mkLaunches (Some []) (λ _, None) (Ok []) (λ _, None)) (λ _, None) 5 (λ _ _ _, None) (λ _ _, "")
    (Ok ∅) (Ok "") ∅ (λ _, None) (λ _, Some) (λ _, Appended 100) (λ _, true) Itoa (steady true)
    (options None None) serving host0 switched.1 switched.2).
  - reflexivity.
  - reflexivity.
  - by split.
  - exact sample_known.
  - vm_compute. reflexivity.
Defined.

(** The human log is written before the event is marked a success. *)
Example a_success_is_logged_as_failed :
  option_map (λ p, (p.1, String.prefix "4 rollback v2 -> v1 FAILED: " <$> rb_log p.2))
    (run_with calm_env (steady true) (options None None)) = Some (Ok tt, [true]).
Proof. vm_compute. reflexivity. Qed.
End RollbackSamples.
