(* ===== verification/RollbackChecks.v ===== *)
(** * RollbackChecks: recovery, plans, observation and reasons

    An automatic recovery deploys a version that was promoted, is still there
    and is not the one that failed, or touches nothing; the plan of a rollback
    of a native application agrees with what the rollback's own checks resolve;
    the observation of the result ends and
    passes only what stayed healthy; a reason is kept in one form. *)

From S2P Require Import Prelude GoLib GoText HealthTiers FileStore ProxyRouting DeployState Versions VersionHistory Engine Traffic.
From S2P Require Import Lifecycle EnvStore SecretStore SecretPins SecretTxn BlueGreen BlueGreenSafety Rolling.
From S2P Require Import Rollback RollbackPlan RollbackSafety Redact Errors.

(** ** The target of a recovery *)

(** Version [ver] was promoted and its binary is there. *)
Definition known_good (s : vstore) (ver : Z) : Prop :=
  ∃ rows row, vs_meta s = Some (Data rows) ∧ row ∈ rows ∧ V_Version row = ver ∧ is_Some (V_DeployedAt row) ∧
    ver ∈ vs_binaries s.

Lemma versions_as_read fl app s vf : LoadVersions fl app s = Ok vf → vf = [] ∨ vs_meta s = Some (Data vf).
Proof.
  unfold LoadVersions. destruct (ValidateAppName app); [|done]. cbn. destruct (vs_meta s) as [[|l]|].
  - by destruct (vcall fl v_read).
  - destruct (vcall fl v_read); [|done]. intros [= ->]. by right.
  - intros [= <-]. by left.
Qed.

Lemma VersionPaths_binary fl app ver s p : VersionPaths fl app ver s = Ok p →
  ver ∈ vs_binaries s ∧ ∃ vf, LoadVersions fl app s = Ok vf ∧ versionExists vf ver = true.
Proof.
  unfold VersionPaths. destruct (LoadVersions fl app s) as [vf|]; [|done]. cbn.
  destruct (versionExists vf ver) eqn:Ev; [|done]. cbn. destruct (bool_decide (ver ∈ vs_binaries s)) eqn:Eb; [|done].
  intros _. apply bool_decide_eq_true in Eb. eauto.
Qed.

Lemma LastKnownGood_spec fl app s best : LastKnownGoodVersion fl app s = Ok best →
  0 < best ∧ known_good s best ∧
  ∀ v, (∃ vf, LoadVersions fl app s = Ok vf ∧ v ∈ vf) → is_Some (V_DeployedAt v) →
       is_ok (VersionPaths fl app (V_Version v) s) = true → V_Version v ≤ best.
Proof.
  unfold LastKnownGoodVersion. destruct (LoadVersions fl app s) as [vf|] eqn:El; [|done]. simpl.
  match goal with |- context [foldl ?f 0 vf] => set (best' := foldl f 0 vf) end. intros H.
  assert (best' = best ∧ best' ≠ 0) as [Hb Hne].
  { destruct (best' =? 0) eqn:E0; cbn in H; [done|]. apply Z.eqb_neq in E0. split; [congruence|done]. }
  set (good v := (bool_decide (is_Some (V_DeployedAt v)) && usable fl app s (V_Version v))%bool).
  assert (best' = foldl (best_step V_Version good) 0 vf) as Hf.
  { subst best'. generalize 0. clear. induction vf as [|v vf IH]; intros b; [done|]. simpl. rewrite IH.
    f_equal. unfold best_step, good, usable. by rewrite andb_assoc. }
  destruct (best_spec V_Version good vf 0) as (H2 & H1 & H3). cbv zeta in *. rewrite <- Hf, Hb in H1, H2, H3.
  split; [lia|]. split.
  - destruct H1 as [H1|(v & Hv & HP & Hver)]; [lia|]. apply andb_true_iff in HP as [Hd Hp].
    apply bool_decide_eq_true in Hd. apply versions_as_read in El as [-> |El]; [by apply not_elem_of_nil in Hv|].
    exists vf, v. split_and!; [done..|]. unfold usable in Hp. destruct (VersionPaths _ _ _ _) as [p|] eqn:Ep; [|done].
    apply VersionPaths_binary in Ep as [Hbin _]. by rewrite <- Hver.
  - intros v (vf' & [= <-] & Hv) Hd Hp. apply H3; [done|]. unfold good. by rewrite bool_decide_eq_true_2.
Qed.

Section Recovery.
Context (ev : env) (x : nat → calls) (view : nat → launches) (socket : nat → option error) (fuel : nat).
Context (open : string → string → string → option string) (hmac : string → string → string).
Context (live : res (gset string)) (key : res string) (states : securityStates).
Context (pin_cancelled : nat → option error) (redact : secretRegistry → string → option string).
Context (history : nat → appended) (log_opens : nat → bool) (rfc3339 : Z → string) (wt : watch).

#[local] Abbreviation RunAutoRollbackLocked := (RunAutoRollbackLocked ev x view socket fuel open hmac live key states
  pin_cancelled redact history log_opens rfc3339 wt).

#[local] Abbreviation deploys := (deploys ev).

(** The rollback of a recovery. *)
Definition recovery_options (ao : AutoRollbackOptions) (to : Z) : RollbackOptions :=
  mkRollback (ao_AppName ao) (ao_AppID ao) (ao_PublicPort ao) to 0 (ao_Replicas ao) None (ao_ProxyClient ao)
    (ao_FailureReason ao) RollbackSourceAutomatic None (Some (ao_FailedVersion ao)).

(** From [h], the strategy of the record deployed version [to] and returned no
    error, [told] as a success, and only the record of it was written after. *)
Definition redeployed (ao : AutoRollbackOptions) (h : rb_host) (to : Z) (h' : rb_host) : Prop :=
  let opts := recovery_options ao to in
  ∃ s0 set from t0 w now t rec,
    w_journal (rb_world h) !! deploy_json = Some (Data s0) ∧
    deploys opts (stored_form s0) set to (w_set_tick t0 (rb_world h)) (Ok tt) w ∧
    (0 < ao_FailedVersion ao → from = ao_FailedVersion ao) ∧
    aside w (rb_world h') ∧ rolled_back (ao_AppName ao) now from to (w_journal w) (w_journal (rb_world h')) ∧
    rb_history h' = rb_history h ++ written_as (history t) rec ∧ headed opts (D_Mode s0) from to rec ∧
    RH_Status rec = RollbackStatusSuccess.

(** What an automatic recovery from [h] reports: [recovered ao h res h']. *)
Definition recovered (ao : AutoRollbackOptions) (h : rb_host) (res : AutoRollbackResult) (h' : rb_host) : Prop :=
  if AR_Restored res then
    AR_Err res = None ∧ 0 < AR_ToVer res ∧ known_good (w_versions (rb_world h)) (AR_ToVer res) ∧
    (0 < ao_FailedVersion ao → AR_ToVer res ≠ ao_FailedVersion ao) ∧
    if AR_AlreadyServing res then
      still h' = still h ∧ rb_history h' = rb_history h ∧
      ∃ s, w_journal (rb_world h) !! deploy_json = Some (Data s) ∧
           failedVersionServing s (ao_FailedVersion ao) = false
    else redeployed ao h (AR_ToVer res) h'
  else is_Some (AR_Err res) ∧ AR_AlreadyServing res = false.

Lemma attemptR_inv {A} (a : R A) h r h' : attemptR a h = Some (r, h') → ∃ r', r = Ok r' ∧ a h = Some (r', h').
Proof. unfold attemptR. destruct (a h) as [[r1 h1]|]; [|done]. intros [= <- <-]. eauto. Qed.

Lemma AutoRollbackTarget_good fl app failed s to : AutoRollbackTarget fl app failed s = Ok to →
  0 < to ∧ known_good s to ∧ (0 < failed → to ≠ failed).
Proof.
  unfold AutoRollbackTarget. destruct (LastKnownGoodVersion fl app s) as [t|] eqn:E; [|done]. cbn.
  destruct ((0 <? failed) && (t =? failed))%bool eqn:Ef; cbn; [done|]. intros [= <-].
  apply LastKnownGood_spec in E as (Hp & Hk & _). split_and!; [done..|]. intros Hf ->.
  by rewrite (proj2 (Z.ltb_lt _ _) Hf), Z.eqb_refl in Ef.
Qed.

Lemma recovery_redeploys ao to h h' : 0 < to →
  rollback_ends ev x view socket fuel open hmac live key states pin_cancelled redact history (recovery_options ao to) h
    (Ok tt) h' → redeployed ao h to h'.
Proof.
  intros Hpos (c & h1 & Hc & Hh1 & H). apply recovery_checks_read in Hc as [Hs Hrec]; [|by eexists].
  destruct c as [[[s set] [from to']]|e]; [|by destruct H].
  destruct (Hrec _ _ eq_refl) as (s0 & Hj & Es). simpl in Es. subst s.
  destruct H as ((_ & Hto & Hfrom & _) & t0 & dr & w & t & rec & Hd & Hh' & Hhead & Ha & Ht).
  specialize (Hto eq_refl Hpos). simpl in Hto. subst to'.
  destruct dr as [[]|e]; [|by destruct Ht as (_ & _ & ?)].
  destruct Ht as [(e & _ & ? & _)|((Hst & _) & [now Hrb] & _)]; [done|].
  exists s0, set, from, t0, w, now, t, rec. unfold still in Hs.
  assert (w_set_tick t0 (rb_world h1) = w_set_tick t0 (rb_world h)) as Hw.
  { change (w_set_tick t0 (w_set_tick 0 (rb_world h1)) = w_set_tick t0 (w_set_tick 0 (rb_world h))). by rewrite Hs. }
  rewrite Hw in Hd. split_and!; [exact Hj|exact Hd|by apply Hfrom|exact Ha|exact Hrb|exact Hh'|exact Hhead|exact Hst].
Qed.

Lemma recovery_runs ao to t0 h0 :
  let h := rb_set_world (w_set_tick t0 (rb_world h0)) h0 in
  0 < to → known_good (w_versions (rb_world h0)) to → (0 < ao_FailedVersion ao → to ≠ ao_FailedVersion ao) →
  endsR (run r <- attemptR (executeRollbackLocked ev x view socket fuel open hmac live key states pin_cancelled redact
           history log_opens rfc3339 wt (recovery_options ao to));
         retR (Ok match r with
               | Err e => mkAutoResult (ao_FailedVersion ao) to false false
                   (Some (wrap CodeAutoRollbackFailed ("automatic rollback to v" +:+ Itoa to +:+
                      " failed; previous known-good version could not be restored safely") e))
               | Ok _ => mkAutoResult (ao_FailedVersion ao) to true false None
               end)) (λ r h', ∃ res, r = Ok res ∧ AR_FromVer res = ao_FailedVersion ao ∧ recovered ao h0 res h') h.
Proof.
  intros h Hpos Hgood Hne. apply endsR_bind, endsR_attempt.
  eapply endsR_mono; [by eapply locked_ends|]. intros r h' Hr. apply endsR_ret. eexists. split; [done|].
  destruct r as [[]|e]; (split; [done|]); [|by split; [eexists|]].
  apply recovery_redeploys in Hr; [|done]. unfold recovered. cbn [AR_Restored AR_AlreadyServing AR_ToVer AR_Err].
  by split_and!.
Qed.

Lemma recovery_reports ao h r h' :
  RunAutoRollbackLocked ao h = Some (r, h') →
  ∃ res, r = Ok res ∧ AR_FromVer res = ao_FailedVersion ao ∧ recovered ao h res h'.
Proof.
  unfold Rollback.RunAutoRollbackLocked, bindR at 1. destruct (attemptR _ h) as [[r1 h1]|] eqn:Et; [|done].
  apply attemptR_inv in Et as (target & -> & Et). cbn in Et. injection Et as <- <-.
  destruct (AutoRollbackTarget _ _ _ _) as [to|e] eqn:Ea.
  2: { intros [= <- <-]. eexists. split; [done|]. by split; [|split]. }
  apply AutoRollbackTarget_good in Ea as (Hpos & Hgood & Hne). cbn in Hgood.
  set (h1 := rb_set_world _ h). unfold bindR at 1. unfold rb_load, bindR at 1, rb_tick, liftM. cbn -[executeRollbackLocked Load].
  set (h2 := rb_set_world _ h1).
  pose proof (recovery_runs ao to (S (S (w_tick (rb_world h)))) h Hpos Hgood Hne) as Hrun.
  destruct (match Load _ _ _ with Loaded _ => _ | _ => _ end) as [s| |e] eqn:El.
  2,3: exact (Hrun r h').
  destruct (failedVersionServing s (ao_FailedVersion ao)) eqn:Ef; simpl; [exact (Hrun r h')|].
  intros [= <- <-]. eexists. split; [done|]. split; [done|]. unfold recovered. cbn [AR_Restored AR_AlreadyServing AR_ToVer AR_Err].
  split_and!; [done..|].
  revert El. unfold Load. destruct (ValidateAppName _); [|done]. destruct (w_journal _ !! deploy_json) as [[|d]|]; [|..|done].
  - by destruct (e_fs ev _ op_read).
  - destruct (e_fs ev _ op_read); [done|]. destruct (_ || _)%bool; [done|]. intros [= <-]. by exists d.
Qed.
End Recovery.

(** C7: what an automatic recovery reports.  When it reports the application
    restored, the target is a version that was promoted before, whose binary is
    stored, and is not the one that failed; and then either the strategy of the
    record deployed that version over the host as it was found, without an
    error, the journal differs only in the record of the rollback and the
    history tells an automatic success; or nothing was touched, because the
    record names no instance of the failed version - whether the target itself
    serves is then not asked.  Any other end is an error it reports. *)
Theorem a_recovery_restores_a_known_good_version ev x view socket fuel open hmac live key states pin_cancelled redact
    history log_opens rfc3339 wt ao h r h' :
  RunAutoRollbackLocked ev x view socket fuel open hmac live key states pin_cancelled redact history
    log_opens rfc3339 wt ao h = Some (r, h') →
  ∃ res, r = Ok res ∧ AR_FromVer res = ao_FailedVersion ao ∧ recovered ev history ao h res h'.
Proof. intros E. by eapply recovery_reports. Qed.

(** An application whose versions are images alone has nothing to recover to. *)
Theorem images_alone_are_never_recovered fl app failed s :
  vs_binaries s = ∅ → is_ok (AutoRollbackTarget fl app failed s) = false.
Proof.
  intros Hs. destruct (AutoRollbackTarget fl app failed s) as [to|e] eqn:E; [|done].
  apply AutoRollbackTarget_good in E as (_ & (rows & row & _ & _ & _ & _ & Hin) & _). rewrite Hs in Hin.
  by apply not_elem_of_empty in Hin.
Qed.

(** ** The plan *)

Section Agreement.
Context (ev : env) (vfl : vfaults) (fl : faults).
Hypothesis same_versions : ∀ t, e_vfs ev t = vfl.
Hypothesis same_files : ∀ t, e_fs ev t = fl.

(** The reads of a rollback to a named version: the record and the versions. *)
Definition resolved (opts : RollbackOptions) : R (DeployState * (Z * Z)) :=
  run s <- load_deployed ev (ro_AppName opts);
  run versions <- rollback_versions ev opts s;
  retR (Ok (s, versions)).

(** What the reads give, as a function of the journal and the versions. *)
Definition reads (opts : RollbackOptions) (j : journal) (v : vstore) : res (DeployState * (Z * Z)) :=
  let app := ro_AppName opts in
  s ← match Load fl app j with
      | Loaded s => if one_of (D_Mode s) [ModeBlueGreen; ModeRolling] then Ok (stored_form s)
                    else Err (New CodeRollbackFailed ("deploy: rollback unsupported for mode " +:+ Quote (D_Mode s)))
      | NoState => Err (New CodeRollbackTargetNotFound ("deploy: no deploy state for " +:+ Quote app +:+
                      " — rollback requires a prior zero-downtime deploy"))
      | LoadError e => Err e
      end;
  from ← CurrentVersion vfl app v;
  _ ← fail_if ((0 <? ro_ExpectedCurrentVersion opts) && negb (from =? ro_ExpectedCurrentVersion opts))%bool
        (New CodeRollbackTargetNotFound ("deploy: current version changed from v" +:+
           Itoa (ro_ExpectedCurrentVersion opts) +:+ " to v" +:+ Itoa from +:+
           " while rollback waited for the deploy lock; resolve the target again"));
  to ← resolveRollbackTarget vfl app (ro_TargetVersion opts)
         (default (RollbackSourceForRuntime (D_Runtime s) (ro_TargetVersion opts)) (ro_Source opts)) v;
  _ ← fail_if ((0 <? from) && (to =? from))%bool (New CodeRollbackTargetNotFound ("deploy: already running v" +:+
        Itoa from +:+ "; nothing to roll back to"));
  Ok (s, (from, to)).

Lemma resolved_reads opts h : ro_Recovery opts = None →
  ∃ h', resolved opts h = Some (reads opts (w_journal (rb_world h)) (w_versions (rb_world h)), h').
Proof using same_files same_versions.
  intros Hr. unfold resolved, load_deployed, rollback_versions, reads, rb_load, rb_versions, bindR, rb_tick, liftM.
  rewrite Hr. cbn -[Load CurrentVersion resolveRollbackTarget one_of]. rewrite !same_files.
  destruct (Load _ _ _) as [s| |e]; cbn -[CurrentVersion resolveRollbackTarget one_of]; [|by eexists..].
  destruct (one_of (D_Mode s) _); cbn -[CurrentVersion resolveRollbackTarget]; [|by eexists].
  rewrite !same_versions. destruct (CurrentVersion _ _ _) as [from|e]; cbn -[resolveRollbackTarget]; [|by eexists].
  destruct (_ && negb _)%bool; cbn -[resolveRollbackTarget]; [by eexists|].
  rewrite !same_versions. destruct (resolveRollbackTarget _ _ _ _ _) as [to|e]; cbn; [|by eexists].
  destruct (_ && (_ =? _))%bool; cbn; by eexists.
Qed.
End Agreement.

#[local] Arguments one_of : simpl never.
#[local] Arguments VersionPaths : simpl never.
#[local] Arguments current_of : simpl never.

(** A dry run tells the truth.  For a version of a native application, read
    from the same files, the plan names a zero-downtime strategy exactly when
    the rollback gets past its own checks, and then names the strategy of the
    record and the two versions the rollback goes between; when the plan is
    refused, or is one for the classic path, so is the rollback. *)
Theorem the_plan_agrees_with_the_rollback ev vfl fl health proxy holder opts inp h :
  (∀ t, e_vfs ev t = vfl) → (∀ t, e_fs ev t = fl) →
  ro_Recovery opts = None → ro_Source opts = None → ro_ExpectedCurrentVersion opts = 0 →
  in_Target inp = ro_TargetVersion opts → 0 < in_Target inp →
  (∀ s, w_journal (rb_world h) !! deploy_json = Some (Data s) → IsDockerRuntime (D_Runtime s) = false) →
  ∃ r h', resolved ev opts h = Some (r, h') ∧
  match PlanRollback health proxy holder vfl fl (ro_AppName opts) inp (w_versions (rb_world h)) (w_journal (rb_world h)) with
  | Ok p => (RP_Strategy p = "classic" ∧ is_ok r = false) ∨
            ∃ s, r = Ok (s, (RP_CurrentVersion p, RP_TargetVersion p)) ∧ RP_Strategy p = D_Mode s ∧
                 one_of (RP_Strategy p) [ModeBlueGreen; ModeRolling] = true
  | Err _ => is_ok r = false
  end.
Proof.
  intros Hv Hf Hrec Hsrc Hexp Ht Hpos Hnative. destruct (resolved_reads ev vfl fl Hv Hf opts h Hrec) as [h' E].
  eexists _, h'. split; [exact E|]. clear E. set (j := w_journal _) in *. set (v := w_versions _). set (app := ro_AppName opts).
  assert (∀ s, Load fl app j = Loaded s → IsDockerRuntime (D_Runtime s) = false) as Hd.
  { intros s. unfold Load. destruct (ValidateAppName app); [|done]. destruct (j !! deploy_json) as [[|d]|]; [by destruct (fl op_read)| |done].
    destruct (fl op_read); [done|]. destruct (_ || _)%bool; [done|]. intros [= <-]. by apply Hnative. }
  unfold reads. fold app. rewrite Hsrc, Hexp, <- Ht. cbn [default].
  unfold PlanRollback, CurrentVersion. destruct (LoadVersions vfl app v) as [vf|e] eqn:El; simpl.
  2: { destruct (Load fl app j) as [s| |?]; simpl; [destruct (one_of _ _)|..]; done. }
  set (cur := current_of vf). assert ((in_Target inp <=? 0) = false) as Hle by (apply Z.leb_gt; lia).
  unfold resolveRollbackTarget, RollbackSourceForRuntime.
  destruct ((0 <? cur) && (in_Target inp =? cur))%bool eqn:Erun; simpl.
  { destruct (Load fl app j) as [s| |e]; simpl; [|done..]. destruct (one_of _ _) eqn:Em; simpl; [|done].
    rewrite (Hd s eq_refl). rewrite (proj2 (Z.ltb_lt _ _) Hpos). simpl. rewrite Hle. simpl.
    destruct (VersionPaths _ _ _ _); simpl; [|done]. by rewrite Erun. }
  destruct (VersionPaths vfl app (in_Target inp) v) as [paths|e] eqn:Ep.
  2: { destruct (negb (versionExists _ _)); simpl;
       (destruct (Load fl app j) as [s| |?]; simpl; [|done..]; destruct (one_of _ _); simpl; [|done];
        rewrite (Hd s eq_refl); rewrite (proj2 (Z.ltb_lt _ _) Hpos); simpl; rewrite Hle; simpl; by rewrite Ep). }
  pose proof (VersionPaths_binary _ _ _ _ _ Ep) as (_ & vf' & [= <-]%(eq_trans (eq_sym El)) & Hex). rewrite Hex. simpl.
  unfold plan_for. destruct (Load fl app j) as [s| |e]; simpl; [|by left|done].
  destruct (D_Mode s =s "") eqn:E1; [bool_prop; rewrite E1; by left|].
  destruct (D_Mode s =s ModeClassic) eqn:E2; [bool_prop; rewrite E2; by left|]. simpl.
  destruct (one_of (D_Mode s) [ModeBlueGreen; ModeRolling]) eqn:Em; simpl.
  - rewrite (Hd s eq_refl), (proj2 (Z.ltb_lt _ _) Hpos). simpl. rewrite Hle. simpl. rewrite Ep. simpl. rewrite Erun. simpl.
    apply one_of_true, elem_of_cons in Em as [Em|Em%list_elem_of_singleton]; rewrite Em; right; eexists; by split_and!.
  - apply one_of_false in Em. rewrite !not_elem_of_cons in Em. destruct Em as (E3 & E4 & _).
    apply String.eqb_neq in E3, E4. by rewrite E3, E4.
Qed.

(** ** The observation of the result *)

Section Observation.
Context (wt : watch) (targets : list VerifyTarget).
Local Open Scope nat_scope.

(** The n-th probe asks the targets in turn. *)
Definition probed (n : nat) (t : VerifyTarget) : Prop := targets !! (n mod length targets) = Some t.

(** The first [n] probes were healthy; a probe was not; the context ended. *)
Definition all_healthy (n : nat) : Prop := ∀ i t, i < n → probed i t → wt_healthy wt i t = true.
Definition found_unhealthy (e : error) : Prop := ∃ i t, probed i t ∧ wt_healthy wt i t = false ∧ e = unhealthy_target t.
Definition ended_early (e : error) : Prop :=
  ∃ n, wt_cancelled wt n = Some e ∨ wt_interrupted wt n = Some e ∨ wt_stopped wt n = Some e.

(** What is remembered after [n] probes. *)
Definition remembers (n : nat) (failErr : option error) : Prop :=
  match failErr with None => all_healthy n | Some e => found_unhealthy e end.

(** How an observation ends: the window is over, or the context is. *)
Definition verdict_of (r : option error) : Prop :=
  match r with
  | None => ∃ n, all_healthy n ∧ ((wt_remaining wt n ≤ 0)%Z ∨ ∃ k, n = S k * length targets ∧ wt_late wt k = true)
  | Some e => found_unhealthy e ∨ ended_early e
  end.

Lemma remembers_probe n failErr t : remembers n failErr → probed n t →
  remembers (S n) (match failErr with
                   | Some e => Some e
                   | None => if wt_healthy wt n t then None else Some (unhealthy_target t)
                   end).
Proof.
  intros Hr Hp. destruct failErr as [e|]; [done|]. destruct (wt_healthy wt n t) eqn:E; [|by exists n, t].
  intros i t' Hi Hp'. destruct (decide (i = n)) as [->|]; [|apply Hr; [lia|done]]. unfold probed in *. congruence.
Qed.

Lemma sweep_spec n failErr done_ rest : remembers n failErr → targets = done_ ++ rest →
  (∃ k, n = k * length targets + length done_) →
  match sweep wt n failErr rest with
  | inl r => verdict_of r
  | inr (n', failErr') => n' = n + length rest ∧ remembers n' failErr'
  end.
Proof.
  revert n failErr done_. induction rest as [|t rest IH]; intros n failErr done_ Hr Ht [k Hn]; simpl.
  { split; [lia|done]. }
  destruct (wt_cancelled wt n) as [e|] eqn:Ec; [right; exists n; auto|].
  destruct (wt_remaining wt n <=? 0)%Z eqn:Erem.
  { apply Z.leb_le in Erem. destruct failErr as [e|]; [by left|]. exists n. auto. }
  destruct (wt_interrupted wt n) as [e|] eqn:Ei; [right; exists n; auto|].
  assert (probed n t) as Hp.
  { unfold probed. rewrite Hn, Nat.add_comm, Nat.Div0.mod_add, Nat.mod_small.
    - rewrite Ht. by apply list_lookup_middle.
    - rewrite Ht, length_app. simpl. lia. }
  specialize (IH (S n) _ (done_ ++ [t]) (remembers_probe n failErr t Hr Hp)).
  specialize (IH ltac:(by rewrite Ht, <- app_assoc) ltac:(exists k; rewrite length_app; simpl; lia)).
  destruct (sweep _ _ _ rest) as [r|[n' f']]; [done|]. destruct IH as [-> ?]. split; [lia|done].
Qed.

(** The k-th sweep starts [k] ticks after the first, at the earliest. *)
Definition ticking (duration : Z) : Prop :=
  ∀ k, (wt_remaining wt (k * length targets) ≤ duration - Z.of_nat k * verify_tick duration)%Z.

Lemma observe_spec fuel k n failErr duration :
  targets ≠ [] → (0 < duration)%Z → ticking duration → n = k * length targets → remembers n failErr →
  (duration < Z.of_nat (k + fuel - 1) * verify_tick duration)%Z → 0 < fuel →
  ∃ r, observe fuel wt k n failErr targets = Some r ∧ verdict_of r.
Proof.
  intros Hne Hpos Htick. revert k n failErr. induction fuel as [|fuel IH]; intros k n failErr Hn Hr Hf Hf0; [lia|].
  simpl. pose proof (sweep_spec n failErr [] targets Hr eq_refl ltac:(exists k; simpl; lia)) as Hs.
  destruct (sweep wt n failErr targets) as [r|[n' f']] eqn:Es; [by exists r|]. destruct Hs as [-> Hr'].
  destruct (wt_late wt k) eqn:El.
  { eexists. split; [done|]. destruct f' as [e|]; [by left|]. exists (n + length targets). split; [done|].
    right. exists k. split; [lia|done]. }
  destruct (wt_stopped wt k) as [e|] eqn:Est; [eexists; split; [done|]; right; exists k; auto|].
  destruct fuel as [|fuel'].
  - exfalso. specialize (Htick k). rewrite <- Hn in Htick. destruct targets as [|t rest]; [done|]. simpl in Es.
    destruct (wt_cancelled wt n); [done|].
    assert ((wt_remaining wt n <=? 0)%Z = true) as Hrem by (apply Z.leb_le; lia). by rewrite Hrem in Es.
  - apply IH; [lia|done| |lia]. by replace (S k + S fuel' - 1) with (k + S (S fuel') - 1) by lia.
Qed.
End Observation.

Lemma verify_fuel_enough duration : 0 < duration →
  duration < Z.of_nat (verify_fuel duration - 1) * verify_tick duration ∧ (0 < verify_fuel duration)%nat.
Proof.
  intros Hd. unfold verify_fuel. assert (0 < verify_tick duration) as Ht by (assert (0 < DefaultTierInterval) by done; unfold verify_tick; lia).
  pose proof (Z.div_pos duration (verify_tick duration) ltac:(lia) Ht).
  pose proof (Z.mul_succ_div_gt duration (verify_tick duration) Ht). split; [|lia]. nia.
Qed.

(** The targets of an observation. *)
Definition verification_targets (explicit : list VerifyTarget) (l : loaded) : list VerifyTarget :=
  match explicit, l with _ :: _, _ => explicit | [], Loaded s => servingTargets s | [], _ => [] end.

(** C40: the observation of a rollback ends, and means what it says.  Under a
    ticker that keeps its period it ends within the window; it passes only when
    the window is over and every probe of every target that was made answered
    healthy; it fails only by naming a target that was probed unhealthy or with
    the end of the context; and with no target it never passes. *)
Theorem an_observation_ends_and_passes_only_the_healthy wt app duration explicit l :
  let targets := verification_targets explicit l in
  0 < duration → ticking wt targets duration →
  ∃ r, VerifyRollbackStability wt app duration explicit l = Some r ∧
       if bool_decide (targets = []) then r ≠ None else verdict_of wt targets r.
Proof.
  intros targets Hd Htick. unfold VerifyRollbackStability.
  assert ((duration <=? 0) = false) as -> by (apply Z.leb_gt; lia).
  assert (targets ≠ [] → ∃ r, observe (verify_fuel duration) wt 0 0 None targets = Some r ∧ verdict_of wt targets r) as Ho.
  { intros Hne. destruct (verify_fuel_enough duration Hd) as [H1 H2].
    eapply observe_spec; [done..|by intros ? ? ?%Nat.nlt_0_r|by rewrite Nat.add_0_l|done]. }
  subst targets. destruct explicit as [|t explicit]; simpl in *.
  - destruct l as [s| |e]; [|eexists; split; [done|]; by rewrite bool_decide_eq_true_2..].
    destruct (servingTargets s) as [|t ts]; [eexists; split; [done|]; by rewrite bool_decide_eq_true_2|].
    destruct Ho as (r & -> & Hr); [done|]. exists r. by rewrite bool_decide_eq_false_2.
  - destruct Ho as (r & -> & Hr); [done|]. by exists r.
Qed.

(** ** Reasons *)

#[local] Arguments is_space : simpl never.

Definition solid (w : string) : Prop := w ≠ "" ∧ all_chars (λ c, negb (is_space c)) w = true.

Lemma fields_from_word w : ∀ acc s, all_chars (λ c, negb (is_space c)) w = true →
  fields_from acc (w +:+ s) = fields_from (acc +:+ w) s.
Proof.
  induction w as [|c w IH]; intros acc s Hw.
  - by rewrite sapp_nil_r.
  - simpl in Hw. apply andb_true_iff in Hw as [Hc Hw]. apply negb_true_iff in Hc.
    rewrite sapp_cons. cbn. rewrite Hc, IH by done.
    by rewrite <- sapp_assoc.
Qed.

Lemma fields_solid s : ∀ acc, all_chars (λ c, negb (is_space c)) acc = true → Forall solid (fields_from acc s).
Proof.
  induction s as [|c s IH]; intros acc Ha; simpl.
  - destruct (acc =s "") eqn:E; bool_prop; [constructor|]. by repeat constructor.
  - destruct (is_space c) eqn:Ec.
    + destruct (acc =s "") eqn:E; bool_prop; [by apply IH|]. constructor; [by split|by apply IH].
    + apply IH. rewrite all_chars_app, Ha. simpl. by rewrite Ec.
Qed.

Lemma fields_join ws : Forall solid ws → Fields (Join ws " ") = ws.
Proof.
  unfold Fields, Join. induction 1 as [|w ws [Hne Hw] Hws IH]; [done|]. destruct ws as [|w2 ws].
  - cbn. pose proof (fields_from_word w "" "" Hw) as E. simpl in E.
    change ("" +:+ w) with w in E. rewrite sapp_nil_r in E. rewrite E. apply String.eqb_neq in Hne. by rewrite Hne.
  - change (String.concat " " (w :: w2 :: ws)) with (w +:+ (" " +:+ String.concat " " (w2 :: ws))).
    rewrite fields_from_word by done. apply String.eqb_neq in Hne. change ("" +:+ w) with w. rewrite sapp_cons. cbn -[String.concat]. rewrite Hne. f_equal. exact IH.
Qed.

Lemma trim_right_app a b : b ≠ "" → trim_right b = b → trim_right (a +:+ b) = a +:+ b.
Proof.
  intros Hb Ht. induction a as [|c a IH]; [exact Ht|]. rewrite sapp_cons. simpl. rewrite IH.
  destruct (a +:+ b) eqn:E; [|done]. destruct a; [|done]. by exfalso; apply Hb.
Qed.

Lemma trim_right_solid w : solid w → trim_right w = w.
Proof.
  intros [Hne Hw]. clear Hne. induction w as [|c w IH]; [done|]. simpl in *. apply andb_true_iff in Hw as [Hc Hw].
  rewrite IH by done. apply negb_true_iff in Hc. destruct w; [by rewrite Hc|done].
Qed.

Lemma trim_join ws : Forall solid ws → TrimSpace (Join ws " ") = Join ws " ".
Proof.
  intros Hws. unfold TrimSpace, Join.
  assert (trim_left (String.concat " " ws) = String.concat " " ws) as ->.
  { destruct Hws as [|w ws [Hne Hw] _]; [done|]. destruct w as [|c w]; [done|].
    assert (∃ r, String.concat " " (String c w :: ws) = String c r) as [r ->] by (destruct ws; by eexists).
    simpl in Hw. apply andb_true_iff in Hw as [Hc _]. apply negb_true_iff in Hc. simpl. by rewrite Hc. }
  induction Hws as [|w ws Hw Hws IH]; [done|]. destruct ws as [|w2 ws]; [by apply trim_right_solid|].
  change (String.concat " " (w :: w2 :: ws)) with (w +:+ (" " +:+ String.concat " " (w2 :: ws))).
  assert (String.concat " " (w2 :: ws) ≠ "") as Hne.
  { apply Forall_cons in Hws as [[Hn _] _]. destruct w2; [done|]. by destruct ws. }
  apply trim_right_app; [done|]. by apply trim_right_app.
Qed.

Lemma fields_trim_left s : fields_from "" (trim_left s) = fields_from "" s.
Proof. induction s as [|c s IH]; [done|]. simpl. by destruct (is_space c) eqn:E; [|simpl; rewrite E]. Qed.

Lemma fields_trim_right s : ∀ acc, fields_from acc (trim_right s) = fields_from acc s.
Proof.
  induction s as [|c s IH]; intros acc; [done|]. simpl. destruct (trim_right s) as [|d r] eqn:E.
  - destruct (is_space c) eqn:Ec; cbn; rewrite ?Ec; rewrite <- IH; [|done]. cbn. by destruct (acc =s "").
  - cbn -[fields_from]. change (fields_from acc (String c (String d r)) = (if is_space c then if acc =s "" then fields_from "" s
      else acc :: fields_from "" s else fields_from (acc +:+ String c "") s)). rewrite <- !IH. done.
Qed.

Lemma fields_trim s : Fields (TrimSpace s) = Fields s.
Proof. unfold Fields, TrimSpace. by rewrite fields_trim_right, fields_trim_left. Qed.

Lemma fields_from_some s : ∀ acc, acc ≠ "" → fields_from acc s ≠ [].
Proof.
  induction s as [|c s IH]; intros acc Ha; cbn; [|destruct (is_space c)].
  1, 2: apply String.eqb_neq in Ha; by rewrite Ha.
  apply IH. by destruct acc.
Qed.

Lemma no_fields s : Fields s = [] → trim_left s = "".
Proof.
  unfold Fields. induction s as [|c s IH]; [done|]. cbn. destruct (is_space c); [done|].
  intros H. by apply fields_from_some in H.
Qed.

(** A reason is kept in one form: its words, one space between them, at most
    500 characters long, never empty when it was given; a reason that was
    accepted once is accepted again and not changed. *)
Theorem a_reason_is_kept_in_one_form reason explicit t :
  ValidateRollbackReason reason explicit = Ok t →
  t = Join (Fields reason) " " ∧ Fields t = Fields reason ∧ len (runes t) ≤ MaxRollbackReasonLength ∧
  (explicit = true → t ≠ "") ∧ ∀ again, t ≠ "" → ValidateRollbackReason t again = Ok t.
Proof.
  unfold ValidateRollbackReason. assert (Forall solid (Fields reason)) as Hs by by apply fields_solid.
  destruct (TrimSpace reason =s "") eqn:E; bool_prop.
  { destruct explicit; [done|]. intros [= <-]. rewrite <- fields_trim, E. by split_and!. }
  rewrite fields_trim. destruct (Z.ltb_spec MaxRollbackReasonLength (len (runes (Join (Fields reason) " ")))) as [|Hle]; [done|].
  intros [= <-]. rewrite fields_join, trim_join by done.
  assert (Join (Fields reason) " " ≠ "") as Hne.
  { destruct (Fields reason) as [|w ws] eqn:Ef.
    - exfalso. apply E. unfold TrimSpace. by rewrite (no_fields _ Ef).
    - apply Forall_cons in Hs as [[Hw _] _]. destruct w; [done|]. by destruct ws. }
  split_and!; [done..|]. intros again _. apply String.eqb_neq in Hne. rewrite Hne, fields_join by done.
  destruct (Z.ltb_spec MaxRollbackReasonLength (len (runes (Join (Fields reason) " ")))); [lia|done].
Qed.

Module RollbackChecksSamples.
Import SafetySamples RollbackSamples.

(** Version 1 failed and is what the journal records; version 2 is good. *)
Definition failed_options : AutoRollbackOptions := mkAuto "web" "id1" 8080 true 0 1 "deployment failed".
Definition recover (ao : AutoRollbackOptions) : option (res AutoRollbackResult * rb_host) :=
  RunAutoRollbackLocked calm_env (λ _, mkCalls FileStore.no_faults true true None 5)
    (λ _, mkLaunches (Some []) (λ _, None) (Ok []) (λ _, None)) (λ _, None) 5 (λ _ _ _, None) (λ _ _, "")
    (Ok ∅) (Ok "") ∅ (λ _, None) (λ _, Some) (λ _, Appended 100) (λ _, true) Itoa (steady true) ao host0.
Definition recovery : res AutoRollbackResult * rb_host := default (Ok (mkAutoResult 0 0 false false None), host0) (recover failed_options).

Lemma a_recovery_restores_a_known_good_version_witness :
  recovery.1 = Ok (mkAutoResult 1 2 true false None) ∧
  ∃ res, recovery.1 = Ok res ∧ AR_FromVer res = 1 ∧ recovered calm_env (λ _, Appended 100) failed_options host0 res recovery.2.
Proof.
  split; [vm_compute; reflexivity|].
  apply (a_recovery_restores_a_known_good_version calm_env (λ _, mkCalls FileStore.no_faults true true None 5)
    (λ _, mkLaunches (Some []) (λ _, None) (Ok []) (λ _, None)) (λ _, None) 5 (λ _ _ _, None) (λ _ _, "")
    (Ok ∅) (Ok "") ∅ (λ _, None) (λ _, Some) (λ _, Appended 100) (λ _, true) Itoa (steady true)
    failed_options host0 recovery.1 recovery.2).
  vm_compute. reflexivity.
Defined.

(** Whether the target serves is not asked: the record names version 1, the
    target is 2, and nothing is done for the failed version 3. *)
Example restored_without_the_target_serving :
  option_map (λ p, (p.1, w_log (rb_world p.2))) (recover (mkAuto "web" "id1" 8080 true 0 3 "")) =
    Some (Ok (mkAutoResult 3 2 true true None), []).
Proof. vm_compute. reflexivity. Qed.

(** The images of a docker application: the rollback accepts version 1, its
    plan and the recovery do not. *)
Definition image (n : Z) (current : bool) : VersionMeta := mkVersion n "" "" n 0 (Some n) "" current ("web:v" +:+ Itoa n) [] "".
Definition images : vstore := mkVStore (Some (Data [image 1 false; image 2 true])) ∅ ∅ None.

Example an_image_is_a_target_but_not_of_a_plan :
  resolveRollbackTarget no_vfaults "web" 1 (RollbackSourceForRuntime "docker" 1) images = Ok 1 ∧
  is_ok (PlanRollback None None None no_vfaults FileStore.no_faults "web" (mkInput 1 false 0 "") images
           {[ deploy_json := Data serving ]}) = false.
Proof. split; vm_compute; reflexivity. Qed.

Lemma images_alone_are_never_recovered_witness :
  vs_binaries images = ∅ ∧ is_ok (AutoRollbackTarget no_vfaults "web" 2 images) = false.
Proof. split; [reflexivity|]. apply (images_alone_are_never_recovered no_vfaults "web" 2 images). reflexivity. Defined.

Definition dry_run : RollbackPlanInput := mkInput 1 false 0 "".
Definition plan_options : RollbackOptions := mkRollback "web" "id1" 0 1 0 0 None true "" "" None None.

Lemma the_plan_agrees_with_the_rollback_witness :
  ∃ r h', resolved calm_env plan_options host0 = Some (r, h') ∧
  match PlanRollback None (Some true) None no_vfaults FileStore.no_faults "web" dry_run two_versions
          {[ deploy_json := Data serving ]} with
  | Ok p => (RP_Strategy p = "classic" ∧ is_ok r = false) ∨
            ∃ s, r = Ok (s, (RP_CurrentVersion p, RP_TargetVersion p)) ∧ RP_Strategy p = D_Mode s ∧
                 one_of (RP_Strategy p) [ModeBlueGreen; ModeRolling] = true
  | Err _ => is_ok r = false
  end.
Proof.
  apply (the_plan_agrees_with_the_rollback calm_env no_vfaults FileStore.no_faults None (Some true) None plan_options dry_run host0);
    [reflexivity..|]. intros s Hs. revert Hs. vm_compute. by intros [= <-].
Defined.

(** A window of ten seconds over one target. *)
Definition watched_target : VerifyTarget := mkVerifyTarget "classic" "127.0.0.1:9001" 100.

Lemma an_observation_ends_and_passes_only_the_healthy_witness :
  ∃ r, VerifyRollbackStability (steady true) "web" (10 * Second) [watched_target] NoState = Some r ∧
       if bool_decide ([watched_target] = []) then r ≠ None else verdict_of (steady true) [watched_target] r.
Proof.
  apply (an_observation_ends_and_passes_only_the_healthy (steady true) "web" (10 * Second) [watched_target] NoState).
  - vm_compute. reflexivity.
  - intros k. cbn [steady wt_remaining]. replace (Z.of_nat (k * length (verification_targets [watched_target] NoState)))
      with (Z.of_nat k) by (simpl; lia). assert (verify_tick (10 * Second) = Second) as -> by (vm_compute; reflexivity).
    assert (0 < Second) by done. nia.
Defined.

Lemma a_reason_is_kept_in_one_form_witness :
  ValidateRollbackReason "  bad   release " true = Ok "bad release" ∧
  "bad release" = Join (Fields "  bad   release ") " " ∧ Fields "bad release" = Fields "  bad   release " ∧
  len (runes "bad release") ≤ MaxRollbackReasonLength ∧ (true = true → "bad release" ≠ "") ∧
  ∀ again, "bad release" ≠ "" → ValidateRollbackReason "bad release" again = Ok "bad release".
Proof.
  split; [vm_compute; reflexivity|].
  apply (a_reason_is_kept_in_one_form "  bad   release " true "bad release"). vm_compute. reflexivity.
Defined.
End RollbackChecksSamples.
