(* ===== verification/Rollout.v ===== *)
(** * Rollout: canary and progressive deployments

    internal/deploy/rollout.go.  The new version starts on the inactive slot
    and takes a growing share of the traffic, step by step; each share has to
    survive a verification before the next one.  The last step is the
    promotion.  Every failure after the first switch goes through [abort],
    which sends the traffic back to the stable instance.

    [m_flag] is the field [enrolled]; the local [switched] of the code is an
    argument of the steps. *)

From S2P Require Import Prelude GoLib FileStore ProxyRouting DeployState Versions Engine.
From S2P Require Import BlueGreen GoText Errors.

(** ** Plans *)

(* src: internal/deploy/rollout.go RolloutStep *)
Record RolloutStep := mkStep { TrafficPercent : Z; Duration : Z }.

(** The bounds of the verification belong to the verifier. *)
(* src: internal/deploy/rollout.go RolloutPlan *)
Record RolloutPlan := mkPlan { P_Strategy : string; P_Steps : list RolloutStep }.

(* src: internal/deploy/rollout.go StrategyCanary *)
Definition StrategyCanary := "canary".
(* src: internal/deploy/rollout.go StrategyProgressive *)
Definition StrategyProgressive := "progressive".
(* src: internal/deploy/rollout.go DefaultCanaryPercent *)
Definition DefaultCanaryPercent := 10.

(** The loop over the steps; [prev] is the share of the step before. *)
(* src: internal/deploy/rollout.go:126-142 RolloutPlan.Validate *)
Fixpoint check_steps (i prev : Z) (steps : list RolloutStep) : res unit :=
  match steps with
  | [] => Ok tt
  | s :: rest =>
      let at_step := "rollout: step " +:+ Itoa (i + 1) +:+ " has " in
      fail_if ((TrafficPercent s <? 1) || (100 <? TrafficPercent s))%bool
        (New CodeInvalidArgument (at_step +:+ "traffic " +:+ Itoa (TrafficPercent s) +:+
           "%; each step must be between 1% and 100%")) ≫= λ _,
      fail_if (TrafficPercent s <=? prev)
        (New CodeInvalidArgument (at_step +:+ "traffic " +:+ Itoa (TrafficPercent s) +:+
           "% but the previous step was " +:+ Itoa prev +:+ "%; traffic must strictly increase")) ≫= λ _,
      fail_if (Duration s <? 0)
        (New CodeInvalidArgument (at_step +:+ "negative duration " +:+ duration_string (Duration s))) ≫= λ _,
      check_steps (i + 1) (TrafficPercent s) rest
  end.

(* src: internal/deploy/rollout.go RolloutPlan.Validate *)
Definition Validate (p : RolloutPlan) : res unit :=
  fail_if (P_Strategy p =s "") (New CodeInvalidArgument "rollout: strategy is required") ≫= λ _,
  fail_if (len (P_Steps p) <? 2)
    (New CodeInvalidArgument ("rollout: at least 2 steps are required (a canary share and the final 100% promotion), got " +:+
       Itoa (len (P_Steps p)))) ≫= λ _,
  check_steps 0 0 (P_Steps p) ≫= λ _,
  let last := TrafficPercent (List.last (P_Steps p) (mkStep 0 0)) in
  fail_if (negb (last =? 100))
    (New CodeInvalidArgument ("rollout: the final step must be the 100% promotion, got " +:+
       Itoa last +:+ "%")).

(* src: internal/deploy/rollout.go CanaryPlan *)
Definition CanaryPlan (percent verification : Z) : RolloutPlan :=
  mkPlan StrategyCanary [mkStep percent verification; mkStep 100 0].

(** ** The deployment *)

(* src: internal/deploy/rollout.go Rollout *)
Record Rollout := mkRollout {
  ro_AppName : string;
  ro_AppID : string;
  ro_PublicPort : Z;
  ro_Plan : RolloutPlan;
  ro_Source : bool;
  ro_Launcher : bool;
  ro_ProxyClient : bool;
  ro_PortHandoff : bool;
  ro_Runtime : string;
  ro_Network : string;
  ro_Secrets : option string
}.

Definition inst_Slot (v : string) (i : Instance) : Instance :=
  mkInstance (I_SecretEnvs i) v (I_PID i) (I_Port i) (I_BinaryPath i) (I_ContainerID i)
    (I_StartedAt i) (I_Status i) (I_Version i) (I_EnvPath i) (I_StartTicks i).

(* src: internal/deploy/rollback_history.go MaxRollbackReasonLength *)
Definition MaxRollbackReasonLength := 500%nat.

(* src: internal/deploy/auto_rollback.go truncateReason *)
Definition truncateReason (s : string) : string :=
  let r := runes s in
  if (length r <=? MaxRollbackReasonLength)%nat then s
  else String.concat "" (take MaxRollbackReasonLength r).

Definition newline : string := String (ascii_of_nat 10) "".

(* src: internal/deploy/rollout.go withoutInstance *)
Definition withoutInstance (l : list Instance) (keep : Instance) : list Instance :=
  List.filter (λ inst, negb
    (((I_ContainerID keep <>s "") && (I_ContainerID inst =s I_ContainerID keep)) ||
     ((I_ContainerID keep =s "") && (I_ContainerID inst =s "") && (I_PID inst =? I_PID keep))))%bool l.

(* src: internal/deploy/rollout.go firstLiveReplica *)
Definition firstLiveReplica (os : os_view) (s : DeployState) : option Instance :=
  List.find (InstanceAlive os) (instances_at (D_Replicas s) (sortedReplicaKeys (D_Replicas s))).

Section Deploy.
Variable ev : env.
Variable ro : Rollout.

(** *** Traffic *)

(* src: internal/deploy/rollout.go Rollout.switchTraffic *)
Definition switchTraffic (primary : Target) (backends : list Target) : M unit :=
  if negb (ro_ProxyClient ro) then throw (New CodeProxy "rollout: no proxy client")
  else
    do enrolled <- get_flag;
    if enrolled : bool then proxy_Switch ev primary backends
    else
      (if (ro_PortHandoff ro && (0 <? ro_PublicPort ro))%bool then
         do t <- tick;
         if e_port_available ev t then ret tt
         else match e_handoff ev t with
         | Some e => throw (wrap CodeProxy "classic handoff failed" e)
         | None =>
             if e_released ev t then ret tt
             else throw (New CodePortUnavailable ("public port " +:+ Itoa (ro_PublicPort ro) +:+
                    " still bound after stopping the classic instance"))
         end
       else ret tt) ;;;
      proxy_Add ev (ro_PublicPort ro) primary backends ;;; set_flag true.

(* src: internal/deploy/rollout.go Rollout.restoreStableRouting *)
Definition restoreStableRouting (stable : option Instance) : M unit :=
  if negb (ro_ProxyClient ro) then throw (New CodeProxy "rollout: no proxy client")
  else
    match stable with
    | Some i =>
        if I_Port i <=? 0 then throw (New CodeProxy "rollout: no stable target to restore routing to")
        else proxy_Switch ev (mkTarget (hostPort (I_Port i)) (I_Slot i) 0) []
    | None => throw (New CodeProxy "rollout: no stable target to restore routing to")
    end.

(* src: internal/deploy/rollout.go Rollout.undoMigration *)
Definition undoMigration (pre : modeSnapshot) : M unit :=
  if ((m_mode pre =s "") || (m_mode pre =s ModeBlueGreen))%bool then ret tt
  else modify (restoreMode pre) ;;; storeState ev.

(** *** The record of the rollout *)

Definition canary_Status (status reason : string) (now : Z) (c : CanaryState) : CanaryState :=
  mkCanary (C_Version c) (C_Strategy c) (C_Slot c) (C_Step c) (C_Steps c) (C_TrafficPercent c)
    status reason (C_StartedAt c) now.
Definition canary_Step (step percent now : Z) (c : CanaryState) : CanaryState :=
  mkCanary (C_Version c) (C_Strategy c) (C_Slot c) step (C_Steps c) percent
    (C_Status c) (C_Reason c) (C_StartedAt c) now.
Definition on_canary (f : CanaryState → CanaryState) (s : DeployState) : DeployState :=
  with_Canary (f <$> D_Canary s) s.

Definition interrupted (s : DeployState) : bool :=
  match D_Canary s with Some c => C_Status c =s CanaryRunning | None => false end.

(** *** Before the canary *)

(** Step 2: the instance the canary is compared with. *)
(* src: internal/deploy/rollout.go:282-298 Rollout.Deploy *)
Definition find_stable : M Instance :=
  do s <- get_state;
  do t <- tick;
  do stable <- (if D_Mode s =s ModeRolling then
                  match firstLiveReplica (e_os ev t) s with
                  | None => throw (New CodeInvalidArgument ("rollout: the rolling deployment of " +:+
                      Quote (ro_AppName ro) +:+ " has no live replica to use as the stable baseline" +:+
                      newline +:+ "Hint: rebuild with --strategy rolling first"))
                  | Some i => ret (Some i)
                  end
                else ret (D_Slots s !! D_ActiveSlot s));
  let missing := throw (New CodeInvalidArgument ("rollout: " +:+ Quote (ro_AppName ro) +:+
    " has no running stable version to canary against (active slot " +:+ Quote (D_ActiveSlot s) +:+
    " is not serving)" +:+ newline +:+ "Hint: start the app or rebuild with --blue-green first")) in
  match stable with
  | None => missing
  | Some i =>
      if I_Port i <=? 0 then missing
      else do alive <- alive_now ev i; if alive : bool then ret i else missing
  end.

(** Step 3: onto the blue-green topology; a rolling fleet keeps one replica,
    adopted as the blue slot.  The result is the stable instance and the ones
    to retire. *)
(* src: internal/deploy/rollout.go:304-326 Rollout.Deploy *)
Definition adopt (pre : modeSnapshot) (stable : Instance) : M (Instance * list Instance) :=
  do legacy <- wrap_err (MigrateTo ev ModeBlueGreen)
    (wrap CodeFilesystem "rollout: persist strategy migration");
  modify (λ s, match ro_Secrets ro with
               | Some _ => with_Retiring (D_Retiring s ++ legacy) s
               | None => s
               end) ;;;
  if m_mode pre =s ModeRolling then
    let adopted := inst_Slot SlotBlue stable in
    modify (λ s, with_ActiveSlot SlotBlue (with_Slots
      (<[SlotGreen := stopped_instance SlotGreen]> (<[SlotBlue := adopted]> (D_Slots s))) s)) ;;;
    storeState ev ;;;
    ret (adopted, withoutInstance legacy adopted)
  else ret (stable, legacy).

(** Step 4: an interrupted rollout converges on stable; a failed switch is only
    logged.  Then the leftovers are reclaimed. *)
(* src: internal/deploy/rollout.go:333-351 Rollout.Deploy *)
Definition recover (stable : Instance) : M unit :=
  do s <- get_state;
  (if interrupted s then
     ignore (restoreStableRouting (Some stable)) ;;;
     do t <- tick;
     modify (on_canary (canary_Status CanaryAborted "recovered: previous rollout was interrupted" (e_now ev t))) ;;;
     storeState ev
   else ret tt) ;;;
  do t <- tick;
  modify (ReapStaleInstances (e_os ev t)) ;;;
  do s <- get_state;
  recoverStaleSlots ev (D_ActiveSlot s).

(** Steps 5 and 6: the artifact and the canary process, up to its first write. *)
(* src: internal/deploy/rollout.go:352-403 Rollout.Deploy *)
Definition launch_canary (pre : modeSnapshot) (canarySlot : string) : M Z :=
  do enrolled <- proxyEnrolled ev (ro_ProxyClient ro);
  set_flag enrolled ;;;
  modify (λ s, match D_Slots s !! canarySlot with
               | Some _ => s
               | None => with_Slots (<[canarySlot := stopped_instance canarySlot]> (D_Slots s)) s
               end) ;;;
  let failed A (e : error) : M A := undoMigration pre ;;; throw e in
  do t <- tick;
  match e_build ev t with
  | Err e => failed _ (wrap CodeBuildFailed "rollout: prepare deploy artifact" e)
  | Ok (binaryPath, envPath) =>
      do t <- tick;
      match e_overlay ev t with
      | Err e => failed _ (wrap (CodeOf (Some e)) "rollout: load env snapshot" e)
      | Ok envs =>
          do l <- attempt (launch ev);
          match l with
          | Err e => failed _ (wrap CodeInstanceStartFailed "rollout: start canary instance" e)
          | Ok (p, port) =>
              do t <- tick;
              modify (λ s, with_Slots (<[canarySlot :=
                mkInstance envs canarySlot (p_pid p) port binaryPath (p_container p) (e_now ev t)
                  "starting" (e_target ev) envPath (p_ticks p)]> (D_Slots s)) s) ;;;
              do x <- attempt (persist ev);
              match x with
              | Err e =>
                  stop_held port ;;;
                  failed _ (wrap CodeFilesystem "rollout: persist canary instance state" e)
              | Ok _ => ret port
              end
          end
      end
  end.

(** The canary is stopped before any traffic reached it. *)
(* src: internal/deploy/rollout.go:412-416 Rollout.Deploy *)
Definition drop_canary (pre : modeSnapshot) (canarySlot : string) (port : Z) (e : error) : M unit :=
  stop_held port ;;;
  modify (on_slot canarySlot failed_instance) ;;;
  storeState ev ;;;
  undoMigration pre ;;;
  throw e.

(** The health gate, then the record that marks a rollout in flight. *)
(* src: internal/deploy/rollout.go:406-448 Rollout.Deploy *)
Definition gate_canary (pre : modeSnapshot) (canarySlot : string) (port : Z) : M unit :=
  do t <- tick;
  do x <- attempt (wait_healthy ev t port);
  match x with
  | Err e => drop_canary pre canarySlot port (wrap CodeHealthCheckFailed
      "rollout aborted: canary unhealthy; stable instance untouched"
      (wrap CodeHealthCheckFailed "probe target" e))
  | Ok _ =>
      do t <- tick;
      modify (on_slot canarySlot (inst_Status "running")) ;;;
      modify (with_Health (Some (mkHealthSummary (e_tier ev).1 (e_tier ev).2 (e_now ev t)))) ;;;
      modify (with_Canary (Some (mkCanary (e_target ev) (P_Strategy (ro_Plan ro)) canarySlot 0
        (len (P_Steps (ro_Plan ro))) 0 CanaryRunning "" (e_now ev t) (e_now ev t)))) ;;;
      do x <- attempt (persist ev);
      match x with
      | Ok _ => ret tt
      | Err e => drop_canary pre canarySlot port
                   (wrap CodeFilesystem "rollout: persist in-flight rollout state" e)
      end
  end.

(** *** The steps *)

(** What the steps know of the rollout. *)
Record rollout_ctx := mkCtx {
  x_pre : modeSnapshot;
  x_stable : Instance;
  x_stableSlot : string;
  x_canarySlot : string;
  x_port : Z;
  x_oldStamp : string
}.

(** Every failure of a step ends here: the traffic goes back to the stable
    instance, the canary is retired and stopped - unless the traffic could not
    be sent back or the caller wants it kept. *)
(* src: internal/deploy/rollout.go:460-497 Rollout.Deploy *)
Definition abort (x : rollout_ctx) (switched : bool) (reason : error) (status : string)
    (keepCanary : bool) : M unit :=
  do keep <- (if switched then
                do back <- attempt (restoreStableRouting (Some (x_stable x)));
                ret (keepCanary || negb (is_ok back))%bool
              else ret keepCanary);
  (if keep then ret tt else modify (with_SecretTxnID (x_oldStamp x))) ;;;
  do t <- tick;
  modify (λ s, with_Canary (Some (canary_Status status (truncateReason (Error reason)) (e_now ev t)
    (default (mkCanary (e_target ev) (P_Strategy (ro_Plan ro)) (x_canarySlot x) 0
                (len (P_Steps (ro_Plan ro))) 0 "" "" 0 0) (D_Canary s)))) s) ;;;
  (if keep then
     do r <- attempt (persist ev);
     match r with Ok _ => ret tt | Err e => throw (join_errors reason e) end
   else
     do r <- attempt (retireFailedCandidate ev (x_canarySlot x));
     match r with
     | Err e => throw (join_errors reason e)
     | Ok _ => stop_held (x_port x)
     end) ;;;
  (if switched then ret tt else undoMigration (x_pre x)) ;;;
  throw reason.

(** The targets of a share. *)
(* src: internal/deploy/rollout.go:517-524 Rollout.Deploy *)
Definition split (x : rollout_ctx) (percent : Z) : Target * list Target :=
  if 100 <=? percent then (mkTarget (hostPort (x_port x)) (x_canarySlot x) 0, [])
  else (mkTarget (hostPort (I_Port (x_stable x))) (x_stableSlot x) (100 - percent),
        [mkTarget (hostPort (x_port x)) (x_canarySlot x) percent]).

(** One step: switch, record, verify; after the first one the instances of the
    previous strategy retire, outside of [abort]. *)
(* src: internal/deploy/rollout.go:501-597 Rollout.Deploy *)
Definition step (x : rollout_ctx) (legacy : list Instance) (i total : Z) (switched : bool)
    (s : RolloutStep) : M unit :=
  let at_step := "step " +:+ Itoa (i + 1) +:+ "/" +:+ Itoa total in
  do t <- tick;
  match e_cancelled ev t with
  | Some e => abort x switched (wrapDeployStep e ("rollout cancelled before " +:+ at_step))
                CanaryAborted false
  | None =>
      let '(primary, backends) := split x (TrafficPercent s) in
      do sw <- attempt (switchTraffic primary backends);
      match sw with
      | Err e => abort x switched (wrap CodeProxy ("rollout failed at " +:+ at_step +:+
                   ": proxy traffic switch failed") e) CanaryFailed false
      | Ok _ =>
          do t <- tick;
          modify (on_canary (canary_Step i (TrafficPercent s) (e_now ev t))) ;;;
          modify (Stamp (ro_Secrets ro) []) ;;;
          do p <- attempt (persist ev);
          match p with
          | Err e => abort x true (wrap CodeFilesystem ("rollout failed at " +:+ at_step +:+
                       ": persist step state") e) CanaryFailed false
          | Ok _ =>
              do t <- tick;
              match e_verify ev t with
              | VerifyCancelled e => abort x true (wrapDeployStep e
                  ("rollout cancelled while verifying " +:+ at_step)) CanaryAborted false
              | BaselineUnhealthy e => abort x true e CanaryFailed true
              | CanaryRejected e => abort x true e CanaryFailed false
              | Verified =>
                  if ((i =? 0) && negb (Nat.eqb (length legacy) 0))%bool
                  then stopRetiredInstances ev legacy else ret tt
              end
          end
      end
  end.

(* src: internal/deploy/rollout.go:499-597 Rollout.Deploy *)
Fixpoint steps (x : rollout_ctx) (legacy : list Instance) (i total : Z) (switched : bool)
    (l : list RolloutStep) : M unit :=
  match l with
  | [] => ret tt
  | s :: rest => step x legacy i total switched s ;;; steps x legacy (i + 1) total true rest
  end.

(** *** The promotion *)

(** The traffic is back on stable: the candidate is retired and stopped. *)
(* src: internal/deploy/rollout.go:625-632 Rollout.Deploy *)
Definition retire_and_stop (x : rollout_ctx) (on_fail : error → error) (after : error) : M unit :=
  modify (on_canary (λ c, canary_Status CanaryFailed (C_Reason c) (C_UpdatedAt c) c)) ;;;
  modify (with_SecretTxnID (x_oldStamp x)) ;;;
  do r <- attempt (retireFailedCandidate ev (x_canarySlot x));
  match r with
  | Err e => throw (on_fail e)
  | Ok _ => stop_held (x_port x) ;;; throw after
  end.

Definition set_active (slot : string) (version : Z) : M unit :=
  modify (λ s, with_ActiveVersion version (with_ActiveSlot slot s)).

(** The traffic goes back, or the record keeps naming the canary. *)
(* src: internal/deploy/rollout.go:618-632 Rollout.Deploy *)
Definition take_back (x : rollout_ctx) (restore : M unit) (on_fail : error → error) (after : error)
    (stuck : error → error) : M unit :=
  do back <- attempt restore;
  match back with
  | Err compErr =>
      set_active (x_canarySlot x) (e_target ev) ;;; storeState ev ;;; throw (stuck compErr)
  | Ok _ => retire_and_stop x on_fail after
  end.

(* src: internal/deploy/rollout.go:602-662 Rollout.Deploy *)
Definition promote_canary (x : rollout_ctx) : M unit :=
  do s <- get_state;
  let oldSlot := D_ActiveSlot s in
  let oldVersion := D_ActiveVersion s in
  set_active (x_canarySlot x) (e_target ev) ;;;
  do t <- tick;
  modify (on_canary (λ c, canary_Status CanaryPromoted (C_Reason c) (e_now ev t) c)) ;;;
  modify (Stamp (ro_Secrets ro) []) ;;;
  do p <- attempt (persist ev);
  match p with
  | Err e =>
      set_active oldSlot oldVersion ;;;
      take_back x (restoreStableRouting (Some (x_stable x))) (join_errors e)
        (wrap CodeFilesystem "rollout: persist promotion failed; traffic restored to stable" e)
        (λ compErr, wrap CodeFilesystem
          ("rollout: persist promotion failed and stable compensation failed: " +:+ Error compErr) e)
  | Ok _ =>
      if 0 <? e_target ev then
        do r <- attempt (promote ev (ro_AppName ro) (e_target ev) ModeBlueGreen);
        match r with
        | Ok _ => ret tt
        | Err e =>
            set_active oldSlot oldVersion ;;;
            do s <- get_state;
            take_back x
              (match D_Slots s !! oldSlot with
               | Some old => if 0 <? I_Port old then restoreStableRouting (Some (x_stable x)) else ret tt
               | None => ret tt
               end)
              (λ e', wrap CodeFilesystem
                ("rollout: promote failed; traffic restored but state restore failed: " +:+ Error e') e)
              e
              (λ compErr, wrap CodeProxy
                ("rollout: promote failed and stable compensation failed: " +:+ Error e) compErr)
        end
      else ret tt
  end.

(* src: internal/deploy/rollout.go:670-686 Rollout.Deploy *)
Definition drain_stable (oldSlot : string) : M unit :=
  do s <- get_state;
  (match D_Slots s !! oldSlot with
   | Some old =>
       if recorded old then
         stopInstance ev old ;;;
         modify (on_slot oldSlot (λ i, inst_Status "stopped" (inst_PID 0 i)))
       else ret tt
   | None => ret tt
   end) ;;;
  wrap_err (persist ev) (wrap CodeFilesystem "rollout: persist drained old-slot state").

(** *** The whole rollout *)

(* src: internal/deploy/rollout.go:263-277 Rollout.Deploy *)
Definition annotate : M modeSnapshot :=
  do s <- get_state;
  if ((D_Mode s <>s ModeBlueGreen) && (D_Mode s <>s ModeRolling))%bool then
    throw (New CodeConfiguration ("rollout: unsupported deploy mode " +:+ Quote (D_Mode s) +:+
      " for " +:+ Quote (ro_AppName ro)))
  else
    modify (with_AppID (ro_AppID ro)) ;;;
    modify (with_secretPreparing (bool_decide (is_Some (ro_Secrets ro)))) ;;;
    modify (λ s, if ro_Runtime ro <>s "" then with_Runtime (ro_Runtime ro) s else s) ;;;
    modify (λ s, if ro_Network ro <>s "" then with_Network (ro_Network ro) s else s) ;;;
    do s <- get_state; ret (captureMode s).

(* src: internal/deploy/rollout.go:263-693 Rollout.Deploy *)
Definition deploy_run : M unit :=
  do pre <- annotate;
  do found <- find_stable;
  do (stable, legacy) <- adopt pre found;
  do s <- get_state;
  let stableSlot := D_ActiveSlot s in
  recover stable ;;;
  do s <- get_state;
  let canarySlot := InactiveSlot s in
  do port <- launch_canary pre canarySlot;
  gate_canary pre canarySlot port ;;;
  do s <- get_state;
  let x := mkCtx pre stable stableSlot canarySlot port (D_SecretTxnID s) in
  steps x legacy 0 (len (P_Steps (ro_Plan ro))) false (P_Steps (ro_Plan ro)) ;;;
  do s <- get_state;
  promote_canary x ;;;
  drain_stable (D_ActiveSlot s).

(* src: internal/deploy/rollout.go Rollout.Deploy *)
Definition Deploy (w : world) : res unit * world :=
  match Validate (ro_Plan ro) with
  | Err e => (Err e, w)
  | Ok _ =>
      if negb (ro_Source ro) then
        (Err (New CodeInvalidArgument "rollout: no BuildSource configured"), w)
      else if negb (ro_Launcher ro) then
        (Err (New CodeInvalidArgument "rollout: no Launcher configured"), w)
      else if negb (ro_ProxyClient ro) then
        (Err (New CodeProxy "rollout: no proxy client (is 'phelix proxy' running?)"), w)
      else
        let t := w_tick w in
        let w := w_set_tick (S t) w in
        match Load (e_fs ev t) (ro_AppName ro) (w_journal w) with
        | NoState => (Err (New CodeInvalidArgument ("rollout: " +:+ Quote (ro_AppName ro) +:+
            " has no existing deployment to use as the stable baseline" +:+ newline +:+
            "Hint: deploy once with 'phelix rebuild " +:+ ro_AppName ro +:+
            " --blue-green' (or --replicas N) before using a canary rollout")), w)
        | LoadError e => (Err (wrap CodeConfiguration "rollout: load deploy state" e), w)
        | Loaded s => let '(r, m) := deploy_run (mkMachine w s false) in (r, m_world m)
        end
  end.
End Deploy.
