(* ===== verification/RolloutVerify.v ===== *)
(** * RolloutVerify: the observation of a canary

    internal/deploy/rollout_verify.go.  A step is observed for its duration:
    sweeps probe the canary and the baseline, and the traffic both served
    between two snapshots of the proxy's counters is compared.  The answer is a
    [verdict] of [Engine]; [Rollout.step] acts on it.

    The window runs against the clock, so its loop has fuel; [verifyStep_ends]
    bounds the sweeps by the duration over the interval. *)

From S2P Require Import Prelude GoLib GoFloat GoText ProxyRouting DeployState Versions Engine Errors.

(** ** The bounds *)

(* src: internal/deploy/rollout.go VerificationConfig *)
Record VerificationConfig := mkConfig {
  Interval : Z; MaxErrorRate : spec_float; MaxErrorDelta : spec_float; MaxP95Factor : spec_float
}.

(* src: internal/deploy/rollout.go DefaultRolloutVerifyInterval *)
Definition DefaultRolloutVerifyInterval : Z := 5 * Second.
(* src: internal/deploy/rollout.go DefaultMaxCanaryErrorRate *)
Definition DefaultMaxCanaryErrorRate : spec_float := f64_of_Z 5.
(* src: internal/deploy/rollout.go DefaultMaxCanaryErrorDelta *)
Definition DefaultMaxCanaryErrorDelta : spec_float := f64_of_Z 2.
(* src: internal/deploy/rollout.go DefaultCanaryP95Factor *)
Definition DefaultCanaryP95Factor : spec_float := f64_of_Z 3.

Definition f64_zero : spec_float := S754_zero false.
Definition f64_div : spec_float → spec_float → spec_float := SFdiv f64_prec f64_emax.
Definition f64_le (x y : spec_float) : bool := SFleb x y.

(* src: internal/deploy/rollout.go VerificationConfig.withDefaults *)
Definition withDefaults (v : VerificationConfig) : VerificationConfig :=
  let or x d := if f64_le x f64_zero then d else x in
  mkConfig (if Interval v <=? 0 then DefaultRolloutVerifyInterval else Interval v)
    (or (MaxErrorRate v) DefaultMaxCanaryErrorRate)
    (or (MaxErrorDelta v) DefaultMaxCanaryErrorDelta)
    (or (MaxP95Factor v) DefaultCanaryP95Factor).

(** ** The metrics *)

(* src: internal/deploy/rollout_verify.go statDelta *)
Record statDelta := mkDelta { sd_requests : Z; sd_errors : Z; sd_buckets : list Z }.

(** [uint64] of an [int64] difference that is not negative is itself. *)
Definition bucket_delta (e s : Z) : Z :=
  let delta := wrap64 (wrap64 e - wrap64 s) in
  (if delta <? 0 then wrap64 e else delta) mod 2 ^ 64.

(* src: internal/deploy/rollout_verify.go deltaBetween *)
Definition deltaBetween (start fin : BackendStat) : statDelta :=
  let requests := wrap64 (BS_Requests fin - BS_Requests start) in
  let errors := wrap64 (BS_Errors fin - BS_Errors start) in
  if requests <? 0 then mkDelta (BS_Requests fin) (BS_Errors fin) []
  else
    let n := length LatencyBucketBounds in
    let full s := Nat.eqb (length (BS_Buckets s)) n in
    mkDelta requests (if errors <? 0 then 0 else errors)
      (if full fin && full start then zip_with bucket_delta (BS_Buckets fin) (BS_Buckets start)
       else if full fin && Nat.eqb (length (BS_Buckets start)) 0 then BS_Buckets fin
       else [])%bool.

Section Metrics.
(** [int64] of a float outside of its range. *)
Variable out_of_range : spec_float → Z.

(** The loop over the buckets; the last bound when none holds the rank. *)
(* src: internal/deploy/rollout_verify.go:273-289 quantileFromBuckets *)
Fixpoint quantile_in (rank : spec_float) (prevBound : Z) (prevCount : spec_float)
    (bounds cumulative : list Z) : Z :=
  let last := default 0 (last LatencyBucketBounds) in
  match bounds, cumulative with
  | bound :: bounds, n :: cumulative =>
      let count := f64_of_Z n in
      if f64_le rank count then
        if SFeqb count prevCount then last
        else
          let frac := f64_div (f64_sub rank prevCount) (f64_sub count prevCount) in
          wrap64 (prevBound + f64_to_int64 out_of_range (f64_mul frac (f64_of_Z (bound - prevBound))))
      else quantile_in rank bound count bounds cumulative
  | _, _ => last
  end.

(* src: internal/deploy/rollout_verify.go quantileFromBuckets *)
Definition quantileFromBuckets (cumulative : list Z) (q : spec_float) : Z :=
  match last cumulative with
  | None => 0
  | Some n =>
      let total := f64_of_Z n in
      if f64_le total f64_zero then 0
      else quantile_in (f64_mul q total) 0 f64_zero LatencyBucketBounds cumulative
  end.

Definition p95 : spec_float := f64_const 95 100.

(* src: internal/deploy/rollout_verify.go errorRate *)
Definition errorRate (errCount requests : Z) : spec_float :=
  if requests <=? 0 then f64_zero
  else f64_div (f64_mul (f64_of_Z 100) (f64_of_Z errCount)) (f64_of_Z requests).

(** What one snapshot says of a backend; an unknown one served nothing. *)
Definition stat_of (snap : gmap string BackendStat) (host : string) : BackendStat :=
  default (mkStat "" "" 0 0 []) (snap !! host).

(* src: internal/deploy/rollout_verify.go Rollout.evaluateStats *)
Definition evaluateStats (cfg : VerificationConfig) (canaryHost stableHost : string)
    (start fin : option (gmap string BackendStat)) : option error :=
  let v := withDefaults cfg in
  let regression msg := Some (New CodeCanaryRegression ("canary regression detected: " +:+ msg)) in
  match start, fin with
  | Some start, Some fin =>
      let c := deltaBetween (stat_of start canaryHost) (stat_of fin canaryHost) in
      let s := deltaBetween (stat_of start stableHost) (stat_of fin stableHost) in
      if sd_requests c <=? 0 then None
      else
        let rate d := f64_div (f64_mul (f64_of_Z 100) (f64_of_Z (sd_errors d))) (f64_of_Z (sd_requests d)) in
        let cRate := rate c in
        let pct := format_fixed 2 in
        if f64_lt (MaxErrorRate v) cRate then
          regression ("canary error rate " +:+ pct cRate +:+ "% exceeds the configured maximum of " +:+
                      pct (MaxErrorRate v) +:+ "%")
        else if sd_requests s <=? 0 then None
        else
          let sRate := rate s in
          let delta := f64_sub cRate sRate in
          if f64_lt (MaxErrorDelta v) delta then
            regression ("error rate baseline " +:+ pct sRate +:+ "% vs canary " +:+ pct cRate +:+
                        "% (delta " +:+ pct delta +:+ "% exceeds the allowed " +:+
                        pct (MaxErrorDelta v) +:+ "%)")
          else
            let cP95 := quantileFromBuckets (sd_buckets c) p95 in
            let sP95 := quantileFromBuckets (sd_buckets s) p95 in
            if (0 <? sP95) && (f64_to_int64 out_of_range (f64_mul (f64_of_Z sP95) (MaxP95Factor v)) <? cP95)
            then regression ("p95 latency " +:+ duration_string (duration_round cP95 Millisecond) +:+
                   " vs baseline " +:+ duration_string (duration_round sP95 Millisecond) +:+
                   " (exceeds the configured " +:+ format_fixed 1 (MaxP95Factor v) +:+ "x factor)")
            else None
  | _, _ => None
  end%bool.
End Metrics.

(** ** The window *)

(* src: internal/deploy/rollout_verify.go StepContext *)
Record StepContext := mkStepContext {
  sc_TrafficPercent : Z; sc_Duration : Z; sc_CanaryPort : Z; sc_CanaryPID : Z;
  sc_StablePort : Z; sc_Tier : string
}.

(** What the n-th look at the world finds. *)
Record watch := mkWatch {
  v_now : nat → Z;                             (* [time.Now] *)
  v_select : nat → option error;               (* [ctx.Done()] before the timer *)
  v_alive : nat → bool;                        (* [pidAlive] of the canary *)
  v_canary : nat → bool;                       (* [health.Check] of the canary *)
  v_stable : nat → bool;                       (* [health.Check] of the baseline *)
  v_stats : nat → option (res (list BackendStat));  (* no [StatsClient], or its answer *)
  v_overflow : spec_float → Z
}.

(* src: internal/deploy/rollout_verify.go ErrStableBaselineUnhealthy *)
Definition ErrStableBaselineUnhealthy : error :=
  Foreign "stable baseline failed its health probe during rollout" None.

Section Verify.
Context (w : watch) (cfg : VerificationConfig) (sc : StepContext).

#[local] Abbreviation interval := (Interval (withDefaults cfg)).

(** One sweep. *)
(* src: internal/deploy/rollout_verify.go:66-80 Rollout.verifyStep *)
Definition probe (n : nat) : option verdict :=
  let at_share := Itoa (sc_TrafficPercent sc) +:+ "% " in
  if ((0 <? sc_CanaryPID sc) && negb (v_alive w n))%bool then
    Some (CanaryRejected (New CodeCanaryRegression ("canary process (pid " +:+ Itoa (sc_CanaryPID sc) +:+
      ") exited while serving " +:+ at_share +:+ "of traffic")))
  else if negb (v_canary w n) then
    Some (CanaryRejected (New CodeCanaryRegression ("canary failed its health check at " +:+ at_share +:+
      "traffic (tier " +:+ sc_Tier sc +:+ ")")))
  else if negb (v_stable w n) then
    Some (BaselineUnhealthy (wrap CodeHealthCheckFailed ("stable baseline on port " +:+
      Itoa (sc_StablePort sc) +:+ " failed its health check during rollout") ErrStableBaselineUnhealthy))
  else None.

(** The loop, from the look [n]: the verdict that ended it, if any, and the
    next look; nothing when the fuel ran out. *)
(* src: internal/deploy/rollout_verify.go:95-109 Rollout.verifyStep *)
Fixpoint window (fuel n : nat) (deadline : Z) : option (option verdict * nat) :=
  match fuel with
  | O => None
  | S fuel =>
      if deadline <=? v_now w n then Some (None, S n)
      else match v_select w (S n) with
      | Some e => Some (Some (VerifyCancelled e), S (S n))
      | None => match probe (S (S n)) with
                | Some v => Some (Some v, S (S (S n)))
                | None => window fuel (S (S (S n))) deadline
                end
      end
  end.

(** A snapshot, and whether the metrics are broken from now on. *)
(* src: internal/deploy/rollout_verify.go Rollout.snapshotStats *)
Definition snapshotStats (n : nat) (broken : bool) : option (gmap string BackendStat) * bool :=
  if broken then (None, true)
  else match v_stats w n with
  | None | Some (Err _) => (None, true)
  | Some (Ok stats) => (Some (foldl (λ out s, <[BS_Host s := s]> out) ∅ stats), false)
  end.

(** The snapshot after the window, against the one before. *)
(* src: internal/deploy/rollout_verify.go:111-112 Rollout.verifyStep *)
Definition compare (n : nat) (start : option (gmap string BackendStat)) (broken : bool) : verdict * bool :=
  let '(fin, broken) := snapshotStats n broken in
  (match evaluateStats (v_overflow w) cfg (hostPort (sc_CanaryPort sc))
           (hostPort (sc_StablePort sc)) start fin with
   | Some e => CanaryRejected e
   | None => Verified
   end, broken).

(** The verdict, and whether the metrics are broken. *)
(* src: internal/deploy/rollout_verify.go Rollout.verifyStep *)
Definition verifyStep (fuel n : nat) (broken : bool) : option (verdict * bool) :=
  let '(start, broken) := snapshotStats n broken in
  match probe (S n) with
  | Some v => Some (v, broken)
  | None =>
      if 0 <? sc_Duration sc then
        match window fuel (S (S (S n))) (v_now w (S (S n)) + sc_Duration sc) with
        | None => None
        | Some (Some v, _) => Some (v, broken)
        | Some (None, n') => Some (compare n' start broken)
        end
      else Some (compare (S (S n)) start broken)
  end.
End Verify.

(** ** What a verdict means *)

Section Verdicts.
Context (w : watch) (cfg : VerificationConfig) (sc : StepContext).

(** The canary answers, and so does the baseline, at the look [n]. *)
Definition canary_up (n : nat) : Prop :=
  v_canary w n = true ∧ (0 < sc_CanaryPID sc → v_alive w n = true).
Definition both_up (n : nat) : Prop := canary_up n ∧ v_stable w n = true.

Lemma probe_verdict n :
  match probe w sc n with
  | None => both_up n
  | Some (CanaryRejected _) => ¬ canary_up n
  | Some (BaselineUnhealthy _) => canary_up n ∧ v_stable w n = false
  | Some _ => False
  end.
Proof.
  unfold probe, both_up, canary_up.
  destruct (0 <? sc_CanaryPID sc) eqn:Ep, (v_alive w n), (v_canary w n), (v_stable w n); bool_prop;
    simpl; naive_solver lia.
Qed.

(** The looks of the i-th turn of the window: the clock, the wait, the probe. *)
Definition clock_at (n i : nat) : nat := (n + 3 * i)%nat.
Definition wait_at (n i : nat) : nat := S (clock_at n i).
Definition probe_at (n i : nat) : nat := S (S (clock_at n i)).

(** Every turn before the k-th was survived. *)
Definition survived (n k : nat) : Prop := ∀ i, (i < k)%nat → both_up (probe_at n i).

Lemma survived_S n k : both_up (probe_at n 0) → survived (S (S (S n))) k → survived n (S k).
Proof.
  intros H0 Hk [|i] Hi; [done|]. replace (probe_at n (S i)) with (probe_at (S (S (S n))) i).
  - apply Hk. lia.
  - unfold probe_at, clock_at. lia.
Qed.

Lemma window_verdict fuel n deadline v n' :
  window w sc fuel n deadline = Some (v, n') →
  ∃ k, survived n k ∧ match v with
    | None => n' = S (clock_at n k) ∧ deadline ≤ v_now w (clock_at n k)
    | Some Verified => False
    | Some (VerifyCancelled e) => v_select w (wait_at n k) = Some e
    | Some (BaselineUnhealthy _) =>
        canary_up (probe_at n k) ∧ v_stable w (probe_at n k) = false
    | Some (CanaryRejected _) => ¬ canary_up (probe_at n k)
    end.
Proof.
  assert (∀ n, survived n 0) as Hzero by (intros m i Hi; lia).
  assert (∀ n, clock_at n 0 = n) as Hc by (intros m; unfold clock_at; lia).
  revert n. induction fuel as [|fuel IH]; intros n; [done|]. simpl.
  destruct (deadline <=? v_now w n) eqn:E; bool_prop.
  { intros [= <- <-]. exists 0%nat. rewrite Hc. auto. }
  destruct (v_select w (S n)) as [e|] eqn:Es.
  { intros [= <- <-]. exists 0%nat. unfold wait_at. rewrite Hc. auto. }
  pose proof (probe_verdict (S (S n))) as Hp. destruct (probe w sc (S (S n))) as [u|].
  { intros [= <- <-]. exists 0%nat. unfold probe_at. rewrite Hc. by destruct u. }
  intros (k & Hk & Hv)%IH. exists (S k). split.
  - apply survived_S; [|done]. unfold probe_at. by rewrite Hc.
  - revert Hv. unfold wait_at, probe_at.
    by replace (clock_at (S (S (S n))) k) with (clock_at n (S k)) by (unfold clock_at; lia).
Qed.
End Verdicts.

(** A backend that served nothing cannot regress. *)
Lemma evaluateStats_needs_traffic other cfg canaryHost stableHost start fin e :
  evaluateStats other cfg canaryHost stableHost start fin = Some e →
  ∃ s f, start = Some s ∧ fin = Some f ∧
    0 < sd_requests (deltaBetween (stat_of s canaryHost) (stat_of f canaryHost)).
Proof.
  unfold evaluateStats. destruct start as [s|], fin as [f|]; try done. cbv zeta.
  destruct (sd_requests (deltaBetween (stat_of s canaryHost) _) <=? 0) eqn:E; [done|]. bool_prop.
  intros _. exists s, f. split; [done|]. split; [done|lia].
Qed.

(** The counters of a window are never negative, and are the difference of the
    snapshots unless the daemon restarted in between. *)
Lemma deltaBetween_counts s f :
  0 ≤ BS_Requests s < 2 ^ 63 → 0 ≤ BS_Requests f < 2 ^ 63 →
  0 ≤ BS_Errors s < 2 ^ 63 → 0 ≤ BS_Errors f < 2 ^ 63 →
  let d := deltaBetween s f in
  0 ≤ sd_requests d ∧ 0 ≤ sd_errors d ∧
  (BS_Requests s ≤ BS_Requests f → sd_requests d = BS_Requests f - BS_Requests s) ∧
  (BS_Requests s ≤ BS_Requests f → BS_Errors s ≤ BS_Errors f →
     sd_errors d = BS_Errors f - BS_Errors s).
Proof.
  intros H1 H2 H3 H4. unfold deltaBetween. rewrite !wrap64_id by (unfold in_int64; lia).
  destruct (_ <? 0) eqn:E; bool_prop; simpl; [lia|].
  destruct (BS_Errors f - BS_Errors s <? 0) eqn:E'; bool_prop; lia.
Qed.

(** ** The window ends *)

Section Termination.
Context (w : watch) (cfg : VerificationConfig) (sc : StepContext).

#[local] Abbreviation interval := (Interval (withDefaults cfg)).

Lemma interval_pos : 0 < interval.
Proof. unfold withDefaults. simpl. destruct (_ <=? 0) eqn:E; [done|]. bool_prop. lia. Qed.

(** The clock does not run backwards, and a timer that fires was waited for. *)
Record clock_ok (deadline : Z) : Prop := {
  clock_mono n : v_now w n ≤ v_now w (S n);
  clock_timer n : v_select w n = None →
    v_now w n + Z.min interval (deadline - v_now w n) ≤ v_now w (S n)
}.

Lemma window_ends deadline fuel n :
  clock_ok deadline → deadline - v_now w n < Z.of_nat fuel * interval →
  window w sc (S fuel) n deadline ≠ None.
Proof.
  intros Hc. pose proof interval_pos as Hi. revert n.
  induction fuel as [|fuel IH]; intros n Hn; simpl.
  { rewrite (proj2 (Z.leb_le _ _)); [done|lia]. }
  destruct (deadline <=? v_now w n) eqn:E; [done|]. bool_prop.
  destruct (v_select w (S n)) eqn:Es; [done|]. destruct (probe w sc (S (S n))); [done|].
  pose proof (clock_timer _ Hc _ Es). pose proof (clock_mono _ Hc n).
  pose proof (clock_mono _ Hc (S (S n))).
  destruct (decide (deadline ≤ v_now w (S (S n)))).
  - simpl. rewrite (proj2 (Z.leb_le _ _)); [done|lia].
  - apply IH. lia.
Qed.
End Termination.

(** The observation of a step ends.  With a clock that does not run
    backwards and timers that wait, a window takes at most as many sweeps as
    its duration holds intervals, and one more. *)
Theorem verifyStep_ends w cfg sc fuel n broken :
  clock_ok w cfg (v_now w (S (S n)) + sc_Duration sc) →
  Z.max 0 (sc_Duration sc) / Interval (withDefaults cfg) + 2 ≤ Z.of_nat fuel →
  verifyStep w cfg sc fuel n broken ≠ None.
Proof.
  intros Hc Hf. unfold verifyStep. destruct (snapshotStats w n broken) as [start b].
  destruct (probe w sc (S n)); [done|].
  destruct (0 <? sc_Duration sc) eqn:Ed; [|done]. bool_prop.
  pose proof (interval_pos cfg) as Hi. rewrite Z.max_r in Hf by lia.
  pose proof (Z.mul_succ_div_gt (sc_Duration sc) _ Hi) as Hd.
  destruct fuel as [|fuel]; [pose proof (Z.div_pos (sc_Duration sc) _ ltac:(lia) Hi); lia|].
  pose proof (window_ends w cfg sc _ fuel (S (S (S n))) Hc) as Hw.
  pose proof (clock_mono _ _ _ Hc (S (S n))).
  destruct (window w sc (S fuel) _ _) as [[[v|] n']|] eqn:Ew; [done|done|].
  exfalso. apply Hw; [|done]. nia.
Qed.

(** What the observation of a step concludes.  A verified canary answered
    every sweep of the whole window, with its process alive, and so did the
    baseline; a baseline is called unhealthy, and a canary rejected, only for
    a sweep that says so or, for the canary, for traffic it served; a
    cancelled observation was cancelled. *)
Theorem verifyStep_verdict w cfg sc fuel n broken v broken' :
  verifyStep w cfg sc fuel n broken = Some (v, broken') →
  let start := S (S (S n)) in
  match v with
  | Verified => both_up w sc (S n) ∧ (0 < sc_Duration sc →
      ∃ k, survived w sc start k ∧
           v_now w (S (S n)) + sc_Duration sc ≤ v_now w (clock_at start k))
  | VerifyCancelled e => ∃ k, v_select w (wait_at start k) = Some e ∧ survived w sc start k
  | BaselineUnhealthy _ => ∃ m, canary_up w sc m ∧ v_stable w m = false
  | CanaryRejected _ =>
      (∃ m, ¬ canary_up w sc m) ∨
      (∃ m s f, broken = false ∧ (snapshotStats w n false).1 = Some s ∧
         (snapshotStats w m false).1 = Some f ∧
         let host := hostPort (sc_CanaryPort sc) in
         0 < sd_requests (deltaBetween (stat_of s host) (stat_of f host)))
  end.
Proof.
  unfold verifyStep. destruct (snapshotStats w n broken) as [st b] eqn:Est.
  pose proof (probe_verdict w sc (S n)) as Hp. destruct (probe w sc (S n)) as [u|].
  { intros [= <- <-]. destruct u; [done|done|eauto|eauto]. }
  assert (∀ n', compare w cfg sc n' st b = (v, broken') → v = Verified ∨ ∃ e, v = CanaryRejected e ∧
      ∃ s f, broken = false ∧ (snapshotStats w n false).1 = Some s ∧
      (snapshotStats w n' false).1 = Some f ∧
      0 < sd_requests (deltaBetween (stat_of s (hostPort (sc_CanaryPort sc)))
                                    (stat_of f (hostPort (sc_CanaryPort sc))))) as Hfin.
  { intros n'. unfold compare. destruct (snapshotStats w n' b) as [fin br] eqn:Ef.
    destruct (evaluateStats _ _ _ _ _ _) as [e|] eqn:Ee; intros [= <- <-]; [|by left]. right.
    exists e. split; [done|]. destruct (evaluateStats_needs_traffic _ _ _ _ _ _ _ Ee) as (s & f & -> & -> & Hr).
    exists s, f. destruct broken; [done|]. rewrite Est. split; [done|]. split; [done|]. split; [|done].
    destruct b; [done|]. by rewrite Ef. }
  destruct (0 <? sc_Duration sc) eqn:Ed; bool_prop.
  - destruct (window _ _ _ _ _) as [[x n']|] eqn:Ew; [|done].
    destruct (window_verdict _ _ _ _ _ _ _ Ew) as (k & Hk & Hx).
    destruct x as [x|].
    + intros [= <- <-]. destruct x; [done|by exists k|by eexists|by left; eexists].
    + destruct Hx as [-> Hx]. intros [= [->|(e & -> & s & f & ?)]%Hfin]; [|by right; exists (S (clock_at (S (S (S n))) k)), s, f].
      split; [done|]. intros _. by exists k.
  - intros [= [->|(e & -> & s & f & ?)]%Hfin]; [|by right; exists (S (S n)), s, f].
    split; [done|]. lia.
Qed.

(** ** Observations of a canary on port 9100 beside a baseline on port 9000 *)

Module VerifySamples.

Definition ten_seconds : StepContext := mkStepContext 10 (10 * Second) 9100 200 9000 "tier-1".
Definition defaults : VerificationConfig := mkConfig 0 f64_zero f64_zero f64_zero.

(** [n] requests of which [e] failed, all within 25 milliseconds, and [slow]
    more within 2.5 seconds. *)
Definition stat (host : string) (n e slow : Z) : BackendStat :=
  mkStat "" host (n + slow) e [0; 0; n; n; n; n; n; n; n + slow; n + slow; n + slow].

(** The clock ticks every five seconds; the metrics after the window are [fin]. *)
Definition run_of (fin : list BackendStat) : watch :=
  mkWatch (λ n, Z.of_nat n * 5 * Second) (λ _, None) (λ _, true) (λ _, true) (λ _, true)
    (λ n, Some (Ok (if Nat.eqb n 0 then [] else fin))) (λ _, 0).

Definition fine : watch := run_of [stat "127.0.0.1:9100" 100 1 0; stat "127.0.0.1:9000" 900 9 0].

Lemma fine_clock d : clock_ok fine defaults d.
Proof.
  split; intros n; change (Interval (withDefaults defaults)) with (5 * Second);
    cbn [v_now fine run_of]; rewrite !Nat2Z.inj_succ; unfold Second, Millisecond, Microsecond; lia.
Qed.

Lemma verifyStep_ends_witness :
  verifyStep fine defaults ten_seconds 4 0 false ≠ None.
Proof. apply (verifyStep_ends fine defaults ten_seconds 4 0 false); [apply fine_clock|vm_compute; discriminate]. Defined.

Lemma verifyStep_verdict_witness :
  verifyStep fine defaults ten_seconds 4 0 false = Some (Verified, false) ∧
  both_up fine ten_seconds 1 ∧ (0 < 10 * Second →
    ∃ k, survived fine ten_seconds 3 k ∧ 20 * Second ≤ v_now fine (clock_at 3 k)).
Proof.
  assert (verifyStep fine defaults ten_seconds 4 0 false = Some (Verified, false)) as Hv by (vm_compute; reflexivity).
  split; [exact Hv|]. exact (verifyStep_verdict fine defaults ten_seconds 4 0 false Verified false Hv).
Defined.

Definition verdict_of (fin : list BackendStat) : option string :=
  match verifyStep (run_of fin) defaults ten_seconds 4 0 false with
  | Some (Verified, _) => Some "verified"
  | Some (CanaryRejected e, _) => Some (Error e)
  | _ => None
  end.

Example failing_canary :
  verdict_of [stat "127.0.0.1:9100" 100 6 0] =
  Some "canary regression detected: canary error rate 6.00% exceeds the configured maximum of 5.00%".
Proof. vm_compute. reflexivity. Qed.

Example canary_worse_than_baseline :
  verdict_of [stat "127.0.0.1:9100" 100 4 0; stat "127.0.0.1:9000" 1000 15 0] =
  Some "canary regression detected: error rate baseline 1.50% vs canary 4.00% (delta 2.50% exceeds the allowed 2.00%)".
Proof. vm_compute. reflexivity. Qed.

Example slow_canary :
  verdict_of [stat "127.0.0.1:9100" 80 0 20; stat "127.0.0.1:9000" 1000 0 0] =
  Some "canary regression detected: p95 latency 2.125s vs baseline 24ms (exceeds the configured 3.0x factor)".
Proof. vm_compute. reflexivity. Qed.
End VerifySamples.
