(* ===== verification/RolloutSafety.v ===== *)
(** * RolloutSafety: a canary rollout converges on one version

    The runs of [Rollout.Deploy]: no instance is stopped while the proxy routes
    to it, only instances that served before or were found healthy take
    traffic, and the run ends with all the traffic on the canary, when it
    succeeds, or back where it was, when it fails. *)

From S2P Require Import Prelude GoLib FileStore ProxyRouting DeployState Versions Engine Traffic.
From S2P Require Import BlueGreen BlueGreenPhases Rollout Errors.

(** ** Which plans are accepted *)

Definition step_ok (s : RolloutStep) : Prop := 1 ≤ TrafficPercent s ≤ 100 ∧ 0 ≤ Duration s.

Lemma check_steps_ok i prev l :
  check_steps i prev l = Ok tt ↔ Forall step_ok l ∧ Sorted Z.lt (prev :: (TrafficPercent <$> l)).
Proof.
  revert i prev. induction l as [|s l IH]; intros i prev; simpl.
  { split; [|done]. by repeat constructor. }
  unfold fail_if.
  destruct (_ || _)%bool eqn:E1; bool_prop; simpl.
  { split; [done|]. intros [[[? _] _]%Forall_cons _]. lia. }
  destruct (_ <=? prev) eqn:E2; bool_prop; simpl.
  { split; [done|]. intros [_ [_ Hd%HdRel_inv]%Sorted_inv]. lia. }
  destruct (_ <? 0) eqn:E3; bool_prop; simpl.
  { split; [done|]. intros [[[_ ?] _]%Forall_cons _]. lia. }
  rewrite IH, Forall_cons. split.
  - intros [Hf Hs]. split; [by split; [split; lia|]|]. constructor; [done|]. constructor. lia.
  - intros [[_ Hf] [Hs _]%Sorted_inv]. done.
Qed.

Lemma last_percent l :
  l ≠ [] → List.last (TrafficPercent <$> l) 0 = TrafficPercent (List.last l (mkStep 0 0)).
Proof. induction l as [|x [|y l] IH]; intros Hl; [done|done|]. by apply IH. Qed.

Lemma Validate_last p :
  Validate p = Ok tt → P_Steps p ≠ [] ∧ TrafficPercent (List.last (P_Steps p) (mkStep 0 0)) = 100.
Proof.
  unfold Validate, fail_if. destruct (_ =s _); [done|]. destruct (len _ <? 2) eqn:El; [done|].
  simpl. destruct (check_steps _ _ _) as [[]|e]; simpl; [|done].
  destruct (_ =? 100) eqn:E; simpl; [|done]. intros _. bool_prop. split; [|done].
  intros Hn. by rewrite Hn in El.
Qed.

(** [Validate] accepts exactly the plans of at least two steps, each of 1
    to 100 percent and of a duration that is not negative, whose shares grow
    strictly and end with the full promotion. *)
Theorem Validate_accepts p :
  Validate p = Ok tt ↔
    P_Strategy p ≠ "" ∧ (2 ≤ length (P_Steps p))%nat ∧ Forall step_ok (P_Steps p) ∧
    StronglySorted Z.lt (TrafficPercent <$> P_Steps p) ∧
    List.last (TrafficPercent <$> P_Steps p) 0 = 100.
Proof.
  split.
  - intros Hv. destruct (Validate_last _ Hv) as [Hne Hlast]. rewrite last_percent by done. revert Hv.
    unfold Validate, fail_if. destruct (_ =s _) eqn:Es; [done|]. bool_prop.
    destruct (len _ <? 2) eqn:El; [done|]. simpl.
    destruct (check_steps _ _ _) as [[]|e] eqn:Ec; simpl; [|done]. intros _.
    apply check_steps_ok in Ec as [Hf [Hs _]%Sorted_inv]. bool_prop. unfold len in El.
    split; [done|]. split; [lia|]. split; [done|]. split; [|done]. apply Sorted_StronglySorted; [|done].
    intros ???; lia.
  - intros (Hs & Hl & Hf & Hsort & Hlast). unfold Validate, fail_if.
    destruct (_ =s _) eqn:Es; bool_prop; [done|]. destruct (len _ <? 2) eqn:El; bool_prop; unfold len in El; [lia|].
    simpl. assert (check_steps 0 0 (P_Steps p) = Ok tt) as ->.
    { apply check_steps_ok. split; [done|]. constructor; [by apply StronglySorted_Sorted|].
      destruct (P_Steps p) as [|s l]; [done|]. constructor. apply Forall_cons in Hf as [[[? _] _] _]. simpl. lia. }
    rewrite <- last_percent, Hlast; [done|]. intros Hn. rewrite Hn in Hl. simpl in Hl. lia.
Qed.

Section Safety.
Context (ev : env) (ro : Rollout) (w0 : world).

#[local] Abbreviation old_hosts := (route_hosts (w_route w0)).

Definition live (i : Instance) : Prop := ∃ t, InstanceAlive (e_os ev t) i = true.

Definition recorded_in (s : DeployState) (i : Instance) : Prop :=
  ∃ k, D_Slots s !! k = Some i ∨ D_Replicas s !! k = Some i.

(** The instances that may become the stable baseline. *)
Definition baseline (s : DeployState) (i : Instance) : Prop :=
  D_Mode s = ModeRolling ∧ (∃ k, D_Replicas s !! k = Some i) ∨
  D_Mode s ≠ ModeRolling ∧ D_Slots s !! D_ActiveSlot s = Some i.

(** The record names the same process twice. *)
Definition same_process (keep inst : Instance) : bool :=
  (((I_ContainerID keep <>s "") && (I_ContainerID inst =s I_ContainerID keep)) ||
   ((I_ContainerID keep =s "") && (I_ContainerID inst =s "") && (I_PID inst =? I_PID keep)))%bool.

(** What is known of the environment of a run from the record [s0]. *)
Record lawful (s0 : DeployState) : Prop := {
  law_proxy t e applied : e_proxy ev t = Some (e, applied) → applied = false;
  law_unrouted t p port : e_launch ev t = Ok (p, port) → hostPort port ∉ old_hosts;
  law_fresh t p port i : e_launch ev t = Ok (p, port) → recorded_in s0 i → live i →
    hostPort (I_Port i) ≠ hostPort port;
  law_order l : e_order ev l ≡ₚ l
}.

(** The record agrees with the proxy: a live baseline is routed, live records
    on its address are of the same process, and the other slot is not routed -
    unless a rollout was interrupted, in which case the proxy takes orders. *)
Record agrees (s0 : DeployState) : Prop := {
  ag_routed i : baseline s0 i → live i → hostPort (I_Port i) ∈ old_hosts;
  ag_apart i j : baseline s0 i → live i → recorded_in s0 j → live j →
    hostPort (I_Port j) = hostPort (I_Port i) → same_process i j = true;
  ag_other name j : D_Mode s0 ≠ ModeRolling → name ≠ D_ActiveSlot s0 →
    D_Slots s0 !! name = Some j → live j →
    (∀ i, D_Slots s0 !! D_ActiveSlot s0 = Some i → hostPort (I_Port j) ≠ hostPort (I_Port i)) ∧
    (interrupted s0 = false → hostPort (I_Port j) ∉ old_hosts);
  ag_interrupted : interrupted s0 = true →
    is_Some (w_route w0) ∧ ∀ t, e_proxy ev t = None
}.

(** ** With a stable instance at hand *)

Section Stable.
Context (s0 : DeployState) (Hlaw : lawful s0) (Hclient : ro_ProxyClient ro = true).
Context (stable : Instance) (slot : string) (Hport : 0 < I_Port stable).

#[local] Abbreviation sh := (hostPort (I_Port stable)).

Context (Hrouted : sh ∈ old_hosts).

(** All the traffic on the stable instance. *)
Definition stable_route : route := Some (mkTarget sh (I_Slot stable) 0, []).

(** The record keeps the stable instance on its slot; [a] is the active one. *)
Definition keeps (a : string) (_ : bool) (s : DeployState) : Prop :=
  D_ActiveSlot s = a ∧ ∃ i, D_Slots s !! slot = Some i ∧ I_Port i = I_Port stable.

#[local] Instance keeps_persistent a : Persistent (keeps a).
Proof. by intros f s s' (c & u & ->). Qed.

#[local] Abbreviation phase_at a := (traffic false w0 (keeps a) 0).
#[local] Abbreviation phase := (phase_at slot).

Lemma phase_update a a' K r w s s' f f' :
  phase_at a K r (mkMachine w s f) → (keeps a f s → keeps a' f' s') →
  phase_at a' K r (mkMachine w s' f').
Proof. intros (HI & Hr & Hk & Hn) Hs. split_and!; [done|done|by apply Hs|simpl; lia]. Qed.

Lemma keeps_on_slot a f s c g : c ≠ slot → keeps a f s → keeps a f (on_slot c g s).
Proof. intros Hc [Ha Hi]. split; [done|]. simpl. by rewrite lookup_alter_ne. Qed.

Lemma keeps_insert a f s c i :
  c ≠ slot → keeps a f s → keeps a f (with_Slots (<[c := i]> (D_Slots s)) s).
Proof. intros Hc [Ha Hi]. split; [done|]. simpl. by rewrite lookup_insert_ne. Qed.

(** A run that is over: nothing is left to be stopped. *)
Definition ended (good : route → Prop) (m : machine) : Prop :=
  Inv false w0 [] (m_world m) ∧ good (w_route (m_world m)).

Lemma phase_ended (good : route → Prop) a K r m : phase_at a K r m → good r → ended good m.
Proof. intros Hb Hg. split; [by eapply traffic_end|]. by destruct Hb as (_ & -> & _). Qed.

Lemma restore_traffic St `{!Persistent St} K r m :
  sh ∈ K → is_Some r → traffic false w0 St 0 K r m →
  wp (restoreStableRouting ev ro (Some stable)) (λ x m', match x with
    | Ok _ => traffic false w0 St 0 K stable_route m'
    | Err _ => traffic false w0 St 0 K r m' ∧ ∃ t, e_proxy ev t ≠ None
    end) m.
Proof.
  intros HK [rt ->] Hb. unfold restoreStableRouting. rewrite Hclient. cbn [negb].
  rewrite (proj2 (Z.leb_gt _ _) Hport). unfold proxy_Switch.
  wp_call (proxy_traffic ev false w0 St); [by eapply law_proxy| |exact Hb|].
  { intros rt' [= <-]. split; [done|]. by intros h ->%list_elem_of_singleton. }
  intros [[]|e] m'.
  - by intros (rt' & [= <-] & Hb').
  - intros [Hb' [[e' He]|Ht]]; [done|]. by split.
Qed.

Lemma switchTraffic_phase K r members m :
  (∀ h, h ∈ route_hosts (Some members) → h ∈ K) → phase K r m →
  wp (switchTraffic ev ro members.1 members.2) (λ x m', match x with
    | Ok _ => phase K (Some members) m'
    | Err _ => phase K r m'
    end) m.
Proof.
  intros HK Hb. destruct members as [primary backends]. unfold switchTraffic. rewrite Hclient.
  cbn [negb fst snd]. wp_steps.
  assert (∀ effect m, phase K r m → (∀ rt, effect r = Ok rt → rt = Some (primary, backends)) →
    wp (proxy_call ev effect) (λ x m', match x with
      | Ok _ => phase K (Some (primary, backends)) m'
      | Err _ => phase K r m'
      end) m) as Hcall.
  { intros effect m1 Hb1 He. wp_call (proxy_traffic ev false w0 (keeps slot)); [by eapply law_proxy| |exact Hb1|].
    - intros rt ->%He. by split.
    - intros [[]|e] m'; [|by intros [? _]]. by intros (rt & ->%He & ?). }
  destruct (m_flag m); wp_steps.
  - apply Hcall; [done|]. intros rt. destruct r; [|done]. by intros [= <-].
  - set (handoff := if (_ && (0 <? ro_PublicPort ro))%bool then _ else _).
    assert (wp handoff (λ _ m', phase K r m') m) as Hhand.
    { unfold handoff. destruct (_ && (0 <? ro_PublicPort ro))%bool; wp_steps; [|done].
      apply traffic_tick in Hb. destruct (e_port_available ev _); wp_steps; [done|].
      destruct (e_handoff ev _); wp_steps; [done|]. by destruct (e_released ev _). }
    eapply wp_mono; [exact Hhand|]. clear Hhand Hb m. intros [[]|e] m Hb; [|done]. wp_steps.
    wp_call Hcall; [exact Hb| |].
    + intros rt. destruct (_ <=? 0); [done|]. destruct (T_Host primary =s ""); [done|].
      by intros [= <-].
    + intros [[]|e] m' Hb'; wp_steps; [|done]. destruct m' as [w s f]. by eapply phase_update; [exact Hb'|].
Qed.

(** ** The end of a failed rollout *)

(** The traffic is where it was, on the stable instance, or a message to the
    proxy failed. *)
Definition converged (r : route) : Prop :=
  r = w_route w0 ∨ r = stable_route ∨ ∃ t, e_proxy ev t ≠ None.

Definition failed {A} (x : res A) (m : machine) : Prop := (∃ e, x = Err e) ∧ ended converged m.

Lemma undoMigration_ended good pre m :
  ended good m → wp (undoMigration ev pre) (λ x m', x = Ok tt ∧ ended good m') m.
Proof.
  intros [HI Hg]. unfold undoMigration. destruct (_ || _)%bool; wp_steps; [done|].
  wp_call wp_storeState. intros x m' (-> & (Hr & Hl & _) & _). split; [done|].
  split; [by eapply Inv_unseen|]. by rewrite Hr.
Qed.

(** ** Before any traffic moves *)

Definition launched (port : Z) : Prop := ∃ t p, e_launch ev t = Ok (p, port).

(** The route before the first switch. *)
Definition untouched (r : route) : Prop :=
  converged r ∧ ∀ h, h ∈ route_hosts r → h ∈ old_hosts.

Lemma canary_apart port : launched port → sh ≠ hostPort port.
Proof. intros (t & p & He) Heq. apply (law_unrouted _ Hlaw _ _ _ He). by rewrite <- Heq. Qed.

Lemma untouched_canary r port : untouched r → launched port → hostPort port ∉ route_hosts r.
Proof. intros [_ Hr] (t & p & He) Hin%Hr. by eapply (law_unrouted _ Hlaw). Qed.

Lemma stop_canary_phase r port m :
  untouched r → launched port → phase [sh] r m →
  wp (stop_held port) (λ x m', x = Ok tt ∧ phase [sh] r m') m.
Proof.
  intros Hr Hp Hb. wp_call (stop_held_traffic false w0 (keeps slot)); [|..|exact Hb|done].
  - by eapply untouched_canary.
  - intros Hh%list_elem_of_singleton. by apply (canary_apart port).
Qed.

Lemma undoMigration_converged pre r m :
  untouched r → phase [sh] r m →
  wp (undoMigration ev pre) (λ x m', x = Ok tt ∧ ended converged m') m.
Proof. intros [Hr _] Hb. apply undoMigration_ended. by eapply phase_ended. Qed.

(** A failure before any traffic moved. *)
Ltac undo_and_leave Hb :=
  wp_steps; wp_call undoMigration_converged; [done|exact Hb|];
  let H := fresh in intros ? ? [-> H]; wp_steps; eauto.

Lemma launch_canary_phase pre c r m :
  c ≠ slot → untouched r → phase [sh] r m →
  wp (launch_canary ev ro pre c) (λ x m', match x with
    | Ok port => launched port ∧ phase [sh] r m'
    | Err _ => ended converged m'
    end) m.
Proof.
  intros Hc Hr Hb. unfold launch_canary, proxyEnrolled. rewrite Hclient. cbn [negb]. wp_steps.
  do 2 apply traffic_tick in Hb.
  set (m1 := mkMachine _ _ _). assert (phase [sh] r m1) as Hb1.
  { subst m1. eapply phase_update; [exact Hb|]. intros Hk.
    destruct (D_Slots (m_state m) !! c); [exact Hk|]. by eapply keeps_insert. }
  clear Hb. rename Hb1 into Hb.
  destruct (e_build ev _) as [[bin envp]|e]; wp_steps; [|by undo_and_leave Hb].
  apply traffic_tick in Hb.
  destruct (e_overlay ev _) as [envs|e]; wp_steps; [|by undo_and_leave Hb].
  wp_call (launch_traffic ev false w0 (keeps slot)); [exact Hb|].
  clear Hb. intros [[p port]|e] m2 Hb; wp_steps; [|by undo_and_leave Hb].
  destruct Hb as (t & _ & He & Hb). assert (launched port) as Hp by by exists t, p.
  assert (phase [sh] r m2) as Hb1 by (destruct Hb as (HI & Hw & Hk & _); split_and!; [done..|lia]).
  apply traffic_tick in Hb1. wp_call (persist_traffic ev false w0 (keeps slot)).
  { eapply phase_update; [exact Hb1|]. intros Hk. by eapply keeps_insert. }
  clear Hb Hb1. intros [[]|e] m3 Hb; wp_steps; [done|].
  wp_call stop_canary_phase; [done|done|exact Hb|]. clear Hb. intros ? m4 [-> Hb]. cbv beta iota.
  by undo_and_leave Hb.
Qed.

Lemma drop_canary_failed pre c port e r m :
  c ≠ slot → untouched r → launched port → phase [sh] r m →
  wp (drop_canary ev pre c port e) (λ x m', (∃ e', x = Err e') ∧ ended converged m') m.
Proof.
  intros Hc Hr Hp Hb. unfold drop_canary. wp_steps.
  wp_call stop_canary_phase; [done|done|exact Hb|]. clear Hb m. intros ? m [-> Hb]. wp_steps.
  wp_call (storeState_traffic ev false w0 (keeps slot)).
  { destruct m as [w s f]. eapply phase_update; [exact Hb|]. by apply keeps_on_slot. }
  clear Hb m. intros ? m [-> Hb]. cbv beta iota. by undo_and_leave Hb.
Qed.

Lemma gate_canary_phase pre c port r m :
  c ≠ slot → untouched r → launched port → phase [sh] r m →
  wp (gate_canary ev ro pre c port) (λ x m', match x with
    | Ok _ => phase [hostPort port; sh] r m'
    | Err _ => ended converged m'
    end) m.
Proof.
  intros Hc Hr Hp Hb. unfold gate_canary. wp_steps. apply traffic_tick in Hb. unfold wait_healthy.
  destruct (e_health ev _); wp_steps.
  - wp_call drop_canary_failed; [done|done|done|exact Hb|]. by intros x m' [[e' ->] Hm].
  - apply traffic_tick in Hb. apply (traffic_healthy _ _ _ _ _ _ (hostPort port)) in Hb.
    wp_call (persist_traffic ev false w0 (keeps slot)).
    { eapply phase_update; [exact Hb|]. by apply keeps_on_slot. }
    clear Hb m. intros [[]|e] m Hb; [exact Hb|].
    wp_call drop_canary_failed; [done|done|done| |by intros x m' [[e' ->] Hm]].
    eapply traffic_weaken; [|exact Hb]. intros h Hh. by right.
Qed.

(** ** Recovering from an interrupted rollout *)

(** The other slots hold nothing that a stop would cut off. *)
Definition reclaimable (r : route) (slots : gmap string Instance) : Prop :=
  ∀ name j, name ≠ slot → slots !! name = Some j → live j →
    hostPort (I_Port j) ≠ sh ∧ hostPort (I_Port j) ∉ route_hosts r.

Lemma recoverStaleSlots_phase r m :
  reclaimable r (D_Slots (m_state m)) → phase [sh] r m →
  wp (recoverStaleSlots ev slot) (λ _ m', phase [sh] r m') m.
Proof.
  intros Hrec Hb. unfold recoverStaleSlots. wp_steps. apply wp_for_each; [done|].
  set (slots := D_Slots (m_state m)) in *. clearbody slots. clear m Hb.
  intros [name j] m Hin Hb. apply in_order_lookup in Hin. unfold recover_slot.
  destruct (name =s slot) eqn:En; wp_steps; [done|]. bool_prop.
  destruct (recorded j); cbn [negb]; wp_steps; [|done].
  assert (∀ w s f, phase [sh] r (mkMachine w s f) →
    phase [sh] r (mkMachine w (on_slot name (λ i, inst_Status "stopped" (inst_PID 0 i)) s) f)) as Hmark.
  { intros w s f Hb1. eapply phase_update; [exact Hb1|]. by apply keeps_on_slot. }
  unfold alive_now. wp_steps. apply traffic_tick in Hb.
  destruct ((I_ContainerID j =s "") && _)%bool.
  - destruct (one_of (I_Status j) _); wp_steps; [by apply Hmark|done].
  - wp_steps. wp_call (stop_traffic ev false w0 (keeps slot)); [|exact Hb|].
    + intros t Ha. destruct (Hrec name j En Hin (ex_intro _ t Ha)) as [H1 H2].
      by rewrite list_elem_of_singleton.
    + clear Hb m. intros x m [Hb [rep ->]]. destruct (rep_Exited rep); cbn [negb]; wp_steps; [|done].
      destruct m as [w s f]. by apply Hmark.
Qed.

Lemma recover_phase m :
  reclaimable (if interrupted (m_state m) then stable_route else w_route w0) (D_Slots (m_state m)) →
  (interrupted (m_state m) = true → is_Some (w_route w0) ∧ ∀ t, e_proxy ev t = None) →
  phase old_hosts (w_route w0) m →
  wp (recover ev ro stable) (λ x m', ∃ r, untouched r ∧ phase [sh] r m') m.
Proof.
  intros Hrec Hint Hb. unfold recover. wp_steps.
  assert (untouched (w_route w0)) as Hsame by (split; [by left|done]).
  assert (untouched stable_route) as Hstable.
  { split; [by right; left|]. by intros h ->%list_elem_of_singleton. }
  set (slots := D_Slots (m_state m)) in *.
  set (r := if interrupted (m_state m) then stable_route else w_route w0) in *.
  assert (untouched r) as Hr by (subst r; by destruct (interrupted (m_state m))).
  assert (phase [sh] (w_route w0) m) as Hb0.
  { eapply traffic_weaken; [|exact Hb]. by intros h ->%list_elem_of_singleton. }
  set (also := λ (f : bool) s, keeps slot f s ∧ D_Slots s = slots).
  assert (Persistent also) by by intros f s s' (c & u & ->).
  assert (wp (if interrupted (m_state m) then
     ignore (restoreStableRouting ev ro (Some stable)) ;;;
     do t <- tick;
     modify (on_canary (canary_Status CanaryAborted "recovered: previous rollout was interrupted" (e_now ev t))) ;;;
     storeState ev
   else ret tt) (λ x m', x = Ok tt ∧ phase [sh] r m' ∧ D_Slots (m_state m') = slots) m) as Hfirst.
  { subst r. destruct (interrupted (m_state m)); wp_steps; [|done].
    destruct (Hint eq_refl) as [Hsome Hnone].
    assert (traffic false w0 also 0 [sh] (w_route w0) m) as Hb1.
    { destruct Hb0 as (HI & Hw & Hk & Hn). split_and!; [done|done|by split|done]. }
    wp_call (restore_traffic also); [by left|done|exact Hb1|].
    clear Hb Hb0 Hb1. intros [[]|e] m1 Hb1; [|destruct Hb1 as [_ [t Ht]]; by rewrite Hnone in Ht].
    wp_steps. apply traffic_tick in Hb1. wp_call (storeState_traffic ev false w0 also).
    { destruct Hb1 as (HI & Hw & [Hk Hs] & Hn). split_and!; [done|done|by split|done]. }
    intros ? m2 (-> & HI & Hw & [Hk Hs] & Hn). split; [done|]. split; [by split_and!|done]. }
  eapply wp_mono; [exact Hfirst|]. clear Hfirst Hb Hb0. clearbody slots r. clear m Hint.
  intros ? m (-> & Hb & Hs). wp_steps. apply traffic_tick in Hb.
  assert (D_ActiveSlot (m_state m) = slot) as Ha by apply Hb.
  change (D_ActiveSlot (ReapStaleInstances (e_os ev (w_tick (m_world m))) (m_state m)))
    with (D_ActiveSlot (m_state m)). rewrite Ha.
  wp_call recoverStaleSlots_phase; [| |intros x m' Hb'; by exists r].
  - intros name j Hne Hj Hl. simpl in Hj. rewrite lookup_fmap, Hs in Hj.
    apply fmap_Some in Hj as (i & Hi & ->). rewrite reap_port. apply (Hrec name i); [done|done|].
    destruct Hl as [t Ht]. exists t. by eapply reap_alive.
  - eapply phase_update; [exact Hb|]. intros (Ha' & i & Hi & Hp). split; [done|]. simpl.
    rewrite lookup_fmap, Hi. eexists. split; [done|]. by rewrite reap_port.
Qed.

(** The address of the canary. *)
Context (c : string) (port : Z) (Hc : c ≠ slot) (Hsh : sh ≠ hostPort port).

#[local] Abbreviation both := [hostPort port; sh].

Lemma retire_phase a K r m :
  phase_at a K r m → wp (retireFailedCandidate ev c) (λ _ m', phase_at a K r m') m.
Proof.
  apply retireFailedCandidate_traffic; [apply _|..]; [|done|done].
  intros f s g. by apply keeps_on_slot.
Qed.

(** What the steps know. *)
Definition about (x : rollout_ctx) : Prop :=
  x_stable x = stable ∧ x_stableSlot x = slot ∧ x_canarySlot x = c ∧ x_port x = port.

(** Where the traffic may be when a step fails. *)
Definition in_step (switched : bool) (r : route) : Prop :=
  if switched then is_Some r else converged r ∧ hostPort port ∉ route_hosts r.

Lemma abort_failed x switched reason status keep r m :
  about x → in_step switched r → phase both r m →
  (switched = false → keep = false) →
  wp (abort ev ro x switched reason status keep) failed m.
Proof.
  intros (E1 & _ & E3 & E4) Hin Hb Hkeep. unfold abort. rewrite E1, E3, E4. wp_steps.
  assert (wp (if switched then
                do back <- attempt (restoreStableRouting ev ro (Some stable));
                ret (keep || negb (is_ok back))%bool
              else ret keep)
    (λ x m', ∃ k r', x = Ok k ∧ phase both r' m' ∧ converged r' ∧
                     (k = false → hostPort port ∉ route_hosts r')) m) as Hback.
  { destruct switched; wp_steps; [|destruct Hin; eauto 9].
    wp_call (restore_traffic (keeps slot)); [by right; left|done|exact Hb|]. intros [[]|e] m'; wp_steps.
    - intros Hb'. exists (keep || false)%bool, stable_route. split; [done|]. split; [done|].
      split; [by right; left|]. intros _ Hh%list_elem_of_singleton. by apply Hsh.
    - intros [Hb' Ht]. exists true, r. rewrite orb_true_r. split; [done|]. split; [done|].
      split; [by right; right|done]. }
  eapply wp_mono; [exact Hback|]. clear Hback Hb Hin Hkeep m.
  intros [k|e] m (k' & r' & Hx & Hb & Hconv & Hn); [|done]. injection Hx as <-.
  cbv beta iota. wp_steps. destruct m as [w s f]. set (s1 := if k then s else with_SecretTxnID (x_oldStamp x) s).
  apply (phase_update _ slot _ _ _ _ s1 _ f) in Hb; [|by subst s1; destruct k].
  assert (wp (if k then ret tt else modify (with_SecretTxnID (x_oldStamp x)))
    (λ x m', x = Ok tt ∧ m' = mkMachine w s1 f) (mkMachine w s f)) as Hstamp by (by destruct k).
  eapply wp_mono; [exact Hstamp|]. clear Hstamp. clearbody s1. intros ? m [-> ->]. wp_steps.
  apply traffic_tick in Hb. set (m2 := mkMachine _ _ _).
  assert (phase both r' m2) as Hb2 by (eapply phase_update; [exact Hb|done]).
  clearbody m2. clear Hb s1 w s f.
  assert (wp (if k then
     do r <- attempt (persist ev);
     match r with Ok _ => ret tt | Err e => throw (join_errors reason e) end
   else
     do r <- attempt (retireFailedCandidate ev c);
     match r with
     | Err e => throw (join_errors reason e)
     | Ok _ => stop_held port
     end) (λ _ m', ended converged m') m2) as Hend.
  { destruct k; wp_steps.
    - wp_call (persist_traffic ev false w0 (keeps slot)); [exact Hb2|].
      intros [[]|e] m Hb; wp_steps; by eapply phase_ended.
    - wp_call retire_phase; [exact Hb2|]. intros [[]|e] m Hb; wp_steps; [|by eapply phase_ended].
      wp_call (stop_held_traffic false w0 (keeps slot) 0 [sh] r'); [by apply Hn| | |].
      + by intros Hh%list_elem_of_singleton.
      + eapply (traffic_weaken _ _ _ _ _ [sh]); [|exact Hb]. intros h Hh. by right.
      + intros ? m' [-> Hb']. by eapply phase_ended. }
  eapply wp_mono; [exact Hend|]. clear Hend Hb2 m2. intros [[]|e] m Hm; [|by split; [eauto|]]. wp_steps.
  assert (wp (if switched then ret tt else undoMigration ev (x_pre x))
    (λ y m', y = Ok tt ∧ ended converged m') m) as Hundo.
  { destruct switched; [done|]. by apply undoMigration_ended. }
  eapply wp_mono; [exact Hundo|]. intros ? m' [-> Hm']. wp_steps. split; [eauto|done].
Qed.

(** ** The steps *)

(** Between two steps. *)
Definition going (switched : bool) (m : machine) : Prop :=
  ∃ r, in_step switched r ∧ phase both r m.

(** An instance that is neither the stable one nor the canary. *)
Definition beside (j : Instance) : Prop :=
  live j → hostPort (I_Port j) ≠ sh ∧ hostPort (I_Port j) ≠ hostPort port.

Lemma split_hosts x percent h :
  about x → h ∈ route_hosts (Some (split x percent)) → h ∈ both.
Proof.
  intros (E1 & _ & _ & E4). unfold split. rewrite E1, E4. destruct (100 <=? percent); simpl.
  - intros ->%list_elem_of_singleton. by left.
  - rewrite !elem_of_cons. intros [->|[->|[]%not_elem_of_nil]]; [by right; left|by left].
Qed.

Lemma stop_beside_phase r j m :
  beside j → (∀ h, h ∈ route_hosts r → h ∈ both) → phase both r m →
  wp (stopInstance ev j) (λ x m', phase both r m' ∧ ∃ rep, x = Ok rep) m.
Proof.
  intros Hj Hr Hb. wp_call (stop_traffic ev false w0 (keeps slot)); [|exact Hb|done].
  intros t Ha. destruct (Hj (ex_intro _ t Ha)) as [H1 H2].
  assert (hostPort (I_Port j) ∉ both) as Hn.
  { rewrite !elem_of_cons. by intros [?|[?|?%not_elem_of_nil]]. }
  split; [|done]. intros Hin%Hr. by apply Hn.
Qed.

Lemma step_going x legacy i total switched s m :
  about x → (∀ j, j ∈ legacy → beside j) → going switched m →
  wp (step ev ro x legacy i total switched s) (λ y m', match y with
    | Ok _ => phase both (Some (split x (TrafficPercent s))) m'
    | Err _ => ended (λ r, converged r ∨ legacy ≠ []) m'
    end) m.
Proof.
  intros Hx Hleg (r & Hin & Hb). unfold step. wp_steps. apply traffic_tick in Hb.
  assert (∀ sw reason status keep r m, in_step sw r → phase both r m → (sw = false → keep = false) →
    wp (abort ev ro x sw reason status keep) (λ y m', match y with
    | Ok _ => phase both (Some (split x (TrafficPercent s))) m'
    | Err _ => ended (λ r, converged r ∨ legacy ≠ []) m'
    end) m) as Habort.
  { intros sw reason status keep r1 m1 Hin1 Hb1 Hk. wp_call abort_failed; [done..|].
    intros y m' [[e ->] [HI Hg]]. split; [done|by left]. }
  destruct (e_cancelled ev _); [by eapply Habort|].
  pose proof (λ h, split_hosts x (TrafficPercent s) h Hx) as Hhosts.
  destruct (split x (TrafficPercent s)) as [primary backends] eqn:Esplit. wp_steps.
  wp_call (switchTraffic_phase both r (primary, backends)); [exact Hhosts|exact Hb|].
  clear Hb m. intros [[]|e] m Hb; [|by eapply Habort]. wp_steps. apply traffic_tick in Hb.
  wp_call (persist_traffic ev false w0 (keeps slot)).
  { eapply phase_update; [exact Hb|]. intros Hk. destruct (ro_Secrets ro); exact Hk. }
  clear Hb m. intros [[]|e] m Hb; [|by eapply (Habort true); [by eexists|exact Hb|]].
  wp_steps. apply traffic_tick in Hb.
  destruct (e_verify ev _); [|by eapply (Habort true); [by eexists|exact Hb|]..].
  destruct ((i =? 0) && _)%bool eqn:El; wp_steps; [|done].
  assert (legacy ≠ []) as Hne by (intros ->; by rewrite andb_false_r in El).
  wp_call (wp_for_each (A := Instance) (phase both (Some (primary, backends)))); [exact Hb| |].
  - clear Hb m. intros j m Hj Hb. destruct (recorded j); cbn [negb]; wp_steps; [|done].
    wp_call stop_beside_phase; [by apply Hleg|exact Hhosts|exact Hb|].
    intros y m' [Hb' [rep ->]]. wp_steps. by destruct (negb (rep_Exited rep)).
  - intros [[]|e] m' Hb'; [done|]. eapply phase_ended; [exact Hb'|]. cbv beta. by right.
Qed.

Lemma steps_going x legacy i total switched l m :
  about x → (∀ j, j ∈ legacy → beside j) → going switched m → l ≠ [] →
  wp (steps ev ro x legacy i total switched l) (λ y m', match y with
    | Ok _ => phase both (Some (split x (TrafficPercent (List.last l (mkStep 0 0))))) m'
    | Err _ => ended (λ r, converged r ∨ legacy ≠ []) m'
    end) m.
Proof.
  intros Hx Hleg. revert i switched m. induction l as [|s l IH]; intros i switched m Hg Hl; [done|].
  cbn [steps]. wp_steps. wp_call step_going; [done|done|exact Hg|].
  clear Hg m. intros [[]|e] m Hb; [|done]. destruct l as [|s' l]; [exact Hb|].
  apply IH; [|done]. eexists. split; [|exact Hb]. by eexists.
Qed.

(** ** The promotion *)

(** All the traffic on the canary. *)
Definition canary_route : route := Some (mkTarget (hostPort port) c 0, []).

Lemma split_promotion x percent : about x → 100 ≤ percent → Some (split x percent) = canary_route.
Proof.
  intros (_ & _ & E3 & E4) Hp. unfold split, canary_route. by rewrite (proj2 (Z.leb_le _ _) Hp), E3, E4.
Qed.

Lemma retire_and_stop_failed x on_fail after m :
  about x → phase both stable_route m → wp (retire_and_stop ev x on_fail after) failed m.
Proof.
  intros (E1 & _ & E3 & E4) Hb. unfold retire_and_stop. rewrite E3, E4. wp_steps.
  wp_call retire_phase.
  { destruct m as [w s f]. by eapply phase_update; [exact Hb|]. }
  assert (converged stable_route) as Hconv by (by right; left).
  clear Hb m. intros [[]|e] m Hb; wp_steps; [|by split; [eauto|eapply phase_ended]].
  wp_call (stop_held_traffic false w0 (keeps slot) 0 [sh] stable_route).
  - intros Hh%list_elem_of_singleton. by apply Hsh.
  - by intros Hh%list_elem_of_singleton.
  - eapply (traffic_weaken _ _ _ _ _ [sh]); [|exact Hb]. intros h Hh. by right.
  - clear Hb m. intros ? m [-> Hb]. wp_steps. split; [eauto|by eapply phase_ended].
Qed.

Lemma set_active_phase a a' v K r m :
  phase_at a K r m → wp (set_active a' v) (λ x m', x = Ok tt ∧ phase_at a' K r m') m.
Proof.
  intros Hb. unfold set_active. wp_steps. split; [done|]. destruct m as [w s f].
  eapply phase_update; [exact Hb|]. by intros [_ Hi].
Qed.

(** Sending the traffic back after a failed promotion. *)
Lemma take_back_failed x on_fail after stuck m :
  about x → phase both canary_route m →
  wp (take_back ev x (restoreStableRouting ev ro (Some (x_stable x))) on_fail after stuck) failed m.
Proof.
  intros Hx Hb. pose proof Hx as (E1 & _ & E3 & E4). unfold take_back. rewrite E1. wp_steps.
  wp_call (restore_traffic (keeps slot)); [by right; left|by eexists|exact Hb|].
  clear Hb m. intros [[]|e] m; [by apply retire_and_stop_failed|]. intros [Hb Ht]. wp_steps.
  wp_call set_active_phase; [exact Hb|]. clear Hb m. intros ? m [-> Hb]. wp_steps.
  wp_call (storeState_traffic ev false w0 (keeps (x_canarySlot x))); [exact Hb|].
  intros ? m' [-> Hb']. wp_steps. split; [eauto|]. eapply phase_ended; [exact Hb'|]. by right; right.
Qed.

Lemma promote_canary_phase x m :
  about x → phase both canary_route m →
  wp (promote_canary ev ro x) (λ y m', match y with
    | Ok _ => phase_at c both canary_route m'
    | Err _ => ended converged m'
    end) m.
Proof.
  intros Hx Hb. pose proof Hx as (E1 & _ & E3 & E4). unfold promote_canary. wp_steps.
  assert (D_ActiveSlot (m_state m) = slot) as Hslot by apply Hb. rewrite Hslot.
  generalize (D_ActiveVersion (m_state m)) as oldVersion. intros oldVersion. clear Hslot.
  wp_call set_active_phase; [exact Hb|]. clear Hb m. intros ? m [-> Hb]. wp_steps.
  apply traffic_tick in Hb. rewrite E3 in Hb. wp_call (persist_traffic ev false w0 (keeps c)).
  { eapply phase_update; [exact Hb|]. intros Hk. destruct (ro_Secrets ro); exact Hk. }
  clear Hb m. intros [[]|e] m Hb.
  - destruct (0 <? e_target ev); wp_steps; [|done]. unfold wp at 1, promote.
    destruct (PromoteVersion _ _ _ _ _ _) as [y v]. cbn [fst snd].
    apply (traffic_step _ _ _ _ _ _ _ (w_set_tick (S (w_tick (m_world m))) (w_set_versions v (m_world m)))
      (m_state m) (m_flag m)) in Hb; [|done|done|simpl; lia|apply Hb].
    destruct y as [[]|e]; wp_steps; [exact Hb|]. wp_call set_active_phase; [exact Hb|]. clear Hb m. intros ? m [-> Hb]. wp_steps.
    pose proof Hb as (_ & _ & (_ & i & Hi & Hp) & _). rewrite Hi, Hp.
    rewrite (proj2 (Z.ltb_lt _ _) Hport).
    eapply wp_mono; [by eapply take_back_failed|]. by intros y m' [[e' ->] Hm].
  - wp_steps. wp_call set_active_phase; [exact Hb|]. clear Hb m. intros ? m [-> Hb]. cbv beta iota.
    eapply wp_mono; [by eapply take_back_failed|]. by intros y m' [[e' ->] Hm].
Qed.

Lemma drain_stable_ended m :
  phase_at c both canary_route m →
  wp (drain_stable ev slot) (λ _ m', ended (λ r, r = canary_route) m') m.
Proof.
  intros Hb. unfold drain_stable. wp_steps.
  pose proof Hb as (_ & _ & (_ & i & Hi & Hp) & _). rewrite Hi.
  assert (∀ m, phase_at c [hostPort port] canary_route m →
    wp (persist ev) (λ _ m', ended (λ r, r = canary_route) m') m) as Hlast.
  { intros m1 Hb1. wp_call (persist_traffic ev false w0 (keeps c)); [exact Hb1|].
    intros y m2 Hb2. by eapply phase_ended. }
  assert (phase_at c [hostPort port] canary_route m) as Hb1.
  { eapply traffic_weaken; [|exact Hb]. intros h ->%list_elem_of_singleton. by left. }
  destruct (recorded i); wp_steps; [|by apply Hlast].
  wp_call (stop_traffic ev false w0 (keeps c)); [|exact Hb1|].
  - intros t _. rewrite Hp. simpl. rewrite list_elem_of_singleton. by split.
  - clear Hb Hb1 m Hi. intros y m [Hb [rep ->]]. wp_steps. apply Hlast.
    destruct m as [w s f]. eapply phase_update; [exact Hb|].
    intros (Ha & i' & Hi' & Hp'). split; [done|]. simpl. rewrite lookup_alter_eq, Hi'. by eexists.
Qed.
End Stable.

(** ** The whole rollout *)

#[local] Abbreviation phase stable slot := (traffic false w0 (keeps stable slot slot) 0).

(** What the first three steps of [Deploy] hand to the rest. *)
Record adopted (s0 : DeployState) (stable : Instance) (legacy : list Instance) (slot : string)
    (m : machine) : Prop := {
  ad_port : 0 < I_Port stable;
  ad_routed : hostPort (I_Port stable) ∈ old_hosts;
  ad_origin : ∃ i, baseline s0 i ∧ live i ∧ I_Port i = I_Port stable;
  ad_phase : phase stable slot old_hosts (w_route w0) m;
  ad_interrupted : interrupted (m_state m) = interrupted s0;
  ad_others : reclaimable stable slot
    (if interrupted (m_state m) then stable_route stable else w_route w0) (D_Slots (m_state m));
  ad_legacy j : j ∈ legacy → live j →
    hostPort (I_Port j) ≠ hostPort (I_Port stable) ∧ recorded_in s0 j;
  ad_no_legacy : D_Mode s0 ≠ ModeRolling → legacy = []
}.

(** The record before the migration. *)
Definition fleet (s0 : DeployState) (_ : bool) (s : DeployState) : Prop :=
  D_Slots s = D_Slots s0 ∧ D_Replicas s = D_Replicas s0 ∧ D_ActiveSlot s = D_ActiveSlot s0 ∧
  D_Mode s = D_Mode s0 ∧ D_Canary s = D_Canary s0.

#[local] Instance fleet_persistent s0 : Persistent (fleet s0).
Proof. by intros f s s' (c & u & ->). Qed.

#[local] Abbreviation before s0 := (traffic false w0 (fleet s0) 0 old_hosts (w_route w0)).

Lemma annotate_before s0 m :
  before s0 m →
  wp (annotate ro) (λ x m', before s0 m' ∧ match x with
    | Ok pre => m_mode pre = D_Mode s0 ∧ (D_Mode s0 = ModeBlueGreen ∨ D_Mode s0 = ModeRolling)
    | Err _ => True
    end) m.
Proof.
  intros Hb. pose proof Hb as (_ & _ & (_ & _ & _ & HM & _) & _). unfold annotate. wp_steps.
  rewrite HM. destruct ((_ <>s _) && _)%bool eqn:E; wp_steps; [done|].
  set (s1 := if ro_Network ro <>s "" then _ else _).
  assert (fleet s0 (m_flag m) s1) as Hs.
  { destruct Hb as (_ & _ & Hs & _). subst s1.
    by destruct (ro_Network ro <>s ""), (ro_Runtime ro <>s ""). }
  split; [by eapply traffic_step; [..|exact Hb]|]. split; [apply Hs|].
  apply andb_false_iff in E as [E|E]; bool_prop; auto.
Qed.

Lemma firstLiveReplica_spec os s i :
  firstLiveReplica os s = Some i → InstanceAlive os i = true ∧ ∃ k, D_Replicas s !! k = Some i.
Proof.
  intros [Hin Ha]%find_some. split; [done|]. apply list_elem_of_In, list_elem_of_omap in Hin as (k & _ & Hk).
  eauto.
Qed.

Lemma find_stable_before s0 m :
  before s0 m →
  wp (find_stable ev ro) (λ x m', before s0 m' ∧ match x with
    | Ok i => baseline s0 i ∧ live i ∧ 0 < I_Port i
    | Err _ => True
    end) m.
Proof.
  intros Hb. pose proof Hb as (_ & _ & (HS & HR & HA & HM & _) & _). unfold find_stable. wp_steps.
  apply traffic_tick in Hb.
  set (pick := if D_Mode (m_state m) =s ModeRolling then _ else _).
  assert (wp pick (λ x m', m' = mkMachine (w_set_tick (S (w_tick (m_world m))) (m_world m))
      (m_state m) (m_flag m) ∧ ∀ i, x = Ok (Some i) → baseline s0 i)
    (mkMachine (w_set_tick (S (w_tick (m_world m))) (m_world m)) (m_state m) (m_flag m))) as Hpick.
  { unfold pick, baseline. rewrite HM. destruct (D_Mode s0 =s ModeRolling) eqn:E; bool_prop.
    - destruct (firstLiveReplica _ _) as [i|] eqn:Ef; wp_steps; (split; [done|]); [|done].
      intros i' [= <-]. left. split; [done|]. rewrite <- HR. by eapply firstLiveReplica_spec.
    - wp_steps. split; [done|]. intros i [= Hi]. right. split; [done|]. by rewrite <- HS, <- HA. }
  eapply wp_mono; [exact Hpick|]. clear Hpick. clearbody pick.
  intros [[i|]|e] m' [-> Hbase]; wp_steps; [|done..].
  destruct (I_Port i <=? 0) eqn:Ep; wp_steps; [done|]. bool_prop. unfold alive_now. wp_steps.
  apply traffic_tick in Hb. destruct (InstanceAlive _ i) eqn:Ea; wp_steps; [|done].
  split; [done|]. split; [by apply Hbase|]. split; [by eexists|lia].
Qed.

Lemma without_same l keep j :
  j ∈ withoutInstance l keep → j ∈ l ∧ same_process keep j = false.
Proof.
  intros [Hj Hs]%list_elem_of_In%filter_In. split; [by apply list_elem_of_In|].
  by apply negb_true_iff.
Qed.

Lemma stopped_dead slot : ¬ live (stopped_instance slot).
Proof. by intros [t Ha]. Qed.

Lemma slots_stopped_dead name j : slots_stopped !! name = Some j → ¬ live j.
Proof.
  unfold slots_stopped. intros [[_ <-]|[_ [_ <-]%lookup_singleton_Some]]%lookup_insert_Some;
    apply stopped_dead.
Qed.

(** What [adopt] leaves. *)
Definition adopting (s0 : DeployState) (x : res (Instance * list Instance)) (m : machine) : Prop :=
  match x with
  | Ok (stable, legacy) => ∃ slot, adopted s0 stable legacy slot m
  | Err _ => Inv false w0 [] (m_world m) ∧ w_route (m_world m) = w_route w0
  end.

Lemma adopt_slot s0 stable pre m :
  agrees s0 → m_mode pre = D_Mode s0 → D_Mode s0 = ModeBlueGreen →
  D_Slots s0 !! D_ActiveSlot s0 = Some stable → live stable → 0 < I_Port stable → before s0 m →
  wp (adopt ev ro pre stable) (adopting s0) m.
Proof.
  intros Ha Hpre Em Hslot Hlive Hport Hb.
  assert (D_Mode s0 ≠ ModeRolling) as Hnr by by rewrite Em.
  assert (baseline s0 stable) as Hbase by by right.
  unfold adopt, MigrateTo. rewrite Hpre, Em. wp_steps.
  assert (D_Mode (m_state m) = ModeBlueGreen) as HM.
  { destruct Hb as (_ & _ & (_ & _ & _ & -> & _) & _). done. }
  rewrite HM. change (ModeBlueGreen =s ModeBlueGreen) with true.
  change (ModeBlueGreen =s ModeRolling) with false. cbv iota. wp_steps.
  match goal with |- context [match ro_Secrets ro with Some _ => ?x | None => ?y end] =>
    set (s1 := match ro_Secrets ro with Some _ => x | None => y end) end.
  assert (fleet s0 (m_flag m) s1) as Hs1.
  { destruct Hb as (_ & _ & Hs & _). subst s1. by destruct (ro_Secrets ro). }
  clearbody s1. pose proof Hs1 as (HS & _ & HA & _ & HC).
  exists (D_ActiveSlot s0). split; [done|by apply (ag_routed _ Ha)|by exists stable| | | | |done].
  - destruct Hb as (HI & Hr & _ & Hn). split_and!; [done|done| |done].
    split; [done|]. simpl. rewrite HS. eauto.
  - simpl. unfold interrupted. by rewrite HC.
  - intros name j Hne Hj Hlj. simpl in Hj. rewrite HS in Hj.
    destruct (ag_other _ Ha name j) as [H1 H2]; [done..|]. split; [by eapply H1|].
    assert (interrupted s1 = interrupted s0) as Hi by (unfold interrupted; by rewrite HC).
    simpl. rewrite Hi. destruct (interrupted s0); [|by apply H2].
    intros Hin%list_elem_of_singleton. by eapply H1.
  - by intros j ?%not_elem_of_nil.
Qed.

Lemma adopt_replica s0 stable pre m :
  agrees s0 → m_mode pre = D_Mode s0 → D_Mode s0 = ModeRolling →
  baseline s0 stable → live stable → 0 < I_Port stable → before s0 m →
  wp (adopt ev ro pre stable) (adopting s0) m.
Proof.
  intros Ha Hpre Em Hbase Hlive Hport Hb.
  unfold adopt, MigrateTo. rewrite Hpre, Em. wp_steps.
  pose proof Hb as (_ & _ & (HS & HR & _ & HM & HC) & _).
  rewrite HM, Em. change (ModeRolling =s ModeBlueGreen) with false.
  change (ModeRolling =s ModeRolling) with true. unfold migrated. cbv zeta iota. wp_steps.
  set (s1 := with_Mode _ _). set (retired := List.filter recorded _).
  assert (∀ j, j ∈ retired → recorded_in s0 j) as Hret.
  { intros j [Hj _]%list_elem_of_In%filter_In. apply list_elem_of_In in Hj. rewrite HS, HR in Hj.
    by apply elem_of_app in Hj as [[k Hk]%retired_recorded|[k Hk]%retired_recorded]; exists k; auto. }
  clearbody retired.
  set (moved := λ (_ : bool) s, D_Slots s = slots_stopped ∧ D_Canary s = D_Canary s0).
  assert (Persistent moved) by by intros f s s' (c & u & ->).
  assert (traffic false w0 moved 0 old_hosts (w_route w0) (mkMachine (m_world m) s1 (m_flag m))) as Hb1.
  { destruct Hb as (HI & Hr & _ & Hn). by split_and!. }
  clear Hb HS HR HM. clearbody s1. wp_call (persist_traffic ev false w0 moved); [exact Hb1|].
  clear Hb1 m HC s1. intros [[]|e] m Hb; wp_steps.
  2:{ split; [by eapply traffic_end|apply Hb]. }
  match goal with |- context [match ro_Secrets ro with Some _ => ?x | None => ?y end] =>
    set (s1 := match ro_Secrets ro with Some _ => x | None => y end) end.
  assert (moved true s1) as [HS HC].
  { destruct Hb as (_ & _ & Hs & _). subst s1. by destruct (ro_Secrets ro). }
  clearbody s1. rewrite HS. set (s2 := with_ActiveSlot _ _).
  set (placed := λ f s, keeps stable SlotBlue SlotBlue f s ∧ D_Canary s = D_Canary s0 ∧
    D_Slots s = D_Slots s2).
  assert (Persistent placed) by by intros f s s' (c & u & ->).
  wp_call (storeState_traffic ev false w0 placed 0 old_hosts (w_route w0)).
  { destruct Hb as (HI & Hr & _ & Hn). split_and!; [done|done| |done]. split_and!; [|done|done].
    split; [done|]. exists (inst_Slot SlotBlue stable). by split. }
  clear Hb m. intros ? m [-> Hb]. wp_steps. pose proof Hb as (_ & _ & ([_ (i & Hi & Hp)] & HC1 & HS2) & _).
  exists SlotBlue. split; [done|exact (ag_routed _ Ha _ Hbase Hlive)|by exists stable| | | | |by rewrite Em].
  - destruct Hb as (HI & Hr & (Hk & _) & Hn). by split_and!.
  - unfold interrupted. by rewrite HC1.
  - rewrite HS2. intros name j Hne Hj Hlj. simpl in Hj. exfalso.
    apply lookup_insert_Some in Hj as [[_ <-]|[_ Hj]]; [by eapply stopped_dead|].
    rewrite lookup_insert_ne in Hj by done. by eapply slots_stopped_dead.
  - intros j [Hj Hs]%without_same Hlj. apply Hret in Hj. split; [|done]. intros Heq.
    change (same_process stable j = false) in Hs. by rewrite (ag_apart _ Ha stable j) in Hs.
Qed.

Lemma adopt_adopted s0 stable pre m :
  agrees s0 → m_mode pre = D_Mode s0 → (D_Mode s0 = ModeBlueGreen ∨ D_Mode s0 = ModeRolling) →
  baseline s0 stable → live stable → 0 < I_Port stable → before s0 m →
  wp (adopt ev ro pre stable) (adopting s0) m.
Proof.
  intros Ha Hpre [Em|Em] Hbase Hl Hp Hb; [|by apply adopt_replica].
  destruct Hbase as [[Hr _]|[_ Hs]]; [by rewrite Hr in Em|by apply adopt_slot].
Qed.

(** Where a run may end. *)
Definition settled (s0 : DeployState) (r : route) : Prop :=
  r = w_route w0 ∨
  (∃ i label, baseline s0 i ∧ live i ∧ r = Some (mkTarget (hostPort (I_Port i)) label 0, [])) ∨
  (∃ port c, launched port ∧ r = Some (mkTarget (hostPort port) c 0, [])) ∨
  (∃ t, e_proxy ev t ≠ None) ∨ D_Mode s0 = ModeRolling.

Definition outcome (s0 : DeployState) (x : res unit) (m : machine) : Prop :=
  Inv false w0 [] (m_world m) ∧
  match x with
  | Ok _ => ∃ port c, launched port ∧ w_route (m_world m) = Some (mkTarget (hostPort port) c 0, [])
  | Err _ => settled s0 (w_route (m_world m))
  end.

Lemma ended_outcome s0 stable legacy slot m0 e m :
  adopted s0 stable legacy slot m0 →
  ended (λ r, converged stable r ∨ legacy ≠ []) m → outcome s0 (Err e) m.
Proof.
  intros Had [HI Hg]. split; [done|]. destruct Hg as [[Hr|[Hr|Hr]]|Hr].
  - by left.
  - destruct (ad_origin _ _ _ _ _ Had) as (i & Hbase & Hl & Hp). right; left.
    exists i, (I_Slot stable). split; [done|]. split; [done|]. rewrite Hr, Hp. done.
  - by do 3 right; left.
  - do 4 right. destruct (decide (D_Mode s0 = ModeRolling)); [done|].
    destruct Hr. by eapply ad_no_legacy.
Qed.

Lemma rest_outcome s0 stable legacy slot pre m :
  lawful s0 → agrees s0 → ro_ProxyClient ro = true →
  (∃ x, List.last (P_Steps (ro_Plan ro)) (mkStep 0 0) = x ∧ 100 ≤ TrafficPercent x) →
  P_Steps (ro_Plan ro) ≠ [] →
  adopted s0 stable legacy slot m →
  wp (do s <- get_state;
      let stableSlot := D_ActiveSlot s in
      recover ev ro stable ;;;
      do s <- get_state;
      let canarySlot := InactiveSlot s in
      do port <- launch_canary ev ro pre canarySlot;
      gate_canary ev ro pre canarySlot port ;;;
      do s <- get_state;
      let x := mkCtx pre stable stableSlot canarySlot port (D_SecretTxnID s) in
      steps ev ro x legacy 0 (len (P_Steps (ro_Plan ro))) false (P_Steps (ro_Plan ro)) ;;;
      do s <- get_state;
      promote_canary ev ro x ;;;
      drain_stable ev (D_ActiveSlot s)) (outcome s0) m.
Proof.
  intros Hl Ha Hcl (last & Hlast & H100) Hne Had. wp_steps.
  pose proof (ad_port _ _ _ _ _ Had) as Hport. pose proof (ad_routed _ _ _ _ _ Had) as Hrouted.
  assert (D_ActiveSlot (m_state m) = slot) as Hslot by apply (ad_phase _ _ _ _ _ Had). rewrite Hslot.
  assert (∀ e m', ended (converged stable) m' → outcome s0 (Err e) m') as Hearly.
  { intros e m' [HI Hg]. eapply ended_outcome; [exact Had|]. split; [done|by left]. }
  wp_call recover_phase; [exact Hl|exact Hcl|exact Hport|exact Hrouted|apply Had| |apply Had|].
  { rewrite (ad_interrupted _ _ _ _ _ Had). apply (ag_interrupted _ Ha). }
  intros [[]|e] m1 (r & Hr & Hb).
  2:{ apply Hearly. eapply phase_ended; [exact Hb|apply Hr]. }
  wp_steps. assert (InactiveSlot (m_state m1) ≠ slot) as Hc.
  { destruct Hb as (_ & _ & [<- _] & _). apply InactiveSlot_ne. }
  revert Hc. generalize (InactiveSlot (m_state m1)) as c. intros c Hc.
  wp_call launch_canary_phase; [exact Hl|exact Hcl|exact Hrouted|exact Hc|exact Hr|exact Hb|].
  clear Hb m1. intros [port|e] m1 Hb; [|by apply Hearly]. destruct Hb as [Hp Hb]. wp_steps.
  wp_call gate_canary_phase; [exact Hl|exact Hrouted|exact Hc|exact Hr|exact Hp|exact Hb|].
  clear Hb m1. intros [[]|e] m1 Hb; [|by apply Hearly]. wp_steps.
  set (x := mkCtx _ _ _ _ _ _).
  assert (about stable slot c port x) as Hx by done.
  assert (hostPort (I_Port stable) ≠ hostPort port) as Hsh by by eapply canary_apart.
  wp_call steps_going; [exact Hl|exact Hcl|exact Hport|exact Hc|exact Hsh|exact Hx| | |exact Hne|].
  { intros j Hj Hlj. destruct (ad_legacy _ _ _ _ _ Had j Hj Hlj) as [H1 H2]. split; [done|].
    destruct Hp as (t & p & He). by eapply (law_fresh _ Hl). }
  { exists r. split; [|exact Hb]. split; [apply Hr|]. by eapply untouched_canary. }
  clear Hb. clearbody x. intros [[]|e] m2 Hb; [|by eapply ended_outcome].
  rewrite Hlast, (split_promotion _ _ _ _ _ _ Hx H100) in Hb. wp_steps.
  assert (D_ActiveSlot (m_state m2) = slot) as -> by apply Hb.
  wp_call promote_canary_phase; [exact Hl|exact Hcl|exact Hport|exact Hc|exact Hsh|exact Hx|exact Hb|].
  clear Hb m2. intros [[]|e] m2 Hb; [|by apply Hearly].
  wp_call drain_stable_ended; [exact Hsh|exact Hb|].
  clear Hb m2. intros y m2 [HI Hroute]. split; [done|].
  destruct y; [by exists port, c|]. do 2 right; left. by exists port, c.
Qed.
Lemma rollout_run_outcome s0 m :
  lawful s0 → agrees s0 → ro_ProxyClient ro = true → Validate (ro_Plan ro) = Ok tt → before s0 m →
  wp (deploy_run ev ro) (outcome s0) m.
Proof.
  intros Hl Ha Hcl Hv Hb. destruct (Validate_last _ Hv) as [Hne Hlast].
  unfold deploy_run. wp_steps. wp_call annotate_before; [exact Hb|].
  clear Hb m. intros [pre|e] m [Hb Hpre]; [|split; [by eapply traffic_end|left; apply Hb]].
  wp_steps. wp_call find_stable_before; [exact Hb|].
  clear Hb m. intros [found|e] m [Hb Hfound]; [|split; [by eapply traffic_end|left; apply Hb]].
  destruct Hpre as [Hpre Hmode], Hfound as (Hbase & Hlive & Hport). wp_steps.
  wp_call adopt_adopted; [exact Ha|exact Hpre|exact Hmode|exact Hbase|exact Hlive|exact Hport|exact Hb|].
  clear Hb m. intros [[stable legacy]|e] m Had; [|split; [apply Had|left; apply Had]].
  destruct Had as [slot Had]. cbv beta iota. eapply rest_outcome; [done..| |done|exact Had].
  eexists. split; [done|]. rewrite Hlast. done.
Qed.

Lemma Deploy_outcome s0 :
  Load (e_fs ev (w_tick w0)) (ro_AppName ro) (w_journal w0) = Loaded s0 →
  lawful s0 → agrees s0 →
  ∃ s f, outcome s0 (Deploy ev ro w0).1 (mkMachine (Deploy ev ro w0).2 s f).
Proof.
  intros Hload Hl Ha.
  assert (∀ e, outcome s0 (Err e) (mkMachine w0 s0 false)) as Hno.
  { intros e. split; [|by left]. eapply Inv_weaken; [|apply Inv_start]. by intros ? ?%not_elem_of_nil. }
  unfold Deploy. destruct (Validate (ro_Plan ro)) as [[]|e] eqn:Hv; [|by eauto].
  destruct (ro_Source ro); cbn [negb]; [|by eauto]. destruct (ro_Launcher ro); cbn [negb]; [|by eauto].
  destruct (ro_ProxyClient ro) eqn:Hcl; cbn [negb]; [|by eauto]. cbv zeta. simpl w_journal. rewrite Hload.
  pose proof (rollout_run_outcome s0 (mkMachine (w_set_tick (S (w_tick w0)) w0) s0 false) Hl Ha Hcl Hv) as Hrun.
  destruct (deploy_run ev ro _) as [x m] eqn:Er. exists (m_state m), (m_flag m). simpl.
  unfold wp in Hrun. rewrite Er in Hrun. destruct m as [w s f]. apply Hrun.
  split_and!; [|done|done|simpl; lia]. eapply Inv_unseen; [..|apply Inv_start]; done.
Qed.
End Safety.

(** C4: a canary rollout is zero-downtime on every path.  Assume that a proxy
    call that fails was not carried out, that launches get ports not in use
    ([lawful]), that the record agrees with the proxy, and, where an earlier
    rollout was interrupted, that the application is routed and every proxy
    call succeeds ([agrees]).  Then whatever else fails and whatever the
    verifications answer, no instance is stopped while the proxy routes to it,
    the application never loses its route, and traffic only ever goes to
    instances that took it before the run or were found healthy during it.
    Without the last assumption the interrupted canary may be stopped while it
    is routed (examples). *)
Theorem rollout_Deploy_never_cuts_traffic ev ro w0 s0 :
  Load (e_fs ev (w_tick w0)) (ro_AppName ro) (w_journal w0) = Loaded s0 →
  lawful ev w0 s0 → agrees ev w0 s0 →
  ∃ l, w_log (Deploy ev ro w0).2 = w_log w0 ++ l ∧
       trace_ok false (trace_start (w_route w0)) l = true.
Proof.
  intros Hs Hl Ha.
  destruct (Deploy_outcome ev ro w0 s0) as (s & f & (R & (l & Hlog & Hok & _) & _) & _); [done..|].
  by exists l.
Qed.

(** C33: a rollout of an application that is not in rolling mode converges on
    one version, when its record agrees with the proxy and no proxy call fails.
    When it succeeds all the traffic is on the canary; when it fails, the route
    is the one before the run, or all the traffic is on the stable baseline, or
    all of it is on the canary. *)
Theorem rollout_Deploy_converges ev ro w0 s0 :
  Load (e_fs ev (w_tick w0)) (ro_AppName ro) (w_journal w0) = Loaded s0 →
  lawful ev w0 s0 → agrees ev w0 s0 → D_Mode s0 ≠ ModeRolling → (∀ t, e_proxy ev t = None) →
  let final := Deploy ev ro w0 in
  let on port label := w_route final.2 = Some (mkTarget (hostPort port) label 0, []) in
  match final.1 with
  | Ok _ => ∃ port slot, launched ev port ∧ on port slot
  | Err _ => w_route final.2 = w_route w0 ∨
             (∃ i label, D_Slots s0 !! D_ActiveSlot s0 = Some i ∧ live ev i ∧ on (I_Port i) label) ∨
             (∃ port slot, launched ev port ∧ on port slot)
  end.
Proof.
  intros Hs Hl Ha Hm Hp.
  destruct (Deploy_outcome ev ro w0 s0) as (s & f & _ & Hout); [done..|].
  cbv zeta. destruct (Deploy ev ro w0).1 as [[]|e]; [done|].
  destruct Hout as [H|[(i & label & [[? _]|[_ Hb]] & Hlive & Hr)|[H|[[t Ht]|?]]]]; try done; eauto 7.
  by rewrite Hp in Ht.
Qed.

(** ** Runs *)

Module RolloutSamples.

(** Process 100 serves on port 9000 and is the baseline. *)
Definition stable : Instance :=
  mkInstance [] SlotBlue 100 9000 "/bin/web" "" 5 "running" 1 "" 7.
Definition serving : DeployState :=
  with_ActiveVersion 1 (with_ActiveSlot SlotBlue
    (empty_state "web" ModeBlueGreen 80
       {[ SlotBlue := stable; SlotGreen := stopped_instance SlotGreen ]})).
Definition stable_only : route := Some (mkTarget "127.0.0.1:9000" SlotBlue 0, []).
Definition shared (percent : Z) : route :=
  Some (mkTarget "127.0.0.1:9000" SlotBlue (100 - percent), [mkTarget "127.0.0.1:9100" SlotGreen percent]).
Definition canary_only : route := Some (mkTarget "127.0.0.1:9100" SlotGreen 0, []).

Definition os : os_view :=
  mkOS (λ pid, one_of (Itoa pid) ["100"; "101"; "200"]) (λ _, Some 7) (λ _, "/bin/web") (λ _, true)
    String.eqb (λ _, InspectError true).

Definition run_env_proxy (proxy : nat → option (error * bool)) (fs : nat → faults)
    (exited : nat → bool) (verify : nat → verdict) : env :=
  mkEnv (λ n, Z.of_nat n) fs (λ _ _, None) (λ _, os) id (λ _, true) (λ _, true) proxy
    (λ _, Ok ("/bin/web", "")) 2 (λ _, Ok []) (λ _, Ok (mkProc 200 7 "", 9100)) (1, "http")
    (λ _, None) (λ _, false) (λ n, mkReport (exited n) false) (λ _, true) (λ _, None) (λ _, true)
    (λ _, None) (λ _, None) (λ _, true) (λ _, None) verify.

Definition run_env := run_env_proxy (λ _, None).

Definition three_steps : RolloutPlan :=
  mkPlan StrategyProgressive [mkStep 10 30; mkStep 50 30; mkStep 100 0].
Definition web : Rollout := mkRollout "web" "id1" 80 three_steps true true true false "" "" None.
Definition begin (s : DeployState) (rt : route) : world :=
  mkWorld 0 {[ deploy_json := Data s ]} (mkVStore None ∅ ∅ None) rt [].

(** The verification of the second step, the call number 22, answers [v]. *)
Definition at_second_step (v : verdict) : env :=
  run_env (λ _, FileStore.no_faults) (λ _, true) (λ n, if Nat.eqb n 22 then v else Verified).
Definition slow_canary : env := at_second_step (CanaryRejected (New CodeHealthCheckFailed "p95")).

Lemma serving_slots name i :
  D_Slots serving !! name = Some i → name = SlotBlue ∧ i = stable ∨ i = stopped_instance SlotGreen.
Proof.
  simpl. intros [[<- <-]|[_ [_ <-]%lookup_singleton_Some]]%lookup_insert_Some; [by left|by right].
Qed.

Lemma serving_recorded v i :
  recorded_in serving i → live (at_second_step v) i → i = stable.
Proof.
  intros [k [[[_ ->]|Hi]%serving_slots|Hk]] Hl; [done| |done]. subst i. exfalso.
  by eapply stopped_dead.
Qed.

Lemma serving_lawful v : lawful (at_second_step v) (begin serving stable_only) serving.
Proof.
  split.
  - done.
  - intros t p port [= <- <-]. simpl. rewrite list_elem_of_singleton. intros Heq%(hostPort_inj _ 9000). lia.
  - intros t p port i [= <- <-] Hi Hl Heq. rewrite (serving_recorded v i Hi Hl) in Heq.
    apply hostPort_inj in Heq. simpl in Heq. lia.
  - done.
Qed.

Lemma serving_agrees v : agrees (at_second_step v) (begin serving stable_only) serving.
Proof.
  assert (∀ i, baseline serving i → i = stable) as Hbase.
  { by intros i [[? _]|[_ [= <-]]]. }
  split.
  - intros i ->%Hbase _. by left.
  - by intros i j ->%Hbase _ Hj ->%serving_recorded.
  - intros name j _ Hne [[-> ->]|Hj]%serving_slots Hl; [done|]. subst j. exfalso. by eapply stopped_dead.
  - done.
Qed.

(** The canary is too slow at half of the traffic: all of it goes back. *)
Lemma rollout_Deploy_never_cuts_traffic_witness :
  let final := Deploy slow_canary web (begin serving stable_only) in
  is_ok final.1 = false ∧ w_log final.2 =
    [EvLaunch "127.0.0.1:9100"; EvHealthy "127.0.0.1:9100"; EvRoute (shared 10);
     EvRoute (shared 50); EvRoute stable_only; EvStop "127.0.0.1:9100"] ∧
  ∃ l, w_log final.2 = [] ++ l ∧ trace_ok false (trace_start stable_only) l = true.
Proof.
  split; [vm_compute; reflexivity|]. split; [vm_compute; reflexivity|].
  apply (rollout_Deploy_never_cuts_traffic slow_canary web (begin serving stable_only) serving).
  - reflexivity.
  - apply serving_lawful.
  - apply serving_agrees.
Defined.

Lemma rollout_Deploy_converges_witness :
  let final := Deploy slow_canary web (begin serving stable_only) in
  let on port label := w_route final.2 = Some (mkTarget (hostPort port) label 0, []) in
  match final.1 with
  | Ok _ => ∃ port slot, launched slow_canary port ∧ on port slot
  | Err _ => w_route final.2 = stable_only ∨
             (∃ i label, D_Slots serving !! D_ActiveSlot serving = Some i ∧ live slow_canary i ∧
                on (I_Port i) label) ∨
             (∃ port slot, launched slow_canary port ∧ on port slot)
  end.
Proof.
  apply (rollout_Deploy_converges slow_canary web (begin serving stable_only) serving).
  - reflexivity.
  - apply serving_lawful.
  - apply serving_agrees.
  - discriminate.
  - reflexivity.
Defined.

(** ** Limits of the code *)

Definition status_of (w : world) : option (string * gmap string Instance * option string) :=
  match w_journal w !! deploy_json with
  | Some (Data s) => Some (D_Mode s, D_Replicas s, C_Status <$> D_Canary s)
  | _ => None
  end.

(** The baseline fails its probe during the second step: it gets all of the
    traffic back, and the healthy canary keeps running without any. *)
Example unhealthy_baseline_takes_the_traffic :
  let w := (Deploy (at_second_step (BaselineUnhealthy (New CodeHealthCheckFailed "down"))) web
              (begin serving stable_only)).2 in
  w_log w = [EvLaunch "127.0.0.1:9100"; EvHealthy "127.0.0.1:9100"; EvRoute (shared 10);
             EvRoute (shared 50); EvRoute stable_only].
Proof. vm_compute; reflexivity. Qed.

(** A fleet of two replicas. *)
Definition fleet_of_two : DeployState :=
  with_Replicas {[ "0" := stable; "1" := mkInstance [] "1" 101 9001 "/bin/web" "" 5 "running" 1 "" 7 ]}
    (empty_state "web" ModeRolling 80 ∅).
Definition both : route :=
  Some (mkTarget "127.0.0.1:9000" "replica-0" 0, [mkTarget "127.0.0.1:9001" "replica-1" 0]).

(** The second replica cannot be stopped after the first switch: the rollout
    ends with the traffic split and the record still says it is running. *)
Example failed_retirement_leaves_the_split :
  let final := Deploy (run_env (λ _, FileStore.no_faults) (λ _, false) (λ _, Verified)) web
                 (begin fleet_of_two both) in
  is_ok final.1 = false ∧ w_route final.2 = shared 10 ∧
  status_of final.2 = Some (ModeBlueGreen, ∅, Some CanaryRunning).
Proof. split_and!; vm_compute; reflexivity. Qed.

(** A rollout over two replicas rejected at its first step: the second replica
    was not stopped, and no record names it any more. *)
Example failed_rollout_forgets_a_replica :
  let w := (Deploy (run_env (λ _, FileStore.no_faults) (λ _, true)
                      (λ _, CanaryRejected (New CodeHealthCheckFailed "p95"))) web
              (begin fleet_of_two both)).2 in
  w_log w = [EvLaunch "127.0.0.1:9100"; EvHealthy "127.0.0.1:9100"; EvRoute (shared 10);
             EvRoute stable_only; EvStop "127.0.0.1:9100"] ∧
  status_of w = Some (ModeBlueGreen, ∅, Some CanaryFailed).
Proof. split; vm_compute; reflexivity. Qed.

(** An interrupted rollout whose canary, on port 9001, still takes half of the
    traffic; the proxy refuses the first order only. *)
Definition interrupted_record : DeployState :=
  with_Canary (Some (mkCanary 2 StrategyCanary SlotGreen 0 2 50 CanaryRunning "" 5 5))
    (with_Slots {[ SlotBlue := stable;
                   SlotGreen := mkInstance [] SlotGreen 101 9001 "/bin/web" "" 5 "running" 2 "" 7 ]}
       serving).
Definition half : route :=
  Some (mkTarget "127.0.0.1:9000" SlotBlue 50, [mkTarget "127.0.0.1:9001" SlotGreen 50]).

Example interrupted_canary_is_stopped_while_routed :
  let w := (Deploy (run_env_proxy (λ n, if Nat.eqb n 3 then Some (New CodeProxy "refused", false) else None)
      (λ _, FileStore.no_faults) (λ _, true) (λ _, Verified)) web
              (begin interrupted_record half)).2 in
  firstn 1 (w_log w) = [EvStop "127.0.0.1:9001"] ∧ trace_ok false (trace_start half) (w_log w) = false.
Proof. split; vm_compute; reflexivity. Qed.

End RolloutSamples.
